(* ===== verification/_CoqProject ===== *)
-Q . S2P
Prelude.v
GoStr.v
Bytes.v
Sha256.v
Netip.v
Domain.v
Flow.v
SessionStore.v
StoreInv.v
StoreProps.v
Config.v
Services.v
TLSExclusion.v
PolicyCheck.v
Validate.v
Connectivity.v
ConnProps.v
GateProps.v
Codec.v
Mark.v
Epoch.v
GateFrame.v
GateIPC.v
GateServe.v
GateVerdict.v
TopK.v
GateEvidence.v
EvidenceProps.v
Interleave.v
EventRing.v
Runtime.v
RuntimeProps.v
RuntimeSeq.v
GateRuntime.v
GateService.v
GateServiceProps.v
GatePrepare.v
GoNet.v
Validator.v
ValidatorProps.v
Manager.v
ManagerProps.v
Service.v
ServiceProps.v
Observation.v
Reducer.v
ReducerProps.v
SecurityStore.v
SecurityProps.v
Correlation.v
CorrelationProps.v
Eve.v
EveProps.v
InspectionRuntime.v
GateLock.v
InspectionProps.v
Guards.v
NftModel.v
GuardAgree.v
NftRunner.v
GuardProps.v
Reader.v
ReaderProps.v
RequestPcap.v
RequestPcapProps.v
RequestEve.v
RequestEveProps.v
RequestWorker.v
RequestWorkerProps.v
HttpRequest.v
HttpGate.v
HttpGateProps.v
ClientHello.v
ClientHelloProps.v
Ruleset.v
NftText.v
RulesetLines.v
RulesetForward.v
RulesetProps.v
