(* ===== verification/Prelude.v ===== *)
(** * NGFW: a verification library for the SENTINEL NGFW appliance

    ** The program

    The appliance (Go, under [src/]) is a next-generation firewall for Linux.
    An engine process observes kernel connections through conntrack, keeps a
    session table, evaluates each session against a compiled connectivity
    policy and pushes guards into nftables.  A transparent proxy asks the engine,
    over a Unix-socket IPC, whether it may handle a connection and whether each
    held HTTP request may pass; requests are inspected by workers and every
    verdict leaves bounded evidence.  A configuration goes through validation
    before it is compiled and activated under a new generation.

    ** Files and the code they model

    Language and library.
    - [Prelude], [GoStr], [Bytes], [Sha256], [Netip]: record update, result monad, 64-bit integers, sorting; Go strings; bytes and
      big-endian fields; SHA-256; the part of [net/netip] the program uses.
    - [Codec]: [encoding/json] as an interface ([Class]) with its round-trip law.
    - [Interleave]: a goroutine as a tree of critical sections, its run under an
      arbitrary schedule of the others, a weakest-precondition calculus with
      rely and guarantee, and pools of concurrent calls.

    Sessions.
    - [Domain], [Flow]: [internal/domain] tuples, identities, sessions; [internal/flow].
    - [SessionStore]: [internal/session] ([runtime_store.go], [history.go],
      [inspection.go]), every operation of the store; [StoreInv] its invariant,
      [StoreProps] its theorems.

    Configuration and policy.
    - [Config], [Services]: configuration records, the service grammar.
    - [TLSExclusion], [PolicyCheck], [Validate]: [internal/config] checks.
    - [Connectivity]: [internal/connectivity], compilation and evaluation;
      [ConnProps], [GateProps] their theorems.
    - [GoNet]: the part of package [net] the validator uses.
    - [Validator]: [config/manager.go], the validator; [ValidatorProps] its
      declarative specification and that what it accepts compiles.
    - [Manager]: [config/manager.go], [editor.go], [file.go], the candidate, the
      running configuration and the rollback target with their files;
      [ManagerProps] its theorems.

    Data plane and IPC.
    - [Mark], [Epoch]: [internal/dataplane] cache marks and the epoch allocator.
    - [Guards]: [inspection_guards.go], [runtime_guards.go], the guards of sessions in
      the kernel; [NftModel] what is relied on of the adapter to nftables, [GuardAgree]
      and [GuardProps] when the record of the guards and the kernel agree;
      [NftRunner] ([nft.go], [inspection_schema.go]) the adapter itself, which is
      shown to keep what [NftModel] asks ([runner_laws]).
    - [Ruleset]: [compiler.go], [compiler_m2.go], the text of the kernel's tables;
      [NftText] nft as a parameter with the documented meaning of the lines the
      compiler writes as its laws, and words and conditions written and read back,
      [RulesetLines] the lines of a policy and what they match, [RulesetForward]
      what the compiler's replacements leave, [RulesetProps] the theorems.
    - [GateFrame], [GateIPC], [GateServe]: [internal/gateipc] framing, one
      exchange, the accept loop as a step relation.

    Engine.
    - [EventRing]: [engine/runtime_events.go].
    - [Runtime]: [engine/runtime.go], each method a program over the sections the
      code runs under a lock; [RuntimeProps] its theorems under interleaving,
      [RuntimeSeq] those of a call that runs alone.
    - [GateVerdict], [TopK], [GateEvidence], [EvidenceProps]:
      [engine/gate_request.go] and [gate_result.go], verdict and evidence.
    - [GateRuntime]: [engine/gate_runtime.go], [gate_activation.go]; [GatePrepare]
      its theorems.
    - [GateService]: [engine/gate_service.go], [gate_lookup.go], the rest of
      [gate_request.go]; [GateServiceProps] its theorems.

    - [Service]: [engine/runtime_service.go], the commit and rollback of the
      privileged service over manager, kernel and runtime, with compensation;
      [ServiceProps] its theorems.

    Inspection.
    - [Observation]: [inspection/source.go], [application.go], observations and
      the merge of application evidence.
    - [Reducer]: [engine/inspection_reducer.go]; [ReducerProps] its theorems.
    - [SecurityStore]: [engine/security_events.go], the circular buffer of threat
      events; [SecurityProps] its refinement to a queue and its paging.
    - [Correlation]: [inspection/correlation], from an observation to a session;
      [CorrelationProps] its theorems.
    - [Eve]: [inspection/eve] ([parser.go], [identity.go]), sensor records, their
      identifiers and the duplicate filter; [EveProps] its theorems.
    - [Reader]: [eve/reader.go], [checkpoint.go], the sensor's file across growth,
      rotation and restarts; [ReaderProps] its theorems.
    - [InspectionRuntime]: [engine/inspection_runtime.go], [inspection_identity.go],
      the goroutines between sensors, sessions and guards; [GateLock] the
      reader-writer lock they share with activation; [InspectionProps] their
      theorems.

    Request inspection.
    - [RequestPcap]: [inspection/requestpcap/builder.go], a request as a packet
      capture; [RequestPcapProps] the readers of captures and of HTTP, the TCP
      endpoint and the theorems.
    - [RequestEve]: [inspection/requestworker/eve.go], the detector's answer for one
      job; [RequestEveProps] its theorems.
    - [RequestWorker]: [inspection/requestworker/pool.go], callers, workers and
      [Close] as interleaved state machines; [RequestWorkerProps] their invariants
      and theorems.

    Proxy.
    - [ClientHello]: [inspection/tls.go], [proxy/clienthello.go],
      [gate_connection.go], a connection before its first request;
      [ClientHelloProps] its theorems.
    - [HttpRequest]: [inspection/http_gate.go], [decompress_gate.go],
      [proxy/request_body.go], [request_model.go], a held request and its body.
    - [HttpGate]: [proxy/http1_gate.go], [request_result.go], from a request's
      arrival to the client's answer, as the list of what the gate does;
      [HttpGateProps] its theorems.

    ** What is shown

    - Authorisation.  [OpenConnection_authorised], [EvaluateRequest_authorised],
      [evaluate_allow_justified], [revoked_never_allowed]: whatever runs beside a
      call, an ALLOW it returns was right at a moment inside the call.
    - State.  [reachable_store_inv], [runtime_interleavings_ok],
      [evidence_store_bounded], [connections_bounded], [serve_bounded]: the shared
      tables stay consistent and bounded.
    - Change of policy.  [Activate_settles], [Revoke_then_drop],
      [SetDecisionIfCurrent_fenced], [epochs_never_reused], [heartbeat_ownership],
      [PrepareGateRuntime_confirmed].
    - The whole activation.  [CommitConfig_settles], [service_stays_in_step],
      [retry_is_idempotent]: manager, kernel and runtime move together, the kernel
      being what its activations answered, except after the failures of the
      compensation itself ([out_of_step]), and the running file follows unless a write
      of it failed.
    - Configuration.  [Commit_atomic], [Rollback_atomic], [engine_history],
      [commit_survives_restart]: a configuration is published only
      after the kernel took it, a refused one leaves the manager as it was, and what
      is published survives restarts; [Validate_iff], [Validate_compiles]: what the validator
      accepts; [failed_commit_reappears]: the one failure that is not undone.
    - Policy.  [Evaluate_smallest_priority], [unreachablePolicyErrors_sound],
      [SelectRequestGate_sound],
      [covered_exclusion_never_first], [InferAddressZone_longest_prefix].
    - Inspection.  [guard_request_justified], [applied_guard_survives]: when an
      observation may ask for a guard, and that none takes a guard away;
      [Resolve_names_only_session], [pending_drains]: which session an observation
      is about, and that it does not wait for ever; [recent_duplicate_recognised],
      [accepted_line_bounded], [event_input_injective], [reading_in_pieces]: what is
      taken from a sensor, every line once; [failed_reopen_stops_reader]: when the
      reader stops;
      [executeIntent_fenced]: guards are carried out for the session they were asked
      for, by the engine's executor, and one applied for a session that has changed is
      taken back; [gate_clients_finish]: workers and activation do not block each other;
      [full_queue_deadlock], [policy_change_forgets_guard]: two cases where the
      code does not do what it means to.
    - Kernel policy.  [kernel_decides_as_program]: for a configuration in plain form
      ([plain_config]) the text of the policy table, as nft documents its reading,
      decides the first packet of a connection as the connectivity program does; [replies_meet_other_policies]:
      when the replies of an allowed connection are dropped.
    - Guards.  [guards_drop_exactly], [applied_intent_in_force],
      [guard_scripts_roundtrip]: which packets are dropped, for any answers of nft and
      more sharply when none of its errors hides a change, what the executor's answers
      mean, and that its scripts are read as they are meant.
    - Request inspection.  [capture_shows_request], [capture_fields_safe]: what the
      detector reads is the request, without its credentials;
      [NormalizeEVE_complete_iff], [foreign_record_rejected]: when an inspection
      counts as complete; [pool_balanced], [inspect_returns_own_result],
      [Close_returns]: the pool leaks nothing, mixes nothing up and closes.
    - Proxy.  [connection_fate], [clienthello_any_framing], [connection_target_fixed]:
      what becomes of a connection, byte for byte; [forward_needs_allow],
      [gate_slots_balanced]: which requests reach a server, and that no slot is
      lost; [later_codings_uninspected]: which body an inspection is shown.
    - Refinement and equivalence.  [Resolve_refines], [storeGateDecision_refines],
      [Add_refines], [UpdateCorrelation_refines], [pages_complete],
      [ListRequestGateEvidence_page].
    - Transport.  [frame_roundtrip], [exchange_delivers], [SetCacheMark_roundtrip].

    ** Time, integers, fuel

    A time is a number of nanoseconds, zero being Go's zero time; 64-bit counters
    wrap as in Go ([inc64], [u64], [i64]).  Every loop of the code is bounded by
    its data or by a count of the code: [evaluate] retries twice,
    [OpenConnection] tries three times, so these are structural recursions on the
    remaining attempts and need no fuel; [PrepareGateRuntime] takes the number of
    ticks its 30-second context allows (600 at 50 ms).  A map the code ranges over
    is a [gmap], and where the order matters the order is a parameter.  The loops
    over a ClientHello take the length of what they read as fuel; the fuel ends
    only when nothing is left to read ([parse_records_spec]); the reader of an nft
    rule takes one more than its words, each step taking one ([read_conditions]).

    ** Parameters

    Code that is not under [src/] is an argument: the JSON codec ([Codec]), the
    kernel source's answers, the guard enforcer, random bytes, the clock, the gzip
    and zlib decoders, the outcome of file operations, dialling and handshakes, the
    activation of the kernel and the hooks of the service with their answers, and nft:
    its tables for guards ([NftModel], and [NftBinary] of [NftRunner] below it) and its
    reading of the policy table ([Nft] of [NftText]), each with its laws and an instance
    that satisfies them.  SHA-256 is computed.

    ** Not modelled

    Netlink and Suricata processes, sockets, files and HTTP handlers (I/O around the
    modelled logic), the controller that runs an activation of the kernel and the tables
    of the proxy stage, the older request pipeline ([policy], [risk], [engine.go]),
    accounts and telemetry, the web UI, the ML service and scripts (other languages).
    *)

From Stdlib Require Export ZArith Lia.
From stdpp Require Export base tactics list strings gmap fin_maps sets sorting pretty.

#[global] Open Scope Z_scope.

(** ** Field update of records

    [r <| f := v |>] is Go's assignment [r.f = v] on a value, [r <| f ::= g |>]
    is [r.f = g(r.f)].  A record type joins by an [Eta] instance that lists its
    fields once; the update of one field abstracts that field's projection in
    the expansion. *)

Class Eta (R : Type) := eta_record : R -> R.

Class FieldUpd {R T : Type} (p : R -> T) := field_upd : (T -> T) -> R -> R.

Ltac derive_field_upd :=
  lazymatch goal with
  | |- @FieldUpd ?R ?T ?p =>
      let inst := constr:(_ : Eta R) in
      let body := eval red in inst in
      let body := lazymatch body with
                  | context [fun _ => _] => body
                  | ?c => eval unfold c in c
                  end in
      let abstracted := eval pattern p in body in
      lazymatch abstracted with
      | ?k p => exact (fun (g : T -> T) (r : R) => k (fun r' => g (p r')) r)
      end
  end.

#[export] Hint Extern 1 (FieldUpd _) => derive_field_upd : typeclass_instances.

Declare Scope go_scope.
Delimit Scope go_scope with go.

#[warnings="-postfix-notation-not-level-1"]
Notation "r <| f ::= g |>" := (field_upd (p := f) g r)
  (at level 12, f at next level, left associativity) : go_scope.
#[warnings="-postfix-notation-not-level-1"]
Notation "r <| f := v |>" := (field_upd (p := f) (fun _ => v) r)
  (at level 12, f at next level, left associativity) : go_scope.

#[global] Open Scope go_scope.

(** ** Results of fallible Go functions

    A Go function that returns [(T, error)] returns [Ok] when the error is nil
    and [Err] otherwise; the value Go returns beside a non-nil error is the zero
    value and is not looked at. *)

Inductive result (E A : Type) : Type :=
| Ok (a : A)
| Err (e : E).
Arguments Ok {E A} _.
Arguments Err {E A} _.

Definition result_bind {E A B} (m : result E A) (k : A -> result E B) : result E B :=
  match m with
  | Ok a => k a
  | Err e => Err e
  end.

Notation "'let?' x := m 'in' k" := (result_bind m (fun x => k))
  (at level 10, x name, m at level 100, k at level 200) : go_scope.

Definition is_ok {E A} (m : result E A) : bool :=
  match m with Ok _ => true | Err _ => false end.

Lemma result_bind_Ok {E A B} (m : result E A) (k : A -> result E B) (b : B) :
  result_bind m k = Ok b <-> exists a, m = Ok a /\ k a = Ok b.
Proof. destruct m as [a | e]; simpl; naive_solver. Qed.

(** A loop that may fail at each element: the first error stops it. *)
Fixpoint mapM_result {E A B} (f : A -> result E B) (l : list A) : result E (list B) :=
  match l with
  | [] => Ok []
  | x :: l' => let? y := f x in let? ys := mapM_result f l' in Ok (y :: ys)
  end.

Lemma mapM_result_Ok {E A B} (f : A -> result E B) (l : list A) (ys : list B) :
  mapM_result f l = Ok ys <-> Forall2 (fun x y => f x = Ok y) l ys.
Proof.
  revert ys. induction l as [| x l IH]; intros ys; simpl.
  - split; [intros [= <-]; constructor | intros H; inversion H; done].
  - rewrite result_bind_Ok. split.
    + intros (y & Hy & H). apply result_bind_Ok in H as (zs & Hz & [= <-]).
      constructor; [done | by apply IH].
    + intros H. inversion H as [| ? y ? zs Hy Hz]; subst.
      exists y. split; [done|]. apply IH in Hz. by rewrite Hz.
Qed.

(** ** Machine integers

    A Go value of a fixed-width unsigned type is the [Z] it denotes; arithmetic
    on it wraps explicitly. [int] is 64 bits wide, as on the amd64 target. *)

Definition u8 (x : Z) : Z := x mod 2 ^ 8.
Definition u16 (x : Z) : Z := x mod 2 ^ 16.
Definition u32 (x : Z) : Z := x mod 2 ^ 32.
Definition u64 (x : Z) : Z := x mod 2 ^ 64.
Definition maxInt64 : Z := 2 ^ 63 - 1.
Definition minInt64 : Z := - 2 ^ 63.
Definition i64 (x : Z) : Z := (x + 2 ^ 63) mod 2 ^ 64 - 2 ^ 63.

(** [x++] on a [uint64] field. *)
Definition inc64 (x : Z) : Z := u64 (x + 1).

Lemma u64_small x : 0 <= x < 2 ^ 64 -> u64 x = x.
Proof. apply Z.mod_small. Qed.

Lemma inc64_neq x : 0 <= x < 2 ^ 64 -> inc64 x <> x.
Proof.
  unfold inc64, u64. intros Hx Heq.
  destruct (decide (x + 1 = 2 ^ 64)) as [E|E].
  - rewrite E, Z.mod_same in Heq; lia.
  - rewrite Z.mod_small in Heq; lia.
Qed.

Lemma u64_range x : 0 <= u64 x < 2 ^ 64.
Proof. apply Z.mod_pos_bound. lia. Qed.

Lemma i64_small x : minInt64 <= x <= maxInt64 -> i64 x = x.
Proof. unfold i64, minInt64, maxInt64. intros. rewrite Z.mod_small; lia. Qed.

(** The [n] bytes of [x], most significant first. *)
Fixpoint be_bytes (n : nat) (x : Z) : list Z :=
  match n with
  | O => []
  | S n' => u8 (Z.shiftr x (8 * Z.of_nat n')) :: be_bytes n' x
  end.

(** The value of a big-endian byte list. *)
Definition be_value (bs : list Z) : Z := fold_left (fun acc b => Z.lor (Z.shiftl acc 8) b) bs 0.

(** ** Instants

    [time.Time] is the number of nanoseconds since Go's zero time
    (January 1, year 1, 00:00:00 UTC), so [IsZero] is equality with 0 and
    [UTC()], which only changes the location, is the identity.  [time.Now()] is
    an argument of every operation that reads the clock. *)

Abbreviation Time := Z (only parsing).
Abbreviation Duration := Z (only parsing).
Definition time_zero : Time := 0.
Definition IsZero (t : Time) : bool := t =? 0.
Definition After (t u : Time) : bool := u <? t.
Definition Before (t u : Time) : bool := t <? u.
Definition time_Equal (t u : Time) : bool := t =? u.
Definition Millisecond : Duration := 1000000.
Definition Second : Duration := 1000000000.
Definition Minute : Duration := 60 * Second.

(** [t.Sub(u)] saturates at the range of [time.Duration]. *)
Definition time_Sub (t u : Time) : Duration := Z.max minInt64 (Z.min maxInt64 (t - u)).

(** ** Sorting

    [sort_by less] models [sort.SliceStable] with comparison [less]; it also
    models [sort.Slice] wherever [less] decides between any two distinct
    elements, since the sorted order is then unique. *)

Section sorting.
Context {A : Type} (less : A -> A -> bool).

Fixpoint insert_by (x : A) (l : list A) : list A :=
  match l with
  | [] => [x]
  | y :: l' => if less y x then y :: insert_by x l' else x :: y :: l'
  end.

Fixpoint sort_by (l : list A) : list A :=
  match l with
  | [] => []
  | x :: l' => insert_by x (sort_by l')
  end.

Lemma insert_by_perm x l : insert_by x l ≡ₚ x :: l.
Proof.
  induction l as [| y l IH]; simpl; [done|].
  destruct (less y x); [|done]. rewrite IH. by constructor.
Qed.

Lemma sort_by_perm l : sort_by l ≡ₚ l.
Proof. induction l as [| x l IH]; simpl; [done|]. by rewrite insert_by_perm, IH. Qed.

Lemma sort_by_elem_of x l : x ∈ sort_by l <-> x ∈ l.
Proof. by rewrite sort_by_perm. Qed.

Lemma sort_by_length l : length (sort_by l) = length l.
Proof. by rewrite sort_by_perm. Qed.

(** [less_free x y]: Go's comparison does not put [y] before [x]. *)
Definition not_after (x y : A) : Prop := less y x = false.

Hypothesis less_asym : forall x y, less x y = true -> less y x = false.
Hypothesis not_after_trans : forall x y z,
  less y x = false -> less z y = false -> less z x = false.

Lemma insert_by_sorted x l :
  StronglySorted not_after l -> StronglySorted not_after (insert_by x l).
Proof using less_asym not_after_trans.
  induction l as [| y l IH]; simpl; intros Hs.
  - repeat constructor.
  - apply StronglySorted_inv in Hs as [Hs Hy].
    destruct (less y x) eqn:E.
    + constructor; [by apply IH|].
      rewrite insert_by_perm. constructor; [|done]. by apply less_asym.
    + constructor; [by constructor|]. constructor; [done|].
      eapply Forall_impl; [exact Hy|]. intros z Hz. by eapply not_after_trans.
Qed.

Lemma sort_by_sorted l : StronglySorted not_after (sort_by l).
Proof using less_asym not_after_trans.
  induction l as [| x l IH]; simpl; [constructor | by apply insert_by_sorted].
Qed.

Lemma sort_by_sorted_id l : StronglySorted not_after l -> sort_by l = l.
Proof.
  induction 1 as [| x l Hs IH Hx]; simpl; [done|]. rewrite IH. destruct l as [| y l]; [done|]. simpl.
  apply Forall_cons in Hx as [Hy _]. unfold not_after in Hy. by rewrite Hy.
Qed.
End sorting.

(** ** Lists *)

(** Go's [for _, x := range l { if p(x) { return x } }]. *)
Lemma find_Some_split {A} (p : A -> bool) (l : list A) (x : A) :
  find p l = Some x <->
  exists l1 l2, l = l1 ++ x :: l2 /\ p x = true /\ Forall (fun y => p y = false) l1.
Proof.
  split.
  - induction l as [| y l IH]; simpl; [done|]. destruct (p y) eqn:E.
    + intros [= ->]. by exists [], l.
    + intros H. destruct (IH H) as (l1 & l2 & -> & Hx & Hl).
      exists (y :: l1), l2. repeat split; [done|]. by constructor.
  - intros (l1 & l2 & -> & Hx & Hl).
    induction Hl as [| y l1 Hy Hl IH]; simpl; [by rewrite Hx | by rewrite Hy].
Qed.

(** A hit bounds how far the search goes. *)
Lemma find_app_first {A} (p : A -> bool) (l1 l2 : list A) (x y : A) :
  find p (l1 ++ x :: l2) = Some y -> p x = true -> y ∈ l1 ++ [x].
Proof.
  intros Hf Hx. induction l1 as [| z l1 IH]; simpl in *.
  - rewrite Hx in Hf. injection Hf as ->. by left.
  - destruct (p z); [injection Hf as ->; by left | right; auto].
Qed.

Lemma existsb_elem_of {A} (p : A -> bool) (l : list A) :
  existsb p l = true <-> exists x, x ∈ l /\ p x = true.
Proof. rewrite existsb_exists. setoid_rewrite list_elem_of_In. done. Qed.

Lemma forallb_elem_of {A} (p : A -> bool) (l : list A) :
  forallb p l = true <-> forall x, x ∈ l -> p x = true.
Proof. rewrite forallb_forall. setoid_rewrite list_elem_of_In. done. Qed.

Lemma StronglySorted_weaken {A} (R S : A -> A -> Prop) (l : list A) :
  (forall a b, R a b -> S a b) -> StronglySorted R l -> StronglySorted S l.
Proof.
  intros Hw. induction 1 as [| x l Hs IH Hx]; constructor; [done|].
  eapply Forall_impl; [exact Hx | auto].
Qed.

Lemma filter_all {A} (P : A -> Prop) `{forall x, base.Decision (P x)} (l : list A) : Forall P l -> filter P l = l.
Proof. induction 1 as [| x l Hx Hl IH]; [done|]. rewrite filter_cons, decide_True by done. by rewrite IH. Qed.

Lemma length_omap_le {A B} (f : A -> option B) (l : list A) : (length (omap f l) <= length l)%nat.
Proof.
  induction l as [| x l IH]; [done|].
  change (omap f (x :: l)) with (match f x with Some y => y :: omap f l | None => omap f l end).
  destruct (f x); simpl; lia.
Qed.

(** ** Automation *)

Create HintDb ngfw discriminated.

(** Split a boolean conjunction or negation in the context into facts. *)
Ltac split_bool :=
  repeat match goal with
  | H : _ && _ = true |- _ => apply andb_true_iff in H as [??]
  | H : _ || _ = false |- _ => apply orb_false_iff in H as [??]
  | H : negb _ = true |- _ => apply negb_true_iff in H
  | H : negb _ = false |- _ => apply negb_false_iff in H
  | H : bool_decide _ = true |- _ => apply bool_decide_eq_true in H
  | H : bool_decide _ = false |- _ => apply bool_decide_eq_false in H
  | H : (_ =? _) = true |- _ => apply Z.eqb_eq in H
  | H : (_ =? _) = false |- _ => apply Z.eqb_neq in H
  | H : (_ <? _) = true |- _ => apply Z.ltb_lt in H
  | H : (_ <? _) = false |- _ => apply Z.ltb_ge in H
  | H : (_ <=? _) = true |- _ => apply Z.leb_le in H
  | H : (_ <=? _) = false |- _ => apply Z.leb_gt in H
  end.

(** Case analysis on the next test of a definition under its equation. *)
Ltac case_if :=
  match goal with
  | |- context [if ?b then _ else _] => destruct b eqn:?
  | H : context [if ?b then _ else _] |- _ => destruct b eqn:?
  end.

Ltac case_all := repeat (case_if; simplify_eq/=; try done).

(** A partial map that is defined on the whole list. *)
Lemma omap_total {A B} (f : A -> option B) l : (forall x, x ∈ l -> is_Some (f x)) ->
  length (omap f l) = length l /\ forall i, omap f l !! i = (l !! i) ≫= f.
Proof.
  induction l as [| x l IH]; intros H; [by split; [|intros []]|].
  destruct IH as [IH1 IH2]; [intros y Hy; apply H; by right|]. destruct (H x ltac:(by left)) as [y Ey]. cbn. rewrite Ey. cbn.
  split; [by rewrite IH1|]. intros [|i]; cbn; [by rewrite Ey | apply IH2].
Qed.

Lemma be_bytes_length n x : length (be_bytes n x) = n.
Proof. induction n; simpl; congruence. Qed.
