(* ===== verification/GoStr.v ===== *)
(** * Go's string functions

    The functions of [strings], [strconv], [fmt], [time] and [encoding/hex] that
    the modelled sources call, on Go strings as byte strings ([String.string]).
    Case folding and white space are those of ASCII: on the names, addresses,
    keywords and identifiers these functions are applied to, Go's Unicode tables
    add nothing. *)

From S2P Require Import Prelude.
From Stdlib Require Import Ascii String.

#[local] Open Scope string_scope.
#[local] Open Scope Z_scope.

Definition code (c : ascii) : Z := Z.of_N (N_of_ascii c).
Definition char_of (n : Z) : ascii := ascii_of_N (Z.to_N n).

Definition is_digit (c : ascii) : bool := (48 <=? code c) && (code c <=? 57).
Definition is_lower (c : ascii) : bool := (97 <=? code c) && (code c <=? 122).
Definition is_upper (c : ascii) : bool := (65 <=? code c) && (code c <=? 90).
Definition is_space (c : ascii) : bool := (code c =? 32) || ((9 <=? code c) && (code c <=? 13)).

Definition lower (c : ascii) : ascii := if is_upper c then char_of (code c + 32) else c.
Definition upper (c : ascii) : ascii := if is_lower c then char_of (code c - 32) else c.

Fixpoint map_string (f : ascii -> ascii) (s : string) : string :=
  match s with
  | EmptyString => EmptyString
  | String c s' => String (f c) (map_string f s')
  end.

Definition ToLower : string -> string := map_string lower.
Definition ToUpper : string -> string := map_string upper.
Definition EqualFold (a b : string) : bool := bool_decide (ToLower a = ToLower b).

Fixpoint TrimLeft (s : string) : string :=
  match s with
  | EmptyString => EmptyString
  | String c s' => if is_space c then TrimLeft s' else s
  end.

Fixpoint TrimRight (s : string) : string :=
  match s with
  | EmptyString => EmptyString
  | String c s' =>
      match TrimRight s' with
      | EmptyString => if is_space c then EmptyString else String c EmptyString
      | r => String c r
      end
  end.

Definition TrimSpace (s : string) : string := TrimRight (TrimLeft s).

(** [strings.Split(s, sep)] for a separator of one byte: never empty. *)
Fixpoint Split (sep : ascii) (s : string) : list string :=
  match s with
  | EmptyString => [EmptyString]
  | String c s' =>
      if Ascii.eqb c sep then EmptyString :: Split sep s'
      else match Split sep s' with
           | [] => [String c EmptyString]
           | p :: ps => String c p :: ps
           end
  end.

Definition strlen (s : string) : Z := Z.of_nat (String.length s).

Fixpoint drop_string (n : nat) (s : string) : string :=
  match n, s with
  | S n', String _ s' => drop_string n' s'
  | _, _ => s
  end.

Fixpoint take_string (n : nat) (s : string) : string :=
  match n, s with
  | S n', String c s' => String c (take_string n' s')
  | _, _ => EmptyString
  end.

Definition HasPrefix (s p : string) : bool := String.prefix p s.
Definition TrimPrefix (s p : string) : string :=
  if HasPrefix s p then drop_string (String.length p) s else s.
Definition HasSuffix (s p : string) : bool :=
  (strlen p <=? strlen s) &&
  bool_decide (drop_string (String.length s - String.length p) s = p).
Definition TrimSuffix (s p : string) : string :=
  if HasSuffix s p then take_string (String.length s - String.length p) s else s.

Fixpoint ContainsByte (c : ascii) (s : string) : bool :=
  match s with
  | EmptyString => false
  | String d s' => Ascii.eqb c d || ContainsByte c s'
  end.

(** The position of the last occurrence of a byte. *)
Fixpoint LastIndexByte (c : ascii) (s : string) : option nat :=
  match s with
  | EmptyString => None
  | String d s' =>
      match LastIndexByte c s' with
      | Some n => Some (S n)
      | None => if Ascii.eqb c d then Some O else None
      end
  end.

Fixpoint IndexByte (c : ascii) (s : string) : option nat :=
  match s with
  | EmptyString => None
  | String d s' => if Ascii.eqb c d then Some O else S <$> IndexByte c s'
  end.

(** Byte-wise lexicographic [<] on strings. *)
Definition str_lt (a b : string) : bool :=
  match String.compare a b with Lt => true | _ => false end.

Fixpoint strings_Join (sep : string) (l : list string) : string :=
  match l with
  | [] => ""
  | [s] => s
  | s :: l' => s ++ sep ++ strings_Join sep l'
  end.

(** Bytes of a string and of a hexadecimal encoding. *)
Fixpoint str_bytes (s : string) : list Z :=
  match s with
  | EmptyString => []
  | String c s' => code c :: str_bytes s'
  end.

Fixpoint bytes_str (bs : list Z) : string :=
  match bs with
  | [] => EmptyString
  | b :: bs' => String (char_of b) (bytes_str bs')
  end.

Definition hex_digit (n : Z) : ascii :=
  if n <? 10 then char_of (48 + n) else char_of (87 + n).

Fixpoint hex_EncodeToString (bs : list Z) : string :=
  match bs with
  | [] => EmptyString
  | b :: bs' => String (hex_digit (b / 16)) (String (hex_digit (b mod 16)) (hex_EncodeToString bs'))
  end.

Definition hex_value (c : ascii) : option Z :=
  if is_digit c then Some (code c - 48)
  else if (97 <=? code c) && (code c <=? 102) then Some (code c - 87)
  else if (65 <=? code c) && (code c <=? 70) then Some (code c - 55)
  else None.

(** ** UTF-8 *)

Definition cont_byte (b : Z) : bool := (128 <=? b) && (b <=? 191).

(** [utf8.ValidString] on the bytes of the string. *)
Fixpoint utf8_valid (bs : list Z) : bool :=
  match bs with
  | [] => true
  | b0 :: r0 =>
      if b0 <? 128 then utf8_valid r0
      else match r0 with
      | [] => false
      | b1 :: r1 =>
          if (194 <=? b0) && (b0 <=? 223) then cont_byte b1 && utf8_valid r1
          else match r1 with
          | [] => false
          | b2 :: r2 =>
              if b0 =? 224 then (160 <=? b1) && (b1 <=? 191) && cont_byte b2 && utf8_valid r2
              else if b0 =? 237 then (128 <=? b1) && (b1 <=? 159) && cont_byte b2 && utf8_valid r2
              else if (225 <=? b0) && (b0 <=? 239) then cont_byte b1 && cont_byte b2 && utf8_valid r2
              else match r2 with
              | [] => false
              | b3 :: r3 =>
                  if b0 =? 240 then (144 <=? b1) && (b1 <=? 191) && cont_byte b2 && cont_byte b3 && utf8_valid r3
                  else if b0 =? 244 then (128 <=? b1) && (b1 <=? 143) && cont_byte b2 && cont_byte b3 && utf8_valid r3
                  else if (241 <=? b0) && (b0 <=? 243) then cont_byte b1 && cont_byte b2 && cont_byte b3 && utf8_valid r3
                  else false
              end
          end
      end
  end.

Definition ValidString (s : string) : bool := utf8_valid (str_bytes s).

(** ** Numbers *)

(** A run of decimal digits: its value and the rest of the string. *)
Fixpoint scan_digits (acc : Z) (s : string) : Z * string :=
  match s with
  | EmptyString => (acc, s)
  | String c s' => if is_digit c then scan_digits (acc * 10 + (code c - 48)) s' else (acc, s)
  end.

Definition starts_with_digit (s : string) : bool :=
  match s with String c _ => is_digit c | EmptyString => false end.

(** An optional sign, at least one digit, and the unread rest. *)
Definition scan_int (s : string) : option (Z * string) :=
  let signed (neg : bool) (s : string) :=
    if starts_with_digit s then
      let '(n, rest) := scan_digits 0 s in Some ((if neg then - n else n), rest)
    else None in
  match s with
  | String "+" s' => signed false s'
  | String "-" s' => signed true s'
  | _ => signed false s
  end.

Definition in_int64 (n : Z) : bool := (minInt64 <=? n) && (n <=? maxInt64).

(** [strconv.Atoi]: the whole string is one number in the range of [int]. *)
Definition Atoi (s : string) : option Z :=
  match scan_int s with
  | Some (n, EmptyString) => if in_int64 n then Some n else None
  | _ => None
  end.

(** [strconv.ParseUint(s, 10, 64)]: digits only. *)
Definition ParseUint (s : string) : option Z :=
  if starts_with_digit s then
    match scan_digits 0 s with
    | (n, EmptyString) => if n <? 2 ^ 64 then Some n else None
    | _ => None
    end
  else None.

(** [fmt.Sscanf(s, ..., &n)] with the single decimal verb: the number at the
    start of the string; what follows it is not an error. *)
Definition Sscanf_int (s : string) : option Z :=
  match scan_int s with
  | Some (n, _) => if in_int64 n then Some n else None
  | None => None
  end.

(** The decimal verb of [fmt.Sprintf] and [strconv.Itoa]. *)
Definition itoa (n : Z) : string := pretty n.

(** ** RFC 3339 with nanoseconds *)

(** The decimal digits of [x], zero-padded to width [n]. *)
Definition digits_n (n : nat) (x : Z) : string :=
  (fix go k s := match k with
                 | O => s
                 | S k' => if strlen s <? Z.of_nat n then go k' (String "0" s) else s
                 end) n (itoa x).

Fixpoint trim_zeros (s : string) : string :=
  match s with
  | EmptyString => EmptyString
  | String c s' =>
      match trim_zeros s' with
      | EmptyString => if Ascii.eqb c "0" then EmptyString else String c EmptyString
      | r => String c r
      end
  end.

(** Year, month and day of a day number (day 0 is January 1, year 1), by the
    March-based proleptic Gregorian calendar. *)
Definition civil (day : Z) : Z * Z * Z :=
  let z := day + 306 in
  let era := z / 146097 in
  let doe := z mod 146097 in
  let yoe := (doe - doe / 1460 + doe / 36524 - doe / 146096) / 365 in
  let doy := doe - (365 * yoe + yoe / 4 - yoe / 100) in
  let mp := (5 * doy + 2) / 153 in
  let d := doy - (153 * mp + 2) / 5 + 1 in
  let m := if mp <? 10 then mp + 3 else mp - 9 in
  (yoe + era * 400 + (if m <=? 2 then 1 else 0), m, d).

(** [t.UTC().Format(time.RFC3339Nano)]. *)
Definition FormatRFC3339Nano (t : Time) : string :=
  let secs := t / Second in
  let nanos := t mod Second in
  let '(y, m, d) := civil (secs / 86400) in
  let sod := secs mod 86400 in
  let frac := trim_zeros (digits_n 9 nanos) in
  digits_n 4 y ++ "-" ++ digits_n 2 m ++ "-" ++ digits_n 2 d ++ "T" ++
  digits_n 2 (sod / 3600) ++ ":" ++ digits_n 2 (sod / 60 mod 60) ++ ":" ++ digits_n 2 (sod mod 60) ++
  (if bool_decide (frac = "") then "" else "." ++ frac) ++ "Z".

(** ** Lemmas *)

Lemma EqualFold_true a b : EqualFold a b = true <-> ToLower a = ToLower b.
Proof. apply bool_decide_eq_true. Qed.

Lemma EqualFold_refl a : EqualFold a a = true.
Proof. by apply EqualFold_true. Qed.

Lemma EqualFold_sym a b : EqualFold a b = EqualFold b a.
Proof. apply bool_decide_ext. split; congruence. Qed.

Lemma EqualFold_trans a b c : EqualFold a b = true -> EqualFold b c = true -> EqualFold a c = true.
Proof. rewrite !EqualFold_true. congruence. Qed.

Lemma Split_nonempty sep s : Split sep s <> [].
Proof. destruct s as [| c s]; simpl; [done|]. destruct (Ascii.eqb c sep); [done|]. by destruct (Split sep s). Qed.

Lemma str_lt_irrefl a : str_lt a a = false.
Proof.
  unfold str_lt. pose proof (String.compare_antisym a a) as H.
  destruct (String.compare a a); simpl in H; congruence.
Qed.

Lemma str_lt_antisym a b : str_lt a b = true -> str_lt b a = false.
Proof.
  unfold str_lt. rewrite (String.compare_antisym b a).
  destruct (String.compare a b); simpl; done.
Qed.

Example civil_2024 : FormatRFC3339Nano ((738944 * 86400 + 3723) * Second + 120000000) = "2024-02-29T01:02:03.12Z".
Proof. vm_compute. reflexivity. Qed.

Example trim_example : TrimSpace "  a b	 " = "a b".
Proof. reflexivity. Qed.

Example atoi_example : Atoi "+80" = Some 80 /\ Atoi "80x" = None /\ Sscanf_int "6abc" = Some 6.
Proof. vm_compute. repeat split. Qed.

Lemma str_lt_not_after_trans a b c : str_lt b a = false -> str_lt c b = false -> str_lt c a = false.
Proof.
  unfold str_lt. revert b c. induction a as [|x a IH]; intros [|y b] [|z c]; simpl; try done.
  unfold Ascii.compare.
  destruct (N.compare_spec (N_of_ascii y) (N_of_ascii x)) as [Exy|?|?], (N.compare_spec (N_of_ascii z) (N_of_ascii y)) as [Eyz|?|?],
    (N.compare_spec (N_of_ascii z) (N_of_ascii x)); try done; try lia; apply IH.
Qed.

(** *** Printing and reading numbers *)

Definition colon : ascii := ":".
Definition dash : ascii := "-".
Definition dot : ascii := ".".
Definition slash : ascii := "/".
Definition underscore : ascii := "_".

Fixpoint all_chars (p : ascii -> bool) (s : string) : bool :=
  match s with
  | EmptyString => true
  | String c s' => p c && all_chars p s'
  end.

Lemma all_chars_app p a b : all_chars p (a ++ b) = all_chars p a && all_chars p b.
Proof. induction a as [|c a IH]; simpl; [done|]. by rewrite IH, andb_assoc. Qed.

Lemma pretty_N_char_digit n : (n < 10)%N -> is_digit (pretty_N_char n) = true /\ code (pretty_N_char n) - 48 = Z.of_N n.
Proof.
  intros Hn. assert (Hcase : n ∈ [0; 1; 2; 3; 4; 5; 6; 7; 8; 9]%N).
  { rewrite !elem_of_cons. lia. }
  repeat (apply elem_of_cons in Hcase as [-> | Hcase]; [vm_compute; done|]). by apply not_elem_of_nil in Hcase.
Qed.

Lemma pretty_N_go_digits x s :
  all_chars is_digit s = true ->
  all_chars is_digit (pretty_N_go x s) = true /\ fst (scan_digits 0 (pretty_N_go x s)) = fst (scan_digits (Z.of_N x) s).
Proof.
  revert s. induction (N.lt_wf_0 x) as [x _ IH]. intros s Hs.
  destruct (decide (x = 0)%N) as [->|Hx]; [by rewrite pretty_N_go_0|].
  rewrite pretty_N_go_step by lia.
  destruct (pretty_N_char_digit (x `mod` 10)) as [Hd Hv]; [apply N.mod_lt; lia|].
  destruct (IH (x `div` 10)%N (N.div_lt x 10 ltac:(lia) ltac:(lia)) (String (pretty_N_char (x `mod` 10)) s)) as [H1 H2].
  { simpl. by rewrite Hd, Hs. }
  split; [done|]. rewrite H2. simpl. rewrite Hd, Hv. f_equal. f_equal.
  rewrite N2Z.inj_div, N2Z.inj_mod by done. pose proof (Z.div_mod (Z.of_N x) 10). lia.
Qed.

(** A printed number consists of digits and reads back as itself. *)
Lemma itoa_spec n : 0 <= n -> all_chars is_digit (itoa n) = true /\ itoa n <> "" /\ fst (scan_digits 0 (itoa n)) = n.
Proof.
  intros Hn. unfold itoa, pretty, pretty_Z. destruct n as [|p|p]; [vm_compute; done| |lia].
  change (pretty_positive p) with (pretty_N_go (N.pos p) "").
  destruct (pretty_N_go_digits (N.pos p) "") as [H1 H2]; [done|]. split; [done|]. split; [|exact H2].
  intros E. change (pretty_N_go (N.pos p) "" = "") in E. rewrite E in H2. simpl in H2. lia.
Qed.

(** [Atoi] reads back what the decimal verb prints. *)
Lemma Atoi_itoa n : 0 <= n <= maxInt64 -> Atoi (itoa n) = Some n.
Proof.
  intros Hn. destruct (itoa_spec n) as (Hd & Hne & Hv); [lia|].
  assert (Hscan : forall acc s, all_chars is_digit s = true -> snd (scan_digits acc s) = "").
  { intros acc s. revert acc. induction s as [|c s IH]; intros acc; simpl; [done|].
    intros [-> Hs]%andb_true_iff. by apply IH. }
  assert (Hint : scan_int (itoa n) = Some (n, "")).
  { destruct (itoa n) as [|c s] eqn:E; [done|]. simpl in Hd. apply andb_true_iff in Hd as [Hc Hs].
    assert (Hgo : (if starts_with_digit (String c s)
                   then let '(m, rest) := scan_digits 0 (String c s) in Some (m, rest) else None) = Some (n, "")).
    { cbn [starts_with_digit]. rewrite Hc. destruct (scan_digits 0 (String c s)) as [m rest] eqn:Es.
      simpl in Hv. subst m. pose proof (Hscan 0 (String c s)) as Hr. rewrite Es in Hr. simpl in Hr.
      rewrite Hc, Hs in Hr. by rewrite Hr. }
    unfold scan_int. repeat case_match; subst; try exact Hgo; vm_compute in Hc; discriminate. }
  unfold Atoi. rewrite Hint. unfold in_int64, minInt64, maxInt64 in *.
  rewrite !(proj2 (Z.leb_le _ _)) by lia. done.
Qed.

Lemma TrimSpace_id s : all_chars (fun c => negb (is_space c)) s = true -> TrimSpace s = s.
Proof.
  intros Hs. unfold TrimSpace.
  assert (HL : TrimLeft s = s).
  { destruct s as [|c s]; [done|]. simpl in *. apply andb_true_iff in Hs as [Hc _].
    by destruct (is_space c). }
  rewrite HL. clear HL. induction s as [|c s IH]; [done|]. simpl in *. apply andb_true_iff in Hs as [Hc Hs].
  rewrite (IH Hs). destruct s; [|done]. by destruct (is_space c).
Qed.

Lemma all_chars_impl (p q : ascii -> bool) s :
  (forall c, p c = true -> q c = true) -> all_chars p s = true -> all_chars q s = true.
Proof.
  intros H. induction s as [|c s IH]; simpl; [done|]. intros [Hc Hs]%andb_true_iff. rewrite (H _ Hc). auto.
Qed.

Lemma Split_none sep s : all_chars (fun c => negb (Ascii.eqb c sep)) s = true -> Split sep s = [s].
Proof.
  induction s as [|c s IH]; simpl; [done|]. intros [Hc Hs]%andb_true_iff.
  destruct (Ascii.eqb c sep); [done|]. by rewrite IH.
Qed.

Lemma Split_one sep a b : all_chars (fun c => negb (Ascii.eqb c sep)) a = true ->
  Split sep (a ++ String sep b) = a :: Split sep b.
Proof.
  induction a as [|c a IH]; simpl; [intros; by rewrite Ascii.eqb_refl|]. intros [Hc Ha]%andb_true_iff.
  destruct (Ascii.eqb c sep); [done|]. by rewrite IH.
Qed.

(** Digits are neither separators nor white space. *)
Lemma digit_plain c : is_digit c = true ->
  negb (is_space c) = true /\ negb (Ascii.eqb c colon) = true /\ negb (Ascii.eqb c dash) = true.
Proof.
  unfold is_digit, is_space. intros [H1 H2]%andb_true_iff. apply Z.leb_le in H1, H2.
  split; [|split].
  - destruct (Z.eqb_spec (code c) 32), (Z.leb_spec (code c) 13); rewrite ?andb_false_r; lia || done.
  - destruct (Ascii.eqb_spec c colon) as [->|]; [vm_compute in H2; congruence | done].
  - destruct (Ascii.eqb_spec c dash) as [->|]; [vm_compute in H1; congruence | done].
Qed.

(** *** Suffixes *)

Lemma take_drop_string n s : take_string n s ++ drop_string n s = s.
Proof.
  revert s. induction n as [|n IH]; intros [|c s]; try done.
  change (String c (take_string n s ++ drop_string n s) = String c s). by rewrite IH.
Qed.

Lemma drop_string_app a b : drop_string (String.length a) (a ++ b) = b.
Proof. induction a as [|c a IH]; [done|]. exact IH. Qed.

Lemma string_length_app a b : String.length (a ++ b) = (String.length a + String.length b)%nat.
Proof. induction a as [|c a IH]; [done|]. change (S (String.length (a ++ b)) = S (String.length a + String.length b)). by rewrite IH. Qed.

Lemma HasSuffix_true s p : HasSuffix s p = true <-> exists q, s = q ++ p.
Proof.
  unfold HasSuffix, strlen. rewrite andb_true_iff, Z.leb_le, bool_decide_eq_true. split.
  - intros [_ H]. exists (take_string (String.length s - String.length p) s).
    transitivity (take_string (String.length s - String.length p) s ++ drop_string (String.length s - String.length p) s);
      [by rewrite take_drop_string | by rewrite H].
  - intros [q ->]. rewrite string_length_app. split; [lia|].
    replace (String.length q + String.length p - String.length p)%nat with (String.length q) by lia. apply drop_string_app.
Qed.

Lemma string_app_assoc a b c : (a ++ b) ++ c = a ++ (b ++ c).
Proof. induction a as [|x a IH]; [done|]. change (String x ((a ++ b) ++ c) = String x (a ++ (b ++ c))). by rewrite IH. Qed.

Lemma HasSuffix_trans a b c : HasSuffix a b = true -> HasSuffix b c = true -> HasSuffix a c = true.
Proof. rewrite !HasSuffix_true. intros [q ->] [r ->]. exists (q ++ r). by rewrite string_app_assoc. Qed.
