(* ===== verification/Bytes.v ===== *)
(** * Bytes

    Facts about big-endian fields and about the bytes of a string that the wire
    formats share: gate frames, EVE identities, packet captures. *)

From Stdlib Require Import Ascii.
From S2P Require Import Prelude GoStr.

Definition is_byte (b : Z) : Prop := 0 <= b < 256.

Lemma lor_low a b : 0 <= b < 2 ^ 8 -> Z.lor (Z.shiftl a 8) b = a * 2 ^ 8 + b.
Proof.
  intros Hb. rewrite <- Z.shiftl_mul_pow2, <- Z.add_lor_land by lia.
  assert (Z.land (Z.shiftl a 8) b = 0) as ->; [|lia].
  apply Z.bits_inj'. intros i Hi. rewrite Z.land_spec, Z.bits_0. destruct (decide (i < 8)).
  - by rewrite Z.shiftl_spec_low.
  - rewrite <- (Z.mod_small b (2 ^ 8)) by done. rewrite Z.mod_pow2_bits_high by lia. apply andb_false_r.
Qed.

Lemma be_bytes_bytes n x : Forall is_byte (be_bytes n x).
Proof. induction n as [| n IH]; constructor; [|done]. apply Z.mod_pos_bound. lia. Qed.

Lemma be_value_acc n x acc :
  fold_left (fun acc b => Z.lor (Z.shiftl acc 8) b) (be_bytes n x) acc = acc * 2 ^ (8 * Z.of_nat n) + x mod 2 ^ (8 * Z.of_nat n).
Proof.
  revert acc. induction n as [| n IH]; intros acc; [cbn; rewrite Z.mod_1_r; lia|]. cbn [be_bytes fold_left].
  rewrite IH, lor_low by (apply Z.mod_pos_bound; lia). unfold u8. rewrite Z.shiftr_div_pow2 by lia.
  replace (8 * Z.of_nat (S n)) with (8 * Z.of_nat n + 8) by lia. rewrite Z.pow_add_r by lia.
  rewrite (Z.mul_comm (2 ^ (8 * Z.of_nat n)) (2 ^ 8)), Z.mul_comm with (n := 2 ^ 8). rewrite Z.rem_mul_r by lia. lia.
Qed.

Lemma be_value_bytes n x : 0 <= x < 2 ^ (8 * Z.of_nat n) -> be_value (be_bytes n x) = x.
Proof. intros Hx. unfold be_value. rewrite be_value_acc, Z.mod_small by done. lia. Qed.

Lemma be_bytes_inj n v w l l' : be_bytes n v ++ l = be_bytes n w ++ l' -> v mod 2 ^ (8 * Z.of_nat n) = w mod 2 ^ (8 * Z.of_nat n) /\ l = l'.
Proof.
  intros H. apply app_inj_1 in H as [H1 H2]; [|by rewrite !be_bytes_length]. split; [|done].
  pose proof (be_value_acc n v 0) as Hv. pose proof (be_value_acc n w 0) as Hw. rewrite H1 in Hv. lia.
Qed.

Lemma be_value_1 b : is_byte b -> be_value [b] = b.
Proof. intros H. unfold be_value. cbn [fold_left]. rewrite (lor_low 0) by done. lia. Qed.

Lemma str_bytes_length s : length (str_bytes s) = String.length s.
Proof. induction s as [| c s IH]; cbn; [done | by rewrite IH]. Qed.

Lemma str_bytes_inj s s' : str_bytes s = str_bytes s' -> s = s'.
Proof.
  revert s'. induction s as [| c s IH]; intros [| c' s']; cbn; [done..|]. intros [= Hc Hs]. f_equal; [|by apply IH].
  unfold code in Hc. apply N2Z.inj in Hc. by rewrite <- (ascii_N_embedding c), Hc, ascii_N_embedding.
Qed.

Lemma str_bytes_app a b : str_bytes (a ++ b) = (str_bytes a ++ str_bytes b)%list.
Proof. induction a as [| c a IH]; [done|]. change (String c a ++ b)%string with (String c (a ++ b)). cbn [str_bytes app]. by rewrite IH. Qed.

Lemma str_bytes_bytes s : Forall is_byte (str_bytes s).
Proof. induction s as [| c s IH]; constructor; [|done]. unfold is_byte, code. pose proof (N_ascii_bounded c). lia. Qed.
