(* ===== verification/Sha256.v ===== *)
(** * SHA-256

    [crypto/sha256.Sum256], which the session store uses to name sessions, as an
    executable function on byte lists (FIPS 180-4). *)

From S2P Require Import Prelude.

Definition rotr (n x : Z) : Z :=
  Z.lor (Z.shiftr x n) (Z.land (Z.shiftl x (32 - n)) (2 ^ 32 - 1)).
Definition add32 (x y : Z) : Z := Z.land (x + y) (2 ^ 32 - 1).
Definition not32 (x : Z) : Z := Z.lxor x (2 ^ 32 - 1).

Definition Ch x y z := Z.lxor (Z.land x y) (Z.land (not32 x) z).
Definition Maj x y z := Z.lxor (Z.lxor (Z.land x y) (Z.land x z)) (Z.land y z).
Definition Sigma0 x := Z.lxor (Z.lxor (rotr 2 x) (rotr 13 x)) (rotr 22 x).
Definition Sigma1 x := Z.lxor (Z.lxor (rotr 6 x) (rotr 11 x)) (rotr 25 x).
Definition sigma0 x := Z.lxor (Z.lxor (rotr 7 x) (rotr 18 x)) (Z.shiftr x 3).
Definition sigma1 x := Z.lxor (Z.lxor (rotr 17 x) (rotr 19 x)) (Z.shiftr x 10).

(** The constants are the first 32 bits of the fractional parts of the cube
    roots of the first 64 primes and of the square roots of the first eight. *)
Definition divides (p n : nat) : bool := (n mod p =? 0)%nat.

Definition primes : list nat :=
  Eval vm_compute in
  foldl (fun ps n => if existsb (fun p => divides p n) ps then ps else ps ++ [n]) [] (seq 2 310).

(** The integer cube root of [n], bit by bit from [2 ^ bits] down. *)
Fixpoint cube_root (bits : nat) (r n : Z) : Z :=
  let r' := r + 2 ^ Z.of_nat bits in
  let r := if r' ^ 3 <=? n then r' else r in
  match bits with
  | O => r
  | S bits' => cube_root bits' r n
  end.

Definition round_constants : list Z :=
  Eval vm_compute in (fun p => cube_root 34 0 (Z.of_nat p * 2 ^ 96) mod 2 ^ 32) <$> take 64 primes.

Definition initial_hash : list Z :=
  Eval vm_compute in (fun p => Z.sqrt (Z.of_nat p * 2 ^ 64) mod 2 ^ 32) <$> take 8 primes.

(** The message schedule keeps the last sixteen words, newest first, and yields
    the words in order. *)
Definition next_word (w : list Z) : Z :=
  add32 (add32 (sigma1 (nth 1 w 0)) (nth 6 w 0)) (add32 (sigma0 (nth 14 w 0)) (nth 15 w 0)).

Definition round_step (st : list Z) (kw : Z * Z) : list Z :=
  match st with
  | [a; b; c; d; e; f; g; h] =>
      let t1 := add32 (add32 (add32 h (Sigma1 e)) (add32 (Ch e f g) kw.1)) kw.2 in
      let t2 := add32 (Sigma0 a) (Maj a b c) in
      [add32 t1 t2; a; b; c; add32 d t1; e; f; g]
  | _ => st
  end.

Fixpoint extend_schedule (n : nat) (w : list Z) : list Z :=
  match n with
  | O => w
  | S n' => extend_schedule n' (next_word w :: w)
  end.

Definition compress (hash block : list Z) : list Z :=
  let words := rev (extend_schedule 48 (rev block)) in
  zip_with add32 hash (fold_left round_step (zip round_constants words) hash).

Fixpoint words_of (fuel : nat) (bs : list Z) : list Z :=
  match fuel, bs with
  | S fuel', a :: b :: c :: d :: bs' => be_value [a; b; c; d] :: words_of fuel' bs'
  | _, _ => []
  end.

Fixpoint compress_all (fuel : nat) (hash ws : list Z) : list Z :=
  match fuel with
  | O => hash
  | S fuel' =>
      match ws with
      | [] => hash
      | _ => compress_all fuel' (compress hash (take 16 ws)) (drop 16 ws)
      end
  end.

Definition pad (msg : list Z) : list Z :=
  let len := Z.of_nat (length msg) in
  msg ++ [0x80] ++ repeat 0 (Z.to_nat ((55 - len) mod 64)) ++ be_bytes 8 (8 * len).

(** The 32 bytes of the digest. *)
Definition Sum256 (msg : list Z) : list Z :=
  let padded := pad msg in
  let ws := words_of (length padded) padded in
  mjoin (be_bytes 4 <$> compress_all (length ws) initial_hash ws).

Example sum256_abc :
  be_value (Sum256 [97; 98; 99]) = 0xba7816bf8f01cfea414140de5dae2223b00361a396177a9cb410ff61f20015ad.
Proof. vm_compute. reflexivity. Qed.

Example sum256_two_blocks :
  be_value (Sum256 (repeat 97 64)) = 0xffe054fe7ae0cb6dc65c3af9b61d5209f439851db43d0ba5997337df154668eb.
Proof. vm_compute. reflexivity. Qed.
