(* ===== verification/Netip.v ===== *)
(** * Go's [net/netip]

    Addresses, prefixes and their textual forms, as the sources use them:
    [netip.Addr] with its zero value, an IPv4 address or an IPv6 address with a
    zone; [netip.Prefix] with [Contains], [Masked], [Bits]; the parsers
    [ParseAddr] and [ParsePrefix] and the printers [Addr.String] and
    [Prefix.String]. *)

From Stdlib Require Import Ascii String.
From S2P Require Import Prelude GoStr.

#[local] Open Scope string_scope.
#[local] Open Scope Z_scope.
#[local] Abbreviation length := Datatypes.length.

(** ** Addresses *)

Inductive Addr : Type :=
| AddrZero
| Addr4 (bits : Z)
| Addr6 (bits : Z) (zone : string).

#[global] Instance Addr_eq_dec : EqDecision Addr.
Proof. solve_decision. Defined.

#[global] Instance Addr_countable : Countable Addr.
Proof.
  refine (inj_countable'
    (fun a => match a with
              | AddrZero => inl tt
              | Addr4 x => inr (inl x)
              | Addr6 x z => inr (inr (x, z))
              end)
    (fun s => match s with
              | inl _ => AddrZero
              | inr (inl x) => Addr4 x
              | inr (inr (x, z)) => Addr6 x z
              end) _).
  by intros [].
Defined.

Definition addr_IsValid (a : Addr) : bool := match a with AddrZero => false | _ => true end.
Definition Is4 (a : Addr) : bool := match a with Addr4 _ => true | _ => false end.
Definition Is6 (a : Addr) : bool := match a with Addr6 _ _ => true | _ => false end.
Definition BitLen (a : Addr) : Z :=
  match a with AddrZero => 0 | Addr4 _ => 32 | Addr6 _ _ => 128 end.
Definition hasZone (a : Addr) : bool :=
  match a with Addr6 _ z => negb (bool_decide (z = "")) | _ => false end.
Definition withoutZone (a : Addr) : Addr :=
  match a with Addr6 x _ => Addr6 x "" | _ => a end.
Definition IsLoopback (a : Addr) : bool :=
  match a with
  | AddrZero => false
  | Addr4 x => Z.shiftr x 24 =? 127
  | Addr6 x _ => x =? 1
  end.

(** The numeric value of an address. *)
Definition addr_bits (a : Addr) : Z :=
  match a with AddrZero => 0 | Addr4 x => x | Addr6 x _ => x end.

(** An address as the package builds it: its bits fit its length. *)
Definition addr_wf (a : Addr) : Prop := 0 <= addr_bits a < 2 ^ BitLen a.

(** ** Printing *)

Definition string_v4 (x : Z) : string :=
  itoa (Z.shiftr x 24) ++ "." ++ itoa (Z.land (Z.shiftr x 16) 255) ++ "." ++
  itoa (Z.land (Z.shiftr x 8) 255) ++ "." ++ itoa (Z.land x 255).

Fixpoint hex_trim (s : string) : string :=
  match s with
  | String "0" (String _ _ as s') => hex_trim s'
  | _ => s
  end.

Definition hex16 (x : Z) : string := hex_trim (hex_EncodeToString [x / 256; x mod 256]).

Definition groups16 (x : Z) : list Z :=
  (fun i => Z.land (Z.shiftr x (16 * (7 - Z.of_nat i))) 65535) <$> seq 0 8.

(** Length of the run of zero groups at the head. *)
Fixpoint zero_run (gs : list Z) : nat :=
  match gs with
  | 0 :: gs' => S (zero_run gs')
  | _ => O
  end.

(** The first longest run of at least two zero groups: position and length. *)
Fixpoint best_run (i : nat) (gs : list Z) : nat * nat :=
  match gs with
  | [] => (O, O)
  | _ :: gs' =>
      let here := zero_run gs in
      let '(j, n) := best_run (S i) gs' in
      if (Nat.ltb here n) then (j, n) else (i, here)
  end.

Fixpoint join_groups (gs : list Z) : string :=
  match gs with
  | [] => ""
  | [g] => hex16 g
  | g :: gs' => hex16 g ++ ":" ++ join_groups gs'
  end.

Definition string_v6 (x : Z) : string :=
  let gs := groups16 x in
  let '(i, n) := best_run 0 gs in
  if (Nat.leb 2 n) then join_groups (take i gs) ++ "::" ++ join_groups (drop (i + n) gs)
  else join_groups gs.

Definition addr_String (a : Addr) : string :=
  match a with
  | AddrZero => "invalid IP"
  | Addr4 x => string_v4 x
  | Addr6 x z =>
      (if Z.shiftr x 32 =? 65535 then "::ffff:" ++ string_v4 (Z.land x (2 ^ 32 - 1))
       else string_v6 x) ++ (if bool_decide (z = "") then "" else "%" ++ z)
  end.

(** ** Parsing addresses *)

(** The four octets of a dotted quad; [digLen] is the number of digits of the
    octet being read and [pos] the octets already stored. *)
Fixpoint parseIPv4Fields (fuel : nat) (s : string) (val digLen : Z) (fields : list Z) (prevDot : bool) : option (list Z) :=
  match fuel with
  | O => None
  | S fuel' =>
      match s with
      | EmptyString =>
          if Z.of_nat (length fields) <? 3 then None else Some (fields ++ [val])%list
      | String c s' =>
          if is_digit c then
            if (digLen =? 1) && (val =? 0) then None
            else let val' := val * 10 + (code c - 48) in
                 if 255 <? val' then None
                 else parseIPv4Fields fuel' s' val' (digLen + 1) fields false
          else if Ascii.eqb c "." then
            if prevDot || bool_decide (s' = "") then None
            else if Z.of_nat (length fields) =? 3 then None
            else parseIPv4Fields fuel' s' 0 0 (fields ++ [val])%list true
          else None
      end
  end.

Definition parse_quad (s : string) : option (list Z) :=
  parseIPv4Fields (S (String.length s)) s 0 0 [] true.

Definition parseIPv4 (s : string) : option Addr :=
  (fun fields => Addr4 (be_value fields)) <$> parse_quad s.

(** Hexadecimal digits at the head of [s]: their value, their number, the rest.
    More than four digits is an error. *)
Fixpoint scan_hex (fuel : nat) (s : string) (acc off : Z) : option (Z * Z * string) :=
  match fuel with
  | O => None
  | S fuel' =>
      match s with
      | String c s' =>
          match hex_value c with
          | Some d => if 3 <? off then None else scan_hex fuel' s' (acc * 16 + d) (off + 1)
          | None => Some (acc, off, s)
          end
      | EmptyString => Some (acc, off, s)
      end
  end.

(** The group loop of [parseIPv6]: [ip] holds the bytes stored so far and
    [ellipsis] the position of [::]. *)
Fixpoint parse_groups (fuel : nat) (s : string) (ip : list Z) (ellipsis : option nat)
  : option (list Z * option nat * string) :=
  match fuel with
  | O => None
  | S fuel' =>
      if Nat.leb 16 (length ip) then Some (ip, ellipsis, s)
      else
        match scan_hex (S (String.length s)) s 0 0 with
        | None => None
        | Some (acc, off, rest) =>
            if off =? 0 then None
            else
              match rest with
              | String "." _ =>
                  if bool_decide (ellipsis = None) && negb (Nat.eqb (length ip) 12) then None
                  else if Nat.ltb 16 (length ip + 4) then None
                  else match parse_quad s with
                       | Some q => Some ((ip ++ q)%list, ellipsis, "")
                       | None => None
                       end
              | _ =>
                  let ip' := (ip ++ [acc / 256; acc mod 256])%list in
                  match rest with
                  | EmptyString => Some (ip', ellipsis, "")
                  | String ":" EmptyString => None
                  | String ":" (String ":" rest') =>
                      match ellipsis with
                      | Some _ => None
                      | None =>
                          match rest' with
                          | EmptyString => Some (ip', Some (length ip'), "")
                          | _ => parse_groups fuel' rest' ip' (Some (length ip'))
                          end
                      end
                  | String ":" rest' => parse_groups fuel' rest' ip' ellipsis
                  | _ => None
                  end
              end
        end
  end.

Definition expand_ellipsis (ip : list Z) (ellipsis : option nat) : option (list Z) :=
  if Nat.ltb (length ip) 16 then
    match ellipsis with
    | None => None
    | Some e => Some (take e ip ++ repeat 0 (16 - length ip) ++ drop e ip)%list
    end
  else match ellipsis with Some _ => None | None => Some ip end.

Definition parseIPv6_body (s : string) : option Z :=
  let '(s', ell) := if HasPrefix s "::" then (drop_string 2 s, Some O) else (s, None) in
  if bool_decide (ell = Some O) && bool_decide (s' = "") then Some 0
  else
    match parse_groups 9 s' [] ell with
    | Some (ip, e, rest) =>
        if bool_decide (rest = "") then be_value <$> expand_ellipsis ip e else None
    | None => None
    end.

Definition parseIPv6 (s : string) : option Addr :=
  match IndexByte "%" s with
  | Some i =>
      let zone := drop_string (S i) s in
      if bool_decide (zone = "") then None
      else (fun x => Addr6 x zone) <$> parseIPv6_body (take_string i s)
  | None => (fun x => Addr6 x "") <$> parseIPv6_body s
  end.

(** The first of [.], [:] and [%] decides the family. *)
Fixpoint addr_kind (s : string) : option ascii :=
  match s with
  | EmptyString => None
  | String c s' => if Ascii.eqb c "." || Ascii.eqb c ":" || Ascii.eqb c "%" then Some c else addr_kind s'
  end.

Definition ParseAddr (s : string) : option Addr :=
  match addr_kind s with
  | Some "."%char => parseIPv4 s
  | Some ":"%char => parseIPv6 s
  | _ => None
  end.

(** ** Prefixes *)

Record Prefix := mkPrefix { prefix_Addr : Addr; prefix_Bits : Z }.

#[global] Instance Prefix_eq_dec : EqDecision Prefix.
Proof. solve_decision. Defined.

(** The zone is removed; a length out of range makes the prefix invalid. *)
Definition PrefixFrom (a : Addr) (bits : Z) : Prefix :=
  mkPrefix (withoutZone a) (if addr_IsValid a && (0 <=? bits) && (bits <=? BitLen a) then bits else -1).

Definition prefix_IsValid (p : Prefix) : bool := 0 <=? prefix_Bits p.

Definition Contains (p : Prefix) (a : Addr) : bool :=
  if negb (prefix_IsValid p) || hasZone a then false
  else if (BitLen (prefix_Addr p) =? 0) || (BitLen a =? 0) || negb (BitLen (prefix_Addr p) =? BitLen a) then false
  else Z.shiftr (Z.lxor (addr_bits (prefix_Addr p)) (addr_bits a)) (BitLen a - prefix_Bits p) =? 0.

Definition mask_bits (x len bits : Z) : Z := Z.shiftl (Z.shiftr x (len - bits)) (len - bits).

(** [p.Masked()]: the host bits cleared; the zero Prefix when [p] is invalid. *)
Definition Masked (p : Prefix) : Prefix :=
  if prefix_IsValid p then
    match prefix_Addr p with
    | AddrZero => mkPrefix AddrZero (-1)
    | Addr4 x => mkPrefix (Addr4 (mask_bits x 32 (prefix_Bits p))) (prefix_Bits p)
    | Addr6 x z => mkPrefix (Addr6 (mask_bits x 128 (prefix_Bits p)) "") (prefix_Bits p)
    end
  else mkPrefix AddrZero (-1).

Definition prefix_String (p : Prefix) : string :=
  if prefix_IsValid p then addr_String (prefix_Addr p) ++ "/" ++ itoa (prefix_Bits p)
  else "invalid Prefix".

Definition ParsePrefix (s : string) : option Prefix :=
  match LastIndexByte "/" s with
  | None => None
  | Some i =>
      match ParseAddr (take_string i s) with
      | None => None
      | Some ip =>
          if hasZone ip then None
          else
            let bitsStr := drop_string (S i) s in
            if (1 <? strlen bitsStr) &&
               match bitsStr with String c _ => negb ((49 <=? code c) && (code c <=? 57)) | _ => false end
            then None
            else match Atoi bitsStr with
                 | None => None
                 | Some bits =>
                     if (bits <? 0) || ((if Is6 ip then 128 else 32) <? bits) then None
                     else Some (PrefixFrom ip bits)
                 end
      end
  end.

Record AddrPort := mkAddrPort { ap_Addr : Addr; ap_Port : Z }.
Definition addrport_IsValid (p : AddrPort) : bool := addr_IsValid (ap_Addr p).

(** ** Lemmas *)

Lemma shiftr_lxor_eq0 x y n : Z.shiftr (Z.lxor x y) n = 0 <-> Z.shiftr x n = Z.shiftr y n.
Proof. rewrite Z.shiftr_lxor. apply Z.lxor_eq_0_iff. Qed.

Lemma Contains_true p a :
  Contains p a = true <->
  prefix_IsValid p = true /\ hasZone a = false /\ BitLen (prefix_Addr p) = BitLen a /\ BitLen a <> 0 /\
  Z.shiftr (addr_bits (prefix_Addr p)) (BitLen a - prefix_Bits p) =
  Z.shiftr (addr_bits a) (BitLen a - prefix_Bits p).
Proof.
  unfold Contains. rewrite <- shiftr_lxor_eq0.
  destruct (prefix_IsValid p), (hasZone a); simpl; try naive_solver.
  destruct (Z.eqb_spec (BitLen (prefix_Addr p)) 0), (Z.eqb_spec (BitLen a) 0),
    (Z.eqb_spec (BitLen (prefix_Addr p)) (BitLen a)); simpl; try naive_solver congruence.
  rewrite Z.eqb_eq. naive_solver.
Qed.

Lemma shiftr_coarser x y m n :
  0 <= m <= n -> Z.shiftr x m = Z.shiftr y m -> Z.shiftr x n = Z.shiftr y n.
Proof.
  intros Hmn H. replace n with (m + (n - m)) by lia.
  rewrite <- !Z.shiftr_shiftr by lia. by rewrite H.
Qed.

(** If a prefix contains the address of a longer prefix, it contains every
    address of the longer one. *)
Lemma Contains_subnet p q a :
  prefix_Bits p <= prefix_Bits q -> prefix_Bits q <= BitLen (prefix_Addr q) ->
  Contains p (prefix_Addr q) = true -> Contains q a = true -> Contains p a = true.
Proof.
  rewrite !Contains_true. unfold prefix_IsValid.
  intros Hb Hq (Hp & Hz & Hl & Hl0 & Hs) (Hq0 & Hza & Hla & Hl0' & Hsa).
  rewrite Z.leb_le in Hp, Hq0. split_and!; try done; [by rewrite Z.leb_le | congruence |].
  rewrite <- Hla. rewrite Hs. rewrite Hla.
  apply (shiftr_coarser _ _ (BitLen a - prefix_Bits q)); [lia|done].
Qed.

Lemma mask_shiftr x len bits : 0 <= bits <= len -> Z.shiftr (mask_bits x len bits) (len - bits) = Z.shiftr x (len - bits).
Proof.
  intros H. unfold mask_bits. rewrite Z.shiftr_shiftl_l by lia.
  rewrite Z.sub_diag. by rewrite Z.shiftl_0_r.
Qed.

Lemma mask_Contains_step x y len len' bits (P Q : Prop) :
  0 <= bits <= len ->
  (P /\ len = len' /\ Q /\ Z.shiftr (mask_bits x len bits) (len' - bits) = y) <->
  (P /\ len = len' /\ Q /\ Z.shiftr x (len' - bits) = y).
Proof.
  intros H. split; intros (HP & <- & HQ & Hs); split_and!; try done;
    [by rewrite mask_shiftr in Hs | by rewrite mask_shiftr].
Qed.

(** Masking does not change which addresses a well-formed prefix contains. *)
Lemma Contains_Masked p a :
  prefix_Bits p <= BitLen (prefix_Addr p) -> Contains (Masked p) a = Contains p a.
Proof.
  intros Hb. apply eq_bool_prop_intro. rewrite !Is_true_true, !Contains_true.
  unfold Masked. destruct (prefix_IsValid p) eqn:Hv; [|split; intros (?&?); simpl in *; done].
  unfold prefix_IsValid in *. rewrite Z.leb_le in Hv.
  destruct p as [[| x | x z] b]; simpl in *.
  - split; [by intros (?&?) | naive_solver].
  - rewrite mask_Contains_step by lia. rewrite Z.leb_le. intuition.
  - rewrite mask_Contains_step by lia. rewrite Z.leb_le. intuition.
Qed.

Lemma PrefixFrom_bits a bits : prefix_Bits (PrefixFrom a bits) <= BitLen (prefix_Addr (PrefixFrom a bits)).
Proof.
  unfold PrefixFrom; simpl. destruct (addr_IsValid a && (0 <=? bits) && (bits <=? BitLen a)) eqn:E.
  - split_bool. by destruct a.
  - by destruct a.
Qed.

Lemma Masked_bits p :
  prefix_Bits p <= BitLen (prefix_Addr p) -> prefix_Bits (Masked p) <= BitLen (prefix_Addr (Masked p)).
Proof. intros H. unfold Masked. destruct (prefix_IsValid p); [|done]. by destruct (prefix_Addr p). Qed.

Lemma ParsePrefix_bits s p : ParsePrefix s = Some p -> prefix_Bits p <= BitLen (prefix_Addr p).
Proof.
  unfold ParsePrefix. intros H. repeat (case_match; simplify_eq; try done); apply PrefixFrom_bits.
Qed.

Example parse_v4 : ParseAddr "192.168.1.10" = Some (Addr4 3232235786).
Proof. vm_compute. reflexivity. Qed.

Example parse_v4_bad : ParseAddr "192.168.01.10" = None /\ ParseAddr "1.2.3" = None /\ ParseAddr "1..2.3" = None /\ ParseAddr "256.1.1.1" = None.
Proof. vm_compute. repeat split. Qed.

Example parse_v6 :
  addr_String <$> ParseAddr "2001:0DB8::8:800:200c:417A" = Some "2001:db8::8:800:200c:417a" /\
  addr_String <$> ParseAddr "::ffff:10.0.0.1" = Some "::ffff:10.0.0.1" /\
  addr_String <$> ParseAddr "::" = Some "::" /\
  addr_String <$> ParseAddr "fe80::1%eth0" = Some "fe80::1%eth0" /\
  ParseAddr "1::2::3" = None /\ ParseAddr "1:2:3" = None.
Proof. vm_compute. repeat split. Qed.

Example parse_prefix :
  prefix_String <$> (Masked <$> ParsePrefix "10.1.2.3/16") = Some "10.1.0.0/16" /\
  ParsePrefix "10.1.2.3/33" = None /\ ParsePrefix "10.1.2.3/08" = None.
Proof. vm_compute. repeat split. Qed.

(** * The parsers of addresses and of prefixes *)

Definition no_slash (c : ascii) : bool := negb (Ascii.eqb c "/").

(** What an address without zone is written with. *)
Definition addr_char (c : ascii) : bool := bool_decide (is_Some (hex_value c)) || Ascii.eqb c "." || Ascii.eqb c ":".

Lemma digit_no_slash c : is_digit c = true -> no_slash c = true.
Proof. unfold no_slash. destruct (Ascii.eqb_spec c "/") as [->|]; [vm_compute; discriminate | done]. Qed.

Lemma hex_addr_char c d : hex_value c = Some d -> addr_char c = true.
Proof. intros H. unfold addr_char. rewrite H. done. Qed.

Lemma digit_addr_char c : is_digit c = true -> addr_char c = true.
Proof. intros H. apply (hex_addr_char c (code c - 48)). unfold hex_value. by rewrite H. Qed.

Lemma parseIPv4Fields_chars fuel s v n fs b r : parseIPv4Fields fuel s v n fs b = Some r -> all_chars addr_char s = true.
Proof.
  revert s v n fs b. induction fuel as [|fuel IH]; intros s v n fs b; simpl; [done|].
  destruct s as [|c s]; [done|]. simpl. destruct (is_digit c) eqn:Hd.
  - rewrite (digit_addr_char c Hd). case_if; [done|]. case_if; [done|]. apply IH.
  - destruct (Ascii.eqb_spec c ".") as [->|]; [|done]. case_if; [done|]. case_if; [done|]. apply IH.
Qed.

Lemma scan_hex_chars fuel s acc off a o rest :
  scan_hex fuel s acc off = Some (a, o, rest) -> all_chars addr_char rest = true -> all_chars addr_char s = true.
Proof.
  revert s acc off. induction fuel as [|fuel IH]; intros s acc off; simpl; [done|].
  destruct s as [|c s]; [by intros [= <- <- <-]|]. destruct (hex_value c) as [d|] eqn:Hh.
  - case_if; [done|]. intros H Hr. simpl. by rewrite (hex_addr_char _ _ Hh), (IH _ _ _ H Hr).
  - by intros [= <- <- <-].
Qed.

Lemma parse_groups_chars fuel s ip e ip' e' :
  parse_groups fuel s ip e = Some (ip', e', "") -> all_chars addr_char s = true.
Proof.
  revert s ip e. induction fuel as [|fuel IH]; intros s ip e; cbn [parse_groups]; [done|].
  destruct (Nat.leb 16 (List.length ip)); [by intros [= _ _ ->]|].
  destruct (scan_hex (S (String.length s)) s 0 0) as [[[acc off] rest]|] eqn:Es; [|done].
  destruct (off =? 0); [done|]. intros H.
  assert (Hquad : forall r, parse_quad s = Some r -> all_chars addr_char s = true)
    by (intros r; apply parseIPv4Fields_chars).
  repeat (match type of H with context [match ?x with _ => _ end] =>
    lazymatch x with
    | parse_quad s => destruct x eqn:?; [by eapply Hquad|]
    | _ => destruct x eqn:?
    end end; try discriminate); subst;
    try (injection H as <- <-); eapply scan_hex_chars; try exact Es; simpl; try reflexivity; try (apply IH in H; simpl in H; first [exact H | by rewrite andb_true_iff in H]).
Qed.

Lemma HasPrefix_split s p : HasPrefix s p = true -> s = p ++ drop_string (String.length p) s.
Proof.
  unfold HasPrefix. revert s. induction p as [|c p IH]; intros s; [done|]. destruct s as [|d s]; [done|]. simpl.
  destruct (ascii_dec c d) as [->|]; [|done]. intros H. change (String d s = String d (p ++ drop_string (String.length p) s)). f_equal. by apply IH.
Qed.

Lemma parseIPv6_body_chars s x : parseIPv6_body s = Some x -> all_chars addr_char s = true.
Proof.
  unfold parseIPv6_body. destruct (HasPrefix s "::") eqn:Hp.
  - apply HasPrefix_split in Hp. cbn [String.length] in Hp. revert Hp. generalize (drop_string 2 s). intros s' ->.
    rewrite all_chars_app. simpl (all_chars addr_char "::"). cbn [andb]. case_if; [split_bool; by subst|].
    destruct (parse_groups 9 s' [] (Some O)) as [[[ip e] rest]|] eqn:E; [|done].
    destruct (bool_decide (rest = "")) eqn:Hr; [|done]. split_bool. subst. intros _. by eapply parse_groups_chars.
  - rewrite (bool_decide_false (None = Some O)) by done. cbn [andb]. destruct (parse_groups 9 s [] None) as [[[ip e] rest]|] eqn:E; [|done].
    destruct (bool_decide (rest = "")) eqn:Hr; [|done]. split_bool. subst. intros _. by eapply parse_groups_chars.
Qed.

Lemma ParseAddr_chars s a : ParseAddr s = Some a -> hasZone a = false -> all_chars addr_char s = true.
Proof.
  unfold ParseAddr. destruct (addr_kind s) as [k|]; [|done]. intros H Hz.
  assert (H4 : parseIPv4 s = Some a -> all_chars addr_char s = true).
  { unfold parseIPv4. intros (r & E & _)%fmap_Some. by eapply parseIPv4Fields_chars. }
  assert (H6 : parseIPv6 s = Some a -> all_chars addr_char s = true).
  { unfold parseIPv6. destruct (IndexByte "%" s).
    - case_bool_decide as Hne; [done|]. intros (x & _ & ->)%fmap_Some. simpl in Hz.
      rewrite negb_false_iff, bool_decide_eq_true in Hz. done.
    - intros (x & E & _)%fmap_Some. by eapply parseIPv6_body_chars. }
  repeat case_match; try discriminate; auto.
Qed.

Lemma addr_char_plain c : addr_char c = true -> no_slash c = true /\ is_space c = false.
Proof. destruct c as [[] [] [] [] [] [] [] []]; vm_compute; intros H; (discriminate || done). Qed.

Lemma ParseAddr_no_slash s a : ParseAddr s = Some a -> hasZone a = false -> all_chars no_slash s = true.
Proof. intros H Hz. eapply all_chars_impl; [|by eapply ParseAddr_chars]. intros c Hc. by apply addr_char_plain. Qed.

(** *** The slash of a prefix *)

Lemma LastIndexByte_split c s i : LastIndexByte c s = Some i ->
  s = take_string i s ++ String c (drop_string (S i) s) /\ all_chars (fun d => negb (Ascii.eqb c d)) (drop_string (S i) s) = true.
Proof.
  revert i. induction s as [|d s IH]; intros i; simpl; [done|].
  destruct (LastIndexByte c s) as [n|] eqn:E.
  - intros [= <-]. destruct (IH _ eq_refl) as [H1 H2]. split; [|exact H2].
    change (String d s = String d (take_string n s ++ String c (drop_string (S n) s))). by rewrite <- H1.
  - destruct (Ascii.eqb_spec c d) as [->|]; [|done]. intros [= <-]. split; [done|]. simpl. clear IH.
    induction s as [|e s IH]; [done|]. simpl in *. destruct (LastIndexByte d s); [done|].
    destruct (Ascii.eqb d e); [done|]. simpl. by apply IH.
Qed.

Lemma IndexByte_app c a b :
  IndexByte c (a ++ b) = match IndexByte c a with Some i => Some i | None => Nat.add (String.length a) <$> IndexByte c b end.
Proof.
  induction a as [|d a IH]; [change ("" ++ b) with b; by destruct (IndexByte c b)|]. change (String d a ++ b) with (String d (a ++ b)). simpl.
  destruct (Ascii.eqb c d); [done|]. rewrite IH. destruct (IndexByte c a); [done|]. by destruct (IndexByte c b).
Qed.

Lemma addr_kind_app a b : addr_kind (a ++ b) = match addr_kind a with Some k => Some k | None => addr_kind b end.
Proof.
  induction a as [|d a IH]; [done|]. change (String d a ++ b) with (String d (a ++ b)). simpl.
  by destruct (_ || _).
Qed.

(** A number contains no percent sign. *)
Lemma Atoi_no_percent s n : Atoi s = Some n -> IndexByte "%" s = None.
Proof.
  assert (Hscan : forall s acc m, scan_digits acc s = (m, "") -> IndexByte "%" s = None).
  { clear. induction s as [|c s IH]; intros acc m; [done|]. cbn [scan_digits IndexByte]. destruct (is_digit c) eqn:Hd; [|done].
    intros H. destruct (Ascii.eqb_spec "%" c) as [<-|]; [vm_compute in Hd; discriminate|]. by rewrite (IH _ _ H). }
  unfold Atoi. destruct (scan_int s) as [[m rest]|] eqn:E; [|done]. destruct rest; [|done]. intros _. clear n.
  unfold scan_int in E.
  assert (Hgo : forall s (neg : bool), (if starts_with_digit s then let '(n, rest) := scan_digits 0 s in Some ((if neg then - n else n), rest) else None)
    = Some (m, "") -> IndexByte "%" s = None).
  { clear -Hscan. intros s neg. destruct (starts_with_digit s); [|done]. destruct (scan_digits 0 s) as [k r] eqn:Es.
    intros [= _ ->]. by eapply Hscan. }
  destruct s as [|c s]; [done|].
  destruct (Ascii.eqb_spec "+" c) as [<-|Hp]; [cbn [IndexByte]; by rewrite (Hgo s false E)|].
  destruct (Ascii.eqb_spec "-" c) as [<-|Hm]; [cbn [IndexByte]; by rewrite (Hgo s true E)|].
  apply (Hgo (String c s) false). rewrite <- E.
  destruct c as [[] [] [] [] [] [] [] []]; done.
Qed.

(** The zone of an address that has one starts after the percent sign. *)
Lemma ParseAddr_zone s a : ParseAddr s = Some a -> hasZone a = true -> addr_kind s = Some ":"%char /\ is_Some (IndexByte "%" s).
Proof.
  unfold ParseAddr. destruct (addr_kind s) as [k|]; [|done]. intros H Hz.
  assert (H4 : parseIPv4 s <> Some a).
  { unfold parseIPv4. intros (r & _ & ->)%fmap_Some. done. }
  assert (H6 : parseIPv6 s = Some a -> is_Some (IndexByte "%" s)).
  { unfold parseIPv6. destruct (IndexByte "%" s); [by eauto|]. intros (x & _ & ->)%fmap_Some. done. }
  repeat case_match; try discriminate; auto. done.
Qed.

(** An address with a percent sign has a zone. *)
Lemma ParseAddr_percent s a : ParseAddr s = Some a -> addr_kind s = Some ":"%char -> is_Some (IndexByte "%" s) -> hasZone a = true.
Proof.
  unfold ParseAddr. intros H E [i Hi]. rewrite E in H. unfold parseIPv6 in H. rewrite Hi in H.
  case_bool_decide; [done|]. apply fmap_Some in H as (x & _ & ->). simpl. by rewrite bool_decide_false.
Qed.

Lemma ParsePrefix_not_addr s p : ParsePrefix s = Some p -> ParseAddr s = None.
Proof.
  unfold ParsePrefix. destruct (LastIndexByte "/" s) as [i|] eqn:Hi; [|done].
  apply LastIndexByte_split in Hi as [Hs _]. set (a := take_string i s) in *. set (b := drop_string (S i) s) in *. clearbody a b. subst s.
  destruct (ParseAddr a) as [ip|] eqn:Ha; [|done]. destruct (hasZone ip) eqn:Hz; [done|].
  destruct (_ && _); [done|]. destruct (Atoi b) as [bits|] eqn:Hb; [|done]. intros _.
  destruct (ParseAddr (a ++ String "/" b)) as [x|] eqn:Hx; [|done]. exfalso. destruct (hasZone x) eqn:Hzx.
  - apply ParseAddr_zone in Hx as [Hk [j Hj]]; [|done]. rewrite IndexByte_app in Hj.
    rewrite addr_kind_app in Hk. cbn [IndexByte] in Hj. change (Ascii.eqb "%" "/") with false in Hj. cbn iota in Hj.
    rewrite (Atoi_no_percent _ _ Hb) in Hj. destruct (IndexByte "%" a) as [j'|] eqn:Ej; [|done].
    destruct (addr_kind a) as [k|] eqn:Eka; [|by unfold ParseAddr in Ha; rewrite Eka in Ha].
    rewrite Hk in Eka. assert (hasZone ip = true) by (eapply ParseAddr_percent; eauto). congruence.
  - apply ParseAddr_no_slash in Hx; [|done]. rewrite all_chars_app in Hx. simpl in Hx. by rewrite andb_false_r in Hx.
Qed.
