(* ===== verification/Domain.v ===== *)
(** * Domain types ([internal/domain])

    The data every component shares: string enumerations, tuples, conntrack
    identities, sessions, inspection metadata and the configuration.  A Go type
    [type T string] with named constants is an inductive type with those
    constants and one constructor [TOther s] for every other string, Go's zero
    value [""] included, since values of these types are decoded from JSON.
    Pointers to values that are only replaced, never written through, are
    options, so [Clone()] is the identity and is not repeated here. *)

From S2P Require Import Prelude GoStr Netip.

(** ** Enumerations *)

Inductive Decision : Type :=
| DecisionAllow | DecisionDrop | DecisionReject | DecisionRateLimit | DecisionReset | DecisionTempBlock
| DecisionOther (s : string).

(** Go's zero value, no decision. *)
Definition DecisionNone : Decision := DecisionOther "".

#[global] Instance Decision_eq_dec : EqDecision Decision.
Proof. solve_decision. Defined.

Definition Decision_Valid (d : Decision) : bool :=
  match d with
  | DecisionAllow | DecisionDrop | DecisionReject | DecisionRateLimit | DecisionReset | DecisionTempBlock => true
  | DecisionOther _ => false
  end.

Definition Decision_string (d : Decision) : string :=
  match d with
  | DecisionAllow => "ALLOW" | DecisionDrop => "DROP" | DecisionReject => "REJECT"
  | DecisionRateLimit => "RATE_LIMIT" | DecisionReset => "RESET_SESSION" | DecisionTempBlock => "TEMP_BLOCK"
  | DecisionOther s => s
  end.

Inductive Severity : Type :=
| SeverityUnknown | SeverityInfo | SeverityLow | SeverityMedium | SeverityHigh | SeverityCritical
| SeverityOther (s : string).

#[global] Instance Severity_eq_dec : EqDecision Severity.
Proof. solve_decision. Defined.

Definition Severity_Weight (s : Severity) : Z :=
  match s with
  | SeverityInfo => 0 | SeverityLow => 10 | SeverityMedium => 20 | SeverityHigh => 30 | SeverityCritical => 40
  | _ => 0
  end.

Inductive TLSMode : Type := TLSBypass | TLSMetadata | TLSDecrypt | TLSModeOther (s : string).

#[global] Instance TLSMode_eq_dec : EqDecision TLSMode.
Proof. solve_decision. Defined.

Definition TLSMode_Valid (m : TLSMode) : bool :=
  match m with TLSBypass | TLSMetadata | TLSDecrypt => true | TLSModeOther _ => false end.

Inductive InterfaceMode : Type :=
| InterfaceL3 | InterfaceVLANParent | InterfaceVLANSub | InterfaceManagement | InterfaceModeOther (s : string).

#[global] Instance InterfaceMode_eq_dec : EqDecision InterfaceMode.
Proof. solve_decision. Defined.

Definition InterfaceMode_Valid (m : InterfaceMode) : bool :=
  match m with
  | InterfaceL3 | InterfaceVLANParent | InterfaceVLANSub | InterfaceManagement => true
  | InterfaceModeOther _ => false
  end.

Inductive SessionState : Type := SessionNew | SessionEstablished | SessionClosing | SessionClosed.

#[global] Instance SessionState_eq_dec : EqDecision SessionState.
Proof. solve_decision. Defined.

Inductive CacheState : Type := CacheNotEvaluated | CacheCached | CacheInvalidated.

#[global] Instance CacheState_eq_dec : EqDecision CacheState.
Proof. solve_decision. Defined.

Inductive TrackingStatus : Type := TrackingComplete | TrackingPartial | TrackingStale | TrackingAmbiguous.

#[global] Instance TrackingStatus_eq_dec : EqDecision TrackingStatus.
Proof. solve_decision. Defined.

Inductive IdentityConfidence : Type := IdentityComplete | IdentityPartial | IdentityAmbiguous.

#[global] Instance IdentityConfidence_eq_dec : EqDecision IdentityConfidence.
Proof. solve_decision. Defined.

Inductive ApplicationSource : Type :=
| ApplicationSourceUnknown | ApplicationSourceSuricataAppProto | ApplicationSourceDPIParser
| ApplicationSourceTLSMetadata | ApplicationSourcePortHeuristic | ApplicationSourceOther (s : string).

#[global] Instance ApplicationSource_eq_dec : EqDecision ApplicationSource.
Proof. solve_decision. Defined.

Definition ApplicationSource_Valid (s : ApplicationSource) : bool :=
  match s with ApplicationSourceOther _ => false | _ => true end.

Inductive ApplicationConfidence : Type :=
| ApplicationConfidenceUnknown | ApplicationConfidenceLow | ApplicationConfidenceMedium
| ApplicationConfidenceHigh | ApplicationConfidenceVerified | ApplicationConfidenceOther (s : string).

#[global] Instance ApplicationConfidence_eq_dec : EqDecision ApplicationConfidence.
Proof. solve_decision. Defined.

Definition ApplicationConfidence_Valid (c : ApplicationConfidence) : bool :=
  match c with ApplicationConfidenceOther _ => false | _ => true end.

Inductive InspectionMode : Type :=
| InspectionModeOff | InspectionModeIDS | InspectionModeIPS | InspectionModeOther (s : string).

#[global] Instance InspectionMode_eq_dec : EqDecision InspectionMode.
Proof. solve_decision. Defined.

Definition InspectionMode_Valid (m : InspectionMode) : bool :=
  match m with InspectionModeOther _ => false | _ => true end.

Inductive InspectionState : Type :=
| InspectionStateNotRequested | InspectionStateQueued | InspectionStateInspecting | InspectionStateDegraded
| InspectionStateError | InspectionStateComplete | InspectionStateOther (s : string).

#[global] Instance InspectionState_eq_dec : EqDecision InspectionState.
Proof. solve_decision. Defined.

Definition InspectionState_Valid (s : InspectionState) : bool :=
  match s with InspectionStateOther _ => false | _ => true end.

Inductive CoverageState : Type :=
| CoverageNone | CoverageObserved | CoveragePartial | CoverageUnavailable | CoverageStateOther (s : string).

#[global] Instance CoverageState_eq_dec : EqDecision CoverageState.
Proof. solve_decision. Defined.

Definition CoverageState_Valid (s : CoverageState) : bool :=
  match s with CoverageStateOther _ => false | _ => true end.

Inductive AppPolicyState : Type :=
| AppPolicyNotApplicable | AppPolicyPending | AppPolicyMatched | AppPolicyMismatch | AppPolicyUnknownAllowed
| AppPolicyStateOther (s : string).

#[global] Instance AppPolicyState_eq_dec : EqDecision AppPolicyState.
Proof. solve_decision. Defined.

Definition AppPolicyState_Valid (s : AppPolicyState) : bool :=
  match s with AppPolicyStateOther _ => false | _ => true end.

Inductive CorrelationState : Type :=
| CorrelationCorrelated | CorrelationUncorrelated | CorrelationAmbiguous | CorrelationStateOther (s : string).

Definition CorrelationState_Valid (s : CorrelationState) : bool :=
  match s with CorrelationStateOther _ => false | _ => true end.

Inductive EnforcementMechanism : Type :=
| EnforcementNone | EnforcementSuricataNFQueue | EnforcementNFTSessionGuard | EnforcementMechanismOther (s : string).

#[global] Instance EnforcementMechanism_eq_dec : EqDecision EnforcementMechanism.
Proof. solve_decision. Defined.

Definition EnforcementMechanism_Valid (m : EnforcementMechanism) : bool :=
  match m with EnforcementMechanismOther _ => false | _ => true end.

Inductive EnforcementScope : Type :=
| EnforcementScopePacket | EnforcementScopeSession | EnforcementScopeOther (s : string).

#[global] Instance EnforcementScope_eq_dec : EqDecision EnforcementScope.
Proof. solve_decision. Defined.

Definition EnforcementScope_Valid (s : EnforcementScope) : bool :=
  match s with EnforcementScopeOther _ => false | _ => true end.

Inductive EnforcementStatus : Type :=
| EnforcementNotRequested | EnforcementPending | EnforcementReported | EnforcementApplied | EnforcementFailed
| EnforcementUnavailable | EnforcementStatusOther (s : string).

#[global] Instance EnforcementStatus_eq_dec : EqDecision EnforcementStatus.
Proof. solve_decision. Defined.

Definition EnforcementStatus_Valid (s : EnforcementStatus) : bool :=
  match s with EnforcementStatusOther _ => false | _ => true end.

Inductive LatestVerdict : Type :=
| VerdictUnknown | VerdictAlert | VerdictDrop | VerdictError | LatestVerdictOther (s : string).

#[global] Instance LatestVerdict_eq_dec : EqDecision LatestVerdict.
Proof. solve_decision. Defined.

Definition LatestVerdict_Valid (v : LatestVerdict) : bool :=
  match v with LatestVerdictOther _ => false | _ => true end.

(** *** Request-gate enumerations: the zero value is unknown, never allowed. *)

Inductive GateFailMode : Type := GateFailOpen | GateFailClose | GateFailModeOther (s : string).

#[global] Instance GateFailMode_eq_dec : EqDecision GateFailMode.
Proof. solve_decision. Defined.

Definition GateFailMode_Valid (m : GateFailMode) : bool :=
  match m with GateFailOpen | GateFailClose => true | GateFailModeOther _ => false end.

Inductive TLSGateAction : Type :=
| TLSGateBypass | TLSGateMetadataOnly | TLSGateDecrypt | TLSGateInspectHTTP | TLSGateBlock
| TLSGateActionOther (s : string).

#[global] Instance TLSGateAction_eq_dec : EqDecision TLSGateAction.
Proof. solve_decision. Defined.

Definition TLSGateAction_Valid (a : TLSGateAction) : bool :=
  match a with TLSGateActionOther _ => false | _ => true end.

Inductive RequestVerdict : Type := RequestAllow | RequestBlock | RequestUnavailable | RequestVerdictOther (s : string).

#[global] Instance RequestVerdict_eq_dec : EqDecision RequestVerdict.
Proof. solve_decision. Defined.

Definition RequestVerdict_Valid (v : RequestVerdict) : bool :=
  match v with RequestVerdictOther _ => false | _ => true end.

Inductive RequestCoverage : Type :=
| CoverageComplete | RequestCoveragePartial | RequestCoverageUnavailable | CoverageNotRequested
| RequestCoverageOther (s : string).

#[global] Instance RequestCoverage_eq_dec : EqDecision RequestCoverage.
Proof. solve_decision. Defined.

Definition RequestCoverage_Valid (c : RequestCoverage) : bool :=
  match c with RequestCoverageOther _ => false | _ => true end.

Inductive InspectionIntentKind : Type :=
| IntentInstallAppGuard | IntentRenewAppGuard | IntentRemoveAppGuard | IntentKindOther (s : string).

#[global] Instance InspectionIntentKind_eq_dec : EqDecision InspectionIntentKind.
Proof. solve_decision. Defined.

(** ** Tuples and identities *)

(** [type IPFamily uint8]. *)
Definition FamilyUnknown : Z := 0.
Definition FamilyIPv4 : Z := 4.
Definition FamilyIPv6 : Z := 6.

Definition IPFamily_String (f : Z) : string :=
  if f =? FamilyIPv4 then "ipv4" else if f =? FamilyIPv6 then "ipv6" else "unknown".

Record Tuple : Type := mkTuple {
  tp_Family : Z;
  tp_SrcIP : Addr;
  tp_SrcPort : Z;
  tp_DstIP : Addr;
  tp_DstPort : Z;
  tp_Protocol : Z;
  tp_ICMPType : Z;
  tp_ICMPCode : Z;
  tp_ICMPID : Z
}.

#[global] Instance eta_Tuple : Eta Tuple := fun t =>
  mkTuple (tp_Family t) (tp_SrcIP t) (tp_SrcPort t) (tp_DstIP t) (tp_DstPort t) (tp_Protocol t)
    (tp_ICMPType t) (tp_ICMPCode t) (tp_ICMPID t).

#[global] Instance Tuple_eq_dec : EqDecision Tuple.
Proof. solve_decision. Defined.

#[global] Instance Tuple_countable : Countable Tuple.
Proof.
  refine (inj_countable'
    (fun t => (tp_Family t, tp_SrcIP t, tp_SrcPort t, tp_DstIP t, tp_DstPort t, tp_Protocol t,
               tp_ICMPType t, tp_ICMPCode t, tp_ICMPID t))
    (fun '(a, b, c, d, e, f, g, h, i) => mkTuple a b c d e f g h i) _).
  by intros [].
Defined.

(** Go's [domain.Tuple{}]. *)
Definition tuple_zero : Tuple := mkTuple 0 AddrZero 0 AddrZero 0 0 0 0 0.

Definition Tuple_Valid (t : Tuple) : bool :=
  if bool_decide (tp_SrcIP t = AddrZero) || bool_decide (tp_DstIP t = AddrZero) || (tp_Protocol t =? 0) then false
  else if (tp_Family t =? FamilyIPv4) && (negb (Is4 (tp_SrcIP t)) || negb (Is4 (tp_DstIP t))) then false
  else if (tp_Family t =? FamilyIPv6) &&
          (negb (Is6 (tp_SrcIP t)) || Is4 (tp_SrcIP t) || negb (Is6 (tp_DstIP t)) || Is4 (tp_DstIP t)) then false
  else BitLen (tp_SrcIP t) =? BitLen (tp_DstIP t).

Definition Tuple_Reverse (t : Tuple) : Tuple :=
  let r := t <| tp_SrcIP := tp_DstIP t |> <| tp_DstIP := tp_SrcIP t |>
             <| tp_SrcPort := tp_DstPort t |> <| tp_DstPort := tp_SrcPort t |> in
  if (tp_Protocol t =? 1) || (tp_Protocol t =? 58) then
    if tp_ICMPType t =? 8 then r <| tp_ICMPType := 0 |>
    else if tp_ICMPType t =? 0 then r <| tp_ICMPType := 8 |>
    else if tp_ICMPType t =? 128 then r <| tp_ICMPType := 129 |>
    else if tp_ICMPType t =? 129 then r <| tp_ICMPType := 128 |>
    else r
  else r.

Definition Tuple_String (t : Tuple) : string :=
  strings_Join "|"
    [IPFamily_String (tp_Family t); addr_String (tp_SrcIP t); addr_String (tp_DstIP t);
     itoa (tp_SrcPort t); itoa (tp_DstPort t); itoa (tp_Protocol t);
     itoa (tp_ICMPType t); itoa (tp_ICMPCode t); itoa (tp_ICMPID t); itoa (BitLen (tp_SrcIP t))].

(** [ParseProtocol]: the names the configuration uses, or a decimal number. *)
Definition ParseProtocol (value : string) : option Z :=
  let v := ToLower (TrimSpace value) in
  if bool_decide (v = "tcp") || bool_decide (v = "6") then Some 6
  else if bool_decide (v = "udp") || bool_decide (v = "17") then Some 17
  else if bool_decide (v = "icmp") || bool_decide (v = "1") then Some 1
  else if bool_decide (v = "icmpv6") || bool_decide (v = "58") then Some 58
  else match Sscanf_int (TrimSpace value) with
       | Some n => if (0 <? n) && (n <=? 255) then Some (u8 n) else None
       | None => None
       end.

Record FlowKey : Type := mkFlowKey {
  fk_SrcIP : string;
  fk_DstIP : string;
  fk_SrcPort : Z;
  fk_DstPort : Z;
  fk_Protocol : string;
  fk_Namespace : string
}.

Definition FlowKey_Reverse (k : FlowKey) : FlowKey :=
  mkFlowKey (fk_DstIP k) (fk_SrcIP k) (fk_DstPort k) (fk_SrcPort k) (fk_Protocol k) (fk_Namespace k).

Inductive TupleError : Type := InvalidSourceIP | InvalidDestinationIP | MixedFamilies | UnsupportedProtocol | PortOutsideRange.

Definition TupleFromFlowKey (k : FlowKey) : result TupleError Tuple :=
  match ParseAddr (TrimSpace (fk_SrcIP k)) with
  | None => Err InvalidSourceIP
  | Some src =>
      match ParseAddr (TrimSpace (fk_DstIP k)) with
      | None => Err InvalidDestinationIP
      | Some dst =>
          if negb (Bool.eqb (Is4 src) (Is4 dst)) then Err MixedFamilies
          else match ParseProtocol (fk_Protocol k) with
               | None => Err UnsupportedProtocol
               | Some proto =>
                   if (fk_SrcPort k <? 0) || (65535 <? fk_SrcPort k) || (fk_DstPort k <? 0) || (65535 <? fk_DstPort k)
                   then Err PortOutsideRange
                   else
                     let family := if Is4 src then FamilyIPv4 else FamilyIPv6 in
                     Ok (mkTuple family src (u16 (fk_SrcPort k)) dst (u16 (fk_DstPort k)) proto 0 0 0)
               end
      end
  end.

Definition Tuple_FlowKey (t : Tuple) (namespace : string) : FlowKey :=
  let protocol :=
    if tp_Protocol t =? 1 then "icmp"
    else if tp_Protocol t =? 6 then "tcp"
    else if tp_Protocol t =? 17 then "udp"
    else if tp_Protocol t =? 58 then "icmpv6"
    else itoa (tp_Protocol t) in
  mkFlowKey (addr_String (tp_SrcIP t)) (addr_String (tp_DstIP t)) (tp_SrcPort t) (tp_DstPort t) protocol namespace.

Record ConntrackIdentity : Type := mkConntrackIdentity {
  ci_BootID : string;
  ci_NetworkNS : string;
  ci_Zone : Z;
  ci_Family : Z;
  ci_ID : Z;
  ci_KernelStart : Z;
  ci_Original : Tuple
}.

#[global] Instance eta_ConntrackIdentity : Eta ConntrackIdentity := fun i =>
  mkConntrackIdentity (ci_BootID i) (ci_NetworkNS i) (ci_Zone i) (ci_Family i) (ci_ID i) (ci_KernelStart i) (ci_Original i).

#[global] Instance ConntrackIdentity_eq_dec : EqDecision ConntrackIdentity.
Proof. solve_decision. Defined.

#[global] Instance ConntrackIdentity_countable : Countable ConntrackIdentity.
Proof.
  refine (inj_countable'
    (fun i => (ci_BootID i, ci_NetworkNS i, ci_Zone i, ci_Family i, ci_ID i, ci_KernelStart i, ci_Original i))
    (fun '(a, b, c, d, e, f, g) => mkConntrackIdentity a b c d e f g) _).
  by intros [].
Defined.

Record NATInfo : Type := mkNATInfo {
  nat_OriginalTuple : option Tuple;
  nat_ReplyTuple : option Tuple;
  nat_TranslatedTuple : option Tuple;
  nat_PreNATSource : string;
  nat_PreNATDestination : string;
  nat_PostNATSource : string;
  nat_PostNATDestination : string;
  nat_SNAT : bool;
  nat_DNAT : bool;
  nat_SourceTranslationMethod : string;
  nat_MatchedRuleID : string;
  nat_EvidenceGeneration : Z
}.

#[global] Instance NATInfo_eq_dec : EqDecision NATInfo.
Proof. solve_decision. Defined.

Record SessionQuality : Type := mkSessionQuality {
  sq_TrackingStatus : TrackingStatus;
  sq_IdentityConfidence : IdentityConfidence;
  sq_MissingFields : list string;
  sq_Reason : string;
  sq_LastResyncID : Z
}.

#[global] Instance eta_SessionQuality : Eta SessionQuality := fun q =>
  mkSessionQuality (sq_TrackingStatus q) (sq_IdentityConfidence q) (sq_MissingFields q) (sq_Reason q) (sq_LastResyncID q).

(** ** Inspection metadata *)

Record ApplicationIdentity : Type := mkApplicationIdentity {
  ai_Name : string;
  ai_RawName : string;
  ai_Source : ApplicationSource;
  ai_Confidence : ApplicationConfidence;
  ai_FirstSeen : option Time;
  ai_LastSeen : option Time;
  ai_Revision : Z;
  ai_Conflicted : bool;
  ai_EvidenceID : string
}.

#[global] Instance eta_ApplicationIdentity : Eta ApplicationIdentity := fun a =>
  mkApplicationIdentity (ai_Name a) (ai_RawName a) (ai_Source a) (ai_Confidence a) (ai_FirstSeen a) (ai_LastSeen a)
    (ai_Revision a) (ai_Conflicted a) (ai_EvidenceID a).

Definition UnknownApplication : ApplicationIdentity :=
  mkApplicationIdentity "UNKNOWN" "" ApplicationSourceUnknown ApplicationConfidenceUnknown None None 0 false "".

Definition ApplicationIdentity_NormalizeZero (a : ApplicationIdentity) : ApplicationIdentity :=
  let a := if bool_decide (ai_Name a = "") then a <| ai_Name := "UNKNOWN" |> else a in
  let a := if bool_decide (ai_Source a = ApplicationSourceOther "") then a <| ai_Source := ApplicationSourceUnknown |> else a in
  if bool_decide (ai_Confidence a = ApplicationConfidenceOther "") then a <| ai_Confidence := ApplicationConfidenceUnknown |> else a.

Record EnforcementResult : Type := mkEnforcementResult {
  er_Mechanism : EnforcementMechanism;
  er_Scope : EnforcementScope;
  er_RequestedAction : Decision;
  er_Status : EnforcementStatus;
  er_Reason : string;
  er_ObservedAt : option Time;
  er_OperationID : string
}.

Record SessionInspection : Type := mkSessionInspection {
  si_Generation : Z;
  si_Revision : Z;
  si_ProfileID : string;
  si_Mode : InspectionMode;
  si_State : InspectionState;
  si_Reason : string;
  si_Coverage : CoverageState;
  si_Application : ApplicationIdentity;
  si_AppPolicyState : AppPolicyState;
  si_AppDeadline : option Time;
  si_ThreatCount : Z;
  si_LastEventID : string;
  si_MaxSeverity : Severity;
  si_LatestVerdict : LatestVerdict;
  si_Enforcement : EnforcementResult;
  si_Sources : list string;
  si_FirstObservedAt : option Time;
  si_LastObservedAt : option Time;
  si_MissingEvidence : list string
}.

#[global] Instance eta_SessionInspection : Eta SessionInspection := fun s =>
  mkSessionInspection (si_Generation s) (si_Revision s) (si_ProfileID s) (si_Mode s) (si_State s) (si_Reason s)
    (si_Coverage s) (si_Application s) (si_AppPolicyState s) (si_AppDeadline s) (si_ThreatCount s) (si_LastEventID s)
    (si_MaxSeverity s) (si_LatestVerdict s) (si_Enforcement s) (si_Sources s) (si_FirstObservedAt s)
    (si_LastObservedAt s) (si_MissingEvidence s).

Definition DefaultSessionInspection : SessionInspection :=
  mkSessionInspection 0 0 "" InspectionModeOff InspectionStateNotRequested "" CoverageNone UnknownApplication
    AppPolicyNotApplicable None 0 "" SeverityUnknown VerdictUnknown
    (mkEnforcementResult EnforcementNone EnforcementScopePacket DecisionNone EnforcementNotRequested "" None "")
    [] None None [].

(** ** Request-gate evidence *)

Record RequestContext : Type := mkRequestContext {
  rq_RequestID : string;
  rq_ConnectionID : string;
  rq_SessionID : string;
  rq_RequestOrdinal : Z;
  rq_StreamID : option Z;
  rq_HTTPVersion : string;
  rq_Method : string;
  rq_Scheme : string;
  rq_Host : string;
  rq_Path : string;
  rq_QueryPresent : bool;
  rq_ContentType : string;
  rq_ContentEncoding : string;
  rq_HeaderBytes : Z;
  rq_BodyBytes : Z;
  rq_DecodedBodyBytes : Z;
  rq_BodySHA256 : string;
  rq_Truncated : bool
}.

#[global] Instance eta_RequestContext : Eta RequestContext := fun c =>
  mkRequestContext (rq_RequestID c) (rq_ConnectionID c) (rq_SessionID c) (rq_RequestOrdinal c) (rq_StreamID c)
    (rq_HTTPVersion c) (rq_Method c) (rq_Scheme c) (rq_Host c) (rq_Path c) (rq_QueryPresent c) (rq_ContentType c)
    (rq_ContentEncoding c) (rq_HeaderBytes c) (rq_BodyBytes c) (rq_DecodedBodyBytes c) (rq_BodySHA256 c) (rq_Truncated c).

Record RequestAlert : Type := mkRequestAlert {
  ra_Detector : string;
  ra_SignatureID : string;
  ra_Category : string;
  ra_Message : string;
  ra_Action : string;
  ra_Severity : string;
  ra_Timestamp : string
}.

#[global] Instance eta_RequestAlert : Eta RequestAlert := fun a =>
  mkRequestAlert (ra_Detector a) (ra_SignatureID a) (ra_Category a) (ra_Message a) (ra_Action a) (ra_Severity a) (ra_Timestamp a).

Record RequestInspectionResult : Type := mkRequestInspectionResult {
  ri_RequestID : string;
  ri_Coverage : RequestCoverage;
  ri_Completed : bool;
  ri_Alerts : list RequestAlert;
  ri_ErrorCode : string;
  ri_DurationMS : Z;
  ri_RulesetID : string;
  ri_RulesetHash : string
}.

#[global] Instance eta_RequestInspectionResult : Eta RequestInspectionResult := fun r =>
  mkRequestInspectionResult (ri_RequestID r) (ri_Coverage r) (ri_Completed r) (ri_Alerts r) (ri_ErrorCode r)
    (ri_DurationMS r) (ri_RulesetID r) (ri_RulesetHash r).

Record RequestDecision : Type := mkRequestDecision {
  rd_DecisionID : string;
  rd_RequestID : string;
  rd_ConfigGeneration : Z;
  rd_SessionID : string;
  rd_PolicyID : string;
  rd_ProfileID : string;
  rd_Verdict : RequestVerdict;
  rd_Coverage : RequestCoverage;
  rd_HTTPStatus : Z;
  rd_ReasonCode : string;
  rd_Reason : string
}.

#[global] Instance eta_RequestDecision : Eta RequestDecision := fun d =>
  mkRequestDecision (rd_DecisionID d) (rd_RequestID d) (rd_ConfigGeneration d) (rd_SessionID d) (rd_PolicyID d)
    (rd_ProfileID d) (rd_Verdict d) (rd_Coverage d) (rd_HTTPStatus d) (rd_ReasonCode d) (rd_Reason d).

Record RequestForwardResult : Type := mkRequestForwardResult {
  rf_HTTPStatus : Z;
  rf_ReasonCode : string;
  rf_ClientCertificateRequested : bool;
  rf_ObservedAt : Time
}.

Record RequestGateEvidence : Type := mkRequestGateEvidence {
  ge_EventID : string;
  ge_Sequence : Z;
  ge_ObservedAt : Time;
  ge_Context : RequestContext;
  ge_PathTruncated : bool;
  ge_Inspection : RequestInspectionResult;
  ge_AlertCount : Z;
  ge_AlertsTruncated : bool;
  ge_Decision : RequestDecision;
  ge_Forward : option RequestForwardResult
}.

#[global] Instance eta_RequestGateEvidence : Eta RequestGateEvidence := fun e =>
  mkRequestGateEvidence (ge_EventID e) (ge_Sequence e) (ge_ObservedAt e) (ge_Context e) (ge_PathTruncated e)
    (ge_Inspection e) (ge_AlertCount e) (ge_AlertsTruncated e) (ge_Decision e) (ge_Forward e).

Definition ValidRequestResult (code : string) (status : Z) : bool :=
  if bool_decide (code = "UPSTREAM_RESPONSE_RECEIVED") then (200 <=? status) && (status <=? 599)
  else if bool_decide (code = "UPSTREAM_RESPONSE_TRUNCATED") then (200 <=? status) && (status <=? 599)
  else if bool_decide (code ∈ ["TLS_UPSTREAM_MTLS_UNSUPPORTED"; "TLS_UPSTREAM_VERIFY_FAILED"; "TLS_UPSTREAM_HANDSHAKE_FAILED";
                               "TLS_UPSTREAM_CONNECT_FAILED"; "UPSTREAM_CONNECT_FAILED"; "UPSTREAM_RESPONSE_INVALID"])
  then status =? 502
  else if bool_decide (code = "UPSTREAM_REQUEST_INVALID") then status =? 400
  else false.

(** ** Sessions *)

Record RuntimeSession : Type := mkRuntimeSession {
  rs_SessionID : string;
  rs_Identity : ConntrackIdentity;
  rs_OriginalTuple : Tuple;
  rs_ReplyTuple : option Tuple;
  rs_TranslatedTuple : option Tuple;
  rs_NAT : NATInfo;
  rs_IPFamily : Z;
  rs_Protocol : Z;
  rs_SourceZone : string;
  rs_DestinationZone : string;
  rs_State : SessionState;
  rs_CreatedAt : Time;
  rs_LastSeen : Time;
  rs_LastObservedAt : Time;
  rs_ExpiresAt : option Time;
  rs_ClosedAt : option Time;
  rs_PacketsOriginal : Z;
  rs_BytesOriginal : Z;
  rs_PacketsReply : Z;
  rs_BytesReply : Z;
  rs_MatchedPolicyID : string;
  rs_PolicyGeneration : Z;
  rs_Decision : Decision;
  rs_DecisionGeneration : Z;
  rs_DecisionReason : string;
  rs_CacheState : CacheState;
  rs_InvalidatedAt : option Time;
  rs_InvalidationReason : string;
  rs_KernelEpoch : Z;
  rs_KernelMark : Z;
  rs_KernelCacheVerified : bool;
  rs_EffectiveDecision : Decision;
  rs_Revoked : bool;
  rs_Revision : Z;
  rs_Quality : SessionQuality;
  rs_Inspection : option SessionInspection;
  rs_RequestGate : list RequestGateEvidence
}.

#[global] Instance eta_RuntimeSession : Eta RuntimeSession := fun s =>
  mkRuntimeSession (rs_SessionID s) (rs_Identity s) (rs_OriginalTuple s) (rs_ReplyTuple s) (rs_TranslatedTuple s)
    (rs_NAT s) (rs_IPFamily s) (rs_Protocol s) (rs_SourceZone s) (rs_DestinationZone s) (rs_State s) (rs_CreatedAt s)
    (rs_LastSeen s) (rs_LastObservedAt s) (rs_ExpiresAt s) (rs_ClosedAt s) (rs_PacketsOriginal s) (rs_BytesOriginal s)
    (rs_PacketsReply s) (rs_BytesReply s) (rs_MatchedPolicyID s) (rs_PolicyGeneration s) (rs_Decision s)
    (rs_DecisionGeneration s) (rs_DecisionReason s) (rs_CacheState s) (rs_InvalidatedAt s) (rs_InvalidationReason s)
    (rs_KernelEpoch s) (rs_KernelMark s) (rs_KernelCacheVerified s) (rs_EffectiveDecision s) (rs_Revoked s)
    (rs_Revision s) (rs_Quality s) (rs_Inspection s) (rs_RequestGate s).

(** *** Conntrack records ([internal/conntrack]) *)

Record Presence : Type := mkPresence {
  pr_OriginalTuple : bool;
  pr_ReplyTuple : bool;
  pr_Counters : bool;
  pr_CountersOriginal : bool;
  pr_CountersReply : bool;
  pr_Timeout : bool;
  pr_Timestamp : bool;
  pr_ID : bool;
  pr_Mark : bool;
  pr_Zone : bool;
  pr_ProtoInfo : bool
}.

Record ConntrackRecord : Type := mkConntrackRecord {
  cr_Identity : ConntrackIdentity;
  cr_OriginalTuple : Tuple;
  cr_ReplyTuple : option Tuple;
  cr_PacketsOriginal : Z;
  cr_BytesOriginal : Z;
  cr_PacketsReply : Z;
  cr_BytesReply : Z;
  cr_Timeout : Duration;
  cr_KernelStart : Time;
  cr_KernelStop : Time;
  cr_TCPState : string;
  cr_SeenReply : bool;
  cr_Mark : Z;
  cr_Presence : Presence;
  cr_ObservedAt : Time;
  cr_RawState : string
}.

#[global] Instance eta_ConntrackRecord : Eta ConntrackRecord := fun r =>
  mkConntrackRecord (cr_Identity r) (cr_OriginalTuple r) (cr_ReplyTuple r) (cr_PacketsOriginal r) (cr_BytesOriginal r)
    (cr_PacketsReply r) (cr_BytesReply r) (cr_Timeout r) (cr_KernelStart r) (cr_KernelStop r) (cr_TCPState r)
    (cr_SeenReply r) (cr_Mark r) (cr_Presence r) (cr_ObservedAt r) (cr_RawState r).

(** *** Enforcement intents *)

Record InspectionIntent : Type := mkInspectionIntent {
  ii_Kind : InspectionIntentKind;
  ii_OperationID : string;
  ii_SessionID : string;
  ii_Identity : ConntrackIdentity;
  ii_Generation : Z;
  ii_ExpectedInspectionRevision : Z;
  ii_RequestedAction : Decision;
  ii_Owner : string;
  ii_Reason : string
}.

Definition MatchesSession (i : InspectionIntent) (current : RuntimeSession) (generation : Z) : bool :=
  match rs_Inspection current with
  | None => false
  | Some inspection =>
      if negb (bool_decide (rs_SessionID current = ii_SessionID i)) ||
         negb (bool_decide (rs_Identity current = ii_Identity i)) ||
         negb (generation =? ii_Generation i) then false
      else if negb (si_Generation inspection =? ii_Generation i) ||
              (si_Revision inspection <? ii_ExpectedInspectionRevision i) then false
      else if bool_decide (ii_Kind i = IntentInstallAppGuard) then
        let enforcement := si_Enforcement inspection in
        let app := si_Application inspection in
        let strong := negb (ai_Conflicted app) &&
                      negb (bool_decide (ai_Source app = ApplicationSourcePortHeuristic)) &&
                      (bool_decide (ai_Confidence app = ApplicationConfidenceHigh) ||
                       bool_decide (ai_Confidence app = ApplicationConfidenceVerified)) in
        bool_decide (si_Mode inspection = InspectionModeIPS) &&
        bool_decide (si_AppPolicyState inspection = AppPolicyMismatch) && strong &&
        negb (bool_decide (ii_OperationID i = "")) &&
        bool_decide (er_OperationID enforcement = ii_OperationID i) &&
        bool_decide (er_Mechanism enforcement = EnforcementNFTSessionGuard) &&
        bool_decide (er_RequestedAction enforcement = DecisionDrop) &&
        bool_decide (er_Status enforcement = EnforcementPending)
      else si_Revision inspection =? ii_ExpectedInspectionRevision i
  end.
