(* ===== verification/Flow.v ===== *)
(** * Scoped flow keys ([internal/flow])

    A key is a tuple inside a network namespace and conntrack zone.  [Aliases]
    lists the tuple views of one conntrack record under which the session store
    indexes it. *)

From S2P Require Import Prelude GoStr Netip Domain.

Record Scope : Type := mkScope { sc_NetworkNamespace : string; sc_ConntrackZone : Z }.
Record Key : Type := mkKey { key_Scope : Scope; key_Tuple : Tuple }.

#[global] Instance Scope_eq_dec : EqDecision Scope.
Proof. solve_decision. Defined.

#[global] Instance Key_eq_dec : EqDecision Key.
Proof. solve_decision. Defined.

#[global] Instance Key_countable : Countable Key.
Proof.
  refine (inj_countable'
    (fun k => (sc_NetworkNamespace (key_Scope k), sc_ConntrackZone (key_Scope k), key_Tuple k))
    (fun '(n, z, t) => mkKey (mkScope n z) t) _).
  by intros [[] ?].
Defined.

Definition NewKey (scope : Scope) (tuple : Tuple) : option Key :=
  if Tuple_Valid tuple then Some (mkKey scope tuple) else None.

Definition Key_Reverse (k : Key) : Key := mkKey (key_Scope k) (Tuple_Reverse (key_Tuple k)).

Definition Key_String (k : Key) : string :=
  sc_NetworkNamespace (key_Scope k) +:+ "/" +:+ itoa (sc_ConntrackZone (key_Scope k)) +:+ "/" +:+ Tuple_String (key_Tuple k).

Record Bidirectional : Type := mkBidirectional { bd_A : Key; bd_B : Key }.

Definition Pair (a b : Key) : Bidirectional :=
  if str_lt (Key_String b) (Key_String a) then mkBidirectional b a else mkBidirectional a b.

Definition PairFromTuple (key : Key) : Bidirectional := Pair key (Key_Reverse key).

(** The [add] closure of [Aliases]: an invalid tuple or a key already listed is
    skipped. *)
Definition add_alias (scope : Scope) (values : list Key) (t : Tuple) : list Key :=
  if negb (Tuple_Valid t) then values
  else let k := mkKey scope t in
       if bool_decide (k ∈ values) then values else values ++ [k].

(** The tuples offered to [add], in the order of the source. *)
Definition alias_tuples (original : Tuple) (reply translated : option Tuple) : list Tuple :=
  [original; Tuple_Reverse original] ++
  match reply with Some r => [r; Tuple_Reverse r] | None => [] end ++
  match translated with
  | Some t =>
      let policy := original <| tp_DstIP := tp_DstIP t |> <| tp_DstPort := tp_DstPort t |> in
      [t; Tuple_Reverse t; policy; Tuple_Reverse policy]
  | None => []
  end.

Definition Aliases (scope : Scope) (original : Tuple) (reply translated : option Tuple) : list Key :=
  foldl (add_alias scope) [] (alias_tuples original reply translated).

Definition ParseLegacy (k : FlowKey) : option Key :=
  match TupleFromFlowKey k with
  | Err _ => None
  | Ok t => NewKey (mkScope (TrimSpace (fk_Namespace k)) 0) t
  end.

(** ** Lemmas *)

Lemma Tuple_Reverse_addrs t :
  tp_SrcIP (Tuple_Reverse t) = tp_DstIP t /\ tp_DstIP (Tuple_Reverse t) = tp_SrcIP t /\
  tp_Protocol (Tuple_Reverse t) = tp_Protocol t /\ tp_Family (Tuple_Reverse t) = tp_Family t.
Proof. unfold Tuple_Reverse. repeat case_if; done. Qed.

Lemma Tuple_Valid_Reverse t : Tuple_Valid (Tuple_Reverse t) = Tuple_Valid t.
Proof.
  destruct (Tuple_Reverse_addrs t) as (Hs & Hd & Hp & Hf). unfold Tuple_Valid.
  rewrite Hs, Hd, Hp, Hf.
  destruct (tp_SrcIP t), (tp_DstIP t); simpl; repeat case_if; simpl in *; congruence.
Qed.

(** Reversing twice gives the tuple back. *)
Lemma Tuple_Reverse_involutive t : Tuple_Reverse (Tuple_Reverse t) = t.
Proof.
  destruct t as [fam s sp d dp p ty co id]. unfold Tuple_Reverse. simpl.
  destruct ((p =? 1) || (p =? 58)) eqn:Ep; [|simpl; by rewrite Ep].
  destruct (Z.eqb_spec ty 8) as [->|]; simpl; rewrite ?Ep; [done|].
  destruct (Z.eqb_spec ty 0) as [->|]; simpl; rewrite ?Ep; [done|].
  destruct (Z.eqb_spec ty 128) as [->|]; simpl; rewrite ?Ep; [done|].
  destruct (Z.eqb_spec ty 129) as [->|]; simpl; rewrite ?Ep; [done|].
  rewrite (proj2 (Z.eqb_neq ty 8)), (proj2 (Z.eqb_neq ty 0)), (proj2 (Z.eqb_neq ty 128)),
    (proj2 (Z.eqb_neq ty 129)) by done. done.
Qed.

Lemma elem_of_add_alias scope values t k :
  k ∈ add_alias scope values t <-> k ∈ values \/ (Tuple_Valid t = true /\ k = mkKey scope t).
Proof.
  unfold add_alias. destruct (Tuple_Valid t); simpl; [|naive_solver].
  case_bool_decide; [naive_solver|]. rewrite elem_of_app, list_elem_of_singleton. naive_solver.
Qed.

Lemma NoDup_add_alias scope values t : NoDup values -> NoDup (add_alias scope values t).
Proof.
  intros H. unfold add_alias. destruct (Tuple_Valid t); simpl; [|done].
  case_bool_decide as Hin; [done|]. apply NoDup_app. split_and!; [done| |apply NoDup_singleton].
  intros k Hk ->%list_elem_of_singleton. done.
Qed.

Lemma elem_of_fold_alias scope ts values k :
  k ∈ foldl (add_alias scope) values ts <->
  k ∈ values \/ exists t, t ∈ ts /\ Tuple_Valid t = true /\ k = mkKey scope t.
Proof.
  revert values. induction ts as [| t ts IH]; intros values; simpl.
  - set_solver.
  - rewrite IH, elem_of_add_alias. setoid_rewrite elem_of_cons. naive_solver.
Qed.

Lemma NoDup_fold_alias scope ts values : NoDup values -> NoDup (foldl (add_alias scope) values ts).
Proof. revert values. induction ts as [| t ts IH]; simpl; auto using NoDup_add_alias. Qed.

(** A key is an alias exactly when its tuple is a valid view of the record. *)
Lemma elem_of_Aliases scope o r t k :
  k ∈ Aliases scope o r t <-> exists u, u ∈ alias_tuples o r t /\ Tuple_Valid u = true /\ k = mkKey scope u.
Proof. unfold Aliases. rewrite elem_of_fold_alias. set_solver. Qed.

Lemma NoDup_Aliases scope o r t : NoDup (Aliases scope o r t).
Proof. apply NoDup_fold_alias, NoDup_nil_2. Qed.

Lemma foldl_add_alias_prefix scope ts values : exists l, foldl (add_alias scope) values ts = values ++ l.
Proof.
  revert values. induction ts as [| t ts IH]; intros values; simpl; [by exists []; rewrite app_nil_r|].
  destruct (IH (add_alias scope values t)) as [l ->]. unfold add_alias.
  destruct (Tuple_Valid t); simpl; [|by eexists].
  case_bool_decide; [by eexists|]. exists ([mkKey scope t] ++ l). by rewrite app_assoc.
Qed.

(** The original view comes first, so an alias limit of at least one keeps it. *)
Lemma Aliases_original_first scope o r t :
  Tuple_Valid o = true -> exists l, Aliases scope o r t = mkKey scope o :: l.
Proof.
  intros Ho. unfold Aliases, alias_tuples. cbn [app foldl].
  assert (E : add_alias scope [] o = [mkKey scope o]).
  { unfold add_alias. rewrite Ho. cbn [negb]. rewrite bool_decide_eq_false_2; [done | set_solver]. }
  rewrite E. apply (foldl_add_alias_prefix scope (_ :: _) [mkKey scope o]).
Qed.

Lemma Aliases_length scope o r t : (length (Aliases scope o r t) <= 8)%nat.
Proof.
  assert (H : forall ts values, (length (foldl (add_alias scope) values ts) <= length values + length ts)%nat).
  { induction ts as [| u ts IH]; intros values; simpl; [lia|]. rewrite IH.
    unfold add_alias. repeat case_if; simpl; rewrite ?length_app; simpl; lia. }
  unfold Aliases. rewrite H. unfold alias_tuples. rewrite !length_app. destruct r, t; simpl; lia.
Qed.
