(* ===== verification/SessionStore.v ===== *)
(** * The runtime session store ([internal/session])

    [RuntimeStore] keeps the active sessions and the five indexes that find them
    from conntrack identities and tuples, the bounded closed history and the
    tombstones that fence late kernel events.  Every method holds the store's
    mutex from its first read to its last write, so each is one state transition
    [RuntimeStore -> ... -> RuntimeStore * result]; the two methods that release
    the lock in between ([ExpiredCandidates]) are two transitions.  A Go map is
    a [gmap]; where Go iterates over a map and the order can be observed, the
    order is an argument. *)

From S2P Require Import Prelude GoStr Sha256 Netip Domain Flow.

Inductive StoreError : Type :=
| ErrRuntimeCapacity | ErrSessionMissing | ErrIdentityMissing | ErrAliasAmbiguous | ErrStaleEvent
| ErrStaleDecision | ErrStaleInspection | ErrStaleGeneration.

(** ** State *)

Record RuntimeLimits : Type := mkRuntimeLimits {
  MaxSessions : Z;
  MaxAliases : Z;
  MaxClosed : Z;
  ClosedTTL : Duration;
  MaxAmbiguity : Z;
  MaxEventQueue : Z
}.

#[global] Instance eta_RuntimeLimits : Eta RuntimeLimits := fun l =>
  mkRuntimeLimits (MaxSessions l) (MaxAliases l) (MaxClosed l) (ClosedTTL l) (MaxAmbiguity l) (MaxEventQueue l).

Definition DefaultRuntimeLimits : RuntimeLimits := mkRuntimeLimits 50000 8 5000 Minute 4 10000.

Record SessionFilter : Type := mkSessionFilter {
  sf_SourceIP : string;
  sf_DestinationIP : string;
  sf_Protocol : Z;
  sf_SourceZone : string;
  sf_DestinationZone : string;
  sf_State : option SessionState;
  sf_Decision : Decision;
  sf_TupleView : string
}.

Record Page : Type := mkPage { pg_Number : Z; pg_Size : Z; pg_Cursor : string }.

Record PageResult : Type := mkPageResult {
  pgr_Items : list RuntimeSession;
  pgr_Page : Z;
  pgr_PageSize : Z;
  pgr_Total : Z;
  pgr_HasMore : bool;
  pgr_StoreRevision : Z;
  pgr_SnapshotTime : Time
}.

Record RuntimeStats : Type := mkRuntimeStats {
  stat_Active : Z;
  stat_Created : Z;
  stat_Closed : Z;
  stat_Invalidated : Z;
  stat_TrackingDrops : Z;
  stat_CapacityDrops : Z;
  stat_EventDrops : Z;
  stat_Resyncs : Z;
  stat_DumpIncomplete : Z;
  stat_LastDumpBytes : Z;
  stat_LastDumpMillis : Z;
  stat_GetChecks : Z;
  stat_GetUnavailable : Z;
  stat_ExpiryBacklog : Z;
  stat_ExpiryOldestSeconds : Z;
  stat_HistoryEvictions : Z;
  stat_HistoryExpired : Z
}.

#[global] Instance eta_RuntimeStats : Eta RuntimeStats := fun s =>
  mkRuntimeStats (stat_Active s) (stat_Created s) (stat_Closed s) (stat_Invalidated s) (stat_TrackingDrops s) (stat_CapacityDrops s) (stat_EventDrops s) (stat_Resyncs s) (stat_DumpIncomplete s) (stat_LastDumpBytes s) (stat_LastDumpMillis s) (stat_GetChecks s) (stat_GetUnavailable s) (stat_ExpiryBacklog s) (stat_ExpiryOldestSeconds s) (stat_HistoryEvictions s) (stat_HistoryExpired s).

Definition zeroStats : RuntimeStats := mkRuntimeStats 0 0 0 0 0 0 0 0 0 0 0 0 0 0 0 0 0.

Record tombstone : Type := mkTombstone { tb_ID : string; tb_Identity : ConntrackIdentity; tb_At : Time }.

Record conntrackKey : Type := mkConntrackKey {
  ck_BootID : string;
  ck_NetworkNS : string;
  ck_Zone : Z;
  ck_Family : Z;
  ck_ID : Z
}.

#[global] Instance conntrackKey_eq_dec : EqDecision conntrackKey.
Proof. solve_decision. Defined.

#[global] Instance conntrackKey_countable : Countable conntrackKey.
Proof.
  refine (inj_countable' (fun k => (ck_BootID k, ck_NetworkNS k, ck_Zone k, ck_Family k, ck_ID k))
    (fun '(a, b, c, d, e) => mkConntrackKey a b c d e) _).
  by intros [].
Defined.

Record RuntimeStore : Type := mkRuntimeStore {
  byID : gmap string RuntimeSession;
  byIdentity : gmap ConntrackIdentity string;
  byConntrack : gmap conntrackKey string;
  byTuple : gmap Key (gset string);
  aliasesBySession : gmap string (list Key);
  identitiesBySession : gmap string (list ConntrackIdentity);
  conntracksBySession : gmap string (list conntrackKey);
  closed : list RuntimeSession;
  tombstones : list tombstone;
  expiryRetryAfter : gmap string Time;
  limits : RuntimeLimits;
  baseHistoryMax : Z;
  baseHistoryTTL : Duration;
  revision : Z;
  stats : RuntimeStats
}.

#[global] Instance eta_RuntimeStore : Eta RuntimeStore := fun s =>
  mkRuntimeStore (byID s) (byIdentity s) (byConntrack s) (byTuple s) (aliasesBySession s) (identitiesBySession s)
    (conntracksBySession s) (closed s) (tombstones s) (expiryRetryAfter s) (limits s) (baseHistoryMax s)
    (baseHistoryTTL s) (revision s) (stats s).

Definition NewRuntimeStore (l : RuntimeLimits) : RuntimeStore :=
  let d := DefaultRuntimeLimits in
  let pick v default := if v <=? 0 then default else v in
  let l' := mkRuntimeLimits (pick (MaxSessions l) (MaxSessions d)) (pick (MaxAliases l) (MaxAliases d))
              (pick (MaxClosed l) (MaxClosed d)) (pick (ClosedTTL l) (ClosedTTL d))
              (pick (MaxAmbiguity l) (MaxAmbiguity d)) (pick (MaxEventQueue l) (MaxEventQueue d)) in
  mkRuntimeStore ∅ ∅ ∅ ∅ ∅ ∅ ∅ [] [] ∅ l' (MaxClosed l') (ClosedTTL l') 0 zeroStats.

(** [uint64(len(s.byID))]. *)
Definition activeCount (s : RuntimeStore) : Z := u64 (Z.of_nat (size (byID s))).

(** ** Kernel-key queries *)

Definition HasActiveKernelKey (s : RuntimeStore) (identity : ConntrackIdentity) : bool :=
  existsb (fun current =>
    let candidate := rs_Identity current in
    bool_decide (ci_NetworkNS candidate = ci_NetworkNS identity) && (ci_Zone candidate =? ci_Zone identity) &&
    (ci_Family candidate =? ci_Family identity) && (ci_ID candidate =? ci_ID identity) &&
    bool_decide (ci_Original candidate = ci_Original identity)) (map_to_list (byID s)).*2.

Definition HasActiveRevokedConntrackID (s : RuntimeStore) (id : Z) : bool :=
  if id =? 0 then false
  else existsb (fun current => (ci_ID (rs_Identity current) =? id) && rs_Revoked current) (map_to_list (byID s)).*2.

(** ** Session identifiers *)

(** The preimage hashed by [sessionID]: two zero-terminated names, the printed
    tuple, then zone, family, conntrack ID and kernel start in big-endian bytes. *)
Definition sessionID_bytes (i : ConntrackIdentity) : list Z :=
  str_bytes (ci_BootID i) ++ [0] ++ str_bytes (ci_NetworkNS i) ++ [0] ++ str_bytes (Tuple_String (ci_Original i)) ++
  [u8 (Z.shiftr (ci_Zone i) 8); u8 (ci_Zone i); u8 (ci_Family i);
   u8 (Z.shiftr (ci_ID i) 24); u8 (Z.shiftr (ci_ID i) 16); u8 (Z.shiftr (ci_ID i) 8); u8 (ci_ID i)] ++
  be_bytes 8 (ci_KernelStart i).

Definition sessionID (i : ConntrackIdentity) : string :=
  "sess-" +:+ hex_EncodeToString (take 16 (Sum256 (sessionID_bytes i))).

(** ** Helpers of [ApplyObserved] *)

Definition tombstoneIdentityMatches (previous current : ConntrackIdentity) : bool :=
  if negb (bool_decide (ci_BootID previous = "")) && negb (bool_decide (ci_BootID current = "")) &&
     negb (bool_decide (ci_BootID previous = ci_BootID current)) then false
  else if negb (bool_decide (ci_NetworkNS previous = "")) && negb (bool_decide (ci_NetworkNS current = "")) &&
          negb (bool_decide (ci_NetworkNS previous = ci_NetworkNS current)) then false
  else if negb (ci_Zone previous =? ci_Zone current) || negb (ci_Family previous =? ci_Family current) ||
          negb (ci_ID previous =? ci_ID current) || negb (bool_decide (ci_Original previous = ci_Original current)) then false
  else (ci_KernelStart previous =? 0) || (ci_KernelStart current =? 0) || (ci_KernelStart previous =? ci_KernelStart current).

Definition stateFor (r : ConntrackRecord) : SessionState :=
  let tcp st := EqualFold (cr_TCPState r) st in
  if tcp "ESTABLISHED" || tcp "FIN_WAIT" || tcp "CLOSE_WAIT" || tcp "LAST_ACK" || tcp "TIME_WAIT" || tcp "CLOSE" then
    if tcp "ESTABLISHED" then SessionEstablished else SessionClosing
  else if cr_SeenReply r then SessionEstablished
  else SessionNew.

Definition makeNAT (original : Tuple) (reply : option Tuple) : NATInfo :=
  match reply with
  | None => mkNATInfo (Some original) None None "" "" "" "" false false "" "" 0
  | Some r =>
      let t := Tuple_Reverse r in
      let snat := negb (bool_decide (tp_SrcIP original = tp_SrcIP t)) || negb (tp_SrcPort original =? tp_SrcPort t) in
      let dnat := negb (bool_decide (tp_DstIP original = tp_DstIP t)) || negb (tp_DstPort original =? tp_DstPort t) in
      mkNATInfo (Some original) (Some r) (Some t)
        (addr_String (tp_SrcIP original)) (addr_String (tp_DstIP original))
        (addr_String (tp_SrcIP t)) (addr_String (tp_DstIP t))
        snat dnat (if snat then "UNKNOWN" else "") "" 0
  end.

Definition removeMissing (values : list string) (target : string) : list string :=
  filter (fun value => value ≠ target) values.

Definition hasMissing (values : list string) (target : string) : bool := bool_decide (target ∈ values).

Definition counterPresence (p : Presence) : bool * bool :=
  if pr_CountersOriginal p || pr_CountersReply p then (pr_CountersOriginal p, pr_CountersReply p)
  else (pr_Counters p, pr_Counters p).

Definition maxUint64 (a b : Z) : Z := if a <? b then b else a.

(** ** Index maintenance *)

(** One step of [removeTupleIndexesLocked]: drop [id] from the sessions of an
    alias, and the alias when no session is left. *)
Definition unindex_alias (id : string) (m : gmap Key (gset string)) (alias : Key) : gmap Key (gset string) :=
  match m !! alias with
  | None => delete alias m
  | Some ids =>
      let ids' := ids ∖ {[id]} in
      if bool_decide (ids' = ∅) then delete alias m else <[alias := ids']> m
  end.

Definition removeTupleIndexesLocked (s : RuntimeStore) (id : string) : RuntimeStore :=
  s <| byTuple := foldl (unindex_alias id) (byTuple s) (default [] (aliasesBySession s !! id)) |>
    <| aliasesBySession ::= delete id |>.

Definition index_alias (id : string) (m : gmap Key (gset string)) (alias : Key) : gmap Key (gset string) :=
  <[alias := {[id]} ∪ default ∅ (m !! alias)]> m.

Definition session_scope (v : RuntimeSession) : Scope :=
  mkScope (ci_NetworkNS (rs_Identity v)) (ci_Zone (rs_Identity v)).

(** [indexLocked] also writes to the session when the alias limit is exceeded, so
    it returns the session too. *)
Definition indexLocked (s : RuntimeStore) (v : RuntimeSession) : RuntimeStore * RuntimeSession :=
  let s := removeTupleIndexesLocked s (rs_SessionID v) in
  let aliases := Aliases (session_scope v) (rs_OriginalTuple v) (rs_ReplyTuple v) (rs_TranslatedTuple v) in
  let '(aliases, v) :=
    if MaxAliases (limits s) <? Z.of_nat (length aliases) then
      (take (Z.to_nat (MaxAliases (limits s))) aliases,
       v <| rs_Quality ::= fun q => q <| sq_TrackingStatus := TrackingPartial |> <| sq_Reason := "alias limit" |> |>)
    else (aliases, v) in
  (s <| byTuple ::= fun m => foldl (index_alias (rs_SessionID v)) m aliases |>
     <| aliasesBySession ::= insert (rs_SessionID v) aliases |>, v).

Definition reindexLocked (s : RuntimeStore) (v : RuntimeSession) : RuntimeStore * RuntimeSession :=
  let '(s, v) := indexLocked s v in (s <| revision ::= inc64 |>, v).

(** Remove the keys of a list from an owner map where they still belong to [id]. *)
Definition disown {K : Type} `{Countable K} (id : string) (m : gmap K string) (k : K) : gmap K string :=
  if bool_decide (m !! k = Some id) then delete k m else m.

Definition removeIndexesLocked (s : RuntimeStore) (id : string) : RuntimeStore :=
  let s := s <| expiryRetryAfter ::= delete id |> in
  let s := removeTupleIndexesLocked s id in
  let s := s <| byIdentity := foldl (disown id) (byIdentity s) (default [] (identitiesBySession s !! id)) |>
             <| identitiesBySession ::= delete id |> in
  s <| byConntrack := foldl (disown id) (byConntrack s) (default [] (conntracksBySession s !! id)) |>
    <| conntracksBySession ::= delete id |>.

Definition makeConntrackKey (i : ConntrackIdentity) : option conntrackKey :=
  if ci_ID i =? 0 then None
  else Some (mkConntrackKey (ci_BootID i) (ci_NetworkNS i) (ci_Zone i) (ci_Family i) (ci_ID i)).

(** The eviction loops of [rememberIdentityLocked]: while the list is longer than
    the limit, forget its oldest key. *)
Fixpoint evict_oldest {K : Type} `{Countable K} (limit : Z) (id : string) (l : list K) (m : gmap K string)
  : list K * gmap K string :=
  match l with
  | [] => (l, m)
  | oldest :: rest =>
      if limit <? Z.of_nat (length l) then evict_oldest limit id rest (disown id m oldest) else (l, m)
  end.

(** Record that [id] owns key [k]: the owner map and the owner's bounded list. *)
Definition remember_key {K : Type} `{Countable K} (limit : Z) (id : string) (k : K)
  (m : gmap K string) (lists : gmap string (list K)) : gmap K string * gmap string (list K) :=
  let m := <[k := id]> m in
  let known := default [] (lists !! id) in
  if bool_decide (k ∈ known) then (m, lists)
  else let '(l, m) := evict_oldest limit id (known ++ [k]) m in (m, <[id := l]> lists).

Definition aliasLimit (s : RuntimeStore) : Z :=
  if MaxAliases (limits s) <=? 0 then MaxAliases DefaultRuntimeLimits else MaxAliases (limits s).

Definition rememberIdentityLocked (s : RuntimeStore) (id : string) (identity : ConntrackIdentity) : RuntimeStore :=
  if bool_decide (id = "") then s
  else
    let s :=
      if bool_decide (byIdentity s !! identity = Some id) then s
      else
        let '(m, lists) := remember_key (aliasLimit s) id identity (byIdentity s) (identitiesBySession s) in
        s <| byIdentity := m |> <| identitiesBySession := lists |> in
    match makeConntrackKey identity with
    | None => s
    | Some key =>
        match byConntrack s !! key with
        | Some current =>
            if bool_decide (current = id) then
              let '(m, lists) := remember_key (aliasLimit s) id key (byConntrack s) (conntracksBySession s) in
              s <| byConntrack := m |> <| conntracksBySession := lists |>
            else s
        | None =>
            let '(m, lists) := remember_key (aliasLimit s) id key (byConntrack s) (conntracksBySession s) in
            s <| byConntrack := m |> <| conntracksBySession := lists |>
        end
    end.

(** ** Resolution *)

Inductive TupleStatus : Type := TupleMissing | TupleAmbiguous | TupleOk (id : string).

Definition resolveTupleLocked (s : RuntimeStore) (k : Key) : TupleStatus :=
  match byTuple s !! k with
  | None => TupleMissing
  | Some ids =>
      if bool_decide (size ids = 0%nat) then TupleMissing
      else if MaxAmbiguity (limits s) <? Z.of_nat (size ids) then TupleAmbiguous
      else if negb (bool_decide (size ids = 1%nat)) then TupleAmbiguous
      else match elements ids with
           | id :: _ => TupleOk id
           | [] => TupleMissing
           end
  end.

(** [a != 0 && b != 0 && a != b] on numbers and on strings: both known and
    different. *)
Definition conflict (a b : Z) : bool := negb (a =? 0) && negb (b =? 0) && negb (a =? b).
Definition conflict_str (a b : string) : bool :=
  negb (bool_decide (a = "")) && negb (bool_decide (b = "")) && negb (bool_decide (a = b)).

Definition identity_key (i : ConntrackIdentity) (t : Tuple) : Key :=
  mkKey (mkScope (ci_NetworkNS i) (ci_Zone i)) t.

(** The three stages of [resolveIdentityLocked]; [None] is the empty string. The
    conntrack stage distinguishes a rejection (the function returns) from a miss
    (the next stage is tried). *)
Definition resolve_by_tuple (s : RuntimeStore) (identity : ConntrackIdentity) : option string :=
  if Tuple_Valid (ci_Original identity) then
    match resolveTupleLocked s (identity_key identity (ci_Original identity)) with
    | TupleOk id =>
        match byID s !! id with
        | Some current =>
            if conflict_str (ci_BootID identity) (ci_BootID (rs_Identity current)) then None
            else if conflict_str (ci_NetworkNS identity) (ci_NetworkNS (rs_Identity current)) then None
            else if conflict (ci_ID identity) (ci_ID (rs_Identity current)) then None
            else if conflict (ci_KernelStart identity) (ci_KernelStart (rs_Identity current)) then None
            else Some id
        | None => None
        end
    | _ => None
    end
  else None.

Definition nonempty (o : option string) : option string :=
  match o with
  | Some id => if bool_decide (id = "") then None else Some id
  | None => None
  end.

Definition resolveIdentityLocked (s : RuntimeStore) (identity : ConntrackIdentity) : option string :=
  match nonempty (byIdentity s !! identity) with
  | Some id => Some id
  | None =>
      match makeConntrackKey identity with
      | Some key =>
          match nonempty (byConntrack s !! key) with
          | Some id =>
              match byID s !! id with
              | Some current =>
                  if Tuple_Valid (ci_Original identity) && negb (bool_decide (rs_OriginalTuple current = ci_Original identity))
                  then None
                  else if conflict (ci_KernelStart identity) (ci_KernelStart (rs_Identity current)) then None
                  else Some id
              | None => nonempty (resolve_by_tuple s identity)
              end
          | None => nonempty (resolve_by_tuple s identity)
          end
      | None => nonempty (resolve_by_tuple s identity)
      end
  end.

Definition Resolve (s : RuntimeStore) (tuple : Key) : result StoreError RuntimeSession :=
  match resolveTupleLocked s tuple with
  | TupleAmbiguous => Err ErrAliasAmbiguous
  | TupleMissing => Err ErrSessionMissing
  | TupleOk id => match byID s !! id with Some v => Ok v | None => Err ErrSessionMissing end
  end.

Definition ResolveIdentity (s : RuntimeStore) (identity : ConntrackIdentity) : result StoreError RuntimeSession :=
  if negb (Tuple_Valid (ci_Original identity)) || (ci_ID identity =? 0) && (ci_KernelStart identity =? 0)
  then Err ErrIdentityMissing
  else
    match resolveIdentityLocked s identity ≫= (fun id => byID s !! id) with
    | None => Err ErrSessionMissing
    | Some value =>
        if negb (ci_ID identity =? 0) && negb (ci_ID (rs_Identity value) =? ci_ID identity) then Err ErrSessionMissing
        else Ok value
    end.

Definition Get (s : RuntimeStore) (id : string) : option RuntimeSession := byID s !! id.

(** ** Merging an observation into a live session

    [mergeLocked] is a sequence of independent blocks over the session and the
    flag [changed]; each block is one definition. *)

Abbreviation Merge := (RuntimeSession * bool)%type (only parsing).

Definition drop_missing (target : string) (v : RuntimeSession) : RuntimeSession :=
  v <| rs_Quality ::= fun q => q <| sq_MissingFields ::= fun l => removeMissing l target |> |>.

Definition merge_kernelStart (r : ConntrackRecord) (m : Merge) : Merge :=
  let '(v, changed) := m in
  if (ci_KernelStart (rs_Identity v) =? 0) && negb (ci_KernelStart (cr_Identity r) =? 0) && pr_Timestamp (cr_Presence r) then
    let v := v <| rs_Identity ::= fun i => i <| ci_KernelStart := ci_KernelStart (cr_Identity r) |> |> in
    let v := v <| rs_Quality ::= fun q => q <| sq_IdentityConfidence := IdentityComplete |> |> in
    (drop_missing "kernel_start" v, true)
  else (v, changed).

Definition merge_conntrackID (r : ConntrackRecord) (m : Merge) : Merge :=
  let '(v, changed) := m in
  if (ci_ID (rs_Identity v) =? 0) && negb (ci_ID (cr_Identity r) =? 0) && pr_ID (cr_Presence r) then
    let v := v <| rs_Identity ::= fun i => i <| ci_ID := ci_ID (cr_Identity r) |> |> in
    let v := drop_missing "conntrack_id" v in
    let v := if bool_decide (sq_IdentityConfidence (rs_Quality v) = IdentityPartial) &&
                bool_decide (sq_MissingFields (rs_Quality v) = [])
             then v <| rs_Quality ::= fun q => q <| sq_IdentityConfidence := IdentityComplete |> |> else v in
    (v, true)
  else (v, changed).

Definition set_reply (t : Tuple) (v : RuntimeSession) : RuntimeSession :=
  let nat := makeNAT (rs_OriginalTuple v) (Some t) in
  v <| rs_ReplyTuple := Some t |> <| rs_NAT := nat |> <| rs_TranslatedTuple := nat_TranslatedTuple nat |>.

Definition merge_reply (s : RuntimeStore) (r : ConntrackRecord) (m : Merge) : RuntimeStore * Merge :=
  let '(v, changed) := m in
  match pr_ReplyTuple (cr_Presence r), cr_ReplyTuple r with
  | true, Some t =>
      let '(s, v, changed) :=
        if negb (bool_decide (rs_ReplyTuple v = Some t)) then
          let '(s, v) := reindexLocked s (set_reply t v) in (s, v, true)
        else (s, v, changed) in
      (s, (drop_missing "reply_tuple" v, changed))
  | _, _ => (s, (v, changed))
  end.

Definition merge_counters_original (r : ConntrackRecord) (now : Time) (m : Merge) : Merge :=
  let '(v, changed) := m in
  if fst (counterPresence (cr_Presence r)) then
    let v := drop_missing "counters_original" v in
    let grew := (rs_PacketsOriginal v <? cr_PacketsOriginal r) || (rs_BytesOriginal v <? cr_BytesOriginal r) in
    let v := if grew then v <| rs_LastSeen := now |> else v in
    (v <| rs_PacketsOriginal ::= fun x => maxUint64 x (cr_PacketsOriginal r) |>
       <| rs_BytesOriginal ::= fun x => maxUint64 x (cr_BytesOriginal r) |>, changed || grew)
  else (v, changed).

Definition merge_counters_reply (r : ConntrackRecord) (now : Time) (m : Merge) : Merge :=
  let '(v, changed) := m in
  if snd (counterPresence (cr_Presence r)) then
    let v := drop_missing "counters_reply" v in
    let grew := (rs_PacketsReply v <? cr_PacketsReply r) || (rs_BytesReply v <? cr_BytesReply r) in
    let v := if grew then v <| rs_LastSeen := now |> else v in
    (v <| rs_PacketsReply ::= fun x => maxUint64 x (cr_PacketsReply r) |>
       <| rs_BytesReply ::= fun x => maxUint64 x (cr_BytesReply r) |>, changed || grew)
  else (v, changed).

Definition merge_counters_missing (v : RuntimeSession) : RuntimeSession :=
  let missing := sq_MissingFields (rs_Quality v) in
  if negb (hasMissing missing "counters_original") && negb (hasMissing missing "counters_reply")
  then drop_missing "counters" v else v.

Definition merge_timeout (r : ConntrackRecord) (now : Time) (v : RuntimeSession) : RuntimeSession :=
  if pr_Timeout (cr_Presence r)
  then drop_missing "timeout" v <| rs_ExpiresAt := Some (now + cr_Timeout r) |> else v.

Definition merge_state (r : ConntrackRecord) (now : Time) (m : Merge) : Merge :=
  let '(v, changed) := m in
  let '(v, changed) :=
    if negb (bool_decide (cr_TCPState r = "")) && negb (bool_decide (stateFor r = rs_State v))
    then (v <| rs_State := stateFor r |> <| rs_LastSeen := now |>, true) else (v, changed) in
  if cr_SeenReply r && bool_decide (rs_State v = SessionNew)
  then (v <| rs_State := SessionEstablished |> <| rs_LastSeen := now |>, true) else (v, changed).

Definition merge_mark (r : ConntrackRecord) (m : Merge) : Merge :=
  let '(v, changed) := m in
  if pr_Mark (cr_Presence r) then
    let '(v, changed) :=
      if negb (rs_KernelMark v =? cr_Mark r)
      then (v <| rs_KernelMark := cr_Mark r |> <| rs_KernelEpoch := u16 (Z.shiftr (cr_Mark r) 20) |>
              <| rs_KernelCacheVerified := false |>, true)
      else (v, changed) in
    (drop_missing "mark" v, changed)
  else (v, changed).

(** The last block: completeness, and whether the quality record moved. *)
Definition merge_quality (old : SessionQuality) (m : Merge) : Merge :=
  let '(v, changed) := m in
  let v := if bool_decide (sq_MissingFields (rs_Quality v) = [])
           then v <| rs_Quality ::= fun q => q <| sq_TrackingStatus := TrackingComplete |> |> else v in
  let q := rs_Quality v in
  (v, changed || negb (bool_decide (length (sq_MissingFields q) = length (sq_MissingFields old))) ||
      negb (bool_decide (sq_TrackingStatus q = sq_TrackingStatus old)) ||
      negb (bool_decide (sq_IdentityConfidence q = sq_IdentityConfidence old))).

(** The blocks after the reply tuple, which read and write the session only. *)
Definition merge_rest (r : ConntrackRecord) (now : Time) (old : SessionQuality) (m : Merge) : Merge :=
  let m := merge_counters_original r now m in
  let '(v, changed) := merge_counters_reply r now m in
  let v := merge_timeout r now (merge_counters_missing v) in
  let '(v, changed) := merge_state r now (v, changed) in
  let v := v <| rs_LastObservedAt := now |> in
  merge_quality old (merge_mark r (v, changed)).

(** [id] is the key under which the store holds [existing]. *)
Definition mergeLocked (s : RuntimeStore) (id : string) (existing : RuntimeSession) (r : ConntrackRecord) (now : Time)
  : RuntimeStore * Merge :=
  let m := merge_conntrackID r (merge_kernelStart r (existing, false)) in
  let '(s, m) := merge_reply s r m in
  let '(v, changed) := merge_rest r now (rs_Quality existing) m in
  let s := s <| expiryRetryAfter ::= delete (rs_SessionID v) |> in
  let s := rememberIdentityLocked s (rs_SessionID v) (cr_Identity r) in
  let v := if changed then v <| rs_Revision ::= inc64 |> else v in
  let s := if changed then s <| revision ::= inc64 |> else s in
  (s <| byID ::= insert id v |>, (v, changed)).

(** ** Creating a session *)

Definition newQuality (record : ConntrackRecord) (identity : ConntrackIdentity) (createdFromKernel : bool) : SessionQuality :=
  let p := cr_Presence record in
  let '(originalCounters, replyCounters) := counterPresence p in
  let noID := negb (pr_ID p) || (ci_ID identity =? 0) in
  let noCounters := negb originalCounters || negb replyCounters in
  let partly := negb (pr_ReplyTuple p) || noCounters || negb (pr_Timeout p) || negb (pr_Mark p) in
  mkSessionQuality
    (if partly then TrackingPartial else TrackingComplete)
    (if negb createdFromKernel || noID then IdentityPartial else IdentityComplete)
    ((if createdFromKernel then [] else ["kernel_start"]) ++
     (if noID then ["conntrack_id"] else []) ++
     (if pr_ReplyTuple p then [] else ["reply_tuple"]) ++
     (if noCounters then ["counters"] ++ (if originalCounters then [] else ["counters_original"]) ++
                                         (if replyCounters then [] else ["counters_reply"]) else []) ++
     (if pr_Timeout p then [] else ["timeout"]) ++
     (if pr_Mark p then [] else ["mark"])) "" 0.

Definition newSession (id : string) (record : ConntrackRecord) (identity : ConntrackIdentity) (now : Time) : RuntimeSession :=
  let p := cr_Presence record in
  let createdFromKernel := pr_Timestamp p && negb (IsZero (cr_KernelStart record)) in
  let '(originalCounters, replyCounters) := counterPresence p in
  let reply := if pr_ReplyTuple p then cr_ReplyTuple record else None in
  let nat := makeNAT (cr_OriginalTuple record) reply in
  mkRuntimeSession id identity (cr_OriginalTuple record) reply (nat_TranslatedTuple nat) nat
    (tp_Family (cr_OriginalTuple record)) (tp_Protocol (cr_OriginalTuple record)) "" "" (stateFor record)
    (if createdFromKernel then cr_KernelStart record else now) now now
    (if pr_Timeout p then Some (now + cr_Timeout record) else None) None
    (if originalCounters then cr_PacketsOriginal record else 0) (if originalCounters then cr_BytesOriginal record else 0)
    (if replyCounters then cr_PacketsReply record else 0) (if replyCounters then cr_BytesReply record else 0)
    "" 0 DecisionNone 0 "" CacheNotEvaluated None ""
    (if pr_Mark p then u16 (Z.shiftr (cr_Mark record) 20) else 0) (if pr_Mark p then cr_Mark record else 0) false
    DecisionNone false 1 (newQuality record identity createdFromKernel) None [].

(** The last part of [ApplyObserved]: room, a fresh identifier, the session and
    its indexes.  [collisionClock] is the clock read when the hashed identifier
    is taken. *)
Definition createLocked (s : RuntimeStore) (record : ConntrackRecord) (identity : ConntrackIdentity) (now collisionClock : Time)
  : RuntimeStore * result StoreError (RuntimeSession * bool * bool) :=
  if MaxSessions (limits s) <=? Z.of_nat (size (byID s)) then
    (s <| stats ::= fun st => st <| stat_TrackingDrops ::= inc64 |> <| stat_CapacityDrops ::= inc64 |> |>,
     Err ErrRuntimeCapacity)
  else
    let id := sessionID identity in
    let id := if bool_decide (is_Some (byID s !! id))
              then id +:+ "-" +:+ hex_EncodeToString (str_bytes (FormatRFC3339Nano collisionClock)) else id in
    let sess := newSession id record identity now in
    let s := rememberIdentityLocked s id identity in
    let '(s, sess) := indexLocked s sess in
    let s := s <| byID ::= insert id sess |> in
    let s := s <| stats ::= fun st => st <| stat_Created ::= inc64 |> <| stat_Active := activeCount s |> |>
               <| revision ::= inc64 |> in
    (s, Ok (sess, true, true)).

(** Whether a live session may absorb a record of this identity: no two known,
    different kernel IDs or start times. *)
Definition sameIncarnation (identity existing : ConntrackIdentity) : bool :=
  ((ci_ID identity =? 0) || (ci_ID existing =? 0) || (ci_ID identity =? ci_ID existing)) &&
  ((ci_KernelStart identity =? 0) || (ci_KernelStart existing =? 0) || (ci_KernelStart identity =? ci_KernelStart existing)).

(** The record with its tuple and identity completed from each other. *)
Definition completeRecord (record : ConntrackRecord) : ConntrackRecord :=
  let record :=
    if negb (Tuple_Valid (cr_OriginalTuple record)) && Tuple_Valid (ci_Original (cr_Identity record))
    then record <| cr_OriginalTuple := ci_Original (cr_Identity record) |> else record in
  if bool_decide (ci_Original (cr_Identity record) = tuple_zero)
  then record <| cr_Identity ::= fun i => i <| ci_Original := cr_OriginalTuple record |> |> else record.

Definition absorb (s : RuntimeStore) (id : string) (existing : RuntimeSession) (record : ConntrackRecord) (now : Time)
  : RuntimeStore * result StoreError (RuntimeSession * bool * bool) :=
  let s := rememberIdentityLocked s id (cr_Identity record) in
  let '(s, (value, changed)) := mergeLocked s id existing record now in
  (s, Ok (value, false, changed)).

Definition ApplyObserved (s : RuntimeStore) (record : ConntrackRecord) (now clock collisionClock : Time)
  : RuntimeStore * result StoreError (RuntimeSession * bool * bool) :=
  let record := completeRecord record in
  if negb (Tuple_Valid (cr_OriginalTuple record)) then (s, Err ErrIdentityMissing)
  else
    let now := if IsZero now then clock else now in
    let identity := cr_Identity record in
    match resolveIdentityLocked s identity ≫= (fun id => pair id <$> byID s !! id) with
    | Some (id, existing) => absorb s id existing record now
    | None =>
        if existsb (fun t => tombstoneIdentityMatches (tb_Identity t) identity) (tombstones s) then (s, Err ErrStaleEvent)
        else
          match resolveTupleLocked s (identity_key identity (cr_OriginalTuple record)) with
          | TupleOk id =>
              match byID s !! id with
              | Some existing =>
                  if sameIncarnation identity (rs_Identity existing) then absorb s id existing record now
                  else createLocked s record identity now collisionClock
              | None => createLocked s record identity now collisionClock
              end
          | _ => createLocked s record identity now collisionClock
          end
    end.

Definition Apply (s : RuntimeStore) (record : ConntrackRecord) (now clock collisionClock : Time)
  : RuntimeStore * result StoreError (RuntimeSession * bool) :=
  let '(s, res) := ApplyObserved s record now clock collisionClock in
  (s, match res with Ok (value, created, _) => Ok (value, created) | Err e => Err e end).

(** ** Closing sessions and the closed history *)

Definition trimClosedLocked (s : RuntimeStore) : RuntimeStore :=
  let excess := Z.of_nat (length (closed s)) - MaxClosed (limits s) in
  let s := if 0 <? excess
           then s <| closed ::= drop (Z.to_nat excess) |>
                  <| stats ::= fun st => st <| stat_HistoryEvictions ::= fun x => u64 (x + excess) |> |>
           else s in
  let excess := Z.of_nat (length (tombstones s)) - MaxClosed (limits s) in
  if 0 <? excess then s <| tombstones ::= drop (Z.to_nat excess) |> else s.

Definition appendClosedLocked (s : RuntimeStore) (value : RuntimeSession) (tomb : tombstone) : RuntimeStore :=
  trimClosedLocked (s <| closed ::= fun l => l ++ [value] |> <| tombstones ::= fun l => l ++ [tomb] |>).

(** What the three closing methods share: history, tombstone, every index, the
    session itself. *)
Definition retire (s : RuntimeStore) (id : string) (value : RuntimeSession) (at_ : Time) : RuntimeStore :=
  let s := appendClosedLocked s value (mkTombstone id (rs_Identity value) at_) in
  let s := removeIndexesLocked s id in
  s <| byID ::= delete id |>.

Definition count_closed (n : Z) (s : RuntimeStore) : RuntimeStore :=
  s <| stats ::= fun st => st <| stat_Closed ::= fun x => u64 (x + n) |> <| stat_Active := activeCount s |> |>
    <| revision ::= inc64 |>.

Definition with_reason (reason : string) (v : RuntimeSession) : RuntimeSession :=
  v <| rs_Quality ::= fun q => q <| sq_Reason := reason |> |>.

Definition closeLocked (s : RuntimeStore) (id : string) (v : RuntimeSession) (reason : string) (now : Time)
  : RuntimeStore * RuntimeSession :=
  let v := v <| rs_State := SessionClosed |> <| rs_ClosedAt := Some now |> <| rs_Revision ::= inc64 |> in
  let v := if bool_decide (reason = "") then v else with_reason reason v in
  (count_closed 1 (retire s id v now), v).

(** The guards between finding the session of a DESTROY and closing it. *)
Definition close_allowed (identity : ConntrackIdentity) (v : RuntimeSession) : bool :=
  negb (conflict (ci_KernelStart identity) (ci_KernelStart (rs_Identity v))) &&
  negb (conflict (ci_ID identity) (ci_ID (rs_Identity v))) &&
  negb (conflict_str (ci_BootID identity) (ci_BootID (rs_Identity v))) &&
  negb (conflict_str (ci_NetworkNS identity) (ci_NetworkNS (rs_Identity v))) &&
  negb (Tuple_Valid (ci_Original identity) && negb (bool_decide (rs_OriginalTuple v = ci_Original identity))).

(** The session a DESTROY names: by identity, or by tuple when it carries no
    conntrack ID and no tombstone explains it. *)
Definition close_target (s : RuntimeStore) (identity : ConntrackIdentity) : option string :=
  match resolveIdentityLocked s identity with
  | Some id => Some id
  | None =>
      if negb (ci_ID identity =? 0) then None
      else if Tuple_Valid (ci_Original identity) &&
              existsb (fun t => tombstoneIdentityMatches (tb_Identity t) identity) (tombstones s) then None
      else match resolveTupleLocked s (identity_key identity (ci_Original identity)) with
           | TupleOk id => nonempty (Some id)
           | _ => None
           end
  end.

Definition Close (s : RuntimeStore) (identity : ConntrackIdentity) (reason : string) (now clock : Time)
  : RuntimeStore * option RuntimeSession :=
  match close_target s identity with
  | None => (s, None)
  | Some id =>
      match byID s !! id with
      | None => (s <| byIdentity ::= delete identity |>, None)
      | Some v =>
          if close_allowed identity v then
            let '(s, v) := closeLocked s id v reason (if IsZero now then clock else now) in (s, Some v)
          else (s, None)
      end
  end.

Definition Delete (s : RuntimeStore) (id reason : string) (now clock : Time) : RuntimeStore * result StoreError unit :=
  match byID s !! id with
  | None => (s, Err ErrSessionMissing)
  | Some v =>
      let closedAt := if IsZero now then clock else now in
      let v := with_reason reason (v <| rs_State := SessionClosed |> <| rs_ClosedAt := Some closedAt |>) in
      (count_closed 1 (retire s id v closedAt), Ok tt)
  end.

(** One iteration of [ReconcileMissing] over the session [id]. *)
Definition reconcile_one (seenIDs : gset string) (before now : Time) (reason : string)
  (st : RuntimeStore * list RuntimeSession) (id : string) : RuntimeStore * list RuntimeSession :=
  let '(s, removed) := st in
  match byID s !! id with
  | None => st
  | Some value =>
      if bool_decide (id ∈ seenIDs) || After (rs_LastObservedAt value) before then st
      else
        let v := value <| rs_State := SessionClosed |> <| rs_ClosedAt := Some now |>
                       <| rs_CacheState := CacheInvalidated |> <| rs_KernelCacheVerified := false |> in
        let v := if bool_decide (reason = "") then v else with_reason reason v in
        let v := v <| rs_Revision ::= inc64 |> in
        (retire s id v now, removed ++ [v])
  end.

Definition seen_ids (s : RuntimeStore) (seen : list ConntrackIdentity) : gset string :=
  list_to_set (omap (resolveIdentityLocked s) seen).

(** [order] is the order in which Go's iteration visits the keys of [byID]. *)
Definition ReconcileMissing (s : RuntimeStore) (order : list string) (seen : list ConntrackIdentity)
  (before now clock : Time) (reason : string) : RuntimeStore * list RuntimeSession :=
  let before := if IsZero before then clock else before in
  let now := if IsZero now then clock else now in
  let '(s', removed) := foldl (reconcile_one (seen_ids s seen) before now reason) (s, []) order in
  (if bool_decide (removed = []) then s' else count_closed (Z.of_nat (length removed)) s', removed).

Definition pruneClosedLocked (s : RuntimeStore) (now : Time) : RuntimeStore :=
  let cutoff := now - ClosedTTL (limits s) in
  let kept := filter (fun v => from_option (fun t => After t cutoff) false (rs_ClosedAt v) = true) (closed s) in
  let expired := Z.of_nat (length (closed s)) - Z.of_nat (length kept) in
  s <| stats ::= fun st => st <| stat_HistoryExpired ::= fun x => u64 (x + expired) |> |>
    <| closed := kept |>
    <| tombstones ::= filter (fun t => After (tb_At t) cutoff = true) |>.

Definition PruneClosed (s : RuntimeStore) (now : Time) : RuntimeStore := pruneClosedLocked s now.

Definition SetInspectionHistoryLimits (s : RuntimeStore) (max : Z) (ttl : Duration) (clock : Time) : RuntimeStore :=
  let max := if max <=? 0 then baseHistoryMax s else max in
  let ttl := if ttl <=? 0 then baseHistoryTTL s else ttl in
  let s := s <| limits ::= fun l => l <| MaxClosed := max |> <| ClosedTTL := ttl |> |> in
  trimClosedLocked (pruneClosedLocked s clock).

(** ** Decisions *)

(** An update of the live session [id]; the store revision moves with it. *)
Definition update_session (s : RuntimeStore) (id : string) (v : RuntimeSession) : RuntimeStore :=
  s <| byID ::= insert id v |> <| revision ::= inc64 |>.

Definition guard_applied (v : RuntimeSession) : bool :=
  match rs_Inspection v with
  | Some i => bool_decide (er_Mechanism (si_Enforcement i) = EnforcementNFTSessionGuard) &&
              bool_decide (er_Status (si_Enforcement i) = EnforcementApplied) &&
              bool_decide (er_RequestedAction (si_Enforcement i) = DecisionDrop)
  | None => false
  end.

Definition invalidate_session (v : RuntimeSession) (generation : Z) (reason : string) (now : Time) : RuntimeSession :=
  let v := v <| rs_CacheState := CacheInvalidated |> <| rs_KernelCacheVerified := false |> <| rs_MatchedPolicyID := "" |> in
  let v := if rs_Revoked v || guard_applied v
           then v <| rs_Decision := DecisionDrop |> <| rs_EffectiveDecision := DecisionDrop |>
           else v <| rs_Decision := DecisionNone |> <| rs_EffectiveDecision := DecisionNone |> <| rs_DecisionReason := "" |> in
  v <| rs_InvalidatedAt := Some now |> <| rs_InvalidationReason := reason |> <| rs_PolicyGeneration := generation |>
    <| rs_DecisionGeneration ::= inc64 |> <| rs_Revision ::= inc64 |>.

Definition count_invalidated (s : RuntimeStore) : RuntimeStore :=
  s <| stats ::= fun st => st <| stat_Invalidated ::= inc64 |> |>.

Definition Invalidate (s : RuntimeStore) (id : string) (generation : Z) (reason : string) (now : Time)
  : RuntimeStore * result StoreError RuntimeSession :=
  match byID s !! id with
  | None => (s, Err ErrSessionMissing)
  | Some v =>
      let v := invalidate_session v generation reason now in
      (count_invalidated (update_session s id v), Ok v)
  end.

Definition MarkEvaluationUnavailable (s : RuntimeStore) (id : string) (generation : Z) (reason : string)
  : RuntimeStore * result StoreError RuntimeSession :=
  match byID s !! id with
  | None => (s, Err ErrSessionMissing)
  | Some v =>
      if bool_decide (rs_CacheState v = CacheNotEvaluated) && (rs_PolicyGeneration v =? generation) &&
         bool_decide (rs_Decision v = DecisionNone) && bool_decide (rs_EffectiveDecision v = DecisionNone) &&
         bool_decide (rs_DecisionReason v = reason) then (s, Ok v)
      else
        let v := v <| rs_MatchedPolicyID := "" |> <| rs_PolicyGeneration := generation |> <| rs_DecisionGeneration ::= inc64 |>
                   <| rs_Decision := DecisionNone |> <| rs_EffectiveDecision := DecisionNone |> <| rs_DecisionReason := reason |>
                   <| rs_CacheState := CacheNotEvaluated |> <| rs_KernelCacheVerified := false |>
                   <| rs_InvalidatedAt := None |> <| rs_InvalidationReason := "" |> <| rs_Revision ::= inc64 |> in
        (update_session s id v, Ok v)
  end.

Definition decide_session (v : RuntimeSession) (generation : Z) (action : Decision) (policyID reason : string) : RuntimeSession :=
  let v := v <| rs_MatchedPolicyID := policyID |> <| rs_PolicyGeneration := generation |>
             <| rs_DecisionGeneration ::= inc64 |> <| rs_Decision := action |> in
  let v := if rs_Revoked v || guard_applied v then v <| rs_EffectiveDecision := DecisionDrop |>
           else v <| rs_EffectiveDecision := action |> in
  v <| rs_DecisionReason := reason |> <| rs_CacheState := CacheCached |> <| rs_InvalidatedAt := None |>
    <| rs_InvalidationReason := "" |> <| rs_Revision ::= inc64 |>.

Definition setDecision (s : RuntimeStore) (id : string) (expectedRevision generation : Z) (action : Decision) (policyID reason : string)
  : RuntimeStore * result StoreError RuntimeSession :=
  match byID s !! id with
  | None => (s, Err ErrSessionMissing)
  | Some v =>
      if negb (expectedRevision =? 0) && negb (rs_Revision v =? expectedRevision) || rs_Revoked v ||
         (generation <? rs_PolicyGeneration v) then (s, Err ErrStaleDecision)
      else let v := decide_session v generation action policyID reason in (update_session s id v, Ok v)
  end.

Definition SetDecision (s : RuntimeStore) (id : string) (generation : Z) (action : Decision) (policyID reason : string) :=
  setDecision s id 0 generation action policyID reason.

Definition SetDecisionIfCurrent (s : RuntimeStore) (id : string) (expectedRevision generation : Z) (action : Decision)
  (policyID reason : string) := setDecision s id expectedRevision generation action policyID reason.

Definition MarkRevoked (s : RuntimeStore) (id : string) (generation : Z) (reason : string) (clock : Time)
  : RuntimeStore * result StoreError RuntimeSession :=
  match byID s !! id with
  | None => (s, Err ErrSessionMissing)
  | Some v =>
      let v := v <| rs_Revoked := true |> <| rs_CacheState := CacheInvalidated |> <| rs_KernelCacheVerified := false |>
                 <| rs_PolicyGeneration := generation |> <| rs_InvalidationReason := reason |>
                 <| rs_InvalidatedAt := Some clock |> <| rs_Decision := DecisionDrop |>
                 <| rs_EffectiveDecision := DecisionDrop |> <| rs_DecisionReason := reason |>
                 <| rs_DecisionGeneration ::= inc64 |> <| rs_Revision ::= inc64 |> in
      (count_invalidated (update_session s id v), Ok v)
  end.

Definition SetZones (s : RuntimeStore) (id source destination : string) : RuntimeStore * result StoreError RuntimeSession :=
  match byID s !! id with
  | None => (s, Err ErrSessionMissing)
  | Some v =>
      if bool_decide (rs_SourceZone v = source) && bool_decide (rs_DestinationZone v = destination) then (s, Ok v)
      else
        let v := v <| rs_SourceZone := source |> <| rs_DestinationZone := destination |> <| rs_Revision ::= inc64 |> in
        (update_session s id v, Ok v)
  end.

(** ** Inspection metadata *)

Definition maxUint64_value : Z := 2 ^ 64 - 1.

Definition inspect_session (v : RuntimeSession) (next : SessionInspection) (revision : Z) : RuntimeSession :=
  let nextCopy := next <| si_Revision := revision |> in
  let v := v <| rs_Inspection := Some nextCopy |> in
  let v := if rs_Revoked v then v <| rs_EffectiveDecision := DecisionDrop |>
           else if guard_applied v then v <| rs_EffectiveDecision := DecisionDrop |>
           else v <| rs_EffectiveDecision := rs_Decision v |> in
  v <| rs_Revision ::= inc64 |>.

Definition updateInspectionLocked (s : RuntimeStore) (id : string) (current : RuntimeSession) (next : SessionInspection) (revision : Z)
  : RuntimeStore * RuntimeSession :=
  let v := inspect_session current next revision in (update_session s id v, v).

Definition inspection_revision (v : RuntimeSession) : Z := from_option si_Revision 0 (rs_Inspection v).

Definition UpdateInspection (s : RuntimeStore) (id : string) (identity : ConntrackIdentity)
  (expectedGeneration expectedInspectionRevision : Z) (next : SessionInspection) : RuntimeStore * result StoreError RuntimeSession :=
  match byID s !! id with
  | None => (s, Err ErrSessionMissing)
  | Some current =>
      if negb (tombstoneIdentityMatches (rs_Identity current) identity) ||
         conflict (ci_ID identity) (ci_ID (rs_Identity current)) then (s, Err ErrStaleInspection)
      else if (expectedGeneration <? rs_PolicyGeneration current) ||
              match rs_Inspection current with Some i => expectedGeneration <? si_Generation i | None => false end ||
              negb (si_Generation next =? expectedGeneration) then (s, Err ErrStaleGeneration)
      else if negb (inspection_revision current =? expectedInspectionRevision) || (inspection_revision current =? maxUint64_value)
      then (s, Err ErrStaleInspection)
      else
        let '(s, v) := updateInspectionLocked s id current next (expectedInspectionRevision + 1) in (s, Ok v)
  end.

Definition CompleteInspectionIntent (s : RuntimeStore) (intent : InspectionIntent) (res : EnforcementResult)
  : RuntimeStore * result StoreError RuntimeSession :=
  match byID s !! ii_SessionID intent with
  | None => (s, Err ErrSessionMissing)
  | Some current =>
      match rs_Inspection current with
      | None => (s, Err ErrStaleInspection)
      | Some i =>
          if negb (MatchesSession intent current (ii_Generation intent)) || (si_Revision i =? maxUint64_value)
          then (s, Err ErrStaleInspection)
          else
            let next := i <| si_Enforcement := res |> in
            let '(s, v) := updateInspectionLocked s (ii_SessionID intent) current next (si_Revision i + 1) in (s, Ok v)
      end
  end.

(** ** Expiry *)

Record expiryEntry : Type := mkExpiryEntry { ee_id : string; ee_deadline : Time }.

Definition expired (now : Time) (v : RuntimeSession) : bool :=
  match rs_ExpiresAt v with Some t => negb (After t now) | None => false end.

Definition retry_ready (s : RuntimeStore) (id : string) (now : Time) : bool :=
  negb (After (default time_zero (expiryRetryAfter s !! id)) now).

Definition expiry_less (a b : expiryEntry) : bool :=
  if time_Equal (ee_deadline a) (ee_deadline b) then str_lt (ee_id a) (ee_id b) else Before (ee_deadline a) (ee_deadline b).

(** The first locked region of [ExpiredCandidates]: the sessions due, their
    number and the age of the oldest. *)
Definition expiry_scan (s : RuntimeStore) (now : Time) : list expiryEntry * Z * Duration :=
  let overdue := filter (fun e => expired now e.2 = true) (map_to_list (byID s)) in
  let due := omap (fun e => match rs_ExpiresAt e.2 with
                            | Some t => if retry_ready s e.1 now then Some (mkExpiryEntry e.1 t) else None
                            | None => None end) overdue in
  let oldest := foldl (fun acc e => match rs_ExpiresAt e.2 with
                                    | Some t => if acc <? time_Sub now t then time_Sub now t else acc
                                    | None => acc end) 0 overdue in
  (sort_by expiry_less due, Z.of_nat (length overdue), oldest).

(** The second locked region, on the store as it is then: entries that still
    hold, up to the budget. *)
Definition expiry_collect (s : RuntimeStore) (now : Time) (budget : Z) (due : list expiryEntry) : list RuntimeSession :=
  take (Z.to_nat budget)
    (omap (fun e => match byID s !! ee_id e with
                    | Some v => if bool_decide (rs_ExpiresAt v = Some (ee_deadline e)) && expired now v && retry_ready s (ee_id e) now
                                then Some v else None
                    | None => None end) due).

Definition ExpiredCandidates (s1 s2 : RuntimeStore) (now : Time) (budget : Z) : list RuntimeSession * Z * Duration :=
  let budget := if budget <=? 0 then 512 else budget in
  let '(due, totalDue, oldest) := expiry_scan s1 now in
  (expiry_collect s2 now budget due, totalDue, oldest).

Definition expiryCandidateLocked (s : RuntimeStore) (candidate : RuntimeSession) (now : Time) : option RuntimeSession :=
  match byID s !! rs_SessionID candidate with
  | None => None
  | Some current =>
      if bool_decide (rs_Identity current = rs_Identity candidate) && (rs_Revision current =? rs_Revision candidate) &&
         time_Equal (rs_LastObservedAt current) (rs_LastObservedAt candidate) &&
         negb (bool_decide (rs_ExpiresAt candidate = None)) &&
         bool_decide (rs_ExpiresAt current = rs_ExpiresAt candidate) && expired now current
      then Some current else None
  end.

Definition ExpiryCandidateCurrent (s : RuntimeStore) (candidate : RuntimeSession) (now : Time) : bool :=
  match expiryCandidateLocked s candidate now with Some _ => true | None => false end.

Definition CloseVerifiedExpired (s : RuntimeStore) (candidate : RuntimeSession) (now : Time) : RuntimeStore * option RuntimeSession :=
  match expiryCandidateLocked s candidate now with
  | None => (s, None)
  | Some current =>
      let '(s, v) := closeLocked s (rs_SessionID candidate) current "verified conntrack expiry" now in (s, Some v)
  end.

Definition DeferExpired (s : RuntimeStore) (candidate : RuntimeSession) (now : Time) (reason : string) : RuntimeStore * bool :=
  match expiryCandidateLocked s candidate now with
  | None => (s, false)
  | Some current =>
      let s := s <| expiryRetryAfter ::= insert (rs_SessionID current) (now + 30 * Second) |> in
      let q := rs_Quality current in
      if negb (bool_decide (sq_TrackingStatus q = TrackingStale)) || negb (bool_decide (sq_Reason q = reason)) then
        let v := current <| rs_Quality := q <| sq_TrackingStatus := TrackingStale |> <| sq_Reason := reason |> |>
                         <| rs_Revision ::= inc64 |> in
        (update_session s (rs_SessionID candidate) v, true)
      else (s, true)
  end.

(** ** Reading *)

Definition session_less (a b : RuntimeSession) : bool :=
  if time_Equal (rs_CreatedAt a) (rs_CreatedAt b) then str_lt (rs_SessionID a) (rs_SessionID b)
  else Before (rs_CreatedAt a) (rs_CreatedAt b).

Definition List_ (s : RuntimeStore) : list RuntimeSession := sort_by session_less (map_to_list (byID s)).*2.

Definition matches_tuple (f : SessionFilter) (o : Tuple) : bool :=
  if negb (bool_decide (sf_SourceIP f = "")) && negb (EqualFold (addr_String (tp_SrcIP o)) (sf_SourceIP f)) then false
  else if negb (bool_decide (sf_DestinationIP f = "")) && negb (EqualFold (addr_String (tp_DstIP o)) (sf_DestinationIP f)) then false
  else negb (negb (sf_Protocol f =? 0) && negb (tp_Protocol o =? sf_Protocol f)).

Definition matches (v : RuntimeSession) (f : SessionFilter) : bool :=
  let translated := match rs_TranslatedTuple v with Some t => matches_tuple f t | None => false end in
  let view :=
    if bool_decide (sf_TupleView f = "translated") then translated
    else if bool_decide (sf_TupleView f = "any") then matches_tuple f (rs_OriginalTuple v) || translated
    else matches_tuple f (rs_OriginalTuple v) in
  view &&
  negb (negb (bool_decide (sf_SourceZone f = "")) && negb (EqualFold (rs_SourceZone v) (sf_SourceZone f))) &&
  negb (negb (bool_decide (sf_DestinationZone f = "")) && negb (EqualFold (rs_DestinationZone v) (sf_DestinationZone f))) &&
  match sf_State f with Some st => bool_decide (rs_State v = st) | None => true end &&
  negb (negb (bool_decide (sf_Decision f = DecisionNone)) && negb (bool_decide (rs_EffectiveDecision v = sf_Decision f)) &&
        negb (bool_decide (rs_Decision v = sf_Decision f))).

(** A slice expression [l[start:end]] panics when its bounds do not hold. *)
Definition slice {A} (l : list A) (start end_ : Z) : option (list A) :=
  if (0 <=? start) && (start <=? end_) && (end_ <=? Z.of_nat (length l))
  then Some (take (Z.to_nat (end_ - start)) (drop (Z.to_nat start) l)) else None.

(** [None] is a run-time panic.  The page offset is computed in [int]. *)
Definition Query (s : RuntimeStore) (f : SessionFilter) (page : Page) (clock : Time) : option PageResult :=
  let filtered := sort_by session_less (filter (fun v => matches v f = true) (map_to_list (byID s)).*2) in
  let size := if pg_Size page <=? 0 then 100 else pg_Size page in
  let size := if 500 <? size then 500 else size in
  let number := if pg_Number page <=? 0 then 1 else pg_Number page in
  let total := Z.of_nat (length filtered) in
  let start := i64 ((number - 1) * size) in
  let start := if total <? start then total else start in
  let end_ := i64 (start + size) in
  let end_ := if total <? end_ then total else end_ in
  items ← slice filtered start end_;
  Some (mkPageResult items number size total (end_ <? total) (revision s) clock).

Definition Stats (s : RuntimeStore) : RuntimeStats := stats s <| stat_Active := activeCount s |>.
Definition Revision (s : RuntimeStore) : Z := revision s.
Definition Capacity (s : RuntimeStore) : Z := MaxSessions (limits s).

(** *** Correlation candidates *)

Definition sessionOverlaps (value : RuntimeSession) (observedAt : Time) : bool :=
  if IsZero observedAt then true
  else if negb (IsZero (rs_CreatedAt value)) && Before observedAt (rs_CreatedAt value - 2 * Second) then false
  else match rs_ClosedAt value with
       | Some t => negb (After observedAt (t + 2 * Second))
       | None => true
       end.

Definition sessionHasAlias (value : RuntimeSession) (wanted : Key) : bool :=
  existsb (fun candidate => bool_decide (candidate = wanted))
    (Aliases (session_scope value) (rs_OriginalTuple value) (rs_ReplyTuple value) (rs_TranslatedTuple value)).

Definition candidateLimit (limit : Z) : Z := if (limit <=? 0) || (8 <? limit) then 8 else limit.

(** The candidates appended while the limit holds; [true] when one more exists. *)
Definition bounded (limit : Z) (l : list RuntimeSession) : list RuntimeSession * bool :=
  (take (Z.to_nat limit) l, limit <? Z.of_nat (length l)).

(** Closed sessions that match, newest first; a session already listed is skipped
    and, in [ResolveCandidates], so is one whose identifier was already seen. *)
Fixpoint closed_candidates (key : Key) (observedAt : Time) (seen : gset string) (l : list RuntimeSession) : list RuntimeSession :=
  match l with
  | [] => []
  | c :: l' =>
      if bool_decide (rs_SessionID c ∈ seen) || negb (sessionOverlaps c observedAt) || negb (sessionHasAlias c key)
      then closed_candidates key observedAt seen l'
      else c :: closed_candidates key observedAt ({[rs_SessionID c]} ∪ seen) l'
  end.

(** [order] is the order in which Go's iteration visits [byTuple[key]]. *)
Definition ResolveCandidates (s : RuntimeStore) (order : list string) (key : Key) (observedAt : Time) (limit : Z)
  : list RuntimeSession * bool :=
  let active := omap (fun id => match byID s !! id with
                                | Some v => if sessionOverlaps v observedAt then Some (id, v) else None
                                | None => None end) order in
  bounded (candidateLimit limit)
    (active.*2 ++ closed_candidates key observedAt (list_to_set active.*1) (rev (closed s))).

Definition ResolveRecent (s : RuntimeStore) (key : Key) (observedAt : Time) (limit : Z) : list RuntimeSession * bool :=
  bounded (candidateLimit limit)
    (filter (fun c => sessionOverlaps c observedAt = true /\ sessionHasAlias c key = true) (rev (closed s))).
