(* ===== verification/StoreInv.v ===== *)
(** * The index invariant of the session store

    [store_inv] says what the five indexes, the history and the counters of a
    [RuntimeStore] mean; this file proves that every method preserves it.  The
    two index shapes are treated generically: [owner_inv] for a map from keys to
    their owner with a bounded list of keys per owner, [tuple_inv] for a map from
    keys to the set of sessions that list them. *)

From S2P Require Import Prelude GoStr Netip Domain Flow SessionStore.

(** ** Owner maps *)

Section owner.
Context {K : Type} `{Countable K}.
Implicit Types (m : gmap K string) (lists : gmap string (list K)) (live : string -> Prop).

Definition owner_inv (live : string -> Prop) (limit : Z) (m : gmap K string) (lists : gmap string (list K)) : Prop :=
  (forall k id, m !! k = Some id -> exists l, lists !! id = Some l /\ k ∈ l) /\
  (forall id l, lists !! id = Some l -> live id /\ Z.of_nat (length l) <= limit).

Lemma disown_lookup id m k k' o :
  disown id m k !! k' = Some o -> m !! k' = Some o /\ (k = k' -> o <> id).
Proof.
  unfold disown. case_bool_decide as E.
  - rewrite lookup_delete. case_decide; [done|]. naive_solver.
  - intros Hm. split; [done|]. by intros -> ->.
Qed.

Lemma disown_fold_lookup id ks m k o :
  foldl (disown id) m ks !! k = Some o -> m !! k = Some o /\ (k ∈ ks -> o <> id).
Proof.
  revert m. induction ks as [| x ks IH]; intros m; simpl; [set_solver|].
  intros (Hm & Hks)%IH. apply disown_lookup in Hm as [Hm Hx]. split; [done|].
  intros [-> | Hin]%elem_of_cons; auto.
Qed.

Lemma evict_oldest_spec limit id l m l' m' :
  evict_oldest limit id l m = (l', m') -> 0 <= limit ->
  Z.of_nat (length l') <= limit /\ (exists gone, l = gone ++ l' /\
    (forall k o, m' !! k = Some o -> m !! k = Some o /\ (k ∈ gone -> o <> id))).
Proof.
  revert m. induction l as [| x l IH]; intros m; simpl.
  - intros [= <- <-] ?. split; [simpl; lia|]. exists []. set_solver.
  - destruct (limit <? Z.of_nat (S (length l))) eqn:E.
    + intros He Hlim. destruct (IH _ He Hlim) as [Hlen (gone & -> & Hm)].
      split; [done|]. exists (x :: gone). split; [done|].
      intros k o (Hd & Hgone)%Hm. apply disown_lookup in Hd as [Hd Hx]. split; [done|].
      intros [-> | Hin]%elem_of_cons; auto.
    + intros [= <- <-] Hlim. split_bool. split; [simpl; lia|]. exists []. set_solver.
Qed.

Lemma remember_key_inv live limit id k m lists m' lists' :
  remember_key limit id k m lists = (m', lists') ->
  0 <= limit -> live id -> owner_inv live limit m lists -> owner_inv live limit m' lists'.
Proof.
  unfold remember_key. intros Hr Hlim Hid [Hm Hl]. case_bool_decide as Hk.
  - injection Hr as <- <-. split; [|done]. intros k' o. rewrite lookup_insert. case_decide as E.
    + intros [= <-]. subst k'. destruct (lists !! id) as [l|] eqn:El; [by exists l | set_solver].
    + apply Hm.
  - destruct (evict_oldest limit id (default [] (lists !! id) ++ [k]) (<[k:=id]> m)) as [l mm] eqn:Ee.
    injection Hr as <- <-.
    destruct (evict_oldest_spec _ _ _ _ _ _ Ee Hlim) as [Hlen (gone & Hgone & Hmm)]. split.
    + intros k' o (Hk' & Hnot)%Hmm. rewrite lookup_insert in Hk'.
      assert (Hin : o = id -> k' ∈ l).
      { intros ->. assert (k' ∈ default [] (lists !! id) ++ [k]) as Hin.
        { case_decide as E; [set_solver|]. destruct (Hm _ _ Hk') as (l0 & El0 & Hin).
          rewrite El0. set_solver. }
        rewrite Hgone, elem_of_app in Hin. naive_solver. }
      destruct (decide (o = id)) as [->|Hne].
      * exists l. by rewrite lookup_insert_eq; auto.
      * rewrite lookup_insert_ne by done. case_decide; [congruence|]. eauto.
    + intros id' l'. rewrite lookup_insert. case_decide as E; [|apply Hl].
      intros [= <-]. by subst.
Qed.

(** The key just remembered is owned by [id] (the limit keeps at least it). *)
Lemma remember_key_owned limit id k m lists m' lists' :
  remember_key limit id k m lists = (m', lists') -> 1 <= limit -> m' !! k = Some id.
Proof.
  unfold remember_key. intros Hr Hlim. case_bool_decide as Hk; [injection Hr as <- <-; apply lookup_insert_eq|].
  destruct (evict_oldest _ _ _ _) as [l mm] eqn:Ee. injection Hr as <- <-.
  assert (forall known mm0, k ∉ known -> mm0 !! k = Some id -> (evict_oldest limit id (known ++ [k]) mm0).2 !! k = Some id) as Hgo.
  { induction known as [| x known IH]; intros mm0 Hnot Hmm; simpl.
    - by rewrite (proj2 (Z.ltb_ge _ _)) by lia.
    - destruct (limit <? _); [|done]. apply IH; [set_solver|].
      unfold disown. case_bool_decide; [|done]. rewrite lookup_delete_ne by set_solver. done. }
  specialize (Hgo _ _ Hk (lookup_insert_eq m k id)). by rewrite Ee in Hgo.
Qed.

Lemma disown_inv live limit id m lists :
  owner_inv live limit m lists ->
  owner_inv (fun i => live i /\ i <> id) limit (foldl (disown id) m (default [] (lists !! id))) (delete id lists).
Proof.
  intros [Hm Hl]. split.
  - intros k o (Hk & Hnot)%disown_fold_lookup. destruct (Hm _ _ Hk) as (l & El & Hin).
    destruct (decide (o = id)) as [->|Hne]; [|exists l; by rewrite lookup_delete_ne].
    rewrite El in Hnot. naive_solver.
  - intros i l. rewrite lookup_delete. case_decide; [done|]. intros Hi%Hl. naive_solver.
Qed.

Lemma owner_inv_weaken live live' limit m lists :
  (forall id, live id -> live' id) -> owner_inv live limit m lists -> owner_inv live' limit m lists.
Proof. intros Hw [Hm Hl]. split; [done|]. intros id l Hid%Hl. naive_solver. Qed.

Lemma owner_inv_delete live limit m lists k :
  owner_inv live limit m lists -> owner_inv live limit (delete k m) lists.
Proof. intros [Hm Hl]. split; [|done]. intros k' o [_ Hk]%lookup_delete_Some. eauto. Qed.

Lemma owner_inv_empty live limit : owner_inv live limit ∅ ∅.
Proof. split; intros *; by rewrite lookup_empty. Qed.
End owner.

(** ** The tuple index *)

Definition tuple_inv (m : gmap Key (gset string)) (al : gmap string (list Key)) : Prop :=
  (forall k ids, m !! k = Some ids -> ids <> ∅) /\
  (forall k id, id ∈ default ∅ (m !! k) <-> k ∈ default [] (al !! id)).

Lemma unindex_alias_lookup id m a k :
  (forall k ids, m !! k = Some ids -> ids <> ∅) ->
  (forall k ids, unindex_alias id m a !! k = Some ids -> ids <> ∅) /\
  default ∅ (unindex_alias id m a !! k) = if decide (a = k) then default ∅ (m !! k) ∖ {[id]} else default ∅ (m !! k).
Proof.
  intros Hne. unfold unindex_alias. destruct (m !! a) as [ids|] eqn:Ea.
  - case_bool_decide as Hids.
    + split; [intros k' ids' [_ Hk]%lookup_delete_Some; eauto|].
      rewrite lookup_delete. case_decide as E; [subst; by rewrite Ea|done].
    + split.
      * intros k' ids'. rewrite lookup_insert. case_decide; [by intros [= <-]|apply Hne].
      * rewrite lookup_insert. case_decide as E; [subst; by rewrite Ea|done].
  - split; [intros k' ids' [_ Hk]%lookup_delete_Some; eauto|].
    rewrite lookup_delete. case_decide as E; [subst; rewrite Ea; set_solver|done].
Qed.

Lemma unindex_fold id aliases m k id' :
  (forall k ids, m !! k = Some ids -> ids <> ∅) ->
  (forall k ids, foldl (unindex_alias id) m aliases !! k = Some ids -> ids <> ∅) /\
  (id' ∈ default ∅ (foldl (unindex_alias id) m aliases !! k) <->
   id' ∈ default ∅ (m !! k) /\ ~ (k ∈ aliases /\ id' = id)).
Proof.
  revert m. induction aliases as [| a aliases IH]; intros m Hne; simpl.
  - split; [done|]. set_solver.
  - destruct (unindex_alias_lookup id m a k Hne) as [Hne' Hk].
    destruct (IH _ Hne') as [Hne'' IHk]. split; [done|]. rewrite IHk, Hk.
    destruct (decide (a = k)); set_solver.
Qed.

Lemma removeTupleIndexes_inv id m al :
  tuple_inv m al -> tuple_inv (foldl (unindex_alias id) m (default [] (al !! id))) (delete id al).
Proof.
  intros [Hne Hiff]. destruct (unindex_fold id (default [] (al !! id)) m (mkKey (mkScope "" 0) tuple_zero) "" Hne) as [Hne' _].
  split; [done|]. intros k id'.
  destruct (unindex_fold id (default [] (al !! id)) m k id' Hne) as [_ ->].
  rewrite Hiff, lookup_delete. case_decide as E; [subst; set_solver|]. naive_solver.
Qed.

Lemma index_fold id aliases m k id' :
  (forall k ids, m !! k = Some ids -> ids <> ∅) ->
  (forall k ids, foldl (index_alias id) m aliases !! k = Some ids -> ids <> ∅) /\
  (id' ∈ default ∅ (foldl (index_alias id) m aliases !! k) <->
   id' ∈ default ∅ (m !! k) \/ (k ∈ aliases /\ id' = id)).
Proof.
  revert m. induction aliases as [| a aliases IH]; intros m Hne; simpl.
  - split; [done|]. set_solver.
  - assert (Hne' : forall k ids, index_alias id m a !! k = Some ids -> ids <> ∅).
    { intros k' ids. unfold index_alias. rewrite lookup_insert. case_decide; [|apply Hne].
      intros [= <-]. set_solver. }
    destruct (IH _ Hne') as [Hne'' ->]. split; [done|].
    unfold index_alias. rewrite lookup_insert. case_decide; simpl; set_solver.
Qed.

Lemma index_inv id aliases m al :
  al !! id = None -> tuple_inv m al -> tuple_inv (foldl (index_alias id) m aliases) (<[id := aliases]> al).
Proof.
  intros Hid [Hne Hiff]. destruct (index_fold id aliases m (mkKey (mkScope "" 0) tuple_zero) "" Hne) as [Hne' _].
  split; [done|]. intros k id'. destruct (index_fold id aliases m k id' Hne) as [_ ->].
  rewrite Hiff, lookup_insert. case_decide as E; [subst; rewrite Hid; set_solver|]. naive_solver.
Qed.

(** ** The store invariant *)

(** The keys under which a session is indexed. *)
Definition session_aliases (limit : Z) (v : RuntimeSession) : list Key :=
  take (Z.to_nat limit) (Aliases (session_scope v) (rs_OriginalTuple v) (rs_ReplyTuple v) (rs_TranslatedTuple v)).

Definition live (s : RuntimeStore) (id : string) : Prop := is_Some (byID s !! id).

Definition limits_ok (l : RuntimeLimits) : Prop :=
  1 <= MaxSessions l /\ 1 <= MaxAliases l /\ 1 <= MaxClosed l /\ 1 <= MaxAmbiguity l.

Record store_inv (s : RuntimeStore) : Prop := {
  inv_limits : limits_ok (limits s) /\ 1 <= baseHistoryMax s;
  (** a session is stored under its own, nonempty identifier *)
  inv_self : forall id v, byID s !! id = Some v -> rs_SessionID v = id /\ id <> "";
  (** every live session is indexed under exactly its aliases *)
  inv_alias : aliasesBySession s = session_aliases (MaxAliases (limits s)) <$> byID s;
  inv_tuple : tuple_inv (byTuple s) (aliasesBySession s);
  (** identity indexes point to live sessions that list the identity *)
  inv_identity : owner_inv (live s) (MaxAliases (limits s)) (byIdentity s) (identitiesBySession s);
  inv_conntrack : owner_inv (live s) (MaxAliases (limits s)) (byConntrack s) (conntracksBySession s);
  inv_retry : forall id, is_Some (expiryRetryAfter s !! id) -> live s id;
  (** bounds *)
  inv_size : Z.of_nat (size (byID s)) <= MaxSessions (limits s);
  inv_closed : Z.of_nat (length (closed s)) <= MaxClosed (limits s);
  inv_tombs : Z.of_nat (length (tombstones s)) <= MaxClosed (limits s);
  inv_active : stat_Active (stats s) = activeCount s;
  (** revisions stay in the range of uint64 *)
  inv_revision : map_Forall (fun _ v => 0 <= rs_Revision v < 2 ^ 64) (byID s)
}.

#[export] Hint Resolve inv_limits inv_self inv_alias inv_tuple inv_identity inv_conntrack inv_retry inv_size
  inv_closed inv_tombs inv_active inv_revision : ngfw.

Lemma NewRuntimeStore_limits l : limits_ok (limits (NewRuntimeStore l)) /\ 1 <= baseHistoryMax (NewRuntimeStore l).
Proof.
  unfold limits_ok; simpl.
  destruct (Z.leb_spec (MaxSessions l) 0), (Z.leb_spec (MaxAliases l) 0), (Z.leb_spec (MaxClosed l) 0), (Z.leb_spec (MaxAmbiguity l) 0); lia.
Qed.

Lemma NewRuntimeStore_inv l : store_inv (NewRuntimeStore l).
Proof.
  destruct (NewRuntimeStore_limits l) as [(H1 & H2 & H3) H4].
  constructor.
  - by split.
  - by intros.
  - done.
  - split; intros *; rewrite ?lookup_empty; simpl; [done|]. set_solver.
  - apply owner_inv_empty.
  - apply owner_inv_empty.
  - by intros id [? ?].
  - simpl. rewrite map_size_empty. simpl in H1. lia.
  - simpl in *. lia.
  - simpl in *. lia.
  - done.
  - apply map_Forall_empty.
Qed.

Lemma aliasLimit_ok s : limits_ok (limits s) -> aliasLimit s = MaxAliases (limits s).
Proof. intros (_ & H & _). unfold aliasLimit. by rewrite (proj2 (Z.leb_gt _ _)) by lia. Qed.

(** *** What the index operations change *)

Lemma remember_spec (P : string -> Prop) s id i :
  limits_ok (limits s) -> P id ->
  owner_inv P (MaxAliases (limits s)) (byIdentity s) (identitiesBySession s) ->
  owner_inv P (MaxAliases (limits s)) (byConntrack s) (conntracksBySession s) ->
  exists m1 l1 m2 l2,
    rememberIdentityLocked s id i =
      s <| byIdentity := m1 |> <| identitiesBySession := l1 |> <| byConntrack := m2 |> <| conntracksBySession := l2 |> /\
    owner_inv P (MaxAliases (limits s)) m1 l1 /\ owner_inv P (MaxAliases (limits s)) m2 l2.
Proof.
  intros Hl Hid Hi Hc. pose proof Hl as (_ & Hl1 & _). unfold rememberIdentityLocked.
  case_bool_decide.
  { exists (byIdentity s), (identitiesBySession s), (byConntrack s), (conntracksBySession s). by destruct s. }
  assert (exists m1 l1,
    (if bool_decide (byIdentity s !! i = Some id) then s
     else let '(m, lists) := remember_key (aliasLimit s) id i (byIdentity s) (identitiesBySession s) in
          s <| byIdentity := m |> <| identitiesBySession := lists |>) =
    s <| byIdentity := m1 |> <| identitiesBySession := l1 |> /\
    owner_inv P (MaxAliases (limits s)) m1 l1) as (m1 & l1 & -> & H1).
  { case_bool_decide; [exists (byIdentity s), (identitiesBySession s); by destruct s|].
    destruct (remember_key _ _ _ _ _) as [m l] eqn:E. exists m, l. split; [done|].
    rewrite aliasLimit_ok in E by done. eapply remember_key_inv; eauto; lia. }
  assert (Hkey : forall key, exists m2 l2,
    (let '(m, lists) := remember_key (aliasLimit s) id key (byConntrack s) (conntracksBySession s) in
     s <| byIdentity := m1 |> <| identitiesBySession := l1 |> <| byConntrack := m |> <| conntracksBySession := lists |>) =
    s <| byIdentity := m1 |> <| identitiesBySession := l1 |> <| byConntrack := m2 |> <| conntracksBySession := l2 |> /\
    owner_inv P (MaxAliases (limits s)) m2 l2).
  { intros key. destruct (remember_key _ _ _ _ _) as [m l] eqn:E. exists m, l. split; [done|].
    rewrite aliasLimit_ok in E by done. eapply remember_key_inv; eauto; lia. }
  assert (Hsame : s <| byIdentity := m1 |> <| identitiesBySession := l1 |> =
    s <| byIdentity := m1 |> <| identitiesBySession := l1 |> <| byConntrack := byConntrack s |> <| conntracksBySession := conntracksBySession s |>)
    by done.
  exists m1, l1. destruct (makeConntrackKey i) as [key|]; [|naive_solver].
  change (byConntrack (s <| byIdentity := m1 |> <| identitiesBySession := l1 |>)) with (byConntrack s).
  change (aliasLimit (s <| byIdentity := m1 |> <| identitiesBySession := l1 |>)) with (aliasLimit s).
  destruct (Hkey key) as (m2 & l2 & Hk & H2).
  destruct (byConntrack s !! key); [case_bool_decide|]; naive_solver.
Qed.

(** [indexLocked] replaces the entry of one session in both tuple maps. *)
Lemma index_spec s v s' v' :
  limits_ok (limits s) -> tuple_inv (byTuple s) (aliasesBySession s) -> indexLocked s v = (s', v') ->
  exists m,
    s' = s <| byTuple := m |> <| aliasesBySession := <[rs_SessionID v := session_aliases (MaxAliases (limits s)) v]> (aliasesBySession s) |> /\
    tuple_inv m (<[rs_SessionID v := session_aliases (MaxAliases (limits s)) v]> (aliasesBySession s)) /\
    (exists q, v' = v <| rs_Quality := q |>).
Proof.
  intros (_ & Hl & _) Ht. unfold indexLocked.
  set (al := Aliases _ _ _ _).
  assert (Hal : session_aliases (MaxAliases (limits s)) v =
    if MaxAliases (limits s) <? Z.of_nat (length al) then take (Z.to_nat (MaxAliases (limits s))) al else al).
  { unfold session_aliases. fold al. case_if; [done|]. split_bool. apply take_ge. lia. }
  change (limits (removeTupleIndexesLocked s (rs_SessionID v))) with (limits s).
  pose proof (removeTupleIndexes_inv (rs_SessionID v) _ _ Ht) as Hrm.
  rewrite Hal. destruct (MaxAliases (limits s) <? Z.of_nat (length al)); intros [= <- <-].
  - eexists. split; [unfold removeTupleIndexesLocked, field_upd; simpl; by rewrite insert_delete_eq|]. split.
    + rewrite <- insert_delete_eq. apply index_inv; [apply lookup_delete_eq|]. exact Hrm.
    + by eexists.
  - eexists. split; [unfold removeTupleIndexesLocked, field_upd; simpl; by rewrite insert_delete_eq|]. split.
    + rewrite <- insert_delete_eq. apply index_inv; [apply lookup_delete_eq|]. exact Hrm.
    + by exists (rs_Quality v); destruct v.
Qed.

(** *** Updates that keep the indexes *)

Definition same_index (v w : RuntimeSession) : Prop :=
  rs_SessionID v = rs_SessionID w /\ session_scope v = session_scope w /\ rs_OriginalTuple v = rs_OriginalTuple w /\
  rs_ReplyTuple v = rs_ReplyTuple w /\ rs_TranslatedTuple v = rs_TranslatedTuple w.

Lemma same_index_aliases limit v w : same_index v w -> session_aliases limit v = session_aliases limit w.
Proof. intros (_ & E1 & E2 & E3 & E4). unfold session_aliases. by rewrite E1, E2, E3, E4. Qed.

#[global] Instance same_index_equiv : Equivalence same_index.
Proof. split; [done | firstorder | intros ? ? ? ; unfold same_index; intuition congruence]. Qed.

Definition revision_ok (v : RuntimeSession) : Prop := 0 <= rs_Revision v < 2 ^ 64.

Lemma inc64_range x : 0 <= inc64 x < 2 ^ 64.
Proof. apply u64_range. Qed.
#[export] Hint Resolve inc64_range : ngfw.

Lemma inv_put s id v0 v :
  store_inv s -> byID s !! id = Some v0 -> same_index v v0 -> revision_ok v ->
  store_inv (s <| byID ::= insert id v |>).
Proof.
  intros [] Hid Hsame Hrev.
  assert (Hlive : forall i, live s i -> live (s <| byID ::= insert id v |>) i).
  { intros i Hi. unfold live, field_upd; simpl. rewrite lookup_insert_is_Some'. by right. }
  constructor; unfold field_upd; simpl; try done.
  - intros i w. rewrite lookup_insert. case_decide; [|auto]. intros [= <-]. subst i.
    destruct (inv_self0 _ _ Hid). destruct Hsame as [-> _]. done.
  - rewrite fmap_insert, inv_alias0, insert_id; [done|].
    by rewrite lookup_fmap, Hid, (same_index_aliases _ _ _ Hsame).
  - by eapply owner_inv_weaken.
  - by eapply owner_inv_weaken.
  - intros i Hi. apply Hlive; auto.
  - by rewrite (map_size_insert_Some _ _ _) by eauto.
  - unfold activeCount; simpl. by rewrite (map_size_insert_Some _ _ _) by eauto.
  - by apply map_Forall_insert_2.
Qed.

(** Components the invariant does not read, or reads monotonically. *)
Lemma inv_set_revision s f : store_inv s -> store_inv (s <| revision ::= f |>).
Proof. by intros []. Qed.

Lemma inv_set_stats s st : store_inv s -> stat_Active st = activeCount s -> store_inv (s <| stats := st |>).
Proof. by intros [] ?. Qed.

Lemma inv_forget_retry s id : store_inv s -> store_inv (s <| expiryRetryAfter ::= delete id |>).
Proof.
  intros []. constructor; try done. intros i [t Ht]. unfold field_upd in Ht; simpl in Ht.
  apply lookup_delete_Some in Ht as [_ Ht]. eauto.
Qed.

Lemma inv_add_retry s id t : store_inv s -> live s id -> store_inv (s <| expiryRetryAfter ::= insert id t |>).
Proof.
  intros [] Hid. constructor; try done. intros i. unfold field_upd; simpl.
  rewrite lookup_insert_is_Some'. intros [<-|Hi]; [exact Hid | exact (inv_retry0 _ Hi)].
Qed.

Lemma inv_remember s id i : store_inv s -> live s id -> store_inv (rememberIdentityLocked s id i).
Proof.
  intros Hs Hid. pose proof Hs as [].
  destruct (remember_spec (live s) s id i) as (m1 & l1 & m2 & l2 & -> & H1 & H2); [naive_solver..|].
  by constructor.
Qed.

Lemma inv_update_session s id v0 v :
  store_inv s -> byID s !! id = Some v0 -> same_index v v0 -> revision_ok v -> store_inv (update_session s id v).
Proof. intros. apply inv_set_revision. by eapply inv_put. Qed.

#[export] Hint Resolve inv_set_revision inv_set_stats inv_forget_retry inv_add_retry inv_remember inv_update_session : ngfw.

(** Solves [same_index v w] and [revision_ok v] for explicit field updates. *)
Ltac same_session := first [ done | unfold revision_ok; simpl; auto with ngfw | repeat case_if; done ].

Lemma decide_session_index v g a p r : same_index (decide_session v g a p r) v /\ revision_ok (decide_session v g a p r).
Proof. unfold decide_session. split; [repeat case_if; done|]. unfold revision_ok; simpl; apply inc64_range. Qed.

Lemma inspect_session_index v n r : same_index (inspect_session v n r) v /\ revision_ok (inspect_session v n r).
Proof. unfold inspect_session. split; [repeat case_if; done|]. unfold revision_ok; simpl; apply inc64_range. Qed.

Lemma invalidate_session_index v g r n : same_index (invalidate_session v g r n) v /\ revision_ok (invalidate_session v g r n).
Proof. unfold invalidate_session. split; [repeat case_if; done|]. unfold revision_ok; simpl; apply inc64_range. Qed.

Lemma inv_count_invalidated s : store_inv s -> store_inv (count_invalidated s).
Proof. by intros []. Qed.
#[export] Hint Resolve inv_count_invalidated : ngfw.

(** An operation that replaces one live session by an index-equivalent one. *)
Ltac update_op :=
  match goal with
  | |- context [byID ?s !! ?id] => let v := fresh "v" in destruct (byID s !! id) as [v|] eqn:?; [|done]
  end.

Lemma inv_Invalidate s id g r n : store_inv s -> store_inv (Invalidate s id g r n).1.
Proof.
  intros Hs. unfold Invalidate. update_op. simpl. destruct (invalidate_session_index v g r n).
  eauto with ngfw.
Qed.

Lemma inv_MarkEvaluationUnavailable s id g r : store_inv s -> store_inv (MarkEvaluationUnavailable s id g r).1.
Proof.
  intros Hs. unfold MarkEvaluationUnavailable. update_op. case_if; [done|]. simpl.
  eapply inv_update_session; eauto; same_session.
Qed.

Lemma inv_setDecision s id e g a p r : store_inv s -> store_inv (setDecision s id e g a p r).1.
Proof.
  intros Hs. unfold setDecision. update_op. case_if; [done|]. simpl. destruct (decide_session_index v g a p r).
  eauto with ngfw.
Qed.

Lemma inv_MarkRevoked s id g r n : store_inv s -> store_inv (MarkRevoked s id g r n).1.
Proof.
  intros Hs. unfold MarkRevoked. update_op. simpl. apply inv_count_invalidated.
  eapply inv_update_session; eauto; same_session.
Qed.

Lemma inv_SetZones s id a b : store_inv s -> store_inv (SetZones s id a b).1.
Proof.
  intros Hs. unfold SetZones. update_op. case_if; [done|]. simpl.
  eapply inv_update_session; eauto; same_session.
Qed.

Lemma inv_UpdateInspection s id i g r n : store_inv s -> store_inv (UpdateInspection s id i g r n).1.
Proof.
  intros Hs. unfold UpdateInspection, updateInspectionLocked. update_op. repeat case_if; try done. simpl.
  destruct (inspect_session_index v n (r + 1)). eauto with ngfw.
Qed.

Lemma inv_CompleteInspectionIntent s i r : store_inv s -> store_inv (CompleteInspectionIntent s i r).1.
Proof.
  intros Hs. unfold CompleteInspectionIntent, updateInspectionLocked. update_op.
  destruct (rs_Inspection v) as [insp|]; [|done]. case_if; [done|]. simpl.
  destruct (inspect_session_index v (insp <| si_Enforcement := r |>) (si_Revision insp + 1)). eauto with ngfw.
Qed.

(** *** History *)

Lemma trimClosed_spec s : 1 <= MaxClosed (limits s) ->
  exists c t st, trimClosedLocked s = s <| closed := c |> <| tombstones := t |> <| stats := st |> /\
    stat_Active st = stat_Active (stats s) /\
    Z.of_nat (length c) <= MaxClosed (limits s) /\ Z.of_nat (length t) <= MaxClosed (limits s) /\
    c = drop (length (closed s) - Z.to_nat (MaxClosed (limits s))) (closed s) /\
    t = drop (length (tombstones s) - Z.to_nat (MaxClosed (limits s))) (tombstones s).
Proof.
  intros Hm. unfold trimClosedLocked.
  assert (Hdrop : forall A (l : list A), (if 0 <? Z.of_nat (length l) - MaxClosed (limits s)
      then drop (Z.to_nat (Z.of_nat (length l) - MaxClosed (limits s))) l else l) =
      drop (length l - Z.to_nat (MaxClosed (limits s))) l).
  { intros A l. case_if; split_bool; [f_equal; lia|].
    replace (length l - Z.to_nat (MaxClosed (limits s)))%nat with 0%nat by lia. done. }
  exists (drop (length (closed s) - Z.to_nat (MaxClosed (limits s))) (closed s)),
    (drop (length (tombstones s) - Z.to_nat (MaxClosed (limits s))) (tombstones s)).
  exists (if 0 <? Z.of_nat (length (closed s)) - MaxClosed (limits s)
    then stats s <| stat_HistoryEvictions ::= fun x => u64 (x + (Z.of_nat (length (closed s)) - MaxClosed (limits s))) |> else stats s).
  split_and!.
  - rewrite <- !Hdrop. destruct s. simpl. repeat (case_if; simpl in *; simplify_eq/=); try done; congruence.
  - case_if; done.
  - rewrite length_drop. lia.
  - rewrite length_drop. lia.
  - done.
  - done.
Qed.

Lemma inv_history s c t st :
  store_inv s -> Z.of_nat (length c) <= MaxClosed (limits s) -> Z.of_nat (length t) <= MaxClosed (limits s) ->
  stat_Active st = stat_Active (stats s) ->
  store_inv (s <| closed := c |> <| tombstones := t |> <| stats := st |>).
Proof. intros [] ? ? Hst. constructor; try done. unfold field_upd; simpl. rewrite Hst. done. Qed.

(** Between the first removal and [count_closed] the active counter lags behind
    the map; [sync] sets it. *)
Definition sync (s : RuntimeStore) : RuntimeStore := s <| stats ::= fun st => st <| stat_Active := activeCount s |> |>.

Lemma inv_sync s : store_inv s -> store_inv (sync s).
Proof. by intros []. Qed.

Lemma sync_count_closed s n : store_inv (sync s) -> store_inv (count_closed n s).
Proof. by intros []. Qed.

(** The closed form of [retire]: what is left of every map. *)
Lemma retire_spec s id value at_ : 1 <= MaxClosed (limits s) ->
  exists c t st, retire s id value at_ =
    mkRuntimeStore (delete id (byID s))
      (foldl (disown id) (byIdentity s) (default [] (identitiesBySession s !! id)))
      (foldl (disown id) (byConntrack s) (default [] (conntracksBySession s !! id)))
      (foldl (unindex_alias id) (byTuple s) (default [] (aliasesBySession s !! id)))
      (delete id (aliasesBySession s)) (delete id (identitiesBySession s)) (delete id (conntracksBySession s))
      c t (delete id (expiryRetryAfter s)) (limits s) (baseHistoryMax s) (baseHistoryTTL s) (revision s) st /\
    Z.of_nat (length c) <= MaxClosed (limits s) /\ Z.of_nat (length t) <= MaxClosed (limits s) /\
    c = drop (S (length (closed s)) - Z.to_nat (MaxClosed (limits s))) (closed s ++ [value]) /\
    t = drop (S (length (tombstones s)) - Z.to_nat (MaxClosed (limits s))) (tombstones s ++ [mkTombstone id (rs_Identity value) at_]).
Proof.
  intros Hm. unfold retire, appendClosedLocked.
  edestruct trimClosed_spec as (c & t & st & -> & _ & Hc & Ht & Ec & Et); [exact Hm|].
  exists c, t, st. split; [done|]. split; [exact Hc|]. split; [exact Ht|].
  unfold field_upd in Ec, Et; simpl in Ec, Et. rewrite length_app, Nat.add_comm in Ec, Et. done.
Qed.

Lemma sync_retire s id value at_ : store_inv (sync s) -> store_inv (sync (retire s id value at_)).
Proof.
  intros Hs. pose proof Hs as [[Hlim Hbase] Hself Halias Htup Hident Hct Hretry Hsize _ _ _ Hrev].
  destruct (retire_spec s id value at_) as (c & t & st & -> & Hc & Ht & _); [apply Hlim|].
  unfold sync, field_upd in *; simpl in *.
  assert (Hlive : forall (s' : RuntimeStore) i, byID s' = delete id (byID s) -> live s i /\ i <> id -> live s' i).
  { intros s' i E [Hi Hne]. unfold live. rewrite E, lookup_delete_is_Some. done. }
  constructor; simpl; try done.
  - intros i v [_ Hi]%lookup_delete_Some. auto.
  - by rewrite fmap_delete, Halias.
  - by apply removeTupleIndexes_inv.
  - eapply owner_inv_weaken; [|apply disown_inv, Hident]. intros i. by apply Hlive.
  - eapply owner_inv_weaken; [|apply disown_inv, Hct]. intros i. by apply Hlive.
  - intros i [Hne Hi]%lookup_delete_is_Some. apply Hlive; [done|]. split; [|done]. exact (Hretry i Hi).
  - rewrite map_size_delete. case_match; [|exact Hsize]. revert Hsize. generalize (size (byID s)). intros n Hn. lia.
  - by apply map_Forall_delete.
Qed.

Lemma inv_closeLocked s id v reason now : store_inv s -> store_inv (closeLocked s id v reason now).1.
Proof. intros Hs. by apply sync_count_closed, sync_retire, inv_sync. Qed.

Lemma inv_Close s i reason now clock : store_inv s -> store_inv (Close s i reason now clock).1.
Proof.
  intros Hs. unfold Close. destruct (close_target s i) as [id|]; [|done].
  destruct (byID s !! id) as [v|].
  - case_if; [|done]. pose proof (inv_closeLocked s id v reason (if IsZero now then clock else now) Hs) as H.
    by destruct (closeLocked _ _ _ _ _).
  - destruct Hs. constructor; try done. by apply owner_inv_delete.
Qed.

Lemma inv_Delete s id reason now clock : store_inv s -> store_inv (Delete s id reason now clock).1.
Proof. intros Hs. unfold Delete. update_op. by apply sync_count_closed, sync_retire, inv_sync. Qed.

Lemma reconcile_one_sync seen before now reason st id :
  store_inv (sync st.1) -> store_inv (sync (reconcile_one seen before now reason st id).1).
Proof.
  intros Hs. destruct st as [s removed]. unfold reconcile_one. destruct (byID s !! id); [|done].
  case_if; [done|]. by apply sync_retire.
Qed.

Lemma reconcile_fold_sync seen before now reason order st :
  store_inv (sync st.1) -> store_inv (sync (foldl (reconcile_one seen before now reason) st order).1).
Proof. revert st. induction order as [|id order IH]; intros st Hs; [done|]. by apply IH, reconcile_one_sync. Qed.

(** The fold only grows the list of removed sessions, and leaves the store alone
    when it removes nothing. *)
Lemma reconcile_fold_nil seen before now reason order s removed :
  (foldl (reconcile_one seen before now reason) (s, removed) order).2 = [] ->
  (foldl (reconcile_one seen before now reason) (s, removed) order).1 = s.
Proof.
  revert s removed. induction order as [|id order IH]; intros s removed; [done|]. simpl.
  destruct (byID s !! id) as [v|]; [|apply IH]. case_if; [apply IH|].
  assert (Hgrow : forall order st, st.2 <> [] -> (foldl (reconcile_one seen before now reason) st order).2 <> []).
  { clear. induction order as [|id order IH]; intros [s l] Hl; [done|]. simpl. apply IH. simpl in *.
    destruct (byID s !! id); [|done]. case_if; [done|]. simpl. by destruct l. }
  intros H. exfalso. revert H. apply Hgrow. simpl. by destruct removed.
Qed.

Lemma inv_ReconcileMissing s order seen before now clock reason :
  store_inv s -> store_inv (ReconcileMissing s order seen before now clock reason).1.
Proof.
  intros Hs. unfold ReconcileMissing. destruct (foldl _ _ _) as [s' removed] eqn:E.
  pose proof (f_equal fst E) as E1. pose proof (f_equal snd E) as E2. simpl in E1, E2 |- *.
  case_bool_decide as Hr.
  - subst removed s'. rewrite reconcile_fold_nil; done.
  - subst s'. apply sync_count_closed, reconcile_fold_sync. by apply inv_sync.
Qed.

Lemma inv_PruneClosed s now : store_inv s -> store_inv (PruneClosed s now).
Proof.
  intros Hs. unfold PruneClosed, pruneClosedLocked. apply inv_history; [done| | |done]; simpl.
  - etrans; [|apply inv_closed, Hs]. apply inj_le, length_filter.
  - etrans; [|apply inv_tombs, Hs]. apply inj_le, length_filter.
Qed.

Lemma inv_SetInspectionHistoryLimits s max ttl clock : store_inv s -> store_inv (SetInspectionHistoryLimits s max ttl clock).
Proof.
  intros []. destruct inv_limits0 as [(H1 & H2 & H3) H4]. unfold SetInspectionHistoryLimits.
  edestruct trimClosed_spec as (c & t & st & -> & Hst & Hc & Ht & _); [simpl; case_if; split_bool; lia|].
  constructor; try done.
  - split; [|done]. split_and!; try done; simpl; [case_if; split_bool; lia | apply H3].
  - exact (eq_trans Hst inv_active0).
Qed.

Lemma expiryCandidate_live s c now v : expiryCandidateLocked s c now = Some v -> byID s !! rs_SessionID c = Some v.
Proof.
  unfold expiryCandidateLocked. destruct (byID s !! rs_SessionID c); [|done]. case_if; [|done]. by intros [= ->].
Qed.

Lemma inv_CloseVerifiedExpired s c now : store_inv s -> store_inv (CloseVerifiedExpired s c now).1.
Proof.
  intros Hs. unfold CloseVerifiedExpired. destruct (expiryCandidateLocked s c now) as [v|]; [|done].
  pose proof (inv_closeLocked s (rs_SessionID c) v "verified conntrack expiry" now Hs) as H.
  by destruct (closeLocked _ _ _ _ _).
Qed.

Lemma inv_DeferExpired s c now reason : store_inv s -> store_inv (DeferExpired s c now reason).1.
Proof.
  intros Hs. unfold DeferExpired. destruct (expiryCandidateLocked s c now) as [v|] eqn:E; [|done].
  apply expiryCandidate_live in E. destruct (inv_self s Hs _ _ E) as [Eid _].
  assert (store_inv (s <| expiryRetryAfter ::= insert (rs_SessionID v) (now + 30 * Second) |>)).
  { apply inv_add_retry; [done|]. rewrite Eid. by exists v. }
  case_if; [|done]. simpl. eapply inv_update_session; eauto; same_session.
Qed.

(** *** Merging and creating *)

Lemma inv_index s v v' s' id :
  store_inv s -> live s id -> rs_SessionID v = id -> id <> "" -> revision_ok v ->
  indexLocked s v = (s', v') -> store_inv (s' <| byID ::= insert id v' |>) /\ same_index v' v /\ revision_ok v'.
Proof.
  intros [] [v0 Hid] Hself Hne Hrev Hidx.
  destruct (index_spec s v s' v') as (m & -> & Ht & q & ->); [naive_solver..|].
  split; [|done]. unfold revision_ok in Hrev. rewrite Hself in *. clear Hidx.
  assert (Hlive : forall (s' : RuntimeStore) i, byID s' = <[id := v <| rs_Quality := q |>]> (byID s) -> live s i -> live s' i).
  { intros s' i E Hi. unfold live. rewrite E, lookup_insert_is_Some'. by right. }
  constructor; unfold field_upd; simpl; try done.
  - intros i w. rewrite lookup_insert. case_decide; [|auto]. intros [= <-]. by subst.
  - by rewrite fmap_insert, inv_alias0.
  - eapply owner_inv_weaken; [|done]. intros i. by apply Hlive.
  - eapply owner_inv_weaken; [|done]. intros i. by apply Hlive.
  - intros i Hi. eapply Hlive; [done|]. exact (inv_retry0 i Hi).
  - by rewrite (map_size_insert_Some _ _ _) by eauto.
  - unfold activeCount; simpl. by rewrite (map_size_insert_Some _ _ _) by eauto.
  - by apply map_Forall_insert_2.
Qed.

Lemma remember_byID s id i f :
  rememberIdentityLocked (s <| byID ::= f |>) id i = rememberIdentityLocked s id i <| byID ::= f |>.
Proof.
  unfold rememberIdentityLocked. unfold aliasLimit.
  change (byIdentity (s <| byID ::= f |>)) with (byIdentity s).
  change (identitiesBySession (s <| byID ::= f |>)) with (identitiesBySession s).
  change (limits (s <| byID ::= f |>)) with (limits s).
  case_bool_decide; [done|]. case_bool_decide; destruct (makeConntrackKey i) as [key|]; try done.
  - change (byConntrack (s <| byID ::= f |>)) with (byConntrack s).
    change (conntracksBySession (s <| byID ::= f |>)) with (conntracksBySession s).
    destruct (byConntrack s !! key); [case_bool_decide; [|done]|]; by destruct (remember_key _ _ _ _ _).
  - destruct (remember_key _ _ _ _ _) as [m l]. simpl.
    destruct (byConntrack s !! key); [case_bool_decide; [|done]|]; by destruct (remember_key _ _ _ _ _).
  - by destruct (remember_key _ _ _ _ _).
Qed.

(** What revocation and guards depend on. *)
Definition same_enforcement (v w : RuntimeSession) : Prop :=
  rs_Revoked v = rs_Revoked w /\ rs_Inspection v = rs_Inspection w /\ rs_EffectiveDecision v = rs_EffectiveDecision w.

(** [keeps v w]: [v] comes from [w] by updates that do not touch what the indexes
    and the enforcement depend on, nor the revision. *)
Definition keeps (v w : RuntimeSession) : Prop :=
  same_index v w /\ rs_Revision v = rs_Revision w /\ same_enforcement v w.

#[global] Instance keeps_preorder : PreOrder keeps.
Proof.
  split; [done|]. intros u v w (H1 & H2 & H3 & H4 & H5) (H6 & H7 & H8 & H9 & H10).
  split; [by rewrite H1, H6|]. unfold same_enforcement. intuition congruence.
Qed.

Ltac keeps_tac := intros; simpl; repeat (case_if; simpl in * ); done.

Lemma keeps_kernelStart r v c : keeps (merge_kernelStart r (v, c)).1 v.
Proof. keeps_tac. Qed.
Lemma keeps_conntrackID r v c : keeps (merge_conntrackID r (v, c)).1 v.
Proof. keeps_tac. Qed.
Lemma keeps_counters_original r now v c : keeps (merge_counters_original r now (v, c)).1 v.
Proof. keeps_tac. Qed.
Lemma keeps_counters_reply r now v c : keeps (merge_counters_reply r now (v, c)).1 v.
Proof. keeps_tac. Qed.
Lemma keeps_timeout r now v : keeps (merge_timeout r now (merge_counters_missing v)) v.
Proof. unfold merge_timeout, merge_counters_missing. keeps_tac. Qed.
Lemma keeps_state r now v c : keeps (merge_state r now (v, c)).1 v.
Proof. keeps_tac. Qed.
Lemma keeps_mark r v c : keeps (merge_mark r (v, c)).1 v.
Proof. keeps_tac. Qed.
Lemma keeps_quality old v c : keeps (merge_quality old (v, c)).1 v.
Proof. keeps_tac. Qed.

Lemma keeps_rest r now old v c : keeps (merge_rest r now old (v, c)).1 v.
Proof.
  unfold merge_rest. pose proof (keeps_counters_original r now v c) as H1.
  destruct (merge_counters_original r now (v, c)) as [v1 c1].
  pose proof (keeps_counters_reply r now v1 c1) as H2.
  destruct (merge_counters_reply r now (v1, c1)) as [v2 c2].
  pose proof (keeps_timeout r now v2) as H3.
  pose proof (keeps_state r now (merge_timeout r now (merge_counters_missing v2)) c2) as H4.
  destruct (merge_state _ _ _) as [v3 c3].
  pose proof (keeps_mark r (v3 <| rs_LastObservedAt := now |>) c3) as H5.
  destruct (merge_mark _ _) as [v4 c4].
  etrans; [apply keeps_quality|]. etrans; [exact H5|]. etrans; [exact H4|].
  etrans; [exact H3|]. by etrans; [exact H2|].
Qed.

(** The reply block: whichever index-equivalent session is stored afterwards, the
    indexes are the ones it needs. *)
Lemma merge_reply_inv s r v c s' v' c' id v0 :
  merge_reply s r (v, c) = (s', (v', c')) ->
  store_inv s -> byID s !! id = Some v0 -> keeps v v0 ->
  rs_SessionID v' = id /\ revision_ok v' /\
  (forall w, same_index w v' -> revision_ok w -> store_inv (s' <| byID ::= insert id w |>)).
Proof.
  intros Hm Hs Hid (Hsame & Hrev & _). destruct (inv_self s Hs _ _ Hid) as [Eid Hne].
  assert (Hr0 : revision_ok v) by (unfold revision_ok; rewrite Hrev; exact (inv_revision s Hs _ _ Hid)).
  assert (Ev : rs_SessionID v = id) by (destruct Hsame; congruence).
  assert (Hkeep : forall w, same_index w v -> revision_ok w -> store_inv (s <| byID ::= insert id w |>)).
  { intros w Hw Hrw. eapply inv_put; eauto. by rewrite Hw. }
  unfold merge_reply in Hm. destruct (pr_ReplyTuple (cr_Presence r)); [|simplify_eq; exact (conj Ev (conj Hr0 Hkeep))].
  destruct (cr_ReplyTuple r) as [t|]; [|simplify_eq; exact (conj Ev (conj Hr0 Hkeep))].
  case_bool_decide; simpl in Hm; [simplify_eq; exact (conj Ev (conj Hr0 Hkeep))|].
  unfold reindexLocked in Hm. destruct (indexLocked s (set_reply t v)) as [s1 v1] eqn:Ei. injection Hm as <- <- <-.
  destruct (inv_index s (set_reply t v) v1 s1 id Hs (ex_intro _ v0 Hid) Ev Hne Hr0 Ei) as (Hi & Hs1 & Hr1).
  split; [destruct Hs1 as [E1 _]; exact (eq_trans E1 Ev)|]. split; [done|]. intros w Hw Hrw.
  assert (Heq : (s1 <| byID ::= insert id v1 |>) <| byID ::= insert id w |> = s1 <| byID ::= insert id w |>).
  { unfold field_upd; simpl. by rewrite insert_insert_eq. }
  change (store_inv ((s1 <| byID ::= insert id w |>) <| revision ::= inc64 |>)).
  apply inv_set_revision. rewrite <- Heq.
  eapply (inv_put _ id v1 w Hi); [apply lookup_insert_eq | exact Hw | done].
Qed.

Lemma inv_mergeLocked s id existing r now :
  store_inv s -> byID s !! id = Some existing -> store_inv (mergeLocked s id existing r now).1.
Proof.
  intros Hs Hid. unfold mergeLocked.
  pose proof (keeps_kernelStart r existing false) as H1.
  destruct (merge_kernelStart r (existing, false)) as [v1 c1].
  pose proof (keeps_conntrackID r v1 c1) as H2. destruct (merge_conntrackID r (v1, c1)) as [v2 c2].
  destruct (merge_reply s r (v2, c2)) as [s3 [v3 c3]] eqn:E3.
  destruct (merge_reply_inv _ _ _ _ _ _ _ id existing E3 Hs Hid) as (Hself & Hrev & Hput); [by etrans|].
  pose proof (keeps_rest r now (rs_Quality existing) v3 c3) as H4.
  destruct (merge_rest r now (rs_Quality existing) (v3, c3)) as [v4 c4]. destruct H4 as (Hs4 & Hr4 & _).
  simpl in Hs4, Hr4.
  assert (Hr4' : revision_ok v4) by (unfold revision_ok; rewrite Hr4; exact Hrev).
  assert (Hself4 : rs_SessionID v4 = id) by (destruct Hs4; congruence).
  set (w := if c4 then v4 <| rs_Revision ::= inc64 |> else v4).
  assert (Hw : store_inv (s3 <| byID ::= insert id w |>)).
  { apply Hput; destruct c4; [exact Hs4 | exact Hs4 | unfold revision_ok; simpl; auto with ngfw | done]. }
  apply (inv_forget_retry _ (rs_SessionID v4)) in Hw. apply (inv_remember _ (rs_SessionID v4) (cr_Identity r)) in Hw.
  - change ((s3 <| byID ::= insert id w |>) <| expiryRetryAfter ::= delete (rs_SessionID v4) |>)
      with ((s3 <| expiryRetryAfter ::= delete (rs_SessionID v4) |>) <| byID ::= insert id w |>) in Hw.
    rewrite remember_byID in Hw. destruct c4; [|exact Hw]. exact (inv_set_revision _ inc64 Hw).
  - unfold live, field_upd; simpl. rewrite Hself4, lookup_insert_eq. by eexists.
Qed.

Lemma newSession_spec id record identity now :
  rs_SessionID (newSession id record identity now) = id /\ rs_Identity (newSession id record identity now) = identity /\
  rs_OriginalTuple (newSession id record identity now) = cr_OriginalTuple record /\
  rs_Revision (newSession id record identity now) = 1.
Proof. unfold newSession. by destruct (counterPresence _). Qed.

Lemma inv_createLocked s record identity now cc : store_inv s -> store_inv (createLocked s record identity now cc).1.
Proof.
  intros [Hlim Hself Halias Htup Hident Hct Hretry Hsize Hc Ht Hact Hrev]. unfold createLocked.
  case_if; [by constructor|]. set (id := if bool_decide _ then _ else _).
  assert (Hne : id <> "") by (unfold id; by case_if). clearbody id. split_bool. simpl.
  set (P := fun i => live s i \/ i = id).
  destruct (remember_spec P s id identity) as (m1 & l1 & m2 & l2 & -> & H1 & H2);
    [naive_solver | by right | (eapply owner_inv_weaken; [|done]; by left).. |].
  destruct (indexLocked _ _) as [s' v'] eqn:E.
  apply index_spec in E as (m & -> & Ht' & q & ->); [|naive_solver|done].
  assert (HP : forall (s' : RuntimeStore) w i, byID s' = <[id := w]> (byID s) -> P i -> live s' i).
  { intros s' w i E Hi. unfold live. rewrite E, lookup_insert_is_Some'. destruct Hi as [? | ->]; auto. }
  destruct (newSession_spec id record identity now) as (Eid & _ & _ & Er). rewrite Eid in *.
  set (w := newSession id record identity now <| rs_Quality := q |>).
  assert (Hgoal : forall st, stat_Active st = u64 (Z.of_nat (size (<[id := w]> (byID s)))) ->
    store_inv (mkRuntimeStore (<[id := w]> (byID s)) m1 m2 m
      (<[id := session_aliases (MaxAliases (limits s)) w]> (aliasesBySession s)) l1 l2 (closed s) (tombstones s)
      (expiryRetryAfter s) (limits s) (baseHistoryMax s) (baseHistoryTTL s) (inc64 (revision s)) st));
    [|apply Hgoal; done].
  intros st Hst. constructor; simpl; try done.
  - intros i x. rewrite lookup_insert. case_decide; [|apply Hself]. intros [= <-]. subst i. split; [exact Eid | done].
  - by rewrite fmap_insert, Halias.
  - eapply owner_inv_weaken; [|exact H1]. intros i. by apply (HP _ w i).
  - eapply owner_inv_weaken; [|exact H2]. intros i. by apply (HP _ w i).
  - intros i Hi. apply (HP _ w i); [done|]. left. exact (Hretry i Hi).
  - rewrite map_size_insert. revert Hsize Heqb. generalize (size (byID s)). intros n Hn Hlt. case_match; unfold Datatypes.id; lia.
  - apply map_Forall_insert_2; [|done]. change (rs_Revision w) with (rs_Revision (newSession id record identity now)). lia.
Qed.

Lemma inv_absorb s id existing record now :
  store_inv s -> byID s !! id = Some existing -> store_inv (absorb s id existing record now).1.
Proof.
  intros Hs Hid. unfold absorb.
  assert (Hr : store_inv (rememberIdentityLocked s id (cr_Identity record))) by (apply inv_remember; [done | by eexists]).
  assert (E : byID (rememberIdentityLocked s id (cr_Identity record)) = byID s).
  { destruct (remember_spec (live s) s id (cr_Identity record)) as (? & ? & ? & ? & -> & _);
      [apply Hs | by eexists | apply Hs.. | done]. }
  pose proof (inv_mergeLocked _ id existing record now Hr) as H. rewrite E in H. specialize (H Hid).
  by destruct (mergeLocked _ _ _ _ _) as [s' [v c]].
Qed.

Lemma inv_ApplyObserved s record now clock cc : store_inv s -> store_inv (ApplyObserved s record now clock cc).1.
Proof.
  intros Hs. unfold ApplyObserved. case_if; [done|].
  destruct (resolveIdentityLocked s _ ≫= _) as [[id existing]|] eqn:E.
  - apply inv_absorb; [done|]. apply bind_Some in E as (i & _ & E). apply fmap_Some in E as (v & E & Eq). by injection Eq as -> ->.
  - case_if; [done|]. destruct (resolveTupleLocked s _) as [| |id]; try by apply inv_createLocked.
    destruct (byID s !! id) eqn:Eid; [case_if|]; by auto using inv_absorb, inv_createLocked.
Qed.
