(* ===== verification/StoreProps.v ===== *)
(** * What the session store promises

    [store_step] is one method call of [RuntimeStore]; a store is [reachable]
    when a sequence of calls leads to it from [NewRuntimeStore].  The theorems
    are stated of reachable stores, or of stores with the index invariant of
    [StoreInv]. *)

From S2P Require Import Prelude GoStr Sha256 Netip Domain Flow SessionStore StoreInv.

(** ** Steps *)

(** [unavailable] marks the one method that resets a decision without looking at
    revocations and guards; see [MarkEvaluationUnavailable_clears_revocation]. *)
Inductive store_step : bool -> RuntimeStore -> RuntimeStore -> Prop :=
| step_ApplyObserved s record now clock cc :
    store_step false s (ApplyObserved s record now clock cc).1
| step_Close s i reason now clock : store_step false s (Close s i reason now clock).1
| step_Delete s id reason now clock : store_step false s (Delete s id reason now clock).1
| step_ReconcileMissing s order seen before now clock reason :
    order ≡ₚ (map_to_list (byID s)).*1 ->
    store_step false s (ReconcileMissing s order seen before now clock reason).1
| step_PruneClosed s now : store_step false s (PruneClosed s now)
| step_SetInspectionHistoryLimits s max ttl clock : store_step false s (SetInspectionHistoryLimits s max ttl clock)
| step_Invalidate s id g reason now : store_step false s (Invalidate s id g reason now).1
| step_setDecision s id e g a p r : store_step false s (setDecision s id e g a p r).1
| step_MarkRevoked s id g r clock : store_step false s (MarkRevoked s id g r clock).1
| step_SetZones s id src dst : store_step false s (SetZones s id src dst).1
| step_UpdateInspection s id i g r next : store_step false s (UpdateInspection s id i g r next).1
| step_CompleteInspectionIntent s i r : store_step false s (CompleteInspectionIntent s i r).1
| step_CloseVerifiedExpired s c now : store_step false s (CloseVerifiedExpired s c now).1
| step_DeferExpired s c now reason : store_step false s (DeferExpired s c now reason).1
| step_MarkEvaluationUnavailable s id g r : store_step true s (MarkEvaluationUnavailable s id g r).1.

Inductive reachable (l : RuntimeLimits) : RuntimeStore -> Prop :=
| reachable_new : reachable l (NewRuntimeStore l)
| reachable_step b s s' : reachable l s -> store_step b s s' -> reachable l s'.

#[export] Hint Resolve inv_ApplyObserved inv_Close inv_Delete inv_ReconcileMissing inv_PruneClosed
  inv_SetInspectionHistoryLimits inv_Invalidate inv_setDecision inv_MarkRevoked inv_SetZones inv_UpdateInspection
  inv_CompleteInspectionIntent inv_CloseVerifiedExpired inv_DeferExpired inv_MarkEvaluationUnavailable : ngfw.

Lemma step_inv b s s' : store_step b s s' -> store_inv s -> store_inv s'.
Proof. intros [] ?; auto with ngfw. Qed.

(** ** A concrete history for the witnesses *)

Definition ex_tuple : Tuple := mkTuple FamilyIPv4 (Addr4 167772161) 4321 (Addr4 134744072) 443 6 0 0 0.
Definition ex_reply : Tuple := mkTuple FamilyIPv4 (Addr4 134744072) 443 (Addr4 3405803777) 4321 6 0 0 0.
Definition ex_identity : ConntrackIdentity := mkConntrackIdentity "boot" "ns" 0 2 77 1000 ex_tuple.
Definition ex_presence : Presence := mkPresence true true true true true true true true true true true.
Definition ex_record : ConntrackRecord :=
  mkConntrackRecord ex_identity ex_tuple (Some ex_reply) 10 1000 8 800 (60 * Second) 1000 0 "ESTABLISHED" true 5 ex_presence 2000 "".
Definition ex_limits : RuntimeLimits := mkRuntimeLimits 4 8 3 Minute 4 16.
Definition ex_store0 : RuntimeStore := NewRuntimeStore ex_limits.
Definition ex_store1 : RuntimeStore := (ApplyObserved ex_store0 ex_record 2000 0 0).1.
Definition ex_id : string := sessionID ex_identity.

Lemma ex_store0_reachable : reachable ex_limits ex_store0.
Proof. constructor. Qed.

Lemma ex_store1_reachable : reachable ex_limits ex_store1.
Proof. eapply reachable_step; [constructor|]. apply step_ApplyObserved. Qed.

Lemma ex_store1_inv : store_inv ex_store1.
Proof. apply inv_ApplyObserved, NewRuntimeStore_inv. Qed.

(** C12. In every store a sequence of method calls can lead to, the indexes agree with
    the sessions: each session is stored under its own identifier and indexed under exactly
    its aliases, no alias keeps an empty set, identity and conntrack keys point to live
    sessions that list them, retry deadlines belong to live sessions, the active counter is
    the number of sessions, and sessions, history and tombstones stay within their limits. *)
Theorem reachable_store_inv l s : reachable l s -> store_inv s.
Proof. induction 1; [apply NewRuntimeStore_inv | by eapply step_inv]. Qed.

Lemma reachable_store_inv_witness : reachable ex_limits ex_store1 /\ store_inv ex_store1.
Proof. split; [|apply (reachable_store_inv ex_limits)]; apply ex_store1_reachable. Defined.

(** ** Finding sessions *)

(** The specification of a tuple lookup: the live sessions one of whose aliases is
    the key. *)
Definition owners (s : RuntimeStore) (k : Key) : gmap string RuntimeSession :=
  filter (fun p => k ∈ session_aliases (MaxAliases (limits s)) p.2) (byID s).

Definition spec_Resolve (s : RuntimeStore) (k : Key) : result StoreError RuntimeSession :=
  match (map_to_list (owners s k)).*2 with
  | [] => Err ErrSessionMissing
  | [v] => Ok v
  | _ => Err ErrAliasAmbiguous
  end.

Lemma byTuple_owners s k : store_inv s -> default ∅ (byTuple s !! k) = dom (owners s k).
Proof.
  intros Hs. apply set_eq. intros id. destruct (inv_tuple s Hs) as [_ ->].
  rewrite elem_of_dom, (inv_alias s Hs), lookup_fmap. unfold owners. split.
  - destruct (byID s !! id) as [v|] eqn:E; simpl; [|set_solver]. intros Hk. exists v. by apply map_lookup_filter_Some.
  - intros [v [E Hk]%map_lookup_filter_Some]. by rewrite E.
Qed.

(** The three outcomes of [resolveTupleLocked]. *)
Lemma resolveTuple_spec s k : store_inv s ->
  match (map_to_list (owners s k)) with
  | [] => resolveTupleLocked s k = TupleMissing
  | [(id, v)] => resolveTupleLocked s k = TupleOk id /\ byID s !! id = Some v
  | _ => resolveTupleLocked s k = TupleAmbiguous
  end.
Proof.
  intros Hs. pose proof (byTuple_owners s k Hs) as Hd.
  pose proof (inv_limits s Hs) as [(_ & _ & _ & Hamb) _].
  assert (Hsize : size (default ∅ (byTuple s !! k)) = length (map_to_list (owners s k))).
  { by rewrite Hd, size_dom, length_map_to_list. }
  unfold resolveTupleLocked.
  destruct (map_to_list (owners s k)) as [|[id v] [|p rest]] eqn:E; simpl in Hsize.
  - destruct (byTuple s !! k) as [ids|]; [|done]. simpl in Hsize. by rewrite bool_decide_true.
  - destruct (byTuple s !! k) as [ids|]; simpl in Hsize, Hd; [|by vm_compute in Hsize].
    rewrite Hsize. rewrite bool_decide_false, bool_decide_true by done.
    rewrite (proj2 (Z.ltb_ge _ _)) by lia. simpl.
    assert (Eo : owners s k = {[id := v]}).
    { apply (map_to_list_inj (M:=gmap string)). by rewrite E, map_to_list_singleton. }
    rewrite Hd, Eo, dom_singleton_L, elements_singleton. split; [done|].
    apply (map_lookup_filter_Some (λ p, k ∈ session_aliases (MaxAliases (limits s)) p.2) (byID s)). 
    fold (owners s k). rewrite Eo. apply lookup_singleton_eq.
  - destruct (byTuple s !! k) as [ids|]; simpl in Hsize; [|by vm_compute in Hsize].
    rewrite bool_decide_false by lia. case_if; [done|]. by rewrite bool_decide_false by lia.
Qed.

(** Looking up a key refines the specification over all live sessions: missing when
    none has the key among its aliases, the session when exactly one has it, ambiguous
    otherwise; the index neither hides a session nor invents one. *)
Theorem Resolve_refines s k : store_inv s -> Resolve s k = spec_Resolve s k.
Proof.
  intros Hs. pose proof (resolveTuple_spec s k Hs) as H. unfold Resolve, spec_Resolve.
  destruct (map_to_list (owners s k)) as [|[id v] [|p rest]]; simpl.
  - by rewrite H.
  - destruct H as [-> ->]. done.
  - by rewrite H.
Qed.

Lemma Resolve_refines_witness :
  store_inv ex_store1 /\ Resolve ex_store1 (mkKey (mkScope "ns" 0) ex_tuple) = spec_Resolve ex_store1 (mkKey (mkScope "ns" 0) ex_tuple).
Proof. split; [exact ex_store1_inv | apply (Resolve_refines ex_store1), ex_store1_inv]. Defined.

(** *** Creation *)

(** What [createLocked] does to the maps the lookups read. *)
Lemma createLocked_spec s record identity now cc s' v created changed :
  store_inv s -> createLocked s record identity now cc = (s', Ok (v, created, changed)) ->
  created = true /\ changed = true /\ rs_Identity v = identity /\ rs_OriginalTuple v = cr_OriginalTuple record /\
  byID s' = <[rs_SessionID v := v]> (byID s) /\ byIdentity s' !! identity = Some (rs_SessionID v) /\ limits s' = limits s.
Proof.
  intros Hs. unfold createLocked. case_if; [done|]. set (id := if bool_decide _ then _ else _).
  assert (Hne : id <> "") by (unfold id; by case_if). clearbody id. simpl.
  set (P := fun i => live s i \/ i = id).
  assert (Hown : byIdentity (rememberIdentityLocked s id identity) !! identity = Some id).
  { unfold rememberIdentityLocked. rewrite bool_decide_false by done.
    match goal with
    | |- context [if bool_decide (byIdentity s !! identity = Some id) then ?x else ?y] =>
        assert (H1 : byIdentity (if bool_decide (byIdentity s !! identity = Some id) then x else y) !! identity = Some id);
        [|revert H1; generalize (if bool_decide (byIdentity s !! identity = Some id) then x else y); intros s1 H1]
    end.
    { case_bool_decide; [done|]. destruct (remember_key _ _ _ _ _) as [m l] eqn:E.
      eapply remember_key_owned; [exact E|]. rewrite aliasLimit_ok; apply (inv_limits s Hs). }
    destruct (makeConntrackKey identity) as [key|]; [|exact H1].
    destruct (byConntrack s1 !! key); [case_bool_decide; [|exact H1]|]; by destruct (remember_key _ id key _ _). }
  destruct (remember_spec P s id identity) as (m1 & l1 & m2 & l2 & E & _ & _);
    [apply (inv_limits s Hs) | by right | (eapply owner_inv_weaken; [|apply Hs]; by left).. |].
  rewrite E in Hown |- *. clear E.
  destruct (indexLocked _ _) as [s2 v2] eqn:E. intros [= <- <- <- <-].
  apply index_spec in E as (m & -> & _ & q & ->); [|apply (inv_limits s Hs) | apply (inv_tuple s Hs)].
  destruct (newSession_spec id record identity now) as (Eid & Ei & Eo & _).
  set (w := newSession id record identity now <| rs_Quality := q |>).
  change (rs_SessionID w) with (rs_SessionID (newSession id record identity now)). rewrite Eid.
  repeat split; [exact Ei | exact Eo | exact Hown].
Qed.

(** Outcomes of [ApplyObserved]. *)
Lemma ApplyObserved_created s record now clock cc s' v changed :
  ApplyObserved s record now clock cc = (s', Ok (v, true, changed)) ->
  Tuple_Valid (cr_OriginalTuple (completeRecord record)) = true /\
  existsb (fun t => tombstoneIdentityMatches (tb_Identity t) (cr_Identity (completeRecord record))) (tombstones s) = false /\
  createLocked s (completeRecord record) (cr_Identity (completeRecord record)) (if IsZero now then clock else now) cc =
    (s', Ok (v, true, changed)).
Proof.
  assert (Habs : forall s id e r n, (absorb s id e r n).2 <> Ok (v, true, changed)).
  { intros. unfold absorb. by destruct (mergeLocked _ _ _ _ _) as [? [? ?]]. }
  unfold ApplyObserved. case_if; [done|]. split_bool.
  destruct (resolveIdentityLocked _ _ ≫= _) as [[id e]|]; [intros E; edestruct Habs; by rewrite E|].
  case_if; [done|]. intros E. split; [done|]. split; [done|].
  destruct (resolveTupleLocked _ _) as [| |id]; [done..|].
  destruct (byID s !! id) as [e|]; [|done]. destruct (sameIncarnation _ _); [edestruct Habs; by rewrite E | done].
Qed.

(** A session that an observation creates is found afterwards: under its
    identifier, under its conntrack identity, and under its original tuple unless another
    live session shares that alias. *)
Theorem ApplyObserved_created_found s record now clock cc s' v changed :
  store_inv s -> ApplyObserved s record now clock cc = (s', Ok (v, true, changed)) ->
  Get s' (rs_SessionID v) = Some v /\
  resolveIdentityLocked s' (rs_Identity v) = Some (rs_SessionID v) /\
  (Resolve s' (mkKey (session_scope v) (rs_OriginalTuple v)) = Ok v \/
   Resolve s' (mkKey (session_scope v) (rs_OriginalTuple v)) = Err ErrAliasAmbiguous).
Proof.
  intros Hs Hap. pose proof (inv_ApplyObserved s record now clock cc Hs) as Hs'. rewrite Hap in Hs'. simpl in Hs'.
  apply ApplyObserved_created in Hap as (Hvalid & _ & Hc).
  destruct (createLocked_spec _ _ _ _ _ _ _ _ _ Hs Hc) as (_ & _ & Ei & Eo & Eb & Eid & _).
  assert (Hget : byID s' !! rs_SessionID v = Some v) by (rewrite Eb; apply lookup_insert_eq).
  destruct (inv_self s' Hs' _ _ Hget) as [_ Hne].
  split; [exact Hget|]. split.
  { unfold resolveIdentityLocked. rewrite Ei, Eid. cbn [nonempty]. by rewrite bool_decide_false. }
  set (k := mkKey _ _). pose proof (resolveTuple_spec s' k Hs') as Hk.
  assert (Hin : owners s' k !! rs_SessionID v = Some v).
  { apply map_lookup_filter_Some. split; [done|]. simpl. unfold session_aliases.
    destruct (Aliases_original_first (session_scope v) (rs_OriginalTuple v) (rs_ReplyTuple v) (rs_TranslatedTuple v)) as [l ->].
    - by rewrite Eo.
    - destruct (inv_limits s' Hs') as [(_ & H1 & _) _].
      destruct (Z.to_nat (MaxAliases (limits s'))) eqn:E; [lia|]. simpl. by left. }
  apply elem_of_map_to_list in Hin. unfold Resolve.
  destruct (map_to_list (owners s' k)) as [|[id w] [|p rest]].
  - by apply not_elem_of_nil in Hin.
  - apply list_elem_of_singleton in Hin as [= <- <-]. destruct Hk as [-> ->]. by left.
  - rewrite Hk. by right.
Qed.

Definition ex_session1 : RuntimeSession := default (newSession "" ex_record ex_identity 0) (byID ex_store1 !! ex_id).

Lemma ex_apply : ApplyObserved ex_store0 ex_record 2000 0 0 = (ex_store1, Ok (ex_session1, true, true)).
Proof.
  refine (eq_trans (surjective_pairing _) (f_equal (pair ex_store1) _)). vm_compute. reflexivity.
Qed.

Lemma ApplyObserved_created_found_witness :
  Get ex_store1 (rs_SessionID ex_session1) = Some ex_session1 /\
  resolveIdentityLocked ex_store1 (rs_Identity ex_session1) = Some (rs_SessionID ex_session1).
Proof.
  destruct (ApplyObserved_created_found ex_store0 ex_record 2000 0 0 ex_store1 ex_session1 true
              (NewRuntimeStore_inv _) ex_apply) as (H1 & H2 & _). exact (conj H1 H2).
Defined.

(** ** Closing sessions *)

(** No index mentions [id]. *)
Definition unreferenced (s : RuntimeStore) (id : string) : Prop :=
  byID s !! id = None /\ (forall k, id ∉ default ∅ (byTuple s !! k)) /\
  (forall i, byIdentity s !! i <> Some id) /\ (forall k, byConntrack s !! k <> Some id) /\
  expiryRetryAfter s !! id = None.

Lemma gone_unreferenced s id : store_inv s -> byID s !! id = None -> unreferenced s id.
Proof.
  intros Hs Hid.
  assert (Hown : forall {K} `{Countable K} (m : gmap K string) lists k,
    owner_inv (live s) (MaxAliases (limits s)) m lists -> m !! k <> Some id).
  { intros K EK CK m lists k [Hm Hl] (l & El & _)%Hm. apply Hl in El as [[v Hv] _]. congruence. }
  split_and!; [done| | | |].
  - intros k Hin. rewrite byTuple_owners, elem_of_dom in Hin by done.
    destruct Hin as [v [Hv _]%map_lookup_filter_Some]. congruence.
  - intros i. eapply Hown, (inv_identity s Hs).
  - intros k. eapply Hown, (inv_conntrack s Hs).
  - apply eq_None_not_Some. intros [v Hv]%(inv_retry s Hs). congruence.
Qed.

(** What a retirement leaves behind. *)
Lemma retire_effect s id value at_ : store_inv s ->
  byID (retire s id value at_) = delete id (byID s) /\
  last (closed (retire s id value at_)) = Some value /\
  last (tombstones (retire s id value at_)) = Some (mkTombstone id (rs_Identity value) at_).
Proof.
  intros Hs. destruct (inv_limits s Hs) as [(_ & _ & H1 & _) _].
  destruct (retire_spec s id value at_) as (c & t & st & -> & _ & _ & -> & ->); [done|].
  cbn [byID closed tombstones]. split; [done|].
  rewrite !drop_app_le by lia. by rewrite !last_snoc.
Qed.

Lemma count_closed_effect n s :
  byID (count_closed n s) = byID s /\ closed (count_closed n s) = closed s /\ tombstones (count_closed n s) = tombstones s.
Proof. done. Qed.

Lemma closeLocked_effect s id v reason now s' v' :
  store_inv s -> byID s !! id = Some v -> closeLocked s id v reason now = (s', v') ->
  rs_SessionID v' = id /\ rs_Identity v' = rs_Identity v /\ rs_State v' = SessionClosed /\ rs_ClosedAt v' = Some now /\
  rs_Revision v' = inc64 (rs_Revision v) /\ byID s' = delete id (byID s) /\
  last (closed s') = Some v' /\ last (tombstones s') = Some (mkTombstone id (rs_Identity v') now).
Proof.
  intros Hs Hid. destruct (inv_self s Hs _ _ Hid) as [Hself _]. unfold closeLocked.
  set (w := if bool_decide (reason = "") then _ else _).
  assert (Hw : rs_SessionID w = id /\ rs_Identity w = rs_Identity v /\ rs_State w = SessionClosed /\
    rs_ClosedAt w = Some now /\ rs_Revision w = inc64 (rs_Revision v)).
  { unfold w. case_if; (split; [exact Hself|]); split_and!; reflexivity. }
  clearbody w. destruct Hw as (H1 & H2 & H3 & H4 & H5). intros E. injection E as <- <-.
  destruct (retire_effect s id w now Hs) as (E1 & E2 & E3).
  destruct (count_closed_effect 1 (retire s id w now)) as (-> & -> & ->). by split_and!.
Qed.

(** When [Close] reports a closed session, that session was live and compatible
    with the identity of the event; exactly it is removed, no index mentions it any more,
    and the newest history entry and the newest tombstone are its own. *)
Theorem Close_effect s identity reason now clock s' v :
  store_inv s -> Close s identity reason now clock = (s', Some v) ->
  exists v0, byID s !! rs_SessionID v = Some v0 /\ close_allowed identity v0 = true /\
    byID s' = delete (rs_SessionID v) (byID s) /\ unreferenced s' (rs_SessionID v) /\
    rs_Identity v = rs_Identity v0 /\ rs_State v = SessionClosed /\ last (closed s') = Some v /\
    exists t, last (tombstones s') = Some (mkTombstone (rs_SessionID v) (rs_Identity v) t).
Proof.
  intros Hs Hc. pose proof (inv_Close s identity reason now clock Hs) as Hs'. rewrite Hc in Hs'. simpl in Hs'.
  unfold Close in Hc. destruct (close_target s identity) as [id|]; [|done].
  destruct (byID s !! id) as [v0|] eqn:Hid; [|done].
  destruct (close_allowed identity v0) eqn:Hall; [|done].
  destruct (closeLocked s id v0 reason _) as [s1 w] eqn:E. injection Hc as -> ->.
  destruct (closeLocked_effect _ _ _ _ _ _ _ Hs Hid E) as (-> & Ei & Est & _ & _ & Eb & Ec & Et).
  exists v0. split_and!; try done; [|by eexists].
  apply gone_unreferenced; [done|]. rewrite Eb. apply lookup_delete_eq.
Qed.

Definition ex_store2 : RuntimeStore := (Close ex_store1 ex_identity "destroy" 3000 0).1.
Definition ex_closed : RuntimeSession := default ex_session1 (last (closed ex_store2)).

Lemma ex_close : Close ex_store1 ex_identity "destroy" 3000 0 = (ex_store2, Some ex_closed).
Proof. refine (eq_trans (surjective_pairing _) (f_equal (pair ex_store2) _)). vm_compute. reflexivity. Qed.

Lemma Close_effect_witness : unreferenced ex_store2 (rs_SessionID ex_closed) /\ last (closed ex_store2) = Some ex_closed.
Proof.
  destruct (Close_effect ex_store1 ex_identity "destroy" 3000 0 ex_store2 ex_closed ex_store1_inv ex_close)
    as (v0 & _ & _ & _ & Hu & _ & _ & Hl & _). exact (conj Hu Hl).
Defined.

(** ** Tombstones *)

Lemma tombstoneIdentityMatches_refl i : tombstoneIdentityMatches i i = true.
Proof.
  unfold tombstoneIdentityMatches.
  repeat match goal with |- context [bool_decide (?x = ?x)] => rewrite (bool_decide_true (x = x)) by done end.
  rewrite !Z.eqb_refl. cbn [negb]. rewrite !andb_false_r. cbn [negb orb]. by rewrite orb_true_r.
Qed.

Lemma remember_byID_eq s id i : byID (rememberIdentityLocked s id i) = byID s.
Proof.
  unfold rememberIdentityLocked. repeat first [done | case_match | case_bool_decide]; by simplify_eq.
Qed.

Lemma merge_reply_byID s r m : byID (merge_reply s r m).1 = byID s.
Proof.
  destruct m as [v c]. unfold merge_reply, reindexLocked, indexLocked.
  destruct (pr_ReplyTuple _); [|done]. destruct (cr_ReplyTuple r); [|done]. by repeat case_if.
Qed.

Lemma mergeLocked_byID s id e r now s' v c :
  mergeLocked s id e r now = (s', (v, c)) -> byID s' = <[id := v]> (byID s).
Proof.
  unfold mergeLocked. set (m := merge_conntrackID _ _). clearbody m.
  pose proof (merge_reply_byID s r m) as E. destruct (merge_reply s r m) as [s1 m1]. simpl in E.
  destruct (merge_rest _ _ _ _) as [w c1]. intros Heq. injection Heq as <- <- <-.
  set (s2 := s1 <| expiryRetryAfter ::= delete (rs_SessionID w) |>).
  pose proof (remember_byID_eq s2 (rs_SessionID w) (cr_Identity r)) as E2. change (byID s2) with (byID s1) in E2.
  rewrite E in E2. rewrite <- E2. by destruct c1.
Qed.

Lemma absorb_byID s id e r now s' v created changed :
  absorb s id e r now = (s', Ok (v, created, changed)) -> byID s' = <[id := v]> (byID s).
Proof.
  unfold absorb. destruct (mergeLocked _ _ _ _ _) as [s1 [w c]] eqn:E. intros Heq. injection Heq as <- <- <- <-.
  rewrite (mergeLocked_byID _ _ _ _ _ _ _ _ E). by rewrite remember_byID_eq.
Qed.

Lemma absorb_dom s id e r now : byID s !! id = Some e -> dom (byID (absorb s id e r now).1) = dom (byID s).
Proof.
  intros Hid. destruct (absorb s id e r now) as [s' res] eqn:E.
  assert (exists v created changed, res = Ok (v, created, changed)) as (v & b & c & ->).
  { unfold absorb in E. destruct (mergeLocked _ _ _ _ _) as [s1 [w c]]. injection E as <- <-. by do 3 eexists. }
  simpl. rewrite (absorb_byID _ _ _ _ _ _ _ _ _ E). apply dom_insert_lookup_L. by eexists.
Qed.

(** A kernel event whose identity a tombstone still covers never brings a session
    back: the set of live sessions is unchanged, and unless another live session absorbs the
    event it is refused as stale. *)
Theorem tombstone_fences_apply s record now clock cc :
  (exists t, t ∈ tombstones s /\ tombstoneIdentityMatches (tb_Identity t) (cr_Identity (completeRecord record)) = true) ->
  dom (byID (ApplyObserved s record now clock cc).1) = dom (byID s) /\
  (Tuple_Valid (cr_OriginalTuple (completeRecord record)) = true ->
   resolveIdentityLocked s (cr_Identity (completeRecord record)) = None ->
   ApplyObserved s record now clock cc = (s, Err ErrStaleEvent)).
Proof.
  intros (t & Ht & Hm). unfold ApplyObserved.
  assert (Hex : existsb (fun t => tombstoneIdentityMatches (tb_Identity t) (cr_Identity (completeRecord record))) (tombstones s) = true).
  { apply existsb_elem_of. by exists t. }
  split.
  - case_if; [done|]. destruct (resolveIdentityLocked s _ ≫= _) as [[id e]|] eqn:E; [|by rewrite Hex].
    apply absorb_dom. apply bind_Some in E as (i & _ & E). apply fmap_Some in E as (w & E & Eq).
    by injection Eq as -> ->.
  - intros Hv Hr. rewrite Hv, Hr, Hex. done.
Qed.

Lemma tombstone_fences_apply_witness : ApplyObserved ex_store2 ex_record 4000 0 0 = (ex_store2, Err ErrStaleEvent).
Proof.
  refine (proj2 (tombstone_fences_apply ex_store2 ex_record 4000 0 0 _) _ _).
  - exists (mkTombstone ex_id ex_identity 3000). split; [|vm_compute; reflexivity].
    apply (list_elem_of_lookup_2 _ 0). vm_compute. reflexivity.
  - vm_compute. reflexivity.
  - vm_compute. reflexivity.
Defined.

(** ** Decisions *)

(** The method calls that write to a live session; each moves its revision. *)
Inductive session_write (id : string) : RuntimeStore -> RuntimeStore -> Prop :=
| write_Invalidate s g reason now v s' : Invalidate s id g reason now = (s', Ok v) -> session_write id s s'
| write_MarkRevoked s g reason clock v s' : MarkRevoked s id g reason clock = (s', Ok v) -> session_write id s s'
| write_setDecision s e g a p r v s' : setDecision s id e g a p r = (s', Ok v) -> session_write id s s'
| write_UpdateInspection s i g r next v s' : UpdateInspection s id i g r next = (s', Ok v) -> session_write id s s'
| write_CompleteInspectionIntent s intent res v s' :
    ii_SessionID intent = id -> CompleteInspectionIntent s intent res = (s', Ok v) -> session_write id s s'
| write_merge s e record now v s' :
    byID s !! id = Some e -> mergeLocked s id e record now = (s', (v, true)) -> session_write id s s'.

(** [writes id n s s']: [n] writes to the session, and any writes to other sessions. *)
Inductive writes (id : string) : nat -> RuntimeStore -> RuntimeStore -> Prop :=
| writes_refl s : writes id 0 s s
| writes_this n s s1 s2 : writes id n s s1 -> session_write id s1 s2 -> writes id (S n) s s2
| writes_other n s s1 s2 id' : id' <> id -> writes id n s s1 -> session_write id' s1 s2 -> writes id n s s2.

(** One write replaces one session and moves its revision by one. *)
Lemma merge_revision s id e record now s' v :
  mergeLocked s id e record now = (s', (v, true)) -> rs_Revision v = inc64 (rs_Revision e).
Proof.
  unfold mergeLocked. pose proof (keeps_kernelStart record e false) as (_ & H1 & _).
  destruct (merge_kernelStart _ _) as [v1 c1]. pose proof (keeps_conntrackID record v1 c1) as (_ & H2 & _).
  destruct (merge_conntrackID _ _) as [v2 c2]. cbn [fst] in *.
  assert (H3 : rs_Revision (merge_reply s record (v2, c2)).2.1 = rs_Revision v2).
  { unfold merge_reply, reindexLocked, indexLocked. destruct (pr_ReplyTuple _); [|done].
    destruct (cr_ReplyTuple record); [|done]. by repeat case_if. }
  destruct (merge_reply _ _ _) as [s3 [v3 c3]]. pose proof (keeps_rest record now (rs_Quality e) v3 c3) as (_ & H4 & _).
  destruct (merge_rest _ _ _ _) as [v4 c4]. cbn [fst snd] in *. intros Heq. injection Heq as _ <- ->.
  simpl. congruence.
Qed.

Ltac written w :=
  exists w; eexists; split; [done|]; split; [reflexivity|];
  unfold invalidate_session, decide_session, inspect_session; repeat case_if; reflexivity.

Lemma session_write_spec id s s' : session_write id s s' ->
  exists v v', byID s !! id = Some v /\ byID s' = <[id := v']> (byID s) /\ rs_Revision v' = inc64 (rs_Revision v).
Proof.
  intros [s0 g reason now v s1 E | s0 g reason clock v s1 E | s0 e g a p r v s1 E | s0 i g r next v s1 E
         | s0 intent res v s1 <- E | s0 e record now v s1 Hid E].
  - unfold Invalidate in E. destruct (byID s0 !! id) as [w|]; [|done]. injection E as <- <-. written w.
  - unfold MarkRevoked in E. destruct (byID s0 !! id) as [w|]; [|done]. injection E as <- <-. written w.
  - unfold setDecision in E. destruct (byID s0 !! id) as [w|]; [|done]. case_if; [done|]. injection E as <- <-. written w.
  - unfold UpdateInspection, updateInspectionLocked in E. destruct (byID s0 !! id) as [w|]; [|done].
    repeat (case_if; [done|]). injection E as <- <-. written w.
  - unfold CompleteInspectionIntent, updateInspectionLocked in E. destruct (byID s0 !! _) as [w|]; [|done].
    destruct (rs_Inspection w); [|done]. case_if; [done|]. injection E as <- <-. written w.
  - exists e, v. split; [done|]. split; [by eapply mergeLocked_byID | by eapply merge_revision].
Qed.

Lemma u64_inc n x : u64 (inc64 x + n) = u64 (x + (n + 1)).
Proof. unfold inc64, u64. rewrite Zplus_mod_idemp_l. f_equal. lia. Qed.

Lemma writes_revision id n s s' v : writes id n s s' -> byID s !! id = Some v ->
  exists v', byID s' !! id = Some v' /\ u64 (rs_Revision v') = u64 (rs_Revision v + Z.of_nat n).
Proof.
  intros Hw Hv. induction Hw as [s | n s s1 s2 Hw IH Hs | n s s1 s2 id' Hne Hw IH Hs].
  - exists v. split; [done|]. f_equal. lia.
  - destruct (IH Hv) as (v1 & Hv1 & E1). destruct (session_write_spec _ _ _ Hs) as (w & w' & Hw1 & -> & Er).
    exists w'. split; [apply lookup_insert_eq|]. simplify_eq. rewrite Er.
    rewrite <- (Z.add_0_r (inc64 _)), u64_inc. unfold u64 in *. simpl (0 + 1).
    rewrite <- Zplus_mod_idemp_l, E1, Zplus_mod_idemp_l. f_equal. lia.
  - destruct (IH Hv) as (v1 & Hv1 & E1). destruct (session_write_spec _ _ _ Hs) as (w & w' & Hw1 & -> & Er).
    exists v1. by rewrite lookup_insert_ne.
Qed.

Lemma writes_fresh_revision id n s s' v :
  store_inv s -> byID s !! id = Some v -> writes id n s s' -> (0 < n)%nat -> Z.of_nat n < 2 ^ 64 ->
  exists v', byID s' !! id = Some v' /\ rs_Revision v' <> rs_Revision v.
Proof.
  intros Hs Hv Hw Hn Hlt. destruct (writes_revision _ _ _ _ _ Hw Hv) as (v' & Hv' & E).
  pose proof (inv_revision s Hs _ _ Hv) as Hr. simpl in Hr. exists v'. split; [done|].
  intros Heq. rewrite Heq in E. unfold u64 in E. rewrite Z.mod_small in E by done.
  destruct (Z_lt_le_dec (rs_Revision v + Z.of_nat n) (2 ^ 64)).
  - rewrite Z.mod_small in E; lia.
  - rewrite <- (Z.mod_unique (rs_Revision v + Z.of_nat n) (2 ^ 64) 1 (rs_Revision v + Z.of_nat n - 2 ^ 64)) in E; lia.
Qed.

(** A decision computed from a snapshot of a session is refused once the session
    has been written since: after [n > 0] writes to it (decisions, invalidations,
    revocations, inspection updates, merged observations) and any writes to other sessions,
    [SetDecisionIfCurrent] with the snapshot's revision changes nothing and reports a stale
    decision (as long as the 64-bit revision has not gone all the way round). *)
Theorem SetDecisionIfCurrent_fenced s s' id v n g a p r :
  store_inv s -> byID s !! id = Some v -> rs_Revision v <> 0 ->
  writes id n s s' -> (0 < n)%nat -> Z.of_nat n < 2 ^ 64 ->
  SetDecisionIfCurrent s' id (rs_Revision v) g a p r = (s', Err ErrStaleDecision).
Proof.
  intros Hs Hv Hne Hw Hn Hlt. destruct (writes_fresh_revision _ _ _ _ _ Hs Hv Hw Hn Hlt) as (v' & Hv' & Hdiff).
  unfold SetDecisionIfCurrent, setDecision. rewrite Hv'.
  rewrite (proj2 (Z.eqb_neq _ _) Hne), (proj2 (Z.eqb_neq _ _) Hdiff). done.
Qed.

Lemma ex_get : byID ex_store1 !! ex_id = Some ex_session1.
Proof. vm_compute. reflexivity. Qed.

Lemma ex_write : writes ex_id 1 ex_store1 (Invalidate ex_store1 ex_id 1 "policy changed" 2500).1.
Proof.
  eapply writes_this; [apply writes_refl|]. eapply write_Invalidate.
  exact (eq_trans (surjective_pairing _) (f_equal (pair _)
    (eq_refl : (Invalidate ex_store1 ex_id 1 "policy changed" 2500).2 = Ok (invalidate_session ex_session1 1 "policy changed" 2500)))).
Qed.

Lemma SetDecisionIfCurrent_fenced_witness :
  let s' := (Invalidate ex_store1 ex_id 1 "policy changed" 2500).1 in
  SetDecisionIfCurrent s' ex_id 1 1 DecisionAllow "p" "r" = (s', Err ErrStaleDecision).
Proof.
  apply (SetDecisionIfCurrent_fenced ex_store1 _ ex_id ex_session1 1); [exact ex_store1_inv | exact ex_get | | exact ex_write | lia | lia].
  vm_compute. discriminate.
Defined.

(** *** Revocation and the session guard *)

(** A session revoked, or held by an applied session guard, is dropped. *)
Definition enforced (v : RuntimeSession) : Prop :=
  rs_Revoked v || guard_applied v = true -> rs_EffectiveDecision v = DecisionDrop.

Definition store_enforced (s : RuntimeStore) : Prop := map_Forall (fun _ v => enforced v) (byID s).

Lemma enforced_put s id v : store_enforced s -> enforced v -> map_Forall (fun _ v => enforced v) (<[id := v]> (byID s)).
Proof. intros. by apply map_Forall_insert_2. Qed.

Lemma enforced_delete s id : store_enforced s -> map_Forall (fun _ v => enforced v) (delete id (byID s)).
Proof. intros. by apply map_Forall_delete. Qed.

Lemma same_enforcement_enforced v w : same_enforcement v w -> enforced w -> enforced v.
Proof. intros (E1 & E2 & E3). unfold enforced, guard_applied. by rewrite E1, E2, E3. Qed.

Lemma mergeLocked_enforced s id e r now : enforced e -> enforced (mergeLocked s id e r now).2.1.
Proof.
  intros He. eapply same_enforcement_enforced; [|exact He]. unfold mergeLocked.
  pose proof (keeps_kernelStart r e false) as (_ & _ & H1). destruct (merge_kernelStart r (e, false)) as [v1 c1].
  pose proof (keeps_conntrackID r v1 c1) as (_ & _ & H2). destruct (merge_conntrackID r (v1, c1)) as [v2 c2].
  assert (H3 : same_enforcement (merge_reply s r (v2, c2)).2.1 v2).
  { unfold merge_reply, reindexLocked, indexLocked. destruct (pr_ReplyTuple _); [|done].
    destruct (cr_ReplyTuple r); [|done]. by repeat case_if. }
  destruct (merge_reply s r (v2, c2)) as [s3 [v3 c3]].
  pose proof (keeps_rest r now (rs_Quality e) v3 c3) as (_ & _ & H4).
  destruct (merge_rest _ _ _ _) as [v4 c4]. cbn [fst snd] in *. unfold same_enforcement in *.
  destruct c4; simpl; intuition congruence.
Qed.

Lemma newSession_enforced id record identity now q : enforced (newSession id record identity now <| rs_Quality := q |>).
Proof. unfold enforced, newSession. by destruct (counterPresence _). Qed.

Lemma createLocked_enforced s record identity now cc :
  store_enforced s -> store_enforced (createLocked s record identity now cc).1.
Proof.
  intros Hs. unfold createLocked, indexLocked. case_if; [done|]. cbv zeta.
  set (id := if bool_decide _ then _ else _). clearbody id.
  pose proof (remember_byID_eq s id identity) as E. generalize dependent (rememberIdentityLocked s id identity).
  intros s1 E. unfold store_enforced. case_if; cbn [fst].
  - change (map_Forall (fun _ v => enforced v) (<[id := newSession id record identity now <| rs_Quality ::=
      fun q => q <| sq_TrackingStatus := TrackingPartial |> <| sq_Reason := "alias limit" |> |>]> (byID s1))).
    rewrite E. apply enforced_put; [done|]. apply (newSession_enforced id record identity now).
  - change (map_Forall (fun _ v => enforced v) (<[id := newSession id record identity now]> (byID s1))).
    rewrite E. apply enforced_put; [done|]. apply (newSession_enforced id record identity now (rs_Quality (newSession id record identity now))).
Qed.

Lemma absorb_enforced s id e record now :
  store_enforced s -> byID s !! id = Some e -> store_enforced (absorb s id e record now).1.
Proof.
  intros Hs Hid. unfold absorb, store_enforced.
  pose proof (mergeLocked_enforced (rememberIdentityLocked s id (cr_Identity record)) id e record now (Hs _ _ Hid)) as He.
  destruct (mergeLocked _ _ _ _ _) as [s1 [w c]] eqn:E. simpl in *.
  rewrite (mergeLocked_byID _ _ _ _ _ _ _ _ E), remember_byID_eq. by apply enforced_put.
Qed.

Lemma ApplyObserved_enforced s record now clock cc :
  store_enforced s -> store_enforced (ApplyObserved s record now clock cc).1.
Proof.
  intros Hs. unfold ApplyObserved. case_if; [done|].
  destruct (resolveIdentityLocked s _ ≫= _) as [[id existing]|] eqn:E.
  - apply absorb_enforced; [done|]. apply bind_Some in E as (i & _ & E). apply fmap_Some in E as (v & E & Eq).
    by injection Eq as -> ->.
  - case_if; [done|]. destruct (resolveTupleLocked s _) as [| |id]; try by apply createLocked_enforced.
    destruct (byID s !! id) eqn:Eid; [case_if|]; by auto using absorb_enforced, createLocked_enforced.
Qed.

Lemma trimClosed_byID s : byID (trimClosedLocked s) = byID s.
Proof. unfold trimClosedLocked. by repeat case_if. Qed.

Lemma retire_byID s id v at_ : byID (retire s id v at_) = delete id (byID s).
Proof.
  unfold retire, appendClosedLocked.
  change (delete id (byID (trimClosedLocked (s <| closed ::= (fun l => l ++ [v]) |>
    <| tombstones ::= (fun l => l ++ [mkTombstone id (rs_Identity v) at_]) |>))) = delete id (byID s)).
  by rewrite trimClosed_byID.
Qed.

Lemma retire_enforced s id v at_ n : store_enforced s -> store_enforced (count_closed n (retire s id v at_)).
Proof.
  intros Hs. unfold store_enforced. destruct (count_closed_effect n (retire s id v at_)) as [-> _].
  rewrite retire_byID. by apply enforced_delete.
Qed.

Lemma reconcile_one_byID seen before now reason st id :
  byID (reconcile_one seen before now reason st id).1 =
  match byID st.1 !! id with
  | Some v => if bool_decide (id ∈ seen) || After (rs_LastObservedAt v) before then byID st.1 else delete id (byID st.1)
  | None => byID st.1
  end.
Proof.
  destruct st as [s removed]. unfold reconcile_one. cbn [fst]. destruct (byID s !! id); [|done].
  destruct (_ || _); [done|]. cbn [fst]. apply retire_byID.
Qed.

Lemma reconcile_fold_enforced seen before now reason order st :
  store_enforced st.1 -> store_enforced (foldl (reconcile_one seen before now reason) st order).1.
Proof.
  revert st. induction order as [|id order IH]; intros st Hs; [done|]. apply IH. unfold store_enforced.
  rewrite reconcile_one_byID. repeat case_match; try done. by apply enforced_delete.
Qed.

Lemma ReconcileMissing_byID s order seen before now clock reason :
  byID (ReconcileMissing s order seen before now clock reason).1 =
  byID (foldl (reconcile_one (seen_ids s seen) (if IsZero before then clock else before)
                 (if IsZero now then clock else now) reason) (s, []) order).1.
Proof. unfold ReconcileMissing. destruct (foldl _ _ _) as [s' removed]. simpl. by case_bool_decide. Qed.

Lemma invalidate_enforced v g r n : enforced (invalidate_session v g r n).
Proof. unfold enforced, invalidate_session. repeat case_if; try done. simpl. unfold guard_applied in *. simpl in *. congruence. Qed.

Lemma decide_enforced v g a p r : enforced (decide_session v g a p r).
Proof. unfold enforced, decide_session. repeat case_if; try done. simpl. unfold guard_applied in *. simpl in *. congruence. Qed.

Lemma inspect_enforced v n r : enforced (inspect_session v n r).
Proof.
  unfold enforced, inspect_session. repeat case_if; try done. simpl. unfold guard_applied in *. simpl in *.
  intros [H | H]%orb_true_iff; congruence.
Qed.

(** An operation that writes one session, or nothing. *)
Lemma store_enforced_update s s' : 
  store_enforced s -> (byID s' = byID s \/ (exists id v, byID s' = <[id := v]> (byID s) /\ enforced v) \/
                       (exists id, byID s' = delete id (byID s))) -> store_enforced s'.
Proof.
  unfold store_enforced. intros Hs [-> | [(id & v & -> & Hv) | (id & ->)]]; [done | by apply enforced_put | by apply enforced_delete].
Qed.

Lemma step_enforced s s' : store_step false s s' -> store_enforced s -> store_enforced s'.
Proof.
  intros Hstep Hs. remember false as b. destruct Hstep; try done.
  - by apply ApplyObserved_enforced.
  - unfold Close. destruct (close_target s i) as [id|]; [|done]. destruct (byID s !! id) as [v|]; [|done].
    case_if; [|done]. by apply retire_enforced.
  - unfold Delete. destruct (byID s !! id); [|done]. by apply retire_enforced.
  - unfold store_enforced. rewrite ReconcileMissing_byID. by apply reconcile_fold_enforced.
  - unfold SetInspectionHistoryLimits, store_enforced. by rewrite trimClosed_byID.
  - unfold Invalidate. destruct (byID s !! id); [|done]. apply enforced_put; [done | apply invalidate_enforced].
  - unfold setDecision. destruct (byID s !! id); [|done]. case_if; [done|]. apply enforced_put; [done | apply decide_enforced].
  - unfold MarkRevoked. destruct (byID s !! id); [|done]. by apply enforced_put.
  - unfold SetZones. destruct (byID s !! id) as [v|] eqn:E; [|done]. case_if; [done|].
    apply enforced_put; [done|]. exact (Hs _ _ E).
  - unfold UpdateInspection, updateInspectionLocked. destruct (byID s !! id); [|done]. repeat (case_if; [done|]).
    apply enforced_put; [done | apply inspect_enforced].
  - unfold CompleteInspectionIntent, updateInspectionLocked. destruct (byID s !! _) as [v|]; [|done].
    destruct (rs_Inspection v); [|done]. case_if; [done|]. apply enforced_put; [done | apply inspect_enforced].
  - unfold CloseVerifiedExpired. destruct (expiryCandidateLocked _ _ _); [|done]. by apply retire_enforced.
  - unfold DeferExpired. destruct (expiryCandidateLocked _ _ _) as [v|] eqn:E; [|done].
    apply expiryCandidate_live in E. case_if; [|done]. apply enforced_put; [done|]. exact (Hs _ _ E).
Qed.

Inductive reachable_decided (l : RuntimeLimits) : RuntimeStore -> Prop :=
| decided_new : reachable_decided l (NewRuntimeStore l)
| decided_step s s' : reachable_decided l s -> store_step false s s' -> reachable_decided l s'.

Lemma reachable_decided_enforced l s : reachable_decided l s -> store_enforced s.
Proof. induction 1; [apply map_Forall_empty | by eapply step_enforced]. Qed.

(** C13. Fail-safe enforcement: along every sequence of method calls that does not
    contain [MarkEvaluationUnavailable], a session that is revoked, or whose inspection
    record says that the kernel session guard applied a drop, has the effective decision
    DROP, whatever decisions, invalidations, inspection updates and observations follow. *)
Theorem revoked_or_guarded_is_dropped l s id v :
  reachable_decided l s -> byID s !! id = Some v ->
  rs_Revoked v || guard_applied v = true -> rs_EffectiveDecision v = DecisionDrop.
Proof. intros Hr Hid. exact (reachable_decided_enforced l s Hr _ _ Hid). Qed.

Definition ex_store_revoked : RuntimeStore := (MarkRevoked ex_store1 ex_id 2 "revoked by operator" 2500).1.
Definition ex_revoked : RuntimeSession := default ex_session1 (byID ex_store_revoked !! ex_id).

Lemma ex_store_revoked_reachable : reachable_decided ex_limits ex_store_revoked.
Proof.
  eapply decided_step; [eapply decided_step; [apply decided_new|]|]; [apply step_ApplyObserved | apply step_MarkRevoked].
Qed.

Lemma revoked_or_guarded_is_dropped_witness : rs_EffectiveDecision ex_revoked = DecisionDrop.
Proof.
  apply (revoked_or_guarded_is_dropped ex_limits ex_store_revoked ex_id ex_revoked ex_store_revoked_reachable);
    vm_compute; reflexivity.
Defined.

(** [MarkEvaluationUnavailable] does not look at revocation: called on a revoked
    session it leaves the session marked as revoked but with no decision and no effective
    decision, so the DROP that [MarkRevoked] recorded is gone. *)
Theorem MarkEvaluationUnavailable_clears_revocation :
  exists s id g reason v, reachable ex_limits s /\
    (MarkEvaluationUnavailable s id g reason).2 = Ok v /\
    rs_Revoked v = true /\ rs_Decision v = DecisionNone /\ rs_EffectiveDecision v = DecisionNone.
Proof.
  exists ex_store_revoked, ex_id, 2, "local traffic".
  eexists. split; [|split; [vm_compute; reflexivity | done]].
  eapply reachable_step; [apply ex_store1_reachable | apply step_MarkRevoked].
Qed.

(** ** Reconciliation with a kernel dump *)

(** A session survives a reconciliation when the dump named it or when it was
    observed after the dump began. *)
Definition survives (seen : gset string) (before : Time) (id : string) (v : RuntimeSession) : bool :=
  bool_decide (id ∈ seen) || After (rs_LastObservedAt v) before.

Lemma option_bind_ret {A} (o : option A) : (v ← o; Some v) = o.
Proof. by destruct o. Qed.

Lemma reconcile_one_lookup seen before now reason st id id' :
  byID (reconcile_one seen before now reason st id).1 !! id' =
  (v ← byID st.1 !! id'; if bool_decide (id' = id) && negb (survives seen before id' v) then None else Some v).
Proof.
  rewrite reconcile_one_byID. unfold survives. destruct (decide (id' = id)) as [->|Hne].
  - rewrite (bool_decide_true (id = id)) by done. destruct (byID st.1 !! id) as [v|] eqn:E; simpl; [|by rewrite E].
    destruct (_ || _); simpl; [by rewrite E | apply lookup_delete_eq].
  - rewrite (bool_decide_false (id' = id)) by done. simpl. rewrite option_bind_ret.
    destruct (byID st.1 !! id); [|done]. destruct (_ || _); [done|]. by apply lookup_delete_ne.
Qed.

Lemma reconcile_fold_lookup seen before now reason order st id :
  byID (foldl (reconcile_one seen before now reason) st order).1 !! id =
  (v ← byID st.1 !! id; if bool_decide (id ∈ order) && negb (survives seen before id v) then None else Some v).
Proof.
  revert st. induction order as [|x order IH]; intros st.
  - simpl. by rewrite option_bind_ret.
  - cbn [foldl]. rewrite IH, reconcile_one_lookup. destruct (byID st.1 !! id) as [v|]; [|done]. simpl.
    destruct (bool_decide (id = x) && negb (survives seen before id v)) eqn:E; simpl.
    + apply andb_true_iff in E as [E ->]. split_bool. rewrite bool_decide_true; [done|]. subst. by left.
    + destruct (survives seen before id v); cbn [negb] in *; [by rewrite !andb_false_r|].
      rewrite andb_true_r in E. split_bool. rewrite !andb_true_r.
      rewrite (bool_decide_ext (id ∈ x :: order) (id ∈ order)) by set_solver. done.
Qed.

(** Reconciliation with a complete kernel dump keeps exactly the sessions the dump
    named and those observed after the dump began, unchanged, and closes every other one,
    whatever the order in which Go iterates over the map. *)
Theorem ReconcileMissing_spec s order seen before now clock reason id :
  order ≡ₚ (map_to_list (byID s)).*1 ->
  byID (ReconcileMissing s order seen before now clock reason).1 !! id =
  (v ← byID s !! id;
   if survives (seen_ids s seen) (if IsZero before then clock else before) id v then Some v else None).
Proof.
  intros Hperm. rewrite ReconcileMissing_byID, reconcile_fold_lookup. cbn [fst].
  destruct (byID s !! id) as [v|] eqn:E; simpl; [|done].
  rewrite bool_decide_true; [by destruct (survives _ _ _ _)|].
  rewrite Hperm, list_elem_of_fmap. exists (id, v). split; [done|]. by apply elem_of_map_to_list.
Qed.

Lemma ReconcileMissing_spec_witness :
  byID (ReconcileMissing ex_store1 [ex_id] [] 2500 3000 0 "missing").1 !! ex_id = None /\
  byID (ReconcileMissing ex_store1 [ex_id] [ex_identity] 2500 3000 0 "missing").1 !! ex_id = Some ex_session1.
Proof.
  assert (Hp : [ex_id] ≡ₚ (map_to_list (byID ex_store1)).*1) by (vm_compute; reflexivity).
  split; rewrite (ReconcileMissing_spec ex_store1 [ex_id] _ 2500 3000 0 "missing" ex_id Hp); vm_compute; reflexivity.
Defined.

(** * Queries *)

(** ** Pages *)

Lemma session_less_asym a b : session_less a b = true -> session_less b a = false.
Proof.
  unfold session_less, time_Equal, Before. rewrite (Z.eqb_sym (rs_CreatedAt b)).
  destruct (rs_CreatedAt a =? rs_CreatedAt b); [apply str_lt_antisym|].
  rewrite Z.ltb_lt, Z.ltb_ge. lia.
Qed.

Lemma session_less_trans a b c : session_less b a = false -> session_less c b = false -> session_less c a = false.
Proof.
  unfold session_less, time_Equal, Before.
  destruct (Z.eqb_spec (rs_CreatedAt b) (rs_CreatedAt a)), (Z.eqb_spec (rs_CreatedAt c) (rs_CreatedAt b)),
    (Z.eqb_spec (rs_CreatedAt c) (rs_CreatedAt a)); rewrite ?Z.ltb_ge; try lia.
  apply str_lt_not_after_trans.
Qed.

(** The sessions that match a filter, oldest first. *)
Definition matching (s : RuntimeStore) (f : SessionFilter) : list RuntimeSession :=
  sort_by session_less (filter (fun v => matches v f = true) (map_to_list (byID s)).*2).

Lemma matching_sorted s f : StronglySorted (not_after session_less) (matching s f).
Proof. apply sort_by_sorted; [apply session_less_asym | apply session_less_trans]. Qed.

Lemma matching_length s f : (length (matching s f) <= size (byID s))%nat.
Proof.
  unfold matching. rewrite sort_by_length. etrans; [apply length_filter|].
  by rewrite length_fmap, length_map_to_list.
Qed.

Lemma elem_of_matching s f v : v ∈ matching s f <-> matches v f = true /\ exists id, byID s !! id = Some v.
Proof.
  unfold matching. rewrite sort_by_elem_of, list_elem_of_filter, list_elem_of_fmap. split.
  - intros (Hm & [id w] & -> & Hin). split; [done|]. exists id. by apply elem_of_map_to_list.
  - intros (Hm & id & Hid). split; [done|]. exists (id, v). split; [done|]. by apply elem_of_map_to_list.
Qed.

(** A page of [Query] is the corresponding window of the matching live sessions in
    creation order: it holds every match once, in order, and [HasMore] says whether the
    window ends before the last match (for page numbers whose offset fits in an [int]). *)
Theorem Query_page s f number size_ cursor clock :
  1 <= number -> 1 <= size_ <= 500 -> number * size_ <= maxInt64 -> Z.of_nat (size (byID s)) <= 2 ^ 32 ->
  Query s f (mkPage number size_ cursor) clock =
    Some (mkPageResult (take (Z.to_nat size_) (drop (Z.to_nat ((number - 1) * size_)) (matching s f)))
            number size_ (Z.of_nat (length (matching s f)))
            (number * size_ <? Z.of_nat (length (matching s f))) (revision s) clock) /\
  StronglySorted (not_after session_less) (matching s f) /\
  (forall v, v ∈ matching s f <-> matches v f = true /\ exists id, byID s !! id = Some v).
Proof.
  intros Hn Hsz Hmax Hs. split; [|split; [apply matching_sorted | apply elem_of_matching]].
  pose proof (matching_length s f) as Hlen. unfold Query. cbn [pg_Number pg_Size]. fold (matching s f).
  rewrite (proj2 (Z.leb_gt size_ 0)), (proj2 (Z.ltb_ge 500 size_)), (proj2 (Z.leb_gt number 0)) by lia.
  set (total := Z.of_nat (length (matching s f))) in *.
  unfold maxInt64 in *. rewrite (i64_small ((number - 1) * size_)) by (unfold minInt64, maxInt64; nia).
  destruct (Z.ltb_spec total ((number - 1) * size_)).
  - rewrite (i64_small (total + size_)) by (unfold minInt64, maxInt64; lia).
    rewrite (proj2 (Z.ltb_lt total (total + size_))) by lia. unfold slice.
    rewrite !(proj2 (Z.leb_le _ _)) by lia. simpl.
    rewrite (proj2 (Z.ltb_ge total total)), (proj2 (Z.ltb_ge (number * size_) total)) by lia.
    rewrite !drop_ge by lia. by rewrite !take_nil.
  - rewrite (i64_small ((number - 1) * size_ + size_)) by (unfold minInt64, maxInt64; nia).
    replace ((number - 1) * size_ + size_) with (number * size_) by lia. unfold slice.
    destruct (Z.ltb_spec total (number * size_)).
    + rewrite !(proj2 (Z.leb_le _ _)) by nia. simpl. rewrite (proj2 (Z.ltb_ge total total)) by lia.
      rewrite (proj2 (Z.ltb_ge (number * size_) total)) by lia.
      rewrite !take_ge by (rewrite length_drop; lia). done.
    + rewrite !(proj2 (Z.leb_le _ _)) by nia. simpl.
      replace (number * size_ - (number - 1) * size_) with size_ by lia. done.
Qed.

Definition ex_filter : SessionFilter := mkSessionFilter "10.0.0.1" "" 6 "" "" None DecisionNone "".

Lemma Query_page_witness :
  exists r, Query ex_store1 ex_filter (mkPage 1 10 "") 0 = Some r /\ pgr_Items r = [ex_session1].
Proof.
  eexists. split.
  - apply (Query_page ex_store1 ex_filter 1 10 "" 0); [lia | lia | vm_compute; discriminate | vm_compute; discriminate].
  - vm_compute. reflexivity.
Defined.

(** [Query] has no guard on the page number: with page 2^60 - 1 and 16 sessions per
    page the offset wraps to a negative number, and slicing with it is a run-time panic. *)
Theorem Query_huge_page_panics :
  Query ex_store1 ex_filter (mkPage (2 ^ 60 - 1) 16 "") 0 = None /\
  Query ex_store1 ex_filter (mkPage maxInt64 500 "") 0 = None.
Proof. vm_compute. split; reflexivity. Qed.

(** ** Expiry *)

Definition due (s : RuntimeStore) (now : Time) (id : string) (v : RuntimeSession) : Prop :=
  byID s !! id = Some v /\ expired now v = true /\ retry_ready s id now = true.

Lemma elem_of_expiry_collect s now budget l v : v ∈ expiry_collect s now budget l ->
  exists e, e ∈ l /\ due s now (ee_id e) v /\ rs_ExpiresAt v = Some (ee_deadline e).
Proof.
  unfold expiry_collect. intros Hin%elem_of_take. destruct Hin as (i & Hi & _).
  apply list_elem_of_lookup_2, list_elem_of_omap in Hi as (e & He & Hv). exists e. split; [done|].
  destruct (byID s !! ee_id e) as [w|] eqn:E; [|done]. case_if; [|done]. simplify_eq. split_bool. done.
Qed.

Lemma length_expiry_collect s now budget l : 0 <= budget -> Z.of_nat (length (expiry_collect s now budget l)) <= budget.
Proof. intros. unfold expiry_collect. rewrite length_take. lia. Qed.

Lemma elem_of_expiry_due s now e :
  e ∈ (expiry_scan s now).1.1 <-> exists v, due s now (ee_id e) v /\ rs_ExpiresAt v = Some (ee_deadline e).
Proof.
  unfold expiry_scan. cbn [fst]. rewrite sort_by_elem_of, list_elem_of_omap. split.
  - intros ([id v] & Hin & He). apply list_elem_of_filter in Hin as [Hex Hin]. simpl in *.
    destruct (rs_ExpiresAt v) as [t|] eqn:Et; [|done]. case_if; [|done]. simplify_eq. exists v.
    apply elem_of_map_to_list in Hin. done.
  - intros (v & (Hid & Hex & Hr) & Ht). exists (ee_id e, v). rewrite list_elem_of_filter, elem_of_map_to_list.
    simpl. rewrite Ht, Hr. by destruct e.
Qed.

Lemma length_expiry_due s now : (length (expiry_scan s now).1.1 <= Z.to_nat (expiry_scan s now).1.2)%nat.
Proof.
  unfold expiry_scan. cbn [fst snd]. rewrite sort_by_length, Nat2Z.id. apply length_omap_le.
Qed.

(** The expiry scan reads the store twice with the lock released in between. What
    it returns is sound against the second reading, whatever happened meanwhile: within the
    budget, every candidate is a live session that is expired and not deferred. If nothing
    happened meanwhile and the budget suffices, no due session is missed. *)
Theorem ExpiredCandidates_spec s1 s2 now budget items total oldest :
  store_inv s2 -> ExpiredCandidates s1 s2 now budget = (items, total, oldest) ->
  Z.of_nat (length items) <= (if budget <=? 0 then 512 else budget) /\
  (forall v, v ∈ items -> due s2 now (rs_SessionID v) v) /\
  (s1 = s2 -> total <= (if budget <=? 0 then 512 else budget) ->
   forall id v, due s2 now id v -> v ∈ items).
Proof.
  intros Hs. unfold ExpiredCandidates. set (b := if budget <=? 0 then 512 else budget).
  assert (Hb : 0 <= b) by (unfold b; case_if; split_bool; lia). clearbody b.
  pose proof (elem_of_expiry_due s1 now) as Hdue. pose proof (length_expiry_due s1 now) as Hlen.
  destruct (expiry_scan s1 now) as [[l tot] old]. cbn [fst snd] in *. intros E. injection E as <- <- <-.
  split; [by apply length_expiry_collect|]. split.
  - intros v (e & _ & Hd & _)%elem_of_expiry_collect. pose proof Hd as (Hid & _ & _).
    destruct (inv_self s2 Hs _ _ Hid) as [-> _]. done.
  - intros -> Htot id v Hd. unfold expiry_collect. rewrite take_ge.
    + pose proof Hd as (Hid & Hex & Hr). unfold expired in Hex. destruct (rs_ExpiresAt v) as [t|] eqn:Et; [|done].
      apply list_elem_of_omap. exists (mkExpiryEntry id t). split; [apply Hdue; by exists v|]. simpl.
      rewrite Hid, Et, Hr, bool_decide_true by done. unfold expired. rewrite Et, Hex. done.
    + etrans; [apply length_omap_le|]. lia.
Qed.

Example ex_expired : (ExpiredCandidates ex_store1 ex_store1 (100 * Second) 0).1.1 = [ex_session1].
Proof. vm_compute. reflexivity. Qed.

Lemma ExpiredCandidates_spec_witness : due ex_store1 (100 * Second) (rs_SessionID ex_session1) ex_session1.
Proof.
  refine (proj1 (proj2 (ExpiredCandidates_spec ex_store1 ex_store1 (100 * Second) 0 _ _ _ ex_store1_inv
    (eq_trans (surjective_pairing _) (f_equal (fun p => (p, _)) (surjective_pairing _))))) _ _).
  rewrite ex_expired. by left.
Defined.

(** A candidate returned by the expiry scan and verified against the kernel is only
    closed if nothing was written to its session since: after any write to it,
    [CloseVerifiedExpired] changes nothing. *)
Theorem CloseVerifiedExpired_fenced s s' id v n now :
  store_inv s -> byID s !! id = Some v -> writes id n s s' -> (0 < n)%nat -> Z.of_nat n < 2 ^ 64 ->
  CloseVerifiedExpired s' v now = (s', None).
Proof.
  intros Hs Hv Hw Hn Hlt. destruct (inv_self s Hs _ _ Hv) as [Eid _].
  destruct (writes_fresh_revision _ _ _ _ _ Hs Hv Hw Hn Hlt) as (v' & Hv' & Hdiff).
  unfold CloseVerifiedExpired, expiryCandidateLocked. rewrite Eid, Hv'.
  rewrite (proj2 (Z.eqb_neq _ _) Hdiff). rewrite !andb_false_r. done.
Qed.

Lemma CloseVerifiedExpired_fenced_witness :
  let s' := (Invalidate ex_store1 ex_id 1 "policy changed" 2500).1 in
  CloseVerifiedExpired s' ex_session1 (100 * Second) = (s', None).
Proof.
  apply (CloseVerifiedExpired_fenced ex_store1 _ ex_id ex_session1 1); [exact ex_store1_inv | exact ex_get | exact ex_write | lia | lia].
Defined.

(** ** Counters *)

Definition counters (v : RuntimeSession) : Z * Z * Z * Z :=
  (rs_PacketsOriginal v, rs_BytesOriginal v, rs_PacketsReply v, rs_BytesReply v).

(** The counters after a record: each direction the record carries takes the larger
    value, the other one keeps its own. *)
Definition merged_counters (r : ConntrackRecord) (c : Z * Z * Z * Z) : Z * Z * Z * Z :=
  let '(po, bo, pr, br) := c in
  let '(o, p) := counterPresence (cr_Presence r) in
  ((if o then Z.max po (cr_PacketsOriginal r) else po), (if o then Z.max bo (cr_BytesOriginal r) else bo),
   (if p then Z.max pr (cr_PacketsReply r) else pr), (if p then Z.max br (cr_BytesReply r) else br)).

Ltac counters_tac := intros; simpl; unfold counters; repeat (case_if; simpl in * ); done.

Lemma counters_kernelStart r v c : counters (merge_kernelStart r (v, c)).1 = counters v.
Proof. counters_tac. Qed.
Lemma counters_conntrackID r v c : counters (merge_conntrackID r (v, c)).1 = counters v.
Proof. counters_tac. Qed.
Lemma counters_reply s r v c : counters (merge_reply s r (v, c)).2.1 = counters v.
Proof.
  unfold merge_reply, reindexLocked, indexLocked. destruct (pr_ReplyTuple _); [|done].
  destruct (cr_ReplyTuple r); [|done]. by repeat case_if.
Qed.
Lemma counters_timeout r now v : counters (merge_timeout r now (merge_counters_missing v)) = counters v.
Proof. unfold merge_timeout, merge_counters_missing. counters_tac. Qed.
Lemma counters_state r now v c : counters (merge_state r now (v, c)).1 = counters v.
Proof. counters_tac. Qed.
Lemma counters_mark r v c : counters (merge_mark r (v, c)).1 = counters v.
Proof. counters_tac. Qed.
Lemma counters_quality old v c : counters (merge_quality old (v, c)).1 = counters v.
Proof. counters_tac. Qed.

Lemma maxUint64_max a b : maxUint64 a b = Z.max a b.
Proof. unfold maxUint64. destruct (Z.ltb_spec a b); lia. Qed.

Lemma counters_both r now v c :
  counters (merge_counters_reply r now (merge_counters_original r now (v, c))).1 = merged_counters r (counters v).
Proof.
  unfold merge_counters_reply, merge_counters_original, merged_counters, counters.
  destruct (counterPresence (cr_Presence r)) as [o p]. simpl.
  destruct o, p; simpl; repeat (case_if; simpl); rewrite ?maxUint64_max; done.
Qed.

(** An observation never moves a counter of a live session backwards: each of the
    four counters becomes the maximum of its value and the record's, in the directions the
    record carries, and stays as it is in the others. *)
Theorem mergeLocked_counters s id e r now :
  counters (mergeLocked s id e r now).2.1 = merged_counters r (counters e).
Proof.
  unfold mergeLocked. pose proof (counters_kernelStart r e false) as H1. destruct (merge_kernelStart r (e, false)) as [v1 c1].
  pose proof (counters_conntrackID r v1 c1) as H2. destruct (merge_conntrackID r (v1, c1)) as [v2 c2].
  pose proof (counters_reply s r v2 c2) as H3. destruct (merge_reply s r (v2, c2)) as [s3 [v3 c3]]. unfold merge_rest.
  pose proof (counters_both r now v3 c3) as H4. destruct (merge_counters_reply _ _ _) as [v5 c5].
  pose proof (counters_timeout r now v5) as H6.
  pose proof (counters_state r now (merge_timeout r now (merge_counters_missing v5)) c5) as H7.
  destruct (merge_state _ _ _) as [v7 c7].
  pose proof (counters_mark r (v7 <| rs_LastObservedAt := now |>) c7) as H8. destruct (merge_mark _ _) as [v8 c8].
  pose proof (counters_quality (rs_Quality e) v8 c8) as H9. destruct (merge_quality _ _) as [v9 c9]. cbn [fst snd] in *.
  transitivity (counters v9); [by destruct c9|]. rewrite H9, H8. transitivity (counters v7); [done|].
  by rewrite H7, H6, H4, H3, H2, H1.
Qed.
