(* ===== verification/Config.v ===== *)
(** * Configuration types and service selectors ([internal/domain])

    The configuration document ([types.go], [inspection_config.go],
    [request_gate_config.go]) with its defaults, and the L3/L4 service grammar of
    [service.go].  [int] fields are [Z]; pointers to optional parts are options.
    Counters that only the operating system fills in ([Interface.RxPackets] and
    the like) are left out: no modelled code reads them. *)

From S2P Require Import Prelude GoStr Netip Domain.

(** ** Service selectors *)

Record ServiceSelector : Type := mkServiceSelector {
  ss_Protocol : string;
  ss_First : Z;
  ss_Last : Z;
  ss_AllPorts : bool
}.

#[global] Instance ServiceSelector_eq_dec : EqDecision ServiceSelector.
Proof. solve_decision. Defined.

Definition Canonical (s : ServiceSelector) : string :=
  let protocol := ToLower (TrimSpace (ss_Protocol s)) in
  if ss_AllPorts s then protocol
  else if ss_First s =? ss_Last s then protocol +:+ ":" +:+ itoa (ss_First s)
  else protocol +:+ ":" +:+ itoa (ss_First s) +:+ "-" +:+ itoa (ss_Last s).

(** One port of a selector: the trimmed part is a number between [low] and 65535. *)
Definition parse_port (low : Z) (part : string) : option Z :=
  let part := TrimSpace part in
  if bool_decide (part = "") then None
  else n ← Atoi part; if (n <? low) || (65535 <? n) then None else Some n.

Definition ParseServiceSelector (raw : string) : option ServiceSelector :=
  let value := TrimSpace raw in
  if bool_decide (value = "") then None
  else
    match Split colon value with
    | p0 :: rest =>
        let protocol := ToLower (TrimSpace p0) in
        if (1 <? Z.of_nat (length rest)) || bool_decide (TrimSpace p0 = "") then None
        else if negb (bool_decide (protocol ∈ ["tcp"; "udp"; "icmp"; "icmpv6"])) then None
        else
          match rest with
          | [] => if bool_decide (protocol = "tcp") || bool_decide (protocol = "udp") then None
                  else Some (mkServiceSelector protocol 0 0 true)
          | p1 :: _ =>
              if bool_decide (protocol = "icmp") || bool_decide (protocol = "icmpv6") then None
              else
                match Split dash (TrimSpace p1) with
                | [a] => first ← parse_port 1 a; Some (mkServiceSelector protocol (u16 first) (u16 first) false)
                | [a; b] => first ← parse_port 1 a; last ← parse_port first b;
                            Some (mkServiceSelector protocol (u16 first) (u16 last) false)
                | _ => None
                end
          end
    | [] => None
    end.

(** [sort.Slice] order of [CanonicalServiceList]. *)
Definition selector_less (a b : ServiceSelector) : bool :=
  if negb (bool_decide (ss_Protocol a = ss_Protocol b)) then str_lt (ss_Protocol a) (ss_Protocol b)
  else if negb (Bool.eqb (ss_AllPorts a) (ss_AllPorts b)) then negb (ss_AllPorts a)
  else if negb (ss_First a =? ss_First b) then ss_First a <? ss_First b
  else ss_Last a <? ss_Last b.

(** The loop that parses and keeps the first selector of each canonical form. *)
Fixpoint collect_selectors (seen : list string) (values : list string) : option (list ServiceSelector) :=
  match values with
  | [] => Some []
  | raw :: rest =>
      if bool_decide (TrimSpace raw = "") then None
      else
        selector ← ParseServiceSelector raw;
        let key := Canonical selector in
        if bool_decide (key ∈ seen) then collect_selectors seen rest
        else l ← collect_selectors (key :: seen) rest; Some (selector :: l)
  end.

Definition CanonicalServiceList (values : list string) : option (list string) :=
  l ← collect_selectors [] values; Some (Canonical <$> sort_by selector_less l).

(** ** Network objects *)

Record Interface : Type := mkInterface {
  if_ID : string;
  if_Name : string;
  if_SystemName : string;
  if_ZoneID : string;
  if_Mode : InterfaceMode;
  if_ParentInterfaceID : string;
  if_VLANID : Z;
  if_IPv4Addresses : list string;
  if_IPv6Addresses : list string;
  if_MTU : Z;
  if_AdminState : bool
}.

Record Zone : Type := mkZone { zn_ID : string; zn_Name : string; zn_Description : string }.

Record Route : Type := mkRoute {
  rt_ID : string;
  rt_DestinationCIDR : string;
  rt_Gateway : string;
  rt_InterfaceID : string;
  rt_Metric : Z;
  rt_Enabled : bool;
  rt_Description : string
}.

Record NATRule : Type := mkNATRule {
  nr_ID : string;
  nr_Name : string;
  nr_Type : string;
  nr_SourceZone : string;
  nr_DestinationZone : string;
  nr_SourceNetwork : string;
  nr_DestinationNetwork : string;
  nr_Protocol : string;
  nr_OriginalPort : Z;
  nr_TranslatedAddress : string;
  nr_TranslatedPort : Z;
  nr_Enabled : bool;
  nr_Priority : Z
}.

Record SecurityPolicy : Type := mkSecurityPolicy {
  sp_ID : string;
  sp_Name : string;
  sp_Priority : Z;
  sp_SourceZones : list string;
  sp_DestinationZones : list string;
  sp_SourceAddresses : list string;
  sp_DestinationAddresses : list string;
  sp_Services : list string;
  sp_Applications : list string;
  sp_ApplicationMatchMode : string;
  sp_SecurityProfileID : string;
  sp_MinimumRisk : option Z;
  sp_MaximumRisk : option Z;
  sp_Action : Decision;
  sp_Scope : string;
  sp_LogStart : bool;
  sp_LogEnd : bool;
  sp_Enabled : bool
}.

#[global] Instance eta_SecurityPolicy : Eta SecurityPolicy := fun p =>
  mkSecurityPolicy (sp_ID p) (sp_Name p) (sp_Priority p) (sp_SourceZones p) (sp_DestinationZones p) (sp_SourceAddresses p)
    (sp_DestinationAddresses p) (sp_Services p) (sp_Applications p) (sp_ApplicationMatchMode p) (sp_SecurityProfileID p)
    (sp_MinimumRisk p) (sp_MaximumRisk p) (sp_Action p) (sp_Scope p) (sp_LogStart p) (sp_LogEnd p) (sp_Enabled p).

(** [SortPolicies]: a stable sort by priority. *)
Definition policy_less (a b : SecurityPolicy) : bool := sp_Priority a <? sp_Priority b.
Definition SortPolicies (l : list SecurityPolicy) : list SecurityPolicy := sort_by policy_less l.

(** ** Inspection settings *)

Record InspectionLimits : Type := mkInspectionLimits {
  il_EVELineBytes : Z;
  il_NormalizedEventBytes : Z;
  il_ObservationQueueItems : Z;
  il_ObservationQueueBytes : Z;
  il_SecurityEvents : Z;
  il_SecurityEventBytes : Z;
  il_CorrelationPending : Z;
  il_CorrelationWaitMillis : Z;
  il_RecentSessions : Z;
  il_RecentSessionTTLSeconds : Z;
  il_AppDetectionTimeoutMillis : Z
}.

Record InspectionConfig : Type := mkInspectionConfig {
  ic_Enabled : bool;
  ic_IncludeManagement : bool;
  ic_Limits : InspectionLimits
}.

Record InspectionProfile : Type := mkInspectionProfile { ip_Mode : InspectionMode; ip_FailMode : string; ip_RulesetID : string }.

Definition DefaultInspectionLimits : InspectionLimits :=
  mkInspectionLimits (Z.shiftl 1 20) (Z.shiftl 8 10) 4096 (Z.shiftl 8 20) 5000 (Z.shiftl 16 20) 2048 2000 5000 60 5000.

(** A zero field takes its default. *)
Definition or_default (v d : Z) : Z := if v =? 0 then d else v.

Definition InspectionLimits_WithDefaults (l : InspectionLimits) : InspectionLimits :=
  let d := DefaultInspectionLimits in
  mkInspectionLimits (or_default (il_EVELineBytes l) (il_EVELineBytes d))
    (or_default (il_NormalizedEventBytes l) (il_NormalizedEventBytes d))
    (or_default (il_ObservationQueueItems l) (il_ObservationQueueItems d))
    (or_default (il_ObservationQueueBytes l) (il_ObservationQueueBytes d))
    (or_default (il_SecurityEvents l) (il_SecurityEvents d))
    (or_default (il_SecurityEventBytes l) (il_SecurityEventBytes d))
    (or_default (il_CorrelationPending l) (il_CorrelationPending d))
    (or_default (il_CorrelationWaitMillis l) (il_CorrelationWaitMillis d))
    (or_default (il_RecentSessions l) (il_RecentSessions d))
    (or_default (il_RecentSessionTTLSeconds l) (il_RecentSessionTTLSeconds d))
    (or_default (il_AppDetectionTimeoutMillis l) (il_AppDetectionTimeoutMillis d)).

(** ** Request-gate settings *)

Record RequestGateConfig : Type := mkRequestGateConfig {
  rg_Enabled : bool;
  rg_ListenHTTPPort : Z;
  rg_ListenHTTPSPort : Z;
  rg_RulesetID : string;
  rg_WorkerCount : Z;
  rg_QueueItems : Z;
  rg_QueueBytes : Z;
  rg_MaxConcurrentRequests : Z;
  rg_MaxPerClientRequests : Z;
  rg_MaxHTTP2Streams : Z;
  rg_MaxHeaderBytes : Z;
  rg_MaxHeaderCount : Z;
  rg_MaxURLBytes : Z;
  rg_MaxRawBodyBytes : Z;
  rg_MaxDecompressedBodyBytes : Z;
  rg_MaxDecompressionRatio : Z;
  rg_RequestTimeoutMillis : Z;
  rg_ClientHelloBytes : Z;
  rg_ClientHelloTimeoutMillis : Z;
  rg_LeafCacheEntries : Z;
  rg_LeafCacheTTLSeconds : Z
}.

Record RequestGateProfile : Type := mkRequestGateProfile {
  gp_Enabled : bool;
  gp_FailMode : GateFailMode;
  gp_OversizeAction : string;
  gp_UnsupportedEncodingAction : string;
  gp_BlockQUIC : bool
}.

Record TLSExclusion : Type := mkTLSExclusion {
  te_ID : string;
  te_Name : string;
  te_Domains : list string;
  te_DestinationCIDRs : list string;
  te_Ports : list Z;
  te_Enabled : bool;
  te_Reason : string
}.

Definition DefaultRequestGateConfig : RequestGateConfig :=
  mkRequestGateConfig false 18080 18443 "m4-builtin-v1" 2 256 (Z.shiftl 4 20) 128 32 64 (Z.shiftl 32 10) 64 (Z.shiftl 8 10)
    (Z.shiftl 64 10) (Z.shiftl 256 10) 20 2000 (Z.shiftl 64 10) 2000 1024 (24 * 60 * 60).

Definition RequestGateConfig_WithDefaults (g : RequestGateConfig) : RequestGateConfig :=
  let d := DefaultRequestGateConfig in
  mkRequestGateConfig (rg_Enabled g)
    (or_default (rg_ListenHTTPPort g) (rg_ListenHTTPPort d))
    (or_default (rg_ListenHTTPSPort g) (rg_ListenHTTPSPort d))
    (if bool_decide (rg_RulesetID g = "") then rg_RulesetID d else rg_RulesetID g)
    (or_default (rg_WorkerCount g) (rg_WorkerCount d))
    (or_default (rg_QueueItems g) (rg_QueueItems d))
    (or_default (rg_QueueBytes g) (rg_QueueBytes d))
    (or_default (rg_MaxConcurrentRequests g) (rg_MaxConcurrentRequests d))
    (or_default (rg_MaxPerClientRequests g) (rg_MaxPerClientRequests d))
    (or_default (rg_MaxHTTP2Streams g) (rg_MaxHTTP2Streams d))
    (or_default (rg_MaxHeaderBytes g) (rg_MaxHeaderBytes d))
    (or_default (rg_MaxHeaderCount g) (rg_MaxHeaderCount d))
    (or_default (rg_MaxURLBytes g) (rg_MaxURLBytes d))
    (or_default (rg_MaxRawBodyBytes g) (rg_MaxRawBodyBytes d))
    (or_default (rg_MaxDecompressedBodyBytes g) (rg_MaxDecompressedBodyBytes d))
    (or_default (rg_MaxDecompressionRatio g) (rg_MaxDecompressionRatio d))
    (or_default (rg_RequestTimeoutMillis g) (rg_RequestTimeoutMillis d))
    (or_default (rg_ClientHelloBytes g) (rg_ClientHelloBytes d))
    (or_default (rg_ClientHelloTimeoutMillis g) (rg_ClientHelloTimeoutMillis d))
    (or_default (rg_LeafCacheEntries g) (rg_LeafCacheEntries d))
    (or_default (rg_LeafCacheTTLSeconds g) (rg_LeafCacheTTLSeconds d)).

(** ** Profiles and the configuration document *)

Record SecurityProfile : Type := mkSecurityProfile {
  pf_ID : string;
  pf_Name : string;
  pf_IDSIPSEnabled : bool;
  pf_DPIEnabled : bool;
  pf_DNSSecurityEnabled : bool;
  pf_URLFilteringEnabled : bool;
  pf_ThreatIntelEnabled : bool;
  pf_BehaviorEnabled : bool;
  pf_MLDetectionEnabled : bool;
  pf_TLSMode : TLSMode;
  pf_MinimumBlockRisk : Z;
  pf_LoggingLevel : string;
  pf_InspectionRequired : bool;
  pf_InspectionFailureAction : Decision;
  pf_Inspection : option InspectionProfile;
  pf_RequestGate : option RequestGateProfile
}.

Record Config : Type := mkConfig {
  cf_Interfaces : list Interface;
  cf_Zones : list Zone;
  cf_Routes : list Route;
  cf_NATRules : list NATRule;
  cf_Policies : list SecurityPolicy;
  cf_Profiles : list SecurityProfile;
  cf_MaxSessions : Z;
  cf_MaxEventsQueue : Z;
  cf_MaxHTTPBodyInspection : Z;
  cf_MaxHTTPHeaderSize : Z;
  cf_MaxURLLength : Z;
  cf_MaxMLInputLength : Z;
  cf_MLTimeoutMillis : Z;
  cf_RequestInspectionTimeoutMillis : Z;
  cf_DefaultDeny : bool;
  cf_Inspection : option InspectionConfig;
  cf_RequestGate : option RequestGateConfig;
  cf_TLSExclusions : list TLSExclusion
}.

Definition EffectiveInspectionConfig (c : Config) : InspectionConfig :=
  match cf_Inspection c with
  | None => mkInspectionConfig false false DefaultInspectionLimits
  | Some i => mkInspectionConfig (ic_Enabled i) (ic_IncludeManagement i) (InspectionLimits_WithDefaults (ic_Limits i))
  end.

Definition UsesM3 (c : Config) : bool := from_option ic_Enabled false (cf_Inspection c).

Definition EffectiveRequestGateConfig (c : Config) : RequestGateConfig :=
  from_option RequestGateConfig_WithDefaults DefaultRequestGateConfig (cf_RequestGate c).

Definition UsesM4 (c : Config) : bool := from_option rg_Enabled false (cf_RequestGate c).

Definition ValidatePort (port : Z) (optional : bool) : bool :=
  if optional && (port =? 0) then true else negb ((port <? 1) || (65535 <? port)).
