(* ===== verification/Services.v ===== *)
(** * The service grammar round-trips

    Canonical service selectors: what [ParseServiceSelector] accepts, that
    printing and parsing are inverse on it, and that [CanonicalServiceList] is
    idempotent, so that a stored policy is read back as it was written. *)

From S2P Require Import Prelude GoStr Netip Domain Config.

(** The selectors the parser produces. *)
Definition wf_selector (s : ServiceSelector) : Prop :=
  (ss_Protocol s ∈ ["icmp"; "icmpv6"] /\ ss_AllPorts s = true /\ ss_First s = 0 /\ ss_Last s = 0) \/
  (ss_Protocol s ∈ ["tcp"; "udp"] /\ ss_AllPorts s = false /\ 1 <= ss_First s <= ss_Last s /\ ss_Last s <= 65535).

Lemma parse_port_Some low part n : parse_port low part = Some n -> low <= n <= 65535.
Proof.
  unfold parse_port. case_bool_decide; [done|]. destruct (Atoi _) as [m|]; simpl; [|done].
  case_if; [done|]. intros [= ->]. split_bool. lia.
Qed.

Lemma ParseServiceSelector_wf raw s : ParseServiceSelector raw = Some s -> wf_selector s.
Proof.
  unfold ParseServiceSelector. case_bool_decide; [done|]. destruct (Split colon (TrimSpace raw)) as [|p0 rest]; [done|].
  destruct (_ || _); [done|]. set (p := ToLower (TrimSpace p0)). clearbody p.
  destruct (bool_decide (p ∈ _)) eqn:Hp; [|done]. split_bool. cbn [negb].
  destruct rest as [|p1 rest].
  - destruct (_ || _) eqn:E; [done|]. intros [= <-]. split_bool. left. simpl. set_solver.
  - destruct (_ || _) eqn:E0; [done|]. split_bool. intros E. right.
    assert (Hproto : p ∈ ["tcp"; "udp"]) by set_solver.
    assert (Hsmall : forall n, 1 <= n <= 65535 -> u16 n = n) by (intros; unfold u16; apply Z.mod_small; lia).
    destruct (Split dash (TrimSpace p1)) as [|a [|b [|? ?]]]; try done.
    + apply bind_Some in E as (n & Hn%parse_port_Some & [= <-]). simpl. rewrite Hsmall by lia. split_and!; done || lia.
    + apply bind_Some in E as (n & Hn%parse_port_Some & E). apply bind_Some in E as (m & Hm%parse_port_Some & [= <-]).
      simpl. rewrite !Hsmall by lia. split_and!; done || lia.
Qed.

(** *** Printing and parsing *)

Lemma itoa_plain n : 0 <= n ->
  all_chars (fun c => negb (is_space c)) (itoa n) = true /\
  all_chars (fun c => negb (Ascii.eqb c colon)) (itoa n) = true /\
  all_chars (fun c => negb (Ascii.eqb c dash)) (itoa n) = true /\ itoa n <> "".
Proof.
  intros Hn. destruct (itoa_spec n Hn) as (Hd & Hne & _).
  split_and!; [| | |done]; (eapply all_chars_impl; [|exact Hd]); intros c Hc; by apply digit_plain.
Qed.

Lemma parse_port_itoa low n : low <= n -> 1 <= n <= 65535 -> parse_port low (itoa n) = Some n.
Proof.
  intros Hl Hn. destruct (itoa_plain n) as (Hs & _ & _ & Hne); [lia|].
  unfold parse_port. rewrite TrimSpace_id by done. rewrite bool_decide_false by done.
  rewrite Atoi_itoa by (unfold maxInt64; lia). simpl.
  by rewrite (proj2 (Z.ltb_ge n low)), (proj2 (Z.ltb_ge 65535 n)) by lia.
Qed.

Lemma parse_ports_of p ports :
  p ∈ ["tcp"; "udp"] -> all_chars (fun c => negb (is_space c)) ports = true ->
  all_chars (fun c => negb (Ascii.eqb c colon)) ports = true ->
  ParseServiceSelector (p +:+ ":" +:+ ports) =
    match Split dash ports with
    | [a] => first ← parse_port 1 a; Some (mkServiceSelector p (u16 first) (u16 first) false)
    | [a; b] => first ← parse_port 1 a; last ← parse_port first b; Some (mkServiceSelector p (u16 first) (u16 last) false)
    | _ => None
    end.
Proof.
  intros Hp Hs Hc. assert (Hpc : all_chars (fun c => negb (is_space c)) p = true /\
    all_chars (fun c => negb (Ascii.eqb c colon)) p = true /\ ToLower p = p /\ p <> "").
  { repeat (apply elem_of_cons in Hp as [-> | Hp]; [done|]). by apply not_elem_of_nil in Hp. }
  destruct Hpc as (H1 & H2 & H3 & H4). unfold ParseServiceSelector.
  rewrite (TrimSpace_id (p +:+ ":" +:+ ports)) by (rewrite !all_chars_app; simpl; by rewrite H1, Hs).
  rewrite bool_decide_false by (by destruct p). change (p +:+ ":" +:+ ports) with (p +:+ String colon ports).
  rewrite Split_one, Split_none by done. cbn [length]. rewrite (TrimSpace_id p), H3, (TrimSpace_id ports) by done.
  rewrite (bool_decide_false (p = "")) by done. rewrite bool_decide_true by set_solver. simpl.
  rewrite !bool_decide_false; [done| |];
    (intros ->; repeat (apply elem_of_cons in Hp as [Hp | Hp]; [done|]); by apply not_elem_of_nil in Hp).
Qed.

Lemma wf_selector_parses s : wf_selector s -> ParseServiceSelector (Canonical s) = Some s.
Proof.
  destruct s as [p f l all]. intros [(Hp & Ha & Hf & Hl) | (Hp & Ha & Hf & Hl)]; simpl in *; subst.
  - repeat (apply elem_of_cons in Hp as [-> | Hp]; [vm_compute; done|]). by apply not_elem_of_nil in Hp.
  - destruct (itoa_plain f) as (Hs1 & Hc1 & Hd1 & _); [lia|]. destruct (itoa_plain l) as (Hs2 & Hc2 & Hd2 & _); [lia|].
    assert (Hlow : ToLower (TrimSpace p) = p).
    { clear -Hp. repeat (apply elem_of_cons in Hp as [-> | Hp]; [vm_compute; done|]). by apply not_elem_of_nil in Hp. }
    assert (Hsmall : forall n, 1 <= n <= 65535 -> u16 n = n) by (intros; unfold u16; apply Z.mod_small; lia).
    unfold Canonical. cbn [ss_Protocol ss_AllPorts ss_First ss_Last]. rewrite Hlow.
    destruct (Z.eqb_spec f l) as [->|Hne].
    + rewrite parse_ports_of, Split_none by done. rewrite parse_port_itoa by lia. simpl. by rewrite Hsmall by lia.
    + rewrite parse_ports_of; [|done|by rewrite !all_chars_app; simpl; rewrite Hs1, Hs2|by rewrite !all_chars_app; simpl; rewrite Hc1, Hc2].
      change (itoa f +:+ "-" +:+ itoa l) with (itoa f +:+ String dash (itoa l)).
      rewrite Split_one, Split_none by done. rewrite !parse_port_itoa by lia. simpl. rewrite parse_port_itoa by lia. simpl.
      by rewrite !Hsmall by lia.
Qed.

(** The service grammar round-trips: the canonical form of every selector the parser
    accepts parses to that selector again. *)
Theorem ParseServiceSelector_Canonical raw s :
  ParseServiceSelector raw = Some s -> ParseServiceSelector (Canonical s) = Some s.
Proof. intros H. by apply wf_selector_parses, (ParseServiceSelector_wf raw). Qed.

Lemma ParseServiceSelector_Canonical_witness :
  ParseServiceSelector (Canonical (mkServiceSelector "tcp" 80 443 false)) = Some (mkServiceSelector "tcp" 80 443 false).
Proof. apply (ParseServiceSelector_Canonical " TCP : 80 - 0443 "). vm_compute. reflexivity. Defined.

(** ** Canonical lists *)

Lemma selector_less_asym a b : selector_less a b = true -> selector_less b a = false.
Proof.
  unfold selector_less. rewrite (bool_decide_ext (ss_Protocol b = ss_Protocol a) (ss_Protocol a = ss_Protocol b)) by done.
  case_bool_decide; cbn [negb]; [|apply str_lt_antisym].
  destruct (ss_AllPorts a), (ss_AllPorts b); cbn [Bool.eqb negb]; try done;
    rewrite (Z.eqb_sym (ss_First b)); destruct (ss_First a =? ss_First b); cbn [negb]; rewrite Z.ltb_lt, Z.ltb_ge; lia.
Qed.

Lemma str_lt_total a b : str_lt a b = false -> str_lt b a = false -> a = b.
Proof.
  unfold str_lt. rewrite (String.compare_antisym b a). destruct (String.compare a b) eqn:E; simpl; try done.
  intros. by apply String.compare_eq_iff in E.
Qed.

(** Two selectors in order by protocol, by port kind, by ports. *)
Lemma selector_not_after a b : selector_less b a = false <->
  (str_lt (ss_Protocol b) (ss_Protocol a) = false /\ ss_Protocol a <> ss_Protocol b) \/
  (ss_Protocol a = ss_Protocol b /\
   ((ss_AllPorts a = false /\ ss_AllPorts b = true) \/
    (ss_AllPorts a = ss_AllPorts b /\
     (ss_First a < ss_First b \/ (ss_First a = ss_First b /\ ss_Last a <= ss_Last b))))).
Proof.
  unfold selector_less. destruct (decide (ss_Protocol b = ss_Protocol a)) as [E|E].
  - rewrite bool_decide_true by done. cbn [negb].
    destruct (ss_AllPorts b), (ss_AllPorts a); cbn [Bool.eqb negb];
      try (destruct (Z.eqb_spec (ss_First b) (ss_First a)); cbn [negb]; rewrite Z.ltb_ge; intuition (congruence || lia)).
    + split; [intros _; right; split; [congruence | by left] | done].
    + split; [done|]. intros [[_ N] | [_ [[H _] | [H _]]]]; congruence.
  - rewrite bool_decide_false by done. cbn [negb]. naive_solver.
Qed.

Lemma selector_less_trans a b c : selector_less b a = false -> selector_less c b = false -> selector_less c a = false.
Proof.
  rewrite !selector_not_after.
  intros [[H1 N1] | (E1 & H1)] [[H2 N2] | (E2 & H2)].
  - left. split; [by eapply str_lt_not_after_trans|]. intros E. apply N1.
    rewrite <- E in H2. by apply str_lt_total.
  - left. by rewrite <- E2.
  - left. by rewrite E1.
  - right. split; [congruence|]. intuition (congruence || lia).
Qed.

Lemma collect_selectors_spec seen values l : collect_selectors seen values = Some l ->
  Forall wf_selector l /\ NoDup (Canonical <$> l) /\ (forall s, s ∈ l -> Canonical s ∉ seen).
Proof.
  revert seen l. induction values as [|raw values IH]; intros seen l; simpl.
  - intros [= <-]. split_and!; [constructor | constructor | set_solver].
  - case_bool_decide; [done|]. intros (s & Hs%ParseServiceSelector_wf & H1)%bind_Some. revert H1.
    case_bool_decide as Hseen; [apply IH|]. intros (l' & Hl' & [= <-])%bind_Some.
    destruct (IH _ _ Hl') as (H1 & H2 & H3). split_and!; [by constructor| |].
    + simpl. constructor; [|done]. intros (s' & E & Hin)%list_elem_of_fmap.
      apply (H3 _ Hin). rewrite <- E. by left.
    + intros s' [-> | Hin]%elem_of_cons; [done|]. specialize (H3 _ Hin). set_solver.
Qed.

(** Canonical forms of distinct well-formed selectors come back as they are. *)
Lemma collect_canonical seen l :
  Forall wf_selector l -> NoDup (Canonical <$> l) -> (forall s, s ∈ l -> Canonical s ∉ seen) ->
  collect_selectors seen (Canonical <$> l) = Some l.
Proof.
  intros Hwf. revert seen. induction Hwf as [|s l Hs Hwf IH]; intros seen Hnd Hseen; [done|]. simpl.
  apply NoDup_cons in Hnd as [Hnot Hnd].
  rewrite bool_decide_false.
  - rewrite wf_selector_parses by done. simpl. rewrite bool_decide_false by (apply Hseen; by left).
    rewrite IH; [done|done|]. intros s' Hin [E | Hs']%elem_of_cons.
    + apply Hnot. apply list_elem_of_fmap. eauto.
    + apply (Hseen s'); [by right | done].
  - intros E. pose proof (wf_selector_parses s Hs) as Hp. unfold ParseServiceSelector in Hp. rewrite E in Hp. done.
Qed.

(** Canonicalising a policy's services is idempotent: the list the validator stores
    is accepted again and comes back unchanged, in the same order, so a saved policy is a
    fixed point of the normaliser. *)
Theorem CanonicalServiceList_idempotent values out :
  CanonicalServiceList values = Some out -> CanonicalServiceList out = Some out.
Proof.
  unfold CanonicalServiceList. intros (l & Hl & [= <-])%bind_Some.
  destruct (collect_selectors_spec _ _ _ Hl) as (Hwf & Hnd & _).
  set (m := sort_by selector_less l). pose proof (sort_by_perm selector_less l) as Hperm. fold m in Hperm.
  rewrite collect_canonical; [| by rewrite Hperm | by rewrite Hperm | set_solver]. simpl.
  rewrite (sort_by_sorted_id selector_less m); [done|].
  apply sort_by_sorted; [apply selector_less_asym | apply selector_less_trans].
Qed.

Lemma CanonicalServiceList_idempotent_witness :
  CanonicalServiceList ["icmp"; "tcp:443"; "tcp:80-90"] = Some ["icmp"; "tcp:80-90"; "tcp:443"].
Proof.
  transitivity (CanonicalServiceList ["icmp"; "tcp:80-90"; "tcp:443"]); [vm_compute; reflexivity|].
  apply (CanonicalServiceList_idempotent ["TCP:443"; " tcp : 80-90"; "tcp:443"; "ICMP"]). vm_compute. reflexivity.
Defined.
