(* ===== verification/TLSExclusion.v ===== *)
(** * TLS exclusions ([internal/config/tls_exclusion.go], parts of [request_gate.go])

    Canonical DNS patterns, the canonical selectors of an exclusion, and the
    static check that an exclusion is not covered by an earlier one. *)

From S2P Require Import Prelude GoStr Netip Domain Config.

(** A configuration error: the object it names ([""] for a global setting) and
    the rule that is broken. *)
Record ConfigError : Type := mkConfigError { ce_Subject : string; ce_Rule : string }.

#[global] Instance ConfigError_eq_dec : EqDecision ConfigError.
Proof. solve_decision. Defined.

(** ** DNS patterns *)

Definition label_char (c : Ascii.ascii) : bool := is_lower c || is_digit c || Ascii.eqb c dash.

Definition valid_label (label : string) : bool :=
  negb ((strlen label =? 0) || (63 <? strlen label) || HasPrefix label "-" || HasSuffix label "-") &&
  all_chars label_char label.

Definition canonicalTLSDomain (raw : string) : option string :=
  let value := ToLower (TrimSuffix raw ".") in
  let wildcard := HasPrefix value "*." in
  let value := if wildcard then TrimPrefix value "*." else value in
  if (strlen value =? 0) || (253 <? strlen value) || negb (ContainsByte dot value) then None
  else if forallb valid_label (Split dot value)
  then Some (if wildcard then "*." +:+ value else value) else None.

Definition tlsDomainCovers (earlier later : string) : bool :=
  if bool_decide (earlier = later) then true
  else if negb (HasPrefix earlier "*.") then false
  else
    let apex := TrimPrefix earlier "*." in
    let later := if HasPrefix later "*." then TrimPrefix later "*." else later in
    HasSuffix later ("." +:+ apex).

Definition TLSDomainMatchesCanonical (pattern host : string) : bool :=
  match canonicalTLSDomain host with
  | None => false
  | Some canonical => if HasPrefix canonical "*." then false else tlsDomainCovers pattern canonical
  end.

(** ** Selectors *)

Record tlsExclusionSelectors : Type := mkSelectors { ts_Domains : list string; ts_CIDRs : list string; ts_Ports : list Z }.

#[global] Instance tlsExclusionSelectors_eq_dec : EqDecision tlsExclusionSelectors.
Proof. solve_decision. Defined.

(** A Go map used as a set, then sorted: no duplicates, in order. *)
Definition sorted_strings (l : list string) : list string := sort_by str_lt (remove_dups l).
Definition sorted_ints (l : list Z) : list Z := sort_by Z.ltb (remove_dups l).

Definition canonicalTLSExclusion (exclusion : TLSExclusion) : option tlsExclusionSelectors :=
  domains ← mapM canonicalTLSDomain (te_Domains exclusion);
  cidrs ← mapM (fun raw => prefix_String ∘ Masked <$> ParsePrefix raw) (te_DestinationCIDRs exclusion);
  if forallb (fun port => negb ((port <? 1) || (65535 <? port))) (te_Ports exclusion)
  then Some (mkSelectors (sorted_strings domains) (sorted_strings cidrs) (sorted_ints (te_Ports exclusion)))
  else None.

(** The JSON encoding of the ordered selectors is injective, so the selectors
    themselves are the key; [None] is an error. *)
Definition TLSExclusionEffectiveKey (c : Config) : option (list tlsExclusionSelectors) :=
  if negb (UsesM4 c) then Some []
  else mapM canonicalTLSExclusion (filter (fun e => te_Enabled e = true) (cf_TLSExclusions c)).

(** ** Coverage *)

Definition tlsDomainGroupCovers (earlier later : list string) : bool :=
  if bool_decide (earlier = []) then true
  else if bool_decide (later = []) then false
  else forallb (fun wanted => existsb (fun candidate => tlsDomainCovers candidate wanted) earlier) later.

(** Go ignores the parse error and uses the zero [Prefix]. *)
Definition prefix_of (raw : string) : Prefix := default (mkPrefix AddrZero (-1)) (ParsePrefix raw).

Definition prefix_covers (candidate wanted : Prefix) : bool :=
  (BitLen (prefix_Addr candidate) =? BitLen (prefix_Addr wanted)) && (prefix_Bits candidate <=? prefix_Bits wanted) &&
  Contains candidate (prefix_Addr wanted).

Definition tlsCIDRGroupCovers (earlier later : list string) : bool :=
  if bool_decide (earlier = []) then true
  else if bool_decide (later = []) then false
  else forallb (fun wanted => existsb (fun raw => prefix_covers (prefix_of raw) (prefix_of wanted)) earlier) later.

Definition tlsPortGroupCovers (earlier later : list Z) : bool :=
  if bool_decide (earlier = []) then true
  else if bool_decide (later = []) then false
  else forallb (fun port => bool_decide (port ∈ earlier)) later.

Definition tlsExclusionCovers (earlier later : tlsExclusionSelectors) : bool :=
  tlsDomainGroupCovers (ts_Domains earlier) (ts_Domains later) &&
  tlsCIDRGroupCovers (ts_CIDRs earlier) (ts_CIDRs later) &&
  tlsPortGroupCovers (ts_Ports earlier) (ts_Ports later).

Inductive ExclusionError : Type :=
| DuplicateExclusionID (id : string)
| ShadowedExclusion (id by_ : string)
| DuplicateExclusion (id of_ : string).

(** One iteration: the identifiers seen, the earlier enabled selectors, the errors. *)
Definition exclusion_step (st : list string * list (string * tlsExclusionSelectors) * list ExclusionError) (e : TLSExclusion)
  : list string * list (string * tlsExclusionSelectors) * list ExclusionError :=
  let '(seenIDs, earlier, errs) := st in
  let errs := if bool_decide (te_ID e ∈ seenIDs) then errs ++ [DuplicateExclusionID (te_ID e)] else errs in
  let seenIDs := te_ID e :: seenIDs in
  if negb (te_Enabled e) then (seenIDs, earlier, errs)
  else
    match canonicalTLSExclusion e with
    | None => (seenIDs, earlier, errs)
    | Some selector =>
        let errs :=
          match find (fun previous => tlsExclusionCovers previous.2 selector) earlier with
          | Some previous =>
              errs ++ [if bool_decide (previous.2 = selector) then DuplicateExclusion (te_ID e) previous.1
                       else ShadowedExclusion (te_ID e) previous.1]
          | None => errs
          end in
        (seenIDs, earlier ++ [(te_ID e, selector)], errs)
    end.

Definition TLSExclusionSemanticErrors (c : Config) : list ExclusionError :=
  if negb (UsesM4 c) then []
  else (foldl exclusion_step ([], [], []) (cf_TLSExclusions c)).2.

Example domain_examples :
  canonicalTLSDomain "*.Example.COM." = Some "*.example.com" /\ canonicalTLSDomain "localhost" = None /\
  canonicalTLSDomain "a..b" = None /\ canonicalTLSDomain "-a.b" = None /\
  TLSDomainMatchesCanonical "*.example.com" "www.EXAMPLE.com" = true /\
  TLSDomainMatchesCanonical "*.example.com" "example.com" = false.
Proof. vm_compute. repeat split. Qed.
