(* ===== verification/PolicyCheck.v ===== *)
(** * Static policy checks ([internal/config/policy_reachability.go], [policy_canonical.go])

    Before a candidate is accepted, a policy covered by one earlier policy is
    reported as unreachable, and two policies with the same effective key as
    duplicates. *)

From S2P Require Import Prelude GoStr Netip Domain Config TLSExclusion.

(** ** First-match policies *)

Definition is_l3_action (a : Decision) : bool :=
  match a with DecisionAllow | DecisionDrop | DecisionReject => true | _ => false end.

Definition isL3L4FirstMatchPolicy (policy : SecurityPolicy) : bool :=
  if negb (sp_Enabled policy) || negb (bool_decide (sp_Applications policy = [])) ||
     negb (bool_decide (sp_SecurityProfileID policy = "")) || negb (bool_decide (sp_MinimumRisk policy = None)) ||
     negb (bool_decide (sp_MaximumRisk policy = None)) then false
  else
    let scope := ToUpper (TrimSpace (sp_Scope policy)) in
    if bool_decide (scope = "") || bool_decide (scope = "SESSION") then is_l3_action (sp_Action policy) else false.

(** [m3]: a configuration is available, so profile and application fields are
    resolved against it. *)
Definition isL3L4FirstMatchPolicyForConfig (m3 : bool) (policy : SecurityPolicy) : bool :=
  if negb m3 then isL3L4FirstMatchPolicy policy
  else if negb (sp_Enabled policy) then false
  else if negb (bool_decide (sp_Scope policy = "")) && negb (EqualFold (TrimSpace (sp_Scope policy)) "SESSION") then false
  else if negb (is_l3_action (sp_Action policy)) then false
  else if negb (bool_decide (sp_MinimumRisk policy = None)) || negb (bool_decide (sp_MaximumRisk policy = None)) then false
  else if negb (bool_decide (sp_Applications policy = [])) && negb (bool_decide (sp_Action policy = DecisionAllow)) then false
  else negb (negb (bool_decide (sp_ApplicationMatchMode policy = "")) &&
             negb (EqualFold (sp_ApplicationMatchMode policy) "RESTRICT_L3_ALLOW")).

(** ** Coverage of one selector list by another *)

Definition stringSelectorsCover (earlier later : list string) : bool :=
  if bool_decide (later = []) then bool_decide (earlier = [])
  else if bool_decide (earlier = []) then true
  else forallb (fun wanted => existsb (fun candidate => EqualFold (TrimSpace candidate) (TrimSpace wanted)) earlier) later.

Definition selectorPrefix (raw : string) : option Prefix :=
  let raw := TrimSpace raw in
  match ParsePrefix raw with
  | Some prefix => Some (Masked prefix)
  | None => (fun address => PrefixFrom address (BitLen address)) <$> ParseAddr raw
  end.

Definition addressSelectorsCover (earlier later : list string) : bool :=
  if bool_decide (later = []) then bool_decide (earlier = [])
  else if bool_decide (earlier = []) then true
  else
    match mapM selectorPrefix earlier with
    | None => false
    | Some prior =>
        forallb (fun raw => match selectorPrefix raw with
                            | None => false
                            | Some wanted => existsb (fun candidate => prefix_covers candidate wanted) prior
                            end) later
    end.

Definition service_covers (candidate wanted : ServiceSelector) : bool :=
  bool_decide (ss_Protocol candidate = ss_Protocol wanted) &&
  (ss_AllPorts candidate ||
   negb (ss_AllPorts wanted) && (ss_First candidate <=? ss_First wanted) && (ss_Last wanted <=? ss_Last candidate)).

Definition serviceSelectorsCover (earlier later : list string) : bool :=
  if bool_decide (later = []) then bool_decide (earlier = [])
  else if bool_decide (earlier = []) then true
  else
    match mapM ParseServiceSelector earlier with
    | None => false
    | Some prior =>
        forallb (fun raw => match ParseServiceSelector raw with
                            | None => false
                            | Some wanted => existsb (fun candidate => service_covers candidate wanted) prior
                            end) later
    end.

Definition policyMatchCovers (earlier later : SecurityPolicy) : bool :=
  stringSelectorsCover (sp_SourceZones earlier) (sp_SourceZones later) &&
  stringSelectorsCover (sp_DestinationZones earlier) (sp_DestinationZones later) &&
  addressSelectorsCover (sp_SourceAddresses earlier) (sp_SourceAddresses later) &&
  addressSelectorsCover (sp_DestinationAddresses earlier) (sp_DestinationAddresses later) &&
  serviceSelectorsCover (sp_Services earlier) (sp_Services later).

(** *** Unreachable policies *)

Record UnreachableError : Type := mkUnreachable { ue_Later : SecurityPolicy; ue_Earlier : SecurityPolicy }.

(** The inner loop over the policies before [later]. *)
Definition covering_policy (m3 : bool) (before : list SecurityPolicy) (later : SecurityPolicy) : option SecurityPolicy :=
  find (fun earlier => negb (sp_Priority later <=? sp_Priority earlier) &&
                       isL3L4FirstMatchPolicyForConfig m3 earlier && policyMatchCovers earlier later) before.

Fixpoint unreachable_from (m3 : bool) (before ordered : list SecurityPolicy) : list UnreachableError :=
  match ordered with
  | [] => []
  | later :: rest =>
      (if isL3L4FirstMatchPolicyForConfig m3 later then
         match covering_policy m3 before later with
         | Some earlier => [mkUnreachable later earlier]
         | None => []
         end
       else []) ++ unreachable_from m3 (before ++ [later]) rest
  end.

Definition unreachablePolicyErrors (m3 : bool) (policies : list SecurityPolicy) : list UnreachableError :=
  unreachable_from m3 [] (SortPolicies policies).

Definition UnreachablePolicyErrors (policies : list SecurityPolicy) : list UnreachableError :=
  unreachablePolicyErrors false policies.

Definition M3UnreachablePolicyErrors (c : Config) : list UnreachableError := unreachablePolicyErrors true (cf_Policies c).

(** ** Effective keys *)

(** Go's loop with a [seen] map keeps the first occurrence of each value; the
    list is sorted afterwards. *)
Definition canonicalStrings (values : list string) : list string :=
  sorted_strings (filter (fun v => v <> "") ((fun v => ToLower (TrimSpace v)) <$> values)).

Definition canonicalAddress (raw : string) : string :=
  let value := TrimSpace raw in
  match ParsePrefix value with
  | Some prefix => prefix_String (Masked prefix)
  | None => match ParseAddr value with
            | Some address => prefix_String (PrefixFrom address (BitLen address))
            | None => value
            end
  end.

Definition canonicalAddresses (values : list string) : list string :=
  sorted_strings (filter (fun v => v <> "") (canonicalAddress <$> values)).

Definition canonicalScope (value : string) : string :=
  let value := ToUpper (TrimSpace value) in if bool_decide (value = "") then "SESSION" else value.

#[global] Instance InspectionProfile_eq_dec : EqDecision InspectionProfile.
Proof. solve_decision. Defined.
#[global] Instance RequestGateProfile_eq_dec : EqDecision RequestGateProfile.
Proof. solve_decision. Defined.

(** The values whose JSON encoding is the key. *)
Record ProfileKey : Type := mkProfileKey {
  pk_IDSIPSEnabled : bool;
  pk_TLSMode : TLSMode;
  pk_Inspection : option InspectionProfile;
  pk_RequestGate : option RequestGateProfile;
  pk_Exclusions : option (list tlsExclusionSelectors)
}.

#[global] Instance ProfileKey_eq_dec : EqDecision ProfileKey.
Proof. solve_decision. Defined.

(** [exclusionsKey] is [None] for the empty string. *)
Definition profileEffectiveKey (profile : SecurityProfile) (exclusionsKey : option (list tlsExclusionSelectors)) : ProfileKey :=
  match exclusionsKey, pf_RequestGate profile with
  | Some key, Some gate =>
      if gp_Enabled gate
      then mkProfileKey (pf_IDSIPSEnabled profile) (pf_TLSMode profile) (pf_Inspection profile) (Some gate) (Some key)
      else mkProfileKey (pf_IDSIPSEnabled profile) (pf_TLSMode profile) (pf_Inspection profile) None None
  | _, _ => mkProfileKey (pf_IDSIPSEnabled profile) (pf_TLSMode profile) (pf_Inspection profile) None None
  end.

Record PolicyKey : Type := mkPolicyKey {
  key_Enabled : bool;
  key_SourceZones : list string;
  key_DestinationZones : list string;
  key_SourceAddresses : list string;
  key_DestinationAddresses : list string;
  key_Services : list string;
  key_Applications : list string;
  key_ApplicationMatchMode : string;
  key_SecurityProfileID : string;
  key_ProfileSemantics : option ProfileKey;
  key_MinimumRisk : option Z;
  key_MaximumRisk : option Z;
  key_Action : string;
  key_PolicyScope : string
}.

#[global] Instance PolicyKey_eq_dec : EqDecision PolicyKey.
Proof. solve_decision. Defined.

Definition effectivePolicyKey (c : option Config) (policy : SecurityPolicy) : option PolicyKey :=
  services ← CanonicalServiceList (sp_Services policy);
  let mk profileID semantics :=
    mkPolicyKey (sp_Enabled policy) (canonicalStrings (sp_SourceZones policy)) (canonicalStrings (sp_DestinationZones policy))
      (canonicalAddresses (sp_SourceAddresses policy)) (canonicalAddresses (sp_DestinationAddresses policy)) services
      (canonicalStrings (sp_Applications policy)) (ToUpper (TrimSpace (sp_ApplicationMatchMode policy))) profileID semantics
      (sp_MinimumRisk policy) (sp_MaximumRisk policy) (ToUpper (TrimSpace (Decision_string (sp_Action policy))))
      (canonicalScope (sp_Scope policy)) in
  let plain := mk (TrimSpace (sp_SecurityProfileID policy)) None in
  match c with
  | None => Some plain
  | Some c =>
      if bool_decide (sp_SecurityProfileID policy = "") then Some plain
      else
        match find (fun profile => bool_decide (pf_ID profile = sp_SecurityProfileID policy)) (cf_Profiles c) with
        | None => Some plain
        | Some profile =>
            if UsesM4 c && from_option gp_Enabled false (pf_RequestGate profile) then
              exclusions ← TLSExclusionEffectiveKey c;
              Some (mk "" (Some (profileEffectiveKey profile (Some exclusions))))
            else Some (mk "" (Some (profileEffectiveKey profile None)))
        end
  end.

(** *** Exact duplicates *)

Record DuplicateError : Type := mkDuplicate { de_Policy : SecurityPolicy; de_Prior : SecurityPolicy }.

Definition duplicate_less (a b : SecurityPolicy) : bool :=
  if negb (sp_Priority a =? sp_Priority b) then sp_Priority a <? sp_Priority b else str_lt (sp_ID a) (sp_ID b).

Fixpoint duplicates_from (c : option Config) (seen : list (PolicyKey * SecurityPolicy)) (ordered : list SecurityPolicy) : list DuplicateError :=
  match ordered with
  | [] => []
  | policy :: rest =>
      match effectivePolicyKey c policy with
      | None => duplicates_from c seen rest
      | Some key =>
          match find (fun e => bool_decide (e.1 = key)) seen with
          | Some prior => mkDuplicate policy prior.2 :: duplicates_from c seen rest
          | None => duplicates_from c (seen ++ [(key, policy)]) rest
          end
      end
  end.

Definition exactDuplicatePolicyErrors (c : option Config) (policies : list SecurityPolicy) : list DuplicateError :=
  duplicates_from c [] (sort_by duplicate_less policies).

Definition ExactDuplicatePolicyErrors (policies : list SecurityPolicy) : list DuplicateError :=
  exactDuplicatePolicyErrors None policies.

Definition ExactDuplicatePolicyErrorsForConfig (c : Config) : list DuplicateError :=
  exactDuplicatePolicyErrors (Some c) (cf_Policies c).
