(* ===== verification/Validate.v ===== *)
(** * Validation of the inspection and request-gate settings
    ([internal/config/inspection.go], [internal/config/request_gate.go])

    Both functions return the list of everything that is wrong; the empty list
    accepts. *)

From S2P Require Import Prelude GoStr Netip Domain Config TLSExclusion PolicyCheck.

(** [^[a-zA-Z0-9][a-zA-Z0-9_.-]{0,63}$]. *)
Definition identifier_start (c : Ascii.ascii) : bool := is_lower c || is_upper c || is_digit c.
Definition identifier_char (c : Ascii.ascii) : bool :=
  identifier_start c || Ascii.eqb c underscore || Ascii.eqb c dot || Ascii.eqb c dash.

Definition ValidateIdentifier (name : string) : bool :=
  match name with
  | String c rest => identifier_start c && all_chars identifier_char rest && (strlen rest <=? 63)
  | EmptyString => false
  end.

(** [if cond { errs = append(errs, ...) }]. *)
Definition err_if (cond : bool) (subject rule : string) : list ConfigError :=
  if cond then [mkConfigError subject rule] else [].

(** No finding. *)
Lemma err_if_nil b s r : err_if b s r = [] <-> b = false.
Proof. by destruct b. Qed.

Lemma mjoin_nil {A B} (f : A -> list B) l : mjoin (f <$> l) = [] <-> forall x, x ∈ l -> f x = [].
Proof.
  induction l as [|x l IH]; simpl; [set_solver|]. rewrite app_nil, IH. setoid_rewrite elem_of_cons. naive_solver.
Qed.

(** ** The request gate *)

(** The [check] closure. *)
Definition check (name : string) (value minimum maximum : Z) : list ConfigError :=
  err_if ((value <? minimum) || (maximum <? value)) "" ("request_gate." +:+ name).

Definition gate_setting_errors (g : RequestGateConfig) : list ConfigError :=
  check "listen_http_port" (rg_ListenHTTPPort g) 1 65535 ++
  check "listen_https_port" (rg_ListenHTTPSPort g) 1 65535 ++
  err_if (rg_ListenHTTPPort g =? rg_ListenHTTPSPort g) "" "request_gate listen ports must differ" ++
  err_if (negb (ValidateIdentifier (rg_RulesetID g))) "" "request_gate.ruleset_id" ++
  check "worker_count" (rg_WorkerCount g) 1 4 ++
  check "queue_items" (rg_QueueItems g) 1 1024 ++
  check "queue_bytes" (rg_QueueBytes g) (Z.shiftl 64 10) (Z.shiftl 32 20) ++
  check "max_concurrent_requests" (rg_MaxConcurrentRequests g) 1 1024 ++
  check "max_per_client_requests" (rg_MaxPerClientRequests g) 1 1024 ++
  err_if (rg_MaxConcurrentRequests g <? rg_MaxPerClientRequests g) "" "request_gate.max_per_client_requests exceeds max_concurrent_requests" ++
  check "max_http2_streams" (rg_MaxHTTP2Streams g) 1 256 ++
  check "max_header_bytes" (rg_MaxHeaderBytes g) 1024 (Z.shiftl 64 10) ++
  check "max_header_count" (rg_MaxHeaderCount g) 1 256 ++
  check "max_url_bytes" (rg_MaxURLBytes g) 256 (Z.shiftl 16 10) ++
  check "max_raw_body_bytes" (rg_MaxRawBodyBytes g) 1 (Z.shiftl 1 20) ++
  check "max_decompressed_body_bytes" (rg_MaxDecompressedBodyBytes g) 1 (Z.shiftl 4 20) ++
  err_if (rg_MaxDecompressedBodyBytes g <? rg_MaxRawBodyBytes g) "" "request_gate.max_decompressed_body_bytes must be at least max_raw_body_bytes" ++
  check "max_decompression_ratio" (rg_MaxDecompressionRatio g) 1 100 ++
  check "request_timeout_ms" (rg_RequestTimeoutMillis g) 100 30000 ++
  check "client_hello_bytes" (rg_ClientHelloBytes g) 1024 (Z.shiftl 64 10) ++
  check "client_hello_timeout_ms" (rg_ClientHelloTimeoutMillis g) 100 5000 ++
  check "leaf_cache_entries" (rg_LeafCacheEntries g) 1 4096 ++
  check "leaf_cache_ttl_seconds" (rg_LeafCacheTTLSeconds g) 60 (24 * 60 * 60).

Definition validGatePartialAction (action : string) : bool :=
  bool_decide (action = "BLOCK") || bool_decide (action = "ALLOW_PARTIAL").

Definition hasRequestGateTCPService (services : list string) : bool :=
  bool_decide (services = []) ||
  existsb (fun raw => match ParseServiceSelector raw with
                      | Some service => bool_decide (ss_Protocol service = "tcp")
                      | None => false
                      end) services.

Definition gate_profile_errors (profile : SecurityProfile) : list ConfigError :=
  match pf_RequestGate profile with
  | None => []
  | Some gate =>
      if negb (gp_Enabled gate) then []
      else
        err_if (negb (GateFailMode_Valid (gp_FailMode gate))) (pf_ID profile) "request_gate.fail_mode" ++
        err_if (negb (validGatePartialAction (gp_OversizeAction gate))) (pf_ID profile) "request_gate.oversize_action" ++
        err_if (negb (validGatePartialAction (gp_UnsupportedEncodingAction gate))) (pf_ID profile)
          "request_gate.unsupported_encoding_action" ++
        err_if (gp_BlockQUIC gate && negb (bool_decide (pf_TLSMode profile = TLSDecrypt))) (pf_ID profile)
          "block_quic requires TLS DECRYPT"
  end.

(** [make(map)] filled in the order of the list: the last entry of a key stays. *)
Definition profiles_by_id (c : Config) : gmap string SecurityProfile :=
  foldl (fun m p => <[pf_ID p := p]> m) ∅ (cf_Profiles c).

(** Whether a policy is gated: enabled, with a profile whose gate is on. *)
Definition gated_policy (c : Config) (policy : SecurityPolicy) : bool :=
  if bool_decide (sp_SecurityProfileID policy = "") then false
  else
    match profiles_by_id c !! sp_SecurityProfileID policy with
    | Some profile => from_option gp_Enabled false (pf_RequestGate profile) && sp_Enabled policy
    | None => false
    end.

Definition gate_policy_errors (c : Config) (policy : SecurityPolicy) : list ConfigError :=
  if gated_policy c policy then
    err_if (negb (bool_decide (sp_Action policy = DecisionAllow)) || negb (bool_decide (canonicalScope (sp_Scope policy) = "SESSION")))
      (sp_ID policy) "request gate requires enabled ALLOW SESSION policy" ++
    err_if (negb (hasRequestGateTCPService (sp_Services policy))) (sp_ID policy)
      "request gate requires a TCP service or an empty service list"
  else [].

Definition exclusion_errors (e : TLSExclusion) : list ConfigError :=
  if negb (te_Enabled e) then []
  else
    let len {A} (l : list A) := Z.of_nat (length l) in
    err_if ((64 <? len (te_Domains e)) || (64 <? len (te_DestinationCIDRs e)) || (64 <? len (te_Ports e)))
      (te_ID e) "exceeds 64 selectors per group" ++
    err_if ((512 <? strlen (te_Reason e)) || (256 <? strlen (te_Name e))) (te_ID e) "name or reason is too long" ++
    err_if (negb (ValidateIdentifier (te_ID e))) (te_ID e) "invalid identifier" ++
    err_if (bool_decide (TrimSpace (te_Reason e) = "")) (te_ID e) "requires reason" ++
    err_if (bool_decide (te_Domains e = []) && bool_decide (te_DestinationCIDRs e = []) && bool_decide (te_Ports e = []))
      (te_ID e) "cannot match all destinations" ++
    mjoin ((fun raw => err_if (bool_decide (canonicalTLSDomain raw = None)) (te_ID e) ("domain " +:+ raw)) <$> te_Domains e) ++
    mjoin ((fun raw => err_if (bool_decide (ParsePrefix raw = None)) (te_ID e) ("invalid CIDR " +:+ raw)) <$> te_DestinationCIDRs e) ++
    mjoin ((fun port => err_if ((port <? 1) || (65535 <? port)) (te_ID e) "invalid port") <$> te_Ports e).

Definition exclusion_error (e : ExclusionError) : ConfigError :=
  match e with
  | DuplicateExclusionID id => mkConfigError id "duplicate tls_exclusion ID"
  | ShadowedExclusion id by_ => mkConfigError id ("is shadowed by preceding tls_exclusion " +:+ by_)
  | DuplicateExclusion id of_ => mkConfigError id ("is an exact duplicate of preceding tls_exclusion " +:+ of_)
  end.

Definition ValidateRequestGate (c : Config) : list ConfigError :=
  if negb (UsesM4 c) then []
  else
    gate_setting_errors (EffectiveRequestGateConfig c) ++
    mjoin (gate_profile_errors <$> cf_Profiles c) ++
    mjoin (gate_policy_errors c <$> cf_Policies c) ++
    err_if (1024 <? Z.of_nat (length (cf_TLSExclusions c))) "" "tls_exclusions exceeds 1024 entries" ++
    mjoin (exclusion_errors <$> cf_TLSExclusions c) ++
    (exclusion_error <$> TLSExclusionSemanticErrors c).

(** ** Inspection *)

Definition ApplicationMatchRestrictL3Allow : string := "RESTRICT_L3_ALLOW".
Definition InspectionFailOpen : string := "OPEN".
Definition BuiltinM3RulesetID : string := "m3-builtin-v1".
Definition supportedM3Applications : list string := ["HTTP"; "TLS"; "DNS"; "SSH"].

Definition limit_errors (l : InspectionLimits) : list ConfigError :=
  let negative name v := err_if (v <? 0) "" ("inspection.limits." +:+ name +:+ " must be non-negative") in
  let exceeds name v max := err_if (max <? v) "" ("inspection.limits." +:+ name +:+ " exceeds maximum") in
  negative "eve_line_bytes" (il_EVELineBytes l) ++
  negative "normalized_event_bytes" (il_NormalizedEventBytes l) ++
  negative "observation_queue_items" (il_ObservationQueueItems l) ++
  negative "observation_queue_bytes" (il_ObservationQueueBytes l) ++
  negative "security_events" (il_SecurityEvents l) ++
  negative "security_event_bytes" (il_SecurityEventBytes l) ++
  negative "correlation_pending" (il_CorrelationPending l) ++
  negative "correlation_wait_ms" (il_CorrelationWaitMillis l) ++
  negative "recent_sessions" (il_RecentSessions l) ++
  negative "recent_session_ttl_seconds" (il_RecentSessionTTLSeconds l) ++
  negative "app_detection_timeout_ms" (il_AppDetectionTimeoutMillis l) ++
  exceeds "eve_line_bytes" (il_EVELineBytes l) (Z.shiftl 4 20) ++
  exceeds "normalized_event_bytes" (il_NormalizedEventBytes l) (Z.shiftl 16 10) ++
  exceeds "observation_queue_items" (il_ObservationQueueItems l) 10000 ++
  exceeds "observation_queue_bytes" (il_ObservationQueueBytes l) (Z.shiftl 32 20) ++
  exceeds "security_events" (il_SecurityEvents l) 10000 ++
  exceeds "security_event_bytes" (il_SecurityEventBytes l) (Z.shiftl 32 20) ++
  exceeds "correlation_pending" (il_CorrelationPending l) 4096 ++
  exceeds "correlation_wait_ms" (il_CorrelationWaitMillis l) 5000 ++
  exceeds "recent_sessions" (il_RecentSessions l) 5000 ++
  exceeds "recent_session_ttl_seconds" (il_RecentSessionTTLSeconds l) 60 ++
  exceeds "app_detection_timeout_ms" (il_AppDetectionTimeoutMillis l) 30000 ++
  err_if ((0 <? il_AppDetectionTimeoutMillis l) && (il_AppDetectionTimeoutMillis l <? 1000)) "" "app_detection_timeout_ms must be at least 1000" ++
  err_if ((il_ObservationQueueBytes l <? il_NormalizedEventBytes l) && (0 <? il_ObservationQueueBytes l)) ""
    "normalized_event_bytes must not exceed observation_queue_bytes" ++
  err_if ((il_SecurityEventBytes l <? il_NormalizedEventBytes l) && (0 <? il_SecurityEventBytes l)) ""
    "normalized_event_bytes must not exceed security_event_bytes".

Definition inspection_profile_errors (c : Config) (profile : SecurityProfile) : list ConfigError :=
  match pf_Inspection profile with
  | None => []
  | Some ip =>
      let id := pf_ID profile in
      err_if (negb (InspectionMode_Valid (ip_Mode ip))) id "inspection.mode is invalid" ++
      err_if (bool_decide (ip_Mode ip = InspectionModeOff)) id "inspection.mode must be IDS or IPS" ++
      err_if (negb (EqualFold (TrimSpace (ip_FailMode ip)) InspectionFailOpen)) id "inspection.fail_mode must be OPEN" ++
      err_if (negb (bool_decide (ip_RulesetID ip = BuiltinM3RulesetID))) id "inspection.ruleset_id is not installed" ++
      err_if (negb (pf_IDSIPSEnabled profile)) id "must enable ids_ips_enabled" ++
      err_if (pf_DPIEnabled profile) id "enables DPI" ++
      err_if (pf_DNSSecurityEnabled profile || pf_URLFilteringEnabled profile || pf_ThreatIntelEnabled profile ||
              pf_BehaviorEnabled profile || pf_MLDetectionEnabled profile) id "enables a feature outside M3" ++
      err_if (bool_decide (pf_TLSMode profile = TLSDecrypt) &&
              negb (UsesM4 c && from_option gp_Enabled false (pf_RequestGate profile))) id "TLS DECRYPT is unsupported in M3" ++
      err_if (pf_InspectionRequired profile || bool_decide (pf_InspectionFailureAction profile = DecisionDrop) ||
              bool_decide (pf_InspectionFailureAction profile = DecisionReject)) id "legacy fail-closed settings unsupported in M3"
  end.

Definition inspection_policy_errors (c : Config) (policy : SecurityPolicy) : list ConfigError :=
  let id := sp_ID policy in
  let profile := profiles_by_id c !! sp_SecurityProfileID policy in
  let profileIsM3 :=
    match profile ≫= pf_Inspection with
    | Some ip => negb (bool_decide (ip_Mode ip = InspectionModeOff))
    | None => false
    end in
  let hasApps := negb (bool_decide (sp_Applications policy = [])) in
  let mode := ToUpper (TrimSpace (sp_ApplicationMatchMode policy)) in
  if negb (sp_Enabled policy) then []
  else if negb (hasApps || negb (bool_decide (sp_ApplicationMatchMode policy = "")) || profileIsM3) then []
  else if negb (UsesM3 c) then [mkConfigError id "uses M3 inspection but inspection.enabled is false"]
  else
    (if hasApps then
       err_if (negb (bool_decide (sp_Action policy = DecisionAllow))) id "application restriction requires ALLOW" ++
       err_if (negb (bool_decide (ToUpper (TrimSpace (sp_Scope policy)) = "SESSION")) &&
               negb (bool_decide (TrimSpace (sp_Scope policy) = ""))) id "application restriction requires SESSION scope" ++
       err_if (negb (bool_decide (mode = ApplicationMatchRestrictL3Allow))) id "application_match_mode must be RESTRICT_L3_ALLOW"
     else []) ++
    err_if (negb (bool_decide (sp_ApplicationMatchMode policy = "")) && negb (bool_decide (mode = ApplicationMatchRestrictL3Allow)))
      id "application_match_mode is unsupported" ++
    mjoin ((fun raw => err_if (negb (bool_decide (ToUpper (TrimSpace raw) ∈ supportedM3Applications))) id "application is unsupported in M3")
             <$> sp_Applications policy) ++
    err_if (negb (bool_decide (sp_MinimumRisk policy = None)) || negb (bool_decide (sp_MaximumRisk policy = None)))
      id "risk thresholds are not available in M3" ++
    (if bool_decide (sp_SecurityProfileID policy = "") then [mkConfigError id "application inspection requires security_profile_id"]
     else match profile ≫= pf_Inspection with
          | None => [mkConfigError id "references a profile without M3 inspection"]
          | Some ip => err_if (hasApps && negb (bool_decide (ip_Mode ip = InspectionModeIPS))) id
                         "application restriction requires an IPS profile"
          end).

Definition ValidateInspection (c : Config) : list ConfigError :=
  match cf_Inspection c with Some i => limit_errors (ic_Limits i) | None => [] end ++
  mjoin (inspection_profile_errors c <$> cf_Profiles c) ++
  mjoin (inspection_policy_errors c <$> cf_Policies c).
