(* ===== verification/Connectivity.v ===== *)
(** * The connectivity program ([internal/connectivity])

    A configuration compiles to an ordered list of L3/L4 rules with first-match
    semantics, plus what the later milestones attach to a matched policy: an
    inspection selection and a request-gate plan. *)

From S2P Require Import Prelude GoStr Netip Domain Config TLSExclusion PolicyCheck Validate.

(** ** Data *)

Record PortRange : Type := mkPortRange { pt_First : Z; pt_Last : Z }.

#[global] Instance PortRange_eq_dec : EqDecision PortRange.
Proof. solve_decision. Defined.

Definition port_Contains (p : PortRange) (port : Z) : bool := (pt_First p <=? port) && (port <=? pt_Last p).

Record Service : Type := mkService { sv_Protocol : Z; sv_Ports : list PortRange }.

Record Rule : Type := mkRule {
  ru_ID : string;
  ru_Name : string;
  ru_Priority : Z;
  ru_SourceZones : gset string;
  ru_DestinationZones : gset string;
  ru_SourceAddresses : list Prefix;
  ru_DestinationAddresses : list Prefix;
  ru_Services : list Service;
  ru_Action : Decision;
  ru_Enabled : bool
}.

(** Go's [Rule{}]. *)
Definition rule_zero : Rule := mkRule "" "" 0 ∅ ∅ [] [] [] DecisionNone false.

Record InspectionSelection : Type := mkInspectionSelection {
  is_PolicyID : string;
  is_ProfileID : string;
  is_Mode : InspectionMode;
  is_RulesetID : string;
  is_AllowedApps : list string;
  is_AppDetectionTimeoutMillis : Z;
  is_Generation : Z
}.

Record TLSExclusionRule : Type := mkTLSExclusionRule {
  xr_ID : string;
  xr_Reason : string;
  xr_Domains : list string;
  xr_CIDRs : list Prefix;
  xr_Ports : list Z
}.

(** The compiled exclusions and the port list are immutable after compilation, so
    sharing them or copying them is the same; [Clone] is the identity. *)
Record RequestGatePlan : Type := mkRequestGatePlan {
  rp_Enabled : bool;
  rp_PolicyID : string;
  rp_ProfileID : string;
  rp_Generation : Z;
  rp_TLSMode : TLSMode;
  rp_FailMode : GateFailMode;
  rp_OversizeAction : string;
  rp_EncodingAction : string;
  rp_BlockQUIC : bool;
  rp_RulesetID : string;
  rp_exclusions : option (list TLSExclusionRule);
  rp_tcpPorts : list PortRange
}.

Record Program : Type := mkProgram {
  pr_Rules : list Rule;
  pr_DefaultDeny : bool;
  pr_Generation : Z;
  pr_Selections : gmap string InspectionSelection;
  pr_requestGates : gmap string RequestGatePlan;
  pr_InspectionIncludeManagement : bool;
  pr_ManagementZones : gset string;
  pr_zonePrefixes : gmap string (list Prefix);
  pr_localAddresses : gset Addr
}.

#[global] Instance eta_Program : Eta Program := fun p =>
  mkProgram (pr_Rules p) (pr_DefaultDeny p) (pr_Generation p) (pr_Selections p) (pr_requestGates p)
    (pr_InspectionIncludeManagement p) (pr_ManagementZones p) (pr_zonePrefixes p) (pr_localAddresses p).

Definition ZoneLocal : string := "local".
Definition ZoneUnknown : string := "unknown".

Record View : Type := mkView {
  vw_SourceIP : Addr;
  vw_DestinationIP : Addr;
  vw_SourcePort : Z;
  vw_DestinationPort : Z;
  vw_Protocol : Z;
  vw_SourceZone : string;
  vw_DestinationZone : string
}.

Record PolicyVerdict : Type := mkPolicyVerdict {
  pv_Action : Decision;
  pv_PolicyID : string;
  pv_Generation : Z;
  pv_Reason : string
}.

Inductive CompileError : Type :=
| DuplicatePriority (priority : Z)
| NotL3L4 (policy : string)
| InvalidAddresses (policy : string)
| InvalidService (policy service : string)
| OutsideScope (policy : string)
| MissingCapability (name : string)
| InvalidInspection
| InvalidRequestGate
| DuplicatePolicy
| UnreachablePolicy
| InvalidExclusion (id : string).

(** ** Compiling selectors *)

Definition parseInterfacePrefix (value : string) : option Prefix :=
  let value := TrimSpace value in
  match ParsePrefix value with
  | Some prefix => Some (Masked prefix)
  | None => (fun addr => PrefixFrom addr (if Is4 addr then 32 else 128)) <$> ParseAddr value
  end.

Definition parseInterfaceAddress (value : string) : option Addr :=
  let value := TrimSpace value in
  match ParsePrefix value with
  | Some prefix => Some (prefix_Addr prefix)
  | None => ParseAddr value
  end.

Definition zone_key (z : string) : string := ToLower (TrimSpace z).

Definition stringSet (values : list string) : gset string :=
  list_to_set (filter (fun v => v <> "") (zone_key <$> values)).

(** One element of [prefixes]: [Ok None] is a blank entry, which is skipped. *)
Definition parse_address (value : string) : option (option Prefix) :=
  let value := TrimSpace value in
  if bool_decide (value = "") then Some None
  else match ParseAddr value with
       | Some addr => Some (Some (PrefixFrom addr (if Is4 addr then 32 else 128)))
       | None => (fun prefix => Some (Masked prefix)) <$> ParsePrefix value
       end.

Definition prefixes (values : list string) : option (list Prefix) :=
  l ← mapM parse_address values; Some (omap id l).

Definition parseService (value : string) : option Service :=
  selector ← ParseServiceSelector value;
  proto ← ParseProtocol (ss_Protocol selector);
  Some (mkService proto (if ss_AllPorts selector then [] else [mkPortRange (ss_First selector) (ss_Last selector)])).

(** ** Compile *)

(** What one interface contributes. *)
Definition add_address (zone : string) (st : gmap string (list Prefix) * gset Addr) (raw : string)
  : gmap string (list Prefix) * gset Addr :=
  let '(zones, locals) := st in
  match parseInterfacePrefix raw with
  | None => st
  | Some prefix =>
      let locals := match parseInterfaceAddress raw with Some a => {[a]} ∪ locals | None => locals end in
      let zones := if bool_decide (TrimSpace zone = "") then zones
                   else <[zone := default [] (zones !! zone) ++ [prefix]]> zones in
      (zones, locals)
  end.

Definition add_interface (program : Program) (iface : Interface) : Program :=
  let program :=
    if bool_decide (if_Mode iface = InterfaceManagement) && negb (bool_decide (TrimSpace (if_ZoneID iface) = ""))
    then program <| pr_ManagementZones ::= fun z => {[zone_key (if_ZoneID iface)]} ∪ z |> else program in
  let '(zones, locals) :=
    foldl (add_address (if_ZoneID iface)) (pr_zonePrefixes program, pr_localAddresses program)
      (if_IPv4Addresses iface ++ if_IPv6Addresses iface) in
  program <| pr_zonePrefixes := zones |> <| pr_localAddresses := locals |>.

Definition add_route (interfacesByID : gmap string Interface) (program : Program) (route : Route) : Program :=
  if negb (rt_Enabled route) then program
  else
    match interfacesByID !! rt_InterfaceID route with
    | None => program
    | Some iface =>
        if bool_decide (TrimSpace (if_ZoneID iface) = "") then program
        else
          match ParsePrefix (TrimSpace (rt_DestinationCIDR route)) with
          | Some prefix =>
              program <| pr_zonePrefixes ::= fun zones =>
                <[if_ZoneID iface := default [] (zones !! if_ZoneID iface) ++ [Masked prefix]]> zones |>
          | None => program
          end
    end.

(** [make(map)] filled in the order of the list: the last entry of a key stays. *)
Definition index_by {A} (key : A -> string) (l : list A) : gmap string A :=
  foldl (fun m x => <[key x := x]> m) ∅ l.

Fixpoint parse_services (policy : string) (values : list string) : result CompileError (list Service) :=
  match values with
  | [] => Ok []
  | raw :: rest =>
      match parseService raw with
      | None => Err (InvalidService policy raw)
      | Some service => let? services := parse_services policy rest in Ok (service :: services)
      end
  end.

Definition compile_rule (policy : SecurityPolicy) : result CompileError Rule :=
  if negb (is_l3_action (sp_Action policy)) then Err (NotL3L4 (sp_ID policy))
  else
    match prefixes (sp_SourceAddresses policy) with
    | None => Err (InvalidAddresses (sp_ID policy))
    | Some sources =>
        match prefixes (sp_DestinationAddresses policy) with
        | None => Err (InvalidAddresses (sp_ID policy))
        | Some destinations =>
            let? services := parse_services (sp_ID policy) (sp_Services policy) in
            Ok (mkRule (sp_ID policy) (sp_Name policy) (sp_Priority policy) (stringSet (sp_SourceZones policy))
                  (stringSet (sp_DestinationZones policy)) sources destinations services (sp_Action policy) true)
        end
    end.

(** The loop over the sorted policies. *)
Fixpoint compile_rules (seenPriority : gset Z) (policies : list SecurityPolicy) : result CompileError (list Rule) :=
  match policies with
  | [] => Ok []
  | policy :: rest =>
      if bool_decide (sp_Priority policy ∈ seenPriority) then Err (DuplicatePriority (sp_Priority policy))
      else
        let seenPriority := {[sp_Priority policy]} ∪ seenPriority in
        if negb (sp_Enabled policy) then compile_rules seenPriority rest
        else let? rule := compile_rule policy in
             let? rules := compile_rules seenPriority rest in Ok (rule :: rules)
  end.

Definition program_zero (defaultDeny : bool) (generation : Z) : Program :=
  mkProgram [] defaultDeny generation ∅ ∅ false ∅ ∅ ∅.

Definition Compile (config : Config) (generation : Z) : result CompileError Program :=
  let program := foldl add_interface (program_zero (cf_DefaultDeny config) generation) (cf_Interfaces config) in
  let program := foldl (add_route (index_by if_ID (cf_Interfaces config))) program (cf_Routes config) in
  let? rules := compile_rules ∅ (SortPolicies (cf_Policies config)) in
  Ok (program <| pr_Rules := rules |>).

(** [CompileM2] refuses what the L3/L4 runtime cannot enforce. *)
Definition m2_policy (policy : SecurityPolicy) : bool :=
  let scope := ToUpper (TrimSpace (sp_Scope policy)) in
  negb (sp_Enabled policy) ||
  bool_decide (sp_Applications policy = []) && bool_decide (sp_SecurityProfileID policy = "") &&
  bool_decide (sp_MinimumRisk policy = None) && bool_decide (sp_MaximumRisk policy = None) &&
  (bool_decide (scope = "") || bool_decide (scope = "SESSION")).

Definition CompileM2 (config : Config) (generation : Z) : result CompileError Program :=
  match find (fun p => negb (m2_policy p)) (cf_Policies config) with
  | Some policy => Err (OutsideScope (sp_ID policy))
  | None => Compile config generation
  end.

(** ** Evaluation *)

Definition addressMatch (prefixes : list Prefix) (addr : Addr) : bool :=
  bool_decide (prefixes = []) || existsb (fun p => Contains p addr) prefixes.

Definition serviceMatch (view : View) (service : Service) : bool :=
  (sv_Protocol service =? vw_Protocol view) &&
  (bool_decide (sv_Ports service = []) || existsb (fun p => port_Contains p (vw_DestinationPort view)) (sv_Ports service)).

Definition zoneMatch (zones : gset string) (zone : string) : bool :=
  bool_decide (zones = ∅) || bool_decide (zone_key zone ∈ zones).

Definition ruleMatches (rule : Rule) (view : View) : bool :=
  zoneMatch (ru_SourceZones rule) (vw_SourceZone view) &&
  zoneMatch (ru_DestinationZones rule) (vw_DestinationZone view) &&
  addressMatch (ru_SourceAddresses rule) (vw_SourceIP view) &&
  addressMatch (ru_DestinationAddresses rule) (vw_DestinationIP view) &&
  (bool_decide (ru_Services rule = []) || existsb (serviceMatch view) (ru_Services rule)).

Definition Evaluate (p : Program) (view : View) : PolicyVerdict :=
  match find (fun rule => ru_Enabled rule && ruleMatches rule view) (pr_Rules p) with
  | Some rule => mkPolicyVerdict (ru_Action rule) (ru_ID rule) (pr_Generation p) ("policy " +:+ ru_ID rule +:+ " matched")
  | None => if pr_DefaultDeny p then mkPolicyVerdict DecisionDrop "" (pr_Generation p) "default deny"
            else mkPolicyVerdict DecisionAllow "" (pr_Generation p) "default allow"
  end.

Definition MatchBothDirections (p : Program) (original reply : View) : PolicyVerdict := Evaluate p original.

Definition ViewFromTuple (t : Tuple) (sourceZone destinationZone : string) : View :=
  mkView (tp_SrcIP t) (tp_DstIP t) (tp_SrcPort t) (tp_DstPort t) (tp_Protocol t) sourceZone destinationZone.

(** *** Zones of an address *)

Record zoneSearch : Type := mkZoneSearch { zs_bits : Z; zs_zone : string; zs_ambiguous : bool }.

Definition zone_step (addr : Addr) (zone : string) (st : zoneSearch) (prefix : Prefix) : zoneSearch :=
  if Contains prefix addr then
    let bits := prefix_Bits prefix in
    if zs_bits st <? bits then mkZoneSearch bits zone false
    else if (bits =? zs_bits st) && negb (bool_decide (zone = zs_zone st)) then mkZoneSearch (zs_bits st) (zs_zone st) true
    else st
  else st.

(** [order] is the order in which Go's iteration visits [zonePrefixes]. *)
Definition InferAddressZone (p : Program) (order : list (string * list Prefix)) (addr : Addr) : string :=
  if negb (addr_IsValid addr) then ""
  else if IsLoopback addr then ZoneLocal
  else if bool_decide (addr ∈ pr_localAddresses p) then ZoneLocal
  else
    let st := foldl (fun st e => foldl (zone_step addr e.1) st e.2) (mkZoneSearch (-1) "" false) order in
    if zs_ambiguous st || (zs_bits st <? 0) then "" else zs_zone st.

Definition InferZones (p : Program) (order1 order2 : list (string * list Prefix)) (tuple : Tuple) : string * string :=
  (InferAddressZone p order1 (tp_SrcIP tuple), InferAddressZone p order2 (tp_DstIP tuple)).

(** ** Inspection *)

Record Capabilities : Type := mkCapabilities { cap_Inspection : bool; cap_RequestGate : bool }.

Definition selection_for (c : Config) (generation : Z) (rule : Rule) : InspectionSelection :=
  let timeout := il_AppDetectionTimeoutMillis (ic_Limits (EffectiveInspectionConfig c)) in
  let policy := index_by sp_ID (cf_Policies c) !! ru_ID rule in
  let profileID := from_option sp_SecurityProfileID "" policy in
  let apps := sorted_strings (filter (fun a => a <> "") ((fun raw => ToUpper (TrimSpace raw)) <$> from_option sp_Applications [] policy)) in
  match index_by pf_ID (cf_Profiles c) !! profileID with
  | Some profile =>
      match pf_Inspection profile with
      | Some i => mkInspectionSelection (ru_ID rule) (pf_ID profile) (ip_Mode i) (ip_RulesetID i) apps timeout generation
      | None => mkInspectionSelection (ru_ID rule) "" InspectionModeOff "" apps timeout generation
      end
  | None => mkInspectionSelection (ru_ID rule) "" InspectionModeOff "" apps timeout generation
  end.

Definition CompileM3 (c : Config) (generation : Z) : result CompileError Program :=
  if negb (bool_decide (ValidateInspection c = [])) then Err InvalidInspection
  else match ExactDuplicatePolicyErrorsForConfig c with
  | _ :: _ => Err DuplicatePolicy
  | [] =>
      match M3UnreachablePolicyErrors c with
      | _ :: _ => Err UnreachablePolicy
      | [] =>
          let? program := Compile c generation in
          Ok (program <| pr_InspectionIncludeManagement := ic_IncludeManagement (EffectiveInspectionConfig c) |>
                <| pr_Selections := foldl (fun m rule => <[ru_ID rule := selection_for c generation rule]> m) ∅ (pr_Rules program) |>)
      end
  end.

Definition selection_off (policyID : string) (generation : Z) : InspectionSelection :=
  mkInspectionSelection policyID "" InspectionModeOff "" [] 0 generation.

Definition SelectInspection (program : Program) (view : View) : InspectionSelection :=
  let decision := Evaluate program view in
  let off := selection_off (pv_PolicyID decision) (pr_Generation program) in
  if bool_decide (pv_PolicyID decision = "") || negb (bool_decide (pv_Action decision = DecisionAllow)) then off
  else if negb (pr_InspectionIncludeManagement program) &&
          (bool_decide (zone_key (vw_SourceZone view) ∈ pr_ManagementZones program) ||
           bool_decide (zone_key (vw_DestinationZone view) ∈ pr_ManagementZones program)) then off
  else default off (pr_Selections program !! pv_PolicyID decision).

(** ** Request gates *)

Definition port_less (a b : PortRange) : bool :=
  if negb (pt_First a =? pt_First b) then pt_First a <? pt_First b else pt_Last a <? pt_Last b.

(** One iteration of the merge; [merged] in reverse, its last range first. *)
Definition merge_port (merged : list PortRange) (port : PortRange) : list PortRange :=
  match merged with
  | [] => [port]
  | top :: rest =>
      if u32 (pt_Last top + 1) <? pt_First port then port :: merged
      else if pt_Last top <? pt_Last port then mkPortRange (pt_First top) (pt_Last port) :: rest
      else merged
  end.

Definition tcp_ranges (rule : Rule) : list PortRange :=
  filter (fun p => 0 < pt_First p /\ pt_First p <= pt_Last p)
    (mjoin (sv_Ports <$> filter (fun s => sv_Protocol s = 6) (ru_Services rule))).

Definition RequestGateTCPPorts (rule : Rule) : list PortRange :=
  if bool_decide (ru_Services rule = []) then [mkPortRange 80 80; mkPortRange 443 443]
  else rev (foldl merge_port [] (sort_by port_less (tcp_ranges rule))).

Definition compile_exclusion (item : TLSExclusion) : result CompileError TLSExclusionRule :=
  match mapM canonicalTLSDomain (te_Domains item) with
  | None => Err (InvalidExclusion (te_ID item))
  | Some domains =>
      match mapM (fun raw => Masked <$> ParsePrefix raw) (te_DestinationCIDRs item) with
      | None => Err (InvalidExclusion (te_ID item))
      | Some cidrs => Ok (mkTLSExclusionRule (te_ID item) (te_Reason item) domains cidrs (u16 <$> te_Ports item))
      end
  end.

Definition compileTLSExclusions (exclusions : list TLSExclusion) : result CompileError (list TLSExclusionRule) :=
  mapM_result compile_exclusion (filter (fun e => te_Enabled e = true) exclusions).

Definition exclusion_matches (rule : TLSExclusionRule) (host : string) (dest : AddrPort) : bool :=
  (bool_decide (xr_Domains rule = []) || existsb (fun pattern => TLSDomainMatchesCanonical pattern host) (xr_Domains rule)) &&
  (bool_decide (xr_CIDRs rule = []) || existsb (fun prefix => Contains prefix (ap_Addr dest)) (xr_CIDRs rule)) &&
  (bool_decide (xr_Ports rule = []) || existsb (fun port => port =? ap_Port dest) (xr_Ports rule)).

Definition MatchTLSExclusion (plan : RequestGatePlan) (host : string) (dest : AddrPort) : option TLSExclusionRule :=
  if negb (rp_Enabled plan) || negb (addrport_IsValid dest) then None
  else match rp_exclusions plan with
       | None => None
       | Some rules => find (fun rule => exclusion_matches rule host dest) rules
       end.

Definition hasReferencedGateProfile (c : Config) : bool :=
  existsb (fun policy => sp_Enabled policy &&
    existsb (fun profile => negb (bool_decide (pf_RequestGate profile = None)) && bool_decide (pf_ID profile = sp_SecurityProfileID policy))
      (cf_Profiles c)) (cf_Policies c).

Definition m4_policy (policy : SecurityPolicy) : bool :=
  negb (sp_Enabled policy) ||
  bool_decide (sp_MinimumRisk policy = None) && bool_decide (sp_MaximumRisk policy = None) &&
  (bool_decide (sp_Scope policy = "") || EqualFold (TrimSpace (sp_Scope policy)) "SESSION").

(** The plan of one policy, when it is an enabled ALLOW with an enabled gate. *)
Definition gate_plan (c : Config) (generation : Z) (exclusions : list TLSExclusionRule) (rules : gmap string Rule)
  (policy : SecurityPolicy) : option RequestGatePlan :=
  if negb (sp_Enabled policy) || negb (bool_decide (sp_Action policy = DecisionAllow)) then None
  else
    profile ← index_by pf_ID (cf_Profiles c) !! sp_SecurityProfileID policy;
    gate ← pf_RequestGate profile;
    if gp_Enabled gate then
      Some (mkRequestGatePlan true (sp_ID policy) (pf_ID profile) generation (pf_TLSMode profile) (gp_FailMode gate)
              (gp_OversizeAction gate) (gp_UnsupportedEncodingAction gate) (gp_BlockQUIC gate)
              (rg_RulesetID (EffectiveRequestGateConfig c)) (Some exclusions)
              (RequestGateTCPPorts (default rule_zero (rules !! sp_ID policy))))
    else None.

Definition add_gate (c : Config) (generation : Z) (exclusions : list TLSExclusionRule) (rules : gmap string Rule)
  (m : gmap string RequestGatePlan) (policy : SecurityPolicy) : gmap string RequestGatePlan :=
  match gate_plan c generation exclusions rules policy with
  | Some plan => <[sp_ID policy := plan]> m
  | None => m
  end.

Definition CompileM4 (c : Config) (generation : Z) : result CompileError Program :=
  if UsesM4 c && negb (bool_decide (ValidateRequestGate c = [])) then Err InvalidRequestGate
  else
    match find (fun p => negb (m4_policy p)) (cf_Policies c) with
    | Some policy => Err (OutsideScope (sp_ID policy))
    | None =>
        let? program := CompileM3 c generation in
        if negb (UsesM4 c) then Ok program
        else
          let? exclusions := compileTLSExclusions (cf_TLSExclusions c) in
          Ok (program <| pr_requestGates :=
                foldl (add_gate c generation exclusions (index_by ru_ID (pr_Rules program))) ∅ (cf_Policies c) |>)
    end.

Definition CompileForCapabilities (c : Config) (generation : Z) (caps : Capabilities) : result CompileError Program :=
  if UsesM4 c then
    if negb (cap_RequestGate caps) then Err (MissingCapability "request gate")
    else if UsesM3 c && negb (cap_Inspection caps) then Err (MissingCapability "inspection")
    else CompileM4 c generation
  else if hasReferencedGateProfile c then
    if UsesM3 c && negb (cap_Inspection caps) then Err (MissingCapability "inspection") else CompileM4 c generation
  else if negb (UsesM3 c) then CompileM2 c generation
  else if negb (cap_Inspection caps) then Err (MissingCapability "inspection")
  else CompileM3 c generation.

Definition plan_off (policyID : string) (generation : Z) : RequestGatePlan :=
  mkRequestGatePlan false policyID "" generation (TLSModeOther "") (GateFailModeOther "") "" "" false "" None [].

Definition SelectRequestGate (program : Program) (view : View) : RequestGatePlan :=
  let decision := Evaluate program view in
  let off := plan_off (pv_PolicyID decision) (pr_Generation program) in
  if negb (bool_decide (pv_Action decision = DecisionAllow)) || bool_decide (pv_PolicyID decision = "") ||
     negb (vw_Protocol view =? 6) then off
  else
    match pr_requestGates program !! pv_PolicyID decision with
    | None => off
    | Some plan => if existsb (fun ports => port_Contains ports (vw_DestinationPort view)) (rp_tcpPorts plan) then plan else off
    end.
