(* ===== verification/ConnProps.v ===== *)
(** * What the connectivity program promises

    First-match semantics against the configuration, soundness of the
    reachability check, the zone of an address, and the ports a request gate may
    intercept. *)

From S2P Require Import Prelude GoStr Netip Domain Config Services TLSExclusion PolicyCheck Validate Connectivity.

(** ** Compiled rules and policies *)

Lemma compile_rules_spec seen policies rules : compile_rules seen policies = Ok rules ->
  Forall2 (fun pol r => compile_rule pol = Ok r) (filter (fun pol => sp_Enabled pol = true) policies) rules /\
  NoDup (sp_Priority <$> policies).
Proof.
  assert (Hgo : forall seen policies rules, compile_rules seen policies = Ok rules ->
    Forall2 (fun pol r => compile_rule pol = Ok r) (filter (fun pol => sp_Enabled pol = true) policies) rules /\
    NoDup (sp_Priority <$> policies) /\ (forall pol, pol ∈ policies -> sp_Priority pol ∉ seen)).
  { clear. intros seen policies. revert seen. induction policies as [|pol policies IH]; intros seen rules; simpl.
    - intros [= <-]. split_and!; [constructor | constructor | set_solver].
    - case_bool_decide as Hseen; [done|]. intros H.
      assert (exists rules', Forall2 (fun pol r => compile_rule pol = Ok r) (filter (fun pol => sp_Enabled pol = true) policies) rules' /\
        compile_rules ({[sp_Priority pol]} ∪ seen) policies = Ok rules' /\
        Forall2 (fun pol r => compile_rule pol = Ok r) (filter (fun pol => sp_Enabled pol = true) (pol :: policies)) rules) as (rules' & _ & Hr & Hf).
      { rewrite filter_cons. destruct (sp_Enabled pol) eqn:Hen; simpl in H.
        - apply result_bind_Ok in H as (r & Hr & H). apply result_bind_Ok in H as (rs & Hrs & [= <-]).
          destruct (IH _ _ Hrs) as (HF & _). exists rs. split_and!; [done|done|]. rewrite decide_True by done. by constructor.
        - destruct (IH _ _ H) as (HF & _). exists rules. split_and!; [done|done|]. by rewrite decide_False. }
      destruct (IH _ _ Hr) as (_ & Hnd & Hnot). split_and!; [done| |].
      + constructor; [|done]. intros (pol' & E & Hin)%list_elem_of_fmap. apply (Hnot _ Hin). rewrite <- E. set_solver.
      + intros pol' [-> | Hin]%elem_of_cons; [done|]. specialize (Hnot _ Hin). set_solver. }
  intros H. destruct (Hgo _ _ _ H) as (H1 & H2 & _). done.
Qed.

Lemma compile_rule_spec pol r : compile_rule pol = Ok r ->
  ru_ID r = sp_ID pol /\ ru_Priority r = sp_Priority pol /\ ru_Action r = sp_Action pol /\ ru_Enabled r = true /\
  ru_SourceZones r = stringSet (sp_SourceZones pol) /\ ru_DestinationZones r = stringSet (sp_DestinationZones pol) /\
  prefixes (sp_SourceAddresses pol) = Some (ru_SourceAddresses r) /\
  prefixes (sp_DestinationAddresses pol) = Some (ru_DestinationAddresses r) /\
  parse_services (sp_ID pol) (sp_Services pol) = Ok (ru_Services r) /\ is_l3_action (sp_Action pol) = true.
Proof.
  unfold compile_rule. destruct (is_l3_action (sp_Action pol)) eqn:Ha; simpl; [|done].
  destruct (prefixes (sp_SourceAddresses pol)) as [src|]; [|done].
  destruct (prefixes (sp_DestinationAddresses pol)) as [dst|]; [|done].
  intros H. apply result_bind_Ok in H as (svc & Hs & [= <-]). done.
Qed.

Lemma SortPolicies_sorted l : StronglySorted (fun a b => sp_Priority a <= sp_Priority b) (SortPolicies l).
Proof.
  eapply StronglySorted_weaken; [|apply (sort_by_sorted policy_less)].
  - intros a b. unfold not_after, policy_less. rewrite Z.ltb_ge. done.
  - intros a b. unfold policy_less. rewrite Z.ltb_lt, Z.ltb_ge. lia.
  - intros a b c. unfold policy_less. rewrite !Z.ltb_ge. lia.
Qed.

(** The rules of a compiled program are the enabled policies in priority order,
    each compiled. *)
Lemma Compile_rules c g p : Compile c g = Ok p ->
  Forall2 (fun pol r => compile_rule pol = Ok r) (filter (fun pol => sp_Enabled pol = true) (SortPolicies (cf_Policies c))) (pr_Rules p) /\
  NoDup (sp_Priority <$> SortPolicies (cf_Policies c)) /\ pr_DefaultDeny p = cf_DefaultDeny c /\ pr_Generation p = g.
Proof.
  unfold Compile. intros H. apply result_bind_Ok in H as (rules & Hr & [= <-]).
  destruct (compile_rules_spec _ _ _ Hr) as [HF Hnd].
  assert (Hbase : forall ifs p0, pr_DefaultDeny (foldl add_interface p0 ifs) = pr_DefaultDeny p0 /\
    pr_Generation (foldl add_interface p0 ifs) = pr_Generation p0).
  { induction ifs as [|i ifs IH]; intros p0; [done|]. simpl. destruct (IH (add_interface p0 i)) as [-> ->].
    unfold add_interface. destruct (foldl (add_address _) _ _) as [z l]. by case_if. }
  assert (Hroute : forall m rs p0, pr_DefaultDeny (foldl (add_route m) p0 rs) = pr_DefaultDeny p0 /\
    pr_Generation (foldl (add_route m) p0 rs) = pr_Generation p0).
  { intros m. induction rs as [|r rs IH]; intros p0; [done|]. simpl. destruct (IH (add_route m p0 r)) as [-> ->].
    unfold add_route. by repeat (case_if || case_match). }
  split_and!; [exact HF | exact Hnd | |].
  - etrans; [apply Hroute|]. etrans; [apply Hbase|]. done.
  - etrans; [apply Hroute|]. etrans; [apply Hbase|]. done.
Qed.

(** A policy of the configuration matches a view when its compiled rule does. *)
Definition policy_matches (pol : SecurityPolicy) (view : View) : Prop :=
  sp_Enabled pol = true /\ exists r, compile_rule pol = Ok r /\ ruleMatches r view = true.

Lemma evaluate_policies c g p view : Compile c g = Ok p ->
  (exists pol, pol ∈ cf_Policies c /\ policy_matches pol view /\
     (forall pol', pol' ∈ cf_Policies c -> policy_matches pol' view -> sp_Priority pol <= sp_Priority pol') /\
     pv_Action (Evaluate p view) = sp_Action pol /\ pv_PolicyID (Evaluate p view) = sp_ID pol) \/
  ((forall pol, pol ∈ cf_Policies c -> ~ policy_matches pol view) /\
   pv_Action (Evaluate p view) = (if cf_DefaultDeny c then DecisionDrop else DecisionAllow) /\
   pv_PolicyID (Evaluate p view) = "").
Proof.
  intros H. destruct (Compile_rules _ _ _ H) as (HF & _ & Hdd & _). clear H. unfold Evaluate.
  pose proof (SortPolicies_sorted (cf_Policies c)) as Hsort.
  assert (Hmem : forall pol, pol ∈ SortPolicies (cf_Policies c) <-> pol ∈ cf_Policies c) by (intros; apply sort_by_elem_of).
  rewrite Hdd. clear Hdd. setoid_rewrite <- Hmem. clear Hmem.
  revert Hsort HF. generalize (SortPolicies (cf_Policies c)). intros pols Hsort. generalize (pr_Rules p).
  induction Hsort as [|pol pols Hsort IH Hmin]; intros rules HF.
  - apply Forall2_nil_inv_l in HF as ->. right. simpl. split; [set_solver|]. by destruct (cf_DefaultDeny c).
  - rewrite filter_cons in HF. case_decide as Hen.
    + apply Forall2_cons_inv_l in HF as (r & rules' & Hr & HF & ->). simpl.
      destruct (compile_rule_spec _ _ Hr) as (E1 & _ & E3 & E4 & _). rewrite E4. simpl.
      destruct (ruleMatches r view) eqn:Hm.
      * left. exists pol. simpl. split_and!; [by left | split; [done | by exists r] | | done | done].
        intros pol' [-> | Hin]%elem_of_cons _; [done|]. rewrite Forall_forall in Hmin. exact (Hmin _ Hin).
      * destruct (IH _ HF) as [(q & Hq & Hqm & Hqmin & Hrest) | (Hnone & Hrest)].
        -- left. exists q. split_and!; [by right | done | | apply Hrest | apply Hrest].
           intros pol' [-> | Hin]%elem_of_cons Hpm; [|by apply Hqmin]. destruct Hpm as (_ & r' & Hr' & Hm'). congruence.
        -- right. split; [|done]. intros pol' [-> | Hin]%elem_of_cons Hpm; [|by eapply Hnone].
           destruct Hpm as (_ & r' & Hr' & Hm'). congruence.
    + destruct (IH _ HF) as [(q & Hq & Hqm & Hqmin & Hrest) | (Hnone & Hrest)].
      * left. exists q. split_and!; [by right | done | | apply Hrest | apply Hrest].
        intros pol' [-> | Hin]%elem_of_cons Hpm; [|by apply Hqmin]. by destruct Hpm as (? & _).
      * right. split; [|done]. intros pol' [-> | Hin]%elem_of_cons Hpm; [|by eapply Hnone]. by destruct Hpm as (? & _).
Qed.

(** Every enabled policy of a compiled configuration has a rule. *)
Lemma enabled_compiles c g p pol : Compile c g = Ok p -> pol ∈ cf_Policies c -> sp_Enabled pol = true -> exists r, compile_rule pol = Ok r.
Proof.
  intros (HF & _)%Compile_rules Hin Hen.
  assert (Hf : pol ∈ filter (fun pol => sp_Enabled pol = true) (SortPolicies (cf_Policies c))).
  { apply list_elem_of_filter. split; [done|]. by apply sort_by_elem_of. }
  apply list_elem_of_lookup in Hf as [i Hi]. destruct (Forall2_lookup_l _ _ _ _ _ HF Hi) as (r & _ & Hr). by exists r.
Qed.

(** C15. First match: a compiled program applies the action of the enabled matching policy
    with the smallest priority number of the configuration; when no enabled policy matches
    it applies the configured default, DROP if default-deny is set. *)
Theorem Evaluate_smallest_priority c g p view : Compile c g = Ok p ->
  (exists pol, pol ∈ cf_Policies c /\ policy_matches pol view /\
     (forall pol', pol' ∈ cf_Policies c -> policy_matches pol' view -> sp_Priority pol <= sp_Priority pol') /\
     pv_Action (Evaluate p view) = sp_Action pol /\ pv_PolicyID (Evaluate p view) = sp_ID pol) \/
  ((forall pol, pol ∈ cf_Policies c -> ~ policy_matches pol view) /\
   pv_Action (Evaluate p view) = (if cf_DefaultDeny c then DecisionDrop else DecisionAllow) /\
   pv_PolicyID (Evaluate p view) = "").
Proof. apply evaluate_policies. Qed.

(** A small configuration for the witnesses: DNS to anywhere is allowed, then
    everything from the LAN to the LAN server is allowed. *)
Definition ex_policy (id : string) (priority : Z) (src dst : list string) (services : list string) (a : Decision) : SecurityPolicy :=
  mkSecurityPolicy id id priority src [] [] dst services [] "" "" None None a "SESSION" false false true.

Definition ex_policies : list SecurityPolicy :=
  [ex_policy "allow-web" 20 ["lan"] ["10.0.0.0/8"] ["tcp:80"; "tcp:8000-8080"] DecisionAllow;
   ex_policy "deny-host" 10 ["LAN"] ["10.0.0.5"] [] DecisionDrop].

Definition ex_config (policies : list SecurityPolicy) : Config :=
  mkConfig [mkInterface "if0" "lan0" "eth0" "lan" InterfaceL3 "" 0 ["10.0.0.1/24"] [] 1500 true] [] [] [] policies []
    0 0 0 0 0 0 0 0 true None None [].

Definition ex_view (dst : Z) (port : Z) : View := mkView (Addr4 167772260) (Addr4 dst) 40000 port 6 "lan" "lan".

Definition ex_program : Program :=
  match Compile (ex_config ex_policies) 7 with Ok p => p | Err _ => program_zero true 0 end.

Lemma ex_compiles : Compile (ex_config ex_policies) 7 = Ok ex_program.
Proof. unfold ex_program. destruct (Compile (ex_config ex_policies) 7) eqn:E; [done|]. vm_compute in E. discriminate. Qed.

Lemma Evaluate_smallest_priority_witness :
  pv_PolicyID (Evaluate ex_program (ex_view 167772165 80)) = "deny-host" /\
  exists pol, pol ∈ cf_Policies (ex_config ex_policies) /\ sp_ID pol = "deny-host".
Proof.
  assert (E : pv_PolicyID (Evaluate ex_program (ex_view 167772165 80)) = "deny-host") by (vm_compute; reflexivity).
  split; [done|].
  destruct (Evaluate_smallest_priority (ex_config ex_policies) 7 ex_program (ex_view 167772165 80) ex_compiles)
    as [(pol & Hin & _ & _ & _ & Hid) | (_ & _ & Hid)]; [exists pol; by rewrite <- Hid | by rewrite E in Hid].
Defined.

(** ** Soundness of the reachability check *)

(** No selector of the policy's zone lists is blank. *)
Definition no_blank_zones (pol : SecurityPolicy) : Prop :=
  Forall (fun z => TrimSpace z <> "") (sp_SourceZones pol) /\ Forall (fun z => TrimSpace z <> "") (sp_DestinationZones pol).

Lemma ToLower_empty s : ToLower s = "" <-> s = "".
Proof. by destruct s. Qed.

Lemma elem_of_stringSet z l : z ∈ stringSet l <-> exists v, v ∈ l /\ zone_key v = z /\ TrimSpace v <> "".
Proof.
  unfold stringSet, zone_key. rewrite elem_of_list_to_set, list_elem_of_filter, list_elem_of_fmap. split.
  - intros (Hne & v & -> & Hin). exists v. by rewrite <- (ToLower_empty (TrimSpace v)).
  - intros (v & Hin & <- & Hne). rewrite ToLower_empty. split; [done|]. by exists v.
Qed.

Lemma zones_cover earlier later z :
  stringSelectorsCover earlier later = true -> Forall (fun z => TrimSpace z <> "") later ->
  zoneMatch (stringSet later) z = true -> zoneMatch (stringSet earlier) z = true.
Proof.
  unfold stringSelectorsCover, zoneMatch. intros Hcov Hblank.
  destruct later as [|w later]; [case_bool_decide; [|done]; case_bool_decide; [by subst | done]|].
  rewrite bool_decide_false in Hcov by done. case_bool_decide as He; [by subst|].
  rewrite forallb_elem_of in Hcov. rewrite !orb_true_iff, !bool_decide_eq_true. intros [Hempty | Hz].
  - exfalso. apply (not_elem_of_empty (C:=gset string) (zone_key w)). rewrite <- Hempty. apply elem_of_stringSet.
    exists w. split_and!; [by left | done | by inversion Hblank].
  - right. apply elem_of_stringSet in Hz as (v & Hv & <- & Hne). specialize (Hcov v Hv).
    apply existsb_elem_of in Hcov as (cand & Hc & Hfold). apply EqualFold_true in Hfold.
    apply elem_of_stringSet. exists cand. split_and!; [done | done|]. intros E. apply Hne.
    apply ToLower_empty. rewrite <- Hfold, E. done.
Qed.

(** The reachability check and the compiler read an address selector alike. *)
Lemma selectorPrefix_parse raw q : selectorPrefix raw = Some q ->
  parse_address raw = Some (Some q) /\ prefix_Bits q <= BitLen (prefix_Addr q).
Proof.
  unfold selectorPrefix, parse_address. destruct (ParsePrefix (TrimSpace raw)) as [pf|] eqn:Hp.
  - intros [= <-]. rewrite (ParsePrefix_not_addr _ _ Hp). rewrite bool_decide_false by (intros E; by rewrite E in Hp).
    split; [done|]. by apply Masked_bits, (ParsePrefix_bits (TrimSpace raw)).
  - intros (ad & Had & ->)%fmap_Some. rewrite Had. rewrite bool_decide_false by (intros E; by rewrite E in Had).
    split; [by destruct ad | apply PrefixFrom_bits].
Qed.

Lemma prefixes_selectors l qs : mapM selectorPrefix l = Some qs -> prefixes l = Some qs.
Proof.
  unfold prefixes. revert qs. induction l as [|raw l IH]; intros qs; simpl; [by intros [= <-]|].
  intros (q & Hq%selectorPrefix_parse & H)%bind_Some. apply bind_Some in H as (qs' & Hqs & [= <-]).
  destruct Hq as [-> _]. simpl. specialize (IH _ Hqs). apply bind_Some in IH as (ps & -> & [= <-]). done.
Qed.

Lemma prefix_covers_contains p q a :
  prefix_covers p q = true -> prefix_Bits q <= BitLen (prefix_Addr q) -> Contains q a = true -> Contains p a = true.
Proof. unfold prefix_covers. intros H Hq Ha. split_bool. by eapply Contains_subnet. Qed.

Lemma addresses_cover earlier later pe pl a :
  addressSelectorsCover earlier later = true -> prefixes earlier = Some pe -> prefixes later = Some pl ->
  addressMatch pl a = true -> addressMatch pe a = true.
Proof.
  unfold addressSelectorsCover. intros Hcov He Hl Hm.
  destruct later as [|w later].
  - case_bool_decide; [|done]. case_bool_decide; [|done]. subst. by injection He as <-.
  - rewrite bool_decide_false in Hcov by done. case_bool_decide; [subst; by injection He as <-|].
    destruct (mapM selectorPrefix earlier) as [prior|] eqn:Hprior; [|done].
    rewrite (prefixes_selectors _ _ Hprior) in He. injection He as <-.
    rewrite forallb_elem_of in Hcov.
    assert (exists ws, mapM selectorPrefix (w :: later) = Some ws) as (ws & Hws).
    { apply mapM_is_Some, Forall_forall. intros raw Hin. specialize (Hcov raw Hin). unfold compose; destruct (selectorPrefix raw); [eauto | done]. }
    rewrite (prefixes_selectors _ _ Hws) in Hl. injection Hl as <-.
    unfold addressMatch in *. apply orb_true_iff. right.
    assert (Hne : ws <> []). { intros ->. apply mapM_Some in Hws. inversion Hws. }
    rewrite bool_decide_false in Hm by done. simpl in Hm. apply existsb_elem_of in Hm as (q & Hq & Hqa).
    apply mapM_Some in Hws. apply list_elem_of_lookup in Hq as [i Hq].
    destruct (Forall2_lookup_r _ _ _ _ _ Hws Hq) as (raw & Hraw & Hsel).
    specialize (Hcov raw (list_elem_of_lookup_2 _ _ _ Hraw)). rewrite Hsel in Hcov.
    apply existsb_elem_of in Hcov as (p & Hp & Hpq). apply existsb_elem_of. exists p. split; [done|].
    eapply prefix_covers_contains; [done| |done]. by apply (selectorPrefix_parse raw).
Qed.

(** *** Services *)

Lemma parse_services_spec id l svcs : parse_services id l = Ok svcs <-> Forall2 (fun raw s => parseService raw = Some s) l svcs.
Proof.
  revert svcs. induction l as [|raw l IH]; intros svcs; simpl.
  - split; [by intros [= <-]; constructor | by inversion 1].
  - destruct (parseService raw) as [s|] eqn:E.
    + rewrite result_bind_Ok. split.
      * intros (rest & H%IH & [= <-]). by constructor.
      * inversion 1 as [|? s' ? rest ? Hr]; subst. exists rest. rewrite IH. split; [done|]. congruence.
    + split; [done|]. inversion 1; subst. congruence.
Qed.

Lemma parseService_match raw s view : parseService raw = Some s ->
  exists sel proto, ParseServiceSelector raw = Some sel /\ ParseProtocol (ss_Protocol sel) = Some proto /\
    (serviceMatch view s = true <->
     proto = vw_Protocol view /\ (ss_AllPorts sel = true \/ ss_First sel <= vw_DestinationPort view <= ss_Last sel)).
Proof.
  unfold parseService. intros (sel & Hs & H)%bind_Some. apply bind_Some in H as (proto & Hp & [= <-]).
  exists sel, proto. split; [done|]. split; [done|]. unfold serviceMatch, port_Contains. simpl.
  rewrite andb_true_iff, Z.eqb_eq. destruct (ss_AllPorts sel); simpl; [naive_solver|].
  rewrite orb_false_r, andb_true_iff, !Z.leb_le. naive_solver lia.
Qed.

Lemma services_cover earlier later ide idl se sl view :
  serviceSelectorsCover earlier later = true -> parse_services ide earlier = Ok se -> parse_services idl later = Ok sl ->
  bool_decide (sl = []) || existsb (serviceMatch view) sl = true ->
  bool_decide (se = []) || existsb (serviceMatch view) se = true.
Proof.
  unfold serviceSelectorsCover. rewrite !parse_services_spec. intros Hcov He Hl Hm.
  destruct later as [|w later].
  - rewrite bool_decide_true in Hcov by done. split_bool. subst. by apply Forall2_nil_inv_l in He as ->.
  - rewrite bool_decide_false in Hcov by done. destruct (bool_decide (earlier = [])) eqn:Hee; split_bool; [subst; by apply Forall2_nil_inv_l in He as ->|].
    destruct (mapM ParseServiceSelector earlier) as [prior|] eqn:Hprior; [|done].
    assert (Hne : sl <> []) by (intros ->; inversion Hl). rewrite bool_decide_false in Hm by done. simpl in Hm.
    apply existsb_elem_of in Hm as (s & Hs & Hmatch). apply list_elem_of_lookup in Hs as [i Hs].
    destruct (Forall2_lookup_r _ _ _ _ _ Hl Hs) as (raw & Hraw & Hps).
    destruct (parseService_match raw s view Hps) as (sel & proto & Hsel & Hproto & Hiff).
    apply Hiff in Hmatch as [Hpv Hports]. rewrite forallb_elem_of in Hcov.
    specialize (Hcov raw (list_elem_of_lookup_2 _ _ _ Hraw)). rewrite Hsel in Hcov.
    apply existsb_elem_of in Hcov as (cand & Hc & Hcov). unfold service_covers in Hcov.
    apply andb_true_iff in Hcov as [Hprot%bool_decide_eq_true Hport]. apply mapM_Some in Hprior. apply list_elem_of_lookup in Hc as [j Hc].
    destruct (Forall2_lookup_r _ _ _ _ _ Hprior Hc) as (eraw & Heraw & Hesel).
    destruct (Forall2_lookup_l _ _ _ _ _ He Heraw) as (es & Hes & Hpes).
    apply orb_true_iff. right. apply existsb_elem_of. exists es. split; [by eapply list_elem_of_lookup_2|].
    destruct (parseService_match eraw es view Hpes) as (sel' & proto' & Hsel' & Hproto' & Hiff').
    simplify_eq. apply Hiff'. split; [congruence|].
    apply orb_true_iff in Hport as [? | ?]; [by left|]. right. split_bool. destruct Hports; [congruence | lia].
Qed.

(** Coverage of selectors is coverage of the compiled rules. *)
Lemma policyMatchCovers_sound earlier later re rl view :
  policyMatchCovers earlier later = true -> no_blank_zones later ->
  compile_rule earlier = Ok re -> compile_rule later = Ok rl ->
  ruleMatches rl view = true -> ruleMatches re view = true.
Proof.
  unfold policyMatchCovers, ruleMatches. intros Hcov [Hb1 Hb2] He Hl.
  destruct (compile_rule_spec _ _ He) as (_ & _ & _ & _ & -> & -> & He1 & He2 & He3 & _).
  destruct (compile_rule_spec _ _ Hl) as (_ & _ & _ & _ & -> & -> & Hl1 & Hl2 & Hl3 & _).
  rewrite !andb_true_iff in *. destruct Hcov as [[[[C1 C2] C3] C4] C5]. intros [[[[M1 M2] M3] M4] M5].
  split_and!; [by eapply zones_cover | by eapply zones_cover | by eapply (addresses_cover _ _ _ _ _ C3)
              | by eapply (addresses_cover _ _ _ _ _ C4) | by eapply services_cover].
Qed.

(** What the check reports: an earlier policy that covers the later one. *)
Lemma unreachable_from_spec m3 before ordered e : e ∈ unreachable_from m3 before ordered ->
  ue_Later e ∈ ordered /\ ue_Earlier e ∈ before ++ ordered /\ sp_Priority (ue_Earlier e) < sp_Priority (ue_Later e) /\
  sp_Enabled (ue_Earlier e) = true /\ policyMatchCovers (ue_Earlier e) (ue_Later e) = true.
Proof.
  assert (Hen : forall pol, isL3L4FirstMatchPolicyForConfig m3 pol = true -> sp_Enabled pol = true).
  { intros pol. unfold isL3L4FirstMatchPolicyForConfig, isL3L4FirstMatchPolicy. by destruct m3, (sp_Enabled pol). }
  revert before. induction ordered as [|later rest IH]; intros before; simpl; [set_solver|].
  rewrite elem_of_app. intros [Hin | Hin].
  - destruct (isL3L4FirstMatchPolicyForConfig m3 later); [|set_solver].
    destruct (covering_policy m3 before later) as [earlier|] eqn:E; [|set_solver].
    apply list_elem_of_singleton in Hin as ->. simpl. unfold covering_policy in E.
    apply find_Some_split in E as (l1 & l2 & -> & E & _). split_bool.
    split_and!; [by left | set_solver | lia | by apply Hen | done].
  - destruct (IH _ Hin) as (H1 & H2 & H3). rewrite <- app_assoc in H2. split_and!; [by right | exact H2 | apply H3..].
Qed.

(** The reachability check is sound: when it reports a policy as unreachable (and the
    policy's zone lists hold no blank entry), the compiled program never decides any packet
    by that policy, provided policy identifiers are unique. *)
Theorem unreachablePolicyErrors_sound m3 c g p e view :
  Compile c g = Ok p -> NoDup (sp_ID <$> cf_Policies c) -> sp_ID (ue_Later e) <> "" ->
  e ∈ unreachablePolicyErrors m3 (cf_Policies c) -> no_blank_zones (ue_Later e) ->
  pv_PolicyID (Evaluate p view) <> sp_ID (ue_Later e).
Proof.
  intros Hc Hnd Hne He Hblank Hid. apply unreachable_from_spec in He as (Hl & Hearl & Hprio & Hen & Hcov).
  simpl in Hearl. unfold SortPolicies in Hl, Hearl. rewrite sort_by_elem_of in Hl, Hearl.
  destruct (evaluate_policies c g p view Hc) as [(pol & Hin & (Hpe & rl & Hrl & Hm) & Hmin & _ & Hpid) | (_ & _ & Hpid)]; [|congruence].
  assert (pol = ue_Later e) as ->.
  { rewrite Hid in Hpid. apply list_elem_of_lookup in Hin as [i Hi], Hl as [j Hj].
    assert (i = j) as ->; [|congruence]. eapply (NoDup_lookup _ i j (sp_ID (ue_Later e)) Hnd); rewrite list_lookup_fmap.
    - by rewrite Hi, Hpid. - by rewrite Hj. }
  destruct (enabled_compiles c g p (ue_Earlier e) Hc Hearl Hen) as [re Hre].
  assert (Hme : policy_matches (ue_Earlier e) view).
  { split; [done|]. exists re. split; [done|]. by eapply policyMatchCovers_sound. }
  specialize (Hmin _ Hearl Hme). lia.
Qed.

Definition ex_shadowing : SecurityPolicy := ex_policy "lan-any" 10 ["Lan"] ["10.0.0.0/8"] ["tcp:1-1024"] DecisionAllow.
Definition ex_shadowed : SecurityPolicy := ex_policy "lan-web" 20 ["lan"] ["10.1.0.0/16"; "10.0.0.7"] ["tcp:80"] DecisionDrop.

Definition ex_shadow_program : Program :=
  match Compile (ex_config [ex_shadowed; ex_shadowing]) 1 with Ok p => p | Err _ => program_zero true 0 end.

Lemma ex_shadow_compiles : Compile (ex_config [ex_shadowed; ex_shadowing]) 1 = Ok ex_shadow_program.
Proof.
  unfold ex_shadow_program. destruct (Compile (ex_config [ex_shadowed; ex_shadowing]) 1) eqn:E; [done|].
  vm_compute in E. discriminate.
Qed.

Lemma unreachablePolicyErrors_sound_witness :
  pv_PolicyID (Evaluate ex_shadow_program (ex_view 167837697 80)) <> "lan-web" /\
  pv_PolicyID (Evaluate ex_shadow_program (ex_view 167837697 80)) = "lan-any".
Proof.
  split; [|vm_compute; reflexivity].
  apply (unreachablePolicyErrors_sound false (ex_config [ex_shadowed; ex_shadowing]) 1 ex_shadow_program
           (mkUnreachable ex_shadowed ex_shadowing) (ex_view 167837697 80) ex_shadow_compiles).
  - simpl. repeat constructor; set_solver.
  - done.
  - apply (list_elem_of_lookup_2 _ 0). vm_compute. reflexivity.
  - split; [|by constructor]. apply Forall_cons. split; [|by constructor]. vm_compute. discriminate.
Defined.

(** ** The zone of an address *)

(** All prefixes that contain the address, with their zones. *)
Definition hits (order : list (string * list Prefix)) (addr : Addr) : list (string * Z) :=
  e ← order; (fun p => (e.1, prefix_Bits p)) <$> filter (fun p => Contains p addr = true) e.2.

(** The state of the search after the hits [l]: the longest length so far, a zone
    that has it, and whether another zone has it too. *)
Definition search_ok (l : list (string * Z)) (st : zoneSearch) : Prop :=
  (l = [] /\ st = mkZoneSearch (-1) "" false) \/
  ((zs_zone st, zs_bits st) ∈ l /\ (forall z b, (z, b) ∈ l -> b <= zs_bits st) /\
   (zs_ambiguous st = true <-> exists z, z <> zs_zone st /\ (z, zs_bits st) ∈ l)).

Lemma zone_step_ok addr zone l st prefix :
  (forall z b, (z, b) ∈ l -> 0 <= b) -> (Contains prefix addr = true -> 0 <= prefix_Bits prefix) ->
  search_ok l st ->
  search_ok (l ++ (if Contains prefix addr then [(zone, prefix_Bits prefix)] else [])) (zone_step addr zone st prefix).
Proof.
  intros Hpos Hp Hok. unfold zone_step. destruct (Contains prefix addr); [|by rewrite app_nil_r].
  specialize (Hp eq_refl). set (b := prefix_Bits prefix) in *. clearbody b. right.
  setoid_rewrite elem_of_app. setoid_rewrite list_elem_of_singleton.
  destruct Hok as [[-> ->] | (Hin & Hmax & Hamb)]; simpl.
  - rewrite (proj2 (Z.ltb_lt (-1) b)) by lia. simpl. split_and!; [by right | set_solver |].
    split; [done|]. intros (z & Hne & [Hz | Hz]); [set_solver | congruence].
  - destruct (Z.ltb_spec (zs_bits st) b); simpl.
    + split_and!; [by right | |].
      * intros z b' [Hz | [= -> ->]]; [|lia]. specialize (Hmax _ _ Hz). lia.
      * split; [done|]. intros (z & Hne & [Hz | Hz]); [|congruence]. specialize (Hmax _ _ Hz). lia.
    + destruct (Z.eqb_spec b (zs_bits st)) as [->|Hb]; simpl.
      * case_bool_decide as Hz; simpl.
        -- subst zone. split_and!; [by left | naive_solver lia |]. rewrite Hamb. split; [naive_solver|].
           intros (z & Hne & [Hz | Hz]); [by exists z | congruence].
        -- split_and!; [by left | naive_solver lia |]. split; [|done]. intros _. exists zone. split; [done|]. by right.
      * split_and!; [by left | |].
        -- intros z b' [Hz | [= -> ->]]; [by eapply Hmax | lia].
        -- rewrite Hamb. split; [naive_solver|]. intros (z & Hne & [Hz | Hz]); [by exists z | congruence].
Qed.

Lemma prefix_valid_nonneg p a : Contains p a = true -> 0 <= prefix_Bits p.
Proof. rewrite Contains_true. unfold prefix_IsValid. rewrite Z.leb_le. by intros (? & _). Qed.

Lemma elem_of_hits order addr z b :
  (z, b) ∈ hits order addr <-> exists ps p, (z, ps) ∈ order /\ p ∈ ps /\ Contains p addr = true /\ prefix_Bits p = b.
Proof.
  unfold hits. rewrite list_elem_of_bind. split.
  - intros ([z' ps] & Hin & Ho). apply list_elem_of_fmap in Hin as (p & [= -> ->] & Hp).
    apply list_elem_of_filter in Hp as [Hc Hp]. by exists ps, p.
  - intros (ps & p & Ho & Hp & Hc & <-). exists (z, ps). split; [|done]. apply list_elem_of_fmap. exists p.
    split; [done|]. by apply list_elem_of_filter.
Qed.

Lemma search_fold order addr :
  search_ok (hits order addr) (foldl (fun st e => foldl (zone_step addr e.1) st e.2) (mkZoneSearch (-1) "" false) order).
Proof.
  assert (Hin : forall zone ps l st, (forall z b, (z, b) ∈ l -> 0 <= b) -> search_ok l st ->
    search_ok (l ++ ((fun p => (zone, prefix_Bits p)) <$> filter (fun p => Contains p addr = true) ps)) (foldl (zone_step addr zone) st ps)).
  { intros zone. induction ps as [|p ps IH]; intros l st Hpos Hok; simpl; [by rewrite app_nil_r|].
    rewrite filter_cons.
    assert (Hstep := zone_step_ok addr zone l st p Hpos (prefix_valid_nonneg p addr) Hok).
    case_decide as Hc; [rewrite Hc in Hstep | apply not_true_iff_false in Hc; rewrite Hc, app_nil_r in Hstep; by apply IH].
    rewrite fmap_cons. change ((zone, prefix_Bits p) :: ?l2) with ([(zone, prefix_Bits p)] ++ l2). rewrite app_assoc.
    apply IH; [|done]. intros z b [Hz | Hz]%elem_of_app; [by eapply Hpos|].
    apply list_elem_of_singleton in Hz as [= -> ->]. by eapply prefix_valid_nonneg. }
  assert (Hout : forall rest l st, (forall z b, (z, b) ∈ l -> 0 <= b) -> search_ok l st ->
    search_ok (l ++ hits rest addr) (foldl (fun st e => foldl (zone_step addr e.1) st e.2) st rest)).
  { induction rest as [|[zone ps] rest IH]; intros l st Hpos Hok; [by rewrite app_nil_r|]. cbn [foldl fst snd].
    change (hits ((zone, ps) :: rest) addr) with (((fun p => (zone, prefix_Bits p)) <$> filter (fun p => Contains p addr = true) ps) ++ hits rest addr).
    rewrite app_assoc. apply IH; [|by apply Hin].
    intros z b [Hz | Hz]%elem_of_app; [by eapply Hpos|].
    apply list_elem_of_fmap in Hz as (p & [= -> ->] & Hp). apply list_elem_of_filter in Hp as [Hp _]. by eapply prefix_valid_nonneg. }
  apply (Hout order [] (mkZoneSearch (-1) "" false)); [set_solver | by left].
Qed.

(** The zone [z] owns the address by longest prefix: one of its prefixes contains
    it, and every prefix that contains it is shorter or belongs to [z]. *)
Definition owns_address (p : Program) (z : string) (addr : Addr) : Prop :=
  exists ps q, pr_zonePrefixes p !! z = Some ps /\ q ∈ ps /\ Contains q addr = true /\
    forall z' ps' q', pr_zonePrefixes p !! z' = Some ps' -> q' ∈ ps' -> Contains q' addr = true ->
      prefix_Bits q' < prefix_Bits q \/ (prefix_Bits q' <= prefix_Bits q /\ z' = z).

(** Zone inference is longest-prefix match with ambiguity detection and does not
    depend on the order in which Go iterates over the map: for an address that is not
    local, the answer is [z] exactly when [z] owns the address, and empty when no zone or
    more than one zone does. *)
Theorem InferAddressZone_longest_prefix p order addr z :
  order ≡ₚ map_to_list (pr_zonePrefixes p) -> z <> "" ->
  addr_IsValid addr = true -> IsLoopback addr = false -> addr ∉ pr_localAddresses p ->
  InferAddressZone p order addr = z <-> owns_address p z addr.
Proof.
  intros Hperm Hz Hv Hl Hloc. unfold InferAddressZone. rewrite Hv, Hl, bool_decide_false by done. simpl.
  pose proof (search_fold order addr) as Hok. set (st := foldl _ _ _) in *. clearbody st.
  assert (Hhit : forall z b, (z, b) ∈ hits order addr <->
    exists ps q, pr_zonePrefixes p !! z = Some ps /\ q ∈ ps /\ Contains q addr = true /\ prefix_Bits q = b).
  { intros z' b. rewrite elem_of_hits. setoid_rewrite Hperm. by setoid_rewrite elem_of_map_to_list. }
  assert (Hown : owns_address p z addr <-> exists b, (z, b) ∈ hits order addr /\
    forall z' b', (z', b') ∈ hits order addr -> b' < b \/ (b' <= b /\ z' = z)).
  { unfold owns_address. setoid_rewrite Hhit. split.
    - intros (ps & q & H1 & H2 & H3 & H4). exists (prefix_Bits q). split; [by exists ps, q|].
      intros z' b' (ps' & q' & H5 & H6 & H7 & <-). by eapply H4.
    - intros (b & (ps & q & H1 & H2 & H3 & <-) & H4). exists ps, q. split_and!; [done..|].
      intros z' ps' q' H5 H6 H7. apply H4. by exists ps', q'. }
  rewrite Hown. clear Hown Hhit Hperm. destruct Hok as [[-> ->] | (Hin & Hmax & Hamb)]; simpl.
  { split; [congruence | set_solver]. }
  assert (Hb : 0 <= zs_bits st). { apply elem_of_hits in Hin as (ps & q & _ & _ & Hc & <-). by eapply prefix_valid_nonneg. }
  rewrite (proj2 (Z.ltb_ge _ _) Hb), orb_false_r. destruct (zs_ambiguous st) eqn:Ea.
  - split; [congruence|]. intros (b & Hzb & Hall). exfalso. destruct (proj1 Hamb eq_refl) as (z2 & Hne & Hz2).
    pose proof (Hall _ _ Hin). pose proof (Hall _ _ Hz2). pose proof (Hmax _ _ Hzb). intuition (congruence || lia).
  - split.
    + intros <-. exists (zs_bits st). split; [done|]. intros z' b' Hz'. specialize (Hmax _ _ Hz').
      destruct (decide (z' = zs_zone st)); [by right|]. left.
      assert (b' <> zs_bits st); [|lia]. intros ->. assert (false = true) by (apply Hamb; eauto). done.
    + intros (b & Hzb & Hall). pose proof (Hall _ _ Hin). pose proof (Hmax _ _ Hzb). intuition lia.
Qed.

Lemma InferAddressZone_longest_prefix_witness : owns_address ex_program "lan" (Addr4 167772260).
Proof.
  apply (InferAddressZone_longest_prefix ex_program (map_to_list (pr_zonePrefixes ex_program)) (Addr4 167772260) "lan");
    [done | done | done | done | |]; vm_compute; [|reflexivity]. intros H. inversion H.
Defined.

(** * TLS exclusions *)

(** ** Domains *)

Lemma domain_covers_trans earlier later host :
  tlsDomainCovers earlier later = true -> TLSDomainMatchesCanonical later host = true -> TLSDomainMatchesCanonical earlier host = true.
Proof.
  unfold TLSDomainMatchesCanonical. destruct (canonicalTLSDomain host) as [h|]; [|done].
  destruct (HasPrefix h "*.") eqn:Hh; [done|]. unfold tlsDomainCovers. rewrite Hh. intros Hcov Hm.
  destruct (bool_decide (earlier = later)) eqn:E1; split_bool; [by subst|].
  destruct (HasPrefix earlier "*.") eqn:He; [|done]. cbn [negb] in *.
  destruct (bool_decide (earlier = h)) eqn:E2; [done|].
  destruct (bool_decide (later = h)) eqn:E3; split_bool; [subst; by rewrite Hh in Hcov|].
  destruct (HasPrefix later "*.") eqn:Hl; [|done]. cbn [negb] in *.
  eapply HasSuffix_trans; [exact Hm|]. rewrite HasSuffix_true in *. destruct Hcov as [q Hq].
  exists ("." +:+ q). rewrite Hq. by rewrite string_app_assoc.
Qed.

(** ** Sorted sets *)

Lemma elem_of_sorted_strings x l : x ∈ sorted_strings l <-> x ∈ l.
Proof. unfold sorted_strings. by rewrite sort_by_elem_of, elem_of_remove_dups. Qed.

Lemma elem_of_sorted_ints x l : x ∈ sorted_ints l <-> x ∈ l.
Proof. unfold sorted_ints. by rewrite sort_by_elem_of, elem_of_remove_dups. Qed.

Lemma same_elements_nil {A} (l k : list A) : (forall x, x ∈ l <-> x ∈ k) -> l = [] <-> k = [].
Proof.
  intros H. split; intros ->; [destruct k as [|x k] | destruct l as [|x l]]; [done| |done|];
    exfalso; apply (not_elem_of_nil x), H; by left.
Qed.

(** A group of selectors as a predicate: the empty group accepts everything. *)
Definition group {A} (l : list A) (p : A -> bool) : bool := bool_decide (l = []) || existsb p l.

Lemma group_true {A} (l : list A) (p : A -> bool) : group l p = true <-> l = [] \/ exists x, x ∈ l /\ p x = true.
Proof. unfold group. destruct l as [|y l]; [naive_solver|]. rewrite orb_true_iff, existsb_elem_of, bool_decide_eq_true. naive_solver. Qed.

(** ** The three groups of an exclusion *)

Lemma domains_group_cover e l host :
  tlsDomainGroupCovers e l = true ->
  group l (fun d => TLSDomainMatchesCanonical d host) = true -> group e (fun d => TLSDomainMatchesCanonical d host) = true.
Proof.
  unfold tlsDomainGroupCovers. rewrite !group_true. case_bool_decide; [by left|]. case_bool_decide as Hl; [done|].
  rewrite forallb_elem_of. intros Hcov [-> | (w & Hw & Hm)]; [done|]. right.
  apply Hcov, existsb_elem_of in Hw as (c & Hc & Hcw). exists c. split; [done|]. by eapply domain_covers_trans.
Qed.

Lemma ports_group_cover e l port :
  tlsPortGroupCovers e l = true -> group l (fun p => p =? port) = true -> group e (fun p => p =? port) = true.
Proof.
  unfold tlsPortGroupCovers. rewrite !group_true. case_bool_decide; [by left|]. case_bool_decide; [done|].
  rewrite forallb_elem_of. intros Hcov [-> | (w & Hw & Hm)]; [done|]. right. exists w. split; [|done].
  apply Hcov in Hw. by apply bool_decide_eq_true in Hw.
Qed.

(** A prefix in canonical notation is read back as itself. *)
Definition reparses (p : Prefix) : Prop := ParsePrefix (prefix_String p) = Some p.

Lemma cidrs_group_cover pe pl addr :
  Forall reparses pe -> Forall reparses pl -> Forall (fun p => prefix_Bits p <= BitLen (prefix_Addr p)) pl ->
  tlsCIDRGroupCovers (sorted_strings (prefix_String <$> pe)) (sorted_strings (prefix_String <$> pl)) = true ->
  group pl (fun p => Contains p addr) = true -> group pe (fun p => Contains p addr) = true.
Proof.
  intros He Hl Hbits. unfold tlsCIDRGroupCovers. rewrite !group_true.
  assert (Hnil : forall ps : list Prefix, sorted_strings (prefix_String <$> ps) = [] <-> ps = []).
  { intros ps. rewrite (same_elements_nil _ (prefix_String <$> ps)) by (intros; apply elem_of_sorted_strings). by destruct ps. }
  case_bool_decide as Ee; [rewrite Hnil in Ee; by left|]. case_bool_decide as El; [done|]. rewrite Hnil in El.
  rewrite forallb_elem_of. intros Hcov [-> | (w & Hw & Hm)]; [done|]. right.
  rewrite Forall_forall in He, Hl, Hbits.
  assert (Hws : prefix_String w ∈ sorted_strings (prefix_String <$> pl)) by (apply elem_of_sorted_strings, list_elem_of_fmap; eauto).
  apply Hcov, existsb_elem_of in Hws as (raw & Hraw & Hc).
  apply elem_of_sorted_strings, list_elem_of_fmap in Hraw as (c & -> & Hcin).
  unfold prefix_of in Hc. rewrite (He c Hcin), (Hl w Hw) in Hc. simpl in Hc.
  exists c. split; [done|]. eapply prefix_covers_contains; [exact Hc | by apply Hbits | done].
Qed.

Lemma group_ext {A} (l k : list A) p : (forall x, x ∈ l <-> x ∈ k) -> group l p = group k p.
Proof.
  intros H. apply eq_bool_prop_intro. rewrite !Is_true_true, !group_true, (same_elements_nil _ _ H). by setoid_rewrite H.
Qed.

(** The selectors and the compiled rule of one exclusion agree. *)
Lemma compile_exclusion_groups e s r :
  canonicalTLSExclusion e = Some s -> compile_exclusion e = Ok r ->
  (forall x, x ∈ ts_Domains s <-> x ∈ xr_Domains r) /\ (forall x, x ∈ ts_Ports s <-> x ∈ xr_Ports r) /\
  ts_CIDRs s = sorted_strings (prefix_String <$> xr_CIDRs r) /\
  Forall (fun p => prefix_Bits p <= BitLen (prefix_Addr p)) (xr_CIDRs r) /\ xr_ID r = te_ID e.
Proof.
  unfold canonicalTLSExclusion, compile_exclusion. destruct (mapM canonicalTLSDomain (te_Domains e)) as [ds|]; [|done].
  simpl. intros (cs & Hcs & Hs)%bind_Some. destruct (forallb _ (te_Ports e)) eqn:Hports; [|done]. injection Hs as <-.
  destruct (mapM (fun raw => Masked <$> ParsePrefix raw) (te_DestinationCIDRs e)) as [ps|] eqn:Hps; [|done].
  intros [= <-]. simpl. apply mapM_Some in Hcs, Hps. split_and!; [intros x; apply elem_of_sorted_strings | | | | done].
  - intros x. rewrite elem_of_sorted_ints, list_elem_of_fmap. rewrite forallb_elem_of in Hports.
    assert (Hsmall : forall p, p ∈ te_Ports e -> u16 p = p).
    { intros p Hp. specialize (Hports p Hp). split_bool. unfold u16. apply Z.mod_small. lia. }
    split; [intros Hx; exists x; by rewrite Hsmall|]. intros (p & -> & Hp). by rewrite Hsmall.
  - f_equal. clear Hports. revert ps Hps. induction Hcs as [|raw c raws cs Hc Hcs IH]; intros ps Hps; inversion Hps; subst; [done|].
    simpl. f_equal; [|by apply IH]. destruct (ParsePrefix raw); simplify_eq/=. done.
  - clear Hcs Hports. induction Hps as [|raw p raws ps Hp Hps IH]; constructor; [|done].
    apply fmap_Some in Hp as (q & Hq & ->). by apply Masked_bits, (ParsePrefix_bits raw).
Qed.

Lemma exclusion_cover_matches e1 e2 s1 s2 r1 r2 host dest :
  canonicalTLSExclusion e1 = Some s1 -> canonicalTLSExclusion e2 = Some s2 ->
  compile_exclusion e1 = Ok r1 -> compile_exclusion e2 = Ok r2 ->
  Forall reparses (xr_CIDRs r1) -> Forall reparses (xr_CIDRs r2) ->
  tlsExclusionCovers s1 s2 = true -> exclusion_matches r2 host dest = true -> exclusion_matches r1 host dest = true.
Proof.
  intros Hs1 Hs2 Hr1 Hr2 Hp1 Hp2 Hcov. unfold exclusion_matches.
  destruct (compile_exclusion_groups _ _ _ Hs1 Hr1) as (D1 & P1 & C1 & _ & _).
  destruct (compile_exclusion_groups _ _ _ Hs2 Hr2) as (D2 & P2 & C2 & B2 & _).
  unfold tlsExclusionCovers in Hcov. rewrite C1, C2 in Hcov. rewrite !andb_true_iff in *. destruct Hcov as [[V1 V2] V3].
  intros [[M1 M2] M3]. split; [split|].
  - apply (domains_group_cover _ _ host) in V1; [by rewrite (group_ext _ _ _ D1) in V1 | by rewrite (group_ext _ _ _ D2)].
  - by eapply (cidrs_group_cover _ (xr_CIDRs r2)).
  - apply (ports_group_cover _ _ (ap_Port dest)) in V3; [by rewrite (group_ext _ _ _ P1) in V3 | by rewrite (group_ext _ _ _ P2)].
Qed.

Lemma compile_exclusion_ids es ks : Forall2 (fun x y => compile_exclusion x = Ok y) es ks -> xr_ID <$> ks = te_ID <$> es.
Proof.
  induction 1 as [|e k es ks He Hks IH]; [done|]. rewrite !fmap_cons, IH. f_equal.
  unfold compile_exclusion in He. repeat case_match; by simplify_eq/=.
Qed.

(** A TLS exclusion that the static check finds covered by an earlier enabled one is
    never the exclusion a connection is attributed to: the earlier rule, or one before it,
    matches first (for exclusions with unique identifiers and CIDRs that are read back from
    their canonical notation). *)
Theorem covered_exclusion_never_first plan l1 e1 l2 e2 l3 s1 s2 rules host dest r :
  Forall (fun e => te_Enabled e = true) (l1 ++ e1 :: l2 ++ e2 :: l3) ->
  NoDup (te_ID <$> (l1 ++ e1 :: l2 ++ e2 :: l3)) ->
  compileTLSExclusions (l1 ++ e1 :: l2 ++ e2 :: l3) = Ok rules -> rp_exclusions plan = Some rules ->
  Forall (fun rule => Forall reparses (xr_CIDRs rule)) rules ->
  canonicalTLSExclusion e1 = Some s1 -> canonicalTLSExclusion e2 = Some s2 -> tlsExclusionCovers s1 s2 = true ->
  MatchTLSExclusion plan host dest = Some r -> xr_ID r <> te_ID e2.
Proof.
  intros Hen Hnd Hc Hplan Hrep Hs1 Hs2 Hcov Hm Hid. unfold compileTLSExclusions in Hc. rewrite filter_all in Hc by done.
  unfold MatchTLSExclusion in Hm. destruct (_ || _); [done|]. rewrite Hplan in Hm. apply mapM_result_Ok in Hc.
  rewrite <- (compile_exclusion_ids _ _ Hc) in Hnd. apply Forall2_app_inv_l in Hc as (k1 & k' & _ & Hc & ->).
  apply Forall2_cons_inv_l in Hc as (r1 & k'' & Hr1 & Hc & ->). apply Forall2_app_inv_l in Hc as (k2 & k''' & _ & Hc & ->).
  apply Forall2_cons_inv_l in Hc as (r2 & k3 & Hr2 & _ & ->).
  destruct (compile_exclusion_groups _ _ _ Hs2 Hr2) as (_ & _ & _ & _ & E2).
  assert (Huniq : forall x, x ∈ k1 ++ r1 :: k2 ++ r2 :: k3 -> xr_ID x = xr_ID r2 -> x = r2).
  { intros x [i Hi]%list_elem_of_lookup Hx. assert (Hj : (k1 ++ r1 :: k2 ++ r2 :: k3) !! (length k1 + S (length k2))%nat = Some r2).
    { rewrite lookup_app_r by lia. replace (length k1 + S (length k2) - length k1)%nat with (S (length k2)) by lia. simpl.
      by rewrite lookup_app_r, Nat.sub_diag by lia. }
    enough (i = length k1 + S (length k2))%nat by congruence.
    eapply (NoDup_lookup _ _ _ (xr_ID r2) Hnd); rewrite list_lookup_fmap; [by rewrite Hi, <- Hx | by rewrite Hj]. }
  pose proof Hm as (a & b & Hsplit & Hmatch & _)%find_Some_split.
  assert (r = r2) as ->. { apply Huniq; [rewrite Hsplit; set_solver | congruence]. }
  rewrite !Forall_app, !Forall_cons, Forall_app, Forall_cons in Hrep. destruct Hrep as (_ & Hp1 & _ & Hp2 & _).
  pose proof (exclusion_cover_matches e1 e2 s1 s2 r1 r2 host dest Hs1 Hs2 Hr1 Hr2 Hp1 Hp2 Hcov Hmatch) as Hm1.
  pose proof (find_app_first _ _ _ _ _ Hm Hm1) as Hin.
  change (k1 ++ r1 :: k2 ++ r2 :: k3) with (k1 ++ [r1] ++ (k2 ++ r2 :: k3)) in Hnd. rewrite app_assoc, fmap_app in Hnd.
  apply NoDup_app in Hnd as (_ & Hd & _). apply (Hd (xr_ID r2)); apply list_elem_of_fmap; exists r2; set_solver.
Qed.

Definition ex_wide : TLSExclusion := mkTLSExclusion "wide" "" ["*.Example.com"] ["10.0.0.0/8"; "2001:db8::/32"] [] true "r".
Definition ex_narrow : TLSExclusion := mkTLSExclusion "narrow" "" ["www.example.com"] ["10.1.0.0/16"] [443] true "r".
Definition ex_xrules : list TLSExclusionRule :=
  match compileTLSExclusions [ex_wide; ex_narrow] with Ok l => l | Err _ => [] end.
Definition ex_plan : RequestGatePlan :=
  mkRequestGatePlan true "p" "f" 1 TLSDecrypt GateFailClose "BLOCK" "BLOCK" false "r" (Some ex_xrules) [].
Definition ex_wide_selectors : tlsExclusionSelectors := mkSelectors ["*.example.com"] ["10.0.0.0/8"; "2001:db8::/32"] [].
Definition ex_narrow_selectors : tlsExclusionSelectors := mkSelectors ["www.example.com"] ["10.1.0.0/16"] [443].
Definition ex_dest : AddrPort := mkAddrPort (Addr4 167837697) 443.
Definition ex_first : TLSExclusionRule := default (mkTLSExclusionRule "" "" [] [] []) (MatchTLSExclusion ex_plan "WWW.example.com" ex_dest).

Lemma covered_exclusion_never_first_witness : xr_ID ex_first <> "narrow" /\ xr_ID ex_first = "wide".
Proof.
  split; [|vm_compute; reflexivity].
  apply (covered_exclusion_never_first ex_plan [] ex_wide [] ex_narrow [] ex_wide_selectors ex_narrow_selectors ex_xrules
           "WWW.example.com" ex_dest ex_first);
    [repeat constructor | simpl; repeat constructor; set_solver | vm_compute; reflexivity | reflexivity
    | | vm_compute; reflexivity | vm_compute; reflexivity | vm_compute; reflexivity | vm_compute; reflexivity].
  apply Forall_forall. intros rule Hin. apply Forall_forall. intros p Hp.
  assert (Hall : forallb (fun rule => forallb (fun p => bool_decide (ParsePrefix (prefix_String p) = Some p)) (xr_CIDRs rule)) ex_xrules = true)
    by (vm_compute; reflexivity).
  rewrite forallb_elem_of in Hall. specialize (Hall _ Hin). rewrite forallb_elem_of in Hall.
  exact (proj1 (bool_decide_eq_true _) (Hall _ Hp)).
Defined.
