(* ===== verification/GateProps.v ===== *)
(** * What the request-gate plan promises

    The ports a gate may intercept, when a gate is selected, what validation
    guarantees about the settings, and that a shadowed TLS exclusion never
    matches first. *)

From S2P Require Import Prelude GoStr Netip Domain Config Services TLSExclusion PolicyCheck Validate Connectivity ConnProps.

(** ** Merged port ranges *)

Definition in_ranges (l : list PortRange) (port : Z) : Prop := exists r, r ∈ l /\ pt_First r <= port <= pt_Last r.
Definition range_ok (r : PortRange) : Prop := 0 <= pt_First r <= pt_Last r /\ pt_Last r <= 65535.

(** The accumulator, last range first: well formed, apart from each other, and all
    starting before the ranges still to come. *)
Record merge_inv (m : list PortRange) : Prop := {
  mi_ok : Forall range_ok m;
  mi_apart : StronglySorted (fun a b => pt_Last b + 1 < pt_First a) m
}.

Lemma in_ranges_cons r l port : in_ranges (r :: l) port <-> pt_First r <= port <= pt_Last r \/ in_ranges l port.
Proof. unfold in_ranges. setoid_rewrite elem_of_cons. naive_solver. Qed.

Lemma merge_port_step m r :
  merge_inv m -> range_ok r -> (forall top rest, m = top :: rest -> pt_First top <= pt_First r) ->
  merge_inv (merge_port m r) /\ (forall port, in_ranges (merge_port m r) port <-> in_ranges m port \/ pt_First r <= port <= pt_Last r) /\
  (exists top rest, merge_port m r = top :: rest /\ pt_First top <= pt_First r).
Proof.
  intros [Hok Hap] Hr Hfirst. unfold merge_port. destruct m as [|top rest].
  - split_and!; [constructor; [by apply Forall_singleton | by repeat constructor] | intros port; rewrite in_ranges_cons; naive_solver | by exists r, []].
  - specialize (Hfirst _ _ eq_refl). inversion_clear Hok as [|? ? Htop Hrest]. inversion_clear Hap as [|? ? Hap' Hlow].
    unfold range_ok in *. unfold u32. rewrite Z.mod_small by lia.
    destruct (Z.ltb_spec (pt_Last top + 1) (pt_First r)) as [Hgap|Hnear].
    + split_and!; [|intros port; rewrite in_ranges_cons; tauto | by exists r, (top :: rest)].
      constructor; [by apply Forall_cons; split; [|apply Forall_cons]|]. constructor; [by constructor|]. constructor; [done|].
      eapply Forall_impl; [exact Hlow|]. simpl. lia.
    + destruct (Z.ltb_spec (pt_Last top) (pt_Last r)).
      * split_and!; [| |by eexists; eexists].
        -- constructor; [apply Forall_cons; split; [unfold range_ok; simpl; lia | done]|]. by constructor.
        -- intros port. rewrite !in_ranges_cons. simpl. intuition lia.
      * split_and!; [constructor; [by apply Forall_cons | by constructor] | | by exists top, rest].
        intros port. rewrite !in_ranges_cons. intuition lia.
Qed.

Lemma merge_fold l m :
  StronglySorted (fun a b => pt_First a <= pt_First b) l -> Forall range_ok l -> merge_inv m ->
  (forall top rest r, m = top :: rest -> r ∈ l -> pt_First top <= pt_First r) ->
  merge_inv (foldl merge_port m l) /\ (forall port, in_ranges (foldl merge_port m l) port <-> in_ranges m port \/ in_ranges l port).
Proof.
  revert m. induction l as [|r l IH]; intros m Hs Hok Hm Hfirst; simpl.
  - split; [done|]. intros port. unfold in_ranges at 3. set_solver.
  - inversion_clear Hs as [|? ? Hs' Hr]. inversion_clear Hok as [|? ? Hrok Hok'].
    destruct (merge_port_step m r Hm Hrok) as (Hm' & Hun & top & rest & E & Htop).
    { intros t rs Et. eapply Hfirst; [done | by left]. }
    destruct (IH (merge_port m r)) as [Hinv Hun']; [done..| |].
    { intros t rs r' Et Hr'. rewrite E in Et. injection Et as -> ->. rewrite Forall_forall in Hr. specialize (Hr _ Hr'). lia. }
    split; [done|]. intros port. rewrite Hun', Hun, in_ranges_cons. tauto.
Qed.

Lemma port_sort_sorted l : StronglySorted (fun a b => pt_First a <= pt_First b) (sort_by port_less l).
Proof.
  eapply StronglySorted_weaken; [|apply (sort_by_sorted port_less)].
  - intros a b. unfold not_after, port_less. destruct (Z.eqb_spec (pt_First b) (pt_First a)); simpl; rewrite Z.ltb_ge; lia.
  - intros a b. unfold port_less. rewrite (Z.eqb_sym (pt_First b)).
    destruct (pt_First a =? pt_First b); simpl; rewrite Z.ltb_lt, Z.ltb_ge; lia.
  - intros a b c. unfold port_less.
    destruct (Z.eqb_spec (pt_First b) (pt_First a)), (Z.eqb_spec (pt_First c) (pt_First b)), (Z.eqb_spec (pt_First c) (pt_First a));
      simpl; rewrite ?Z.ltb_ge; lia.
Qed.

Lemma StronglySorted_rev {A} (R : A -> A -> Prop) l : StronglySorted (fun a b => R b a) l -> StronglySorted R (rev l).
Proof.
  induction 1 as [|x l Hs IH Hx]; simpl; [constructor|]. clear Hs.
  assert (Hall : Forall (fun y => R y x) (rev l)).
  { apply Forall_forall. intros y Hy. rewrite Forall_forall in Hx. apply Hx. by apply list_elem_of_In, in_rev, list_elem_of_In. }
  revert IH Hall. generalize (rev l). intros k IH. induction IH as [|y k Hk IH' Hy]; intros Hall; simpl; [repeat constructor|].
  inversion_clear Hall. constructor; [by apply IH'|]. apply Forall_app. split; [done | by constructor].
Qed.

Lemma tcp_service_ports raw s : parseService raw = Some s -> sv_Protocol s = 6 ->
  exists f l, sv_Ports s = [mkPortRange f l] /\ 1 <= f <= l /\ l <= 65535.
Proof.
  unfold parseService. intros (sel & Hs%ParseServiceSelector_wf & H)%bind_Some.
  apply bind_Some in H as (proto & Hp & [= <-]). simpl. intros ->.
  destruct Hs as [(Hproto & _) | (_ & -> & Hr & Hl)]; [|by exists (ss_First sel), (ss_Last sel)].
  exfalso. repeat (apply elem_of_cons in Hproto as [E | Hproto]; [rewrite E in Hp; vm_compute in Hp; discriminate|]).
  by apply not_elem_of_nil in Hproto.
Qed.

Lemma elem_of_tcp_ranges rule r : r ∈ tcp_ranges rule <->
  exists s, s ∈ ru_Services rule /\ sv_Protocol s = 6 /\ r ∈ sv_Ports s /\ 0 < pt_First r <= pt_Last r.
Proof.
  unfold tcp_ranges. rewrite list_elem_of_filter, list_elem_of_join. setoid_rewrite list_elem_of_fmap.
  setoid_rewrite list_elem_of_filter. naive_solver.
Qed.

(** A request gate intercepts exactly the TCP destination ports its policy matches:
    for a compiled rule with services, the merged port list contains a port if and only if
    a TCP packet to that port matches one of the services, and the ranges are in order,
    disjoint and not adjacent. *)
Theorem RequestGateTCPPorts_exact pol r :
  compile_rule pol = Ok r -> ru_Services r <> [] ->
  (forall view, vw_Protocol view = 6 ->
     existsb (fun p => port_Contains p (vw_DestinationPort view)) (RequestGateTCPPorts r) = existsb (serviceMatch view) (ru_Services r)) /\
  StronglySorted (fun a b => pt_Last a + 1 < pt_First b) (RequestGateTCPPorts r).
Proof.
  intros Hr Hne. destruct (compile_rule_spec _ _ Hr) as (_ & _ & _ & _ & _ & _ & _ & _ & Hsvc & _).
  apply parse_services_spec in Hsvc. unfold RequestGateTCPPorts. rewrite bool_decide_false by done.
  assert (Htcp : forall s, s ∈ ru_Services r -> sv_Protocol s = 6 -> exists f l, sv_Ports s = [mkPortRange f l] /\ 1 <= f <= l /\ l <= 65535).
  { intros s [i Hi]%list_elem_of_lookup. destruct (Forall2_lookup_r _ _ _ _ _ Hsvc Hi) as (raw & _ & Hp). by apply (tcp_service_ports raw). }
  destruct (merge_fold (sort_by port_less (tcp_ranges r)) []) as [[_ Hap] Hun].
  - apply port_sort_sorted.
  - apply Forall_forall. intros q Hq. apply sort_by_elem_of, elem_of_tcp_ranges in Hq as (s & Hs & Hproto & Hq & Hpos).
    destruct (Htcp s Hs Hproto) as (f & l & Ep & Hf & Hl). rewrite Ep in Hq. apply list_elem_of_singleton in Hq as ->.
    unfold range_ok; simpl in *. lia.
  - split; constructor.
  - done.
  - split; [|by apply StronglySorted_rev]. intros view Hview. apply eq_bool_prop_intro.
    rewrite !Is_true_true, !existsb_elem_of. set (m := foldl merge_port [] _) in *.
    transitivity (in_ranges m (vw_DestinationPort view)).
    { unfold in_ranges, port_Contains. setoid_rewrite andb_true_iff. setoid_rewrite Z.leb_le. setoid_rewrite list_elem_of_In.
      setoid_rewrite <- in_rev. done. }
    rewrite Hun. unfold in_ranges. setoid_rewrite sort_by_elem_of. setoid_rewrite elem_of_tcp_ranges. split.
    + intros [(q & Hq & _) | (q & (s & Hs & Hproto & Hq & _) & Hport)]; [by apply not_elem_of_nil in Hq|]. exists s. split; [done|].
      unfold serviceMatch. rewrite Hproto, Hview, Z.eqb_refl. simpl. apply orb_true_iff. right.
      apply existsb_elem_of. exists q. split; [done|]. unfold port_Contains. by rewrite andb_true_iff, !Z.leb_le.
    + intros (s & Hs & Hm). right. unfold serviceMatch in Hm. apply andb_true_iff in Hm as [Hproto%Z.eqb_eq Hm].
      destruct (Htcp s Hs ltac:(congruence)) as (f & l & Ep & Hf & Hl). rewrite Ep in Hm. simpl in Hm.
      rewrite orb_false_r in Hm. unfold port_Contains in Hm. simpl in Hm. rewrite andb_true_iff, !Z.leb_le in Hm.
      exists (mkPortRange f l). simpl. split; [|done]. exists s. rewrite Ep. split_and!; [done | congruence | by left | lia | lia].
Qed.

Definition ex_gate_policy : SecurityPolicy :=
  ex_policy "web" 10 [] [] ["tcp:8080-8090"; "udp:53"; "tcp:443"; "tcp:8091"; "tcp:8085-9000"] DecisionAllow.
Definition ex_gate_rule : Rule := match compile_rule ex_gate_policy with Ok r => r | Err _ => rule_zero end.

Example ex_gate_ports : RequestGateTCPPorts ex_gate_rule = [mkPortRange 443 443; mkPortRange 8080 9000].
Proof. vm_compute. reflexivity. Qed.

Lemma RequestGateTCPPorts_exact_witness :
  existsb (serviceMatch (ex_view 167772165 8500)) (ru_Services ex_gate_rule) = true.
Proof.
  rewrite <- (proj1 (RequestGateTCPPorts_exact ex_gate_policy ex_gate_rule
    (ltac:(unfold ex_gate_rule; destruct (compile_rule ex_gate_policy) eqn:E; [reflexivity | vm_compute in E; discriminate]))
    (ltac:(vm_compute; discriminate))) (ex_view 167772165 8500) eq_refl).
  vm_compute. reflexivity.
Defined.

(** ** Selecting a gate *)

Lemma Compile_no_gates c g p : Compile c g = Ok p -> pr_requestGates p = ∅.
Proof.
  unfold Compile. intros H. apply result_bind_Ok in H as (rules & _ & [= <-]).
  assert (Hif : forall ifs p0, pr_requestGates (foldl add_interface p0 ifs) = pr_requestGates p0).
  { induction ifs as [|i ifs IH]; intros p0; [done|]. simpl. rewrite IH. unfold add_interface.
    destruct (foldl (add_address _) _ _) as [z l]. by case_if. }
  assert (Hrt : forall m rs p0, pr_requestGates (foldl (add_route m) p0 rs) = pr_requestGates p0).
  { intros m. induction rs as [|r rs IH]; intros p0; [done|]. simpl. rewrite IH. unfold add_route.
    by repeat (case_if || case_match). }
  etrans; [apply Hrt|]. by etrans; [apply Hif|].
Qed.

Lemma CompileM3_Compile c g p : CompileM3 c g = Ok p -> exists p0, Compile c g = Ok p0 /\ pr_Rules p = pr_Rules p0 /\
  pr_requestGates p = pr_requestGates p0 /\ pr_DefaultDeny p = pr_DefaultDeny p0 /\ pr_Generation p = pr_Generation p0.
Proof.
  unfold CompileM3. case_if; [done|]. destruct (ExactDuplicatePolicyErrorsForConfig c); [|done].
  destruct (M3UnreachablePolicyErrors c); [|done]. intros H. apply result_bind_Ok in H as (p0 & Hp0 & [= <-]). by exists p0.
Qed.

Lemma add_gates_lookup c g xs rules pols m id plan :
  foldl (add_gate c g xs rules) m pols !! id = Some plan ->
  m !! id = Some plan \/ exists pol, pol ∈ pols /\ sp_ID pol = id /\ gate_plan c g xs rules pol = Some plan.
Proof.
  revert m. induction pols as [|pol pols IH]; intros m; simpl; [by left|].
  intros [Hm | (q & Hq & Hrest)]%IH; [|right; exists q; split; [by right | done]].
  unfold add_gate in Hm. destruct (gate_plan c g xs rules pol) as [pl|] eqn:E; [|by left].
  apply lookup_insert_Some in Hm as [[<- <-] | [_ Hm]]; [|by left]. right. exists pol. split; [by left | done].
Qed.

(** A request gate is only ever selected for TCP traffic that the connectivity policy
    allows: an enabled plan comes from an enabled ALLOW policy of the configuration with
    an enabled gate profile, it is that policy which decided the packet, the destination port
    is one of the plan's ports, and the fail mode is the profile's. Denied, default-allowed
    and non-TCP traffic never acquires a gate. *)
Theorem SelectRequestGate_sound c g p view :
  CompileM4 c g = Ok p -> rp_Enabled (SelectRequestGate p view) = true ->
  UsesM4 c = true /\ vw_Protocol view = 6 /\
  existsb (fun r => port_Contains r (vw_DestinationPort view)) (rp_tcpPorts (SelectRequestGate p view)) = true /\
  pv_Action (Evaluate p view) = DecisionAllow /\
  exists pol profile gate, pol ∈ cf_Policies c /\ sp_Enabled pol = true /\ sp_Action pol = DecisionAllow /\
    pv_PolicyID (Evaluate p view) = sp_ID pol /\ rp_PolicyID (SelectRequestGate p view) = sp_ID pol /\
    index_by pf_ID (cf_Profiles c) !! sp_SecurityProfileID pol = Some profile /\
    pf_RequestGate profile = Some gate /\ gp_Enabled gate = true /\
    rp_FailMode (SelectRequestGate p view) = gp_FailMode gate /\ rp_TLSMode (SelectRequestGate p view) = pf_TLSMode profile.
Proof.
  unfold CompileM4. destruct (_ && _); [done|]. destruct (find _ _); [done|]. intros H.
  apply result_bind_Ok in H as (p0 & H0 & H). destruct (CompileM3_Compile _ _ _ H0) as (p1 & H1 & _ & Hg & _).
  rewrite (Compile_no_gates _ _ _ H1) in Hg. unfold SelectRequestGate.
  destruct (_ || _) eqn:Hguard; [done|]. split_bool.
  destruct (pr_requestGates p !! pv_PolicyID (Evaluate p view)) as [plan|] eqn:Hplan; [|done].
  destruct (existsb _ (rp_tcpPorts plan)) eqn:Hports; [|done]. intros _.
  destruct (UsesM4 c); simpl in H; [|injection H as ->; by rewrite Hg in Hplan].
  apply result_bind_Ok in H as (xs & _ & [= <-]). apply add_gates_lookup in Hplan as [Hplan | (pol & Hin & Hid & Hplan)]; [done|].
  unfold gate_plan in Hplan. destruct (negb (sp_Enabled pol) || _) eqn:Hen; [done|]. split_bool.
  apply bind_Some in Hplan as (profile & Hprof & Hplan). apply bind_Some in Hplan as (gate & Hgate & Hplan).
  destruct (gp_Enabled gate) eqn:Hge; [|done]. injection Hplan as <-. split_and!; [done..|].
  exists pol, profile, gate. split_and!; done.
Qed.

Definition ex_gate_config : Config :=
  let pol := mkSecurityPolicy "web" "web" 10 ["lan"] [] [] [] [] [] "" "gate" None None DecisionAllow "SESSION" false false true in
  let gate := mkRequestGateProfile true GateFailClose "BLOCK" "BLOCK" true in
  let profile := mkSecurityProfile "gate" "gate" true false false false false false false TLSDecrypt 0 "" false DecisionNone None (Some gate) in
  let settings := mkRequestGateConfig true 0 0 "" 0 0 0 0 0 0 0 0 0 0 0 0 0 0 0 0 0 in
  let exclusion := mkTLSExclusion "bank" "bank" ["*.bank.example"] [] [443] true "client certificates" in
  mkConfig [] [] [] [] [pol] [profile] 0 0 0 0 0 0 0 0 true None (Some settings) [exclusion].

Definition ex_gate_program : Program := match CompileM4 ex_gate_config 3 with Ok p => p | Err _ => program_zero true 0 end.

Lemma ex_gate_compiles : CompileM4 ex_gate_config 3 = Ok ex_gate_program.
Proof. unfold ex_gate_program. destruct (CompileM4 ex_gate_config 3) eqn:E; [done|]. vm_compute in E. discriminate. Qed.

Lemma SelectRequestGate_sound_witness :
  rp_Enabled (SelectRequestGate ex_gate_program (ex_view 167772165 443)) = true /\
  pv_Action (Evaluate ex_gate_program (ex_view 167772165 443)) = DecisionAllow.
Proof.
  assert (E : rp_Enabled (SelectRequestGate ex_gate_program (ex_view 167772165 443)) = true) by (vm_compute; reflexivity).
  split; [done|].
  exact (proj1 (proj2 (proj2 (proj2 (SelectRequestGate_sound ex_gate_config 3 ex_gate_program (ex_view 167772165 443) ex_gate_compiles E))))).
Defined.

(** ** What validation guarantees *)

Lemma check_nil n v lo hi : check n v lo hi = [] <-> lo <= v <= hi.
Proof. unfold check. rewrite err_if_nil, orb_false_iff, !Z.ltb_ge. done. Qed.

(** A configuration that passes request-gate validation has all its effective limits
    in range (listen ports different and valid, at most 4 workers, a bounded queue, bodies of
    at most 1 MiB raw and 4 MiB decompressed, timeouts within their limits), its gate
    profiles name a known fail mode, and every policy that uses an enabled gate is an ALLOW
    policy of session scope that carries TCP. *)
Theorem ValidateRequestGate_bounds c :
  UsesM4 c = true -> ValidateRequestGate c = [] ->
  let g := EffectiveRequestGateConfig c in
  (1 <= rg_ListenHTTPPort g <= 65535 /\ 1 <= rg_ListenHTTPSPort g <= 65535 /\ rg_ListenHTTPPort g <> rg_ListenHTTPSPort g) /\
  (1 <= rg_WorkerCount g <= 4 /\ 1 <= rg_QueueItems g <= 1024 /\ 65536 <= rg_QueueBytes g <= 33554432) /\
  (1 <= rg_MaxPerClientRequests g <= rg_MaxConcurrentRequests g /\ rg_MaxConcurrentRequests g <= 1024) /\
  (1 <= rg_MaxRawBodyBytes g <= 1048576 /\ rg_MaxRawBodyBytes g <= rg_MaxDecompressedBodyBytes g <= 4194304) /\
  (100 <= rg_RequestTimeoutMillis g <= 30000 /\ 100 <= rg_ClientHelloTimeoutMillis g <= 5000) /\
  (forall profile gate, profile ∈ cf_Profiles c -> pf_RequestGate profile = Some gate -> gp_Enabled gate = true ->
     GateFailMode_Valid (gp_FailMode gate) = true) /\
  (forall pol, pol ∈ cf_Policies c -> gated_policy c pol = true ->
     sp_Action pol = DecisionAllow /\ canonicalScope (sp_Scope pol) = "SESSION" /\ hasRequestGateTCPService (sp_Services pol) = true).
Proof.
  intros Hm4 Hv g. unfold ValidateRequestGate in Hv. rewrite Hm4 in Hv. cbn [negb] in Hv. fold g in Hv.
  rewrite !app_nil in Hv. destruct Hv as (Hset & Hprof & Hpol & _). rewrite mjoin_nil in Hprof. rewrite mjoin_nil in Hpol.
  unfold gate_setting_errors in Hset. rewrite !app_nil, !check_nil, !err_if_nil, Z.eqb_neq, !Z.ltb_ge in Hset.
  assert (E : Z.shiftl 64 10 = 65536 /\ Z.shiftl 32 20 = 33554432 /\ Z.shiftl 1 20 = 1048576 /\ Z.shiftl 4 20 = 4194304) by done.
  destruct E as (E1 & E2 & E3 & E4). rewrite E1, E2, E3, E4 in Hset.
  split_and!; try tauto; try lia.
  - intros profile gate Hin Hg Hen. specialize (Hprof _ Hin). unfold gate_profile_errors in Hprof. rewrite Hg, Hen in Hprof.
    cbn [negb] in Hprof. rewrite !app_nil, !err_if_nil, negb_false_iff in Hprof. tauto.
  - intros pol Hin Hgate. specialize (Hpol _ Hin). unfold gate_policy_errors in Hpol. rewrite Hgate in Hpol.
    rewrite app_nil, !err_if_nil, orb_false_iff, !negb_false_iff, !bool_decide_eq_true in Hpol. tauto.
Qed.

Lemma ValidateRequestGate_bounds_witness :
  1 <= rg_WorkerCount (EffectiveRequestGateConfig ex_gate_config) <= 4.
Proof.
  refine (proj1 (proj1 (proj2 (ValidateRequestGate_bounds ex_gate_config _ _)))); vm_compute; reflexivity.
Defined.
