(* ===== verification/Codec.v ===== *)
(** * JSON codecs

    [encoding/json] is used by the epoch state file, the gate IPC frames and
    the evidence budget.  A component that encodes a value takes the codec as
    an argument, an instance of [JSON], and relies on the laws of [JSONLaws]
    where a statement needs them: decoding what was encoded gives the value
    back, an encoding is never empty, and decoding only yields values of the
    Go type ([json_wf]: integers within their width).

    [countable_JSON] is a codec that satisfies the laws for every countable
    type; it shows that the laws can be met and instantiates them in examples. *)

From stdpp Require Import countable.
From S2P Require Import Prelude.

Abbreviation bytes := (list Z) (only parsing).

Class JSON (A : Type) := {
  Marshal : A -> option bytes;
  Unmarshal : bytes -> option A;
}.

Class JSONLaws {A : Type} (J : JSON A) (json_wf : A -> Prop) := {
  Unmarshal_Marshal : forall a p, json_wf a -> Marshal a = Some p -> Unmarshal p = Some a;
  Unmarshal_wf : forall p a, Unmarshal p = Some a -> json_wf a;
  Marshal_nonempty : forall a p, Marshal a = Some p -> p <> [];
}.

(** ** A codec for countable types: the binary digits of the code *)

Fixpoint pos_bytes (p : positive) : bytes :=
  match p with
  | xH => [49]
  | xO p' => 48 :: pos_bytes p'
  | xI p' => 49 :: pos_bytes p'
  end.

Fixpoint bytes_pos (bs : bytes) : option positive :=
  match bs with
  | [] => None
  | [b] => if b =? 49 then Some xH else None
  | b :: bs' =>
      match bytes_pos bs' with
      | Some p => if b =? 48 then Some (xO p) else if b =? 49 then Some (xI p) else None
      | None => None
      end
  end.

Lemma bytes_pos_bytes p : bytes_pos (pos_bytes p) = Some p.
Proof.
  induction p as [p IH | p IH |]; [| | done].
  - change (pos_bytes p~1) with (49 :: pos_bytes p). destruct (pos_bytes p) eqn:E; [done|].
    simpl in *. by rewrite IH.
  - change (pos_bytes p~0) with (48 :: pos_bytes p). destruct (pos_bytes p) eqn:E; [done|].
    simpl in *. by rewrite IH.
Qed.

Definition countable_JSON {A : Type} `{Countable A} (wf : A -> bool) : JSON A := {|
  Marshal a := Some (pos_bytes (encode a));
  Unmarshal p :=
    match bytes_pos p with
    | Some n => match decode n with Some a => if wf a then Some a else None | None => None end
    | None => None
    end;
|}.

Lemma countable_JSONLaws {A : Type} `{Countable A} (wf : A -> bool) :
  JSONLaws (countable_JSON wf) (fun a => wf a = true).
Proof.
  split.
  - intros a p Hwf [= <-]. simpl. by rewrite bytes_pos_bytes, decode_encode, Hwf.
  - intros p a. simpl. destruct (bytes_pos p) as [n|]; [|done].
    destruct (decode n) as [b|]; [|done]. destruct (wf b) eqn:E; [|done]. by intros [= <-].
  - intros a p [= <-]. by destruct (encode a).
Qed.
