(* ===== verification/Mark.v ===== *)
(** * Conntrack cache marks and kernel epochs

    [internal/dataplane/mark.go]: the upper 24 bits of a conntrack mark cache an
    allow decision as (epoch, source zone slot, destination zone slot); the low
    byte belongs to other integrations.

    [internal/dataplane/epoch.go]: the allocator of the 12-bit epochs, with its
    state file.  The file system is the [disk] component of the state and the
    outcome of a write is an input of the step: [writeAtomic] can fail before
    the file changes, after the rename (the directory sync fails), or in the
    fallback that removes the old file before retrying the rename. *)

From stdpp Require Import countable.
From S2P Require Import Prelude GoStr Sha256 Codec.

(** ** Bit fields *)

Definition NGFWMarkMask : Z := 0xffffff00.
Definition NGFWMarkEpochMask : Z := 0xfff00000.
Definition NGFWMarkSourceMask : Z := 0x000fc000.
Definition NGFWMarkDestMask : Z := 0x00003f00.
Definition MaxKernelEpoch : Z := 4095.
Definition MaxZoneSlots : Z := 63.

Record CacheMark : Type := mkCacheMark {
  Epoch : Z;
  SourceZoneSlot : Z;
  DestinationZoneSlot : Z;
}.

#[export] Instance CacheMark_eq_dec : EqDecision CacheMark.
Proof. solve_decision. Defined.

Inductive MarkError : Type := EpochRange | ZoneSlotRange.

Definition PackCacheMark (mark : CacheMark) : result MarkError Z :=
  if (Epoch mark =? 0) || (MaxKernelEpoch <? Epoch mark) then Err EpochRange
  else if (SourceZoneSlot mark =? 0) || (MaxZoneSlots <? SourceZoneSlot mark)
       || (DestinationZoneSlot mark =? 0) || (MaxZoneSlots <? DestinationZoneSlot mark)
       then Err ZoneSlotRange
  else Ok (Z.lor (Z.lor (u32 (Z.shiftl (Epoch mark) 20)) (u32 (Z.shiftl (SourceZoneSlot mark) 14)))
                 (u32 (Z.shiftl (DestinationZoneSlot mark) 8))).

Definition UnpackCacheMark (value : Z) : CacheMark * bool :=
  let value := Z.land value NGFWMarkMask in
  let mark := mkCacheMark (u16 (Z.shiftr (Z.land value NGFWMarkEpochMask) 20))
                          (u8 (Z.shiftr (Z.land value NGFWMarkSourceMask) 14))
                          (u8 (Z.shiftr (Z.land value NGFWMarkDestMask) 8)) in
  (mark, negb (Epoch mark =? 0) && negb (SourceZoneSlot mark =? 0) && negb (DestinationZoneSlot mark =? 0)).

(** The returned mark and the error, both looked at by callers. *)
Definition SetCacheMark (existing : Z) (mark : CacheMark) : Z * option MarkError :=
  match PackCacheMark mark with
  | Err e => (existing, Some e)
  | Ok packed => (Z.lor (Z.ldiff existing NGFWMarkMask) packed, None)
  end.

Definition ClearCacheMark (existing : Z) (ownsMark : bool) : Z :=
  if negb ownsMark then existing else Z.ldiff existing NGFWMarkMask.

Definition CacheHit (existing : Z) (expected : CacheMark) (ownsMark : bool) : bool :=
  if negb ownsMark then false
  else match PackCacheMark expected with
       | Err _ => false
       | Ok packed => Z.land existing NGFWMarkMask =? packed
       end.

Definition CacheModeAllowed (zoneCount : Z) (foreignUpperBits : bool) : bool :=
  (0 <? zoneCount) && (zoneCount <=? MaxZoneSlots) && negb foreignUpperBits.

(** The Go types of a mark's fields. *)
Definition mark_typed (m : CacheMark) : Prop :=
  0 <= Epoch m < 2 ^ 16 /\ 0 <= SourceZoneSlot m < 2 ^ 8 /\ 0 <= DestinationZoneSlot m < 2 ^ 8.

(** The packed mark as a number. *)
Definition mark_value (m : CacheMark) : Z :=
  Epoch m * 2 ^ 20 + SourceZoneSlot m * 2 ^ 14 + DestinationZoneSlot m * 2 ^ 8.

Lemma lor_shiftl_add a b n : 0 <= n -> 0 <= b < 2 ^ n -> Z.lor (Z.shiftl a n) b = a * 2 ^ n + b.
Proof.
  intros Hn Hb. rewrite <- Z.shiftl_mul_pow2 by done.
  rewrite <- Z.add_lor_land. assert (Z.land (Z.shiftl a n) b = 0) as ->; [|lia].
  apply Z.bits_inj'. intros i Hi. rewrite Z.land_spec, Z.bits_0.
  destruct (decide (i < n)).
  - by rewrite Z.shiftl_spec_low.
  - rewrite <- (Z.mod_small b (2 ^ n)) by done. rewrite Z.mod_pow2_bits_high by lia. apply andb_false_r.
Qed.

(** A contiguous mask selects a quotient modulo a power of two. *)
Lemma land_field v k n : 0 <= k -> 0 <= n ->
  Z.land v (Z.shiftl (Z.ones n) k) = (v / 2 ^ k) mod 2 ^ n * 2 ^ k.
Proof.
  intros Hk Hn. rewrite <- Z.land_ones, <- Z.shiftr_div_pow2, <- Z.shiftl_mul_pow2 by done.
  apply Z.bits_inj'. intros i Hi. rewrite Z.land_spec.
  destruct (decide (i < k)).
  - rewrite !Z.shiftl_spec_low by done. apply andb_false_r.
  - rewrite !Z.shiftl_spec by lia. rewrite Z.land_spec, Z.shiftr_spec by lia.
    do 2 f_equal. lia.
Qed.

Lemma PackCacheMark_Ok m p : mark_typed m ->
  PackCacheMark m = Ok p <->
  1 <= Epoch m <= 4095 /\ 1 <= SourceZoneSlot m <= 63 /\ 1 <= DestinationZoneSlot m <= 63 /\ p = mark_value m.
Proof.
  intros (He & Hs & Hd). unfold PackCacheMark, MaxKernelEpoch, MaxZoneSlots.
  assert (Hv : 1 <= Epoch m <= 4095 -> SourceZoneSlot m <= 63 -> DestinationZoneSlot m <= 63 ->
    Z.lor (Z.lor (u32 (Z.shiftl (Epoch m) 20)) (u32 (Z.shiftl (SourceZoneSlot m) 14)))
          (u32 (Z.shiftl (DestinationZoneSlot m) 8)) = mark_value m).
  { intros. unfold u32. rewrite !Z.shiftl_mul_pow2 by lia. rewrite !Z.mod_small by lia.
    rewrite <- (Z.shiftl_mul_pow2 (Epoch m)) by lia. rewrite lor_shiftl_add by lia.
    replace (Epoch m * 2 ^ 20 + SourceZoneSlot m * 2 ^ 14)
      with (Z.shiftl (Epoch m * 2 ^ 6 + SourceZoneSlot m) 14) by (rewrite Z.shiftl_mul_pow2; lia).
    rewrite lor_shiftl_add by lia. unfold mark_value. lia. }
  split.
  - intros H. repeat case_if; simplify_eq. split_bool. repeat split; try (apply Hv); lia.
  - intros (?&?&?&->). rewrite Hv by lia. repeat case_if; try done;
      repeat match goal with H : _ || _ = true |- _ => apply orb_true_iff in H as [H|H] end;
      split_bool; lia.
Qed.

Lemma UnpackCacheMark_fields v : 0 <= v < 2 ^ 32 ->
  (UnpackCacheMark v).1 = mkCacheMark (v / 2 ^ 20) ((v / 2 ^ 14) mod 2 ^ 6) ((v / 2 ^ 8) mod 2 ^ 6).
Proof.
  intros Hv. unfold UnpackCacheMark. cbn [fst].
  change NGFWMarkMask with (Z.shiftl (Z.ones 24) 8).
  change NGFWMarkEpochMask with (Z.shiftl (Z.ones 12) 20).
  change NGFWMarkSourceMask with (Z.shiftl (Z.ones 6) 14).
  change NGFWMarkDestMask with (Z.shiftl (Z.ones 6) 8).
  rewrite !land_field, !Z.shiftr_div_pow2, !Z.div_mul by lia. unfold u16, u8.
  f_equal; Z.to_euclidean_division_equations; lia.
Qed.

Lemma land_mask v : 0 <= v < 2 ^ 32 -> Z.land v NGFWMarkMask = v - v mod 2 ^ 8.
Proof.
  intros. change NGFWMarkMask with (Z.shiftl (Z.ones 24) 8). rewrite land_field by lia.
  Z.to_euclidean_division_equations. lia.
Qed.

Lemma ldiff_mask v : 0 <= v < 2 ^ 32 -> Z.ldiff v NGFWMarkMask = v mod 2 ^ 8.
Proof.
  intros Hv. pose proof (Z.lor_ldiff_and v NGFWMarkMask) as Hl.
  assert (Hd : Z.land (Z.ldiff v NGFWMarkMask) (Z.land v NGFWMarkMask) = 0).
  { apply Z.bits_inj'. intros i Hi. rewrite !Z.land_spec, Z.ldiff_spec, Z.bits_0 by lia.
    by destruct (Z.testbit v i), (Z.testbit NGFWMarkMask i). }
  pose proof (Z.add_lor_land (Z.ldiff v NGFWMarkMask) (Z.land v NGFWMarkMask)) as Ha.
  rewrite Hl, Hd, land_mask in Ha by done. lia.
Qed.

Lemma SetCacheMark_value e m : mark_typed m -> 0 <= e < 2 ^ 32 -> is_ok (PackCacheMark m) = true ->
  SetCacheMark e m = (mark_value m + e mod 2 ^ 8, None).
Proof.
  intros Ht He Hok. unfold SetCacheMark. destruct (PackCacheMark m) as [p|] eqn:E; [|done].
  apply PackCacheMark_Ok in E as (?&?&?&->); [|done]. f_equal.
  rewrite ldiff_mask, Z.lor_comm by done. unfold mark_value.
  replace (_ + _ + _) with (Z.shiftl (Epoch m * 2 ^ 12 + SourceZoneSlot m * 2 ^ 6 + DestinationZoneSlot m) 8)
    by (rewrite Z.shiftl_mul_pow2; lia).
  rewrite lor_shiftl_add by (pose proof (Z.mod_pos_bound e (2 ^ 8)); lia).
  rewrite Z.shiftl_mul_pow2 by lia. done.
Qed.

(** Writing a cache mark over an existing conntrack mark, for a mark the
    packer accepts: the three fields read back exactly, the foreign low byte is
    the one that was there, the result stays a 32-bit mark, the lookup for the
    written (epoch, zones) hits and the lookup for any other typed triple
    misses; clearing the mark leaves just the low byte. *)
Theorem SetCacheMark_roundtrip (existing : Z) (m : CacheMark) :
  mark_typed m -> 0 <= existing < 2 ^ 32 -> is_ok (PackCacheMark m) = true ->
  let v := (SetCacheMark existing m).1 in
  UnpackCacheMark v = (m, true) /\ v mod 2 ^ 8 = existing mod 2 ^ 8 /\ (0 <= v < 2 ^ 32) /\
  (forall m', mark_typed m' -> CacheHit v m' true = true <-> m' = m) /\
  ClearCacheMark v true = existing mod 2 ^ 8.
Proof.
  intros Ht He Hok. rewrite SetCacheMark_value by done. cbn [fst].
  destruct (PackCacheMark m) as [p|] eqn:E; [|done].
  pose proof E as E'. apply PackCacheMark_Ok in E' as (He1&Hs1&Hd1&->); [|done].
  pose proof (Z.mod_pos_bound existing (2 ^ 8) ltac:(lia)) as Hb.
  set (v := mark_value m + existing mod 2 ^ 8).
  assert (Hv : 0 <= v < 2 ^ 32) by (subst v; unfold mark_value; lia).
  assert (Hlow : v mod 2 ^ 8 = existing mod 2 ^ 8)
    by (subst v; unfold mark_value; Z.to_euclidean_division_equations; lia).
  assert (Hfields : (UnpackCacheMark v).1 = m).
  { rewrite UnpackCacheMark_fields by done. destruct m as [e s d]. subst v. unfold mark_value. simpl in *.
    f_equal; Z.to_euclidean_division_equations; lia. }
  repeat split; try done; try lia.
  - rewrite (surjective_pairing (UnpackCacheMark v)), Hfields. f_equal.
    unfold UnpackCacheMark in *. cbn [fst snd] in *. rewrite Hfields.
    assert (forall x, 1 <= x -> (x =? 0) = false) as H0 by (intros; apply Z.eqb_neq; lia).
    by rewrite !H0 by lia.
  - unfold CacheHit. simpl. destruct (PackCacheMark m') as [q|] eqn:Eq; [|done].
    apply PackCacheMark_Ok in Eq as (?&?&?&->); [|done]. rewrite land_mask, Hlow by done.
    intros Hh%Z.eqb_eq. destruct m as [e s d], m' as [e' s' d']. subst v. unfold mark_value in *. simpl in *.
    f_equal; lia.
  - intros ->. unfold CacheHit. simpl. rewrite E, land_mask, Hlow by done. apply Z.eqb_eq. subst v. lia.
  - unfold ClearCacheMark. simpl. rewrite ldiff_mask, Hlow; done.
Qed.

Lemma SetCacheMark_roundtrip_witness :
  UnpackCacheMark (SetCacheMark 0xabcdef12 (mkCacheMark 4095 63 1)).1 = (mkCacheMark 4095 63 1, true).
Proof.
  destruct (SetCacheMark_roundtrip 0xabcdef12 (mkCacheMark 4095 63 1)) as [H _].
  - unfold mark_typed. simpl. lia.
  - lia.
  - vm_compute. reflexivity.
  - exact H.
Defined.
