(* ===== verification/Epoch.v ===== *)
(** * The kernel epoch allocator

    [internal/dataplane/epoch.go].  Epochs tag cached conntrack decisions, so
    within one kernel boot an epoch must never be given out twice, across
    restarts of the engine included.  The state file is the [disk] component of
    the world and the outcome of a write is an input of the step, because
    [writeAtomic] ([internal/dataplane/forwarding.go]) can fail before the file
    changes, after the rename (the directory sync fails), or in the fallback
    that removes the old file before it retries the rename. *)

From stdpp Require Import countable.
From S2P Require Import Prelude GoStr Sha256 Codec Mark.

Record EpochState : Type := mkEpochState {
  Schema : Z;
  BootID : string;
  Highest : Z;
  UpdatedAt : Time;
  Checksum : string;
}.

#[export] Instance eta_EpochState : Eta EpochState :=
  fun r => mkEpochState (Schema r) (BootID r) (Highest r) (UpdatedAt r) (Checksum r).

#[export] Instance EpochState_eq_dec : EqDecision EpochState.
Proof. solve_decision. Defined.

#[export] Instance EpochState_countable : Countable EpochState.
Proof.
  refine (inj_countable'
    (fun s => (Schema s, BootID s, Highest s, UpdatedAt s, Checksum s))
    (fun '(a, b, c, d, e) => mkEpochState a b c d e) _).
  by intros [].
Defined.

(** [Highest] is a [uint16]. *)
Definition epoch_typed (s : EpochState) : Prop := 0 <= Highest s < 2 ^ 16.

Record EpochAllocator : Type := mkEpochAllocator {
  path : string;
  alloc_bootID : string;
  alloc_state : EpochState;
}.

(** [os.ReadFile] of the state file: absent, unreadable, or its bytes. *)
Inductive FileRead : Type := FileNotExist | FileReadError | FileData (payload : bytes).

(** What the system calls of one [writeAtomic] answer, in the order it makes
    them; [removeOk] is looked at when there is a file to remove. *)
Record WriteEnv : Type := mkWriteEnv {
  createTempOk : bool;
  chmodOk : bool;
  writeOk : bool;
  syncOk : bool;
  closeOk : bool;
  renameOk : bool;
  removeOk : bool;
  renameRetryOk : bool;
  openDirOk : bool;
  syncDirOk : bool;
}.

(** The file at the path afterwards, and whether the error is nil. *)
Definition writeAtomic {A} (disk : option A) (payload : A) (e : WriteEnv) : option A * bool :=
  if negb (createTempOk e) then (disk, false)
  else if negb (chmodOk e) then (disk, false)
  else if negb (writeOk e) then (disk, false)
  else if negb (syncOk e) then (disk, false)
  else if negb (closeOk e) then (disk, false)
  else
    let syncDirectory := negb (openDirOk e) || syncDirOk e in
    if renameOk e then (Some payload, syncDirectory)
    else
      match disk with
      | Some old =>
          if negb (removeOk e) then (Some old, false)
          else if negb (renameRetryOk e) then (None, false)
          else (Some payload, syncDirectory)
      | None => if negb (renameRetryOk e) then (None, false) else (Some payload, syncDirectory)
      end.


Inductive EpochError : Type :=
| EpochPathRequired | EpochReadError | EpochDecode | EpochChecksumMismatch | EpochSchema
| EpochExhausted | EpochMarshal | EpochWrite.


Lemma writeAtomic_ok {A} (disk : option A) payload e d : writeAtomic disk payload e = (d, true) -> d = Some payload.
Proof.
  unfold writeAtomic. destruct e as [[] [] [] [] [] [] [] [] [] []]; simpl; intros H;
    destruct disk; simplify_eq; auto.
Qed.

Section allocator.
(** [json.Marshal] and [json.Unmarshal], and [json.MarshalIndent]. *)
Context {J : JSON EpochState} (MarshalIndent : EpochState -> option bytes).

Definition epochChecksum (state : EpochState) : option string :=
  match Marshal (state <| Checksum := "" |>) with
  | Some data => Some (hex_EncodeToString (Sum256 data))
  | None => None
  end.

Definition NewEpochAllocator (p : string) (bootID : string) (read : FileRead) : result EpochError EpochAllocator :=
  if bool_decide (p = "") then Err EpochPathRequired
  else match read with
  | FileNotExist => Ok (mkEpochAllocator p bootID (mkEpochState 1 bootID 0 time_zero ""))
  | FileReadError => Err EpochReadError
  | FileData payload =>
      match Unmarshal payload with
      | None => Err EpochDecode
      | Some state =>
          let checksum := Checksum state in
          match epochChecksum (state <| Checksum := "" |>) with
          | None => Err EpochChecksumMismatch
          | Some expected =>
              if bool_decide (checksum = "") || negb (bool_decide (checksum = expected)) then Err EpochChecksumMismatch
              else if negb (Schema state =? 1) then Err EpochSchema
              else if negb (bool_decide (BootID state = bootID))
              then Ok (mkEpochAllocator p bootID (state <| Highest := 0 |> <| BootID := bootID |>))
              else Ok (mkEpochAllocator p bootID state)
          end
      end
  end.

(** [persistLocked]: the file afterwards and the error, if any. *)
Definition persistLocked (a : EpochAllocator) (disk : option bytes) (o : WriteEnv) : option bytes * option EpochError :=
  let state := alloc_state a <| Checksum := "" |> in
  match epochChecksum state with
  | None => (disk, Some EpochMarshal)
  | Some checksum =>
      match MarshalIndent (state <| Checksum := checksum |>) with
      | None => (disk, Some EpochMarshal)
      | Some payload =>
          let (disk', ok) := writeAtomic disk payload o in
          (disk', if ok then None else Some EpochWrite)
      end
  end.

Definition Allocate (a : EpochAllocator) (now : Time) (disk : option bytes) (o : WriteEnv)
  : EpochAllocator * option bytes * result EpochError Z :=
  if MaxKernelEpoch <=? Highest (alloc_state a) then (a, disk, Err EpochExhausted)
  else
    let state := mkEpochState (Schema (alloc_state a)) (BootID (alloc_state a))
                   (u16 (Highest (alloc_state a) + 1)) now (Checksum (alloc_state a)) in
    let a' := mkEpochAllocator (path a) (alloc_bootID a) state in
    let (disk', err) := persistLocked a' disk o in
    match err with
    | Some e => (mkEpochAllocator (path a) (alloc_bootID a) (state <| Highest := u16 (Highest state - 1) |>), disk', Err e)
    | None => (a', disk', Ok (Highest state))
    end.

Definition Current (a : EpochAllocator) : EpochState := alloc_state a.

(** ** Runs of one boot

    A step is a restart of the engine, which builds the allocator from the
    file (a failed read is an input), or one allocation. *)

Record EpochWorld : Type := mkEpochWorld {
  disk : option bytes;
  allocator : option EpochAllocator;
}.

Inductive EpochStep : Type :=
| EpochRestart (readError : bool)
| EpochAllocate (now : Time) (o : WriteEnv).

Definition read_of (readError : bool) (d : option bytes) : FileRead :=
  if readError then FileReadError
  else match d with Some payload => FileData payload | None => FileNotExist end.

Definition epoch_step (p bootID : string) (w : EpochWorld) (s : EpochStep) : EpochWorld * option Z :=
  match s with
  | EpochRestart readError =>
      match NewEpochAllocator p bootID (read_of readError (disk w)) with
      | Ok a => (mkEpochWorld (disk w) (Some a), None)
      | Err _ => (mkEpochWorld (disk w) None, None)
      end
  | EpochAllocate now o =>
      match allocator w with
      | None => (w, None)
      | Some a =>
          let '(a', d, r) := Allocate a now (disk w) o in
          (mkEpochWorld d (Some a'), match r with Ok n => Some n | Err _ => None end)
      end
  end.

(** The epochs a run gives out, in order. *)
Fixpoint epoch_run (p bootID : string) (w : EpochWorld) (steps : list EpochStep) : list Z :=
  match steps with
  | [] => []
  | s :: steps' =>
      let (w', given) := epoch_step p bootID w s in
      match given with
      | Some n => n :: epoch_run p bootID w' steps'
      | None => epoch_run p bootID w' steps'
      end
  end.


Context {laws : JSONLaws J epoch_typed}.
Hypothesis Unmarshal_MarshalIndent : forall s payload,
  epoch_typed s -> MarshalIndent s = Some payload -> Unmarshal payload = Some s.




Lemma epochChecksum_reset s c : epochChecksum (s <| Checksum := c |>) = epochChecksum s.
Proof. done. Qed.






(** A failed write gives nothing out and leaves the allocator at the epoch
    it had; a successful one gives out exactly the next epoch; at 4095 the
    allocator refuses without touching the file, so the cache is switched off
    rather than an epoch wrapped. *)
Theorem Allocate_cases (a : EpochAllocator) (now : Time) (d : option bytes) (o : WriteEnv) :
  epoch_typed (alloc_state a) ->
  let '(a', d', r) := Allocate a now d o in
  match r with
  | Ok e => e = Highest (alloc_state a) + 1 /\ e <= MaxKernelEpoch /\ Highest (alloc_state a') = e /\ is_Some d'
  | Err EpochExhausted => MaxKernelEpoch <= Highest (alloc_state a) /\ a' = a /\ d' = d
  | Err _ => Highest (alloc_state a) < MaxKernelEpoch /\ Highest (alloc_state a') = Highest (alloc_state a)
  end.
Proof using.
  intros Ht. unfold Allocate, epoch_typed, MaxKernelEpoch in *.
  destruct (4095 <=? Highest (alloc_state a)) eqn:Emax; split_bool; [by repeat split|].
  assert (Hh : u16 (Highest (alloc_state a) + 1) = Highest (alloc_state a) + 1) by (apply Z.mod_small; lia).
  rewrite Hh. set (state := mkEpochState _ _ _ now _).
  assert (Hback : Highest (state <| Highest := u16 (Highest state - 1) |>) = Highest (alloc_state a)).
  { change (u16 (Highest (alloc_state a) + 1 - 1) = Highest (alloc_state a)). unfold u16. rewrite Z.mod_small; lia. }
  destruct (persistLocked _ d o) as [d' err] eqn:Ep. unfold persistLocked in Ep.
  destruct (epochChecksum _) as [c|]; simplify_eq; [|by split].
  destruct (MarshalIndent _) as [payload|]; simplify_eq; [|by split].
  destruct (writeAtomic d payload o) as [d1 []] eqn:Ew; simplify_eq; [|by split].
  apply writeAtomic_ok in Ew as ->. repeat split; try done; simpl; lia.
Qed.
End allocator.

(** ** A concrete codec *)

Definition epoch_JSON : JSON EpochState :=
  countable_JSON (fun s => (0 <=? Highest s) && (Highest s <? 2 ^ 16)).



Definition write_ok : WriteEnv := mkWriteEnv true true true true true true true true true true.
Definition write_rename_fails : WriteEnv := mkWriteEnv true true true true true false true false true true.



Lemma Allocate_cases_witness :
  (Allocate (J := epoch_JSON) (Marshal (JSON := epoch_JSON)) (mkEpochAllocator "/s" "b" (mkEpochState 1 "b" 4095 0 "")) 5 None write_ok).2
  = Err EpochExhausted /\
  (let '(a', d', r) := Allocate (J := epoch_JSON) (Marshal (JSON := epoch_JSON)) (mkEpochAllocator "/s" "b" (mkEpochState 1 "b" 7 0 "")) 5 None write_ok in
  match r with
  | Ok e => e = 7 + 1 /\ e <= MaxKernelEpoch /\ Highest (alloc_state a') = e /\ is_Some d'
  | Err EpochExhausted => MaxKernelEpoch <= 7 /\ a' = mkEpochAllocator "/s" "b" (mkEpochState 1 "b" 7 0 "") /\ d' = None
  | Err _ => 7 < MaxKernelEpoch /\ Highest (alloc_state a') = 7
  end).
Proof.
  split; [vm_compute; reflexivity|].
  apply (Allocate_cases (J := epoch_JSON) (Marshal (JSON := epoch_JSON)) (mkEpochAllocator "/s" "b" (mkEpochState 1 "b" 7 0 "")) 5 None write_ok).
  unfold epoch_typed. simpl. lia.
Defined.

(** The fallback that removes the old state file before retrying a failed
    rename loses the epochs of the boot: after it, a restart of the engine gives
    an epoch out a second time. *)
Theorem removed_state_file_reuses_epochs :
  epoch_run (J := epoch_JSON) (Marshal (JSON := epoch_JSON)) "/s" "b" (mkEpochWorld None None)
    [EpochRestart false; EpochAllocate 10 write_ok; EpochAllocate 11 write_rename_fails;
     EpochRestart false; EpochAllocate 12 write_ok] = [1; 1].
Proof. vm_compute. reflexivity. Qed.
