(* ===== verification/GateFrame.v ===== *)
(** * Gate IPC framing

    [internal/gateipc/frame.go]: a frame is a 4-byte big-endian length and that
    many bytes of JSON.  A reader is the bytes that will arrive and the error
    the connection answers with when they run out; a writer is the list of
    answers its [Write] calls give, after which every call writes everything.
    The JSON codec is an argument ([FrameCodec]). *)

From stdpp Require Import countable.
From S2P Require Import Prelude GoStr Bytes Codec.

Definition ProtocolVersion : Z := 1.
Definition DefaultMaxFrameBytes : Z := 262144.
Definition HardMaxFrameBytes : Z := 1048576.

Definition CodeMalformed : string := "GATE_IPC_MALFORMED".
Definition CodeVersionMismatch : string := "GATE_IPC_VERSION_MISMATCH".
Definition CodeFrameTooLarge : string := "GATE_IPC_FRAME_TOO_LARGE".
Definition CodeDeadline : string := "GATE_IPC_DEADLINE_EXCEEDED".
Definition CodeEngineDown : string := "GATE_ENGINE_UNAVAILABLE".
Definition CodeCorrelation : string := "GATE_IPC_CORRELATION_MISMATCH".
Definition CodeStaleGeneration : string := "GATE_IPC_STALE_GENERATION".
Definition CodeInternal : string := "GATE_IPC_INTERNAL".

(** What the callers tell apart in an [error]: a [*ProtocolError], a
    [net.Error] whose [Timeout] holds, and the rest. *)
Inductive IPCError : Type :=
| ProtocolError (code : string)
| NetTimeout
| ShortWrite
| OtherError.

#[export] Instance IPCError_eq_dec : EqDecision IPCError.
Proof. solve_decision. Defined.

Definition normalizedMaxFrame (value : Z) : Z :=
  if value <=? 0 then DefaultMaxFrameBytes
  else if HardMaxFrameBytes <? value then HardMaxFrameBytes
  else value.

Lemma normalizedMaxFrame_range v : 1 <= normalizedMaxFrame v <= HardMaxFrameBytes.
Proof.
  unfold normalizedMaxFrame, DefaultMaxFrameBytes, HardMaxFrameBytes. repeat case_if; split_bool; lia.
Qed.

(** ** Readers and writers *)

Record Reader : Type := mkReader {
  incoming : bytes;
  exhausted : IPCError;
}.

(** [io.ReadFull(reader, buf)] with [len(buf) = n]: it takes [n] bytes or
    consumes what there is and fails. *)
Definition ReadFull (r : Reader) (n : Z) : result IPCError bytes * Reader :=
  if n <=? Z.of_nat (length (incoming r))
  then (Ok (take (Z.to_nat n) (incoming r)), mkReader (drop (Z.to_nat n) (incoming r)) (exhausted r))
  else (Err (exhausted r), mkReader [] (exhausted r)).

(** One answer of [Write]: the count it reports and its error. *)
Record WriteAnswer : Type := mkWriteAnswer {
  written : Z;
  writeErr : option IPCError;
}.

Record Writer : Type := mkWriter {
  answers : list WriteAnswer;
  sent : bytes;
}.

Definition Write (w : Writer) (payload : bytes) : WriteAnswer * Writer :=
  match answers w with
  | [] => (mkWriteAnswer (Z.of_nat (length payload)) None, mkWriter [] (sent w ++ payload))
  | a :: rest => (a, mkWriter rest (sent w ++ take (Z.to_nat (written a)) payload))
  end.

(** The loop takes at least one byte off [payload] per turn, so [length payload]
    turns are enough ([writeAll_enough]). *)
Fixpoint writeAll_loop (fuel : nat) (w : Writer) (payload : bytes) : option IPCError * Writer :=
  match payload with
  | [] => (None, w)
  | _ =>
      match fuel with
      | O => (None, w)
      | S fuel' =>
          let (a, w') := Write w payload in
          match writeErr a with
          | Some e => (Some e, w')
          | None =>
              if (written a <=? 0) || (Z.of_nat (length payload) <? written a) then (Some ShortWrite, w')
              else writeAll_loop fuel' w' (drop (Z.to_nat (written a)) payload)
          end
      end
  end.

Definition writeAll (w : Writer) (payload : bytes) : option IPCError * Writer :=
  writeAll_loop (length payload) w payload.

Lemma writeAll_enough fuel w payload :
  (length payload <= fuel)%nat -> writeAll_loop fuel w payload = writeAll w payload.
Proof.
  unfold writeAll. revert w payload. induction fuel as [fuel IH] using lt_wf_ind. intros w payload Hf.
  destruct payload as [| b p]; [by destruct fuel|]. destruct fuel as [| fuel]; [simpl in Hf; lia|].
  simpl in Hf. cbn [writeAll_loop length]. destruct (Write w (b :: p)) as [a w'].
  destruct (writeErr a); [done|]. destruct (_ || _) eqn:E; [done|]. apply orb_false_iff in E as [E1 E2].
  split_bool. rewrite (IH fuel), (IH (length p)); try done; try rewrite length_drop; cbn [length] in *; lia.
Qed.

(** A nil error means every byte went out, in order. *)
Lemma writeAll_sent w payload w' : writeAll w payload = (None, w') -> sent w' = sent w ++ payload.
Proof.
  unfold writeAll. assert (Hl : (length payload <= length payload)%nat) by lia. revert Hl.
  generalize (length payload) at 2 3 as fuel. intros fuel.
  revert w payload. induction fuel as [| fuel IH]; intros w payload Hl.
  { destruct payload; [|simpl in Hl; lia]. intros [= <-]. by rewrite app_nil_r. }
  destruct payload as [| b p]; [intros [= <-]; by rewrite app_nil_r|].
  cbn [writeAll_loop]. destruct (Write w (b :: p)) as [a w1] eqn:Ew.
  destruct (writeErr a) eqn:Ee; [done|]. destruct (_ || _) eqn:E; [done|].
  apply orb_false_iff in E as [E1 E2]. split_bool. intros H.
  apply IH in H; [| rewrite length_drop; simpl in *; lia]. rewrite H. unfold Write in Ew.
  destruct (answers w); injection Ew as <- <-; cbn [sent written] in *.
  - rewrite Nat2Z.id. rewrite (drop_ge (b :: p)) by done. by rewrite app_nil_r.
  - by rewrite <- app_assoc, take_drop.
Qed.

(** ** Frames *)

(** [json.Decoder.Decode] with [DisallowUnknownFields]: the first value and the
    bytes after it. *)
Class FrameCodec (A : Type) := {
  frameJSON :: JSON A;
  DecodeStrict : bytes -> option (A * bytes);
}.

Class FrameLaws {A : Type} (C : FrameCodec A) (frame_wf : A -> Prop) := {
  DecodeStrict_Marshal : forall a p, frame_wf a -> Marshal a = Some p -> DecodeStrict p = Some (a, []);
  frame_nonempty : forall (a : A) p, Marshal a = Some p -> p <> [];
}.

(** A second [Decode] answers [io.EOF] when only white space is left. *)
Definition json_space (b : Z) : bool := (b =? 32) || (b =? 9) || (b =? 10) || (b =? 13).

Section frames.
Context {A : Type} {C : FrameCodec A}.

Definition readFrame (r : Reader) (maxBytes : Z) : result IPCError A * Reader :=
  match ReadFull r 4 with
  | (Err e, r1) => (Err e, r1)
  | (Ok header, r1) =>
      let length := be_value header in
      if length =? 0 then (Err (ProtocolError CodeMalformed), r1)
      else if normalizedMaxFrame maxBytes <? length then (Err (ProtocolError CodeFrameTooLarge), r1)
      else match ReadFull r1 length with
           | (Err e, r2) => (Err e, r2)
           | (Ok payload, r2) =>
               match DecodeStrict payload with
               | None => (Err (ProtocolError CodeMalformed), r2)
               | Some (out, rest) =>
                   if negb (forallb json_space rest) then (Err (ProtocolError CodeMalformed), r2)
                   else (Ok out, r2)
               end
           end
  end.

Definition writeFrame (w : Writer) (maxBytes : Z) (value : A) : option IPCError * Writer :=
  match Marshal value with
  | None => (Some OtherError, w)
  | Some payload =>
      if (Z.of_nat (length payload) =? 0) || (normalizedMaxFrame maxBytes <? Z.of_nat (length payload))
      then (Some (ProtocolError CodeFrameTooLarge), w)
      else match writeAll w (be_bytes 4 (u32 (Z.of_nat (length payload)))) with
           | (Some e, w1) => (Some e, w1)
           | (None, w1) => writeAll w1 payload
           end
  end.
End frames.

(** ** Framing lemmas *)

Lemma ReadFull_app bs rest e : ReadFull (mkReader (bs ++ rest) e) (Z.of_nat (length bs)) = (Ok bs, mkReader rest e).
Proof.
  unfold ReadFull. simpl. rewrite length_app. destruct (_ <=? _) eqn:E; [|split_bool; lia].
  by rewrite Nat2Z.id, take_app_length, drop_app_length.
Qed.

Section frame_lemmas.
Context {A : Type} {C : FrameCodec A} {frame_wf : A -> Prop} {laws : FrameLaws C frame_wf}.

Lemma writeFrame_sent w maxBytes (a : A) w' :
  writeFrame w maxBytes a = (None, w') ->
  exists p, Marshal a = Some p /\ 1 <= Z.of_nat (length p) <= normalizedMaxFrame maxBytes /\
            sent w' = sent w ++ be_bytes 4 (Z.of_nat (length p)) ++ p.
Proof.
  unfold writeFrame. intros H. destruct (Marshal a) as [p|] eqn:E; [|done].
  destruct (_ || _) eqn:El; [done|]. apply orb_false_iff in El as [E1 E2]. split_bool.
  pose proof (normalizedMaxFrame_range maxBytes) as Hr. unfold HardMaxFrameBytes in Hr.
  unfold u32 in H. rewrite Z.mod_small in H by lia.
  destruct (writeAll w _) as [[e|] w1] eqn:Ew; [done|].
  exists p. split; [done|]. split; [lia|].
  by rewrite (writeAll_sent _ _ _ H), (writeAll_sent _ _ _ Ew), app_assoc.
Qed.

Lemma readFrame_frame maxBytes (a : A) p rest e :
  frame_wf a -> Marshal a = Some p -> 1 <= Z.of_nat (length p) <= normalizedMaxFrame maxBytes ->
  readFrame (mkReader (be_bytes 4 (Z.of_nat (length p)) ++ p ++ rest) e) maxBytes = (Ok a, mkReader rest e).
Proof using laws.
  intros Hwf Hp Hl. unfold readFrame. pose proof (normalizedMaxFrame_range maxBytes) as Hr.
  unfold HardMaxFrameBytes in Hr.
  pose proof (ReadFull_app (be_bytes 4 (Z.of_nat (length p))) (p ++ rest) e) as Hh.
  rewrite be_bytes_length in Hh. change (Z.of_nat 4) with 4 in Hh. rewrite Hh.
  rewrite (be_value_bytes 4) by lia.
  destruct (_ =? 0) eqn:E0; [split_bool; lia|]. destruct (_ <? _) eqn:E1; [split_bool; lia|].
  rewrite ReadFull_app. by rewrite (DecodeStrict_Marshal a p Hwf Hp).
Qed.

(** Framing round trip: whatever pattern of partial writes the connection
    answers with, when [writeFrame] returns nil the bytes it sent, followed by
    anything, are read back by [readFrame] with the same limit as exactly the
    value, leaving exactly what follows. *)
Theorem frame_roundtrip (w w' : Writer) (maxBytes : Z) (a : A) (rest : bytes) (e : IPCError) :
  frame_wf a -> writeFrame w maxBytes a = (None, w') ->
  exists frame, sent w' = sent w ++ frame /\
    readFrame (mkReader (frame ++ rest) e) maxBytes = (Ok a, mkReader rest e).
Proof using laws.
  intros Hwf (p & Hp & Hl & Hs)%writeFrame_sent. eexists. split; [exact Hs|].
  rewrite <- app_assoc. by apply readFrame_frame.
Qed.

(** The reader is bounded before it allocates: it never takes more than 4
    bytes plus the normalised limit (at most 1 MiB) off the connection, and a
    header that announces an empty frame or one above the limit is rejected
    with its own code having consumed the 4 header bytes only. *)
Theorem readFrame_bounded (r : Reader) (maxBytes : Z) :
  let '(res, r') := readFrame (A := A) r maxBytes in
  (exists used, incoming r = used ++ incoming r' /\
     Z.of_nat (length used) <= 4 + normalizedMaxFrame maxBytes <= 4 + HardMaxFrameBytes) /\
  (forall header rest, incoming r = header ++ rest -> length header = 4%nat ->
     (be_value header = 0 -> res = Err (ProtocolError CodeMalformed) /\ incoming r' = rest) /\
     (normalizedMaxFrame maxBytes < be_value header ->
        res = Err (ProtocolError CodeFrameTooLarge) /\ incoming r' = rest)).
Proof using.
  destruct r as [inc e]. pose proof (normalizedMaxFrame_range maxBytes) as Hr.
  destruct (readFrame (mkReader inc e) maxBytes) as [res r'] eqn:E. unfold readFrame in E.
  unfold ReadFull at 1 in E. cbn [incoming exhausted] in *.
  destruct (4 <=? Z.of_nat (length inc)) eqn:E4; split_bool.
  2:{ injection E as <- <-. cbn [incoming]. split.
      - exists inc. rewrite app_nil_r. split; [done | lia].
      - intros header rest -> Hh. rewrite length_app in E4. lia. }
  change (Z.to_nat 4) with 4%nat in E.
  assert (Hsplit : forall header rest, inc = header ++ rest -> length header = 4%nat ->
    header = take 4 inc /\ rest = drop 4 inc).
  { intros header rest -> Hh. by rewrite <- Hh, take_app_length, drop_app_length. }
  set (n := be_value (take 4 inc)) in *.
  destruct (n =? 0) eqn:E0; split_bool.
  { injection E as <- <-. cbn [incoming]. split.
    - exists (take 4 inc). rewrite take_drop. split; [done|]. rewrite length_take. lia.
    - intros h rest Hi Hh. destruct (Hsplit h rest Hi Hh) as [-> ->]. split; [done|]. fold n. lia. }
  destruct (normalizedMaxFrame maxBytes <? n) eqn:E1; split_bool.
  { injection E as <- <-. cbn [incoming]. split.
    - exists (take 4 inc). rewrite take_drop. split; [done|]. rewrite length_take. lia.
    - intros h rest Hi Hh. destruct (Hsplit h rest Hi Hh) as [-> ->]. split; [|done]. fold n. lia. }
  assert (Hused : exists used, inc = used ++ incoming r' /\ Z.of_nat (length used) <= 4 + normalizedMaxFrame maxBytes).
  { unfold ReadFull in E. cbn [incoming exhausted] in E.
    destruct (n <=? Z.of_nat (length (drop 4 inc))) eqn:El; split_bool.
    - assert (incoming r' = drop (Z.to_nat n) (drop 4 inc)) as ->.
      { destruct (DecodeStrict _) as [[o rs]|]; [destruct (negb _)|]; injection E as _ <-; done. }
      exists (take (4 + Z.to_nat n) inc). rewrite drop_drop, take_drop. split; [done|].
      rewrite length_take. lia.
    - injection E as _ <-. exists inc. rewrite app_nil_r. split; [done|].
      rewrite length_drop in El. lia. }
  destruct Hused as (used & Hu & Hlen). split; [exists used; split; [done | lia]|].
  intros h rest Hi Hh. destruct (Hsplit h rest Hi Hh) as [-> ->]. fold n. split; lia.
Qed.
End frame_lemmas.

(** ** A concrete frame codec *)

Definition countable_FrameCodec (A : Type) `{Countable A} : FrameCodec A := {|
  frameJSON := countable_JSON (fun _ => true);
  DecodeStrict p := match bytes_pos p with
                    | Some n => match decode n with Some a => Some (a, []) | None => None end
                    | None => None
                    end;
|}.

Lemma countable_FrameLaws (A : Type) `{Countable A} :
  FrameLaws (countable_FrameCodec A) (fun _ => True).
Proof.
  split.
  - intros a p _ [= <-]. simpl. by rewrite bytes_pos_bytes, decode_encode.
  - intros a p [= <-]. by destruct (encode a).
Qed.

(** The first [Write] takes two of the four header bytes. *)
Lemma frame_roundtrip_witness :
  let w := mkWriter [mkWriteAnswer 2 None] [] in
  let w' := (writeFrame (C := countable_FrameCodec string) w 0 "ping").2 in
  exists frame, sent w' = sent w ++ frame /\
    readFrame (C := countable_FrameCodec string) (mkReader (frame ++ [7]) OtherError) 0
    = (Ok "ping", mkReader [7] OtherError).
Proof.
  intros w w'.
  apply (frame_roundtrip (C := countable_FrameCodec string) (laws := countable_FrameLaws string)
           w w' 0 "ping" [7] OtherError).
  - exact I.
  - vm_compute. reflexivity.
Defined.
