(* ===== verification/GateIPC.v ===== *)
(** * Gate IPC: one exchange between the proxy and the engine

    [internal/gateipc/protocol.go], [client.go] and [server.go].  One Unix
    connection carries one request frame and one response frame.  Dialling, the
    random correlation bytes, the connection's deadline calls and whether the
    context is done are inputs of the call; the engine's handler is an instance
    of [Handler]. *)

From stdpp Require Import countable.
From S2P Require Import Prelude GoStr Codec GateFrame.

Inductive Operation : Type :=
| OpenConnection | EvaluateRequest | ReportRequestResult | GateHealthPing
| OperationOther (s : string).

#[export] Instance Operation_eq_dec : EqDecision Operation.
Proof. solve_decision. Defined.

Definition Operation_Valid (o : Operation) : bool :=
  match o with OperationOther _ => false | _ => true end.

Record requestFrame : Type := mkRequestFrame {
  reqVersion : Z;
  reqCorrelationID : string;
  reqOperation : Operation;
  reqPayload : bytes;
}.

Record responseFrame : Type := mkResponseFrame {
  respVersion : Z;
  respCorrelationID : string;
  respOK : bool;
  respCode : string;
  respConfigGeneration : Z;
  respDecisionID : string;
  respData : bytes;
}.

Record ResponseMeta : Type := mkResponseMeta {
  ConfigGeneration : Z;
  DecisionID : string;
}.

Definition meta_zero : ResponseMeta := mkResponseMeta 0 "".

(** What the handler answers; the data are of any type with an encoding. *)
Record Result (D : Type) : Type := mkResult {
  Meta : ResponseMeta;
  Data : D;
}.
Arguments mkResult {D} _ _.
Arguments Meta {D} _.
Arguments Data {D} _.

(** The [Handler] interface of the server. *)
Class Handler (D : Type) := HandleGate : Operation -> bytes -> result IPCError (Result D).

Definition boundedTimeout (value : Duration) : Duration :=
  if value <=? 0 then 2 * Second
  else if 30 * Second <? value then 30 * Second
  else value.

Lemma boundedTimeout_range v : 1 <= boundedTimeout v <= 30 * Second.
Proof. unfold boundedTimeout, Second. repeat case_if; split_bool; lia. Qed.

(** [transportError] and [errorCode]: [ctxDone] is whether the context has
    ended when they look. *)
Definition transportError (ctxDone : bool) (err : IPCError) : string :=
  match err with
  | ProtocolError code => code
  | _ => if ctxDone || bool_decide (err = NetTimeout) then CodeDeadline else CodeEngineDown
  end.

Definition errorCode (ctxDone : bool) (err : IPCError) : string :=
  match err with
  | ProtocolError code => code
  | _ => if ctxDone || bool_decide (err = NetTimeout) then CodeDeadline else CodeInternal
  end.

Section exchange.
Context {CQ : FrameCodec requestFrame} {CR : FrameCodec responseFrame}.

(** ** The server *)

Section server.
Context {D : Type} {JD : JSON D} {H : Handler D} (json_Valid : bytes -> bool) (MaxFrameBytes : Z).

Definition writeError (w : Writer) (correlationID code : string) : Writer :=
  (writeFrame w MaxFrameBytes (mkResponseFrame ProtocolVersion correlationID false code 0 "" [])).2.

(** [ServeConn] on a connection whose input is [r] and whose output is [w]; the
    second component lists the handler calls it made.  [deadlineOk] is the
    result of [SetDeadline]. *)
Definition ServeConn (r : Reader) (w : Writer) (deadlineOk ctxDone : bool) : Writer * list (Operation * bytes) :=
  if negb deadlineOk then (w, [])
  else match readFrame (A := requestFrame) r MaxFrameBytes with
  | (Err e, _) => (writeError w "" (errorCode ctxDone e), [])
  | (Ok request, _) =>
      let cid := reqCorrelationID request in
      if negb (reqVersion request =? ProtocolVersion) then (writeError w cid CodeVersionMismatch, [])
      else if bool_decide (cid = "") || negb (Operation_Valid (reqOperation request))
              || (Z.of_nat (length (reqPayload request)) =? 0) || negb (json_Valid (reqPayload request))
      then (writeError w cid CodeMalformed, [])
      else
        let call := (reqOperation request, reqPayload request) in
        match HandleGate (reqOperation request) (reqPayload request) with
        | Err e => (writeError w cid (errorCode ctxDone e), [call])
        | Ok res =>
            if bool_decide (DecisionID (Meta res) = "") then (writeError w cid CodeInternal, [call])
            else match Marshal (Data res) with
                 | None => (writeError w cid CodeInternal, [call])
                 | Some data =>
                     let response := mkResponseFrame ProtocolVersion cid true ""
                       (ConfigGeneration (Meta res)) (DecisionID (Meta res)) data in
                     match writeFrame w MaxFrameBytes response with
                     | (None, w') => (w', [call])
                     | (Some e, w') =>
                         if bool_decide (errorCode ctxDone e = CodeFrameTooLarge)
                         then (writeError w' cid CodeFrameTooLarge, [call])
                         else (w', [call])
                     end
                 end
        end
  end.
End server.

(** ** The client *)

Record Client : Type := mkClient {
  SocketPath : string;
  Timeout : Duration;
  ClientMaxFrameBytes : Z;
}.

Definition NewClient (socketPath : string) : Client := mkClient socketPath (2 * Second) DefaultMaxFrameBytes.

(** The environment of one call: [rand.Read], the dial, [SetDeadline], whether
    the context has ended at an error, the connection's write answers, and what
    the peer sends back once it has the request bytes. *)
Record CallEnv : Type := mkCallEnv {
  random : option bytes;
  dialErr : option IPCError;
  deadlineErr : option IPCError;
  callCtxDone : bool;
  connAnswers : list WriteAnswer;
  peer : bytes -> Reader;
}.

(** The value of a call: the metadata, the error code if any, and the decoded
    result. *)
Record CallResult (O : Type) : Type := mkCallResult {
  callMeta : ResponseMeta;
  callErr : option string;
  callOut : option O;
}.
Arguments mkCallResult {O} _ _ _.
Arguments callMeta {O} _.
Arguments callErr {O} _.
Arguments callOut {O} _.

Section client.
Context {P O : Type} {JP : JSON P} {JO : JSON O}.

Definition failed (code : string) : CallResult O := mkCallResult meta_zero (Some code) None.

(** [wantOut] is [out != nil]. *)
Definition CallAtGeneration (client : option Client) (env : CallEnv) (operation : Operation) (payload : P)
    (wantOut : bool) (minimumGeneration : Z) : CallResult O :=
  match client with
  | None => failed CodeMalformed
  | Some client =>
      if bool_decide (SocketPath client = "") || negb (Operation_Valid operation) then failed CodeMalformed
      else match Marshal payload with
      | None => failed CodeMalformed
      | Some encoded =>
      match random env with
      | None => failed CodeInternal
      | Some rnd =>
      let correlationID := hex_EncodeToString rnd in
      match dialErr env with
      | Some e => failed (transportError (callCtxDone env) e)
      | None =>
      match deadlineErr env with
      | Some e => failed (transportError (callCtxDone env) e)
      | None =>
      match writeFrame (mkWriter (connAnswers env) []) (ClientMaxFrameBytes client)
              (mkRequestFrame ProtocolVersion correlationID operation encoded) with
      | (Some e, _) => failed (transportError (callCtxDone env) e)
      | (None, w) =>
      match readFrame (A := responseFrame) (peer env (sent w)) (ClientMaxFrameBytes client) with
      | (Err e, _) => failed (transportError (callCtxDone env) e)
      | (Ok response, _) =>
          if negb (respVersion response =? ProtocolVersion) then failed CodeVersionMismatch
          else if negb (bool_decide (respCorrelationID response = ""))
                  && negb (bool_decide (respCorrelationID response = correlationID)) then failed CodeCorrelation
          else
            let meta := mkResponseMeta (respConfigGeneration response) (respDecisionID response) in
            if negb (respOK response) then
              if bool_decide (respCode response = "") then mkCallResult meta (Some CodeMalformed) None
              else mkCallResult meta (Some (respCode response)) None
            else if negb (bool_decide (respCorrelationID response = correlationID))
                    || bool_decide (respDecisionID response = "")
                    || (Z.of_nat (length (respData response)) =? 0) then failed CodeMalformed
            else if respConfigGeneration response <? minimumGeneration then failed CodeStaleGeneration
            else if negb wantOut then mkCallResult meta None None
            else match Unmarshal (respData response) with
                 | None => failed CodeMalformed
                 | Some out => mkCallResult meta None (Some out)
                 end
      end end end end end end
  end.

Definition Call (client : option Client) (env : CallEnv) (operation : Operation) (payload : P) (wantOut : bool)
  : CallResult O := CallAtGeneration client env operation payload wantOut 0.
End client.
End exchange.
Arguments mkCallResult {O} _ _ _.
Arguments callMeta {O} _.
Arguments callErr {O} _.
Arguments callOut {O} _.

(** ** What a caller can rely on *)

Section client_claims.
Context {CQ : FrameCodec requestFrame} {CR : FrameCodec responseFrame}.
Context {P O : Type} {JP : JSON P} {JO : JSON O}.

(** A call that reports success did read one well-formed response of this
    protocol version, marked OK, that carries this call's own correlation
    identifier, a decision identifier and a generation no older than the
    caller's, in answer to the request frame it wrote in full; the metadata and
    the result it hands back are those of that response. *)
Theorem CallAtGeneration_sound (client : option Client) (env : CallEnv) (operation : Operation) (payload : P)
    (wantOut : bool) (minimumGeneration : Z) :
  callErr (CallAtGeneration (O := O) client env operation payload wantOut minimumGeneration) = None ->
  exists c rnd encoded w response rest,
    client = Some c /\ random env = Some rnd /\ Marshal payload = Some encoded /\
    writeFrame (mkWriter (connAnswers env) []) (ClientMaxFrameBytes c)
      (mkRequestFrame ProtocolVersion (hex_EncodeToString rnd) operation encoded) = (None, w) /\
    readFrame (A := responseFrame) (peer env (sent w)) (ClientMaxFrameBytes c) = (Ok response, rest) /\
    respVersion response = ProtocolVersion /\ respOK response = true /\
    respCorrelationID response = hex_EncodeToString rnd /\
    callMeta (CallAtGeneration (O := O) client env operation payload wantOut minimumGeneration)
      = mkResponseMeta (respConfigGeneration response) (respDecisionID response) /\
    respDecisionID response <> "" /\ minimumGeneration <= respConfigGeneration response /\
    (wantOut = true -> callOut (CallAtGeneration (O := O) client env operation payload wantOut minimumGeneration)
                       = Unmarshal (respData response)).
Proof using.
  unfold CallAtGeneration. destruct client as [c|]; [|done].
  destruct (_ || _); [done|]. destruct (Marshal payload) as [encoded|]; [|done].
  destruct (random env) as [rnd|]; [|done]. destruct (dialErr env); [done|]. destruct (deadlineErr env); [done|].
  destruct (writeFrame _ _ _) as [[e|] w] eqn:Ew; [done|].
  destruct (readFrame _ _) as [[response | e] rest] eqn:Er; [|done].
  destruct (negb (respVersion response =? ProtocolVersion)) eqn:Ev; [done|].
  destruct (negb (bool_decide (respCorrelationID response = "")) && _); [done|].
  destruct (respOK response) eqn:Eo; simpl; [| by destruct (bool_decide (respCode response = ""))].
  destruct (bool_decide (respCorrelationID response = _)) eqn:Ec; simpl; [|done].
  destruct (bool_decide (respDecisionID response = "")) eqn:Ed; simpl; [done|].
  destruct (_ =? 0); [done|]. destruct (respConfigGeneration response <? minimumGeneration) eqn:Eg; [done|].
  split_bool. intros Hn. exists c, rnd, encoded, w, response, rest.
  destruct wantOut; simpl in *; [destruct (Unmarshal (respData response)) eqn:Eu; [|done] |];
    repeat split; done.
Qed.
End client_claims.

(** ** The whole exchange *)

Section exchange_claims.
Context {CQ : FrameCodec requestFrame} {CR : FrameCodec responseFrame}.
Context {req_wf : requestFrame -> Prop} {resp_wf : responseFrame -> Prop}.
Context {LQ : FrameLaws CQ req_wf} {LR : FrameLaws CR resp_wf}.
Context {D : Type} {JD : JSON D} {HD : Handler D} (json_Valid : bytes -> bool) (serverMax : Z).

(** The peer of a call is the server: it reads the request bytes and answers. *)
Definition served (sawDone : bool) (request : bytes) : Reader :=
  mkReader (sent (ServeConn (CQ := CQ) (CR := CR) json_Valid serverMax (mkReader request OtherError) (mkWriter [] []) true sawDone).1)
           OtherError.

Lemma writeAll_direct out payload : writeAll (mkWriter [] out) payload = (None, mkWriter [] (out ++ payload)).
Proof.
  unfold writeAll. destruct payload as [| b p]; [by cbn; rewrite app_nil_r|].
  cbn [writeAll_loop length]. unfold Write. cbn [answers writeErr written sent length].
  destruct (_ || _) eqn:E; [apply orb_true_iff in E as [E|E]; split_bool; lia|].
  rewrite Nat2Z.id, drop_ge by done. by destruct (length p).
Qed.

Lemma writeFrame_direct {A} {C : FrameCodec A} out maxBytes (a : A) p :
  Marshal a = Some p -> 1 <= Z.of_nat (length p) <= normalizedMaxFrame maxBytes ->
  writeFrame (mkWriter [] out) maxBytes a = (None, mkWriter [] (out ++ be_bytes 4 (Z.of_nat (length p)) ++ p)).
Proof.
  intros Hp Hl. unfold writeFrame. rewrite Hp. pose proof (normalizedMaxFrame_range maxBytes) as Hr.
  unfold HardMaxFrameBytes in Hr. destruct (_ || _) eqn:E.
  { apply orb_true_iff in E as [E|E]; split_bool; lia. }
  unfold u32. rewrite Z.mod_small by lia. by rewrite !writeAll_direct, app_assoc.
Qed.

Context {P O : Type} {JP : JSON P} {JO : JSON O}.

(** The exchange works end to end: a well-formed client on a healthy
    connection, calling a server whose handler accepts the operation with a
    decision identifier and a generation that is recent enough, gets a nil
    error, exactly the handler's metadata and the handler's data decoded, when
    both frames fit the two limits. The server called the handler exactly once,
    with the operation and payload the client sent. *)
Theorem exchange_delivers (c : Client) (rnd : bytes) (done serverDone : bool) (operation : Operation) (payload : P)
    (encoded pq pr data : bytes) (res : Result D) (minimumGeneration : Z) :
  let cid := hex_EncodeToString rnd in
  let request := mkRequestFrame ProtocolVersion cid operation encoded in
  let response := mkResponseFrame ProtocolVersion cid true "" (ConfigGeneration (Meta res)) (DecisionID (Meta res)) data in
  let env := mkCallEnv (Some rnd) None None done [] (served serverDone) in
  SocketPath c <> "" -> Operation_Valid operation = true -> cid <> "" ->
  Marshal payload = Some encoded -> encoded <> [] -> json_Valid encoded = true ->
  req_wf request -> Marshal request = Some pq ->
  Z.of_nat (length pq) <= Z.min (normalizedMaxFrame (ClientMaxFrameBytes c)) (normalizedMaxFrame serverMax) ->
  HandleGate operation encoded = Ok res -> DecisionID (Meta res) <> "" ->
  Marshal (Data res) = Some data -> data <> [] ->
  resp_wf response -> Marshal response = Some pr ->
  Z.of_nat (length pr) <= Z.min (normalizedMaxFrame (ClientMaxFrameBytes c)) (normalizedMaxFrame serverMax) ->
  minimumGeneration <= ConfigGeneration (Meta res) ->
  (exists frame,
     sent (writeFrame (mkWriter [] []) (ClientMaxFrameBytes c) request).2 = frame /\
     (ServeConn json_Valid serverMax (mkReader frame OtherError) (mkWriter [] []) true serverDone).2 = [(operation, encoded)]) /\
  forall out, Unmarshal data = Some out ->
  CallAtGeneration (O := O) (Some c) env operation payload true minimumGeneration
  = mkCallResult (Meta res) None (Some out).
Proof using LQ LR.
  intros cid request response env Hpath Hop Hcid Henc Henc0 Hvalid Hqwf Hq Hql Hh Hdid Hdata Hdata0 Hrwf Hr Hrl Hgen.
  assert (Hlen : forall A (C : FrameCodec A) wf (_ : FrameLaws C wf) (a : A) p, Marshal a = Some p -> 1 <= Z.of_nat (length p)).
  { intros A C wf laws a p Hp. pose proof (frame_nonempty a p Hp). destruct p; [done | simpl; lia]. }
  pose proof (Hlen _ _ _ LQ _ _ Hq) as Hq1. pose proof (Hlen _ _ _ LR _ _ Hr) as Hr1.
  assert (Hserve : ServeConn json_Valid serverMax (mkReader (be_bytes 4 (Z.of_nat (length pq)) ++ pq) OtherError)
                     (mkWriter [] []) true serverDone
                   = (mkWriter [] (be_bytes 4 (Z.of_nat (length pr)) ++ pr), [(operation, encoded)])).
  { unfold ServeConn. cbn [negb].
    pose proof (readFrame_frame serverMax request pq [] OtherError Hqwf Hq ltac:(lia)) as Hrf.
    rewrite app_nil_r in Hrf. rewrite Hrf. subst request. cbn [reqVersion reqCorrelationID reqOperation reqPayload].
    rewrite Hop, Hvalid, bool_decide_eq_false_2 by done.
    destruct (Z.of_nat (length encoded) =? 0) eqn:E0; [split_bool; destruct encoded; simpl in *; done|].
    cbn. rewrite Hh, bool_decide_eq_false_2, Hdata by done.
    fold cid. fold response. by rewrite (writeFrame_direct [] serverMax response pr) by (done || lia). }
  rewrite (writeFrame_direct [] (ClientMaxFrameBytes c) request pq) by (done || lia). cbn [snd sent app].
  split; [eexists; split; [done | by rewrite Hserve]|].
  intros out Hout. unfold CallAtGeneration. rewrite Hop, Henc, bool_decide_eq_false_2 by done. cbn [orb negb].
  subst env. cbn [random dialErr deadlineErr callCtxDone connAnswers peer]. fold cid. fold request.
  rewrite (writeFrame_direct [] (ClientMaxFrameBytes c) request pq) by (done || lia). cbn [sent app].
  unfold served. rewrite Hserve. cbn [fst sent].
  pose proof (readFrame_frame (ClientMaxFrameBytes c) response pr [] OtherError Hrwf Hr ltac:(lia)) as Hrf.
  rewrite app_nil_r in Hrf. rewrite Hrf. subst response.
  cbn [respVersion respCorrelationID respOK respConfigGeneration respDecisionID respData].
  rewrite (bool_decide_eq_true_2 (cid = cid)), (bool_decide_eq_false_2 (DecisionID _ = "")) by done.
  destruct (Z.of_nat (length data) =? 0) eqn:E0; [split_bool; destruct data; simpl in *; done|].
  destruct (_ <? minimumGeneration) eqn:Eg; [split_bool; lia|].
  rewrite andb_false_r. cbn. rewrite Hout. by destruct (Meta res).
Qed.
End exchange_claims.

(** ** A concrete instance *)

#[export] Instance Operation_countable : Countable Operation.
Proof.
  refine (inj_countable'
    (fun o => match o with
              | OpenConnection => inl 0 | EvaluateRequest => inl 1 | ReportRequestResult => inl 2
              | GateHealthPing => inl 3 | OperationOther s => inr s end)
    (fun v => match v with
              | inl 0 => OpenConnection | inl 1 => EvaluateRequest | inl 2 => ReportRequestResult
              | inl _ => GateHealthPing | inr s => OperationOther s end) _).
  by intros [].
Defined.

#[export] Instance requestFrame_eq_dec : EqDecision requestFrame.
Proof. solve_decision. Defined.

#[export] Instance requestFrame_countable : Countable requestFrame.
Proof.
  refine (inj_countable' (fun f => (reqVersion f, reqCorrelationID f, reqOperation f, reqPayload f))
    (fun '(a, b, c, d) => mkRequestFrame a b c d) _).
  by intros [].
Defined.

#[export] Instance responseFrame_eq_dec : EqDecision responseFrame.
Proof. solve_decision. Defined.

#[export] Instance responseFrame_countable : Countable responseFrame.
Proof.
  refine (inj_countable'
    (fun f => (respVersion f, respCorrelationID f, respOK f, respCode f, respConfigGeneration f, respDecisionID f, respData f))
    (fun '(a, b, c, d, e, f, g) => mkResponseFrame a b c d e f g) _).
  by intros [].
Defined.

Definition demo_request_codec : FrameCodec requestFrame := countable_FrameCodec requestFrame.
Definition demo_response_codec : FrameCodec responseFrame := countable_FrameCodec responseFrame.
Definition demo_json : JSON string := countable_JSON (fun _ => true).
Definition demo_handler : Handler string := fun _ _ => Ok (mkResult (mkResponseMeta 7 "d1") "runtime").
Definition demo_client : Client := NewClient "/run/ngfw/request-gate.sock".
Definition demo_env : CallEnv :=
  mkCallEnv (Some [1; 2]) None None false []
    (served (CQ := demo_request_codec) (CR := demo_response_codec) (JD := demo_json) (HD := demo_handler)
       (fun _ => true) 0 false).
Definition demo_call : CallResult string :=
  CallAtGeneration (CQ := demo_request_codec) (CR := demo_response_codec) (JP := demo_json) (JO := demo_json)
    (Some demo_client) demo_env GateHealthPing "ping" true 5.

Lemma CallAtGeneration_sound_witness :
  callErr demo_call = None /\
  exists response, respCorrelationID response = "0102" /\ callMeta demo_call = mkResponseMeta (respConfigGeneration response) (respDecisionID response).
Proof.
  assert (Hn : callErr demo_call = None) by (vm_compute; reflexivity). split; [exact Hn|].
  destruct (CallAtGeneration_sound (CQ := demo_request_codec) (CR := demo_response_codec) (JP := demo_json)
    (JO := demo_json) (Some demo_client) demo_env GateHealthPing "ping" true 5 Hn)
    as (c & rnd & enc & w & response & rest & _ & Hr & _ & _ & _ & _ & _ & Hc & Hm & _).
  exists response. split; [| exact Hm]. rewrite Hc. injection Hr as <-. vm_compute. reflexivity.
Defined.

Lemma exchange_delivers_witness :
  demo_call = mkCallResult (mkResponseMeta 7 "d1") None (Some "runtime").
Proof.
  destruct (exchange_delivers (CQ := demo_request_codec) (CR := demo_response_codec)
    (LQ := countable_FrameLaws requestFrame) (LR := countable_FrameLaws responseFrame)
    (JD := demo_json) (HD := demo_handler) (fun _ => true) 0 (JP := demo_json) (JO := demo_json)
    demo_client [1; 2] false false GateHealthPing "ping"
    (pos_bytes (encode "ping"))
    (pos_bytes (encode (mkRequestFrame 1 "0102" GateHealthPing (pos_bytes (encode "ping")))))
    (pos_bytes (encode (mkResponseFrame 1 "0102" true "" 7 "d1" (pos_bytes (encode "runtime")))))
    (pos_bytes (encode "runtime"))
    (mkResult (mkResponseMeta 7 "d1") "runtime") 5) as [_ H];
    [vm_compute; done .. | apply H; vm_compute; reflexivity].
Defined.
