(* ===== verification/GateServe.v ===== *)
(** * The gate IPC accept loop

    [Server.Serve] of [internal/gateipc/server.go]: [MaxConcurrent] workers
    receive connections from a channel of capacity [MaxPending]; the accept loop
    sends without blocking and closes the connection when the send is not
    possible.  The workers and the loop run concurrently, so [Serve] is a step
    relation; a connection is a number. *)

From S2P Require Import Prelude GateFrame.

(** The checks before the loop. [configured] is [server != nil && Handler != nil
    && listener != nil]. *)
Definition serve_guard (configured : bool) (concurrent pending : Z) (network : string) : option IPCError :=
  if negb configured then Some (ProtocolError CodeInternal)
  else if (concurrent <=? 0) || (256 <? concurrent) || (pending <? 0) || (1024 <? pending)
  then Some (ProtocolError CodeMalformed)
  else if negb (bool_decide (network = "unix")) then Some (ProtocolError CodeMalformed)
  else None.

Record ServeState : Type := mkServeState {
  waiting : nat;         (** workers blocked in [range queue] *)
  queue : list Z;        (** the channel's buffer *)
  serving : list Z;      (** connections inside [ServeConn] *)
  finished : list Z;     (** [ServeConn] returned *)
  refused : list Z;      (** closed by the accept loop *)
}.

Definition serve_start (concurrent : nat) : ServeState := mkServeState concurrent [] [] [] [].

Inductive serve_step (pending : nat) : ServeState -> option Z -> ServeState -> Prop :=
| accept_handoff n s f r c :
    (** a worker waits on the empty channel: the send hands over directly *)
    serve_step pending (mkServeState (S n) [] s f r) (Some c) (mkServeState n [] (c :: s) f r)
| accept_enqueue n q s f r c :
    (length q < pending)%nat ->
    serve_step pending (mkServeState n q s f r) (Some c) (mkServeState n (q ++ [c]) s f r)
| accept_refuse n q s f r c :
    (pending <= length q)%nat -> (q = [] -> n = O) ->
    serve_step pending (mkServeState n q s f r) (Some c) (mkServeState n q s f (c :: r))
| worker_receive n c q s f r :
    serve_step pending (mkServeState (S n) (c :: q) s f r) None (mkServeState n q (c :: s) f r)
| worker_done n q s1 c s2 f r :
    serve_step pending (mkServeState n q (s1 ++ c :: s2) f r) None (mkServeState (S n) q (s1 ++ s2) (c :: f) r).

Inductive serve_run (pending : nat) : ServeState -> list Z -> ServeState -> Prop :=
| serve_run_nil s : serve_run pending s [] s
| serve_run_cons s o s1 accepted s2 :
    serve_step pending s o s1 -> serve_run pending s1 accepted s2 ->
    serve_run pending s (match o with Some c => c :: accepted | None => accepted end) s2.

Definition all_connections (s : ServeState) : list Z := queue s ++ serving s ++ finished s ++ refused s.

Lemma serve_step_bounds pending s o s' :
  serve_step pending s o s' ->
  (waiting s' + length (serving s') = waiting s + length (serving s))%nat /\
  ((length (queue s) <= pending)%nat -> (length (queue s') <= pending)%nat) /\
  all_connections s' ≡ₚ match o with Some c => c :: all_connections s | None => all_connections s end.
Proof.
  unfold all_connections. destruct 1; cbn; repeat rewrite ?length_app; cbn; (split; [lia|]); (split; [lia|]);
    rewrite ?app_nil_l; try solve_Permutation.
Qed.

Lemma serve_run_bounds pending s accepted s' :
  serve_run pending s accepted s' -> (length (queue s) <= pending)%nat ->
  (waiting s' + length (serving s') = waiting s + length (serving s))%nat /\
  (length (queue s') <= pending)%nat /\
  all_connections s' ≡ₚ accepted ++ all_connections s.
Proof.
  induction 1 as [s | s o s1 accepted s2 Hstep Hrun IH]; intros Hq; [done|].
  apply serve_step_bounds in Hstep as (Hw & Hq1 & Hp). destruct (IH (Hq1 Hq)) as (Hw' & Hq' & Hp').
  split; [lia|]. split; [done|]. rewrite Hp', Hp. destruct o; [|done]. solve_Permutation.
Qed.

(** The accept loop is bounded and loses nothing: in every reachable state
    at most [MaxConcurrent] (1..256) connections are being served and at most
    [MaxPending] (0..1024) wait, and each accepted connection is in exactly one
    place: waiting, being served, finished or refused. *)
Theorem serve_bounded (concurrent pending : Z) (accepted : list Z) (s : ServeState) :
  serve_guard true concurrent pending "unix" = None ->
  serve_run (Z.to_nat pending) (serve_start (Z.to_nat concurrent)) accepted s ->
  1 <= concurrent <= 256 /\ 0 <= pending <= 1024 /\
  Z.of_nat (length (serving s)) <= concurrent /\ Z.of_nat (length (queue s)) <= pending /\
  all_connections s ≡ₚ accepted.
Proof.
  unfold serve_guard. simpl. intros Hg Hrun. destruct (_ || _) eqn:E in Hg; [done|]. split_bool.
  apply serve_run_bounds in Hrun as (Hw & Hq & Hp); [|simpl; lia]. simpl in *.
  split; [lia|]. split; [lia|]. split; [lia|]. split; [lia|].
  rewrite Hp. cbn. by rewrite app_nil_r.
Qed.

(** One worker and one place: the third connection is refused. *)
Lemma serve_bounded_witness :
  serve_run 1 (serve_start 1) [10; 11; 12] (mkServeState 0 [11] [10] [] [12]) /\
  all_connections (mkServeState 0 [11] [10] [] [12]) ≡ₚ [10; 11; 12].
Proof.
  assert (Hrun : serve_run 1 (serve_start 1) [10; 11; 12] (mkServeState 0 [11] [10] [] [12])).
  { refine (serve_run_cons 1 _ (Some 10) _ _ _ (accept_handoff 1 0 [] [] [] 10) _).
    refine (serve_run_cons 1 _ (Some 11) _ _ _ (accept_enqueue 1 0 [] [10] [] [] 11 _) _); [simpl; lia|].
    refine (serve_run_cons 1 _ (Some 12) _ _ _ (accept_refuse 1 0 [11] [10] [] [] 12 _ _) _); [simpl; lia | done |].
    apply serve_run_nil. }
  split; [exact Hrun|].
  exact (proj2 (proj2 (proj2 (proj2 (serve_bounded 1 1 [10; 11; 12] _ eq_refl Hrun))))).
Defined.
