(* ===== verification/GateVerdict.v ===== *)
(** * The verdict on one held HTTP request

    The decision logic of [internal/engine/gate_request.go]: which alerts block,
    how an inspection outcome and the plan's fail mode become a verdict, and the
    admission checks on what the proxy sends. *)

From S2P Require Import Prelude GoStr Netip Domain Config Connectivity.

(** ** Alerts *)

Definition alert_action (a : RequestAlert) : string := ToLower (TrimSpace (ra_Action a)).

Definition blocking_actions : list string := ["blocked"; "drop"; "reject"; "deny"].
Definition passing_actions : list string := ["allowed"; "pass"; "alert"].

Fixpoint hasBlockingGateAlert (alerts : list RequestAlert) (rulesetID : string) : bool :=
  match alerts with
  | [] => false
  | alert :: rest =>
      if bool_decide (rulesetID = "m4-builtin-v1") && EqualFold (ra_Detector alert) "suricata"
         && bool_decide (ra_SignatureID alert ∈ ["9904001"; "9904002"; "9904003"; "9904004"]) then true
      else if bool_decide (alert_action alert ∈ blocking_actions) then true
      else hasBlockingGateAlert rest rulesetID
  end.

(** ** Failures *)

Definition stableInspectionFailure (code : string) : string :=
  if bool_decide (code ∈ ["GATE_QUEUE_FULL"; "GATE_INSPECTION_TIMEOUT"; "GATE_SENSOR_UNAVAILABLE";
                          "GATE_UNSUPPORTED_ENCODING"; "GATE_DECOMPRESSION_LIMIT"; "GATE_EVE_MALFORMED";
                          "GATE_EVE_INCOMPLETE"; "GATE_EVE_MISMATCH"])
  then code else "GATE_SENSOR_UNAVAILABLE".

Definition applyGateFailure (decision : RequestDecision) (mode : GateFailMode) : RequestDecision :=
  if bool_decide (mode = GateFailOpen)
  then decision <| rd_Verdict := RequestAllow |> <| rd_HTTPStatus := 0 |>
  else decision <| rd_Verdict := RequestBlock |> <| rd_HTTPStatus := 503 |>.

(** The loop over the alerts of a completed inspection. *)
Fixpoint scan_alerts (base : RequestDecision) (alerts : list RequestAlert) (failMode : GateFailMode) : RequestDecision :=
  match alerts with
  | [] => base <| rd_Verdict := RequestAllow |> <| rd_HTTPStatus := 0 |> <| rd_ReasonCode := "GATE_INSPECTION_COMPLETE" |>
  | alert :: rest =>
      if bool_decide (alert_action alert ∈ blocking_actions)
      then base <| rd_Verdict := RequestBlock |> <| rd_HTTPStatus := 403 |> <| rd_ReasonCode := "GATE_SIGNATURE_BLOCK" |>
      else if bool_decide (alert_action alert ∈ passing_actions) then scan_alerts base rest failMode
      else applyGateFailure (base <| rd_Coverage := RequestCoverageUnavailable |>
                                  <| rd_ReasonCode := "GATE_SENSOR_UNAVAILABLE" |>) failMode
  end.

Definition decideInspectedRequest (base : RequestDecision) (inspection : RequestInspectionResult)
    (failMode : GateFailMode) : RequestDecision :=
  let base := base <| rd_Coverage := ri_Coverage inspection |> in
  if ri_Completed inspection && bool_decide (ri_Coverage inspection = CoverageComplete)
     && bool_decide (ri_ErrorCode inspection = "") then
    if hasBlockingGateAlert (ri_Alerts inspection) (ri_RulesetID inspection)
    then base <| rd_Verdict := RequestBlock |> <| rd_HTTPStatus := 403 |> <| rd_ReasonCode := "GATE_SIGNATURE_BLOCK" |>
    else scan_alerts base (ri_Alerts inspection) failMode
  else
    let base := if bool_decide (ri_Coverage inspection = CoverageComplete)
                then base <| rd_Coverage := RequestCoverageUnavailable |> else base in
    applyGateFailure (base <| rd_ReasonCode := stableInspectionFailure (ri_ErrorCode inspection) |>) failMode.

(** The verdict chain of [EvaluateRequest], from the request's own error codes
    to the inspection, and the generation check that closes it;
    [currentGeneration] is read after the verdict is computed. *)
Definition decide_request (decision : RequestDecision) (request : RequestContext) (inspection : RequestInspectionResult)
    (plan : RequestGatePlan) (freshGeneration currentGeneration : Z) : RequestDecision :=
  let err := ri_ErrorCode inspection in
  let decision :=
    if bool_decide (err = "GATE_REQUEST_MALFORMED") then
      decision <| rd_Coverage := RequestCoverageUnavailable |> <| rd_HTTPStatus := 400 |>
               <| rd_ReasonCode := "GATE_REQUEST_MALFORMED" |>
    else if bool_decide (err = "GATE_UNSUPPORTED_ENCODING") then
      let decision := decision <| rd_Coverage := RequestCoverageUnavailable |> <| rd_HTTPStatus := 503 |>
                               <| rd_ReasonCode := "GATE_UNSUPPORTED_ENCODING" |> in
      if bool_decide (rp_FailMode plan = GateFailOpen) && bool_decide (rp_EncodingAction plan = "ALLOW_PARTIAL")
      then decision <| rd_Verdict := RequestAllow |> <| rd_HTTPStatus := 0 |> else decision
    else if ri_Completed inspection
            && (bool_decide (ri_Coverage inspection = CoverageComplete) || bool_decide (ri_Coverage inspection = RequestCoveragePartial))
            && bool_decide (err = "") && hasBlockingGateAlert (ri_Alerts inspection) (ri_RulesetID inspection) then
      decision <| rd_Coverage := ri_Coverage inspection |> <| rd_HTTPStatus := 403 |>
               <| rd_ReasonCode := "GATE_SIGNATURE_BLOCK" |>
    else if rq_Truncated request || bool_decide (err = "GATE_DECOMPRESSION_LIMIT") then
      let decision := decision <| rd_Coverage := RequestCoveragePartial |> <| rd_HTTPStatus := 413 |>
                               <| rd_ReasonCode := "GATE_REQUEST_TOO_LARGE" |> in
      let decision := if bool_decide (err = "GATE_DECOMPRESSION_LIMIT")
                      then decision <| rd_ReasonCode := "GATE_DECOMPRESSION_LIMIT" |> else decision in
      if bool_decide (rp_FailMode plan = GateFailOpen) && bool_decide (rp_OversizeAction plan = "ALLOW_PARTIAL")
      then decision <| rd_Verdict := RequestAllow |> <| rd_HTTPStatus := 0 |> else decision
    else if negb (bool_decide (ri_RulesetID inspection = rp_RulesetID plan)) then
      let decision := decision <| rd_Coverage := RequestCoverageUnavailable |>
                               <| rd_ReasonCode := "GATE_SENSOR_UNAVAILABLE" |> in
      let failed := applyGateFailure decision (rp_FailMode plan) in
      decision <| rd_Verdict := rd_Verdict failed |> <| rd_HTTPStatus := rd_HTTPStatus failed |>
    else decideInspectedRequest decision inspection (rp_FailMode plan) in
  if negb (currentGeneration =? freshGeneration) then
    decision <| rd_Verdict := RequestBlock |> <| rd_Coverage := RequestCoverageUnavailable |>
             <| rd_HTTPStatus := 503 |> <| rd_ReasonCode := "GATE_ENGINE_UNAVAILABLE" |>
  else decision.

(** ** Admission *)

Fixpoint hex_ok (s : string) : bool :=
  match s with
  | String a (String b s') =>
      match hex_value a, hex_value b with Some _, Some _ => hex_ok s' | _, _ => false end
  | String _ EmptyString => false
  | EmptyString => true
  end.

Definition valid_alert (a : RequestAlert) : bool :=
  (strlen (ra_SignatureID a) <=? 32) && (strlen (ra_Category a) <=? 128) && (strlen (ra_Message a) <=? 512)
  && (strlen (ra_Action a) <=? 32) && (strlen (ra_Severity a) <=? 16) && (strlen (ra_Timestamp a) <=? 64).

Definition validGateRequest (request : RequestContext) (inspection : RequestInspectionResult) : bool :=
  if negb (strlen (rq_RequestID request) =? 32) || negb (strlen (rq_ConnectionID request) =? 32)
     || (rq_RequestOrdinal request =? 0)
     || (negb (bool_decide (rq_SessionID request = "")) && (128 <? strlen (rq_SessionID request)))
     || (strlen (rq_Method request) =? 0) || (32 <? strlen (rq_Method request))
     || (strlen (rq_Host request) =? 0) || (255 <? strlen (rq_Host request))
     || (16384 <? strlen (rq_Path request))
     || (rq_HeaderBytes request <? 0) || (65536 <? rq_HeaderBytes request)
     || (rq_BodyBytes request <? 0) || (1048576 <? rq_BodyBytes request)
     || (rq_DecodedBodyBytes request <? 0) || (4194304 <? rq_DecodedBodyBytes request)
     || (128 <? Z.of_nat (length (ri_Alerts inspection)))
     || negb (bool_decide (ri_RequestID inspection = rq_RequestID request))
     || negb (RequestCoverage_Valid (ri_Coverage inspection)) then false
  else if negb (hex_ok (rq_RequestID request)) then false
  else if negb (hex_ok (rq_ConnectionID request)) then false
  else if (negb (bool_decide (rq_Scheme request = "http")) && negb (bool_decide (rq_Scheme request = "https")))
       || (negb (bool_decide (rq_HTTPVersion request = "HTTP/1.1")) && negb (bool_decide (rq_HTTPVersion request = "HTTP/2.0")))
  then false
  else if (64 <? strlen (ri_ErrorCode inspection)) || (128 <? strlen (ri_RulesetID inspection))
       || (128 <? strlen (ri_RulesetHash inspection)) then false
  else forallb valid_alert (ri_Alerts inspection).

(** ** When a request is let through

    The contract of the chain, stated without its order of tests: a request
    passes when its inspection is clean, or when the profile fails open and the
    outcome is one of the failures that mode covers. *)

(** The inspection reached a conclusion that a blocking alert decides. *)
Definition conclusive_block (i : RequestInspectionResult) : Prop :=
  ri_Completed i = true /\ (ri_Coverage i = CoverageComplete \/ ri_Coverage i = RequestCoveragePartial) /\
  ri_ErrorCode i = "" /\ hasBlockingGateAlert (ri_Alerts i) (ri_RulesetID i) = true.

(** The request was seen whole, by the plan's rules, and nothing objects. *)
Definition clean_inspection (request : RequestContext) (i : RequestInspectionResult) (plan : RequestGatePlan) : Prop :=
  ri_Completed i = true /\ ri_Coverage i = CoverageComplete /\ ri_ErrorCode i = "" /\ rq_Truncated request = false /\
  ri_RulesetID i = rp_RulesetID plan /\ hasBlockingGateAlert (ri_Alerts i) (ri_RulesetID i) = false /\
  Forall (fun a => alert_action a ∈ passing_actions) (ri_Alerts i).

Definition fail_open_covers (request : RequestContext) (i : RequestInspectionResult) (plan : RequestGatePlan) : Prop :=
  ri_ErrorCode i <> "GATE_REQUEST_MALFORMED" /\ ~ conclusive_block i /\
  (ri_ErrorCode i = "GATE_UNSUPPORTED_ENCODING" -> rp_EncodingAction plan = "ALLOW_PARTIAL") /\
  (ri_ErrorCode i <> "GATE_UNSUPPORTED_ENCODING" ->
   rq_Truncated request = true \/ ri_ErrorCode i = "GATE_DECOMPRESSION_LIMIT" -> rp_OversizeAction plan = "ALLOW_PARTIAL").

Lemma hasBlocking_actions alerts rid :
  hasBlockingGateAlert alerts rid = false -> Forall (fun a => alert_action a ∉ blocking_actions) alerts.
Proof.
  induction alerts as [| a l IH]; intros H; [constructor|]. cbn [hasBlockingGateAlert] in H.
  destruct (_ && _ && _); [done|]. destruct (bool_decide (alert_action a ∈ blocking_actions)) eqn:E; [done|].
  apply bool_decide_eq_false in E. constructor; auto.
Qed.

Lemma applyGateFailure_verdict d mode :
  (rd_Verdict (applyGateFailure d mode) = RequestAllow <-> mode = GateFailOpen) /\
  rd_HTTPStatus (applyGateFailure d mode) = (if bool_decide (mode = GateFailOpen) then 0 else 503) /\
  (mode <> GateFailOpen -> rd_Verdict (applyGateFailure d mode) = RequestBlock).
Proof. unfold applyGateFailure. case_bool_decide; split; try (split; done); done. Qed.

Lemma scan_alerts_verdict base alerts mode :
  Forall (fun a => alert_action a ∉ blocking_actions) alerts ->
  rd_Verdict (scan_alerts base alerts mode) = RequestAllow <->
  (Forall (fun a => alert_action a ∈ passing_actions) alerts \/ mode = GateFailOpen).
Proof.
  induction 1 as [| a l Ha Hl IH]; cbn [scan_alerts].
  - split; [left; constructor | done].
  - rewrite (bool_decide_eq_false_2 _ Ha). destruct (bool_decide (alert_action a ∈ passing_actions)) eqn:E.
    + apply bool_decide_eq_true in E. rewrite IH. rewrite Forall_cons. naive_solver.
    + apply bool_decide_eq_false in E. rewrite (proj1 (applyGateFailure_verdict _ _)), Forall_cons. naive_solver.
Qed.

Lemma decideInspected_verdict base i mode :
  hasBlockingGateAlert (ri_Alerts i) (ri_RulesetID i) = false \/ ri_Completed i = false \/
  ri_Coverage i <> CoverageComplete \/ ri_ErrorCode i <> "" ->
  rd_Verdict (decideInspectedRequest base i mode) = RequestAllow <->
  (ri_Completed i = true /\ ri_Coverage i = CoverageComplete /\ ri_ErrorCode i = "" /\
   Forall (fun a => alert_action a ∈ passing_actions) (ri_Alerts i)) \/ mode = GateFailOpen.
Proof.
  intros Hb. unfold decideInspectedRequest.
  destruct (ri_Completed i && _ && _) eqn:E.
  - split_bool. destruct (hasBlockingGateAlert (ri_Alerts i) (ri_RulesetID i)) eqn:Eb.
    { exfalso. destruct Hb as [Hb | [Hb | [Hb | Hb]]]; congruence. }
    rewrite scan_alerts_verdict by (by eapply hasBlocking_actions). naive_solver.
  - rewrite (proj1 (applyGateFailure_verdict _ _)). split; [by right|]. intros [(H1&H2&H3&_) | H]; [|done].
    rewrite H1, H2, H3 in E. by rewrite !bool_decide_eq_true_2 in E by done.
Qed.

Lemma verdict_set d v s : rd_Verdict (d <| rd_Verdict := v |> <| rd_HTTPStatus := s |>) = v.
Proof. done. Qed.

(** A refusal that a fail-open profile may lift. *)
Lemma allow_if_verdict d a b :
  rd_Verdict d = RequestBlock ->
  rd_Verdict (if a && b then d <| rd_Verdict := RequestAllow |> <| rd_HTTPStatus := 0 |> else d) = RequestAllow <->
  a = true /\ b = true.
Proof. intros Hd. destruct a, b; cbn; rewrite ?Hd; split; try done; by intros []. Qed.

(** Propositional reasoning over the fields' values. *)
Ltac by_logic := solve [intuition congruence].

Lemma decide_request_allow (d : RequestDecision) (request : RequestContext) (i : RequestInspectionResult)
    (plan : RequestGatePlan) (fresh current : Z) :
  rd_Verdict d = RequestBlock ->
  rd_Verdict (decide_request d request i plan fresh current) = RequestAllow <->
  current = fresh /\ (clean_inspection request i plan \/ rp_FailMode plan = GateFailOpen /\ fail_open_covers request i plan).
Proof.
  intros Hd. unfold decide_request.
  destruct (current =? fresh) eqn:Eg; split_bool; cbn [negb].
  2:{ split; [done | by intros [? _]]. }
  unfold clean_inspection, fail_open_covers, conclusive_block.
  destruct (bool_decide (ri_ErrorCode i = "GATE_REQUEST_MALFORMED")) eqn:E1; split_bool.
  { cbn. rewrite Hd. split; [done|]. rewrite E1. intros [_ [H | H]]; [by destruct H as (_&_&?&_) | by_logic]. }
  destruct (bool_decide (ri_ErrorCode i = "GATE_UNSUPPORTED_ENCODING")) eqn:E2; split_bool.
  { rewrite E2. destruct (bool_decide (rp_FailMode plan = GateFailOpen)) eqn:Ef;
      destruct (bool_decide (rp_EncodingAction plan = "ALLOW_PARTIAL")) eqn:Ea; split_bool; cbn [andb];
      cbn; rewrite ?Hd; (split; [try done; by_logic | by_logic]). }
  destruct (_ && hasBlockingGateAlert _ _) eqn:E3.
  { cbn. rewrite Hd. split; [done|]. split_bool.
    match goal with H : _ || _ = true |- _ => apply orb_true_iff in H as [H|H]; split_bool end;
      (intros [_ [(_ & _ & _ & _ & _ & ? & _) | (_ & _ & Hc & _)]]; [congruence | destruct Hc; auto]). }
  assert (Hnc : ~ (ri_Completed i = true /\ (ri_Coverage i = CoverageComplete \/ ri_Coverage i = RequestCoveragePartial) /\
     ri_ErrorCode i = "" /\ hasBlockingGateAlert (ri_Alerts i) (ri_RulesetID i) = true)).
  { intros (H1 & H2 & H3 & H4). rewrite H1, H3, H4 in E3. destruct H2 as [H2 | H2]; rewrite H2 in E3; done. }
  destruct (rq_Truncated request || _) eqn:E4.
  { rewrite allow_if_verdict by (destruct (bool_decide (ri_ErrorCode i = "GATE_DECOMPRESSION_LIMIT")); done).
    rewrite !bool_decide_eq_true. apply orb_true_iff in E4. rewrite bool_decide_eq_true in E4. split.
    - intros [Hf Ha]. split; [done|]. right. repeat split; by auto.
    - intros [_ [(_ & _ & He & Ht & _) | (Hf & _ & _ & _ & Ho)]]; [destruct E4; congruence | by auto]. }
  split_bool.
  destruct (bool_decide (ri_RulesetID i = rp_RulesetID plan)) eqn:E6; split_bool; cbn [negb].
  - rewrite decideInspected_verdict.
    + split; intros Hx; [split; [done|]; destruct Hx as [Hx | Hx]; [left | right; by_logic]|]; [|by_logic].
      destruct Hx as (H1&H2&H3&H4). destruct (hasBlockingGateAlert (ri_Alerts i) (ri_RulesetID i)) eqn:Eb; by_logic.
    + destruct (hasBlockingGateAlert (ri_Alerts i) (ri_RulesetID i)); [|by left].
      destruct (ri_Completed i); [|auto]. destruct (decide (ri_Coverage i = CoverageComplete)); [|auto].
      destruct (decide (ri_ErrorCode i = "")); [|auto]. exfalso. apply Hnc. auto.
  - rewrite verdict_set, (proj1 (applyGateFailure_verdict _ _)). by_logic.
Qed.

(** Exactly when a held request is allowed. Starting from the refusal that
    [EvaluateRequest] prepares, the verdict is ALLOW if and only if the
    configuration generation is still the one decided under and either the
    inspection is clean or the profile fails open and the failure is one that
    mode covers; in particular a conclusive blocking alert, a malformed request
    and a generation change are never allowed, in any mode. *)
Theorem decide_request_allow_iff (d : RequestDecision) (request : RequestContext) (i : RequestInspectionResult)
    (plan : RequestGatePlan) (fresh current : Z) :
  rd_Verdict d = RequestBlock ->
  rd_Verdict (decide_request d request i plan fresh current) = RequestAllow <->
  current = fresh /\ (clean_inspection request i plan \/ rp_FailMode plan = GateFailOpen /\ fail_open_covers request i plan).
Proof. apply decide_request_allow. Qed.

Definition demo_plan (mode : GateFailMode) : RequestGatePlan :=
  mkRequestGatePlan true "p" "gate" 3 TLSDecrypt mode "BLOCK" "BLOCK" true "m4-builtin-v1" (Some []) [mkPortRange 80 80].

Definition demo_request : RequestContext :=
  mkRequestContext "00112233445566778899aabbccddeeff" "ffeeddccbbaa99887766554433221100" "" 1 None "HTTP/1.1" "GET"
    "http" "example.test" "/" false "" "" 100 0 0 "" false.

Definition demo_inspection (alerts : list RequestAlert) : RequestInspectionResult :=
  mkRequestInspectionResult "00112233445566778899aabbccddeeff" CoverageComplete true alerts "" 5 "m4-builtin-v1" "".

Definition demo_refusal : RequestDecision :=
  mkRequestDecision "d" "00112233445566778899aabbccddeeff" 3 "s" "p" "gate" RequestBlock RequestCoverageUnavailable 503
    "GATE_ENGINE_UNAVAILABLE" "".

Lemma decide_request_allow_iff_witness :
  rd_Verdict (decide_request demo_refusal demo_request
    (demo_inspection [mkRequestAlert "suricata" "1" "c" "m" " Allowed " "low" ""]) (demo_plan GateFailClose) 3 3) = RequestAllow.
Proof.
  apply (decide_request_allow_iff demo_refusal demo_request
    (demo_inspection [mkRequestAlert "suricata" "1" "c" "m" " Allowed " "low" ""]) (demo_plan GateFailClose) 3 3);
    [reflexivity|].
  split; [reflexivity|]. left. unfold clean_inspection. repeat split; try reflexivity.
  apply Forall_singleton. apply (bool_decide_eq_true_1 _). vm_compute. reflexivity.
Defined.

(** The shape of every decision: allowed requests carry no error status, refused
    ones carry the status the proxy answers with. *)
Definition decision_shape (d : RequestDecision) : Prop :=
  (rd_Verdict d = RequestAllow /\ rd_HTTPStatus d = 0) \/
  (rd_Verdict d = RequestBlock /\ rd_HTTPStatus d ∈ [400; 403; 413; 503]).

Lemma applyGateFailure_shape d mode : decision_shape (applyGateFailure d mode).
Proof. unfold applyGateFailure, decision_shape. case_bool_decide; cbn; [by left | right; set_solver]. Qed.

Lemma scan_alerts_shape base alerts mode : decision_shape (scan_alerts base alerts mode).
Proof.
  induction alerts as [| a l IH]; cbn [scan_alerts]; [by left|].
  case_bool_decide; [right; cbn; set_solver|]. case_bool_decide; [done | apply applyGateFailure_shape].
Qed.

Lemma decideInspected_shape base i mode : decision_shape (decideInspectedRequest base i mode).
Proof.
  unfold decideInspectedRequest. destruct (_ && _ && _); [|apply applyGateFailure_shape].
  destruct (hasBlockingGateAlert _ _); [right; cbn; set_solver | apply scan_alerts_shape].
Qed.

(** Every decision of the chain is well formed: the verdict is ALLOW with
    status 0 or BLOCK with one of 400, 403, 413 and 503, never a third verdict
    and never an allowed request with an error status. *)
Theorem decide_request_shape (d : RequestDecision) (request : RequestContext) (i : RequestInspectionResult)
    (plan : RequestGatePlan) (fresh current : Z) :
  rd_Verdict d = RequestBlock -> decision_shape (decide_request d request i plan fresh current).
Proof.
  intros Hd. unfold decide_request.
  destruct (negb (current =? fresh)); [right; cbn; split; [done | set_solver]|].
  destruct (bool_decide (ri_ErrorCode i = "GATE_REQUEST_MALFORMED")); [right; cbn; split; [done | set_solver]|].
  destruct (bool_decide (ri_ErrorCode i = "GATE_UNSUPPORTED_ENCODING")).
  { destruct (_ && _); [by left | right; cbn; split; [done | set_solver]]. }
  destruct (_ && hasBlockingGateAlert _ _); [right; cbn; split; [done | set_solver]|].
  destruct (rq_Truncated request || _).
  { destruct (bool_decide (ri_ErrorCode i = _)), (_ && _); try (by left); right; cbn; (split; [done | set_solver]). }
  destruct (negb _); [|apply decideInspected_shape].
  destruct (applyGateFailure_shape
    (d <| rd_Coverage := RequestCoverageUnavailable |> <| rd_ReasonCode := "GATE_SENSOR_UNAVAILABLE" |>) (rp_FailMode plan))
    as [H | H]; [by left | by right].
Qed.

Lemma decide_request_shape_witness :
  decision_shape (decide_request demo_refusal demo_request
    (demo_inspection [mkRequestAlert "Suricata" "9904002" "c" "m" "allowed" "high" ""]) (demo_plan GateFailOpen) 3 3) /\
  rd_HTTPStatus (decide_request demo_refusal demo_request
    (demo_inspection [mkRequestAlert "Suricata" "9904002" "c" "m" "allowed" "high" ""]) (demo_plan GateFailOpen) 3 3) = 403.
Proof.
  split; [|vm_compute; reflexivity]. apply decide_request_shape. reflexivity.
Defined.
