(* ===== verification/TopK.v ===== *)
(** * Bounded selection

    The engine answers "the newest [n] records" and "the oldest [n] records after
    a cursor" in one pass over a map, keeping at most [n] candidates and
    replacing the worst one when a better one comes
    ([RequestEvidenceForSession] and [ListRequestGateEvidence] of
    [internal/engine/gate_request.go] share the loop up to the comparison).
    [keep_best_sorted] says that the pass, followed by the sort, yields the first
    [n] elements of the fully sorted input, whatever order the map is visited in. *)

From S2P Require Import Prelude.

Section topk.
Context {A : Type} (worse : A -> A -> bool).

(** [w := 0; for i := 1; i < len(items); i++ { if worse(items[i], items[w]) { w = i } }] *)
Fixpoint worst_loop (items : list A) (i w : nat) (best : A) : nat :=
  match items with
  | [] => w
  | x :: items' => if worse x best then worst_loop items' (S i) i x else worst_loop items' (S i) w best
  end.

Definition worst_index (items : list A) : nat :=
  match items with
  | [] => O
  | x :: items' => worst_loop items' 1 0 x
  end.

Definition keep_step (limit : nat) (items : list A) (x : A) : list A :=
  if (length items <? limit)%nat then items ++ [x]
  else
    let w := worst_index items in
    match items !! w with
    | Some y => if worse y x then <[w := x]> items else items
    | None => items
    end.

Definition keep_best (limit : nat) (xs : list A) : list A := foldl (keep_step limit) [] xs.

(** Sorting puts [x] before [y] when [y] is worse. *)
Definition better (x y : A) : bool := worse y x.

(** [worse] is a strict order that decides between the elements considered. *)
Hypothesis worse_irrefl : forall x, worse x x = false.
Hypothesis worse_trans : forall x y z, worse x y = true -> worse y z = true -> worse x z = true.

Definition strict_sorted (l : list A) : Prop := StronglySorted (fun x y => better x y = true) l.

Lemma worse_asym x y : worse x y = true -> worse y x = false.
Proof using worse_irrefl worse_trans.
  intros H. destruct (worse y x) eqn:E; [|done]. rewrite <- (worse_irrefl x). symmetry. by eapply worse_trans.
Qed.

Lemma insert_by_before x w l1 l2 :
  worse w x = true -> insert_by better x (l1 ++ w :: l2) = insert_by better x l1 ++ w :: l2.
Proof using worse_irrefl worse_trans.
  intros Hw. induction l1 as [| y l1 IH]; simpl.
  - unfold better. by rewrite (worse_asym w x).
  - destruct (better y x); [by rewrite IH | done].
Qed.

Lemma insert_by_after x l1 l2 :
  Forall (fun y => better y x = true) l1 -> insert_by better x (l1 ++ l2) = l1 ++ insert_by better x l2.
Proof. induction 1 as [| y l1 Hy Hl IH]; simpl; [done|]. by rewrite Hy, IH. Qed.

Lemma insert_by_strict x l :
  strict_sorted l -> (forall y, y ∈ l -> worse x y = true \/ worse y x = true) -> strict_sorted (insert_by better x l).
Proof using worse_trans.
  unfold strict_sorted. induction 1 as [| y l Hs IH Hy]; simpl; intros Ht; [repeat constructor|].
  destruct (better y x) eqn:E.
  - constructor; [apply IH; intros; apply Ht; by right|]. rewrite insert_by_perm. constructor; [done|].
    exact Hy.
  - assert (Hyx : worse y x = true) by (destruct (Ht y) as [H | H]; [left | unfold better in E; congruence | done]).
    constructor; [by constructor|]. constructor; [exact Hyx|].
    eapply Forall_impl; [exact Hy|]. intros z Hz. unfold better in *. by eapply worse_trans.
Qed.

Lemma worst_loop_spec items : forall pre w best,
  (pre ++ items) !! w = Some best -> (w < length pre)%nat ->
  Forall (fun y => y = best \/ worse y best = false) pre ->
  exists m, (pre ++ items) !! worst_loop items (length pre) w best = Some m /\
            Forall (fun y => worse y m = false) (pre ++ items).
Proof using worse_irrefl worse_trans.
  induction items as [| x items IH]; intros pre w best Hw Hlt Hpre; simpl.
  - exists best. split; [done|]. rewrite app_nil_r.
    eapply Forall_impl; [exact Hpre|]. intros y [-> | H]; auto.
  - replace (pre ++ x :: items) with ((pre ++ [x]) ++ items) in * by (by rewrite <- app_assoc).
    replace (S (length pre)) with (length (pre ++ [x])) by (rewrite length_app; simpl; lia).
    destruct (worse x best) eqn:E; apply IH.
    + rewrite lookup_app_l by (rewrite length_app; simpl; lia). by rewrite list_lookup_middle.
    + rewrite length_app. simpl. lia.
    + rewrite Forall_app. split; [| constructor; [by left | done]].
      eapply Forall_impl; [exact Hpre|]. intros y Hy. right.
      destruct (worse y x) eqn:Ey; [|done]. destruct Hy as [-> | Hy].
      * by rewrite (worse_asym x best E) in Ey.
      * rewrite <- Hy. symmetry. by eapply worse_trans.
    + done.
    + rewrite length_app. simpl. lia.
    + rewrite Forall_app. split; [done|]. constructor; [by right | done].
Qed.

Lemma worst_index_spec items :
  items <> [] -> exists m, items !! worst_index items = Some m /\ Forall (fun y => worse y m = false) items.
Proof using worse_irrefl worse_trans.
  destruct items as [| x items]; [done|]. intros _. unfold worst_index.
  apply (worst_loop_spec items [x] 0 x); [done | simpl; lia | constructor; [by left | done]].
Qed.

Lemma strict_last_unique l w m :
  strict_sorted (l ++ [w]) -> m ∈ l ++ [w] -> worse w m = false -> m = w.
Proof using.
  intros Hs Hm Hw. apply elem_of_app in Hm as [Hm | ->%list_elem_of_singleton]; [|done].
  apply StronglySorted_app_1_elem_of with (x1 := m) (x2 := w) in Hs; [| done | by apply list_elem_of_singleton].
  unfold better in Hs. congruence.
Qed.

Lemma keep_step_perm limit items x l :
  (1 <= limit)%nat -> strict_sorted l -> (forall y, y ∈ l -> worse x y = true \/ worse y x = true) ->
  items ≡ₚ take limit l -> keep_step limit items x ≡ₚ take limit (insert_by better x l).
Proof using worse_irrefl worse_trans.
  intros Hlim Hs Ht Hp. unfold keep_step. pose proof (Permutation_length Hp) as Hlen. rewrite length_take in Hlen.
  destruct (length items <? limit)%nat eqn:El.
  - apply Nat.ltb_lt in El. rewrite take_ge in Hp by lia.
    rewrite take_ge by (rewrite insert_by_perm; simpl; lia). rewrite insert_by_perm, Hp. solve_Permutation.
  - apply Nat.ltb_ge in El. set (T := take limit l) in *. set (R := drop limit l).
    assert (Hl : l = T ++ R) by (symmetry; apply take_drop).
    assert (HT : length T = limit) by (unfold T; rewrite length_take; lia).
    destruct (exists_last (l := T)) as (T0 & w & HTw); [intros HT0; rewrite HT0 in HT; simpl in HT; lia|].
    destruct (worst_index_spec items) as (m & Hm & Hworst); [intros ->; simpl in El; lia|].
    assert (HsT : strict_sorted (T0 ++ [w])).
    { rewrite <- HTw. unfold strict_sorted in *. rewrite Hl in Hs. by apply StronglySorted_app_1_l in Hs. }
    assert (m = w) as ->.
    { apply (strict_last_unique T0 w m); [done | |].
      - rewrite <- HTw, <- Hp. by eapply list_elem_of_lookup_2.
      - rewrite Forall_forall in Hworst. apply Hworst. rewrite Hp, HTw. apply elem_of_app. right. by apply list_elem_of_singleton. }
    rewrite Hm. rewrite HTw in Hl, HT. rewrite Hl, <- app_assoc. cbn [app].
    rewrite length_app in HT. simpl in HT.
    destruct (worse w x) eqn:Ew.
    + rewrite insert_by_before by done.
      rewrite take_app_length' by (rewrite insert_by_perm; simpl; lia). rewrite insert_by_perm.
      rewrite insert_take_drop by (by eapply lookup_lt_Some).
      rewrite <- Permutation_middle. constructor. apply (Permutation_cons_inv (a := w)).
      rewrite Permutation_middle, (take_drop_middle _ _ _ Hm), Hp, HTw. solve_Permutation.
    + rewrite (app_assoc T0 [w] R : T0 ++ w :: R = (T0 ++ [w]) ++ R). 
      assert (Hxw : worse x w = true).
      { destruct (Ht w) as [H | H]; [|done|congruence]. rewrite Hl. apply elem_of_app. left. apply elem_of_app. right. by apply list_elem_of_singleton. }
      rewrite insert_by_after.
      2:{ apply Forall_app. split; [| constructor; [exact Hxw | done]].
          apply Forall_forall. intros y Hy. unfold better. eapply worse_trans; [exact Hxw|].
          apply (StronglySorted_app_1_elem_of _ T0 [w] y w HsT Hy). by apply list_elem_of_singleton. }
      rewrite take_app_length' by (rewrite length_app; simpl; lia). by rewrite Hp, HTw.
Qed.

(** Any two elements are comparable: no key occurs twice. *)
Definition comparable (x y : A) : Prop := worse x y = true \/ worse y x = true.

Fixpoint pairwise (l : list A) : Prop :=
  match l with
  | [] => True
  | x :: l' => Forall (comparable x) l' /\ pairwise l'
  end.

#[local] Instance pairwise_proper : Proper ((≡ₚ) ==> iff) pairwise.
Proof using.
  assert (H : forall l1 l2, l1 ≡ₚ l2 -> pairwise l1 -> pairwise l2).
  { induction 1 as [| x l1 l2 Hp IH | x y l | l1 l2 l3 _ IH1 _ IH2]; simpl; auto.
    - intros [Hx Hl]. split; [by rewrite <- Hp | auto].
    - rewrite !Forall_cons. unfold comparable. tauto. }
  intros l1 l2 Hp. split; apply H; [done | by symmetry].
Qed.

Lemma strict_sorted_pairwise l : strict_sorted l -> pairwise l.
Proof using.
  induction 1 as [| x l Hs IH Hx]; simpl; [done|]. split; [|done].
  eapply Forall_impl; [exact Hx|]. intros y Hy. by right.
Qed.

Lemma keep_best_perm limit xs :
  (1 <= limit)%nat -> pairwise xs ->
  exists l, strict_sorted l /\ l ≡ₚ xs /\ keep_best limit xs ≡ₚ take limit l.
Proof using worse_irrefl worse_trans.
  intros Hlim. unfold keep_best. induction xs as [| x xs IH] using rev_ind; intros Hd.
  - exists []. repeat split; [constructor | done | by rewrite take_nil].
  - rewrite (Permutation_app_comm xs [x]) in Hd. destruct Hd as [Hx Hd].
    destruct (IH Hd) as (l & Hs & Hp & Hk).
    assert (Ht : forall y, y ∈ l -> worse x y = true \/ worse y x = true).
    { intros y Hy. rewrite Hp in Hy. rewrite Forall_forall in Hx. by apply Hx. }
    exists (insert_by better x l). split; [by apply insert_by_strict|]. split.
    + rewrite insert_by_perm, Hp. solve_Permutation.
    + rewrite foldl_snoc. by apply keep_step_perm.
Qed.

Lemma strict_sorted_unique l1 l2 : strict_sorted l1 -> strict_sorted l2 -> l1 ≡ₚ l2 -> l1 = l2.
Proof using worse_irrefl worse_trans.
  intros H1 H2 Hp. apply (StronglySorted_unique_strong (fun x y => better x y = true)); try done.
  intros x y _ _ Hxy Hyx. unfold better in *. exfalso. rewrite (worse_asym _ _ Hxy) in Hyx. done.
Qed.

Lemma sort_by_strict l : pairwise l -> strict_sorted (sort_by better l).
Proof using worse_trans.
  induction l as [| x l IH]; simpl; [constructor|]. intros [Hx Hl]. apply insert_by_strict; [auto|].
  intros y Hy. rewrite sort_by_elem_of in Hy. rewrite Forall_forall in Hx. by apply Hx.
Qed.

(** The bounded pass over [xs], sorted, is the first [limit] elements of the
    sorted arrangement [L] of [xs]. *)
Lemma keep_best_sorted limit xs L :
  (1 <= limit)%nat -> strict_sorted L -> xs ≡ₚ L -> sort_by better (keep_best limit xs) = take limit L.
Proof using worse_irrefl worse_trans.
  intros Hlim HL Hp.
  assert (Hpw : pairwise xs) by (rewrite Hp; by apply strict_sorted_pairwise).
  destruct (keep_best_perm limit xs Hlim Hpw) as (l & Hs & Hl & Hk).
  assert (l = L) as -> by (apply strict_sorted_unique; [done | done | by rewrite Hl]).
  assert (HsT : strict_sorted (take limit L)).
  { unfold strict_sorted in *. rewrite <- (take_drop limit L) in HL. by apply StronglySorted_app_1_l in HL. }
  apply strict_sorted_unique; [| done | by rewrite sort_by_perm].
  apply sort_by_strict. rewrite Hk. by apply strict_sorted_pairwise.
Qed.
End topk.
