(* ===== verification/GateEvidence.v ===== *)
(** * The request-gate evidence store

    The bounded records of [internal/engine/gate_request.go] and
    [gate_result.go]: [gateDecisions] (a map by request identifier),
    [gateDecisionOrder] (a [container/list], oldest first) and
    [gateDecisionBytes].  A list element is a handle, the number it was created
    with, so that [Remove] and [MoveToBack] act on the element a record points
    to.  [json.Marshal] of a record, of which only the length is used, is an
    argument; the clock is an argument of every operation; [range] over the map
    takes the order it visits as an argument. *)

From S2P Require Import Prelude GoStr Domain Codec TopK.

Definition defaultGateDecisions : Z := 10000.
Definition defaultEvidenceBytes : Z := 16777216.
Definition gateDecisionTTL : Duration := 10 * Minute.

Record gateDecisionRecord : Type := mkGateDecisionRecord {
  gd_evidence : RequestGateEvidence;
  gd_expires : Time;
  gd_size : Z;
  gd_node : option Z;
}.

Record EvidenceStore : Type := mkEvidenceStore {
  gateDecisions : gmap string gateDecisionRecord;
  gateDecisionOrder : list (Z * string);
  gateDecisionBytes : Z;
  gateSequence : Z;
  nextNode : Z;           (** the handle of the next list element *)
  MaxDecisions : Z;
  MaxEvidenceBytes : Z;
}.

Definition new_evidence_store (maxDecisions maxBytes : Z) : EvidenceStore :=
  mkEvidenceStore ∅ [] 0 0 0 maxDecisions maxBytes.

Definition decision_limit (s : EvidenceStore) : Z :=
  if (MaxDecisions s <=? 0) || (defaultGateDecisions <? MaxDecisions s) then defaultGateDecisions else MaxDecisions s.

Definition evidence_budget (s : EvidenceStore) : Z :=
  if (MaxEvidenceBytes s <=? 0) || (67108864 <? MaxEvidenceBytes s) then defaultEvidenceBytes else MaxEvidenceBytes s.

(** The part of [domain.RuntimeEvent] the gate fills. *)
Record GateEvent : Type := mkGateEvent {
  ev_Kind : string;
  ev_Class : string;
  ev_EventID : string;
  ev_SessionID : string;
  ev_Timestamp : Time;
  ev_Generation : Z;
  ev_Reason : string;
}.

(** ** Truncation *)

Fixpoint truncate_end (value : string) (end_ : nat) : nat :=
  match end_ with
  | O => O
  | S e => if ValidString (take_string end_ value) then end_ else truncate_end value e
  end.

Definition truncateEvidenceText (value : string) (maxBytes : nat) : string * bool :=
  if strlen value <=? Z.of_nat maxBytes then (value, false)
  else (take_string (truncate_end value maxBytes) value, true).

(** ** Removal and eviction *)

Definition list_Remove (node : option Z) (order : list (Z * string)) : list (Z * string) :=
  match node with
  | None => order
  | Some h => filter (fun e => e.1 <> h) order
  end.

Definition list_MoveToBack (node : option Z) (order : list (Z * string)) : list (Z * string) :=
  match node with
  | None => order
  | Some h => list_Remove node order ++ filter (fun e => e.1 = h) order
  end.

Definition removeGateDecisionLocked (s : EvidenceStore) (id : string) (record : gateDecisionRecord) : EvidenceStore :=
  mkEvidenceStore (delete id (gateDecisions s)) (list_Remove (gd_node record) (gateDecisionOrder s))
    (gateDecisionBytes s - gd_size record) (gateSequence s) (nextNode s) (MaxDecisions s) (MaxEvidenceBytes s).

(** [service.gateDecisions[id]] of an absent key is the zero record: size 0 and
    no list element. *)
Definition remove_id (s : EvidenceStore) (id : string) : EvidenceStore :=
  match gateDecisions s !! id with
  | Some record => removeGateDecisionLocked s id record
  | None => mkEvidenceStore (delete id (gateDecisions s)) (gateDecisionOrder s) (gateDecisionBytes s)
              (gateSequence s) (nextNode s) (MaxDecisions s) (MaxEvidenceBytes s)
  end.

Definition over_budget (s : EvidenceStore) (limit maxBytes encoded : Z) : bool :=
  (limit <=? Z.of_nat (size (gateDecisions s))) || (maxBytes <? gateDecisionBytes s + encoded).

(** The eviction loop of [storeGateDecision]; the fuel is the length of the
    order list, which every turn shortens ([evict_rep]). *)
Fixpoint evict (fuel : nat) (limit maxBytes encoded : Z) (s : EvidenceStore) : EvidenceStore :=
  if over_budget s limit maxBytes encoded then
    match gateDecisionOrder s with
    | [] => s
    | (_, id) :: _ =>
        match fuel with
        | O => s
        | S fuel' => evict fuel' limit maxBytes encoded (remove_id s id)
        end
    end
  else s.

(** The loop of [ReportRequestResult], which passes over the annotated record;
    [None] is its [return bad()]. *)
Fixpoint evict_other (fuel : nat) (maxBytes old encoded : Z) (self : string) (s : EvidenceStore) : EvidenceStore * bool :=
  if maxBytes <? gateDecisionBytes s - old + encoded then
    let front := match gateDecisionOrder s with
                 | (h, id) :: rest => if bool_decide (id = self) then head rest else Some (h, id)
                 | [] => None
                 end in
    match front with
    | None => (s, false)
    | Some (_, id) =>
        match fuel with
        | O => (s, false)
        | S fuel' => evict_other fuel' maxBytes old encoded self (remove_id s id)
        end
    end
  else (s, true).

Section evidence.
Context {JE : JSON RequestGateEvidence}.

(** ** Storing a decision *)

Definition bounded_evidence (now : Time) (context : RequestContext) (inspection : RequestInspectionResult)
    (decision : RequestDecision) (sequence : Z) : RequestGateEvidence :=
  let '(path, pathTruncated) := truncateEvidenceText (rq_Path context) 256 in
  let alerts := take 4 (ri_Alerts inspection) in
  let alerts := (fun a => a <| ra_Message := (truncateEvidenceText (ra_Message a) 128).1 |>) <$> alerts in
  mkRequestGateEvidence (rd_DecisionID decision) sequence now
    (context <| rq_Path := path |>) pathTruncated
    (inspection <| ri_Alerts := alerts |>)
    (Z.of_nat (length (ri_Alerts inspection)))
    (bool_decide (4 < Z.of_nat (length (ri_Alerts inspection))))
    decision None.

Definition decision_event (now : Time) (decision : RequestDecision) : GateEvent :=
  mkGateEvent "RequestGateDecision" "security" (rd_DecisionID decision) (rd_SessionID decision) now
    (rd_ConfigGeneration decision) (rd_ReasonCode decision).

Definition storeGateDecision (s : EvidenceStore) (now : Time) (context : RequestContext)
    (inspection : RequestInspectionResult) (decision : RequestDecision) : EvidenceStore * option GateEvent :=
  let evidence := bounded_evidence now context inspection decision (inc64 (gateSequence s)) in
  let id := rq_RequestID context in
  let limit := decision_limit s in
  let maxBytes := evidence_budget s in
  match Marshal evidence with
  | None => (s, None)
  | Some encoded =>
      let n := Z.of_nat (length encoded) in
      if maxBytes <? n then (s, None)
      else
        let s1 := match gateDecisions s !! id with
                  | Some prior => removeGateDecisionLocked s id prior
                  | None => s
                  end in
        let s2 := evict (length (gateDecisionOrder s1)) limit maxBytes n s1 in
        let record := mkGateDecisionRecord evidence (now + gateDecisionTTL) n (Some (nextNode s2)) in
        (mkEvidenceStore (<[id := record]> (gateDecisions s2)) (gateDecisionOrder s2 ++ [(nextNode s2, id)])
           (gateDecisionBytes s2 + n) (inc64 (gateSequence s2)) (nextNode s2 + 1) (MaxDecisions s2) (MaxEvidenceBytes s2),
         Some (decision_event now decision))
  end.

(** ** Reads *)

Definition GetRequestDecision (s : EvidenceStore) (now : Time) (requestID : string)
  : EvidenceStore * option (RequestContext * RequestDecision) :=
  match gateDecisions s !! requestID with
  | None => (s, None)
  | Some value =>
      if negb (Before now (gd_expires value)) then (removeGateDecisionLocked s requestID value, None)
      else (s, Some (ge_Context (gd_evidence value), ge_Decision (gd_evidence value)))
  end.

(** One pass over the map in the order [visit]: expired records are removed, the
    others that satisfy [want] are collected in the order met. *)
Definition sweep_step (now : Time) (want : RequestGateEvidence -> bool) (acc : EvidenceStore * list RequestGateEvidence)
    (item : string * gateDecisionRecord) : EvidenceStore * list RequestGateEvidence :=
  let '(s, found) := acc in
  let '(id, record) := item in
  if negb (Before now (gd_expires record)) then (removeGateDecisionLocked s id record, found)
  else if want (gd_evidence record) then (s, found ++ [gd_evidence record])
  else (s, found).

Definition sweep (s : EvidenceStore) (now : Time) (want : RequestGateEvidence -> bool)
    (visit : list (string * gateDecisionRecord)) : EvidenceStore * list RequestGateEvidence :=
  foldl (sweep_step now want) (s, []) visit.

Definition older (a b : RequestGateEvidence) : bool := ge_Sequence a <? ge_Sequence b.
Definition newer (a b : RequestGateEvidence) : bool := ge_Sequence b <? ge_Sequence a.

Definition RequestEvidenceForSession (s : EvidenceStore) (now : Time) (visit : list (string * gateDecisionRecord))
    (sessionID : string) (limit : Z) : EvidenceStore * list RequestGateEvidence :=
  if bool_decide (sessionID = "") then (s, [])
  else
    let limit := if (limit <=? 0) || (32 <? limit) then 32 else limit in
    let '(s', found) := sweep s now (fun e => bool_decide (rq_SessionID (ge_Context e) = sessionID)) visit in
    (s', sort_by (better older) (keep_best older (Z.to_nat limit) found)).

Record EvidencePage : Type := mkEvidencePage {
  pg_Items : list RequestGateEvidence;
  pg_NextSequence : Z;
  pg_HasMore : bool;
}.

Definition ListRequestGateEvidence (s : EvidenceStore) (now : Time) (visit : list (string * gateDecisionRecord))
    (after limit : Z) : EvidenceStore * EvidencePage :=
  let limit := if (limit <=? 0) || (128 <? limit) then 128 else limit in
  let '(s', found) := sweep s now (fun e => after <? ge_Sequence e) visit in
  let items := sort_by (better newer) (keep_best newer (Z.to_nat limit) found) in
  (s', mkEvidencePage items (match last items with Some e => ge_Sequence e | None => after end)
         (bool_decide (length items < length found)%nat)).

(** ** Transport results *)

Record ProxyRequestResult : Type := mkProxyRequestResult {
  pq_EngineInstanceID : string;
  pq_ConfigGeneration : Z;
  pq_RequestID : string;
  pq_ConnectionID : string;
  pq_DecisionID : string;
  pq_HTTPStatus : Z;
  pq_ReasonCode : string;
  pq_ClientCertificateRequested : bool;
}.

Record RequestResultReceipt : Type := mkRequestResultReceipt {
  rc_RequestID : string;
  rc_DecisionID : string;
  rc_ConfigGeneration : Z;
}.

Definition ValidGateInstanceID (value : string) : bool :=
  (strlen value =? 32) &&
  all_chars (fun c => ((48 <=? code c) && (code c <=? 57)) || ((97 <=? code c) && (code c <=? 102))) value.

(** The guard on the record a result is reported for. *)
Definition result_mismatch (evidence : RequestGateEvidence) (input : ProxyRequestResult) (currentGeneration : Z) : bool :=
  negb (bool_decide (rq_ConnectionID (ge_Context evidence) = pq_ConnectionID input))
  || negb (bool_decide (rd_DecisionID (ge_Decision evidence) = pq_DecisionID input))
  || negb (rd_ConfigGeneration (ge_Decision evidence) =? pq_ConfigGeneration input)
  || negb (pq_ConfigGeneration input =? currentGeneration)
  || negb (bool_decide (rd_Verdict (ge_Decision evidence) = RequestAllow))
  || ((pq_ClientCertificateRequested input || (HasPrefix (pq_ReasonCode input) "TLS_"))
      && negb (bool_decide (rq_Scheme (ge_Context evidence) = "https")))
  || (bool_decide (pq_ReasonCode input = "TLS_UPSTREAM_MTLS_UNSUPPORTED") && negb (pq_ClientCertificateRequested input)).

Definition result_event (now : Time) (input : ProxyRequestResult) (evidence : RequestGateEvidence) : GateEvent :=
  mkGateEvent "RequestGateResult" "inspection" (pq_DecisionID input) (rd_SessionID (ge_Decision evidence)) now
    (pq_ConfigGeneration input) (pq_ReasonCode input).

(** [ReportRequestResult] after the engine checks ([service] present, context
    alive, [checkProxyRuntime]); [None] is a CodeMalformed error. *)
Definition ReportRequestResult (s : EvidenceStore) (now : Time) (currentGeneration : Z) (input : ProxyRequestResult)
  : EvidenceStore * option RequestResultReceipt * option GateEvent :=
  if negb (ValidGateInstanceID (pq_RequestID input)) || negb (ValidGateInstanceID (pq_ConnectionID input))
     || negb (ValidGateInstanceID (pq_DecisionID input))
     || negb (ValidRequestResult (pq_ReasonCode input) (pq_HTTPStatus input)) then (s, None, None)
  else match gateDecisions s !! pq_RequestID input with
  | None => (s, None, None)
  | Some record =>
      if negb (Before now (gd_expires record)) then (removeGateDecisionLocked s (pq_RequestID input) record, None, None)
      else
        let evidence := gd_evidence record in
        if result_mismatch evidence input currentGeneration then (s, None, None)
        else
          let receipt := mkRequestResultReceipt (pq_RequestID input) (pq_DecisionID input) (pq_ConfigGeneration input) in
          match ge_Forward evidence with
          | Some prior =>
              if negb (rf_HTTPStatus prior =? pq_HTTPStatus input)
                 || negb (bool_decide (rf_ReasonCode prior = pq_ReasonCode input))
                 || negb (Bool.eqb (rf_ClientCertificateRequested prior) (pq_ClientCertificateRequested input))
              then (s, None, None)
              else (s, Some receipt, None)
          | None =>
              let evidence := evidence
                <| ge_Forward := Some (mkRequestForwardResult (pq_HTTPStatus input) (pq_ReasonCode input)
                                         (pq_ClientCertificateRequested input) now) |>
                <| ge_Sequence := inc64 (gateSequence s) |> in
              match Marshal evidence with
              | None => (s, None, None)
              | Some encoded =>
                  let n := Z.of_nat (length encoded) in
                  if evidence_budget s <? n then (s, None, None)
                  else
                    match evict_other (length (gateDecisionOrder s)) (evidence_budget s) (gd_size record) n
                            (pq_RequestID input) s with
                    | (s1, false) => (s1, None, None)
                    | (s1, true) =>
                        let record' := mkGateDecisionRecord evidence (gd_expires record) n (gd_node record) in
                        (mkEvidenceStore (<[pq_RequestID input := record']> (gateDecisions s1))
                           (list_MoveToBack (gd_node record) (gateDecisionOrder s1))
                           (gateDecisionBytes s1 + (n - gd_size record)) (inc64 (gateSequence s1)) (nextNode s1)
                           (MaxDecisions s1) (MaxEvidenceBytes s1),
                         Some receipt, Some (result_event now input evidence))
                    end
              end
          end
  end.
End evidence.
