(* ===== verification/EvidenceProps.v ===== *)
(** * What the evidence store promises

    The store refines a queue of records, oldest first ([rep]): every operation
    of [GateEvidence] is an operation on that queue, the count and byte budgets
    always hold, and the paged reads are segments of it. *)

From Stdlib Require Import Ascii.
From S2P Require Import Prelude GoStr Domain Codec TopK GateEvidence.

Abbreviation entry := (string * gateDecisionRecord)%type (only parsing).

Definition zsum (q : list entry) : Z := foldr (fun p acc => gd_size p.2 + acc) 0 q.

Lemma zsum_app q1 q2 : zsum (q1 ++ q2) = zsum q1 + zsum q2.
Proof. induction q1 as [| p q1 IH]; simpl; [done|]. rewrite IH. lia. Qed.

Lemma zsum_nonneg q : Forall (fun p => 0 <= gd_size p.2) q -> 0 <= zsum q.
Proof. induction 1; simpl; lia. Qed.

Definition node_of (e : Z * string) (p : entry) : Prop := e.2 = p.1 /\ gd_node p.2 = Some e.1.

(** [s] stores the queue [q]. *)
Record rep (s : EvidenceStore) (q : list entry) : Prop := mkRep {
  rep_ids : NoDup q.*1;
  rep_map : gateDecisions s = list_to_map q;
  rep_order : Forall2 node_of (gateDecisionOrder s) q;
  rep_handles : NoDup (gateDecisionOrder s).*1;
  rep_fresh : Forall (fun e => e.1 < nextNode s) (gateDecisionOrder s);
  rep_bytes : gateDecisionBytes s = zsum q;
}.

Lemma rep_new maxDecisions maxBytes : rep (new_evidence_store maxDecisions maxBytes) [].
Proof. split; simpl; try done; constructor. Qed.

Lemma rep_lookup s q id r : rep s q -> gateDecisions s !! id = Some r <-> (id, r) ∈ q.
Proof. intros H. rewrite (rep_map _ _ H). symmetry. apply elem_of_list_to_map. apply (rep_ids _ _ H). Qed.

Lemma rep_size s q : rep s q -> size (gateDecisions s) = length q.
Proof.
  intros H. rewrite (rep_map _ _ H). pose proof (rep_ids _ _ H) as Hn. clear H. induction q as [| p q IH]; [done|].
  rewrite fmap_cons, NoDup_cons in Hn. destruct Hn as [Hp Hn]. destruct p as [id r]. simpl.
  rewrite map_size_insert_None by (by apply not_elem_of_list_to_map_1). by rewrite IH.
Qed.

Lemma filter_node_out h (o : list (Z * string)) : h ∉ o.*1 -> filter (fun e => e.1 <> h) o = o.
Proof.
  intros Hn. apply filter_all. apply Forall_forall. intros e He Heq. apply Hn. rewrite <- Heq. by apply list_elem_of_fmap_2.
Qed.

Lemma filter_node_none h (o : list (Z * string)) : h ∉ o.*1 -> filter (fun e => e.1 = h) o = [].
Proof.
  intros Hn. induction o as [| e o IH]; [done|]. rewrite fmap_cons, not_elem_of_cons in Hn. destruct Hn as [He Hn].
  rewrite filter_cons, decide_False by congruence. by apply IH.
Qed.

(** The list element of one entry of the queue. *)
Lemma rep_split s q1 id r q2 : rep s (q1 ++ (id, r) :: q2) ->
  exists o1 h o2, gateDecisionOrder s = o1 ++ (h, id) :: o2 /\ gd_node r = Some h /\
    Forall2 node_of o1 q1 /\ Forall2 node_of o2 q2 /\ h ∉ o1.*1 /\ h ∉ o2.*1.
Proof.
  intros H. pose proof (rep_order _ _ H) as Ho. apply Forall2_app_inv_r in Ho as (o1 & o2' & Ho1 & Ho2 & Eo).
  inversion Ho2 as [| [h id'] p o2 q' [Hid Hh] Ho2' E1 E2]; subst. simpl in *. subst id'.
  exists o1, h, o2. pose proof (rep_handles _ _ H) as Hn. rewrite Eo, fmap_app, fmap_cons in Hn.
  apply NoDup_app in Hn as (_ & Hd & Hn2). apply NoDup_cons in Hn2 as [Hh2 _]. simpl in Hh2.
  repeat split; try done. intros Hin. apply (Hd _ Hin). simpl. by left.
Qed.

Lemma list_to_map_middle (q1 q2 : list entry) id r :
  NoDup (q1 ++ (id, r) :: q2).*1 ->
  (list_to_map (q1 ++ (id, r) :: q2) : gmap string gateDecisionRecord) = <[id := r]> (list_to_map (q1 ++ q2)) /\
  (list_to_map (q1 ++ q2) : gmap string gateDecisionRecord) !! id = None /\ NoDup (q1 ++ q2).*1.
Proof.
  intros Hn.
  assert (Hp : q1 ++ (id, r) :: q2 ≡ₚ (id, r) :: q1 ++ q2) by solve_Permutation.
  assert (Hn' : NoDup ((id, r) :: q1 ++ q2).*1) by (by rewrite <- Hp).
  rewrite (list_to_map_proper _ _ Hn Hp). rewrite fmap_cons, NoDup_cons in Hn'. destruct Hn' as [Hid Hn'].
  split; [done|]. split; [by apply not_elem_of_list_to_map_1 | done].
Qed.

Lemma rep_remove s q1 id r q2 :
  rep s (q1 ++ (id, r) :: q2) -> rep (removeGateDecisionLocked s id r) (q1 ++ q2).
Proof.
  intros H. destruct (rep_split _ _ _ _ _ H) as (o1 & h & o2 & Eo & Hh & Ho1 & Ho2 & Hh1 & Hh2).
  destruct (list_to_map_middle _ _ _ _ (rep_ids _ _ H)) as (Hm & Hnone & Hn).
  assert (Eo' : list_Remove (gd_node r) (gateDecisionOrder s) = o1 ++ o2).
  { rewrite Hh, Eo. unfold list_Remove. rewrite filter_app, filter_cons, decide_False by (simpl; congruence).
    by rewrite !filter_node_out. }
  unfold removeGateDecisionLocked. split; simpl; rewrite ?Eo'.
  - done.
  - rewrite (rep_map _ _ H), Hm. by rewrite delete_insert_id.
  - by apply Forall2_app.
  - pose proof (rep_handles _ _ H) as Hd. rewrite Eo, fmap_app, fmap_cons in Hd. rewrite fmap_app.
    apply NoDup_app in Hd as (Hd1 & Hd2 & [_ Hd3]%NoDup_cons). apply NoDup_app. split; [done|]. split; [|done].
    intros x Hx Hx2. apply (Hd2 x Hx). by right.
  - pose proof (rep_fresh _ _ H) as Hf. rewrite Eo in Hf. rewrite Forall_app, Forall_cons in Hf. rewrite Forall_app. tauto.
  - rewrite (rep_bytes _ _ H), !zsum_app. simpl. lia.
Qed.

Lemma rep_remove_head s id r q : rep s ((id, r) :: q) -> rep (remove_id s id) q.
Proof.
  intros H. unfold remove_id. assert (E : gateDecisions s !! id = Some r) by (apply (rep_lookup _ _ _ _ H); by left).
  rewrite E. by apply (rep_remove s [] id r q).
Qed.

Lemma rep_head s p q : rep s (p :: q) -> exists h o, gateDecisionOrder s = (h, p.1) :: o.
Proof.
  intros H. destruct p as [id r]. destruct (rep_split s [] id r q H) as (o1 & h & o2 & Eo & _ & Ho1 & _).
  inversion Ho1; subst. by exists h, o2.
Qed.

(** ** Limits *)

Definition same_limits (s s' : EvidenceStore) : Prop :=
  MaxDecisions s' = MaxDecisions s /\ MaxEvidenceBytes s' = MaxEvidenceBytes s /\ gateSequence s' = gateSequence s.

Lemma remove_id_limits s id : same_limits s (remove_id s id).
Proof. unfold remove_id. by destruct (gateDecisions s !! id). Qed.

Lemma same_limits_trans s1 s2 s3 : same_limits s1 s2 -> same_limits s2 s3 -> same_limits s1 s3.
Proof. unfold same_limits. intuition congruence. Qed.

Lemma decision_limit_pos s : 1 <= decision_limit s <= defaultGateDecisions.
Proof. unfold decision_limit, defaultGateDecisions. destruct (_ || _) eqn:E; split_bool; lia. Qed.

Lemma evidence_budget_pos s : 1 <= evidence_budget s <= 67108864.
Proof. unfold evidence_budget, defaultEvidenceBytes. destruct (_ || _) eqn:E; split_bool; lia. Qed.

(** ** Eviction takes the oldest, no more than needed *)

Definition over (q : list entry) (limit maxBytes n : Z) : bool :=
  (limit <=? Z.of_nat (length q)) || (maxBytes <? zsum q + n).

Lemma over_budget_rep s q limit maxBytes n : rep s q -> over_budget s limit maxBytes n = over q limit maxBytes n.
Proof. intros H. unfold over_budget, over. by rewrite (rep_size _ _ H), (rep_bytes _ _ H). Qed.

(** The survivors of the eviction: the longest recent part that leaves room. *)
Fixpoint survivors (q : list entry) (limit maxBytes n : Z) : list entry :=
  match q with
  | [] => []
  | p :: q' => if over q limit maxBytes n then survivors q' limit maxBytes n else q
  end.

Lemma evict_rep fuel limit maxBytes n : forall s q,
  rep s q -> (length q <= fuel)%nat ->
  rep (evict fuel limit maxBytes n s) (survivors q limit maxBytes n) /\ same_limits s (evict fuel limit maxBytes n s).
Proof.
  induction fuel as [| fuel IH]; intros s q H Hf; simpl.
  - destruct q; [|simpl in Hf; lia]. pose proof (rep_order _ _ H) as Ho. inversion Ho as [E|].
    by destruct (over_budget _ _ _ _).
  - rewrite (over_budget_rep _ _ _ _ _ H). destruct q as [| [id r] q].
    { pose proof (rep_order _ _ H) as Ho. inversion Ho as [E|]. by destruct (over _ _ _ _). }
    destruct (rep_head _ _ _ H) as (h & o & Eo). rewrite Eo. simpl.
    destruct (over ((id, r) :: q) limit maxBytes n) eqn:Eov; [|done].
    destruct (IH (remove_id s id) q) as [Hr Hl]; [by eapply rep_remove_head | simpl in Hf; lia|].
    split; [done|]. eapply same_limits_trans; [apply remove_id_limits | done].
Qed.

Lemma survivors_suffix q limit maxBytes n : exists k, survivors q limit maxBytes n = drop k q.
Proof.
  induction q as [| p q [k IH]]; [by exists O|]. cbn [survivors].
  destruct (over (p :: q) limit maxBytes n); [exists (S k); by rewrite IH | by exists O].
Qed.

Lemma survivors_fit q limit maxBytes n :
  1 <= limit -> n <= maxBytes -> over (survivors q limit maxBytes n) limit maxBytes n = false.
Proof.
  intros Hl Hn. induction q as [| p q IH]; cbn [survivors].
  - unfold over. simpl. apply orb_false_iff. split; [apply Z.leb_gt | apply Z.ltb_ge]; lia.
  - destruct (over (p :: q) limit maxBytes n) eqn:E; done.
Qed.

(** An entry is evicted only when keeping it and what is newer does not fit. *)
Lemma survivors_maximal q1 p q2 limit maxBytes n :
  survivors (q1 ++ p :: q2) limit maxBytes n = q2 -> over (p :: q2) limit maxBytes n = true.
Proof.
  induction q1 as [| p1 q1 IH]; cbn [app survivors].
  - destruct (over (p :: q2) limit maxBytes n) eqn:E; [done|].
    intros Hq. exfalso. apply (f_equal length) in Hq. simpl in Hq. lia.
  - destruct (over (p1 :: q1 ++ p :: q2) limit maxBytes n); [done|].
    intros Hq. exfalso. apply (f_equal length) in Hq. simpl in Hq. rewrite length_app in Hq. simpl in Hq. lia.
Qed.

(** ** The invariant *)

Definition without (id : string) (q : list entry) : list entry := filter (fun p => p.1 <> id) q.

Definition seq_of (p : entry) : Z := ge_Sequence (gd_evidence p.2).

(** The queue is ordered by sequence number, within the count and byte budgets. *)
Record evidence_ok (s : EvidenceStore) (q : list entry) : Prop := mkEvidenceOk {
  ok_rep : rep s q;
  ok_sizes : Forall (fun p => 0 <= gd_size p.2) q;
  ok_count : Z.of_nat (length q) <= decision_limit s;
  ok_bytes : zsum q <= evidence_budget s;
  ok_sorted : StronglySorted (fun p p' => seq_of p < seq_of p') q;
  ok_seq : Forall (fun p => seq_of p <= gateSequence s) q;
  ok_seq0 : 0 <= gateSequence s;
}.

Lemma without_split s q id : rep s q ->
  match gateDecisions s !! id with
  | Some r => exists q1 q2, q = q1 ++ (id, r) :: q2 /\ without id q = q1 ++ q2
  | None => without id q = q
  end.
Proof.
  intros H. unfold without. destruct (gateDecisions s !! id) as [r|] eqn:E.
  - apply (rep_lookup _ _ _ _ H) in E as (q1 & q2 & ->)%list_elem_of_split. exists q1, q2. split; [done|].
    pose proof (rep_ids _ _ H) as Hn. rewrite fmap_app, fmap_cons in Hn. apply NoDup_app in Hn as (_ & Hd & [Hid _]%NoDup_cons).
    rewrite filter_app, filter_cons, decide_False by (simpl; congruence). f_equal; apply filter_all; apply Forall_forall.
    + intros p Hp Heq. apply (Hd p.1); [by apply list_elem_of_fmap_2 | rewrite Heq; by left].
    + intros p Hp Heq. apply Hid. simpl. rewrite <- Heq. by apply list_elem_of_fmap_2.
  - apply filter_all, Forall_forall. intros [id' r] Hp Heq. simpl in Heq. subst id'.
    apply (rep_lookup _ _ _ _ H) in Hp. congruence.
Qed.

Lemma rep_without s q id r :
  rep s q -> gateDecisions s !! id = Some r -> rep (removeGateDecisionLocked s id r) (without id q).
Proof.
  intros H E. pose proof (without_split s q id H) as Hw. rewrite E in Hw. destruct Hw as (q1 & q2 & -> & ->).
  by apply rep_remove.
Qed.

(** A part of the queue, in order. *)
Lemma sublist_zsum q q' : q' `sublist_of` q -> Forall (fun p => 0 <= gd_size p.2) q ->
  zsum q' <= zsum q /\ Forall (fun p => 0 <= gd_size p.2) q'.
Proof.
  induction 1 as [| p q' q Hs IH | p q' q Hs IH]; intros Hf; [done | |];
    apply Forall_cons in Hf as [Hp Hf]; destruct (IH Hf); simpl; (split; [lia | auto]).
Qed.

Lemma sublist_sorted {A} (R : A -> A -> Prop) (l' l : list A) : l' `sublist_of` l -> StronglySorted R l -> StronglySorted R l'.
Proof.
  induction 1 as [| p q' q Hs IH | p q' q Hs IH]; intros Hf; [done | |];
    apply StronglySorted_inv in Hf as [Hf Hp]; [|auto].
  constructor; [auto|]. apply Forall_forall. intros y Hy. rewrite Forall_forall in Hp. apply Hp.
  by eapply elem_of_sublist.
Qed.

Lemma sublist_Forall {A} (P : A -> Prop) (l' l : list A) : l' `sublist_of` l -> Forall P l -> Forall P l'.
Proof. intros Hs. rewrite !Forall_forall. intros H y Hy. apply H. by eapply elem_of_sublist. Qed.

Lemma evidence_ok_sub s q s' q' :
  evidence_ok s q -> q' `sublist_of` q -> rep s' q' -> same_limits s s' -> evidence_ok s' q'.
Proof.
  intros [Hr Hz Hc Hb Hs Hq H0] Hsub Hr' (E1 & E2 & E3).
  destruct (sublist_zsum _ _ Hsub Hz) as [Hz1 Hz2].
  split; rewrite ?E3; try done.
  - unfold decision_limit in *. rewrite E1. apply sublist_length in Hsub. lia.
  - unfold evidence_budget in *. rewrite E2. lia.
  - by eapply sublist_sorted.
  - by eapply sublist_Forall.
Qed.

Lemma sublist_filter {A} (P : A -> Prop) `{forall x, base.Decision (P x)} (l : list A) : filter P l `sublist_of` l.
Proof. induction l as [| x l IH]; [done|]. rewrite filter_cons. case_decide; by constructor. Qed.

Lemma sublist_survivors q limit maxBytes n : survivors q limit maxBytes n `sublist_of` q.
Proof. destruct (survivors_suffix q limit maxBytes n) as [k ->]. apply sublist_drop. Qed.

Lemma inc64_succ x : 0 <= x < 2 ^ 64 - 1 -> inc64 x = x + 1.
Proof. intros. unfold inc64, u64. rewrite Z.mod_small; lia. Qed.

(** Appending the record [storeGateDecision] builds. *)
Lemma rep_push s q id r :
  rep s q -> id ∉ q.*1 -> gd_node r = Some (nextNode s) ->
  rep (mkEvidenceStore (<[id := r]> (gateDecisions s)) (gateDecisionOrder s ++ [(nextNode s, id)])
         (gateDecisionBytes s + gd_size r) (inc64 (gateSequence s)) (nextNode s + 1) (MaxDecisions s) (MaxEvidenceBytes s))
      (q ++ [(id, r)]).
Proof.
  intros H Hid Hn.
  assert (Hids : NoDup (q ++ [(id, r)]).*1).
  { rewrite fmap_app, NoDup_app. split; [apply (rep_ids _ _ H)|]. split; [|apply NoDup_singleton].
    intros x Hx ->%list_elem_of_singleton. done. }
  split; simpl.
  - done.
  - destruct (list_to_map_middle q [] id r Hids) as [-> _]. rewrite app_nil_r. by rewrite (rep_map _ _ H).
  - apply Forall2_app; [apply (rep_order _ _ H)|]. by repeat constructor.
  - rewrite fmap_app, NoDup_app. split; [apply (rep_handles _ _ H)|]. split; [|apply NoDup_singleton].
    intros h Hh ->%list_elem_of_singleton. apply list_elem_of_fmap in Hh as ([h' id'] & Eh & Hin). simpl in Eh.
    pose proof (rep_fresh _ _ H) as Hf. rewrite Forall_forall in Hf. specialize (Hf _ Hin). simpl in Hf. lia.
  - rewrite Forall_app. split; [|constructor; [simpl; lia | done]].
    eapply Forall_impl; [apply (rep_fresh _ _ H)|]. simpl. intros. lia.
  - rewrite (rep_bytes _ _ H), zsum_app. simpl. lia.
Qed.

(** Annotating a record: it moves to the back with its new contents. *)
Lemma rep_touch s q1 id r q2 r' :
  rep s (q1 ++ (id, r) :: q2) -> gd_node r' = gd_node r ->
  rep (mkEvidenceStore (<[id := r']> (gateDecisions s)) (list_MoveToBack (gd_node r) (gateDecisionOrder s))
         (gateDecisionBytes s + (gd_size r' - gd_size r)) (inc64 (gateSequence s)) (nextNode s) (MaxDecisions s) (MaxEvidenceBytes s))
      ((q1 ++ q2) ++ [(id, r')]).
Proof.
  intros H Hnode. destruct (rep_split _ _ _ _ _ H) as (o1 & h & o2 & Eo & Hh & Ho1 & Ho2 & Hh1 & Hh2).
  destruct (list_to_map_middle _ _ _ _ (rep_ids _ _ H)) as (Hm & Hnone & Hn).
  assert (Eo' : list_MoveToBack (gd_node r) (gateDecisionOrder s) = (o1 ++ o2) ++ [(h, id)]).
  { rewrite Hh, Eo. unfold list_MoveToBack, list_Remove.
    rewrite !filter_app, !filter_cons. rewrite decide_False by (simpl; congruence). rewrite decide_True by done.
    by rewrite !filter_node_out, !filter_node_none by done. }
  assert (Hids : NoDup ((q1 ++ q2) ++ [(id, r')]).*1).
  { rewrite fmap_app, NoDup_app. split; [done|]. split; [|apply NoDup_singleton].
    intros x Hx ->%list_elem_of_singleton. by apply not_elem_of_list_to_map_2 in Hnone. }
  split; simpl; rewrite ?Eo'.
  - done.
  - destruct (list_to_map_middle (q1 ++ q2) [] id r' Hids) as [-> _].
    rewrite app_nil_r, (rep_map _ _ H), Hm. by rewrite insert_insert_eq.
  - apply Forall2_app; [by apply Forall2_app|]. constructor; [|constructor]. split; simpl; congruence.
  - assert (Hp : (o1 ++ o2) ++ [(h, id)] ≡ₚ o1 ++ (h, id) :: o2) by solve_Permutation.
    rewrite Hp, <- Eo. apply (rep_handles _ _ H).
  - assert (Hp : (o1 ++ o2) ++ [(h, id)] ≡ₚ o1 ++ (h, id) :: o2) by solve_Permutation.
    rewrite Hp, <- Eo. apply (rep_fresh _ _ H).
  - rewrite (rep_bytes _ _ H), !zsum_app. simpl. lia.
Qed.

(** The eviction of [ReportRequestResult] never gives up and never evicts the
    record it makes room for. *)
Lemma evict_other_rep fuel maxBytes n self r : forall s q,
  rep s q -> (self, r) ∈ q -> (length q <= fuel)%nat -> n <= maxBytes -> Forall (fun p => 0 <= gd_size p.2) q ->
  exists q', let s' := (evict_other fuel maxBytes (gd_size r) n self s).1 in
    (evict_other fuel maxBytes (gd_size r) n self s).2 = true /\ rep s' q' /\ q' `sublist_of` q /\
    (self, r) ∈ q' /\ zsum q' - gd_size r + n <= maxBytes /\ same_limits s s'.
Proof.
  induction fuel as [| fuel IH]; intros s q H Hin Hf Hn Hz.
  { destruct q; [by apply not_elem_of_nil in Hin | simpl in Hf; lia]. }
  cbn [evict_other]. destruct (maxBytes <? gateDecisionBytes s - gd_size r + n) eqn:E; split_bool.
  2:{ exists q. simpl. rewrite <- (rep_bytes _ _ H). repeat split; try done; try apply H; lia. }
  destruct q as [| [id r0] q]; [by apply not_elem_of_nil in Hin|].
  destruct (rep_split s [] id r0 q H) as (o1 & h & o & Eo & _ & Ho1 & Ho & _).
  inversion Ho1; subst o1. cbn [app] in Eo. rewrite Eo.
  pose proof (rep_ids _ _ H) as Hnd. rewrite fmap_cons, NoDup_cons in Hnd. destruct Hnd as [Hid _]. simpl in Hid.
  destruct (bool_decide (id = self)) eqn:Es; split_bool.
  - subst id.
    assert (r0 = r) as ->.
    { apply elem_of_cons in Hin as [[= ->] | Hin]; [done|]. exfalso. apply Hid.
      apply list_elem_of_fmap. by exists (self, r). }
    destruct q as [| [id2 r2] q].
    { exfalso. rewrite (rep_bytes _ _ H) in E. simpl in E. lia. }
    inversion Ho as [| [h2 id2'] p o2 q' [Hid2 Hh2] Ho2 E1 E2]; subst. simpl in Hid2. subst id2'. cbn [head].
    assert (El : gateDecisions s !! id2 = Some r2) by (apply (rep_lookup _ _ _ _ H); right; by left).
    assert (Hr2 : rep (remove_id s id2) ((self, r) :: q)).
    { unfold remove_id. rewrite El. by apply (rep_remove s [(self, r)] id2 r2 q). }
    destruct (IH (remove_id s id2) ((self, r) :: q)) as (q' & Ht & Hr & Hs & Hi & Hb & Hl); try done.
    + by left.
    + simpl in Hf |- *. lia.
    + apply Forall_cons in Hz as [Hz1 [Hz2 Hz3]%Forall_cons]. by constructor.
    + exists q'. split; [done|]. split; [done|]. split; [etrans; [exact Hs|]; do 2 constructor; done|].
      split; [done|]. split; [done|]. eapply same_limits_trans; [apply remove_id_limits | done].
  - pose proof (rep_remove_head _ _ _ _ H) as Hr2.
    destruct (IH (remove_id s id) q) as (q' & Ht & Hr & Hs & Hi & Hb & Hl); try done.
    + apply elem_of_cons in Hin as [[= -> _] | Hin]; done.
    + simpl in Hf. lia.
    + by apply Forall_cons in Hz as [_ ?].
    + exists q'. split; [done|]. split; [done|]. split; [by constructor|].
      split; [done|]. split; [done|]. eapply same_limits_trans; [apply remove_id_limits | done].
Qed.

(** ** Sweeps *)

Definition live (now : Time) (p : entry) : Prop := Before now (gd_expires p.2) = true.

#[export] Instance live_dec now p : base.Decision (live now p).
Proof. unfold live. apply _. Defined.

Definition evidence_of (p : entry) : RequestGateEvidence := gd_evidence p.2.

Lemma filter_ext_elem {A} (P Q : A -> Prop) `{forall x, base.Decision (P x), forall x, base.Decision (Q x)} (l : list A) :
  (forall x, x ∈ l -> P x <-> Q x) -> filter P l = filter Q l.
Proof.
  induction l as [| x l IH]; intros H'; [done|]. rewrite !filter_cons.
  rewrite IH by (intros; apply H'; by right). pose proof (H' x ltac:(by left)).
  destruct (decide (P x)), (decide (Q x)); tauto.
Qed.

Lemma rep_entry_unique s q id r p : rep s q -> (id, r) ∈ q -> p ∈ q -> p.1 = id -> p = (id, r).
Proof.
  intros H H1 H2 E. destruct p as [id' r']. simpl in E. subst id'.
  apply (rep_lookup _ _ _ _ H) in H1. apply (rep_lookup _ _ _ _ H) in H2. congruence.
Qed.

Lemma sweep_rep now want visit : forall s q found,
  rep s q -> NoDup visit.*1 -> (forall p, p ∈ visit -> p ∈ q) ->
  let '(s', found') := foldl (sweep_step now want) (s, found) visit in
  rep s' (filter (fun p => live now p \/ p.1 ∉ visit.*1) q) /\ same_limits s s' /\
  found' = found ++ (evidence_of <$> filter (fun p => live now p /\ want (evidence_of p) = true) visit).
Proof.
  induction visit as [| [id r] visit IH]; intros s q found H Hn Hin; simpl.
  - rewrite app_nil_r. split; [|done]. rewrite filter_all; [done|]. apply Forall_forall. intros. right. apply not_elem_of_nil.
  - rewrite fmap_cons, NoDup_cons in Hn. destruct Hn as [Hid Hn]. simpl in Hid.
    assert (Hq : (id, r) ∈ q) by (apply Hin; by left).
    destruct (Before now (gd_expires r)) eqn:Eb; simpl.
    + rewrite filter_cons.
      rewrite (filter_ext_elem _ (fun p : entry => live now p \/ p.1 ∉ visit.*1) q).
      2:{ intros p Hp. rewrite not_elem_of_cons. split; [tauto|].
          intros [Hl | Hp']; [by left|]. destruct (decide (p.1 = id)) as [E|E]; [left | right; tauto].
          by rewrite (rep_entry_unique _ _ _ _ _ H Hq Hp E). }
      specialize (IH s q).
      destruct (want (gd_evidence r)) eqn:Ew.
      * specialize (IH (found ++ [gd_evidence r]) H Hn ltac:(intros; apply Hin; by right)).
        destruct (foldl _ _ visit) as [s' found']. destruct IH as (H1 & H2 & ->). split; [done|]. split; [done|].
        rewrite decide_True by done. by rewrite <- app_assoc.
      * specialize (IH found H Hn ltac:(intros; apply Hin; by right)).
        destruct (foldl _ _ visit) as [s' found']. destruct IH as (H1 & H2 & ->). split; [done|]. split; [done|].
        rewrite decide_False; [done|]. intros [_ Hw]. unfold evidence_of in Hw. simpl in Hw. congruence.
    + assert (El : gateDecisions s !! id = Some r) by (by apply (rep_lookup _ _ _ _ H)).
      specialize (IH (removeGateDecisionLocked s id r) (without id q) found (rep_without _ _ _ _ H El) Hn).
      rewrite filter_cons, decide_False by (intros [Hl _]; unfold live in Hl; simpl in Hl; congruence).
      destruct (foldl _ _ visit) as [s' found']. destruct IH as (H1 & H2 & ->).
      { intros p Hp. apply list_elem_of_filter. split; [| apply Hin; by right].
        intros E. apply Hid. rewrite <- E. by apply list_elem_of_fmap_2. }
      split; [|split; [|done]]; [|by eapply same_limits_trans; [|exact H2]].
      unfold without in H1. rewrite list_filter_filter in H1.
      rewrite (filter_ext_elem _ (fun p => (live now p \/ p.1 ∉ visit.*1) /\ p.1 <> id)); [done|].
      intros p Hp. rewrite not_elem_of_cons. split; [|tauto]. intros [Hl | Hp']; [|tauto].
      split; [by left|]. intros E. rewrite (rep_entry_unique _ _ _ _ _ H Hq Hp E) in Hl.
      unfold live in Hl. simpl in Hl. congruence.
Qed.

(** A full pass over the map. *)
Lemma sweep_ok s q now want visit :
  evidence_ok s q -> visit ≡ₚ map_to_list (gateDecisions s) ->
  let '(s', found) := sweep s now want visit in
  evidence_ok s' (filter (live now) q) /\ gateSequence s' = gateSequence s /\
  found ≡ₚ evidence_of <$> filter (fun p => live now p /\ want (evidence_of p) = true) q.
Proof.
  intros Hok Hv. pose proof (ok_rep _ _ Hok) as H.
  assert (Hvq : visit ≡ₚ q).
  { rewrite Hv, (rep_map _ _ H). apply map_to_list_to_map, (rep_ids _ _ H). }
  pose proof (sweep_rep now want visit s q [] H) as Hs. unfold sweep.
  destruct (foldl _ _ visit) as [s' found]. destruct Hs as (H1 & H2 & ->).
  { rewrite Hvq. apply (rep_ids _ _ H). }
  { intros p. by rewrite Hvq. }
  rewrite (filter_ext_elem _ (live now)) in H1.
  2:{ intros p Hp. rewrite Hvq. split; [|by left]. intros [? | Hn]; [done|]. exfalso. apply Hn. by apply list_elem_of_fmap_2. }
  split; [|split; [apply H2 | by rewrite Hvq]].
  eapply evidence_ok_sub; [done | apply sublist_filter | done | done].
Qed.

Section claims.
Context {JE : JSON RequestGateEvidence}.

(** The record a decision becomes. *)
Definition stored_record (s : EvidenceStore) (now : Time) (node : Z) (context : RequestContext)
    (inspection : RequestInspectionResult) (decision : RequestDecision) (n : Z) : gateDecisionRecord :=
  mkGateDecisionRecord (bounded_evidence now context inspection decision (inc64 (gateSequence s)))
    (now + gateDecisionTTL) n (Some node).

Lemma storeGateDecision_queue s q now context inspection decision encoded :
  evidence_ok s q -> gateSequence s < 2 ^ 64 - 1 ->
  Marshal (bounded_evidence now context inspection decision (inc64 (gateSequence s))) = Some encoded ->
  Z.of_nat (length encoded) <= evidence_budget s ->
  exists node,
    let n := Z.of_nat (length encoded) in
    let kept := survivors (without (rq_RequestID context) q) (decision_limit s) (evidence_budget s) n in
    evidence_ok (storeGateDecision s now context inspection decision).1
      (kept ++ [(rq_RequestID context, stored_record s now node context inspection decision n)]) /\
    (storeGateDecision s now context inspection decision).2 = Some (decision_event now decision) /\
    gateSequence (storeGateDecision s now context inspection decision).1 = gateSequence s + 1.
Proof.
  intros Hok Hseq Hm Hn. unfold storeGateDecision. rewrite Hm. cbv zeta.
  set (n := Z.of_nat (length encoded)) in *. set (id := rq_RequestID context).
  destruct (evidence_budget s <? n) eqn:Eb; split_bool; [lia|].
  set (s1 := match gateDecisions s !! id with Some prior => removeGateDecisionLocked s id prior | None => s end).
  assert (H1 : rep s1 (without id q) /\ same_limits s s1).
  { pose proof (without_split s q id (ok_rep _ _ Hok)) as Hw. unfold s1.
    destruct (gateDecisions s !! id) as [r|] eqn:E; [split; [apply rep_without; [apply Hok | done] | done]|].
    rewrite Hw. split; [apply Hok | done]. }
  destruct H1 as [H1 Hl1].
  assert (Hlen : (length (without id q) <= length (gateDecisionOrder s1))%nat).
  { by rewrite (Forall2_length _ _ _ (rep_order _ _ H1)). }
  destruct (evict_rep _ (decision_limit s) (evidence_budget s) n s1 _ H1 Hlen) as [H2 Hl2].
  set (s2 := evict _ _ _ _ s1) in *. set (kept := survivors _ _ _ n) in *.
  assert (Hsub : kept `sublist_of` q).
  { etrans; [apply sublist_survivors | apply sublist_filter]. }
  pose proof (same_limits_trans _ _ _ Hl1 Hl2) as Hl.
  pose proof (evidence_ok_sub s q s2 kept Hok Hsub H2 Hl) as Hok2. destruct Hl as (E1 & E2 & E3).
  assert (Hid : id ∉ kept.*1).
  { intros ([id' r] & E & Hin)%list_elem_of_fmap. simpl in E. subst id'.
    eapply elem_of_sublist in Hin; [|apply sublist_survivors]. by apply list_elem_of_filter in Hin as [? _]. }
  exists (nextNode s2). split; [|split; [done | simpl; rewrite E3; apply inc64_succ; pose proof (ok_seq0 _ _ Hok); lia]].
  pose proof (survivors_fit (without id q) (decision_limit s) (evidence_budget s) n
    ltac:(pose proof (decision_limit_pos s); lia) Hn) as Hfit. fold kept in Hfit.
  unfold over in Hfit. apply orb_false_iff in Hfit as [Hf1 Hf2]. split_bool.
  assert (Hsq : inc64 (gateSequence s) = gateSequence s + 1) by (apply inc64_succ; pose proof (ok_seq0 _ _ Hok); lia).
  split.
  - apply (rep_push s2 kept id (stored_record s now (nextNode s2) context inspection decision n)); done.
  - apply Forall_app. split; [apply Hok2 | constructor; [simpl; lia | done]].
  - change (decision_limit _) with (decision_limit s2). unfold decision_limit in *. rewrite E1.
    rewrite length_app. simpl. lia.
  - change (evidence_budget _) with (evidence_budget s2). unfold evidence_budget in *. rewrite E2.
    rewrite zsum_app. simpl. lia.
  - apply StronglySorted_app_2; [| apply Hok2 | repeat constructor].
    intros p p' Hp ->%list_elem_of_singleton. unfold seq_of at 2. simpl.
    unfold bounded_evidence. destruct (truncateEvidenceText _ _). simpl. rewrite Hsq.
    pose proof (ok_seq _ _ Hok2) as Hs. rewrite Forall_forall in Hs. specialize (Hs _ Hp). rewrite E3 in Hs. lia.
  - simpl. rewrite E3, Hsq. apply Forall_app. split.
    + eapply Forall_impl; [apply (ok_seq _ _ Hok2)|]. rewrite E3. simpl. intros. lia.
    + constructor; [|done]. unfold seq_of. simpl. unfold bounded_evidence. destruct (truncateEvidenceText _ _). simpl. lia.
  - simpl. rewrite E3, Hsq. pose proof (ok_seq0 _ _ Hok). lia.
Qed.
(** Storing a decision is a push on a bounded queue: a record that does not
    encode or that alone exceeds the byte budget changes nothing and publishes
    nothing; otherwise the previous record of the same request is replaced, the
    oldest records are dropped, and only as many as needed (keeping one more
    would break the count or the byte budget), the new record becomes the newest
    with the next sequence number, and both budgets hold afterwards. *)
Theorem storeGateDecision_refines (s : EvidenceStore) (q : list entry) (now : Time) (context : RequestContext)
    (inspection : RequestInspectionResult) (decision : RequestDecision) :
  evidence_ok s q -> gateSequence s < 2 ^ 64 - 1 ->
  let '(s', event) := storeGateDecision s now context inspection decision in
  match Marshal (bounded_evidence now context inspection decision (inc64 (gateSequence s))) with
  | None => s' = s /\ event = None
  | Some encoded =>
      let n := Z.of_nat (length encoded) in
      if evidence_budget s <? n then s' = s /\ event = None
      else exists k node,
        let kept := drop k (without (rq_RequestID context) q) in
        evidence_ok s' (kept ++ [(rq_RequestID context, stored_record s now node context inspection decision n)]) /\
        (forall q1 p, without (rq_RequestID context) q = q1 ++ p :: kept ->
           over (p :: kept) (decision_limit s) (evidence_budget s) n = true) /\
        event = Some (decision_event now decision) /\ gateSequence s' = gateSequence s + 1
  end.
Proof.
  intros Hok Hseq. destruct (storeGateDecision s now context inspection decision) as [s' event] eqn:E.
  destruct (Marshal _) as [encoded|] eqn:Em.
  2:{ unfold storeGateDecision in E. rewrite Em in E. by simplify_eq. }
  cbv zeta. destruct (evidence_budget s <? _) eqn:Eb.
  { unfold storeGateDecision in E. rewrite Em, Eb in E. by simplify_eq. }
  split_bool. destruct (storeGateDecision_queue s q now context inspection decision encoded Hok Hseq Em Eb)
    as (node & H1 & H2 & H3). rewrite E in *. cbn [fst snd] in *.
  destruct (survivors_suffix (without (rq_RequestID context) q) (decision_limit s) (evidence_budget s)
    (Z.of_nat (length encoded))) as [k Hk].
  exists k, node. rewrite <- Hk. split; [done|]. split; [|done].
  intros q1 p Hq. apply (survivors_maximal q1). by rewrite <- Hq.
Qed.

Lemma GetRequestDecision_ok s q now id :
  evidence_ok s q -> exists q', evidence_ok (GetRequestDecision s now id).1 q' /\
                                gateSequence (GetRequestDecision s now id).1 = gateSequence s.
Proof.
  intros Hok. unfold GetRequestDecision. destruct (gateDecisions s !! id) as [r|] eqn:E; [|by exists q].
  destruct (negb _); [|by exists q]. exists (without id q). split; [|done].
  eapply evidence_ok_sub; [done | apply sublist_filter | apply rep_without; [apply Hok | done] | done].
Qed.

(** The state after a successful annotation. *)
Lemma annotate_ok s q id r n evidence :
  evidence_ok s q -> gateSequence s < 2 ^ 64 - 1 -> gateDecisions s !! id = Some r ->
  n <= evidence_budget s -> 0 <= n -> ge_Sequence evidence = inc64 (gateSequence s) ->
  let '(s1, fits) := evict_other (length (gateDecisionOrder s)) (evidence_budget s) (gd_size r) n id s in
  let r' := mkGateDecisionRecord evidence (gd_expires r) n (gd_node r) in
  let s' := mkEvidenceStore (<[id := r']> (gateDecisions s1)) (list_MoveToBack (gd_node r) (gateDecisionOrder s1))
              (gateDecisionBytes s1 + (n - gd_size r)) (inc64 (gateSequence s1)) (nextNode s1)
              (MaxDecisions s1) (MaxEvidenceBytes s1) in
  fits = true /\ (exists q', evidence_ok s' q') /\ gateSequence s' = gateSequence s + 1.
Proof.
  intros Hok Hseq El Hn Hn0 Hev. pose proof (ok_rep _ _ Hok) as H.
  assert (Hin : (id, r) ∈ q) by (by apply (rep_lookup _ _ _ _ H)).
  destruct (evict_other_rep (length (gateDecisionOrder s)) (evidence_budget s) n id r s q H Hin) as (q' & Hq');
    [by rewrite (Forall2_length _ _ _ (rep_order _ _ H)) | done | apply Hok |].
  destruct (evict_other _ _ _ _ _ s) as [s1 fits] eqn:E. cbn [fst snd] in Hq'.
  destruct Hq' as (-> & H1 & Hsub & Hin' & Hz & Hl). pose proof Hl as (E1 & E2 & E3).
  assert (Hsq : inc64 (gateSequence s) = gateSequence s + 1) by (apply inc64_succ; pose proof (ok_seq0 _ _ Hok); lia).
  split; [done|]. split; [|cbn [gateSequence]; by rewrite E3].
  pose proof (evidence_ok_sub _ _ _ _ Hok Hsub H1 Hl) as Hok1.
  apply list_elem_of_split in Hin' as (q1 & q2 & ->).
  set (r' := mkGateDecisionRecord evidence (gd_expires r) n (gd_node r)).
  exists ((q1 ++ q2) ++ [(id, r')]).
  assert (Hsub2 : q1 ++ q2 `sublist_of` q1 ++ (id, r) :: q2) by (apply sublist_app; [done | by constructor]).
  pose proof (ok_seq _ _ Hok1) as Hs. apply (sublist_Forall _ _ _ Hsub2) in Hs. rewrite E3 in Hs.
  split.
  - exact (rep_touch s1 q1 id r q2 r' H1 eq_refl).
  - apply Forall_app. split; [|constructor; [simpl; lia | done]].
    apply (sublist_zsum _ _ Hsub2), (ok_sizes _ _ Hok1).
  - change (decision_limit _) with (decision_limit s1). pose proof (ok_count _ _ Hok1) as Hc.
    rewrite !length_app in *. simpl in *. lia.
  - change (evidence_budget _) with (evidence_budget s1). unfold evidence_budget in *. rewrite E2.
    rewrite !zsum_app in *. simpl in *. lia.
  - apply StronglySorted_app_2; [| eapply sublist_sorted; [exact Hsub2 | apply Hok1] | repeat constructor].
    intros p p' Hp ->%list_elem_of_singleton. unfold seq_of at 2. simpl. rewrite Hev, Hsq.
    rewrite Forall_forall in Hs. specialize (Hs _ Hp). simpl in Hs. lia.
  - cbn [gateSequence]. rewrite E3, Hsq. apply Forall_app. split.
    + eapply Forall_impl; [exact Hs|]. simpl. intros. lia.
    + constructor; [|done]. unfold seq_of. simpl. rewrite Hev, Hsq. lia.
  - cbn [gateSequence]. rewrite E3, Hsq. pose proof (ok_seq0 _ _ Hok). lia.
Qed.

Lemma ReportRequestResult_ok s q now generation input :
  evidence_ok s q -> gateSequence s < 2 ^ 64 - 1 ->
  let s' := (ReportRequestResult s now generation input).1.1 in
  exists q', evidence_ok s' q' /\ gateSequence s <= gateSequence s' <= gateSequence s + 1.
Proof.
  intros Hok Hseq. unfold ReportRequestResult. destruct (_ || _); [exists q; split; [done | simpl; lia]|].
  destruct (gateDecisions s !! pq_RequestID input) as [r|] eqn:El; [|exists q; split; [done | simpl; lia]].
  destruct (negb _).
  { exists (without (pq_RequestID input) q). split; [|simpl; lia].
    eapply evidence_ok_sub; [done | apply sublist_filter | apply rep_without; [apply Hok | done] | done]. }
  destruct (result_mismatch _ _ _); [exists q; split; [done | simpl; lia]|].
  destruct (ge_Forward _) as [prior|].
  { destruct (_ || _); (exists q; split; [done | simpl; lia]). }
  set (evidence := field_upd _ _).
  destruct (Marshal evidence) as [encoded|]; [|exists q; split; [done | simpl; lia]].
  destruct (evidence_budget s <? _) eqn:Eb; split_bool; [exists q; split; [done | simpl; lia]|].
  pose proof (annotate_ok s q (pq_RequestID input) r (Z.of_nat (length encoded)) evidence Hok Hseq El Eb
    ltac:(lia) eq_refl) as Ha.
  destruct (evict_other _ _ _ _ _ s) as [s1 fits]. destruct Ha as (-> & [q' Hq'] & Hs).
  exists q'. split; [exact Hq' |]. cbn [fst]. rewrite Hs. lia.
Qed.

(** ** Reachable stores *)

Inductive evidence_step : EvidenceStore -> EvidenceStore -> Prop :=
| step_store s now context inspection decision :
    evidence_step s (storeGateDecision s now context inspection decision).1
| step_get s now id : evidence_step s (GetRequestDecision s now id).1
| step_report s now generation input : evidence_step s (ReportRequestResult s now generation input).1.1
| step_session s now visit sessionID limit :
    visit ≡ₚ map_to_list (gateDecisions s) -> evidence_step s (RequestEvidenceForSession s now visit sessionID limit).1
| step_list s now visit after limit :
    visit ≡ₚ map_to_list (gateDecisions s) -> evidence_step s (ListRequestGateEvidence s now visit after limit).1.

Lemma evidence_step_ok s q s' :
  evidence_ok s q -> gateSequence s < 2 ^ 64 - 1 -> evidence_step s s' ->
  exists q', evidence_ok s' q' /\ gateSequence s <= gateSequence s' <= gateSequence s + 1.
Proof.
  intros Hok Hseq. destruct 1 as [s now context inspection decision | s now id | s now generation input
    | s now visit sessionID limit Hv | s now visit after limit Hv].
  - destruct (Marshal (bounded_evidence now context inspection decision (inc64 (gateSequence s)))) as [encoded|] eqn:Em.
    2:{ unfold storeGateDecision. rewrite Em. exists q. split; [done | simpl; lia]. }
    destruct (evidence_budget s <? Z.of_nat (length encoded)) eqn:Eb.
    { unfold storeGateDecision. rewrite Em, Eb. exists q. split; [done | simpl; lia]. }
    split_bool. destruct (storeGateDecision_queue s q now context inspection decision encoded Hok Hseq Em Eb)
      as (node & H1 & _ & H3). eexists. split; [exact H1 | lia].
  - destruct (GetRequestDecision_ok s q now id Hok) as (q' & H1 & H2). exists q'. split; [done | lia].
  - by apply (ReportRequestResult_ok s q).
  - unfold RequestEvidenceForSession. destruct (bool_decide (sessionID = "")); [exists q; split; [done | simpl; lia]|].
    pose proof (sweep_ok s q now (fun e => bool_decide (rq_SessionID (ge_Context e) = sessionID)) visit Hok Hv) as Hs.
    destruct (sweep _ _ _ _) as [s1 found]. destruct Hs as (H1 & H2 & _). eexists. split; [exact H1 | simpl; lia].
  - unfold ListRequestGateEvidence.
    pose proof (sweep_ok s q now (fun e => after <? ge_Sequence e) visit Hok Hv) as Hs.
    destruct (sweep _ _ _ _) as [s1 found]. destruct Hs as (H1 & H2 & _). eexists. split; [exact H1 | simpl; lia].
Qed.

Inductive evidence_steps : nat -> EvidenceStore -> EvidenceStore -> Prop :=
| evidence_steps_0 s : evidence_steps 0 s s
| evidence_steps_S n s1 s2 s3 : evidence_step s1 s2 -> evidence_steps n s2 s3 -> evidence_steps (S n) s1 s3.

Lemma evidence_steps_ok n s s' : evidence_steps n s s' -> forall q,
  evidence_ok s q -> gateSequence s + Z.of_nat n < 2 ^ 64 -> exists q', evidence_ok s' q'.
Proof.
  induction 1 as [s | n s1 s2 s3 Hstep Hsteps IH]; intros q Hok Hn; [by exists q|].
  destruct (evidence_step_ok s1 q s2 Hok ltac:(lia) Hstep) as (q2 & Hok2 & Hs). apply (IH q2 Hok2). lia.
Qed.

Lemma evidence_ok_new maxDecisions maxBytes : evidence_ok (new_evidence_store maxDecisions maxBytes) [].
Proof.
  set (s := new_evidence_store maxDecisions maxBytes). pose proof (decision_limit_pos s). pose proof (evidence_budget_pos s).
  split; simpl; try constructor; try lia; try done; try apply rep_new. all: constructor.
Qed.

(** The evidence store stays within its budgets for ever: after any sequence
    of fewer than 2^64 operations on a new store, with any clock readings, any
    map iteration orders and any configured limits, the map, the order list and
    the byte counter describe one queue ordered by sequence number, the number
    of records is at most the effective limit (at most 10000) and the counted
    bytes, which are exactly the sizes of the records held, are at most the
    effective budget (at most 64 MiB). *)
Theorem evidence_store_bounded (maxDecisions maxBytes : Z) (n : nat) (s : EvidenceStore) :
  Z.of_nat n < 2 ^ 64 -> evidence_steps n (new_evidence_store maxDecisions maxBytes) s ->
  exists q, evidence_ok s q /\
    Z.of_nat (size (gateDecisions s)) <= decision_limit s <= 10000 /\
    gateDecisionBytes s = zsum q /\ zsum q <= evidence_budget s <= 67108864.
Proof.
  intros Hn Hsteps.
  destruct (evidence_steps_ok _ _ _ Hsteps [] (evidence_ok_new _ _)) as [q Hok]; [simpl; lia|].
  exists q. split; [done|]. rewrite (rep_size _ _ (ok_rep _ _ Hok)).
  pose proof (decision_limit_pos s). pose proof (evidence_budget_pos s). unfold defaultGateDecisions in *.
  split; [split; [apply Hok | lia]|]. split; [apply (rep_bytes _ _ (ok_rep _ _ Hok))|]. split; [apply Hok | lia].
Qed.
End claims.

(** * Reading the evidence *)

Lemma newer_irrefl x : newer x x = false.
Proof. apply Z.ltb_irrefl. Qed.

Lemma newer_trans x y z : newer x y = true -> newer y z = true -> newer x z = true.
Proof. unfold newer. rewrite !Z.ltb_lt. lia. Qed.

Lemma older_irrefl x : older x x = false.
Proof. apply Z.ltb_irrefl. Qed.

Lemma older_trans x y z : older x y = true -> older y z = true -> older x z = true.
Proof. unfold older. rewrite !Z.ltb_lt. lia. Qed.

(** A selection of the queue is sorted by sequence number. *)
Lemma selection_sorted s q (P : entry -> Prop) `{forall p, base.Decision (P p)} :
  evidence_ok s q -> strict_sorted newer (evidence_of <$> filter P q).
Proof.
  intros Hok. unfold strict_sorted, better, newer.
  pose proof (sublist_sorted _ _ _ (sublist_filter P q) (ok_sorted _ _ Hok)) as Hs. revert Hs.
  generalize (filter P q). induction 1 as [| p l Hs IH Hp]; simpl; constructor; [done|].
  apply Forall_fmap. eapply Forall_impl; [exact Hp|]. simpl. intros p' Hp'. by apply Z.ltb_lt.
Qed.

Lemma StronglySorted_reverse {A} (R : A -> A -> Prop) (l : list A) :
  StronglySorted R l -> StronglySorted (fun x y => R y x) (reverse l).
Proof.
  induction 1 as [| x l Hs IH Hx]; [constructor|]. rewrite reverse_cons.
  apply StronglySorted_app_2; [| done | repeat constructor].
  intros y z Hy ->%list_elem_of_singleton. rewrite elem_of_reverse in Hy. rewrite Forall_forall in Hx. auto.
Qed.

(** The cursor splits a sorted selection. *)
Lemma cursor_split (l : list entry) (k : nat) (p : entry) (after : Z) :
  StronglySorted (fun p p' => seq_of p < seq_of p') l ->
  Forall (fun p => after < seq_of p) l -> last (take k l) = Some p ->
  filter (fun p' => seq_of p < seq_of p') l = drop k l.
Proof.
  intros Hs Ha Hl. rewrite <- (take_drop k l) at 1. rewrite <- (take_drop k l) in Hs.
  apply last_Some in Hl as [l' Hl]. rewrite filter_app.
  assert (Hnone : filter (fun p' => seq_of p < seq_of p') (take k l) = []).
  { rewrite Hl in *. apply StronglySorted_app_1_l in Hs. rewrite filter_app.
    rewrite (filter_cons _ p), decide_False by lia.
    assert (Hl' : Forall (fun p' => seq_of p' < seq_of p) l').
    { apply Forall_forall. intros y Hy. apply (StronglySorted_app_1_elem_of _ l' [p] y p Hs Hy). by apply list_elem_of_singleton. }
    clear -Hl'. induction Hl' as [| y l' Hy Hl' IH]; [done|]. cbn [app]. rewrite filter_cons, decide_False by lia. done. }
  rewrite Hnone. apply filter_all, Forall_forall. intros y Hy.
  apply (StronglySorted_app_1_elem_of _ (take k l) (drop k l) p y Hs); [|done].
  rewrite Hl. apply elem_of_app. right. by apply list_elem_of_singleton.
Qed.

Section reads.
Context {JE : JSON RequestGateEvidence}.

(** Paging through the evidence misses nothing and repeats nothing: whatever
    order the map is visited in, the page is the oldest [limit] live records
    after the cursor, oldest first; [has_more] says whether the limit cut any
    off; and the records after the returned cursor are exactly the rest. The
    call drops the expired records and keeps the store's invariant. *)
Theorem ListRequestGateEvidence_page (s : EvidenceStore) (q : list entry) (now : Time)
    (visit : list entry) (after limit : Z) :
  evidence_ok s q -> visit ≡ₚ map_to_list (gateDecisions s) -> 1 <= limit <= 128 ->
  let '(s', page) := ListRequestGateEvidence s now visit after limit in
  let selection c := evidence_of <$> filter (fun p => live now p /\ c < seq_of p) q in
  pg_Items page = take (Z.to_nat limit) (selection after) /\
  pg_HasMore page = bool_decide (limit < Z.of_nat (length (selection after))) /\
  selection (pg_NextSequence page) = drop (Z.to_nat limit) (selection after) /\
  evidence_ok s' (filter (live now) q).
Proof using.
  intros Hok Hv Hl. unfold ListRequestGateEvidence.
  pose proof (sweep_ok s q now (fun e => after <? ge_Sequence e) visit Hok Hv) as Hs.
  destruct (sweep _ _ _ _) as [s1 found]. destruct Hs as (H1 & _ & Hf).
  assert (El : (if (limit <=? 0) || (128 <? limit) then 128 else limit) = limit).
  { destruct (_ || _) eqn:E; [|done]. apply orb_true_iff in E as [E|E]; split_bool; lia. }
  rewrite El. cbv zeta.
  rewrite (filter_ext_elem _ (fun p => live now p /\ after < seq_of p)) in Hf.
  2:{ intros p _. unfold seq_of, evidence_of. by rewrite Z.ltb_lt. }
  set (sel := filter (fun p => live now p /\ after < seq_of p) q) in *.
  pose proof (keep_best_sorted newer newer_irrefl newer_trans (Z.to_nat limit) found (evidence_of <$> sel)
    ltac:(lia) (selection_sorted s q _ Hok) Hf) as Hk.
  assert (Hlen : length found = length sel) by (rewrite Hf, length_fmap; done).
  rewrite Hk. cbn [pg_Items pg_HasMore pg_NextSequence]. split; [done|]. split; [|split; [|done]].
  - apply bool_decide_ext. rewrite length_take, length_fmap, Hlen. lia.
  - rewrite <- fmap_take, <- fmap_drop, fmap_last. destruct (last (take (Z.to_nat limit) sel)) as [p|] eqn:Elast; simpl.
    + f_equal. change (ge_Sequence (evidence_of p)) with (seq_of p).
      assert (Hp : after < seq_of p).
      { assert (Hin : p ∈ sel) by (eapply elem_of_sublist; [apply last_Some_elem_of, Elast | apply sublist_take]).
        apply list_elem_of_filter in Hin. tauto. }
      rewrite <- (cursor_split sel (Z.to_nat limit) p after); [| | | done].
      * unfold sel. rewrite list_filter_filter. apply filter_ext_elem. intros p' _. split; [|tauto].
        intros [? ?]. repeat split; try done. lia.
      * eapply sublist_sorted; [apply sublist_filter | apply Hok].
      * apply Forall_forall. intros p' Hp'. apply list_elem_of_filter in Hp'. tauto.
    + apply last_None in Elast. fold sel.
      assert (E0 : sel = []) by (destruct sel as [| p sel']; [done|]; destruct (Z.to_nat limit) eqn:E0; [lia | done]).
      rewrite E0. by rewrite drop_nil.
Qed.

(** The evidence shown for a session is its newest live records, newest
    first, at most [limit] (at most 32) of them, whatever order the map is
    visited in. *)
Theorem RequestEvidenceForSession_newest (s : EvidenceStore) (q : list entry) (now : Time)
    (visit : list entry) (sessionID : string) (limit : Z) :
  evidence_ok s q -> visit ≡ₚ map_to_list (gateDecisions s) -> sessionID <> "" ->
  let bound := if (limit <=? 0) || (32 <? limit) then 32 else limit in
  (RequestEvidenceForSession s now visit sessionID limit).2
  = take (Z.to_nat bound)
      (reverse (evidence_of <$> filter (fun p => live now p /\ rq_SessionID (ge_Context (evidence_of p)) = sessionID) q)).
Proof using.
  intros Hok Hv Hid bound. unfold RequestEvidenceForSession. rewrite bool_decide_eq_false_2 by done. fold bound.
  assert (Hb : 1 <= bound) by (unfold bound; destruct (_ || _) eqn:E; split_bool; lia).
  pose proof (sweep_ok s q now (fun e => bool_decide (rq_SessionID (ge_Context e) = sessionID)) visit Hok Hv) as Hs.
  destruct (sweep _ _ _ _) as [s1 found]. destruct Hs as (_ & _ & Hf). cbv zeta. cbn [snd].
  rewrite (filter_ext_elem _ (fun p => live now p /\ rq_SessionID (ge_Context (evidence_of p)) = sessionID)) in Hf
    by (intros p _; by rewrite bool_decide_eq_true).
  apply (keep_best_sorted older older_irrefl older_trans); [lia | | by rewrite reverse_Permutation].
  exact (StronglySorted_reverse _ _ (selection_sorted s q _ Hok)).
Qed.

(** ** Reported results *)

(** What a report leaves of the record: the decision, the request and the
    expiry are those it had. *)
Definition annotates (r r' : gateDecisionRecord) (input : ProxyRequestResult) : Prop :=
  ge_Decision (gd_evidence r') = ge_Decision (gd_evidence r) /\
  ge_Context (gd_evidence r') = ge_Context (gd_evidence r) /\
  gd_expires r' = gd_expires r /\
  exists f, ge_Forward (gd_evidence r') = Some f /\ rf_HTTPStatus f = pq_HTTPStatus input /\
            rf_ReasonCode f = pq_ReasonCode input /\ rf_ClientCertificateRequested f = pq_ClientCertificateRequested input.

Lemma ReportRequestResult_record s now generation input receipt :
  (ReportRequestResult s now generation input).1.2 = Some receipt ->
  receipt = mkRequestResultReceipt (pq_RequestID input) (pq_DecisionID input) (pq_ConfigGeneration input) /\
  exists r r', gateDecisions s !! pq_RequestID input = Some r /\ Before now (gd_expires r) = true /\
    result_mismatch (gd_evidence r) input generation = false /\
    gateDecisions (ReportRequestResult s now generation input).1.1 !! pq_RequestID input = Some r' /\
    annotates r r' input.
Proof using.
  unfold ReportRequestResult. destruct (_ || _); [done|].
  destruct (gateDecisions s !! pq_RequestID input) as [r|] eqn:El; [|done].
  destruct (Before now (gd_expires r)) eqn:Eb; cbn [negb]; [|done].
  destruct (result_mismatch _ _ _) eqn:Em; [done|].
  destruct (ge_Forward (gd_evidence r)) as [prior|] eqn:Ef.
  - destruct (_ || _) eqn:Ep; [done|]. cbn [fst snd]. intros [= <-]. split; [done|]. exists r, r.
    apply orb_false_iff in Ep as [Ep E3]. apply orb_false_iff in Ep as [E1 E2].
    apply negb_false_iff, eqb_prop in E3. split_bool. repeat split; try done. exists prior. by rewrite Ef.
  - set (evidence := field_upd _ _). destruct (Marshal evidence) as [encoded|]; [|done].
    destruct (_ <? _); [done|]. destruct (evict_other _ _ _ _ _ _) as [s1 []]; [|done].
    cbn [fst snd]. intros [= <-]. split; [done|]. eexists r, _. cbn [gateDecisions]. rewrite lookup_insert_eq.
    repeat split; try done. eexists. by split.
Qed.

(** A reported transport result is an annotation: when a report is accepted
    the stored decision was an ALLOW of the current generation for the same
    connection and decision, that decision, the request and the expiry are
    unchanged, and a retry of the same report before the expiry is accepted with
    the same receipt, leaves the store as it is and publishes no second event;
    a report that contradicts the recorded one is refused. *)
Theorem ReportRequestResult_idempotent (s : EvidenceStore) (now later generation : Z) (input : ProxyRequestResult)
    (receipt : RequestResultReceipt) :
  let s' := (ReportRequestResult s now generation input).1.1 in
  (ReportRequestResult s now generation input).1.2 = Some receipt ->
  exists r r', gateDecisions s !! pq_RequestID input = Some r /\ gateDecisions s' !! pq_RequestID input = Some r' /\
    annotates r r' input /\ rd_Verdict (ge_Decision (gd_evidence r)) = RequestAllow /\
    rd_ConfigGeneration (ge_Decision (gd_evidence r)) = generation /\
    (Before later (gd_expires r) = true ->
       ReportRequestResult s' later generation input = (s', Some receipt, None) /\
       forall input', pq_RequestID input' = pq_RequestID input -> pq_HTTPStatus input' <> pq_HTTPStatus input ->
         (ReportRequestResult s' later generation input').1.2 = None).
Proof using.
  intros s' Hr. pose proof (ReportRequestResult_record s now generation input receipt Hr) as
    (-> & r & r' & El & Hb & Hm & El' & Ha). fold s' in El'.
  pose proof Ha as (Hd & Hc & He & f & Hf & F1 & F2 & F3).
  exists r, r'. pose proof Hm as Hm'. unfold result_mismatch in Hm'. split_bool.
  repeat (split; [done || congruence|]). intros Hlater.
  assert (Hguard : negb (ValidGateInstanceID (pq_RequestID input)) || negb (ValidGateInstanceID (pq_ConnectionID input))
     || negb (ValidGateInstanceID (pq_DecisionID input))
     || negb (ValidRequestResult (pq_ReasonCode input) (pq_HTTPStatus input)) = false).
  { unfold ReportRequestResult in Hr. by destruct (_ || _). }
  split.
  - unfold ReportRequestResult. rewrite Hguard, El', He, Hlater. cbn [negb].
    assert (result_mismatch (gd_evidence r') input generation = false) as ->
      by (unfold result_mismatch in Hm |- *; by rewrite Hd, Hc).
    rewrite Hf, F1, F2, F3, Z.eqb_refl, bool_decide_eq_true_2, eqb_reflx by done. done.
  - intros input' Hid Hst. clearbody s'. unfold ReportRequestResult.
    destruct (negb (ValidGateInstanceID (pq_RequestID input')) || _ || _ || _); [reflexivity|].
    rewrite Hid, El', He, Hlater.
    cbn [negb]. destruct (result_mismatch (gd_evidence r') input' generation); [done|]. rewrite Hf, F1.
    assert ((pq_HTTPStatus input =? pq_HTTPStatus input') = false) as -> by (apply Z.eqb_neq; congruence). reflexivity.
Qed.
End reads.

(** ** A store of two records *)

#[local] Instance demo_evidence_JSON : JSON RequestGateEvidence := {|
  Marshal _ := Some (repeat 0 100);
  Unmarshal _ := None;
|}.

Definition demo_id (c : ascii) : string := String.string_of_list_ascii (repeat c 32).
Definition demo_context (c : ascii) : RequestContext :=
  mkRequestContext (demo_id c) (demo_id "c") "s1" 1 None "HTTP/1.1" "GET" "http" "example.test" "/" false "" "" 100 0 0 "" false.
Definition demo_inspected (c : ascii) : RequestInspectionResult :=
  mkRequestInspectionResult (demo_id c) CoverageComplete true [] "" 5 "m4-builtin-v1" "".
Definition demo_allowed (c : ascii) : RequestDecision :=
  mkRequestDecision (demo_id "d") (demo_id c) 3 "s1" "p" "gate" RequestAllow CoverageComplete 0 "GATE_INSPECTION_COMPLETE" "".
Definition demo_record (c : ascii) (sequence : Z) : gateDecisionRecord :=
  mkGateDecisionRecord (bounded_evidence 5 (demo_context c) (demo_inspected c) (demo_allowed c) sequence)
    (5 + gateDecisionTTL) 100 (Some sequence).
Definition demo_queue : list entry := [(demo_id "a", demo_record "a" 1); (demo_id "b", demo_record "b" 2)].
Definition demo_store : EvidenceStore :=
  mkEvidenceStore (list_to_map demo_queue) [(1, demo_id "a"); (2, demo_id "b")] 200 2 3 2 250.

Lemma demo_store_ok : evidence_ok demo_store demo_queue.
Proof.
  split; [split | ..].
  - apply (bool_decide_eq_true_1 _). vm_compute. reflexivity.
  - reflexivity.
  - repeat constructor.
  - apply (bool_decide_eq_true_1 _). vm_compute. reflexivity.
  - repeat constructor; simpl; lia.
  - reflexivity.
  - repeat constructor; simpl; lia.
  - apply Z.leb_le. vm_compute. reflexivity.
  - apply Z.leb_le. vm_compute. reflexivity.
  - repeat constructor; apply Z.ltb_lt; vm_compute; reflexivity.
  - repeat constructor; apply Z.leb_le; vm_compute; reflexivity.
  - simpl. lia.
Qed.

(** The store holds at most two records and 250 bytes: the oldest goes. *)
Lemma storeGateDecision_refines_witness :
  exists k node, evidence_ok (storeGateDecision demo_store 9 (demo_context "e") (demo_inspected "e") (demo_allowed "e")).1
    (drop k demo_queue ++ [(demo_id "e", stored_record demo_store 9 node (demo_context "e") (demo_inspected "e") (demo_allowed "e") 100)]).
Proof.
  assert (Hs : gateSequence demo_store < 2 ^ 64 - 1) by (simpl; lia).
  pose proof (storeGateDecision_refines demo_store demo_queue 9 (demo_context "e") (demo_inspected "e") (demo_allowed "e")
    demo_store_ok Hs) as H.
  destruct (storeGateDecision demo_store 9 (demo_context "e") (demo_inspected "e") (demo_allowed "e")) as [s' ev].
  assert (Hb : (evidence_budget demo_store <? 100) = false) by (vm_compute; reflexivity).
  cbn [Marshal demo_evidence_JSON] in H. change (Z.of_nat (length (repeat 0 100))) with 100 in H. cbv zeta in H.
  rewrite Hb in H. destruct H as (k & node & Hok & _). exists k, node.
  assert (Hw : without (demo_id "e") demo_queue = demo_queue) by reflexivity.
  change (rq_RequestID (demo_context "e")) with (demo_id "e") in Hok. rewrite Hw in Hok. exact Hok.
Defined.

Lemma evidence_store_bounded_witness :
  exists q, evidence_ok (storeGateDecision (new_evidence_store 2 250) 9 (demo_context "e") (demo_inspected "e") (demo_allowed "e")).1 q.
Proof.
  destruct (evidence_store_bounded 2 250 1
    (storeGateDecision (new_evidence_store 2 250) 9 (demo_context "e") (demo_inspected "e") (demo_allowed "e")).1)
    as (q & Hq & _).
  - simpl. lia.
  - eapply evidence_steps_S; [apply step_store | apply evidence_steps_0].
  - exists q. exact Hq.
Defined.

Lemma ListRequestGateEvidence_page_witness :
  pg_Items (ListRequestGateEvidence demo_store 9 (map_to_list (gateDecisions demo_store)) 1 1).2
  = [gd_evidence (demo_record "b" 2)].
Proof.
  assert (Hl : 1 <= 1 <= 128) by lia.
  pose proof (ListRequestGateEvidence_page demo_store demo_queue 9 (map_to_list (gateDecisions demo_store)) 1 1
    demo_store_ok (Permutation_refl _) Hl) as H.
  destruct (ListRequestGateEvidence demo_store 9 (map_to_list (gateDecisions demo_store)) 1 1) as [s' page].
  destruct H as (Hi & _). cbn [snd]. rewrite Hi. vm_compute. reflexivity.
Defined.

Lemma RequestEvidenceForSession_newest_witness :
  (RequestEvidenceForSession demo_store 9 (map_to_list (gateDecisions demo_store)) "s1" 0).2
  = [gd_evidence (demo_record "b" 2); gd_evidence (demo_record "a" 1)].
Proof.
  assert (Hn : "s1" <> "") by done.
  rewrite (RequestEvidenceForSession_newest demo_store demo_queue 9 (map_to_list (gateDecisions demo_store)) "s1" 0
    demo_store_ok (Permutation_refl _) Hn).
  vm_compute. reflexivity.
Defined.

Definition demo_result : ProxyRequestResult :=
  mkProxyRequestResult "" 3 (demo_id "a") (demo_id "c") (demo_id "d") 200 "UPSTREAM_RESPONSE_RECEIVED" false.

(** The annotated record grows past the budget together with the other one, so
    the other one goes; the retry is accepted and changes nothing. *)
Lemma ReportRequestResult_idempotent_witness :
  let s' := (ReportRequestResult demo_store 9 3 demo_result).1.1 in
  ReportRequestResult s' 10 3 demo_result
  = (s', Some (mkRequestResultReceipt (demo_id "a") (demo_id "d") 3), None).
Proof.
  assert (Hr : (ReportRequestResult demo_store 9 3 demo_result).1.2
               = Some (mkRequestResultReceipt (demo_id "a") (demo_id "d") 3)) by (vm_compute; reflexivity).
  destruct (ReportRequestResult_idempotent demo_store 9 10 3 demo_result _ Hr) as (r & r' & Hl & _ & _ & _ & _ & H).
  assert (Hb : Before 10 (gd_expires r) = true).
  { assert (Hr' : gateDecisions demo_store !! demo_id "a" = Some (demo_record "a" 1)) by reflexivity.
    change (pq_RequestID demo_result) with (demo_id "a") in Hl. rewrite Hr' in Hl. injection Hl as <-. vm_compute. reflexivity. }
  exact (proj1 (H Hb)).
Defined.
