(* ===== verification/Interleave.v ===== *)
(** * Critical sections and what runs between them

    The engine's operations take a lock, do some work, release it and go on;
    other goroutines run between two such sections.  A [Prog] is an operation as
    the sequence of its critical sections; [run] executes it against a schedule
    that says what the other goroutines do to the shared state before each of
    them, and records the moments at which the sections ran.  [wp] is the
    corresponding proof rule: the postcondition holds for every schedule whose
    steps stay within a rely relation. *)

From S2P Require Import Prelude.

Inductive Prog (St A : Type) : Type :=
| Ret (a : A)
| Act (f : St -> St) (k : St -> Prog St A).
Arguments Ret {St A} _.
Arguments Act {St A} _ _.

Section programs.
Context {St : Type}.

Fixpoint prog_bind {A B} (g : A -> Prog St B) (p : Prog St A) : Prog St B :=
  match p with
  | Ret a => g a
  | Act f k => Act f (fun s => prog_bind g (k s))
  end.

#[global] Instance prog_ret : MRet (Prog St) := fun A a => Ret a.
#[global] Instance prog_mbind : MBind (Prog St) := fun A B g p => prog_bind g p.

(** One critical section that updates the state and returns a value. *)
Definition atomic {A} (op : St -> St * A) : Prog St A := Act (fun s => (op s).1) (fun s => Ret (op s).2).
Definition peek {A} (g : St -> A) : Prog St A := Act id (fun s => Ret (g s)).
Definition modify (f : St -> St) : Prog St unit := Act f (fun _ => Ret tt).

(** [for _, x := range l { body(x) }]. *)
Fixpoint for_each {A} (l : list A) (body : A -> Prog St unit) : Prog St unit :=
  match l with
  | [] => Ret tt
  | x :: l => body x ≫= fun _ => for_each l body
  end.

(** ** Execution under a schedule *)

Record Run (A : Type) : Type := mkRun {
  run_result : A;
  run_final : St;
  run_rest : list (St -> St);   (** what is left of the schedule *)
  run_moments : list St;        (** the states the critical sections saw *)
}.

Definition interfere (env : list (St -> St)) (s : St) : St := match env with [] => s | e :: _ => e s end.

Fixpoint run {A} (p : Prog St A) (env : list (St -> St)) (s : St) : Run A :=
  match p with
  | Ret a => mkRun A a s env []
  | Act f k =>
      let s := interfere env s in
      let r := run (k s) (tail env) (f s) in
      mkRun A (run_result A r) (run_final A r) (run_rest A r) (s :: run_moments A r)
  end.

(** ** The proof rule *)

Section rely.
Variable R : St -> St -> Prop.

Fixpoint wp {A} (p : Prog St A) (Q : A -> list St -> St -> Prop) (tr : list St) (s : St) : Prop :=
  match p with
  | Ret a => Q a tr s
  | Act f k => forall s', R s s' -> wp (k s') Q (tr ++ [s']) (f s')
  end.

(** Every section of [p] is itself a step the others can rely on. *)
Fixpoint guar {A} (p : Prog St A) : Prop :=
  match p with
  | Ret _ => True
  | Act f k => forall s, R s (f s) /\ guar (k s)
  end.

Definition within (env : list (St -> St)) : Prop := Forall (fun e => forall s, R s (e s)) env.

Lemma wp_mono {A} (p : Prog St A) (Q Q' : A -> list St -> St -> Prop) tr s :
  (forall a tr s, Q a tr s -> Q' a tr s) -> wp p Q tr s -> wp p Q' tr s.
Proof. intros HQ. revert tr s. induction p as [a | f k IH]; intros tr s; simpl; [auto|]. intros H s' Hs. by apply IH, H. Qed.

Lemma wp_bind {A B} (p : Prog St A) (g : A -> Prog St B) Q tr s :
  wp p (fun a tr s => wp (g a) Q tr s) tr s -> wp (p ≫= g) Q tr s.
Proof. revert tr s. induction p as [a | f k IH]; intros tr s; simpl; [done|]. intros H s' Hs. by apply IH, H. Qed.

Lemma wp_frame_moments {A} (p : Prog St A) Q tr s :
  wp p (fun a new s => Q a (tr ++ new) s) [] s -> wp p Q tr s.
Proof.
  assert (Hg : forall new, wp p (fun a new s => Q a (tr ++ new) s) new s -> wp p Q (tr ++ new) s).
  { revert s. induction p as [a | f k IH]; intros s new; simpl; [done|]. intros H s' Hs. rewrite <- app_assoc. by apply IH, H. }
  intros H. rewrite <- (app_nil_r tr). by apply Hg.
Qed.

Lemma guar_bind {A B} (p : Prog St A) (g : A -> Prog St B) : guar p -> (forall a, guar (g a)) -> guar (p ≫= g).
Proof. intros Hp Hg. induction p as [a | f k IH]; simpl in *; [auto|]. intros s. split; [apply Hp | apply IH, Hp]. Qed.

Lemma guar_atomic {A} (op : St -> St * A) : (forall s, R s (op s).1) -> guar (atomic op).
Proof. intros H s. by split. Qed.

Lemma guar_for_each {A} (l : list A) body : (forall x, guar (body x)) -> guar (for_each l body).
Proof. intros H. induction l as [| x l IH]; [done|]. by apply guar_bind. Qed.

Context `{!Reflexive R}.

Lemma interfere_within env s : within env -> R s (interfere env s).
Proof using Type*. destruct 1; [reflexivity | auto]. Qed.

Lemma within_tail env : within env -> within (tail env).
Proof. by destruct 1; [constructor|]. Qed.

Theorem wp_sound {A} (p : Prog St A) Q tr s env :
  within env -> wp p Q tr s -> let r := run p env s in Q (run_result A r) (tr ++ run_moments A r) (run_final A r).
Proof using Type*.
  revert tr s env. induction p as [a | f k IH]; intros tr s env Henv Hwp; simpl in *.
  - by rewrite app_nil_r.
  - specialize (Hwp _ (interfere_within env s Henv)).
    eapply IH in Hwp; [|by apply within_tail]. simpl in Hwp. by rewrite <- app_assoc in Hwp.
Qed.

Lemma guar_peek {A} (g : St -> A) : guar (peek g).
Proof using Type*. intros s. split; [reflexivity | done]. Qed.

(** With a transitive rely, an operation and what ran beside it are one step. *)
Lemma wp_guar {A} (p : Prog St A) `{!Transitive R} tr s s0 :
  guar p -> R s0 s -> wp p (fun _ _ s' => R s0 s') tr s.
Proof using Type.
  revert tr s. induction p as [a | f k IH]; intros tr s Hg Hs; simpl in *; [done|].
  intros s' Hs'. apply IH; [apply Hg|]. etrans; [exact Hs|]. etrans; [exact Hs' | apply Hg].
Qed.
End rely.
End programs.

(** A section sequence nothing is known about. *)
Lemma wp_havoc {St A B} (R : St -> St -> Prop) (p : Prog St A) (k : A -> Prog St B) Q tr s :
  (forall a ext s', wp R (k a) Q (tr ++ ext) s') -> wp R (p ≫= k) Q tr s.
Proof.
  intros H. apply wp_bind. rewrite <- (app_nil_r tr). generalize (@nil St). revert s.
  induction p as [a | f k' IH]; intros s ext; simpl; [apply H|]. intros s' _. rewrite <- app_assoc. apply IH.
Qed.

(** The moments of an operation that keeps to the rely condition follow it. *)
Lemma wp_moments {St A} (R : St -> St -> Prop) `{!PreOrder R} (p : Prog St A) (Q : A -> list St -> St -> Prop) s0 s :
  guar R p -> R s0 s -> wp R p Q [] s ->
  wp R p (fun a tr s' => Q a tr s' /\ StronglySorted R tr /\ Forall (R s0) tr) [] s.
Proof.
  intros Hg Hs Hwp.
  assert (Hgen : forall tr, StronglySorted R tr -> Forall (R s0) tr -> Forall (fun m => R m s) tr -> wp R p Q tr s ->
            wp R p (fun a tr s' => Q a tr s' /\ StronglySorted R tr /\ Forall (R s0) tr) tr s).
  { clear Hwp. revert s Hs. induction p as [a | f k IH]; intros s Hs tr H1 H2 H3 Hwp; simpl in *; [done|].
    intros s' Hs'. destruct (Hg s') as [Hf Hk]. assert (H3' : Forall (fun m => R m s') tr).
    { eapply Forall_impl; [exact H3|]. intros m Hm; cbv beta in *; (etrans; eassumption). }
    assert (Hsf : R s (f s')) by (etrans; [exact Hs' | exact Hf]).
    apply IH; [done | (etrans; eassumption) | | | | by apply Hwp].
    - clear -H1 H3'. induction H1 as [| m tr Hs1 IH1 Hm]; [repeat constructor|].
      apply Forall_cons in H3' as [Hm' H3']. constructor; [by apply IH1|]. apply Forall_app_2; [done | by repeat constructor].
    - apply Forall_app_2; [done|]. repeat constructor. (etrans; eassumption).
    - apply Forall_app_2; [|by repeat constructor]. eapply Forall_impl; [exact H3'|]. intros m Hm; cbv beta in *; (etrans; eassumption). }
  apply Hgen; [constructor.. | done].
Qed.

(** With no assumption on the schedule. *)
Definition anything {St : Type} (_ _ : St) : Prop := True.

#[global] Instance anything_preorder {St} : PreOrder (@anything St).
Proof. done. Qed.

Lemma within_anything {St} (env : list (St -> St)) : within anything env.
Proof. by apply Forall_forall. Qed.

Lemma wp_run {St A} (p : Prog St A) Q s env :
  wp anything p Q [] s -> Q (run_result A (run p env s)) (run_moments A (run p env s)) (run_final A (run p env s)).
Proof. intros H. exact (wp_sound anything p Q [] s env (within_anything env) H). Qed.

(** A section of a component that runs on a part of a larger state. *)
Section lifting.
Context {S T : Type} (get : S -> T) (put : T -> S -> S).

Fixpoint lift {A} (p : Prog T A) : Prog S A :=
  match p with
  | Ret a => Ret a
  | Act f k => Act (fun s => put (f (get s)) s) (fun s => lift (k (get s)))
  end.

Lemma guar_lift {A} (R : S -> S -> Prop) (R' : T -> T -> Prop) (p : Prog T A) :
  (forall s t, R' (get s) t -> R s (put t s)) -> guar R' p -> guar R (lift p).
Proof.
  intros HR. induction p as [a | f k IH]; simpl; [done|]. intros Hg s. split; [apply HR, Hg | apply IH, Hg].
Qed.

Lemma wp_lift {A} (R : S -> S -> Prop) (R' : T -> T -> Prop) (p : Prog T A) (Q : A -> list S -> S -> Prop) s tr tr' :
  (forall s s', R s s' -> R' (get s) (get s')) -> (forall s t, get (put t s) = t) ->
  tr' = get <$> tr ->
  wp R' p (fun a new t => forall trS s', get s' = t -> get <$> trS = new -> Q a trS s') tr' (get s) ->
  wp R (lift p) Q tr s.
Proof.
  intros HR Hput. revert tr tr' s. induction p as [a | f k IH]; intros tr tr' s Htr H; simpl in *.
  - by apply H.
  - intros s' Hs'. apply (IH _ (tr ++ [s']) (tr' ++ [get s'])).
    + by rewrite fmap_app, Htr.
    + rewrite Hput. by apply H, HR.
Qed.

(** The same, knowing that the rest of the state is left alone. *)
Lemma wp_lift_frame {A F} (rest : S -> F) (R : S -> S -> Prop) (R' : T -> T -> Prop) (p : Prog T A) (Q : A -> list S -> S -> Prop) s tr tr' :
  (forall s s', R s s' -> R' (get s) (get s') /\ rest s' = rest s) ->
  (forall s t, get (put t s) = t /\ rest (put t s) = rest s) ->
  wp R' p (fun a _ t => forall trS s', get s' = t -> rest s' = rest s -> Q a trS s') tr' (get s) ->
  wp R (lift p) Q tr s.
Proof.
  intros HR Hput. enough (H : forall f, rest s = f ->
    wp R' p (fun a _ t => forall trS s', get s' = t -> rest s' = f -> Q a trS s') tr' (get s) -> wp R (lift p) Q tr s)
    by (intros Hp; exact (H _ eq_refl Hp)).
  revert tr tr' s. induction p as [a | f k IH]; intros tr tr' s fr Hfr H; simpl in *.
  - by apply H.
  - intros s' [Hs' Hr]%HR. apply (IH _ _ (tr' ++ [get s'])) with (f := fr).
    + rewrite (proj2 (Hput s' (f (get s')))). congruence.
    + rewrite (proj1 (Hput s' (f (get s')))). by apply H.
Qed.
End lifting.

(** ** Several operations at once

    A configuration is the shared state and the operations in flight; a step
    runs the next critical section of one of them. *)
Section pools.
Context {St : Type}.

Inductive pool_step : St * list (Prog St unit) -> St * list (Prog St unit) -> Prop :=
| pool_act s before f k after :
    pool_step (s, before ++ Act f k :: after) (f s, before ++ k s :: after).

Lemma pool_guar (R : St -> St -> Prop) `{!PreOrder R} c c' :
  rtc pool_step c c' -> Forall (guar R) c.2 -> R c.1 c'.1 /\ Forall (guar R) c'.2.
Proof.
  induction 1 as [c | c1 c2 c3 H12 _ IH]; intros Hg; [by split|].
  destruct H12 as [s before f k after]. cbn [fst snd] in *.
  apply Forall_app in Hg as [Hb Ha]. apply Forall_cons in Ha as [Hp Ha]. destruct (Hp s) as [HR Hk].
  destruct IH as [H1 H2]; [by apply Forall_app_2; [|constructor]|]. split; [by etrans | done].
Qed.
End pools.
