(* ===== verification/EventRing.v ===== *)
(** * The bounded event stream

    [internal/engine/runtime_events.go]: the ring that numbers runtime events,
    drops the oldest when it is full and answers cursor reads, so that a reader
    can tell a contiguous stream from one with a hole. *)

From S2P Require Import Prelude GoStr Domain.

Record RuntimeEvent : Type := mkRuntimeEvent {
  re_SchemaVersion : Z;
  re_Sequence : Z;
  re_Kind : string;
  re_Class : string;
  re_SessionID : string;
  re_Timestamp : Time;
  re_Generation : Z;
  re_Revision : Z;
  re_Reason : string;
  re_DroppedBefore : Z;
  re_EventID : string;
  re_InspectionRevision : Z;
}.

#[global] Instance eta_RuntimeEvent : Eta RuntimeEvent := fun e =>
  mkRuntimeEvent (re_SchemaVersion e) (re_Sequence e) (re_Kind e) (re_Class e) (re_SessionID e) (re_Timestamp e)
    (re_Generation e) (re_Revision e) (re_Reason e) (re_DroppedBefore e) (re_EventID e) (re_InspectionRevision e).

(** An event as the call sites build it: the other fields are zero. *)
Definition event (kind sessionID : string) (generation revision : Z) (reason : string) : RuntimeEvent :=
  mkRuntimeEvent 0 0 kind "" sessionID time_zero generation revision reason 0 "" 0.

Record RuntimeEventRing : Type := mkRuntimeEventRing {
  rg_items : list RuntimeEvent;
  rg_capacity : Z;
  rg_next : Z;
  rg_dropped : Z;
  rg_streamID : string;
}.

#[global] Instance eta_RuntimeEventRing : Eta RuntimeEventRing := fun r =>
  mkRuntimeEventRing (rg_items r) (rg_capacity r) (rg_next r) (rg_dropped r) (rg_streamID r).

(** [seed] is what the random source returned. *)
Definition NewRuntimeEventRing (capacity : Z) (seed : list Z) : RuntimeEventRing :=
  mkRuntimeEventRing [] (if capacity <=? 0 then 10000 else capacity) 0 0 (hex_EncodeToString seed).

Definition event_class (ev : RuntimeEvent) : string :=
  if bool_decide (re_Class ev = "") then
    if bool_decide (re_Kind ev = "DecisionChanged") || bool_decide (re_Kind ev = "SessionInvalidated")
    then "policy" else "runtime"
  else re_Class ev.

Definition Publish (r : RuntimeEventRing) (clock : Time) (ev : RuntimeEvent) : RuntimeEventRing * RuntimeEvent :=
  let r := r <| rg_next ::= inc64 |> in
  let ev := if re_SchemaVersion ev =? 0 then ev <| re_SchemaVersion := 1 |> else ev in
  let ev := ev <| re_Sequence := rg_next r |> in
  let ev := ev <| re_Class := event_class ev |> in
  let ev := if IsZero (re_Timestamp ev) then ev <| re_Timestamp := clock |> else ev in
  let '(r, ev) :=
    if rg_capacity r <=? Z.of_nat (length (rg_items r)) then
      let r := r <| rg_items ::= tail |> <| rg_dropped ::= inc64 |> in
      (r, ev <| re_DroppedBefore := rg_dropped r |>)
    else (r, ev) in
  (r <| rg_items ::= fun l => l ++ [ev] |>, ev).

(** The scan of [Read]: skip what the cursor has seen, stop at [max] events. *)
Fixpoint read_scan (after max : Z) (items : list RuntimeEvent) (out : list RuntimeEvent) : list RuntimeEvent :=
  match items with
  | [] => out
  | ev :: rest =>
      if re_Sequence ev <=? after then read_scan after max rest out
      else if max <=? Z.of_nat (length out) then out
      else read_scan after max rest (out ++ [ev])
  end.

Definition read_limit (max : Z) : Z :=
  let max := if max <=? 0 then 200 else max in
  if 200 <? max then 200 else max.

Definition Read (r : RuntimeEventRing) (after max : Z) : list RuntimeEvent * Z * Z :=
  let items := read_scan after (read_limit max) (rg_items r) [] in
  let gap := match rg_items r with
             | first :: _ => if u64 (after + 1) <? re_Sequence first then re_Sequence first else 0
             | [] => 0
             end in
  (items, gap, rg_next r).

Definition Dropped (r : RuntimeEventRing) : Z := rg_dropped r.
Definition StreamID (r : RuntimeEventRing) : string := rg_streamID r.

(** ** The invariant: the ring holds the last events, numbered without a hole *)

Record ring_ok (r : RuntimeEventRing) : Prop := mkRingOk {
  ring_capacity : 0 < rg_capacity r;
  ring_bounded : Z.of_nat (length (rg_items r)) <= rg_capacity r;
  ring_dropped : rg_dropped r = rg_next r - Z.of_nat (length (rg_items r));
  ring_dropped_nonneg : 0 <= rg_dropped r;
  ring_numbered : re_Sequence <$> rg_items r = seqZ (rg_dropped r + 1) (Z.of_nat (length (rg_items r)));
}.

Lemma NewRuntimeEventRing_ok capacity seed : ring_ok (NewRuntimeEventRing capacity seed).
Proof. constructor; simpl; try done; destruct (Z.leb_spec capacity 0); simpl; lia. Qed.

(** The published event as the ring stores it. *)
Definition stored_event (r : RuntimeEventRing) (clock : Time) (ev : RuntimeEvent) : RuntimeEvent := (Publish r clock ev).2.

Lemma Publish_sequence r clock ev : re_Sequence (stored_event r clock ev) = inc64 (rg_next r).
Proof. unfold stored_event, Publish. by repeat (case_match; simplify_eq/=). Qed.

Lemma Publish_ring r clock ev :
  let full := rg_capacity r <=? Z.of_nat (length (rg_items r)) in
  (Publish r clock ev).1 =
    mkRuntimeEventRing ((if full then tail (rg_items r) else rg_items r) ++ [stored_event r clock ev]) (rg_capacity r)
      (inc64 (rg_next r)) (if full then inc64 (rg_dropped r) else rg_dropped r) (rg_streamID r).
Proof.
  unfold stored_event, Publish. cbn [rg_capacity rg_items field_upd].
  by destruct (rg_capacity r <=? Z.of_nat (length (rg_items r))).
Qed.

Lemma seqZ_snoc a (n : nat) : seqZ a (Z.of_nat (S n)) = seqZ a (Z.of_nat n) ++ [a + Z.of_nat n].
Proof. rewrite Nat2Z.inj_succ, <- Z.add_1_r, seqZ_app by lia. by rewrite (seqZ_cons _ 1). Qed.

Lemma Publish_ok r clock ev : ring_ok r -> rg_next r < maxInt64 -> ring_ok (Publish r clock ev).1.
Proof.
  intros [Hc Hb Hd Hn Hs] Hmax. rewrite Publish_ring. unfold maxInt64 in Hmax.
  pose proof (Publish_sequence r clock ev) as Hseq. unfold inc64 in *. rewrite u64_small in * by lia.
  destruct (Z.leb_spec (rg_capacity r) (Z.of_nat (length (rg_items r)))) as [Hfull | Hfree].
  - destruct (rg_items r) as [| first rest] eqn:E; [simpl in *; lia|].
    assert (Hlen : length (rest ++ [stored_event r clock ev]) = length (first :: rest)) by (rewrite length_app; simpl; lia).
    constructor; simpl tail; cbn [rg_items rg_capacity rg_next rg_dropped]; rewrite ?Hlen, ?u64_small; try lia.
    rewrite fmap_app. cbn [fmap list_fmap]. rewrite Hseq.
    cbn [length] in *. rewrite Nat2Z.inj_succ, <- Z.add_1_r in Hs.
    rewrite fmap_cons, seqZ_cons in Hs by lia. injection Hs as _ Hs. rewrite seqZ_snoc.
    replace (Z.pred (Z.of_nat (length rest) + 1)) with (Z.of_nat (length rest)) in Hs by lia.
    rewrite Hs. unfold Z.succ. f_equal. f_equal. lia.
  - constructor; cbn [rg_items rg_capacity rg_next rg_dropped]; rewrite ?length_app; simpl; try lia.
    rewrite fmap_app, Hs. cbn [fmap list_fmap]. rewrite Hseq, Nat.add_1_r, seqZ_snoc. f_equal. f_equal. lia.
Qed.

(** ** Cursor reads *)

Lemma read_scan_spec after max items out :
  Z.of_nat (length out) <= max ->
  read_scan after max items out =
    out ++ take (Z.to_nat max - length out) (filter (fun ev => after < re_Sequence ev) items).
Proof.
  revert out. induction items as [| ev rest IH]; intros out Hout; [cbn [read_scan]; by rewrite filter_nil, take_nil, app_nil_r|]. cbn [read_scan].
  rewrite filter_cons. destruct (Z.leb_spec (re_Sequence ev) after).
  - rewrite decide_False by lia. by apply IH.
  - rewrite decide_True by lia. destruct (Z.leb_spec max (Z.of_nat (length out))).
    + replace (Z.to_nat max - length out)%nat with O by lia. by rewrite app_nil_r.
    + rewrite IH by (rewrite length_app; simpl; lia). rewrite length_app. simpl.
      replace (Z.to_nat max - length out)%nat with (S (Z.to_nat max - (length out + 1))) by lia.
      by rewrite <- app_assoc.
Qed.

Lemma filter_numbered after a items :
  re_Sequence <$> items = seqZ a (Z.of_nat (length items)) ->
  re_Sequence <$> filter (fun ev => after < re_Sequence ev) items =
    seqZ (Z.max a (after + 1)) (Z.of_nat (length items) - Z.max 0 (after + 1 - a)).
Proof.
  revert a. induction items as [| ev rest IH]; intros a Hs.
  - simpl. symmetry. apply seqZ_nil. lia.
  - cbn [length] in *. rewrite fmap_cons, seqZ_cons in Hs by lia. injection Hs as Ha Hs.
    replace (Z.pred (Z.of_nat (S (length rest)))) with (Z.of_nat (length rest)) in Hs by lia.
    specialize (IH _ Hs). rewrite filter_cons. case_decide as Hd.
    + rewrite fmap_cons, IH, Ha, (seqZ_cons (Z.max a (after + 1))) by lia. f_equal; [lia|]. f_equal; lia.
    + rewrite IH. destruct (Z.le_gt_cases (Z.of_nat (length rest)) (after - a)).
      * rewrite !seqZ_nil by lia. done.
      * f_equal; lia.
Qed.

Lemma read_limit_range max : 0 < read_limit max <= 200.
Proof. unfold read_limit. destruct (Z.leb_spec max 0); simpl; [lia|]. destruct (Z.ltb_spec 200 max); lia. Qed.

Lemma take_seqZ a n m : 0 <= m -> take (Z.to_nat m) (seqZ a n) = seqZ a (Z.min m n).
Proof.
  intros Hm. destruct (Z.le_gt_cases n m).
  - rewrite take_ge by (rewrite length_seqZ; lia). f_equal. lia.
  - rewrite Z.min_l by lia. replace n with (m + (n - m)) at 1 by lia. rewrite seqZ_app by lia.
    rewrite take_app_length' by (rewrite length_seqZ; lia). done.
Qed.

(** A cursor read loses nothing silently. On every ring that [Publish] can
    produce, reading after cursor [after] returns stored events whose sequence
    numbers are consecutive, start at the first retained number past the cursor
    and run to the end of the ring or to the page limit; the gap is reported
    exactly when events past the cursor have been dropped, and then names the
    first number still available. *)
Theorem Read_contiguous (r : RuntimeEventRing) (after max : Z) :
  ring_ok r -> rg_next r < maxInt64 -> 0 <= after <= rg_next r ->
  let '(items, gap, next) := Read r after max in
  re_Sequence <$> items =
    seqZ (Z.max (rg_dropped r) after + 1) (Z.min (read_limit max) (rg_next r - Z.max (rg_dropped r) after)) /\
  items ⊆ rg_items r /\ next = rg_next r /\
  gap = (if after <? rg_dropped r then match rg_items r with [] => 0 | _ => rg_dropped r + 1 end else 0).
Proof.
  intros [Hc Hb Hd Hn Hs] Hmax Ha. unfold maxInt64 in Hmax. unfold Read. pose proof (read_limit_range max) as Hl.
  rewrite read_scan_spec by (simpl; lia). rewrite Nat.sub_0_r, app_nil_l. split_and!.
  - rewrite fmap_take, (filter_numbered _ _ _ Hs), take_seqZ by lia. f_equal; [lia|].
    pose proof (Nat2Z.is_nonneg (length (rg_items r))). lia.
  - intros x Hx. apply elem_of_take in Hx as (i & Hi & _). apply list_elem_of_lookup_2, list_elem_of_filter in Hi. tauto.
  - done.
  - destruct (rg_items r) as [| first rest] eqn:E; [by case_if|].
    cbn [length] in Hs. rewrite fmap_cons, seqZ_cons in Hs by lia. injection Hs as Hf _.
    rewrite u64_small, Hf by lia. destruct (Z.ltb_spec after (rg_dropped r)), (Z.ltb_spec (after + 1) (rg_dropped r + 1)); lia.
Qed.

Definition ex_ring : RuntimeEventRing :=
  foldl (fun r id => (Publish r 7 (event "SessionCreated" id 1 1 "")).1) (NewRuntimeEventRing 2 []) ["a"; "b"; "c"].

Lemma ex_ring_ok : ring_ok ex_ring.
Proof. unfold ex_ring. cbn [foldl]. repeat apply Publish_ok; try apply NewRuntimeEventRing_ok; vm_compute; done. Qed.

Lemma Read_contiguous_witness :
  re_Sequence <$> (Read ex_ring 0 10).1.1 = [2; 3] /\ (Read ex_ring 0 10).1.2 = 2.
Proof.
  pose proof (Read_contiguous ex_ring 0 10 ex_ring_ok ltac:(vm_compute; done) ltac:(vm_compute; done)) as H.
  destruct (Read ex_ring 0 10) as [[items gap] next]. destruct H as (H1 & _ & _ & H4).
  cbn [fst snd]. split; [rewrite H1; vm_compute; reflexivity | rewrite H4; vm_compute; reflexivity].
Defined.
