(* ===== verification/Runtime.v ===== *)
(** * The engine runtime

    [internal/engine/runtime.go]: the owner of the session store, the active
    policy program and the temporary blocks.  Its operations are programs over
    the shared [Runtime] state, one critical section of the source (a held
    mutex, a store call, an atomic counter) per [Act].  Interface values the
    runtime only calls, the conntrack source and the guard enforcer, are
    answers: what [Source.Get] or [Source.Dump] returned is an argument, and a
    [GuardEnforcer] is the function that answers its calls. *)

From S2P Require Import Prelude GoStr Netip Domain Flow SessionStore Config Connectivity EventRing Interleave.

(** ** Data *)

Record TemporaryBlock : Type := mkTemporaryBlock {
  tb_BlockID : string;
  tb_Indicator : string;
  tb_Reason : string;
  tb_CreatedAt : Time;
  tb_ExpiresAt : Time;
  tb_SourceEvent : string;
}.

#[global] Instance eta_TemporaryBlock : Eta TemporaryBlock := fun b =>
  mkTemporaryBlock (tb_BlockID b) (tb_Indicator b) (tb_Reason b) (tb_CreatedAt b) (tb_ExpiresAt b) (tb_SourceEvent b).

(** [domain.PolicyDecision] as the runtime fills it. *)
Record PolicyDecision : Type := mkPolicyDecision {
  pd_Action : Decision;
  pd_Scope : string;
  pd_PolicyID : string;
  pd_ConfigVersion : Z;
  pd_Reason : string;
}.

Inductive EventKind : Type := EventNew | EventUpdate | EventDestroy.
Definition EventKind_string (k : EventKind) : string :=
  match k with EventNew => "NEW" | EventUpdate => "UPDATE" | EventDestroy => "DESTROY" end.

Record ConntrackEvent : Type := mkConntrackEvent {
  ce_Kind : EventKind;
  ce_Record : ConntrackRecord;
  ce_Received : Time;
}.

Inductive SourceError : Type := ErrFlowNotFound | ErrAmbiguousIdentity | ErrDumpIncomplete | SourceFailure (message : string).
Definition SourceError_message (e : SourceError) : string :=
  match e with
  | ErrFlowNotFound => "conntrack flow confirmed absent"
  | ErrAmbiguousIdentity => "conntrack identity is ambiguous"
  | ErrDumpIncomplete => "conntrack dump incomplete"
  | SourceFailure m => m
  end.

Definition StoreError_message (e : StoreError) : string :=
  match e with
  | ErrRuntimeCapacity => "runtime session capacity reached"
  | ErrSessionMissing => "runtime session not found"
  | ErrIdentityMissing => "conntrack identity is incomplete"
  | ErrAliasAmbiguous => "tuple alias resolves to multiple sessions"
  | ErrStaleEvent => "stale conntrack event"
  | ErrStaleDecision => "stale policy decision"
  | ErrStaleInspection => "stale inspection update"
  | ErrStaleGeneration => "stale inspection generation"
  end.

Inductive GuardCall : Type :=
| AddSourceBlock (indicator : string) (expires : Time)
| RemoveSourceBlock (indicator : string)
| RevokeSession (v : RuntimeSession)
| ReleaseSession (v : RuntimeSession).

(** The enforcer's answer to its [n]-th call: [None] is a nil error. *)
Definition GuardEnforcer : Type := nat -> GuardCall -> option string.

Inductive InspectionCall : Type :=
| BeginActivation | EndActivation
| OnSessionChanged (v : RuntimeSession)
| OnSessionClosed (v : RuntimeSession).

Record Runtime : Type := mkRuntime {
  Store : RuntimeStore;
  Events : RuntimeEventRing;
  program : Program;
  generation : Z;
  started : bool;
  degraded : bool;
  eventSourceFailed : bool;
  lastError : string;
  blocks : gmap string TemporaryBlock;
  revoked : gmap string RuntimeSession;
  maxRevoked : Z;
  queue : list ConntrackEvent;
  queueSize : Z;
  refreshSlots : Z;                     (** slots taken, of 4 *)
  resyncing : bool;
  queueDrops : Z;
  lossVersion : Z;
  trackingDrops : Z;
  created : Z;
  updated : Z;
  closedCount : Z;
  resyncs : Z;
  dumpIncomplete : Z;
  lastDumpBytes : Z;
  lastDumpMillis : Z;
  getChecks : Z;
  getUnavailable : Z;
  expiryBacklog : Z;
  expiryOldest : Z;
  guards : option GuardEnforcer;
  guardCalls : list GuardCall;          (** calls made so far *)
  inspection : bool;                    (** an inspection runtime is installed *)
  inspectionCalls : list InspectionCall;
  clock : Time;                         (** what [time.Now()] returns *)
}.

#[global] Instance eta_Runtime : Eta Runtime := fun r =>
  mkRuntime (Store r) (Events r) (program r) (generation r) (started r) (degraded r) (eventSourceFailed r) (lastError r)
    (blocks r) (revoked r) (maxRevoked r) (queue r) (queueSize r) (refreshSlots r) (resyncing r) (queueDrops r)
    (lossVersion r) (trackingDrops r) (created r) (updated r) (closedCount r) (resyncs r) (dumpIncomplete r)
    (lastDumpBytes r) (lastDumpMillis r) (getChecks r) (getUnavailable r) (expiryBacklog r) (expiryOldest r)
    (guards r) (guardCalls r) (inspection r) (inspectionCalls r) (clock r).

Abbreviation RT := (Prog Runtime) (only parsing).

Definition NewRuntime (program : Program) (generation : Z) (limits : RuntimeLimits) (seed : list Z) (now : Time) : Runtime :=
  let generation := if generation =? 0 then pr_Generation program else generation in
  let program := program <| pr_Generation := generation |> in
  let queueSize := if MaxEventQueue limits <=? 0 then MaxEventQueue DefaultRuntimeLimits else MaxEventQueue limits in
  mkRuntime (NewRuntimeStore limits) (NewRuntimeEventRing queueSize seed) program generation false false false ""
    ∅ ∅ 10000 [] queueSize 0 false 0 0 0 0 0 0 0 0 0 0 0 0 0 0 None [] false [] now.

(** ** Small sections *)

Definition store_op {A} (op : RuntimeStore -> Time -> RuntimeStore * A) : RT A :=
  atomic (fun r => let '(s, a) := op (Store r) (clock r) in (r <| Store := s |>, a)).

Definition CurrentGeneration : RT Z := peek generation.
Definition CurrentProgram : RT Program := peek program.
Definition Now : RT Time := peek clock.

Definition setDegraded (message : string) : RT unit :=
  modify (fun r => r <| degraded := true |> <| lastError := message |>).

Definition publish (ev : RuntimeEvent) : RT unit :=
  modify (fun r => r <| Events := (Publish (Events r) (clock r) ev).1 |>).

(** A call of the enforcer [g], which was read under the lock before. *)
Definition call_guard (g : GuardEnforcer) (c : GuardCall) : RT (option string) :=
  atomic (fun r => (r <| guardCalls ::= fun l => l ++ [c] |>, g (length (guardCalls r)) c)).

(** The inspection runtime is read under the lock and then told. *)
Definition notify (calls : list InspectionCall) : RT unit :=
  present ← peek inspection;
  if present : bool then modify (fun r => r <| inspectionCalls ::= fun l => l ++ calls |>) else mret tt.

Definition SetGuardEnforcer (g : option GuardEnforcer) : RT unit := modify (fun r => r <| guards := g |>).

(** [limits] is the installed runtime's history limits, [None] when it is nil. *)
Definition SetInspectionRuntime (limits : option (Z * Duration)) : RT unit :=
  modify (fun r =>
    let '(max, ttl) := default (0, 0) limits in
    r <| Store ::= fun s => SetInspectionHistoryLimits s max ttl (clock r) |>
      <| inspection := bool_decide (limits <> None) |>).

(** [time.Now()] when the event carries no time. *)
Definition eventTime (value : Time) : RT Time := if IsZero value then Now else mret value.

(** ** Zones and the tuple the forward filter sees *)

(** The result of the zone search does not depend on the order in which Go
    visits the prefix map, so one order is fixed. *)
Definition address_zone (p : Program) (addr : Addr) : string := InferAddressZone p (map_to_list (pr_zonePrefixes p)) addr.
Definition infer_zones (p : Program) (t : Tuple) : string * string :=
  InferZones p (map_to_list (pr_zonePrefixes p)) (map_to_list (pr_zonePrefixes p)) t.

Definition policyTupleForSession (v : RuntimeSession) : Tuple :=
  if negb (nat_DNAT (rs_NAT v)) then rs_OriginalTuple v
  else match rs_TranslatedTuple v with
       | None => rs_OriginalTuple v
       | Some t => t <| tp_SrcIP := tp_SrcIP (rs_OriginalTuple v) |> <| tp_SrcPort := tp_SrcPort (rs_OriginalTuple v) |>
       end.

Definition inferSessionZones (p : Program) (v : RuntimeSession) : string * string :=
  let '(sourceZone, destinationZone) := infer_zones p (policyTupleForSession v) in
  let destinationZone :=
    match nat_DNAT (rs_NAT v), rs_TranslatedTuple v with
    | true, Some t => let inferred := address_zone p (tp_DstIP t) in
                      if bool_decide (inferred = "") then destinationZone else inferred
    | _, _ => destinationZone
    end in
  (if bool_decide (sourceZone = "") then ZoneUnknown else sourceZone,
   if bool_decide (destinationZone = "") then ZoneUnknown else destinationZone).

(** ** Evaluating a session *)

Definition decision_changed (id : string) (generation revision : Z) (reason : string) : RuntimeEvent :=
  event "DecisionChanged" id generation revision reason.

Definition session_view (v : RuntimeSession) : View :=
  ViewFromTuple (policyTupleForSession v) (rs_SourceZone v) (rs_DestinationZone v).

(** What [evaluate] reads in one section under [r.mu]. *)
Record Reading : Type := mkReading {
  rdg_program : Program;
  rdg_generation : Z;
  rdg_blocked : bool;
  rdg_revoked : bool;
  rdg_degraded : bool;
}.

Definition read_for (v : RuntimeSession) (sessionID : string) (r : Runtime) : Reading :=
  mkReading (program r) (generation r) (bool_decide (is_Some (blocks r !! addr_String (tp_SrcIP (rs_OriginalTuple v)))))
    (bool_decide (is_Some (revoked r !! sessionID))) (degraded r).

(** The body of [evaluate]; [again] is the recursive call, when [retry < 2]. *)
Definition evaluate_once (again : option (RT (PolicyDecision * option StoreError))) (sessionID : string)
  : RT (PolicyDecision * option StoreError) :=
  got ← peek (fun r => Get (Store r) sessionID);
  match got with
  | None => mret (mkPolicyDecision DecisionNone "" "" 0 "", Some ErrSessionMissing)
  | Some v =>
      rd ← peek (read_for v sessionID);
      let generation := rdg_generation rd in
      if rdg_blocked rd then
        let d := mkPolicyDecision DecisionDrop "SOURCE" "" generation "temporary block overrides cached allow" in
        res ← store_op (fun s _ => SetDecision s sessionID generation (pd_Action d) "" (pd_Reason d));
        match res with
        | Err e => mret (d, Some e)
        | Ok u => _ ← publish (decision_changed sessionID generation (rs_Revision u) (pd_Reason d)); mret (d, None)
        end
      else if rdg_revoked rd then
        mret (mkPolicyDecision DecisionDrop "SESSION" "" generation "session revoked", None)
      else if bool_decide (rs_CacheState v = CacheCached) && (rs_PolicyGeneration v =? generation)
              && negb (rdg_degraded rd) && negb (rs_Revoked v) then
        current ← CurrentGeneration;
        let cached := mret (mkPolicyDecision (rs_Decision v) "SESSION" (rs_MatchedPolicyID v) generation "cached decision", None) in
        if current =? generation then cached
        else default cached again
      else
        let m := Evaluate (rdg_program rd) (session_view v) in
        let d := mkPolicyDecision (pv_Action m) "SESSION" (pv_PolicyID m) generation (pv_Reason m) in
        res ← store_op (fun s _ => SetDecisionIfCurrent s sessionID (rs_Revision v) generation (pd_Action d) (pd_PolicyID d) (pd_Reason d));
        match res with
        | Err ErrStaleDecision => default (mret (d, Some ErrStaleDecision)) again
        | Err e => mret (d, Some e)
        | Ok u =>
            if 0 <? rs_Revision u
            then _ ← publish (decision_changed sessionID generation (rs_Revision u) (pd_Reason d)); mret (d, None)
            else mret (d, None)
        end
  end.

(** [retries] is [2 - retry]: a stale outcome is tried again at most twice. *)
Fixpoint evaluate (retries : nat) (sessionID : string) : RT (PolicyDecision * option StoreError) :=
  evaluate_once (match retries with S n => Some (evaluate n sessionID) | O => None end) sessionID.

Definition Runtime_Evaluate (sessionID : string) : RT (PolicyDecision * option StoreError) := evaluate 2 sessionID.

Definition is_local (v : RuntimeSession) : bool :=
  bool_decide (rs_SourceZone v = ZoneLocal) || bool_decide (rs_DestinationZone v = ZoneLocal).

Definition evaluateObserved (v : RuntimeSession) : RT unit :=
  if is_local v then
    generation ← CurrentGeneration;
    res ← store_op (fun s _ => MarkEvaluationUnavailable s (rs_SessionID v) generation
                                 "local traffic is outside the M2 forward-policy path");
    match res with
    | Ok u => if rs_Revision u =? rs_Revision v then mret tt
              else publish (decision_changed (rs_SessionID v) generation (rs_Revision u) (rs_DecisionReason u))
    | Err _ => mret tt
    end
  else
    out ← Runtime_Evaluate (rs_SessionID v);
    match snd out with
    | None | Some ErrSessionMissing | Some ErrStaleDecision => mret tt
    | Some e => _ ← modify (fun r => r <| trackingDrops ::= inc64 |>); setDegraded (StoreError_message e)
    end.

(** ** Conntrack events *)

(** [created || changed || v.PolicyGeneration != r.CurrentGeneration() || ...];
    the generation is read only when neither flag decides. *)
Definition must_evaluate (v : RuntimeSession) (created changed publishUpdate : bool) : RT bool :=
  if created || changed then mret true
  else
    current ← CurrentGeneration;
    mret (negb (rs_PolicyGeneration v =? current) || publishUpdate && negb (bool_decide (rs_CacheState v = CacheCached))).

Definition applyRecord (record : ConntrackRecord) (now : Time) (kind : EventKind) (publishUpdate : bool) : RT unit :=
  res ← store_op (fun s clock => ApplyObserved s record now clock clock);
  match res with
  | Err ErrStaleEvent => modify (fun r => r <| trackingDrops ::= inc64 |>)
  | Err e => setDegraded (StoreError_message e)
  | Ok (v, isNew, changed) =>
      p ← CurrentProgram;
      let '(sourceZone, destinationZone) := inferSessionZones p v in
      vc ← (if bool_decide (sourceZone <> "") || bool_decide (destinationZone <> "") then
              z ← store_op (fun s _ => SetZones s (rs_SessionID v) sourceZone destinationZone);
              mret (match z with
                    | Ok e => (e, changed || negb (rs_Revision e =? rs_Revision v))
                    | Err _ => (v, changed)
                    end)
            else mret (v, changed));
      let '(v, changed) := vc in
      _ ← (if isNew : bool then
             _ ← modify (fun r => r <| created ::= inc64 |>);
             publish (event "SessionCreated" (rs_SessionID v) 0 (rs_Revision v) "")
           else if publishUpdate && changed then
             _ ← modify (fun r => r <| updated ::= inc64 |>);
             publish (event "SessionUpdated" (rs_SessionID v) 0 (rs_Revision v) (EventKind_string kind))
           else mret tt);
      go ← must_evaluate v isNew changed publishUpdate;
      _ ← (if go : bool then evaluateObserved v else mret tt);
      if isNew || changed then notify [OnSessionChanged v] else peek inspection ≫= fun _ => mret tt
  end.

Definition releaseClosedSession (value : RuntimeSession) (reason : string) : RT unit :=
  g ← peek guards;
  tracked ← atomic (fun r => (r <| revoked ::= delete (rs_SessionID value) |>,
                              bool_decide (is_Some (revoked r !! rs_SessionID value))));
  _ ← match g with
      | Some g =>
          if rs_Revoked value || tracked then
            active ← peek (fun r => HasActiveRevokedConntrackID (Store r) (ci_ID (rs_Identity value)));
            if active : bool then mret tt else _ ← call_guard g (ReleaseSession value); mret tt
          else mret tt
      | None => mret tt
      end;
  _ ← modify (fun r => r <| closedCount ::= inc64 |>);
  _ ← publish (event "SessionClosed" (rs_SessionID value) 0 0 reason);
  notify [OnSessionClosed value].

Definition applyEvent (ev : ConntrackEvent) : RT unit :=
  match ce_Kind ev with
  | EventDestroy =>
      now ← eventTime (ce_Received ev);
      closed ← store_op (fun s clock => Close s (cr_Identity (ce_Record ev)) "conntrack destroy" now clock);
      match closed with
      | Some v => releaseClosedSession v "conntrack destroy"
      | None => mret tt
      end
  | kind => now ← Now; applyRecord (ce_Record ev) now kind true
  end.

(** The sink the source pushes into; the channel refuses when it is full. *)
Definition TryEnqueue (ev : ConntrackEvent) : RT bool :=
  ok ← atomic (fun r => if Z.of_nat (length (queue r)) <? queueSize r
                        then (r <| queue ::= fun q => q ++ [ev] |>, true) else (r, false));
  if ok : bool then mret true
  else
    _ ← modify (fun r => r <| queueDrops ::= inc64 |>);
    _ ← modify (fun r => r <| lossVersion ::= inc64 |>);
    mret false.

(** One turn of [consume]: [None] when the queue is empty. *)
Definition consume_one : RT bool :=
  next ← atomic (fun r => match queue r with [] => (r, None) | ev :: rest => (r <| queue := rest |>, Some ev) end);
  match next with
  | None => mret false
  | Some ev => _ ← applyEvent ev; mret true
  end.

(** [true] when a resync goroutine is started.  [haveSource] is [Source != nil]. *)
Definition ReportLoss (haveSource : bool) (reason : string) (count : Z) (fatal : bool) : RT bool :=
  _ ← modify (fun r => r <| lossVersion ::= inc64 |>);
  should ← atomic (fun r =>
    let r := r <| degraded := true |> <| lastError := reason |> in
    let r := if fatal then r <| eventSourceFailed := true |> else r in
    let should := started r && negb (resyncing r) && haveSource in
    (if should then r <| resyncing := true |> else r, should));
  _ ← modify (fun r => r <| trackingDrops ::= fun x => u64 (x + count) |>);
  mret should.

(** ** Dumps *)

Record DumpResult : Type := mkDumpResult { du_Records : Z; du_Bytes : Z; du_Complete : bool; du_Reason : string }.

(** What [Source.Dump] did: the records it passed to the callback, its result
    and its error. *)
Record Dump : Type := mkDump {
  dp_visited : list ConntrackRecord;
  dp_result : DumpResult;
  dp_error : option SourceError;
}.

Definition dumpLimits (r : Runtime) : Z * Z * Duration :=
  let maxRecords := if Capacity (Store r) <=? 0 then 200000 else Capacity (Store r) in
  let maxBytes := i64 (maxRecords * 2048) in
  (maxRecords, if maxBytes <? 67108864 then 67108864 else maxBytes, 30 * Second).

Definition recordDump (res : DumpResult) (started : Time) : RT unit :=
  _ ← modify (fun r => r <| lastDumpBytes := u64 (du_Bytes res) |>);
  now ← Now;
  _ ← modify (fun r => r <| lastDumpMillis := u64 (Z.quot (time_Sub now started) Millisecond) |>);
  if du_Complete res then mret tt else modify (fun r => r <| dumpIncomplete ::= inc64 |>).

Definition apply_dump (records : list ConntrackRecord) (kind : EventKind) (publishUpdate : bool) : RT unit :=
  for_each records (fun record => now ← Now; applyRecord record now kind publishUpdate).

(** [order] is the order in which Go's iteration visits the live sessions. *)
Definition reconcileMissing (order : RuntimeStore -> list string) (seen : list ConntrackIdentity) (before now : Time)
    (reason : string) : RT unit :=
  removed ← store_op (fun s clock => ReconcileMissing s (order s) seen before now clock reason);
  for_each removed (fun v => releaseClosedSession v reason).

(** The error a dump leaves: its own, an incomplete result, or events lost since
    [lossBefore]. *)
Definition dump_error (d : Dump) (lossBefore : Z) : RT (option SourceError) :=
  match dp_error d with
  | Some e => mret (Some e)
  | None =>
      if negb (du_Complete (dp_result d)) then mret (Some ErrDumpIncomplete)
      else
        now ← peek lossVersion;
        if now =? lossBefore then mret None
        else _ ← modify (fun r => r <| dumpIncomplete ::= inc64 |>); mret (Some ErrDumpIncomplete)
  end.

Definition resync (order : RuntimeStore -> list string) (d : Dump) : RT unit :=
  dumpStarted ← Now;
  _ ← modify (fun r => r <| resyncs ::= inc64 |>);
  lossBefore ← peek lossVersion;
  _ ← apply_dump (dp_visited d) EventUpdate false;
  _ ← recordDump (dp_result d) dumpStarted;
  err ← dump_error d lossBefore;
  _ ← match err with
      | Some e => setDegraded (SourceError_message e)
      | None =>
          now ← Now;
          _ ← reconcileMissing order (cr_Identity <$> dp_visited d) dumpStarted now "conntrack resync no longer contains flow";
          modify (fun r => if eventSourceFailed r then r else r <| degraded := false |> <| lastError := "" |>)
      end;
  modify (fun r => r <| resyncing := false |>).

(** One tick of [periodicResync]: [true] when a resync goroutine is started. *)
Definition periodicResync_tick (haveSource : bool) : RT bool :=
  atomic (fun r => if negb (started r) || resyncing r || negb haveSource then (r, false)
                   else (r <| resyncing := true |>, true)).

Inductive StartOutcome : Type := StartNoSource | StartAlready | StartFailed (message : string) | StartRunning.

(** [subscribed] is the error of [Source.Subscribe].  [StartRunning] starts the
    goroutines that consume events, resync and verify expiries. *)
Definition Start (order : RuntimeStore -> list string) (haveSource : bool) (subscribed : option SourceError) (d : Dump)
  : RT StartOutcome :=
  if negb haveSource then mret StartNoSource
  else
    again ← atomic (fun r => if started r then (r, true)
      else (r <| started := true |> <| eventSourceFailed := false |> <| resyncing := true |>, false));
    if again : bool then mret StartAlready
    else match subscribed with
    | Some e =>
        _ ← setDegraded (SourceError_message e);
        _ ← modify (fun r => r <| started := false |> <| resyncing := false |>);
        mret (StartFailed (SourceError_message e))
    | None =>
        dumpStarted ← Now;
        _ ← modify (fun r => r <| resyncs ::= inc64 |>);
        lossBefore ← peek lossVersion;
        _ ← apply_dump (dp_visited d) EventNew true;
        _ ← recordDump (dp_result d) dumpStarted;
        err ← dump_error d lossBefore;
        _ ← match err with
            | Some e => setDegraded (SourceError_message e)
            | None =>
                now ← Now;
                reconcileMissing order (cr_Identity <$> dp_visited d) dumpStarted now "conntrack resync no longer contains flow"
            end;
        _ ← modify (fun r => r <| resyncing := false |>);
        mret StartRunning
    end.

Definition Stop : RT unit := modify (fun r => r <| started := false |>).

(** ** Expiry and counters: one kernel lookup, then a fenced merge *)

Definition differs_if_known (known got : Z) : bool := negb (known =? 0) && negb (got =? known).
Definition differs_if_named (known got : string) : bool := negb (bool_decide (known = "")) && negb (bool_decide (got = known)).

(** The kernel's answer describes another flow than the candidate. *)
Definition expiry_mismatch (record : ConntrackRecord) (candidate : RuntimeSession) : bool :=
  let got := cr_Identity record in
  let want := rs_Identity candidate in
  negb (ci_Zone got =? ci_Zone want) || negb (ci_Family got =? ci_Family want)
  || negb (bool_decide (ci_Original got = ci_Original want))
  || differs_if_known (ci_ID want) (ci_ID got) || differs_if_known (ci_KernelStart want) (ci_KernelStart got)
  || differs_if_named (ci_BootID want) (ci_BootID got) || differs_if_named (ci_NetworkNS want) (ci_NetworkNS got).

(** [answer] is what [Source.Get] returned; [parentDone] is [parent.Err() != nil]. *)
Definition verifyExpiredCandidate (haveSource : bool) (candidate : RuntimeSession)
    (answer : result SourceError ConntrackRecord) (parentDone : bool) : RT unit :=
  if negb haveSource then mret tt
  else
    _ ← modify (fun r => r <| getChecks ::= inc64 |>);
    if parentDone then mret tt
    else
      let answer := match answer with
                    | Ok record => if expiry_mismatch record candidate then Err ErrAmbiguousIdentity else Ok record
                    | Err e => Err e
                    end in
      now ← Now;
      current ← peek (fun r => ExpiryCandidateCurrent (Store r) candidate now);
      if negb current then mret tt
      else
        let defer reason :=
          _ ← modify (fun r => r <| getUnavailable ::= inc64 |>);
          _ ← store_op (fun s _ => DeferExpired s candidate now reason);
          setDegraded reason in
        match answer with
        | Ok record =>
            if pr_Timeout (cr_Presence record) && (0 <? cr_Timeout record)
            then applyRecord record now EventUpdate false
            else defer "conntrack Get omitted remaining timeout"
        | Err ErrFlowNotFound =>
            closed ← store_op (fun s _ => CloseVerifiedExpired s candidate now);
            match closed with
            | Some v => releaseClosedSession v "verified conntrack expiry"
            | None => mret tt
            end
        | Err _ => defer "conntrack expiry verification unavailable"
        end.

(** One tick of [verifyExpiryLoop] up to the candidates handed to the workers. *)
Definition verifyExpiry_tick (now : Time) : RT (list RuntimeSession) :=
  _ ← store_op (fun s _ => (PruneClosed s now, tt));
  first ← peek Store;
  found ← peek (fun r => ExpiredCandidates first (Store r) now 32);
  let '(candidates, backlog, oldest) := found in
  _ ← modify (fun r => r <| expiryBacklog := u64 backlog |>);
  _ ← modify (fun r => r <| expiryOldest := u64 (Z.quot oldest Second) |>);
  mret candidates.

(** [record] answers for exactly the incarnation [identity]. *)
Definition refresh_answer_ok (identity : ConntrackIdentity) (record : ConntrackRecord) : bool :=
  let got := cr_Identity record in
  let p := cr_Presence record in
  bool_decide (ci_BootID got = ci_BootID identity) && bool_decide (ci_NetworkNS got = ci_NetworkNS identity)
  && (ci_Zone got =? ci_Zone identity) && (ci_Family got =? ci_Family identity)
  && bool_decide (ci_Original got = ci_Original identity) && pr_ID p && (ci_ID got =? ci_ID identity)
  && ((ci_KernelStart identity =? 0) || pr_Timestamp p && (ci_KernelStart got =? ci_KernelStart identity)).

Definition RefreshSessionCounters (haveSource : bool) (candidate : RuntimeSession)
    (answer : result SourceError ConntrackRecord) (ctxDone : bool) : RT unit :=
  let identity := rs_Identity candidate in
  if negb haveSource || (ci_ID identity =? 0) || negb (Tuple_Valid (ci_Original identity)) then mret tt
  else
    slot ← atomic (fun r => if refreshSlots r <? 4 then (r <| refreshSlots ::= Z.add 1 |>, true) else (r, false));
    if negb slot then mret tt
    else
      _ ← match answer with
          | Err _ => mret tt
          | Ok record =>
              if ctxDone || negb (refresh_answer_ok identity record) then mret tt
              else
                got ← peek (fun r => Get (Store r) (rs_SessionID candidate));
                match got with
                | None => mret tt
                | Some current =>
                    if negb (bool_decide (rs_Identity current = identity))
                       || negb (IsZero (cr_ObservedAt record)) && After (rs_LastObservedAt current) (cr_ObservedAt record)
                    then mret tt
                    else now ← Now; applyRecord record now EventUpdate false
                end
          end;
      modify (fun r => r <| refreshSlots ::= Z.add (-1) |>).

(** At most eight items of a page are refreshed; [ctxDone i] is the deadline
    check before item [i], and [get] tells the answer for an item together with
    whether the deadline had passed when it came. *)
Fixpoint refresh_items (haveSource : bool) (get : RuntimeSession -> result SourceError ConntrackRecord * bool)
    (ctxDone : nat -> bool) (i : nat) (items : list RuntimeSession) : RT unit :=
  match items with
  | [] => mret tt
  | item :: rest =>
      if (8 <=? Z.of_nat i) || ctxDone i then mret tt
      else _ ← RefreshSessionCounters haveSource item (get item).1 (get item).2; refresh_items haveSource get ctxDone (S i) rest
  end.

Definition RefreshPageCounters (haveSource : bool) (get : RuntimeSession -> result SourceError ConntrackRecord * bool)
    (ctxDone : nat -> bool) (items : list RuntimeSession) : RT unit :=
  if negb haveSource then mret tt else refresh_items haveSource get ctxDone 0 items.

(** ** Generations *)

Inductive RuntimeError : Type :=
| GenerationZero | GenerationNotIncreasing | BlockIndicatorRequired | BlockIndicatorNotIPv4 | BlockExpired | BlockCapacity
| FromStore (e : StoreError)
| FromGuard (message : string).

Definition invalidated_event (id : string) (generation revision : Z) (reason : string) : RuntimeEvent :=
  event "SessionInvalidated" id generation revision reason.

(** The body of the loop over the listed sessions; the sessions it changed. *)
Definition reinvalidate (p : Program) (generation : Z) (reason : string) (current : RuntimeSession) : RT (list RuntimeSession) :=
  if rs_Revoked current then mret []
  else
    let '(sourceZone, destinationZone) := inferSessionZones p current in
    z ← store_op (fun s _ => SetZones s (rs_SessionID current) sourceZone destinationZone);
    let current := match z with Ok e => e | Err _ => current end in
    res ← store_op (fun s clock => Invalidate s (rs_SessionID current) generation reason clock);
    match res with
    | Err _ => mret []
    | Ok v =>
        _ ← publish (invalidated_event (rs_SessionID current) generation (rs_Revision v) reason);
        _ ← (if is_local current then evaluateObserved v else mret tt);
        mret [v]
    end.

Fixpoint reinvalidate_all (p : Program) (generation : Z) (reason : string) (l : list RuntimeSession) : RT (list RuntimeSession) :=
  match l with
  | [] => mret []
  | v :: rest =>
      changed ← reinvalidate p generation reason v;
      more ← reinvalidate_all p generation reason rest;
      mret (changed ++ more)
  end.

(** The cutover: the program and its generation change in one section. *)
Definition switch_program (p : Program) (gen : Z) (r : Runtime) : Runtime * bool :=
  if gen <=? generation r then (r, false)
  else (r <| program := p <| pr_Generation := gen |> |> <| generation := gen |>, true).

Definition activateWhileInspectionPaused (p : Program) (gen : Z) (reason : string)
  : RT (list RuntimeSession * option RuntimeError) :=
  if gen =? 0 then mret ([], Some GenerationZero)
  else
    ok ← atomic (switch_program p gen);
    if negb ok then mret ([], Some GenerationNotIncreasing)
    else
      listed ← peek (fun r => List_ (Store r));
      changed ← reinvalidate_all p gen reason listed;
      mret (changed, None).

Definition Activate (p : Program) (gen : Z) (reason : string) : RT (option RuntimeError) :=
  present ← peek inspection;
  let tell c : RT unit := if present : bool then modify (fun r => r <| inspectionCalls ::= fun l => l ++ c |>) else mret tt in
  _ ← tell [BeginActivation];
  out ← activateWhileInspectionPaused p gen reason;
  _ ← tell (EndActivation :: (OnSessionChanged <$> fst out));
  mret (snd out).

Definition Runtime_Invalidate (id reason : string) : RT (option RuntimeError) :=
  generation ← CurrentGeneration;
  res ← store_op (fun s clock => Invalidate s id generation reason clock);
  match res with
  | Ok v => _ ← publish (invalidated_event id generation (rs_Revision v) reason); mret None
  | Err e => mret (Some (FromStore e))
  end.

Fixpoint invalidate_each (reason : string) (l : list RuntimeSession) (first : option RuntimeError) : RT (option RuntimeError) :=
  match l with
  | [] => mret first
  | v :: rest =>
      err ← Runtime_Invalidate (rs_SessionID v) reason;
      invalidate_each reason rest (match first with Some _ => first | None => err end)
  end.

Definition InvalidateAll (reason : string) : RT (option RuntimeError) :=
  listed ← peek (fun r => List_ (Store r));
  invalidate_each reason listed None.

(** ** Revocation *)

(** [victim] is the entry Go's iteration meets first. *)
Definition remember_revoked (victim : gmap string RuntimeSession -> option (string * RuntimeSession))
    (id : string) (v : RuntimeSession) (r : Runtime) : Runtime * option RuntimeSession :=
  let r := if maxRevoked r <=? 0 then r <| maxRevoked := 10000 |> else r in
  let '(r, evicted) :=
    if maxRevoked r <=? Z.of_nat (size (revoked r)) then
      match victim (revoked r) with
      | Some (k, old) => (r <| revoked ::= delete k |>, Some old)
      | None => (r, None)
      end
    else (r, None) in
  (r <| revoked ::= insert id v |>, evicted).

Definition RevokeContext (victim : gmap string RuntimeSession -> option (string * RuntimeSession)) (id reason : string)
  : RT (option RuntimeError) :=
  got ← peek (fun r => Get (Store r) id);
  match got with
  | None => mret (Some (FromStore ErrSessionMissing))
  | Some v =>
      g ← peek guards;
      refused ← match g with Some g => call_guard g (RevokeSession v) | None => mret None end;
      match refused with
      | Some message => mret (Some (FromGuard message))
      | None =>
          out ← atomic (fun r => let '(r', evicted) := remember_revoked victim id v r in (r', (evicted, guards r)));
          let '(evicted, g) := out in
          let release v := match g with Some g => _ ← call_guard g (ReleaseSession v); mret tt | None => mret tt end in
          _ ← match evicted with Some old => release old | None => mret tt end;
          currentGeneration ← CurrentGeneration;
          res ← store_op (fun s clock => MarkRevoked s id currentGeneration reason clock);
          match res with
          | Err e =>
              _ ← modify (fun r => r <| revoked ::= delete id |>);
              _ ← release v;
              mret (Some (FromStore e))
          | Ok _ =>
              _ ← publish (invalidated_event (rs_SessionID v) currentGeneration 0 reason);
              _ ← publish (decision_changed (rs_SessionID v) currentGeneration 0 "revoked");
              mret None
          end
      end
  end.

(** ** Temporary blocks *)

Definition reevaluate (reason : string) (current : RuntimeSession) : RT unit :=
  err ← Runtime_Invalidate (rs_SessionID current) reason;
  match err with None => evaluateObserved current | Some _ => mret tt end.

Definition from_source (indicator : string) (v : RuntimeSession) : bool :=
  EqualFold (addr_String (tp_SrcIP (rs_OriginalTuple v))) indicator.

Definition add_block (block : TemporaryBlock) (r : Runtime) : Runtime * option (option GuardEnforcer) :=
  if negb (bool_decide (is_Some (blocks r !! tb_Indicator block))) && (10000 <=? Z.of_nat (size (blocks r))) then (r, None)
  else (r <| blocks ::= insert (tb_Indicator block) block |>, Some (guards r)).

(** The rollback of a block the enforcer refused, unless it was replaced. *)
Definition withdraw_block (block : TemporaryBlock) (r : Runtime) : Runtime :=
  match blocks r !! tb_Indicator block with
  | Some current =>
      if bool_decide (tb_BlockID current = tb_BlockID block) && time_Equal (tb_ExpiresAt current) (tb_ExpiresAt block)
      then r <| blocks ::= delete (tb_Indicator block) |> else r
  | None => r
  end.

Definition AddTemporaryBlockContext (block : TemporaryBlock) : RT (option RuntimeError) :=
  let indicator := TrimSpace (tb_Indicator block) in
  if bool_decide (indicator = "") then mret (Some BlockIndicatorRequired)
  else match ParseAddr indicator with
  | Some address =>
      if negb (Is4 address) then mret (Some BlockIndicatorNotIPv4)
      else
        let block := block <| tb_Indicator := addr_String address |> in
        block ← (if IsZero (tb_ExpiresAt block)
                 then now ← Now; mret (block <| tb_ExpiresAt := now + 5 * Minute |>) else mret block);
        now ← Now;
        if negb (After (tb_ExpiresAt block) now) then mret (Some BlockExpired)
        else
          added ← atomic (add_block block);
          match added with
          | None => mret (Some BlockCapacity)
          | Some g =>
              refused ← match g with
                        | Some g => call_guard g (AddSourceBlock (tb_Indicator block) (tb_ExpiresAt block))
                        | None => mret None
                        end;
              match refused with
              | Some message => _ ← modify (withdraw_block block); mret (Some (FromGuard message))
              | None =>
                  listed ← peek (fun r => List_ (Store r));
                  _ ← for_each listed (fun v => if from_source (tb_Indicator block) v
                                               then reevaluate "temporary block" v else mret tt);
                  mret None
              end
          end
  | None => mret (Some BlockIndicatorNotIPv4)
  end.

Definition reevaluateSource (indicator reason : string) : RT unit :=
  listed ← peek (fun r => List_ (Store r));
  for_each listed (fun v => if rs_Revoked v || negb (from_source indicator v) then mret tt else reevaluate reason v).

(** [order] is the order in which Go's iteration visits the blocks. *)
Definition block_key (order : gmap string TemporaryBlock -> list (string * TemporaryBlock)) (indicator : string) (r : Runtime) : string :=
  if bool_decide (is_Some (blocks r !! indicator)) then indicator
  else match find (fun e => bool_decide (tb_BlockID e.2 = indicator)) (order (blocks r)) with
       | Some e => e.1
       | None => indicator
       end.

Definition RemoveTemporaryBlockContext (order : gmap string TemporaryBlock -> list (string * TemporaryBlock))
    (indicator : string) : RT (option RuntimeError) :=
  let indicator := match ParseAddr (TrimSpace indicator) with
                   | Some address => if Is4 address then addr_String address else indicator
                   | None => indicator
                   end in
  out ← peek (fun r => (guards r, block_key order indicator r));
  let '(g, key) := out in
  refused ← match g with Some g => call_guard g (RemoveSourceBlock key) | None => mret None end;
  match refused with
  | Some message => mret (Some (FromGuard message))
  | None =>
      _ ← modify (fun r => r <| blocks ::= delete key |>);
      _ ← reevaluateSource key "temporary block removed";
      mret None
  end.

Definition SweepBlocks (order : gmap string TemporaryBlock -> list (string * TemporaryBlock)) (now : Time) : RT unit :=
  out ← atomic (fun r =>
    let expired := filter (fun e => After (tb_ExpiresAt e.2) now = false) (order (blocks r)) in
    (r <| blocks ::= fun m => foldl (fun m e => delete e.1 m) m expired |>, (guards r, expired.*1)));
  let '(g, expired) := out in
  _ ← match g with
      | Some g => for_each expired (fun indicator => _ ← call_guard g (RemoveSourceBlock indicator); mret tt)
      | None => mret tt
      end;
  for_each expired (fun indicator => reevaluateSource indicator "temporary block expired").

Definition Blocks (order : gmap string TemporaryBlock -> list (string * TemporaryBlock)) (r : Runtime) : list TemporaryBlock :=
  (filter (fun e => After (tb_ExpiresAt e.2) (clock r) = true) (order (blocks r))).*2.

(** [gateSourceBlocked] of [gate_service.go]: the entry under the lock, then the clock. *)
Definition gateSourceBlocked (address : Addr) : RT bool :=
  entry ← peek (fun r => blocks r !! addr_String address);
  now ← Now;
  mret (match entry with Some block => After (tb_ExpiresAt block) now | None => false end).

(** ** Reports *)

Definition Runtime_Stats (r : Runtime) : RuntimeStats :=
  let s := Stats (Store r) in
  s <| stat_EventDrops ::= fun x => u64 (x + Dropped (Events r) + queueDrops r) |>
    <| stat_TrackingDrops ::= fun x => u64 (x + trackingDrops r) |>
    <| stat_Created := created r |> <| stat_Closed := closedCount r |> <| stat_Resyncs := resyncs r |>
    <| stat_DumpIncomplete := dumpIncomplete r |> <| stat_LastDumpBytes := lastDumpBytes r |>
    <| stat_LastDumpMillis := lastDumpMillis r |> <| stat_GetChecks := getChecks r |>
    <| stat_GetUnavailable := getUnavailable r |> <| stat_ExpiryBacklog := expiryBacklog r |>
    <| stat_ExpiryOldestSeconds := expiryOldest r |>.

Definition Health (haveSource : bool) (r : Runtime) : bool * string :=
  if negb haveSource then (false, "conntrack source unavailable")
  else if negb (started r) then (false, "conntrack runtime not started")
  else (negb (degraded r), lastError r).
