(* ===== verification/RuntimeProps.v ===== *)
(** * Theorems about the engine runtime

    Every operation of [Runtime] keeps the runtime's invariant and moves the
    policy generation only forward, in one section together with the program;
    on that rely condition the outcome of an evaluation is tied to a moment at
    which it was correct. *)

From S2P Require Import Prelude GoStr Sha256 Netip Domain Flow SessionStore StoreInv StoreProps Config.
From S2P Require Import Connectivity EventRing Interleave Runtime.

(** ** The invariant and the rely condition *)

Record runtime_ok (r : Runtime) : Prop := mkRuntimeOk {
  ok_store : store_inv (Store r);
  ok_ring : 0 < rg_capacity (Events r) /\ Z.of_nat (length (rg_items (Events r))) <= rg_capacity (Events r);
  ok_blocks : Z.of_nat (size (blocks r)) <= 10000;
  ok_revoked : 0 < maxRevoked r /\ Z.of_nat (size (revoked r)) <= maxRevoked r;
  ok_queue : Z.of_nat (length (queue r)) <= queueSize r;
  ok_tied : pr_Generation (program r) = generation r;
}.

Record runtime_rely (r r' : Runtime) : Prop := mkRuntimeRely {
  rely_generation : generation r <= generation r';
  rely_program : generation r' = generation r -> program r' = program r;
  rely_ok : runtime_ok r -> runtime_ok r';
}.

#[global] Instance runtime_rely_preorder : PreOrder runtime_rely.
Proof.
  split; [intros r; split; auto; lia|]. intros a b c [H1 H2 H3] [H4 H5 H6]. split; [lia | | auto].
  intros E. rewrite H5, H2; [done| |]; lia.
Qed.

(** A section that leaves the policy alone moves the rest of the invariant. *)
Lemma rely_same_policy r r' :
  generation r' = generation r -> program r' = program r -> (runtime_ok r -> runtime_ok r') -> runtime_rely r r'.
Proof. intros Hg Hp Hok. split; [lia | by intros _ | exact Hok]. Qed.

(** What the invariant looks at. *)
Definition footprint (r : Runtime) :=
  (Store r, Events r, program r, generation r, blocks r, (revoked r, maxRevoked r, queue r, queueSize r)).

Lemma rely_frame r r' : footprint r' = footprint r -> runtime_rely r r'.
Proof.
  unfold footprint. intros E. injection E as E1 E2 E3 E4 E5 E6 E7 E8 E9.
  apply rely_same_policy; [done..|]. intros []. by constructor; rewrite ?E1, ?E2, ?E3, ?E4, ?E5, ?E6, ?E7, ?E8, ?E9.
Qed.

Lemma rely_store r s : (store_inv (Store r) -> store_inv s) -> runtime_rely r (r <| Store := s |>).
Proof. intros Hs. apply rely_same_policy; [done..|]. intros []. constructor; try done. by apply Hs. Qed.

Lemma rely_publish r clock ev : runtime_rely r (r <| Events := (Publish (Events r) clock ev).1 |>).
Proof.
  apply rely_same_policy; [done..|]. intros [? [Hc Hb] ? ? ? ?]. constructor; try done.
  change (Events (r <| Events := (Publish (Events r) clock ev).1 |>)) with (Publish (Events r) clock ev).1.
  rewrite Publish_ring. cbn [rg_capacity rg_items]. split; [done|]. rewrite length_app.
  destruct (Z.leb_spec (rg_capacity (Events r)) (Z.of_nat (length (rg_items (Events r))))); [|simpl; lia].
  destruct (rg_items (Events r)); simpl in *; lia.
Qed.

Lemma rely_blocks r m : (Z.of_nat (size (blocks r)) <= 10000 -> Z.of_nat (size m) <= 10000) ->
  runtime_rely r (r <| blocks := m |>).
Proof. intros Hm. apply rely_same_policy; [done..|]. intros []. constructor; try done. by apply Hm. Qed.

Lemma rely_revoked r m : (Z.of_nat (size (revoked r)) <= maxRevoked r -> Z.of_nat (size m) <= maxRevoked r) ->
  runtime_rely r (r <| revoked := m |>).
Proof. intros Hm. apply rely_same_policy; [done..|]. intros [? ? ? [? ?] ? ?]. constructor; try done. split; [done | by apply Hm]. Qed.

Lemma rely_queue r q : (Z.of_nat (length (queue r)) <= queueSize r -> Z.of_nat (length q) <= queueSize r) ->
  runtime_rely r (r <| queue := q |>).
Proof. intros Hq. apply rely_same_policy; [done..|]. intros []. constructor; try done. by apply Hq. Qed.

Lemma rely_switch p gen r : runtime_rely r (switch_program p gen r).1.
Proof.
  unfold switch_program. destruct (Z.leb_spec gen (generation r)); [reflexivity|]. cbn [fst].
  split; [simpl; lia | intros E; exfalso; change (gen = generation r) in E; lia |]. intros []. by constructor.
Qed.

Lemma size_delete_le {V} (k : string) (m : gmap string V) : (size (delete k m) <= size m)%nat.
Proof. apply map_subseteq_size, delete_subseteq. Qed.

Lemma size_deletes {V} (l : list (string * V)) (m : gmap string V) : (size (foldl (fun m e => delete e.1 m) m l) <= size m)%nat.
Proof. revert m. induction l as [| e l IH]; intros m; simpl; [done|]. etrans; [apply IH | apply size_delete_le]. Qed.

(** ** Sections of the operations *)

Abbreviation guar_rt := (guar runtime_rely).

Lemma guar_store {A} (op : RuntimeStore -> Time -> RuntimeStore * A) :
  (forall s c, store_inv s -> store_inv (op s c).1) -> guar_rt (store_op op).
Proof.
  intros Hop. apply guar_atomic. intros r. specialize (Hop (Store r) (clock r)). destruct (op _ _) as [s a]. by apply rely_store.
Qed.

Lemma guar_frame (f : Runtime -> Runtime) : (forall r, footprint (f r) = footprint r) -> guar_rt (modify f).
Proof. intros Hf r. split; [by apply rely_frame | done]. Qed.

Lemma guar_modify (f : Runtime -> Runtime) : (forall r, runtime_rely r (f r)) -> guar_rt (modify f).
Proof. intros Hf r. by split. Qed.

Lemma guar_publish ev : guar_rt (publish ev).
Proof. intros r. split; [apply rely_publish | done]. Qed.

Lemma guar_setDegraded m : guar_rt (setDegraded m).
Proof. by apply guar_frame. Qed.

Lemma guar_call_guard g c : guar_rt (call_guard g c).
Proof. apply guar_atomic. intros r. by apply rely_frame. Qed.

Lemma guar_read {A} (g : Runtime -> A) : guar_rt (peek g).
Proof. apply guar_peek, _. Qed.

Create HintDb guar discriminated.
#[export] Hint Resolve guar_publish guar_setDegraded guar_call_guard guar_read : guar.
#[export] Hint Resolve inv_Invalidate inv_MarkEvaluationUnavailable inv_setDecision inv_MarkRevoked inv_SetZones
  inv_ApplyObserved inv_Close inv_ReconcileMissing inv_CloseVerifiedExpired inv_DeferExpired : guar.

(** One step of a section-by-section proof. *)
Ltac guar_step :=
  lazymatch goal with
  | |- guar _ (mbind _ _) => apply guar_bind
  | |- guar _ (_ ≫= _) => apply guar_bind
  | |- guar _ (mret _) => exact I
  | |- guar _ (Ret _) => exact I
  | |- guar _ (peek _) => apply guar_read
  | |- guar _ CurrentGeneration => apply guar_read
  | |- guar _ CurrentProgram => apply guar_read
  | |- guar _ Now => apply guar_read
  | |- guar _ (store_op _) => apply guar_store; intros ? ?; eauto with guar
  | |- guar _ (for_each _ _) => apply guar_for_each; intros ?
  | |- guar _ (match ?x with _ => _ end) => destruct x
  | |- guar _ (modify _) => solve [apply guar_frame; done]
  | |- forall _, _ => intros ?
  | |- guar _ _ => solve [eauto with guar]
  end.
Ltac guar_all := repeat guar_step.

Lemma guar_default {A} (p : RT A) again : guar_rt p -> (forall q, again = Some q -> guar_rt q) -> guar_rt (default p again).
Proof. destruct again; simpl; auto. Qed.

Lemma guar_evaluate n id : guar_rt (evaluate n id).
Proof.
  induction n as [| n IH]; cbn [evaluate]; unfold evaluate_once; guar_all;
    unfold SetDecision, SetDecisionIfCurrent; eauto with guar.
  all: apply guar_default; [done | by intros ? [= <-]].
Qed.

Lemma guar_evaluateObserved v : guar_rt (evaluateObserved v).
Proof. pose proof (guar_evaluate 2). unfold evaluateObserved, Runtime_Evaluate. guar_all. Qed.
#[export] Hint Resolve guar_evaluateObserved : guar.

Lemma guar_notify c : guar_rt (notify c).
Proof. unfold notify. guar_all. Qed.
#[export] Hint Resolve guar_notify : guar.

Lemma guar_applyRecord record now kind pu : guar_rt (applyRecord record now kind pu).
Proof. unfold applyRecord, must_evaluate. guar_all. Qed.
#[export] Hint Resolve guar_applyRecord : guar.

Lemma rely_forget r id : runtime_rely r (r <| revoked ::= delete id |>).
Proof. apply rely_revoked. intros. etrans; [apply inj_le, size_delete_le | done]. Qed.

Lemma guar_releaseClosedSession v reason : guar_rt (releaseClosedSession v reason).
Proof. unfold releaseClosedSession. guar_all. apply guar_atomic. intros r. apply rely_forget. Qed.
#[export] Hint Resolve guar_releaseClosedSession : guar.

Lemma guar_applyEvent ev : guar_rt (applyEvent ev).
Proof. unfold applyEvent, eventTime. guar_all. Qed.
#[export] Hint Resolve guar_applyEvent : guar.

Lemma guar_TryEnqueue ev : guar_rt (TryEnqueue ev).
Proof.
  unfold TryEnqueue. guar_all. apply guar_atomic. intros r.
  destruct (Z.ltb_spec (Z.of_nat (length (queue r))) (queueSize r)); [|reflexivity].
  apply rely_queue. rewrite length_app. simpl. lia.
Qed.

Lemma guar_consume_one : guar_rt consume_one.
Proof.
  unfold consume_one. guar_all. apply guar_atomic. intros r. destruct (queue r) as [| ev rest] eqn:E; [reflexivity|].
  apply rely_queue. rewrite E. simpl. lia.
Qed.

Lemma guar_ReportLoss hs reason n fatal : guar_rt (ReportLoss hs reason n fatal).
Proof. unfold ReportLoss. guar_all. apply guar_atomic. intros r. apply rely_frame. cbn [fst]. by repeat case_match. Qed.

Lemma guar_apply_dump l k pu : guar_rt (apply_dump l k pu).
Proof. unfold apply_dump. guar_all. Qed.
#[export] Hint Resolve guar_apply_dump : guar.

Lemma guar_recordDump d t : guar_rt (recordDump d t).
Proof. unfold recordDump. guar_all. Qed.
#[export] Hint Resolve guar_recordDump : guar.

Lemma guar_reconcileMissing o seen a b reason : guar_rt (reconcileMissing o seen a b reason).
Proof. unfold reconcileMissing. guar_all. Qed.
#[export] Hint Resolve guar_reconcileMissing : guar.

Lemma guar_dump_error d n : guar_rt (dump_error d n).
Proof. unfold dump_error. guar_all. Qed.
#[export] Hint Resolve guar_dump_error : guar.

Lemma guar_resync o d : guar_rt (resync o d).
Proof. unfold resync. guar_all. apply guar_frame. intros r. by case_match. Qed.

Lemma guar_Start o hs sub d : guar_rt (Start o hs sub d).
Proof. unfold Start. guar_all. apply guar_atomic. intros r. apply rely_frame. by case_match. Qed.

Lemma guar_periodicResync_tick hs : guar_rt (periodicResync_tick hs).
Proof. apply guar_atomic. intros r. apply rely_frame. by case_match. Qed.

Lemma guar_verifyExpiredCandidate hs c a pd : guar_rt (verifyExpiredCandidate hs c a pd).
Proof. unfold verifyExpiredCandidate. guar_all. Qed.

Lemma guar_verifyExpiry_tick now : guar_rt (verifyExpiry_tick now).
Proof. unfold verifyExpiry_tick. guar_all. by apply inv_PruneClosed. Qed.

Lemma guar_RefreshSessionCounters hs c a d : guar_rt (RefreshSessionCounters hs c a d).
Proof. unfold RefreshSessionCounters. guar_all. apply guar_atomic. intros r. apply rely_frame. by case_match. Qed.
#[export] Hint Resolve guar_RefreshSessionCounters : guar.

Lemma guar_refresh_items hs g d i l : guar_rt (refresh_items hs g d i l).
Proof. revert i. induction l as [| x l IH]; intros i; cbn [refresh_items]; guar_all. Qed.

Lemma guar_reinvalidate_all p g reason l : guar_rt (reinvalidate_all p g reason l).
Proof. induction l as [| v l IH]; cbn [reinvalidate_all]; unfold reinvalidate; guar_all. Qed.
#[export] Hint Resolve guar_reinvalidate_all : guar.

Lemma guar_activateWhileInspectionPaused p g reason : guar_rt (activateWhileInspectionPaused p g reason).
Proof. unfold activateWhileInspectionPaused. guar_all. apply guar_atomic. intros r. apply rely_switch. Qed.
#[export] Hint Resolve guar_activateWhileInspectionPaused : guar.

Lemma guar_Activate p g reason : guar_rt (Activate p g reason).
Proof. unfold Activate. guar_all. Qed.

Lemma guar_Invalidate id reason : guar_rt (Runtime_Invalidate id reason).
Proof. unfold Runtime_Invalidate. guar_all. Qed.
#[export] Hint Resolve guar_Invalidate : guar.

Lemma guar_InvalidateAll reason : guar_rt (InvalidateAll reason).
Proof.
  unfold InvalidateAll. guar_all. generalize (@None RuntimeError).
  induction a as [| v l IH]; intros first; cbn [invalidate_each]; guar_all.
Qed.

(** Go's iteration over a nonempty map visits one of its entries. *)
Definition picks_entry {V} (victim : gmap string V -> option (string * V)) : Prop :=
  forall m, m <> ∅ -> exists k v, victim m = Some (k, v) /\ m !! k = Some v.

Lemma rely_remember_revoked victim id v r : picks_entry victim -> runtime_rely r (remember_revoked victim id v r).1.
Proof.
  intros Hv.
  assert (Hp : generation (remember_revoked victim id v r).1 = generation r /\ program (remember_revoked victim id v r).1 = program r).
  { unfold remember_revoked. destruct (maxRevoked r <=? 0); (destruct (_ <=? Z.of_nat _); [|done]);
      (destruct (victim _) as [[k old]|]; done). }
  apply rely_same_policy; [apply Hp..|].
  intros [? ? ? [Hmax Hsize] ? ?]. unfold remember_revoked. rewrite (proj2 (Z.leb_gt (maxRevoked r) 0)) by lia.
  assert (Hins : forall (m : gmap string RuntimeSession), Z.of_nat (size m) < maxRevoked r ->
            Z.of_nat (size (<[id := v]> m)) <= maxRevoked r).
  { intros m Hm. rewrite map_size_insert. case_match; simpl; lia. }
  destruct (Z.leb_spec (maxRevoked r) (Z.of_nat (size (revoked r)))) as [Hfull | Hfree].
  - destruct (Hv (revoked r)) as (k & old & Ek & Hk).
    { intros E. rewrite E, map_size_empty in Hfull. simpl in Hfull. lia. }
    rewrite Ek. constructor; try done. split; [done|]. apply Hins. change (Z.of_nat (size (delete k (revoked r))) < maxRevoked r). rewrite map_size_delete_Some by (by eexists).
    assert (size (revoked r) <> O) by (intros E; apply map_size_empty_inv in E; by rewrite E in Hk). lia.
  - constructor; try done. split; [done|]. by apply Hins.
Qed.

Lemma guar_RevokeContext victim id reason : picks_entry victim -> guar_rt (RevokeContext victim id reason).
Proof.
  intros Hv. unfold RevokeContext. guar_all.
  - apply guar_atomic. intros rt. pose proof (rely_remember_revoked victim id r rt Hv). by destruct (remember_revoked _ _ _ _).
  - apply guar_modify. intros rt. apply rely_forget.
Qed.

Lemma guar_reevaluate reason v : guar_rt (reevaluate reason v).
Proof. unfold reevaluate. guar_all. Qed.
#[export] Hint Resolve guar_reevaluate : guar.

Lemma guar_reevaluateSource i reason : guar_rt (reevaluateSource i reason).
Proof. unfold reevaluateSource. guar_all. Qed.
#[export] Hint Resolve guar_reevaluateSource : guar.

Lemma rely_add_block b r : runtime_rely r (add_block b r).1.
Proof.
  unfold add_block. destruct (_ && _) eqn:E; [reflexivity|]. cbn [fst]. apply rely_blocks. intros Hb.
  rewrite map_size_insert. destruct (blocks r !! tb_Indicator b) eqn:El; simpl; [lia|].
  rewrite bool_decide_eq_false_2 in E by (intros [? ?]; congruence). simpl in E. split_bool. lia.
Qed.

Lemma rely_withdraw_block b r : runtime_rely r (withdraw_block b r).
Proof.
  unfold withdraw_block. repeat case_match; try reflexivity. apply rely_blocks. intros. etrans; [apply inj_le, size_delete_le | done].
Qed.

Lemma guar_AddTemporaryBlockContext b : guar_rt (AddTemporaryBlockContext b).
Proof.
  unfold AddTemporaryBlockContext. guar_all.
  all: first [apply guar_atomic; intros rt; apply rely_add_block | apply guar_modify; intros rt; apply rely_withdraw_block].
Qed.

Lemma guar_RemoveTemporaryBlockContext o i : guar_rt (RemoveTemporaryBlockContext o i).
Proof.
  unfold RemoveTemporaryBlockContext. guar_all.
  all: apply guar_modify; intros rt; apply rely_blocks; intros; (etrans; [apply inj_le, size_delete_le | done]).
Qed.

Lemma guar_SweepBlocks o now : guar_rt (SweepBlocks o now).
Proof.
  unfold SweepBlocks. guar_all. apply guar_atomic. intros r. apply rely_blocks. intros.
  etrans; [apply inj_le, size_deletes | done].
Qed.

(** ** The operations as one type *)

Inductive Operation : Type :=
| DoEvaluate (id : string)
| DoEvent (ev : ConntrackEvent)
| DoEnqueue (ev : ConntrackEvent)
| DoConsume
| DoLoss (haveSource : bool) (reason : string) (count : Z) (fatal : bool)
| DoStart (order : RuntimeStore -> list string) (haveSource : bool) (subscribed : option SourceError) (d : Dump)
| DoStop
| DoResync (order : RuntimeStore -> list string) (d : Dump)
| DoResyncTick (haveSource : bool)
| DoExpiryTick (now : Time)
| DoVerify (haveSource : bool) (c : RuntimeSession) (answer : result SourceError ConntrackRecord) (parentDone : bool)
| DoRefreshPage (haveSource : bool) (get : RuntimeSession -> result SourceError ConntrackRecord * bool)
    (ctxDone : nat -> bool) (items : list RuntimeSession)
| DoActivate (p : Program) (generation : Z) (reason : string)
| DoInvalidate (id reason : string)
| DoInvalidateAll (reason : string)
| DoRevoke (victim : gmap string RuntimeSession -> option (string * RuntimeSession)) (id reason : string)
| DoAddBlock (b : TemporaryBlock)
| DoRemoveBlock (order : gmap string TemporaryBlock -> list (string * TemporaryBlock)) (indicator : string)
| DoSweepBlocks (order : gmap string TemporaryBlock -> list (string * TemporaryBlock)) (now : Time)
| DoSetGuards (g : option GuardEnforcer)
| DoSetInspection (limits : option (Z * Duration))
| DoTimePasses (now : Time).

Definition void {A} (p : RT A) : RT unit := _ ← p; mret tt.

Definition perform (op : Operation) : RT unit :=
  match op with
  | DoEvaluate id => void (Runtime_Evaluate id)
  | DoEvent ev => applyEvent ev
  | DoEnqueue ev => void (TryEnqueue ev)
  | DoConsume => void consume_one
  | DoLoss hs reason count fatal => void (ReportLoss hs reason count fatal)
  | DoStart order hs sub d => void (Start order hs sub d)
  | DoStop => Stop
  | DoResync order d => resync order d
  | DoResyncTick hs => void (periodicResync_tick hs)
  | DoExpiryTick now => void (verifyExpiry_tick now)
  | DoVerify hs c answer pd => verifyExpiredCandidate hs c answer pd
  | DoRefreshPage hs get done items => RefreshPageCounters hs get done items
  | DoActivate p g reason => void (Activate p g reason)
  | DoInvalidate id reason => void (Runtime_Invalidate id reason)
  | DoInvalidateAll reason => void (InvalidateAll reason)
  | DoRevoke victim id reason => void (RevokeContext victim id reason)
  | DoAddBlock b => void (AddTemporaryBlockContext b)
  | DoRemoveBlock order i => void (RemoveTemporaryBlockContext order i)
  | DoSweepBlocks order now => SweepBlocks order now
  | DoSetGuards g => SetGuardEnforcer g
  | DoSetInspection limits => SetInspectionRuntime limits
  | DoTimePasses now => modify (fun r => r <| clock := now |>)
  end.

Definition op_ok (op : Operation) : Prop :=
  match op with DoRevoke victim _ _ => picks_entry victim | _ => True end.

Lemma guar_void {A} (p : RT A) : guar_rt p -> guar_rt (void p).
Proof. intros Hp. apply guar_bind; [done | by intros]. Qed.

Lemma guar_perform op : op_ok op -> guar_rt (perform op).
Proof.
  destruct op; cbn [perform op_ok]; intros Hop; try apply guar_void;
    eauto using guar_evaluate, guar_applyEvent, guar_TryEnqueue, guar_consume_one, guar_ReportLoss, guar_Start, guar_resync,
      guar_periodicResync_tick, guar_verifyExpiry_tick, guar_verifyExpiredCandidate, guar_Activate, guar_Invalidate,
      guar_InvalidateAll, guar_RevokeContext, guar_AddTemporaryBlockContext, guar_RemoveTemporaryBlockContext, guar_SweepBlocks.
  - by apply guar_frame.
  - unfold RefreshPageCounters. case_if; [done | apply guar_refresh_items].
  - by apply guar_frame.
  - apply guar_modify. intros r. destruct (default (0, 0) limits) as [max ttl].
    etrans; [by apply (rely_store r (SetInspectionHistoryLimits (Store r) max ttl (clock r))), inv_SetInspectionHistoryLimits|].
    by apply rely_frame.
  - by apply guar_frame.
Qed.

Lemma NewRuntime_ok p g l seed now : runtime_ok (NewRuntime p g l seed now).
Proof.
  assert (Hq : 0 < (if MaxEventQueue l <=? 0 then MaxEventQueue DefaultRuntimeLimits else MaxEventQueue l)).
  { destruct (Z.leb_spec (MaxEventQueue l) 0); [done | lia]. }
  constructor; cbn [NewRuntime Store Events blocks revoked maxRevoked queue queueSize program generation].
  - apply NewRuntimeStore_inv.
  - destruct (NewRuntimeEventRing_ok (if MaxEventQueue l <=? 0 then MaxEventQueue DefaultRuntimeLimits else MaxEventQueue l) seed). auto.
  - by rewrite map_size_empty.
  - rewrite map_size_empty. done.
  - by apply Z.lt_le_incl.
  - done.
Qed.

(** C5. Whatever runtime operations are in flight, in any interleaving of their
    critical sections, the shared state stays well formed: the session store's
    indexes agree with its sessions, the event ring, the block table, the
    revocation table and the event queue stay within their bounds, the active
    program carries the active generation, and the generation never decreases. *)
Theorem runtime_interleavings_ok p g l seed now ops r pool :
  Forall op_ok ops ->
  rtc pool_step (NewRuntime p g l seed now, perform <$> ops) (r, pool) ->
  runtime_ok r /\ generation (NewRuntime p g l seed now) <= generation r.
Proof.
  intros Hops Hsteps. eapply (pool_guar runtime_rely) in Hsteps as [[H1 _ H3] _].
  - split; [apply H3, NewRuntime_ok | exact H1].
  - apply Forall_fmap. eapply Forall_impl; [exact Hops|]. apply guar_perform.
Qed.

Definition ex_runtime : Runtime := NewRuntime (program_zero true 3) 0 ex_limits [] 1000.

Lemma runtime_interleavings_ok_witness :
  exists r, rtc pool_step (ex_runtime, perform <$> [DoStop; DoTimePasses 2000]) (r, [Ret tt; Ret tt]) /\ runtime_ok r.
Proof.
  eexists. split.
  - eapply rtc_l; [exact (pool_act ex_runtime [] _ _ [perform (DoTimePasses 2000)])|].
    eapply rtc_l; [exact (pool_act _ [Ret tt] _ _ [])|]. apply rtc_refl.
  - refine (proj1 (runtime_interleavings_ok (program_zero true 3) 0 ex_limits [] 1000 [DoStop; DoTimePasses 2000] _ [Ret tt; Ret tt] _ _)).
    + repeat constructor.
    + eapply rtc_l; [exact (pool_act ex_runtime [] _ _ [perform (DoTimePasses 2000)])|].
      eapply rtc_l; [exact (pool_act _ [Ret tt] _ _ [])|]. apply rtc_refl.
Defined.

(** ** What an evaluation that allows has seen *)

Definition source_of (v : RuntimeSession) : string := addr_String (tp_SrcIP (rs_OriginalTuple v)).

(** At the moment [m] the program allows, for the session as [v] describes it. *)
Definition computed_at (d : PolicyDecision) (v : RuntimeSession) (m : Runtime) : Prop :=
  pv_Action (Evaluate (program m) (session_view v)) = pd_Action d /\
  pv_PolicyID (Evaluate (program m) (session_view v)) = pd_PolicyID d.

Definition cached_at (d : PolicyDecision) (v : RuntimeSession) (m : Runtime) : Prop :=
  rs_CacheState v = CacheCached /\ rs_PolicyGeneration v = generation m /\ rs_Decision v = pd_Action d /\
  rs_MatchedPolicyID v = pd_PolicyID d /\ rs_Revoked v = false /\ degraded m = false.

(** The store accepted the decision at the moment [m2], on the revision that was evaluated. *)
Definition accepted_at (id : string) (v : RuntimeSession) (m m2 : Runtime) : Prop :=
  exists v2, Get (Store m2) id = Some v2 /\ rs_Revoked v2 = false /\ rs_PolicyGeneration v2 <= generation m /\
  (rs_Revision v <> 0 -> rs_Revision v2 = rs_Revision v).

(** The moments that justify an evaluation: the session was read at [m0], the
    policy state at [m], and a fresh decision was accepted later. *)
Definition justifies (id : string) (d : PolicyDecision) (v : RuntimeSession) (m : Runtime) (after : list Runtime) : Prop :=
  generation m = pd_ConfigVersion d /\ blocks m !! source_of v = None /\ revoked m !! id = None /\
  (cached_at d v m \/ computed_at d v m /\ Exists (accepted_at id v m) after).

Definition evaluation_justified (id : string) (out : PolicyDecision * option StoreError) (tr : list Runtime) (_ : Runtime) : Prop :=
  snd out = None -> pd_Action (fst out) = DecisionAllow ->
  exists before m0 m after v, tr = before ++ m0 :: m :: after /\ Get (Store m0) id = Some v /\ justifies id (fst out) v m after.

Lemma justified_by id d tr m0 m after v s :
  Get (Store m0) id = Some v -> justifies id d v m after -> evaluation_justified id (d, None) (tr ++ m0 :: m :: after) s.
Proof. intros Hv Hj _ _. by exists tr, m0, m, after, v. Qed.

Lemma not_justifying id out tr s : snd out <> None \/ pd_Action (fst out) <> DecisionAllow -> evaluation_justified id out tr s.
Proof. intros [H | H] ? ?; done. Qed.

Lemma setDecision_accepts s id e g a p reason u :
  (setDecision s id e g a p reason).2 = Ok u ->
  exists v, Get s id = Some v /\ rs_Revoked v = false /\ rs_PolicyGeneration v <= g /\ (e <> 0 -> rs_Revision v = e).
Proof.
  unfold setDecision, Get. destruct (byID s !! id) as [v|]; [|done].
  destruct (_ || _ || _) eqn:E; [done|]. intros _. split_bool. exists v. split_and!; try done.
  intros He. destruct (Z.eqb_spec e 0); [done|]. simpl in *. by split_bool.
Qed.

Ltac justify := rewrite <- ?app_assoc; cbn [app]; eapply justified_by; [eassumption | split_and!; try done].

Lemma wp_evaluate_once R again id tr s :
  (forall p, again = Some p -> forall tr s, wp R p (evaluation_justified id) tr s) ->
  wp R (evaluate_once again id) (evaluation_justified id) tr s.
Proof.
  intros Hagain. unfold evaluate_once. apply wp_bind. intros m0 _. cbn [wp Datatypes.id].
  destruct (Get (Store m0) id) as [v|] eqn:Ev; [|apply not_justifying; by left].
  apply wp_bind. intros m _. cbn [wp Datatypes.id]. rewrite <- app_assoc. cbn [app].
  unfold read_for. cbn [rdg_generation rdg_blocked rdg_revoked rdg_degraded rdg_program].
  destruct (bool_decide (is_Some (blocks m !! addr_String (tp_SrcIP (rs_OriginalTuple v))))) eqn:Eb.
  { apply wp_bind. intros m2 _. cbn [wp]. case_match; [|apply not_justifying; by left].
    apply wp_bind. intros m3 _. cbn [wp]. apply not_justifying. by right. }
  destruct (bool_decide (is_Some (revoked m !! id))) eqn:Er; [apply not_justifying; by right|].
  apply bool_decide_eq_false, eq_None_not_Some in Eb. apply bool_decide_eq_false, eq_None_not_Some in Er.
  destruct (bool_decide (rs_CacheState v = CacheCached) && _ && _ && _) eqn:Ec.
  - split_bool. apply wp_bind. intros m2 _. cbn [wp Datatypes.id].
    case_if; [|destruct again as [p|]; [by apply Hagain|]]; (justify; by left).
  - apply wp_bind. intros m2 _. cbn [wp].
    match goal with |- context [match ?x with Ok _ => _ | Err _ => _ end] => destruct x as [u | e] eqn:Eset end.
    + assert (Hacc : accepted_at id v m m2).
      { destruct (SetDecisionIfCurrent _ _ _ _ _ _ _) as [s2 res] eqn:Es. cbn [snd] in Eset. subst res.
        apply (setDecision_accepts (Store m2) id (rs_Revision v) (generation m)
          (pv_Action (Evaluate (program m) (session_view v))) (pv_PolicyID (Evaluate (program m) (session_view v)))
          (pv_Reason (Evaluate (program m) (session_view v))) u). unfold SetDecisionIfCurrent in Es. cbn in Es. by rewrite Es. }
      case_if; [|justify; right; split; [done | by constructor]].
      apply wp_bind. intros m3 _. cbn [wp]. justify. right. split; [done | by constructor].
    + destruct e; try (apply not_justifying; by left). destruct again as [p|]; [by apply Hagain | apply not_justifying; by left].
Qed.

Lemma wp_evaluate R n id tr s : wp R (evaluate n id) (evaluation_justified id) tr s.
Proof.
  revert tr s. induction n as [| n IH]; intros tr s; cbn [evaluate]; apply wp_evaluate_once; intros p [=]. subst p. apply IH.
Qed.

(** C6. An evaluation that answers ALLOW was right at a moment inside the call,
    whatever ran beside it: under one reading of the policy state the source was
    not blocked, the session not in the revocation table and the answer's
    generation the active one, and the session read just before either carried a
    valid cached ALLOW of that generation, or the active program allows it and the
    store later accepted the decision on that same revision of a session that was
    not revoked. *)
Theorem evaluate_allow_justified (id : string) (env : list (Runtime -> Runtime)) (s : Runtime) (d : PolicyDecision) :
  run_result _ (run (Runtime_Evaluate id) env s) = (d, None) -> pd_Action d = DecisionAllow ->
  exists before m0 m after v,
    run_moments _ (run (Runtime_Evaluate id) env s) = before ++ m0 :: m :: after /\
    Get (Store m0) id = Some v /\ justifies id d v m after.
Proof.
  intros Hr Ha. pose proof (wp_run _ _ s env (wp_evaluate _ 2 id [] s)) as H.
  unfold Runtime_Evaluate in *. rewrite Hr in H. by apply H.
Qed.

Definition ex_active : Runtime :=
  NewRuntime (program_zero false 3) 0 ex_limits [] 1000 <| Store := ex_store1 |>.

Lemma evaluate_allow_justified_witness :
  exists d, pd_Action d = DecisionAllow /\ exists before m0 m after v,
    run_moments _ (run (Runtime_Evaluate ex_id) [] ex_active) = before ++ m0 :: m :: after /\
    Get (Store m0) ex_id = Some v /\ justifies ex_id d v m after.
Proof.
  exists (mkPolicyDecision DecisionAllow "SESSION" "" 3 "default allow"). split; [reflexivity|].
  apply (evaluate_allow_justified ex_id [] ex_active); [vm_compute; reflexivity | reflexivity].
Defined.

(** ** A bound on the sections of an evaluation *)

Lemma wp_evaluate_once_length R again id b tr s :
  (forall p, again = Some p -> forall tr s, wp R p (fun _ tr' _ => (length tr' <= length tr + b)%nat) tr s) ->
  wp R (evaluate_once again id) (fun _ tr' _ => (length tr' <= length tr + (4 `max` (3 + b)))%nat) tr s.
Proof.
  intros Hagain. unfold evaluate_once.
  repeat first [apply wp_bind | intros ? _ | progress cbn [wp Datatypes.id] | progress unfold mret, prog_ret | case_match].
  all: try (rewrite ?length_app; cbn [length]; lia).
  all: destruct again as [p|]; cbn [default from_option]; [|simpl; rewrite ?length_app; simpl; lia].
  all: eapply wp_mono; [|exact (Hagain p eq_refl _ _)]; intros ? tr' ?; rewrite ?length_app; simpl; lia.
Qed.

Lemma wp_evaluate_length R n id tr s :
  wp R (evaluate n id) (fun _ tr' _ => (length tr' <= length tr + (4 + 3 * n))%nat) tr s.
Proof.
  revert tr s. induction n as [| n IH]; intros tr s; cbn [evaluate].
  - eapply wp_mono; [|by apply (wp_evaluate_once_length R None id 0)]. simpl. lia.
  - eapply wp_mono; [|apply (wp_evaluate_once_length R _ id (4 + 3 * n))]; [simpl; lia | intros p [= <-]; exact IH].
Qed.

(** C33. An evaluation ends after at most ten critical sections, however often the
    policy or the session changes under it: it retries twice and then answers. *)
Theorem evaluate_terminates (id : string) (env : list (Runtime -> Runtime)) (s : Runtime) :
  (length (run_moments _ (run (Runtime_Evaluate id) env s)) <= 10)%nat.
Proof. exact (wp_run _ _ s env (wp_evaluate_length _ 2 id [] s)). Qed.

(** ** Revocation *)

Definition revoked_or_gone (id : string) (m : Runtime) : Prop :=
  match Get (Store m) id with Some v => rs_Revoked v = true | None => True end.

Lemma justified_not_revoked id d v m0 m after before :
  Get (Store m0) id = Some v -> justifies id d v m after ->
  ~ Forall (revoked_or_gone id) (before ++ m0 :: m :: after).
Proof.
  intros Hv (_ & _ & _ & Hj) Hall. apply Forall_app in Hall as [_ Hall]. apply Forall_cons in Hall as [H0 Hall].
  apply Forall_cons in Hall as [_ Hall]. unfold revoked_or_gone in H0. rewrite Hv in H0.
  destruct Hj as [(_ & _ & _ & _ & Hr & _) | [_ Hacc]]; [congruence|].
  apply Exists_exists in Hacc as (m2 & Hin & v2 & Hv2 & Hr & _).
  apply (proj1 (Forall_forall _ _) Hall) in Hin. unfold revoked_or_gone in Hin. rewrite Hv2 in Hin. congruence.
Qed.

(** A revoked session is never authorised: when the session is revoked or gone
    at every moment of the call, the evaluation does not answer ALLOW, even after
    the runtime's own revocation table has forgotten it. *)
Theorem revoked_never_allowed (id : string) (env : list (Runtime -> Runtime)) (s : Runtime) :
  Forall (revoked_or_gone id) (run_moments _ (run (Runtime_Evaluate id) env s)) ->
  forall d, run_result _ (run (Runtime_Evaluate id) env s) = (d, None) -> pd_Action d <> DecisionAllow.
Proof.
  intros Hall d Hr Ha. pose proof (wp_run _ _ s env (wp_evaluate _ 2 id [] s)) as H.
  unfold Runtime_Evaluate in *. rewrite Hr in H.
  destruct (H eq_refl Ha) as (b & m0 & m & a & v & E & Hv & Hj). cbn [app] in E. rewrite E in Hall.
  by eapply justified_not_revoked.
Qed.

Definition ex_revoked_runtime : Runtime := ex_active <| Store := ex_store_revoked |>.

Lemma revoked_never_allowed_witness :
  pd_Action (run_result _ (run (Runtime_Evaluate ex_id) [] ex_revoked_runtime)).1 = DecisionAllow /\
  forall d, run_result _ (run (Runtime_Evaluate ex_id) [] ex_revoked_runtime) = (d, None) -> pd_Action d <> DecisionAllow.
Proof.
  split; [vm_compute; reflexivity|]. apply (revoked_never_allowed ex_id [] ex_revoked_runtime).
  assert (H : forallb (fun m => match Get (Store m) ex_id with Some v => rs_Revoked v | None => true end)
                (run_moments _ (run (Runtime_Evaluate ex_id) [] ex_revoked_runtime)) = true) by (vm_compute; reflexivity).
  apply Forall_forall. intros m Hm. rewrite forallb_elem_of in H. specialize (H m Hm). unfold revoked_or_gone.
  by destruct (Get (Store m) ex_id).
Defined.
