(* ===== verification/RuntimeSeq.v ===== *)
(** * Runtime operations on their own

    What the larger operations of the runtime achieve when nothing runs beside
    them: the state a generation switch leaves behind, the effect of a
    revocation on later evaluations, and a cached decision that outlives the
    tuple it was computed for. *)

From S2P Require Import Prelude GoStr Sha256 Netip Domain Flow SessionStore StoreInv StoreProps Config.
From S2P Require Import Connectivity EventRing Interleave Runtime RuntimeProps.

(** [wp_alone p Q s]: the run of [p] from [s] with no interference ends in [Q]. *)
Abbreviation wp_alone p Q s := (wp eq p (fun a _ t => Q a t) [] s) (only parsing).

Lemma wp_alone_run {St A} (p : Prog St A) (Q : A -> St -> Prop) s :
  wp_alone p Q s -> Q (run_result A (run p [] s)) (run_final A (run p [] s)).
Proof. intros H. exact (wp_sound eq p (fun a _ t => Q a t) [] s [] (Forall_nil_2 _) H). Qed.

(** Sections in sequence; the moments do not matter here. *)
Lemma wp_alone_any {St A} (p : Prog St A) (Q : A -> St -> Prop) tr s :
  wp eq p (fun a _ t => Q a t) tr s <-> wp_alone p Q s.
Proof.
  split; [|apply (wp_frame_moments eq p (fun a _ t => Q a t))].
  generalize (@nil St). revert tr s. induction p as [a | f k IH]; intros tr s tr' H; simpl in *; [done|].
  intros s' <-. eapply IH. by apply H.
Qed.

Lemma wp_alone_bind {St A B} (p : Prog St A) (g : A -> Prog St B) (Q : B -> St -> Prop) s :
  wp_alone p (fun a t => wp_alone (g a) Q t) s -> wp_alone (p ≫= g) Q s.
Proof.
  intros H. apply wp_bind. eapply wp_mono; [|exact H]. intros a tr t Ht. by apply wp_alone_any.
Qed.

Lemma wp_alone_act {St A} (f : St -> St) (k : St -> Prog St A) (Q : A -> St -> Prop) s :
  wp_alone (k s) Q (f s) -> wp_alone (Act f k) Q s.
Proof. intros H s' <-. by apply wp_alone_any. Qed.

Lemma wp_alone_mono {St A} (p : Prog St A) (Q Q' : A -> St -> Prop) s :
  (forall a t, Q a t -> Q' a t) -> wp_alone p Q s -> wp_alone p Q' s.
Proof. intros HQ. apply wp_mono. eauto. Qed.

(** ** A generation switch leaves no decision of an older policy *)

(** A session after the switch to [p] under [gen], which had been [old]: a revoked one
    is as it was; any other has the zones of the new program, no policy, no cached
    decision, and no decision at all unless a guard holds it. *)
Definition withdrawn (p : Program) (gen : Z) (old v : RuntimeSession) : Prop :=
  if rs_Revoked old then v = old
  else (rs_SourceZone v, rs_DestinationZone v) = inferSessionZones p old /\
       rs_PolicyGeneration v = gen /\ rs_MatchedPolicyID v = "" /\
       rs_CacheState v = (if is_local v then CacheNotEvaluated else CacheInvalidated) /\
       rs_Decision v = (if negb (is_local v) && guard_applied v then DecisionDrop else DecisionNone) /\
       rs_EffectiveDecision v = rs_Decision v.

(** One session of the loop: only its own entry changes. *)
Definition settles (p : Program) (gen : Z) (old : RuntimeSession) (r r' : Runtime) : Prop :=
  generation r' = generation r /\ program r' = program r /\
  exists w, withdrawn p gen old w /\ byID (Store r') = <[rs_SessionID old := w]> (byID (Store r)).

Lemma store_op_alone {A B} (op : RuntimeStore -> Time -> RuntimeStore * A) (k : A -> RT B) (Q : B -> Runtime -> Prop) r :
  wp_alone (k (op (Store r) (clock r)).2) Q (r <| Store := (op (Store r) (clock r)).1 |>) ->
  wp_alone (store_op op ≫= k) Q r.
Proof.
  intros H. apply wp_alone_bind, wp_alone_act. cbn [wp]. by destruct (op (Store r) (clock r)).
Qed.

Lemma SetZones_entry s id a b v :
  byID s !! id = Some v ->
  exists w, (SetZones s id a b).2 = Ok w /\ byID (SetZones s id a b).1 = <[id := w]> (byID s) /\
    rs_SessionID w = rs_SessionID v /\ rs_Revoked w = rs_Revoked v /\ rs_SourceZone w = a /\ rs_DestinationZone w = b.
Proof.
  intros Hv. unfold SetZones. rewrite Hv. case_if; split_bool.
  - exists v. split_and!; try done. cbn [fst]. by rewrite insert_id.
  - eexists. by split_and!.
Qed.

Lemma Invalidate_entry s id gen reason now v :
  byID s !! id = Some v ->
  (Invalidate s id gen reason now).2 = Ok (invalidate_session v gen reason now) /\
  byID (Invalidate s id gen reason now).1 = <[id := invalidate_session v gen reason now]> (byID s).
Proof. intros Hv. unfold Invalidate. by rewrite Hv. Qed.

(** What an invalidated session looks like. *)
Lemma invalidate_fields v gen reason now : rs_Revoked v = false -> let x := invalidate_session v gen reason now in
  rs_SourceZone x = rs_SourceZone v /\ rs_DestinationZone x = rs_DestinationZone v /\ rs_PolicyGeneration x = gen /\ rs_MatchedPolicyID x = "" /\
  rs_CacheState x = CacheInvalidated /\ rs_Decision x = (if guard_applied x then DecisionDrop else DecisionNone) /\ rs_EffectiveDecision x = rs_Decision x.
Proof.
  intros Hr. unfold invalidate_session. cbv zeta. change (rs_Revoked (v <| rs_CacheState := CacheInvalidated |> <| rs_KernelCacheVerified := false |> <| rs_MatchedPolicyID := "" |>)) with (rs_Revoked v).
  rewrite Hr. cbn [orb]. destruct (guard_applied _) eqn:Eg; split_and!; try done; unfold guard_applied in *; cbn in *; by rewrite Eg.
Qed.

(** A local session that was invalidated is marked as not evaluated. *)
Lemma MarkEvaluationUnavailable_entry s id gen reason v :
  byID s !! id = Some v -> rs_CacheState v = CacheInvalidated ->
  exists w, (MarkEvaluationUnavailable s id gen reason).2 = Ok w /\
    byID (MarkEvaluationUnavailable s id gen reason).1 = <[id := w]> (byID s) /\
    rs_SourceZone w = rs_SourceZone v /\ rs_DestinationZone w = rs_DestinationZone v /\ rs_PolicyGeneration w = gen /\ rs_MatchedPolicyID w = "" /\
    rs_CacheState w = CacheNotEvaluated /\ rs_Decision w = DecisionNone /\ rs_EffectiveDecision w = DecisionNone.
Proof.
  intros Hv Hc. unfold MarkEvaluationUnavailable. rewrite Hv, Hc. rewrite (bool_decide_eq_false_2 (CacheInvalidated = CacheNotEvaluated)) by done. cbn [andb].
  eexists. by split_and!.
Qed.

Lemma evaluateObserved_local gen v r :
  byID (Store r) !! rs_SessionID v = Some v -> rs_CacheState v = CacheInvalidated -> generation r = gen -> is_local v = true ->
  wp_alone (evaluateObserved v) (fun _ r' => generation r' = generation r /\ program r' = program r /\
    exists w, byID (Store r') = <[rs_SessionID v := w]> (byID (Store r)) /\
      rs_SourceZone w = rs_SourceZone v /\ rs_DestinationZone w = rs_DestinationZone v /\ rs_PolicyGeneration w = gen /\ rs_MatchedPolicyID w = "" /\
      rs_CacheState w = CacheNotEvaluated /\ rs_Decision w = DecisionNone /\ rs_EffectiveDecision w = DecisionNone) r.
Proof.
  intros Hv Hc Hg Hl. unfold evaluateObserved. rewrite Hl. apply wp_alone_bind, wp_alone_act. cbn [wp Datatypes.id]. rewrite Hg.
  apply store_op_alone.
  destruct (MarkEvaluationUnavailable_entry (Store r) (rs_SessionID v) gen
              "local traffic is outside the M2 forward-policy path" v Hv Hc) as (w & Ew & Es & Hw). rewrite Ew.
  case_if; [|apply wp_alone_act]; (split_and!; [done..|]; exists w; split; [exact Es | exact Hw]).
Qed.

Lemma reinvalidate_settles p gen reason v r :
  byID (Store r) !! rs_SessionID v = Some v -> generation r = gen ->
  wp_alone (reinvalidate p gen reason v) (fun _ r' => settles p gen v r r') r.
Proof.
  intros Hv Hg. unfold reinvalidate, settles, withdrawn. destruct (rs_Revoked v) eqn:Er.
  { cbn. split_and!; [done..|]. exists v. split; [done|]. by rewrite insert_id. }
  destruct (inferSessionZones p v) as [sz dz]. apply store_op_alone.
  destruct (SetZones_entry (Store r) (rs_SessionID v) sz dz v Hv) as (w & Ew & Es & Eid & Erw & Ez1 & Ez2). rewrite Ew. rewrite Er in Erw.
  set (s1 := (SetZones (Store r) (rs_SessionID v) sz dz).1) in *. apply store_op_alone. cbn [Store].
  assert (Hw : byID s1 !! rs_SessionID w = Some w) by (rewrite Es, Eid; apply lookup_insert_eq).
  destruct (Invalidate_entry s1 (rs_SessionID w) gen reason (clock r) w Hw) as [Ei Ej].
  change (Store (r <| Store := s1 |>)) with s1. change (clock (r <| Store := s1 |>)) with (clock r). rewrite Ei.
  destruct (invalidate_fields w gen reason (clock r) Erw) as (X1 & X2 & X3 & X4 & X5 & X6 & X7).
  set (x := invalidate_session w gen reason (clock r)) in *. set (s2 := (Invalidate s1 (rs_SessionID w) gen reason (clock r)).1) in *.
  apply wp_alone_bind, wp_alone_act. cbn [wp]. rewrite Ez1 in X1. rewrite Ez2 in X2.
  assert (Ex : rs_SessionID x = rs_SessionID w) by apply (proj1 (invalidate_session_index w gen reason (clock r))).
  assert (E2 : byID s2 = <[rs_SessionID v := x]> (byID (Store r))) by (rewrite Ej, Es, Eid; apply insert_insert_eq).
  assert (Elx : is_local x = is_local w) by (unfold is_local; by rewrite X1, X2, Ez1, Ez2).
  set (r3 := r <| Store := s1 |> <| Store := s2 |> <| Events := _ |>).
  destruct (is_local w) eqn:El.
  2: { split_and!; [done..|]. exists x. rewrite Elx. cbn [negb andb]. split_and!; [by rewrite X1, X2 | done | done | done | done | done | exact E2]. }
  apply wp_alone_bind. eapply wp_alone_mono; [|apply (evaluateObserved_local gen x r3)].
  - intros u r4 (G4 & P4 & y & E4 & Y1 & Y2 & Y3 & Y4 & Y5 & Y6 & Y7). cbn [wp]. split_and!; [done..|]. exists y.
    assert (is_local y = true) as -> by (rewrite <- Elx; unfold is_local; by rewrite Y1, Y2). cbn [negb andb].
    split_and!; [by rewrite Y1, Y2, X1, X2 | done | done | done | done | congruence |].
    rewrite E4. change (byID (Store r3)) with (byID s2). rewrite E2, Ex, Eid. apply insert_insert_eq.
  - change (byID s2 !! rs_SessionID x = Some x). rewrite Ej, Ex. apply lookup_insert_eq.
  - exact X5.
  - exact Hg.
  - exact Elx.
Qed.

(** The entries of [r'] are those of [r], with the sessions of [l] withdrawn. *)
Definition all_withdrawn (p : Program) (gen : Z) (l : list RuntimeSession) (r r' : Runtime) : Prop :=
  dom (byID (Store r')) = dom (byID (Store r)) /\
  forall v, v ∈ l -> exists w, byID (Store r') !! rs_SessionID v = Some w /\ withdrawn p gen v w.

Lemma reinvalidate_all_settles p gen reason l r :
  generation r = gen -> NoDup (rs_SessionID <$> l) -> Forall (fun v => byID (Store r) !! rs_SessionID v = Some v) l ->
  wp_alone (reinvalidate_all p gen reason l)
    (fun _ r' => generation r' = gen /\ program r' = program r /\ all_withdrawn p gen l r r' /\
                 forall id, id ∉ (rs_SessionID <$> l) -> byID (Store r') !! id = byID (Store r) !! id) r.
Proof.
  revert r. induction l as [| v l IH]; intros r Hg Hnd Hall; cbn [reinvalidate_all].
  { cbn. unfold all_withdrawn. split_and!; [done | done | done | by intros ? ?%elem_of_nil | done]. }
  apply Forall_cons in Hall as [Hv Hall]. rewrite fmap_cons in Hnd. apply NoDup_cons in Hnd as [Hni Hnd].
  apply wp_alone_bind. eapply wp_alone_mono; [|by apply reinvalidate_settles].
  intros changed r1 (Eg & Ep & w & Hw & Es). apply wp_alone_bind. eapply wp_alone_mono; [|apply IH; [congruence | done |]].
  - intros more r2 (Eg2 & Ep2 & [Ed2 Hw2] & Hrest).
    change (generation r2 = gen /\ program r2 = program r /\ all_withdrawn p gen (v :: l) r r2 /\ forall id, id ∉ (rs_SessionID <$> v :: l) -> byID (Store r2) !! id = byID (Store r) !! id).
    split_and!; [done | congruence | split |].
    + rewrite Ed2, Es. apply dom_insert_lookup_L. by eexists.
    + intros u [-> | Hu]%elem_of_cons; [|by apply Hw2]. exists w. split; [|done]. rewrite Hrest by done. rewrite Es. apply lookup_insert_eq.
    + intros id [Hne Hid]%not_elem_of_cons. rewrite Hrest by done. rewrite Es. by apply lookup_insert_ne.
  - apply Forall_forall. intros u Hu. rewrite Es, lookup_insert_ne; [by apply (proj1 (Forall_forall _ _) Hall)|].
    intros E. apply Hni. rewrite E. by apply list_elem_of_fmap_2.
Qed.

Lemma List_entries s : store_inv s ->
  NoDup (rs_SessionID <$> List_ s) /\ Forall (fun v => byID s !! rs_SessionID v = Some v) (List_ s) /\
  (forall id v, byID s !! id = Some v -> v ∈ List_ s).
Proof.
  intros Hs. unfold List_. split_and!.
  - rewrite sort_by_perm. rewrite <- list_fmap_compose.
    assert (E : (rs_SessionID ∘ snd) <$> map_to_list (byID s) = (map_to_list (byID s)).*1).
    { apply list_fmap_ext. intros i [id v] Hi. simpl. apply list_elem_of_lookup_2, elem_of_map_to_list in Hi.
      by destruct (inv_self s Hs id v Hi). }
    rewrite E. apply NoDup_fst_map_to_list.
  - apply Forall_forall. intros v Hv. apply sort_by_elem_of, list_elem_of_fmap in Hv as ([id w] & -> & Hin).
    apply elem_of_map_to_list in Hin. simpl. destruct (inv_self s Hs id w Hin) as [-> _]. done.
  - intros id v Hv. apply sort_by_elem_of, list_elem_of_fmap. exists (id, v). split; [done | by apply elem_of_map_to_list].
Qed.

Lemma modify_alone {A} (f : Runtime -> Runtime) (k : unit -> RT A) (Q : A -> Runtime -> Prop) r :
  wp_alone (k tt) Q (f r) -> wp_alone (modify f ≫= k) Q r.
Proof. intros H. by apply wp_alone_bind, wp_alone_act. Qed.

(** C7. A successful activation that runs on its own, on a store that keeps its
    invariant, withdraws every decision of the older policy: the new program and
    generation are in force, no session is lost or added, a revoked session is as it
    was, and every other session is bound to the new generation and to the zones of
    the new program, with no matched policy, no cached decision, and no decision at
    all, ALLOW, DROP or REJECT, but the DROP of a guard that is applied. *)
Theorem Activate_settles (p : Program) (gen : Z) (reason : string) (r : Runtime) :
  store_inv (Store r) -> run_result _ (run (Activate p gen reason) [] r) = None ->
  let r' := run_final _ (run (Activate p gen reason) [] r) in
  generation r' = gen /\ program r' = p <| pr_Generation := gen |> /\ dom (byID (Store r')) = dom (byID (Store r)) /\
  forall id old, byID (Store r) !! id = Some old -> exists v, byID (Store r') !! id = Some v /\ withdrawn p gen old v.
Proof.
  intros Hs. set (Q := fun r' => generation r' = gen /\ program r' = p <| pr_Generation := gen |> /\ dom (byID (Store r')) = dom (byID (Store r)) /\
    forall id old, byID (Store r) !! id = Some old -> exists v, byID (Store r') !! id = Some v /\ withdrawn p gen old v).
  apply (wp_alone_run (Activate p gen reason) (fun out r' => out = None -> Q r')).
  unfold Activate. apply wp_alone_bind, wp_alone_act. cbn [wp Datatypes.id].
  assert (Htell : forall calls (A : Type) (k : unit -> RT A) (Q : A -> Runtime -> Prop) t,
    wp_alone (k tt) Q t -> wp_alone (k tt) Q (t <| inspectionCalls ::= fun l => l ++ calls |>) ->
    wp_alone ((if inspection r then modify (fun r => r <| inspectionCalls ::= fun l => l ++ calls |>) else mret tt) ≫= k) Q t).
  { intros calls A k Q' t H1 H2. destruct (inspection r); [by apply modify_alone | exact H1]. }
  assert (Hmain : forall t, Store t = Store r -> wp_alone (activateWhileInspectionPaused p gen reason) (fun out r' => snd out = None -> Q r') t).
  { intros t Et. unfold activateWhileInspectionPaused. case_if; [done|]. apply wp_alone_bind, wp_alone_act. cbn [wp].
    unfold switch_program. destruct (gen <=? generation t); [done|]. cbn [fst snd negb].
    apply wp_alone_bind, wp_alone_act. cbn [wp Datatypes.id].
    set (t1 := t <| program := p <| pr_Generation := gen |> |> <| generation := gen |>).
    assert (Et1 : Store t1 = Store r) by exact Et. destruct (List_entries (Store r) Hs) as (Hnd & Hall & Hin).
    apply wp_alone_bind. eapply wp_alone_mono; [|apply reinvalidate_all_settles; rewrite ?Et1; done].
    intros changed t2 (H1 & H2 & [H3 H4] & _) _. rewrite Et1 in H3, H4. split_and!; [done | by rewrite H2 | done |].
    intros id old Hold. destruct (inv_self _ Hs id old Hold) as [<- _]. apply H4, (Hin _ _ Hold). }
  assert (Hend : forall out t, (snd out = None -> Q t) ->
    wp_alone (_ ← (if inspection r then modify (fun r => r <| inspectionCalls ::= fun l => l ++ (EndActivation :: (OnSessionChanged <$> fst out)) |>)
                   else mret tt); mret (snd out) : RT (option RuntimeError)) (fun out r' => out = None -> Q r') t).
  { intros out t Ht. apply Htell; exact Ht. }
  apply Htell; apply wp_alone_bind; (eapply wp_alone_mono; [|by apply Hmain]); intros out t Ht; by apply Hend.
Qed.

Lemma Activate_settles_witness :
  run_result _ (run (Activate (program_zero true 0) 9 "policy change") [] ex_active) = None /\
  exists v, byID (Store (run_final _ (run (Activate (program_zero true 0) 9 "policy change") [] ex_active))) !! ex_id = Some v /\
    rs_PolicyGeneration v = 9 /\ rs_Decision v = DecisionNone.
Proof.
  assert (Hr : run_result _ (run (Activate (program_zero true 0) 9 "policy change") [] ex_active) = None) by (vm_compute; reflexivity).
  split; [exact Hr|].
  assert (Hold : byID (Store ex_active) !! ex_id = Some (default (newSession "" ex_record ex_identity 0) (byID (Store ex_active) !! ex_id))) by (vm_compute; reflexivity).
  destruct (Activate_settles (program_zero true 0) 9 "policy change" ex_active
    (inv_ApplyObserved ex_store0 _ _ _ _ (NewRuntimeStore_inv _)) Hr) as (_ & _ & _ & H). destruct (H ex_id _ Hold) as (v & Hv & Hw). exists v. split; [exact Hv|].
  revert Hv. vm_compute. intros [= <-]. split; reflexivity.
Defined.

(** ** Revocation *)

Lemma remember_revoked_entry victim id v r : revoked (remember_revoked victim id v r).1 !! id = Some v.
Proof.
  unfold remember_revoked. destruct (if _ <=? Z.of_nat _ then _ else _) as [r' e]. apply lookup_insert_eq.
Qed.

(** Calls of the enforcer change no state the runtime decides on. *)
Lemma call_guard_alone {A} g c (k : option string -> RT A) (Q : A -> Runtime -> Prop) r :
  (forall o t, revoked t = revoked r -> wp_alone (k o) Q t) -> wp_alone (call_guard g c ≫= k) Q r.
Proof. intros H. by apply wp_alone_bind, wp_alone_act, H. Qed.

Lemma release_alone {A} (g : option GuardEnforcer) c (k : unit -> RT A) (Q : A -> Runtime -> Prop) r :
  (forall t, revoked t = revoked r -> wp_alone (k tt) Q t) ->
  wp_alone (match g with Some g => _ ← call_guard g c; mret tt | None => mret tt end ≫= k) Q r.
Proof.
  intros H. destruct g as [g|]; [|by apply H]. apply wp_alone_bind, wp_alone_bind, wp_alone_act. by apply H.
Qed.

Lemma evaluate_revoked_drops n id r v :
  revoked r !! id = Some v -> is_Some (Get (Store r) id) -> (forall w, Get (Store r) id = Some w -> rs_Revoked w = true) ->
  wp_alone (evaluate n id) (fun out _ => pd_Action (fst out) = DecisionDrop) r.
Proof.
  intros Hr [w Hw] Hrev. destruct n; cbn [evaluate]; unfold evaluate_once.
  all: apply wp_alone_bind, wp_alone_act; cbn [wp Datatypes.id]; rewrite Hw.
  all: apply wp_alone_bind, wp_alone_act; cbn [wp Datatypes.id]; unfold read_for; cbn [rdg_generation rdg_blocked rdg_revoked].
  all: destruct (bool_decide (is_Some (blocks r !! _))); [|rewrite bool_decide_eq_true_2 by (by rewrite Hr); done].
  all: apply store_op_alone; case_match; [apply wp_alone_bind, wp_alone_act|]; done.
Qed.

Definition revoke_effect (id : string) (r' : Runtime) : Prop :=
  is_Some (revoked r' !! id) /\
  (exists w, Get (Store r') id = Some w /\ rs_Revoked w = true /\ rs_EffectiveDecision w = DecisionDrop) /\
  pd_Action (run_result _ (run (Runtime_Evaluate id) [] r')).1 = DecisionDrop.

(** [RevokeContext] once the enforcer has accepted. *)
Definition revoke_rest victim (id reason : string) (v : RuntimeSession) : RT (option RuntimeError) :=
  out ← atomic (fun r => let '(r', evicted) := remember_revoked victim id v r in (r', (evicted, guards r)));
  let '(evicted, g) := out in
  let release v := match g with Some g => _ ← call_guard g (ReleaseSession v); mret tt | None => mret tt end in
  _ ← match evicted with Some old => release old | None => mret tt end;
  currentGeneration ← CurrentGeneration;
  res ← store_op (fun s clock => MarkRevoked s id currentGeneration reason clock);
  match res with
  | Err e =>
      _ ← modify (fun r => r <| revoked ::= delete id |>);
      _ ← release v;
      mret (Some (FromStore e))
  | Ok _ =>
      _ ← publish (invalidated_event (rs_SessionID v) currentGeneration 0 reason);
      _ ← publish (decision_changed (rs_SessionID v) currentGeneration 0 "revoked");
      mret None
  end.

Lemma MarkRevoked_entry s id g reason clock w :
  (MarkRevoked s id g reason clock).2 = Ok w ->
  Get (MarkRevoked s id g reason clock).1 id = Some w /\ rs_Revoked w = true /\ rs_EffectiveDecision w = DecisionDrop.
Proof.
  unfold MarkRevoked, Get. destruct (byID s !! id) as [v|]; [|done]. intros [= <-]. split; [apply lookup_insert_eq | done].
Qed.

Lemma revoke_rest_effect victim id reason v t :
  wp_alone (revoke_rest victim id reason v) (fun out r' => out = None -> revoke_effect id r') t.
Proof.
  unfold revoke_rest. apply wp_alone_bind, wp_alone_act. cbn [wp].
  pose proof (remember_revoked_entry victim id v t) as Hin. destruct (remember_revoked victim id v t) as [t1 evicted].
  cbn [fst snd] in *.
  assert (Hmark : forall t2, revoked t2 = revoked t1 -> wp_alone
    (currentGeneration ← CurrentGeneration;
     res ← store_op (fun s clock => MarkRevoked s id currentGeneration reason clock);
     match res with
     | Err e =>
         _ ← modify (fun r => r <| revoked ::= delete id |>);
         _ ← match guards t with Some g => _ ← call_guard g (ReleaseSession v); mret tt | None => mret tt end;
         mret (Some (FromStore e))
     | Ok _ =>
         _ ← publish (invalidated_event (rs_SessionID v) currentGeneration 0 reason);
         _ ← publish (decision_changed (rs_SessionID v) currentGeneration 0 "revoked");
         mret None
     end) (fun out r' => out = None -> revoke_effect id r') t2).
  { intros t2 Et2. apply wp_alone_bind, wp_alone_act. cbn [wp Datatypes.id]. apply store_op_alone.
    destruct (MarkRevoked _ _ _ _ _).2 as [w|e] eqn:Em.
    2:{ apply modify_alone, release_alone. by intros. }
    destruct (MarkRevoked_entry _ _ _ _ _ _ Em) as (Hw & Hr & He). apply modify_alone, modify_alone. intros _.
    set (r' := _ <| Events := _ |>).
    assert (Hrev : revoked r' !! id = Some v) by (change (revoked t2 !! id = Some v); by rewrite Et2).
    assert (Hst : Get (Store r') id = Some w) by exact Hw. split_and!; [by eexists | by exists w |].
    apply (wp_alone_run (Runtime_Evaluate id) (fun out _ => pd_Action (fst out) = DecisionDrop)).
    apply (evaluate_revoked_drops 2 id r' v Hrev); rewrite Hst; [by eexists | by intros ? [= <-]]. }
  destruct evicted as [old|]; [by apply release_alone | by apply Hmark].
Qed.

(** Revoking a session takes effect at once: when [RevokeContext] succeeds, the
    session is in the revocation table and marked in the store, and the next
    evaluation of it answers DROP. *)
Theorem Revoke_then_drop victim id reason r :
  run_result _ (run (RevokeContext victim id reason) [] r) = None ->
  revoke_effect id (run_final _ (run (RevokeContext victim id reason) [] r)).
Proof.
  apply (wp_alone_run (RevokeContext victim id reason) (fun out r' => out = None -> revoke_effect id r')).
  unfold RevokeContext. apply wp_alone_bind, wp_alone_act. cbn [wp Datatypes.id].
  destruct (Get (Store r) id) as [v|] eqn:Ev; [|done]. apply wp_alone_bind, wp_alone_act. cbn [wp Datatypes.id].
  assert (Hrest : forall t, wp_alone (revoke_rest victim id reason v) (fun out r' => out = None -> revoke_effect id r') t).
  { intros t. apply revoke_rest_effect. }
  destruct (guards r) as [g|]; [|exact (Hrest r)].
  apply call_guard_alone. intros [message|] t _; [done | exact (Hrest t)].
Qed.

Lemma Revoke_then_drop_witness :
  revoke_effect ex_id (run_final _ (run (RevokeContext (fun _ => None) ex_id "operator") [] ex_active)).
Proof. apply Revoke_then_drop. vm_compute. reflexivity. Defined.

(** ** A cached decision outlives the tuple it was computed for *)




















