(* ===== verification/GateRuntime.v ===== *)
(** * The gate service: its state, the proxy's heartbeat and activation

    [internal/engine/gate_runtime.go], [gate_activation.go] and the service
    record of [gate_service.go]: what the engine tells the proxy, which proxy
    and generation it accepts observations from, and the preparation of a new
    generation.  Operations are programs over the shared [GateService] state;
    the runtime's own operations are lifted to it. *)

From S2P Require Import Prelude GoStr Netip Domain Flow SessionStore Config TLSExclusion Validate.
From S2P Require Import Connectivity EventRing Interleave Runtime GateFrame GateEvidence GateVerdict.

(** ** Data *)

#[global] Instance eta_RequestGateConfig : Eta RequestGateConfig := fun c =>
  mkRequestGateConfig (rg_Enabled c) (rg_ListenHTTPPort c) (rg_ListenHTTPSPort c) (rg_RulesetID c) (rg_WorkerCount c)
    (rg_QueueItems c) (rg_QueueBytes c) (rg_MaxConcurrentRequests c) (rg_MaxPerClientRequests c)
    (rg_MaxHTTP2Streams c) (rg_MaxHeaderBytes c) (rg_MaxHeaderCount c) (rg_MaxURLBytes c)
    (rg_MaxRawBodyBytes c) (rg_MaxDecompressedBodyBytes c) (rg_MaxDecompressionRatio c)
    (rg_RequestTimeoutMillis c) (rg_ClientHelloBytes c) (rg_ClientHelloTimeoutMillis c)
    (rg_LeafCacheEntries c) (rg_LeafCacheTTLSeconds c).

Record RequestGateArtifacts : Type := mkRequestGateArtifacts {
  ga_RulesetID : string;
  ga_RulesetHash : string;
  ga_WorkerConfigHash : string;
  ga_CAFingerprint : string;
}.

#[global] Instance RequestGateArtifacts_eq_dec : EqDecision RequestGateArtifacts.
Proof. solve_decision. Defined.

Definition no_artifacts : RequestGateArtifacts := mkRequestGateArtifacts "" "" "" "".

Record RequestGateRuntime : Type := mkRequestGateRuntime {
  gr_EngineInstanceID : string;
  gr_ConfigGeneration : Z;
  gr_Config : RequestGateConfig;
  gr_RequiresCA : bool;
  gr_InterceptionReady : bool;
  gr_PreparationID : string;
  gr_ExpectedArtifacts : RequestGateArtifacts;
}.

Record RequestGateHeartbeat : Type := mkRequestGateHeartbeat {
  hb_ProxyInstanceID : string;
  hb_EngineInstanceID : string;
  hb_Generation : Z;
  hb_Sequence : Z;
  hb_HTTPListenerReady : bool;
  hb_HTTPSListenerReady : bool;
  hb_CALoaded : bool;
  hb_WorkersReady : Z;
  hb_QueueDepth : Z;
  hb_ActiveConnections : Z;
  hb_ActiveRequests : Z;
  hb_Counters : gmap string Z;
  hb_FailureCode : string;
  hb_PreparationID : string;
  hb_Artifacts : RequestGateArtifacts;
}.

(** Go's [RequestGateHeartbeat{}]. *)
Definition no_heartbeat : RequestGateHeartbeat :=
  mkRequestGateHeartbeat "" "" 0 0 false false false 0 0 0 0 ∅ "" "" no_artifacts.

Record TLSContext : Type := mkTLSContext {
  tc_SNI : string;
  tc_TLSVersion : string;
  tc_Cipher : string;
  tc_CertSubject : string;
  tc_CertIssuer : string;
  tc_CertValidity : string;
  tc_ALPN : string;
  tc_Decrypted : bool;
  tc_Available : bool;
}.

Record ProxyConnectionOpen : Type := mkProxyConnectionOpen {
  po_EngineInstanceID : string;
  po_ConfigGeneration : Z;
  po_ConnectionID : string;
  po_SourceIP : string;
  po_SourcePort : Z;
  po_OriginalIP : string;
  po_OriginalPort : Z;
  po_Protocol : string;
  po_TLSFailureCode : string;
  po_IsTLS : option bool;
  po_TLS : TLSContext;
}.

Record ProxyConnectionDecision : Type := mkProxyConnectionDecision {
  cd_DecisionID : string;
  cd_ConfigGeneration : Z;
  cd_SessionID : string;
  cd_PolicyID : string;
  cd_ProfileID : string;
  cd_Action : TLSGateAction;
  cd_FailMode : GateFailMode;
  cd_ReasonCode : string;
  cd_UpstreamHost : string;
  cd_UpstreamIP : string;
  cd_UpstreamPort : Z;
}.

#[global] Instance eta_ProxyConnectionDecision : Eta ProxyConnectionDecision := fun d =>
  mkProxyConnectionDecision (cd_DecisionID d) (cd_ConfigGeneration d) (cd_SessionID d) (cd_PolicyID d) (cd_ProfileID d)
    (cd_Action d) (cd_FailMode d) (cd_ReasonCode d) (cd_UpstreamHost d) (cd_UpstreamIP d) (cd_UpstreamPort d).

Record gateConnectionRecord : Type := mkGateConnectionRecord {
  gc_open : ProxyConnectionOpen;
  gc_sessionID : string;
  gc_expires : Time;
}.

(** The collaborators the service only calls are values: [RunningConfig] is what
    that function currently answers, [InterceptionReady] and
    [ActivationArtifacts] are the functions, [entropy] the answers of the random
    source in order, and [instance] the outcome of the [sync.Once]. *)
Record GateService : Type := mkGateService {
  gs_Runtime : Runtime;
  gs_Scope : Scope;
  RunningConfig : option (Config * Z);
  InterceptionReady : option (Z -> bool);
  ActivationArtifacts : option (Z -> RequestGateArtifacts);
  preparation : option RequestGateRuntime;
  instance : option (option string);
  heartbeat : RequestGateHeartbeat;
  heartbeatAt : Time;
  healthNow : option Time;
  gateConnections : gmap string gateConnectionRecord;
  evidence : EvidenceStore;
  MaxConnections : Z;
  entropy : list (option (list Z));
}.

#[global] Instance eta_GateService : Eta GateService := fun s =>
  mkGateService (gs_Runtime s) (gs_Scope s) (RunningConfig s) (InterceptionReady s) (ActivationArtifacts s)
    (preparation s) (instance s) (heartbeat s) (heartbeatAt s) (healthNow s) (gateConnections s) (evidence s)
    (MaxConnections s) (entropy s).

Inductive GateError : Type :=
| GateProtocol (code : string)
| GateContextDone
| GateRandomFailed.

Abbreviation GS := (Prog GateService) (only parsing).

Definition on_runtime {A} (p : Prog Runtime A) : GS A := lift gs_Runtime (fun r s => s <| gs_Runtime := r |>) p.

(** ** Identifiers *)

(** [rand.Read] of 16 bytes. *)
Definition rand_read : GS (option (list Z)) :=
  atomic (fun s => match entropy s with
                   | [] => (s, None)
                   | answer :: rest => (s <| entropy := rest |>, answer)
                   end).

(** The [sync.Once] runs under its own lock: reading the entropy and publishing
    the outcome are one section. *)
Definition engineInstance : GS (option string) :=
  atomic (fun s =>
    match instance s with
    | Some outcome => (s, outcome)
    | None =>
        let '(answer, rest) := match entropy s with [] => (None, []) | a :: rest => (a, rest) end in
        let outcome := hex_EncodeToString <$> answer in
        (s <| instance := Some outcome |> <| entropy := rest |>, outcome)
    end).

Definition gate_time (s : GateService) : Time := match healthNow s with Some t => t | None => clock (gs_Runtime s) end.
Definition gateTime : GS Time := peek gate_time.

Definition interception_ready (generation : Z) (s : GateService) : bool :=
  match InterceptionReady s with Some ready => ready generation | None => false end.

Definition ValidGateFailureCode (code : string) : bool :=
  bool_decide (code ∈ [""; "GATE_ENGINE_UNAVAILABLE"; "GATE_INTERCEPTION_UNAVAILABLE"; "GATE_RUNTIME_INVALID";
    "GATE_CA_UNAVAILABLE"; "GATE_SENSOR_UNAVAILABLE"; "GATE_LISTENER_UNAVAILABLE"; "GATE_RULESET_UNAVAILABLE";
    "PROXY_ORIGINAL_DST_UNAVAILABLE"]).

Definition ValidGateCounter (name : string) : bool :=
  bool_decide (name ∈ ["intercepted"; "bypassed"; "decrypted"; "request_allowed"; "request_blocked"; "fail_open";
    "fail_close"; "inspection_timeout"; "queue_rejected"; "tls_handshake_fail"; "upstream_verify_fail"; "body_limit";
    "decompression_limit"; "client_hello_timeout"; "client_hello_invalid"; "upstream_connect_fail";
    "upstream_mtls_unsupported"; "upstream_handshake_fail"; "result_report_fail"; "capacity_rejected"; "resolve_failed";
    "handler_failed"; "engine_unavailable"]).

(** ** The descriptor *)

Definition preparedRuntime : GS (option RequestGateRuntime) := peek preparation.

Definition gateRequiresCA (c : Config) : bool :=
  UsesM4 c &&
  existsb (fun policy => sp_Enabled policy && bool_decide (sp_Action policy = DecisionAllow) &&
    existsb (fun profile => bool_decide (pf_ID profile = sp_SecurityProfileID policy)
                            && from_option gp_Enabled false (pf_RequestGate profile)
                            && bool_decide (pf_TLSMode profile = TLSDecrypt)) (cf_Profiles c)) (cf_Policies c).

(** One attempt of [RuntimeDescriptor]: [None] to try again. *)
Definition describe (inst : string) : GS (option (result GateError RequestGateRuntime)) :=
  generation ← on_runtime CurrentGeneration;
  running ← peek RunningConfig;
  match running with
  | None => mret (Some (Err (GateProtocol CodeEngineDown)))
  | Some (value, version) =>
      if (generation =? 0) || negb (generation =? version) then mret None
      else
        again ← on_runtime CurrentGeneration;
        if negb (generation =? again) then mret None
        else if negb (bool_decide (ValidateRequestGate value = [])) then mret (Some (Err (GateProtocol CodeEngineDown)))
        else
          let enabled := UsesM4 value in
          let limits := EffectiveRequestGateConfig value <| rg_Enabled := enabled |> in
          ready ← (if enabled then peek (interception_ready generation) else mret false);
          artifacts ← (if enabled then peek (fun s => match ActivationArtifacts s with Some f => f generation | None => no_artifacts end)
                       else mret no_artifacts);
          final ← on_runtime CurrentGeneration;
          if generation =? final
          then mret (Some (Ok (mkRequestGateRuntime inst generation limits (gateRequiresCA value) ready "" artifacts)))
          else mret None
  end.

(** [cancelled i] is [ctx.Err() != nil] before attempt [i]; the first check also
    covers the prepared descriptor. *)
Fixpoint describe_attempts (n i : nat) (cancelled : nat -> bool) (inst : string) : GS (result GateError RequestGateRuntime) :=
  match n with
  | O => mret (Err (GateProtocol CodeStaleGeneration))
  | S n =>
      if cancelled i then mret (Err GateContextDone)
      else out ← describe inst;
           match out with Some res => mret res | None => describe_attempts n (S i) cancelled inst end
  end.

Definition RuntimeDescriptor (cancelled : nat -> bool) : GS (result GateError RequestGateRuntime) :=
  running ← peek RunningConfig;
  match running with
  | None => mret (Err (GateProtocol CodeEngineDown))
  | Some _ =>
      prepared ← preparedRuntime;
      match prepared with
      | Some p => mret (if cancelled O then Err GateContextDone else Ok p)
      | None =>
          inst ← engineInstance;
          match inst with
          | None => mret (Err GateRandomFailed)
          | Some inst => describe_attempts 3 0 cancelled inst
          end
      end
  end.

Definition checkProxyRuntime (inst : string) (generation : Z) : GS (option GateError) :=
  prepared ← preparedRuntime;
  match prepared with
  | Some _ => mret (Some (GateProtocol CodeEngineDown))
  | None =>
      bound ← peek (fun s => bool_decide (is_Some (RunningConfig s)));
      if negb bound && bool_decide (inst = "") && (generation =? 0) then mret None
      else
        expected ← engineInstance;
        match expected with
        | None => mret (Some GateRandomFailed)
        | Some expected =>
            if negb (bool_decide (inst = expected)) || (generation =? 0) then mret (Some (GateProtocol CodeStaleGeneration))
            else
              current ← on_runtime CurrentGeneration;
              if negb (generation =? current) then mret (Some (GateProtocol CodeStaleGeneration))
              else
                ready ← peek (interception_ready generation);
                mret (if ready : bool then None else Some (GateProtocol CodeEngineDown))
        end
  end.

(** ** Heartbeats *)

Definition gateHeartbeatTTL : Duration := 5 * Second.

(** The bounds checked before anything is read. *)
Definition heartbeat_shape_ok (beat : RequestGateHeartbeat) : bool :=
  let a := hb_Artifacts beat in
  negb ((128 <? strlen (ga_RulesetID a)) || (64 <? strlen (ga_RulesetHash a)) || (64 <? strlen (ga_WorkerConfigHash a))
        || (64 <? strlen (ga_CAFingerprint a))
        || negb (bool_decide (hb_PreparationID beat = "")) && negb (ValidGateInstanceID (hb_PreparationID beat)))
  && negb (negb (ValidGateInstanceID (hb_ProxyInstanceID beat)) || (hb_Sequence beat =? 0)
           || (32 <? Z.of_nat (size (hb_Counters beat))) || negb (ValidGateFailureCode (hb_FailureCode beat))
           || (hb_WorkersReady beat <? 0) || (4 <? hb_WorkersReady beat) || (hb_QueueDepth beat <? 0)
           || (1024 <? hb_QueueDepth beat) || (hb_ActiveConnections beat <? 0) || (50000 <? hb_ActiveConnections beat)
           || (hb_ActiveRequests beat <? 0) || (1024 <? hb_ActiveRequests beat))
  && forallb (fun e => ValidGateCounter e.1) (map_to_list (hb_Counters beat)).

(** The bounds of the descriptor the beat answers to. *)
Definition heartbeat_fits (beat : RequestGateHeartbeat) (rt : RequestGateRuntime) : bool :=
  let c := gr_Config rt in
  negb ((rg_WorkerCount c <? hb_WorkersReady beat) || (rg_QueueItems c <? hb_QueueDepth beat)
        || (rg_MaxConcurrentRequests c <? hb_ActiveRequests beat))
  && negb (gr_InterceptionReady rt && (0 <? hb_WorkersReady beat)
           && negb (bool_decide (gr_ExpectedArtifacts rt = no_artifacts))
           && negb (bool_decide (hb_Artifacts beat = gr_ExpectedArtifacts rt)))
  && negb ((negb (rg_Enabled c) || negb (gr_InterceptionReady rt) && bool_decide (gr_PreparationID rt = ""))
           && (hb_HTTPListenerReady beat || hb_HTTPSListenerReady beat || negb (hb_WorkersReady beat =? 0)
               || negb (hb_ActiveConnections beat =? 0) || negb (hb_ActiveRequests beat =? 0) || negb (hb_QueueDepth beat =? 0))).

(** The section under [healthMu]. *)
Definition accept_beat (beat : RequestGateHeartbeat) (now : Time) (s : GateService) : GateService * option GateError :=
  let previous := heartbeat s in
  let same := (hb_Generation previous =? hb_Generation beat)
              && bool_decide (hb_EngineInstanceID previous = hb_EngineInstanceID beat)
              && bool_decide (hb_PreparationID previous = hb_PreparationID beat) in
  if same && bool_decide (hb_ProxyInstanceID previous = hb_ProxyInstanceID beat) && (hb_Sequence beat <=? hb_Sequence previous)
  then (s, Some (GateProtocol CodeStaleGeneration))
  else if same && negb (bool_decide (hb_ProxyInstanceID previous = hb_ProxyInstanceID beat))
          && (time_Sub now (heartbeatAt s) <? gateHeartbeatTTL)
  then (s, Some (GateProtocol CodeEngineDown))
  else (s <| heartbeat := beat |> <| heartbeatAt := now |>, None).

Definition SyncProxy (cancelled : nat -> bool) (beat : RequestGateHeartbeat) : GS (result GateError RequestGateRuntime) :=
  if negb (heartbeat_shape_ok beat) then mret (Err (GateProtocol CodeMalformed))
  else
    described ← RuntimeDescriptor cancelled;
    match described with
    | Err e => mret (Err e)
    | Ok rt =>
        if negb (bool_decide (hb_EngineInstanceID beat = gr_EngineInstanceID rt))
           || negb (hb_Generation beat =? gr_ConfigGeneration rt)
           || negb (bool_decide (hb_PreparationID beat = gr_PreparationID rt)) then mret (Ok rt)
        else if negb (heartbeat_fits beat rt) then mret (Err (GateProtocol CodeMalformed))
        else
          now ← gateTime;
          refused ← atomic (accept_beat beat now);
          mret (match refused with Some e => Err e | None => Ok rt end)
    end.

(** [observedHealth]: the last heartbeat while it is fresh, of this generation
    and not part of a preparation. *)
Definition observedHealth (generation : Z) : GS (option (RequestGateHeartbeat * Time)) :=
  now ← gateTime;
  peek (fun s =>
    if IsZero (heartbeatAt s) || Before now (heartbeatAt s) || (gateHeartbeatTTL <=? time_Sub now (heartbeatAt s))
       || negb (hb_Generation (heartbeat s) =? generation) || negb (bool_decide (hb_PreparationID (heartbeat s) = ""))
    then None else Some (heartbeat s, heartbeatAt s)).

(** ** Activation *)

Definition CompleteGatePreparation : GS unit := modify (fun s => s <| preparation := None |>).

Definition valid_hash (value : string) : bool := hex_ok value && (strlen value =? 64).

Definition validPreparedArtifacts (artifacts : RequestGateArtifacts) (rt : RequestGateRuntime) : bool :=
  bool_decide (ga_RulesetID artifacts = rg_RulesetID (gr_Config rt)) && valid_hash (ga_RulesetHash artifacts)
  && valid_hash (ga_WorkerConfigHash artifacts) && (negb (gr_RequiresCA rt) || valid_hash (ga_CAFingerprint artifacts)).

(** The proxy reports the resources the descriptor asks for. *)
Definition beat_ready (beat : RequestGateHeartbeat) (rt : RequestGateRuntime) : bool :=
  hb_HTTPListenerReady beat && hb_HTTPSListenerReady beat && (hb_WorkersReady beat =? rg_WorkerCount (gr_Config rt))
  && (negb (gr_RequiresCA rt) || hb_CALoaded beat) && bool_decide (hb_FailureCode beat = "").

Inductive PollOutcome : Type := PollWaiting | PollFailed (code : string) | PollReady (artifacts : RequestGateArtifacts).

(** One turn of the polling loop. *)
Definition poll_preparation (descriptor : RequestGateRuntime) : GS PollOutcome :=
  seen ← peek (fun s => (heartbeat s, heartbeatAt s));
  let '(beat, received) := seen in
  if bool_decide (hb_PreparationID beat = gr_PreparationID descriptor)
     && bool_decide (hb_EngineInstanceID beat = gr_EngineInstanceID descriptor)
     && (hb_Generation beat =? gr_ConfigGeneration descriptor) then
    now1 ← gateTime;
    if negb (time_Sub now1 received <? gateHeartbeatTTL) then mret PollWaiting
    else
      now2 ← gateTime;
      if Before now2 received then mret PollWaiting
      else if negb (bool_decide (hb_FailureCode beat = "")) && negb (bool_decide (hb_FailureCode beat = "GATE_INTERCEPTION_UNAVAILABLE"))
      then mret (PollFailed (hb_FailureCode beat))
      else if beat_ready beat descriptor && validPreparedArtifacts (hb_Artifacts beat) descriptor
      then mret (PollReady (hb_Artifacts beat)) else mret PollWaiting
  else mret PollWaiting.

Inductive PrepareError : Type := PrepareRandom | PrepareProxy (code : string) | PrepareTimeout.

(** [ticks] is the number of polls before the 30-second context expires: 600 at
    one per 50 ms, fewer when the caller's context ends first. *)
Fixpoint prepare_loop (ticks : nat) (descriptor : RequestGateRuntime) : GS (result PrepareError RequestGateArtifacts) :=
  out ← poll_preparation descriptor;
  match out with
  | PollReady artifacts => mret (Ok artifacts)
  | PollFailed code => _ ← CompleteGatePreparation; mret (Err (PrepareProxy code))
  | PollWaiting =>
      match ticks with
      | O => _ ← CompleteGatePreparation; mret (Err PrepareTimeout)
      | S ticks => prepare_loop ticks descriptor
      end
  end.

Definition PrepareGateRuntime (ticks : nat) (value : Config) (generation : Z) : GS (result PrepareError RequestGateArtifacts) :=
  if negb (UsesM4 value) then _ ← CompleteGatePreparation; mret (Ok no_artifacts)
  else
    inst ← engineInstance;
    match inst with
    | None => mret (Err PrepareRandom)
    | Some inst =>
        nonce ← rand_read;
        match nonce with
        | None => mret (Err PrepareRandom)
        | Some nonce =>
            let descriptor := mkRequestGateRuntime inst generation (EffectiveRequestGateConfig value) (gateRequiresCA value)
                                false (hex_EncodeToString nonce) no_artifacts in
            _ ← modify (fun s => s <| preparation := Some descriptor |>);
            prepare_loop ticks descriptor
        end
    end.

(** [true] is a nil error. *)
Definition ConfirmGatePreparation (generation : Z) : GS bool :=
  prepared ← preparedRuntime;
  match prepared with
  | None => mret true
  | Some rt =>
      seen ← peek (fun s => (heartbeat s, heartbeatAt s));
      let '(beat, received) := seen in
      if negb (gr_ConfigGeneration rt =? generation) || negb (bool_decide (hb_PreparationID beat = gr_PreparationID rt))
      then mret false
      else
        now ← gateTime;
        mret (negb ((gateHeartbeatTTL <=? time_Sub now received) || negb (beat_ready beat rt)))
  end.
