(* ===== verification/GateService.v ===== *)
(** * The gate service: opening connections and judging requests

    [internal/engine/gate_service.go], [gate_lookup.go] and the entry points of
    [gate_request.go].  [OpenConnection] ties a proxied connection to a live
    session and the active policy, with a bounded number of attempts when the
    policy moves; [EvaluateRequest] reopens the connection for every held request
    and judges it under the plan that is then in force. *)

From S2P Require Import Prelude GoStr Netip Domain Flow SessionStore Config TLSExclusion Validate.
From S2P Require Import Connectivity Codec EventRing Interleave Runtime GateFrame GateEvidence GateVerdict.
From S2P Require Import GateRuntime.

(** ** Addresses *)

Definition Is4In6 (a : Addr) : bool := match a with Addr6 x _ => Z.shiftr x 32 =? 65535 | _ => false end.
Definition Unmap (a : Addr) : Addr := if Is4In6 a then Addr4 (addr_bits a mod 2 ^ 32) else a.
Definition IsUnspecified (a : Addr) : bool := bool_decide (a = Addr4 0) || bool_decide (a = Addr6 0 "").
Definition IsMulticast (a : Addr) : bool :=
  match a with
  | AddrZero => false
  | Addr4 x => Z.land (Z.shiftr x 24) 240 =? 224
  | Addr6 x _ => Z.shiftr x 120 =? 255
  end.

(** ** Admission *)

Definition valid_ports (open : ProxyConnectionOpen) : bool :=
  (1 <=? po_SourcePort open) && (po_SourcePort open <=? 65535) && (1 <=? po_OriginalPort open) && (po_OriginalPort open <=? 65535).

Definition tls_metadata_ok (open : ProxyConnectionOpen) (isTLS : bool) : bool :=
  let tls := po_TLS open in
  let code := po_TLSFailureCode open in
  negb ((253 <? strlen (tc_SNI tls)) || (256 <? strlen (tc_ALPN tls)))
  && negb (negb isTLS && (tc_Available tls || tc_Decrypted tls || negb (bool_decide (tc_SNI tls = "")) || negb (bool_decide (tc_ALPN tls = ""))))
  && (bool_decide (code = "")
      || negb (negb isTLS
               || negb (bool_decide (code = "TLS_CLIENTHELLO_TIMEOUT")) && negb (bool_decide (code = "TLS_CLIENTHELLO_INVALID"))
               || tc_Available tls || negb (bool_decide (tc_SNI tls = "")) || negb (bool_decide (tc_ALPN tls = "")))).

Definition unusable (a : Addr) : bool := IsUnspecified a || IsMulticast a.

(** The client and the upstream endpoint, and the TLS flag; [None] is an error. *)
Definition validateGateOpen (open : ProxyConnectionOpen) : option (AddrPort * AddrPort * bool) :=
  match po_IsTLS open with
  | None => None
  | Some isTLS =>
      if negb (strlen (po_ConnectionID open) =? 32) || negb (EqualFold (po_Protocol open) "tcp") || negb (valid_ports open)
         || negb (hex_ok (po_ConnectionID open)) then None
      else
        match ParseAddr (po_SourceIP open), ParseAddr (po_OriginalIP open) with
        | Some source, Some destination =>
            let source := Unmap source in
            let destination := Unmap destination in
            if negb (BitLen source =? BitLen destination) || unusable source || unusable destination then None
            else if negb (tls_metadata_ok open isTLS) then None
            else Some (mkAddrPort source (po_SourcePort open), mkAddrPort destination (po_OriginalPort open), isTLS)
        | _, _ => None
        end
  end.

(** ** The connection table *)

Definition defaultGateConnections : Z := 50000.
Definition gateConnectionTTL : Duration := 5 * Minute.

Definition sameGateConnection (a b : ProxyConnectionOpen) : bool :=
  bool_decide (po_ConnectionID a = po_ConnectionID b) && bool_decide (po_SourceIP a = po_SourceIP b)
  && (po_SourcePort a =? po_SourcePort b) && bool_decide (po_OriginalIP a = po_OriginalIP b)
  && (po_OriginalPort a =? po_OriginalPort b) && bool_decide (po_Protocol a = po_Protocol b)
  && bool_decide (po_TLSFailureCode a = po_TLSFailureCode b)
  && match po_IsTLS a, po_IsTLS b with Some x, Some y => Bool.eqb x y | _, _ => false end.

Definition connection_limit (s : GateService) : Z :=
  if (MaxConnections s <=? 0) || (defaultGateConnections <? MaxConnections s) then defaultGateConnections else MaxConnections s.

(** The sweep of expired records when the table is full. *)
Definition sweep_connections (now : Time) (m : gmap string gateConnectionRecord) : gmap string gateConnectionRecord :=
  filter (fun e => Before now (gc_expires e.2) = true) m.

(** The action still needs the connection on record. *)
Definition tracked_action (action : TLSGateAction) : bool :=
  bool_decide (action = TLSGateInspectHTTP) || bool_decide (action = TLSGateDecrypt).

(** The section under [gateMu]; the clock does not advance inside it. *)
Definition remember (open : ProxyConnectionOpen) (decision : ProxyConnectionDecision) (s : GateService) : GateService * bool :=
  let now := clock (gs_Runtime s) in
  let id := po_ConnectionID open in
  let conflict := match gateConnections s !! id with
                  | Some existing =>
                      Before now (gc_expires existing) &&
                      (negb (sameGateConnection (gc_open existing) open)
                       || negb (bool_decide (gc_sessionID existing = "")) && negb (bool_decide (gc_sessionID existing = cd_SessionID decision)))
                  | None => false
                  end in
  if conflict then (s <| gateConnections ::= delete id |>, false)
  else if negb (tracked_action (cd_Action decision)) then (s, true)
  else
    let limit := connection_limit s in
    let s := if negb (bool_decide (is_Some (gateConnections s !! id))) && (limit <=? Z.of_nat (size (gateConnections s)))
             then s <| gateConnections ::= sweep_connections now |> else s in
    if negb (bool_decide (is_Some (gateConnections s !! id))) && (limit <=? Z.of_nat (size (gateConnections s)))
    then (s, false)
    else (s <| gateConnections ::= insert id (mkGateConnectionRecord open (cd_SessionID decision) (now + gateConnectionTTL)) |>, true).

Definition rememberGateConnection (open : ProxyConnectionOpen) (decision : ProxyConnectionDecision) : GS bool :=
  atomic (remember open decision).

Definition gateConnection (id : string) : GS (option ProxyConnectionOpen) :=
  atomic (fun s =>
    match gateConnections s !! id with
    | Some value =>
        if Before (clock (gs_Runtime s)) (gc_expires value) then (s, Some (gc_open value))
        else (s <| gateConnections ::= delete id |>, None)
    | None => (s <| gateConnections ::= delete id |>, None)
    end).

(** ** The session behind a connection *)

(** What the conntrack source does for one lookup: it may not support reply
    lookups, the slot or the answer may not come in time, or it answers. *)
Inductive Lookup : Type :=
| LookupUnsupported
| LookupSlotTimeout
| LookupAnswer (answer : result SourceError ConntrackRecord).

Inductive ResolveError : Type := ResolveStore (e : StoreError) | ResolveOther.

(** The kernel's record is about the reply of [tuple] in the engine's scope. *)
Definition reply_record_ok (scope : Scope) (tuple reply : Tuple) (record : ConntrackRecord) : bool :=
  let identity := cr_Identity record in
  pr_ID (cr_Presence record) && negb (ci_ID identity =? 0) && Tuple_Valid (ci_Original identity)
  && bool_decide (ci_NetworkNS identity = sc_NetworkNamespace scope) && (ci_Zone identity =? sc_ConntrackZone scope)
  && (ci_Family identity =? tp_Family tuple) && pr_ReplyTuple (cr_Presence record)
  && bool_decide (cr_ReplyTuple record = Some reply).

(** The store's record is still waiting for its zones and carries no verdict. *)
Definition awaiting_enrichment (v : RuntimeSession) : bool :=
  (bool_decide (rs_SourceZone v = "") || bool_decide (rs_DestinationZone v = ""))
  && bool_decide (rs_Decision v = DecisionNone) && bool_decide (rs_EffectiveDecision v = DecisionNone)
  && negb (rs_Revoked v) && negb (bool_decide (rs_State v = SessionClosed)).

Definition resolve_record (s : GateService) (tuple : Tuple) (record : ConntrackRecord) : result ResolveError RuntimeSession :=
  if negb (reply_record_ok (gs_Scope s) tuple (Tuple_Reverse tuple) record) then Err ResolveOther
  else match ResolveIdentity (Store (gs_Runtime s)) (cr_Identity record) with
  | Err e => Err (ResolveStore e)
  | Ok value =>
      if conflict (ci_KernelStart (cr_Identity record)) (ci_KernelStart (rs_Identity value)) || awaiting_enrichment value
      then Err (ResolveStore ErrSessionMissing) else Ok value
  end.

Definition resolveProxySession (lookup : Lookup) (tuple : Tuple) : GS (result ResolveError RuntimeSession) :=
  match lookup with
  | LookupUnsupported =>
      peek (fun s => match Resolve (Store (gs_Runtime s)) (mkKey (gs_Scope s) tuple) with
                     | Ok v => Ok v
                     | Err e => Err (ResolveStore e)
                     end)
  | LookupSlotTimeout => mret (Err ResolveOther)
  | LookupAnswer answer =>
      _ ← modify (fun s => s <| gs_Runtime ::= fun r => r <| refreshSlots ::= Z.add 1 |> |>);
      res ← match answer with
            | Err _ => mret (Err ResolveOther)
            | Ok record => peek (fun s => resolve_record s tuple record)
            end;
      _ ← modify (fun s => s <| gs_Runtime ::= fun r => r <| refreshSlots ::= Z.add (-1) |> |>);
      mret res
  end.

(** ** The decision *)

Definition refuse (reason : string) (d : ProxyConnectionDecision) : ProxyConnectionDecision := d <| cd_ReasonCode := reason |>.
Definition unavailable : ProxyConnectionDecision -> ProxyConnectionDecision := refuse "GATE_ENGINE_UNAVAILABLE".

Definition decide_decrypt (plan : RequestGatePlan) (upstream : AddrPort) (open : ProxyConnectionOpen)
    (d : ProxyConnectionDecision) : ProxyConnectionDecision :=
  match MatchTLSExclusion plan (tc_SNI (po_TLS open)) upstream with
  | Some _ => d <| cd_Action := TLSGateBypass |> <| cd_ReasonCode := "TLS_EXCLUSION" |>
  | None =>
      if negb (bool_decide (po_TLSFailureCode open = "")) || bool_decide (tc_SNI (po_TLS open) = "") then
        let d := d <| cd_ReasonCode := if bool_decide (po_TLSFailureCode open = "") then "TLS_SNI_UNAVAILABLE"
                                       else po_TLSFailureCode open |> in
        if bool_decide (rp_FailMode plan = GateFailOpen) then d <| cd_Action := TLSGateBypass |> else d
      else d <| cd_Action := TLSGateDecrypt |> <| cd_ReasonCode := "GATE_INSPECTION_REQUIRED" |>
  end.

(** [isTLS] is [*open.IsTLS], which admission has checked to be present. *)
Definition decideGate (program : Program) (view : View) (upstream : AddrPort) (open : ProxyConnectionOpen) (isTLS : bool)
    (d : ProxyConnectionDecision) (baseAction : Decision) : ProxyConnectionDecision :=
  let m := Evaluate program view in
  if negb (bool_decide (baseAction = DecisionAllow)) || negb (bool_decide (pv_Action m = DecisionAllow)) then
    d <| cd_PolicyID := pv_PolicyID m |> <| cd_ReasonCode := "GATE_POLICY_NOT_ALLOWED" |>
  else
    let d := d <| cd_PolicyID := pv_PolicyID m |> in
    let plan := SelectRequestGate program view in
    if negb (rp_Enabled plan) then d <| cd_Action := TLSGateBypass |> <| cd_ReasonCode := "GATE_NOT_REQUESTED" |>
    else if negb (rp_Generation plan =? cd_ConfigGeneration d) || negb (bool_decide (rp_PolicyID plan = pv_PolicyID m))
            || negb (GateFailMode_Valid (rp_FailMode plan)) then unavailable d
    else
      let d := d <| cd_ProfileID := rp_ProfileID plan |> <| cd_FailMode := rp_FailMode plan |> in
      if negb isTLS then d <| cd_Action := TLSGateInspectHTTP |> <| cd_ReasonCode := "GATE_INSPECTION_REQUIRED" |>
      else match rp_TLSMode plan with
      | TLSBypass => d <| cd_Action := TLSGateBypass |> <| cd_ReasonCode := "GATE_NOT_REQUESTED" |>
      | TLSMetadata => d <| cd_Action := TLSGateMetadataOnly |> <| cd_ReasonCode := "GATE_NOT_REQUESTED" |>
      | TLSDecrypt => decide_decrypt plan upstream open d
      | _ => unavailable d
      end.

(** ** Opening a connection *)

(** What one call is about, fixed before the first attempt. *)
Record Opening : Type := mkOpening {
  op_open : ProxyConnectionOpen;
  op_client : AddrPort;
  op_upstream : AddrPort;
  op_isTLS : bool;
  op_tuple : Tuple;
  op_base : ProxyConnectionDecision;
}.

(** The session is linked: it is evaluated, read again, and judged.  [None] is
    the loop's [continue]. *)
Definition judge_linked (o : Opening) (program : Program) (d : ProxyConnectionDecision) (linked : RuntimeSession)
  : GS (option ProxyConnectionDecision) :=
  let d := d <| cd_SessionID := rs_SessionID linked |> in
  if negb (bool_decide (policyTupleForSession linked = op_tuple o)) || bool_decide (rs_State linked = SessionClosed)
     || rs_Revoked linked then mret (Some (unavailable d))
  else
    out ← on_runtime (Runtime_Evaluate (rs_SessionID linked));
    match snd out with
    | Some _ => mret (Some (unavailable d))
    | None =>
        if negb (pd_ConfigVersion (fst out) =? cd_ConfigGeneration d) then mret None
        else
          got ← peek (fun s => Get (Store (gs_Runtime s)) (rs_SessionID linked));
          mret (Some (match got with
            | None => refuse "GATE_POLICY_NOT_ALLOWED" d
            | Some current =>
                if rs_Revoked current || bool_decide (rs_State current = SessionClosed)
                   || bool_decide (rs_EffectiveDecision current = DecisionDrop)
                   || bool_decide (rs_EffectiveDecision current = DecisionReject)
                then refuse "GATE_POLICY_NOT_ALLOWED" d
                else decideGate program (ViewFromTuple (op_tuple o) (rs_SourceZone current) (rs_DestinationZone current))
                       (op_upstream o) (op_open o) (op_isTLS o) d (pd_Action (fst out))
            end))
    end.

(** No session yet: the same program judges the tuple itself. *)
Definition judge_unlinked (o : Opening) (program : Program) (d : ProxyConnectionDecision) : ProxyConnectionDecision :=
  let '(sourceZone, destinationZone) := infer_zones program (op_tuple o) in
  let view := ViewFromTuple (op_tuple o) sourceZone destinationZone in
  decideGate program view (op_upstream o) (op_open o) (op_isTLS o) d (pv_Action (Evaluate program view)).

Definition judge (o : Opening) (program : Program) (lookup : Lookup) (d : ProxyConnectionDecision)
  : GS (option ProxyConnectionDecision) :=
  linked ← resolveProxySession lookup (op_tuple o);
  match linked with
  | Ok v => judge_linked o program d v
  | Err (ResolveStore ErrSessionMissing) => mret (Some (judge_unlinked o program d))
  | Err _ => mret (Some (unavailable d))
  end.

Definition blocked_override (blocked : bool) (d : ProxyConnectionDecision) : ProxyConnectionDecision :=
  if blocked then d <| cd_Action := TLSGateBlock |> <| cd_ReasonCode := "GATE_POLICY_NOT_ALLOWED" |> else d.

(** One attempt: [None] is [continue]. *)
Definition attempt (o : Opening) (lookup : Lookup) : GS (option ProxyConnectionDecision) :=
  program ← on_runtime CurrentProgram;
  let generation := pr_Generation program in
  if generation =? 0 then mret None
  else
    current ← on_runtime CurrentGeneration;
    if negb (generation =? current) then mret None
    else
      judged ← judge o program lookup (op_base o <| cd_ConfigGeneration := generation |>);
      match judged with
      | None => mret None
      | Some d =>
          blocked ← on_runtime (gateSourceBlocked (ap_Addr (op_client o)));
          let d := blocked_override blocked d in
          still ← on_runtime CurrentGeneration;
          if negb (still =? generation) then mret None
          else
            ok ← rememberGateConnection (op_open o) d;
            mret (Some (if ok : bool then d
                        else d <| cd_Action := TLSGateBlock |> <| cd_ReasonCode := "GATE_ENGINE_UNAVAILABLE" |>))
      end.

(** [cancelled i] is [ctx.Err() != nil] before attempt [i]. *)
Fixpoint attempts (n i : nat) (cancelled : nat -> bool) (lookups : nat -> Lookup) (o : Opening)
  : GS (result GateError ProxyConnectionDecision) :=
  match n with
  | O => generation ← on_runtime CurrentGeneration; mret (Ok (op_base o <| cd_ConfigGeneration := generation |>))
  | S n =>
      if cancelled i then mret (Err GateContextDone)
      else
        out ← attempt o (lookups i);
        match out with
        | Some d => mret (Ok d)
        | None => attempts n (S i) cancelled lookups o
        end
  end.

Definition upstream_host (open : ProxyConnectionOpen) (isTLS : bool) : string :=
  if isTLS then
    match canonicalTLSDomain (tc_SNI (po_TLS open)) with
    | Some host => if HasPrefix host "*." then "" else host
    | None => ""
    end
  else "".

Definition opening_for (open : ProxyConnectionOpen) (client upstream : AddrPort) (isTLS : bool) (random : list Z) : Opening :=
  let family := if Is4 (ap_Addr client) then FamilyIPv4 else FamilyIPv6 in
  mkOpening open client upstream isTLS
    (mkTuple family (ap_Addr client) (ap_Port client) (ap_Addr upstream) (ap_Port upstream) 6 0 0 0)
    (mkProxyConnectionDecision (hex_EncodeToString random) 0 "" "" "" TLSGateBlock GateFailClose "GATE_ENGINE_UNAVAILABLE"
       (upstream_host open isTLS) (addr_String (ap_Addr upstream)) (ap_Port upstream)).

(** [ctxDone] is the context check at entry. *)
Definition OpenConnection (ctxDone : bool) (cancelled : nat -> bool) (lookups : nat -> Lookup) (open : ProxyConnectionOpen)
  : GS (result GateError ProxyConnectionDecision) :=
  if ctxDone then mret (Err GateContextDone)
  else
    refused ← checkProxyRuntime (po_EngineInstanceID open) (po_ConfigGeneration open);
    match refused with
    | Some e => mret (Err e)
    | None =>
        match validateGateOpen open with
        | None => mret (Err (GateProtocol CodeMalformed))
        | Some (client, upstream, isTLS) =>
            random ← rand_read;
            match random with
            | None => mret (Err GateRandomFailed)
            | Some random => attempts 3 0 cancelled lookups (opening_for open client upstream isTLS random)
            end
        end
    end.

(** ** Judging a request *)

Record ProxyRequestEvaluation : Type := mkProxyRequestEvaluation {
  pe_EngineInstanceID : string;
  pe_ConfigGeneration : Z;
  pe_Context : RequestContext;
  pe_Inspection : RequestInspectionResult;
}.

Definition CompiledRequestGateForPolicy (p : Program) (policyID : string) : option RequestGatePlan := pr_requestGates p !! policyID.

Definition gate_event (e : GateEvent) : RuntimeEvent :=
  mkRuntimeEvent 0 0 (ev_Kind e) (ev_Class e) (ev_SessionID e) (ev_Timestamp e) (ev_Generation e) 0 (ev_Reason e) 0 (ev_EventID e) 0.

(** The fresh decision does not cover the request: the connection is not one to
    inspect, its session changed, or its scheme contradicts the transport. *)
Definition request_contradicts (request : RequestContext) (open : ProxyConnectionOpen) (fresh : ProxyConnectionDecision) : bool :=
  negb (tracked_action (cd_Action fresh))
  || negb (bool_decide (rq_SessionID request = "")) && negb (bool_decide (cd_SessionID fresh = rq_SessionID request))
  || bool_decide (rq_Scheme request = "https") && negb (from_option id false (po_IsTLS open))
  || bool_decide (rq_Scheme request = "http") && from_option id true (po_IsTLS open).

(** The plan is not, or no longer, the one the connection was opened under. *)
Definition plan_unusable (plan : RequestGatePlan) (fresh : ProxyConnectionDecision) (current : Z) : bool :=
  negb (rp_Enabled plan) || negb (rp_Generation plan =? cd_ConfigGeneration fresh)
  || negb (bool_decide (rp_ProfileID plan = cd_ProfileID fresh)) || negb (GateFailMode_Valid (rp_FailMode plan))
  || negb (current =? cd_ConfigGeneration fresh).

Section requests.
Context {JE : JSON RequestGateEvidence}.

Definition store_decision (request : RequestContext) (inspection : RequestInspectionResult) (decision : RequestDecision) : GS unit :=
  now ← on_runtime Now;
  published ← atomic (fun s => let '(ev, e) := storeGateDecision (evidence s) now request inspection decision in
                               (s <| evidence := ev |>, e));
  match published with
  | Some e => on_runtime (publish (gate_event e))
  | None => mret tt
  end.

(** Store and answer. *)
Definition answer (request : RequestContext) (inspection : RequestInspectionResult) (decision : RequestDecision)
  : GS (result GateError RequestDecision) :=
  _ ← store_decision request inspection decision; mret (Ok decision).

Definition EvaluateRequest (ctxDone : bool) (cancelled : nat -> bool) (lookups : nat -> Lookup) (reopenDone : bool)
    (input : ProxyRequestEvaluation) : GS (result GateError RequestDecision) :=
  if ctxDone then mret (Err GateContextDone)
  else
    refused ← checkProxyRuntime (pe_EngineInstanceID input) (pe_ConfigGeneration input);
    match refused with
    | Some e => mret (Err e)
    | None =>
        let request := pe_Context input in
        let inspection := pe_Inspection input in
        if negb (validGateRequest request inspection) then mret (Err (GateProtocol CodeMalformed))
        else
          random ← rand_read;
          match random with
          | None => mret (Err GateRandomFailed)
          | Some random =>
              let decision := mkRequestDecision (hex_EncodeToString random) (rq_RequestID request) 0 "" "" "" RequestBlock
                                RequestCoverageUnavailable 503 "GATE_ENGINE_UNAVAILABLE" "" in
              known ← gateConnection (rq_ConnectionID request);
              match known with
              | None =>
                  generation ← on_runtime CurrentGeneration;
                  answer request inspection (decision <| rd_ConfigGeneration := generation |>)
              | Some open =>
                  reopened ← OpenConnection reopenDone cancelled lookups open;
                  match reopened with
                  | Err e => mret (Err e)
                  | Ok fresh =>
                      let decision := decision <| rd_ConfigGeneration := cd_ConfigGeneration fresh |>
                        <| rd_SessionID := cd_SessionID fresh |> <| rd_PolicyID := cd_PolicyID fresh |>
                        <| rd_ProfileID := cd_ProfileID fresh |> in
                      if request_contradicts request open fresh then
                        answer request inspection (decision <| rd_HTTPStatus := 403 |> <| rd_ReasonCode := "GATE_POLICY_NOT_ALLOWED" |>)
                      else
                        let request := request <| rq_SessionID := cd_SessionID fresh |> in
                        program ← on_runtime CurrentProgram;
                        match CompiledRequestGateForPolicy program (cd_PolicyID fresh) with
                        | None => answer request inspection decision
                        | Some plan =>
                            current ← on_runtime CurrentGeneration;
                            if plan_unusable plan fresh current then answer request inspection decision
                            else
                              final ← on_runtime CurrentGeneration;
                              answer request inspection
                                (decide_request decision request inspection plan (cd_ConfigGeneration fresh) final)
                        end
                  end
              end
          end
    end.

Definition report_result (ctxDone : bool) (input : ProxyRequestResult) : GS (result GateError RequestResultReceipt) :=
  if ctxDone then mret (Err GateContextDone)
  else
    refused ← checkProxyRuntime (pq_EngineInstanceID input) (pq_ConfigGeneration input);
    match refused with
    | Some e => mret (Err e)
    | None =>
        now ← on_runtime Now;
        out ← atomic (fun s => let '(ev, receipt, e) := ReportRequestResult (evidence s) now (generation (gs_Runtime s)) input in
                               (s <| evidence := ev |>, (receipt, e)));
        _ ← match snd out with Some e => on_runtime (publish (gate_event e)) | None => mret tt end;
        mret (match fst out with Some receipt => Ok receipt | None => Err (GateProtocol CodeMalformed) end)
    end.

(** ** The IPC entry point *)

(** The request after [json.Unmarshal] of its payload; [None] when it fails. *)
Inductive GatePayload : Type :=
| PayloadPing (beat : option RequestGateHeartbeat)
| PayloadOpen (open : option ProxyConnectionOpen)
| PayloadReport (input : option ProxyRequestResult)
| PayloadEvaluate (input : option ProxyRequestEvaluation)
| PayloadUnknown.

Inductive GateData : Type :=
| DataRuntime (rt : RequestGateRuntime)
| DataConnection (d : ProxyConnectionDecision)
| DataReceipt (r : RequestResultReceipt)
| DataDecision (d : RequestDecision).

Record GateResult : Type := mkGateResult { gres_Generation : Z; gres_DecisionID : string; gres_Data : GateData }.

Definition map_result {A} (f : A -> GateResult) (r : result GateError A) : result GateError GateResult :=
  match r with Ok a => Ok (f a) | Err e => Err e end.

Definition HandleGate (ctxDone : bool) (cancelled : nat -> bool) (lookups : nat -> Lookup) (reopenDone : bool) (payload : GatePayload)
  : GS (result GateError GateResult) :=
  match payload with
  | PayloadPing (Some beat) =>
      out ← SyncProxy cancelled beat;
      mret (map_result (fun rt => mkGateResult (gr_ConfigGeneration rt) (gr_EngineInstanceID rt) (DataRuntime rt)) out)
  | PayloadOpen (Some open) =>
      out ← OpenConnection ctxDone cancelled lookups open;
      mret (map_result (fun d => mkGateResult (cd_ConfigGeneration d) (cd_DecisionID d) (DataConnection d)) out)
  | PayloadReport (Some input) =>
      out ← report_result ctxDone input;
      mret (map_result (fun r => mkGateResult (rc_ConfigGeneration r) (rc_DecisionID r) (DataReceipt r)) out)
  | PayloadEvaluate (Some input) =>
      out ← EvaluateRequest ctxDone cancelled lookups reopenDone input;
      mret (map_result (fun d => mkGateResult (rd_ConfigGeneration d) (rd_DecisionID d) (DataDecision d)) out)
  | _ => mret (Err (GateProtocol CodeMalformed))
  end.
End requests.
