(* ===== verification/GateServiceProps.v ===== *)
(** * Theorems about the gate service

    A connection that is not blocked was allowed by the policy in force through
    the whole window in which it was decided; the connection table is bounded
    and pins identities; a request that passes was covered by such a connection
    and by its inspection. *)

From S2P Require Import Prelude GoStr Netip Domain Flow SessionStore StoreInv StoreProps Config TLSExclusion Validate Connectivity Codec GateFrame GateVerdict GateEvidence Interleave EventRing Runtime RuntimeProps GateRuntime GateService.

(** ** What the service relies on: the runtime keeps its own rely condition *)

Definition gate_rely (s s' : GateService) : Prop := runtime_rely (gs_Runtime s) (gs_Runtime s').

#[global] Instance gate_rely_preorder : PreOrder gate_rely.
Proof. unfold gate_rely. split; [intros s; cbv beta; reflexivity | intros a b c H1 H2; cbv beta in *; etrans; eassumption]. Qed.

Abbreviation guar_gs := (guar gate_rely).

Lemma guar_on_runtime {A} (p : Prog Runtime A) : guar runtime_rely p -> guar_gs (on_runtime p).
Proof. apply guar_lift. by intros s t H. Qed.

Lemma guar_gate {A} (op : GateService -> GateService * A) :
  (forall s, gs_Runtime (op s).1 = gs_Runtime s) -> guar_gs (atomic op).
Proof. intros H. apply guar_atomic. intros s. unfold gate_rely. rewrite H. reflexivity. Qed.

Lemma guar_gate_peek {A} (g : GateService -> A) : guar_gs (peek g).
Proof. apply guar_peek, _. Qed.

Ltac gs_step :=
  lazymatch goal with
  | |- guar _ (mbind _ _) => apply guar_bind
  | |- guar _ (_ ≫= _) => apply guar_bind
  | |- guar _ (mret _) => exact I
  | |- guar _ (Ret _) => exact I
  | |- guar _ (peek _) => apply guar_gate_peek
  | |- guar _ (on_runtime _) => apply guar_on_runtime; solve [eauto with guar | apply guar_read]
  | |- guar _ (match ?x with _ => _ end) => destruct x
  | |- forall _, _ => intros ?
  | |- guar _ _ => solve [eauto with guar]
  end.
Ltac gs_all := repeat gs_step.

#[export] Hint Resolve guar_evaluate : guar.

Lemma guar_engineInstance : guar_gs engineInstance.
Proof. apply guar_gate. intros s. repeat case_match; done. Qed.

Lemma guar_rand_read : guar_gs rand_read.
Proof. apply guar_gate. intros s. by case_match. Qed.

Lemma guar_remember o d : guar_gs (rememberGateConnection o d).
Proof. apply guar_gate. intros s. unfold remember. repeat case_if; done. Qed.

Lemma guar_gateConnection id : guar_gs (gateConnection id).
Proof. apply guar_gate. intros s. repeat case_match; done. Qed.
#[export] Hint Resolve guar_engineInstance guar_rand_read guar_remember guar_gateConnection : guar.

Lemma guar_checkProxyRuntime i g : guar_gs (checkProxyRuntime i g).
Proof. unfold checkProxyRuntime, preparedRuntime. gs_all. Qed.
#[export] Hint Resolve guar_checkProxyRuntime : guar.

Lemma guar_slots f :
  guar_gs (modify (fun s => s <| gs_Runtime ::= fun r => r <| refreshSlots ::= f |> |>)).
Proof. intros s. split; [by apply rely_frame | done]. Qed.
#[export] Hint Resolve guar_slots : guar.

Lemma guar_resolveProxySession l t : guar_gs (resolveProxySession l t).
Proof. unfold resolveProxySession. gs_all. Qed.
#[export] Hint Resolve guar_resolveProxySession : guar.

Lemma guar_gateSourceBlocked a : guar runtime_rely (gateSourceBlocked a).
Proof. unfold gateSourceBlocked. guar_all. Qed.
#[export] Hint Resolve guar_gateSourceBlocked : guar.

Lemma guar_judge o p l d : guar_gs (judge o p l d).
Proof. unfold judge, judge_linked, Runtime_Evaluate. gs_all. Qed.
#[export] Hint Resolve guar_judge : guar.

Lemma guar_attempts n i c l o : guar_gs (attempts n i c l o).
Proof. revert i. induction n as [| n IH]; intros i; cbn [attempts]; unfold attempt; gs_all. Qed.
#[export] Hint Resolve guar_attempts : guar.

Lemma guar_OpenConnection x c l o : guar_gs (OpenConnection x c l o).
Proof. unfold OpenConnection. gs_all. Qed.
#[export] Hint Resolve guar_OpenConnection : guar.

(** ** The window in which a connection was decided *)

Abbreviation rt := gs_Runtime (only parsing).

(** The first match of [p] for the tuple between the zones is the ALLOW of [policy]. *)
Definition allows (p : Program) (t : Tuple) (zones : string * string) (policy : string) : Prop :=
  let m := Evaluate p (ViewFromTuple t zones.1 zones.2) in pv_Action m = DecisionAllow /\ pv_PolicyID m = policy.

Definition admissible (v : RuntimeSession) : Prop :=
  rs_Revoked v = false /\ rs_State v <> SessionClosed /\ rs_EffectiveDecision v <> DecisionDrop /\
  rs_EffectiveDecision v <> DecisionReject.

(** Either no session is known yet and the program allows the tuple in its
    inferred zones, or the session was admissible at one of the moments and the
    program allows the tuple in its zones. *)
Definition judged_ok (o : Opening) (p : Program) (d : ProxyConnectionDecision) (mid : list GateService) : Prop :=
  (cd_SessionID d = cd_SessionID (op_base o) /\ allows p (op_tuple o) (infer_zones p (op_tuple o)) (cd_PolicyID d)) \/
  (exists m v, m ∈ mid /\ Get (Store (rt m)) (cd_SessionID d) = Some v /\ admissible v /\
     allows p (op_tuple o) (rs_SourceZone v, rs_DestinationZone v) (cd_PolicyID d)).

(** No block on [a] at the moment [m1] outlives the clock at [m2]. *)
Definition unblocked (a : Addr) (m1 m2 : GateService) : Prop :=
  forall b, blocks (rt m1) !! addr_String a = Some b -> tb_ExpiresAt b <= clock (rt m2).

(** A live record of the connection agrees with it. *)
Definition pinned (open : ProxyConnectionOpen) (d : ProxyConnectionDecision) (m : GateService) : Prop :=
  forall e, gateConnections m !! po_ConnectionID open = Some e -> Before (clock (rt m)) (gc_expires e) = true ->
  sameGateConnection (gc_open e) open = true /\ (gc_sessionID e = "" \/ gc_sessionID e = cd_SessionID d).

Definition window (o : Opening) (d : ProxyConnectionDecision) (mp : GateService) (mid : list GateService) (mb mc me mr : GateService) : Prop :=
  pr_Generation (program (rt mp)) = cd_ConfigGeneration d /\ cd_ConfigGeneration d <> 0 /\
  generation (rt me) = cd_ConfigGeneration d /\ judged_ok o (program (rt mp)) d mid /\
  unblocked (ap_Addr (op_client o)) mb mc /\ pinned (op_open o) d mr.

Lemma decideGate_keeps p view up open tls d base :
  let d' := decideGate p view up open tls d base in
  cd_ConfigGeneration d' = cd_ConfigGeneration d /\ cd_SessionID d' = cd_SessionID d.
Proof. unfold decideGate, decide_decrypt, unavailable, refuse. repeat case_match; done. Qed.

Lemma decideGate_allowed p view up open tls d base :
  cd_Action d = TLSGateBlock -> cd_Action (decideGate p view up open tls d base) <> TLSGateBlock ->
  pv_Action (Evaluate p view) = DecisionAllow /\ pv_PolicyID (Evaluate p view) = cd_PolicyID (decideGate p view up open tls d base).
Proof.
  intros Hd. unfold decideGate. destruct (negb (bool_decide (base = _)) || _) eqn:E; [done|]. intros _. split_bool. split; [done|].
  unfold decide_decrypt, unavailable, refuse. repeat case_match; done.
Qed.

Definition judged_post (o : Opening) (p : Program) (g : Z) (out : option ProxyConnectionDecision) (mid : list GateService) (_ : GateService) : Prop :=
  forall d, out = Some d -> cd_ConfigGeneration d = g /\ (cd_Action d <> TLSGateBlock -> judged_ok o p d mid).

(** A refusal claims nothing. *)
Lemma judged_refusal o p g d mid s : cd_ConfigGeneration d = g -> cd_Action d = TLSGateBlock -> judged_post o p g (Some d) mid s.
Proof. intros Hg Ha d' [= <-]. by split. Qed.

Lemma wp_judge R o p l d g s :
  cd_Action d = TLSGateBlock -> cd_ConfigGeneration d = g -> cd_SessionID d = cd_SessionID (op_base o) ->
  wp R (judge o p l d) (judged_post o p g) [] s.
Proof.
  intros Ha Hg Hs. unfold judge. apply wp_havoc. intros linked ext s1. cbn [app].
  destruct linked as [v | e].
  - unfold judge_linked. destruct (_ || _ || rs_Revoked v); [by apply judged_refusal|].
    apply wp_havoc. intros out ext2 s2. destruct (snd out); [by apply judged_refusal|].
    destruct (negb _); [done|]. apply wp_bind. intros m _. cbn [wp on_runtime lift Datatypes.id].
    destruct (Get (Store (rt m)) (rs_SessionID v)) as [cur|] eqn:Ec; [|by apply judged_refusal].
    destruct (rs_Revoked cur || _ || _ || _) eqn:Eadm; [by apply judged_refusal|]. split_bool.
    intros d' [= <-]. match goal with |- context [decideGate ?a ?b ?c ?e ?f ?d0 ?h] =>
      destruct (decideGate_keeps a b c e f d0 h) as [E1 E2]; pose proof (decideGate_allowed a b c e f d0 h Ha) as Hal end.
    split; [by rewrite E1|]. intros Hne. right. exists m, cur. rewrite E2. split_and!; try done.
    + apply elem_of_app. right. by left.
    + exact (Hal Hne).
  - assert (Hmissing : judged_post o p g (Some (judge_unlinked o p d)) ext s1).
    { intros d' [= <-]. unfold judge_unlinked. destruct (infer_zones p (op_tuple o)) as [sz dz] eqn:Ez.
      match goal with |- context [decideGate ?a ?b ?c ?e ?f ?d0 ?h] =>
        destruct (decideGate_keeps a b c e f d0 h) as [E1 E2]; pose proof (decideGate_allowed a b c e f d0 h Ha) as Hal end.
      split; [by rewrite E1|]. intros Hne. left. rewrite E2, Ez. split; [done | exact (Hal Hne)]. }
    destruct e as [[]|]; first [exact Hmissing | by apply judged_refusal].
Qed.

Lemma remember_pinned open d s : (remember open d s).2 = true -> pinned open d s.
Proof.
  unfold remember. intros H e He Hlive. rewrite He, Hlive in H. cbn [andb] in H.
  destruct (sameGateConnection (gc_open e) open); cbn [negb orb] in H; [|done]. split; [done|].
  destruct (decide (gc_sessionID e = "")) as [?|Hn1]; [by left|]. right.
  rewrite (bool_decide_eq_false_2 _ Hn1) in H. cbn [negb andb] in H.
  destruct (decide (gc_sessionID e = cd_SessionID d)) as [?|Hn2]; [done|]. by rewrite (bool_decide_eq_false_2 _ Hn2) in H.
Qed.

Definition authorised (o : Opening) (d : ProxyConnectionDecision) (tr : list GateService) : Prop :=
  exists before mp mid mb mc me mr after,
    tr = before ++ mp :: mid ++ mb :: mc :: me :: mr :: after /\ window o d mp mid mb mc me mr.

Definition opening_ok (o : Opening) : Prop := cd_SessionID (op_base o) = "" /\ cd_Action (op_base o) = TLSGateBlock.

Definition opened_post (o : Opening) (d : ProxyConnectionDecision) (tr : list GateService) : Prop :=
  cd_Action d <> TLSGateBlock -> authorised o d tr.

Lemma wp_attempt R o l tr s :
  opening_ok o -> wp R (attempt o l) (fun out tr' _ => forall d, out = Some d -> opened_post o d tr') tr s.
Proof.
  intros [Hbs Hba]. unfold attempt. apply wp_bind. intros mp _. cbn [wp on_runtime lift Datatypes.id].
  destruct (pr_Generation (program (rt mp)) =? 0) eqn:E0; [done|].
  apply wp_bind. intros mg _. cbn [wp on_runtime lift Datatypes.id]. destruct (negb _) eqn:Eg; [done|]. split_bool.
  set (g := pr_Generation (program (rt mp))) in *.
  apply wp_bind, wp_frame_moments. eapply wp_mono; [|apply (wp_judge R o _ l _ g); [exact Hba | done | done]].
  intros judged mid s1 Hj. destruct judged as [d|]; [|by intros ? [=]]. specialize (Hj d eq_refl) as [Hdg Hjok].
  apply wp_bind. intros mb _. cbn [wp on_runtime lift Datatypes.id]. intros mc _. cbn [wp on_runtime lift Datatypes.id].
  apply wp_bind. intros me _. cbn [wp on_runtime lift Datatypes.id]. destruct (negb (_ =? g)) eqn:Ee; [done|]. split_bool.
  apply wp_bind. intros mr _. cbn [wp]. intros d' [= <-].
  match goal with |- context [blocked_override ?b d] => destruct b eqn:Eb end; cbn [blocked_override].
  { by destruct (remember _ _ _).2; intros Hne; destruct Hne. }
  destruct (remember (op_open o) d mr).2 eqn:Er; [|by intros Hne; destruct Hne]. intros Hne.
  exists tr, mp, (mg :: mid), mb, mc, me, mr, []. rewrite <- !app_assoc. cbn [app]. split; [done|].
  assert (Hok : judged_ok o (program (rt mp)) d (mg :: mid)).
  { destruct (Hjok Hne) as [H | (m & v & Hm & H)]; [by left | right]. exists m, v. split; [by right | done]. }
  unfold window. rewrite Hdg. split_and!; try done; [|by apply remember_pinned].
  intros b Hb. rewrite Hb in Eb. unfold After in Eb. by split_bool.
Qed.

Lemma authorised_app o d tr ext : authorised o d tr -> authorised o d (tr ++ ext).
Proof.
  intros (b & mp & mid & mb & mc & me & mr & a & -> & H). exists b, mp, mid, mb, mc, me, mr, (a ++ ext). split; [|done].
  rewrite <- app_assoc. cbn [app]. by rewrite <- app_assoc.
Qed.

Lemma authorised_prepend o d tr ext : authorised o d tr -> authorised o d (ext ++ tr).
Proof.
  intros (b & mp & mid & mb & mc & me & mr & a & -> & H). exists (ext ++ b), mp, mid, mb, mc, me, mr, a. split; [|done].
  by rewrite <- app_assoc.
Qed.

Lemma wp_attempts R n i c l o tr s :
  opening_ok o ->
  wp R (attempts n i c l o) (fun out tr' _ => forall d, out = Ok d -> opened_post o d tr') tr s.
Proof.
  intros Ho. revert i tr s. induction n as [| n IH]; intros i tr s; cbn [attempts].
  - apply wp_bind. intros m _. cbn [wp on_runtime lift Datatypes.id]. intros d [= <-] Hne. destruct Hne. apply Ho.
  - destruct (c i); [by intros d [=]|]. apply wp_bind. eapply wp_mono; [|by apply wp_attempt].
    intros out tr' s' H. destruct out as [d|]; [|apply IH]. intros d' [= <-]. by apply H.
Qed.

Definition open_post (open : ProxyConnectionOpen) (out : result GateError ProxyConnectionDecision) (tr : list GateService)
    (_ : GateService) : Prop :=
  forall d, out = Ok d -> cd_Action d <> TLSGateBlock ->
  exists client upstream isTLS random,
    validateGateOpen open = Some (client, upstream, isTLS) /\ authorised (opening_for open client upstream isTLS random) d tr.

Lemma wp_OpenConnection R x c l open tr s : wp R (OpenConnection x c l open) (open_post open) tr s.
Proof.
  unfold OpenConnection. destruct x; [by intros d [=]|]. apply wp_havoc. intros refused ext s1.
  destruct refused; [by intros d [=]|]. destruct (validateGateOpen open) as [[[client upstream] isTLS]|] eqn:Ev; [|by intros d [=]].
  apply wp_havoc. intros random ext2 s2. destruct random as [random|]; [|by intros d [=]].
  eapply wp_mono; [|by apply (wp_attempts R 3 0 c l (opening_for open client upstream isTLS random))].
  intros out tr' s' H d Hd Hne. exists client, upstream, isTLS, random. split; [done|]. by apply H.
Qed.

Lemma StronglySorted_before {A} (R : A -> A -> Prop) l1 x l2 m : StronglySorted R (l1 ++ x :: l2) -> m ∈ l1 -> R m x.
Proof.
  induction l1 as [| y l1 IH]; cbn [app]; intros Hs Hm; [by apply elem_of_nil in Hm|].
  apply StronglySorted_inv in Hs as [Hs Hy]. apply elem_of_cons in Hm as [-> | Hm]; [|by apply IH].
  apply Forall_app in Hy as [_ Hy]. by apply Forall_cons in Hy as [Hy _].
Qed.

Lemma StronglySorted_suffix {A} (R : A -> A -> Prop) l1 l2 : StronglySorted R (l1 ++ l2) -> StronglySorted R l2.
Proof. induction l1 as [| y l1 IH]; cbn [app]; [done|]. intros Hs. apply StronglySorted_inv in Hs as [Hs _]. auto. Qed.

(** The policy in force at both ends of a window was in force throughout. *)
Lemma policy_in_force g before mp mid me after :
  StronglySorted gate_rely (before ++ mp :: mid ++ me :: after) -> generation (rt mp) = g -> generation (rt me) = g ->
  Forall (fun m => generation (rt m) = g /\ program (rt m) = program (rt mp)) (mp :: mid ++ [me]).
Proof.
  intros Hs%StronglySorted_suffix Hp He. constructor; [done|].
  assert (Hall : forall m, m ∈ mid ++ [me] -> gate_rely mp m /\ gate_rely m me).
  { intros m Hm. apply StronglySorted_inv in Hs as [Hs Hmp]. rewrite Forall_forall in Hmp. split.
    - apply Hmp. apply elem_of_app in Hm as [Hm | Hm]; apply elem_of_app; [by left | right].
      apply list_elem_of_singleton in Hm as ->. by left.
    - apply elem_of_app in Hm as [Hm | Hm%list_elem_of_singleton]; [|by subst]. by eapply StronglySorted_before. }
  apply Forall_forall. intros m Hm. destruct (Hall m Hm) as [[H1 H2 _] [H3 _ _]].
  assert (generation (rt m) = g) by lia. split; [done|]. apply H2. lia.
Qed.

(** C1. A connection that is not blocked was allowed by the policy in force. Whatever
    the runtime does meanwhile, a decision other than BLOCK has a window of moments
    inside the call through which one program, of the decision's generation, stayed
    active; that program's first match for the connection's tuple is the ALLOW of the
    decision's policy, either in the zones it infers or in those of the linked session,
    which inside the window was not revoked, closed, dropped or rejected; no block on
    the client outlived the window; and a live record of the same connection
    identifier agrees on its endpoints and session. *)
Theorem OpenConnection_authorised x cancelled lookups open env s d :
  within gate_rely env -> runtime_ok (rt s) ->
  run_result _ (run (OpenConnection x cancelled lookups open) env s) = Ok d -> cd_Action d <> TLSGateBlock ->
  exists client upstream isTLS random before mp mid mb mc me mr after,
    validateGateOpen open = Some (client, upstream, isTLS) /\
    run_moments _ (run (OpenConnection x cancelled lookups open) env s) = before ++ mp :: mid ++ mb :: mc :: me :: mr :: after /\
    window (opening_for open client upstream isTLS random) d mp mid mb mc me mr /\
    Forall (fun m => generation (rt m) = cd_ConfigGeneration d /\ program (rt m) = program (rt mp)) (mp :: mid ++ [mb; mc; me]).
Proof.
  intros Henv Hok Hr Hne.
  pose proof (wp_moments gate_rely _ _ s s (guar_OpenConnection x cancelled lookups open) ltac:(reflexivity)
                (wp_OpenConnection gate_rely x cancelled lookups open [] s)) as Hwp.
  apply (wp_sound gate_rely _ _ [] s env Henv) in Hwp. cbn zeta in Hwp. cbn [app] in Hwp. rewrite Hr in Hwp.
  destruct Hwp as (Hpost & Hsorted & Hfrom).
  destruct (Hpost d eq_refl Hne) as (client & upstream & isTLS & random & Hv & before & mp & mid & mb & mc & me & mr & after & E & Hw).
  exists client, upstream, isTLS, random, before, mp, mid, mb, mc, me, mr, after. split_and!; try done.
  rewrite E in Hsorted, Hfrom. destruct Hw as (Hp & _ & He & _).
  apply Forall_app in Hfrom as [_ Hfrom]. apply Forall_cons in Hfrom as [[_ _ Hmp] _].
  assert (Hg : generation (rt mp) = cd_ConfigGeneration d) by (rewrite <- Hp; symmetry; apply ok_tied, Hmp, Hok).
  pose proof (policy_in_force (cd_ConfigGeneration d) before mp (mid ++ [mb; mc]) me (mr :: after)) as Hf.
  rewrite <- !app_assoc in Hf. cbn [app] in Hf. by apply Hf.
Qed.

Definition ex_gate : GateService :=
  mkGateService ex_runtime (mkScope "ns" 0) None None None None None no_heartbeat 0 None ∅ (new_evidence_store 0 0) 0
    [Some [1; 2; 3]; Some [4; 5; 6]].
Definition ex_allow_gate : GateService :=
  ex_gate <| gs_Runtime := NewRuntime (program_zero false 3) 0 ex_limits [] 1000 |>.

Definition ex_open : ProxyConnectionOpen :=
  mkProxyConnectionOpen "" 0 "00112233445566778899aabbccddeeff" "10.0.0.7" 40000 "198.51.100.9" 443 "tcp" "" (Some true)
    (mkTLSContext "www.example.com" "" "" "" "" "" "h2" false true).

Definition ex_decision : ProxyConnectionDecision :=
  mkProxyConnectionDecision "010203" 3 "" "" "" TLSGateBypass GateFailClose "GATE_NOT_REQUESTED" "www.example.com" "198.51.100.9" 443.

Lemma OpenConnection_authorised_witness :
  cd_Action ex_decision <> TLSGateBlock /\
  exists client upstream isTLS random before mp mid mb mc me mr after,
    validateGateOpen ex_open = Some (client, upstream, isTLS) /\
    run_moments _ (run (OpenConnection false (fun _ => false) (fun _ => LookupUnsupported) ex_open) [] ex_allow_gate) =
      before ++ mp :: mid ++ mb :: mc :: me :: mr :: after /\
    window (opening_for ex_open client upstream isTLS random) ex_decision mp mid mb mc me mr /\
    Forall (fun m => generation (rt m) = 3 /\ program (rt m) = program (rt mp)) (mp :: mid ++ [mb; mc; me]).
Proof.
  split; [done|].
  apply (OpenConnection_authorised false (fun _ => false) (fun _ => LookupUnsupported) ex_open [] ex_allow_gate ex_decision);
    [constructor | apply NewRuntime_ok | vm_compute; reflexivity | done].
Defined.

(** * Held requests *)

(** ** Requests *)

Section requests.
Context {JE : JSON RequestGateEvidence}.

(** The evidence for an allowed request among the moments of the call. *)
Definition request_authorised (request : RequestContext) (inspection : RequestInspectionResult) (decision : RequestDecision)
    (tr : list GateService) : Prop :=
  exists mk e client upstream isTLS random fresh mp plan mf,
    mk ∈ tr /\ gateConnections mk !! rq_ConnectionID request = Some e /\ Before (clock (rt mk)) (gc_expires e) = true /\
    validateGateOpen (gc_open e) = Some (client, upstream, isTLS) /\
    authorised (opening_for (gc_open e) client upstream isTLS random) fresh tr /\
    tracked_action (cd_Action fresh) = true /\ request_contradicts request (gc_open e) fresh = false /\
    mp ∈ tr /\ CompiledRequestGateForPolicy (program (rt mp)) (cd_PolicyID fresh) = Some plan /\
    rp_Enabled plan = true /\ rp_Generation plan = cd_ConfigGeneration fresh /\ rp_ProfileID plan = cd_ProfileID fresh /\
    mf ∈ tr /\ generation (rt mf) = cd_ConfigGeneration fresh /\
    (clean_inspection request inspection plan \/
     rp_FailMode plan = GateFailOpen /\ fail_open_covers request inspection plan).

Definition request_post (input : ProxyRequestEvaluation) (out : result GateError RequestDecision) (tr : list GateService)
    (_ : GateService) : Prop :=
  forall d, out = Ok d -> rd_Verdict d = RequestAllow ->
  request_authorised (pe_Context input) (pe_Inspection input) d tr.

Lemma wp_answer R input request inspection d tr s :
  (rd_Verdict d = RequestAllow -> forall ext, request_authorised (pe_Context input) (pe_Inspection input) d (tr ++ ext)) ->
  wp R (answer request inspection d) (request_post input) tr s.
Proof. intros H. unfold answer. apply wp_havoc. intros u ext s' d' [= <-] Hv. by apply H. Qed.

Lemma wp_EvaluateRequest R x c l y input s : wp R (EvaluateRequest x c l y input) (request_post input) [] s.
Proof.
  unfold EvaluateRequest. destruct x; [by intros d [=]|]. apply wp_havoc. intros refused ext s1.
  destruct refused; [by intros d [=]|]. set (request := pe_Context input). set (inspection := pe_Inspection input).
  destruct (validGateRequest request inspection); [|by intros d [=]].
  apply wp_havoc. intros random ext2 s2. destruct random as [random|]; [|by intros d [=]]. cbn [app].
  apply wp_bind. intros mk _. cbn [wp].
  match goal with |- context [match (match ?t with _ => _ end).2 with _ => _ end] => destruct t as [e|] eqn:Ek end.
  2:{ cbn [snd]. apply wp_bind. intros m _. cbn [wp on_runtime lift Datatypes.id]. by apply wp_answer. }
  destruct (Before (clock (rt mk)) (gc_expires e)) eqn:El; cbn [snd].
  2:{ apply wp_bind. intros m _. cbn [wp on_runtime lift Datatypes.id]. by apply wp_answer. }
  apply wp_bind, wp_frame_moments. eapply wp_mono; [|apply wp_OpenConnection].
  intros reopened opened s3 Hopen. destruct reopened as [fresh|]; [|by intros d [=]].
  destruct (request_contradicts request (gc_open e) fresh) eqn:Ec; [by apply wp_answer|].
  assert (Htracked : tracked_action (cd_Action fresh) = true).
  { unfold request_contradicts in Ec. split_bool. done. }
  destruct (Hopen fresh eq_refl) as (client & upstream & isTLS & rnd & Hv & Hauth).
  { intros E. by rewrite E in Htracked. }
  apply wp_bind. intros mp _. cbn [wp on_runtime lift Datatypes.id].
  destruct (CompiledRequestGateForPolicy (program (rt mp)) (cd_PolicyID fresh)) as [plan|] eqn:Ep; [|by apply wp_answer].
  apply wp_bind. intros mg _. cbn [wp on_runtime lift Datatypes.id].
  destruct (plan_unusable plan fresh (generation (rt mg))) eqn:Eu; [by apply wp_answer|]. unfold plan_unusable in Eu. split_bool.
  apply wp_bind. intros mf _. cbn [wp on_runtime lift Datatypes.id]. apply wp_answer. intros Hallow ext3.
  apply decide_request_allow in Hallow as [Hgen Hcond]; [|done].
  exists mk, e, client, upstream, isTLS, rnd, fresh, mp, plan, mf. split_and!; try done.
  all: try (rewrite <- ?app_assoc; set_solver).
  rewrite <- !app_assoc. repeat first [exact Hauth | apply authorised_app; exact Hauth | apply authorised_prepend].
Qed.

(** C2. A request that passes was covered end to end. Under any schedule, when
    [EvaluateRequest] answers ALLOW, the request's connection was on record and live,
    reopening it gave an authorised decision that calls for inspection and matches the
    request's session and scheme, the program's plan for that policy was enabled and of
    the decision's generation, which was still active when the verdict was computed,
    and the inspection was clean or the profile fails open on what went wrong. *)
Theorem EvaluateRequest_authorised x cancelled lookups y input env s d :
  run_result _ (run (EvaluateRequest x cancelled lookups y input) env s) = Ok d -> rd_Verdict d = RequestAllow ->
  request_authorised (pe_Context input) (pe_Inspection input) d
    (run_moments _ (run (EvaluateRequest x cancelled lookups y input) env s)).
Proof.
  intros Hr Hv. pose proof (wp_run _ _ s env (wp_EvaluateRequest anything x cancelled lookups y input s)) as H.
  rewrite Hr in H. by apply (H d).
Qed.
End requests.

Definition demo_program : Program :=
  program_zero true 3 <| pr_Rules := [mkRule "p" "web" 10 ∅ ∅ [] [] [] DecisionAllow true] |>
                      <| pr_requestGates := {["p" := demo_plan GateFailClose]} |>.

Definition demo_open : ProxyConnectionOpen :=
  mkProxyConnectionOpen "" 0 "ffeeddccbbaa99887766554433221100" "10.0.0.7" 40000 "198.51.100.9" 80 "tcp" "" (Some false)
    (mkTLSContext "" "" "" "" "" "" "" false false).

Definition demo_gate : GateService :=
  ex_gate <| gs_Runtime := NewRuntime demo_program 0 ex_limits [] 1000 |>
          <| gateConnections := {["ffeeddccbbaa99887766554433221100" := mkGateConnectionRecord demo_open "" 5000]} |>.

Definition demo_JSON : JSON RequestGateEvidence := {| Marshal _ := Some [123; 125]; Unmarshal _ := None |}.

Definition demo_input : ProxyRequestEvaluation := mkProxyRequestEvaluation "" 0 demo_request (demo_inspection []).

Definition demo_allowed : RequestDecision :=
  mkRequestDecision "010203" "00112233445566778899aabbccddeeff" 3 "" "p" "gate" RequestAllow CoverageComplete 0
    "GATE_INSPECTION_COMPLETE" "".

Lemma EvaluateRequest_authorised_witness :
  request_authorised demo_request (demo_inspection []) demo_allowed
    (run_moments _ (run (EvaluateRequest (JE := demo_JSON) false (fun _ => false) (fun _ => LookupUnsupported) false demo_input) [] demo_gate)).
Proof.
  apply (EvaluateRequest_authorised (JE := demo_JSON) false (fun _ => false) (fun _ => LookupUnsupported) false demo_input [] demo_gate);
    [vm_compute; reflexivity | reflexivity].
Defined.

(** ** The connection table *)

Definition table_bounded (s : GateService) : Prop := Z.of_nat (size (gateConnections s)) <= connection_limit s.

Definition table_rely (s s' : GateService) : Prop := MaxConnections s' = MaxConnections s /\ (table_bounded s -> table_bounded s').

#[global] Instance table_rely_preorder : PreOrder table_rely.
Proof. split; [by intros s | intros a b c [H1 H2] [H3 H4]; split; [congruence | auto]]. Qed.

Lemma connection_limit_range s : 1 <= connection_limit s <= 50000.
Proof.
  unfold connection_limit, defaultGateConnections.
  destruct (Z.leb_spec (MaxConnections s) 0); cbn [orb]; [lia|]. destruct (Z.ltb_spec 50000 (MaxConnections s)); lia.
Qed.

Lemma table_same s s' : MaxConnections s' = MaxConnections s -> gateConnections s' = gateConnections s -> table_rely s s'.
Proof. intros Hm Ht. split; [done|]. unfold table_bounded, connection_limit. by rewrite Hm, Ht. Qed.

Lemma table_set s m : (table_bounded s -> Z.of_nat (size m) <= connection_limit s) -> table_rely s (s <| gateConnections := m |>).
Proof. intros H. split; [done|]. exact H. Qed.

Lemma table_remember open d s : table_rely s (remember open d s).1.
Proof.
  unfold remember.
  match goal with |- context [if ?b then (s <| gateConnections ::= delete _ |>, false) else _] => destruct b end.
  { apply table_set. intros H. etrans; [apply inj_le, size_delete_le | exact H]. }
  destruct (negb (tracked_action _)); [reflexivity|].
  set (id := po_ConnectionID open). set (now := clock (rt s)).
  set (s1 := if negb (bool_decide (is_Some (gateConnections s !! id))) && _ then _ else s).
  assert (H1 : table_rely s s1).
  { unfold s1. case_if; [|reflexivity]. apply table_set. intros H. etrans; [|exact H].
    apply inj_le, map_subseteq_size, map_filter_subseteq. }
  etrans; [exact H1|]. assert (El : connection_limit s1 = connection_limit s) by (unfold connection_limit; by rewrite (proj1 H1)).
  rewrite <- El. destruct (negb (bool_decide (is_Some (gateConnections s1 !! id))) && _) eqn:E; [reflexivity|].
  apply table_set. intros H. rewrite map_size_insert. destruct (gateConnections s1 !! id) eqn:Es; [exact H|].
  rewrite bool_decide_eq_false_2 in E by (intros [? ?]; congruence). cbn [negb andb] in E. split_bool.
  unfold Datatypes.id. lia.
Qed.

Lemma guar_table_runtime {A} (p : Prog Runtime A) : guar table_rely (on_runtime p).
Proof. induction p as [a | f k IH]; simpl; [done|]. intros s. split; [by apply table_same | apply IH]. Qed.

Lemma guar_table_atomic {A} (op : GateService -> GateService * A) :
  (forall s, MaxConnections (op s).1 = MaxConnections s /\ gateConnections (op s).1 = gateConnections s) -> guar table_rely (atomic op).
Proof. intros H. apply guar_atomic. intros s. by apply table_same; apply H. Qed.

Ltac tb_step :=
  lazymatch goal with
  | |- guar _ (mbind _ _) => apply guar_bind
  | |- guar _ (_ ≫= _) => apply guar_bind
  | |- guar _ (mret _) => exact I
  | |- guar _ (Ret _) => exact I
  | |- guar _ (on_runtime _) => apply guar_table_runtime
  | |- guar _ (match ?x with _ => _ end) => destruct x
  | |- guar _ (peek _) => apply guar_peek, _
  | |- guar _ preparedRuntime => apply guar_peek, _
  | |- guar _ gateTime => apply guar_peek, _
  | |- guar _ engineInstance => apply guar_table_atomic; intros ?; by repeat case_match
  | |- guar _ rand_read => apply guar_table_atomic; intros ?; by repeat case_match
  | |- guar _ (rememberGateConnection _ _) => apply guar_atomic; intros ?; apply table_remember
  | |- guar _ (modify _) => solve [intros ?; split; [by apply table_same | done]]
  | |- forall _, _ => intros ?
  | |- guar _ _ => solve [eauto with table]
  end.
Ltac tb_all := repeat tb_step.

Create HintDb table discriminated.

Lemma table_checkProxyRuntime i g : guar table_rely (checkProxyRuntime i g).
Proof. unfold checkProxyRuntime. tb_all. Qed.

Lemma table_resolve l t : guar table_rely (resolveProxySession l t).
Proof. unfold resolveProxySession. tb_all. Qed.
#[export] Hint Resolve table_checkProxyRuntime table_resolve : table.

Lemma table_attempts n i c l o : guar table_rely (attempts n i c l o).
Proof. revert i. induction n as [| n IH]; intros i; cbn [attempts]; unfold attempt, judge, judge_linked; tb_all. Qed.
#[export] Hint Resolve table_attempts : table.

Lemma table_OpenConnection x c l o : guar table_rely (OpenConnection x c l o).
Proof. unfold OpenConnection. tb_all. Qed.
#[export] Hint Resolve table_OpenConnection : table.

Lemma table_gateConnection id : guar table_rely (gateConnection id).
Proof.
  apply guar_atomic. intros s. assert (Hd : table_rely s (s <| gateConnections ::= delete id |>)).
  { apply table_set. intros H. etrans; [apply inj_le, size_delete_le | exact H]. }
  repeat case_match; first [exact Hd | reflexivity].
Qed.
#[export] Hint Resolve table_gateConnection : table.

Lemma table_SyncProxy c b : guar table_rely (SyncProxy c b).
Proof.
  assert (Hd : forall n i inst, guar table_rely (describe_attempts n i c inst)).
  { induction n as [| n IH]; intros i inst; cbn [describe_attempts]; unfold describe; tb_all. }
  unfold SyncProxy, RuntimeDescriptor. tb_all. apply guar_table_atomic. intros s. unfold accept_beat. by repeat case_if.
Qed.
#[export] Hint Resolve table_SyncProxy : table.

Section handler.
Context {JE : JSON RequestGateEvidence}.

Lemma table_answer r i d : guar table_rely (answer r i d).
Proof.
  unfold answer, store_decision. tb_all. apply guar_table_atomic. intros s. by destruct (storeGateDecision _ _ _ _ _).
Qed.
#[local] Hint Resolve table_answer : table.

Lemma table_HandleGate x c l y payload : guar table_rely (HandleGate x c l y payload).
Proof.
  unfold HandleGate, EvaluateRequest, report_result. tb_all.
  apply guar_table_atomic. intros s. by destruct (ReportRequestResult _ _ _ _) as [[? ?] ?].
Qed.

Definition gate_call (call : bool * (nat -> bool) * (nat -> Lookup) * bool * GatePayload) : GS unit :=
  let '(x, c, l, y, payload) := call in _ ← HandleGate x c l y payload; mret tt.

(** The table of proxied connections never exceeds its limit, at most 50 000
    records: in every interleaving of any number of IPC calls, from any state that
    respects it. *)
Theorem connections_bounded calls s s' pool :
  table_bounded s -> rtc pool_step (s, gate_call <$> calls) (s', pool) ->
  table_bounded s' /\ Z.of_nat (size (gateConnections s')) <= 50000.
Proof.
  intros Hs Hsteps. eapply (pool_guar table_rely) in Hsteps as [[_ H] _].
  - cbn [fst] in H. specialize (H Hs). split; [exact H|]. pose proof (connection_limit_range s'). unfold table_bounded in H. lia.
  - apply Forall_fmap, Forall_forall. intros [[[[x c] l] y] payload] _. apply guar_bind; [apply table_HandleGate | done].
Qed.
End handler.

Lemma connections_bounded_witness :
  table_bounded demo_gate /\ Z.of_nat (size (gateConnections demo_gate)) <= 50000.
Proof.
  apply (connections_bounded (JE := demo_JSON) [] demo_gate demo_gate []); [vm_compute; discriminate | apply rtc_refl].
Defined.

(** ** The action follows the plan *)

(** Why a gated TLS connection may pass without decryption. *)
Definition tls_exempt (plan : RequestGatePlan) (upstream : AddrPort) (open : ProxyConnectionOpen) : Prop :=
  rp_TLSMode plan = TLSBypass \/ rp_TLSMode plan = TLSMetadata \/
  rp_TLSMode plan = TLSDecrypt /\
    (is_Some (MatchTLSExclusion plan (tc_SNI (po_TLS open)) upstream) \/
     rp_FailMode plan = GateFailOpen /\ (po_TLSFailureCode open <> "" \/ tc_SNI (po_TLS open) = "")).

(** A gated connection is never passed uninspected without a reason the profile
    gives: when the policy's plan is enabled and the decision is neither BLOCK nor to
    inspect, the connection is TLS and the profile's mode says so, an exclusion
    matches it, or its ClientHello could not be read and the profile fails open;
    without a plan an allowed connection is passed, and a connection that is not
    allowed by the policy is blocked. *)
Theorem decideGate_inspects program view upstream open isTLS d base :
  cd_Action d = TLSGateBlock ->
  let d' := decideGate program view upstream open isTLS d base in
  let plan := SelectRequestGate program view in
  (base <> DecisionAllow \/ pv_Action (Evaluate program view) <> DecisionAllow -> cd_Action d' = TLSGateBlock) /\
  (rp_Enabled plan = true -> cd_Action d' <> TLSGateBlock -> tracked_action (cd_Action d') = false ->
     isTLS = true /\ tls_exempt plan upstream open) /\
  (cd_Action d' = TLSGateInspectHTTP -> isTLS = false) /\ (cd_Action d' = TLSGateDecrypt -> isTLS = true).
Proof.
  intros Hd. unfold decideGate, tls_exempt.
  destruct (negb (bool_decide (base = _)) || negb (bool_decide (pv_Action _ = _))) eqn:Ea.
  { cbn. rewrite Hd. by split_and!. }
  split_bool. split; [intros []; done|]. set (plan := SelectRequestGate program view).
  destruct (rp_Enabled plan) eqn:Ee; cbn [negb]; [|done]. destruct (_ || _ || negb (GateFailMode_Valid _)); [cbn; by rewrite Hd|].
  destruct isTLS; cbn [negb]; [|done]. unfold unavailable, refuse.
  destruct (rp_TLSMode plan) eqn:Em; cbn; rewrite ?Hd; try (split_and!; intros; by auto).
  unfold decide_decrypt. destruct (MatchTLSExclusion plan (tc_SNI (po_TLS open)) upstream) as [rule|] eqn:Ex.
  { cbn. split_and!; try done. intros _ _ _. split; [done|]. right; right. split; [done|]. left. by eexists. }
  destruct (negb (bool_decide (po_TLSFailureCode open = "")) || bool_decide (tc_SNI (po_TLS open) = "")) eqn:Ef; [|done].
  destruct (bool_decide (rp_FailMode plan = GateFailOpen)) eqn:Eo; cbn; rewrite ?Hd; [|done]. split_bool.
  split_and!; try done. intros _ _ _. split; [done|]. right; right. split; [done|]. right. split; [done|].
  apply orb_true_iff in Ef as [Ef | Ef]; split_bool; auto.
Qed.

Lemma decideGate_inspects_witness :
  rp_Enabled (SelectRequestGate demo_program (mkView (Addr4 1) (Addr4 2) 40000 80 6 "lan" "wan")) = true /\
  (cd_Action (decideGate demo_program (mkView (Addr4 1) (Addr4 2) 40000 80 6 "lan" "wan") (mkAddrPort (Addr4 2) 80) demo_open false
     (ex_decision <| cd_Action := TLSGateBlock |>) DecisionAllow) = TLSGateInspectHTTP -> false = false).
Proof.
  split; [vm_compute; reflexivity|].
  apply (decideGate_inspects demo_program (mkView (Addr4 1) (Addr4 2) 40000 80 6 "lan" "wan") (mkAddrPort (Addr4 2) 80) demo_open false
           (ex_decision <| cd_Action := TLSGateBlock |>) DecisionAllow). vm_compute. reflexivity.
Defined.
