(* ===== verification/GatePrepare.v ===== *)
(** * Theorems about heartbeats and preparation

    What the engine believes about the proxy: a heartbeat that is stored is well
    formed and newer than the one it replaces, and a prepared generation was
    confirmed by a fresh heartbeat of exactly that preparation. *)

From S2P Require Import Prelude GoStr Netip Domain Flow SessionStore StoreInv StoreProps Config TLSExclusion.
From S2P Require Import Validate Connectivity Codec EventRing Interleave Runtime RuntimeProps GateFrame.
From S2P Require Import GateEvidence GateVerdict GateRuntime GateService GateServiceProps.

(** ** Which heartbeat replaces which *)

Definition same_binding (a b : RequestGateHeartbeat) : Prop :=
  hb_Generation a = hb_Generation b /\ hb_EngineInstanceID a = hb_EngineInstanceID b /\ hb_PreparationID a = hb_PreparationID b.

(** [b] may replace [a], received at [at_], at time [now]. *)
Definition supersedes (a : RequestGateHeartbeat) (at_ : Time) (b : RequestGateHeartbeat) (now : Time) : Prop :=
  same_binding a b ->
  hb_ProxyInstanceID a = hb_ProxyInstanceID b /\ hb_Sequence a < hb_Sequence b \/
  hb_ProxyInstanceID a <> hb_ProxyInstanceID b /\ gateHeartbeatTTL <= time_Sub now at_.

(** The heartbeat part of a step: kept, or replaced by a well-formed newer one. *)
Definition beat_rely (s s' : GateService) : Prop :=
  heartbeat s' = heartbeat s /\ heartbeatAt s' = heartbeatAt s \/
  heartbeat_shape_ok (heartbeat s') = true /\ supersedes (heartbeat s) (heartbeatAt s) (heartbeat s') (heartbeatAt s').

Lemma accept_beat_spec beat now s :
  match accept_beat beat now s with
  | (s', None) => heartbeat s' = beat /\ heartbeatAt s' = now /\ supersedes (heartbeat s) (heartbeatAt s) beat now
  | (s', Some _) => s' = s
  end.
Proof.
  unfold accept_beat, supersedes, same_binding. set (old := heartbeat s).
  destruct ((hb_Generation old =? hb_Generation beat) && bool_decide (hb_EngineInstanceID old = hb_EngineInstanceID beat)
            && bool_decide (hb_PreparationID old = hb_PreparationID beat)) eqn:Es; cbn [andb].
  2:{ split_and!; try done. intros (H1 & H2 & H3). rewrite H1, H2, H3, Z.eqb_refl in Es. by rewrite !bool_decide_eq_true_2 in Es. }
  destruct (bool_decide (hb_ProxyInstanceID old = hb_ProxyInstanceID beat)) eqn:Ep; cbn [andb negb]; split_bool.
  - destruct (Z.leb_spec (hb_Sequence beat) (hb_Sequence old)); [done|]. split_and!; try done. intros _. by left.
  - destruct (Z.ltb_spec (time_Sub now (heartbeatAt s)) gateHeartbeatTTL); [done|]. split_and!; try done. intros _. by right.
Qed.

Definition beat_step_free {A} (p : GS A) : Prop :=
  guar (fun s s' => heartbeat s' = heartbeat s /\ heartbeatAt s' = heartbeatAt s) p.

Lemma beat_free_runtime {A} (p : Prog Runtime A) : beat_step_free (on_runtime p).
Proof. induction p as [a | f k IH]; [done|]. intros s. split; [done | apply IH]. Qed.

Lemma guar_weaken {St A} (R R' : St -> St -> Prop) (p : Prog St A) : (forall s s', R s s' -> R' s s') -> guar R p -> guar R' p.
Proof. intros HR. induction p as [a | f k IH]; simpl; [done|]. intros Hg s. split; [apply HR, Hg | apply IH, Hg]. Qed.

Lemma beat_free_descriptor c : beat_step_free (RuntimeDescriptor c).
Proof.
  assert (Hd : forall n i inst, beat_step_free (describe_attempts n i c inst)).
  { induction n as [| n IH]; intros i inst; cbn [describe_attempts]; [done|]. unfold describe, beat_step_free.
    repeat first [apply beat_free_runtime | apply guar_bind | exact I | apply IH | intros ? | (intros ?; split; [done | exact I]) | case_match | (split; [done | exact I])]. }
  unfold RuntimeDescriptor, beat_step_free.
  repeat first [apply Hd | apply guar_bind | exact I | intros ? | case_match | (split; [done | exact I])
               | (apply guar_atomic; intros ?; repeat case_match; done)].
Qed.

Lemma guar_SyncProxy c beat : guar beat_rely (SyncProxy c beat).
Proof.
  unfold SyncProxy. destruct (heartbeat_shape_ok beat) eqn:Eok; cbn [negb]; [|exact I].
  apply guar_bind; [eapply guar_weaken; [|apply beat_free_descriptor]; by left|].
  intros [rt0 | e]; [|exact I]. destruct (_ || _ || _); [exact I|]. destruct (negb _); [exact I|].
  apply guar_bind; [intros s; split; [by left | exact I]|]. intros now. apply guar_bind; [|by intros].
  apply guar_atomic. intros s. pose proof (accept_beat_spec beat now s) as H.
  destruct (accept_beat beat now s) as [s' [e|]]; cbn [fst]; [subst; by left|].
  destruct H as (H1 & H2 & H3). right. by rewrite H1, H2.
Qed.

Definition sync_call (call : (nat -> bool) * RequestGateHeartbeat) : GS unit := _ ← SyncProxy call.1 call.2; mret tt.

Lemma pool_threads {St} (R : St -> St -> Prop) c c' :
  rtc pool_step c c' -> Forall (guar R) c.2 -> Forall (guar R) c'.2.
Proof.
  induction 1 as [c | c1 c2 c3 H12 _ IH]; intros Hg; [done|]. apply IH. destruct H12 as [s before f k after].
  cbn [fst snd] in *. apply Forall_app in Hg as [Hb Ha]. apply Forall_cons in Ha as [Hp Ha].
  apply Forall_app_2; [done|]. constructor; [apply Hp | done].
Qed.

(** At most one proxy owns the gate, and its reports only move forward: in every
    interleaving of heartbeats, each step either leaves the accepted heartbeat alone
    or replaces it by a well-formed one that, for the same generation, engine and
    preparation, comes from the same proxy with a larger sequence number, or from
    another proxy after the previous one has been silent for the whole TTL. *)
Theorem heartbeat_ownership calls s c1 c2 :
  rtc pool_step (s, sync_call <$> calls) c1 -> pool_step c1 c2 -> beat_rely c1.1 c2.1.
Proof.
  intros Hsteps Hstep. apply (pool_threads beat_rely) in Hsteps.
  - destruct Hstep as [s1 before f k after]. cbn [fst snd] in *. apply Forall_app in Hsteps as [_ Hs].
    apply Forall_cons in Hs as [Hp _]. apply Hp.
  - apply Forall_fmap, Forall_forall. intros [c b] _. apply guar_bind; [apply guar_SyncProxy | done].
Qed.

Lemma heartbeat_ownership_witness :
  beat_rely ex_gate (run_final _ (run (sync_call (fun _ => true, no_heartbeat)) [] ex_gate)) /\
  (forall c2, pool_step (ex_gate, sync_call <$> [(fun _ => true, mkRequestGateHeartbeat "00112233445566778899aabbccddeeff" "" 0 1
      false false false 0 0 0 0 ∅ "" "" no_artifacts)]) c2 -> beat_rely ex_gate c2.1).
Proof.
  split; [by left|]. intros c2 H. refine (heartbeat_ownership _ ex_gate _ c2 (rtc_refl _ _) H).
Defined.

(** ** Preparation *)

(** The heartbeat seen at [m] confirms the descriptor, and was fresh. *)
Definition confirms (descriptor : RequestGateRuntime) (artifacts : RequestGateArtifacts) (m m1 m2 : GateService) : Prop :=
  let beat := heartbeat m in
  hb_PreparationID beat = gr_PreparationID descriptor /\ hb_EngineInstanceID beat = gr_EngineInstanceID descriptor /\
  hb_Generation beat = gr_ConfigGeneration descriptor /\ beat_ready beat descriptor = true /\
  validPreparedArtifacts (hb_Artifacts beat) descriptor = true /\ artifacts = hb_Artifacts beat /\
  time_Sub (gate_time m1) (heartbeatAt m) < gateHeartbeatTTL /\ heartbeatAt m <= gate_time m2.

Definition prepare_post (descriptor : RequestGateRuntime) (out : result PrepareError RequestGateArtifacts)
    (tr : list GateService) (s : GateService) : Prop :=
  match out with
  | Ok artifacts => exists m m1 m2, m ∈ tr /\ m1 ∈ tr /\ m2 ∈ tr /\ confirms descriptor artifacts m m1 m2
  | Err _ => preparation s = None
  end.

Lemma wp_poll R descriptor tr s (k : PollOutcome -> GS (result PrepareError RequestGateArtifacts)) :
  (forall out tr' s', (forall artifacts, out = PollReady artifacts ->
     exists m m1 m2, m ∈ tr' /\ m1 ∈ tr' /\ m2 ∈ tr' /\ confirms descriptor artifacts m m1 m2) ->
     wp R (k out) (prepare_post descriptor) tr' s') ->
  wp R (poll_preparation descriptor ≫= k) (prepare_post descriptor) tr s.
Proof.
  intros Hk. apply wp_bind. unfold poll_preparation. apply wp_bind. intros m _. cbn [wp Datatypes.id].
  destruct (bool_decide _ && bool_decide _ && _) eqn:Eb; [|by apply Hk]. split_bool.
  apply wp_bind. intros m1 _. cbn [wp Datatypes.id]. destruct (negb (time_Sub _ _ <? _)) eqn:Et; [by apply Hk|]. split_bool.
  apply wp_bind. intros m2 _. cbn [wp Datatypes.id]. destruct (Before _ _) eqn:Ebf; [by apply Hk|].
  destruct (negb _ && negb _) eqn:Ec; [by apply Hk|].
  destruct (beat_ready (heartbeat m) descriptor && validPreparedArtifacts (hb_Artifacts (heartbeat m)) descriptor) eqn:Er; [|by apply Hk].
  split_bool. apply Hk. intros artifacts [= <-]. exists m, m1, m2. unfold Before in Ebf. split_bool.
  split_and!; [set_solver.. |]. unfold confirms. by split_and!.
Qed.

Lemma wp_prepare_loop R ticks descriptor tr s : wp R (prepare_loop ticks descriptor) (prepare_post descriptor) tr s.
Proof.
  revert tr s. induction ticks as [| ticks IH]; intros tr s; cbn [prepare_loop]; apply wp_poll; intros out tr' s' Hready.
  all: destruct out as [| code | artifacts]; try (by apply (Hready artifacts)); try apply IH.
  all: apply wp_bind; intros m _; reflexivity.
Qed.

(** Preparing a generation either is confirmed or leaves nothing behind. When
    [PrepareGateRuntime] succeeds for a configuration that uses the gate, inside the
    call a heartbeat of exactly this preparation, engine instance and generation was
    on record, less than five seconds old, with both listeners, all workers, the CA
    where it is required and no failure, and the returned artifacts are its hashes;
    when it fails after it was published, the preparation is withdrawn. *)
Theorem PrepareGateRuntime_confirmed ticks value generation env s :
  UsesM4 value = true ->
  let r := run (PrepareGateRuntime ticks value generation) env s in
  match run_result _ r with
  | Ok artifacts =>
      exists descriptor m m1 m2, m ∈ run_moments _ r /\ m1 ∈ run_moments _ r /\ m2 ∈ run_moments _ r /\
        gr_ConfigGeneration descriptor = generation /\ gr_Config descriptor = EffectiveRequestGateConfig value /\
        gr_RequiresCA descriptor = gateRequiresCA value /\ confirms descriptor artifacts m m1 m2
  | Err PrepareRandom => True
  | Err _ => preparation (run_final _ r) = None
  end.
Proof.
  intros Hm. cbn zeta.
  apply (wp_run (PrepareGateRuntime ticks value generation) (fun out tr s' => match out with
    | Ok artifacts => exists descriptor m m1 m2, m ∈ tr /\ m1 ∈ tr /\ m2 ∈ tr /\
        gr_ConfigGeneration descriptor = generation /\ gr_Config descriptor = EffectiveRequestGateConfig value /\
        gr_RequiresCA descriptor = gateRequiresCA value /\ confirms descriptor artifacts m m1 m2
    | Err PrepareRandom => True
    | Err _ => preparation s' = None end)).
  unfold PrepareGateRuntime. rewrite Hm. cbn [negb]. apply wp_havoc. intros inst ext s1. destruct inst as [inst|]; [|done].
  apply wp_havoc. intros nonce ext2 s2. destruct nonce as [nonce|]; [|done]. apply wp_bind. intros m0 _. cbn [wp].
  eapply wp_mono; [|apply wp_prepare_loop]. intros out tr s3 H. destruct out as [artifacts | []]; [|done..].
  destruct H as (m & m1 & m2 & H1 & H2 & H3 & H). match type of H with confirms ?d _ _ _ _ => exists d, m, m1, m2 end. by split_and!.
Qed.

Definition gate_config : Config :=
  mkConfig [] [] [] [] [] [] 0 0 0 0 0 0 0 0 true None (Some (DefaultRequestGateConfig <| rg_Enabled := true |>)) [].

Lemma PrepareGateRuntime_confirmed_witness :
  run_result _ (run (PrepareGateRuntime 2 gate_config 4) [] ex_gate) = Err PrepareTimeout /\
  preparation (run_final _ (run (PrepareGateRuntime 2 gate_config 4) [] ex_gate)) = None.
Proof.
  pose proof (PrepareGateRuntime_confirmed 2 gate_config 4 [] ex_gate eq_refl) as H. cbn zeta in H.
  assert (E : run_result _ (run (PrepareGateRuntime 2 gate_config 4) [] ex_gate) = Err PrepareTimeout) by (vm_compute; reflexivity).
  rewrite E in H. split; [exact E | exact H].
Defined.
