(* ===== verification/GoNet.v ===== *)
(** * Go's [net.ParseIP] and [net.ParseCIDR]

    The validator reads addresses with package [net] while the compiler reads
    them with [net/netip].  An IP without zone is kept as the [netip.Addr] it was
    parsed from; [To4] also recognises the IPv4-mapped form, as [net.IP] does.
    The last part relates the two parsers. *)

From S2P Require Import Prelude GoStr Netip.
From Stdlib Require Import Ascii String.

#[local] Open Scope string_scope.
#[local] Open Scope Z_scope.

Definition ParseIP (s : string) : option Addr :=
  a ← ParseAddr s; if hasZone a then None else Some a.

Definition To4 (a : Addr) : option Z :=
  match a with
  | AddrZero => None
  | Addr4 x => Some x
  | Addr6 x _ => if Z.shiftr x 32 =? 65535 then Some (Z.land x (2 ^ 32 - 1)) else None
  end.

(** [dtoi]: the decimal number at the head; [None] when it reaches [big]. *)
Fixpoint dtoi (n : Z) (s : string) : option (Z * string) :=
  match s with
  | String c s' =>
      if is_digit c then
        let n := n * 10 + (code c - 48) in
        if 16777215 <=? n then None else dtoi n s'
      else Some (n, s)
  | EmptyString => Some (n, s)
  end.

(** The network of a CIDR: its masked address and the length of its mask. *)
Record IPNet : Type := mkIPNet { net_IP : Addr; net_Ones : Z }.

Definition mask_addr (a : Addr) (ones : Z) : Addr :=
  match a with
  | AddrZero => AddrZero
  | Addr4 x => Addr4 (mask_bits x 32 ones)
  | Addr6 x z => Addr6 (mask_bits x 128 ones) z
  end.

Definition ParseCIDR (s : string) : option (Addr * IPNet) :=
  match IndexByte "/" s with
  | None => None
  | Some i =>
      let mask := drop_string (S i) s in
      match ParseAddr (take_string i s) with
      | None => None
      | Some a =>
          if hasZone a then None
          else if negb (starts_with_digit mask) then None
          else match dtoi 0 mask with
               | Some (n, EmptyString) => if BitLen a <? n then None else Some (a, mkIPNet (mask_addr a n) n)
               | _ => None
               end
      end
  end.

(** [networkNumberAndMask] and the comparison of [IPNet.Contains]: an IPv4-mapped
    network counts as IPv4 and loses the first 96 bits of its mask. *)
Definition net_Contains (n : IPNet) (ip : Addr) : bool :=
  match To4 (net_IP n), To4 ip with
  | Some nn, Some x =>
      let ones := if Is4 (net_IP n) then net_Ones n else Z.max 0 (net_Ones n - 96) in
      Z.shiftr (Z.lxor nn x) (32 - ones) =? 0
  | None, None => Z.shiftr (Z.lxor (addr_bits (net_IP n)) (addr_bits ip)) (128 - net_Ones n) =? 0
  | _, _ => false
  end.

Example cidr_leading_zero : ParseCIDR "10.0.0.0/08" = Some (Addr4 167772160, mkIPNet (Addr4 167772160) 8) /\ ParsePrefix "10.0.0.0/08" = None.
Proof. by vm_compute. Qed.

(** ** Between the two parsers *)

(** A mask without a superfluous leading zero. *)
Definition plain_mask (mask : string) : bool :=
  match mask with String c (String _ _) => negb (Ascii.eqb c "0") | _ => true end.

Definition plain_cidr (s : string) : bool :=
  match IndexByte "/" s with Some i => plain_mask (drop_string (S i) s) | None => true end.

Lemma dtoi_digits n s m : dtoi n s = Some (m, EmptyString) -> all_chars is_digit s = true /\ scan_digits n s = (m, EmptyString).
Proof.
  revert n. induction s as [| c s IH]; intros n; cbn [dtoi all_chars scan_digits]; [by intros [= <-]|].
  destruct (is_digit c); [|done]. destruct (16777215 <=? _); [done|]. intros H%IH. done.
Qed.

Lemma dtoi_bound n s m r : dtoi n s = Some (m, r) -> 0 <= n < 16777215 -> 0 <= m < 16777215.
Proof.
  revert n. induction s as [| c s IH]; intros n; cbn [dtoi]; [by intros [= <- _]|].
  destruct (is_digit c) eqn:Ec; [|by intros [= <- _]]. destruct (16777215 <=? _) eqn:E; [done|]. intros H Hn.
  apply (IH _ H). unfold is_digit in Ec. apply andb_true_iff in Ec as [E1 E2]. lia.
Qed.

Lemma dtoi_Atoi s m : starts_with_digit s = true -> dtoi 0 s = Some (m, EmptyString) -> Atoi s = Some m.
Proof.
  intros Hd H. pose proof (dtoi_bound 0 s m _ H ltac:(lia)) as Hm. apply dtoi_digits in H as [Ha Hs].
  unfold Atoi, scan_int. destruct s as [| c s]; [done|]. cbn [starts_with_digit] in Hd.
  assert (Hsign : c <> "+"%char /\ c <> "-"%char) by (split; intros ->; done).
  assert (E : in_int64 m = true) by (unfold in_int64, minInt64, maxInt64; apply andb_true_iff; split; lia).
  destruct c as [[] [] [] [] [] [] [] []]; try (exfalso; tauto); cbn [starts_with_digit] in *; rewrite ?Hd, ?Hs, ?E; done.
Qed.

Lemma LastIndexByte_none c s : all_chars (fun d => negb (Ascii.eqb d c)) s = true -> LastIndexByte c s = None.
Proof.
  induction s as [| d s IH]; cbn [all_chars LastIndexByte]; [done|]. intros [Hd Hs]%andb_true_iff. rewrite (IH Hs).
  rewrite Ascii.eqb_sym. by destruct (Ascii.eqb d c).
Qed.

Lemma index_is_last c s i :
  IndexByte c s = Some i -> all_chars (fun d => negb (Ascii.eqb d c)) (drop_string (S i) s) = true -> LastIndexByte c s = Some i.
Proof.
  revert i. induction s as [| d s IH]; intros i; cbn [IndexByte LastIndexByte]; [done|].
  destruct (Ascii.eqb c d) eqn:E.
  - intros [= <-] H. cbn in H. by rewrite (LastIndexByte_none c s H).
  - destruct (IndexByte c s) as [j|] eqn:Ej; [|done]. intros [= <-] H. rewrite (IH j eq_refl H). done.
Qed.

Lemma ParseCIDR_ParsePrefix s a n :
  plain_cidr s = true -> ParseCIDR s = Some (a, n) -> ParsePrefix s = Some (PrefixFrom a (net_Ones n)).
Proof.
  unfold plain_cidr, ParseCIDR, ParsePrefix. destruct (IndexByte "/" s) as [i|] eqn:Ei; [|done]. intros Hplain.
  destruct (ParseAddr (take_string i s)) as [b|] eqn:Eb; [|done]. destruct (hasZone b) eqn:Ez; [done|].
  set (mask := drop_string (S i) s) in *. destruct (starts_with_digit mask) eqn:Ed; [|done]. cbn [negb].
  destruct (dtoi 0 mask) as [[m []]|] eqn:Em; [|done..]. destruct (BitLen b <? m) eqn:El; [done|]. intros [= <- <-].
  pose proof (dtoi_bound _ _ _ _ Em ltac:(lia)) as Hm. destruct (dtoi_digits _ _ _ Em) as [Hdig _].
  rewrite (index_is_last _ _ _ Ei); [|eapply all_chars_impl; [|exact Hdig]; intros c; apply digit_no_slash].
  rewrite Eb, Ez. fold mask. rewrite (dtoi_Atoi _ _ Ed Em).
  assert (Hnz : (1 <? strlen mask) && match mask with String c _ => negb ((49 <=? code c) && (code c <=? 57)) | _ => false end = false).
  { destruct mask as [| c rest]; [done|]. cbn [starts_with_digit] in Ed. destruct rest as [| d rest]; [done|].
    apply andb_false_iff. right. apply negb_false_iff. unfold plain_mask in Hplain. unfold is_digit in Ed.
    assert (code c <> 48).
    { intros Hc. assert (c = "0"%char) as ->; [|done]. unfold code in Hc. rewrite <- (ascii_N_embedding c). replace (N_of_ascii c) with 48%N by lia. done. }
    apply andb_true_iff in Ed as [??]. apply andb_true_iff. split; lia. }
  rewrite Hnz. assert (Hlen : (if Is6 b then 128 else 32) = BitLen b \/ b = AddrZero) by (destruct b; auto).
  cbn [net_Ones]. destruct Hlen as [-> | ->].
  - rewrite El. destruct (m <? 0) eqn:?; [lia | done].
  - cbn in El. assert (m = 0) as -> by lia. done.
Qed.

Lemma ParseCIDR_plain_chars s r : ParseCIDR s = Some r -> exists i a, IndexByte "/" s = Some i /\ ParseAddr (take_string i s) = Some a /\ hasZone a = false /\ all_chars is_digit (drop_string (S i) s) = true.
Proof.
  unfold ParseCIDR. destruct (IndexByte "/" s) as [i|]; [|done]. destruct (ParseAddr _) as [a|] eqn:Ea; [|done].
  destruct (hasZone a) eqn:Ez; [done|]. destruct (negb _); [done|]. destruct (dtoi 0 _) as [[m []]|] eqn:Em; [|done..].
  intros _. exists i, a. split_and!; [done.. |]. by eapply dtoi_digits.
Qed.

(** A string of digits and address characters is its own trimmed form. *)
Lemma ParseAddr_trim s a : ParseAddr s = Some a -> hasZone a = false -> TrimSpace s = s.
Proof.
  intros H Hz. apply TrimSpace_id. eapply all_chars_impl; [|by eapply ParseAddr_chars].
  intros c Hc. apply negb_true_iff. by apply addr_char_plain.
Qed.

Lemma take_index_drop c s i : IndexByte c s = Some i -> s = take_string i s ++ String c (drop_string (S i) s).
Proof.
  revert i. induction s as [| d s IH]; intros i; cbn [IndexByte]; [done|].
  destruct (Ascii.eqb_spec c d) as [->|]; [by intros [= <-]|].
  destruct (IndexByte c s) as [j|]; [|done]. intros [= <-].
  change (String d s = String d (take_string j s ++ String c (drop_string (S j) s))). f_equal. by apply IH.
Qed.

Lemma ParseCIDR_trim s r : ParseCIDR s = Some r -> TrimSpace s = s.
Proof.
  intros (i & a & Hi & Ha & Hz & Hd)%ParseCIDR_plain_chars. apply TrimSpace_id. rewrite (take_index_drop _ _ _ Hi).
  rewrite all_chars_app. apply andb_true_iff. split.
  - eapply all_chars_impl; [|by eapply ParseAddr_chars]. intros c Hc. apply negb_true_iff. by apply addr_char_plain.
  - cbn [all_chars]. apply andb_true_iff. split; [done|]. eapply all_chars_impl; [|exact Hd].
    intros c Hc. apply negb_true_iff. by apply addr_char_plain, digit_addr_char.
Qed.
