(* ===== verification/Validator.v ===== *)
(** * The configuration validator ([Validator.Validate] of [internal/config/manager.go])

    The structural check a candidate must pass: identifiers, references between
    objects, interface and VLAN settings, routes, address translation, policies,
    profiles and limits.  It returns everything it finds; the empty list accepts.
    Each loop of the source is a scan whose state is the maps the loop fills. *)

From S2P Require Import Prelude GoStr Netip GoNet Domain Config TLSExclusion PolicyCheck Validate.

(** ** Scans *)

Section scans.
Context {S A E : Type} (f : S -> A -> list E * S).

Fixpoint scan (s : S) (l : list A) : list E * S :=
  match l with
  | [] => ([], s)
  | x :: l => let '(errs, s) := f s x in let '(more, s) := scan s l in (errs ++ more, s)
  end.
End scans.

Definition Defaults : Config :=
  mkConfig [] [] [] [] [] [] 50000 10000 (64 * 1024) (32 * 1024) (8 * 1024) (64 * 1024) 200 2000 true None None [].

(** ** Leaf checks *)

Definition ValidateCIDR (value : string) : bool := negb (bool_decide (value = "")) && bool_decide (is_Some (ParseCIDR value)).
Definition ValidateIP (value : string) : bool := negb (bool_decide (value = "")) && bool_decide (is_Some (ParseIP value)).

(** [^[a-zA-Z0-9][a-zA-Z0-9_.-]{0,14}$]. *)
Definition linuxInterfaceName (name : string) : bool :=
  match name with
  | String c rest => identifier_start c && all_chars identifier_char rest && (strlen rest <=? 14)
  | EmptyString => false
  end.

Definition validateAddressFamily (value : string) (ipv6 : bool) : bool :=
  match ParseCIDR value with
  | Some (ip, _) => Bool.eqb (bool_decide (To4 ip = None)) ipv6
  | None => false
  end.

Definition validateIPv4CIDR (value : string) : bool :=
  match ParseCIDR value with Some (ip, _) => bool_decide (is_Some (To4 ip)) | None => false end.

Definition validateIPv4 (value : string) : bool :=
  match ParseIP value with Some ip => bool_decide (is_Some (To4 ip)) | None => false end.

Definition validateIPv4AddressOrCIDR (value : string) : bool :=
  if ContainsByte slash value then validateIPv4CIDR value else validateIPv4 value.

Definition validateM1Service (value : string) : bool := bool_decide (is_Some (ParseServiceSelector value)).

(** [true] when the check passes. *)
Definition validateRouteFamily (route : Route) : bool :=
  match ParseCIDR (rt_DestinationCIDR route) with
  | None => true
  | Some (_, destination) =>
      if bool_decide (rt_Gateway route = "") then true
      else match ParseIP (rt_Gateway route) with
           | None => true
           | Some gateway => Bool.eqb (bool_decide (To4 (net_IP destination) = None)) (bool_decide (To4 gateway = None))
           end
  end.

(** The best match so far: prefix length and zone. *)
Definition better (target : Addr) (zone : string) (best : Z * string) (network : IPNet) : Z * string :=
  if net_Contains network target && (best.1 <? net_Ones network) then (net_Ones network, zone) else best.

Definition interface_zone (target : Addr) (best : Z * string) (iface : Interface) : Z * string :=
  foldl (fun best value => match ParseCIDR value with
                           | Some (_, network) => better target (if_ZoneID iface) best network
                           | None => best
                           end) best (if_IPv4Addresses iface).

Definition route_zone (interfaces : gmap string Interface) (target : Addr) (best : Z * string) (route : Route) : Z * string :=
  if negb (rt_Enabled route) then best
  else match ParseCIDR (rt_DestinationCIDR route) with
       | Some (_, network) =>
           if bool_decide (To4 (net_IP network) = None) then best
           else better target (from_option if_ZoneID "" (interfaces !! rt_InterfaceID route)) best network
       | None => best
       end.

(** [make(map)] filled in the order of the list: the last entry of a key stays. *)
Definition interfaces_by_id (c : Config) : gmap string Interface :=
  foldl (fun m i => <[if_ID i := i]> m) ∅ (cf_Interfaces c).

Definition ipv4BelongsToZone (address zone : string) (value : Config) : bool :=
  match ParseIP address with
  | None => false
  | Some target =>
      if bool_decide (To4 target = None) then false
      else
        let best := foldl (interface_zone target) (-1, "") (cf_Interfaces value) in
        let best := foldl (route_zone (interfaces_by_id value) target) best (cf_Routes value) in
        (0 <=? best.1) && bool_decide (best.2 = zone)
  end.

(** ** Zones and interfaces *)

Definition zone_id_step (zoneIDs : gset string) (z : Zone) : list ConfigError * gset string :=
  (err_if (negb (ValidateIdentifier (zn_ID z))) (zn_ID z) "zone: invalid identifier" ++
   err_if (bool_decide (zn_ID z ∈ zoneIDs)) (zn_ID z) "duplicate zone",
   {[zn_ID z]} ∪ zoneIDs).

(** The interface identifiers and the system names seen so far. *)
Definition interface_step (zoneIDs : gset string) (seen : gset string * gmap string string) (i : Interface)
  : list ConfigError * (gset string * gmap string string) :=
  let '(ifaceIDs, systemIfaces) := seen in
  let id := if_ID i in
  let named := linuxInterfaceName (if_SystemName i) in
  (err_if (negb (ValidateIdentifier id)) id "interface: invalid identifier" ++
   err_if (bool_decide (id ∈ ifaceIDs)) id "duplicate interface" ++
   (if named
    then err_if (bool_decide (is_Some (systemIfaces !! if_SystemName i))) id "system interface assigned twice"
    else [mkConfigError id "invalid Linux system name"]) ++
   err_if (negb (bool_decide (if_ZoneID i = "")) && negb (bool_decide (if_ZoneID i ∈ zoneIDs))) id "references unknown zone" ++
   err_if (negb (if_MTU i =? 0) && ((if_MTU i <? 576) || (65535 <? if_MTU i))) id "invalid MTU" ++
   err_if (negb (InterfaceMode_Valid (if_Mode i))) id "invalid mode" ++
   mjoin ((fun a => err_if (negb (validateAddressFamily a false)) id "IPv4 address") <$> if_IPv4Addresses i) ++
   mjoin ((fun a => err_if (negb (validateAddressFamily a true)) id "IPv6 address") <$> if_IPv6Addresses i),
   ({[id]} ∪ ifaceIDs, if named then <[if_SystemName i := id]> systemIfaces else systemIfaces)).

(** [fmt.Sprintf("%s/%d", parent, vlan)]. *)
Definition vlan_binding (i : Interface) : string := if_ParentInterfaceID i +:+ "/" +:+ itoa (if_VLANID i).

Definition parent_errors (byID : gmap string Interface) (i : Interface) : list ConfigError :=
  let id := if_ID i in
  if bool_decide (if_ParentInterfaceID i = "") then [mkConfigError id "VLAN interface requires parent_interface_id"]
  else match byID !! if_ParentInterfaceID i with
       | None => [mkConfigError id "VLAN interface references unknown parent"]
       | Some parent =>
           if negb (bool_decide (if_Mode parent = InterfaceVLANParent)) then [mkConfigError id "VLAN parent is not VLAN_PARENT"]
           else err_if (if_AdminState i && negb (if_AdminState parent)) id "VLAN interface up while parent is down" ++
                err_if ((0 <? if_MTU i) && (0 <? if_MTU parent) && (if_MTU parent <? if_MTU i)) id "VLAN MTU exceeds parent MTU"
       end.

Definition vlan_step (byID : gmap string Interface) (vlanBindings : gset string) (i : Interface)
  : list ConfigError * gset string :=
  let id := if_ID i in
  let sub := bool_decide (if_Mode i = InterfaceVLANSub) in
  ((if sub then
      parent_errors byID i ++
      err_if ((if_VLANID i <? 1) || (4094 <? if_VLANID i)) id "VLAN ID outside 1..4094" ++
      err_if (bool_decide (vlan_binding i ∈ vlanBindings)) id "duplicate VLAN binding"
    else err_if (negb (bool_decide (if_ParentInterfaceID i = "")) || negb (if_VLANID i =? 0)) id
           "parent_interface_id/vlan_id only in VLAN_SUBINTERFACE mode") ++
   err_if (bool_decide (if_Mode i = InterfaceVLANParent) &&
           (negb (bool_decide (if_ZoneID i = "")) || negb (bool_decide (if_IPv4Addresses i = [])) ||
            negb (bool_decide (if_IPv6Addresses i = [])))) id "VLAN parent cannot have a zone or IP addresses",
   if sub then {[vlan_binding i]} ∪ vlanBindings else vlanBindings).

Definition zoneHasInterface (c : Config) : gset string :=
  list_to_set (filter (fun z => z <> "") (if_ZoneID <$> cf_Interfaces c)).

(** ** Routes *)

Definition route_step (ifaceIDs : gset string) (routeIDs : gset string) (r : Route) : list ConfigError * gset string :=
  let id := rt_ID r in
  (err_if (negb (ValidateIdentifier id)) id "route: invalid identifier" ++
   err_if (bool_decide (id ∈ routeIDs)) id "duplicate route" ++
   err_if (negb (ValidateCIDR (rt_DestinationCIDR r))) id "route: invalid CIDR" ++
   err_if (negb (bool_decide (rt_Gateway r = "")) && negb (ValidateIP (rt_Gateway r))) id "route: invalid IP" ++
   err_if (negb (bool_decide (rt_InterfaceID r = "")) && negb (bool_decide (rt_InterfaceID r ∈ ifaceIDs))) id
     "route references unknown interface" ++
   err_if (rt_Enabled r && bool_decide (rt_InterfaceID r = "") && bool_decide (rt_Gateway r = "")) id
     "enabled route requires interface_id or gateway" ++
   err_if (rt_Metric r <? 0) id "route has negative metric" ++
   err_if (negb (validateRouteFamily r)) id "gateway and destination use different IP families",
   {[id]} ∪ routeIDs).

(** ** Address translation *)

(** [fmt.Sprintf("%s/%d", priorityScope, n.Priority)]. *)
Definition nat_priority_key (n : NATRule) : string :=
  (if bool_decide (ToUpper (nr_Type n) = "DNAT") then "prerouting" else "postrouting") +:+ "/" +:+ itoa (nr_Priority n).

Definition nat_enabled_errors (hasInterface : gset string) (natPriorities : gset string) (n : NATRule) : list ConfigError :=
  let id := nr_ID n in
  err_if (nr_Priority n <? 0) id "nat has negative priority" ++
  err_if (bool_decide (nr_SourceZone n = "") || bool_decide (nr_DestinationZone n = "")) id
    "enabled nat requires source_zone and destination_zone" ++
  mjoin ((fun zone => err_if (negb (bool_decide (zone = "")) && negb (bool_decide (zone ∈ hasInterface))) id
                        "enabled nat zone has no interface") <$> [nr_SourceZone n; nr_DestinationZone n]) ++
  err_if (bool_decide (nat_priority_key n ∈ natPriorities)) id "duplicate NAT priority".

Definition nat_address_errors (c : Config) (n : NATRule) : list ConfigError :=
  let id := nr_ID n in
  let natType := ToUpper (nr_Type n) in
  err_if (negb (bool_decide (nr_SourceNetwork n = "")) && negb (validateIPv4CIDR (nr_SourceNetwork n))) id "nat: invalid IPv4 CIDR" ++
  err_if (negb (bool_decide (nr_DestinationNetwork n = "")) && negb (validateIPv4CIDR (nr_DestinationNetwork n))) id
    "nat: invalid IPv4 CIDR" ++
  err_if (negb (bool_decide (nr_TranslatedAddress n = "")) && negb (validateIPv4 (nr_TranslatedAddress n))) id
    "nat: invalid IPv4 address" ++
  (if bool_decide (natType = "DNAT") then
     if bool_decide (nr_TranslatedAddress n = "") then [mkConfigError id "DNAT requires translated address"]
     else err_if (negb (bool_decide (nr_DestinationZone n = "")) &&
                  negb (ipv4BelongsToZone (nr_TranslatedAddress n) (nr_DestinationZone n) c)) id
            "DNAT target is outside destination zone"
   else []) ++
  err_if (bool_decide (natType = "SNAT") && bool_decide (nr_TranslatedAddress n = "")) id "SNAT requires translated address" ++
  err_if (bool_decide (natType = "MASQUERADE") &&
          (negb (bool_decide (nr_TranslatedAddress n = "")) || negb (nr_TranslatedPort n =? 0))) id
    "MASQUERADE cannot set translated address or port".

(** The identifiers and the priorities seen so far. *)
Definition nat_step (c : Config) (zoneIDs hasInterface : gset string) (seen : gset string * gset string) (n : NATRule)
  : list ConfigError * (gset string * gset string) :=
  let '(natIDs, natPriorities) := seen in
  let id := nr_ID n in
  let natType := ToUpper (nr_Type n) in
  let protocol := ToLower (nr_Protocol n) in
  (err_if (negb (ValidateIdentifier id)) id "nat: invalid identifier" ++
   err_if (bool_decide (id ∈ natIDs)) id "duplicate nat" ++
   err_if (negb (bool_decide (natType ∈ ["SNAT"; "MASQUERADE"; "DNAT"]))) id "nat has invalid type" ++
   err_if (negb (bool_decide (protocol ∈ [""; "tcp"; "udp"; "icmp"]))) id "nat has invalid protocol" ++
   err_if ((negb (nr_OriginalPort n =? 0) || negb (nr_TranslatedPort n =? 0)) && negb (bool_decide (protocol ∈ ["tcp"; "udp"]))) id
     "nat ports require tcp or udp protocol" ++
   (if nr_Enabled n then nat_enabled_errors hasInterface natPriorities n else []) ++
   mjoin ((fun z => err_if (negb (bool_decide (z = "")) && negb (bool_decide (z ∈ zoneIDs))) id "nat references unknown zone")
            <$> [nr_SourceZone n; nr_DestinationZone n]) ++
   err_if (negb (ValidatePort (nr_OriginalPort n) true)) id "nat: port outside 1..65535" ++
   err_if (negb (ValidatePort (nr_TranslatedPort n) true)) id "nat: port outside 1..65535" ++
   nat_address_errors c n,
   ({[id]} ∪ natIDs, if nr_Enabled n then {[nat_priority_key n]} ∪ natPriorities else natPriorities)).

(** The five parts joined with ["|"]. *)
Definition nat_binding (n : NATRule) : string :=
  strings_Join "|" [nr_SourceZone n; nr_SourceNetwork n; nr_DestinationNetwork n; ToLower (nr_Protocol n); itoa (nr_OriginalPort n)].

Definition is_dnat (n : NATRule) : bool := nr_Enabled n && EqualFold (nr_Type n) "DNAT".

Definition binding_step (natBindings : gset string) (n : NATRule) : list ConfigError * gset string :=
  if is_dnat n
  then (err_if (bool_decide (nat_binding n ∈ natBindings)) (nr_ID n) "conflicting DNAT binding", {[nat_binding n]} ∪ natBindings)
  else ([], natBindings).

(** ** Policies and profiles *)

Definition policy_zone_errors (zoneIDs hasInterface : gset string) (p : SecurityPolicy) : list ConfigError :=
  mjoin ((fun z => if negb (bool_decide (z ∈ zoneIDs)) then [mkConfigError (sp_ID p) ("policy references unknown zone " +:+ z)]
                   else err_if (sp_Enabled p && negb (bool_decide (z ∈ hasInterface))) (sp_ID p) "enabled policy zone has no interface")
           <$> sp_SourceZones p ++ sp_DestinationZones p).

Definition risk_ok (r : option Z) : bool :=
  match r with Some r => (0 <=? r) && (r <=? 100) | None => true end.

(** The identifiers and the priorities seen so far. *)
Definition policy_step (zoneIDs hasInterface : gset string) (seen : gset string * gset Z) (p : SecurityPolicy)
  : list ConfigError * (gset string * gset Z) :=
  let '(ids, priorities) := seen in
  let id := sp_ID p in
  (err_if (negb (ValidateIdentifier id)) id "policy: invalid identifier" ++
   err_if (bool_decide (id ∈ ids)) id "duplicate object" ++
   err_if (bool_decide (sp_Priority p ∈ priorities)) id "duplicate policy priority" ++
   err_if (sp_Priority p <? 0) id "policy has negative priority" ++
   (if negb (Decision_Valid (sp_Action p)) then [mkConfigError id "policy has invalid action"]
    else err_if (sp_Enabled p && negb (is_l3_action (sp_Action p))) id "policy uses an action outside the M1 firewall scope") ++
   err_if (negb (risk_ok (sp_MinimumRisk p))) id "policy has invalid minimum risk" ++
   err_if (negb (risk_ok (sp_MaximumRisk p))) id "policy has invalid maximum risk" ++
   policy_zone_errors zoneIDs hasInterface p ++
   mjoin ((fun a => err_if (negb (validateIPv4AddressOrCIDR a)) id "policy: invalid IPv4 address")
            <$> sp_SourceAddresses p ++ sp_DestinationAddresses p) ++
   mjoin ((fun s => err_if (negb (validateM1Service s)) id "policy: invalid service") <$> sp_Services p),
   ({[id]} ∪ ids, {[sp_Priority p]} ∪ priorities)).

Definition profile_step (profileIDs : gset string) (p : SecurityProfile) : list ConfigError * gset string :=
  let id := pf_ID p in
  (err_if (negb (ValidateIdentifier id)) id "profile: invalid identifier" ++
   err_if (bool_decide (id ∈ profileIDs)) id "duplicate profile" ++
   err_if (negb (TLSMode_Valid (pf_TLSMode p))) id "profile has invalid TLS mode" ++
   err_if ((pf_MinimumBlockRisk p <? 0) || (100 <? pf_MinimumBlockRisk p)) id "profile has invalid block risk" ++
   err_if (negb (bool_decide (pf_InspectionFailureAction p = DecisionNone)) && negb (Decision_Valid (pf_InspectionFailureAction p))) id
     "profile has invalid inspection failure action",
   {[id]} ∪ profileIDs).

Definition profile_reference_errors (profileIDs : gset string) (p : SecurityPolicy) : list ConfigError :=
  err_if (negb (bool_decide (sp_SecurityProfileID p = "")) && negb (bool_decide (sp_SecurityProfileID p ∈ profileIDs))) (sp_ID p)
    "policy references unknown profile".

Definition limits_positive (c : Config) : bool :=
  (0 <? cf_MaxSessions c) && (0 <? cf_MaxEventsQueue c) && (0 <? cf_MaxHTTPBodyInspection c) && (0 <? cf_MaxHTTPHeaderSize c) &&
  (0 <? cf_MaxURLLength c) && (0 <? cf_MaxMLInputLength c) && (0 <? cf_MLTimeoutMillis c) && (0 <? cf_RequestInspectionTimeoutMillis c).

(** ** The whole check *)

Definition Validate (c : Config) : list ConfigError :=
  let '(zone_errs, zoneIDs) := scan zone_id_step ∅ (cf_Zones c) in
  let '(iface_errs, (ifaceIDs, _)) := scan (interface_step zoneIDs) (∅, ∅) (cf_Interfaces c) in
  let hasInterface := zoneHasInterface c in
  let '(vlan_errs, _) := scan (vlan_step (interfaces_by_id c)) ∅ (cf_Interfaces c) in
  let '(route_errs, _) := scan (route_step ifaceIDs) ∅ (cf_Routes c) in
  let '(nat_errs, _) := scan (nat_step c zoneIDs hasInterface) (∅, ∅) (cf_NATRules c) in
  let '(binding_errs, _) := scan binding_step ∅ (cf_NATRules c) in
  let '(policy_errs, _) := scan (policy_step zoneIDs hasInterface) (∅, ∅) (cf_Policies c) in
  let '(profile_errs, profileIDs) := scan profile_step ∅ (cf_Profiles c) in
  zone_errs ++ iface_errs ++ vlan_errs ++ route_errs ++ nat_errs ++ binding_errs ++ policy_errs ++ profile_errs ++
  mjoin (profile_reference_errors profileIDs <$> cf_Policies c) ++
  err_if (negb (limits_positive c)) "" "resource limits must be positive" ++
  ValidateInspection c ++ ValidateRequestGate c.

(** The defaults are a valid, empty configuration. *)
Example Defaults_valid : Validate Defaults = [].
Proof. vm_compute. reflexivity. Qed.
