(* ===== verification/ValidatorProps.v ===== *)
(** * What the validator accepts

    [Validate] accepts exactly the configurations of the declarative predicate
    [valid_config]; an accepted configuration compiles, except for an address
    mask that only package [net] reads. *)

From S2P Require Import Prelude GoStr Netip GoNet Domain Config Services TLSExclusion PolicyCheck Validate Connectivity.
From S2P Require Import Validator.

(** ** Scans that look for a repeated key *)

Section keyed.
Context {S A E K1 K2 : Type} `{Countable K1, Countable K2}.
Context (f : S -> A -> list E * S) (keys1 : S -> gset K1) (keys2 : S -> gset K2).
Context (key1 : A -> option K1) (key2 : A -> option K2) (good : A -> Prop).

Definition unseen {K} `{Countable K} (key : A -> option K) (keys : gset K) (x : A) : Prop :=
  forall k, key x = Some k -> k ∉ keys.

Definition fresh {K} `{Countable K} (key : A -> option K) (keys : gset K) (l : list A) : Prop :=
  NoDup (omap key l) /\ forall k, k ∈ omap key l -> k ∉ keys.

Definition add_key {K} `{Countable K} (key : A -> option K) (keys : gset K) (x : A) : gset K :=
  match key x with Some k => {[k]} ∪ keys | None => keys end.

Lemma fresh_nil {K} `{Countable K} (key : A -> option K) keys : fresh key keys [].
Proof. split; [constructor | by intros k Hk%elem_of_nil]. Qed.

Lemma fresh_cons {K} `{Countable K} (key : A -> option K) keys x l :
  fresh key keys (x :: l) <-> unseen key keys x /\ fresh key (add_key key keys x) l.
Proof.
  unfold fresh, unseen, add_key. cbn. destruct (key x) as [k|] eqn:Ekey.
  - rewrite NoDup_cons. split.
    + intros [[Hk Hn] Hf]. split; [intros k' [= <-]; apply Hf; by left|]. split; [done|].
      intros k' Hk'. rewrite not_elem_of_union, not_elem_of_singleton. split; [by intros -> | by apply Hf; right].
    + intros [Hu [Hn Hf]]. split; [split; [|done]|].
      * intros Hk. apply (Hf k Hk). set_solver.
      * intros k' [-> | Hk']%elem_of_cons; [by apply Hu|]. specialize (Hf k' Hk'). set_solver.
  - split; [intros [Hn Hf]; by repeat split | by intros [_ ?]].
Qed.

Hypothesis f_errors : forall s x, (f s x).1 = [] <-> good x /\ unseen key1 (keys1 s) x /\ unseen key2 (keys2 s) x.
Hypothesis f_keys1 : forall s x, keys1 (f s x).2 = add_key key1 (keys1 s) x.
Hypothesis f_keys2 : forall s x, keys2 (f s x).2 = add_key key2 (keys2 s) x.

Lemma scan_keyed s l :
  (scan f s l).1 = [] <-> Forall good l /\ fresh key1 (keys1 s) l /\ fresh key2 (keys2 s) l.
Proof using Type*.
  revert s. induction l as [| x l IH]; intros s; cbn [scan].
  - split; [intros _; split_and!; [constructor | apply fresh_nil..] | done].
  - specialize (IH (f s x).2). specialize (f_errors s x). specialize (f_keys1 s x). specialize (f_keys2 s x).
    destruct (f s x) as [errs s']. cbn [fst snd] in *. destruct (scan f s' l) as [more s'']. cbn [fst] in *.
    rewrite app_nil, f_errors, IH, Forall_cons, !fresh_cons, f_keys1, f_keys2. tauto.
Qed.
End keyed.

Lemma scan_state {S A E K} `{Countable K} (f : S -> A -> list E * S) (keys : S -> gset K) (key : A -> K) s l :
  (forall s x, keys (f s x).2 = {[key x]} ∪ keys s) -> keys (scan f s l).2 = list_to_set (key <$> l) ∪ keys s.
Proof.
  intros Hf. revert s. induction l as [| x l IH]; intros s; cbn; [by rewrite union_empty_l_L|].
  specialize (IH (f s x).2). specialize (Hf s x). destruct (f s x) as [errs s']. cbn [fst snd] in *.
  destruct (scan f s' l) as [more s'']. cbn [snd] in *. rewrite IH, Hf. set_solver.
Qed.

Lemma fresh_all {A K} `{Countable K} (key : A -> K) l : fresh (fun x => Some (key x)) ∅ l <-> NoDup (key <$> l).
Proof.
  unfold fresh. assert (E : omap (fun x => Some (key x)) l = key <$> l) by (induction l as [| x l IH]; cbn; by f_equal).
  rewrite E. split; [by intros [??] | intros Hn; split; [done | set_solver]].
Qed.

Lemma fresh_none {A} l : fresh (K := unit) (fun _ : A => None) ∅ l.
Proof.
  unfold fresh. assert (E : omap (fun _ : A => @None unit) l = []) by (induction l as [| x l IH]; cbn; auto).
  rewrite E. split; [constructor | by intros k Hk%elem_of_nil].
Qed.

Lemma fresh_filter {A K} `{Countable K} (p : A -> bool) (key : A -> K) l :
  fresh (fun x => if p x then Some (key x) else None) ∅ l <-> NoDup (key <$> filter (fun x => p x = true) l).
Proof.
  unfold fresh. assert (E : omap (fun x => if p x then Some (key x) else None) l = key <$> filter (fun x => p x = true) l).
  { induction l as [| x l IH]; [done|]. rewrite filter_cons. cbn [omap list_omap]. destruct (p x) eqn:Ep; case_decide; try congruence; cbn; f_equal; exact IH. }
  rewrite E. split; [by intros [??] | intros Hn; split; [done | set_solver]].
Qed.

Lemma unseen_all {A K} `{Countable K} (key : A -> K) keys x : unseen (fun x => Some (key x)) keys x <-> key x ∉ keys.
Proof. unfold unseen. split; [intros Hu; by apply Hu | by intros Hn k [= <-]]. Qed.

Lemma unseen_if {A K} `{Countable K} (p : A -> bool) (key : A -> K) keys x :
  unseen (fun x => if p x then Some (key x) else None) keys x <-> (p x = true -> key x ∉ keys).
Proof. unfold unseen. destruct (p x); split; intros Hu; [intros _; by apply Hu | intros k [= <-]; by apply Hu | done | done]. Qed.

Lemma unseen_none {A} keys (x : A) : unseen (K := unit) (fun _ => None) keys x.
Proof. by intros k. Qed.

(** ** The declarative predicate *)

Section spec.
Variable c : Config.

Definition known_zone (z : string) : Prop := z ∈ zn_ID <$> cf_Zones c.
(** Some interface is in the zone. *)
Definition served_zone (z : string) : Prop := z <> "" /\ z ∈ if_ZoneID <$> cf_Interfaces c.

Definition interface_ok (i : Interface) : Prop :=
  ValidateIdentifier (if_ID i) = true /\ linuxInterfaceName (if_SystemName i) = true /\
  (if_ZoneID i = "" \/ known_zone (if_ZoneID i)) /\ (if_MTU i = 0 \/ 576 <= if_MTU i <= 65535) /\
  InterfaceMode_Valid (if_Mode i) = true /\
  (forall a, a ∈ if_IPv4Addresses i -> validateAddressFamily a false = true) /\
  (forall a, a ∈ if_IPv6Addresses i -> validateAddressFamily a true = true).

(** A VLAN interface sits on an existing VLAN parent that is up when it is up and
    carries frames at least as large. *)
Definition parent_ok (i : Interface) : Prop :=
  exists parent, parent ∈ cf_Interfaces c /\ if_ID parent = if_ParentInterfaceID i /\ if_ParentInterfaceID i <> "" /\
    if_Mode parent = InterfaceVLANParent /\ (if_AdminState i = true -> if_AdminState parent = true) /\
    (0 < if_MTU i -> 0 < if_MTU parent -> if_MTU i <= if_MTU parent).

Definition vlan_ok (i : Interface) : Prop :=
  (if_Mode i = InterfaceVLANSub -> parent_ok i /\ 1 <= if_VLANID i <= 4094) /\
  (if_Mode i <> InterfaceVLANSub -> if_ParentInterfaceID i = "" /\ if_VLANID i = 0) /\
  (if_Mode i = InterfaceVLANParent -> if_ZoneID i = "" /\ if_IPv4Addresses i = [] /\ if_IPv6Addresses i = []).

Definition route_ok (r : Route) : Prop :=
  ValidateIdentifier (rt_ID r) = true /\ ValidateCIDR (rt_DestinationCIDR r) = true /\
  (rt_Gateway r = "" \/ ValidateIP (rt_Gateway r) = true) /\
  (rt_InterfaceID r = "" \/ rt_InterfaceID r ∈ if_ID <$> cf_Interfaces c) /\
  (rt_Enabled r = true -> rt_InterfaceID r <> "" \/ rt_Gateway r <> "") /\
  0 <= rt_Metric r /\ validateRouteFamily r = true.

Definition translation_ok (n : NATRule) : Prop :=
  (nr_SourceNetwork n = "" \/ validateIPv4CIDR (nr_SourceNetwork n) = true) /\
  (nr_DestinationNetwork n = "" \/ validateIPv4CIDR (nr_DestinationNetwork n) = true) /\
  (nr_TranslatedAddress n = "" \/ validateIPv4 (nr_TranslatedAddress n) = true) /\
  (ToUpper (nr_Type n) = "DNAT" -> nr_TranslatedAddress n <> "" /\
     (nr_DestinationZone n = "" \/ ipv4BelongsToZone (nr_TranslatedAddress n) (nr_DestinationZone n) c = true)) /\
  (ToUpper (nr_Type n) = "SNAT" -> nr_TranslatedAddress n <> "") /\
  (ToUpper (nr_Type n) = "MASQUERADE" -> nr_TranslatedAddress n = "" /\ nr_TranslatedPort n = 0).

Definition nat_ok (n : NATRule) : Prop :=
  ValidateIdentifier (nr_ID n) = true /\ ToUpper (nr_Type n) ∈ ["SNAT"; "MASQUERADE"; "DNAT"] /\
  ToLower (nr_Protocol n) ∈ [""; "tcp"; "udp"; "icmp"] /\
  (nr_OriginalPort n = 0 /\ nr_TranslatedPort n = 0 \/ ToLower (nr_Protocol n) ∈ ["tcp"; "udp"]) /\
  (nr_Enabled n = true -> 0 <= nr_Priority n /\ served_zone (nr_SourceZone n) /\ served_zone (nr_DestinationZone n)) /\
  (forall z, z ∈ [nr_SourceZone n; nr_DestinationZone n] -> z = "" \/ known_zone z) /\
  ValidatePort (nr_OriginalPort n) true = true /\ ValidatePort (nr_TranslatedPort n) true = true /\ translation_ok n.

Definition policy_ok (p : SecurityPolicy) : Prop :=
  ValidateIdentifier (sp_ID p) = true /\ 0 <= sp_Priority p /\
  Decision_Valid (sp_Action p) = true /\ (sp_Enabled p = true -> is_l3_action (sp_Action p) = true) /\
  risk_ok (sp_MinimumRisk p) = true /\ risk_ok (sp_MaximumRisk p) = true /\
  (forall z, z ∈ sp_SourceZones p ++ sp_DestinationZones p -> known_zone z /\ (sp_Enabled p = true -> served_zone z)) /\
  (forall a, a ∈ sp_SourceAddresses p ++ sp_DestinationAddresses p -> validateIPv4AddressOrCIDR a = true) /\
  (forall s, s ∈ sp_Services p -> is_Some (ParseServiceSelector s)).

Definition profile_ok (p : SecurityProfile) : Prop :=
  ValidateIdentifier (pf_ID p) = true /\ TLSMode_Valid (pf_TLSMode p) = true /\ 0 <= pf_MinimumBlockRisk p <= 100 /\
  (pf_InspectionFailureAction p = DecisionNone \/ Decision_Valid (pf_InspectionFailureAction p) = true).

Definition dnat_rules : list NATRule := filter (fun n => is_dnat n = true) (cf_NATRules c).
Definition enabled_rules : list NATRule := filter (fun n => nr_Enabled n = true) (cf_NATRules c).
Definition vlan_interfaces : list Interface := filter (fun i => if_Mode i = InterfaceVLANSub) (cf_Interfaces c).

(** Which hook a rule belongs to. *)
Definition nat_hook (n : NATRule) : bool := bool_decide (ToUpper (nr_Type n) = "DNAT").

Record valid_config : Prop := {
  vc_zones : Forall (fun z => ValidateIdentifier (zn_ID z) = true) (cf_Zones c);
  vc_zone_ids : NoDup (zn_ID <$> cf_Zones c);
  vc_interfaces : Forall interface_ok (cf_Interfaces c);
  vc_interface_ids : NoDup (if_ID <$> cf_Interfaces c);
  vc_system_names : NoDup (if_SystemName <$> cf_Interfaces c);
  vc_vlans : Forall vlan_ok (cf_Interfaces c);
  vc_vlan_ids : NoDup ((fun i => (if_ParentInterfaceID i, if_VLANID i)) <$> vlan_interfaces);
  vc_routes : Forall route_ok (cf_Routes c);
  vc_route_ids : NoDup (rt_ID <$> cf_Routes c);
  vc_nats : Forall nat_ok (cf_NATRules c);
  vc_nat_ids : NoDup (nr_ID <$> cf_NATRules c);
  vc_nat_priorities : NoDup ((fun n => (nat_hook n, nr_Priority n)) <$> enabled_rules);
  vc_dnat_bindings : NoDup (nat_binding <$> dnat_rules);
  vc_policies : Forall policy_ok (cf_Policies c);
  vc_policy_ids : NoDup (sp_ID <$> cf_Policies c);
  vc_policy_priorities : NoDup (sp_Priority <$> cf_Policies c);
  vc_profiles : Forall profile_ok (cf_Profiles c);
  vc_profile_ids : NoDup (pf_ID <$> cf_Profiles c);
  vc_profile_references : Forall (fun p => sp_SecurityProfileID p = "" \/ sp_SecurityProfileID p ∈ pf_ID <$> cf_Profiles c) (cf_Policies c);
  vc_limits : limits_positive c = true
}.
End spec.

(** ** Each loop against its part of the predicate *)

Create HintDb checks.
#[export] Hint Rewrite @app_nil err_if_nil orb_false_iff andb_false_iff negb_false_iff @bool_decide_eq_true @bool_decide_eq_false
  Z.ltb_ge Z.eqb_eq @mjoin_nil @unseen_all @unseen_if : checks.

(** Turns "no finding" into the conditions the findings negate. *)
Ltac checks := autorewrite with checks; rewrite ?elem_of_list_to_set.

Notation no_key := (fun _ => @None unit).
Notation no_keys := (fun _ => (∅ : gset unit)).

Lemma zones_checked c : (scan zone_id_step ∅ (cf_Zones c)).1 = [] <->
  Forall (fun z => ValidateIdentifier (zn_ID z) = true) (cf_Zones c) /\ NoDup (zn_ID <$> cf_Zones c).
Proof.
  rewrite (scan_keyed zone_id_step id no_keys (fun z => Some (zn_ID z)) no_key (fun z => ValidateIdentifier (zn_ID z) = true)).
  - rewrite fresh_all. pose proof (fresh_none (cf_Zones c)). tauto.
  - intros s z. unfold zone_id_step. cbn [fst]. checks. pose proof (unseen_none ∅ z). tauto.
  - done.
  - done.
Qed.

Lemma zone_ids c : (scan zone_id_step ∅ (cf_Zones c)).2 = list_to_set (zn_ID <$> cf_Zones c).
Proof. etrans; [exact (scan_state zone_id_step id zn_ID ∅ (cf_Zones c) (fun _ _ => eq_refl)) | apply union_empty_r_L]. Qed.

Lemma interfaces_checked c zoneIDs : zoneIDs = list_to_set (zn_ID <$> cf_Zones c) ->
  (scan (interface_step zoneIDs) (∅, ∅) (cf_Interfaces c)).1 = [] <->
  Forall (interface_ok c) (cf_Interfaces c) /\ NoDup (if_ID <$> cf_Interfaces c) /\ NoDup (if_SystemName <$> cf_Interfaces c).
Proof.
  intros ->.
  rewrite (scan_keyed (interface_step _) fst (fun s => dom s.2) (fun i => Some (if_ID i))
    (fun i => if linuxInterfaceName (if_SystemName i) then Some (if_SystemName i) else None) (interface_ok c)).
  - cbn [fst snd]. rewrite dom_empty_L, fresh_all, fresh_filter.
    assert (E : Forall (interface_ok c) (cf_Interfaces c) ->
      filter (fun i => linuxInterfaceName (if_SystemName i) = true) (cf_Interfaces c) = cf_Interfaces c).
    { intros HF. apply filter_all. eapply Forall_impl; [exact HF|]. intros i Hi. apply Hi. }
    split; intros (H1 & H2 & H3); rewrite E in * by done; done.
  - intros [ids names] i. unfold interface_step. cbn [fst snd]. unfold interface_ok, known_zone.
    assert (En : (if linuxInterfaceName (if_SystemName i)
                  then err_if (bool_decide (is_Some (names !! if_SystemName i))) (if_ID i) "system interface assigned twice"
                  else [mkConfigError (if_ID i) "invalid Linux system name"]) = [] <->
                 linuxInterfaceName (if_SystemName i) = true /\ if_SystemName i ∉ dom names).
    { destruct (linuxInterfaceName _); [|naive_solver]. checks. rewrite elem_of_dom. tauto. }
    rewrite !app_nil, En. clear En. checks. setoid_rewrite err_if_nil. setoid_rewrite negb_false_iff.
    intuition (try lia; try done).
  - intros [ids names] i. done.
  - intros [ids names] i. unfold add_key. cbn [fst snd interface_step]. destruct (linuxInterfaceName _); [apply dom_insert_L | done].
Qed.

Lemma interface_ids c zoneIDs : (scan (interface_step zoneIDs) (∅, ∅) (cf_Interfaces c)).2.1 = list_to_set (if_ID <$> cf_Interfaces c).
Proof.
  etrans; [refine (scan_state (interface_step zoneIDs) fst if_ID (∅, ∅) (cf_Interfaces c) _) | apply union_empty_r_L].
  by intros [ids names] i.
Qed.

Lemma by_id_lookup c k i : NoDup (if_ID <$> cf_Interfaces c) ->
  interfaces_by_id c !! k = Some i <-> i ∈ cf_Interfaces c /\ if_ID i = k.
Proof.
  unfold interfaces_by_id. generalize (cf_Interfaces c) as l. intros l Hn.
  assert (Hgen : forall m : gmap string Interface, foldl (fun m i => <[if_ID i := i]> m) m l !! k = Some i <->
    (i ∈ l /\ if_ID i = k) \/ (k ∉ if_ID <$> l) /\ m !! k = Some i).
  { induction l as [| x l IH]; intros m; cbn [foldl]; [set_solver|]. cbn [fmap list_fmap] in *. apply NoDup_cons in Hn as [Hx Hn].
    rewrite (IH Hn), elem_of_cons, not_elem_of_cons. destruct (decide (if_ID x = k)) as [<- | Hk].
    - rewrite lookup_insert_eq. split.
      + intros [[Hin E] | [_ [= <-]]]; [|by left; split; [left|]]. left. split; [by right | done].
      + intros [[[-> | Hin] E] | [[Hf _] _]]; [by right | by left | done].
    - rewrite lookup_insert_ne by done. split.
      + intros [[Hin E] | [Hni Hm]]; [left; split; [by right | done] | right; by split_and!].
      + intros [[[-> | Hin] E] | [[_ Hni] Hm]]; [done | by left | by right]. }
  rewrite Hgen, lookup_empty. naive_solver.
Qed.

Lemma parent_checked c i : NoDup (if_ID <$> cf_Interfaces c) -> parent_errors (interfaces_by_id c) i = [] <-> parent_ok c i.
Proof.
  intros Hn. unfold parent_errors, parent_ok. case_bool_decide as Ep; [split; [done | naive_solver]|].
  destruct (interfaces_by_id c !! if_ParentInterfaceID i) as [parent|] eqn:El.
  - apply by_id_lookup in El as Hp; [|done]. case_bool_decide as Em; cbn [negb].
    + checks. split.
      * intros [Ha Hm]. exists parent. destruct Hp. split_and!; try done; [intros Hi; destruct Ha as [Ha|]; congruence |].
        intros H1 H2. destruct Hm as [[Hm | Hm] | Hm]; lia.
      * intros (q & Hq & E & _ & _ & Ha & Hm). assert (q = parent) as ->.
        { pose proof (proj2 (by_id_lookup c _ q Hn) (conj Hq E)). congruence. }
        split; [destruct (if_AdminState i); [right; by apply Ha | by left] |].
        destruct (decide (0 < if_MTU i)), (decide (0 < if_MTU parent)); [right; by apply Hm | left; lia..].
    + split; [done|]. intros (q & Hq & E & _ & Hm & _). assert (q = parent) as ->; [|done].
      pose proof (proj2 (by_id_lookup c _ q Hn) (conj Hq E)). congruence.
  - split; [done|]. intros (q & Hq & E & _). pose proof (proj2 (by_id_lookup c _ q Hn) (conj Hq E)). congruence.
Qed.

(** Both parts of a [part/number] key can be read back. *)
Lemma itoa_no_slash n : all_chars no_slash (itoa n) = true.
Proof.
  destruct (decide (0 <= n)) as [Hn | Hn].
  - eapply all_chars_impl; [intros ch; apply digit_no_slash | by apply itoa_spec].
  - assert (E : itoa n = String dash (itoa (- n))).
    { unfold itoa, pretty, pretty_Z. destruct n as [| p | p]; [lia | lia | done]. }
    rewrite E. cbn [all_chars]. eapply all_chars_impl; [intros ch; apply digit_no_slash | apply itoa_spec; lia].
Qed.

Lemma slash_key_inj a n b m : a +:+ "/" +:+ itoa n = b +:+ "/" +:+ itoa m -> a = b /\ n = m.
Proof.
  revert b. induction a as [| x a IH]; intros b E.
  - destruct b as [| y b]; [split; [done|]; cbn in E; injection E as E; by apply (inj pretty)|].
    cbn in E. injection E as <- E. exfalso. pose proof (itoa_no_slash n) as Hn.
    change (itoa n = b +:+ "/" +:+ itoa m) in E. rewrite E in Hn.
    rewrite all_chars_app in Hn. apply andb_true_iff in Hn as [_ Hn]. done.
  - destruct b as [| y b].
    + cbn in E. injection E as -> E. exfalso. pose proof (itoa_no_slash m) as Hm.
      change (a +:+ "/" +:+ itoa n = itoa m) in E. rewrite <- E in Hm.
      rewrite all_chars_app in Hm. apply andb_true_iff in Hm as [_ Hm]. done.
    + cbn in E. injection E as -> E. destruct (IH b E) as [-> ->]. done.
Qed.

Lemma NoDup_key_inj {A B C} (f : A -> B) (g : A -> C) (l : list A) :
  (forall x y, f x = f y <-> g x = g y) -> NoDup (f <$> l) <-> NoDup (g <$> l).
Proof.
  intros Hfg. induction l as [| x l IH]; [by split; constructor|]. cbn. rewrite !NoDup_cons, IH, !list_elem_of_fmap.
  setoid_rewrite Hfg. done.
Qed.

Lemma vlans_checked c : NoDup (if_ID <$> cf_Interfaces c) ->
  (scan (vlan_step (interfaces_by_id c)) ∅ (cf_Interfaces c)).1 = [] <->
  Forall (vlan_ok c) (cf_Interfaces c) /\ NoDup ((fun i => (if_ParentInterfaceID i, if_VLANID i)) <$> vlan_interfaces c).
Proof.
  intros Hn. rewrite (scan_keyed (vlan_step _) id no_keys
    (fun i => if bool_decide (if_Mode i = InterfaceVLANSub) then Some (vlan_binding i) else None) no_key (vlan_ok c)).
  - rewrite fresh_filter. pose proof (fresh_none (cf_Interfaces c)) as Hf.
    rewrite (NoDup_key_inj vlan_binding (fun i => (if_ParentInterfaceID i, if_VLANID i))).
    + assert (E : filter (fun i => bool_decide (if_Mode i = InterfaceVLANSub) = true) (cf_Interfaces c) = vlan_interfaces c).
      { apply list_filter_iff. intros i. apply bool_decide_eq_true. }
      rewrite E. tauto.
    + intros x y. unfold vlan_binding. split; [intros E; apply slash_key_inj in E as [-> ->]; done | intros [= -> ->]; done].
  - intros s i. unfold vlan_step, vlan_ok. cbn [fst]. pose proof (unseen_none ∅ i) as Hu. pose proof (parent_checked c i Hn) as Hp.
    case_bool_decide as Em; rewrite !app_nil.
    + rewrite Hp. checks. rewrite Em. intuition (try lia; try done).
    + checks. destruct (decide (if_Mode i = InterfaceVLANParent)) as [->|]; intuition (try done).
  - intros s i. unfold vlan_step, add_key. cbn. by case_bool_decide.
  - done.
Qed.

Lemma routes_checked c ids : ids = list_to_set (if_ID <$> cf_Interfaces c) ->
  (scan (route_step ids) ∅ (cf_Routes c)).1 = [] <-> Forall (route_ok c) (cf_Routes c) /\ NoDup (rt_ID <$> cf_Routes c).
Proof.
  intros ->. rewrite (scan_keyed (route_step _) id no_keys (fun r => Some (rt_ID r)) no_key (route_ok c)).
  - rewrite fresh_all. pose proof (fresh_none (cf_Routes c)). tauto.
  - intros s r. unfold route_step, route_ok. cbn [fst]. checks. pose proof (unseen_none ∅ r).
    destruct (rt_Enabled r); destruct (decide (rt_Gateway r = "")), (decide (rt_InterfaceID r = "")); intuition (try congruence).
  - done.
  - done.
Qed.

Lemma served_spec c z : z ∈ zoneHasInterface c <-> served_zone c z.
Proof. unfold zoneHasInterface, served_zone. rewrite elem_of_list_to_set, list_elem_of_filter. done. Qed.

(** A condition on both zones of a rule. *)
Lemma both_zones (f : string -> list ConfigError) a b : mjoin (f <$> [a; b]) = [] <-> f a = [] /\ f b = [].
Proof. rewrite mjoin_nil. set_solver. Qed.

Lemma translation_checked c n : nat_address_errors c n = [] <-> translation_ok c n.
Proof.
  unfold nat_address_errors, translation_ok. rewrite !app_nil.
  assert (E : (if bool_decide (ToUpper (nr_Type n) = "DNAT")
     then if bool_decide (nr_TranslatedAddress n = "") then [mkConfigError (nr_ID n) "DNAT requires translated address"]
          else err_if (negb (bool_decide (nr_DestinationZone n = "")) &&
                       negb (ipv4BelongsToZone (nr_TranslatedAddress n) (nr_DestinationZone n) c)) (nr_ID n)
                 "DNAT target is outside destination zone"
     else []) = [] <-> (ToUpper (nr_Type n) = "DNAT" -> nr_TranslatedAddress n <> "" /\
     (nr_DestinationZone n = "" \/ ipv4BelongsToZone (nr_TranslatedAddress n) (nr_DestinationZone n) c = true))).
  { case_bool_decide as Ed; [|naive_solver]. case_bool_decide as Ea; [naive_solver|]. checks. naive_solver. }
  rewrite E. clear E. checks.
  destruct (decide (ToUpper (nr_Type n) = "SNAT")), (decide (ToUpper (nr_Type n) = "MASQUERADE")); intuition (try done).
Qed.

Lemma nat_enabled_checked c (prios : gset string) n : nr_Enabled n = true ->
  nat_enabled_errors (zoneHasInterface c) prios n = [] <->
  (0 <= nr_Priority n /\ served_zone c (nr_SourceZone n) /\ served_zone c (nr_DestinationZone n)) /\ nat_priority_key n ∉ prios.
Proof.
  intros He. unfold nat_enabled_errors. rewrite !app_nil, both_zones. checks. rewrite !served_spec.
  unfold served_zone. intuition (try done).
Qed.

Lemma nat_priority_key_inj n m : nat_priority_key n = nat_priority_key m <-> (nat_hook n, nr_Priority n) = (nat_hook m, nr_Priority m).
Proof.
  unfold nat_priority_key, nat_hook. split.
  - intros [E1 ->]%slash_key_inj. by destruct (bool_decide (ToUpper (nr_Type n) = _)), (bool_decide (ToUpper (nr_Type m) = _)).
  - by intros [= -> ->].
Qed.

Lemma nats_checked c zoneIDs : zoneIDs = list_to_set (zn_ID <$> cf_Zones c) ->
  (scan (nat_step c zoneIDs (zoneHasInterface c)) (∅, ∅) (cf_NATRules c)).1 = [] <->
  Forall (nat_ok c) (cf_NATRules c) /\ NoDup (nr_ID <$> cf_NATRules c) /\
  NoDup ((fun n => (nat_hook n, nr_Priority n)) <$> enabled_rules c).
Proof.
  intros ->. rewrite (scan_keyed (nat_step _ _ _) fst snd (fun n => Some (nr_ID n))
    (fun n => if nr_Enabled n then Some (nat_priority_key n) else None) (nat_ok c)).
  - cbn [fst snd]. rewrite fresh_all, fresh_filter, (NoDup_key_inj nat_priority_key (fun n => (nat_hook n, nr_Priority n))) by apply nat_priority_key_inj.
    done.
  - intros [ids prios] n. unfold nat_step, nat_ok, known_zone. cbn [fst snd].
    assert (Ee : (if nr_Enabled n then nat_enabled_errors (zoneHasInterface c) prios n else []) = [] <->
      (nr_Enabled n = true -> 0 <= nr_Priority n /\ served_zone c (nr_SourceZone n) /\ served_zone c (nr_DestinationZone n)) /\
      (nr_Enabled n = true -> nat_priority_key n ∉ prios)).
    { destruct (nr_Enabled n) eqn:En; [rewrite nat_enabled_checked by done|]; naive_solver. }
    rewrite !app_nil, Ee, translation_checked, both_zones. clear Ee. checks.
    setoid_rewrite list_elem_of_In. cbn [In].
    assert (Hz : (forall z, nr_SourceZone n = z \/ nr_DestinationZone n = z \/ False -> z = "" \/ In z (zn_ID <$> cf_Zones c)) <->
      (nr_SourceZone n = "" \/ In (nr_SourceZone n) (zn_ID <$> cf_Zones c)) /\
      (nr_DestinationZone n = "" \/ In (nr_DestinationZone n) (zn_ID <$> cf_Zones c))) by naive_solver.
    rewrite Hz. clear Hz. split; intros; destruct_and!; split_and!; assumption.
  - intros [ids prios] n. done.
  - intros [ids prios] n. unfold add_key. cbn [fst snd nat_step]. by destruct (nr_Enabled n).
Qed.

Lemma bindings_checked c : (scan binding_step ∅ (cf_NATRules c)).1 = [] <-> NoDup (nat_binding <$> dnat_rules c).
Proof.
  rewrite (scan_keyed binding_step id no_keys (fun n => if is_dnat n then Some (nat_binding n) else None) no_key (fun _ => True)).
  - rewrite fresh_filter. pose proof (fresh_none (cf_NATRules c)). assert (Forall (fun _ => True) (cf_NATRules c)) by by apply Forall_true.
    unfold dnat_rules. tauto.
  - intros s n. pose proof (unseen_none ∅ n). unfold binding_step. destruct (is_dnat n) eqn:Ed; cbn [fst]; checks; rewrite ?Ed; naive_solver.
  - intros s n. unfold binding_step, add_key. by destruct (is_dnat n).
  - done.
Qed.

Lemma policies_checked c zoneIDs : zoneIDs = list_to_set (zn_ID <$> cf_Zones c) ->
  (scan (policy_step zoneIDs (zoneHasInterface c)) (∅, ∅) (cf_Policies c)).1 = [] <->
  Forall (policy_ok c) (cf_Policies c) /\ NoDup (sp_ID <$> cf_Policies c) /\ NoDup (sp_Priority <$> cf_Policies c).
Proof.
  intros ->. rewrite (scan_keyed (policy_step _ _) fst snd (fun p => Some (sp_ID p)) (fun p => Some (sp_Priority p)) (policy_ok c)).
  - cbn [fst snd]. by rewrite !fresh_all.
  - intros [ids prios] p. unfold policy_step, policy_ok, known_zone, policy_zone_errors. cbn [fst snd].
    assert (Ea : (if negb (Decision_Valid (sp_Action p)) then [mkConfigError (sp_ID p) "policy has invalid action"]
       else err_if (sp_Enabled p && negb (is_l3_action (sp_Action p))) (sp_ID p) "policy uses an action outside the M1 firewall scope") = [] <->
       Decision_Valid (sp_Action p) = true /\ (sp_Enabled p = true -> is_l3_action (sp_Action p) = true)).
    { destruct (Decision_Valid _); cbn [negb]; [|naive_solver]. checks. destruct (sp_Enabled p); naive_solver. }
    assert (Ez : forall z, (if negb (bool_decide (z ∈ (list_to_set (zn_ID <$> cf_Zones c) : gset string)))
        then [mkConfigError (sp_ID p) ("policy references unknown zone " +:+ z)]
        else err_if (sp_Enabled p && negb (bool_decide (z ∈ zoneHasInterface c))) (sp_ID p) "enabled policy zone has no interface") = [] <->
        z ∈ zn_ID <$> cf_Zones c /\ (sp_Enabled p = true -> served_zone c z)).
    { intros z. rewrite <- served_spec. case_bool_decide as Hz; rewrite elem_of_list_to_set in Hz; cbn [negb]; [|naive_solver].
      checks. destruct (sp_Enabled p); naive_solver. }
    rewrite !app_nil, Ea, !mjoin_nil. setoid_rewrite Ez. setoid_rewrite err_if_nil. clear Ea Ez. checks.
    setoid_rewrite negb_false_iff. unfold validateM1Service. setoid_rewrite bool_decide_eq_true.
    split; intros; destruct_and!; split_and!; assumption.
  - by intros [ids prios] p.
  - by intros [ids prios] p.
Qed.

Lemma profiles_checked c : (scan profile_step ∅ (cf_Profiles c)).1 = [] <->
  Forall profile_ok (cf_Profiles c) /\ NoDup (pf_ID <$> cf_Profiles c).
Proof.
  rewrite (scan_keyed profile_step id no_keys (fun p => Some (pf_ID p)) no_key profile_ok).
  - rewrite fresh_all. pose proof (fresh_none (cf_Profiles c)). tauto.
  - intros s p. unfold profile_step, profile_ok. cbn [fst]. checks. pose proof (unseen_none ∅ p). tauto.
  - done.
  - done.
Qed.

Lemma profile_ids c : (scan profile_step ∅ (cf_Profiles c)).2 = list_to_set (pf_ID <$> cf_Profiles c).
Proof. etrans; [exact (scan_state profile_step id pf_ID ∅ (cf_Profiles c) (fun _ _ => eq_refl)) | apply union_empty_r_L]. Qed.

Lemma Validate_conditions c :
  Validate c = [] <-> valid_config c /\ ValidateInspection c = [] /\ ValidateRequestGate c = [].
Proof.
  unfold Validate. pose proof (zones_checked c) as Hz. pose proof (zone_ids c) as Ez.
  destruct (scan zone_id_step ∅ (cf_Zones c)) as [zone_errs zoneIDs]. cbn [fst snd] in Hz, Ez.
  pose proof (interfaces_checked c _ Ez) as Hi. pose proof (interface_ids c zoneIDs) as Ei.
  destruct (scan (interface_step zoneIDs) (∅, ∅) (cf_Interfaces c)) as [iface_errs [ifaceIDs names]]. cbn [fst snd] in Hi, Ei.
  pose proof (vlans_checked c) as Hv. destruct (scan (vlan_step _) ∅ _) as [vlan_errs ?]. cbn [fst] in Hv.
  pose proof (routes_checked c _ Ei) as Hr. destruct (scan (route_step ifaceIDs) ∅ _) as [route_errs ?]. cbn [fst] in Hr.
  pose proof (nats_checked c _ Ez) as Hn. destruct (scan (nat_step _ _ _) _ _) as [nat_errs ?]. cbn [fst] in Hn.
  pose proof (bindings_checked c) as Hb. destruct (scan binding_step _ _) as [binding_errs ?]. cbn [fst] in Hb.
  pose proof (policies_checked c _ Ez) as Hp. destruct (scan (policy_step _ _) _ _) as [policy_errs ?]. cbn [fst] in Hp.
  pose proof (profiles_checked c) as Hf. pose proof (profile_ids c) as Ef.
  destruct (scan profile_step _ _) as [profile_errs profileIDs]. cbn [fst snd] in Hf, Ef. subst profileIDs.
  assert (Href : mjoin (profile_reference_errors (list_to_set (pf_ID <$> cf_Profiles c)) <$> cf_Policies c) = [] <->
    Forall (fun p => sp_SecurityProfileID p = "" \/ sp_SecurityProfileID p ∈ pf_ID <$> cf_Profiles c) (cf_Policies c)).
  { rewrite mjoin_nil, Forall_forall. apply forall_proper. intros q. unfold profile_reference_errors. checks. tauto. }
  rewrite !app_nil, Href, err_if_nil, negb_false_iff, Hz, Hi, Hr, Hn, Hb, Hp, Hf. clear Ez Ei Hz Hi Hr Hn Hb Hp Hf Href.
  split.
  - intros; destruct_and!. assert (Hvv : vlan_errs = []) by done. apply Hv in Hvv as [??]; [|done]. split_and!; [|done..]. by constructor.
  - intros ([] & ? & ?). split_and!; try done. by apply Hv.
Qed.

(** C31. The validator accepts exactly the well-formed configurations: identifiers are
    unique and well formed, every reference (interface to zone, VLAN to parent, route
    to interface, translation and policy to zone, policy to profile) names an existing
    object, zones used by enabled rules have an interface, VLAN tags, system names,
    priorities and DNAT bindings do not collide, addresses, ports, services, actions
    and limits are in range, and the inspection and request-gate checks pass. *)
Theorem Validate_iff c :
  Validate c = [] <-> valid_config c /\ ValidateInspection c = [] /\ ValidateRequestGate c = [].
Proof. apply Validate_conditions. Qed.

(** ** An accepted configuration compiles *)

Lemma address_compiles v : validateIPv4AddressOrCIDR v = true -> plain_cidr v = true -> is_Some (parse_address v).
Proof.
  unfold validateIPv4AddressOrCIDR, validateIPv4CIDR, validateIPv4, parse_address. intros H Hp. destruct (ContainsByte slash v).
  - destruct (ParseCIDR v) as [[ip n]|] eqn:E; [|done]. rewrite (ParseCIDR_trim _ _ E). destruct (bool_decide (v = "")); [by eexists|].
    rewrite (ParseCIDR_ParsePrefix _ _ _ Hp E). destruct (ParseAddr v); by eexists.
  - unfold ParseIP in H. destruct (ParseAddr v) as [a|] eqn:E; [|done]. cbn in H. destruct (hasZone a) eqn:Ez; [done|].
    rewrite (ParseAddr_trim _ _ E Ez), E. destruct (bool_decide (v = "")); by eexists.
Qed.

Lemma prefixes_compile l : (forall a, a ∈ l -> is_Some (parse_address a)) -> is_Some (prefixes l).
Proof.
  intros H. unfold prefixes. destruct (mapM parse_address l) as [ps|] eqn:E; [by eexists|]. exfalso.
  induction l as [| a l IH]; [done|]. cbn in E. destruct (H a ltac:(by left)) as [q Hq]. rewrite Hq in E. cbn in E.
  destruct (mapM parse_address l); [done|]. apply IH; [|done]. intros b Hb. apply H. by right.
Qed.

Lemma service_compiles raw : is_Some (ParseServiceSelector raw) -> is_Some (parseService raw).
Proof.
  intros [sel E]. unfold parseService. rewrite E. cbn. pose proof (ParseServiceSelector_wf _ _ E) as Hwf.
  assert (Hp : ss_Protocol sel ∈ ["icmp"; "icmpv6"; "tcp"; "udp"]) by (destruct Hwf as [[H _] | [H _]]; set_solver).
  assert (is_Some (ParseProtocol (ss_Protocol sel))) as [q ->]; [|by eexists].
  repeat (apply elem_of_cons in Hp as [-> | Hp]; [by eexists|]). by apply elem_of_nil in Hp.
Qed.

Lemma rule_compiles c p : policy_ok c p -> sp_Enabled p = true ->
  (forall a, a ∈ sp_SourceAddresses p ++ sp_DestinationAddresses p -> plain_cidr a = true) -> exists r, compile_rule p = Ok r /\ ru_ID r = sp_ID p.
Proof.
  intros (_ & _ & _ & Ha & _ & _ & _ & Haddr & Hs) He Hplain. unfold compile_rule. rewrite (Ha He). cbn [negb].
  assert (Hc : forall a, a ∈ sp_SourceAddresses p ++ sp_DestinationAddresses p -> is_Some (parse_address a))
    by (intros a Hin; apply address_compiles; auto).
  destruct (prefixes_compile (sp_SourceAddresses p)) as [sources ->]; [intros; apply Hc; set_solver|].
  destruct (prefixes_compile (sp_DestinationAddresses p)) as [destinations ->]; [intros; apply Hc; set_solver|].
  assert (exists svcs, parse_services (sp_ID p) (sp_Services p) = Ok svcs) as [svcs ->]; [|cbn; by eexists].
  clear -Hs. induction (sp_Services p) as [| raw l IH]; [by eexists|]. cbn.
  destruct (service_compiles raw) as [svc ->]; [apply Hs; by left|].
  destruct IH as [svcs ->]; [intros; apply Hs; by right|]. cbn. by eexists.
Qed.

Lemma rules_compile c l : Forall (policy_ok c) l -> NoDup (sp_Priority <$> l) ->
  (forall p a, p ∈ l -> sp_Enabled p = true -> a ∈ sp_SourceAddresses p ++ sp_DestinationAddresses p -> plain_cidr a = true) ->
  forall seen : gset Z, (forall p, p ∈ l -> sp_Priority p ∉ seen) ->
  exists rules, compile_rules seen l = Ok rules /\ ru_ID <$> rules = sp_ID <$> filter (fun p => sp_Enabled p = true) l.
Proof.
  induction l as [| p l IH]; intros HF Hn Hplain seen Hseen; [by eexists|]. cbn [fmap list_fmap] in Hn.
  apply Forall_cons in HF as [Hp HF]. apply NoDup_cons in Hn as [Hfresh Hn]. cbn [compile_rules].
  assert (Hp0 : sp_Priority p ∉ seen) by (apply Hseen; by left). rewrite (bool_decide_eq_false_2 _ Hp0).
  destruct (IH HF Hn ltac:(intros; eapply Hplain; [by right | done..]) ({[sp_Priority p]} ∪ seen)) as (rules & Hr & Hids).
  { intros q Hq. rewrite not_elem_of_union, not_elem_of_singleton. split; [|by apply Hseen; right].
    intros E. apply Hfresh. rewrite <- E. by apply list_elem_of_fmap_2. }
  rewrite filter_cons. destruct (sp_Enabled p) eqn:Ee; cbn [negb].
  - rewrite decide_True by done. destruct (rule_compiles c p Hp Ee) as (r & -> & Eid); [intros; eapply Hplain; [by left | done..]|].
    cbn. rewrite Hr. cbn. eexists. split; [done|]. cbn. by rewrite Eid, Hids.
  - rewrite decide_False by done. by eexists.
Qed.

(** C32. A configuration the validator accepts compiles: for every generation the
    connectivity compiler succeeds, and the program has one rule per enabled policy, in
    order of priority.  The one condition is on the address masks, which must be
    written without leading zeros. *)
Theorem Validate_compiles c g :
  Validate c = [] ->
  (forall p a, p ∈ cf_Policies c -> sp_Enabled p = true -> a ∈ sp_SourceAddresses p ++ sp_DestinationAddresses p -> plain_cidr a = true) ->
  exists program, Compile c g = Ok program /\
    ru_ID <$> pr_Rules program = sp_ID <$> filter (fun p => sp_Enabled p = true) (SortPolicies (cf_Policies c)).
Proof.
  intros [[] _]%Validate_conditions Hplain. unfold Compile.
  destruct (rules_compile c (SortPolicies (cf_Policies c))) with (seen := ∅ : gset Z) as (rules & -> & Hids).
  - apply Forall_forall. intros p Hp%sort_by_elem_of. by eapply Forall_forall.
  - assert (E : sp_Priority <$> SortPolicies (cf_Policies c) ≡ₚ sp_Priority <$> cf_Policies c) by (apply fmap_Permutation, sort_by_perm).
    by rewrite E.
  - intros p a Hp%sort_by_elem_of. by apply Hplain.
  - set_solver.
  - cbn. eexists. split; [done|]. exact Hids.
Qed.

(** ** Examples *)

(** A small appliance: two zones, two interfaces, one policy. *)
Definition ex_zone (id : string) : Zone := mkZone id id "".
Definition ex_iface (id system zone address : string) : Interface :=
  mkInterface id id system zone InterfaceL3 "" 0 [address] [] 1500 true.
Definition ex_policy (zone address : string) : SecurityPolicy :=
  mkSecurityPolicy "web" "web" 10 [zone] ["wan"] [address] [] ["tcp:443"] [] "" "" None None DecisionAllow "" false false true.
Definition ex_config (zone address : string) : Config :=
  mkConfig [ex_iface "if-in" "eth0" zone "10.0.0.1/24"; ex_iface "if-out" "eth1" "wan" "192.0.2.1/24"] [ex_zone zone; ex_zone "wan"] [] []
    [ex_policy zone address] [] 50000 10000 65536 32768 8192 65536 200 2000 true None None [].

Lemma Validate_compiles_witness : exists program, Compile (ex_config "lan" "10.0.0.0/24") 7 = Ok program /\
  ru_ID <$> pr_Rules program = ["web"].
Proof.
  apply (Validate_compiles (ex_config "lan" "10.0.0.0/24") 7); [vm_compute; reflexivity|].
  intros p a Hp _ Ha. apply list_elem_of_singleton in Hp as ->. apply list_elem_of_singleton in Ha as ->. vm_compute. reflexivity.
Defined.

(** The condition on the masks is needed: package [net] reads a mask with a leading
    zero that [net/netip] refuses, so such a configuration passes validation and
    then fails to compile. *)
Theorem accepted_mask_fails_to_compile :
  Validate (ex_config "lan" "10.0.0.0/08") = [] /\ Compile (ex_config "lan" "10.0.0.0/08") 7 = Err (InvalidAddresses "web").
Proof. split; vm_compute; reflexivity. Qed.

(** The same disagreement on the IPv4-mapped form: the validator takes it for an IPv4
    address, the compiled selector matches no IPv4 traffic. *)
Theorem mapped_address_matches_nothing :
  Validate (ex_config "lan" "::ffff:10.0.0.1") = [] /\
  exists q, prefixes ["::ffff:10.0.0.1"] = Some [q] /\ forall x, Contains q (Addr4 x) = false.
Proof.
  split; [vm_compute; reflexivity|]. exists (PrefixFrom (Addr6 (65535 * 2 ^ 32 + 167772161) "") 128).
  split; [vm_compute; reflexivity|]. intros x. reflexivity.
Qed.
