(* ===== verification/Manager.v ===== *)
(** * The configuration manager ([internal/config/manager.go], [editor.go], [file.go])

    Candidate and running configuration, the version that numbers what is
    running, and the files they are kept in.  Each method is a program over the
    sections it runs under the manager's lock; [activationMu] serialises commits
    and rollbacks, so what runs beside one of them are the editor's methods.

    Configurations are values in the normal form [cloneConfig] produces (an empty
    slice is nil), so a clone is the value itself.  The callback that activates a
    configuration in the kernel is a parameter; its calls and what they answered are
    recorded.  What the file system answers is an argument of each call that writes. *)

From S2P Require Import Prelude GoStr Sha256 Domain Config TLSExclusion PolicyCheck Validate Validator Codec Epoch Interleave.

Record ConfigVersion : Type := mkConfigVersion {
  cv_Version : Z;
  cv_Author : string;
  cv_Timestamp : Time;
  cv_Comment : string;
  cv_Checksum : string
}.

Definition version_zero : ConfigVersion := mkConfigVersion 0 "" time_zero "" "".
Definition config_zero : Config := mkConfig [] [] [] [] [] [] 0 0 0 0 0 0 0 0 false None None [].

Record candidateValidation : Type := mkValidation { va_checksum : string; va_valid : bool; va_checked : bool }.
Definition validation_zero : candidateValidation := mkValidation "" false false.

(** [running.json] and [candidate.json]; a field that may be missing is an option. *)
Record RunningFile : Type := mkRunningFile {
  rf_Config : option Config;
  rf_Version : option ConfigVersion;
  rf_Previous : option Config
}.

Record CandidateFile : Type := mkCandidateFile {
  ca_SchemaVersion : Z;
  ca_Running : option Config;
  ca_Version : option ConfigVersion;
  ca_Candidate : option Config
}.

Record Manager : Type := mkManager {
  running : Config;
  candidate : Config;
  version : ConfigVersion;
  previous : option Config;
  validation : candidateValidation;
  persistEditor : bool
}.

#[global] Instance eta_Manager : Eta Manager := fun m =>
  mkManager (running m) (candidate m) (version m) (previous m) (validation m) (persistEditor m).

(** The manager, its two files, the activations asked for with their answers (whether
    the callback returned no error), and the clock. *)
Record World : Type := mkWorld {
  mgr : Manager;
  running_file : option bytes;
  candidate_file : option bytes;
  applied : list (Config * Z * bool);
  wall : Time
}.

#[global] Instance eta_World : Eta World := fun w =>
  mkWorld (mgr w) (running_file w) (candidate_file w) (applied w) (wall w).

Abbreviation MG := (Prog World).

(** What the system calls of [persist] answer, in order. *)
Record PersistEnv : Type := mkPersistEnv {
  pe_open : bool;
  pe_write : bool;
  pe_sync : bool;
  pe_close : bool;
  pe_rename : bool;
  pe_openDir : bool;
  pe_syncDir : bool;
  pe_chmod : bool
}.

(** What those of [persistEditorLocked] answer. *)
Record EditorEnv : Type := mkEditorEnv {
  ed_create : bool;
  ed_chmod : bool;
  ed_write : bool;
  ed_sync : bool;
  ed_close : bool;
  ed_rename : bool;
  ed_openDir : bool;
  ed_syncDir : bool
}.

Inductive ManagerError : Type :=
| MkdirFailed | RunningUnreadable | RunningUndecodable | RunningInvalid | PreviousInvalid
| CandidateUnreadable | CandidateUndecodable | CandidateEnvelope | CandidateBaseInvalid
| VersionConflict (expected current : Z)
| InvalidCandidate (errs : list ConfigError)
| SemanticErrors (duplicates : list DuplicateError) (unreachable : list UnreachableError)
| GenerationExhausted | ChecksumFailed
| ActivationFailed (restored : bool)
| PersistFailed (restored : option bool)
| NoPrevious.

Definition incrementVersion (current : Z) : option Z := if current =? 2 ^ 64 - 1 then None else Some (u64 (current + 1)).

(** [normalizeCandidateServices]: a policy whose services do not parse is left as it is. *)
Definition normalize_policy (p : SecurityPolicy) : SecurityPolicy * list ConfigError :=
  match CanonicalServiceList (sp_Services p) with
  | None => (p, [mkConfigError (sp_ID p) "invalid services"])
  | Some services =>
      (p <| sp_Services := services |>
         <| sp_SourceZones ::= canonicalStrings |> <| sp_DestinationZones ::= canonicalStrings |>
         <| sp_SourceAddresses ::= canonicalAddresses |> <| sp_DestinationAddresses ::= canonicalAddresses |>
         <| sp_Applications ::= canonicalStrings |>, [])
  end.

#[global] Instance eta_Config : Eta Config := fun c =>
  mkConfig (cf_Interfaces c) (cf_Zones c) (cf_Routes c) (cf_NATRules c) (cf_Policies c) (cf_Profiles c) (cf_MaxSessions c)
    (cf_MaxEventsQueue c) (cf_MaxHTTPBodyInspection c) (cf_MaxHTTPHeaderSize c) (cf_MaxURLLength c) (cf_MaxMLInputLength c)
    (cf_MLTimeoutMillis c) (cf_RequestInspectionTimeoutMillis c) (cf_DefaultDeny c) (cf_Inspection c) (cf_RequestGate c)
    (cf_TLSExclusions c).

Definition normalizeCandidateServices (c : Config) : Config * list ConfigError :=
  let normalized := normalize_policy <$> cf_Policies c in
  (c <| cf_Policies := normalized.*1 |>, mjoin (normalized.*2)).

Section manager.
Context {JC : JSON Config} {JR : JSON RunningFile} {JE : JSON CandidateFile}.

Definition checksum (c : Config) : option string := (fun b => hex_EncodeToString (Sum256 b)) <$> Marshal c.
Definition configDigest (c : Config) : string := default "" (checksum c).

(** ** Persistence *)

(** The file afterwards and whether the error is nil: once the new file is in
    place, a failing directory sync or chmod is still reported. *)
Definition replace_running (file : option bytes) (payload : bytes) (e : PersistEnv) : option bytes * bool :=
  if negb (pe_open e) then (file, false)
  else if negb (pe_write e) then (file, false)
  else if negb (pe_sync e) then (file, false)
  else if negb (pe_close e) then (file, false)
  else if negb (pe_rename e) then (file, false)
  else if pe_openDir e && negb (pe_syncDir e) then (Some payload, false)
  else (Some payload, pe_chmod e).

Definition persist (c : Config) (v : ConfigVersion) (prev : option Config) (e : PersistEnv) : MG bool :=
  atomic (fun w =>
    match Marshal (mkRunningFile (Some c) (Some v) prev) with
    | None => (w, false)
    | Some payload => let '(file, ok) := replace_running (running_file w) payload e in (w <| running_file := file |>, ok)
    end).

Definition replace_candidate (file : option bytes) (payload : bytes) (e : EditorEnv) : option bytes * bool :=
  if negb (ed_create e) then (file, false)
  else if negb (ed_chmod e) then (file, false)
  else if negb (ed_write e) then (file, false)
  else if negb (ed_sync e) then (file, false)
  else if negb (ed_close e) then (file, false)
  else if negb (ed_rename e) then (file, false)
  else (Some payload, ed_openDir e && ed_syncDir e).

(** Runs inside the caller's section. *)
Definition persistEditorLocked (cand run : Config) (v : ConfigVersion) (e : EditorEnv) (w : World) : World * bool :=
  if negb (persistEditor (mgr w)) then (w, true)
  else match Marshal (mkCandidateFile 1 (Some run) (Some v) (Some cand)) with
       | None => (w, false)
       | Some payload => let '(file, ok) := replace_candidate (candidate_file w) payload e in (w <| candidate_file := file |>, ok)
       end.

(** ** Construction *)

Definition load (m : Manager) (read : FileRead) : result ManagerError Manager :=
  match read with
  | FileNotExist => Ok m
  | FileReadError => Err RunningUnreadable
  | FileData data =>
      match Unmarshal data with
      | None => Err RunningUndecodable
      | Some v =>
          let c := default config_zero (rf_Config v) in
          if negb (bool_decide (Validate c = [])) then Err RunningInvalid
          else
            let m := m <| running := c |> <| candidate := c |> <| version := default version_zero (rf_Version v) |> in
            match rf_Previous v with
            | None => Ok m
            | Some p => if negb (bool_decide (Validate p = [])) then Err PreviousInvalid else Ok (m <| previous := Some p |>)
            end
      end
  end.

Definition NewManager (mkdirOk : bool) (initial : Config) (read : FileRead) : result ManagerError Manager :=
  if negb mkdirOk then Err MkdirFailed
  else load (mkManager initial initial version_zero None validation_zero false) read.

Definition NewEditorManager (mkdirOk : bool) (initial : Config) (read readCandidate : FileRead) : result ManagerError Manager :=
  let? m := NewManager mkdirOk initial read in
  let? m := match readCandidate with
            | FileNotExist => Ok m
            | FileReadError => Err CandidateUnreadable
            | FileData data =>
                match Unmarshal data with
                | None => Err CandidateUndecodable
                | Some stored =>
                    match ca_Running stored, ca_Version stored, ca_Candidate stored with
                    | Some run, Some v, Some cand =>
                        if negb (ca_SchemaVersion stored =? 1) then Err CandidateEnvelope
                        else if negb (bool_decide (Validate run = [])) then Err CandidateBaseInvalid
                        else Ok (m <| running := run |> <| version := v |> <| candidate := cand |>)
                    | _, _, _ => Err CandidateEnvelope
                    end
                end
            end in
  Ok (m <| persistEditor := true |>).

Inductive RunningFileError : Type :=
| RunningFileUnreadable | RunningFileUndecodable | NotRunningFile | RunningFileInvalid | RunningFileChecksum.

Definition LoadRunningFile (read : FileRead) : result RunningFileError (Config * ConfigVersion) :=
  match read with
  | FileNotExist | FileReadError => Err RunningFileUnreadable
  | FileData data =>
      match Unmarshal data with
      | None => Err RunningFileUndecodable
      | Some stored =>
          match rf_Config stored, rf_Version stored with
          | Some c, Some v =>
              if negb (bool_decide (Validate c = [])) then Err RunningFileInvalid
              else match checksum c with
                   | None => Err RunningFileChecksum
                   | Some digest =>
                       if negb (bool_decide (cv_Checksum v = "")) && negb (bool_decide (digest = cv_Checksum v))
                       then Err RunningFileChecksum else Ok (c, v)
                   end
          | _, _ => Err NotRunningFile
          end
      end
  end.

Definition LoadFile (read : FileRead) : result RunningFileError Config :=
  match read with
  | FileNotExist | FileReadError => Err RunningFileUnreadable
  | FileData data =>
      match Unmarshal data with
      | None => Err RunningFileUndecodable
      | Some c => if negb (bool_decide (Validate c = [])) then Err RunningFileInvalid else Ok c
      end
  end.

(** ** Reading *)

Definition Running : MG Config := peek (fun w => running (mgr w)).
Definition RollbackTarget : MG (option Config) := peek (fun w => previous (mgr w)).
Definition Candidate : MG Config := peek (fun w => candidate (mgr w)).
Definition Version : MG ConfigVersion := peek (fun w => version (mgr w)).
Definition ValidateCandidate : MG (list ConfigError) := peek (fun w => Validate (candidate (mgr w))).

Inductive ValidationState : Type := StateValid | StateInvalid | StateStale | StateNotRun.

#[global] Instance ValidationState_eq_dec : EqDecision ValidationState.
Proof. solve_decision. Defined.

(** [candidateValidationLocked], which [CandidateValidation] repeats. *)
Definition candidateValidationLocked (m : Manager) : ValidationState * string * string * bool :=
  let candidateChecksum := configDigest (candidate m) in
  let checkedChecksum := va_checksum (validation m) in
  if va_checked (validation m) && bool_decide (checkedChecksum = candidateChecksum)
  then if va_valid (validation m) then (StateValid, candidateChecksum, checkedChecksum, true)
       else (StateInvalid, candidateChecksum, checkedChecksum, false)
  else if negb (bool_decide (Validate (candidate m) = [])) then (StateInvalid, candidateChecksum, checkedChecksum, false)
  else if va_checked (validation m) then (StateStale, candidateChecksum, checkedChecksum, false)
  else (StateNotRun, candidateChecksum, checkedChecksum, false).

Definition CandidateValidation : MG (ValidationState * string * string * bool) := peek (fun w => candidateValidationLocked (mgr w)).

(** ** Editing the candidate *)

Definition on_mgr (f : Manager -> Manager) (w : World) : World := w <| mgr ::= f |>.

Definition SetCandidate (c : Config) (e : EditorEnv) : MG (list ConfigError) :=
  let '(normalized, errs) := normalizeCandidateServices c in
  let c := if bool_decide (errs = []) then normalized else c in
  atomic (fun w =>
    let '(w, ok) := persistEditorLocked c (running (mgr w)) (version (mgr w)) e w in
    if negb ok then (w, errs ++ [mkConfigError "" "persist candidate"])
    else (on_mgr (fun m => m <| candidate := c |> <| validation := validation_zero |>) w, errs ++ Validate c)).

Definition SetCandidateIfValid (c : Config) (e : EditorEnv) : MG (list ConfigError) :=
  let '(normalized, errs) := normalizeCandidateServices c in
  if negb (bool_decide (errs = [])) then mret errs
  else match Validate normalized with
       | (_ :: _) as errs => mret errs
       | [] =>
           atomic (fun w =>
             let '(w, ok) := persistEditorLocked normalized (running (mgr w)) (version (mgr w)) e w in
             if negb ok then (w, [mkConfigError "" "persist candidate"])
             else (on_mgr (fun m => m <| candidate := normalized |> <| validation := validation_zero |>) w, []))
       end.

Definition MarkCandidateValidation (valid : bool) : MG unit :=
  modify (on_mgr (fun m => m <| validation := mkValidation (configDigest (candidate m)) valid true |>)).

Definition MarkCandidateValidationFor (cand : Config) (valid : bool) : MG bool :=
  let expected := configDigest cand in
  atomic (fun w =>
    if negb (bool_decide (configDigest (candidate (mgr w)) = expected)) then (w, false)
    else (on_mgr (fun m => m <| validation := mkValidation expected valid true |>) w, true)).

(** ** Following the engine (the editor's manager) *)

Definition SyncRunning (c : Config) (v : ConfigVersion) (e : EditorEnv) : MG bool :=
  atomic (fun w =>
    let old := mgr w in
    let m := old <| running := c |> <| version := v |> in
    let m := if bool_decide (configDigest (candidate old) = configDigest (running old)) then m <| candidate := c |> else m in
    let m := if bool_decide (configDigest (candidate m) = configDigest c)
             then m <| validation := mkValidation (configDigest c) true true |> else m in
    persistEditorLocked (candidate m) (running m) (version m) e (w <| mgr := m |>)).

Definition SyncRollback (c : Config) (v : ConfigVersion) (e : EditorEnv) : MG bool :=
  atomic (fun w =>
    let m := mgr w <| running := c |> <| candidate := c |> <| version := v |>
               <| validation := mkValidation (configDigest c) true true |> in
    persistEditorLocked c c v e (w <| mgr := m |>)).

(** ** Committing *)

(** The activation callback: what its [n]-th call answers. *)
Definition Apply : Type := nat -> Config -> Z -> bool.

Definition call_apply (apply : Apply) (c : Config) (generation : Z) : MG bool :=
  atomic (fun w =>
    let ok := apply (length (applied w)) c generation in
    (w <| applied ::= fun l => l ++ [(c, generation, ok)] |>, ok)).

(** What a commit reads in its first section. *)
Record Snapshot : Type := mkSnapshot { sn_version : ConfigVersion; sn_candidate : Config; sn_running : Config }.

Definition snapshot : MG Snapshot := peek (fun w => mkSnapshot (version (mgr w)) (candidate (mgr w)) (running (mgr w))).

(** The checks before anything is changed. *)
Definition admissible_commit (s : Snapshot) (expected : Z) : result ManagerError (Z * string) :=
  let current := cv_Version (sn_version s) in
  if negb (expected =? current) then Err (VersionConflict expected current)
  else match Validate (sn_candidate s) with
  | (_ :: _) as errs => Err (InvalidCandidate errs)
  | [] =>
      match ExactDuplicatePolicyErrorsForConfig (sn_candidate s), M3UnreachablePolicyErrors (sn_candidate s) with
      | [], [] =>
          match incrementVersion current with
          | None => Err GenerationExhausted
          | Some next => match checksum (sn_candidate s) with None => Err ChecksumFailed | Some sum => Ok (next, sum) end
          end
      | duplicates, unreachable => Err (SemanticErrors duplicates unreachable)
      end
  end.

Definition publish_commit (c : Config) (v : ConfigVersion) (old : Config) : MG unit :=
  modify (on_mgr (fun m => m <| previous := Some old |> <| running := c |> <| version := v |>
                             <| validation := mkValidation (configDigest c) true true |>)).

Definition Commit (author comment : string) (expected : Z) (e : PersistEnv) : MG (ConfigVersion * option ManagerError) :=
  s ← snapshot;
  match admissible_commit s expected with
  | Err err => mret (sn_version s, Some err)
  | Ok (next, sum) =>
      now ← peek wall;
      let v := mkConfigVersion next author now comment sum in
      ok ← persist (sn_candidate s) v (Some (sn_running s)) e;
      if negb ok then mret (sn_version s, Some (PersistFailed None))
      else _ ← publish_commit (sn_candidate s) v (sn_running s); mret (v, None)
  end.

(** [restoreAppliedGeneration]: [true] when the previous state could be applied. *)
Definition restoreAppliedGeneration (apply : option Apply) (prev : Config) (generation : Z) : MG bool :=
  match apply with None => mret true | Some apply => call_apply apply prev generation end.

Definition activate (apply : option Apply) (c : Config) (generation : Z) : MG bool :=
  match apply with None => mret true | Some apply => call_apply apply c generation end.

Definition CommitWithGeneration (author comment : string) (expected : Z) (apply : option Apply) (e : PersistEnv)
  : MG (ConfigVersion * option ManagerError) :=
  s ← snapshot;
  match admissible_commit s expected with
  | Err err => mret (sn_version s, Some err)
  | Ok (next, sum) =>
      activated ← activate apply (sn_candidate s) next;
      if negb activated then
        restored ← restoreAppliedGeneration apply (sn_running s) (cv_Version (sn_version s));
        mret (sn_version s, Some (ActivationFailed restored))
      else
        now ← peek wall;
        let v := mkConfigVersion next author now comment sum in
        ok ← persist (sn_candidate s) v (Some (sn_running s)) e;
        if negb ok then
          match apply with
          | None => mret (sn_version s, Some (PersistFailed None))
          | Some _ =>
              restored ← restoreAppliedGeneration apply (sn_running s) (cv_Version (sn_version s));
              mret (sn_version s, Some (PersistFailed (Some restored)))
          end
        else _ ← publish_commit (sn_candidate s) v (sn_running s); mret (v, None)
  end.

Definition CommitWithApply (author comment : string) (expected : Z) (apply : option (nat -> Config -> bool)) (e : PersistEnv) :=
  CommitWithGeneration author comment expected ((fun apply n c _ => apply n c) <$> apply) e.

Definition publish_rollback (target : Config) (v : ConfigVersion) (old : Config) : MG unit :=
  modify (on_mgr (fun m => m <| running := target |> <| candidate := target |> <| previous := Some old |> <| version := v |>
                             <| validation := mkValidation (configDigest target) true true |>)).

Definition rollbackGenerationLocked (author comment : string) (apply : option Apply) (e : PersistEnv)
  : MG (ConfigVersion * option ManagerError) :=
  s ← peek (fun w => (version (mgr w), running (mgr w), previous (mgr w)));
  let '(current, old, prev) := s in
  match prev with
  | None => mret (current, Some NoPrevious)
  | Some target =>
      match incrementVersion (cv_Version current) with
      | None => mret (current, Some GenerationExhausted)
      | Some next =>
          now ← peek wall;
          match checksum target with
          | None => v ← Version; mret (v, Some ChecksumFailed)
          | Some sum =>
              let v := mkConfigVersion next author now comment sum in
              activated ← activate apply target next;
              if negb activated then
                restored ← restoreAppliedGeneration apply old (cv_Version current);
                mret (current, Some (ActivationFailed restored))
              else
                ok ← persist target v (Some old) e;
                if negb ok then
                  match apply with
                  | None => mret (current, Some (PersistFailed None))
                  | Some _ =>
                      restored ← restoreAppliedGeneration apply old (cv_Version current);
                      mret (current, Some (PersistFailed (Some restored)))
                  end
                else _ ← publish_rollback target v old; mret (v, None)
          end
      end
  end.

Definition Rollback (author comment : string) (e : PersistEnv) := rollbackGenerationLocked author comment None e.
Definition RollbackWithGeneration := rollbackGenerationLocked.
Definition RollbackWithApply (author comment : string) (apply : option (nat -> Config -> bool)) (e : PersistEnv) :=
  rollbackGenerationLocked author comment ((fun apply n c _ => apply n c) <$> apply) e.

(** [Export]: what the API shows. *)
Definition Export : MG (Config * Config * ConfigVersion * bool * (ValidationState * string * string * bool)) :=
  peek (fun w => let m := mgr w in
    (running m, candidate m, version m, bool_decide (Validate (candidate m) = []), candidateValidationLocked m)).
End manager.
