(* ===== verification/ManagerProps.v ===== *)
(** * Properties of the configuration manager

    A commit or rollback either publishes completely or leaves the running
    configuration alone with the kernel asked to go back to it; what was
    published survives a restart; the engine's running configuration is always
    valid and in step with the last activation; the editor's VALID badge belongs
    to a configuration that was really checked. *)

From S2P Require Import Prelude GoStr Sha256 Domain Config TLSExclusion PolicyCheck Validate Validator ValidatorProps.
From S2P Require Import Codec Epoch Interleave Manager.

(** ** What runs beside a commit

    [activationMu] keeps other commits and rollbacks away; the editor's methods
    may change the candidate, its validation record and its file. *)
Record editor_rely (w w' : World) : Prop := mkEditorRely {
  er_running : running (mgr w') = running (mgr w);
  er_version : version (mgr w') = version (mgr w);
  er_previous : previous (mgr w') = previous (mgr w);
  er_file : running_file w' = running_file w;
  er_applied : applied w' = applied w
}.

#[global] Instance editor_rely_preorder : PreOrder editor_rely.
Proof. split; [by constructor | intros w1 w2 w3 [] []; constructor; congruence]. Qed.

Section manager.
Context {JC : JSON Config} {JR : JSON RunningFile} {JE : JSON CandidateFile}.

Definition num (w : World) : Z := cv_Version (version (mgr w)).

(** A configuration that may be published by a commit. *)
Definition acceptable (c : Config) : Prop :=
  Validate c = [] /\ ExactDuplicatePolicyErrorsForConfig c = [] /\ M3UnreachablePolicyErrors c = [].

(** The engine published [c] as [v]; the kernel took it. *)
Record published (w : World) (with_apply : bool) (c : Config) (v : ConfigVersion) (w' : World) : Prop := mkPublished {
  pu_number : cv_Version v = num w + 1 /\ num w + 1 < 2 ^ 64;
  pu_checksum : checksum c = Some (cv_Checksum v);
  pu_running : running (mgr w') = c;
  pu_version : version (mgr w') = v;
  pu_previous : previous (mgr w') = Some (running (mgr w));
  pu_file : exists payload, Marshal (mkRunningFile (Some c) (Some v) (Some (running (mgr w)))) = Some payload /\ running_file w' = Some payload;
  pu_applied : applied w' = applied w ++ (if with_apply then [(c, cv_Version v, true)] else [])
}.

(** What an error says of the kernel: nothing was tried, or whether it took the new
    configuration and whether it took the old one back. *)
Definition attempted (err : ManagerError) : option (bool * bool) :=
  match err with
  | ActivationFailed restored => Some (false, restored)
  | PersistFailed (Some restored) => Some (true, restored)
  | _ => None
  end.

(** The error is about writing the running file. *)
Definition wrote (err : ManagerError) : bool := match err with PersistFailed _ => true | _ => false end.

(** Nothing was published.  An activation that was tried was followed by one of the
    running configuration, with the answers the error names; only a failed write may
    leave the new file behind. *)
Record refused (w : World) (with_apply : bool) (good : Config -> Prop) (err : ManagerError) (w' : World) : Prop := mkRefused {
  rf_same_running : running (mgr w') = running (mgr w);
  rf_same_version : version (mgr w') = version (mgr w);
  rf_same_previous : previous (mgr w') = previous (mgr w);
  rf_applied :
    match attempted err with
    | None => applied w' = applied w
    | Some (taken, restored) => with_apply = true /\
        exists c, good c /\ applied w' = applied w ++ [(c, num w + 1, taken); (running (mgr w), num w, restored)]
    end;
  rf_file : running_file w' = running_file w \/ wrote err = true /\
    exists c v payload, good c /\ cv_Version v = num w + 1 /\
      Marshal (mkRunningFile (Some c) (Some v) (Some (running (mgr w)))) = Some payload /\ running_file w' = Some payload
}.

Definition outcome (w : World) (with_apply : bool) (good : Config -> Prop) (out : ConfigVersion * option ManagerError) (w' : World) : Prop :=
  match out with
  | (v, None) => exists c, good c /\ published w with_apply c v w'
  | (v, Some err) => v = version (mgr w) /\ refused w with_apply good err w'
  end.

Lemma increment_next n next : 0 <= n < 2 ^ 64 -> incrementVersion n = Some next -> next = n + 1 /\ n + 1 < 2 ^ 64.
Proof.
  unfold incrementVersion. destruct (Z.eqb_spec n (2 ^ 64 - 1)); [done|]. intros Hn [= <-]. rewrite u64_small by lia. lia.
Qed.

Lemma admissible_commit_Ok s expected next sum : 0 <= cv_Version (sn_version s) < 2 ^ 64 ->
  admissible_commit s expected = Ok (next, sum) ->
  expected = cv_Version (sn_version s) /\ acceptable (sn_candidate s) /\ (next = cv_Version (sn_version s) + 1 /\ cv_Version (sn_version s) + 1 < 2 ^ 64) /\
  checksum (sn_candidate s) = Some sum.
Proof.
  intros Hn. unfold admissible_commit, acceptable. destruct (Z.eqb_spec expected (cv_Version (sn_version s))); [|done]. cbn [negb].
  destruct (Validate _); [|done]. destruct (ExactDuplicatePolicyErrorsForConfig _); [|done].
  destruct (M3UnreachablePolicyErrors _); [|done]. destruct (incrementVersion _) as [n|] eqn:En; [|done].
  destruct (checksum _) as [d|]; [|done]. intros [= <- <-]. apply increment_next in En; [|done]. split_and!; (done || apply En).
Qed.

(** The published state is that of [w0]; [calls] were answered since, and the running
    file is [file]. *)
Record since (w0 : World) (calls : list (Config * Z * bool)) (file : option bytes) (w : World) : Prop := mkSince {
  si_running : running (mgr w) = running (mgr w0);
  si_version : version (mgr w) = version (mgr w0);
  si_previous : previous (mgr w) = previous (mgr w0);
  si_applied : applied w = applied w0 ++ calls;
  si_file : running_file w = file
}.

Lemma since_rely w0 calls file w w' : since w0 calls file w -> editor_rely w w' -> since w0 calls file w'.
Proof. intros [] []. constructor; congruence. Qed.

Lemma since_start w0 w : editor_rely w0 w -> since w0 [] (running_file w0) w.
Proof. intros []. constructor; rewrite ?app_nil_r; congruence. Qed.

Definition asked (apply : option Apply) (c : Config) (n : Z) (ok : bool) : list (Config * Z * bool) :=
  match apply with Some _ => [(c, n, ok)] | None => [] end.
Definition has_apply (apply : option Apply) : bool := match apply with Some _ => true | None => false end.

(** The others may be known to do less than [editor_rely] allows. *)
Section beside.
Variable R : World -> World -> Prop.
Hypothesis HR : forall w w', R w w' -> editor_rely w w'.

Notation WP := (wp R).

Lemma wp_activate {A} apply c n (k : bool -> MG A) Q tr w w0 calls file :
  since w0 calls file w ->
  (forall ok tr w', ok = true \/ apply <> None -> since w0 (calls ++ asked apply c n ok) file w' -> WP (k ok) Q tr w') ->
  WP (activate apply c n ≫= k) Q tr w.
Proof.
  intros Hs Hk. unfold activate, asked in *. destruct apply as [apply|]; [|apply Hk; [by left | by rewrite app_nil_r]].
  apply wp_bind. intros w' Hw'%HR. cbn [wp]. apply (since_rely _ _ _ _ _ Hs) in Hw' as [H1 H2 H3 H4 H5].
  apply Hk; [by right|]. constructor; cbn; [done..| |done]. by rewrite H4, app_assoc.
Qed.

Lemma replace_running_file file payload e file' ok : replace_running file payload e = (file', ok) ->
  if ok then file' = Some payload else file' = file \/ file' = Some payload.
Proof. unfold replace_running. destruct ok; repeat case_if; intros [=]; subst; by auto. Qed.

Lemma wp_persist {A} c v p e (k : bool -> MG A) Q tr w w0 calls file :
  since w0 calls file w ->
  (forall (ok : bool) file' tr w', since w0 calls file' w' ->
     (if ok then exists payload, Marshal (mkRunningFile (Some c) (Some v) p) = Some payload /\ file' = Some payload
      else file' = file \/ exists payload, Marshal (mkRunningFile (Some c) (Some v) p) = Some payload /\ file' = Some payload) ->
     WP (k ok) Q tr w') ->
  WP (persist c v p e ≫= k) Q tr w.
Proof.
  intros Hs Hk. apply wp_bind. intros w' Hw'%HR. apply (since_rely _ _ _ _ _ Hs) in Hw'. cbn [wp].
  destruct (Marshal _) as [payload|] eqn:Em; [|by eapply Hk; [|left]].
  destruct (replace_running (running_file w') payload e) as [file' ok] eqn:Er. cbn [fst snd].
  apply replace_running_file in Er. rewrite (si_file _ _ _ _ Hw') in Er. apply (Hk _ file'); [by destruct Hw'|].
  destruct ok; [by exists payload | destruct Er; [by left | right; by exists payload]].
Qed.

(** Taking back an activation leaves a refused operation. *)
Lemma wp_restore {A} apply w0 w tr c taken file (good : Config -> Prop) (err : bool -> ManagerError) (answer : ManagerError -> A) Q :
  apply <> None -> good c -> since w0 (asked apply c (num w0 + 1) taken) file w ->
  (forall restored, attempted (err restored) = Some (taken, restored)) ->
  (forall restored, file = running_file w0 \/ wrote (err restored) = true /\
     exists c v payload, good c /\ cv_Version v = num w0 + 1 /\
       Marshal (mkRunningFile (Some c) (Some v) (Some (running (mgr w0)))) = Some payload /\ file = Some payload) ->
  (forall restored tr w', refused w0 (has_apply apply) good (err restored) w' -> Q (answer (err restored)) tr w') ->
  WP (restored ← restoreAppliedGeneration apply (running (mgr w0)) (num w0); mret (answer (err restored))) Q tr w.
Proof.
  intros Ha Hc Hs Herr Hfile HQ. destruct apply as [apply|]; [|done].
  apply (wp_activate (Some apply) (running (mgr w0)) (num w0) _ _ _ _ w0 _ file Hs).
  intros restored tr' w' _ [H1 H2 H3 H4 H5]. apply HQ. constructor; [done..| |by rewrite H5].
  rewrite Herr. split; [done|]. by exists c.
Qed.

Lemma outcome_weaken w b (P Q : Config -> Prop) out w' : (forall c, P c -> Q c) -> outcome w b P out w' -> outcome w b Q out w'.
Proof.
  intros HPQ. destruct out as [v [e|]]; cbn; [|intros (c & Hc & Hp); exists c; by auto].
  intros (-> & [H1 H2 H3 H4 H5]). split; [done|]. constructor; [done..| |].
  - destruct (attempted e) as [[]|]; [|done]. destruct H4 as (? & c & ? & ?). split; [done|]. exists c. by auto.
  - destruct H5 as [|(? & c & v & p & ? & ?)]; [by left|]. right. split; [done|]. exists c, v, p. by auto.
Qed.

Lemma since_refused w0 w b good err : since w0 [] (running_file w0) w -> attempted err = None -> refused w0 b good err w.
Proof. intros [H1 H2 H3 H4 H5] He. constructor; [done..| |by left]. by rewrite He, H4, app_nil_r. Qed.

(** From the activation on; commit and rollback differ in the order in which they read
    the clock, and in what they publish. *)
Lemma wp_write {A} apply c sum author comment now prev e w0 w tr (good : Config -> Prop) (k : MG A) (answer : ManagerError -> A) Q :
  good c -> since w0 (asked apply c (num w0 + 1) true) (running_file w0) w -> prev = Some (running (mgr w0)) ->
  (forall err tr w', refused w0 (has_apply apply) good err w' -> Q (answer err) tr w') ->
  (forall tr w' payload, since w0 (asked apply c (num w0 + 1) true) (Some payload) w' ->
     Marshal (mkRunningFile (Some c) (Some (mkConfigVersion (num w0 + 1) author now comment sum)) prev) = Some payload -> WP k Q tr w') ->
  WP (ok ← persist c (mkConfigVersion (num w0 + 1) author now comment sum) prev e;
      if negb ok then
        match apply with
        | None => mret (answer (PersistFailed None))
        | Some _ => restored ← restoreAppliedGeneration apply (running (mgr w0)) (num w0); mret (answer (PersistFailed (Some restored)))
        end
      else k) Q tr w.
Proof.
  intros Hc Hs Hp HQ Hk. subst prev. set (v := mkConfigVersion _ _ _ _ _) in *. apply (wp_persist _ _ _ _ _ _ _ _ _ _ _ Hs). intros ok file tr1 w1 H1 Hfile.
  assert (Hleft : ok = false -> file = running_file w0 \/
    exists c v payload, good c /\ cv_Version v = num w0 + 1 /\
      Marshal (mkRunningFile (Some c) (Some v) (Some (running (mgr w0)))) = Some payload /\ file = Some payload).
  { intros ->. destruct Hfile as [|(p & ? & ?)]; [by left|]. right. by exists c, v, p. }
  destruct ok; cbn [negb]; [destruct Hfile as (payload & Hm & ->); by eapply Hk|]. specialize (Hleft eq_refl).
  destruct apply as [apply|].
  - apply (wp_restore (Some apply) w0 _ _ c true file good (fun r => PersistFailed (Some r))); try done.
    + intros r. destruct Hleft; [by left | by right].
    + intros. by apply HQ.
  - apply HQ. destruct H1 as [E1 E2 E3 E4 E5]. constructor; [done..| by rewrite E4; cbn; rewrite app_nil_r |].
    rewrite E5. destruct Hleft; [by left | by right].
Qed.

Lemma since_published w0 apply c v payload w (f : Manager -> Manager) :
  since w0 (asked apply c (num w0 + 1) true) (Some payload) w -> cv_Version v = num w0 + 1 -> num w0 + 1 < 2 ^ 64 ->
  checksum c = Some (cv_Checksum v) -> Marshal (mkRunningFile (Some c) (Some v) (Some (running (mgr w0)))) = Some payload ->
  (forall m, running (f m) = c /\ version (f m) = v /\ previous (f m) = Some (running (mgr w0))) ->
  published w0 (has_apply apply) c v (on_mgr f w).
Proof.
  intros [H1 H2 H3 H4 H5] Hv Hlt Hsum Hm Hf. destruct (Hf (mgr w)) as (F1 & F2 & F3). constructor; try done.
  - by exists payload.
  - cbn. rewrite H4, Hv. by destruct apply.
Qed.

Lemma wp_CommitWithGeneration author comment expected apply e w :
  0 <= num w < 2 ^ 64 ->
  WP (CommitWithGeneration author comment expected apply e)
    (fun out tr w' => exists m, head tr = Some m /\ R w m /\
       outcome w (has_apply apply) (fun c => c = candidate (mgr m) /\ acceptable c /\ expected = num w) out w') [] w.
Proof.
  intros Hn. unfold CommitWithGeneration. apply wp_bind. intros w1 Hw1. cbn [wp Datatypes.id app]. apply wp_frame_moments. cbn [app head].
  set (c := candidate (mgr w1)). set (good := fun c' => c' = c /\ acceptable c' /\ expected = num w).
  apply (wp_mono R _ (fun out _ w' => outcome w (has_apply apply) good out w')); [by intros out tr w' ?; exists w1|].
  assert (Hs : since w [] (running_file w) w1) by by apply since_start, HR. pose proof Hs as [E1 E2 E3 E4 E5].
  assert (HQ : forall err (tr : list World) w', refused w (has_apply apply) good err w' ->
    outcome w (has_apply apply) good (version (mgr w), Some err) w') by done.
  destruct (admissible_commit _ expected) as [[next sum]|err] eqn:Ea.
  2: { cbn [sn_version mret prog_ret wp]. rewrite E2. apply HQ; [exact []|]. apply since_refused; [done|].
       revert Ea. unfold admissible_commit. repeat case_match; intros [= <-]; done. }
  apply admissible_commit_Ok in Ea; [|cbn; rewrite E2; done]. cbn [sn_version sn_candidate sn_running] in *.
  destruct Ea as (Hexp & Hacc & [-> Hbound] & Hsum). rewrite E2 in *. rewrite E1. change (candidate (mgr w1)) with c in Hacc, Hsum |- *. fold (num w) in *.
  assert (Hgood : good c) by done.
  apply (wp_activate _ _ _ _ _ _ _ w [] _ Hs). intros ok tr2 w2 Hok H2. cbn [app] in H2. destruct ok; cbn [negb].
  2: { destruct Hok as [|Hok]; [done|]. apply (wp_restore apply w _ _ c false _ good ActivationFailed (fun err => (version (mgr w), Some err)) _ Hok Hgood H2);
         [done | by left | done]. }
  apply wp_bind. intros w3 Hw3%HR. cbn [wp Datatypes.id]. pose proof (since_rely _ _ _ _ _ H2 Hw3) as H3.
  apply (wp_write apply c sum author comment _ _ e w _ _ good _ (fun err => (version (mgr w), Some err)) _ Hgood H3 eq_refl); [done|].
  intros tr4 w4 payload H4 Hm. apply wp_bind. intros w5 Hw5%HR. cbn [wp]. exists c. split; [done|].
  by apply (since_published w apply c _ payload); [eapply since_rely| | | | |].
Qed.

Lemma wp_rollback author comment apply e w tr :
  0 <= num w < 2 ^ 64 ->
  WP (rollbackGenerationLocked author comment apply e)
    (fun out _ w' => outcome w (has_apply apply) (fun c => previous (mgr w) = Some c) out w' /\
                     (out.2 = None -> candidate (mgr w') = running (mgr w'))) tr w.
Proof.
  intros Hn. unfold rollbackGenerationLocked. apply wp_bind. intros w1 Hw1. cbn [wp Datatypes.id].
  assert (Hs : since w [] (running_file w) w1) by by apply since_start, HR. pose proof Hs as [E1 E2 E3 E4 E5]. rewrite E1, E2, E3.
  set (good := fun c => previous (mgr w) = Some c).
  assert (HQ : forall err (tr : list World) w', refused w (has_apply apply) good err w' ->
    outcome w (has_apply apply) good (version (mgr w), Some err) w' /\ (Some err = None -> candidate (mgr w') = running (mgr w'))) by done.
  destruct (previous (mgr w)) as [c|] eqn:Ep; [|by apply HQ, since_refused].
  fold (num w). destruct (incrementVersion (num w)) as [next|] eqn:En; [|by apply HQ, since_refused].
  apply increment_next in En as [-> Hbound]; [|done].
  apply wp_bind. intros w2 Hw2%HR. cbn [wp Datatypes.id]. pose proof (since_rely _ _ _ _ _ Hs Hw2) as H2. clear Hs Hw2.
  destruct (checksum c) as [sum|] eqn:Esum.
  2: { apply wp_bind. intros w3 Hw3%HR. cbn [wp Datatypes.id]. pose proof (since_rely _ _ _ _ _ H2 Hw3) as H3.
       rewrite (si_version _ _ _ _ H3). by apply HQ, since_refused. }
  assert (Hgood : good c) by done.
  apply (wp_activate _ _ _ _ _ _ _ w [] _ H2). intros ok tr3 w3 Hok H3. cbn [app] in H3. destruct ok; cbn [negb].
  2: { destruct Hok as [|Hok]; [done|]. apply (wp_restore apply w _ _ c false _ good ActivationFailed (fun err => (version (mgr w), Some err)) _ Hok Hgood H3);
         [done | by left | done]. }
  apply (wp_write apply c sum author comment _ _ e w _ _ good _ (fun err => (version (mgr w), Some err)) _ Hgood H3 eq_refl); [done|].
  intros tr4 w4 payload H4 Hm. apply wp_bind. intros w5 Hw5%HR. cbn [wp]. split; [|done]. exists c. split; [done|].
  by apply (since_published w apply c _ payload); [eapply since_rely| | | | |].
Qed.
End beside.

#[local] Notation WP := (wp editor_rely).

Lemma wp_commit author comment expected apply e w :
  0 <= num w < 2 ^ 64 ->
  WP (CommitWithGeneration author comment expected apply e) (fun out _ w' => outcome w (has_apply apply) acceptable out w') [] w.
Proof.
  intros Hn. eapply wp_mono; [|by apply wp_CommitWithGeneration]. intros out tr' w' (m & _ & _ & Ho).
  eapply outcome_weaken; [|done]. by intros c (_ & ? & _).
Qed.

(** C10. A commit publishes completely or not at all, whatever the editor does meanwhile.
    A commit that succeeds was made against the running version and publishes the
    candidate that was there when it began ([m] is the moment of its first section),
    which passed validation and the duplicate and reachability checks, as the next
    version with the old configuration as rollback target, in memory and in the running
    file, and the activation of exactly that configuration and version was answered
    without error.  A commit that fails leaves the running configuration, its version
    and the rollback target alone; an activation it tried is followed by one of the
    running configuration under its own version, and the error names what the two
    answered; the running file is unchanged unless the error is a failed write, which
    may leave the new file in place. *)
Theorem Commit_atomic author comment expected apply e env w :
  within editor_rely env -> 0 <= num w < 2 ^ 64 ->
  let r := run (CommitWithGeneration author comment expected apply e) env w in
  exists m, head (run_moments _ r) = Some m /\ editor_rely w m /\
  outcome w (has_apply apply) (fun c => c = candidate (mgr m) /\ acceptable c /\ expected = num w) (run_result _ r) (run_final _ r).
Proof.
  intros Henv Hn. exact (wp_sound editor_rely _ _ [] w env Henv (wp_CommitWithGeneration editor_rely (fun _ _ H => H) author comment expected apply e w Hn)).
Qed.

(** Rolling back in the same way publishes exactly the rollback target as a new version
    and makes it the candidate, or publishes nothing. *)
Theorem Rollback_atomic author comment apply e env w :
  within editor_rely env -> 0 <= num w < 2 ^ 64 ->
  let r := run (RollbackWithGeneration author comment apply e) env w in
  outcome w (has_apply apply) (fun c => previous (mgr w) = Some c) (run_result _ r) (run_final _ r) /\
  ((run_result _ r).2 = None -> candidate (mgr (run_final _ r)) = running (mgr (run_final _ r))).
Proof.
  intros Henv Hn. exact (wp_sound editor_rely _ _ [] w env Henv (wp_rollback editor_rely (fun _ _ H => H) author comment apply e w [] Hn)).
Qed.

(** The plain commit is the one without activation. *)
Lemma Commit_plain author comment expected e : Commit author comment expected e = CommitWithGeneration author comment expected None e.
Proof. reflexivity. Qed.

(** ** The engine's manager over time *)

(** The calls the engine makes; every publication goes through the kernel. *)
Inductive ManagerOp : Type :=
| DoSetCandidate (c : Config) (e : EditorEnv)
| DoSetCandidateIfValid (c : Config) (e : EditorEnv)
| DoMark (valid : bool)
| DoMarkFor (c : Config) (valid : bool)
| DoCommit (author comment : string) (expected : Z) (apply : Apply) (e : PersistEnv)
| DoRollback (author comment : string) (apply : Apply) (e : PersistEnv).

Definition perform (op : ManagerOp) : MG unit :=
  match op with
  | DoSetCandidate c e => _ ← SetCandidate c e; mret tt
  | DoSetCandidateIfValid c e => _ ← SetCandidateIfValid c e; mret tt
  | DoMark valid => MarkCandidateValidation valid
  | DoMarkFor c valid => _ ← MarkCandidateValidationFor c valid; mret tt
  | DoCommit author comment expected apply e => _ ← CommitWithGeneration author comment expected (Some apply) e; mret tt
  | DoRollback author comment apply e => _ ← RollbackWithGeneration author comment (Some apply) e; mret tt
  end.

(** The states the manager goes through, one publication at a time. *)
Inductive history (w0 : World) : World -> Prop :=
| history_start : history w0 w0
| history_step w op env : history w0 w -> within editor_rely env -> history w0 (run_final _ (run (perform op) env w)).

Record engine_ok (w : World) : Prop := mkEngineOk {
  eo_running : Validate (running (mgr w)) = [];
  eo_previous : forall p, previous (mgr w) = Some p -> Validate p = [];
  eo_number : 0 <= num w < 2 ^ 64;
  eo_aligned : applied w = [] \/ exists ok, last (applied w) = Some (running (mgr w), num w, ok)
}.

Lemma engine_ok_rely w w' : engine_ok w -> editor_rely w w' -> engine_ok w'.
Proof.
  intros [H1 H2 H3 H4] [E1 E2 E3 E4 E5]. unfold num in *. by constructor; unfold num; rewrite ?E1, ?E2, ?E3, ?E5.
Qed.

Lemma persistEditor_rely c r v e w : editor_rely w (persistEditorLocked c r v e w).1.
Proof. unfold persistEditorLocked. repeat case_match; by constructor. Qed.

Lemma guar_editor_atomic c r e (f : Manager -> Manager) (g : World -> ConfigVersion) (a b : list ConfigError) :
  (forall m, running (f m) = running m /\ version (f m) = version m /\ previous (f m) = previous m) ->
  guar editor_rely (atomic (fun w => let '(w, ok) := persistEditorLocked c (r w) (g w) e w in
    if negb ok then (w, a) else (on_mgr f w, b))).
Proof.
  intros Hf. apply guar_atomic. intros w. pose proof (persistEditor_rely c (r w) (g w) e w) as Hp.
  destruct (persistEditorLocked _ _ _ _ _) as [w' ok]. cbn [fst] in Hp. destruct ok; cbn; [|done].
  destruct (Hf (mgr w')) as (E1 & E2 & E3), Hp. constructor; cbn; congruence.
Qed.

Lemma guar_editor_op op : match op with DoCommit _ _ _ _ _ | DoRollback _ _ _ _ => False | _ => True end -> guar editor_rely (perform op).
Proof.
  destruct op as [c e | c e | valid | c valid | |]; intros Hop; cbn [perform]; try done.
  - apply guar_bind; [|done]. unfold SetCandidate. destruct (normalizeCandidateServices c) as [n errs].
    by apply (guar_editor_atomic _ (fun w => running (mgr w)) e _ (fun w => version (mgr w))).
  - apply guar_bind; [|done]. unfold SetCandidateIfValid. destruct (normalizeCandidateServices c) as [n errs].
    destruct (negb _); [done|]. destruct (Validate n); [|done].
    by apply (guar_editor_atomic _ (fun w => running (mgr w)) e _ (fun w => version (mgr w))).
  - apply guar_bind; [|done]. apply guar_atomic. intros w. destruct (negb _); by constructor.
Qed.

Lemma outcome_engine_ok w good out w' : engine_ok w -> (forall c, good c -> Validate c = []) -> outcome w true good out w' ->
  engine_ok w' /\ num w <= num w'.
Proof.
  intros [H1 H2 H3 H4] Hgood. destruct out as [v [err|]]; cbn.
  - intros [_ [R1 R2 R3 R4 _]]. unfold num in *. split; [|by rewrite R2].
    constructor; unfold num; rewrite ?R1, ?R2, ?R3; try done.
    destruct (attempted err) as [[taken restored]|]; [|by rewrite R4].
    destruct R4 as (_ & c & _ & ->). right. exists restored. by rewrite last_app.
  - intros (c & Hc & [P1 P2 P3 P4 P5 P6 P7]).
    split; [|unfold num in *; rewrite P4; lia]. constructor; unfold num in *.
    + rewrite P3. by apply Hgood.
    + rewrite P5. by intros p [= <-].
    + rewrite P4. lia.
    + right. exists true. by rewrite P7, last_app, P3, P4.
Qed.

Lemma history_engine_ok w0 w : history w0 w -> engine_ok w0 -> engine_ok w /\ num w0 <= num w.
Proof.
  intros Hh H0. induction Hh as [| w op env Hh IH Henv]; [done|]. destruct IH as [Hok Hle].
  assert (Hstep : engine_ok (run_final _ (run (perform op) env w)) /\ num w <= num (run_final _ (run (perform op) env w)));
    [|destruct Hstep; split; [done | lia]].
  pose proof (eo_number _ Hok) as Hn.
  assert (Heditor : match op with DoCommit _ _ _ _ _ | DoRollback _ _ _ _ => False | _ => True end -> editor_rely w (run_final _ (run (perform op) env w))).
  { intros Hop. exact (wp_sound editor_rely _ _ [] w env Henv (wp_guar editor_rely _ [] w w (guar_editor_op op Hop) ltac:(reflexivity))). }
  destruct op as [c e | c e | valid | c valid | author comment expected apply e | author comment apply e].
  1-4: specialize (Heditor I); split; [by eapply engine_ok_rely | unfold num; by rewrite (er_version _ _ Heditor)].
  - refine (wp_sound editor_rely _ (fun _ _ w' => engine_ok w' /\ num w <= num w') [] w env Henv _). apply wp_bind.
    eapply wp_mono; [|by apply wp_commit]. intros out tr w' Ho. cbn.
    eapply outcome_engine_ok; [done | | exact Ho]. by intros c [Hv _].
  - refine (wp_sound editor_rely _ (fun _ _ w' => engine_ok w' /\ num w <= num w') [] w env Henv _). apply wp_bind.
    eapply wp_mono; [|by apply (wp_rollback editor_rely (fun _ _ H => H))]. intros out tr w' [Ho _]. cbn.
    eapply outcome_engine_ok; [done | | exact Ho]. apply (eo_previous _ Hok).
Qed.

(** C11. Along any sequence of candidate edits, commits and rollbacks, with editor calls
    interleaved, the engine's running configuration and rollback target are valid, the
    version never goes back, and the last activation the kernel was asked for is
    exactly the running configuration under its version, failed attempts included. *)
Theorem engine_history w0 w : history w0 w -> engine_ok w0 -> engine_ok w /\ num w0 <= num w.
Proof. apply history_engine_ok. Qed.

(** ** The VALID badge *)

(** The calls of the API process on its editor. *)
Inductive EditorOp : Type :=
| EdSetCandidate (c : Config) (e : EditorEnv)
| EdSetCandidateIfValid (c : Config) (e : EditorEnv)
| EdMarkFor (c : Config) (valid : bool)
| EdSyncRunning (c : Config) (v : ConfigVersion) (e : EditorEnv)
| EdSyncRollback (c : Config) (v : ConfigVersion) (e : EditorEnv)
| EdCommit (author comment : string) (expected : Z) (apply : option (nat -> Config -> bool)) (e : PersistEnv).

Definition edit (op : EditorOp) : MG unit :=
  match op with
  | EdSetCandidate c e => _ ← SetCandidate c e; mret tt
  | EdSetCandidateIfValid c e => _ ← SetCandidateIfValid c e; mret tt
  | EdMarkFor c valid => _ ← MarkCandidateValidationFor c valid; mret tt
  | EdSyncRunning c v e => _ ← SyncRunning c v e; mret tt
  | EdSyncRollback c v e => _ ← SyncRollback c v e; mret tt
  | EdCommit author comment expected apply e => _ ← CommitWithApply author comment expected apply e; mret tt
  end.

(** The configurations a call vouches for: the one a check passed, or the engine's. *)
Definition vouches (op : EditorOp) (c : Config) : Prop :=
  match op with
  | EdMarkFor c' true | EdSyncRunning c' _ _ | EdSyncRollback c' _ _ => c = c'
  | _ => False
  end.

Section badge.
Variable G : string -> Prop.

Definition badge_ok (w : World) : Prop :=
  va_checked (validation (mgr w)) = true -> va_valid (validation (mgr w)) = true -> G (va_checksum (validation (mgr w))).

Definition badge_rely (w w' : World) : Prop := badge_ok w -> badge_ok w'.

#[local] Instance badge_rely_preorder : PreOrder badge_rely.
Proof. unfold badge_rely. split; [by intros w | intros ???; auto]. Qed.

Lemma badge_same w w' : validation (mgr w') = validation (mgr w) -> badge_rely w w'.
Proof. unfold badge_rely, badge_ok. by intros ->. Qed.

Lemma persistEditor_mgr c r v e w : mgr (persistEditorLocked c r v e w).1 = mgr w.
Proof. unfold persistEditorLocked. by repeat case_match. Qed.

Lemma guar_badge_edit c r e (g : World -> ConfigVersion) (n : Config) (a b : list ConfigError) :
  guar badge_rely (atomic (fun w => let '(w, ok) := persistEditorLocked c (r w) (g w) e w in
    if negb ok then (w, a) else (on_mgr (fun m => m <| candidate := n |> <| validation := validation_zero |>) w, b))).
Proof.
  apply guar_atomic. intros w. pose proof (persistEditor_mgr c (r w) (g w) e w) as Hp.
  destruct (persistEditorLocked _ _ _ _ _) as [w' ok]. cbn [fst] in Hp. destruct ok; cbn; [|apply badge_same; by rewrite Hp].
  by intros _.
Qed.

Hypothesis G_acceptable : forall c, acceptable c -> G (configDigest c).

Lemma guar_badge_commit author comment expected apply e : guar badge_rely (CommitWithGeneration author comment expected apply e).
Proof using Type*.
  unfold CommitWithGeneration. apply guar_bind; [by apply guar_peek; apply _|]. intros s.
  destruct (admissible_commit s expected) as [[next sum]|err] eqn:Ea; [|done].
  assert (Hact : forall c n, guar badge_rely (activate apply c n)).
  { intros c n. unfold activate. destruct apply; [|done]. apply guar_atomic. intros w. by apply badge_same. }
  apply guar_bind; [apply Hact|]. intros activated. destruct (negb activated); [by apply guar_bind; [apply Hact|]|].
  apply guar_bind; [by apply guar_peek; apply _|]. intros now. apply guar_bind.
  { apply guar_atomic. intros w. destruct (Marshal _); [|done]. destruct (replace_running _ _ _). by apply badge_same. }
  intros ok. destruct (negb ok); [destruct apply; [by apply guar_bind; [apply Hact|] | done]|].
  apply guar_bind; [|done]. intros w. split; [|done]. intros _ _ _. cbn. apply G_acceptable.
  revert Ea. unfold admissible_commit, acceptable. destruct (negb _); [done|].
  destruct (Validate _); [|done]. destruct (ExactDuplicatePolicyErrorsForConfig _); [|done]. by destruct (M3UnreachablePolicyErrors _).
Qed.

Lemma guar_badge_op op : (forall c, vouches op c -> G (configDigest c)) -> guar badge_rely (edit op).
Proof using Type*.
  intros Hv. destruct op as [c e | c e | c valid | c v e | c v e | author comment expected apply e]; cbn [edit]; (apply guar_bind; [|done]).
  - unfold SetCandidate. destruct (normalizeCandidateServices c) as [n errs].
    by apply (guar_badge_edit _ (fun w => running (mgr w)) e (fun w => version (mgr w))).
  - unfold SetCandidateIfValid. destruct (normalizeCandidateServices c) as [n errs].
    destruct (negb _); [done|]. destruct (Validate n); [|done].
    by apply (guar_badge_edit _ (fun w => running (mgr w)) e (fun w => version (mgr w))).
  - apply guar_atomic. intros w. destruct (negb _); [done|]. cbn. intros _ _ Hvalid. cbn in *. subst valid. by apply Hv.
  - apply guar_atomic. intros w. unfold badge_rely, badge_ok. cbn beta zeta. rewrite persistEditor_mgr. cbn.
    intros Hw. destruct (bool_decide (configDigest (candidate (mgr w)) = _)); cbn; case_bool_decide; cbn; auto; intros; by apply Hv.
  - apply guar_atomic. intros w. unfold badge_rely, badge_ok. cbn beta zeta. rewrite persistEditor_mgr. cbn. intros; by apply Hv.
  - apply guar_badge_commit.
Qed.
End badge.

(** The VALID badge is earned.  In any interleaving of editor calls that starts
    without a recorded check, when the candidate is shown as VALID its digest is that of
    a configuration that a check vouched for, that came from the engine, or that a
    commit had accepted; an edit can never inherit the badge of another revision. *)
Theorem badge_earned ops w w' pool candidateChecksum checkedChecksum b :
  va_checked (validation (mgr w)) = false ->
  rtc pool_step (w, edit <$> ops) (w', pool) ->
  candidateValidationLocked (mgr w') = (StateValid, candidateChecksum, checkedChecksum, b) ->
  exists c, configDigest c = configDigest (candidate (mgr w')) /\ (Exists (fun op => vouches op c) ops \/ acceptable c).
Proof.
  intros Hfresh Hsteps Hbadge.
  set (G := fun d => exists c, configDigest c = d /\ (Exists (fun op => vouches op c) ops \/ acceptable c)).
  eapply (pool_guar (badge_rely G)) in Hsteps as [HR _].
  - cbn [fst] in HR. specialize (HR ltac:(unfold badge_ok; by rewrite Hfresh)).
    unfold candidateValidationLocked in Hbadge. destruct (va_checked (validation (mgr w'))) eqn:Ec; cbn [andb] in Hbadge.
    2: { by repeat case_match. }
    case_bool_decide as Ed; [|by repeat case_match]. destruct (va_valid (validation (mgr w'))) eqn:Ev; [|done].
    rewrite <- Ed. by apply HR.
  - apply Forall_fmap, Forall_forall. intros op Hop. apply guar_badge_op.
    + intros c Hc. exists c. split; [done | by right].
    + intros c Hc. exists c. split; [done|]. left. apply Exists_exists. by exists op.
  Unshelve. unfold badge_rely. split; [by intros ? | intros ???; auto].
Qed.

(** ** Restarts *)

Definition reread (w : World) : FileRead := match running_file w with Some data => FileData data | None => FileNotExist end.

Section restart.
Context {json_wf : RunningFile -> Prop} {JRL : JSONLaws JR json_wf}.

Lemma load_published c v p payload initial :
  json_wf (mkRunningFile (Some c) (Some v) (Some p)) -> Marshal (mkRunningFile (Some c) (Some v) (Some p)) = Some payload ->
  Validate c = [] -> Validate p = [] ->
  NewManager true initial (FileData payload) = Ok (mkManager c c v (Some p) validation_zero false).
Proof using JRL.
  intros Hwf Hm Hc Hp. unfold NewManager, load. cbn [negb]. rewrite (Unmarshal_Marshal _ _ Hwf Hm). cbn [rf_Config rf_Version rf_Previous default].
  by rewrite (bool_decide_eq_true_2 _ Hc), (bool_decide_eq_true_2 _ Hp).
Qed.

(** What a commit published is what the engine starts with next time: reading the
    state directory back gives the same running configuration, version and rollback
    target, and the candidate starts from the running configuration. *)
Theorem commit_survives_restart author comment expected apply e env w v initial :
  within editor_rely env -> engine_ok w ->
  let r := run (CommitWithGeneration author comment expected apply e) env w in
  let m := mgr (run_final _ r) in
  run_result _ r = (v, None) -> json_wf (mkRunningFile (Some (running m)) (Some v) (Some (running (mgr w)))) ->
  NewManager true initial (reread (run_final _ r)) = Ok (mkManager (running m) (running m) v (Some (running (mgr w))) validation_zero false) /\
  LoadRunningFile (reread (run_final _ r)) = Ok (running m, v).
Proof using JRL.
  intros Henv Hok. cbn zeta. intros Hr Hwf.
  pose proof (wp_sound editor_rely _ _ [] w env Henv (wp_commit author comment expected apply e w (eo_number _ Hok))) as Ho.
  cbn zeta in Ho. rewrite Hr in Ho. cbn [outcome] in Ho. destruct Ho as (c & (Hvalid & _) & [_ Hsum Er _ _ (payload & Hm & Hf) _]).
  rewrite Er in *. unfold reread. rewrite Hf. split; [apply load_published; [done | done | done | apply Hok]|].
  unfold LoadRunningFile. rewrite (Unmarshal_Marshal _ _ Hwf Hm). cbn [rf_Config rf_Version].
  rewrite (bool_decide_eq_true_2 _ Hvalid), Hsum. cbn [negb].
  rewrite (bool_decide_eq_true_2 (cv_Checksum v = cv_Checksum v) eq_refl). by rewrite andb_false_r.
Qed.

(** C39. A commit may report failure although its file is in place: when the last step of
    [persist], the chmod, fails after the rename, the caller is told that nothing was
    committed, the kernel is taken back, and the running configuration stays, but the
    next start of the engine loads the candidate as the next version. *)
Theorem failed_commit_reappears author comment apply w v payload sum initial :
  engine_ok w -> num w + 1 < 2 ^ 64 -> acceptable (candidate (mgr w)) -> checksum (candidate (mgr w)) = Some sum ->
  v = mkConfigVersion (num w + 1) author (wall w) comment sum ->
  json_wf (mkRunningFile (Some (candidate (mgr w))) (Some v) (Some (running (mgr w)))) ->
  Marshal (mkRunningFile (Some (candidate (mgr w))) (Some v) (Some (running (mgr w)))) = Some payload ->
  (forall n c g, apply n c g = true) ->
  let r := run (CommitWithGeneration author comment (num w) (Some apply) (mkPersistEnv true true true true true true true false)) [] w in
  run_result _ r = (version (mgr w), Some (PersistFailed (Some true))) /\
  last (applied (run_final _ r)) = Some (running (mgr w), num w, true) /\
  mgr (run_final _ r) = mgr w /\
  NewManager true initial (reread (run_final _ r)) =
    Ok (mkManager (candidate (mgr w)) (candidate (mgr w)) v (Some (running (mgr w))) validation_zero false).
Proof using JRL.
  intros Hok Hlt (Hv & Hd & Hu) Hsum -> Hwf Hm Happly. cbn zeta.
  assert (Ha : admissible_commit (mkSnapshot (version (mgr w)) (candidate (mgr w)) (running (mgr w))) (num w) = Ok (num w + 1, sum)).
  { unfold admissible_commit. cbn [sn_version sn_candidate]. fold (num w). rewrite Z.eqb_refl, Hv, Hd, Hu, Hsum. cbn [negb].
    unfold incrementVersion. pose proof (eo_number _ Hok). destruct (Z.eqb_spec (num w) (2 ^ 64 - 1)); [lia|]. by rewrite u64_small by lia. }
  unfold CommitWithGeneration. cbn [run snapshot peek mbind prog_mbind prog_bind interfere run_result run_final Datatypes.id tail].
  rewrite Ha. cbn. rewrite !Happly. cbn. rewrite Hm. cbn. rewrite Happly. cbn. split_and!; [done | by rewrite last_snoc | by destruct w |].
  apply load_published; [done | done | done | apply Hok].
Qed.
End restart.
End manager.

(** ** Examples *)

(** A codec that knows one value; it meets the laws for that value. *)
Definition demo_JSON {A : Type} (a : A) : JSON A := {|
  Marshal _ := Some [1];
  Unmarshal p := if bool_decide (p = [1]) then Some a else None
|}.

Lemma demo_JSONLaws {A : Type} (a : A) : JSONLaws (demo_JSON a) (fun b => b = a).
Proof.
  split; cbn.
  - intros b p -> [= <-]. done.
  - intros p b. case_bool_decide; [by intros [= <-] | done].
  - by intros b p [= <-].
Qed.

Definition demo_candidate : Config := ex_config "lan" "10.0.0.0/24".
Definition demo_digest : string := hex_EncodeToString (Sum256 [1]).
Definition demo_version : ConfigVersion := mkConfigVersion 4 "ops" 77 "open the shop" demo_digest.
Definition demo_file : RunningFile := mkRunningFile (Some demo_candidate) (Some demo_version) (Some Defaults).
Definition demo_world : World :=
  mkWorld (mkManager Defaults demo_candidate (mkConfigVersion 3 "ops" 0 "" "") (Some demo_candidate) validation_zero false)
    None None [] 77.

Definition persist_ok : PersistEnv := mkPersistEnv true true true true true true true true.
Definition always : Apply := fun _ _ _ => true.

#[local] Instance demo_JC : JSON Config := demo_JSON demo_candidate.
#[local] Instance demo_JR : JSON RunningFile := demo_JSON demo_file.
#[local] Instance demo_JE : JSON CandidateFile := demo_JSON (mkCandidateFile 1 None None None).

Lemma demo_engine_ok : engine_ok demo_world.
Proof.
  constructor; [vm_compute; reflexivity | intros p [= <-]; vm_compute; reflexivity | split; [vm_compute; discriminate | vm_compute; reflexivity] | by left].
Qed.

Definition demo_commit : MG (ConfigVersion * option ManagerError) := CommitWithGeneration "ops" "open the shop" 3 (Some always) persist_ok.

Lemma Commit_atomic_witness :
  run_result _ (run demo_commit [] demo_world) = (demo_version, None) /\
  exists m, head (run_moments _ (run demo_commit [] demo_world)) = Some m /\
  outcome demo_world true (fun c => c = candidate (mgr m) /\ acceptable c /\ 3 = num demo_world)
    (run_result _ (run demo_commit [] demo_world)) (run_final _ (run demo_commit [] demo_world)).
Proof.
  split; [vm_compute; reflexivity|].
  destruct (Commit_atomic "ops" "open the shop" 3 (Some always) persist_ok [] demo_world ltac:(constructor) (eo_number _ demo_engine_ok))
    as (m & Hm & _ & Ho). exists m. split; [exact Hm | exact Ho].
Defined.

Lemma Rollback_atomic_witness :
  (run_result _ (run (RollbackWithGeneration "ops" "back" (Some always) persist_ok) [] demo_world)).2 = None /\
  outcome demo_world true (fun c => Some demo_candidate = Some c)
    (run_result _ (run (RollbackWithGeneration "ops" "back" (Some always) persist_ok) [] demo_world))
    (run_final _ (run (RollbackWithGeneration "ops" "back" (Some always) persist_ok) [] demo_world)).
Proof.
  split; [vm_compute; reflexivity|].
  refine (proj1 (Rollback_atomic "ops" "back" (Some always) persist_ok [] demo_world _ _)); [constructor | apply demo_engine_ok].
Defined.

Lemma engine_history_witness : exists w, history demo_world w /\ num w = 4 /\ engine_ok w.
Proof.
  exists (run_final _ (run (perform (DoCommit "ops" "open the shop" 3 always persist_ok)) [] demo_world)).
  assert (Hh : history demo_world (run_final _ (run (perform (DoCommit "ops" "open the shop" 3 always persist_ok)) [] demo_world)))
    by (apply history_step; [constructor | constructor]).
  split; [exact Hh|]. split; [vm_compute; reflexivity|]. exact (proj1 (engine_history _ _ Hh demo_engine_ok)).
Defined.

Lemma badge_earned_witness : exists w' c, rtc pool_step (demo_world, edit <$> [EdMarkFor demo_candidate true]) (w', [Ret tt]) /\
  configDigest c = configDigest (candidate (mgr w')).
Proof.
  set (w' := run_final _ (run (edit (EdMarkFor demo_candidate true)) [] demo_world)).
  assert (Hstep : rtc pool_step (demo_world, edit <$> [EdMarkFor demo_candidate true]) (w', [Ret tt]))
    by exact (rtc_once _ _ (pool_act _ [] _ _ [])).
  destruct (badge_earned [EdMarkFor demo_candidate true] demo_world w' [Ret tt] demo_digest demo_digest true) as (c & Hc & _).
  - reflexivity.
  - exact Hstep.
  - vm_compute. reflexivity.
  - exists w', c. split; [exact Hstep | exact Hc].
Defined.

Lemma commit_survives_restart_witness :
  LoadRunningFile (reread (run_final _ (run demo_commit [] demo_world))) = Ok (demo_candidate, demo_version).
Proof.
  refine (proj2 (commit_survives_restart (JRL := demo_JSONLaws demo_file) "ops" "open the shop" 3 (Some always) persist_ok [] demo_world
    demo_version Defaults _ demo_engine_ok _ _)).
  - constructor.
  - vm_compute. reflexivity.
  - vm_compute. reflexivity.
Defined.

Lemma failed_commit_reappears_witness :
  let r := run (CommitWithGeneration "ops" "open the shop" 3 (Some always) (mkPersistEnv true true true true true true true false)) [] demo_world in
  running (mgr (run_final _ r)) = Defaults /\
  NewManager true Defaults (reread (run_final _ r)) = Ok (mkManager demo_candidate demo_candidate demo_version (Some Defaults) validation_zero false).
Proof.
  destruct (failed_commit_reappears (JRL := demo_JSONLaws demo_file) "ops" "open the shop" always demo_world demo_version [1] demo_digest Defaults)
    as (_ & _ & Hm & Hn).
  - exact demo_engine_ok.
  - vm_compute. reflexivity.
  - split_and!; vm_compute; reflexivity.
  - vm_compute. reflexivity.
  - vm_compute. reflexivity.
  - reflexivity.
  - reflexivity.
  - done.
  - split; [exact (f_equal running Hm) | exact Hn].
Defined.

(** Normalising lower-cases the zones of policies while zone identifiers keep their
    case, so a valid configuration with an upper-case zone cannot become a candidate. *)
Theorem uppercase_zone_refused e env w :
  Validate (ex_config "LAN" "10.0.0.0/24") = [] /\
  run_result _ (run (SetCandidateIfValid (ex_config "LAN" "10.0.0.0/24") e) env w) =
    [mkConfigError "web" "policy references unknown zone lan"].
Proof.
  split; [vm_compute; reflexivity|]. unfold SetCandidateIfValid.
  set (n := normalizeCandidateServices (ex_config "LAN" "10.0.0.0/24")). vm_compute in n. subst n.
  cbv iota beta. set (x := Validate _). vm_compute in x. subst x. reflexivity.
Qed.
