(* ===== verification/Service.v ===== *)
(** * The privileged service of the engine

    [internal/engine/runtime_service.go]: the calls of the management API that
    change the configuration.  A commit or rollback publishes through the
    configuration manager (with the kernel as callback), then switches the
    runtime to the compiled program, then runs the inspection lifecycle and
    removes the activation journal; a failure after the publication is
    compensated by a rollback under a newer generation.  The state joins the
    manager's [World] and the [Runtime]; [applyMu] makes the two operations
    exclude each other, while the runtime's goroutines go on. *)

From S2P Require Import Prelude GoStr Netip Domain Flow SessionStore Config TLSExclusion PolicyCheck Validate Validator.
From S2P Require Import Connectivity Codec Epoch EventRing Interleave Runtime Mark GateEvidence Manager.

(** ** Data *)

(** The callbacks of the engine command. *)
Inductive HookName : Type := HookBefore | HookAfter | HookFinalize.

(** What the [n]-th callback answers. *)
Definition Hook : Type := nat -> Config -> Z -> bool.

(** [M2CompileOptions]: the cache metadata of the applied ruleset. *)
Record M2CompileOptions : Type := mkM2CompileOptions { co_CacheEnabled : bool; co_Epoch : Z; co_ZoneSlots : gmap string Z }.

Record RuntimeServiceAdapter : Type := mkAdapter {
  rsa_world : World;                              (** [Config], with its files and the kernel *)
  rsa_runtime : Runtime;
  receipts : gmap string ConfigVersion;
  hookCalls : list (HookName * Config * Z * bool) (** with what they answered *)
}.

#[global] Instance eta_Adapter : Eta RuntimeServiceAdapter := fun s =>
  mkAdapter (rsa_world s) (rsa_runtime s) (receipts s) (hookCalls s).

(** How the engine command wired the adapter: which parts are not nil. *)
Record Wiring : Type := mkWiring {
  haveConfig : bool;
  haveRuntime : bool;
  wiredApply : option Apply;                      (** [ApplyGeneration], or [Apply] *)
  BeforeActivate : option Hook;
  AfterActivate : option Hook;
  FinalizeActivation : option Hook;
  CacheOptions : option (M2CompileOptions * Z)
}.

Abbreviation SV := (Prog RuntimeServiceAdapter).

Definition put_world (w : World) (s : RuntimeServiceAdapter) : RuntimeServiceAdapter := s <| rsa_world := w |>.
Definition put_runtime (r : Runtime) (s : RuntimeServiceAdapter) : RuntimeServiceAdapter := s <| rsa_runtime := r |>.
Definition on_config {A} (p : MG A) : SV A := lift rsa_world put_world p.
Definition on_engine {A} (p : RT A) : SV A := lift rsa_runtime put_runtime p.

Inductive RestoreError : Type :=
| RestoreRefused (e : ManagerError)
| RestoreCompile (e : CompileError)
| RestoreActivation (e : RuntimeError)
| RestoreLifecycle
| RestoreFinalize.

Inductive ServiceError : Type :=
| ActivationUnavailable
| ServiceDuplicates (errs : list DuplicateError)
| ServiceUnreachable (errs : list UnreachableError)
| ServiceInvalid (errs : list ConfigError)
| ServiceInvalidCandidate
| ServiceExhausted
| ServiceCompile (e : CompileError)
| PreflightFailed
| NoRollbackTarget
| PublishRefused (e : ManagerError) (finalized : bool)
| CompileAfterPublish (e : CompileError) (restore : option RestoreError)
| RuntimeActivation (e : RuntimeError) (restore : option RestoreError)
| LifecycleFailed (restore : option RestoreError)
| FinalizeFailed (restore : option RestoreError).

Definition compileRuntimeProgram (value : Config) (generation : Z) : result CompileError Program :=
  CompileForCapabilities value generation (mkCapabilities true true).

(** [UnreachablePolicyErrorsForConfig] of package [config]. *)
Definition UnreachablePolicyErrorsForConfig (c : Config) : list UnreachableError := M3UnreachablePolicyErrors c.

Section service.
Context {JC : JSON Config} {JR : JSON RunningFile} {JE : JSON CandidateFile}.
Variable wiring : Wiring.

(** ** Callbacks and the inspection gate *)

Definition call_hook (name : HookName) (hook : Hook) (value : Config) (generation : Z) : SV bool :=
  atomic (fun s =>
    let ok := hook (length (hookCalls s)) value generation in
    (s <| hookCalls ::= fun l => l ++ [(name, value, generation, ok)] |>, ok)).

Definition finalizeConfig (value : Config) (generation : Z) : SV bool :=
  match FinalizeActivation wiring with None => mret true | Some hook => call_hook HookFinalize hook value generation end.

Definition pauseInspection : SV bool :=
  if negb (haveRuntime wiring) then mret false
  else
    current ← on_engine (peek inspection);
    _ ← (if current : bool then on_engine (modify (fun r => r <| inspectionCalls ::= fun l => l ++ [BeginActivation] |>)) else mret tt);
    mret current.

Definition resumeInspection (current : bool) (changed : list RuntimeSession) : SV unit :=
  if negb current then mret tt
  else on_engine (modify (fun r => r <| inspectionCalls ::= fun l => l ++ EndActivation :: (OnSessionChanged <$> changed) |>)).

(** ** Compensation *)

Definition restoreAfterActivationFailure (author comment : string) (e : PersistEnv)
  : SV (ConfigVersion * list RuntimeSession * option RestoreError) :=
  out ← on_config (RollbackWithGeneration author comment (wiredApply wiring) e);
  match out with
  | (restored, Some err) => mret (restored, [], Some (RestoreRefused err))
  | (restored, None) =>
      if negb (haveRuntime wiring) then mret (restored, [], None)
      else
        value ← on_config Running;
        match compileRuntimeProgram value (cv_Version restored) with
        | Err err => mret (restored, [], Some (RestoreCompile err))
        | Ok p =>
            out ← on_engine (activateWhileInspectionPaused p (cv_Version restored) comment);
            mret (restored, out.1, RestoreActivation <$> out.2)
        end
  end.

Definition finishRestoredActivation (restored : ConfigVersion) (lifecycle : bool) : SV (option RestoreError) :=
  ok ← match AfterActivate wiring with
       | Some hook => if lifecycle then value ← on_config Running; call_hook HookAfter hook value (cv_Version restored) else mret true
       | None => mret true
       end;
  if negb ok then mret (Some RestoreLifecycle)
  else
    value ← on_config Running;
    ok ← finalizeConfig value (cv_Version restored);
    mret (if ok : bool then None else Some RestoreFinalize).

Definition recoverPublishedFailure (author comment : string) (e : PersistEnv) (cause : option RestoreError -> ServiceError)
  : SV (ConfigVersion * option ServiceError) :=
  gate ← pauseInspection;
  out ← restoreAfterActivationFailure author comment e;
  let '(restored, changed, restoreErr) := out in
  _ ← resumeInspection gate changed;
  restoreErr ← match restoreErr with Some err => mret (Some err) | None => finishRestoredActivation restored true end;
  mret (restored, Some (cause restoreErr)).

(** The compensation inside a commit or rollback whose runtime half failed; [gate] is
    the inspection gate it already holds. *)
Definition restore_in_place (gate : bool) (author comment : string) (e : PersistEnv) (version : ConfigVersion)
    (cause : option RestoreError -> ServiceError) : SV (ConfigVersion * option ServiceError) :=
  out ← restoreAfterActivationFailure author comment e;
  let '(restored, changed, restoreErr) := out in
  _ ← resumeInspection gate changed;
  restoreErr ← match restoreErr with Some err => mret (Some err) | None => finishRestoredActivation restored false end;
  mret (match restoreErr with None => restored | Some _ => version end, Some (cause restoreErr)).

(** ** What both operations share *)

(** The receipts are capped; [victim] is the entry the map iteration meets first. *)
Definition remember_receipt (victim : gmap string ConfigVersion -> option string) (operationID : string) (version : ConfigVersion) : SV unit :=
  if bool_decide (operationID = "") then mret tt
  else modify (fun s =>
    let kept := if 1024 <=? Z.of_nat (size (receipts s))
                then match victim (receipts s) with Some id => delete id (receipts s) | None => receipts s end else receipts s in
    s <| receipts := <[operationID := version]> kept |>).

Definition receipt (operationID : string) : SV (option ConfigVersion) :=
  if bool_decide (operationID = "") then mret None else peek (fun s => receipts s !! operationID).

(** The manager refused: the journal of the version that stays is removed. *)
Definition publish_refused (gate : bool) (version : ConfigVersion) (err : ManagerError) : SV (ConfigVersion * option ServiceError) :=
  value ← on_config Running;
  current ← on_config Version;
  finalized ← finalizeConfig value (cv_Version current);
  _ ← resumeInspection gate [];
  mret (version, Some (PublishRefused err finalized)).

(** The tail of both operations, once runtime and kernel agree, with the comments
    of the versions that would compensate. *)
Definition complete_activation (victim : gmap string ConfigVersion -> option string) (author operationID afterComment finalizeComment : string)
    (version : ConfigVersion) (e : PersistEnv) : SV (ConfigVersion * option ServiceError) :=
  live ← match AfterActivate wiring with
         | None => mret true
         | Some hook => value ← on_config Running; call_hook HookAfter hook value (cv_Version version)
         end;
  if negb live then recoverPublishedFailure author afterComment e LifecycleFailed
  else
    value ← on_config Running;
    finalized ← finalizeConfig value (cv_Version version);
    if negb finalized then recoverPublishedFailure author finalizeComment e FinalizeFailed
    else _ ← remember_receipt victim operationID version; mret (version, None).

Definition activation_wired : bool := haveConfig wiring && match wiredApply wiring with Some _ => true | None => false end.

(** ** Commit *)

(** The checks of the submitted configuration, before anything is changed. *)
Definition admit_desired (desired : Config) (e : EditorEnv) : SV (option ServiceError) :=
  match ExactDuplicatePolicyErrorsForConfig desired with
  | (_ :: _) as errs => mret (Some (ServiceDuplicates errs))
  | [] =>
      match UnreachablePolicyErrorsForConfig desired with
      | (_ :: _) as errs => mret (Some (ServiceUnreachable errs))
      | [] =>
          match Validate desired with
          | (_ :: _) as errs => mret (Some (ServiceInvalid errs))
          | [] =>
              errs ← on_config (SetCandidate desired e);
              mret (if bool_decide (errs = []) then None else Some ServiceInvalidCandidate)
          end
      end
  end.

(** The program is compiled and the sensors are asked before the kernel changes. *)
Definition prepare_commit (desired : Config) (expected : Z) : SV (result ServiceError (option Program)) :=
  let exhausted := expected =? 2 ^ 64 - 1 in
  match (if haveRuntime wiring
         then if exhausted then Err ServiceExhausted
              else match compileRuntimeProgram desired (u64 (expected + 1)) with
                   | Ok p => Ok (Some p)
                   | Err err => Err (ServiceCompile err)
                   end
         else Ok None) with
  | Err err => mret (Err err)
  | Ok compiled =>
      match BeforeActivate wiring with
      | None => mret (Ok compiled)
      | Some hook =>
          if exhausted then mret (Err ServiceExhausted)
          else
            ready ← call_hook HookBefore hook desired (u64 (expected + 1));
            mret (if ready : bool then Ok compiled else Err PreflightFailed)
      end
  end.

(** A refusal before the publication reports the running version. *)
Definition refuse_early (err : ServiceError) : SV (ConfigVersion * option ServiceError) :=
  version ← on_config Version; mret (version, Some err).

(** [Some] compiled program is switched in, [None] when there is no runtime. *)
Definition switch_runtime (compiled : option Program) (version : ConfigVersion) (reason : string)
  : SV (list RuntimeSession * option RuntimeError) :=
  match compiled with
  | None => mret ([], None)
  | Some p => on_engine (activateWhileInspectionPaused (p <| pr_Generation := cv_Version version |>) (cv_Version version) reason)
  end.

Definition CommitConfig (victim : gmap string ConfigVersion -> option string) (desired : Config) (expected : Z)
    (author comment operationID : string) (edit : EditorEnv) (e restore : PersistEnv) : SV (ConfigVersion * option ServiceError) :=
  if negb activation_wired then mret (version_zero, Some ActivationUnavailable)
  else
    known ← receipt operationID;
    match known with
    | Some version => mret (version, None)
    | None =>
        refusal ← admit_desired desired edit;
        match refusal with
        | Some err => refuse_early err
        | None =>
            prepared ← prepare_commit desired expected;
            match prepared with
            | Err err => refuse_early err
            | Ok compiled =>
                gate ← pauseInspection;
                out ← on_config (CommitWithGeneration author comment expected (wiredApply wiring) e);
                match out with
                | (version, Some err) => publish_refused gate version err
                | (version, None) =>
                    out ← switch_runtime compiled version "configuration generation changed";
                    match out with
                    | (_, Some err) =>
                        restore_in_place gate author "restore after runtime activation failure" restore version (RuntimeActivation err)
                    | (changed, None) =>
                        _ ← resumeInspection gate changed;
                        complete_activation victim author operationID "restore after inspection runtime activation failure"
                          "restore after activation finalization failure" version restore
                    end
                end
            end
        end
    end.

(** ** Rollback *)

(** [BeforeActivate] for the rollback target. *)
Definition prepare_rollback (targetGeneration : Z) : SV (option ServiceError) :=
  match BeforeActivate wiring with
  | None => mret None
  | Some hook =>
      if targetGeneration =? 0 then mret (Some ServiceExhausted)
      else
        target ← on_config RollbackTarget;
        match target with
        | None => mret (Some NoRollbackTarget)
        | Some target =>
            ready ← call_hook HookBefore hook target targetGeneration;
            mret (if ready : bool then None else Some PreflightFailed)
        end
  end.

Definition RollbackConfig (victim : gmap string ConfigVersion -> option string) (author comment operationID : string)
    (e restore : PersistEnv) : SV (ConfigVersion * option ServiceError) :=
  if negb activation_wired then mret (version_zero, Some ActivationUnavailable)
  else
    known ← receipt operationID;
    match known with
    | Some version => mret (version, None)
    | None =>
        gate ← pauseInspection;
        current ← on_config Version;
        refusal ← prepare_rollback (u64 (cv_Version current + 1));
        match refusal with
        | Some err => version ← on_config Version; _ ← resumeInspection gate []; mret (version, Some err)
        | None =>
            out ← on_config (RollbackWithGeneration author comment (wiredApply wiring) e);
            match out with
            | (version, Some err) => publish_refused gate version err
            | (version, None) =>
                value ← on_config Running;
                match (if haveRuntime wiring
                       then match compileRuntimeProgram value (cv_Version version) with Ok p => Ok (Some p) | Err err => Err err end
                       else Ok None) with
                | Err err => restore_in_place gate author "restore after rollback compile failure" restore version (CompileAfterPublish err)
                | Ok compiled =>
                    out ← switch_runtime compiled version "configuration rollback";
                    match out with
                    | (_, Some err) =>
                        restore_in_place gate author "restore after rollback activation failure" restore version (RuntimeActivation err)
                    | (changed, None) =>
                        _ ← resumeInspection gate changed;
                        complete_activation victim author operationID "restore after rollback inspection runtime failure"
                          "restore after rollback finalization failure" version restore
                    end
                end
            end
        end
    end.

(** ** Reads *)

Definition GetRunningConfig : SV (option (Config * ConfigVersion)) :=
  if negb (haveConfig wiring) then mret None
  else value ← on_config Running; version ← on_config Version; mret (Some (value, version)).

(** The rule that could have set the mark of a session. *)
Definition explains_mark (value : RuntimeSession) (rule : Rule) : bool :=
  bool_decide (ru_ID rule = rs_MatchedPolicyID value) && ru_Enabled rule && bool_decide (ru_Action rule = DecisionAllow) &&
  bool_decide (size (ru_SourceZones rule) = 1%nat) && bool_decide (size (ru_DestinationZones rule) = 1%nat) &&
  bool_decide (ToLower (rs_SourceZone value) ∈ ru_SourceZones rule) &&
  bool_decide (ToLower (rs_DestinationZone value) ∈ ru_DestinationZones rule).

Definition cache_candidate (value : RuntimeSession) : bool :=
  negb (rs_KernelMark value =? 0) && bool_decide (rs_CacheState value = CacheCached) &&
  bool_decide (rs_Decision value = DecisionAllow) && bool_decide (rs_EffectiveDecision value = DecisionAllow) &&
  negb (rs_Revoked value).

Definition cache_verified (options : M2CompileOptions) (appliedGeneration : Z) (program : Program) (value : RuntimeSession) : bool :=
  if negb (co_CacheEnabled options) || (co_Epoch options =? 0) || (appliedGeneration =? 0) ||
     negb (appliedGeneration =? pr_Generation program) || negb (rs_PolicyGeneration value =? appliedGeneration) then false
  else
    match co_ZoneSlots options !! rs_SourceZone value, co_ZoneSlots options !! rs_DestinationZone value with
    | Some src, Some dst =>
        match find (explains_mark value) (pr_Rules program) with
        | Some _ => CacheHit (rs_KernelMark value) (mkCacheMark (co_Epoch options) src dst) true
        | None => false
        end
    | _, _ => false
    end.

Definition withKernelCacheVerification (value : RuntimeSession) : SV RuntimeSession :=
  let value := value <| rs_KernelCacheVerified := false |> in
  match CacheOptions wiring with
  | None => mret value
  | Some (options, appliedGeneration) =>
      if negb (haveRuntime wiring) || negb (cache_candidate value) then mret value
      else
        program ← on_engine CurrentProgram;
        mret (value <| rs_KernelCacheVerified := cache_verified options appliedGeneration program value |>)
  end.

(** A page of sessions: the visible items are refreshed from the kernel and read again.
    [None] is the panic of [Query]. *)
Fixpoint verify_items (items : list RuntimeSession) : SV (list RuntimeSession) :=
  match items with
  | [] => mret []
  | item :: rest => item ← withKernelCacheVerification item; rest ← verify_items rest; mret (item :: rest)
  end.

Definition ListSessions (haveSource : bool) (get : RuntimeSession -> result SourceError ConntrackRecord * bool) (ctxDone : nat -> bool)
    (filter : SessionFilter) (page : Page) : SV (option (result string PageResult)) :=
  if negb (haveRuntime wiring) then mret (Some (Err "runtime unavailable"))
  else
    let query := on_engine (peek (fun r => Query (Store r) filter page (clock r))) in
    first ← query;
    match first with
    | None => mret None
    | Some found =>
        found ← (if haveSource && negb (bool_decide (pgr_Items found = [])) then
                   _ ← on_engine (RefreshPageCounters haveSource get ctxDone (pgr_Items found)); query
                 else mret (Some found));
        match found with
        | None => mret None
        | Some found =>
            items ← verify_items (pgr_Items found);
            mret (Some (Ok (mkPageResult items (pgr_Page found) (pgr_PageSize found) (pgr_Total found) (pgr_HasMore found)
                              (pgr_StoreRevision found) (pgr_SnapshotTime found))))
        end
    end.

(** [evidence] is what the gate service, when there is one, has on the session. *)
Definition GetSession (haveSource : bool) (answer : result SourceError ConntrackRecord) (ctxDone : bool)
    (evidence : option (list RequestGateEvidence)) (id : string) : SV (result string RuntimeSession) :=
  if negb (haveRuntime wiring) then mret (Err "runtime unavailable")
  else
    got ← on_engine (peek (fun r => Get (Store r) id));
    match got with
    | None => mret (Err (StoreError_message ErrSessionMissing))
    | Some value =>
        _ ← on_engine (RefreshSessionCounters haveSource value answer ctxDone);
        got ← on_engine (peek (fun r => Get (Store r) id));
        match got with
        | None => mret (Err (StoreError_message ErrSessionMissing))
        | Some value =>
            value ← withKernelCacheVerification value;
            mret (Ok (match evidence with Some l => value <| rs_RequestGate := l |> | None => value end))
        end
    end.

(** The calls that only forward to the runtime. *)
Definition forward {A} (p : RT A) : SV (result string A) :=
  if negb (haveRuntime wiring) then mret (Err "runtime unavailable") else a ← on_engine p; mret (Ok a).

Definition SessionStats : SV (result string RuntimeStats) := forward (peek Runtime_Stats).
Definition RevokeSession (evict : gmap string RuntimeSession -> option (string * RuntimeSession)) (id reason : string) := forward (RevokeContext evict id reason).
Definition AddTemporaryBlock (block : TemporaryBlock) := forward (AddTemporaryBlockContext block).
Definition RemoveTemporaryBlock (order : gmap string TemporaryBlock -> list (string * TemporaryBlock)) (indicator : string) :=
  forward (RemoveTemporaryBlockContext order indicator).
Definition ListTemporaryBlocks (order : gmap string TemporaryBlock -> list (string * TemporaryBlock)) : SV (result string (list TemporaryBlock)) :=
  forward (peek (Blocks order)).
Definition ReadRuntimeEvents (after max : Z) : SV (result string (list RuntimeEvent * Z * Z * string)) :=
  forward (page ← peek (fun r => Read (Events r) after max); stream ← peek (fun r => StreamID (Events r)); mret (page, stream)).

Record RuntimeHealth_ : Type := mkRuntimeHealth { rh_Status : string; rh_Message : string; rh_Generation : Z; rh_UpdatedAt : Time }.

Definition RuntimeHealth (haveSource : bool) (now : Time) : SV RuntimeHealth_ :=
  if negb (haveRuntime wiring) then mret (mkRuntimeHealth "degraded" "runtime unavailable" 0 now)
  else
    health ← on_engine (peek (Health haveSource));
    current ← on_engine CurrentGeneration;
    mret (mkRuntimeHealth (if health.1 : bool then "healthy" else "degraded") health.2 current now).
End service.
