(* ===== verification/ServiceProps.v ===== *)
(** * Properties of the privileged service

    Whatever the runtime's goroutines do meanwhile, a commit or rollback leaves
    the manager, the kernel and the runtime in step: the version in force is the
    generation of the active program, that program was compiled from the running
    configuration, and the kernel's last activation, answered without error, is that
    configuration.  A
    failure after the publication is compensated by the earlier configuration
    under a newer generation, and every way this can go wrong is in the error. *)

From S2P Require Import Prelude GoStr Netip Domain Flow SessionStore Config TLSExclusion PolicyCheck Validate Validator.
From S2P Require Import Connectivity Codec Epoch EventRing Interleave Runtime Mark GateEvidence Manager ManagerProps Service.

(** ** What runs beside a commit

    [applyMu] excludes other commits and rollbacks.  The goroutines of the
    runtime change sessions, blocks and counters, but only an activation changes
    the program and its generation, and only an activation opens or closes the
    inspection gate. *)
Definition gate_call (c : InspectionCall) : bool := match c with BeginActivation | EndActivation => true | _ => false end.
Definition gate_calls (r : Runtime) : list InspectionCall := filter (fun c => gate_call c = true) (inspectionCalls r).
Definition world_view (w : World) : Manager * option bytes * list (Config * Z * bool) := (mgr w, running_file w, applied w).
Definition policy_view (r : Runtime) : Z * Program * list InspectionCall := (generation r, program r, gate_calls r).
Definition service_view (s : RuntimeServiceAdapter) :=
  (world_view (rsa_world s), policy_view (rsa_runtime s), receipts s, hookCalls s).

Definition world_rely (w w' : World) : Prop := world_view w' = world_view w.
Definition policy_rely (r r' : Runtime) : Prop := policy_view r' = policy_view r.
Definition service_rely (s s' : RuntimeServiceAdapter) : Prop := service_view s' = service_view s.

#[global] Instance world_rely_preorder : PreOrder world_rely.
Proof. unfold world_rely. split; [done | intros ????; congruence]. Qed.
#[global] Instance policy_rely_preorder : PreOrder policy_rely.
Proof. unfold policy_rely. split; [done | intros ????; congruence]. Qed.
#[global] Instance service_rely_preorder : PreOrder service_rely.
Proof. unfold service_rely. split; [done | intros ????; congruence]. Qed.

Lemma world_editor w w' : world_rely w w' -> editor_rely w w'.
Proof. unfold world_rely, world_view. intros [= E1 E2 E3]. by constructor; rewrite ?E1. Qed.

(** ** The runtime's part of an activation *)

Abbreviation keeps := (guar policy_rely).

Lemma keeps_store {A} (op : RuntimeStore -> Time -> RuntimeStore * A) : keeps (store_op op).
Proof. apply guar_atomic. intros r. by destruct (op (Store r) (clock r)). Qed.

Lemma keeps_modify (f : Runtime -> Runtime) : (forall r, policy_rely r (f r)) -> keeps (modify f).
Proof. intros Hf r. by split. Qed.

Lemma keeps_peek {A} (g : Runtime -> A) : keeps (peek g).
Proof. apply guar_peek, _. Qed.

Ltac keep_step :=
  lazymatch goal with
  | |- guar _ (_ ≫= _) => apply guar_bind
  | |- guar _ (mret _) => exact I
  | |- guar _ (store_op _) => apply keeps_store
  | |- guar _ (peek _) => apply keeps_peek
  | |- guar _ CurrentGeneration => apply keeps_peek
  | |- guar _ (publish _) => by apply keeps_modify
  | |- guar _ (setDegraded _) => by apply keeps_modify
  | |- guar _ (modify _) => by apply keeps_modify
  | |- guar _ (default _ ?x) => destruct x eqn:?; cbn [default]
  | |- guar _ (match ?x with _ => _ end) => destruct x
  | |- forall _, _ => intros ?
  | |- guar _ _ => solve [eauto]
  end.

Lemma keeps_evaluate n id : keeps (evaluate n id).
Proof.
  induction n as [| n IH]; cbn [evaluate]; unfold evaluate_once; repeat keep_step; try done; by simplify_eq.
Qed.

Lemma keeps_reinvalidate_all p g reason l : keeps (reinvalidate_all p g reason l).
Proof.
  pose proof (keeps_evaluate 2).
  induction l as [| v l IH]; cbn [reinvalidate_all]; unfold reinvalidate, evaluateObserved, Runtime_Evaluate; repeat keep_step.
Qed.

Lemma policy_rely_generation r r' : policy_rely r r' -> generation r' = generation r.
Proof. by intros [= ? ? ?]. Qed.

Lemma wp_activation p gen reason r tr :
  0 < gen -> generation r < gen ->
  wp policy_rely (activateWhileInspectionPaused p gen reason)
    (fun out _ r' => out.2 = None /\ policy_view r' = (gen, p <| pr_Generation := gen |>, gate_calls r)) tr r.
Proof.
  intros H0 Hlt. unfold activateWhileInspectionPaused. destruct (Z.eqb_spec gen 0); [lia|].
  apply wp_bind. intros r1 H1. cbn [wp]. pose proof (policy_rely_generation _ _ H1) as Eg.
  unfold switch_program. destruct (Z.leb_spec gen (generation r1)); [lia|]. cbn [fst snd negb].
  set (r2 := r1 <| program := _ |> <| generation := gen |>).
  assert (E2 : policy_view r2 = (gen, p <| pr_Generation := gen |>, gate_calls r)).
  { unfold policy_view. assert (gate_calls r2 = gate_calls r) as -> by (injection H1 as _ _ Hg; exact Hg). done. }
  rewrite <- E2. clearbody r2. apply wp_bind. intros r3 H3. cbn [wp Datatypes.id]. apply wp_bind.
  eapply wp_mono; [|apply (wp_guar policy_rely _ _ r3 r2); [apply keeps_reinvalidate_all | done]].
  intros changed tr4 r4 H4. cbn. by split.
Qed.

(** ** Sections of the service *)

Section service.
Context {JC : JSON Config} {JR : JSON RunningFile} {JE : JSON CandidateFile}.
Variable wiring : Wiring.

Notation WPS := (wp service_rely).

Definition beside_world (s : RuntimeServiceAdapter) := (policy_view (rsa_runtime s), receipts s, hookCalls s).
Definition beside_engine (s : RuntimeServiceAdapter) := (world_view (rsa_world s), receipts s, hookCalls s).

Lemma wp_config {A B} (p : MG A) (k : A -> SV B) (P : A -> World -> Prop) Q s tr :
  wp world_rely p (fun a _ w => P a w) [] (rsa_world s) ->
  (forall a tr s', beside_world s' = beside_world s -> P a (rsa_world s') -> WPS (k a) Q tr s') ->
  WPS (on_config p ≫= k) Q tr s.
Proof.
  intros Hp Hk. apply wp_bind. eapply (wp_lift_frame rsa_world put_world beside_world service_rely world_rely).
  - by intros s1 s2 [= E1 E2 E3 E4 E5 E6 E7 E8]; split; [unfold world_rely, world_view; congruence | unfold beside_world, policy_view; congruence].
  - done.
  - eapply wp_mono; [|exact Hp]. intros a tr' w Hw trS s' <- Hb. by apply Hk.
Qed.

Lemma wp_engine {A B} (p : RT A) (k : A -> SV B) (P : A -> Runtime -> Prop) Q s tr :
  wp policy_rely p (fun a _ r => P a r) [] (rsa_runtime s) ->
  (forall a tr s', beside_engine s' = beside_engine s -> P a (rsa_runtime s') -> WPS (k a) Q tr s') ->
  WPS (on_engine p ≫= k) Q tr s.
Proof.
  intros Hp Hk. apply wp_bind. eapply (wp_lift_frame rsa_runtime put_runtime beside_engine service_rely policy_rely).
  - by intros s1 s2 [= E1 E2 E3 E4 E5 E6 E7 E8]; split; [unfold policy_rely, policy_view; congruence | unfold beside_engine, world_view; congruence].
  - done.
  - eapply wp_mono; [|exact Hp]. intros a tr' w Hw trS s' <- Hb. by apply Hk.
Qed.

(** A read of the manager. *)
Lemma wp_read {A B} (g : World -> A) (k : A -> SV B) Q s tr :
  (forall tr s', service_rely s s' -> WPS (k (g (rsa_world s'))) Q tr s') -> WPS (on_config (peek g) ≫= k) Q tr s.
Proof. intros H. apply wp_bind. intros s1 H1. cbn [wp]. by apply (H _ (put_world (rsa_world s1) s1)). Qed.

(** ** Callbacks and the gate *)

Definition beside_hooks (s : RuntimeServiceAdapter) := (world_view (rsa_world s), policy_view (rsa_runtime s), receipts s).
Definition hooked (hook : option Hook) (name : HookName) (c : Config) (g : Z) (ok : bool) : list (HookName * Config * Z * bool) :=
  match hook with Some _ => [(name, c, g, ok)] | None => [] end.

Lemma wp_call_hook name hook c g s tr :
  WPS (call_hook name hook c g) (fun b _ s' => beside_hooks s' = beside_hooks s /\ hookCalls s' = hookCalls s ++ [(name, c, g, b)]) tr s.
Proof.
  intros s1 H1. cbn [wp]. injection H1 as E1 E2 E3 E4 E5 E6 E7 E8.
  split; [|cbn; congruence]. unfold beside_hooks, world_view, policy_view. cbn. congruence.
Qed.

Lemma wp_hook {B} name hook c g (k : bool -> SV B) Q s tr :
  (forall b tr s', beside_hooks s' = beside_hooks s -> hookCalls s' = hookCalls s ++ [(name, c, g, b)] -> WPS (k b) Q tr s') ->
  WPS (call_hook name hook c g ≫= k) Q tr s.
Proof. intros H. apply wp_bind. eapply wp_mono; [|apply wp_call_hook]. intros b tr' s' [? ?]. by apply H. Qed.

Lemma wp_finalize {B} c g (k : bool -> SV B) Q s tr :
  (forall b tr s', beside_hooks s' = beside_hooks s -> hookCalls s' = hookCalls s ++ hooked (FinalizeActivation wiring) HookFinalize c g b ->
     WPS (k b) Q tr s') ->
  WPS (finalizeConfig wiring c g ≫= k) Q tr s.
Proof.
  intros H. unfold finalizeConfig, hooked in *. destruct (FinalizeActivation wiring) as [hook|]; [by apply wp_hook|].
  apply H; [done | by rewrite app_nil_r].
Qed.

Definition beside_gate (s : RuntimeServiceAdapter) :=
  (world_view (rsa_world s), generation (rsa_runtime s), program (rsa_runtime s), receipts s, hookCalls s).
Definition gates (s : RuntimeServiceAdapter) : list InspectionCall := gate_calls (rsa_runtime s).

Lemma gate_calls_app r l : filter (fun c => gate_call c = true) (inspectionCalls r ++ l) = gate_calls r ++ filter (fun c => gate_call c = true) l.
Proof. apply filter_app. Qed.

Lemma wp_gate {B} calls (k : unit -> SV B) Q s tr :
  (forall tr s', beside_gate s' = beside_gate s -> gates s' = gates s ++ filter (fun c => gate_call c = true) calls -> WPS (k tt) Q tr s') ->
  WPS (on_engine (modify (fun r => r <| inspectionCalls ::= fun l => l ++ calls |>)) ≫= k) Q tr s.
Proof.
  intros H. apply wp_bind. intros s1 H1. cbn [wp]. injection H1 as E1 E2 E3 E4 E5 E6 E7 E8. apply H.
  - unfold beside_gate, world_view. cbn. congruence.
  - unfold gates, gate_calls at 1. cbn. rewrite gate_calls_app. congruence.
Qed.

Lemma view_gates s s' : service_rely s s' -> gates s' = gates s.
Proof. unfold gates. by intros [= E1 E2 E3 E4 E5 E6 E7 E8]. Qed.

Lemma wp_pause {B} (k : bool -> SV B) Q s tr :
  (forall b tr s', beside_gate s' = beside_gate s -> gates s' = gates s ++ (if b : bool then [BeginActivation] else []) -> WPS (k b) Q tr s') ->
  WPS (pauseInspection wiring ≫= k) Q tr s.
Proof.
  intros H. unfold pauseInspection. destruct (negb _); [apply H; [done | by rewrite app_nil_r]|].
  apply wp_bind, wp_bind. intros s1 H1. cbn [wp].
  assert (Hs : service_rely s (put_runtime (Datatypes.id (rsa_runtime s1)) s1)) by exact H1. clear H1.
  set (s2 := put_runtime _ s1) in *. change (rsa_runtime s1) with (rsa_runtime s2). clearbody s2.
  pose proof (view_gates _ _ Hs) as Eg. injection Hs as E1 E2 E3 E4 E5 E6 E7 E8. destruct (inspection _).
  - apply wp_gate. intros tr' s' Hb Hg. cbn [mret prog_ret wp]. apply H.
    + rewrite Hb. unfold beside_gate, world_view. congruence.
    + by rewrite Hg, Eg.
  - cbn [mret prog_ret wp mbind prog_mbind prog_bind]. apply H; [unfold beside_gate, world_view; congruence|].
    by rewrite app_nil_r.
Qed.

Lemma filter_changed l : filter (fun c => gate_call c = true) (EndActivation :: (OnSessionChanged <$> l)) = [EndActivation].
Proof. rewrite filter_cons_True by done. f_equal. by induction l. Qed.

Lemma wp_resume {B} (b : bool) changed (k : unit -> SV B) Q s tr :
  (forall tr s', beside_gate s' = beside_gate s -> gates s' = gates s ++ (if b then [EndActivation] else []) -> WPS (k tt) Q tr s') ->
  WPS (resumeInspection b changed ≫= k) Q tr s.
Proof.
  intros H. unfold resumeInspection. destruct b; cbn [negb]; [|apply H; [done | by rewrite app_nil_r]].
  apply wp_gate. intros tr' s' Hb Hg. apply H; [done|]. by rewrite Hg, filter_changed.
Qed.

(** ** In step *)

(** The manager stores the normal form of what was submitted. *)
Definition stored_as (d c : Config) : Prop := c = d \/ normalizeCandidateServices d = (c, []).

Record in_step (s : RuntimeServiceAdapter) : Prop := mkInStep {
  is_number : 0 <= num (rsa_world s) < 2 ^ 64;
  is_generation : generation (rsa_runtime s) = num (rsa_world s);
  is_program : exists d p, stored_as d (running (mgr (rsa_world s))) /\ compileRuntimeProgram d (num (rsa_world s)) = Ok p /\
                           program (rsa_runtime s) = p <| pr_Generation := num (rsa_world s) |>;
  is_kernel : last (applied (rsa_world s)) = Some (running (mgr (rsa_world s)), num (rsa_world s), true)
}.

(** What the rest of the code must not touch. *)
Definition core_view (s : RuntimeServiceAdapter) := (world_view (rsa_world s), generation (rsa_runtime s), program (rsa_runtime s)).

Lemma in_step_core s s' : core_view s' = core_view s -> in_step s -> in_step s'.
Proof. intros [= E1 E2 E3 E4 E5] []. unfold num in *. by constructor; unfold num; rewrite ?E1, ?E3, ?E4, ?E5. Qed.

Lemma view_core s s' : service_rely s s' -> core_view s' = core_view s.
Proof. intros [= E1 E2 E3 E4 E5 E6 E7 E8]. unfold core_view, world_view. congruence. Qed.
Lemma gate_core s s' : beside_gate s' = beside_gate s -> core_view s' = core_view s /\ receipts s' = receipts s /\ hookCalls s' = hookCalls s.
Proof. intros [= E1 E2 E3 E4 E5 E6 E7]. unfold core_view, world_view. split_and!; congruence. Qed.
Lemma hooks_core s s' : beside_hooks s' = beside_hooks s -> core_view s' = core_view s /\ receipts s' = receipts s /\ gates s' = gates s.
Proof. intros [= E1 E2 E3 E4 E5 E6 E7]. unfold core_view, world_view, gates. split_and!; congruence. Qed.

Lemma core_world s s' : core_view s' = core_view s -> world_rely (rsa_world s) (rsa_world s').
Proof. intros [= E1 E2 E3 E4 E5]. unfold world_rely, world_view. congruence. Qed.
Lemma core_policy s s' : core_view s' = core_view s ->
  generation (rsa_runtime s') = generation (rsa_runtime s) /\ program (rsa_runtime s') = program (rsa_runtime s).
Proof. by intros [= E1 E2 E3 E4 E5]. Qed.

Lemma published_view w b c v w1 w2 : world_rely w1 w2 -> published w b c v w1 -> published w b c v w2.
Proof. intros [= E1 E2 E3] []. constructor; rewrite ?E1, ?E2, ?E3; done. Qed.
Lemma refused_view w b good e w1 w2 : world_rely w1 w2 -> refused w b good e w1 -> refused w b good e w2.
Proof. intros [= E1 E2 E3] []. constructor; rewrite ?E1, ?E2, ?E3; done. Qed.

(** A publication followed by the switch of the runtime. *)
Lemma published_in_step s d c v p s' : published (rsa_world s) true c v (rsa_world s') -> 0 <= num (rsa_world s) ->
  stored_as d c -> compileRuntimeProgram d (cv_Version v) = Ok p ->
  generation (rsa_runtime s') = cv_Version v -> program (rsa_runtime s') = p <| pr_Generation := cv_Version v |> -> in_step s'.
Proof.
  intros [[Hv Hlt] _ Er Ev _ _ Ea] H0 Hd Hc Hg Hp. constructor; unfold num in *; rewrite ?Er, ?Ev; [lia | done | | by rewrite Ea, last_app].
  by exists d, p.
Qed.

(** The manager's error says that the kernel did not take the running configuration back. *)
Definition lost (e : ManagerError) : bool := match attempted e with Some (_, false) => true | _ => false end.

Lemma refused_in_step s good e s' : in_step s -> refused (rsa_world s) true good e (rsa_world s') -> lost e = false ->
  generation (rsa_runtime s') = generation (rsa_runtime s) -> program (rsa_runtime s') = program (rsa_runtime s) -> in_step s'.
Proof.
  intros [H1 H2 H3 H4] [E1 E2 _ Ea _] Hl Eg Ep. unfold num, lost in *. constructor; unfold num; rewrite ?E1, ?E2, ?Eg, ?Ep; try done.
  destruct (attempted e) as [[taken []]|]; [|done|by rewrite Ea]. destruct Ea as (_ & c & _ & ->). by rewrite last_app.
Qed.

Lemma editor_in_step s s' : in_step s -> editor_rely (rsa_world s) (rsa_world s') ->
  generation (rsa_runtime s') = generation (rsa_runtime s) -> program (rsa_runtime s') = program (rsa_runtime s) -> in_step s'.
Proof.
  intros [H1 H2 H3 H4] [E1 E2 _ _ Ea] Eg Ep. unfold num in *. by constructor; unfold num; rewrite ?E1, ?E2, ?Eg, ?Ep, ?Ea.
Qed.

(** The running file holds what is running. *)
Definition on_disk (s : RuntimeServiceAdapter) : Prop :=
  exists payload, running_file (rsa_world s) = Some payload /\
    Marshal (mkRunningFile (Some (running (mgr (rsa_world s)))) (Some (version (mgr (rsa_world s)))) (previous (mgr (rsa_world s)))) = Some payload.

Lemma published_on_disk s b c v s' : published (rsa_world s) b c v (rsa_world s') -> on_disk s'.
Proof. intros [_ _ Er Ev Ep (payload & Hm & Hf) _]. exists payload. by rewrite Er, Ev, Ep. Qed.

Lemma refused_on_disk s b good e s' : refused (rsa_world s) b good e (rsa_world s') -> wrote e = false -> on_disk s -> on_disk s'.
Proof.
  intros [E1 E2 E3 _ Ef] Hw (payload & Hf & Hm). exists payload. rewrite E1, E2, E3. split; [|done].
  destruct Ef as [-> | [? _]]; [done | congruence].
Qed.

Lemma editor_on_disk s s' : editor_rely (rsa_world s) (rsa_world s') -> on_disk s -> on_disk s'.
Proof. intros [E1 E2 E3 Ef _] (payload & Hf & Hm). exists payload. by rewrite E1, E2, E3, Ef. Qed.

(** ** Compensation *)

Variable apply : Apply.
Hypothesis Hruntime : haveRuntime wiring = true.
Hypothesis Happly : wiredApply wiring = Some apply.

Definition quiet (s s' : RuntimeServiceAdapter) : Prop := receipts s' = receipts s /\ hookCalls s' = hookCalls s /\ gates s' = gates s.

(** The runtime keeps its program. *)
Definition same_policy (s s' : RuntimeServiceAdapter) : Prop :=
  generation (rsa_runtime s') = generation (rsa_runtime s) /\ program (rsa_runtime s') = program (rsa_runtime s).

(** The earlier configuration was published again as [v]. *)
Definition reverted (s : RuntimeServiceAdapter) (v : ConfigVersion) (s' : RuntimeServiceAdapter) : Prop :=
  exists c, previous (mgr (rsa_world s)) = Some c /\ published (rsa_world s) true c v (rsa_world s').

Definition restoration (s : RuntimeServiceAdapter) (v : ConfigVersion) (err : option RestoreError) (s' : RuntimeServiceAdapter) : Prop :=
  match err with
  | None | Some RestoreLifecycle | Some RestoreFinalize => reverted s v s' /\ in_step s'
  | Some (RestoreRefused e) => v = version (mgr (rsa_world s)) /\
      refused (rsa_world s) true (fun c => previous (mgr (rsa_world s)) = Some c) e (rsa_world s') /\ same_policy s s'
  | Some (RestoreCompile _) => reverted s v s' /\ same_policy s s'
  | Some (RestoreActivation _) => False
  end.

Lemma beside_world_policy s s' : beside_world s' = beside_world s -> same_policy s s' /\ quiet s s'.
Proof. unfold beside_world, policy_view. intros [= E1 E2 E3 E4 E5]. by split. Qed.

Lemma wp_restoreAfter author comment e s tr :
  0 <= num (rsa_world s) < 2 ^ 64 -> generation (rsa_runtime s) <= num (rsa_world s) ->
  WPS (restoreAfterActivationFailure wiring author comment e)
    (fun out _ s' => quiet s s' /\ restoration s out.1.1 out.2 s') tr s.
Proof using Hruntime Happly.
  intros Hn Hg. unfold restoreAfterActivationFailure.
  eapply (wp_config _ _ (fun out w' => outcome (rsa_world s) true (fun c => previous (mgr (rsa_world s)) = Some c) out w')).
  { eapply wp_mono; [|apply (wp_rollback world_rely world_editor); exact Hn]. rewrite Happly. by intros out _ w' [Ho _]. }
  intros [v [err|]] tr1 s1 [Hpol Hq]%beside_world_policy Ho.
  { cbn. split; [done|]. destruct Ho. by split_and!. }
  destruct Ho as (c & Hc & Hp). rewrite Hruntime. cbn [negb]. apply wp_read. intros tr2 s2 H2.
  pose proof (published_view _ _ _ _ _ _ (core_world _ _ (view_core _ _ H2)) Hp) as Hp2. rewrite (pu_running _ _ _ _ _ Hp2).
  assert (Hpol2 : same_policy s s2 /\ quiet s s2).
  { injection H2 as ? ? ? ? ? ? ? ?. destruct Hpol, Hq as (?&?&?). unfold same_policy, quiet, gates in *. split_and!; congruence. }
  destruct (compileRuntimeProgram c (cv_Version v)) as [p|err] eqn:Ec.
  2: { cbn. split; [apply Hpol2|]. split; [by exists c | apply Hpol2]. }
  pose proof (pu_number _ _ _ _ _ Hp) as [Hv Hlt]. destruct Hpol2 as [[Eg Ep] Hq2].
  eapply wp_engine; [apply (wp_activation p (cv_Version v) comment); [lia | rewrite Eg; lia]|].
  intros [changed err] tr3 s3 Hb [E3 Hpv]. cbn [fst snd] in E3. subst err. cbn [fst snd fmap option_fmap option_map mret prog_ret wp].
  unfold policy_view in Hpv. injection Hpv as Eg3 Ep3 Egc. injection Hb as W1 W2 W3 Erc Ehk.
  assert (Hp3 : published (rsa_world s) true c v (rsa_world s3)).
  { eapply published_view; [|exact Hp2]. unfold world_rely, world_view. congruence. }
  split; [destruct Hq2 as (?&?&?); unfold quiet, gates in *; split_and!; congruence|].
  split; [by exists c|]. eapply (published_in_step s c c v p); (done || lia || by left).
Qed.

Lemma refused_editor w1 w2 b good e w : editor_rely w1 w2 -> refused w2 b good e w -> refused w1 b good e w.
Proof. intros [E1 E2 E3 E4 E5] []. unfold num in *. rewrite ?E1, ?E2, ?E3, ?E4, ?E5 in *. by constructor. Qed.
Lemma published_from w1 w2 b c v w : world_rely w1 w2 -> published w2 b c v w -> published w1 b c v w.
Proof. intros [= E1 E2 E3] []. unfold num in *. rewrite ?E1, ?E3 in *. by constructor. Qed.
Lemma refused_from w1 w2 b good e w : world_rely w1 w2 -> refused w2 b good e w -> refused w1 b good e w.
Proof. intros [= E1 E2 E3] []. unfold num in *. rewrite ?E1, ?E2, ?E3 in *. by constructor. Qed.

Lemma restoration_view s v err s1 s2 : core_view s2 = core_view s1 -> restoration s v err s1 -> restoration s v err s2.
Proof.
  intros Hc. pose proof (core_world _ _ Hc) as Hw. pose proof (core_policy _ _ Hc) as [Eg Ep].
  assert (Hrev : reverted s v s1 -> reverted s v s2) by (intros (c & ? & ?); exists c; split; [done | by eapply published_view]).
  assert (Hpol : same_policy s s1 -> same_policy s s2) by (unfold same_policy; rewrite Eg, Ep; done).
  assert (Hin : in_step s1 -> in_step s2) by by apply in_step_core.
  destruct err as [[]|]; cbn; try (intros [? ?]; split; by auto); [|done].
  intros (? & ? & ?). split_and!; [done | by eapply refused_view | by auto].
Qed.

Lemma restoration_from s1 s2 v err s : core_view s2 = core_view s1 -> restoration s2 v err s -> restoration s1 v err s.
Proof.
  intros Hc. pose proof (core_world _ _ Hc) as Hw. pose proof (core_policy _ _ Hc) as [Eg Ep].
  assert (Em : mgr (rsa_world s2) = mgr (rsa_world s1)) by by injection Hw.
  assert (Hrev : reverted s2 v s -> reverted s1 v s).
  { intros (c & ? & ?). exists c. rewrite <- Em. split; [done | by eapply published_from]. }
  assert (Hpol : same_policy s2 s -> same_policy s1 s) by (unfold same_policy; rewrite Eg, Ep; done).
  destruct err as [[]|]; cbn; try (intros [? ?]; split; by auto); [|done].
  intros (? & ? & ?). rewrite <- Em. split_and!; [done | by eapply refused_from | by auto].
Qed.

(** What only adds callbacks. *)
Definition only_hooks (s s' : RuntimeServiceAdapter) : Prop :=
  core_view s' = core_view s /\ receipts s' = receipts s /\ gates s' = gates s.

Lemma only_hooks_trans s1 s2 s3 : only_hooks s1 s2 -> only_hooks s2 s3 -> only_hooks s1 s3.
Proof. intros (?&?&?) (?&?&?). unfold only_hooks. split_and!; congruence. Qed.

Lemma rely_only_hooks s s' : service_rely s s' -> only_hooks s s'.
Proof. intros H. split_and!; [by apply view_core | by injection H | by apply view_gates]. Qed.

Lemma wp_finish restored lifecycle s tr :
  WPS (finishRestoredActivation wiring restored lifecycle)
    (fun err _ s' => only_hooks s s' /\ match err with None | Some RestoreLifecycle | Some RestoreFinalize => True | _ => False end) tr s.
Proof.
  unfold finishRestoredActivation.
  assert (Hfin : forall tr s1, only_hooks s s1 ->
    WPS (value ← on_config Running; ok ← finalizeConfig wiring value (cv_Version restored);
         mret (if ok : bool then None else Some RestoreFinalize))
      (fun err _ s' => only_hooks s s' /\ match err with None | Some RestoreLifecycle | Some RestoreFinalize => True | _ => False end) tr s1).
  { intros tr1 s1 H1. apply wp_read. intros tr2 s2 H2. apply wp_finalize. intros b tr3 s3 H3 _. cbn. split; [|by destruct b].
    eapply only_hooks_trans; [exact H1|]. eapply only_hooks_trans; [by apply rely_only_hooks|]. by apply hooks_core. }
  assert (H0 : only_hooks s s) by done.
  apply wp_bind. destruct (AfterActivate wiring) as [hook|]; [destruct lifecycle|]; try (cbn [wp mret prog_ret negb]; by apply Hfin).
  apply wp_read. intros tr1 s1 H1.
  eapply wp_mono; [|apply wp_call_hook]. intros b tr2 s2 [H2 _].
  assert (H12 : only_hooks s s2) by (eapply only_hooks_trans; [by apply rely_only_hooks | by apply hooks_core]).
  destruct b; cbn [negb]; [by apply Hfin | by split].
Qed.

(** The gate is closed as often as it was opened. *)
Inductive paired : list InspectionCall -> Prop :=
| paired_nil : paired []
| paired_pass l : paired l -> paired (BeginActivation :: EndActivation :: l).

Definition gate_pass (b : bool) : list InspectionCall := if b then [BeginActivation; EndActivation] else [].
Definition closed_gates (s s' : RuntimeServiceAdapter) : Prop := exists l, paired l /\ gates s' = gates s ++ l.

Lemma gate_pass_app (b : bool) : (if b then [BeginActivation] else []) ++ (if b then [EndActivation] else []) = gate_pass b.
Proof. by destruct b. Qed.
Lemma paired_app l l' : paired l -> paired l' -> paired (l ++ l').
Proof. induction 1; cbn; [done|]. intros. constructor. by auto. Qed.
Lemma paired_gate b : paired (gate_pass b).
Proof. destruct b; repeat constructor. Qed.
Lemma closed_gates_trans s1 s2 s3 : closed_gates s1 s2 -> closed_gates s2 s3 -> closed_gates s1 s3.
Proof. intros (l & Hl & E) (l' & Hl' & E'). exists (l ++ l'). split; [by apply paired_app|]. by rewrite E', E, app_assoc. Qed.
Lemma closed_gates_same s s' : gates s' = gates s -> closed_gates s s'.
Proof. intros E. exists []. split; [constructor | by rewrite app_nil_r]. Qed.

(** Restoring and finishing, shared by the two compensations. *)
Lemma wp_restore_finish {A} author comment e gate lifecycle (answer : ConfigVersion -> option RestoreError -> A) s tr :
  0 <= num (rsa_world s) < 2 ^ 64 -> generation (rsa_runtime s) <= num (rsa_world s) ->
  WPS (out ← restoreAfterActivationFailure wiring author comment e;
       let '(restored, changed, restoreErr) := out in
       _ ← resumeInspection gate changed;
       restoreErr ← match restoreErr with Some err => mret (Some err) | None => finishRestoredActivation wiring restored lifecycle end;
       mret (answer restored restoreErr))
    (fun out _ s' => exists v err, out = answer v err /\ restoration s v err s' /\ receipts s' = receipts s /\
                     gates s' = gates s ++ (if gate : bool then [EndActivation] else [])) tr s.
Proof using Hruntime Happly.
  intros Hn Hg. apply wp_bind. eapply wp_mono; [|by apply wp_restoreAfter].
  intros [[v changed] err] tr1 s1 [(Erc & Ehk & Egt) Hr]. cbn [fst snd] in Hr. apply wp_resume. intros tr2 s2 [Hc [Erc2 _]]%gate_core Eg2.
  assert (Hr2 : restoration s v err s2) by by eapply restoration_view. rewrite Egt in Eg2. rewrite Erc in Erc2.
  destruct err as [err|]; [cbn; by eexists _, _|].
  apply wp_bind. eapply wp_mono; [|apply wp_finish]. intros err tr3 s3 [(Hc3 & Erc3 & Eg3) Herr]. cbn.
  exists v, err. split; [done|]. split_and!; [|congruence|congruence].
  eapply restoration_view in Hr2; [|exact Hc3]. by destruct err as [[]|].
Qed.

Definition remembered_by (victim : gmap string ConfigVersion -> option string) (operationID : string) (version : ConfigVersion)
    (m : gmap string ConfigVersion) : gmap string ConfigVersion :=
  if bool_decide (operationID = "") then m
  else <[operationID := version]> (if 1024 <=? Z.of_nat (size m)
                                   then match victim m with Some id => delete id m | None => m end else m).

Lemma wp_recover author comment e cause s tr :
  in_step s ->
  WPS (recoverPublishedFailure wiring author comment e cause)
    (fun out _ s' => exists err, out.2 = Some (cause err) /\ restoration s out.1 err s' /\ receipts s' = receipts s /\ closed_gates s s') tr s.
Proof using Hruntime Happly.
  intros Hs. unfold recoverPublishedFailure. apply wp_pause. intros b tr1 s1 [Hc [Erc Ehk]]%gate_core Eg.
  pose proof (in_step_core _ _ Hc Hs) as [Hn1 Hg1 _ _].
  eapply wp_mono; [|apply (wp_restore_finish _ _ _ b true (fun v err => (v, Some (cause err)))); [done | lia]].
  intros out tr2 s2 (v & err & -> & Hr & Erc2 & Eg2). exists err. cbn [fst snd]. split_and!; [done | by eapply restoration_from | congruence |].
  exists (gate_pass b). split; [apply paired_gate|]. by rewrite Eg2, Eg, <- app_assoc, gate_pass_app.
Qed.

(** What is left to do once manager, kernel and runtime agree. *)
Definition completion victim operationID (version : ConfigVersion) (s : RuntimeServiceAdapter) (out : ConfigVersion * option ServiceError)
    (s' : RuntimeServiceAdapter) : Prop :=
  closed_gates s s' /\
  match out with
  | (v, None) => v = version /\ core_view s' = core_view s /\ receipts s' = remembered_by victim operationID version (receipts s) /\
                 hookCalls s' = hookCalls s ++ hooked (AfterActivate wiring) HookAfter (running (mgr (rsa_world s'))) (cv_Version version) true ++
                                hooked (FinalizeActivation wiring) HookFinalize (running (mgr (rsa_world s'))) (cv_Version version) true
  | (v, Some err) => receipts s' = receipts s /\ exists r, (err = LifecycleFailed r \/ err = FinalizeFailed r) /\ restoration s v r s'
  end.

Lemma wp_complete victim author operationID c1 c2 version e s tr :
  in_step s ->
  WPS (complete_activation wiring victim author operationID c1 c2 version e) (fun out _ s' => completion victim operationID version s out s') tr s.
Proof using Hruntime Happly.
  intros Hs. unfold complete_activation.
  assert (Hrec : forall cause comment tr s1, only_hooks s s1 -> (forall r, cause r = LifecycleFailed r \/ cause r = FinalizeFailed r) ->
    WPS (recoverPublishedFailure wiring author comment e cause) (fun out _ s' => completion victim operationID version s out s') tr s1).
  { intros cause comment tr1 s1 (Hc & Erc & Eg) Hcause. eapply wp_mono; [|apply wp_recover; by eapply in_step_core].
    intros [v err] tr2 s2 (r & Er & Hr & Erc2 & Hg). cbn [fst snd] in *. subst err. split.
    { eapply closed_gates_trans; [by apply closed_gates_same | done]. }
    split; [congruence|]. exists r. split; [done | by eapply restoration_from]. }
  set (live := hooked (AfterActivate wiring) HookAfter (running (mgr (rsa_world s))) (cv_Version version) true).
  assert (Hrun : forall s1, core_view s1 = core_view s -> running (mgr (rsa_world s1)) = running (mgr (rsa_world s))).
  { intros s1 H1. pose proof (core_world _ _ H1) as [= -> _ _]. done. }
  assert (Hfin : forall tr s1, only_hooks s s1 -> hookCalls s1 = hookCalls s ++ live ->
    WPS (value ← on_config Running; finalized ← finalizeConfig wiring value (cv_Version version);
         if negb finalized then recoverPublishedFailure wiring author c2 e FinalizeFailed
         else _ ← remember_receipt victim operationID version; mret (version, None))
      (fun out _ s' => completion victim operationID version s out s') tr s1).
  { intros tr1 s1 H1 Hl. apply wp_read. intros tr2 s2 H2. assert (H12 : only_hooks s s2) by (eapply only_hooks_trans; [exact H1 | by apply rely_only_hooks]).
    apply wp_finalize. rewrite (Hrun s2 (proj1 H12)). intros b tr3 s3 H3 Hh.
    assert (Eh2 : hookCalls s2 = hookCalls s1) by by injection H2. rewrite Eh2, Hl in Hh.
    assert (H13 : only_hooks s s3) by (eapply only_hooks_trans; [exact H12 | by apply hooks_core]).
    destruct b; cbn [negb]; [|apply Hrec; [done | by right]].
    assert (Hdone : forall s4, core_view s4 = core_view s3 -> gates s4 = gates s3 -> hookCalls s4 = hookCalls s3 ->
      receipts s4 = remembered_by victim operationID version (receipts s3) -> completion victim operationID version s (version, None) s4).
    { destruct H13 as (Hc & Erc & Eg). intros s4 Hc4 Eg4 Eh4 Er4. split; [apply closed_gates_same; congruence|].
      split_and!; [done | congruence | congruence |]. rewrite (Hrun s4) by congruence. by rewrite Eh4, Hh, <- app_assoc. }
    unfold remember_receipt, remembered_by in *. destruct (bool_decide (operationID = "")); [by apply Hdone|].
    apply wp_bind. intros s4 H4. cbn [wp]. pose proof (rely_only_hooks _ _ H4) as (Hc4 & Erc4 & Eg4).
    apply Hdone; [exact Hc4 | exact Eg4 | by injection H4 | cbn; by rewrite Erc4]. }
  apply wp_bind. unfold live in Hfin. destruct (AfterActivate wiring) as [hook|]; [|cbn [wp mret prog_ret negb]; apply Hfin; [done | by rewrite app_nil_r]].
  apply wp_read. intros tr1 s1 H1. eapply wp_mono; [|apply wp_call_hook]. intros b tr2 s2 [H2 Hh].
  assert (H12 : only_hooks s s2) by (eapply only_hooks_trans; [by apply rely_only_hooks | by apply hooks_core]).
  destruct b; cbn [negb]; [apply Hfin; [done|] | apply Hrec; [done | by left]].
  assert (Eh1 : hookCalls s1 = hookCalls s) by by injection H1. by rewrite Hh, Eh1, (Hrun s1) by by apply view_core.
Qed.

(** ** Commit *)

Lemma wp_SetCandidate d e w tr :
  wp world_rely (SetCandidate d e)
    (fun errs _ w' => editor_rely w w' /\ (errs = [] -> normalizeCandidateServices d = (candidate (mgr w'), []))) tr w.
Proof.
  unfold SetCandidate. destruct (normalizeCandidateServices d) as [n errs]. intros w1 H1. cbn [wp].
  set (c := if bool_decide (errs = []) then n else d).
  pose proof (persistEditor_rely c (running (mgr w1)) (version (mgr w1)) e w1) as Hp.
  destruct (persistEditorLocked _ _ _ _ _) as [w2 ok]. cbn [fst] in Hp. apply world_editor in H1.
  destruct ok; cbn [negb fst snd].
  - split; [destruct H1, Hp; constructor; cbn; congruence|]. intros [-> _]%app_nil. done.
  - split; [by etrans | by intros [_ ?]%app_nil].
Qed.

Lemma wp_admit desired e s tr :
  WPS (admit_desired desired e)
    (fun refusal _ s' => editor_rely (rsa_world s) (rsa_world s') /\ same_policy s s' /\ quiet s s' /\
       match refusal with
       | None => normalizeCandidateServices desired = (candidate (mgr (rsa_world s')), [])
       | Some err => match err with ServiceDuplicates _ | ServiceUnreachable _ | ServiceInvalid _ | ServiceInvalidCandidate => True | _ => False end
       end) tr s.
Proof.
  unfold admit_desired. assert (editor_rely (rsa_world s) (rsa_world s)) by reflexivity.
  destruct (ExactDuplicatePolicyErrorsForConfig desired); [|by cbn].
  destruct (UnreachablePolicyErrorsForConfig desired); [|by cbn]. destruct (Validate desired); [|by cbn].
  eapply wp_config; [apply wp_SetCandidate|]. intros errs tr1 s1 [Hpol Hq]%beside_world_policy [He Hc]. cbn.
  split_and!; [done.. |]. case_bool_decide; [by apply Hc | done].
Qed.

Lemma wp_prepare desired expected s tr :
  WPS (prepare_commit wiring desired expected)
    (fun prepared _ s' => only_hooks s s' /\
       match prepared with
       | Ok compiled => exists p, compiled = Some p /\ compileRuntimeProgram desired (u64 (expected + 1)) = Ok p
       | Err err => match err with ServiceExhausted | ServiceCompile _ | PreflightFailed => True | _ => False end
       end) tr s.
Proof using Hruntime.
  unfold prepare_commit. rewrite Hruntime. assert (only_hooks s s) by done.
  destruct (expected =? 2 ^ 64 - 1); [by cbn|].
  destruct (compileRuntimeProgram _ _) as [p|err]; [|by cbn]. destruct (BeforeActivate wiring) as [hook|]; [|cbn; split; [done | by exists p]].
  apply wp_hook. intros b tr1 s1 H1%hooks_core _. destruct b; cbn; (split; [done|]); [by exists p | done].
Qed.

Variable victim : gmap string ConfigVersion -> option string.
Variable operationID : string.

(** How a commit or rollback can end. *)
Definition settled (s : RuntimeServiceAdapter) (good : Config -> Prop) (out : ConfigVersion * option ServiceError) (s' : RuntimeServiceAdapter) : Prop :=
  closed_gates s s' /\
  receipts s' = match out with (v, None) => remembered_by victim operationID v (receipts s) | _ => receipts s end /\
  match out with
  | (v, None) =>
      exists c calls, good c /\ published (rsa_world s) true c v (rsa_world s') /\ in_step s' /\
        hookCalls s' = calls ++ hooked (AfterActivate wiring) HookAfter c (cv_Version v) true ++
                       hooked (FinalizeActivation wiring) HookFinalize c (cv_Version v) true
  | (v, Some err) =>
      match err with
      | PublishRefused e _ => refused (rsa_world s) true good e (rsa_world s') /\ same_policy s s'
      | LifecycleFailed r | FinalizeFailed r =>
          exists c v1 s1, good c /\ published (rsa_world s) true c v1 (rsa_world s1) /\ in_step s1 /\ restoration s1 v r s'
      | CompileAfterPublish _ r =>
          exists c v1 v2 s1, good c /\ published (rsa_world s) true c v1 (rsa_world s1) /\ same_policy s s1 /\ restoration s1 v2 r s'
      | RuntimeActivation _ _ => False
      | _ => editor_rely (rsa_world s) (rsa_world s') /\ same_policy s s'
      end
  end.

Definition early (err : ServiceError) : bool :=
  match err with LifecycleFailed _ | FinalizeFailed _ | CompileAfterPublish _ _ | RuntimeActivation _ _ | PublishRefused _ _ => false | _ => true end.

Lemma settled_early s good v err s' : early err = true ->
  closed_gates s s' -> receipts s' = receipts s -> editor_rely (rsa_world s) (rsa_world s') -> same_policy s s' ->
  settled s good (v, Some err) s'.
Proof. intros He ? ? ? ?. split_and!; [done..|]. by destruct err. Qed.

Lemma wp_refuse_early s0 good err s tr : early err = true -> closed_gates s0 s -> receipts s = receipts s0 -> editor_rely (rsa_world s0) (rsa_world s) -> same_policy s0 s ->
  WPS (refuse_early err) (fun out _ s' => settled s0 good out s') tr s.
Proof.
  intros He Hg Hrc Hw Hp. apply wp_read. intros tr1 s1 H1. cbn. pose proof (rely_only_hooks _ _ H1) as (Hc & Erc & Eg).
  apply settled_early; [done | eapply closed_gates_trans; [done | by apply closed_gates_same] | congruence | |].
  - etrans; [exact Hw | by apply world_editor, core_world].
  - destruct (core_policy _ _ Hc). unfold same_policy in *. destruct Hp. split; congruence.
Qed.

(** The manager refused while the gate was held. *)
Lemma wp_publish_refused s0 good b v err s tr :
  (exists l, paired l /\ gates s = gates s0 ++ l ++ (if b : bool then [BeginActivation] else [])) ->
  receipts s = receipts s0 -> refused (rsa_world s0) true good err (rsa_world s) -> same_policy s0 s ->
  WPS (publish_refused wiring b v err) (fun out _ s' => settled s0 good out s') tr s.
Proof.
  intros (l & Hl & Eg) Hrc Hr Hp. unfold publish_refused. apply wp_read. intros tr1 s1 H1. apply wp_read. intros tr2 s2 H2.
  apply wp_finalize. intros ok tr3 s3 H3 _. apply wp_resume. intros tr4 s4 [H4 [Erc4 _]]%gate_core Eg4. cbn.
  assert (H13 : only_hooks s s3).
  { eapply only_hooks_trans; [by apply rely_only_hooks|]. eapply only_hooks_trans; [by apply rely_only_hooks | by apply hooks_core]. }
  destruct H13 as (Hc & Erc3 & Eg3). rewrite Hc in H4. split_and!; [| congruence | |].
  - exists (l ++ gate_pass b). split; [apply paired_app; [done | apply paired_gate]|].
    by rewrite Eg4, Eg3, Eg, <- gate_pass_app, <- !app_assoc.
  - eapply refused_view; [|exact Hr]. by apply core_world.
  - destruct (core_policy _ _ H4), Hp. unfold same_policy in *. split; congruence.
Qed.

(** From the publication on: the runtime is switched and the operation completed. *)
Lemma wp_after_publish s0 good d c v p reason c0 c1 c2 author b e s tr :
  in_step s0 -> good c -> published (rsa_world s0) true c v (rsa_world s) -> same_policy s0 s -> receipts s = receipts s0 ->
  (exists l, paired l /\ gates s = gates s0 ++ l ++ (if b : bool then [BeginActivation] else [])) ->
  stored_as d c -> compileRuntimeProgram d (cv_Version v) = Ok p ->
  WPS (out ← switch_runtime (Some p) v reason;
       match out with
       | (_, Some err) => restore_in_place wiring b author c0 e v (RuntimeActivation err)
       | (changed, None) =>
           _ ← resumeInspection b changed;
           complete_activation wiring victim author operationID c1 c2 v e
       end)
    (fun out _ s' => settled s0 good out s') tr s.
Proof using Hruntime Happly.
  intros Hs0 Hgood Hpub [Eg Ep] Erc (l & Hl & Egt) Hd Hc. pose proof (pu_number _ _ _ _ _ Hpub) as [Hv Hlt].
  pose proof (is_number _ Hs0). pose proof (is_generation _ Hs0). unfold switch_runtime.
  eapply wp_engine; [apply wp_activation; [lia | rewrite Eg; lia]|].
  intros [changed err] tr1 s1 Hb [E1 Hpv]. cbn [fst snd] in E1. subst err. injection Hpv as Eg1 Ep1 Egc1. injection Hb as W1 W2 W3 Erc1 Ehk1.
  assert (Hpub1 : published (rsa_world s0) true c v (rsa_world s1)).
  { eapply published_view; [|exact Hpub]. unfold world_rely, world_view. congruence. }
  assert (Hstep1 : in_step s1) by (eapply (published_in_step s0 d c v p); (done || lia)).
  apply wp_resume. intros tr2 s2 [Hc2 [Erc2 _]]%gate_core Eg2.
  assert (Hpub2 : published (rsa_world s0) true c v (rsa_world s2)) by (eapply published_view; [by apply core_world | done]).
  assert (Hcl : closed_gates s0 s2).
  { exists (l ++ gate_pass b). split; [apply paired_app; [done | apply paired_gate]|].
    rewrite Eg2. unfold gates at 1. rewrite Egc1. fold (gates s). by rewrite Egt, <- gate_pass_app, <- !app_assoc. }
  assert (Hstep2 : in_step s2) by by eapply in_step_core.
  eapply wp_mono; [|by apply wp_complete]. intros [w [err|]] tr3 s3 [Hg3 Hout]; (split; [by eapply closed_gates_trans|]).
  - destruct Hout as [Erc3 (r & Hcause & Hr)]. split; [congruence|]. destruct Hcause as [-> | ->]; by exists c, v, s2.
  - destruct Hout as (-> & Hc3 & Erc3 & Hfin). split; [rewrite Erc3; f_equal; congruence|]. exists c, (hookCalls s2).
    assert (Hpub3 : published (rsa_world s0) true c v (rsa_world s3)) by (eapply published_view; [by apply core_world | done]).
    split_and!; [done | done | by eapply in_step_core |]. by rewrite Hfin, (pu_running _ _ _ _ _ Hpub3).
Qed.

(** What a commit may publish. *)
Definition committable (desired : Config) (expected : Z) (s : RuntimeServiceAdapter) (c : Config) : Prop :=
  normalizeCandidateServices desired = (c, []) /\ acceptable c /\ expected = num (rsa_world s).

Hypothesis Hwired : haveConfig wiring = true.

Lemma wired : activation_wired wiring = true.
Proof using Hwired Happly. unfold activation_wired. by rewrite Hwired, Happly. Qed.

Lemma wp_receipt {B} (k : option ConfigVersion -> SV B) Q s tr :
  (forall known tr s', service_rely s s' -> known = (if bool_decide (operationID = "") then None else receipts s !! operationID) ->
     WPS (k known) Q tr s') -> WPS (receipt operationID ≫= k) Q tr s.
Proof.
  intros H. unfold receipt. destruct (bool_decide (operationID = "")); [by apply H|]. apply wp_bind. intros s1 H1. cbn [wp].
  apply H; [exact H1 | f_equal; by injection H1].
Qed.

(** Where an operation starts after the look at the receipts. *)
Definition answered (s : RuntimeServiceAdapter) (v : ConfigVersion) (s' : RuntimeServiceAdapter) : Prop :=
  operationID <> "" /\ receipts s !! operationID = Some v /\ service_rely s s'.

(** What is unchanged when a commit reaches the publication. *)
Record untouched (s s' : RuntimeServiceAdapter) : Prop := mkUntouched {
  un_world : editor_rely (rsa_world s) (rsa_world s');
  un_policy : same_policy s s';
  un_receipts : receipts s' = receipts s;
  un_gates : gates s' = gates s
}.

Lemma untouched_hooks s s1 s2 : untouched s s1 -> only_hooks s1 s2 -> untouched s s2.
Proof.
  intros [He [Eg Ep] Er Et] (Hc & Er2 & Et2). destruct (core_policy _ _ Hc).
  constructor; [etrans; [exact He | by apply world_editor, core_world] | split; congruence | congruence | congruence].
Qed.

Lemma wp_publish desired expected author comment e restore p s s3 tr :
  in_step s -> untouched s s3 -> normalizeCandidateServices desired = (candidate (mgr (rsa_world s3)), []) ->
  compileRuntimeProgram desired (u64 (expected + 1)) = Ok p ->
  WPS (gate ← pauseInspection wiring;
       out ← on_config (CommitWithGeneration author comment expected (wiredApply wiring) e);
       match out with
       | (version, Some err) => publish_refused wiring gate version err
       | (version, None) =>
           out ← switch_runtime (Some p) version "configuration generation changed";
           match out with
           | (_, Some err) =>
               restore_in_place wiring gate author "restore after runtime activation failure" restore version (RuntimeActivation err)
           | (changed, None) =>
               _ ← resumeInspection gate changed;
               complete_activation wiring victim author operationID "restore after inspection runtime activation failure"
                 "restore after activation finalization failure" version restore
           end
       end)
    (fun out _ s' => settled s (committable desired expected s) out s') tr s3.
Proof using Hruntime Happly.
  intros Hs [He3 Hp3 Erc3 Eg3] Hcand Hcomp.
  apply wp_pause. intros b tr4 s4 [Hc4 [Erc4 _]]%gate_core Eg4.
  assert (He4 : editor_rely (rsa_world s) (rsa_world s4)) by (etrans; [exact He3 | by apply world_editor, core_world]).
  assert (Hp4 : same_policy s s4) by (destruct (core_policy _ _ Hc4), Hp3; split; congruence).
  assert (En : num (rsa_world s4) = num (rsa_world s)) by (unfold num; by rewrite (er_version _ _ He4)).
  pose proof (is_number _ Hs) as Hn.
  assert (Ecand : forall w, world_rely (rsa_world s4) w -> normalizeCandidateServices desired = (candidate (mgr w), [])).
  { intros w [= Ew _ _]. rewrite Ew, Hcand. apply core_world in Hc4. by injection Hc4 as -> _ _. }
  eapply (wp_config _ _ (fun out w' => outcome (rsa_world s4) true (committable desired expected s) out w')).
  { eapply wp_mono; [|apply (wp_CommitWithGeneration world_rely world_editor); lia]. rewrite Happly. intros out _ w' (m & _ & Hm & Ho).
    eapply outcome_weaken; [|exact Ho]. intros c (-> & Hacc & ->). split_and!; [by apply Ecand | done | done]. }
  intros [v [err|]] tr5 s5 [Hp5 (Erc5 & _ & Eg5)]%beside_world_policy Ho.
  - apply wp_publish_refused.
    + exists []. split; [constructor|]. by rewrite Eg5, Eg4, Eg3.
    + congruence.
    + destruct Ho as [_ Hr]. by eapply refused_editor.
    + destruct Hp4, Hp5. split; congruence.
  - destruct Ho as (c & Hgood & Hpub). pose proof (proj2 (proj2 Hgood)) as Hexp.
    assert (Hpub' : published (rsa_world s) true c v (rsa_world s5)).
    { destruct He4 as [R1 R2 R3 R4 R5], Hpub as [F1 F2 F3 F4 F5 F6 F7]. rewrite En in F1. rewrite R1 in F5, F6. rewrite R5 in F7. by constructor. }
    pose proof (pu_number _ _ _ _ _ Hpub') as [Hv Hlt].
    apply (wp_after_publish s _ desired c v p); try done.
    + destruct Hp4, Hp5. split; congruence.
    + congruence.
    + exists []. split; [constructor|]. by rewrite Eg5, Eg4, Eg3.
    + right. apply Hgood.
    + rewrite Hv, <- Hexp, <- Hcomp. f_equal. rewrite Hexp. symmetry. apply u64_small. lia.
Qed.

Lemma wp_CommitConfig desired expected author comment edit e restore s tr :
  in_step s ->
  WPS (CommitConfig wiring victim desired expected author comment operationID edit e restore)
    (fun out _ s' => match out with (v, None) => answered s v s' | _ => False end \/
                     settled s (committable desired expected s) out s') tr s.
Proof using Hruntime Happly Hwired.
  intros Hs. unfold CommitConfig. rewrite wired. cbn [negb]. apply wp_receipt. intros known tr1 s1 H1 Hknown.
  destruct known as [v|].
  { cbn. left. destruct (bool_decide_reflect (operationID = "")); [done|]. by split_and!. }
  clear Hknown. eapply (wp_mono _ _ (fun out _ s' => settled s (committable desired expected s) out s')); [by right|].
  assert (U1 : untouched s s1) by (eapply untouched_hooks; [by constructor | by apply rely_only_hooks]).
  apply wp_bind. eapply wp_mono; [|apply wp_admit]. intros refusal tr2 s2 (He2 & Hp2 & (Erc2 & _ & Eg2) & Hcand).
  assert (U2 : untouched s s2).
  { destruct U1 as [? [? ?] ? ?], Hp2. constructor; [by etrans | split; congruence | congruence | congruence]. }
  assert (Hrefuse : forall err tr s3, early err = true -> untouched s s3 ->
    WPS (refuse_early err) (fun out _ s' => settled s (committable desired expected s) out s') tr s3).
  { intros err tr3 s3 He []. by apply wp_refuse_early; [| apply closed_gates_same | | |]. }
  destruct refusal as [err|]; [apply Hrefuse; [by destruct err | done]|].
  apply wp_bind. eapply wp_mono; [|apply wp_prepare]. intros prepared tr3 s3 [H3 Hprep].
  assert (U3 : untouched s s3) by by eapply untouched_hooks.
  destruct prepared as [compiled|err]; [|apply Hrefuse; [by destruct err | done]].
  destruct Hprep as (p & -> & Hcomp). apply wp_publish; [done | done | | done].
  rewrite Hcand. destruct H3 as [Hc3 _]. apply core_world in Hc3. by injection Hc3 as -> _ _.
Qed.

(** ** Rollback *)

Lemma wp_prepare_rollback g s tr :
  WPS (prepare_rollback wiring g)
    (fun refusal _ s' => only_hooks s s' /\
       match refusal with None | Some ServiceExhausted | Some NoRollbackTarget | Some PreflightFailed => True | _ => False end) tr s.
Proof.
  unfold prepare_rollback. assert (only_hooks s s) by done. destruct (BeforeActivate wiring) as [hook|]; [|by cbn].
  destruct (g =? 0); [by cbn|]. apply wp_read. intros tr1 s1 H1%rely_only_hooks. destruct (previous _) as [target|]; [|by cbn].
  apply wp_hook. intros b tr2 s2 H2%hooks_core _. cbn. split; [by eapply only_hooks_trans | by destruct b].
Qed.

(** The target was published: it is compiled, and taken back if that fails. *)
Lemma wp_rollback_published s0 c v author b restore s tr :
  in_step s0 -> previous (mgr (rsa_world s0)) = Some c -> published (rsa_world s0) true c v (rsa_world s) -> same_policy s0 s ->
  receipts s = receipts s0 -> gates s = gates s0 ++ (if b : bool then [BeginActivation] else []) ->
  WPS (value ← on_config Running;
       match (if haveRuntime wiring
              then match compileRuntimeProgram value (cv_Version v) with Ok p => Ok (Some p) | Err err => Err err end
              else Ok None) with
       | Err err => restore_in_place wiring b author "restore after rollback compile failure" restore v (CompileAfterPublish err)
       | Ok compiled =>
           out ← switch_runtime compiled v "configuration rollback";
           match out with
           | (_, Some err) => restore_in_place wiring b author "restore after rollback activation failure" restore v (RuntimeActivation err)
           | (changed, None) =>
               _ ← resumeInspection b changed;
               complete_activation wiring victim author operationID "restore after rollback inspection runtime failure"
                 "restore after rollback finalization failure" v restore
           end
       end)
    (fun out _ s' => settled s0 (fun c => previous (mgr (rsa_world s0)) = Some c) out s') tr s.
Proof using Hruntime Happly.
  intros Hs0 Hc Hpub Hp Erc Eg. apply wp_read. intros tr1 s1 H1. pose proof (rely_only_hooks _ _ H1) as (Hc1 & Erc1 & Eg1).
  assert (Hpub1 : published (rsa_world s0) true c v (rsa_world s1)) by (eapply published_view; [by apply core_world | done]).
  assert (Hp1 : same_policy s0 s1) by (destruct (core_policy _ _ Hc1), Hp; split; congruence).
  rewrite (pu_running _ _ _ _ _ Hpub1), Hruntime. destruct (compileRuntimeProgram c (cv_Version v)) as [p|err] eqn:Ec.
  - apply (wp_after_publish s0 _ c c v p); try done; [congruence | | by left].
    exists []. split; [constructor|]. by rewrite Eg1, Eg.
  - pose proof (pu_number _ _ _ _ _ Hpub1) as [Hv Hlt]. pose proof (is_number _ Hs0). pose proof (is_generation _ Hs0). destruct Hp1 as [Eg2 Ep2].
    assert (En1 : num (rsa_world s1) = cv_Version v) by (unfold num; by rewrite (pu_version _ _ _ _ _ Hpub1)).
    unfold restore_in_place. eapply wp_mono;
      [|apply (wp_restore_finish _ _ _ b false (fun r e => (match e with None => r | Some _ => v end, Some (CompileAfterPublish err e)))); lia].
    intros out tr2 s2 (v2 & r & -> & Hr & Erc2 & Egt2). split; [|split; [congruence|]].
    + exists (gate_pass b). split; [apply paired_gate|]. by rewrite Egt2, Eg1, Eg, <- app_assoc, gate_pass_app.
    + by exists c, v, v2, s1.
Qed.

Lemma wp_RollbackConfig author comment e restore s tr :
  in_step s ->
  WPS (RollbackConfig wiring victim author comment operationID e restore)
    (fun out _ s' => match out with (v, None) => answered s v s' | _ => False end \/
                     settled s (fun c => previous (mgr (rsa_world s)) = Some c) out s') tr s.
Proof using Hruntime Happly Hwired.
  intros Hs. unfold RollbackConfig. rewrite wired. cbn [negb]. apply wp_receipt. intros known tr1 s1 H1 Hknown.
  destruct known as [v|].
  { cbn. left. destruct (bool_decide_reflect (operationID = "")); [done|]. by split_and!. }
  clear Hknown. eapply (wp_mono _ _ (fun out _ s' => settled s (fun c => previous (mgr (rsa_world s)) = Some c) out s')); [by right|].
  pose proof (rely_only_hooks _ _ H1) as (Hc1 & Erc1 & Eg1).
  apply wp_pause. intros b tr2 s2 [Hc2 [Erc2 _]]%gate_core Eg2. apply wp_read. intros tr3 s3 H3%rely_only_hooks.
  apply wp_bind. eapply wp_mono; [|apply wp_prepare_rollback]. intros refusal tr4 s4 [H4 Href].
  destruct (only_hooks_trans _ _ _ H3 H4) as (Hc4 & Erc4 & Eg4). rewrite Hc2, Hc1 in Hc4.
  assert (Hw4 : world_rely (rsa_world s) (rsa_world s4)) by by apply core_world. pose proof (core_policy _ _ Hc4) as Hp4.
  assert (Egt : gates s4 = gates s ++ (if b then [BeginActivation] else [])) by by rewrite Eg4, Eg2, Eg1.
  destruct refusal as [err|].
  { apply wp_read. intros tr5 s5 H5%rely_only_hooks. destruct H5 as (Hc5 & Erc5 & Eg5).
    apply wp_resume. intros tr6 s6 [Hc6 [Erc6 _]]%gate_core Eg6. cbn. rewrite Hc5, Hc4 in Hc6.
    apply settled_early; [by destruct err | | congruence | |].
    - exists (gate_pass b). split; [apply paired_gate|]. by rewrite Eg6, Eg5, Egt, <- app_assoc, gate_pass_app.
    - by apply world_editor, core_world.
    - by apply core_policy. }
  eapply (wp_config _ _ (fun out w' => outcome (rsa_world s) true (fun c => previous (mgr (rsa_world s)) = Some c) out w')).
  { pose proof (is_number _ Hs). eapply wp_mono; [|apply (wp_rollback world_rely world_editor)].
    - rewrite Happly. intros out _ w' [Ho _]. eapply outcome_weaken in Ho; [|intros c Hc; injection Hw4 as Em _ _; rewrite Em in Hc; exact Hc].
      destruct out as [v [err|]]; cbn in *.
      + destruct Ho as [-> Hr]. split; [by injection Hw4 as -> _ _ | by eapply refused_from].
      + destruct Ho as (c & Hc & Hpub). exists c. split; [done|]. by eapply published_from.
    - unfold num. injection Hw4 as -> _ _. done. }
  intros [v [err|]] tr5 s5 [Hp5 (Erc5 & _ & Eg5)]%beside_world_policy Ho.
  - apply wp_publish_refused; [|congruence | apply Ho | destruct Hp4, Hp5; split; congruence].
    exists []. split; [constructor|]. by rewrite Eg5.
  - destruct Ho as (c & Hc & Hpub). apply (wp_rollback_published s c v); try done; [destruct Hp4, Hp5; split; congruence | congruence | congruence].
Qed.

(** ** What the outcome says about the state *)

(** The errors that report a failed compensation: the kernel did not take the running
    configuration back, or the runtime was left behind. *)
Definition out_of_step (err : ServiceError) : bool :=
  match err with
  | PublishRefused e _ => lost e
  | CompileAfterPublish _ (Some (RestoreRefused _ | RestoreCompile _)) => true
  | LifecycleFailed (Some (RestoreCompile _)) | FinalizeFailed (Some (RestoreCompile _)) => true
  | LifecycleFailed (Some (RestoreRefused e)) | FinalizeFailed (Some (RestoreRefused e)) => lost e
  | _ => false
  end.

(** The errors after which the new configuration stays, because the manager refused to
    take it back. *)
Definition stays (err : ServiceError) : bool :=
  match err with LifecycleFailed (Some (RestoreRefused _)) | FinalizeFailed (Some (RestoreRefused _)) => true | _ => false end.

(** The errors of a write of the running file, which may be in place all the same. *)
Definition write_failed (err : ServiceError) : bool :=
  match err with
  | PublishRefused e _ | CompileAfterPublish _ (Some (RestoreRefused e))
  | LifecycleFailed (Some (RestoreRefused e)) | FinalizeFailed (Some (RestoreRefused e)) => wrote e
  | _ => false
  end.

Lemma settled_in_step s good out s' : in_step s -> settled s good out s' ->
  (forall err, out.2 = Some err -> out_of_step err = false) -> in_step s'.
Proof.
  intros Hs (_ & _ & Hout) Hok. destruct out as [v [err|]]; [|by destruct Hout as (c & calls & _ & _ & H & _)].
  specialize (Hok _ eq_refl).
  assert (Hrest : forall s1 v r, in_step s1 ->
    match r with Some (RestoreCompile _) => False | Some (RestoreRefused e) => lost e = false | _ => True end ->
    restoration s1 v r s' -> in_step s').
  { intros s1 v1 r H1 Hr. destruct r as [[]|]; cbn; try done; try (by intros [_ ?]).
    intros (_ & Hf & [Eg Ep]). by eapply refused_in_step. }
  destruct err as [| | | | | | | | | e fin | e r | | r | r]; try (destruct Hout as [Hr [Eg Ep]]; by eapply editor_in_step); try done.
  - destruct Hout as [Hr [Eg Ep]]. by eapply refused_in_step.
  - destruct Hout as (c & v1 & v2 & s1 & _ & _ & _ & Hr). destruct r as [[]|]; cbn in Hr; try (by destruct Hr); done.
  - destruct Hout as (c & v1 & s1 & _ & _ & H1 & Hr). apply (Hrest s1 v r); [done | by destruct r as [[]|] | done].
  - destruct Hout as (c & v1 & s1 & _ & _ & H1 & Hr). apply (Hrest s1 v r); [done | by destruct r as [[]|] | done].
Qed.

(** The file follows, unless the error is about writing it. *)
Lemma settled_on_disk s good v err s' : settled s good (v, Some err) s' -> write_failed err = false -> on_disk s -> on_disk s'.
Proof.
  intros (_ & _ & Hout) Hw Hs.
  assert (Hrest : forall s1 v r, on_disk s1 -> match r with Some (RestoreRefused e) => wrote e = false | _ => True end ->
    restoration s1 v r s' -> on_disk s').
  { intros s1 v1 r H1 Hr. assert (Hrev : reverted s1 v1 s' -> on_disk s') by (intros (c & _ & ?); by eapply published_on_disk).
    destruct r as [[]|]; cbn; try done; try (intros [? _]; by auto). intros (_ & Hf & _). by eapply refused_on_disk. }
  destruct err as [| | | | | | | | | e fin | e r | | r | r]; try (destruct Hout as [Hr _]; by eapply editor_on_disk); try done.
  - destruct Hout as [Hr _]. by eapply refused_on_disk.
  - destruct Hout as (c & v1 & v2 & s1 & _ & Hp & _ & Hr). apply (Hrest s1 v2 r); [by eapply published_on_disk | by destruct r as [[]|] | done].
  - destruct Hout as (c & v1 & s1 & _ & Hp & _ & Hr). apply (Hrest s1 v r); [by eapply published_on_disk | by destruct r as [[]|] | done].
  - destruct Hout as (c & v1 & s1 & _ & Hp & _ & Hr). apply (Hrest s1 v r); [by eapply published_on_disk | by destruct r as [[]|] | done].
Qed.

(** The configuration the manager refused to take back is the one the operation published. *)
Lemma settled_stays s good v err s' : settled s good (v, Some err) s' -> stays err = true ->
  good (running (mgr (rsa_world s'))) /\ num (rsa_world s') = num (rsa_world s) + 1.
Proof.
  intros (_ & _ & Hout) Hst.
  assert (Hrest : forall e, (exists c v1 s1, good c /\ published (rsa_world s) true c v1 (rsa_world s1) /\ in_step s1 /\
    restoration s1 v (Some (RestoreRefused e)) s') -> good (running (mgr (rsa_world s'))) /\ num (rsa_world s') = num (rsa_world s) + 1).
  { intros e (c & v1 & s1 & Hg & Hp & _ & (_ & Hf & _)). unfold num at 1.
    rewrite (rf_same_running _ _ _ _ _ Hf), (rf_same_version _ _ _ _ _ Hf), (pu_running _ _ _ _ _ Hp), (pu_version _ _ _ _ _ Hp).
    split; [done | apply Hp]. }
  destruct err as [| | | | | | | | | | | | [[]|] | [[]|]]; try done; by eapply Hrest.
Qed.

(** A taken-back publication ends on the configuration it started from. *)
Lemma reverted_running s c v1 s1 v s' : published (rsa_world s) true c v1 (rsa_world s1) -> reverted s1 v s' ->
  running (mgr (rsa_world s')) = running (mgr (rsa_world s)) /\ previous (mgr (rsa_world s')) = Some c /\
  num (rsa_world s') = num (rsa_world s) + 2.
Proof.
  intros Hp (c' & Hc' & Hp'). rewrite (pu_previous _ _ _ _ _ Hp) in Hc'. injection Hc' as <-.
  split_and!; [by rewrite (pu_running _ _ _ _ _ Hp') | by rewrite (pu_previous _ _ _ _ _ Hp'), (pu_running _ _ _ _ _ Hp) |].
  unfold num at 1. rewrite (pu_version _ _ _ _ _ Hp'), (proj1 (pu_number _ _ _ _ _ Hp')). unfold num at 1.
  rewrite (pu_version _ _ _ _ _ Hp), (proj1 (pu_number _ _ _ _ _ Hp)). lia.
Qed.

(** After a failure the old configuration runs, under its version or a newer one. *)
Lemma settled_failure s good v err s' : settled s good (v, Some err) s' -> out_of_step err = false -> stays err = false ->
  running (mgr (rsa_world s')) = running (mgr (rsa_world s)) /\ num (rsa_world s) <= num (rsa_world s').
Proof.
  intros (_ & _ & Hout) Hok Hst.
  assert (Hrest : forall c v1 s1 v r, published (rsa_world s) true c v1 (rsa_world s1) ->
    match r with Some (RestoreRefused _) => False | _ => True end -> restoration s1 v r s' ->
    running (mgr (rsa_world s')) = running (mgr (rsa_world s)) /\ num (rsa_world s) <= num (rsa_world s')).
  { intros c v1 s1 v2 r Hp Hr Hre. assert (Hrev : reverted s1 v2 s') by (destruct r as [[]|]; cbn in Hre; naive_solver).
    destruct (reverted_running _ _ _ _ _ _ Hp Hrev) as (-> & _ & ->). split; [done | lia]. }
  destruct err as [| | | | | | | | | | e r | | r | r];
    try (destruct Hout as [[E1 E2 _ _ _] _]; unfold num; rewrite E1, E2; split; [done | lia]); try done.
  - destruct Hout as (c & v1 & v2 & s1 & _ & Hp & _ & Hr). eapply (Hrest c v1 s1 v2 r); [done | by destruct r as [[]|] | done].
  - destruct Hout as (c & v1 & s1 & _ & Hp & _ & Hr). eapply (Hrest c v1 s1 v r); [done | by destruct r as [[]|] | done].
  - destruct Hout as (c & v1 & s1 & _ & Hp & _ & Hr). eapply (Hrest c v1 s1 v r); [done | by destruct r as [[]|] | done].
Qed.
End service.

(** ** Theorems *)

(** The engine is wired with a manager, a runtime and a privileged callback. *)
Record wired_engine (wiring : Wiring) : Prop := mkWiredEngine {
  we_config : haveConfig wiring = true;
  we_runtime : haveRuntime wiring = true;
  we_apply : wiredApply wiring <> None
}.

Section theorems.
Context {JC : JSON Config} {JR : JSON RunningFile} {JE : JSON CandidateFile}.
Variable wiring : Wiring.
Hypothesis Hwiring : wired_engine wiring.

Lemma CommitConfig_sound victim desired expected author comment operationID edit e restore env s :
  within service_rely env -> in_step s ->
  let r := run (CommitConfig wiring victim desired expected author comment operationID edit e restore) env s in
  match run_result _ r with (v, None) => answered operationID s v (run_final _ r) | _ => False end \/
  settled wiring victim operationID s (committable desired expected s) (run_result _ r) (run_final _ r).
Proof using Hwiring.
  intros Henv Hs. destruct Hwiring as [Hc Hr Ha]. destruct (wiredApply wiring) as [apply|] eqn:E; [|done].
  exact (wp_sound service_rely _ _ [] s env Henv (wp_CommitConfig wiring apply Hr E victim operationID Hc desired expected author comment edit e restore s [] Hs)).
Qed.

Lemma RollbackConfig_sound victim author comment operationID e restore env s :
  within service_rely env -> in_step s ->
  let r := run (RollbackConfig wiring victim author comment operationID e restore) env s in
  match run_result _ r with (v, None) => answered operationID s v (run_final _ r) | _ => False end \/
  settled wiring victim operationID s (fun c => previous (mgr (rsa_world s)) = Some c) (run_result _ r) (run_final _ r).
Proof using Hwiring.
  intros Henv Hs. destruct Hwiring as [Hc Hr Ha]. destruct (wiredApply wiring) as [apply|] eqn:E; [|done].
  exact (wp_sound service_rely _ _ [] s env Henv (wp_RollbackConfig wiring apply Hr E victim operationID Hc author comment e restore s [] Hs)).
Qed.

(** C8. A commit through the service of an engine that has a manager, a runtime and an
    activation of the kernel ([wired_engine]), whatever the runtime's goroutines do
    meanwhile, from a state in which the three are in step.  Success means that the
    normal form of the submitted configuration, valid and free of duplicate and
    unreachable policies, was published as the version after the one the caller named:
    in the manager, in the running file, in the kernel, whose last activation was asked
    for exactly that state and answered without error, and in the runtime; and that the
    inspection lifecycle and the removal of the activation journal were asked for that
    state and answered without error (or that the receipt of an earlier success was
    returned).  An error that is not one of [out_of_step], the failures of the
    compensation itself, leaves the three in step.  Then the old configuration runs,
    under its version or restored under a newer one, except after the errors of
    [stays], where the lifecycle failed and the manager refused to take the commit back:
    there the submitted configuration stays as the next version.  The running file
    still holds what is running unless the error is a failed write of it. *)
Theorem CommitConfig_settles victim desired expected author comment operationID edit e restore env s :
  within service_rely env -> in_step s ->
  let r := run (CommitConfig wiring victim desired expected author comment operationID edit e restore) env s in
  let s' := run_final _ r in
  match run_result _ r with
  | (v, None) =>
      answered operationID s v s' \/
      exists c calls, committable desired expected s c /\ published (rsa_world s) true c v (rsa_world s') /\ in_step s' /\ on_disk s' /\
        hookCalls s' = calls ++ hooked (AfterActivate wiring) HookAfter c (cv_Version v) true ++
                       hooked (FinalizeActivation wiring) HookFinalize c (cv_Version v) true
  | (_, Some err) =>
      (out_of_step err = false ->
       in_step s' /\
       if stays err then committable desired expected s (running (mgr (rsa_world s'))) /\ num (rsa_world s') = num (rsa_world s) + 1
       else running (mgr (rsa_world s')) = running (mgr (rsa_world s)) /\ num (rsa_world s) <= num (rsa_world s')) /\
      (write_failed err = false -> on_disk s -> on_disk s')
  end.
Proof using Hwiring.
  intros Henv Hs. cbn zeta. pose proof (CommitConfig_sound victim desired expected author comment operationID edit e restore env s Henv Hs) as H.
  cbn zeta in H. destruct (run_result _ _) as [v [err|]].
  - destruct H as [[] | H]. split; [|by eapply settled_on_disk]. intros Hok.
    split; [eapply settled_in_step; [done | done | by intros ? [= <-]]|].
    destruct (stays err) eqn:Est; [by eapply settled_stays | by eapply settled_failure].
  - destruct H as [H | (_ & _ & (c & calls & Hg & Hp & Hin & Hh))]; [by left | right].
    exists c, calls. split_and!; [done.. | by eapply published_on_disk | done].
Qed.

(** ** Histories *)

Inductive ServiceOp : Type :=
| OpCommit (desired : Config) (expected : Z) (author comment operationID : string) (edit : EditorEnv) (e restore : PersistEnv)
| OpRollback (author comment operationID : string) (e restore : PersistEnv).

Definition perform_service (victim : gmap string ConfigVersion -> option string) (op : ServiceOp) : SV (ConfigVersion * option ServiceError) :=
  match op with
  | OpCommit desired expected author comment operationID edit e restore =>
      CommitConfig wiring victim desired expected author comment operationID edit e restore
  | OpRollback author comment operationID e restore => RollbackConfig wiring victim author comment operationID e restore
  end.

(** One operation after the other; the operator stops when a compensation failed. *)
Inductive service_history victim (s0 : RuntimeServiceAdapter) : RuntimeServiceAdapter -> Prop :=
| service_start : service_history victim s0 s0
| service_next s op env : service_history victim s0 s -> within service_rely env ->
    match (run_result _ (run (perform_service victim op) env s)).2 with Some err => out_of_step err = false | None => True end ->
    service_history victim s0 (run_final _ (run (perform_service victim op) env s)).

(** The key that ranging over a map meets first. *)
Definition first_key (victim : gmap string ConfigVersion -> option string) : Prop :=
  forall m, m <> ∅ -> exists id, victim m = Some id /\ is_Some (m !! id).

Lemma remembered_bounded victim operationID v m : first_key victim -> Z.of_nat (size m) <= 1024 ->
  Z.of_nat (size (remembered_by victim operationID v m)) <= 1024.
Proof.
  intros Hv Hm. unfold remembered_by. case_bool_decide; [done|].
  assert (Hins : forall m' : gmap string ConfigVersion, Z.of_nat (size m') <= 1023 -> Z.of_nat (size (<[operationID := v]> m')) <= 1024).
  { intros m' H'. pose proof (map_size_insert operationID v m') as E. destruct (m' !! operationID); cbn in E; rewrite E; lia. }
  destruct (Z.leb_spec 1024 (Z.of_nat (size m))); [|apply Hins; lia].
  destruct (Hv m) as (id & -> & Hid). { intros ->. by rewrite map_size_empty in *. }
  apply Hins. rewrite map_size_delete. destruct Hid as [x ->]. lia.
Qed.

Lemma service_step victim op env s : first_key victim -> within service_rely env -> in_step s -> Z.of_nat (size (receipts s)) <= 1024 ->
  let r := run (perform_service victim op) env s in
  match (run_result _ r).2 with Some err => out_of_step err = false | None => True end ->
  in_step (run_final _ r) /\ closed_gates s (run_final _ r) /\ Z.of_nat (size (receipts (run_final _ r))) <= 1024.
Proof using Hwiring.
  intros Hv Henv Hs Hm r Hok.
  assert (H : exists id good, match run_result _ r with (v, None) => answered id s v (run_final _ r) | _ => False end \/
                settled wiring victim id s good (run_result _ r) (run_final _ r)).
  { destruct op as [desired expected author comment id edit e restore | author comment id e restore]; exists id; eexists;
      [by apply CommitConfig_sound | by apply RollbackConfig_sound]. }
  destruct H as (id & good & [H | H]).
  - destruct (run_result _ r) as [v [err|]]; [done|]. destruct H as (_ & _ & Hsame).
    pose proof (rely_only_hooks _ _ Hsame) as (Hc & -> & Eg). split_and!; [by eapply in_step_core | by apply closed_gates_same | done].
  - split_and!; [eapply settled_in_step; [done | done |] | apply H |].
    { intros err E. by rewrite E in Hok. }
    destruct H as (_ & -> & _). destruct (run_result _ r) as [v [err|]]; [done | by apply remembered_bounded].
Qed.

(** C9. In an engine wired as above that starts in step and with at most 1024 receipts,
    any sequence of commits and rollbacks in which no operation ends in one of the
    [out_of_step] errors, each interleaved with the runtime's goroutines, keeps the
    manager, the kernel (its last activation is the running configuration under its
    version, answered without error) and the runtime in step, opens and closes the
    inspection gate in pairs, and keeps at most 1024 receipts. *)
Theorem service_stays_in_step victim s0 s :
  service_history victim s0 s -> first_key victim -> in_step s0 -> Z.of_nat (size (receipts s0)) <= 1024 ->
  in_step s /\ closed_gates s0 s /\ Z.of_nat (size (receipts s)) <= 1024.
Proof using Hwiring.
  intros Hh Hv H0 Hm0. induction Hh as [| s op env Hh IH Henv Hok]; [split_and!; [done | by apply closed_gates_same | done]|].
  destruct IH as (Hs & Hg & Hm). destruct (service_step victim op env s Hv Henv Hs Hm Hok) as (? & ? & ?).
  split_and!; [done | by eapply closed_gates_trans | done].
Qed.

(** Retrying is safe: once an operation was answered with success, repeating its
    identifier, as a commit or a rollback and with any arguments, answers the same
    version and changes neither the configuration, the kernel, the runtime nor the
    callbacks. *)
Theorem retry_is_idempotent victim op operationID op' env env' s v :
  within service_rely env -> within service_rely env' -> in_step s ->
  match op with OpCommit _ _ _ _ id _ _ _ | OpRollback _ _ id _ _ => id = operationID end ->
  match op' with OpCommit _ _ _ _ id _ _ _ | OpRollback _ _ id _ _ => id = operationID end ->
  operationID <> "" ->
  run_result _ (run (perform_service victim op) env s) = (v, None) ->
  let s1 := run_final _ (run (perform_service victim op) env s) in
  let r := run (perform_service victim op') env' s1 in
  run_result _ r = (v, None) /\ service_rely s1 (run_final _ r).
Proof using Hwiring.
  intros Henv Henv' Hs Hid Hid' Hne Hres s1 r.
  assert (H1 : receipts s1 !! operationID = Some v).
  { assert (H : exists good, answered operationID s v s1 \/ settled wiring victim operationID s good (v, None) s1).
    { destruct op as [desired expected author comment id edit e restore | author comment id e restore]; subst id; eexists; rewrite <- Hres;
        [pose proof (CommitConfig_sound victim desired expected author comment operationID edit e restore env s Henv Hs) as H
        |pose proof (RollbackConfig_sound victim author comment operationID e restore env s Henv Hs) as H]; cbn zeta in H;
        subst s1; cbn [perform_service] in *; rewrite Hres in *; exact H. }
    destruct H as (good & [(_ & Hrec & Hsame) | (_ & Hrec & _)]).
    - pose proof (rely_only_hooks _ _ Hsame) as (_ & -> & _). done.
    - rewrite Hrec. unfold remembered_by. rewrite bool_decide_eq_false_2 by done. by rewrite lookup_insert_eq. }
  clear Hres. clearbody s1. destruct Hwiring as [Hc Hr Ha]. destruct (wiredApply wiring) as [apply|] eqn:E; [|done].
  refine (wp_sound service_rely _ (fun out _ s' => out = (v, None) /\ service_rely s1 s') [] s1 env' Henv' _).
  pose proof (wired wiring apply E Hc) as Hw.
  destruct op' as [desired expected author comment id edit e restore | author comment id e restore]; subst id;
    cbn [perform_service]; unfold CommitConfig, RollbackConfig; rewrite Hw; cbn [negb]; apply wp_receipt; intros known tr s2 H2 Hk;
    rewrite bool_decide_eq_false_2 in Hk by done; rewrite H1 in Hk; subst known; by cbn.
Qed.
End theorems.

(** ** Examples *)

#[local] Instance demo_JC : JSON Config := demo_JSON demo_candidate.
#[local] Instance demo_JR : JSON RunningFile := demo_JSON demo_file.
#[local] Instance demo_JE : JSON CandidateFile := demo_JSON (mkCandidateFile 1 None None None).

Definition demo_program : Program := match compileRuntimeProgram Defaults 3 with Ok p => p | Err _ => program_zero true 0 end.
Definition demo_service : RuntimeServiceAdapter :=
  mkAdapter (demo_world <| applied := [(Defaults, 3, true)] |>) (NewRuntime demo_program 3 DefaultRuntimeLimits [] 77) ∅ [].
Definition demo_wiring (after : option Hook) : Wiring := mkWiring true true (Some always) None after (Some (fun _ _ _ => true)) None.
Definition demo_edit : EditorEnv := mkEditorEnv true true true true true true true true.
Definition demo_victim (m : gmap string ConfigVersion) : option string := fst <$> head (map_to_list m).
Definition demo_service_commit (after : option Hook) : SV (ConfigVersion * option ServiceError) :=
  CommitConfig (demo_wiring after) demo_victim demo_candidate 3 "ops" "open the shop" "op-1" demo_edit persist_ok persist_ok.

Lemma demo_wired after : wired_engine (demo_wiring after).
Proof. by constructor. Qed.

Lemma demo_in_step : in_step demo_service.
Proof.
  constructor; [split; [vm_compute; discriminate | vm_compute; reflexivity] | vm_compute; reflexivity | | vm_compute; reflexivity].
  exists Defaults, demo_program. split; [by left|]. split; vm_compute; reflexivity.
Qed.

Lemma demo_first_key : first_key demo_victim.
Proof.
  intros m Hm. unfold demo_victim. destruct (map_to_list m) as [| [k x] l] eqn:E; [by apply map_to_list_empty_iff in E|].
  exists k. split; [done|]. exists x. apply elem_of_map_to_list. rewrite E. by left.
Qed.

(** A failing sensor takes the commit back: the old configuration runs as version 5. *)
Lemma CommitConfig_settles_witness :
  let r := run (demo_service_commit (Some (fun n _ _ => negb (Nat.eqb n 0)))) [] demo_service in
  (run_result _ r).2 = Some (LifecycleFailed None) /\
  running (mgr (rsa_world (run_final _ r))) = Defaults /\ num (rsa_world (run_final _ r)) = 5 /\ in_step (run_final _ r).
Proof.
  set (after := Some (fun n (_ : Config) (_ : Z) => negb (Nat.eqb n 0))). set (r := run (demo_service_commit after) [] demo_service).
  assert (Hr : (run_result _ r).2 = Some (LifecycleFailed None)) by (vm_compute; reflexivity).
  pose proof (CommitConfig_settles (demo_wiring after) (demo_wired after) demo_victim demo_candidate 3 "ops" "open the shop" "op-1"
    demo_edit persist_ok persist_ok [] demo_service ltac:(constructor) demo_in_step) as H. cbn zeta in H.
  fold (demo_service_commit after) in H. fold r in H. destruct (run_result _ r) as [v [err|]]; [|done].
  cbn [snd] in Hr. injection Hr as ->. destruct H as [H _]. destruct (H eq_refl) as [Hs [Erun _]].
  split; [done|]. split; [exact Erun|]. split; [vm_compute; reflexivity | exact Hs].
Defined.

Lemma service_stays_in_step_witness :
  exists s, service_history (demo_wiring None) demo_victim demo_service s /\ num (rsa_world s) = 4 /\ in_step s.
Proof.
  set (op := OpCommit demo_candidate 3 "ops" "open the shop" "op-1" demo_edit persist_ok persist_ok).
  set (s := run_final _ (run (perform_service (demo_wiring None) demo_victim op) [] demo_service)). exists s.
  assert (Hh : service_history (demo_wiring None) demo_victim demo_service s).
  { apply service_next; [constructor | constructor | vm_compute; exact I]. }
  split; [exact Hh|]. split; [vm_compute; reflexivity|].
  exact (proj1 (service_stays_in_step (demo_wiring None) (demo_wired None) demo_victim demo_service s Hh demo_first_key demo_in_step
    ltac:(vm_compute; discriminate))).
Defined.

Lemma retry_is_idempotent_witness :
  let s1 := run_final _ (run (demo_service_commit None) [] demo_service) in
  run_result _ (run (RollbackConfig (demo_wiring None) demo_victim "ops" "retry" "op-1" persist_ok persist_ok) [] s1) = (demo_version, None).
Proof.
  refine (proj1 (retry_is_idempotent (demo_wiring None) (demo_wired None) demo_victim
    (OpCommit demo_candidate 3 "ops" "open the shop" "op-1" demo_edit persist_ok persist_ok) "op-1"
    (OpRollback "ops" "retry" "op-1" persist_ok persist_ok) [] [] demo_service demo_version _ _ demo_in_step _ _ _ _));
    [constructor | constructor | reflexivity | reflexivity | discriminate | vm_compute; reflexivity].
Defined.
