(* ===== verification/Observation.v ===== *)
(** * Sensor observations

    [internal/inspection/source.go] and [application.go], with the security
    events of [internal/domain/security_event_m3.go]: what a sensor reports,
    which application an observation is evidence for, and how the evidence for
    one session is merged.  [Clone] methods copy; on immutable values they are
    the identity. *)

From S2P Require Import Prelude GoStr Netip Domain.

(** ** Data *)

Record SourcePosition : Type := mkSourcePosition {
  so_SensorID : string;
  so_SensorEpoch : string;
  so_SensorConfigHash : string;
  so_RulesetID : string;
  so_Mode : InspectionMode;
  so_FileGeneration : string;
  so_ByteStart : Z;
  so_ByteEnd : Z
}.

Record AlertObservation : Type := mkAlertObservation {
  al_SignatureID : Z;
  al_HasSignatureID : bool;
  al_SignatureRevision : Z;
  al_Signature : string;
  al_Category : string;
  al_Severity : option Z;
  al_SignatureAction : string;
  al_PacketVerdict : option string;
  al_InternalDiscovery : bool
}.

Record ProtocolMetadata : Type := mkProtocolMetadata {
  pm_HTTPHost : string;
  pm_HTTPMethod : string;
  pm_HTTPPath : string;
  pm_TLSSNI : string;
  pm_TLSVersion : string;
  pm_ALPN : list string;
  pm_DNSQuery : string;
  pm_DNSRecordType : string;
  pm_SSHBanner : string
}.

Record SensorCounters : Type := mkSensorCounters {
  sc_UptimeSeconds : option Z;
  sc_CapturedPackets : option Z;
  sc_CaptureDrops : option Z;
  sc_NFQueueDrops : option Z;
  sc_SourceTimestamp : option Time
}.

Record Observation : Type := mkObservation {
  ob_ID : string;
  ob_Source : SourcePosition;
  ob_Kind : string;
  ob_ObservedAt : option Time;
  ob_IngestedAt : Time;
  ob_FlowID : Z;
  ob_HasFlowID : bool;
  ob_TransactionID : option Z;
  ob_Tuple : option Tuple;
  ob_FlowTuple : option Tuple;
  ob_FlowStart : option Time;
  ob_FlowEnd : option Time;
  ob_Direction : string;
  ob_App : ApplicationIdentity;
  ob_Alert : option AlertObservation;
  ob_Protocol : option ProtocolMetadata;
  ob_Stats : option SensorCounters;
  ob_MissingEvidence : list string;
  ob_Truncated : bool
}.

#[global] Instance eta_Observation : Eta Observation := fun o =>
  mkObservation (ob_ID o) (ob_Source o) (ob_Kind o) (ob_ObservedAt o) (ob_IngestedAt o) (ob_FlowID o) (ob_HasFlowID o)
    (ob_TransactionID o) (ob_Tuple o) (ob_FlowTuple o) (ob_FlowStart o) (ob_FlowEnd o) (ob_Direction o) (ob_App o)
    (ob_Alert o) (ob_Protocol o) (ob_Stats o) (ob_MissingEvidence o) (ob_Truncated o).

Record ThreatEvent : Type := mkThreatEvent {
  te_EventID : string;
  te_Sequence : Z;
  te_ObservedAt : option Time;
  te_IngestedAt : Time;
  te_EventClass : string;
  te_Source : string;
  te_SensorID : string;
  te_SensorEpoch : string;
  te_SensorConfigHash : string;
  te_RulesetID : string;
  te_CaptureMode : InspectionMode;
  te_SuricataFlowID : string;
  te_TransactionID : option string;
  te_ObservedTuple : option Tuple;
  te_FlowTuple : option Tuple;
  te_ProtocolRaw : string;
  te_SessionID : string;
  te_PolicyID : string;
  te_PolicyGeneration : Z;
  te_CorrelationState : CorrelationState;
  te_CorrelationReason : string;
  te_CorrelationRevision : Z;
  te_SignatureID : Z;
  te_SignatureRevision : Z;
  te_Signature : string;
  te_Category : string;
  te_SourceSeverity : option Z;
  te_Severity : Severity;
  te_Application : ApplicationIdentity;
  te_SignatureAction : string;
  te_PacketVerdict : string;
  te_Verdict : LatestVerdict;
  te_Enforcement : EnforcementResult
}.

#[global] Instance eta_ThreatEvent : Eta ThreatEvent := fun e =>
  mkThreatEvent (te_EventID e) (te_Sequence e) (te_ObservedAt e) (te_IngestedAt e) (te_EventClass e) (te_Source e)
    (te_SensorID e) (te_SensorEpoch e) (te_SensorConfigHash e) (te_RulesetID e) (te_CaptureMode e) (te_SuricataFlowID e)
    (te_TransactionID e) (te_ObservedTuple e) (te_FlowTuple e) (te_ProtocolRaw e) (te_SessionID e) (te_PolicyID e)
    (te_PolicyGeneration e) (te_CorrelationState e) (te_CorrelationReason e) (te_CorrelationRevision e) (te_SignatureID e)
    (te_SignatureRevision e) (te_Signature e) (te_Category e) (te_SourceSeverity e) (te_Severity e) (te_Application e)
    (te_SignatureAction e) (te_PacketVerdict e) (te_Verdict e) (te_Enforcement e).

#[global] Instance eta_EnforcementResult : Eta EnforcementResult := fun e =>
  mkEnforcementResult (er_Mechanism e) (er_Scope e) (er_RequestedAction e) (er_Status e) (er_Reason e) (er_ObservedAt e) (er_OperationID e).

#[global] Instance CorrelationState_eq_dec : EqDecision CorrelationState.
Proof. solve_decision. Defined.

(** ** Applications *)

Abbreviation NormalizeZero := ApplicationIdentity_NormalizeZero (only parsing).

Definition NormalizeApplication (raw : string) : ApplicationIdentity :=
  let value := ToUpper (TrimSpace raw) in
  if bool_decide (value ∈ [""; "UNKNOWN"; "FAILED"; "UNDETECTED"]) then UnknownApplication
  else
    let known := bool_decide (value ∈ ["HTTP"; "TLS"; "DNS"; "SSH"]) in
    mkApplicationIdentity (if known then value else "OTHER") raw ApplicationSourceSuricataAppProto
      (if known then ApplicationConfidenceHigh else ApplicationConfidenceMedium) None None 0 false "".

Definition nonblank (s : string) : bool := negb (bool_decide (s = "")).

(** The protocol fields of an observation, in the order of the switch. *)
Definition protocol_application (p : ProtocolMetadata) : option ApplicationIdentity :=
  if nonblank (pm_HTTPHost p) || nonblank (pm_HTTPMethod p) || nonblank (pm_HTTPPath p) then Some (NormalizeApplication "HTTP")
  else if nonblank (pm_TLSSNI p) || nonblank (pm_TLSVersion p) then Some (NormalizeApplication "TLS")
  else if nonblank (pm_DNSQuery p) || nonblank (pm_DNSRecordType p) then Some (NormalizeApplication "DNS")
  else if nonblank (pm_SSHBanner p) then Some (NormalizeApplication "SSH")
  else None.

Definition ApplicationFromObservation (obs : Observation) : ApplicationIdentity :=
  let identity := NormalizeZero (ob_App obs) in
  let identity :=
    if bool_decide (ai_Name identity = "UNKNOWN")
    then match ob_Protocol obs with Some p => default identity (protocol_application p) | None => identity end else identity in
  let identity := match ob_ObservedAt obs with
                  | Some t => identity <| ai_FirstSeen := Some t |> <| ai_LastSeen := Some t |>
                  | None => identity
                  end in
  NormalizeZero identity.

Definition confidence_rank (c : ApplicationConfidence) : Z :=
  match c with
  | ApplicationConfidenceVerified => 5
  | ApplicationConfidenceHigh => 4
  | ApplicationConfidenceMedium => 3
  | ApplicationConfidenceLow => 2
  | _ => 1
  end.

Definition applicationObservedTime (value : ApplicationIdentity) : option Time :=
  match ai_LastSeen value with Some t => Some t | None => ai_FirstSeen value end.

Definition time_order (previous next : ApplicationIdentity) : Z :=
  match applicationObservedTime previous, applicationObservedTime next with
  | Some p, Some n => if After n p then 1 else if Before n p then -1 else 0
  | None, Some _ => 1
  | _, None => 0
  end.

(** Which identity is kept, before the times are joined. *)
Definition merge_choice (previous next : ApplicationIdentity) : ApplicationIdentity :=
  let rp := confidence_rank (ai_Confidence previous) in
  let rn := confidence_rank (ai_Confidence next) in
  if bool_decide (ai_Name previous = ai_Name next) then if rp <? rn then next else previous
  else if rn <? rp then previous
  else if 0 <? time_order previous next then next <| ai_Conflicted := false |>
  else if (time_order previous next =? 0) && (rn =? rp) then previous <| ai_Conflicted := true |>
  else if rp <? rn then next
  else previous.

(** [if value != nil && (kept == nil || better(value, kept)) { kept = value }]. *)
Definition keep_time (better : Time -> Time -> bool) (value kept : option Time) : option Time :=
  match value, kept with
  | None, _ => kept
  | Some v, None => Some v
  | Some v, Some k => if better v k then Some v else Some k
  end.

Definition MergeApplication (previous next : ApplicationIdentity) : ApplicationIdentity :=
  let previous := NormalizeZero previous in
  let next := NormalizeZero next in
  if bool_decide (ai_Name previous = "UNKNOWN") then next <| ai_Revision := u64 (ai_Revision previous + 1) |>
  else if bool_decide (ai_Name next = "UNKNOWN") then previous
  else
    let result := merge_choice previous next in
    let first := keep_time Before (ai_FirstSeen next) (keep_time Before (ai_FirstSeen previous) (ai_FirstSeen result)) in
    let last := keep_time After (ai_LastSeen next) (keep_time After (ai_LastSeen previous) (ai_LastSeen result)) in
    NormalizeZero (result <| ai_FirstSeen := first |> <| ai_LastSeen := last |> <| ai_Revision := u64 (ai_Revision previous + 1) |>).
