(* ===== verification/Reducer.v ===== *)
(** * Reducing an observation into a session

    [internal/engine/inspection_reducer.go]: the pure step that folds a sensor
    observation into the inspection state of a session: application evidence,
    threats, the application restriction of the policy, and the request for a
    session guard when an inline profile meets strong evidence of an
    application that is not allowed. *)

From S2P Require Import Prelude GoStr Netip Domain Config Connectivity EventRing Observation.

(** ** Helpers *)

Definition strongApplication (app : ApplicationIdentity) : bool :=
  if ai_Conflicted app || bool_decide (ai_Source app = ApplicationSourcePortHeuristic) then false
  else bool_decide (ai_Confidence app = ApplicationConfidenceHigh) || bool_decide (ai_Confidence app = ApplicationConfidenceVerified).

Definition mapSuricataSeverity (raw : option Z) : Severity :=
  match raw with
  | Some n => if n =? 1 then SeverityHigh else if n =? 2 then SeverityMedium else if n =? 3 then SeverityLow else SeverityUnknown
  | None => SeverityUnknown
  end.

Definition severity_rank (v : Severity) : Z :=
  match v with SeverityHigh | SeverityCritical => 3 | SeverityMedium => 2 | SeverityLow => 1 | _ => 0 end.

Definition maxThreatSeverity (a b : Severity) : Severity := if severity_rank a <? severity_rank b then b else a.

(** The first occurrences of the non-empty values, sorted and cut. *)
Fixpoint first_occurrences (seen values : list string) : list string :=
  match values with
  | [] => []
  | v :: rest => if bool_decide (v = "") || bool_decide (v ∈ seen) then first_occurrences seen rest
                 else v :: first_occurrences (v :: seen) rest
  end.

Definition boundedStrings (values : list string) (value : string) (max : nat) : list string :=
  take max (sort_by str_lt (first_occurrences [] (values ++ [value]))).

Definition no_enforcement : EnforcementResult :=
  mkEnforcementResult EnforcementNone EnforcementScopePacket DecisionNone EnforcementNotRequested "" None "".

(** ** Threats *)

(** What an inline sensor's report says about a dropped packet. *)
Definition inline_reason (packetVerdict signatureAction : string) : string :=
  if EqualFold packetVerdict "drop" || EqualFold packetVerdict "blocked" then "packet verdict reported by Suricata"
  else if EqualFold signatureAction "blocked" && bool_decide (TrimSpace packetVerdict = "")
       then "signature action reported blocked; final packet verdict unavailable" else "".

Definition with_alert (obs : Observation) (alert : AlertObservation) (event : ThreatEvent) : ThreatEvent :=
  let packetVerdict := default (te_PacketVerdict event) (al_PacketVerdict alert) in
  let event := event <| te_SignatureID := al_SignatureID alert |> <| te_SignatureRevision := al_SignatureRevision alert |>
                     <| te_Signature := al_Signature alert |> <| te_Category := al_Category alert |>
                     <| te_SourceSeverity := al_Severity alert |> <| te_SignatureAction := al_SignatureAction alert |>
                     <| te_PacketVerdict := packetVerdict |> <| te_Severity := mapSuricataSeverity (al_Severity alert) |> in
  let packetDrop := EqualFold packetVerdict "drop" || EqualFold packetVerdict "blocked" in
  let signatureBlocked := EqualFold (al_SignatureAction alert) "blocked" in
  let inline := bool_decide (so_Mode (ob_Source obs) = InspectionModeIPS) in
  if negb inline && (packetDrop || signatureBlocked) then
    event <| te_Verdict := VerdictUnknown |>
          <| te_Enforcement ::= fun e => e <| er_Reason := "non-inline sensor reported blocked traffic; inline enforcement unavailable" |> |>
  else if inline && nonblank (inline_reason packetVerdict (al_SignatureAction alert)) then
    event <| te_Verdict := VerdictDrop |>
          <| te_Enforcement := mkEnforcementResult EnforcementSuricataNFQueue EnforcementScopePacket DecisionDrop EnforcementReported
                                 (inline_reason packetVerdict (al_SignatureAction alert)) (ob_ObservedAt obs) "" |>
  else event.

Definition ThreatFromObservation (obs : Observation) (sessionID : string) (selection : InspectionSelection) : ThreatEvent :=
  let s := ob_Source obs in
  let event :=
    mkThreatEvent (ob_ID obs) 0 (ob_ObservedAt obs) (ob_IngestedAt obs) "security" "SURICATA" (so_SensorID s) (so_SensorEpoch s)
      (so_SensorConfigHash s) (so_RulesetID s) (so_Mode s) (if ob_HasFlowID obs then itoa (ob_FlowID obs) else "")
      (itoa <$> ob_TransactionID obs) (ob_Tuple obs) (ob_FlowTuple obs)
      (match ob_Tuple obs with Some t => itoa (tp_Protocol t) | None => "" end) sessionID (is_PolicyID selection)
      (is_Generation selection) CorrelationCorrelated "runtime session resolved" 0 0 0 "" "" None SeverityUnknown
      (ApplicationFromObservation obs) "" "" VerdictAlert no_enforcement in
  match ob_Alert obs with Some alert => with_alert obs alert event | None => event end.

(** ** The application restriction *)

Definition EvaluateAppRestriction (selection : InspectionSelection) (app : ApplicationIdentity) (deadline : option Time) (now : Time)
  : AppPolicyState * string :=
  if bool_decide (is_AllowedApps selection = []) then (AppPolicyNotApplicable, "policy has no application restriction")
  else
    let app := NormalizeZero app in
    if ai_Conflicted app then (AppPolicyUnknownAllowed, "application evidence conflicts; fail-open")
    else if bool_decide (ai_Name app = "UNKNOWN") || negb (strongApplication app) then
      match deadline with
      | Some d => if negb (Before now d) then (AppPolicyUnknownAllowed, "application detection timeout; fail-open")
                  else (AppPolicyPending, "waiting for strong application evidence")
      | None => (AppPolicyPending, "waiting for strong application evidence")
      end
    else if existsb (fun allowed => EqualFold (TrimSpace allowed) (ai_Name app)) (is_AllowedApps selection)
         then (AppPolicyMatched, "application is allowed by policy")
    else (AppPolicyMismatch, "application is not allowed by policy").

Definition ComputeEffectiveDecision (base : Decision) (inspectionState : option SessionInspection) (revoked : bool) : Decision :=
  if revoked then DecisionDrop
  else match inspectionState with
       | Some i => let e := si_Enforcement i in
                   if bool_decide (er_Mechanism e = EnforcementNFTSessionGuard) && bool_decide (er_Status e = EnforcementApplied) &&
                      bool_decide (er_RequestedAction e = DecisionDrop) then DecisionDrop else base
       | None => base
       end.

(** ** The reduction *)

Record InspectionReduction : Type := mkInspectionReduction {
  ir_Next : SessionInspection;
  ir_Threat : option ThreatEvent;
  ir_Intents : list InspectionIntent;
  ir_Notifications : list RuntimeEvent
}.

Definition guard_status (e : EnforcementResult) (status : EnforcementStatus) : bool :=
  bool_decide (er_Mechanism e = EnforcementNFTSessionGuard) && bool_decide (er_Status e = status).

(** Coverage, times and sources of an observation that has an identifier. *)
Definition observe (obs : Observation) (next : SessionInspection) : SessionInspection :=
  if bool_decide (ob_ID obs = "") then next
  else
    let observed := default (ob_IngestedAt obs) (ob_ObservedAt obs) in
    next <| si_Coverage := CoverageObserved |>
         <| si_FirstObservedAt ::= fun t => Some (default observed t) |>
         <| si_LastObservedAt := Some observed |>
         <| si_Sources ::= fun l => boundedStrings l (so_SensorID (ob_Source obs) +:+ ":" +:+ so_SensorEpoch (ob_Source obs)) 2 |>.

Definition identify (obs : Observation) (next : SessionInspection) : SessionInspection :=
  let identity := (ApplicationFromObservation obs) <| ai_EvidenceID := ob_ID obs |> in
  if negb (bool_decide (ai_Name identity = "UNKNOWN"))
  then next <| si_Application ::= fun a => MergeApplication a identity |>
  else next <| si_Application ::= NormalizeZero |>.

(** The alert that counts: diagnostics of the sensor itself do not. *)
Definition threat_of (obs : Observation) (sessionID : string) (selection : InspectionSelection) : option ThreatEvent :=
  match ob_Alert obs with
  | Some alert => if al_InternalDiscovery alert then None else Some (ThreatFromObservation obs sessionID selection)
  | None => None
  end.

Definition record_threat (threat : option ThreatEvent) (next : SessionInspection) : SessionInspection :=
  match threat with
  | None => next
  | Some threat =>
      if bool_decide (si_LastEventID next = te_EventID threat) then next
      else
        let next := next <| si_ThreatCount ::= inc64 |> <| si_LastEventID := te_EventID threat |>
                         <| si_MaxSeverity ::= fun s => maxThreatSeverity s (te_Severity threat) |>
                         <| si_LatestVerdict := te_Verdict threat |> in
        if guard_status (si_Enforcement next) EnforcementPending || guard_status (si_Enforcement next) EnforcementApplied then next
        else next <| si_Enforcement := te_Enforcement threat |>
  end.

(** The policy state of the application; a pending guard that is no longer justified
    is given up. *)
Definition restrict (selection : InspectionSelection) (now : Time) (next : SessionInspection) : SessionInspection :=
  let '(state, reason) := EvaluateAppRestriction selection (si_Application next) (si_AppDeadline next) now in
  let next := next <| si_AppPolicyState := state |> <| si_Reason := reason |> in
  if guard_status (si_Enforcement next) EnforcementPending &&
     (negb (bool_decide (state = AppPolicyMismatch)) || negb (bool_decide (is_Mode selection = InspectionModeIPS)) ||
      negb (strongApplication (si_Application next)))
  then next <| si_Enforcement ::= fun e => e <| er_Status := EnforcementUnavailable |>
                                            <| er_Reason := "pending application guard superseded by current evidence" |> |>
  else next.

Definition app_timeout (selection : InspectionSelection) : Duration :=
  let timeout := i64 (is_AppDetectionTimeoutMillis selection * Millisecond) in
  if timeout <=? 0 then 5 * Second else timeout.

Definition set_deadline (selection : InspectionSelection) (now : Time) (next : SessionInspection) : SessionInspection :=
  if negb (bool_decide (is_AllowedApps selection = [])) && bool_decide (si_AppDeadline next = None)
  then next <| si_AppDeadline := Some (now + app_timeout selection) |> else next.

Definition guard_wanted (selection : InspectionSelection) (next : SessionInspection) : bool :=
  bool_decide (si_AppPolicyState next = AppPolicyMismatch) && bool_decide (is_Mode selection = InspectionModeIPS) &&
  negb (ai_Conflicted (si_Application next)) && strongApplication (si_Application next) &&
  negb (bool_decide (er_RequestedAction (si_Enforcement next) = DecisionDrop) &&
        (guard_status (si_Enforcement next) EnforcementPending || guard_status (si_Enforcement next) EnforcementApplied)).

Definition guard_operation (sessionID : string) (next : SessionInspection) : string :=
  "app-guard-" +:+ sessionID +:+ "-" +:+ itoa (u64 (si_Revision next + 1)).

Definition security_notification (sessionID : string) (threat : ThreatEvent) (generation : Z) (now : Time) : RuntimeEvent :=
  mkRuntimeEvent 0 0 "SecurityAlert" "security" sessionID now generation 0 "" 0 (te_EventID threat) 0.

Definition application_notification (sessionID : string) (generation : Z) (now : Time) : RuntimeEvent :=
  mkRuntimeEvent 0 0 "ApplicationIdentified" "inspection" sessionID now generation 0 "" 0 "" 0.

(** The inspection state before a guard is asked for. *)
Definition reduced (current : RuntimeSession) (selection : InspectionSelection) (obs : Observation) (now : Time) : SessionInspection :=
  let next := default DefaultSessionInspection (rs_Inspection current) in
  let next := next <| si_Generation := is_Generation selection |> <| si_ProfileID := is_ProfileID selection |> <| si_Mode := is_Mode selection |> in
  let next := observe obs (next <| si_State := InspectionStateInspecting |>) in
  let next := record_threat (threat_of obs (rs_SessionID current) selection) (identify obs next) in
  set_deadline selection now (restrict selection now next).

(** [clock] is what [time.Now()] answers for a zero [now]. *)
Definition ReduceInspection (current : RuntimeSession) (selection : InspectionSelection) (obs : Observation) (now clock : Time)
  : InspectionReduction :=
  let now := if IsZero now then clock else now in
  if bool_decide (is_Mode selection = InspectionModeOff) then
    let next := default DefaultSessionInspection (rs_Inspection current) in
    mkInspectionReduction
      (next <| si_Generation := is_Generation selection |> <| si_ProfileID := is_ProfileID selection |> <| si_Mode := is_Mode selection |>
            <| si_State := InspectionStateNotRequested |> <| si_Coverage := CoverageNone |>
            <| si_AppPolicyState := AppPolicyNotApplicable |> <| si_Reason := "policy does not select inspection" |>) None [] []
  else
    let sessionID := rs_SessionID current in
    let next := reduced current selection obs now in
    let threat := threat_of obs sessionID selection in
    let alerts := match threat with Some t => [security_notification sessionID t (is_Generation selection) now] | None => [] end in
    let identified :=
      match rs_Inspection current with
      | Some i => if bool_decide (ai_Name (si_Application i) = ai_Name (si_Application next)) then []
                  else [application_notification sessionID (is_Generation selection) now]
      | None => [application_notification sessionID (is_Generation selection) now]
      end in
    if guard_wanted selection next then
      let operation := guard_operation sessionID next in
      mkInspectionReduction
        (next <| si_Enforcement := mkEnforcementResult EnforcementNFTSessionGuard EnforcementScopeSession DecisionDrop EnforcementPending
                                     (si_Reason next) None operation |>)
        threat
        [mkInspectionIntent IntentInstallAppGuard operation sessionID (rs_Identity current) (is_Generation selection)
           (u64 (si_Revision next + 1)) DecisionDrop "APP_POLICY" (si_Reason next)]
        (alerts ++ identified)
    else mkInspectionReduction next threat [] (alerts ++ identified).
