(* ===== verification/ReducerProps.v ===== *)
(** * Properties of the reduction

    When a session guard is asked for and that the fence will accept it, that a
    guard in force survives any observation, and that evidence only grows. *)

From S2P Require Import Prelude GoStr Netip Domain Config Connectivity EventRing Observation Reducer.
From S2P Require Import Flow SessionStore StoreInv StoreProps.

(** ** Application evidence *)

Lemma NormalizeZero_rank a : confidence_rank (ai_Confidence (NormalizeZero a)) = confidence_rank (ai_Confidence a).
Proof.
  unfold ApplicationIdentity_NormalizeZero. repeat case_bool_decide; cbn in *; try done.
  all: destruct a as [? ? ? c ? ? ? ? ?]; cbn in *; by subst.
Qed.

Lemma NormalizeZero_strong a : strongApplication (NormalizeZero a) = strongApplication a.
Proof.
  unfold strongApplication, ApplicationIdentity_NormalizeZero. destruct a as [n r s c f l v x e]; cbn.
  repeat case_bool_decide; cbn in *; subst; try done; by rewrite ?andb_false_r.
Qed.

(** Merging never weakens the evidence, and what it keeps is one of the two. *)
Lemma merge_choice_rank p n : confidence_rank (ai_Confidence p) <= confidence_rank (ai_Confidence (merge_choice p n)).
Proof. unfold merge_choice. repeat case_match; cbn; lia. Qed.

(** ** The steps of the reduction *)

(** What no step changes. *)
Definition fence (n : SessionInspection) : Z * Z * InspectionMode := (si_Generation n, si_Revision n, si_Mode n).

Lemma fence_observe obs n : fence (observe obs n) = fence n.
Proof. unfold observe. by case_bool_decide. Qed.
Lemma fence_identify obs n : fence (identify obs n) = fence n.
Proof. unfold identify. by destruct (negb _). Qed.
Lemma fence_record t n : fence (record_threat t n) = fence n.
Proof. unfold record_threat. destruct t; [|done]. case_bool_decide; [done|]. by destruct (_ || _). Qed.
Lemma fence_restrict sel now n : fence (restrict sel now n) = fence n.
Proof. unfold restrict. destruct (EvaluateAppRestriction _ _ _ _). by destruct (_ && _). Qed.
Lemma fence_deadline sel now n : fence (set_deadline sel now n) = fence n.
Proof. unfold set_deadline. by destruct (_ && _). Qed.

Create HintDb fence.
#[export] Hint Rewrite fence_observe fence_identify fence_record fence_restrict fence_deadline : fence.

Lemma reduced_fence current sel obs now :
  fence (reduced current sel obs now) = (is_Generation sel, inspection_revision current, is_Mode sel).
Proof. unfold reduced. autorewrite with fence. unfold inspection_revision. by destruct (rs_Inspection current). Qed.

(** The restriction and the deadline leave the evidence alone. *)
Lemma restrict_state sel now n :
  si_AppPolicyState (restrict sel now n) = (EvaluateAppRestriction sel (si_Application n) (si_AppDeadline n) now).1 /\
  si_Application (restrict sel now n) = si_Application n.
Proof. unfold restrict. destruct (EvaluateAppRestriction _ _ _ _) as [st rs]. by destruct (_ && _). Qed.

Lemma deadline_state sel now n :
  si_AppPolicyState (set_deadline sel now n) = si_AppPolicyState n /\ si_Application (set_deadline sel now n) = si_Application n /\
  si_Enforcement (set_deadline sel now n) = si_Enforcement n.
Proof. unfold set_deadline. by destruct (_ && _). Qed.

(** The declarative reading of the application restriction. *)
Definition allowed_application (sel : InspectionSelection) (app : ApplicationIdentity) : Prop :=
  exists a, a ∈ is_AllowedApps sel /\ EqualFold (TrimSpace a) (ai_Name app) = true.

Lemma restriction_mismatch_iff sel app deadline now :
  (EvaluateAppRestriction sel app deadline now).1 = AppPolicyMismatch <->
  is_AllowedApps sel <> [] /\ strongApplication app = true /\ ai_Name (NormalizeZero app) <> "UNKNOWN" /\
  ~ allowed_application sel (NormalizeZero app).
Proof.
  unfold EvaluateAppRestriction, allowed_application. rewrite <- (NormalizeZero_strong app). set (a := NormalizeZero app).
  destruct (bool_decide_reflect (is_AllowedApps sel = [])); [cbn; naive_solver|].
  assert (Hconf : strongApplication a = true -> ai_Conflicted a = false) by (unfold strongApplication; by destruct (ai_Conflicted a)).
  destruct (ai_Conflicted a); [cbn; naive_solver|].
  destruct (bool_decide_reflect (ai_Name a = "UNKNOWN")); cbn [orb]; [destruct deadline as [d|]; [destruct (negb (Before now d))|]; naive_solver|].
  destruct (strongApplication a) eqn:Es; cbn [negb]; [|destruct deadline as [d|]; [destruct (negb (Before now d))|]; naive_solver].
  destruct (existsb _ _) eqn:Ex; cbn.
  - apply existsb_elem_of in Ex. naive_solver.
  - split; [|done]. intros _. split_and!; [done..|]. intros (x & Hx & Hf).
    assert (Ht : existsb (fun allowed => EqualFold (TrimSpace allowed) (ai_Name a)) (is_AllowedApps sel) = true) by (apply existsb_elem_of; by exists x).
    by rewrite Ht in Ex.
Qed.

(** ** The guard *)

Lemma reduced_mismatch current sel obs now : si_AppPolicyState (reduced current sel obs now) = AppPolicyMismatch ->
  is_AllowedApps sel <> [] /\ strongApplication (si_Application (reduced current sel obs now)) = true /\
  ai_Name (NormalizeZero (si_Application (reduced current sel obs now))) <> "UNKNOWN" /\
  ~ allowed_application sel (NormalizeZero (si_Application (reduced current sel obs now))).
Proof.
  unfold reduced. set (n := record_threat _ _). clearbody n. destruct (deadline_state sel now (restrict sel now n)) as (-> & -> & _).
  destruct (restrict_state sel now n) as (-> & ->). apply restriction_mismatch_iff.
Qed.

Lemma guard_wanted_true sel n : guard_wanted sel n = true ->
  si_AppPolicyState n = AppPolicyMismatch /\ is_Mode sel = InspectionModeIPS /\ strongApplication (si_Application n) = true /\
  (er_RequestedAction (si_Enforcement n) = DecisionDrop ->
   guard_status (si_Enforcement n) EnforcementPending = false /\ guard_status (si_Enforcement n) EnforcementApplied = false).
Proof.
  unfold guard_wanted. rewrite !andb_true_iff, !bool_decide_eq_true. intros [[[[H1 H2] _] H4] H5]. split_and!; [done..|].
  intros E. apply negb_true_iff in H5. rewrite bool_decide_eq_true_2 in H5 by done. cbn [andb] in H5. by apply orb_false_iff.
Qed.

Lemma inspect_session_fields v n r :
  rs_Inspection (inspect_session v n r) = Some (n <| si_Revision := r |>) /\ rs_SessionID (inspect_session v n r) = rs_SessionID v /\
  rs_Identity (inspect_session v n r) = rs_Identity v.
Proof.
  unfold inspect_session. set (u := v <| rs_Inspection := _ |>). destruct (rs_Revoked u); [done|]. by destruct (guard_applied u).
Qed.

(** A pending guard that was just asked for passes the fence of the store. *)
Lemma pending_guard_matches current n revision gen operation reason :
  si_Generation n = gen -> si_Mode n = InspectionModeIPS -> si_AppPolicyState n = AppPolicyMismatch ->
  strongApplication (si_Application n) = true -> operation <> "" ->
  MatchesSession (mkInspectionIntent IntentInstallAppGuard operation (rs_SessionID current) (rs_Identity current) gen revision DecisionDrop "APP_POLICY" reason)
    (inspect_session current (n <| si_Enforcement := mkEnforcementResult EnforcementNFTSessionGuard EnforcementScopeSession DecisionDrop EnforcementPending reason None operation |>) revision)
    gen = true.
Proof.
  intros Hg Hm Ha Hs Ho. unfold MatchesSession.
  match goal with |- context [inspect_session ?v ?n ?r] => destruct (inspect_session_fields v n r) as (-> & -> & ->) end.
  set (m := n <| si_Enforcement := _ |> <| si_Revision := revision |>). cbn [ii_SessionID ii_Identity ii_Generation].
  rewrite !bool_decide_eq_true_2 by done. rewrite Z.eqb_refl. cbn [negb orb].
  change (si_Generation m) with (si_Generation n). change (si_Revision m) with revision. cbn [ii_ExpectedInspectionRevision].
  rewrite Hg, Z.eqb_refl, Z.ltb_irrefl. cbn [negb orb ii_Kind].
  change (si_Application m) with (si_Application n). unfold strongApplication in Hs.
  destruct (ai_Conflicted (si_Application n)); [done|]. destruct (bool_decide (ai_Source (si_Application n) = _)); [done|]. cbn [orb negb andb] in *.
  rewrite Hs. cbn. rewrite (bool_decide_eq_false_2 (operation = "")) by done. by rewrite (bool_decide_eq_true_2 (operation = operation)) by done.
Qed.

(** A session guard is asked for only by an inline profile that restricts
    applications, on strong and uncontradicted evidence of a named application the
    policy does not allow, when no guard of the session is in flight or in force; and
    the request is one the fence accepts: once the reduced state is stored, the
    intent matches the session. *)
Theorem guard_request_justified current sel obs now clock intent s s' updated :
  let r := ReduceInspection current sel obs now clock in
  intent ∈ ir_Intents r ->
  0 <= inspection_revision current < 2 ^ 64 -> byID s !! rs_SessionID current = Some current ->
  UpdateInspection s (rs_SessionID current) (rs_Identity current) (is_Generation sel) (inspection_revision current) (ir_Next r) = (s', Ok updated) ->
  let app := si_Application (ir_Next r) in
  is_Mode sel = InspectionModeIPS /\ is_AllowedApps sel <> [] /\ strongApplication app = true /\
  ai_Name (NormalizeZero app) <> "UNKNOWN" /\ ~ allowed_application sel (NormalizeZero app) /\
  ii_Kind intent = IntentInstallAppGuard /\ ii_RequestedAction intent = DecisionDrop /\
  MatchesSession intent updated (is_Generation sel) = true.
Proof.
  cbn zeta. unfold ReduceInspection. set (t := if IsZero now then clock else now). clearbody t.
  destruct (bool_decide (is_Mode sel = InspectionModeOff)); [by intros ?%elem_of_nil|].
  destruct (guard_wanted sel (reduced current sel obs t)) eqn:Eg; [|by intros ?%elem_of_nil].
  cbn [ir_Intents ir_Next]. intros ->%list_elem_of_singleton Hrev Hs. unfold UpdateInspection. rewrite Hs.
  destruct (_ || _); [done|]. destruct (_ || _); [done|].
  rewrite Z.eqb_refl. destruct (Z.eqb_spec (inspection_revision current) maxUint64_value); [done|]. cbn [negb orb].
  unfold updateInspectionLocked. intros [= _ <-].
  destruct (guard_wanted_true _ _ Eg) as (Hmis & Hmode & Hstrong & _). destruct (reduced_mismatch _ _ _ _ Hmis) as (Happs & _ & Hname & Hnot).
  pose proof (reduced_fence current sel obs t) as [= Fg Fr Fm]. rewrite Hmode in Fm. unfold maxUint64_value in *.
  assert (Eu : u64 (si_Revision (reduced current sel obs t) + 1) = inspection_revision current + 1) by (rewrite Fr; apply u64_small; lia).
  split_and!; [done | done | exact Hstrong | exact Hname | exact Hnot | done | done |].
  rewrite Eu. by apply pending_guard_matches.
Qed.

(** ** What an observation can do to a guard *)

Lemma record_keeps_guard t n :
  guard_status (si_Enforcement n) EnforcementPending || guard_status (si_Enforcement n) EnforcementApplied = true ->
  si_Enforcement (record_threat t n) = si_Enforcement n.
Proof. intros H. unfold record_threat. destruct t as [t|]; [|done]. case_bool_decide; [done|]. cbn. by rewrite H. Qed.

Lemma identify_enforcement obs n : si_Enforcement (identify obs n) = si_Enforcement n.
Proof. unfold identify. by destruct (negb _). Qed.
Lemma observe_enforcement obs n : si_Enforcement (observe obs n) = si_Enforcement n.
Proof. unfold observe. by case_bool_decide. Qed.

Lemma restrict_keeps_applied sel now n : guard_status (si_Enforcement n) EnforcementApplied = true ->
  si_Enforcement (restrict sel now n) = si_Enforcement n.
Proof.
  unfold restrict, guard_status. rewrite andb_true_iff, !bool_decide_eq_true. intros [E1 E2].
  destruct (EvaluateAppRestriction _ _ _ _) as [st rs]. cbn [si_Enforcement field_upd]. 
  match goal with |- context [if ?b then _ else _] => assert (b = false) as -> end; [|done].
  cbn. rewrite E2. by rewrite (bool_decide_eq_false_2 (EnforcementApplied = EnforcementPending)), andb_false_r by done.
Qed.

(** A guard that is in force survives every observation: the reduction keeps the
    enforcement record of an applied drop guard, and asks for no second one. *)
Theorem applied_guard_survives current sel obs now clock i :
  rs_Inspection current = Some i -> guard_status (si_Enforcement i) EnforcementApplied = true ->
  er_RequestedAction (si_Enforcement i) = DecisionDrop ->
  let r := ReduceInspection current sel obs now clock in
  si_Enforcement (ir_Next r) = si_Enforcement i /\ ir_Intents r = [].
Proof.
  intros Hi Ha Hd. cbn zeta. unfold ReduceInspection. set (t := if IsZero now then clock else now). clearbody t. rewrite Hi. cbn [default].
  destruct (bool_decide (is_Mode sel = InspectionModeOff)); [done|].
  assert (E : si_Enforcement (reduced current sel obs t) = si_Enforcement i).
  { unfold reduced. rewrite Hi. cbn [default]. match goal with |- context [observe obs ?n] => set (n0 := n) end.
    assert (E0 : si_Enforcement (identify obs (observe obs n0)) = si_Enforcement i) by by rewrite identify_enforcement, observe_enforcement.
    assert (E1 : si_Enforcement (record_threat (threat_of obs (rs_SessionID current) sel) (identify obs (observe obs n0))) = si_Enforcement i).
    { rewrite record_keeps_guard; [done|]. by rewrite E0, Ha, orb_true_r. }
    destruct (deadline_state sel t (restrict sel t (record_threat (threat_of obs (rs_SessionID current) sel) (identify obs (observe obs n0))))) as (_ & _ & ->).
    rewrite restrict_keeps_applied; [done | by rewrite E1]. }
  destruct (guard_wanted sel (reduced current sel obs t)) eqn:Eg; [|done]. exfalso.
  apply guard_wanted_true in Eg as (_ & _ & _ & Hno). rewrite E in Hno. destruct (Hno Hd) as [_ Hf]. by rewrite Ha in Hf.
Qed.

(** ** Threats *)

(** A dropped packet is reported, never claimed as applied, and only on the word of an
    inline sensor. *)
Lemma threat_verdict_inline obs sessionID sel :
  te_Verdict (ThreatFromObservation obs sessionID sel) = VerdictDrop -> so_Mode (ob_Source obs) = InspectionModeIPS.
Proof.
  unfold ThreatFromObservation. destruct (ob_Alert obs) as [a|]; [|done]. unfold with_alert.
  destruct (bool_decide_reflect (so_Mode (ob_Source obs) = InspectionModeIPS)); [done|]. cbn [negb andb]. by destruct (_ || _).
Qed.

Lemma threat_never_applied obs sessionID sel : er_Status (te_Enforcement (ThreatFromObservation obs sessionID sel)) <> EnforcementApplied.
Proof.
  unfold ThreatFromObservation. destruct (ob_Alert obs) as [a|]; [|done]. unfold with_alert. destruct (_ && _); [done|]. by destruct (_ && _).
Qed.

(** ** Examples *)

Definition ex_position (mode : InspectionMode) : SourcePosition := mkSourcePosition "suri0" "e1" "" "builtin" mode "" 0 0.
Definition ex_observation (mode : InspectionMode) (id app : string) (alert : option AlertObservation) : Observation :=
  mkObservation id (ex_position mode) "flow" (Some 2100) 2101 9 true None (Some ex_tuple) None None None "" (NormalizeApplication app)
    alert None None [] false.
Definition ex_selection : InspectionSelection := mkInspectionSelection "web" "p1" InspectionModeIPS "builtin" ["DNS"] 5000 3.
Definition ex_mismatch : InspectionReduction := ReduceInspection ex_session1 ex_selection (ex_observation InspectionModeIPS "o1" "ssh" None) 2200 0.
Definition ex_intent : InspectionIntent :=
  mkInspectionIntent IntentInstallAppGuard ("app-guard-" +:+ ex_id +:+ "-1") ex_id ex_identity 3 1 DecisionDrop "APP_POLICY"
    "application is not allowed by policy".

Lemma guard_request_justified_witness :
  ir_Intents (ReduceInspection ex_session1 ex_selection (ex_observation InspectionModeIPS "o1" "ssh" None) 2200 0) = [ex_intent] /\
  exists updated, MatchesSession ex_intent updated (is_Generation ex_selection) = true.
Proof.
  assert (Hi : ir_Intents (ReduceInspection ex_session1 ex_selection (ex_observation InspectionModeIPS "o1" "ssh" None) 2200 0) = [ex_intent])
    by (vm_compute; reflexivity).
  split; [exact Hi|].
  assert (Hok : is_ok (UpdateInspection ex_store1 (rs_SessionID ex_session1) (rs_Identity ex_session1) (is_Generation ex_selection)
                         (inspection_revision ex_session1)
                         (ir_Next (ReduceInspection ex_session1 ex_selection (ex_observation InspectionModeIPS "o1" "ssh" None) 2200 0))).2 = true)
    by (vm_compute; reflexivity).
  destruct (UpdateInspection _ _ _ _ _ _) as [s' [updated|err]] eqn:E in Hok; [|discriminate Hok]. exists updated.
  assert (Hin : ex_intent ∈ ir_Intents (ReduceInspection ex_session1 ex_selection (ex_observation InspectionModeIPS "o1" "ssh" None) 2200 0)) by (rewrite Hi; by left).
  assert (Hrev : 0 <= inspection_revision ex_session1 < 2 ^ 64) by (vm_compute; split; [discriminate | reflexivity]).
  assert (Hstore : byID ex_store1 !! rs_SessionID ex_session1 = Some ex_session1) by (vm_compute; reflexivity).
  pose proof (guard_request_justified ex_session1 ex_selection (ex_observation InspectionModeIPS "o1" "ssh" None) 2200 0 ex_intent ex_store1
    s' updated Hin Hrev Hstore E) as H.
  cbv zeta in H. destruct H as (_ & _ & _ & _ & _ & _ & _ & H). exact H.
Defined.

Definition ex_applied : RuntimeSession :=
  inspect_session ex_session1
    (ir_Next ex_mismatch <| si_Enforcement := mkEnforcementResult EnforcementNFTSessionGuard EnforcementScopeSession DecisionDrop EnforcementApplied "" None "op" |>) 2.

Lemma applied_guard_survives_witness :
  let r := ReduceInspection ex_applied ex_selection (ex_observation InspectionModeIDS "o2" "dns" None) 2300 0 in
  si_AppPolicyState (ir_Next r) <> AppPolicyMismatch /\ guard_status (si_Enforcement (ir_Next r)) EnforcementApplied = true.
Proof.
  cbn zeta. set (r := ReduceInspection ex_applied ex_selection (ex_observation InspectionModeIDS "o2" "dns" None) 2300 0).
  split; [vm_compute; discriminate|].
  destruct (applied_guard_survives ex_applied ex_selection (ex_observation InspectionModeIDS "o2" "dns" None) 2300 0
    (default DefaultSessionInspection (rs_Inspection ex_applied))) as [E _]; [vm_compute; reflexivity.. |].
  subst r. rewrite E. vm_compute. reflexivity.
Defined.
