(* ===== verification/SecurityStore.v ===== *)
(** * The security event store

    [internal/engine/security_events.go]: a circular buffer of threat events
    with an index by identifier, a limit on the number of events and one on
    their encoded bytes.  The buffer is the array of the code: positions are
    taken modulo the capacity and a freed slot is cleared. *)

From S2P Require Import Prelude GoStr Netip Domain Codec Observation.

(** ** Data *)

Record SecurityQuery : Type := mkSecurityQuery {
  qu_SessionID : string;
  qu_SensorID : string;
  qu_Mode : option InspectionMode;              (** [None] is the empty string *)
  qu_Severity : option Severity;
  qu_Verdict : option LatestVerdict;
  qu_Correlation : option CorrelationState;
  qu_Application : string;
  qu_SignatureID : Z;
  qu_HasSignatureID : bool;
  qu_AfterSequence : Z;
  qu_StreamID : string;
  qu_Limit : Z
}.

Record SecurityEventPage : Type := mkSecurityEventPage {
  sg_Items : list ThreatEvent;
  sg_StreamID : string;
  sg_GapFrom : Z;
  sg_NextSequence : Z;
  sg_NextCursor : string;
  sg_HasMore : bool;
  sg_OldestSequence : Z;
  sg_Gap : bool;
  sg_ResetRequired : bool;
  sg_EvictedCount : Z
}.

Record SecurityEventStats : Type := mkSecurityEventStats {
  ss_CurrentEvents : Z;
  ss_CurrentBytes : Z;
  ss_Added : Z;
  ss_Duplicates : Z;
  ss_Evicted : Z;
  ss_RejectedBytes : Z
}.

#[global] Instance eta_SecurityEventStats : Eta SecurityEventStats := fun s =>
  mkSecurityEventStats (ss_CurrentEvents s) (ss_CurrentBytes s) (ss_Added s) (ss_Duplicates s) (ss_Evicted s) (ss_RejectedBytes s).

(** An empty slot is [None]; the code keeps a zero value there. *)
Record storedThreat : Type := mkStoredThreat { st_event : ThreatEvent; st_size : Z }.

Record SecurityEventStore : Type := mkSecurityEventStore {
  se_items : list (option storedThreat);
  se_index : gmap string nat;
  se_head : nat;
  se_count : nat;
  se_capacity : nat;
  se_maxBytes : Z;
  se_bytes : Z;
  se_next : Z;
  se_streamID : string;
  se_stats : SecurityEventStats
}.

#[global] Instance eta_SecurityEventStore : Eta SecurityEventStore := fun s =>
  mkSecurityEventStore (se_items s) (se_index s) (se_head s) (se_count s) (se_capacity s) (se_maxBytes s) (se_bytes s)
    (se_next s) (se_streamID s) (se_stats s).

Inductive SecurityError : Type :=
| EventIDRequired | EventUnencodable | ErrSecurityEventTooLarge | ErrSecurityEventNotFound | InvalidCorrelation.

Definition NewSecurityEventStore (capacity maxBytes : Z) (seed : list Z) : SecurityEventStore :=
  let capacity := if capacity <=? 0 then 5000 else capacity in
  mkSecurityEventStore (replicate (Z.to_nat capacity) None) ∅ 0 0 (Z.to_nat capacity)
    (if maxBytes <=? 0 then 16777216 else maxBytes) 0 0 (hex_EncodeToString seed) (mkSecurityEventStats 0 0 0 0 0 0).

(** ** Operations *)

(** The slot of the [i]-th oldest event. *)
Definition slot_of (s : SecurityEventStore) (i : nat) : nat := ((se_head s + i) mod se_capacity s)%nat.

Definition event_at (s : SecurityEventStore) (slot : nat) : option storedThreat := mjoin (se_items s !! slot).

(** An empty slot reads as the zero value. *)
Definition evictOldestLocked (s : SecurityEventStore) : SecurityEventStore :=
  if Nat.eqb (se_count s) 0 then s
  else
    let '(oldID, oldSize) := match event_at s (se_head s) with Some old => (te_EventID (st_event old), st_size old) | None => ("", 0) end in
    s <| se_index ::= delete oldID |>
      <| se_bytes ::= fun b => b - oldSize |>
      <| se_items ::= <[se_head s := None]> |>
      <| se_head := ((se_head s + 1) mod se_capacity s)%nat |>
      <| se_count ::= fun n => (n - 1)%nat |>
      <| se_stats ::= fun t => t <| ss_Evicted ::= inc64 |> |>.

(** [for full(s) { s.evictOldestLocked() }]; every round frees a slot, so the count
    bounds the rounds. *)
Fixpoint evict_while (full : SecurityEventStore -> bool) (fuel : nat) (s : SecurityEventStore) : SecurityEventStore :=
  match fuel with
  | O => s
  | S n => if full s then evict_while full n (evictOldestLocked s) else s
  end.

Definition no_room (size : Z) (s : SecurityEventStore) : bool :=
  Nat.leb (se_capacity s) (se_count s) || negb (Nat.eqb (se_count s) 0) && (se_maxBytes s <? se_bytes s + size).

Definition reject_bytes (s : SecurityEventStore) : SecurityEventStore :=
  s <| se_stats ::= fun t => t <| ss_RejectedBytes ::= inc64 |> |>.

Definition refresh_stats (s : SecurityEventStore) : SecurityEventStore :=
  s <| se_stats ::= fun t => t <| ss_CurrentEvents := Z.of_nat (se_count s) |> <| ss_CurrentBytes := u64 (se_bytes s) |> |>.

Section store.
Context {JT : JSON ThreatEvent}.

Definition encoded_size (e : ThreatEvent) : option Z := (fun b => Z.of_nat (length b)) <$> Marshal e.

(** The defaults of a new record. *)
Definition complete_event (clock : Time) (e : ThreatEvent) : ThreatEvent :=
  let e := if bool_decide (te_EventClass e = "") then e <| te_EventClass := "security" |> else e in
  let e := if bool_decide (te_Source e = "") then e <| te_Source := "SURICATA" |> else e in
  if IsZero (te_IngestedAt e) then e <| te_IngestedAt := clock |> else e.

(** [slot := (head+count)%capacity; items[slot] = ...]. *)
Definition push_event (s : SecurityEventStore) (e : ThreatEvent) (size : Z) : SecurityEventStore :=
  let slot := slot_of s (se_count s) in
  refresh_stats (s <| se_items ::= <[slot := Some (mkStoredThreat e size)]> |>
                   <| se_index ::= <[te_EventID e := slot]> |>
                   <| se_count ::= S |>
                   <| se_bytes ::= fun b => b + size |>
                   <| se_stats ::= fun t => t <| ss_Added ::= inc64 |> |>).

Definition Add (s : SecurityEventStore) (clock : Time) (e : ThreatEvent) : SecurityEventStore * result SecurityError (ThreatEvent * bool) :=
  if bool_decide (TrimSpace (te_EventID e) = "") then (s, Err EventIDRequired)
  else
    let e := complete_event clock e in
    match encoded_size e with
    | None => (s, Err EventUnencodable)
    | Some size =>
        if se_maxBytes s <? size then (reject_bytes s, Err ErrSecurityEventTooLarge)
        else
          match se_index s !! te_EventID e ≫= event_at s with
          | Some known => (s <| se_stats ::= fun t => t <| ss_Duplicates ::= inc64 |> |>, Ok (st_event known, false))
          | None =>
              let s := s <| se_next ::= inc64 |> in
              let e := e <| te_Sequence := se_next s |> in
              match encoded_size e with
              | None => (s, Err EventUnencodable)
              | Some size =>
                  let s := evict_while (no_room size) (se_count s) s in
                  if se_maxBytes s <? size then (reject_bytes s, Err ErrSecurityEventTooLarge)
                  else (push_event s e size, Ok (e, true))
              end
          end
    end.

Definition Get (s : SecurityEventStore) (id : string) : option ThreatEvent := st_event <$> (se_index s !! id ≫= event_at s).

(** The bytes of the events older than [id]. *)
Fixpoint reclaimable (s : SecurityEventStore) (id : string) (i n : nat) : Z :=
  match n with
  | O => 0
  | S n =>
      match event_at s (slot_of s i) with
      | Some x => if bool_decide (te_EventID (st_event x) = id) then 0 else st_size x + reclaimable s id (S i) n
      | None => reclaimable s id (S i) n
      end
  end.

Definition head_event (s : SecurityEventStore) : option storedThreat := event_at s (se_head s).

(** [projected > maxBytes && count > 1 && items[head] is another event].  The loop of
    the code looks the record up again in every round; evicting other events does
    not change it, so its size is [before] throughout. *)
Definition update_full (id : string) (before size : Z) (s : SecurityEventStore) : bool :=
  (se_maxBytes s <? se_bytes s - before + size) && Nat.ltb 1 (se_count s) &&
  match head_event s with Some x => negb (bool_decide (te_EventID (st_event x) = id)) | None => true end.

Definition UpdateCorrelation (s : SecurityEventStore) (id sessionID policyID : string) (generation : Z) (state : CorrelationState) (reason : string)
  : SecurityEventStore * result SecurityError ThreatEvent :=
  if negb (CorrelationState_Valid state) then (s, Err InvalidCorrelation)
  else
    match se_index s !! id ≫= event_at s with
    | None => (s, Err ErrSecurityEventNotFound)
    | Some record =>
        let old := st_event record in
        if bool_decide (te_SessionID old = sessionID) && bool_decide (te_PolicyID old = policyID) && (te_PolicyGeneration old =? generation) &&
           bool_decide (te_CorrelationState old = state) && bool_decide (te_CorrelationReason old = reason) then (s, Ok old)
        else
          let updated := old <| te_SessionID := sessionID |> <| te_PolicyID := policyID |> <| te_PolicyGeneration := generation |>
                             <| te_CorrelationState := state |> <| te_CorrelationReason := reason |> <| te_CorrelationRevision ::= inc64 |> in
          match encoded_size updated with
          | None => (s, Err EventUnencodable)
          | Some size =>
              let before := st_size record in
              let projected := se_bytes s - before + size in
              if se_maxBytes s <? size then (reject_bytes s, Err ErrSecurityEventTooLarge)
              else if (se_maxBytes s <? projected) && (se_maxBytes s <? projected - reclaimable s id 0 (se_count s))
              then (reject_bytes s, Err ErrSecurityEventTooLarge)
              else
                let s := evict_while (update_full id before size) (se_count s) s in
                match se_index s !! id with
                | None => (s, Err ErrSecurityEventNotFound)
                | Some slot =>
                    let projected := se_bytes s - before + size in
                    if se_maxBytes s <? projected then (reject_bytes s, Err ErrSecurityEventTooLarge)
                    else (refresh_stats (s <| se_items ::= <[slot := Some (mkStoredThreat updated size)]> |> <| se_bytes := projected |>), Ok updated)
                end
          end
    end.
End store.

(** ** Queries *)

Definition events (s : SecurityEventStore) : list ThreatEvent :=
  omap (fun i => st_event <$> event_at s (slot_of s i)) (seq 0 (se_count s)).

Definition unset_or {A} `{EqDecision A} (wanted : option A) (value : A) : bool :=
  match wanted with None => true | Some w => bool_decide (value = w) end.

Definition matchesSecurityQuery (e : ThreatEvent) (q : SecurityQuery) : bool :=
  (bool_decide (qu_SessionID q = "") || bool_decide (te_SessionID e = qu_SessionID q)) &&
  (bool_decide (qu_SensorID q = "") || bool_decide (te_SensorID e = qu_SensorID q)) &&
  unset_or (qu_Mode q) (te_CaptureMode e) && unset_or (qu_Severity q) (te_Severity e) &&
  unset_or (qu_Verdict q) (te_Verdict e) && unset_or (qu_Correlation q) (te_CorrelationState e) &&
  (negb (qu_HasSignatureID q) || (te_SignatureID e =? qu_SignatureID q)) &&
  (bool_decide (qu_Application q = "") || EqualFold (ai_Name (te_Application e)) (qu_Application q)).

Definition page_limit (q : SecurityQuery) : Z :=
  let limit := if qu_Limit q <=? 0 then 50 else qu_Limit q in if 200 <? limit then 200 else limit.

(** The loop over the snapshot: the items so far in reverse, the cursor, and whether
    the limit stopped it. *)
Fixpoint scan_events (q : SecurityQuery) (after limit : Z) (l items : list ThreatEvent) (next : Z) : list ThreatEvent * Z * bool :=
  match l with
  | [] => (rev items, next, false)
  | e :: rest =>
      if te_Sequence e <=? after then scan_events q after limit rest items next
      else if limit <=? Z.of_nat (length items) then (rev items, next, true)
      else scan_events q after limit rest (if matchesSecurityQuery e q then e :: items else items) (te_Sequence e)
  end.

Definition Query (s : SecurityEventStore) (q : SecurityQuery) : SecurityEventPage :=
  let snapshot := events s in
  let oldest := match snapshot with e :: _ => te_Sequence e | [] => 0 end in
  let reset := negb (bool_decide (qu_StreamID q = "")) && negb (bool_decide (qu_StreamID q = se_streamID s)) in
  let after := if reset then 0 else qu_AfterSequence q in
  let gap := (0 <? oldest) && (u64 (after + 1) <? oldest) in
  let '(items, next, more) := scan_events q after (page_limit q) snapshot [] after in
  let next := if se_next s <? next then se_next s else next in
  mkSecurityEventPage items (se_streamID s) (if gap then oldest else 0) next (se_streamID s +:+ ":" +:+ itoa next) more oldest
    (reset || gap) reset (ss_Evicted (se_stats s)).

Definition Stats (s : SecurityEventStore) : SecurityEventStats :=
  se_stats s <| ss_CurrentEvents := Z.of_nat (se_count s) |> <| ss_CurrentBytes := u64 (se_bytes s) |>.
