(* ===== verification/SecurityProps.v ===== *)
(** * Properties of the security event store

    The circular buffer refines a queue: evicting drops the oldest event,
    adding appends, updating changes one event in place; the index finds
    exactly the stored events; both limits hold; pages of a query, followed by
    their cursor, visit every retained event once and in order. *)

From S2P Require Import Prelude GoStr Netip Domain Codec Observation SecurityStore.

(** ** Circular positions *)

Lemma slot_cases s i : (se_head s < se_capacity s)%nat -> (i <= se_capacity s)%nat ->
  slot_of s i = if decide (se_head s + i < se_capacity s)%nat then (se_head s + i)%nat else (se_head s + i - se_capacity s)%nat.
Proof.
  intros Hh Hi. unfold slot_of. case_decide; [by apply Nat.mod_small|].
  assert (E : (se_head s + i)%nat = ((se_head s + i - se_capacity s) + 1 * se_capacity s)%nat) by lia.
  rewrite E at 1. rewrite Nat.Div0.mod_add. apply Nat.mod_small. lia.
Qed.

Lemma slot_lt s i : (0 < se_capacity s)%nat -> (slot_of s i < se_capacity s)%nat.
Proof. intros H. apply Nat.mod_upper_bound. lia. Qed.

Lemma slot_inj s i j : (se_head s < se_capacity s)%nat -> (i < se_capacity s)%nat -> (j < se_capacity s)%nat ->
  slot_of s i = slot_of s j -> i = j.
Proof. intros Hh Hi Hj. rewrite !slot_cases by lia. repeat case_decide; lia. Qed.

(** ** The queue behind the buffer *)

Definition queue (s : SecurityEventStore) : list storedThreat := omap (fun i => event_at s (slot_of s i)) (seq 0 (se_count s)).
Definition event_id (x : storedThreat) : string := te_EventID (st_event x).

Record ring_ok (s : SecurityEventStore) : Prop := mkRingOk {
  ro_capacity : (0 < se_capacity s)%nat;
  ro_items : length (se_items s) = se_capacity s;
  ro_head : (se_head s < se_capacity s)%nat;
  ro_count : (se_count s <= se_capacity s)%nat;
  ro_full : forall i, (i < se_count s)%nat -> is_Some (event_at s (slot_of s i));
  ro_index : forall id slot, se_index s !! id = Some slot <->
    exists i x, (i < se_count s)%nat /\ slot = slot_of s i /\ event_at s slot = Some x /\ event_id x = id
}.

Lemma queue_spec s : ring_ok s ->
  length (queue s) = se_count s /\ forall i, (i < se_count s)%nat -> queue s !! i = event_at s (slot_of s i).
Proof.
  intros Hr. destruct (omap_total (fun i => event_at s (slot_of s i)) (seq 0 (se_count s))) as [H1 H2].
  { intros i [_ Hi]%elem_of_seq. by apply (ro_full _ Hr). }
  unfold queue. split; [by rewrite H1, length_seq|]. intros i Hi. rewrite H2, lookup_seq_lt by done. done.
Qed.

Lemma queue_eq s l : ring_ok s -> length l = se_count s -> (forall i, (i < se_count s)%nat -> event_at s (slot_of s i) = l !! i) -> queue s = l.
Proof.
  intros Hr Hl H. destruct (queue_spec s Hr) as [H1 H2]. apply list_eq_same_length with (n := se_count s); [done | done |].
  intros i x y Hi Hx Hy. rewrite H2 in Hx by done. rewrite H in Hx by done. congruence.
Qed.

Lemma slot_0 s : (se_head s < se_capacity s)%nat -> slot_of s 0 = se_head s.
Proof. intros H. unfold slot_of. rewrite Nat.add_0_r. by apply Nat.mod_small. Qed.

Lemma index_queue s id : ring_ok s -> is_Some (se_index s !! id) <-> id ∈ event_id <$> queue s.
Proof.
  intros Hr. destruct (queue_spec s Hr) as [Hl Hq]. rewrite list_elem_of_fmap. split.
  - intros [slot (i & x & Hi & -> & Hx & <-)%(ro_index _ Hr)]. exists x. split; [done|]. apply list_elem_of_lookup_2 with i. by rewrite Hq.
  - intros (x & -> & Hx). apply list_elem_of_lookup_1 in Hx as [i Hi]. assert (Hlt : (i < se_count s)%nat) by (rewrite <- Hl; by eapply lookup_lt_Some).
    exists (slot_of s i). apply (ro_index _ Hr). exists i, x. rewrite Hq in Hi by done. done.
Qed.

(** Two stored events never share an identifier. *)
Lemma queue_NoDup s : ring_ok s -> NoDup (event_id <$> queue s).
Proof.
  intros Hr. destruct (queue_spec s Hr) as [Hl Hq]. pose proof (ro_count _ Hr). pose proof (ro_head _ Hr). apply NoDup_alt. intros i j id Hi Hj.
  apply list_lookup_fmap_Some in Hi as (x & Ex & Hx), Hj as (y & Ey & Hy).
  assert ((i < se_count s)%nat /\ (j < se_count s)%nat) as [Hli Hlj] by (rewrite <- Hl; split; by eapply lookup_lt_Some).
  rewrite Hq in Hx, Hy by done. apply (slot_inj s); [done | lia | lia |].
  assert (H1 : se_index s !! id = Some (slot_of s i)) by (apply (ro_index _ Hr); by exists i, x).
  assert (H2 : se_index s !! id = Some (slot_of s j)) by (apply (ro_index _ Hr); by exists j, y). congruence.
Qed.

(** *** Evicting *)

Definition evicted (s : SecurityEventStore) (x : storedThreat) : SecurityEventStore :=
  mkSecurityEventStore (<[se_head s := None]> (se_items s)) (delete (event_id x) (se_index s)) ((se_head s + 1) mod se_capacity s)
    (se_count s - 1) (se_capacity s) (se_maxBytes s) (se_bytes s - st_size x) (se_next s) (se_streamID s)
    ((se_stats s) <| ss_Evicted ::= inc64 |>).

Lemma evict_evicted s x : ring_ok s -> head (queue s) = Some x -> (0 < se_count s)%nat /\ event_at s (se_head s) = Some x /\ evictOldestLocked s = evicted s x.
Proof.
  intros Hr Hx. destruct (queue_spec s Hr) as [Hl Hq].
  assert (Hc : (0 < se_count s)%nat) by (rewrite <- Hl; destruct (queue s); [done | cbn; lia]).
  assert (He : event_at s (se_head s) = Some x).
  { rewrite <- (slot_0 s), <- Hq by (done || apply Hr). by rewrite head_lookup in Hx. }
  split_and!; [done | done |]. unfold evictOldestLocked, evicted. destruct (Nat.eqb_spec (se_count s) 0); [lia|]. by rewrite He.
Qed.

Lemma evicted_slot s x i : slot_of (evicted s x) i = slot_of s (S i).
Proof. unfold slot_of, evicted. cbn. rewrite Nat.Div0.add_mod_idemp_l. f_equal. lia. Qed.

Lemma evicted_at s x i : ring_ok s -> (S i < se_capacity s)%nat -> event_at (evicted s x) (slot_of s (S i)) = event_at s (slot_of s (S i)).
Proof.
  intros Hr Hi. unfold event_at, evicted. cbn. rewrite list_lookup_insert_ne; [done|].
  rewrite <- (slot_0 s) by apply Hr. intros E%slot_inj; [done | apply Hr | apply Hr | done].
Qed.

Lemma evicted_ok s x : ring_ok s -> head (queue s) = Some x -> ring_ok (evicted s x) /\ queue (evicted s x) = tail (queue s).
Proof.
  intros Hr Hx. destruct (evict_evicted s x Hr Hx) as (Hc & He & _). destruct (queue_spec s Hr) as [Hl Hq]. pose proof (ro_count _ Hr) as Hcc.
  assert (Hr' : ring_ok (evicted s x)).
  { constructor; cbn [evicted se_capacity se_items se_head se_count se_index].
    - apply Hr.
    - rewrite length_insert. apply Hr.
    - apply Nat.mod_upper_bound. pose proof (ro_capacity _ Hr). lia.
    - lia.
    - intros i Hi. rewrite evicted_slot, evicted_at by (done || lia). apply (ro_full _ Hr). lia.
    - intros id slot. rewrite lookup_delete_Some, (ro_index _ Hr). split.
      + intros [Hne (i & y & Hi & -> & Hy & <-)]. destruct i as [|i].
        { rewrite slot_0, He in Hy by apply Hr. injection Hy as <-. done. }
        exists i, y. rewrite evicted_slot, evicted_at by (done || lia). split_and!; [lia | done | done | done].
      + intros (i & y & Hi & -> & Hy & <-). rewrite evicted_slot in *. rewrite evicted_at in Hy by (done || lia).
        split; [|exists (S i), y; split_and!; [lia | done | done | done]]. intros E.
        assert (H1 : se_index s !! event_id x = Some (slot_of s 0)) by (apply (ro_index _ Hr); exists 0%nat, x; rewrite slot_0 by apply Hr; done).
        assert (H2 : se_index s !! event_id x = Some (slot_of s (S i))) by (apply (ro_index _ Hr); exists (S i), y; split_and!; [lia | done | done | done]).
        rewrite H1 in H2. injection H2 as H2. apply slot_inj in H2; [done | apply Hr | apply Hr | lia]. }
  split; [done|]. apply queue_eq; [done | rewrite length_tl, Hl; done|]. intros i Hi. cbn in Hi.
  rewrite evicted_slot, evicted_at by (done || lia). rewrite lookup_tail. by rewrite Hq by lia.
Qed.

(** *** Sizes and repeated eviction *)

Definition total (l : list storedThreat) : Z := foldr (fun x a => st_size x + a) 0 l.

Lemma total_app l l' : total (l ++ l') = total l + total l'.
Proof. induction l as [| x l IH]; cbn; [done|]. unfold total in *. cbn. lia. Qed.

(** The buffer [s] holds the queue [q]. *)
Record holds (s : SecurityEventStore) (q : list storedThreat) : Prop := mkHolds {
  ho_ring : ring_ok s;
  ho_queue : queue s = q;
  ho_bytes : se_bytes s = total q
}.

(** What evicting leaves alone. *)
Definition frame_of (s : SecurityEventStore) := (se_capacity s, se_maxBytes s, se_next s, se_streamID s).

Lemma holds_count s q : holds s q -> se_count s = length q.
Proof. intros [Hr <- _]. by destruct (queue_spec s Hr). Qed.

Lemma evict_holds s x q : holds s (x :: q) -> holds (evictOldestLocked s) q /\ frame_of (evictOldestLocked s) = frame_of s.
Proof.
  intros [Hr Hq Hb]. destruct (evict_evicted s x Hr) as (_ & _ & ->); [by rewrite Hq|].
  destruct (evicted_ok s x Hr) as [Hr' Hq']; [by rewrite Hq|]. split; [|done]. constructor; [done | by rewrite Hq', Hq |].
  cbn. rewrite Hb. unfold total. cbn. lia.
Qed.

Definition test_at (full : SecurityEventStore -> bool) (test : list storedThreat -> bool) (fr : nat * Z * Z * string) : Prop :=
  forall s q, holds s q -> frame_of s = fr -> full s = test q.

(** The loop stops at the first suffix that fits, or when nothing is left. *)
Lemma evict_while_holds full test s q fuel :
  holds s q -> test_at full test (frame_of s) -> (length q <= fuel)%nat ->
  exists k, (k <= length q)%nat /\ holds (evict_while full fuel s) (drop k q) /\ frame_of (evict_while full fuel s) = frame_of s /\
    (forall j, (j < k)%nat -> test (drop j q) = true) /\ (k = length q \/ test (drop k q) = false).
Proof.
  intros Hs Ht Hf. revert s q Hs Ht Hf. induction fuel as [| fuel IH]; intros s q Hs Ht Hf; cbn [evict_while].
  { exists 0%nat. rewrite drop_0. split_and!; [lia | done | done | lia | left; lia]. }
  rewrite (Ht s q Hs eq_refl). destruct (test q) eqn:Et; [|exists 0%nat; rewrite drop_0; split_and!; [lia | done | done | lia | by right]].
  destruct q as [| x q].
  { assert (evictOldestLocked s = s) as -> by (unfold evictOldestLocked; by rewrite (holds_count _ _ Hs)).
    destruct (IH s [] Hs Ht) as (k & Hk & H1 & H2 & H3 & H4); [cbn; lia|]. cbn in Hk. assert (k = 0%nat) as -> by lia. exists 0%nat. by split_and!. }
  destruct (evict_holds s x q Hs) as [Hs' Hfr].
  destruct (IH (evictOldestLocked s) q Hs') as (k & Hk & H1 & H2 & H3 & H4); [by rewrite Hfr | cbn in Hf; lia|].
  exists (S k). cbn [drop length]. split_and!; [lia | done | congruence | | destruct H4; [left; lia | by right]].
  intros [|j] Hj; [done|]. cbn. apply H3. lia.
Qed.

Definition no_room_for (capacity : nat) (maxBytes size : Z) (q : list storedThreat) : bool :=
  Nat.leb capacity (length q) || negb (Nat.eqb (length q) 0) && (maxBytes <? total q + size).

Lemma no_room_test size s : test_at (no_room size) (no_room_for (se_capacity s) (se_maxBytes s) size) (frame_of s).
Proof.
  intros t q Ht [= E1 E2 _ _]. unfold no_room, no_room_for. rewrite (holds_count _ _ Ht), (ho_bytes _ _ Ht), E1, E2. done.
Qed.

(** *** Appending *)

Lemma push_holds {JT : JSON ThreatEvent} s q e size :
  holds s q -> (length q < se_capacity s)%nat -> te_EventID e ∉ event_id <$> q ->
  holds (push_event s e size) (q ++ [mkStoredThreat e size]) /\ frame_of (push_event s e size) = frame_of s.
Proof.
  intros Hs Hlt Hnew. pose proof Hs as [Hr Hq Hb]. pose proof (holds_count _ _ Hs) as Hc. destruct (queue_spec s Hr) as [_ Hat]. split; [|done].
  pose proof (ro_capacity _ Hr) as Hcap. pose proof (ro_head _ Hr) as Hhead.
  set (slot := slot_of s (se_count s)). assert (Hslot : (slot < length (se_items s))%nat) by (rewrite (ro_items _ Hr); by apply slot_lt).
  assert (Hnew_at : event_at (push_event s e size) slot = Some (mkStoredThreat e size)).
  { unfold event_at, push_event, refresh_stats. cbn. fold slot. by rewrite list_lookup_insert_eq. }
  assert (Hold_at : forall i, (i < se_count s)%nat -> event_at (push_event s e size) (slot_of s i) = event_at s (slot_of s i)).
  { intros i Hi. unfold event_at, push_event, refresh_stats. cbn. rewrite list_lookup_insert_ne; [done|].
    intros E%slot_inj; [lia | done | lia | lia]. }
  assert (Hr' : ring_ok (push_event s e size)).
  { constructor; cbn [push_event refresh_stats se_capacity se_items se_head se_count se_index field_upd].
    - done.
    - cbn. rewrite length_insert. apply Hr.
    - done.
    - cbn. lia.
    - intros i Hi. cbn in Hi. change (slot_of (push_event s e size) i) with (slot_of s i).
      destruct (decide (i = se_count s)) as [-> | Hne]; [fold slot; by rewrite Hnew_at|]. rewrite Hold_at by lia. apply (ro_full _ Hr). lia.
    - intros id t. change (se_index (push_event s e size)) with (<[te_EventID e := slot]> (se_index s)).
      change (se_count (push_event s e size)) with (S (se_count s)).
      destruct (decide (id = te_EventID e)) as [-> | Hne].
      + rewrite lookup_insert_eq. split.
        * intros [= <-]. exists (se_count s), (mkStoredThreat e size). split_and!; [lia | done | done | done].
        * intros (i & x & Hi & -> & Hx & Eid). change (slot_of (push_event s e size) i) with (slot_of s i) in *.
          destruct (decide (i = se_count s)) as [-> | Hni]; [done|]. exfalso. apply Hnew. rewrite <- Hq, <- Eid. apply list_elem_of_fmap_2.
          apply list_elem_of_lookup_2 with i. rewrite Hold_at in Hx by lia. by rewrite Hat by lia.
      + rewrite lookup_insert_ne, (ro_index _ Hr) by done. split.
        * intros (i & x & Hi & -> & Hx & <-). exists i, x. rewrite Hold_at by done. split_and!; [lia | done | done | done].
        * intros (i & x & Hi & -> & Hx & <-). change (slot_of (push_event s e size) i) with (slot_of s i) in *.
          destruct (decide (i = se_count s)) as [-> | Hni]; [fold slot in Hx; rewrite Hnew_at in Hx; by injection Hx as <-|].
          exists i, x. rewrite Hold_at in Hx by lia. split_and!; [lia | done | done | done]. }
  constructor; [done | | cbn; rewrite total_app, Hb; cbn; lia].
  apply queue_eq; [done | rewrite length_app; cbn; lia |]. intros i Hi. change (se_count (push_event s e size)) with (S (se_count s)) in Hi.
  change (slot_of (push_event s e size) i) with (slot_of s i).
  destruct (decide (i = se_count s)) as [-> | Hni].
  - fold slot. rewrite Hnew_at, Hc, lookup_app_r, Nat.sub_diag by lia. done.
  - rewrite Hold_at, lookup_app_l, <- Hq by lia. by rewrite Hat by lia.
Qed.

(** ** The store refines a bounded queue *)

Section refinement.
Context {JT : JSON ThreatEvent}.

Definition seq_of (x : storedThreat) : Z := te_Sequence (st_event x).

Record store_ok (s : SecurityEventStore) (q : list storedThreat) : Prop := mkStoreOk {
  sk_holds : holds s q;
  sk_budget : total q <= se_maxBytes s;
  sk_sizes : Forall (fun x => encoded_size (st_event x) = Some (st_size x)) q;
  sk_sorted : StronglySorted Z.lt (seq_of <$> q);
  sk_next : Forall (fun x => 0 < seq_of x <= se_next s) q;
  sk_range : 0 <= se_next s < 2 ^ 64;
  sk_positive : 0 < se_maxBytes s
}.

Lemma encoded_size_nonneg e n : encoded_size e = Some n -> 0 <= n.
Proof. unfold encoded_size. destruct (Marshal e); [|done]. intros [= <-]. lia. Qed.

(** A change that the invariant does not see. *)
Lemma store_ok_frame s s' q : store_ok s q -> se_items s' = se_items s -> se_index s' = se_index s -> se_head s' = se_head s ->
  se_count s' = se_count s -> se_capacity s' = se_capacity s -> se_bytes s' = se_bytes s -> se_maxBytes s' = se_maxBytes s ->
  se_next s <= se_next s' < 2 ^ 64 -> store_ok s' q.
Proof.
  intros [[Hr Hq Hb] H1 H2 H3 H4 H5 H6] E1 E2 E3 E4 E5 E6 E7 E8.
  assert (Eslot : forall i, slot_of s' i = slot_of s i) by (intros i; unfold slot_of; by rewrite E3, E5).
  assert (Eat : forall n, event_at s' n = event_at s n) by (intros n; unfold event_at; by rewrite E1).
  constructor; [| by rewrite E7 | done | done | | lia | by rewrite E7].
  - constructor; [destruct Hr; constructor; rewrite ?E1, ?E2, ?E3, ?E4, ?E5 in * | | by rewrite E6]; try done.
    + intros i Hi. rewrite Eat, Eslot. auto.
    + intros id slot. rewrite ro_index0. split; intros (i & x & ? & ? & ? & ?); exists i, x; rewrite Eat, Eslot in *; done.
    + rewrite <- Hq. unfold queue. rewrite E4. generalize (seq 0 (se_count s)). intros l. induction l as [| i l IH]; cbn; [done|].
      by rewrite Eat, Eslot, IH.
  - eapply Forall_impl; [exact H4|]. cbn. lia.
Qed.

Lemma store_ok_drop s q k s' : store_ok s q -> holds s' (drop k q) -> frame_of s' = frame_of s -> store_ok s' (drop k q).
Proof.
  intros [Hh H1 H2 H3 H4 H5 H6] Hh' [= E1 E2 E3 E4]. constructor; [done | | by apply Forall_drop | | rewrite E3; by apply Forall_drop | by rewrite E3 | by rewrite E2].
  - rewrite E2. rewrite <- (take_drop k q), total_app in H1. assert (0 <= total (take k q)); [|lia].
    assert (H2' : Forall (fun x => encoded_size (st_event x) = Some (st_size x)) (take k q)) by by apply Forall_take.
    revert H2'. generalize (take k q). intros l. induction l as [| x l IH]; cbn; [done|].
    intros [Hx Hl]%Forall_cons. apply encoded_size_nonneg in Hx. unfold total in *. cbn. specialize (IH Hl). lia.
  - rewrite fmap_drop. rewrite <- (take_drop k (seq_of <$> q)) in H3. by apply StronglySorted_app_1_r in H3.
Qed.

Lemma known_event s q id : store_ok s q ->
  match se_index s !! id ≫= event_at s with
  | Some x => x ∈ q /\ event_id x = id
  | None => id ∉ event_id <$> q
  end.
Proof.
  intros [[Hr Hq _] _ _ _ _ _ _]. rewrite <- Hq. destruct (se_index s !! id) as [slot|] eqn:E; cbn.
  - apply (ro_index _ Hr) in E as (i & x & Hi & -> & Hx & <-). rewrite Hx. split; [|done].
    destruct (queue_spec s Hr) as [_ Hat]. apply list_elem_of_lookup_2 with i. by rewrite Hat.
  - intros Hin%(index_queue s id Hr). rewrite E in Hin. by destruct Hin.
Qed.

Lemma reject_ok s q : store_ok s q -> store_ok (reject_bytes s) q.
Proof. intros H. eapply store_ok_frame; try done. pose proof (sk_range _ _ H). cbn. lia. Qed.

Lemma complete_id clock e : te_EventID (complete_event clock e) = te_EventID e.
Proof. unfold complete_event. repeat (case_bool_decide || case_if); done. Qed.

(** Making room for an event: how many of the oldest have to go. *)
Lemma make_room s q size : store_ok s q ->
  exists k, (k <= length q)%nat /\ store_ok (evict_while (no_room size) (se_count s) s) (drop k q) /\
    frame_of (evict_while (no_room size) (se_count s) s) = frame_of s /\ (length (drop k q) < se_capacity s)%nat /\
    (forall j, (j < k)%nat -> no_room_for (se_capacity s) (se_maxBytes s) size (drop j q) = true) /\
    (drop k q = [] \/ total (drop k q) + size <= se_maxBytes s).
Proof.
  intros Hs. pose proof (sk_holds _ _ Hs) as Hh. pose proof (ro_capacity _ (ho_ring _ _ Hh)) as Hcap.
  destruct (evict_while_holds (no_room size) _ s q (se_count s) Hh (no_room_test size s)) as (k & Hk & H1 & H2 & H3 & H4).
  { by rewrite (holds_count _ _ Hh). }
  exists k. split_and!; [done | by eapply store_ok_drop | done | | done |].
  - destruct H4 as [-> | H4]; [rewrite drop_all; cbn; lia|]. apply orb_false_iff in H4 as [H4 _]. by apply Nat.leb_gt in H4.
  - destruct H4 as [-> | H4]; [left; apply drop_all|]. apply orb_false_iff in H4 as [_ H4].
    destruct (drop k q) as [| x l] eqn:E; [by left|]. right. cbn [length Nat.eqb negb andb] in H4. apply Z.ltb_ge in H4. done.
Qed.

(** The event as the store numbers it. *)
Definition numbered (s : SecurityEventStore) (clock : Time) (e : ThreatEvent) : ThreatEvent :=
  (complete_event clock e) <| te_Sequence := inc64 (se_next s) |>.

(** What [Add] does to the queue. *)
Definition add_outcome (s : SecurityEventStore) (q : list storedThreat) (clock : Time) (e : ThreatEvent)
    (s' : SecurityEventStore) (out : result SecurityError (ThreatEvent * bool)) : Prop :=
  match out with
  | Ok (stored, true) =>
      exists k size, stored = numbered s clock e /\ te_EventID e ∉ event_id <$> q /\ encoded_size stored = Some size /\
        store_ok s' (drop k q ++ [mkStoredThreat stored size]) /\
        (forall j, (j < k)%nat -> no_room_for (se_capacity s) (se_maxBytes s) size (drop j q) = true)
  | Ok (stored, false) => (exists size, mkStoredThreat stored size ∈ q) /\ te_EventID stored = te_EventID e /\ store_ok s' q
  | Err ErrSecurityEventTooLarge =>
      store_ok s' q \/
      (* the event fits before it is numbered and not afterwards *)
      store_ok s' [] /\ (exists size, encoded_size (numbered s clock e) = Some size /\ se_maxBytes s < size)
  | Err _ => store_ok s' q
  end.

Lemma Add_outcome s q clock e : store_ok s q -> se_next s + 1 < 2 ^ 64 ->
  add_outcome s q clock e (Add s clock e).1 (Add s clock e).2.
Proof.
  intros Hs Hn. pose proof (sk_range _ _ Hs) as Hrange. unfold Add. case_bool_decide; [done|]. set (e1 := complete_event clock e).
  destruct (encoded_size e1) as [size1|] eqn:E1; [|done].
  destruct (Z.ltb_spec (se_maxBytes s) size1); [left; by apply reject_ok|].
  pose proof (known_event s q (te_EventID e1) Hs) as Hknown. destruct (_ ≫= _) as [known|].
  { destruct Hknown as [Hin Hid]. cbn. split_and!; [exists (st_size known); by destruct known | by rewrite <- (complete_id clock e) |].
    eapply store_ok_frame; try done. cbn. lia. }
  set (s1 := s <| se_next ::= inc64 |>). assert (En : inc64 (se_next s) = se_next s + 1) by (unfold inc64; apply u64_small; lia).
  assert (Hs1 : store_ok s1 q) by (eapply store_ok_frame; try done; subst s1; cbn; lia).
  change (se_next s1) with (inc64 (se_next s)). change (e1 <| te_Sequence := inc64 (se_next s) |>) with (numbered s clock e).
  destruct (encoded_size (numbered s clock e)) as [size|] eqn:E2; [|done].
  destruct (make_room s1 q size Hs1) as (k & Hk & H1 & Hfr & Hcount & Hmin & Hroom). set (s2 := evict_while _ _ _) in *.
  assert (Emax : se_maxBytes s2 = se_maxBytes s) by (injection Hfr; done). rewrite Emax.
  destruct (Z.ltb_spec (se_maxBytes s) size) as [Hbig | Hfits]; cbn [fst snd add_outcome].
  - right. split; [|by exists size]. pose proof (encoded_size_nonneg _ _ E2). destruct Hroom as [E | Hle].
    + rewrite E in H1. by apply reject_ok.
    + pose proof (sk_sizes _ _ H1) as Hsz. destruct (drop k q) as [| x l] eqn:E; [by apply reject_ok|]. exfalso.
      assert (0 <= total (x :: l)); [|cbn in *; lia]. revert Hsz. clear. generalize (x :: l). intros l'. induction l' as [| y l' IH]; cbn; [done|].
      intros [Hy Hl]%Forall_cons. apply encoded_size_nonneg in Hy. unfold total in *. cbn. specialize (IH Hl). lia.
  - exists k, size. assert (Hid : te_EventID (numbered s clock e) = te_EventID e) by apply complete_id.
    assert (Hnew : te_EventID e ∉ event_id <$> q) by by rewrite <- (complete_id clock e).
    assert (Hnew2 : te_EventID (numbered s clock e) ∉ event_id <$> drop k q).
    { rewrite Hid. intros Hin. apply Hnew. rewrite fmap_drop in Hin. by eapply subseteq_drop. }
    destruct (push_holds s2 (drop k q) (numbered s clock e) size (sk_holds _ _ H1)) as [Hh Hfr2]; [|done|].
    { injection Hfr as -> _ _ _. done. }
    split_and!; [done | done | done | | done]. destruct H1 as [_ B1 B2 B3 B4 B5 B6].
    assert (Enext : se_next s2 = se_next s + 1) by (injection Hfr as _ _ -> _; exact En).
    assert (F2 : se_maxBytes (push_event s2 (numbered s clock e) size) = se_maxBytes s2) by done.
    assert (F3 : se_next (push_event s2 (numbered s clock e) size) = se_next s2) by done. constructor; [done | | | | | rewrite F3; lia | by rewrite F2].
    + rewrite F2, Emax, total_app. cbn. destruct Hroom as [E | Hle]; [rewrite E; cbn; lia | cbn in *; lia].
    + apply Forall_app. split; [done|]. by constructor.
    + rewrite fmap_app. apply StronglySorted_app_2; [| done | repeat constructor].
      intros a b Ha ->%list_elem_of_singleton. apply list_elem_of_fmap in Ha as (x & -> & Hx). unfold seq_of at 2. cbn. rewrite En.
      apply subseteq_drop in Hx. pose proof (sk_next _ _ Hs) as Hnx. eapply Forall_forall in Hnx; [|exact Hx]. cbn in Hnx. lia.
    + rewrite F3. apply Forall_app. split; [done|]. constructor; [|done]. unfold seq_of. cbn -[se_next inc64]. rewrite En. change (0 < se_next s + 1 <= se_next s2). lia.
Qed.

(** *** Updating in place *)

Definition put_event (s : SecurityEventStore) (slot : nat) (x : storedThreat) (bytes : Z) : SecurityEventStore :=
  refresh_stats (s <| se_items ::= <[slot := Some x]> |> <| se_bytes := bytes |>).

Lemma put_at s i j x bytes : ring_ok s -> (i < se_count s)%nat -> (j < se_count s)%nat ->
  event_at (put_event s (slot_of s i) x bytes) (slot_of s j) = if decide (i = j) then Some x else event_at s (slot_of s j).
Proof.
  intros Hr Hi Hj. pose proof (ro_count _ Hr). pose proof (ro_head _ Hr). unfold event_at, put_event, refresh_stats. cbn. case_decide as E.
  - subst j. rewrite list_lookup_insert_eq; [done|]. rewrite (ro_items _ Hr). apply slot_lt, Hr.
  - rewrite list_lookup_insert_ne; [done|]. intros Es%slot_inj; [done | done | lia | lia].
Qed.

Lemma total_insert q i x y : q !! i = Some x -> total (<[i := y]> q) = total q - st_size x + st_size y.
Proof.
  intros H. rewrite <- (take_drop_middle q i x H) at 2. rewrite insert_take_drop by (by eapply lookup_lt_Some).
  rewrite !total_app. unfold total. cbn. lia.
Qed.

Lemma put_holds s q i x y : holds s q -> q !! i = Some x -> event_id y = event_id x ->
  holds (put_event s (slot_of s i) y (se_bytes s - st_size x + st_size y)) (<[i := y]> q).
Proof.
  intros Hs Hx Hid. pose proof Hs as [Hr Hq Hb]. pose proof (holds_count _ _ Hs) as Hc. pose proof (lookup_lt_Some _ _ _ Hx) as Hi. rewrite <- Hc in Hi.
  destruct (queue_spec s Hr) as [_ Hat]. set (s' := put_event _ _ _ _).
  assert (Hs' : forall j, slot_of s' j = slot_of s j) by done.
  assert (Hxi : event_at s (slot_of s i) = Some x) by (by rewrite <- Hat, Hq by done).
  assert (Hr' : ring_ok s').
  { constructor; try apply Hr.
    - cbn. rewrite length_insert. apply Hr.
    - intros j Hj. change (se_count s') with (se_count s) in Hj. rewrite Hs'. unfold s'. rewrite put_at by done. case_decide; [done|]. by apply Hr.
    - intros id slot. change (se_index s') with (se_index s). change (se_count s') with (se_count s). rewrite (ro_index _ Hr).
      split; intros (j & z & Hj & -> & Hz & Ez).
      + exists j, (if decide (i = j) then y else z). rewrite Hs'. unfold s'. rewrite put_at by done.
        case_decide as E; [subst j; rewrite Hxi in Hz; injection Hz as <-; by rewrite Hid | done].
      + rewrite Hs' in *. unfold s' in Hz. rewrite put_at in Hz by done. case_decide as E; [|by exists j, z].
        injection Hz as <-. subst j. exists i, x. by rewrite <- Hid. }
  constructor; [done | | cbn; by rewrite (total_insert _ _ _ _ Hx), Hb].
  apply queue_eq; [done | by rewrite length_insert, <- Hc|]. intros j Hj. change (se_count s') with (se_count s) in Hj.
  rewrite Hs'. unfold s'. rewrite put_at by done. case_decide as E; [subst j; by rewrite list_lookup_insert_eq by lia|].
  rewrite list_lookup_insert_ne by done. by rewrite <- Hat, Hq.
Qed.

(** The update loop reads the queue only. *)
Definition update_full_for (id : string) (maxBytes before size : Z) (q : list storedThreat) : bool :=
  (maxBytes <? total q - before + size) && Nat.ltb 1 (length q) &&
  match q with x :: _ => negb (bool_decide (event_id x = id)) | [] => true end.

Lemma head_queue s q : holds s q -> (0 < length q)%nat -> head_event s = head q.
Proof.
  intros Hs Hl. pose proof Hs as [Hr Hq _]. destruct (queue_spec s Hr) as [_ Hat]. unfold head_event.
  rewrite <- (slot_0 s), <- Hat by (apply Hr || rewrite (holds_count _ _ Hs); lia). rewrite Hq. by destruct q.
Qed.

Lemma update_test id before size s : test_at (update_full id before size) (update_full_for id (se_maxBytes s) before size) (frame_of s).
Proof.
  intros t q Ht [= E1 E2 _ _]. unfold update_full, update_full_for. rewrite (holds_count _ _ Ht), (ho_bytes _ _ Ht), E2.
  destruct q as [| x q]; [by rewrite !andb_false_r|]. by rewrite (head_queue _ _ Ht) by (cbn; lia).
Qed.

(** The bytes in front of the event are those of its predecessors. *)
Lemma reclaimable_prefix s id pre x post n i : holds s (pre ++ x :: post) -> event_id x = id -> id ∉ event_id <$> pre ->
  (i <= length pre)%nat -> (length pre < i + n)%nat -> (i + n <= se_count s)%nat -> reclaimable s id i n = total (drop i pre).
Proof.
  intros Hs Hx Hpre. pose proof Hs as [Hr Hq _]. destruct (queue_spec s Hr) as [_ Hat].
  revert i. induction n as [| n IH]; intros i Hi Hn Hc; [lia|]. cbn [reclaimable]. rewrite <- Hat, Hq by lia.
  destruct (decide (i = length pre)) as [-> | Hne].
  - rewrite list_lookup_middle by done. unfold event_id in Hx. rewrite bool_decide_eq_true_2 by done. by rewrite drop_all.
  - destruct (lookup_lt_is_Some_2 pre i) as [y Hy]; [lia|]. rewrite lookup_app_l, Hy by lia. cbn.
    rewrite bool_decide_eq_false_2, IH by (lia || intros E; apply Hpre; rewrite <- E; apply (list_elem_of_fmap_2 event_id), list_elem_of_lookup_2 with i; done).
    rewrite (drop_S pre y i Hy). done.
Qed.

Lemma sizes_nonneg q : Forall (fun x => encoded_size (st_event x) = Some (st_size x)) q -> 0 <= total q.
Proof.
  induction q as [| x q IH]; [done|]. intros [Hx Hq]%Forall_cons. apply encoded_size_nonneg in Hx. unfold total in *. cbn. specialize (IH Hq). lia.
Qed.

(** The update evicts predecessors only, no more than it needs, and then fits. *)
Lemma update_room s pre x post size : store_ok s (pre ++ x :: post) -> event_id x ∉ event_id <$> pre -> size <= se_maxBytes s ->
  (se_maxBytes s <? se_bytes s - st_size x + size) && (se_maxBytes s <? se_bytes s - st_size x + size - total pre) = false ->
  let s' := evict_while (update_full (event_id x) (st_size x) size) (se_count s) s in
  exists k, store_ok s' (drop k pre ++ x :: post) /\ frame_of s' = frame_of s /\ total (drop k pre ++ x :: post) - st_size x + size <= se_maxBytes s /\ (forall j, (j < k)%nat -> se_maxBytes s < total (drop j pre ++ x :: post) - st_size x + size).
Proof.
  intros Hs Hpre Hsize Hrec s'. pose proof (sk_holds _ _ Hs) as Hh.
  destruct (evict_while_holds _ _ s _ (se_count s) Hh (update_test (event_id x) (st_size x) size s)) as (k & Hk & H1 & H2 & H3 & H4).
  { by rewrite (holds_count _ _ Hh). }
  assert (Hkp : (k <= length pre)%nat).
  { destruct (decide (k <= length pre)%nat) as [|Hgt]; [done|]. specialize (H3 (length pre) ltac:(lia)). rewrite drop_app_length in H3.
    unfold update_full_for in H3. rewrite bool_decide_eq_true_2, andb_false_r in H3 by done. done. }
  assert (Hover : forall j, (j < k)%nat -> se_maxBytes s < total (drop j pre ++ x :: post) - st_size x + size).
  { intros j Hj. specialize (H3 j Hj). rewrite drop_app_le in H3 by lia. unfold update_full_for in H3.
    apply andb_prop in H3 as [[H3 _]%andb_prop _]. by apply Z.ltb_lt in H3. }
  rewrite (ho_bytes _ _ Hh), total_app in Hrec.
  pose proof (store_ok_drop s _ k s' Hs H1 H2) as Hok. rewrite drop_app_le in * by lia. exists k. split_and!; [done | done | | done].
  destruct H4 as [H4 | H4]; [rewrite length_app in H4; cbn in H4; lia|].
  assert (Hlast : drop k pre = [] -> total (drop k pre ++ x :: post) - st_size x + size <= se_maxBytes s).
  { intros E. rewrite E. cbn [app]. destruct (decide (k = 0%nat)) as [-> | Hk0].
    - rewrite drop_0 in E. subst pre. change (total []) with 0 in Hrec. rewrite Z.sub_0_r, andb_diag in Hrec. apply Z.ltb_ge in Hrec. lia.
    - specialize (Hover 0%nat ltac:(lia)). rewrite drop_0, total_app in Hover.
      apply Z.ltb_lt in Hover. rewrite Hover in Hrec. apply Z.ltb_ge in Hrec. lia. }
  unfold update_full_for in H4. destruct (drop k pre) as [| y l] eqn:E; [by apply Hlast|].
  assert (Hy : bool_decide (event_id y = event_id x) = false).
  { apply bool_decide_eq_false. intros Ey. apply Hpre. rewrite <- Ey. apply (list_elem_of_fmap_2 event_id). apply subseteq_drop with k. rewrite E. by left. }
  cbn [app length] in H4 |- *. rewrite Hy, andb_true_r in H4. rewrite (proj2 (Nat.ltb_lt _ _)), andb_true_r in H4.
  - by apply Z.ltb_ge in H4.
  - rewrite length_app. cbn. lia.
Qed.

(** The correlation fields of an event, and nothing else. *)
Definition recorrelated (e : ThreatEvent) (sessionID policyID : string) (generation : Z) (state : CorrelationState) (reason : string) : ThreatEvent :=
  e <| te_SessionID := sessionID |> <| te_PolicyID := policyID |> <| te_PolicyGeneration := generation |>
    <| te_CorrelationState := state |> <| te_CorrelationReason := reason |> <| te_CorrelationRevision ::= inc64 |>.

(** What [UpdateCorrelation] does to the queue [pre ++ x :: post] that holds the event. *)
Definition update_outcome (s : SecurityEventStore) (q : list storedThreat) (id sessionID policyID : string) (generation : Z) (state : CorrelationState)
    (reason : string) (s' : SecurityEventStore) (out : result SecurityError ThreatEvent) : Prop :=
  match out with
  | Ok e =>
      exists pre x post, q = pre ++ x :: post /\ event_id x = id /\ (e = st_event x /\ s' = s \/
         exists k size, e = recorrelated (st_event x) sessionID policyID generation state reason /\ encoded_size e = Some size /\ store_ok s' (drop k pre ++ mkStoredThreat e size :: post) /\
           forall j, (j < k)%nat -> se_maxBytes s < total (drop j pre ++ mkStoredThreat e size :: post))
  | Err ErrSecurityEventNotFound => id ∉ event_id <$> q /\ s' = s
  | Err _ => store_ok s' q
  end.

Lemma update_seqs pre (x y : storedThreat) post : seq_of y = seq_of x -> seq_of <$> (pre ++ y :: post) = seq_of <$> (pre ++ x :: post).
Proof. intros E. rewrite !fmap_app, !fmap_cons. by rewrite E. Qed.

Lemma put_ok s pre x post y : store_ok s (pre ++ x :: post) -> event_id y = event_id x -> seq_of y = seq_of x ->
  encoded_size (st_event y) = Some (st_size y) -> total (pre ++ y :: post) <= se_maxBytes s ->
  store_ok (put_event s (slot_of s (length pre)) y (se_bytes s - st_size x + st_size y)) (pre ++ y :: post).
Proof.
  intros [Hh B1 B2 B3 B4 B5 B6] Hid Hseq Hsize Hfits.
  assert (Hi : (pre ++ x :: post) !! length pre = Some x) by by apply list_lookup_middle.
  pose proof (put_holds s _ _ x y Hh Hi Hid) as Hp.
  rewrite insert_app_r_alt, Nat.sub_diag in Hp by done. cbn [insert list_insert] in Hp.
  constructor; [exact Hp | done | | by rewrite (update_seqs _ x) | | done | done].
  - apply Forall_app in B2 as [P1 [P2 P3]%Forall_cons]. apply Forall_app. split; [done|]. by constructor.
  - apply Forall_app in B4 as [P1 [P2 P3]%Forall_cons]. apply Forall_app. split; [done|]. constructor; [by rewrite Hseq | done].
Qed.

Lemma known_split s q id x : store_ok s q -> se_index s !! id ≫= event_at s = Some x ->
  exists pre post, q = pre ++ x :: post /\ event_id x = id /\ event_id x ∉ event_id <$> pre.
Proof.
  intros Hs Hx. pose proof (known_event s q id Hs) as Hk. rewrite Hx in Hk. destruct Hk as [Hin Hid].
  apply list_elem_of_split in Hin as (pre & post & ->). exists pre, post. split_and!; [done | done |].
  pose proof (queue_NoDup s (ho_ring _ _ (sk_holds _ _ Hs))) as Hnd. rewrite (ho_queue _ _ (sk_holds _ _ Hs)), fmap_app, fmap_cons in Hnd.
  apply NoDup_app in Hnd as (_ & Hd & _). intros Hpre. apply (Hd _ Hpre). by left.
Qed.

(** The index names the slot of the event. *)
Lemma index_slot s pre x post : store_ok s (pre ++ x :: post) -> se_index s !! event_id x = Some (slot_of s (length pre)).
Proof.
  intros Hs. pose proof (sk_holds _ _ Hs) as Hh. pose proof Hh as [Hr Hq _]. apply (ro_index _ Hr). exists (length pre), x.
  assert (Hlt : (length pre < se_count s)%nat) by (rewrite (holds_count _ _ Hh), length_app; cbn; lia).
  split_and!; [done | done | | done]. destruct (queue_spec s Hr) as [_ Hat]. rewrite <- Hat, Hq by done. by apply list_lookup_middle.
Qed.

Lemma update_spec s q id sessionID policyID generation state reason : store_ok s q ->
  update_outcome s q id sessionID policyID generation state reason (UpdateCorrelation s id sessionID policyID generation state reason).1
    (UpdateCorrelation s id sessionID policyID generation state reason).2.
Proof.
  intros Hs. unfold UpdateCorrelation. destruct (CorrelationState_Valid state); [cbn [negb] | done].
  pose proof (known_event s q id Hs) as Hk. destruct (_ ≫= _) as [x|] eqn:Ex; [|done]. clear Hk.
  destruct (known_split s q id x Hs Ex) as (pre & post & -> & <- & Hpre).
  destruct (_ && _ && _ && _ && _); [exists pre, x, post; split_and!; [done | done | by left]|].
  fold (recorrelated (st_event x) sessionID policyID generation state reason). set (e := recorrelated _ _ _ _ _ _).
  destruct (encoded_size e) as [size|] eqn:Ee; [|done].
  destruct (Z.ltb_spec (se_maxBytes s) size); [by apply reject_ok|].
  pose proof (holds_count _ _ (sk_holds _ _ Hs)) as Hc. rewrite length_app in Hc. cbn in Hc.
  rewrite (reclaimable_prefix s (event_id x) pre x post (se_count s) 0 (sk_holds _ _ Hs)) by (done || lia). rewrite drop_0.
  destruct (_ && _) eqn:Erec; [by apply reject_ok|].
  destruct (update_room s pre x post size Hs Hpre ltac:(lia) Erec) as (k & Hok & Hfr & Hfits & Hmin).
  set (s1 := evict_while _ _ _) in *. rewrite (index_slot s1 _ _ _ Hok). assert (Em : se_maxBytes s1 = se_maxBytes s) by (injection Hfr; done).
  rewrite (ho_bytes _ _ (sk_holds _ _ Hok)), Em. destruct (Z.ltb_spec (se_maxBytes s) (total (drop k pre ++ x :: post) - st_size x + size)); [lia|].
  cbn [fst snd update_outcome]. exists pre, x, post. split_and!; [done | done |]. right. exists k, size. split_and!; [done | done | |].
  - rewrite <- (ho_bytes _ _ (sk_holds _ _ Hok)). apply (put_ok s1 (drop k pre) x post (mkStoredThreat e size)); [done | done | done | done |].
    rewrite Em. rewrite total_app in *. unfold total in *. cbn in *. lia.
  - intros j Hj. specialize (Hmin j Hj). rewrite total_app in *. unfold total in *. cbn in *. lia.
Qed.

(** *** Every reachable store *)

Lemma new_store_ok capacity maxBytes seed : store_ok (NewSecurityEventStore capacity maxBytes seed) [].
Proof.
  unfold NewSecurityEventStore. set (c := Z.to_nat (if capacity <=? 0 then 5000 else capacity)).
  assert (Hc : (0 < c)%nat) by (unfold c; destruct (Z.leb_spec capacity 0); lia).
  assert (Hm : 0 < (if maxBytes <=? 0 then 16777216 else maxBytes)) by (destruct (Z.leb_spec maxBytes 0); lia).
  set (s := mkSecurityEventStore _ _ _ _ _ _ _ _ _ _). constructor; [| cbn; lia | constructor | constructor | constructor | cbn; lia | done].
  constructor; [| done | done]. constructor; cbn; try (done || lia).
  - apply length_replicate.
  - intros id slot. rewrite lookup_empty. split; [done|]. intros (i & x & Hi & _). lia.
Qed.

Inductive security_reach : SecurityEventStore -> Prop :=
| reach_new capacity maxBytes seed : security_reach (NewSecurityEventStore capacity maxBytes seed)
| reach_add s clock e : security_reach s -> se_next s + 1 < 2 ^ 64 -> security_reach (Add s clock e).1
| reach_update s id sessionID policyID generation state reason : security_reach s ->
    security_reach (UpdateCorrelation s id sessionID policyID generation state reason).1.

Lemma reach_ok s : security_reach s -> exists q, store_ok s q.
Proof.
  induction 1 as [c m seed | s clock e _ [q Hq] Hn | s id a b g st r _ [q Hq]].
  - exists []. apply new_store_ok.
  - pose proof (Add_outcome s q clock e Hq Hn) as H. destruct (Add s clock e) as [s' [[stored []] | []]]; cbn in *; naive_solver.
  - pose proof (update_spec s q id a b g st r Hq) as H. destruct (UpdateCorrelation s id a b g st r) as [s' [stored | []]]; cbn in *; naive_solver.
Qed.

Lemma reach_store_ok s : security_reach s -> store_ok s (queue s).
Proof. intros [q Hq]%reach_ok. by rewrite (ho_queue _ _ (sk_holds _ _ Hq)). Qed.
End refinement.

(** ** Pages *)

Section pages.
Context {JT : JSON ThreatEvent}.

Definition newer (n : Z) (l : list ThreatEvent) : list ThreatEvent := List.filter (fun e => n <? te_Sequence e) l.
Definition matching (q : SecurityQuery) (l : list ThreatEvent) : list ThreatEvent := List.filter (fun e => matchesSecurityQuery e q) l.

(** The query that follows a page. *)
Definition continue_after (q : SecurityQuery) (n : Z) : SecurityQuery :=
  mkSecurityQuery (qu_SessionID q) (qu_SensorID q) (qu_Mode q) (qu_Severity q) (qu_Verdict q) (qu_Correlation q) (qu_Application q)
    (qu_SignatureID q) (qu_HasSignatureID q) n (qu_StreamID q) (qu_Limit q).

(** A client that asks for the next page as long as there is one. *)
Fixpoint read_all (fuel : nat) (s : SecurityEventStore) (q : SecurityQuery) : option (list ThreatEvent) :=
  match fuel with
  | O => None
  | S n =>
      let page := Query s q in
      if sg_HasMore page then (fun rest => sg_Items page ++ rest) <$> read_all n s (continue_after q (sg_NextSequence page))
      else Some (sg_Items page)
  end.

Lemma page_limit_range q : 1 <= page_limit q <= 200.
Proof. unfold page_limit. destruct (Z.leb_spec (qu_Limit q) 0); [cbn; lia|]. destruct (Z.ltb_spec 200 (qu_Limit q)); lia. Qed.

Lemma scan_newer q after limit l : forall items next, scan_events q after limit l items next = scan_events q after limit (newer after l) items next.
Proof.
  induction l as [| e l IH]; intros items next; [done|]. cbn [scan_events newer List.filter]. rewrite Z.ltb_antisym.
  destruct (te_Sequence e <=? after) eqn:E; cbn [negb]; [apply IH|]. cbn [scan_events]. rewrite E.
  destruct (limit <=? _); [done | apply IH].
Qed.

Lemma newer_all n l : Forall (fun e => n < te_Sequence e) l -> newer n l = l.
Proof. induction 1 as [| e l He Hl IH]; [done|]. cbn. rewrite (proj2 (Z.ltb_lt _ _) He). unfold newer in IH. by rewrite IH. Qed.

Lemma newer_none n l : Forall (fun e => te_Sequence e <= n) l -> newer n l = [].
Proof. induction 1 as [| e l He Hl IH]; [done|]. cbn. by rewrite (proj2 (Z.ltb_ge _ _) He). Qed.

(** The scan splits what is newer at the limit. *)
Lemma scan_split q after limit l : Forall (fun e => after < te_Sequence e) l -> forall items next,
  exists p r, l = p ++ r /\
    scan_events q after limit l items next = (rev items ++ matching q p, default next (te_Sequence <$> last p), negb (bool_decide (r = []))) /\
    (r = [] \/ limit <= Z.of_nat (length items) + Z.of_nat (length p)) /\
    (Z.of_nat (length items) <= limit -> Z.of_nat (length items) + Z.of_nat (length (matching q p)) <= limit).
Proof.
  induction 1 as [| e l He Hl IH]; intros items next; cbn [scan_events].
  { exists [], []. cbn. rewrite app_nil_r. split_and!; [done | done | by left | lia]. }
  rewrite (proj2 (Z.leb_gt _ _) He). destruct (Z.leb_spec limit (Z.of_nat (length items))) as [Hlim | Hlim].
  { exists [], (e :: l). cbn. rewrite app_nil_r. split_and!; [done | done | right; lia | lia]. }
  destruct (IH (if matchesSecurityQuery e q then e :: items else items) (te_Sequence e)) as (p & r & -> & Hscan & Hr & Hle).
  exists (e :: p), r. rewrite Hscan. unfold matching in *. cbn [List.filter length] in *. split_and!; [done | | |].
  - rewrite last_cons. destruct (matchesSecurityQuery e q); cbn [rev]; rewrite <- ?app_assoc; by destruct (last p).
  - destruct Hr as [-> | Hr]; [by left|]. right. destruct (matchesSecurityQuery e q); cbn [length] in Hr; lia.
  - intros _. destruct (matchesSecurityQuery e q); cbn [length] in *; lia.
Qed.

(** The events of the store, in the order of their numbers. *)
Lemma events_queue s : events s = st_event <$> queue s.
Proof.
  unfold events, queue. generalize (seq 0 (se_count s)). intros l. induction l as [| i l IH]; cbn; [done|].
  destruct (event_at s (slot_of s i)); cbn; by rewrite IH.
Qed.

Lemma events_sorted s q : store_ok s q -> StronglySorted Z.lt (te_Sequence <$> events s) /\ Forall (fun e => te_Sequence e <= se_next s) (events s).
Proof.
  intros [Hh _ _ H3 H4 _ _]. rewrite events_queue, (ho_queue _ _ Hh), <- list_fmap_compose. split; [done|].
  apply Forall_fmap. eapply Forall_impl; [exact H4|]. unfold seq_of. cbn. lia.
Qed.

Lemma newer_split n l p r m : StronglySorted Z.lt (te_Sequence <$> l) -> newer n l = p ++ r -> last p = Some m -> newer (te_Sequence m) l = r.
Proof.
  intros Hs Hn Hm. assert (Hlt : n < te_Sequence m).
  { assert (Hin : List.In m (newer n l)) by (rewrite Hn; apply in_or_app; left; apply list_elem_of_In; by apply last_Some_elem_of).
    unfold newer in Hin. apply filter_In in Hin as [_ Hin]. by apply Z.ltb_lt in Hin. }
  assert (E : newer (te_Sequence m) l = newer (te_Sequence m) (newer n l)).
  { clear Hn Hs. induction l as [| e l IH]; [done|]. cbn [newer List.filter]. fold (newer n l) (newer (te_Sequence m) l).
    destruct (Z.ltb_spec n (te_Sequence e)); cbn [newer List.filter]; fold (newer (te_Sequence m) (newer n l)).
    - by rewrite IH.
    - by rewrite (proj2 (Z.ltb_ge _ _)), IH by lia. }
  rewrite E, Hn. assert (Hsub : StronglySorted Z.lt (te_Sequence <$> newer n l)).
  { clear - Hs. induction l as [| e l IH]; [constructor|]. cbn in *. apply StronglySorted_inv in Hs as [Hs Hall]. specialize (IH Hs).
    destruct (n <? te_Sequence e); [|done]. cbn. constructor; [done|]. apply Forall_fmap.
    apply Forall_forall. intros x Hx. apply list_elem_of_In, filter_In in Hx as [Hx _]. apply list_elem_of_In in Hx.
    rewrite Forall_forall in Hall. apply Hall. by apply list_elem_of_fmap_2. }
  rewrite Hn in Hsub. apply last_Some in Hm as [p' ->]. rewrite !fmap_app, <- app_assoc in Hsub. cbn in Hsub.
  unfold newer. rewrite List.filter_app. fold (newer (te_Sequence m) r). fold (newer (te_Sequence m) (p' ++ [m])).
  rewrite newer_none, newer_all; [done | |].
  - apply StronglySorted_app_1_r in Hsub. apply StronglySorted_inv in Hsub as [_ Hall]. exact (proj1 (Forall_fmap _ _ _) Hall).
  - apply Forall_app. split; [|constructor; [lia|done]]. apply Forall_forall. intros x Hx.
    apply Z.lt_le_incl. eapply (StronglySorted_app_1_elem_of Z.lt); [exact Hsub | by apply list_elem_of_fmap_2 | by left].
Qed.

(** One page: the matching events up to the cursor, and whether a newer one remains. *)
Lemma security_page s q l : store_ok s l -> (qu_StreamID q = "" \/ qu_StreamID q = se_streamID s) -> 0 <= qu_AfterSequence q <= se_next s ->
  exists p r, newer (qu_AfterSequence q) (events s) = p ++ r /\ sg_Items (Query s q) = matching q p /\
    sg_HasMore (Query s q) = negb (bool_decide (r = [])) /\ Z.of_nat (length (sg_Items (Query s q))) <= page_limit q /\
    (r = [] \/ p <> []) /\ newer (sg_NextSequence (Query s q)) (events s) = r /\ 0 <= sg_NextSequence (Query s q) <= se_next s.
Proof.
  intros Hok Hstream Hafter. pose proof (page_limit_range q) as Hlim. destruct (events_sorted s l Hok) as [Hsorted Hnext].
  set (after := qu_AfterSequence q) in *. set (ev := events s) in *.
  assert (Hall : Forall (fun e => after < te_Sequence e) (newer after ev)).
  { apply Forall_forall. intros x Hx. apply list_elem_of_In, filter_In in Hx as [_ Hx]. by apply Z.ltb_lt in Hx. }
  destruct (scan_split q after (page_limit q) (newer after ev) Hall [] after) as (p & r & Hsplit & Hscan & Hr & Hle).
  assert (Ereset : negb (bool_decide (qu_StreamID q = "")) && negb (bool_decide (qu_StreamID q = se_streamID s)) = false).
  { destruct Hstream as [E | E]; [rewrite (bool_decide_eq_true_2 _ E); done | rewrite (bool_decide_eq_true_2 _ E); by rewrite andb_false_r]. }
  assert (Hp : forall m, last p = Some m -> te_Sequence m <= se_next s /\ after < te_Sequence m).
  { intros m Hm. assert (Hin : m ∈ newer after ev) by (rewrite Hsplit; apply elem_of_app; left; by apply last_Some_elem_of).
    rewrite Forall_forall in Hnext, Hall. split; [|by apply Hall]. apply Hnext. by apply list_elem_of_In, filter_In in Hin as [Hin%list_elem_of_In _]. }
  exists p, r. unfold Query. fold ev. rewrite Ereset. fold after. rewrite scan_newer, Hscan. cbn [sg_Items sg_HasMore sg_NextSequence app rev].
  assert (Hcur : (if se_next s <? default after (te_Sequence <$> last p) then se_next s else default after (te_Sequence <$> last p))
                 = default after (te_Sequence <$> last p)).
  { destruct (last p) as [m|] eqn:Em; cbn; [destruct (Hp m eq_refl) | idtac]; rewrite (proj2 (Z.ltb_ge _ _)) by lia; done. }
  rewrite Hcur. split_and!; [done | done | done | cbn in Hle; lia | | | |].
  - destruct Hr as [-> | Hr]; [by left|]. right. intros ->. cbn in Hr. lia.
  - destruct (last p) as [m|] eqn:Em; cbn; [by apply (newer_split after ev p)|]. apply last_None in Em as ->. done.
  - destruct (last p) as [m|] eqn:Em; cbn; [destruct (Hp m eq_refl); lia | lia].
  - destruct (last p) as [m|] eqn:Em; cbn; [destruct (Hp m eq_refl); lia | lia].
Qed.

Lemma read_all_spec s l n : store_ok s l -> forall q, (qu_StreamID q = "" \/ qu_StreamID q = se_streamID s) -> 0 <= qu_AfterSequence q <= se_next s ->
  (length (newer (qu_AfterSequence q) (events s)) < n)%nat -> read_all n s q = Some (matching q (newer (qu_AfterSequence q) (events s))).
Proof.
  intros Hok. induction n as [| n IH]; intros q Hs Ha Hn; [lia|]. cbn [read_all].
  destruct (security_page s q l Hok Hs Ha) as (p & r & E & Hi & Hm & _ & Hpr & Hnx & Hrange). rewrite Hm, Hi, E. case_bool_decide as Er; cbn [negb].
  { by rewrite Er, app_nil_r. }
  rewrite E, length_app in Hn. destruct Hpr as [|Hp]; [done|]. assert (0 < length p)%nat by (destruct p; [done | cbn; lia]).
  rewrite IH; cbn [continue_after qu_AfterSequence qu_StreamID]; [| done | done | rewrite Hnx; lia]. rewrite Hnx. cbn. unfold matching at 2 3.
  by rewrite List.filter_app.
Qed.
End pages.

(** ** Claims *)

Section claims.
Context {JT : JSON ThreatEvent}.

(** C16. The security event store refines a queue with two limits.  [Add] of a
    new identifier appends the numbered event and drops oldest events exactly
    as long as the slots or the bytes do not suffice; a known identifier
    changes nothing; a rejected event leaves the queue as it was, except one
    that fits without its number and not with it, which empties the store.
    The slots, the index, the byte count and the order of the numbers agree
    with the queue afterwards. *)
Theorem Add_refines s q clock e :
  store_ok s q -> se_next s + 1 < 2 ^ 64 -> add_outcome s q clock e (Add s clock e).1 (Add s clock e).2.
Proof. apply Add_outcome. Qed.

(** [UpdateCorrelation] changes the correlation fields of the named event in
    place, evicting only older events and only as many as its growth needs;
    every error leaves the queue as it was. *)
Theorem UpdateCorrelation_refines s q id sessionID policyID generation state reason :
  store_ok s q ->
  update_outcome s q id sessionID policyID generation state reason (UpdateCorrelation s id sessionID policyID generation state reason).1
    (UpdateCorrelation s id sessionID policyID generation state reason).2.
Proof. apply update_spec. Qed.

(** In every reachable store a client that follows the cursors gets, within as
    many pages as there are events, every matching event newer than its
    starting point exactly once and in order, and no page exceeds the limit. *)
Theorem pages_complete s q :
  security_reach s -> (qu_StreamID q = "" \/ qu_StreamID q = se_streamID s) -> 0 <= qu_AfterSequence q <= se_next s ->
  read_all (S (length (events s))) s q = Some (matching q (newer (qu_AfterSequence q) (events s))) /\
  NoDup (te_EventID <$> events s) /\ StronglySorted Z.lt (te_Sequence <$> events s) /\
  Z.of_nat (length (sg_Items (Query s q))) <= page_limit q.
Proof.
  intros [l Hok]%reach_ok Hs Ha. destruct (events_sorted s l Hok) as [Hsorted _].
  destruct (security_page s q l Hok Hs Ha) as (_ & _ & _ & _ & _ & Hlim & _). split_and!; [| | done | done].
  - apply (read_all_spec s l); [done | done | done|]. apply Nat.lt_succ_r, filter_length_le.
  - rewrite events_queue, <- list_fmap_compose. apply (queue_NoDup s), (sk_holds _ _ Hok).
Qed.

(** An event that fits before it is numbered and not afterwards evicts everything
    and is then rejected. *)
Lemma borderline_event_empties_store s q clock e size0 size :
  store_ok s q -> se_next s + 1 < 2 ^ 64 -> TrimSpace (te_EventID e) <> "" -> te_EventID e ∉ event_id <$> q ->
  encoded_size (complete_event clock e) = Some size0 -> size0 <= se_maxBytes s ->
  encoded_size (numbered s clock e) = Some size -> se_maxBytes s < size ->
  (Add s clock e).2 = Err ErrSecurityEventTooLarge /\ events (Add s clock e).1 = [].
Proof.
  intros Hs Hn Hid Hnew E0 H0 E1 H1. pose proof (Add_outcome s q clock e Hs Hn) as Ho.
  assert (Hempty : forall s', store_ok s' [] -> events s' = []) by (intros s' Hs'; by rewrite events_queue, (ho_queue _ _ (sk_holds _ _ Hs'))).
  pose proof (sk_range _ _ Hs). unfold Add in *. rewrite bool_decide_eq_false_2 in * by done. rewrite E0 in *. rewrite (proj2 (Z.ltb_ge _ _) H0) in *.
  pose proof (known_event s q (te_EventID (complete_event clock e)) Hs) as Hk. destruct (_ ≫= _) as [x|].
  { destruct Hk as [Hin Hx]. exfalso. apply Hnew. rewrite <- (complete_id clock e), <- Hx. by apply list_elem_of_fmap_2. }
  cbn zeta in *. change (_ <| te_Sequence := _ |>) with (numbered s clock e) in *. rewrite E1 in *.
  set (s1 := s <| se_next ::= inc64 |>) in *. assert (En : inc64 (se_next s) = se_next s + 1) by (unfold inc64; apply u64_small; lia).
  assert (Hs1 : store_ok s1 q) by (eapply store_ok_frame; try done; subst s1; cbn; lia).
  destruct (make_room s1 q size Hs1) as (k & _ & H2 & Hfr & _ & _ & Hroom). set (s2 := evict_while _ _ _) in *.
  assert (Emax : se_maxBytes s2 = se_maxBytes s) by (injection Hfr; done). rewrite Emax in *. rewrite (proj2 (Z.ltb_lt _ _) H1) in *.
  split; [done|]. apply Hempty. destruct Hroom as [E | Hle]; [rewrite E in H2; by apply reject_ok|].
  pose proof (sizes_nonneg _ (sk_sizes _ _ H2)). exfalso. change (se_maxBytes s1) with (se_maxBytes s) in Hle. lia.
Qed.
End claims.

(** ** Witnesses *)


(** An encoder whose length grows with the identifier and the number. *)
#[local] Instance sample_JT : JSON ThreatEvent := {|
  Marshal e := Some (String.list_ascii_of_string (te_EventID e +:+ itoa (te_Sequence e)) ≫= fun a => [Z.of_nat (Ascii.nat_of_ascii a)]);
  Unmarshal _ := None
|}.

Definition sample_threat (id : string) : ThreatEvent :=
  mkThreatEvent id 0 None 0 "" "" "sensor" "" "" "" InspectionModeIPS "" None None None "" "" "" 0 CorrelationUncorrelated "" 0 1 1 "" "" None
    SeverityHigh UnknownApplication "" "" VerdictAlert
    (mkEnforcementResult EnforcementNone EnforcementScopePacket DecisionNone EnforcementNotRequested "" None "").

Definition sample_add (s : SecurityEventStore) (id : string) : SecurityEventStore := (Add s 5 (sample_threat id)).1.

(** Two slots and six bytes. *)
Definition sample_store : SecurityEventStore := sample_add (sample_add (NewSecurityEventStore 2 6 [1; 2]) "a") "b".

Lemma sample_reach : security_reach sample_store.
Proof. apply reach_add; [apply reach_add; [apply reach_new | done] | done]. Qed.

(** A third event takes the slot of the first. *)
Lemma Add_refines_witness :
  add_outcome sample_store (queue sample_store) 5 (sample_threat "c") (sample_add sample_store "c") (Add sample_store 5 (sample_threat "c")).2 /\
  event_id <$> queue sample_store = ["a"; "b"] /\ event_id <$> queue (sample_add sample_store "c") = ["b"; "c"].
Proof.
  split; [|by vm_compute]. unfold sample_add. apply Add_refines; [|done]. apply reach_store_ok, sample_reach.
Defined.

(** The correlated event stays between its neighbours. *)
Lemma UpdateCorrelation_refines_witness :
  update_outcome sample_store (queue sample_store) "b" "s1" "p1" 3 CorrelationCorrelated "" 
    (UpdateCorrelation sample_store "b" "s1" "p1" 3 CorrelationCorrelated "").1
    (UpdateCorrelation sample_store "b" "s1" "p1" 3 CorrelationCorrelated "").2 /\
  te_SessionID <$> events (UpdateCorrelation sample_store "b" "s1" "p1" 3 CorrelationCorrelated "").1 = [""; "s1"].
Proof.
  split; [|by vm_compute]. apply UpdateCorrelation_refines. apply reach_store_ok, sample_reach.
Defined.

Definition sample_query : SecurityQuery := mkSecurityQuery "" "sensor" None None None None "" 0 false 0 "" 1.

(** Pages of one event each deliver both events. *)
Lemma pages_complete_witness :
  read_all 3 sample_store sample_query = Some (events sample_store) /\ length (events sample_store) = 2%nat.
Proof.
  destruct (pages_complete sample_store sample_query) as [H _]; [apply sample_reach | by left | by split; vm_compute |].
  split; [|by vm_compute]. assert (E : S (length (events sample_store)) = 3%nat) by (by vm_compute). rewrite E in H. rewrite H. by vm_compute.
Defined.

(** A full store loses its events to one that does not fit either. *)
Lemma borderline_sample :
  let s := fold_left sample_add ["a"; "b"; "c"; "d"; "e"; "f"; "g"; "h"; "i"] (NewSecurityEventStore 2 6 [1; 2]) in
  length (events s) = 2%nat /\ (Add s 5 (sample_threat "abcde")).2 = Err ErrSecurityEventTooLarge /\ events (sample_add s "abcde") = [].
Proof. by vm_compute. Qed.
