(* ===== verification/Correlation.v ===== *)
(** * Correlating observations with sessions

    [internal/inspection/correlation]: the resolver that names the session an
    observation belongs to, with its memory of sensor flow bindings, and the
    table of observations that wait for a session to appear.

    The resolver asks a [SessionLookup], an interface of the code; its calls are
    sections of their own, so the session table may change between them. *)

From S2P Require Import Prelude GoStr Netip Domain Flow SessionStore Observation Interleave.

(** ** The resolver *)

Record BindingKey : Type := mkBindingKey { bk_SensorID : string; bk_SensorEpoch : string; bk_FlowID : Z }.

#[global] Instance BindingKey_eq_dec : EqDecision BindingKey.
Proof. solve_decision. Defined.

#[global] Instance BindingKey_countable : Countable BindingKey.
Proof.
  refine (inj_countable' (fun k => (bk_SensorID k, bk_SensorEpoch k, bk_FlowID k)) (fun '(s, e, f) => mkBindingKey s e f) _).
  by intros [].
Defined.

Record binding : Type := mkBinding { bi_SessionID : string; bi_Identity : ConntrackIdentity }.

Record Resolution : Type := mkResolution {
  rn_State : CorrelationState;
  rn_Session : option RuntimeSession;
  rn_Reason : string;
  rn_Recent : bool;
  rn_RefreshCandidate : option RuntimeSession
}.

Record Resolver : Type := mkResolver {
  rv_bindings : gmap BindingKey binding;
  rv_epochs : gmap string string;
  rv_maxBindings : Z
}.

#[global] Instance eta_Resolver : Eta Resolver := fun r => mkResolver (rv_bindings r) (rv_epochs r) (rv_maxBindings r).

(** The scope of a resolver never changes; it is an argument of [Resolve]. *)
Definition NewResolver (maxBindings : Z) : Resolver := mkResolver ∅ ∅ (if maxBindings <=? 0 then 10000 else maxBindings).

Definition sameIncarnation (a b : ConntrackIdentity) : bool :=
  if negb (ci_ID a =? 0) && negb (ci_ID b =? 0) && negb (ci_ID a =? ci_ID b) then false
  else if negb (ci_KernelStart a =? 0) && negb (ci_KernelStart b =? 0) && negb (ci_KernelStart a =? ci_KernelStart b) then false
  else bool_decide (ci_BootID a = ci_BootID b) && bool_decide (ci_NetworkNS a = ci_NetworkNS b) && (ci_Zone a =? ci_Zone b) &&
       bool_decide (ci_Original a = ci_Original b).

Definition strongIdentity (v : ConntrackIdentity) : bool :=
  negb (ci_ID v =? 0) && negb (ci_KernelStart v =? 0) && Tuple_Valid (ci_Original v).

(** A valid tuple not seen before becomes a key. *)
Definition observation_key (scope : Scope) (result : list Key) (tuple : option Tuple) : list Key :=
  match tuple with
  | Some t =>
      if negb (Tuple_Valid t) then result
      else let key := mkKey scope t in if bool_decide (key ∈ result) then result else result ++ [key]
  | None => result
  end.

Definition observationKeys (scope : Scope) (obs : Observation) : list Key :=
  foldl (observation_key scope) [] [ob_Tuple obs; ob_FlowTuple obs].

(** [for key := range bindings { if ... { delete } }]. *)
Definition forget_epochs (sensorID epoch : string) (m : gmap BindingKey binding) : gmap BindingKey binding :=
  filter (fun e => ~ (bk_SensorID e.1 = sensorID /\ bk_SensorEpoch e.1 <> epoch)) m.

Definition observeEpoch (sensorID epoch : string) (r : Resolver) : Resolver :=
  let previous := default "" (rv_epochs r !! sensorID) in
  let r := if negb (bool_decide (previous = "")) && negb (bool_decide (previous = epoch))
           then r <| rv_bindings ::= forget_epochs sensorID epoch |> else r in
  r <| rv_epochs ::= <[sensorID := epoch]> |>.

Definition ResetEpoch (sensorID epoch : string) (r : Resolver) : Resolver :=
  r <| rv_bindings ::= forget_epochs sensorID epoch |> <| rv_epochs ::= <[sensorID := epoch]> |>.

(** [first] is the binding Go's iteration yields first. *)
Definition remember (first : gmap BindingKey binding -> option BindingKey) (key : BindingKey) (value : binding) (r : Resolver) : Resolver :=
  let bindings :=
    if rv_maxBindings r <=? Z.of_nat (size (rv_bindings r))
    then match first (rv_bindings r) with Some existing => delete existing (rv_bindings r) | None => rv_bindings r end
    else rv_bindings r in
  r <| rv_bindings := <[key := value]> bindings |>.

(** The interface: the candidates for a key at a time, and whether there were more
    than the limit. *)
Class SessionLookup (St : Type) : Type :=
  ResolveCandidates : Key -> Time -> Z -> St -> list RuntimeSession * bool.

(** The session store answers it.  The order in which it visits the sessions of a
    key decides only which of too many candidates are listed, and the resolver
    looks at none of them then; one order is fixed. *)
#[global] Instance store_lookup : SessionLookup RuntimeStore := fun key observedAt limit s =>
  SessionStore.ResolveCandidates s (elements (default ∅ (byTuple s !! key))) key observedAt limit.

(** Where a state keeps the resolver. *)
Class HasResolver (St : Type) : Type := {
  resolver : St -> Resolver;
  set_resolver : Resolver -> St -> St
}.

Definition unresolved (state : CorrelationState) (reason : string) : Resolution := mkResolution state None reason false None.

Definition correlated (item : RuntimeSession) (reason : string) : Resolution :=
  mkResolution CorrelationCorrelated (Some item) reason (bool_decide (rs_State item = SessionClosed)) None.

Definition bound_to (known : binding) (item : RuntimeSession) : bool :=
  bool_decide (rs_SessionID item = bi_SessionID known) && strongIdentity (rs_Identity item) && sameIncarnation (rs_Identity item) (bi_Identity known).

Section resolve.
Context {St : Type} `{!SessionLookup St} `{!HasResolver St}.
Context (first : gmap BindingKey binding -> option BindingKey).

(** The loop over the keys of a known flow; [None] when it runs through. *)
Fixpoint by_binding (known : binding) (observedAt : Time) (keys : list Key) : Prog St (option Resolution) :=
  match keys with
  | [] => mret None
  | tuple :: rest =>
      found ← peek (ResolveCandidates tuple observedAt 8);
      let '(items, truncated) := found in
      if truncated : bool then mret (Some (unresolved CorrelationAmbiguous "candidate limit exceeded"))
      else if Nat.ltb 1 (length items) then mret (Some (unresolved CorrelationAmbiguous "multiple session tuple matches"))
      else match List.find (bound_to known) items with
           | Some item => mret (Some (correlated item "sensor flow binding"))
           | None => by_binding known observedAt rest
           end
  end.

(** The candidates of all keys; [None] when a lookup was cut short. *)
Fixpoint collect (observedAt : Time) (keys : list Key) (candidates : gmap string RuntimeSession) : Prog St (option (gmap string RuntimeSession)) :=
  match keys with
  | [] => mret (Some candidates)
  | tuple :: rest =>
      found ← peek (ResolveCandidates tuple observedAt 8);
      let '(items, truncated) := found in
      if truncated : bool then mret None
      else collect observedAt rest (foldl (fun m item => <[rs_SessionID item := item]> m) candidates items)
  end.

Definition weak_match (selected : RuntimeSession) : Resolution :=
  mkResolution CorrelationUncorrelated None "no strong session tuple match" false
    (if negb (bool_decide (rs_State selected = SessionClosed)) && negb (ci_ID (rs_Identity selected) =? 0) &&
        Tuple_Valid (ci_Original (rs_Identity selected)) then Some selected else None).

Definition by_tuple (obs : Observation) (observedAt : Time) (key : BindingKey) (keys : list Key) : Prog St Resolution :=
  if bool_decide (keys = []) then mret (unresolved CorrelationUncorrelated "tuple unavailable")
  else
    collected ← collect observedAt keys ∅;
    match collected with
    | None => mret (unresolved CorrelationAmbiguous "candidate limit exceeded")
    | Some candidates =>
        match map_to_list candidates with
        | [] => mret (unresolved CorrelationUncorrelated "no session tuple match")
        | [(_, selected)] =>
            if negb (strongIdentity (rs_Identity selected)) then mret (weak_match selected)
            else
              _ ← (if ob_HasFlowID obs
                   then modify (fun s => set_resolver (remember first key (mkBinding (rs_SessionID selected) (rs_Identity selected)) (resolver s)) s)
                   else mret tt);
              mret (correlated selected "tuple alias matched")
        | _ => mret (unresolved CorrelationAmbiguous "multiple session tuple matches")
        end
    end.

Definition Resolve (scope : Scope) (obs : Observation) : Prog St Resolution :=
  match ob_ObservedAt obs with
  | None => mret (unresolved CorrelationUncorrelated "observed timestamp unavailable")
  | Some observedAt =>
      let source := ob_Source obs in
      _ ← (if nonblank (so_SensorID source) && nonblank (so_SensorEpoch source)
           then modify (fun s => set_resolver (observeEpoch (so_SensorID source) (so_SensorEpoch source) (resolver s)) s)
           else mret tt);
      let key := mkBindingKey (so_SensorID source) (so_SensorEpoch source) (ob_FlowID obs) in
      known ← (if ob_HasFlowID obs then peek (fun s => rv_bindings (resolver s) !! key) else mret None);
      let keys := observationKeys scope obs in
      early ← match known with Some b => by_binding b observedAt keys | None => mret None end;
      match early with
      | Some r => mret r
      | None => by_tuple obs observedAt key keys
      end
  end.
End resolve.

(** ** Observations that wait *)

Record pendingEntry : Type := mkPendingEntry {
  pe_observation : Observation;
  pe_expires : Time;
  pe_next : Time;
  pe_attempts : Z
}.

Record PendingCorrelations : Type := mkPendingCorrelations {
  pc_items : gmap string pendingEntry;
  pc_max : Z;
  pc_wait : Duration
}.

#[global] Instance eta_PendingCorrelations : Eta PendingCorrelations := fun p => mkPendingCorrelations (pc_items p) (pc_max p) (pc_wait p).

Definition NewPendingCorrelations (max : Z) (wait : Duration) : PendingCorrelations :=
  mkPendingCorrelations ∅ (if max <=? 0 then 2048 else max) (if wait <=? 0 then 2 * Second else wait).

Definition pending_Add (obs : Observation) (now : Time) (p : PendingCorrelations) : PendingCorrelations * bool :=
  if bool_decide (ob_ID obs = "") then (p, false)
  else if bool_decide (is_Some (pc_items p !! ob_ID obs)) then (p, true)
  else if pc_max p <=? Z.of_nat (size (pc_items p)) then (p, false)
  else (p <| pc_items ::= <[ob_ID obs := mkPendingEntry obs (now + pc_wait p) now 0]> |>, true).

Definition retry_entry (now : Time) (e : pendingEntry) : pendingEntry :=
  let attempts := pe_attempts e + 1 in
  mkPendingEntry (pe_observation e) (pe_expires e) (now + 100 * Millisecond * attempts) attempts.

(** The loop over the map, in the order Go visits it. *)
Fixpoint retry_loop (now : Time) (budget : Z) (order : list string) (items : gmap string pendingEntry) (due expired : list Observation)
  : gmap string pendingEntry * list Observation * list Observation :=
  match order with
  | [] => (items, due, expired)
  | id :: rest =>
      if budget <=? Z.of_nat (length due) + Z.of_nat (length expired) then (items, due, expired)
      else
        match items !! id with
        | None => retry_loop now budget rest items due expired
        | Some entry =>
            if negb (After (pe_expires entry) now)
            then retry_loop now budget rest (delete id items) due (expired ++ [pe_observation entry])
            else if After (pe_next entry) now then retry_loop now budget rest items due expired
            else retry_loop now budget rest (<[id := retry_entry now entry]> items) (due ++ [pe_observation entry]) expired
        end
  end.

Definition RetryDue (now : Time) (budget : Z) (order : list string) (p : PendingCorrelations)
  : PendingCorrelations * (list Observation * list Observation) :=
  let budget := if budget <=? 0 then 128 else budget in
  let '(items, due, expired) := retry_loop now budget order (pc_items p) [] [] in
  (p <| pc_items := items |>, (due, expired)).

Definition pending_Remove (id : string) (p : PendingCorrelations) : PendingCorrelations := p <| pc_items ::= delete id |>.
Definition pending_Len (p : PendingCorrelations) : Z := Z.of_nat (size (pc_items p)).
