(* ===== verification/CorrelationProps.v ===== *)
(** * Properties of correlation

    A resolver that names a session names the only one the session table could
    mean at a moment of the call; the bindings and the waiting observations are
    bounded; every waiting observation leaves the table. *)

From S2P Require Import Prelude GoStr Netip Domain Flow SessionStore StoreInv StoreProps Observation Interleave Correlation.

(** ** What the resolver relies on

    [tracked key t s v]: in [s] the session [v] is known under [key] and existed at
    the time [t].  The answers of a lookup are such sessions, and one that was not
    cut short has them all. *)
Class SessionLookupLaws (St : Type) `{!SessionLookup St} : Type := {
  lookup_ok : St -> Prop;
  tracked : Key -> Time -> St -> RuntimeSession -> Prop;
  lookup_sound : forall k t n s v, lookup_ok s -> v ∈ (ResolveCandidates k t n s).1 -> tracked k t s v;
  lookup_complete : forall k t n s v, lookup_ok s -> (ResolveCandidates k t n s).2 = false -> tracked k t s v ->
    rs_SessionID v ∈ rs_SessionID <$> (ResolveCandidates k t n s).1
}.

Lemma insert_items (items : list RuntimeSession) : forall (c : gmap string RuntimeSession),
  (forall id v, foldl (fun m item => <[rs_SessionID item := item]> m) c items !! id = Some v ->
     c !! id = Some v \/ id = rs_SessionID v /\ v ∈ items) /\
  (forall id, id ∈ dom c \/ id ∈ rs_SessionID <$> items -> id ∈ dom (foldl (fun m item => <[rs_SessionID item := item]> m) c items)).
Proof.
  induction items as [| x items IH]; intros c; cbn.
  { split; [by left|]. intros id [H | H]; [done|]. by apply elem_of_nil in H. }
  destruct (IH (<[rs_SessionID x := x]> c)) as [H1 H2]. split.
  - intros id v [Hc | [-> Hv]]%H1; [|right; split; [done | by right]]. apply lookup_insert_Some in Hc as [[<- <-] | [_ Hc]]; [right; split; [done | by left] | by left].
  - intros id Hid. apply H2. rewrite dom_insert. destruct Hid as [Hid | [-> | Hid]%elem_of_cons]; [left; set_solver | left; set_solver | by right].
Qed.

(** A run all of whose moments are good satisfies what was proved for good moments. *)
Lemma run_good {St A} (P : St -> Prop) (p : Prog St A) Q : forall env tr s,
  wp (fun _ s' => P s') p Q tr s -> Forall P (run_moments A (run p env s)) ->
  Q (run_result A (run p env s)) (tr ++ run_moments A (run p env s)) (run_final A (run p env s)).
Proof.
  induction p as [a | f k IH]; intros env tr s Hwp Hm; cbn in *; [by rewrite app_nil_r|].
  apply Forall_cons in Hm as [H1 H2]. specialize (IH _ (tail env) (tr ++ [interfere env s]) _ (Hwp _ H1) H2). by rewrite <- app_assoc in IH.
Qed.

Section soundness.
Context {St : Type} `{!SessionLookup St} `{!HasResolver St} `{!SessionLookupLaws St}.
Context (first : gmap BindingKey binding -> option BindingKey).

Definition table_ok (_ s' : St) : Prop := lookup_ok s'.

(** At the moment [m], [v] is the only session the key can mean. *)
Definition only_session (k : Key) (t : Time) (m : St) (v : RuntimeSession) : Prop :=
  tracked k t m v /\ forall v', tracked k t m v' -> rs_SessionID v' = rs_SessionID v.

Definition named (keys : list Key) (t : Time) (tr : list St) (r : Resolution) : Prop :=
  rn_State r = CorrelationCorrelated ->
  exists v k m, rn_Session r = Some v /\ strongIdentity (rs_Identity v) = true /\ k ∈ keys /\ m ∈ tr /\ only_session k t m v.

Lemma single_candidate k t n s v : lookup_ok s -> (ResolveCandidates k t n s).2 = false -> (length (ResolveCandidates k t n s).1 <= 1)%nat ->
  v ∈ (ResolveCandidates k t n s).1 -> only_session k t s v.
Proof.
  intros Hok Ht Hl Hv. split; [by eapply lookup_sound|]. intros v' Hv'. apply (lookup_complete k t n s v' Hok Ht) in Hv'.
  destruct (ResolveCandidates k t n s).1 as [| x [| y l]]; cbn in *; [by apply elem_of_nil in Hv | | lia].
  apply list_elem_of_singleton in Hv as ->. by apply list_elem_of_singleton in Hv'.
Qed.

Lemma wp_by_binding known t keys : forall tr s,
  wp table_ok (by_binding known t keys) (fun r tr' _ => (exists new, tr' = tr ++ new) /\
    from_option (fun r => named keys t tr' r /\ rn_State r <> CorrelationUncorrelated) True r) tr s.
Proof.
  induction keys as [| k keys IH]; intros tr s; cbn [by_binding].
  { split; [exists []; by rewrite app_nil_r | done]. }
  apply wp_bind. intros s' Hs'. cbn [wp]. destruct (ResolveCandidates k t 8 s') as [items trunc] eqn:E.
  destruct trunc; [split; [by eexists|]; split; [by intros [=] | done]|].
  destruct (Nat.ltb_spec 1 (length items)); [split; [by eexists|]; split; [by intros [=] | done]|].
  destruct (List.find _ items) as [v|] eqn:Ev.
  - split; [by eexists|]. split; [|done]. intros _. apply find_some in Ev as [Hin Hb]. apply andb_prop in Hb as [[_ Hstrong]%andb_prop _].
    exists v, k, s'. split_and!; [done | done | by left | set_solver |].
    apply (single_candidate k t 8); rewrite ?E; cbn; [done | done | lia | by apply list_elem_of_In].
  - eapply wp_mono; [|apply IH]. intros r tr' _ [[new ->] Hr]. split; [exists ([s'] ++ new); by rewrite <- app_assoc|].
    destruct r as [r|]; [|done]. destruct Hr as [Hr Hne]. split; [|done]. intros Hc. destruct (Hr Hc) as (v & k' & m & ? & ? & ? & ? & ?). exists v, k', m. split_and!; [done | done | by right | done | done].
Qed.

(** What the collected candidates stand for. *)
Definition collected (t : Time) (keys : list Key) (c0 c : gmap string RuntimeSession) (new : list St) : Prop :=
  (forall id v, c !! id = Some v -> c0 !! id = Some v \/
     id = rs_SessionID v /\ exists k m, k ∈ keys /\ m ∈ new /\ tracked k t m v /\ forall v', tracked k t m v' -> rs_SessionID v' ∈ dom c) /\
  dom c0 ⊆ dom c /\
  (forall k, k ∈ keys -> exists m, m ∈ new /\ forall v', tracked k t m v' -> rs_SessionID v' ∈ dom c).

Lemma wp_collect t keys : forall c0 tr s,
  wp table_ok (collect t keys c0) (fun r tr' _ => exists new, tr' = tr ++ new /\ from_option (fun c => collected t keys c0 c new) True r) tr s.
Proof.
  induction keys as [| k keys IH]; intros c0 tr s; cbn [collect].
  { exists []. rewrite app_nil_r. split; [done|]. cbn. split_and!; [by left | done | by intros k ?%elem_of_nil]. }
  apply wp_bind. intros s' Hs'. cbn [wp]. destruct (ResolveCandidates k t 8 s') as [items trunc] eqn:E.
  destruct trunc; [by eexists|]. set (c1 := foldl _ c0 items). destruct (insert_items items c0) as [Hi1 Hi2]. fold c1 in Hi1, Hi2.
  assert (Hall : forall v', tracked k t s' v' -> rs_SessionID v' ∈ dom c1).
  { intros v' Hv'. apply Hi2. right. pose proof (lookup_complete k t 8 s' v' Hs') as H. rewrite E in H. by apply H. }
  eapply wp_mono; [|apply IH]. intros r tr' _ (new & -> & Hr). exists ([s'] ++ new). split; [by rewrite <- app_assoc|].
  destruct r as [c|]; [|done]. cbn in Hr |- *. destruct Hr as (H1 & H2 & H3). split_and!.
  - intros id v Hv. destruct (H1 id v Hv) as [Hc | (-> & k' & m & ? & ? & ? & ?)].
    + destruct (Hi1 id v Hc) as [? | [-> Hin]]; [by left|]. right. split; [done|]. exists k, s'. split_and!; [by left | set_solver | | set_solver].
      eapply (lookup_sound k t 8); [done|]. by rewrite E.
    + right. split; [done|]. exists k', m. split_and!; [by right | set_solver | done | done].
  - etrans; [|exact H2]. intros id Hid. apply Hi2. by left.
  - intros k' [-> | Hk']%elem_of_cons; [exists s'; split; [set_solver | set_solver]|]. destruct (H3 k' Hk') as (m & ? & ?). exists m. split; [set_solver | done].
Qed.

(** A key none of whose sessions existed at some moment of the call. *)
Definition unknown_at (keys : list Key) (t : Time) (tr : list St) : Prop :=
  forall k, k ∈ keys -> exists m, m ∈ tr /\ forall v, ~ tracked k t m v.

Definition resolved (keys : list Key) (t : Time) (tr : list St) (r : Resolution) : Prop :=
  named keys t tr r /\ (r = unresolved CorrelationUncorrelated "no session tuple match" -> unknown_at keys t tr).

Lemma resolved_app keys t tr more r : resolved keys t tr r -> resolved keys t (tr ++ more) r.
Proof.
  intros [H1 H2]. split.
  - intros Hc. destruct (H1 Hc) as (v & k & m & ? & ? & ? & ? & ?). exists v, k, m. split_and!; [done | done | done | set_solver | done].
  - intros Hr k Hk. destruct (H2 Hr k Hk) as (m & ? & ?). exists m. split; [set_solver | done].
Qed.

Lemma wp_by_tuple obs t key keys tr s :
  wp table_ok (by_tuple first obs t key keys) (fun r tr' _ => resolved keys t tr' r) tr s.
Proof.
  unfold by_tuple. destruct (bool_decide (keys = [])); [by split; intros [=]|].
  apply wp_bind. eapply wp_mono; [|apply wp_collect]. intros r tr' s' (new & -> & Hr).
  destruct r as [c|]; [|by split; intros [=]]. cbn in Hr. destruct Hr as (H1 & _ & H3).
  destruct (map_to_list c) as [| [id v] [| ? ?]] eqn:El; [| | by split; intros [=]].
  - apply map_to_list_empty_iff in El as ->. split; [by intros [=]|]. intros _ k Hk. destruct (H3 k Hk) as (m & Hm & Hnone). exists m.
    split; [set_solver|]. intros v Hv. specialize (Hnone v Hv). rewrite dom_empty_L in Hnone. set_solver.
  - assert (Ec : c = {[id := v]}) by (rewrite <- (list_to_map_to_list c), El; done). destruct (negb _) eqn:Es; [by split; intros [=]|].
    assert (Hres : resolved keys t (tr ++ new) (correlated v "tuple alias matched")).
    { split; [|intros [=]]. intros _. destruct (H1 id v) as [Hc | (-> & k & m & Hk & Hm & Ht & Hall)]; [rewrite Ec; apply lookup_singleton_eq | by rewrite lookup_empty in Hc|].
      exists v, k, m. apply negb_false_iff in Es. split_and!; [done | done | done | set_solver |]. split; [done|].
      intros v' Hv'. specialize (Hall v' Hv'). rewrite Ec, dom_singleton_L in Hall. by apply elem_of_singleton in Hall. }
    destruct (ob_HasFlowID obs); [|exact Hres]. apply wp_bind. intros s'' _. cbn [wp]. by apply resolved_app.
Qed.

Lemma wp_Resolve scope obs s :
  wp table_ok (Resolve first scope obs) (fun r tr _ => forall t, ob_ObservedAt obs = Some t -> resolved (observationKeys scope obs) t tr r) [] s.
Proof.
  unfold Resolve. destruct (ob_ObservedAt obs) as [t|]; [|by intros t [=]]. set (keys := observationKeys scope obs).
  assert (Hrest : forall known tr s, wp table_ok
     (early ← match known with Some b => by_binding b t keys | None => mret None end;
      match early with Some r => mret r | None => by_tuple first obs t (mkBindingKey (so_SensorID (ob_Source obs)) (so_SensorEpoch (ob_Source obs)) (ob_FlowID obs)) keys end)
     (fun r tr _ => forall t', Some t = Some t' -> resolved keys t' tr r) tr s).
  { intros known tr s0. apply wp_bind. destruct known as [b|].
    - eapply wp_mono; [|apply wp_by_binding]. intros early tr' s' [_ He]. destruct early as [r|].
      + destruct He as [He Hne]. intros t' [= <-]. split; [done|]. intros ->. done.
      + eapply wp_mono; [|apply wp_by_tuple]. intros r tr'' s'' Hr t' Ht. injection Ht as <-. exact Hr.
    - cbn [wp mret prog_ret]. eapply wp_mono; [|apply wp_by_tuple]. intros r tr'' s'' Hr t' Ht. injection Ht as <-. exact Hr. }
  apply wp_bind. destruct (_ && _); [intros s1 _; cbn [wp] | cbn [wp]]; apply wp_bind; destruct (ob_HasFlowID obs); try (intros s2 _; cbn [wp]); apply Hrest.
Qed.

(** C17. When the resolver says CORRELATED, the session it names has a complete kernel
    identity and was, at a moment of the call, the only session the session table
    knew under one of the observation's tuples at the observed time, whatever ran
    in between; and it answers that no session matches only when each tuple was
    unknown at some moment. *)
Theorem Resolve_names_only_session scope obs t env s :
  ob_ObservedAt obs = Some t ->
  let r := run (Resolve first scope obs) env s in
  Forall lookup_ok (run_moments _ r) -> resolved (observationKeys scope obs) t (run_moments _ r) (run_result _ r).
Proof. intros Ht r Hm. exact (run_good lookup_ok _ _ env [] s (wp_Resolve scope obs s) Hm t Ht). Qed.
End soundness.

(** ** The session store keeps the promise *)

Definition store_tracked (k : Key) (t : Time) (s : RuntimeStore) (v : RuntimeSession) : Prop :=
  sessionOverlaps v t = true /\
  ((exists id ids, byTuple s !! k = Some ids /\ id ∈ ids /\ byID s !! id = Some v) \/ (v ∈ closed s /\ sessionHasAlias v k = true)).

Lemma closed_candidates_spec k t l : forall seen,
  (forall v, v ∈ closed_candidates k t seen l -> v ∈ l /\ sessionOverlaps v t = true /\ sessionHasAlias v k = true) /\
  (forall v, v ∈ l -> sessionOverlaps v t = true -> sessionHasAlias v k = true ->
     rs_SessionID v ∈ seen \/ rs_SessionID v ∈ rs_SessionID <$> closed_candidates k t seen l).
Proof.
  induction l as [| c l IH]; intros seen; cbn [closed_candidates]; [split; [set_solver | intros v Hv; set_solver]|].
  destruct (_ || _) eqn:E.
  - destruct (IH seen) as [H1 H2]. split; [intros v Hv; destruct (H1 v Hv); split; [by right | done]|].
    intros v [-> | Hv]%elem_of_cons Ho Ha; [|by apply H2]. rewrite Ho, Ha, !orb_false_r in E. apply bool_decide_eq_true in E. by left.
  - apply orb_false_iff in E as [[_ Ho]%orb_false_iff Ha]. apply negb_false_iff in Ho, Ha. destruct (IH ({[rs_SessionID c]} ∪ seen)) as [H1 H2]. split.
    + intros v [-> | Hv]%elem_of_cons; [by split; [left|]|]. destruct (H1 v Hv). split; [by right | done].
    + intros v [-> | Hv]%elem_of_cons Ho' Ha'; cbn; [right; by left|]. destruct (H2 v Hv Ho' Ha') as [Hs | Hs]; [|right; by right].
      apply elem_of_union in Hs as [Hs%elem_of_singleton | Hs]; [rewrite Hs; right; by left | by left].
Qed.

(** The whole candidate list of a key, before the limit. *)
Definition all_candidates (k : Key) (t : Time) (s : RuntimeStore) : list RuntimeSession :=
  let order : list string := elements (default ∅ (byTuple s !! k)) in
  let active := omap (fun id => match byID s !! id with
                                | Some v => if sessionOverlaps v t then Some (id, v) else None
                                | None => None end) order in
  active.*2 ++ closed_candidates k t (list_to_set active.*1) (rev (closed s)).

Lemma all_candidates_spec k t s : store_inv s ->
  (forall v, v ∈ all_candidates k t s -> store_tracked k t s v) /\
  (forall v, store_tracked k t s v -> rs_SessionID v ∈ rs_SessionID <$> all_candidates k t s).
Proof.
  intros Hinv. unfold all_candidates. cbn zeta. set (active := omap _ _). destruct (closed_candidates_spec k t (rev (closed s)) (list_to_set active.*1)) as [H1 H2].
  assert (Hactive : forall id v, (id, v) ∈ active <-> id ∈ default ∅ (byTuple s !! k) /\ byID s !! id = Some v /\ sessionOverlaps v t = true).
  { intros id v. unfold active. rewrite list_elem_of_omap. split.
    - intros (id' & Hid' & Hm). apply elem_of_elements in Hid'. destruct (byID s !! id') as [v'|] eqn:E; [|done].
      destruct (sessionOverlaps v' t) eqn:Eo; [|done]. injection Hm as <- <-. done.
    - intros (Hid & Hv & Ho). exists id. rewrite elem_of_elements, Hv, Ho. done. }
  assert (Hself : forall id v, (id, v) ∈ active -> rs_SessionID v = id) by (intros id v (_ & Hv & _)%Hactive; by apply (inv_self s Hinv)).
  split.
  - intros v [Hv | Hv]%elem_of_app.
    + apply list_elem_of_fmap in Hv as ([id v'] & -> & Hin). apply Hactive in Hin as (Hid & Hv & Ho). split; [done|]. left.
      destruct (byTuple s !! k) as [ids|] eqn:E; [|by apply elem_of_empty in Hid]. by exists id, ids.
    + apply H1 in Hv as (Hin & Ho & Ha). split; [done|]. right. split; [|done]. apply list_elem_of_In. apply in_rev. by apply list_elem_of_In.
  - intros v [Ho [(id & ids & Hk & Hid & Hv) | [Hin Ha]]]; rewrite fmap_app, elem_of_app.
    + left. apply list_elem_of_fmap_2. apply list_elem_of_fmap. exists (id, v). split; [done|]. apply Hactive. by rewrite Hk.
    + destruct (H2 v) as [Hseen | Hlisted]; [apply list_elem_of_In, in_rev; rewrite rev_involutive; by apply list_elem_of_In | done | done | | by right].
      left. apply elem_of_list_to_set in Hseen. apply list_elem_of_fmap in Hseen as ([id v'] & Eid & Hin'). cbn in Eid.
      rewrite Eid, <- (Hself id v' Hin'). apply list_elem_of_fmap_2. apply list_elem_of_fmap. by exists (id, v').
Qed.

Lemma store_sound k t n s v : store_inv s -> v ∈ (ResolveCandidates k t n s).1 -> store_tracked k t s v.
Proof.
  intros Hs Hv. apply all_candidates_spec; [done|]. by apply subseteq_take in Hv.
Qed.

Lemma store_complete k t n s v : store_inv s -> (ResolveCandidates k t n s).2 = false -> store_tracked k t s v ->
  rs_SessionID v ∈ rs_SessionID <$> (ResolveCandidates k t n s).1.
Proof.
  intros Hs Ht Hv. apply all_candidates_spec in Hv; [|done].
  unfold ResolveCandidates, store_lookup, SessionStore.ResolveCandidates, bounded in *. cbn [fst snd] in *. apply Z.ltb_ge in Ht.
  rewrite take_ge; [exact Hv | unfold candidateLimit in *; destruct (_ || _); lia].
Qed.

#[global] Instance store_lookup_laws : SessionLookupLaws RuntimeStore := {|
  lookup_ok := store_inv; tracked := store_tracked; lookup_sound := store_sound; lookup_complete := store_complete
|}.

(** ** Bindings *)

(** What Go's iteration over a map yields first is one of its keys. *)
Definition yields_a_key (first : gmap BindingKey binding -> option BindingKey) : Prop :=
  forall m, m <> ∅ -> exists k, first m = Some k /\ is_Some (m !! k).

Definition bindings_ok (r : Resolver) : Prop := 0 < rv_maxBindings r /\ Z.of_nat (size (rv_bindings r)) <= rv_maxBindings r.

Lemma remember_ok first key value r : yields_a_key first -> bindings_ok r -> bindings_ok (remember first key value r).
Proof.
  intros Hf [Hm Hs]. split; [done|]. unfold remember. cbn. rewrite map_size_insert. destruct (Z.leb_spec (rv_maxBindings r) (Z.of_nat (size (rv_bindings r)))) as [Hge | Hlt].
  - destruct (Hf (rv_bindings r)) as (k & -> & Hk); [intros E; rewrite E, map_size_empty in Hge; lia|].
    rewrite map_size_delete_Some in * by done. assert (size (rv_bindings r) <> 0%nat) by (intros E; rewrite E in Hge; cbn in Hge; lia). case_match; cbn; lia.
  - case_match; cbn; lia.
Qed.

Lemma observeEpoch_ok id epoch r : bindings_ok r -> bindings_ok (observeEpoch id epoch r).
Proof.
  intros [Hm Hs]. split; unfold observeEpoch; [by destruct (_ && _)|]. destruct (_ && _); cbn; [|done].
  unfold forget_epochs. etrans; [|exact Hs]. apply Nat2Z.inj_le, map_size_filter.
Qed.

(** ** Waiting observations *)

(** What a pass does to an entry it reaches. *)
Definition visit (now : Time) (e : pendingEntry) : option pendingEntry :=
  if negb (After (pe_expires e) now) then None else if After (pe_next e) now then Some e else Some (retry_entry now e).

Definition expires_now (now : Time) (e : pendingEntry) : option Observation :=
  if After (pe_expires e) now then None else Some (pe_observation e).

Definition due_now (now : Time) (e : pendingEntry) : option Observation :=
  if negb (After (pe_expires e) now) || After (pe_next e) now then None else Some (pe_observation e).

(** A pass visits a prefix of the order, each entry on its own, until the order ends or
    the budget is spent. *)
Lemma retry_loop_prefix now budget order : NoDup order -> forall items due expired,
  let '(items', due', expired') := retry_loop now budget order items due expired in
  exists k, (k <= length order)%nat /\
    (forall id, items' !! id = if bool_decide (id ∈ take k order) then items !! id ≫= visit now else items !! id) /\
    due' = due ++ omap (fun id => items !! id ≫= due_now now) (take k order) /\
    expired' = expired ++ omap (fun id => items !! id ≫= expires_now now) (take k order) /\
    (k = length order \/ budget <= Z.of_nat (length due') + Z.of_nat (length expired')) /\
    (Z.of_nat (length due) + Z.of_nat (length expired) <= budget -> Z.of_nat (length due') + Z.of_nat (length expired') <= budget).
Proof.
  induction 1 as [| id order Hid Hnd IH]; intros items due expired; cbn [retry_loop].
  { exists 0%nat. cbn. rewrite !app_nil_r. split_and!; try done. by left. }
  destruct (Z.leb_spec budget (Z.of_nat (length due) + Z.of_nat (length expired))) as [Hfull | Hroom].
  { exists 0%nat. cbn. rewrite !app_nil_r. split_and!; try done; [lia | by right]. }
  assert (Hstep : forall items1 due1 expired1,
    (forall i, items1 !! i = if bool_decide (i = id) then items !! id ≫= visit now else items !! i) ->
    due1 = due ++ omap (fun id => items !! id ≫= due_now now) [id] -> expired1 = expired ++ omap (fun id => items !! id ≫= expires_now now) [id] ->
    Z.of_nat (length due1) + Z.of_nat (length expired1) <= budget ->
    let '(items', due', expired') := retry_loop now budget order items1 due1 expired1 in
    exists k, (k <= length (id :: order))%nat /\
    (forall i, items' !! i = if bool_decide (i ∈ take k (id :: order)) then items !! i ≫= visit now else items !! i) /\
    due' = due ++ omap (fun id => items !! id ≫= due_now now) (take k (id :: order)) /\
    expired' = expired ++ omap (fun id => items !! id ≫= expires_now now) (take k (id :: order)) /\
    (k = length (id :: order) \/ budget <= Z.of_nat (length due') + Z.of_nat (length expired')) /\
    (Z.of_nat (length due) + Z.of_nat (length expired) <= budget -> Z.of_nat (length due') + Z.of_nat (length expired') <= budget)).
  { intros items1 due1 expired1 Hi Hd He Hb. specialize (IH items1 due1 expired1). destruct (retry_loop _ _ _ _ _ _) as [[items' due'] expired'].
    destruct IH as (k & Hk & H1 & H2 & H3 & H4 & H5). exists (S k).
    assert (Hsame : forall (f : option pendingEntry -> option Observation), omap (fun i => f (items1 !! i)) (take k order) = omap (fun i => f (items !! i)) (take k order)).
    { intros f. apply list_omap_ext. apply Forall2_same_length_lookup_2; [done|]. intros i x y Hx Hy. rewrite Hx in Hy. injection Hy as <-.
      rewrite Hi, bool_decide_eq_false_2; [done|]. intros ->. apply Hid. apply list_elem_of_lookup_2 in Hx. by apply subseteq_take in Hx. }
    split_and!; [cbn; lia | | | | destruct H4; [left; cbn; lia | by right] | intros _; by apply H5].
    - intros i. rewrite H1, Hi. cbn [take]. destruct (decide (i = id)) as [-> | Hne].
      + rewrite (bool_decide_eq_false_2 (id ∈ take k order)), (bool_decide_eq_true_2 (id = id)), (bool_decide_eq_true_2 (id ∈ id :: _)); [done | by left | done |].
        intros Hin. apply Hid. by apply subseteq_take in Hin.
      + rewrite (bool_decide_eq_false_2 (i = id)) by done. rewrite (bool_decide_ext (i ∈ id :: take k order) (i ∈ take k order)); [done|].
        rewrite elem_of_cons. naive_solver.
    - rewrite H2, Hd, <- app_assoc, (Hsame (fun e => e ≫= due_now now)). cbn [take]. cbn. by destruct (items !! id ≫= due_now now).
    - rewrite H3, He, <- app_assoc, (Hsame (fun e => e ≫= expires_now now)). cbn [take]. cbn. by destruct (items !! id ≫= expires_now now). }
  destruct (items !! id) as [e|] eqn:E.
  2: { apply Hstep; cbn; rewrite ?E; cbn; rewrite ?app_nil_r; try done; [|lia]. intros i. case_bool_decide as Ei; [by rewrite Ei | done]. }
  destruct (negb (After (pe_expires e) now)) eqn:Ex; [|destruct (After (pe_next e) now) eqn:En].
  - apply Hstep.
    + intros i. case_bool_decide as Ei; [rewrite Ei, lookup_delete_eq; cbn; unfold visit; by rewrite Ex | by rewrite lookup_delete_ne].
    + cbn. rewrite E. cbn. unfold due_now. rewrite Ex. cbn. by rewrite app_nil_r.
    + cbn. rewrite E. cbn. unfold expires_now. apply negb_true_iff in Ex. by rewrite Ex.
    + rewrite length_app. cbn. lia.
  - apply Hstep.
    + intros i. case_bool_decide as Ei; [rewrite Ei, E; cbn; unfold visit; by rewrite Ex, En | done].
    + cbn. rewrite E. cbn. unfold due_now. rewrite Ex, En. cbn. by rewrite app_nil_r.
    + cbn. rewrite E. cbn. unfold expires_now. apply negb_false_iff in Ex. rewrite Ex. by rewrite app_nil_r.
    + lia.
  - apply Hstep.
    + intros i. case_bool_decide as Ei; [rewrite Ei, lookup_insert_eq; cbn; unfold visit; by rewrite Ex, En | by rewrite lookup_insert_ne].
    + cbn. rewrite E. cbn. unfold due_now. by rewrite Ex, En.
    + cbn. rewrite E. cbn. unfold expires_now. apply negb_false_iff in Ex. rewrite Ex. by rewrite app_nil_r.
    + rewrite length_app. cbn. lia.
Qed.

Definition map_keys (m : gmap string pendingEntry) : list string := (map_to_list m).*1.

Lemma NoDup_keys order m : order ≡ₚ map_keys m -> NoDup order.
Proof. intros ->. apply NoDup_fst_map_to_list. Qed.

Lemma keys_elem order m id : order ≡ₚ map_keys m -> id ∈ order <-> is_Some (m !! id).
Proof.
  intros ->. unfold map_keys. rewrite list_elem_of_fmap. split.
  - intros ([i e] & -> & H%elem_of_map_to_list). by exists e.
  - intros [e He]. exists (id, e). split; [done|]. by apply elem_of_map_to_list.
Qed.

(** A pass keeps what has not expired. *)
Lemma pass_keeps_live p now budget order id e :
  order ≡ₚ map_keys (pc_items p) -> pc_items p !! id = Some e -> now < pe_expires e ->
  exists e', pc_items (RetryDue now budget order p).1 !! id = Some e' /\ (e' = e \/ e' = retry_entry now e).
Proof.
  intros Ho He Hlive. unfold RetryDue. pose proof (retry_loop_prefix now (if budget <=? 0 then 128 else budget) order (NoDup_keys _ _ Ho) (pc_items p) [] []) as H.
  destruct (retry_loop _ _ _ _ _ _) as [[items' due] expired]. destruct H as (k & _ & Hitems & _). cbn. rewrite Hitems, He. cbn.
  unfold visit, After. rewrite (proj2 (Z.ltb_lt _ _) Hlive). cbn. case_bool_decide; [case_match|]; eauto.
Qed.

(** When everything has expired, a pass removes as much as its budget allows. *)
Lemma pass_drains p now order : order ≡ₚ map_keys (pc_items p) -> (forall id e, pc_items p !! id = Some e -> pe_expires e <= now) ->
  let p' := (RetryDue now 128 order p).1 in
  Z.of_nat (size (pc_items p')) <= Z.max 0 (Z.of_nat (size (pc_items p)) - 128) /\ forall id e, pc_items p' !! id = Some e -> pc_items p !! id = Some e.
Proof.
  intros Ho Hall. cbn zeta. unfold RetryDue. pose proof (NoDup_keys _ _ Ho) as Hnd.
  pose proof (retry_loop_prefix now 128 order Hnd (pc_items p) [] []) as H. destruct (retry_loop _ _ _ _ _ _) as [[items' due] expired].
  destruct H as (k & Hk & Hitems & Hdue & Hexp & Hend & _). cbn [pc_items fst].
  assert (Hvisit : forall id e, pc_items p !! id = Some e -> visit now e = None /\ due_now now e = None /\ expires_now now e = Some (pe_observation e)).
  { intros id e He%Hall. unfold visit, due_now, expires_now, After. rewrite (proj2 (Z.ltb_ge _ _) He). done. }
  assert (Hgone : items' = filter (fun e => e.1 ∉ take k order) (pc_items p)).
  { apply map_eq. intros id. rewrite Hitems, map_lookup_filter. case_bool_decide as Hin.
    - destruct (pc_items p !! id) as [e|] eqn:He; cbn; [|done]. destruct (Hvisit id e He) as (-> & _). rewrite option_guard_False; [done | tauto].
    - destruct (pc_items p !! id) as [e|] eqn:He; cbn; [|done]. by rewrite option_guard_True. }
  assert (Hdue0 : due = []).
  { rewrite Hdue. cbn. clear -Hvisit. induction (take k order) as [| i l IH]; cbn; [done|].
    destruct (pc_items p !! i) as [e|] eqn:He; cbn; [|exact IH]. destruct (Hvisit i e He) as (_ & -> & _). exact IH. }
  assert (Hexpk : length expired = k).
  { rewrite Hexp. cbn [app]. edestruct (omap_total (fun id => pc_items p !! id ≫= expires_now now) (take k order)) as [-> _]; [|rewrite length_take; lia].
    intros i Hi%subseteq_take. apply (keys_elem _ _ i Ho) in Hi as [e He]. rewrite He. cbn. destruct (Hvisit i e He) as (_ & _ & ->). done. }
  assert (Hlen : length order = size (pc_items p)) by (rewrite Ho; unfold map_keys; by rewrite length_fmap, length_map_to_list).
  split; [|intros id e; rewrite Hgone; by intros [? _]%map_lookup_filter_Some].
  assert (Hsize : size items' = (size (pc_items p) - k)%nat).
  { rewrite <- !(size_dom (D := gset string)). assert (Hdom : dom items' = dom (pc_items p) ∖ list_to_set (take k order)).
    { apply set_eq. intros i. rewrite elem_of_difference, !elem_of_dom, elem_of_list_to_set, Hgone. split.
      - intros [e [He Hn]%map_lookup_filter_Some]. split; [by exists e | done].
      - intros [[e He] Hn]. exists e. by apply map_lookup_filter_Some. }
    rewrite Hdom, size_difference.
    - rewrite size_list_to_set; [rewrite length_take; lia|]. eapply sublist_NoDup; [exact Hnd | apply sublist_take].
    - intros i Hi%elem_of_list_to_set%subseteq_take. apply elem_of_dom. by apply (keys_elem order). }
  change (Z.of_nat (size items') <= Z.max 0 (Z.of_nat (size (pc_items p)) - 128)). rewrite Hsize. destruct Hend as [-> | Hb]; [rewrite Hlen; lia|]. rewrite Hdue0, Hexpk in Hb. cbn in Hb. lia.
Qed.

(** What happens to the table: passes of the ticker, removals by the reducer. *)
Inductive wait_op : Type :=
| Pass (now : Time) (order : gmap string pendingEntry -> list string)
| Forget (id : string).

Definition wait_step (p : PendingCorrelations) (op : wait_op) : PendingCorrelations :=
  match op with
  | Pass now order => (RetryDue now 128 (order (pc_items p)) p).1
  | Forget id => pending_Remove id p
  end.

Definition passes (ops : list wait_op) : Z := Z.of_nat (length (List.filter (fun op => match op with Pass _ _ => true | Forget _ => false end) ops)).

(** The pass runs at or after the deadline and visits the table in some order. *)
Definition after_deadline (deadline : Time) (op : wait_op) : Prop :=
  match op with
  | Pass now order => deadline <= now /\ forall m, order m ≡ₚ map_keys m
  | Forget _ => True
  end.

(** C18. Every observation that waits for a session leaves the table: once the deadline of
    the waiting observations has passed, one pass per 128 of them empties it, in
    whatever order the map is visited and whatever is removed in between. *)
Theorem pending_drains p deadline ops :
  (forall id e, pc_items p !! id = Some e -> pe_expires e <= deadline) -> Forall (after_deadline deadline) ops ->
  pending_Len p <= 128 * passes ops -> pending_Len (foldl wait_step p ops) = 0.
Proof.
  intros Hdead Hops. revert p Hdead. induction Hops as [| op ops Hop _ IH]; intros p Hdead Hn; cbn [foldl].
  { change (passes []) with 0 in Hn. unfold pending_Len in *. lia. }
  destruct op as [now order | id]; cbn [wait_step].
  - destruct Hop as [Hnow Horder]. destruct (pass_drains p now (order (pc_items p))) as [Hsize Hsub]; [done | intros id e He%Hdead; lia|].
    apply IH; [intros id e He; by eapply Hdead, Hsub|]. unfold pending_Len, passes in *. cbn [List.filter length] in Hn. lia.
  - apply IH; cbn [pending_Remove].
    + intros i e He. cbn in He. apply lookup_delete_Some in He as [_ He]. by eapply Hdead.
    + unfold pending_Len, passes in *. cbn in Hn |- *. etrans; [|exact Hn]. apply Nat2Z.inj_le. rewrite map_size_delete. destruct (_ !! _); cbn; lia.
Qed.

(** ** Witnesses *)

(** A table beside a resolver. *)
#[local] Instance pair_lookup : SessionLookup (RuntimeStore * Resolver) := fun k t n s => ResolveCandidates k t n s.1.
#[local] Instance pair_resolver : HasResolver (RuntimeStore * Resolver) := {| resolver := snd; set_resolver r s := (s.1, r) |}.
#[local] Instance pair_laws : SessionLookupLaws (RuntimeStore * Resolver) := {|
  lookup_ok s := store_inv s.1; tracked k t s := store_tracked k t s.1;
  lookup_sound k t n s := store_sound k t n s.1; lookup_complete k t n s := store_complete k t n s.1
|}.

(** Resolving reads the table and writes the bindings only. *)
Definition same_table (s s' : RuntimeStore * Resolver) : Prop := s'.1 = s.1.

#[local] Instance same_table_preorder : PreOrder same_table.
Proof. split; [done | intros a b c H1 H2; unfold same_table in *; congruence]. Qed.

Lemma Resolve_reads first scope obs : guar same_table (Resolve first scope obs : Prog (RuntimeStore * Resolver) _).
Proof.
  assert (Hb : forall known t keys, guar same_table (by_binding known t keys : Prog (RuntimeStore * Resolver) _)).
  { intros known t keys. induction keys as [| k keys IH]; cbn [by_binding]; [done|]. apply guar_bind; [by apply guar_peek|]. intros [items trunc].
    destruct trunc; [done|]. destruct (Nat.ltb 1 (length items)); [done|]. by destruct (List.find _ items). }
  assert (Hc : forall t keys c, guar same_table (collect t keys c : Prog (RuntimeStore * Resolver) _)).
  { intros t keys. induction keys as [| k keys IH]; intros c; cbn [collect]; [done|]. apply guar_bind; [by apply guar_peek|]. intros [items trunc]. by destruct trunc. }
  unfold Resolve. destruct (ob_ObservedAt obs) as [t|]; [|done].
  apply guar_bind; [by destruct (_ && _)|]. intros _. apply guar_bind; [destruct (ob_HasFlowID obs); [by apply guar_peek | done]|]. intros known.
  apply guar_bind; [by destruct known|]. intros [r|]; [done|]. unfold by_tuple. case_bool_decide; [done|].
  apply guar_bind; [done|]. intros [c|]; [|done]. destruct (map_to_list c) as [| [id v] [| ? ?]]; [done | | done].
  destruct (negb _); [done|]. apply guar_bind; [by destruct (ob_HasFlowID obs) | done].
Qed.

Definition ex_sensor : SourcePosition := mkSourcePosition "suri0" "e1" "" "builtin" InspectionModeIPS "" 0 0.
Definition ex_seen : Observation :=
  mkObservation "o1" ex_sensor "flow" (Some 2100) 2101 9 true None (Some ex_tuple) None None None "" UnknownApplication None None None [] false.
Definition first_key (m : gmap BindingKey binding) : option BindingKey := (map_to_list m).*1 !! 0%nat.

Lemma wp_trivial {St A} (R : St -> St -> Prop) (p : Prog St A) : forall tr s, wp R p (fun _ _ _ => True) tr s.
Proof. induction p as [a | f k IH]; intros tr s; cbn; [done|]. intros s' _. apply IH. Qed.

Lemma alone_moments first scope obs st r : store_inv st -> Forall lookup_ok (run_moments _ (run (Resolve first scope obs) [] (st, r))).
Proof.
  intros Hst. set (s0 := (st, r)).
  pose proof (wp_moments same_table _ (fun _ _ _ => True) s0 s0 (Resolve_reads first scope obs) eq_refl (wp_trivial _ _ [] s0)) as H.
  apply (wp_sound same_table _ _ [] s0 []) in H as (_ & _ & H); [|constructor].
  eapply Forall_impl; [exact H|]. intros m Hm. unfold same_table in Hm. cbn in *. by rewrite Hm.
Qed.

(** The flow of the only session is correlated with it, and bound. *)
Lemma Resolve_names_only_session_witness :
  let r := run (Resolve first_key (mkScope "ns" 0) ex_seen) [] (ex_store1, NewResolver 10) in
  resolved (observationKeys (mkScope "ns" 0) ex_seen) 2100 (run_moments _ r) (run_result _ r) /\
  rn_State (run_result _ r) = CorrelationCorrelated /\ size (rv_bindings (run_final _ r).2) = 1%nat.
Proof.
  split; [|split; vm_compute; reflexivity].
  exact (Resolve_names_only_session first_key (mkScope "ns" 0) ex_seen 2100 [] (ex_store1, NewResolver 10) eq_refl
           (alone_moments first_key (mkScope "ns" 0) ex_seen ex_store1 (NewResolver 10) ex_store1_inv)).
Defined.

(** Three observations, two passes of the ticker after their deadline. *)
Definition ex_waiting : PendingCorrelations :=
  foldl (fun p id => (pending_Add (ex_seen <| ob_ID := id |>) 0 p).1) (NewPendingCorrelations 10 1000) ["a"; "b"; "c"].

Lemma pending_drains_witness :
  pending_Len ex_waiting = 3 /\ pending_Len (foldl wait_step ex_waiting [Forget "b"; Pass 1000 map_keys]) = 0.
Proof.
  split; [vm_compute; reflexivity|]. apply (pending_drains ex_waiting 1000).
  - intros id e He%elem_of_map_to_list.
    assert (Hall : forallb (fun x => pe_expires x.2 <=? 1000) (map_to_list (pc_items ex_waiting)) = true) by (vm_compute; reflexivity).
    rewrite forallb_forall in Hall. specialize (Hall (id, e) (proj1 (list_elem_of_In _ _) He)). by apply Z.leb_le in Hall.
  - repeat constructor; done.
  - vm_compute. discriminate.
Defined.
