(* ===== verification/Eve.v ===== *)
(** * EVE records

    [internal/inspection/eve]: from a line of the sensor's log to a bounded
    observation ([parser.go]), its identity, and the table that recognises a
    record read twice ([identity.go]).

    [encoding/json] and [time.Parse] are parameters.  A [json.RawMessage] is its
    bytes. *)

From Stdlib Require Import Ascii.
From S2P Require Import Prelude GoStr Sha256 Netip Domain Codec Observation.

(** ** Identity of a record *)

Definition PutUint32 (v : Z) : list Z := be_bytes 4 (u32 v).
Definition PutUint64 (v : Z) : list Z := be_bytes 8 (u64 v).

Definition putString (value : string) : list Z := PutUint32 (strlen value) ++ str_bytes value.

(** What [EventID] writes to the hash. *)
Definition event_input (source : SourcePosition) (line : list Z) : list Z :=
  putString (so_SensorID source) ++ putString (so_SensorEpoch source) ++ putString (so_FileGeneration source) ++
  PutUint64 (so_ByteStart source) ++ PutUint64 (so_ByteEnd source) ++ line.

Definition EventID (source : SourcePosition) (line : list Z) : string := hex_EncodeToString (Sum256 (event_input source line)).

Definition DiscoveryID (source : SourcePosition) (flowID : Z) (app direction : string) : string :=
  hex_EncodeToString (Sum256 (PutUint64 flowID ++ str_bytes (so_SensorID source) ++ [0] ++ str_bytes (so_SensorEpoch source) ++ [0] ++
                              str_bytes app ++ [0] ++ str_bytes direction)).

(** ** Records read twice *)

Record dedupEntry : Type := mkDedupEntry { de_id : string; de_bytes : Z; de_seenAt : Time }.

(** [lru] from front to back.  The map of the code points into the list; an
    identifier occurs once in the list, so its element is the entry with it. *)
Record Deduper : Type := mkDeduper {
  dd_maxCount : Z;
  dd_maxBytes : Z;
  dd_ttl : Duration;
  dd_bytes : Z;
  dd_items : gset string;
  dd_lru : list dedupEntry
}.

#[global] Instance eta_Deduper : Eta Deduper := fun d =>
  mkDeduper (dd_maxCount d) (dd_maxBytes d) (dd_ttl d) (dd_bytes d) (dd_items d) (dd_lru d).

Definition NewDeduper (maxCount maxBytes : Z) (ttl : Duration) : Deduper :=
  mkDeduper (if maxCount <=? 0 then 4096 else maxCount) (if maxBytes <=? 0 then 8388608 else maxBytes)
    (if ttl <=? 0 then 5 * Minute else ttl) 0 ∅ [].

Definition removeElementLocked (e : dedupEntry) (d : Deduper) : Deduper :=
  d <| dd_items ::= fun m => m ∖ {[de_id e]} |> <| dd_bytes ::= fun b => b - de_bytes e |>
    <| dd_lru ::= List.filter (fun x => negb (bool_decide (de_id x = de_id e))) |>.

Definition removeOldestLocked (d : Deduper) : Deduper :=
  match last (dd_lru d) with Some e => removeElementLocked e d | None => d end.

Definition stale (now : Time) (ttl : Duration) (e : dedupEntry) : bool := ttl <? time_Sub now (de_seenAt e).

(** From the back to the front. *)
Definition cleanupLocked (now : Time) (d : Deduper) : Deduper :=
  foldl (fun d e => if stale now (dd_ttl d) e then removeElementLocked e d else d) d (rev (dd_lru d)).

(** The loop removes one entry per round. *)
Fixpoint shrink (fuel : nat) (d : Deduper) : Deduper :=
  match fuel with
  | O => d
  | S n => if (dd_maxCount d <? Z.of_nat (size (dd_items d))) || (dd_maxBytes d <? dd_bytes d) then shrink n (removeOldestLocked d) else d
  end.

(** [element.seenAt = now; lru.MoveToFront(element)]. *)
Definition move_to_front (id : string) (now : Time) (l : list dedupEntry) : list dedupEntry :=
  map (fun e => mkDedupEntry (de_id e) (de_bytes e) now) (List.filter (fun e => bool_decide (de_id e = id)) l) ++
  List.filter (fun e => negb (bool_decide (de_id e = id))) l.

Definition SeenOrAdd (id : string) (now : Time) (d : Deduper) : Deduper * bool :=
  if bool_decide (id = "") then (d, false)
  else
    let d := cleanupLocked now d in
    if bool_decide (id ∈ dd_items d) then
      (d <| dd_lru ::= move_to_front id now |>, true)
    else
      let entry := mkDedupEntry id (strlen id) now in
      let d := d <| dd_lru ::= cons entry |> <| dd_items ::= fun m => {[id]} ∪ m |> <| dd_bytes ::= fun b => b + de_bytes entry |> in
      (shrink (length (dd_lru d)) d, false).

(** ** Raw records *)

Definition MaxDefaultLineBytes : Z := 1048576.
Definition MaxNormalizedBytes : Z := 8192.
Definition MaxMetadataString : nat := 1024.
Definition MaxHTTPPath : nat := 4096.
Definition MaxALPN : nat := 8.

Definition RawMessage : Type := list Z.

Record RawAlert : Type := mkRawAlert {
  ra_SignatureID : RawMessage;
  ra_Rev : RawMessage;
  ra_Signature : string;
  ra_Category : string;
  ra_Severity : RawMessage;
  ra_Action : string;
  ra_GID : RawMessage
}.

Record RawVerdict : Type := mkRawVerdict { rw_Action : string }.
Record RawFlow : Type := mkRawFlow { rf_Start : string; rf_End : string }.
Record RawHTTP : Type := mkRawHTTP { rh_Host : string; rh_Method : string; rh_URL : string }.
Record RawTLS : Type := mkRawTLS { rl_SNI : string; rl_Version : string; rl_ALPN : RawMessage }.
Record RawSSH : Type := mkRawSSH { rq_Client : RawMessage; rq_Server : RawMessage }.

Record RawStats : Type := mkRawStats {
  rt_Uptime : RawMessage;
  rt_Captured : RawMessage;
  rt_Drops : RawMessage;
  rt_KernelPackets : RawMessage;
  rt_KernelDrops : RawMessage;
  rt_Timestamp : string
}.

Record RawEnvelope : Type := mkRawEnvelope {
  re_Timestamp : string;
  re_EventType : string;
  re_FlowID : RawMessage;
  re_TxID : RawMessage;
  re_SrcIP : string;
  re_DstIP : string;
  re_SrcPort : RawMessage;
  re_DstPort : RawMessage;
  re_Proto : string;
  re_AppProto : string;
  re_Direction : string;
  re_Alert : option RawAlert;
  re_Verdict : option RawVerdict;
  re_Flow : option RawFlow;
  re_HTTP : option RawHTTP;
  re_DNS : RawMessage;
  re_TLS : option RawTLS;
  re_SSH : option RawSSH;
  re_Stats : option RawStats
}.

(** The local structs of [normalizeProtocol] and [sshPeerBanner]. *)
Record RawDNS : Type := mkRawDNS { rd_RRName : string; rd_RRType : RawMessage; rd_Type : string }.
Record RawPeer : Type := mkRawPeer { rp_ProtocolVersion : string; rp_SoftwareVersion : string }.

Inductive EVEError : Type := ErrEVETooLarge | ErrEVEMalformed | ErrEVEUnknownType (kind : string).

(** ** Pure steps *)

Fixpoint valid_end (value : string) (n : nat) : nat :=
  match n with
  | O => O
  | S k => if ValidString (take_string n value) then n else valid_end value k
  end.

Definition truncate (value : string) (limit : nat) : string :=
  if strlen value <=? Z.of_nat limit then value else take_string (valid_end value limit) value.

(** [strings.SplitN(value, sep, 2)[0]]. *)
Definition before_byte (c : ascii) (s : string) : string := match IndexByte c s with Some i => take_string i s | None => s end.

Definition truncatePath (value : string) : string := truncate (before_byte "#"%char (before_byte "?"%char value)) MaxHTTPPath.

Definition truncateProtocol (p : ProtocolMetadata) : ProtocolMetadata :=
  mkProtocolMetadata (truncate (pm_HTTPHost p) 128) (truncate (pm_HTTPMethod p) 32) (truncate (pm_HTTPPath p) 512) (truncate (pm_TLSSNI p) 128)
    (truncate (pm_TLSVersion p) 32) (pm_ALPN p) (truncate (pm_DNSQuery p) 128) (truncate (pm_DNSRecordType p) 32) (truncate (pm_SSHBanner p) 128).

Definition isKnownKind (kind : string) : bool :=
  bool_decide (kind ∈ ["alert"; "flow"; "http"; "dns"; "tls"; "ssh"; "stats"; "discovery"]).

Definition normalizeDirection (value : string) : string :=
  let v := ToLower (TrimSpace value) in if bool_decide (v ∈ ["to_server"; "to_client"]) then v else "unknown".

Definition kind_application (kind : string) : string :=
  if bool_decide (kind = "http") then "HTTP" else if bool_decide (kind = "tls") then "TLS"
  else if bool_decide (kind = "dns") then "DNS" else if bool_decide (kind = "ssh") then "SSH" else "".

Definition appIdentity (raw kind : string) (observed : option Time) : ApplicationIdentity :=
  let name := TrimSpace raw in
  let name := if bool_decide (name = "") then kind_application kind else name in
  let identity := NormalizeApplication name in
  match observed with
  | Some t => identity <| ai_FirstSeen := Some t |> <| ai_LastSeen := Some t |>
  | None => identity
  end.

(** [strings.Trim] of quotation marks. *)
Definition quote : ascii := "034"%char.
Fixpoint trim_quotes_left (s : string) : string :=
  match s with String c rest => if Ascii.eqb c quote then trim_quotes_left rest else s | EmptyString => s end.
Fixpoint trim_quotes_right (s : string) : string :=
  match s with
  | String c rest =>
      let rest := trim_quotes_right rest in
      if Ascii.eqb c quote && bool_decide (rest = "") then "" else String c rest
  | EmptyString => s
  end.

Section parser.
Context {JE : JSON RawEnvelope} {JO : JSON Observation} {JS : JSON string} {JD : JSON RawDNS} {JP : JSON RawPeer}.
(** [json.Unmarshal] into a []string: what the variable holds afterwards, and
    whether the call succeeded; a value of the wrong type leaves a partial list. *)
Context (decode_strings : RawMessage -> list string * bool).
Context (Parse : string -> string -> option Time).

Definition layouts : list string := ["2006-01-02T15:04:05.999999999Z07:00"; "2006-01-02T15:04:05Z07:00"; "2006-01-02T15:04:05.000000-0700"].

Fixpoint first_layout (layouts : list string) (value : string) : option Time :=
  match layouts with
  | [] => None
  | layout :: rest => match Parse layout value with Some t => Some t | None => first_layout rest value end
  end.

Definition ParseTimestamp (value : string) : result EVEError (option Time) :=
  let value := TrimSpace value in
  if bool_decide (value = "") then Ok None
  else match first_layout layouts value with Some t => Ok (Some t) | None => Err ErrEVEMalformed end.

(** [x, _ = ParseTimestamp(v)]. *)
Definition timestamp_or_nil (value : string) : option Time := match ParseTimestamp value with Ok t => t | Err _ => None end.

Definition uint64Value (raw : RawMessage) : option Z :=
  match raw with
  | [] => None
  | c :: _ =>
      if bool_decide (bytes_str raw = "null") then None
      else
        text ← (if c =? 34 then Unmarshal raw else Some (bytes_str raw));
        ParseUint (TrimSpace text)
  end.

Definition intValue (raw : RawMessage) : option Z :=
  match uint64Value raw with Some v => if 2 ^ 63 - 1 <? v then None else Some v | None => None end.

Definition has_port (p : option Z) : bool := match p with Some _ => true | None => false end.
Definition wide_port (p : option Z) : bool := match p with Some v => 65535 <? v | None => false end.

Definition normalizeTuple (raw : RawEnvelope) : option Tuple :=
  match ParseAddr (TrimSpace (re_SrcIP raw)), ParseAddr (TrimSpace (re_DstIP raw)), ParseProtocol (re_Proto raw) with
  | Some src, Some dst, Some proto =>
      if negb (Bool.eqb (Is4 src) (Is4 dst)) then None
      else
        let srcPort := uint64Value (re_SrcPort raw) in
        let dstPort := uint64Value (re_DstPort raw) in
        if (proto =? 6) || (proto =? 17)
        then if negb (has_port srcPort) || negb (has_port dstPort) || wide_port srcPort || wide_port dstPort then None
             else let t := mkTuple (if Is4 src then FamilyIPv4 else FamilyIPv6) src (u16 (default 0 srcPort)) dst (u16 (default 0 dstPort)) proto 0 0 0 in
                  if Tuple_Valid t then Some t else None
        else if wide_port srcPort || wide_port dstPort then None
             else let t := mkTuple (if Is4 src then FamilyIPv4 else FamilyIPv6) src (u16 (default 0 srcPort)) dst (u16 (default 0 dstPort)) proto 0 0 0 in
                  if Tuple_Valid t then Some t else None
  | _, _, _ => None
  end.

Definition in_uint32 (v : option Z) : option Z := match v with Some n => if n <=? 2 ^ 32 - 1 then Some n else None | None => None end.

Definition normalizeAlert (raw : RawAlert) (verdict : option RawVerdict) : AlertObservation :=
  let signature := in_uint32 (uint64Value (ra_SignatureID raw)) in
  mkAlertObservation (default 0 signature) (has_port signature) (default 0 (in_uint32 (uint64Value (ra_Rev raw))))
    (truncate (ra_Signature raw) MaxMetadataString) (truncate (ra_Category raw) MaxMetadataString)
    (match intValue (ra_Severity raw) with Some v => if (1 <=? v) && (v <=? 255) then Some v else None | None => None end)
    (truncate (ra_Action raw) 64)
    (match verdict with Some v => if bool_decide (TrimSpace (rw_Action v) = "") then None else Some (truncate (rw_Action v) 64) | None => None end)
    false.

Definition sshPeerBanner (raw : RawMessage) : string :=
  match Unmarshal raw : option string with
  | Some legacy => truncate (TrimSpace legacy) MaxMetadataString
  | None =>
      match Unmarshal raw : option RawPeer with
      | None => ""
      | Some peer =>
          let protocol := TrimSpace (rp_ProtocolVersion peer) in
          let software := TrimSpace (rp_SoftwareVersion peer) in
          if bool_decide (protocol = "") then truncate software MaxMetadataString
          else
            let banner := "SSH-" +:+ protocol in
            truncate (if bool_decide (software = "") then banner else banner +:+ "-" +:+ software) MaxMetadataString
      end
  end.

Definition parseALPN (raw : RawMessage) : list string :=
  if bool_decide (raw = []) then []
  else
    let '(values, ok) := decode_strings raw in
    let values := if ok : bool then values else match Unmarshal raw : option string with Some v => [v] | None => values end in
    (fun v => truncate v 128) <$> take MaxALPN values.

Definition dns_fields (kind : string) (raw : RawMessage) : string * string :=
  if bool_decide (kind = "dns") && negb (bool_decide (raw = [])) && negb (bool_decide (bytes_str raw = "null")) then
    match Unmarshal raw : option RawDNS with
    | Some dns =>
        let recordType :=
          if bool_decide (rd_RRType dns = []) then rd_Type dns
          else match Unmarshal (rd_RRType dns) : option string with
               | Some s => s
               | None => trim_quotes_right (trim_quotes_left (bytes_str (rd_RRType dns)))
               end in
        (truncate (rd_RRName dns) MaxMetadataString, truncate recordType 64)
    | None => ("", "")
    end
  else ("", "").

Definition normalizeProtocol (raw : RawEnvelope) (kind : string) : option ProtocolMetadata :=
  let '(host, method, path) := match re_HTTP raw with
                               | Some h => (truncate (rh_Host h) MaxMetadataString, truncate (rh_Method h) 64, truncatePath (rh_URL h))
                               | None => ("", "", "")
                               end in
  let '(sni, version, alpn) := match re_TLS raw with
                               | Some t => (truncate (rl_SNI t) MaxMetadataString, truncate (rl_Version t) 64, parseALPN (rl_ALPN t))
                               | None => ("", "", [])
                               end in
  let ssh := match re_SSH raw with
             | Some h => truncate (TrimSpace (sshPeerBanner (rq_Client h) +:+ " " +:+ sshPeerBanner (rq_Server h))) MaxMetadataString
             | None => ""
             end in
  let '(query, recordType) := dns_fields kind (re_DNS raw) in
  if bool_decide (host = "") && bool_decide (method = "") && bool_decide (path = "") && bool_decide (sni = "") && bool_decide (version = "") &&
     bool_decide (alpn = []) && bool_decide (query = "") && bool_decide (recordType = "") && bool_decide (ssh = "")
  then None
  else Some (mkProtocolMetadata host method path sni version alpn query recordType ssh).

Definition normalizeStats (raw : RawStats) : SensorCounters :=
  mkSensorCounters (uint64Value (rt_Uptime raw))
    (uint64Value (if bool_decide (rt_Captured raw = []) then rt_KernelPackets raw else rt_Captured raw))
    (uint64Value (if bool_decide (rt_Drops raw = []) then rt_KernelDrops raw else rt_Drops raw))
    None (timestamp_or_nil (rt_Timestamp raw)).

(** ** A line *)

(** [if size, _ := json.Marshal(obs); len(size) > max]. *)
Definition oversized (max : Z) (obs : Observation) : bool :=
  max <? match Marshal obs with Some b => Z.of_nat (length b) | None => 0 end.

Definition shorten (obs : Observation) : Observation :=
  obs <| ob_Truncated := true |> <| ob_Protocol ::= fmap truncateProtocol |>
      <| ob_App ::= fun a => a <| ai_RawName ::= fun n => truncate n MaxMetadataString |> |>
      <| ob_MissingEvidence ::= fun l => l ++ ["normalized_event_truncated"] |>.

Definition strip (obs : Observation) : Observation :=
  obs <| ob_Protocol := None |> <| ob_App ::= fun a => a <| ai_RawName := "" |> |>
      <| ob_Alert ::= fmap (fun a => mkAlertObservation (al_SignatureID a) (al_HasSignatureID a) (al_SignatureRevision a) (truncate (al_Signature a) 256)
                                       (truncate (al_Category a) 256) (al_Severity a) (al_SignatureAction a) (al_PacketVerdict a) (al_InternalDiscovery a)) |>.

Definition normalized_limit (max : Z) : Z :=
  let max := if max <=? 0 then MaxNormalizedBytes else max in if 16384 <? max then 16384 else max.

Definition observation_of (raw : RawEnvelope) (kind : string) (observed : option Time) (source : SourcePosition) (line : list Z) (clock : Time) : Observation :=
  let tuple := normalizeTuple raw in
  let missing := if bool_decide (tuple = None) && (nonblank (re_SrcIP raw) || nonblank (re_DstIP raw) || nonblank (re_Proto raw))
                 then ["tuple_unavailable"] else [] in
  let missing := if bool_decide (observed = None) then missing ++ ["timestamp_unavailable"] else missing in
  let flow := uint64Value (re_FlowID raw) in
  mkObservation (EventID source line) source kind observed clock (default 0 flow) (has_port flow) (uint64Value (re_TxID raw)) tuple tuple
    (re_Flow raw ≫= fun f => timestamp_or_nil (rf_Start f)) (re_Flow raw ≫= fun f => timestamp_or_nil (rf_End f)) (normalizeDirection (re_Direction raw))
    (appIdentity (re_AppProto raw) kind observed) ((fun a => normalizeAlert a (re_Verdict raw)) <$> re_Alert raw) (normalizeProtocol raw kind)
    (normalizeStats <$> re_Stats raw) missing false.

Definition ParseLineWithLimit (line : list Z) (source : SourcePosition) (maxNormalizedBytes : Z) (clock : Time) : result EVEError Observation :=
  if MaxDefaultLineBytes <? Z.of_nat (length line) then Err ErrEVETooLarge
  else
    match Unmarshal line : option RawEnvelope with
    | None => Err ErrEVEMalformed
    | Some raw =>
        let kind := ToLower (TrimSpace (re_EventType raw)) in
        if negb (isKnownKind kind) then Err (ErrEVEUnknownType kind)
        else
          match ParseTimestamp (re_Timestamp raw) with
          | Err e => Err e
          | Ok observed =>
              let obs := observation_of raw kind observed source line clock in
              let max := normalized_limit maxNormalizedBytes in
              let obs := if oversized max obs then shorten obs else obs in
              let obs := if oversized max obs then strip obs else obs in
              if oversized max obs then Err ErrEVETooLarge else Ok obs
          end
    end.

Definition ParseLine (line : list Z) (source : SourcePosition) (clock : Time) : result EVEError Observation :=
  ParseLineWithLimit line source MaxNormalizedBytes clock.
End parser.
