(* ===== verification/EveProps.v ===== *)
(** * Properties of EVE records

    Distinct records have distinct identities before hashing; a record read
    again is recognised as long as fewer others came in between than the table
    holds; a line that is accepted is a bounded observation with a valid tuple. *)

From Stdlib Require Import Ascii.
From S2P Require Import Prelude GoStr Bytes Sha256 Netip Domain Codec Observation Eve.

(** ** Identity *)

(** Length prefixes separate the fields. *)
Lemma putString_inj s s' l l' : strlen s < 2 ^ 32 -> strlen s' < 2 ^ 32 -> putString s ++ l = putString s' ++ l' -> s = s' /\ l = l'.
Proof.
  unfold putString, PutUint32, strlen. intros Hs Hs' H. rewrite <- !app_assoc in H. apply be_bytes_inj in H as [Hlen H].
  change (2 ^ (8 * Z.of_nat 4)) with (2 ^ 32) in Hlen. unfold u32 in Hlen. rewrite !Z.mod_mod, !Z.mod_small in Hlen by lia.
  apply app_inj_1 in H as [H1 H2]; [|rewrite !str_bytes_length; lia]. split; [by apply str_bytes_inj | done].
Qed.

Lemma PutUint64_inj v w l l' : minInt64 <= v <= maxInt64 -> minInt64 <= w <= maxInt64 -> PutUint64 v ++ l = PutUint64 w ++ l' -> v = w /\ l = l'.
Proof.
  unfold PutUint64. intros Hv Hw [H ->]%be_bytes_inj. split; [|done]. change (2 ^ (8 * Z.of_nat 8)) with (2 ^ 64) in H. unfold u64 in H.
  rewrite !Z.mod_mod in H by lia. unfold minInt64, maxInt64 in *.
  pose proof (Z.div_mod v (2 ^ 64)). pose proof (Z.div_mod w (2 ^ 64)).
  assert (v / 2 ^ 64 = if v <? 0 then -1 else 0) as E1 by (destruct (Z.ltb_spec v 0); symmetry; [apply (Z.div_unique_pos v _ _ (v + 2 ^ 64)) | apply (Z.div_unique_pos v _ _ v)]; lia).
  assert (w / 2 ^ 64 = if w <? 0 then -1 else 0) as E2 by (destruct (Z.ltb_spec w 0); symmetry; [apply (Z.div_unique_pos w _ _ (w + 2 ^ 64)) | apply (Z.div_unique_pos w _ _ w)]; lia).
  pose proof (Z.mod_pos_bound v (2 ^ 64)). destruct (Z.ltb_spec v 0), (Z.ltb_spec w 0); lia.
Qed.

(** The range of the fields of a position: [int64] offsets, strings that fit in memory. *)
Definition position_ok (p : SourcePosition) : Prop :=
  strlen (so_SensorID p) < 2 ^ 32 /\ strlen (so_SensorEpoch p) < 2 ^ 32 /\ strlen (so_FileGeneration p) < 2 ^ 32 /\
  minInt64 <= so_ByteStart p <= maxInt64 /\ minInt64 <= so_ByteEnd p <= maxInt64.

(** The identity of a record tells records apart: two records whose hash inputs are
    equal come from the same sensor, epoch, file and offsets and have the same
    bytes, so no choice of names or contents makes two records look alike. *)
Theorem event_input_injective p q line line' :
  position_ok p -> position_ok q -> event_input p line = event_input q line' ->
  so_SensorID p = so_SensorID q /\ so_SensorEpoch p = so_SensorEpoch q /\ so_FileGeneration p = so_FileGeneration q /\
  so_ByteStart p = so_ByteStart q /\ so_ByteEnd p = so_ByteEnd q /\ line = line'.
Proof.
  intros (P1 & P2 & P3 & P4 & P5) (Q1 & Q2 & Q3 & Q4 & Q5) H. unfold event_input in H.
  apply putString_inj in H as [-> H]; [|done..]. apply putString_inj in H as [-> H]; [|done..]. apply putString_inj in H as [-> H]; [|done..].
  apply PutUint64_inj in H as [-> H]; [|done..]. apply PutUint64_inj in H as [-> ->]; done.
Qed.

(** ** Records read twice *)

Definition total_ids (l : list string) : Z := foldr (fun id a => strlen id + a) 0 l.
Definition ids (l : list dedupEntry) : list string := de_id <$> l.

(** The map and the list of a table agree. *)
Record tidy (d : Deduper) : Prop := mkTidy {
  ty_items : dd_items d = list_to_set (ids (dd_lru d));
  ty_NoDup : NoDup (ids (dd_lru d));
  ty_bytes : dd_bytes d = total_ids (ids (dd_lru d));
  ty_sizes : Forall (fun e => de_bytes e = strlen (de_id e)) (dd_lru d)
}.

(** The limits do not change. *)
Definition limits_of (d : Deduper) := (dd_maxCount d, dd_maxBytes d, dd_ttl d).

Lemma total_ids_app l l' : total_ids (l ++ l') = total_ids l + total_ids l'.
Proof. induction l as [| x l IH]; cbn; [done|]. unfold total_ids in *. cbn. lia. Qed.

Lemma total_ids_cons x l : total_ids (x :: l) = strlen x + total_ids l.
Proof. done. Qed.

Lemma strlen_nonneg s : 0 <= strlen s.
Proof. unfold strlen. lia. Qed.

Lemma total_ids_submseteq l l' : l ⊆+ l' -> total_ids l <= total_ids l'.
Proof. induction 1; unfold total_ids in *; cbn; pose proof strlen_nonneg; try lia. specialize (H0 x). lia. Qed.

Lemma filter_twice {A} (f g : A -> bool) l : List.filter f (List.filter g l) = List.filter (fun x => g x && f x) l.
Proof. induction l as [| x l IH]; cbn; [done|]. destruct (g x); cbn; by rewrite IH. Qed.

Definition without (id : string) : list dedupEntry -> list dedupEntry := List.filter (fun x => negb (bool_decide (de_id x = id))).

Lemma without_absent id l : id ∉ ids l -> without id l = l.
Proof.
  induction l as [| x l IH]; cbn; [done|]. intros Hn. rewrite bool_decide_eq_false_2 by set_solver. cbn. f_equal. apply IH. set_solver.
Qed.

Lemma without_middle pre e post : NoDup (ids (pre ++ e :: post)) -> without (de_id e) (pre ++ e :: post) = pre ++ post.
Proof.
  unfold ids. rewrite fmap_app, fmap_cons. intros (H1 & H2 & H3)%NoDup_app. apply NoDup_cons in H3 as [H3 _].
  unfold without. rewrite List.filter_app. cbn. rewrite bool_decide_eq_true_2 by done. cbn. fold (without (de_id e) pre) (without (de_id e) post).
  rewrite !without_absent; [done | done |]. intros Hin. apply (H2 _ Hin). by left.
Qed.

(** Removing an element of the list. *)
Lemma remove_split d pre e post : tidy d -> dd_lru d = pre ++ e :: post ->
  tidy (removeElementLocked e d) /\ dd_lru (removeElementLocked e d) = pre ++ post /\ limits_of (removeElementLocked e d) = limits_of d.
Proof.
  intros [H1 H2 H3 H4] El. assert (Hl : dd_lru (removeElementLocked e d) = pre ++ post).
  { cbn. rewrite El in *. apply (without_middle pre e post H2). }
  split_and!; [|done | done]. rewrite El in *. unfold ids in H2. rewrite fmap_app, fmap_cons in H2.
  constructor; rewrite Hl.
  - cbn. rewrite H1. unfold ids. rewrite !fmap_app, fmap_cons, !list_to_set_app_L. cbn.
    apply NoDup_app in H2 as (_ & Hd & [Hp _]%NoDup_cons). assert (de_id e ∉ de_id <$> pre) by (intros Hin; apply (Hd _ Hin); by left). set_solver.
  - unfold ids. rewrite fmap_app. apply NoDup_app in H2 as (? & Hd & [? ?]%NoDup_cons). apply NoDup_app. split_and!; [done | | done]. set_solver.
  - cbn. rewrite H3. apply Forall_app in H4 as [_ [He _]%Forall_cons]. unfold ids. rewrite !fmap_app, fmap_cons, !total_ids_app. rewrite He. unfold total_ids. cbn. lia.
  - apply Forall_app in H4 as [? [_ ?]%Forall_cons]. by apply Forall_app.
Qed.

Lemma cleanup_fold now : forall es d, tidy d -> NoDup (ids es) -> (forall e, e ∈ es -> e ∈ dd_lru d) ->
  let d' := foldl (fun d e => if stale now (dd_ttl d) e then removeElementLocked e d else d) d es in
  tidy d' /\ limits_of d' = limits_of d /\
  dd_lru d' = List.filter (fun x => negb (stale now (dd_ttl d) x && bool_decide (de_id x ∈ ids es))) (dd_lru d).
Proof.
  induction es as [| e es IH]; intros d Ht Hnd Hin; cbn [foldl].
  { cbn zeta. split_and!; [done | done |]. generalize (dd_ttl d). generalize (dd_lru d). clear. intros l ttl. induction l as [| x l IHl]; cbn; [done|].
    rewrite bool_decide_eq_false_2, andb_false_r by set_solver. cbn. by f_equal. }
  apply NoDup_cons in Hnd as [He Hnd].
  assert (Heq : forall x, x ∈ dd_lru d -> de_id x = de_id e -> x = e).
  { intros x Hx Hid. destruct Ht as [_ Hnd' _ _]. assert (Hel : e ∈ dd_lru d) by (apply Hin; by left).
    apply list_elem_of_lookup in Hx as [i Hi], Hel as [j Hj]. assert (i = j) as ->; [|congruence].
    eapply (NoDup_lookup (ids (dd_lru d))); [done | unfold ids; rewrite list_lookup_fmap, Hi; done | unfold ids; rewrite list_lookup_fmap, Hj; cbn; by rewrite Hid]. }
  destruct (stale now (dd_ttl d) e) eqn:Es.
  - destruct (list_elem_of_split (dd_lru d) e) as (pre & post & El); [apply Hin; by left|].
    destruct (remove_split d pre e post Ht El) as (Ht' & El' & Hlim).
    assert (Httl : dd_ttl (removeElementLocked e d) = dd_ttl d) by done.
    destruct (IH (removeElementLocked e d) Ht' Hnd) as (H1 & H2 & H3).
    { intros x Hx. rewrite El'. assert (Hxl : x ∈ dd_lru d) by (apply Hin; by right). rewrite El in Hxl. apply elem_of_app in Hxl as [Hxl | [-> | Hxl]%elem_of_cons];
        [set_solver | | set_solver]. exfalso. apply He. by apply list_elem_of_fmap_2. }
    split_and!; [done | congruence |]. rewrite H3, Httl. change (dd_lru (removeElementLocked e d)) with (without (de_id e) (dd_lru d)).
    unfold without. rewrite filter_twice. apply List.filter_ext_in. intros x Hx%list_elem_of_In.
    destruct (decide (de_id x = de_id e)) as [Hid | Hid].
    + rewrite (Heq x Hx Hid), Es. rewrite (bool_decide_eq_true_2 (de_id e = de_id e)), (bool_decide_eq_true_2 (de_id e ∈ ids (e :: es))) by (done || left). done.
    + rewrite (bool_decide_eq_false_2 (de_id x = de_id e)) by done. cbn [negb andb]. do 2 f_equal. apply bool_decide_ext. cbn. set_solver.
  - destruct (IH d Ht Hnd) as (H1 & H2 & H3); [intros x Hx; apply Hin; by right|]. split_and!; [done | done|]. rewrite H3.
    apply List.filter_ext_in. intros x Hx%list_elem_of_In. destruct (decide (de_id x = de_id e)) as [Hid | Hid].
    + rewrite (Heq x Hx Hid), Es. done.
    + do 2 f_equal. apply bool_decide_ext. cbn. set_solver.
Qed.

Lemma cleanup_spec now d : tidy d ->
  tidy (cleanupLocked now d) /\ limits_of (cleanupLocked now d) = limits_of d /\
  dd_lru (cleanupLocked now d) = List.filter (fun x => negb (stale now (dd_ttl d) x)) (dd_lru d).
Proof.
  intros Ht. unfold cleanupLocked. destruct (cleanup_fold now (rev (dd_lru d)) d Ht) as (H1 & H2 & H3).
  - unfold ids. rewrite <- (Permutation_rev (dd_lru d)). apply Ht.
  - intros e He. apply list_elem_of_In, in_rev. by apply list_elem_of_In.
  - split_and!; [done | done |]. rewrite H3. apply List.filter_ext_in. intros x Hx%list_elem_of_In. rewrite bool_decide_eq_true_2, andb_true_r; [done|].
    apply list_elem_of_fmap_2. apply list_elem_of_In. rewrite <- in_rev. by apply list_elem_of_In.
Qed.

Definition over (maxCount maxBytes : Z) (l : list dedupEntry) : Prop := maxCount < Z.of_nat (length l) \/ maxBytes < total_ids (ids l).

Lemma over_test d : tidy d ->
  ((dd_maxCount d <? Z.of_nat (size (dd_items d))) || (dd_maxBytes d <? dd_bytes d) = true) <-> over (dd_maxCount d) (dd_maxBytes d) (dd_lru d).
Proof.
  intros [H1 H2 H3 _]. rewrite orb_true_iff, !Z.ltb_lt, H3, H1, size_list_to_set by done. unfold over, ids. by rewrite length_fmap.
Qed.

(** Shrinking drops a suffix, and only what does not fit. *)
Lemma shrink_spec fuel : forall d, tidy d -> 0 < dd_maxCount d -> 0 < dd_maxBytes d -> (length (dd_lru d) <= fuel)%nat ->
  exists k, (k <= length (dd_lru d))%nat /\ tidy (shrink fuel d) /\ limits_of (shrink fuel d) = limits_of d /\ dd_lru (shrink fuel d) = take k (dd_lru d) /\
    ~ over (dd_maxCount d) (dd_maxBytes d) (take k (dd_lru d)) /\ (k = length (dd_lru d) \/ over (dd_maxCount d) (dd_maxBytes d) (take (S k) (dd_lru d))).
Proof.
  assert (Hnil : forall c b, 0 < c -> 0 < b -> ~ over c b []) by (intros c b ? ? [H | H]; cbn in H; lia).
  induction fuel as [| fuel IH]; intros d Ht Hc Hb Hf; cbn [shrink].
  { assert (dd_lru d = []) as E by (destruct (dd_lru d); [done | cbn in Hf; lia]). exists 0%nat. rewrite E. cbn. split_and!; try done; [by apply Hnil | by left]. }
  pose proof (over_test d Ht) as Hov. destruct (_ || _) eqn:Eo.
  - assert (Hover : over (dd_maxCount d) (dd_maxBytes d) (dd_lru d)) by by apply Hov.
    destruct (dd_lru d) as [| x l] eqn:El using rev_ind; [by apply Hnil in Hover|]. clear IHl.
    assert (Hold : removeOldestLocked d = removeElementLocked x d) by (unfold removeOldestLocked; by rewrite El, last_snoc).
    destruct (remove_split d l x [] Ht El) as (Ht' & El' & Hlim). rewrite app_nil_r in El'. rewrite Hold.
    destruct (IH (removeElementLocked x d)) as (k & Hk & I1 & I2 & I3 & I4 & I5); [done | done | done | rewrite El'; rewrite length_app in Hf; cbn in Hf; lia |].
    change (dd_maxCount (removeElementLocked x d)) with (dd_maxCount d) in *. change (dd_maxBytes (removeElementLocked x d)) with (dd_maxBytes d) in *.
    rewrite El' in *. exists k. rewrite !take_app_le by (rewrite ?length_app; cbn; lia). rewrite length_app. cbn. split_and!; [lia | done | congruence | done | done |].
    right. destruct I5 as [-> | I5].
    + rewrite take_ge by (rewrite length_app; cbn; lia). done.
    + destruct (decide (S k <= length l)%nat); [by rewrite take_app_le|]. rewrite take_ge by (rewrite length_app; cbn; lia). done.
  - exists (length (dd_lru d)). rewrite firstn_all. split_and!; try done; [|by left]. intros H%Hov. done.
Qed.

(** ** What a call does *)

Definition lru_after (id : string) (now : Time) (d : Deduper) : list dedupEntry :=
  let live := List.filter (fun x => negb (stale now (dd_ttl d) x)) (dd_lru d) in
  if bool_decide (id ∈ ids live) then move_to_front id now live else mkDedupEntry id (strlen id) now :: live.

Lemma move_tidy id now l : id ∈ ids l -> NoDup (ids l) ->
  exists pre e post, l = pre ++ e :: post /\ de_id e = id /\ move_to_front id now l = mkDedupEntry (de_id e) (de_bytes e) now :: pre ++ post.
Proof.
  intros (e & Eid & He)%list_elem_of_fmap Hnd. apply list_elem_of_split in He as (pre & post & ->). exists pre, e, post. split_and!; [done | done|].
  subst id. unfold move_to_front. fold (without (de_id e) (pre ++ e :: post)). rewrite without_middle by done.
  assert (Hone : List.filter (fun x => bool_decide (de_id x = de_id e)) (pre ++ e :: post) = [e]); [|by rewrite Hone].
  unfold ids in Hnd. rewrite fmap_app, fmap_cons in Hnd. apply NoDup_app in Hnd as (_ & Hd & [Hp _]%NoDup_cons).
  assert (Hnone : forall l, de_id e ∉ de_id <$> l -> List.filter (fun x => bool_decide (de_id x = de_id e)) l = []).
  { intros l. induction l as [| x l IH]; cbn; [done|]. intros Hn. rewrite bool_decide_eq_false_2 by set_solver. apply IH. set_solver. }
  rewrite List.filter_app. cbn. rewrite bool_decide_eq_true_2 by done. rewrite (Hnone pre), (Hnone post); [done | done|]. intros Hin. apply (Hd _ Hin). by left.
Qed.

(** The call answers whether the identifier is listed and fresh; the list afterwards is
    a prefix of [lru_after], the whole of it when that fits. *)
Lemma SeenOrAdd_spec id now d : id <> "" -> tidy d -> 0 < dd_maxCount d -> 0 < dd_maxBytes d ->
  let live := List.filter (fun x => negb (stale now (dd_ttl d) x)) (dd_lru d) in
  let '(d', seen) := SeenOrAdd id now d in
  tidy d' /\ limits_of d' = limits_of d /\ seen = bool_decide (id ∈ ids live) /\
  exists k, (k <= length (lru_after id now d))%nat /\ dd_lru d' = take k (lru_after id now d) /\
    (k = length (lru_after id now d) \/ over (dd_maxCount d) (dd_maxBytes d) (take (S k) (lru_after id now d))) /\
    (seen = false -> ~ over (dd_maxCount d) (dd_maxBytes d) (dd_lru d')).
Proof.
  intros Hid Ht Hc Hb live. unfold SeenOrAdd. rewrite bool_decide_eq_false_2 by done. destruct (cleanup_spec now d Ht) as (Ht1 & Hlim & El).
  set (d1 := cleanupLocked now d) in *. fold live in El. unfold lru_after. fold live.
  assert (Hin : bool_decide (id ∈ dd_items d1) = bool_decide (id ∈ ids live)).
  { apply bool_decide_ext. rewrite (ty_items _ Ht1), elem_of_list_to_set, El. done. }
  rewrite Hin. assert (L : dd_maxCount d1 = dd_maxCount d /\ dd_maxBytes d1 = dd_maxBytes d) by (injection Hlim; done). destruct L as [L1 L2].
  destruct (bool_decide_reflect (id ∈ ids live)) as [Hseen | Hnew].
  - destruct (move_tidy id now live Hseen) as (pre & e & post & Elive & Eid & Emove); [rewrite <- El; apply Ht1|].
    destruct Ht1 as [T1 T2 T3 T4]. split_and!; [| done | done |].
    + rewrite El in *. constructor; cbn; rewrite ?El, Emove; rewrite Elive in *; unfold ids in *; rewrite ?fmap_app, ?fmap_cons, ?fmap_app in *; cbn in *.
      * rewrite T1, !list_to_set_app_L. cbn. set_solver.
      * by rewrite Permutation_middle.
      * rewrite T3. rewrite !total_ids_app. unfold total_ids. cbn. lia.
      * apply Forall_app in T4 as [? [? ?]%Forall_cons]. constructor; [done|]. by apply Forall_app.
    + exists (length (move_to_front id now live)). rewrite firstn_all. cbn. rewrite El. split_and!; [done | done | by left | done].
  - set (entry := mkDedupEntry id (strlen id) now).
    set (d2 := d1 <| dd_lru ::= cons entry |> <| dd_items ::= fun m => {[id]} ∪ m |> <| dd_bytes ::= fun b => b + de_bytes entry |>).
    assert (Ed2 : dd_lru d2 = entry :: live) by (cbn; by rewrite El).
    assert (Ht2 : tidy d2).
    { destruct Ht1 as [T1 T2 T3 T4]. rewrite El in *. constructor; rewrite Ed2; cbn.
      - by rewrite T1.
      - by constructor.
      - change (dd_bytes d1 + strlen id = strlen id + total_ids (ids live)). lia.
      - by constructor. }
    destruct (shrink_spec (length (dd_lru d2)) d2 Ht2) as (k & Hk & I1 & I2 & I3 & I4 & I5); [cbn; lia | cbn; lia | done |].
    change (dd_maxCount d2) with (dd_maxCount d1) in *. change (dd_maxBytes d2) with (dd_maxBytes d1) in *. rewrite L1, L2, Ed2 in *.
    split_and!; [done | by rewrite I2 | done |]. exists k. split_and!; [done | done | done |]. intros _. by rewrite I3.
Qed.

Lemma over_prefix c b l l' : over c b l -> over c b (l ++ l').
Proof.
  intros [H | H]; [left; rewrite length_app; lia | right]. unfold ids. rewrite fmap_app, total_ids_app. fold (ids l) (ids l').
  assert (0 <= total_ids (ids l')); [|lia]. induction (ids l') as [| x q IH]; unfold total_ids in *; cbn; [done | pose proof (strlen_nonneg x); lia].
Qed.

(** An entry with everything before it fits, so the cut comes after it. *)
Lemma cut_after c b pre (e : dedupEntry) post k : ~ over c b (pre ++ [e]) -> (k <= length (pre ++ e :: post))%nat ->
  (k = length (pre ++ e :: post) \/ over c b (take (S k) (pre ++ e :: post))) -> exists post', take k (pre ++ e :: post) = pre ++ e :: post'.
Proof.
  intros Hfit Hk Hcut. rewrite length_app in *. cbn in *. destruct (decide (length pre < k)%nat) as [Hlt | Hge].
  - exists (take (k - length pre - 1) post). rewrite take_app, take_ge by lia. f_equal. destruct (k - length pre)%nat as [|n] eqn:E; [lia|]. cbn. by rewrite Nat.sub_0_r.
  - exfalso. destruct Hcut as [-> | Hcut]; [lia|]. apply Hfit. replace (pre ++ e :: post) with ((pre ++ [e]) ++ post) in Hcut by by rewrite <- app_assoc.
    rewrite take_app_le in Hcut by (rewrite length_app; cbn; lia). rewrite <- (take_drop (S k) (pre ++ [e])). by apply over_prefix.
Qed.

Lemma fresh_split now ttl (pre : list dedupEntry) e post : stale now ttl e = false ->
  exists pre' post', List.filter (fun x => negb (stale now ttl x)) (pre ++ e :: post) = pre' ++ e :: post' /\ (forall i, i ∈ ids pre' -> i ∈ ids pre).
Proof.
  intros Hf. exists (List.filter (fun x => negb (stale now ttl x)) pre), (List.filter (fun x => negb (stale now ttl x)) post).
  rewrite List.filter_app. cbn. rewrite Hf. split; [done|]. intros i (x & -> & Hx)%list_elem_of_fmap. apply list_elem_of_fmap_2.
  apply list_elem_of_In in Hx. apply filter_In in Hx as [Hx _]. by apply list_elem_of_In.
Qed.

Lemma live_NoDup now ttl l : NoDup (ids l) -> NoDup (ids (List.filter (fun x => negb (stale now ttl x)) l)).
Proof.
  induction l as [| x l IH]; cbn; [done|]. intros [Hx Hl]%NoDup_cons. destruct (negb _); [|by apply IH]. cbn. constructor; [|by apply IH].
  intros (y & Ey & Hy)%list_elem_of_fmap. apply Hx. rewrite Ey. apply list_elem_of_fmap_2. apply list_elem_of_In in Hy. apply filter_In in Hy as [Hy _]. by apply list_elem_of_In.
Qed.

(** The identifier of a call is at the front. *)
Lemma lru_after_head id now d : tidy d -> exists e rest, lru_after id now d = e :: rest /\ de_id e = id /\ de_seenAt e = now /\ NoDup (ids (lru_after id now d)).
Proof.
  intros Ht. pose proof (live_NoDup now (dd_ttl d) _ (ty_NoDup _ Ht)) as Hnd. unfold lru_after. set (live := List.filter _ _) in *. case_bool_decide as Hin.
  - destruct (move_tidy id now live Hin Hnd) as (pre & e & post & El & Eid & ->). eexists _, _. split_and!; [done | done | done |].
    rewrite El in Hnd. unfold ids in *. rewrite fmap_cons, fmap_app in *. cbn in *. by rewrite Permutation_middle.
  - eexists _, _. split_and!; [done | done | done |]. by constructor.
Qed.

(** An entry in the list stays in the list of another call, with at most that call's
    identifier added before it. *)
Lemma lru_after_keeps id id' now d pre e post : tidy d -> dd_lru d = pre ++ e :: post -> de_id e = id -> id' <> id -> stale now (dd_ttl d) e = false ->
  exists pre' post', lru_after id' now d = pre' ++ e :: post' /\ forall i, i ∈ ids pre' -> i = id' \/ i ∈ ids pre.
Proof.
  intros Ht El Eid Hne Hf. pose proof (live_NoDup now (dd_ttl d) _ (ty_NoDup _ Ht)) as Hnd. unfold lru_after. rewrite El in *.
  destruct (fresh_split now (dd_ttl d) pre e post Hf) as (p & q & Elive & Hsub). rewrite Elive in *. case_bool_decide as Hin.
  - destruct (move_tidy id' now _ Hin Hnd) as (pre2 & e2 & post2 & E2 & Eid2 & ->).
    assert (E : pre2 ++ post2 = without id' p ++ e :: without id' q).
    { rewrite <- (without_middle pre2 e2 post2) by (by rewrite <- E2). rewrite <- E2, Eid2. unfold without. rewrite List.filter_app. cbn. by rewrite bool_decide_eq_false_2 by congruence. }
    rewrite E. exists (mkDedupEntry (de_id e2) (de_bytes e2) now :: without id' p), (without id' q). split; [done|].
    intros i [-> | Hi]%elem_of_cons; [by left|]. right. apply Hsub. apply list_elem_of_fmap in Hi as (x & -> & Hx). apply list_elem_of_fmap_2.
    apply list_elem_of_In in Hx. apply filter_In in Hx as [Hx _]. by apply list_elem_of_In.
  - exists (mkDedupEntry id' (strlen id') now :: p), q. split; [done|]. intros i [-> | Hi]%elem_of_cons; [by left | right; by apply Hsub].
Qed.

(** ** A record read again is recognised *)

Definition see_all (calls : list (string * Time)) (d : Deduper) : Deduper := foldl (fun d c => (SeenOrAdd c.1 c.2 d).1) d calls.

(** The identifiers other than [id] of some calls, each once. *)
Definition others (id : string) (calls : list (string * Time)) : list string := remove_dups (filter (fun i => i <> id) calls.*1).

Definition kept (id : string) (t0 : Time) (seen : list string) (d : Deduper) : Prop :=
  exists pre e post, dd_lru d = pre ++ e :: post /\ de_id e = id /\ t0 <= de_seenAt e /\ forall i, i ∈ ids pre -> i ∈ seen.

Lemma fits_others id calls c b (pre : list dedupEntry) e : NoDup (ids (pre ++ [e])) -> de_id e = id -> (forall i, i ∈ ids pre -> i ∈ calls.*1) ->
  Z.of_nat (length (others id calls)) < c -> total_ids (others id calls) + strlen id <= b -> ~ over c b (pre ++ [e]).
Proof.
  intros Hnd Eid Hsub Hc Hb. unfold ids in Hnd. rewrite fmap_app in Hnd. apply NoDup_app in Hnd as (Hnd & Hd & _).
  assert (Hle : ids pre ⊆+ others id calls).
  { apply NoDup_submseteq; [done|]. intros i Hi. unfold others. apply elem_of_remove_dups, list_elem_of_filter. split; [|by apply Hsub].
    intros ->. apply (Hd _ Hi). cbn. rewrite Eid. by left. }
  pose proof (submseteq_length _ _ Hle) as Hlen. unfold ids in Hlen. rewrite length_fmap in Hlen. pose proof (total_ids_submseteq _ _ Hle).
  intros [H1 | H1]; [rewrite length_app in H1; cbn in H1; lia|]. unfold ids in H1. rewrite fmap_app, total_ids_app in H1. cbn in H1. rewrite Eid in H1.
  fold (ids pre) in H1. lia.
Qed.

Definition deduper_ok (d : Deduper) : Prop := tidy d /\ 0 < dd_maxCount d /\ 0 < dd_maxBytes d /\ 0 < dd_ttl d.

Lemma NewDeduper_ok c b ttl : deduper_ok (NewDeduper c b ttl).
Proof.
  unfold NewDeduper. split_and!; cbn; [|destruct (Z.leb_spec c 0); lia | destruct (Z.leb_spec b 0); lia |].
  - constructor; cbn; [done | constructor | done | constructor].
  - destruct (Z.leb_spec ttl 0); unfold Minute, Second; lia.
Qed.

Lemma SeenOrAdd_ok id now d : deduper_ok d -> deduper_ok (SeenOrAdd id now d).1.
Proof.
  intros (Ht & Hc & Hb & Httl). destruct (decide (id = "")) as [-> | Hid]; [done|]. pose proof (SeenOrAdd_spec id now d Hid Ht Hc Hb) as H.
  destruct (SeenOrAdd id now d) as [d' seen]. destruct H as (Ht' & [= E1 E2 E3] & _). cbn. unfold deduper_ok. by rewrite E1, E2, E3.
Qed.

Lemma not_stale now ttl e t0 t : t0 <= de_seenAt e -> now <= t -> t - t0 <= ttl -> 0 < ttl -> stale now ttl e = false.
Proof. intros H1 H2 H3 H4. unfold stale, time_Sub, minInt64, maxInt64. apply Z.ltb_ge. lia. Qed.

(** One more call keeps the entry. *)
Lemma kept_step id t0 t calls d c : deduper_ok d -> kept id t0 calls.*1 d -> id <> "" -> t0 <= c.2 <= t -> t - t0 <= dd_ttl d ->
  Z.of_nat (length (others id (calls ++ [c]))) < dd_maxCount d -> total_ids (others id (calls ++ [c])) + strlen id <= dd_maxBytes d ->
  kept id t0 (calls ++ [c]).*1 (SeenOrAdd c.1 c.2 d).1.
Proof.
  destruct c as [id' now]. cbn [fst snd]. intros (Ht & Hc & Hb & Httl) (pre & e & post & El & Eid & Hseen & Hsub) Hid [Hlo Hhi] Hage Hcount Hbytes.
  assert (Hmore : forall i, i ∈ calls.*1 -> i ∈ (calls ++ [(id', now)]).*1) by (intros i Hi; rewrite fmap_app; set_solver).
  destruct (decide (id' = "")) as [-> | Hid']; [exists pre, e, post; split_and!; [done | done | done | naive_solver]|].
  pose proof (SeenOrAdd_spec id' now d Hid' Ht Hc Hb) as H. destruct (SeenOrAdd id' now d) as [d' seen]. destruct H as (Ht' & _ & _ & k & Hk & El' & Hcut & _). cbn [fst].
  destruct (lru_after_head id' now d Ht) as (e0 & rest & Ehead & Eid0 & Eseen0 & Hnd).
  assert (Hpos : exists pre' e' post', lru_after id' now d = pre' ++ e' :: post' /\ de_id e' = id /\ t0 <= de_seenAt e' /\
                   forall i, i ∈ ids pre' -> i ∈ (calls ++ [(id', now)]).*1).
  { destruct (decide (id' = id)) as [-> | Hne].
    - exists [], e0, rest. split_and!; [done | done | lia | intros i Hi; by apply elem_of_nil in Hi].
    - destruct (lru_after_keeps id id' now d pre e post Ht El Eid Hne) as (pre' & post' & E' & Hsub'); [by apply (not_stale now _ e t0 t)|].
      exists pre', e, post'. split_and!; [done | done | done |]. intros i [-> | Hi]%Hsub'; [rewrite fmap_app; set_solver | by apply Hmore, Hsub]. }
  destruct Hpos as (pre' & e' & post' & E' & Eid' & Hseen' & Hsub'). rewrite E' in *.
  destruct (cut_after (dd_maxCount d) (dd_maxBytes d) pre' e' post' k) as [post2 E2]; [| done | done | exists pre', e', post2; split_and!; [congruence | done..]].
  apply (fits_others id (calls ++ [(id', now)])); [| done | done | done | done].
  unfold ids in *. rewrite fmap_app, fmap_cons in Hnd. rewrite fmap_app. cbn. rewrite (cons_middle (de_id e')), app_assoc in Hnd. by apply NoDup_app in Hnd as [? _].
Qed.

Lemma others_mono id calls more : others id calls ⊆+ others id (calls ++ more).
Proof.
  apply NoDup_submseteq; [apply NoDup_remove_dups|]. intros i. unfold others. rewrite !elem_of_remove_dups, !list_elem_of_filter, fmap_app. set_solver.
Qed.

Lemma see_all_kept id t0 t d0 calls : deduper_ok d0 -> id <> "" -> strlen id <= dd_maxBytes d0 ->
  Forall (fun c => t0 <= c.2 <= t) calls -> t - t0 <= dd_ttl d0 ->
  Z.of_nat (length (others id calls)) < dd_maxCount d0 -> total_ids (others id calls) + strlen id <= dd_maxBytes d0 ->
  let d := see_all calls (SeenOrAdd id t0 d0).1 in kept id t0 calls.*1 d /\ deduper_ok d /\ limits_of d = limits_of d0.
Proof.
  intros Hd Hid Hsize. induction calls as [| c calls IH] using rev_ind; intros Htimes Hage Hcount Hbytes; cbn zeta.
  - pose proof Hd as (Ht & Hc & Hb & _). pose proof (SeenOrAdd_spec id t0 d0 Hid Ht Hc Hb) as H. pose proof (SeenOrAdd_ok id t0 d0 Hd) as Hok. cbn [see_all foldl].
    destruct (SeenOrAdd id t0 d0) as [d' seen]. destruct H as (_ & Hlim & _ & k & Hk & El & Hcut & _). cbn [fst] in *. split; [|done].
    destruct (lru_after_head id t0 d0 Ht) as (e & rest & Ehead & Eid & Eseen & _). rewrite Ehead in *.
    destruct (cut_after (dd_maxCount d0) (dd_maxBytes d0) [] e rest k) as [post E]; [| done | done |].
    + intros [Ho | Ho]; unfold total_ids in Ho; cbn in Ho; [lia | rewrite Eid in Ho; lia].
    + exists [], e, post. cbn [app] in E. split_and!; [rewrite El; exact E | done | lia | intros i Hi; by apply elem_of_nil in Hi].
  - apply Forall_app in Htimes as [Htimes [Hc _]%Forall_cons]. pose proof (others_mono id calls [c]) as Hm.
    pose proof (submseteq_length _ _ Hm). pose proof (total_ids_submseteq _ _ Hm). unfold see_all in *. rewrite foldl_app. cbn [foldl].
    destruct IH as (Hk & Hok & Hlim); [done | done | lia | lia |]. set (d := foldl _ _ calls) in *. pose proof (SeenOrAdd_ok c.1 c.2 d Hok) as Hok'.
    injection Hlim as L1 L2 L3. split; [|split; [done|]].
    + apply (kept_step id t0 t calls d c); rewrite ?L1, ?L2, ?L3; done.
    + destruct (decide (c.1 = "")) as [E | E]; [assert ((SeenOrAdd c.1 c.2 d).1 = d) as -> by (by rewrite E); unfold limits_of; by rewrite L1, L2, L3|].
      destruct Hok as (Ht & ? & ? & _). pose proof (SeenOrAdd_spec c.1 c.2 d E Ht ltac:(lia) ltac:(lia)) as Hspec. destruct (SeenOrAdd c.1 c.2 d) as [d'' ?].
      destruct Hspec as (_ & Hl & _). cbn. rewrite Hl. unfold limits_of. by rewrite L1, L2, L3.
Qed.

(** A record that is read again within the retention time is recognised, as long as
    fewer other records than the table has places, and fewer bytes of identifiers,
    came in between: no schedule of other records, repeats included, makes the
    reducer count it twice. *)
Theorem recent_duplicate_recognised id t0 t d0 calls :
  deduper_ok d0 -> id <> "" -> Forall (fun c => t0 <= c.2 <= t) calls -> t0 <= t -> t - t0 <= dd_ttl d0 ->
  Z.of_nat (length (others id calls)) < dd_maxCount d0 -> total_ids (others id calls) + strlen id <= dd_maxBytes d0 ->
  (SeenOrAdd id t (see_all calls (SeenOrAdd id t0 d0).1)).2 = true.
Proof.
  intros Hd Hid Htimes Ht Hage Hcount Hbytes.
  assert (Hsize : strlen id <= dd_maxBytes d0).
  { assert (0 <= total_ids (others id calls)); [|lia]. generalize (others id calls). intros l. induction l as [| x l IH]; unfold total_ids in *; cbn; [done|]. pose proof (strlen_nonneg x). lia. }
  destruct (see_all_kept id t0 t d0 calls Hd Hid Hsize Htimes Hage Hcount Hbytes) as ((pre & e & post & El & Eid & Hseen & _) & (Hty & Hc & Hb & Httl) & [= L1 L2 L3]).
  set (d := see_all _ _) in *. pose proof (SeenOrAdd_spec id t d Hid Hty Hc Hb) as H. destruct (SeenOrAdd id t d) as [d' seen]. destruct H as (_ & _ & -> & _).
  cbn [snd]. apply bool_decide_eq_true_2. rewrite El. destruct (fresh_split t (dd_ttl d) pre e post) as (p & q & -> & _).
  { apply (not_stale t _ e t0 t); [done | done | rewrite L3; done | lia]. }
  unfold ids. rewrite fmap_app, fmap_cons, Eid. set_solver.
Qed.

(** The table stays within its limits, whatever is read. *)
Lemma total_ids_filter (f : dedupEntry -> bool) l : total_ids (ids (List.filter f l)) <= total_ids (ids l).
Proof. induction l as [| x l IH]; cbn; [done|]. pose proof (strlen_nonneg (de_id x)). destruct (f x); unfold total_ids, ids in *; cbn; lia. Qed.

Lemma bounded_step id now d : deduper_ok d -> ~ over (dd_maxCount d) (dd_maxBytes d) (dd_lru d) ->
  ~ over (dd_maxCount d) (dd_maxBytes d) (dd_lru (SeenOrAdd id now d).1).
Proof.
  intros (Ht & Hc & Hb & _) Hfit. destruct (decide (id = "")) as [-> | Hid]; [done|]. pose proof (SeenOrAdd_spec id now d Hid Ht Hc Hb) as H.
  destruct (SeenOrAdd id now d) as [d' seen]. destruct H as (_ & _ & -> & k & Hk & El & _ & Hnew). cbn [fst]. case_bool_decide as Hin; [|by apply Hnew].
  rewrite El. intros Ho. apply (over_prefix _ _ _ (drop k (lru_after id now d))) in Ho. rewrite take_drop in Ho. unfold lru_after in Ho.
  rewrite bool_decide_eq_true_2 in Ho by done. set (live := List.filter _ _) in *.
  destruct (move_tidy id now live Hin (live_NoDup _ _ _ (ty_NoDup _ Ht))) as (pre & e & post & Elive & Eid & Emove). rewrite Emove in Ho. apply Hfit.
  assert (Hlen : (length live <= length (dd_lru d))%nat) by apply filter_length_le. pose proof (total_ids_filter (fun x => negb (stale now (dd_ttl d) x)) (dd_lru d)) as Htot.
  fold live in Htot. rewrite Elive in Hlen, Htot. destruct Ho as [Ho | Ho]; [left | right].
  - rewrite length_app in Hlen. cbn in Hlen, Ho. rewrite length_app in Ho. lia.
  - assert (E2 : total_ids (ids (mkDedupEntry (de_id e) (de_bytes e) now :: pre ++ post)) = total_ids (ids (pre ++ e :: post))); [|lia].
    unfold ids. rewrite fmap_cons, !fmap_app, fmap_cons, total_ids_cons, !total_ids_app, total_ids_cons. cbn [de_id]. lia.
Qed.

(** ** Lines *)

Lemma take_string_length n s : strlen (take_string n s) <= Z.of_nat n.
Proof. unfold strlen. revert s. induction n as [| n IH]; intros [| c s]; cbn; try lia. specialize (IH s). lia. Qed.

Lemma valid_end_le v n : (valid_end v n <= n)%nat.
Proof. induction n as [| n IH]; [done|]. cbn [valid_end]. destruct (ValidString (take_string (S n) v)); lia. Qed.

Lemma truncate_length v n : strlen (truncate v n) <= Z.of_nat n.
Proof. unfold truncate. destruct (Z.leb_spec (strlen v) (Z.of_nat n)); [done|]. etrans; [apply take_string_length|]. apply inj_le, valid_end_le. Qed.

(** A prefix that is not cut inside a character. *)
Lemma truncate_prefix v n : HasPrefix v (truncate v n) = true /\ (truncate v n <> v -> ValidString (truncate v n) = true).
Proof.
  assert (Hp : forall k v, HasPrefix v (take_string k v) = true).
  { intros k. induction k as [| k IH]; intros [| c w]; cbn; try done. destruct (ascii_dec c c); [apply IH | done]. }
  unfold truncate. destruct (strlen v <=? Z.of_nat n).
  - split; [|done]. unfold HasPrefix. induction v as [| c v IH]; cbn; [done|]. by destruct (ascii_dec c c).
  - split; [apply Hp|]. intros _. induction n as [| n IH]; cbn [valid_end]; [done|]. destruct (ValidString (take_string (S n) v)) eqn:E; done.
Qed.

Section lines.
Context {JE : JSON RawEnvelope} {JO : JSON Observation} {JS : JSON string} {JD : JSON RawDNS} {JP : JSON RawPeer}.
Context (decode_strings : RawMessage -> list string * bool) (Parse : string -> string -> option Time).

Lemma ParseUint_range s n : ParseUint s = Some n -> 0 <= n < 2 ^ 64.
Proof.
  unfold ParseUint. destruct (starts_with_digit s); [|done].
  assert (Hd : forall s acc, 0 <= acc -> 0 <= (scan_digits acc s).1).
  { clear. intros s. induction s as [| c s IH]; intros acc Ha; cbn; [done|]. destruct (is_digit c) eqn:E; [|done]. apply IH.
    unfold is_digit in E. split_bool. lia. }
  specialize (Hd s 0 ltac:(lia)). destruct (scan_digits 0 s) as [m [|]]; [|done]. destruct (Z.ltb_spec m (2 ^ 64)); [|done]. intros [= <-]. cbn in Hd. lia.
Qed.

Lemma uint64Value_range raw n : uint64Value raw = Some n -> 0 <= n < 2 ^ 64.
Proof.
  unfold uint64Value. destruct raw as [| c raw]; [done|]. case_bool_decide; [done|]. destruct (if c =? 34 then _ else _) as [text|]; [|done]. apply ParseUint_range.
Qed.

(** The tuple of a record is valid and its ports are the numbers of the record: none
    is cut to sixteen bits. *)
Definition ports_exact (raw : RawEnvelope) (t : Tuple) : Prop :=
  tp_SrcPort t = default 0 (uint64Value (re_SrcPort raw)) /\ tp_DstPort t = default 0 (uint64Value (re_DstPort raw)) /\
  0 <= tp_SrcPort t <= 65535 /\ 0 <= tp_DstPort t <= 65535 /\
  (tp_Protocol t = 6 \/ tp_Protocol t = 17 -> is_Some (uint64Value (re_SrcPort raw)) /\ is_Some (uint64Value (re_DstPort raw))).

Lemma port_exact raw : wide_port (uint64Value raw) = false -> u16 (default 0 (uint64Value raw)) = default 0 (uint64Value raw) /\ 0 <= default 0 (uint64Value raw) <= 65535.
Proof.
  destruct (uint64Value raw) as [n|] eqn:E; cbn; [|done]. apply uint64Value_range in E. intros H%Z.ltb_ge. unfold u16. rewrite Z.mod_small; lia.
Qed.

Lemma normalizeTuple_sound raw t : normalizeTuple raw = Some t -> Tuple_Valid t = true /\ ports_exact raw t.
Proof.
  unfold normalizeTuple. destruct (ParseAddr _) as [src|]; [|done]. destruct (ParseAddr _) as [dst|]; [|done]. destruct (ParseProtocol _) as [proto|]; [|done].
  destruct (negb _); [done|]. set (t' := mkTuple _ _ _ _ _ _ _ _ _).
  assert (Hports : wide_port (uint64Value (re_SrcPort raw)) = false -> wide_port (uint64Value (re_DstPort raw)) = false ->
     (proto = 6 \/ proto = 17 -> is_Some (uint64Value (re_SrcPort raw)) /\ is_Some (uint64Value (re_DstPort raw))) -> ports_exact raw t').
  { intros Hs Hd Hp. apply port_exact in Hs as [Es Hs], Hd as [Ed Hd]. unfold ports_exact, t'. cbn. rewrite Es, Ed. done. }
  assert (Hhas : forall p : option Z, negb (has_port p) = false -> is_Some p) by (intros [n|]; [by eexists | done]).
  destruct ((proto =? 6) || (proto =? 17)) eqn:Ep.
  - destruct (_ || _ || _ || _) eqn:Eg; [done|]. destruct (Tuple_Valid t') eqn:Ev; [|done]. intros [= <-].
    apply orb_false_iff in Eg as [[[E1 E2]%orb_false_iff E3]%orb_false_iff E4]. split; [done|]. apply Hports; [done | done | intros _; auto].
  - destruct (wide_port (uint64Value (re_SrcPort raw)) || wide_port (uint64Value (re_DstPort raw))) eqn:Eg; [done|]. fold t'. destruct (Tuple_Valid t') eqn:Ev; [|done]. intros [= <-]. apply orb_false_iff in Eg as [E1 E2].
    split; [done|]. apply Hports; [done | done |]. apply orb_false_iff in Ep as [P1%Z.eqb_neq P2%Z.eqb_neq]. lia.
Qed.

Definition protocol_bounded (p : ProtocolMetadata) : Prop :=
  strlen (pm_HTTPHost p) <= 1024 /\ strlen (pm_HTTPMethod p) <= 64 /\ strlen (pm_HTTPPath p) <= 4096 /\ strlen (pm_TLSSNI p) <= 1024 /\
  strlen (pm_TLSVersion p) <= 64 /\ (length (pm_ALPN p) <= 8)%nat /\ Forall (fun v => strlen v <= 128) (pm_ALPN p) /\ strlen (pm_DNSQuery p) <= 1024 /\
  strlen (pm_DNSRecordType p) <= 64 /\ strlen (pm_SSHBanner p) <= 1024.

Lemma truncate_le v n m : (Z.of_nat n <= m) -> strlen (truncate v n) <= m.
Proof. intros H. pose proof (truncate_length v n). lia. Qed.

Lemma parseALPN_bounded raw : (length (parseALPN decode_strings raw) <= 8)%nat /\ Forall (fun v => strlen v <= 128) (parseALPN decode_strings raw).
Proof.
  unfold parseALPN. case_bool_decide; [cbn; split; [lia | done]|]. destruct (decode_strings raw) as [values ok].
  set (l := take MaxALPN _). split; [unfold l; rewrite length_fmap, length_take; unfold MaxALPN; lia|]. apply Forall_fmap. apply Forall_forall. intros v _. by apply truncate_le.
Qed.

Lemma normalizeProtocol_bounded raw kind p : normalizeProtocol decode_strings raw kind = Some p -> protocol_bounded p.
Proof.
  unfold normalizeProtocol. destruct (dns_fields kind (re_DNS raw)) as [query rtype] eqn:Ed.
  assert (Hd : strlen query <= 1024 /\ strlen rtype <= 64).
  { unfold dns_fields in Ed. destruct (_ && _ && _); [|injection Ed as <- <-; unfold strlen; cbn; lia]. destruct (Unmarshal (re_DNS raw)) as [dns|]; injection Ed as <- <-.
    - split; by apply truncate_le.
    - unfold strlen; cbn; lia. }
  destruct (re_HTTP raw) as [h|], (re_TLS raw) as [t|], (re_SSH raw) as [x|]; case_if; try done; intros [= <-]; unfold protocol_bounded; cbn -[truncate parseALPN];
    pose proof (parseALPN_bounded) as Ha; split_and!; try (by apply truncate_le); try apply Ha; try (unfold strlen; cbn; lia); try done; try lia; constructor.
Qed.

Definition alert_bounded (a : AlertObservation) : Prop :=
  strlen (al_Signature a) <= 1024 /\ strlen (al_Category a) <= 1024 /\ strlen (al_SignatureAction a) <= 64 /\ 0 <= al_SignatureID a < 2 ^ 32 /\
  0 <= al_SignatureRevision a < 2 ^ 32 /\ (forall v, al_Severity a = Some v -> 1 <= v <= 255) /\
  (forall v, al_PacketVerdict a = Some v -> strlen v <= 64) /\ al_InternalDiscovery a = false.

Lemma in_uint32_range raw : 0 <= default 0 (in_uint32 (uint64Value raw)) < 2 ^ 32.
Proof.
  unfold in_uint32. destruct (uint64Value raw) as [n|] eqn:E; cbn; [|lia]. apply uint64Value_range in E. destruct (Z.leb_spec n (2 ^ 32 - 1)); cbn; lia.
Qed.

Lemma normalizeAlert_bounded raw verdict : alert_bounded (normalizeAlert raw verdict).
Proof.
  unfold alert_bounded, normalizeAlert. cbn -[truncate in_uint32]. split_and!; try (by apply truncate_le); try apply in_uint32_range.
  - intros v. destruct (intValue (ra_Severity raw)) as [n|]; [|done]. destruct ((1 <=? n) && (n <=? 255)) eqn:E; [|done]. intros [= <-]. split_bool. lia.
  - intros v. destruct verdict as [w|]; [|done]. case_bool_decide; [done|]. intros [= <-]. by apply truncate_le.
  - done.
Qed.

(** What every accepted observation satisfies. *)
Record observation_ok (obs : Observation) : Prop := mkObservationOk {
  oo_kind : isKnownKind (ob_Kind obs) = true;
  oo_tuple : forall t, ob_Tuple obs = Some t -> Tuple_Valid t = true /\ 0 <= tp_SrcPort t <= 65535 /\ 0 <= tp_DstPort t <= 65535;
  oo_flow : ob_FlowTuple obs = ob_Tuple obs /\ 0 <= ob_FlowID obs < 2 ^ 64;
  oo_alert : forall a, ob_Alert obs = Some a -> alert_bounded a;
  oo_protocol : forall p, ob_Protocol obs = Some p -> protocol_bounded p
}.

Lemma observation_of_ok raw kind observed source line clock : isKnownKind kind = true ->
  observation_ok (observation_of decode_strings Parse raw kind observed source line clock).
Proof.
  intros Hk. constructor; [done | | split; [done|] | |]; unfold observation_of; cbn [ob_Tuple ob_FlowID ob_Alert ob_Protocol].
  - intros t Ht%normalizeTuple_sound. destruct Ht as (? & _ & _ & ? & ? & _). done.
  - destruct (uint64Value (re_FlowID raw)) as [n|] eqn:E; cbn; [by apply uint64Value_range in E | lia].
  - intros a (r & _ & ->)%fmap_Some. apply normalizeAlert_bounded.
  - intros p Hp. by eapply normalizeProtocol_bounded.
Qed.

Lemma shorten_ok obs : observation_ok obs -> observation_ok (shorten obs).
Proof.
  intros [H1 H2 H3 H4 H5]. constructor; [done | done | done | done |]. intros p Hp. cbn [shorten ob_Protocol] in Hp. unfold shorten in Hp. cbn in Hp.
  apply fmap_Some in Hp as (q & Hq & ->). apply H5 in Hq as (B1 & B2 & B3 & B4 & B5 & B6 & B7 & B8 & B9 & B10).
  unfold protocol_bounded, truncateProtocol. cbn -[truncate]. split_and!; first [by apply truncate_le | done].
Qed.

Lemma strip_ok obs : observation_ok obs -> observation_ok (strip obs).
Proof.
  intros [H1 H2 H3 H4 H5]. constructor; [done | done | done | | done]. intros a Ha. unfold strip in Ha. cbn -[truncate] in Ha.
  apply fmap_Some in Ha as (b & Hb & ->). apply H4 in Hb as (B1 & B2 & B3 & B4 & B5 & B6 & B7 & B8).
  unfold alert_bounded. cbn -[truncate]. split_and!; first [by apply truncate_le | done | lia].
Qed.

(** C20. A line that is accepted becomes a bounded observation under its own identity:
    encoded it is no longer than the limit, which is at most sixteen kilobytes;
    its kind is known, its tuple valid with the ports of the record (none cut to
    sixteen bits), its numbers and strings in range. *)
Theorem accepted_line_bounded line source max clock obs :
  ParseLineWithLimit decode_strings Parse line source max clock = Ok obs ->
  observation_ok obs /\ ob_ID obs = EventID source line /\ ob_Source obs = source /\ Z.of_nat (length line) <= MaxDefaultLineBytes /\
  0 < normalized_limit max <= 16384 /\ (forall b, Marshal obs = Some b -> Z.of_nat (length b) <= normalized_limit max) /\
  exists raw, Unmarshal line = Some raw /\ ob_Tuple obs = normalizeTuple raw /\ forall t, ob_Tuple obs = Some t -> ports_exact raw t.
Proof.
  unfold ParseLineWithLimit. destruct (Z.ltb_spec MaxDefaultLineBytes (Z.of_nat (length line))); [done|]. destruct (Unmarshal line) as [raw|] eqn:Er; [|done].
  destruct (negb (isKnownKind _)) eqn:Ek; [done|]. apply negb_false_iff in Ek. destruct (ParseTimestamp Parse _) as [observed|]; [|done].
  set (o0 := observation_of _ _ _ _ _ _ _ _). set (lim := normalized_limit max).
  set (o1 := if oversized lim o0 then shorten o0 else o0). set (o2 := if oversized lim o1 then strip o1 else o1).
  destruct (oversized lim o2) eqn:Eo; [done|]. intros [= <-].
  assert (H0 : observation_ok o0) by by apply observation_of_ok.
  assert (H1 : observation_ok o1) by (unfold o1; destruct (oversized lim o0); [by apply shorten_ok | done]).
  assert (H2 : observation_ok o2) by (unfold o2; destruct (oversized lim o1); [by apply strip_ok | done]).
  assert (Hid : ob_ID o2 = EventID source line /\ ob_Source o2 = source /\ ob_Tuple o2 = normalizeTuple raw).
  { unfold o2, o1. destruct (oversized lim o0); destruct (oversized lim _); done. }
  destruct Hid as (Hid & Hsrc & Htup). split_and!; [done | done | done | lia | | | |].
  - unfold lim, normalized_limit, MaxNormalizedBytes. destruct (Z.leb_spec max 0); [cbn; lia|]. destruct (Z.ltb_spec 16384 max); lia.
  - unfold lim, normalized_limit, MaxNormalizedBytes. destruct (Z.leb_spec max 0); [cbn; lia|]. destruct (Z.ltb_spec 16384 max); lia.
  - intros b Hb. unfold oversized in Eo. rewrite Hb in Eo. by apply Z.ltb_ge in Eo.
  - exists raw. split_and!; [done | done |]. intros t Ht. rewrite Htup in Ht. by apply normalizeTuple_sound.
Qed.
End lines.

(** ** Witnesses *)

Definition pos_a : SourcePosition := mkSourcePosition "suri0" "e1" "" "builtin" InspectionModeIPS "g1" 0 40.

Lemma event_input_injective_witness : position_ok pos_a /\ event_input pos_a [1; 2] = event_input pos_a [1; 2] /\ so_ByteEnd pos_a = 40.
Proof.
  assert (Hp : position_ok pos_a) by (vm_compute; split_and!; reflexivity || discriminate). split_and!; [done | done |].
  destruct (event_input_injective pos_a pos_a [1; 2] [1; 2] Hp Hp eq_refl) as (_ & _ & _ & _ & E & _). exact E.
Defined.

(** Two other records in between, one of them twice, in a table of three. *)
Lemma recent_duplicate_recognised_witness :
  (SeenOrAdd "a" 90 (see_all [("b", 10); ("c", 20); ("b", 30)] (SeenOrAdd "a" 0 (NewDeduper 3 100 90)).1)).2 = true.
Proof.
  apply (recent_duplicate_recognised "a" 0 90 (NewDeduper 3 100 90)); [apply NewDeduper_ok | done | | done | done | vm_compute; reflexivity | vm_compute; discriminate].
  repeat constructor; done.
Defined.

(** A decoder that knows one record. *)
Definition raw_flow : RawEnvelope :=
  mkRawEnvelope "" "flow" [55] [] "10.0.0.1" "10.0.0.2" [50; 50] [52; 52; 51] "tcp" "ssh" "to_server" None None None None [] None None None.

#[local] Instance ex_JE : JSON RawEnvelope := {| Marshal _ := None; Unmarshal b := if bool_decide (b = [123; 125]) then Some raw_flow else None |}.
#[local] Instance ex_JO : JSON Observation := {| Marshal o := Some (str_bytes (ob_ID o)); Unmarshal _ := None |}.
#[local] Instance ex_JS : JSON string := {| Marshal _ := None; Unmarshal _ := None |}.
#[local] Instance ex_JD : JSON RawDNS := {| Marshal _ := None; Unmarshal _ := None |}.
#[local] Instance ex_JP : JSON RawPeer := {| Marshal _ := None; Unmarshal _ := None |}.

Definition no_strings (_ : RawMessage) : list string * bool := ([], false).
Definition no_time (_ _ : string) : option Time := None.

Lemma accepted_line_bounded_witness :
  exists obs, ParseLineWithLimit no_strings no_time [123; 125] pos_a MaxNormalizedBytes 5 = Ok obs /\ observation_ok obs /\ (tp_SrcPort <$> ob_Tuple obs) = Some 22.
Proof.
  assert (E : is_ok (ParseLineWithLimit no_strings no_time [123; 125] pos_a MaxNormalizedBytes 5) = true) by (vm_compute; reflexivity).
  assert (Ep : match ParseLineWithLimit no_strings no_time [123; 125] pos_a MaxNormalizedBytes 5 with Ok o => (tp_SrcPort <$> ob_Tuple o) = Some 22 | Err _ => False end) by (vm_compute; reflexivity).
  destruct (ParseLineWithLimit no_strings no_time [123; 125] pos_a MaxNormalizedBytes 5) as [obs | e] eqn:Eo; [|done]. exists obs. split_and!; [done | | done].
  apply (accepted_line_bounded no_strings no_time [123; 125] pos_a MaxNormalizedBytes 5 obs Eo).
Defined.
