(* ===== verification/InspectionRuntime.v ===== *)
(** * The inspection runtime

    [internal/engine/inspection_runtime.go] and [inspection_identity.go]: the
    goroutines between the sensors and the sessions.  An observation is checked
    for repetition, stored as a threat, resolved to a session and reduced; the
    guard it may ask for is carried out by workers that check the session again
    before and after.  Operations are programs over the shared state, a section
    per lock, channel operation or atomic counter.

    [gate] is the reader-writer lock that keeps activation out.  It is a log of
    the calls, each with the goroutine that made it.  The sensors, the executor
    of guards and the conntrack source are parameters. *)

From S2P Require Import Prelude GoStr Netip Domain Codec Eve Observation SecurityStore Flow SessionStore Config Correlation Connectivity EventRing.
From S2P Require Import Interleave Runtime Reducer.

(** ** Data *)

Record queuedObservation : Type := mkQueuedObservation { qo_value : Observation; qo_bytes : Z }.
Record sessionChange : Type := mkSessionChange { sc_sessionID : string; sc_identity : ConntrackIdentity }.

(** The executor's answer to its [n]-th call: the result, and the error. *)
Definition InspectionIntentExecutor : Type := nat -> InspectionIntent -> EnforcementResult * option string.

Record SourceHealth : Type := mkSourceHealth {
  sh_SensorID : string;
  sh_SensorEnabled : bool;
  sh_SensorEpoch : string;
  sh_ConfigHash : string;
  sh_RulesetID : string;
  sh_Mode : InspectionMode;
  sh_ReaderActive : bool;
  sh_ProcessReachable : bool;
  sh_CaptureLive : bool;
  sh_State : string;
  sh_Reason : string;
  sh_LastRead : option Time;
  sh_LastHeartbeat : option Time;
  sh_Counters : SensorCounters;
  sh_ReaderStats : gmap string Z
}.

(** A source: what [Snapshot] answers, and [CaptureLive] where the source has it. *)
Record EventSource : Type := mkEventSource { es_Snapshot : SourceHealth; es_CaptureLive : option (Time -> bool) }.

Inductive GateCall : Type := RLock | RUnlock | Lock | Unlock.

Record InspectionRuntime : Type := mkInspectionRuntime {
  ix_runtime : Runtime;
  ix_security : SecurityEventStore;
  ix_resolver : Resolver;
  ix_pending : PendingCorrelations;
  ix_deduper : Deduper;
  ix_queue : list queuedObservation;
  ix_queueCap : Z;
  ix_sessionQueue : list sessionChange;
  ix_sessionCap : Z;
  ix_intentQueue : list InspectionIntent;
  ix_intentCap : Z;
  ix_identityQueue : list sessionChange;
  ix_identityCap : Z;
  ix_identityPending : gset string;
  ix_identityRefreshAttempts : Z;
  ix_identityRefreshDrops : Z;
  ix_queueBytes : Z;
  ix_maxQueueBytes : Z;
  ix_recentSessions : Z;
  ix_recentSessionTTL : Duration;
  ix_appTimeout : Duration;
  ix_drops : Z;
  ix_intentDrops : Z;
  ix_sessionDrops : Z;
  ix_processed : Z;
  ix_duplicates : Z;
  ix_stale : Z;
  ix_gate : list (nat * GateCall);
  ix_started : bool;
  ix_executor : option InspectionIntentExecutor;
  ix_executed : list (nat * InspectionIntent); (** the calls of the executor, each with the goroutine *)
  ix_health : gmap string SourceHealth;
  ix_healthVersion : gmap string string
}.

#[global] Instance eta_InspectionRuntime : Eta InspectionRuntime := fun r =>
  mkInspectionRuntime (ix_runtime r) (ix_security r) (ix_resolver r) (ix_pending r) (ix_deduper r) (ix_queue r) (ix_queueCap r) (ix_sessionQueue r)
    (ix_sessionCap r) (ix_intentQueue r) (ix_intentCap r) (ix_identityQueue r) (ix_identityCap r) (ix_identityPending r) (ix_identityRefreshAttempts r)
    (ix_identityRefreshDrops r) (ix_queueBytes r) (ix_maxQueueBytes r) (ix_recentSessions r) (ix_recentSessionTTL r) (ix_appTimeout r) (ix_drops r)
    (ix_intentDrops r) (ix_sessionDrops r) (ix_processed r) (ix_duplicates r) (ix_stale r) (ix_gate r) (ix_started r) (ix_executor r) (ix_executed r)
    (ix_health r) (ix_healthVersion r).

Abbreviation IX := (Prog InspectionRuntime) (only parsing).

#[global] Instance inspection_lookup : SessionLookup InspectionRuntime := fun k t n r => Correlation.ResolveCandidates k t n (Store (ix_runtime r)).
#[global] Instance inspection_resolver : HasResolver InspectionRuntime := {| resolver := ix_resolver; set_resolver v r := r <| ix_resolver := v |> |}.

Definition clamp_low (low v : Z) : Z := if v <? low then low else v.
Definition clamp_high (high v : Z) : Z := if high <? v then high else v.

Definition NewInspectionRuntimeWithScope (runtime : Runtime) (limits : InspectionLimits) (seed : list Z) : InspectionRuntime :=
  let limits := InspectionLimits_WithDefaults limits in
  let queueItems := if il_ObservationQueueItems limits <=? 0 then 4096 else il_ObservationQueueItems limits in
  let maxBytes := if il_ObservationQueueBytes limits <=? 0 then Z.shiftl 8 20 else il_ObservationQueueBytes limits in
  let intentItems := clamp_high 1024 (clamp_low 64 (Z.quot queueItems 4)) in
  let sessionItems := clamp_high 50000 (clamp_low queueItems (Capacity (Store runtime))) in
  mkInspectionRuntime runtime (NewSecurityEventStore (il_SecurityEvents limits) (il_SecurityEventBytes limits) seed) (NewResolver 10000)
    (NewPendingCorrelations (il_CorrelationPending limits) (il_CorrelationWaitMillis limits * Millisecond))
    (NewDeduper 20000 (Z.shiftl 4 20) (10 * Minute)) [] queueItems [] sessionItems [] intentItems [] (clamp_high 128 queueItems) ∅ 0 0 0 maxBytes
    (il_RecentSessions limits) (il_RecentSessionTTLSeconds limits * Second) (il_AppDetectionTimeoutMillis limits * Millisecond)
    0 0 0 0 0 0 [] false None [] ∅ ∅.

(** ** Small sections *)

Definition on_runtime {A} (p : Prog Runtime A) : IX A := lift ix_runtime (fun v r => r <| ix_runtime := v |>) p.

Definition count_stale : IX unit := modify (fun r => r <| ix_stale ::= inc64 |>).

Definition gate_call (me : nat) (c : GateCall) : IX unit := modify (fun r => r <| ix_gate ::= fun l => l ++ [(me, c)] |>).

(** [defer r.gate.RUnlock()]. *)
Definition holding_gate {A} (me : nat) (body : IX A) : IX A :=
  _ ← gate_call me RLock;
  a ← body;
  _ ← gate_call me RUnlock;
  mret a.

Definition BeginActivation (me : nat) : IX unit := gate_call me Lock.
Definition EndActivation (me : nat) : IX unit := gate_call me Unlock.

Definition SetExecutor (e : option InspectionIntentExecutor) : IX unit := modify (fun r => r <| ix_executor := e |>).

Definition call_executor (me : nat) (e : InspectionIntentExecutor) (intent : InspectionIntent) : IX (EnforcementResult * option string) :=
  atomic (fun r => (r <| ix_executed ::= fun l => l ++ [(me, intent)] |>, e (length (ix_executed r)) intent)).

(** A send that does not wait: whether there was room. *)
Definition enqueueIntent_try (intent : InspectionIntent) : IX bool :=
  atomic (fun r => if Z.of_nat (length (ix_intentQueue r)) <? ix_intentCap r then (r <| ix_intentQueue ::= fun q => q ++ [intent] |>, true) else (r, false)).

Definition enqueueIntent (intent : InspectionIntent) : IX unit :=
  sent ← enqueueIntent_try intent;
  if sent : bool then mret tt else modify (fun r => r <| ix_intentDrops ::= inc64 |>).

Definition get_session (id : string) : IX (option RuntimeSession) := peek (fun r => Get (Store (ix_runtime r)) id).

Definition sameRuntimeIdentity (a b : ConntrackIdentity) : bool :=
  bool_decide (ci_BootID a = ci_BootID b) && bool_decide (ci_NetworkNS a = ci_NetworkNS b) && (ci_Zone a =? ci_Zone b) && (ci_Family a =? ci_Family b) &&
  (ci_ID a =? ci_ID b) && (ci_KernelStart a =? ci_KernelStart b) && bool_decide (ci_Original a = ci_Original b).

Definition state_changed (id : string) (generation : Z) (updated : RuntimeSession) (reason : string) : RuntimeEvent :=
  mkRuntimeEvent 0 0 "InspectionStateChanged" "inspection" id time_zero generation (rs_Revision updated) reason 0 "" (inspection_revision updated).

(** ** Completing an intent *)

Definition completeIntent (me : nat) (intent : InspectionIntent) (res : EnforcementResult) : IX unit :=
  holding_gate me (
    got ← get_session (ii_SessionID intent);
    generation ← on_runtime CurrentGeneration;
    match got with
    | None => mret tt
    | Some current =>
        if negb (sameRuntimeIdentity (rs_Identity current) (ii_Identity intent)) || negb (generation =? ii_Generation intent) ||
           bool_decide (rs_Inspection current = None) then mret tt
        else
          done ← on_runtime (store_op (fun s _ => CompleteInspectionIntent s intent res));
          match done with
          | Err _ => mret tt
          | Ok updated =>
              _ ← (if bool_decide (er_Status res = EnforcementApplied) && negb (bool_decide (ii_Kind intent = IntentRenewAppGuard)) then
                     let removing := bool_decide (ii_Kind intent = IntentRemoveAppGuard) in
                     let reason := if removing then "application policy guard removed" else "application policy guard applied" in
                     invalidated ← on_runtime (store_op (fun s clock => Invalidate s (rs_SessionID current) (ii_Generation intent) reason clock));
                     match invalidated with
                     | Ok v => if removing && negb (bool_decide (rs_SessionID v = "")) then on_runtime (evaluateObserved v) else mret tt
                     | Err _ => mret tt
                     end
                   else mret tt);
              on_runtime (publish (state_changed (rs_SessionID current) (ii_Generation intent) updated (er_Reason res)))
          end
    end).

Definition unavailable (intent : InspectionIntent) (reason : string) : EnforcementResult :=
  mkEnforcementResult EnforcementNFTSessionGuard EnforcementScopeSession (ii_RequestedAction intent) EnforcementUnavailable reason None (ii_OperationID intent).

Definition installs (intent : InspectionIntent) : bool :=
  bool_decide (ii_Kind intent = IntentInstallAppGuard) || bool_decide (ii_Kind intent = IntentRenewAppGuard).

(** [answer] is what [Source.Get] says about the identity; [None] when there is no
    source. *)
Definition verifyKernelIdentity (answer : option (result SourceError ConntrackRecord)) : option string :=
  match answer with
  | None => Some "conntrack source unavailable"
  | Some (Err e) => Some (SourceError_message e)
  | Some (Ok _) => None
  end.

Definition stale_cleanup (intent : InspectionIntent) : InspectionIntent :=
  mkInspectionIntent IntentRemoveAppGuard (ii_OperationID intent +:+ "-stale-cleanup") (ii_SessionID intent) (ii_Identity intent) (ii_Generation intent)
    (ii_ExpectedInspectionRevision intent) DecisionAllow (ii_Owner intent) (ii_Reason intent).

(** What the first gated part decides. *)
Inductive IntentOutcome : Type :=
| IntentStale
| IntentUnverified (message : string)
| IntentDone (closedCleanup : bool) (res : EnforcementResult).

Definition unfit (intent : InspectionIntent) (current : RuntimeSession) : bool :=
  installs intent &&
  match rs_Inspection current with
  | Some i => negb (bool_decide (si_Mode i = InspectionModeIPS)) || negb (bool_decide (si_AppPolicyState i = AppPolicyMismatch))
  | None => true
  end.

Definition executor_result (answer : EnforcementResult * option string) : EnforcementResult :=
  let '(applied, err) := answer in
  match err with
  | Some m => if bool_decide (er_Reason applied = "") then applied <| er_Reason := m |> <| er_Status := EnforcementFailed |> else applied
  | None => applied
  end.

Definition carry_out (me : nat) (intent : InspectionIntent) (closedCleanup : bool) : IX IntentOutcome :=
  executor ← peek ix_executor;
  res ← match executor with
        | Some e =>
            answer ← call_executor me e intent;
            mret (executor_result answer)
        | None => mret (unavailable intent "inspection enforcement adapter unavailable")
        end;
  after ← get_session (ii_SessionID intent);
  generation ← on_runtime CurrentGeneration;
  let valid := closedCleanup || match after with Some v => MatchesSession intent v generation | None => false end in
  if valid : bool then mret (IntentDone closedCleanup res)
  else
    _ ← match executor with
        | Some e => if bool_decide (er_Status res = EnforcementApplied) && installs intent then _ ← call_executor me e (stale_cleanup intent); mret tt else mret tt
        | None => mret tt
        end;
    mret IntentStale.

Definition executeIntent (me : nat) (answer : option (result SourceError ConntrackRecord)) (intent : InspectionIntent) : IX unit :=
  outcome ← holding_gate me (
    got ← get_session (ii_SessionID intent);
    match got with
    | None =>
        if negb (bool_decide (ii_Kind intent = IntentRemoveAppGuard)) then mret IntentStale
        else
          owned ← peek (fun r => HasActiveKernelKey (Store (ix_runtime r)) (ii_Identity intent));
          if owned : bool then mret IntentStale else carry_out me intent true
    | Some current =>
        generation ← on_runtime CurrentGeneration;
        if negb (MatchesSession intent current generation) || unfit intent current then mret IntentStale
        else if installs intent then
          match verifyKernelIdentity answer with
          | Some message => mret (IntentUnverified message)
          | None => carry_out me intent false
          end
        else carry_out me intent false
    end);
  match outcome with
  | IntentStale => count_stale
  | IntentUnverified message => completeIntent me intent (unavailable intent ("conntrack identity unavailable: " +:+ message))
  | IntentDone true _ => mret tt
  | IntentDone false res => completeIntent me intent res
  end.

(** ** Observations *)

Section observations.
Context {JO : JSON Observation} {JT : JSON ThreatEvent}.
(** The scope of the resolver, and the binding Go's iteration yields first. *)
Context (scope : Scope) (first : gmap BindingKey binding -> option BindingKey).

(** The compare-and-swap loop ends with one successful addition or with a refusal: one
    section. *)
Definition TrySubmit (obs : Observation) : IX bool :=
  let size := match Marshal obs with Some b => Z.of_nat (length b) | None => 0 end in
  let size := if size <=? 0 then 1 else size in
  reserved ← atomic (fun r => if ix_maxQueueBytes r <? ix_queueBytes r + size then (r <| ix_drops ::= inc64 |>, false)
                              else (r <| ix_queueBytes ::= Z.add size |>, true));
  if negb reserved then mret false
  else
    sent ← atomic (fun r => if Z.of_nat (length (ix_queue r)) <? ix_queueCap r
                            then (r <| ix_queue ::= fun q => q ++ [mkQueuedObservation obs size] |>, true) else (r, false));
    if sent : bool then mret true
    else
      _ ← modify (fun r => r <| ix_queueBytes ::= fun b => b - size |>);
      _ ← modify (fun r => r <| ix_drops ::= inc64 |>);
      mret false.

Definition enqueueIdentityRefresh (candidate : RuntimeSession) : IX unit :=
  if (ci_ID (rs_Identity candidate) =? 0) || negb (ci_KernelStart (rs_Identity candidate) =? 0) then mret tt
  else
    modify (fun r =>
      if bool_decide (rs_SessionID candidate ∈ ix_identityPending r) then r
      else if Z.of_nat (length (ix_identityQueue r)) <? ix_identityCap r
      then r <| ix_identityQueue ::= fun q => q ++ [mkSessionChange (rs_SessionID candidate) (rs_Identity candidate)] |>
             <| ix_identityPending ::= fun m => {[rs_SessionID candidate]} ∪ m |>
      else r <| ix_identityRefreshDrops ::= inc64 |>).

Definition security_op {A} (op : SecurityEventStore -> Time -> SecurityEventStore * A) : IX A :=
  atomic (fun r => let '(s, a) := op (ix_security r) (clock (ix_runtime r)) in (r <| ix_security := s |>, a)).

(** An alert that is not the sensor's own diagnostics. *)
Definition physical_alert (obs : Observation) : bool :=
  match ob_Alert obs with Some a => negb (al_InternalDiscovery a) | None => false end.

Definition uncorrelated_threat (obs : Observation) : ThreatEvent :=
  (ThreatFromObservation obs "" (mkInspectionSelection "" "" (so_Mode (ob_Source obs)) "" [] 0 0))
    <| te_CorrelationState := CorrelationUncorrelated |> <| te_CorrelationReason := "correlation pending" |>.

(** Whether the alert is in the store, and whether it is still to be counted. *)
Definition store_alert (obs : Observation) : IX (bool * bool) :=
  if negb (physical_alert obs) then mret (false, false)
  else
    out ← security_op (fun s now => SecurityStore.Add s now (uncorrelated_threat obs));
    match out with
    | Err _ => mret (false, false)
    | Ok (stored, added) =>
        _ ← (if added : bool
             then on_runtime (publish (mkRuntimeEvent 0 0 "SecurityAlert" "security" (te_SessionID stored) (te_IngestedAt stored) 0 0 "" 0 (te_EventID stored) 0))
             else mret tt);
        mret (true, added || bool_decide (te_SessionID stored = ""))
    end.

(** The stored alert follows the resolution. *)
Definition correlate_alert (obs : Observation) (stored : bool) (sessionID policyID : string) (generation : Z) (state : CorrelationState) (reason : string) : IX unit :=
  if bool_decide (ob_Alert obs = None) || negb stored then mret tt
  else
    before ← peek (fun r => SecurityStore.Get (ix_security r) (ob_ID obs));
    out ← security_op (fun s _ => UpdateCorrelation s (ob_ID obs) sessionID policyID generation state reason);
    match out with
    | Err _ => mret tt
    | Ok updated =>
        if te_CorrelationRevision updated =? default 0 (te_CorrelationRevision <$> before) then mret tt
        else
          now ← on_runtime Now;
          on_runtime (publish (mkRuntimeEvent 0 0 "SecurityEventUpdated" "security" (te_SessionID updated) now generation 0 reason 0 (te_EventID updated) 0))
    end.

Definition publish_notification (updated : RuntimeSession) (n : RuntimeEvent) : IX unit :=
  if bool_decide (re_Kind n = "SecurityAlert") then mret tt
  else on_runtime (publish (n <| re_Revision := rs_Revision updated |> <| re_InspectionRevision := inspection_revision updated |>)).

(** [stop] says for each intent, by how many are left after it, whether the select took
    the case of the finished context. *)
Fixpoint send_intents (me : nat) (stop : nat -> bool) (intents : list InspectionIntent) : IX unit :=
  match intents with
  | [] => mret tt
  | intent :: rest =>
      if stop (length rest) then mret tt
      else
        sent ← enqueueIntent_try intent;
        _ ← (if sent : bool then mret tt
             else
               _ ← modify (fun r => r <| ix_intentDrops ::= inc64 |>);
               completeIntent me intent (unavailable intent "inspection enforcement queue full"));
        send_intents me stop rest
  end.

Definition without_alert (attachThreat : bool) (obs : Observation) : Observation :=
  if physical_alert obs && negb attachThreat then obs <| ob_Alert := None |> else obs.

(** The body of the attempts; [again] is the next one. *)
Definition reduce_once (me : nat) (stop : nat -> bool) (again : IX unit) (obs : Observation) (attachThreat : bool) (id : string) (selection : InspectionSelection) : IX unit :=
  got ← get_session id;
  match got with
  | None => mret tt
  | Some current =>
      now ← on_runtime Now;
      let reduction := ReduceInspection current selection (without_alert attachThreat obs) now now in
      out ← on_runtime (store_op (fun s _ => UpdateInspection s (rs_SessionID current) (rs_Identity current) (is_Generation selection)
                                               (inspection_revision current) (ir_Next reduction)));
      match out with
      | Err ErrStaleInspection => again
      | Err _ => mret tt
      | Ok updated =>
          _ ← for_each (ir_Notifications reduction) (publish_notification updated);
          send_intents me stop (ir_Intents reduction)
      end
  end.

Fixpoint reduce_attempts (n : nat) (me : nat) (stop : nat -> bool) (obs : Observation) (attachThreat : bool) (id : string) (selection : InspectionSelection) : IX unit :=
  match n with
  | O => count_stale
  | S n => reduce_once me stop (reduce_attempts n me stop obs attachThreat id selection) obs attachThreat id selection
  end.

Definition reduce_observation (me : nat) (stop : nat -> bool) (obs : Observation) (attachThreat : bool) (value : RuntimeSession) : IX unit :=
  holding_gate me (
    p ← on_runtime CurrentProgram;
    let selection := SelectInspection p (session_view value) in
    generation ← on_runtime CurrentGeneration;
    if negb (is_Generation selection =? generation) then count_stale
    else reduce_attempts 3 me stop obs attachThreat (rs_SessionID value) selection).

Definition handleObservation (me : nat) (stop : nat -> bool) (obs : Observation) (pendingRetry : bool) : IX unit :=
  seen ← (if pendingRetry then mret false
          else atomic (fun r => let '(d, dup) := SeenOrAdd (ob_ID obs) (clock (ix_runtime r)) (ix_deduper r) in (r <| ix_deduper := d |>, dup)));
  if seen : bool then modify (fun r => r <| ix_duplicates ::= inc64 |>)
  else
    _ ← modify (fun r => r <| ix_processed ::= inc64 |>);
    alert ← store_alert obs;
    let '(stored, attachThreat) := alert in
    resolution ← Resolve first scope obs;
    match rn_State resolution, rn_Session resolution with
    | CorrelationCorrelated, Some value =>
        _ ← modify (fun r => r <| ix_pending ::= pending_Remove (ob_ID obs) |>);
        _ ← correlate_alert obs stored (rs_SessionID value) (rs_MatchedPolicyID value) (rs_PolicyGeneration value) CorrelationCorrelated (rn_Reason resolution);
        if rn_Recent resolution then mret tt else reduce_observation me stop obs attachThreat value
    | state, _ =>
        _ ← (if bool_decide (state = CorrelationUncorrelated)
             then match rn_RefreshCandidate resolution with Some c => enqueueIdentityRefresh c | None => mret tt end else mret tt);
        _ ← correlate_alert obs stored "" "" 0 state (rn_Reason resolution);
        if bool_decide (state = CorrelationUncorrelated)
        then modify (fun r => r <| ix_pending ::= fun p => (pending_Add obs (clock (ix_runtime r)) p).1 |>)
        else mret tt
    end.

Definition HandleObservation (me : nat) (stop : nat -> bool) (obs : Observation) : IX unit := handleObservation me stop obs false.

(** [order] is the order in which Go visits the waiting table. *)
Definition retryPending (me : nat) (stop : nat -> bool) (now : Time) (order : gmap string pendingEntry -> list string) : IX unit :=
  due ← atomic (fun r => let '(p, (due, _)) := RetryDue now 128 (order (pc_items (ix_pending r))) (ix_pending r) in (r <| ix_pending := p |>, due));
  for_each due (fun obs => handleObservation me stop obs true).

(** ** Changed and closed sessions *)

Definition OnSessionChanged (value : RuntimeSession) : IX unit :=
  if bool_decide (rs_SessionID value = "") then mret tt
  else modify (fun r => if Z.of_nat (length (ix_sessionQueue r)) <? ix_sessionCap r
                        then r <| ix_sessionQueue ::= fun q => q ++ [mkSessionChange (rs_SessionID value) (rs_Identity value)] |>
                        else r <| ix_sessionDrops ::= inc64 |>).

(** The inspection state of a session under a new selection: the next state, and
    whether a guard is to be removed or installed. *)
Definition reselected (selection : InspectionSelection) (current : RuntimeSession) (now : Time) (appTimeout : Duration) : SessionInspection * bool * bool :=
  let previous := rs_Inspection current in
  let guarded := match previous with
                 | Some i => guard_status (si_Enforcement i) EnforcementApplied && bool_decide (er_RequestedAction (si_Enforcement i) = DecisionDrop)
                 | None => false
                 end in
  let next := DefaultSessionInspection in
  let next := match previous with Some i => next <| si_Application := si_Application i |> | None => next end in
  let next := next <| si_Generation := is_Generation selection |> <| si_ProfileID := is_ProfileID selection |> <| si_Mode := is_Mode selection |> in
  if bool_decide (is_Mode selection = InspectionModeOff) then
    (next <| si_State := InspectionStateNotRequested |> <| si_Coverage := CoverageNone |> <| si_AppPolicyState := AppPolicyNotApplicable |>
          <| si_Reason := "policy does not select inspection" |>, guarded, false)
  else
    let next := next <| si_State := InspectionStateQueued |> <| si_Coverage := CoverageNone |> in
    if bool_decide (is_AllowedApps selection = []) then
      (next <| si_AppPolicyState := AppPolicyNotApplicable |> <| si_Reason := "policy has no application restriction" |>, guarded, false)
    else
      let deadline := Some (now + appTimeout) in
      let '(state, reason) := EvaluateAppRestriction selection (si_Application next) deadline now in
      let next := next <| si_AppDeadline := deadline |> <| si_AppPolicyState := state |> <| si_Reason := reason |> in
      if bool_decide (state = AppPolicyMismatch) && bool_decide (is_Mode selection = InspectionModeIPS) && strongApplication (si_Application next)
      then (next, false, match previous with Some i => negb (guard_status (si_Enforcement i) EnforcementApplied) | None => true end)
      else (next, guarded, false).

Definition guard_reason : string := "known application is outside policy allowlist".

Definition pending_install (current : RuntimeSession) : EnforcementResult :=
  mkEnforcementResult EnforcementNFTSessionGuard EnforcementScopeSession DecisionDrop EnforcementPending guard_reason None
    ("app-guard-install-" +:+ rs_SessionID current +:+ "-" +:+ itoa (u64 (inspection_revision current + 1))).

Definition change_intent (kind : InspectionIntentKind) (operation : string) (current : RuntimeSession) (generation revision : Z) (action : Decision) (reason : string)
  : InspectionIntent :=
  mkInspectionIntent kind operation (rs_SessionID current) (rs_Identity current) generation revision action "APP_POLICY" reason.

(** The inspection already follows the selection. *)
Definition follows (selection : InspectionSelection) (current : RuntimeSession) : bool :=
  match rs_Inspection current with
  | Some i => (si_Generation i =? is_Generation selection) && bool_decide (si_Mode i = is_Mode selection) && bool_decide (si_ProfileID i = is_ProfileID selection)
  | None => false
  end.

Definition apply_selection (selection : InspectionSelection) (current : RuntimeSession) : IX unit :=
  now ← on_runtime Now;
  timeout ← peek ix_appTimeout;
  let '(next, removeGuard, installGuard) := reselected selection current now timeout in
  let next := if installGuard : bool then next <| si_Enforcement := pending_install current |> else next in
  out ← on_runtime (store_op (fun s _ => UpdateInspection s (rs_SessionID current) (rs_Identity current) (is_Generation selection) (inspection_revision current) next));
  match out with
  | Err _ => mret tt
  | Ok updated =>
      _ ← on_runtime (publish (state_changed (rs_SessionID updated) (is_Generation selection) updated (si_Reason next)));
      let revision := inspection_revision updated in
      _ ← (if removeGuard : bool
           then enqueueIntent (change_intent IntentRemoveAppGuard ("app-guard-remove-" +:+ rs_SessionID current +:+ "-" +:+ itoa revision) current
                                 (is_Generation selection) revision DecisionAllow "application restriction no longer applies")
           else mret tt);
      if installGuard : bool
      then enqueueIntent (change_intent IntentInstallAppGuard (er_OperationID (pending_install current)) current (is_Generation selection) revision DecisionDrop guard_reason)
      else mret tt
  end.

Definition handleSessionChanged (me : nat) (change : sessionChange) : IX unit :=
  if bool_decide (sc_sessionID change = "") then mret tt
  else
    holding_gate me (
      got ← get_session (sc_sessionID change);
      match got with
      | None => mret tt
      | Some value =>
          if negb (sameRuntimeIdentity (rs_Identity value) (sc_identity change)) then mret tt
          else
            p ← on_runtime CurrentProgram;
            let selection := SelectInspection p (session_view value) in
            generation ← on_runtime CurrentGeneration;
            if negb (is_Generation selection =? generation) then mret tt
            else
              got ← get_session (rs_SessionID value);
              match got with
              | None => mret tt
              | Some current =>
                  if negb (sameRuntimeIdentity (rs_Identity current) (rs_Identity value)) || follows selection current then mret tt
                  else apply_selection selection current
              end
      end).

Definition OnSessionClosed (value : RuntimeSession) : IX unit :=
  match rs_Inspection value with
  | Some i =>
      if negb (guard_status (si_Enforcement i) EnforcementApplied) then mret tt
      else
        generation ← on_runtime CurrentGeneration;
        enqueueIntent (change_intent IntentRemoveAppGuard ("app-guard-close-" +:+ rs_SessionID value) value generation (si_Revision i) DecisionAllow "session closed")
  | None => mret tt
  end.

(** ** Sweeps *)

Definition deadline_passed (now : Time) (v : RuntimeSession) : option SessionInspection :=
  match rs_Inspection v with
  | Some i =>
      match si_AppDeadline i with
      | Some d => if bool_decide (si_AppPolicyState i = AppPolicyPending) && negb (Before now d) then Some i else None
      | None => None
      end
  | None => None
  end.

Definition expire_session (current : RuntimeSession) (i : SessionInspection) : IX unit :=
  let next := i <| si_AppPolicyState := AppPolicyUnknownAllowed |> <| si_Reason := "application detection timeout; fail-open" |> in
  out ← on_runtime (store_op (fun s _ => UpdateInspection s (rs_SessionID current) (rs_Identity current) (si_Generation i) (si_Revision i) next));
  match out with
  | Ok updated => on_runtime (publish (state_changed (rs_SessionID updated) (si_Generation next) updated (si_Reason next)))
  | Err _ => mret tt
  end.

Fixpoint sweep_list (now : Time) (budget : nat) (l : list RuntimeSession) : IX unit :=
  match l, budget with
  | [], _ | _, O => mret tt
  | v :: rest, S n =>
      match deadline_passed now v with
      | Some i => _ ← expire_session v i; sweep_list now n rest
      | None => sweep_list now budget rest
      end
  end.

Definition sweepAppDeadlines (now : Time) (budget : nat) : IX unit :=
  if Nat.eqb budget 0 then mret tt else l ← peek (fun r => List_ (Store (ix_runtime r))); sweep_list now budget l.

(** A guard in force that the current policy still wants. *)
Definition renewable (generation : Z) (v : RuntimeSession) : option SessionInspection :=
  match rs_Inspection v with
  | Some i =>
      if (si_Generation i =? generation) && bool_decide (si_Mode i = InspectionModeIPS) && bool_decide (si_AppPolicyState i = AppPolicyMismatch) &&
         strongApplication (si_Application i) && guard_status (si_Enforcement i) EnforcementApplied then Some i else None
  | None => None
  end.

(** [now.Unix()]. *)
Definition unix_seconds (now : Time) : Z := now / Second - 62135596800.

Fixpoint renew_list (now : Time) (generation : Z) (budget : nat) (l : list RuntimeSession) : IX unit :=
  match l, budget with
  | [], _ | _, O => mret tt
  | v :: rest, S n =>
      match renewable generation v with
      | Some i =>
          _ ← enqueueIntent (change_intent IntentRenewAppGuard ("app-guard-renew-" +:+ rs_SessionID v +:+ "-" +:+ itoa (unix_seconds now)) v generation
                               (si_Revision i) DecisionDrop "renew active application policy guard");
          renew_list now generation n rest
      | None => renew_list now generation budget rest
      end
  end.

Definition renewAppGuards (now : Time) (budget : nat) : IX unit :=
  if Nat.eqb budget 0 then mret tt
  else
    generation ← on_runtime CurrentGeneration;
    l ← peek (fun r => List_ (Store (ix_runtime r)));
    renew_list now generation budget l.

(** ** Sensors *)

(** A source that ended with an error is reported unavailable. *)
Definition ended_health (snapshot : SourceHealth) (err : option string) : SourceHealth :=
  match err with
  | Some m => mkSourceHealth (sh_SensorID snapshot) (sh_SensorEnabled snapshot) (sh_SensorEpoch snapshot) (sh_ConfigHash snapshot) (sh_RulesetID snapshot)
                (sh_Mode snapshot) (sh_ReaderActive snapshot) (sh_ProcessReachable snapshot) (sh_CaptureLive snapshot) "UNAVAILABLE" m
                (sh_LastRead snapshot) (sh_LastHeartbeat snapshot) (sh_Counters snapshot) (sh_ReaderStats snapshot)
  | None => snapshot
  end.

Definition source_ended (snapshot : SourceHealth) (err : option string) : IX unit :=
  modify (fun r => r <| ix_health ::= <[sh_SensorID snapshot := ended_health snapshot err]> |>).

(** What was recorded when a source ended, overridden by what the sources answer now. *)
Definition Health (sources : list EventSource) : IX (gmap string SourceHealth) :=
  peek (fun r => foldl (fun m s => <[sh_SensorID (es_Snapshot s) := es_Snapshot s]> m) (ix_health r) sources).

Definition InspectionMode_text (m : InspectionMode) : string :=
  match m with InspectionModeOff => "OFF" | InspectionModeIDS => "IDS" | InspectionModeIPS => "IPS" | InspectionModeOther s => s end.

Definition bool_text (b : bool) : string := if b then "true" else "false".

Definition fingerprint (h : SourceHealth) : string :=
  strings_Join "|" [bool_text (sh_SensorEnabled h); InspectionMode_text (sh_Mode h); sh_State h; bool_text (sh_ReaderActive h);
                    bool_text (sh_ProcessReachable h); bool_text (sh_CaptureLive h); sh_SensorEpoch h; sh_Reason h].

(** [health] in the order Go visits the map. *)
Definition publishHealthChanges (now : Time) (health : list (string * SourceHealth)) : IX unit :=
  for_each health (fun '(id, source) =>
    changed ← atomic (fun r => if bool_decide (ix_healthVersion r !! id = Some (fingerprint source)) then (r, false)
                               else (r <| ix_healthVersion ::= <[id := fingerprint source]> |>, true));
    if changed : bool then
      generation ← on_runtime CurrentGeneration;
      on_runtime (publish (mkRuntimeEvent 0 0 "InspectionHealthChanged" "inspection" "" now generation 0 (id +:+ ": " +:+ sh_State source) 0 "" 0))
    else mret tt).

Definition CaptureLive (sources : list EventSource) (sensorID : string) (now : Time) : bool :=
  match List.find (fun s => bool_decide (sh_SensorID (es_Snapshot s) = sensorID)) sources with
  | Some s => match es_CaptureLive s with Some live => live now | None => false end
  | None => false
  end.

Definition HasSource (sources : list EventSource) (sensorID : string) : bool :=
  existsb (fun s => bool_decide (sh_SensorID (es_Snapshot s) = sensorID)) sources.

Definition maxInt64 (a b : Z) : Z := if a <? b then b else a.

Definition add_stat (m : gmap string Z) (e : string * Z) : gmap string Z := <[e.1 := u64 (default 0 (m !! e.1) + e.2)]> m.

Definition Stats (health : list SourceHealth) (r : InspectionRuntime) : gmap string Z :=
  let own : list (string * Z) :=
    [("processed", ix_processed r); ("duplicates", ix_duplicates r); ("observation_drops", ix_drops r); ("session_signal_drops", ix_sessionDrops r);
     ("enforcement_drops", ix_intentDrops r); ("stale_updates", ix_stale r); ("queue_bytes", maxInt64 0 (ix_queueBytes r));
     ("queue_items", Z.of_nat (length (ix_queue r))); ("session_queue_items", Z.of_nat (length (ix_sessionQueue r)));
     ("enforcement_queue_items", Z.of_nat (length (ix_intentQueue r))); ("identity_refresh_attempts", ix_identityRefreshAttempts r);
     ("identity_refresh_drops", ix_identityRefreshDrops r); ("identity_refresh_queue_items", Z.of_nat (length (ix_identityQueue r)));
     ("recent_session_evictions", stat_HistoryEvictions (stats (Store (ix_runtime r))));
     ("recent_session_expired", stat_HistoryExpired (stats (Store (ix_runtime r))))] in
  foldl (fun m h => foldl add_stat m (map_to_list (sh_ReaderStats h))) (list_to_map own) health.

(** ** Goroutines *)

Definition Start : IX bool := atomic (fun r => if ix_started r then (r, false) else (r <| ix_started := true |>, true)).
Definition Stop : IX unit := modify (fun r => r <| ix_started := false |>).

(** What the select of [loop] received. *)
Inductive LoopEvent : Type :=
| FromQueue
| FromSessions
| RetryTick (now : Time) (order : gmap string pendingEntry -> list string)
| DeadlineTick (now : Time) (sources : list EventSource) (order : gmap string SourceHealth -> list (string * SourceHealth))
| RenewTick (now : Time).

Definition loop_step (me : nat) (stop : nat -> bool) (e : LoopEvent) : IX unit :=
  match e with
  | FromQueue =>
      item ← atomic (fun r => match ix_queue r with
                              | item :: rest => (r <| ix_queue := rest |> <| ix_queueBytes ::= fun b => b - qo_bytes item |>, Some item)
                              | [] => (r, None)
                              end);
      match item with Some i => HandleObservation me stop (qo_value i) | None => mret tt end
  | FromSessions =>
      change ← atomic (fun r => match ix_sessionQueue r with c :: rest => (r <| ix_sessionQueue := rest |>, Some c) | [] => (r, None) end);
      match change with Some c => handleSessionChanged me c | None => mret tt end
  | RetryTick now order => retryPending me stop now order
  | DeadlineTick now sources order => _ ← sweepAppDeadlines now 512; health ← Health sources; publishHealthChanges now (order health)
  | RenewTick now => renewAppGuards now 512
  end.

(** One round of [intentWorker]. *)
Definition intentWorker_step (me : nat) (answer : option (result SourceError ConntrackRecord)) : IX unit :=
  intent ← atomic (fun r => match ix_intentQueue r with i :: rest => (r <| ix_intentQueue := rest |>, Some i) | [] => (r, None) end);
  match intent with Some i => executeIntent me answer i | None => mret tt end.

(** One round of [identityRefreshWorker]; [answer] and [ctxDone] are what the kernel
    source and the context of the refresh answer. *)
Definition identityRefreshWorker_step (haveSource : bool) (answer : result SourceError ConntrackRecord) (ctxDone : bool) : IX unit :=
  request ← atomic (fun r => match ix_identityQueue r with c :: rest => (r <| ix_identityQueue := rest |>, Some c) | [] => (r, None) end);
  match request with
  | None => mret tt
  | Some c =>
      got ← get_session (sc_sessionID c);
      _ ← match got with
          | Some current =>
              if bool_decide (rs_Identity current = sc_identity c) && (ci_KernelStart (rs_Identity current) =? 0)
              then _ ← modify (fun r => r <| ix_identityRefreshAttempts ::= inc64 |>);
                   on_runtime (RefreshSessionCounters haveSource current answer ctxDone)
              else mret tt
          | None => mret tt
          end;
      modify (fun r => r <| ix_identityPending ::= fun m => m ∖ {[sc_sessionID c]} |>)
  end.
End observations.
