(* ===== verification/GateLock.v ===== *)
(** * The gate as a reader-writer lock

    [sync.RWMutex] as the inspection runtime uses it: a writer that waits keeps
    new readers out.  Goroutines are the sequences of their calls.  Sections
    that do not nest always make progress; a reader that locks again inside its
    section can stop together with an activation. *)

From S2P Require Import Prelude GoStr Netip Domain Codec Eve Observation SecurityStore Flow SessionStore Config Correlation Connectivity EventRing.
From S2P Require Import Interleave Runtime Reducer InspectionRuntime.

(** ** The lock *)

Record RWMutex : Type := mkRWMutex {
  rw_readers : list nat;
  rw_writer : option nat;
  rw_waiting : list nat
}.

Definition free_mutex : RWMutex := mkRWMutex [] None [].

(** A goroutine: what it still has to call, and whether it waits inside [Lock]. *)
Record thread : Type := mkThread { th_id : nat; th_calls : list GateCall; th_waits : bool }.

Fixpoint remove_one (i : nat) (l : list nat) : list nat :=
  match l with
  | [] => []
  | j :: l => if bool_decide (j = i) then l else j :: remove_one i l
  end.

(** One call, or the first half of [Lock]. *)
Inductive call_step (m : RWMutex) : thread -> RWMutex -> thread -> Prop :=
| step_RLock i rest : rw_writer m = None -> rw_waiting m = [] ->
    call_step m (mkThread i (RLock :: rest) false) (mkRWMutex (i :: rw_readers m) None []) (mkThread i rest false)
| step_RUnlock i rest : i ∈ rw_readers m ->
    call_step m (mkThread i (RUnlock :: rest) false) (mkRWMutex (remove_one i (rw_readers m)) (rw_writer m) (rw_waiting m)) (mkThread i rest false)
| step_announce i rest :
    call_step m (mkThread i (Lock :: rest) false) (mkRWMutex (rw_readers m) (rw_writer m) (i :: rw_waiting m)) (mkThread i (Lock :: rest) true)
| step_acquire i rest : rw_readers m = [] -> rw_writer m = None -> i ∈ rw_waiting m ->
    call_step m (mkThread i (Lock :: rest) true) (mkRWMutex [] (Some i) (remove_one i (rw_waiting m))) (mkThread i rest false)
| step_Unlock i rest : rw_writer m = Some i ->
    call_step m (mkThread i (Unlock :: rest) false) (mkRWMutex (rw_readers m) None (rw_waiting m)) (mkThread i rest false).

Inductive lock_step : RWMutex * list thread -> RWMutex * list thread -> Prop :=
| lock_thread m before t after m' t' : call_step m t m' t' -> lock_step (m, before ++ t :: after) (m', before ++ t' :: after).

Definition finished (c : RWMutex * list thread) : Prop := Forall (fun t => th_calls t = []) c.2.
Definition stuck (c : RWMutex * list thread) : Prop := ~ finished c /\ forall c', ~ lock_step c c'.

(** ** Sections that do not nest *)

Inductive flat : list GateCall -> Prop :=
| flat_nil : flat []
| flat_read rest : flat rest -> flat (RLock :: RUnlock :: rest)
| flat_write rest : flat rest -> flat (Lock :: Unlock :: rest).

(** Outside a section, waiting, or inside one. *)
Inductive placed (m : RWMutex) (t : thread) : Prop :=
| outside : flat (th_calls t) -> th_waits t = false -> placed m t
| waiting : flat (th_calls t) -> th_waits t = true -> hd_error (th_calls t) = Some Lock -> th_id t ∈ rw_waiting m -> placed m t
| reading rest : th_calls t = RUnlock :: rest -> flat rest -> th_waits t = false -> th_id t ∈ rw_readers m -> placed m t
| writing rest : th_calls t = Unlock :: rest -> flat rest -> th_waits t = false -> rw_writer m = Some (th_id t) -> placed m t.

(** The lock is held and awaited by the threads that say so, and by no other. *)
Definition accounted (m : RWMutex) (ts : list thread) : Prop :=
  (forall i, i ∈ rw_readers m -> exists t, t ∈ ts /\ th_id t = i /\ hd_error (th_calls t) = Some RUnlock) /\
  (forall i, rw_writer m = Some i -> exists t, t ∈ ts /\ th_id t = i /\ hd_error (th_calls t) = Some Unlock) /\
  (forall i, i ∈ rw_waiting m -> exists t, t ∈ ts /\ th_id t = i /\ th_waits t = true).

Record lock_inv (c : RWMutex * list thread) : Prop := mkLockInv {
  li_ids : NoDup (th_id <$> c.2);
  li_placed : Forall (placed c.1) c.2;
  li_accounted : accounted c.1 c.2;
  li_readers : NoDup (rw_readers c.1);
  li_waiting : NoDup (rw_waiting c.1)
}.

Lemma flat_head c rest : flat (c :: rest) -> c = RLock /\ (exists r, rest = RUnlock :: r /\ flat r) \/ c = Lock /\ (exists r, rest = Unlock :: r /\ flat r).
Proof. inversion 1; subst; [left | right]; split; eauto. Qed.

Lemma remove_one_elem i j l : j <> i -> j ∈ l -> j ∈ remove_one i l.
Proof. induction l as [| x l IH]; cbn; [done|]. intros Hne [-> | Hj]%elem_of_cons; [rewrite bool_decide_eq_false_2 by done; by left|]. case_bool_decide; [done | right; auto]. Qed.

Lemma remove_one_sub i l j : j ∈ remove_one i l -> j ∈ l.
Proof. induction l as [| x l IH]; cbn; [done|]. case_bool_decide; [by right|]. intros [-> | Hj]%elem_of_cons; [by left | right; auto]. Qed.

Lemma remove_one_NoDup i l : NoDup l -> NoDup (remove_one i l) /\ i ∉ remove_one i l.
Proof.
  induction 1 as [| x l Hx Hl [IH1 IH2]]; cbn; [by split; [constructor | set_solver]|]. case_bool_decide as E; [by subst|].
  split; [constructor; [|done]; by intros ?%remove_one_sub | set_solver].
Qed.

(** Whenever a thread has something left to do, some thread can go on. *)
Lemma flat_progress c : lock_inv c -> finished c \/ exists c', lock_step c c'.
Proof.
  destruct c as [m ts]. intros [Hids Hplaced (Hr & Hw & Hwait) _ _]. cbn in *.
  assert (Hgo : forall t, t ∈ ts -> (exists m' t', call_step m t m' t') -> exists c', lock_step (m, ts) c').
  { intros t Ht (m' & t' & Hs). apply list_elem_of_split in Ht as (before & after & ->). eexists. by constructor. }
  rewrite Forall_forall in Hplaced.
  destruct (rw_readers m) as [| i readers] eqn:Er.
  2: { right. destruct (Hr i ltac:(by left)) as ([j calls w] & Ht & Eid & Eh). cbn in *. subst j. apply (Hgo _ Ht).
       destruct calls as [| c rest]; [done|]. injection Eh as ->.
       assert (w = false) as -> by (destruct (Hplaced _ Ht) as [H ? | H ? Hh | ? ? | ? ?]; cbn in *; [done | congruence | done | done]).
       eexists _, _. apply step_RUnlock. rewrite Er. by left. }
  destruct (rw_writer m) as [i|] eqn:Ew.
  { right. destruct (Hw i eq_refl) as ([j calls w] & Ht & Eid & Eh). cbn in *. subst j. apply (Hgo _ Ht).
    destruct calls as [| c rest]; [done|]. injection Eh as ->.
    assert (w = false) as -> by (destruct (Hplaced _ Ht) as [H ? | H ? Hh | ? ? | ? ?]; cbn in *; [done | congruence | done | done]).
    eexists _, _. by apply step_Unlock. }
  destruct (rw_waiting m) as [| i waiting] eqn:Eq.
  2: { right. destruct (Hwait i ltac:(by left)) as ([j calls w] & Ht & Eid & Ewt). cbn in *. subst j w. apply (Hgo _ Ht).
       destruct (Hplaced _ Ht) as [H ? | H _ Hh _ | ? ? ? ? ? | ? ? ? ? ?]; cbn in *; try done. destruct calls as [| c rest]; [done|]. injection Hh as ->.
       eexists _, _. apply step_acquire; [done | done |]. rewrite Eq. by left. }
  destruct (decide (Forall (fun t => th_calls t = []) ts)) as [Hf | Hf]; [by left|]. right.
  apply not_Forall_Exists in Hf; [|intros t; destruct (th_calls t); [by left | by right]]. apply Exists_exists in Hf as ([j calls w] & Ht & Hne). cbn in Hne.
  apply (Hgo _ Ht). destruct (Hplaced _ Ht) as [H Hw0 | H _ _ Hin | rest ? ? ? Hin | rest ? ? ? Hin]; cbn in *; subst; [| rewrite Eq in Hin; set_solver | rewrite Er in Hin; set_solver | congruence].
  destruct calls as [| c rest]; [done|]. destruct (flat_head _ _ H) as [[-> _] | [-> _]]; eexists _, _; [by apply step_RLock | apply step_announce].
Qed.

(** What the lock says about one thread. *)
Definition agrees (m : RWMutex) (t : thread) : Prop :=
  (th_id t ∈ rw_readers m -> hd_error (th_calls t) = Some RUnlock) /\ (rw_writer m = Some (th_id t) -> hd_error (th_calls t) = Some Unlock) /\
  (th_id t ∈ rw_waiting m -> th_waits t = true).

Lemma thread_agrees c t : lock_inv c -> t ∈ c.2 -> agrees c.1 t.
Proof.
  intros [Hids _ (Hr & Hw & Hq) _ _] Ht.
  assert (Huniq : forall u, u ∈ c.2 -> th_id u = th_id t -> u = t).
  { intros u Hu E. apply list_elem_of_lookup in Hu as [i Hi], Ht as [j Hj]. assert (i = j) as ->; [|congruence].
    eapply (NoDup_lookup (th_id <$> c.2)); [done | rewrite list_lookup_fmap, Hi; done | rewrite list_lookup_fmap, Hj; cbn; by rewrite E]. }
  split_and!.
  - intros (u & Hu & E & H)%Hr. by rewrite <- (Huniq u Hu E).
  - intros (u & Hu & E & H)%Hw. by rewrite <- (Huniq u Hu E).
  - intros (u & Hu & E & H)%Hq. by rewrite <- (Huniq u Hu E).
Qed.

(** A call changes the lock for its own thread only. *)
Definition only_own (i : nat) (m m' : RWMutex) : Prop :=
  forall j, j <> i -> (j ∈ rw_readers m <-> j ∈ rw_readers m') /\ (rw_writer m = Some j <-> rw_writer m' = Some j) /\ (j ∈ rw_waiting m <-> j ∈ rw_waiting m').

Lemma step_local m t m' t' : call_step m t m' t' -> placed m t -> agrees m t -> NoDup (rw_readers m) -> NoDup (rw_waiting m) ->
  th_id t' = th_id t /\ only_own (th_id t) m m' /\ placed m' t' /\ agrees m' t' /\ NoDup (rw_readers m') /\ NoDup (rw_waiting m').
Proof.
  assert (Hrem : forall i j l, j <> i -> (j ∈ l <-> j ∈ remove_one i l)) by (intros i j l Hne; split; [by apply remove_one_elem | apply remove_one_sub]).
  destruct 1 as [i rest E1 E2 | i rest Hin | i rest | i rest E1 E2 Hin | i rest E1]; intros Hp Ha Hr Hq; (split; [done|]); destruct Ha as (A1 & A2 & A3); cbn in *.
  - assert (Hrest : exists r, rest = RUnlock :: r /\ flat r).
    { destruct Hp as [Hf _ | Hf Hw _ _ | ? E | ? E]; cbn in *; [| done | done | done]. by destruct (flat_head _ _ Hf) as [[_ H] | [[=] _]]. }
    destruct Hrest as (r & -> & Hf). split_and!.
    + intros j Hj. rewrite E1, E2. cbn. split_and!; set_solver.
    + eapply (reading _ _ r); cbn; [done | done | done | by left].
    + split_and!; cbn; [done | done | set_solver].
    + cbn. constructor; [|done]. intros H%A1. done.
    + constructor.
  - destruct Hp as [Hf _ | Hf Hw _ _ | r E Hf _ _ | ? E]; cbn in *; [| done | | done]; [by destruct (flat_head _ _ Hf) as [[[=] _] | [[=] _]]|]. injection E as ->.
    destruct (remove_one_NoDup i _ Hr) as [N1 N2]. split_and!; cbn; [| by apply outside | | done | done].
    + intros j Hj. cbn. split_and!; [by apply Hrem | done | done].
    + split_and!; cbn; [done | intros H%A2; done | intros H%A3; done].
  - assert (Hf : flat (Lock :: rest)) by (destruct Hp as [Hf _ | Hf Hw _ _ | ? E | ? E]; cbn in *; done).
    split_and!; cbn; [| by apply waiting; cbn; [| | | left] | | done |].
    + intros j Hj. cbn. split_and!; [done | done | set_solver].
    + split_and!; cbn; [intros H%A1; done | intros H%A2; done | done].
    + constructor; [|done]. intros H%A3. done.
  - destruct Hp as [Hf Hw | Hf _ _ _ | ? E | ? E]; cbn in *; [done | | done | done]. destruct (flat_head _ _ Hf) as [[[=] _] | [_ (r & -> & Hf')]].
    destruct (remove_one_NoDup i _ Hq) as [N1 N2]. split_and!; cbn; [| by eapply writing | | constructor | done].
    + intros j Hj. cbn. rewrite E1, E2. split_and!; [done | split; [done | intros [=]; congruence] | by apply Hrem].
    + split_and!; cbn; [set_solver | done | done].
  - destruct Hp as [Hf _ | Hf Hw _ _ | ? E | r E Hf _ _]; cbn in *; [| done | done |]; [by destruct (flat_head _ _ Hf) as [[[=] _] | [[=] _]]|]. injection E as ->.
    split_and!; cbn; [| by apply outside | | done | done].
    + intros j Hj. cbn. rewrite E1. split_and!; [done | split; [intros [=]; congruence | done] | done].
    + split_and!; cbn; [intros H%A1; done | done | intros H%A3; done].
Qed.

Lemma placed_other i m m' u : only_own i m m' -> th_id u <> i -> placed m u -> placed m' u.
Proof.
  intros Ho Hne. destruct (Ho _ Hne) as (H1 & H2 & H3). destruct 1 as [? ? | ? ? ? ? | r ? ? ? ? | r ? ? ? ?].
  - by apply outside.
  - apply waiting; [done | done | done | by apply H3].
  - eapply reading; [done | done | done | by apply H1].
  - eapply writing; [done | done | done | by apply H2].
Qed.

Lemma lock_inv_step c c' : lock_inv c -> lock_step c c' -> lock_inv c'.
Proof.
  intros Hinv Hstep. destruct Hstep as [m before t after m' t' Hs]. pose proof (thread_agrees _ t Hinv ltac:(cbn; set_solver)) as Ha. destruct Hinv as [Hids Hp (C1 & C2 & C3) Hr Hq]. cbn in *.
  apply Forall_app in Hp as [Hb [Ht Haf]%Forall_cons]. destruct (step_local m t m' t' Hs Ht Ha Hr Hq) as (Eid & Hown & Ht' & Ha' & Hr' & Hq').
  assert (Hne : forall u, u ∈ before ++ after -> th_id u <> th_id t).
  { rewrite fmap_app, fmap_cons in Hids. apply NoDup_app in Hids as (_ & Hd & [Hn _]%NoDup_cons). intros u [Hu | Hu]%elem_of_app E.
    - apply (Hd (th_id u)); [by apply list_elem_of_fmap_2 | rewrite E; by left].
    - apply Hn. rewrite <- E. by apply list_elem_of_fmap_2. }
  assert (Hsub : forall u, u ∈ before ++ t :: after -> u <> t -> u ∈ before ++ t' :: after) by (intros u Hu Hut; set_solver).
  constructor; cbn; [by rewrite fmap_app, fmap_cons, Eid in * | | | done | done].
  - apply Forall_app. split; [|constructor; [done|]]; apply Forall_forall; intros u Hu; (eapply placed_other; [exact Hown | apply Hne; set_solver |]).
    + rewrite Forall_forall in Hb. by apply Hb.
    + rewrite Forall_forall in Haf. by apply Haf.
  - destruct Ha' as (B1 & B2 & B3). rewrite Eid in *. split_and!.
    + intros i Hi. destruct (decide (i = th_id t)) as [-> | Hi']; [exists t'; split_and!; [set_solver | done | auto]|].
      destruct (Hown i Hi') as (O & _ & _). apply O in Hi. destruct (C1 i Hi) as (u & Hu & <- & Hh). exists u. split_and!; [apply Hsub; [done | by intros ->] | done | done].
    + intros i Hi. destruct (decide (i = th_id t)) as [-> | Hi']; [exists t'; split_and!; [set_solver | done | auto]|].
      destruct (Hown i Hi') as (_ & O & _). apply O in Hi. destruct (C2 i Hi) as (u & Hu & <- & Hh). exists u. split_and!; [apply Hsub; [done | by intros ->] | done | done].
    + intros i Hi. destruct (decide (i = th_id t)) as [-> | Hi']; [exists t'; split_and!; [set_solver | done | auto]|].
      destruct (Hown i Hi') as (_ & _ & O). apply O in Hi. destruct (C3 i Hi) as (u & Hu & <- & Hh). exists u. split_and!; [apply Hsub; [done | by intros ->] | done | done].
Qed.

(** Every call brings its thread forward. *)
Definition work (ts : list thread) : nat := foldr (fun t n => 2 * length (th_calls t) - (if th_waits t then 1 else 0) + n)%nat 0%nat ts.

Lemma work_cons t l : work (t :: l) = (2 * length (th_calls t) - (if th_waits t then 1 else 0) + work l)%nat.
Proof. done. Qed.

Lemma work_app l l' : work (l ++ l') = (work l + work l')%nat.
Proof. induction l as [| t l IH]; [done|]. rewrite <- app_comm_cons, !work_cons, IH. lia. Qed.

Lemma step_works c c' : lock_step c c' -> (work c'.2 < work c.2)%nat.
Proof. destruct 1 as [m before t after m' t' Hs]. cbn [snd]. rewrite !work_app, !work_cons. destruct Hs; cbn [th_calls th_waits length]; lia. Qed.

(** The threads of distinct goroutines before any of them has called the lock. *)
Definition goroutines (programs : list (list GateCall)) : list thread := imap (fun i calls => mkThread i calls false) programs.

Lemma goroutine_elem programs t : t ∈ goroutines programs -> exists i calls, programs !! i = Some calls /\ t = mkThread i calls false.
Proof. intros [i Hi]%list_elem_of_lookup. unfold goroutines in Hi. rewrite list_lookup_imap in Hi. destruct (programs !! i) as [calls|] eqn:E; [|done]. injection Hi as <-. eauto. Qed.

Lemma goroutines_inv programs : Forall flat programs -> lock_inv (free_mutex, goroutines programs).
Proof.
  intros Hf. constructor; cbn; [| | | constructor | constructor].
  - apply NoDup_alt. intros i j x Hi Hj. apply list_lookup_fmap_Some in Hi as (t & -> & Hi), Hj as (u & E & Hj).
    unfold goroutines in *. rewrite list_lookup_imap in *. destruct (programs !! i), (programs !! j); try done. injection Hi as <-. injection Hj as <-. done.
  - apply Forall_forall. intros t (i & calls & Hi & ->)%goroutine_elem. apply outside; [|done]. by eapply Forall_lookup in Hf.
  - split_and!; [set_solver | done | set_solver].
Qed.

Lemma nsteps_inv n c c' : nsteps lock_step n c c' -> lock_inv c -> lock_inv c' /\ (n + work c'.2 <= work c.2)%nat.
Proof.
  induction 1 as [c | k c d e Hs _ IH]; intros Hinv; [by split|]. destruct (IH (lock_inv_step _ _ Hinv Hs)) as [He Hn]. split; [done|].
  pose proof (step_works _ _ Hs). lia.
Qed.

Lemma goroutines_work_from k programs : work (imap (fun i calls => mkThread (k + i) calls false) programs) = (2 * length (mjoin programs))%nat.
Proof.
  revert k. induction programs as [| calls programs IH]; intros k; [done|]. cbn [imap]. rewrite work_cons. cbn [th_calls th_waits]. change (mjoin (calls :: programs)) with (calls ++ mjoin programs). rewrite length_app.
  assert (E : imap ((fun i calls0 => mkThread (k + i) calls0 false) ∘ S) programs = imap (fun i calls0 => mkThread (S k + i) calls0 false) programs)
    by (apply imap_ext; intros i x _; cbn; by rewrite Nat.add_succ_r).
  rewrite E, IH. lia.
Qed.

Lemma goroutines_work programs : work (goroutines programs) = (2 * length (mjoin programs))%nat.
Proof. exact (goroutines_work_from 0 programs). Qed.

(** Goroutines whose gate sections do not nest always finish: as long as one has a
    call left some goroutine can go on, whoever waits, and every sequence of steps
    is no longer than twice the number of calls. *)
Lemma flat_sections_finish programs c n :
  Forall flat programs -> nsteps lock_step n (free_mutex, goroutines programs) c ->
  ~ stuck c /\ (n <= 2 * length (mjoin programs))%nat /\ ((forall c', ~ lock_step c c') -> finished c).
Proof.
  intros Hf Hn. destruct (nsteps_inv _ _ _ Hn (goroutines_inv _ Hf)) as [Hinv Hw]. cbn [snd] in Hw. rewrite goroutines_work in Hw.
  destruct (flat_progress _ Hinv) as [Hfin | [c' Hc']]; (split; [|split; [lia|]]).
  - intros [H _]. done.
  - done.
  - intros [_ H]. exact (H _ Hc').
  - intros H. by destruct (H _ Hc').
Qed.

(** ** Sections that nest *)

(** The reader holds the gate and is about to lock it again, the activation has
    announced itself. *)
Definition deadlocked (rest : list GateCall) : RWMutex * list thread :=
  (mkRWMutex [0%nat] None [1%nat], [mkThread 0 (RLock :: rest) false; mkThread 1 [Lock; Unlock] true]).

Lemma deadlocked_stuck rest : stuck (deadlocked rest).
Proof.
  split; [intros H; by apply Forall_cons in H as [H _]|]. intros c' H.
  enough (Hno : forall c, lock_step c c' -> c <> deadlocked rest) by exact (Hno _ H eq_refl). clear H. intros c H.
  destruct H as [m before t after m' t' Hs]. intros [= -> E].
  destruct before as [| t0 [| t1 before]]; cbn in E; simplify_eq; [inversion Hs; done.. |]. by destruct before.
Qed.

Lemma nested_reaches rest : rtc lock_step (free_mutex, goroutines [RLock :: RLock :: rest; [Lock; Unlock]]) (deadlocked rest).
Proof.
  eapply rtc_l; [exact (lock_thread _ [] _ [mkThread 1 [Lock; Unlock] false] _ _ (step_RLock free_mutex 0 _ eq_refl eq_refl))|].
  eapply rtc_l; [exact (lock_thread _ [mkThread 0 (RLock :: rest) false] _ [] _ _ (step_announce (mkRWMutex [0%nat] None []) 1 [Unlock]))|].
  apply rtc_refl.
Qed.
