(* ===== verification/InspectionProps.v ===== *)
(** * Guards are carried out for the session they were asked for

    Properties of the inspection runtime under every schedule in which the other
    goroutines respect the gate. *)

From S2P Require Import Prelude GoStr Netip Domain Codec Eve Observation SecurityStore Flow SessionStore StoreProps Config Correlation CorrelationProps Connectivity EventRing.
From S2P Require Import Interleave Runtime RuntimeProps Reducer ReducerProps InspectionRuntime GateLock.

(** ** What a goroutine owns of the logs *)

Definition own {A} (me : nat) (l : list (nat * A)) : list A := snd <$> filter (fun e => e.1 = me) l.

Lemma own_snoc {A} me (l : list (nat * A)) a : own me (l ++ [(me, a)]) = own me l ++ [a].
Proof. unfold own. rewrite filter_app, fmap_app. cbn. by rewrite decide_True. Qed.

(** The goroutine is inside a section of the gate. *)
Definition holds (me : nat) (r : InspectionRuntime) : Prop := last (own me (ix_gate r)) = Some RLock.

(** What the others leave alone: this goroutine's calls, and, while it holds the gate,
    the generation. *)
Record others (me : nat) (r r' : InspectionRuntime) : Prop := mkOthers {
  ot_gate : own me (ix_gate r') = own me (ix_gate r);
  ot_executed : own me (ix_executed r') = own me (ix_executed r);
  ot_generation : holds me r -> generation (ix_runtime r') = generation (ix_runtime r)
}.

#[global] Instance others_preorder me : PreOrder (others me).
Proof.
  split; [done|]. intros a b c [G1 E1 N1] [G2 E2 N2]. constructor; [congruence | congruence |].
  intros H. rewrite N2, N1; [done | done |]. unfold holds in *. congruence.
Qed.

Lemma others_holds me r r' : others me r r' -> holds me r -> holds me r'.
Proof. intros [G _ _]. unfold holds. by rewrite G. Qed.

(** ** Sections that leave a part of the state alone *)

Lemma wp_stays {St A} (R K : St -> St -> Prop) `{!PreOrder K} (p : Prog St A) tr s s0 :
  (forall a b, R a b -> K a b) -> guar K p -> K s0 s -> wp R p (fun _ tr' s' => K s0 s' /\ exists ext, tr' = tr ++ ext) tr s.
Proof.
  intros HR. assert (H : forall ext s, guar K p -> K s0 s -> wp R p (fun _ tr' s' => K s0 s' /\ exists ext, tr' = tr ++ ext) (tr ++ ext) s).
  { clear s. induction p as [a | f k IH]; intros ext s Hg Hs; cbn; [eauto|]. intros s' Hs'. rewrite <- app_assoc. apply IH; [apply Hg|].
    etrans; [exact Hs|]. etrans; [apply HR, Hs' | apply Hg]. }
  intros Hg Hs. pose proof (H [] s Hg Hs) as H0. by rewrite app_nil_r in H0.
Qed.

Lemma wp_rely {St A} (R R' : St -> St -> Prop) (p : Prog St A) Q tr s : (forall a b, R' a b -> R a b) -> wp R p Q tr s -> wp R' p Q tr s.
Proof. intros HR. revert tr s. induction p as [a | f k IH]; intros tr s; cbn; [done|]. intros H s' Hs. by apply IH, H, HR. Qed.

Definition keeps {St A} (f : St -> A) (s s' : St) : Prop := f s' = f s.

#[global] Instance keeps_preorder {St A} (f : St -> A) : PreOrder (keeps f).
Proof. split; [done|]. intros a b c H1 H2. unfold keeps in *. congruence. Qed.

Lemma guar_keeps_runtime {A} {B} (f : InspectionRuntime -> B) (p : Prog Runtime A) :
  (forall r v, f (r <| ix_runtime := v |>) = f r) -> guar (keeps f) (on_runtime p).
Proof. intros H. apply (guar_lift _ _ _ anything); [intros s t _; apply H|]. induction p as [a | g k IH]; cbn; [done|]. intros s. by split. Qed.

Lemma completeIntent_keeps me me' intent res : guar (keeps (fun r => own me' (ix_executed r))) (completeIntent me intent res).
Proof.
  assert (Hrt : forall A (p : Prog Runtime A), guar (keeps (fun r => own me' (ix_executed r))) (on_runtime p)) by (intros A p; by apply guar_keeps_runtime).
  unfold completeIntent, holding_gate. apply guar_bind; [by intros s; split|]. intros _. apply guar_bind; [|intros a; apply guar_bind; [by intros s; split | done]].
  apply guar_bind; [apply guar_peek, _|]. intros got. apply guar_bind; [apply Hrt|]. intros g. destruct got as [current|]; [|done]. destruct (_ || _); [done|].
  apply guar_bind; [apply Hrt|]. intros [updated|e]; [|done]. apply guar_bind; [|intros _; apply Hrt]. destruct (_ && _); [|done].
  apply guar_bind; [apply Hrt|]. intros [v|e]; [|done]. destruct (_ && _); [apply Hrt | done].
Qed.

(** ** Carrying out an intent *)

(** The session of the intent as the state has it, and whether the intent still is about
    it. *)
Definition session_of (intent : InspectionIntent) (m : InspectionRuntime) : option RuntimeSession := Get (Store (ix_runtime m)) (ii_SessionID intent).
Definition still_meant (intent : InspectionIntent) (m : InspectionRuntime) : bool :=
  match session_of intent m with Some v => MatchesSession intent v (generation (ix_runtime m)) | None => false end.

(** [e] is called with the intent at [m2]; [m3] decides whether the guard is taken back. *)
Definition calls_after (intent : InspectionIntent) (closedCleanup : bool) (e : InspectionIntentExecutor) (m2 m3 : InspectionRuntime) : list InspectionIntent :=
  intent :: (if negb (closedCleanup || still_meant intent m3) &&
                (bool_decide (er_Status (executor_result (e (length (ix_executed m2)) intent)) = EnforcementApplied) && installs intent)
             then [stale_cleanup intent] else []).

(** The engine's executor, as it is read before any call, gets the calls of
    [calls_after]; without an executor there is none. *)
Definition carried_out (me : nat) (intent : InspectionIntent) (closedCleanup : bool) (base : list InspectionIntent) (g : Z)
  (moments : list InspectionRuntime) (calls : list InspectionIntent) : Prop :=
  exists m1, m1 ∈ moments /\ own me (ix_executed m1) = base /\
  match ix_executor m1 with
  | None => calls = []
  | Some e => exists m2 m3, m2 ∈ moments /\ m3 ∈ moments /\
      own me (ix_executed m2) = base /\ generation (ix_runtime m2) = g /\
      own me (ix_executed m3) = base ++ [intent] /\ generation (ix_runtime m3) = g /\
      calls = calls_after intent closedCleanup e m2 m3
  end.

Lemma call_executor_spec me e intent (Q : EnforcementResult * option string -> list InspectionRuntime -> InspectionRuntime -> Prop) tr s :
  (forall m, others me s m -> Q (e (length (ix_executed m)) intent) (tr ++ [m]) (m <| ix_executed ::= fun l => l ++ [(me, intent)] |>)) ->
  wp (others me) (call_executor me e intent) Q tr s.
Proof. intros H m Hm. cbn. by apply H. Qed.

Lemma carry_out_spec me intent closed tr s :
  holds me s ->
  wp (others me) (carry_out me intent closed) (fun _ tr' s' => exists ext calls,
    tr' = tr ++ ext /\ own me (ix_executed s') = own me (ix_executed s) ++ calls /\
    carried_out me intent closed (own me (ix_executed s)) (generation (ix_runtime s)) tr' calls) tr s.
Proof.
  intros Hh. unfold carry_out. apply wp_bind. intros s1 H1. cbn [wp peek id]. destruct H1 as [G1 E1 N1]. specialize (N1 Hh).
  assert (Hh1 : holds me s1) by (unfold holds in *; congruence). apply wp_bind. destruct (ix_executor s1) as [e|] eqn:Ee.
  - apply wp_bind. apply call_executor_spec. intros m2 [G2 E2 N2]. specialize (N2 Hh1). cbn [wp mret prog_ret].
    set (res := executor_result _). set (s2 := m2 <| ix_executed ::= _ |>).
    assert (Hs2 : holds me s2) by (unfold holds in *; change (ix_gate s2) with (ix_gate m2); congruence).
    assert (Eo : own me (ix_executed s2) = own me (ix_executed s) ++ [intent]) by (change (ix_executed s2) with (ix_executed m2 ++ [(me, intent)]); by rewrite own_snoc, E2, E1).
    apply wp_bind. intros m3 H3. cbn [wp get_session peek id]. pose proof (others_holds _ _ _ H3 Hs2) as Hh3. destruct H3 as [G3 E3 N3]. specialize (N3 Hs2).
    change (generation (ix_runtime s2)) with (generation (ix_runtime m2)) in N3. apply wp_bind. intros m4 H4. cbn [wp on_runtime lift CurrentGeneration peek id]. destruct H4 as [G4 E4 N4]. specialize (N4 Hh3).
    set (put4 := m4 <| ix_runtime := _ |>). change (ix_runtime put4) with (ix_runtime m4).
    assert (E5 : own me (ix_executed put4) = own me (ix_executed s) ++ [intent]) by (change (ix_executed put4) with (ix_executed m4); congruence).
    rewrite N4. change (match Get _ _ with Some v => _ | None => false end) with (still_meant intent m3).
    assert (Hdone : forall tr' s' extra, tr' = (((tr ++ [s1]) ++ [m2]) ++ [m3]) ++ [m4] ++ extra ->
      own me (ix_executed s') = own me (ix_executed s) ++ calls_after intent closed e m2 m3 ->
      exists ext calls, tr' = tr ++ ext /\ own me (ix_executed s') = own me (ix_executed s) ++ calls /\
        carried_out me intent closed (own me (ix_executed s)) (generation (ix_runtime s)) tr' calls).
    { intros tr' s' extra -> Es. exists ([s1; m2; m3; m4] ++ extra), (calls_after intent closed e m2 m3). split_and!; [by rewrite <- !app_assoc | done |].
      exists s1. rewrite !elem_of_app, !list_elem_of_singleton. split_and!; [tauto | congruence |]. rewrite Ee.
      exists m2, m3. rewrite !elem_of_app, !list_elem_of_singleton. split_and!; [tauto | tauto | congruence.. ]. }
    unfold calls_after in Hdone. fold res in Hdone. destruct (closed || still_meant intent m3).
    + cbn [wp mret prog_ret]. apply (Hdone _ _ []); [by rewrite app_nil_r | done].
    + cbn [negb andb] in Hdone. apply wp_bind. destruct (_ && installs intent).
      * apply wp_bind. apply call_executor_spec. intros m5 [G5 E6 N5]. cbn [wp mret prog_ret]. apply (Hdone _ _ [m5]); [by rewrite <- !app_assoc|].
        change (own me (ix_executed m5 ++ [(me, stale_cleanup intent)]) = own me (ix_executed s) ++ [intent; stale_cleanup intent]). rewrite own_snoc, E6, E5. by rewrite <- app_assoc.
      * cbn [wp mret prog_ret]. apply (Hdone _ _ []); [by rewrite app_nil_r | done].
  - cbn [wp mret prog_ret]. apply wp_bind. intros m3 H3. cbn [wp get_session peek id]. destruct H3 as [G3 E3 N3].
    apply wp_bind. intros m4 H4. cbn [wp on_runtime lift CurrentGeneration peek id]. destruct H4 as [G4 E4 N4].
    assert (Hdone : forall s', own me (ix_executed s') = own me (ix_executed m4) -> exists ext calls, ((tr ++ [s1]) ++ [m3]) ++ [m4] = tr ++ ext /\
      own me (ix_executed s') = own me (ix_executed s) ++ calls /\ carried_out me intent closed (own me (ix_executed s)) (generation (ix_runtime s)) (((tr ++ [s1]) ++ [m3]) ++ [m4]) calls).
    { intros s' Es. exists [s1; m3; m4], []. rewrite app_nil_r. split_and!; [by rewrite <- !app_assoc | congruence |].
      exists s1. rewrite !elem_of_app, !list_elem_of_singleton, Ee. split_and!; [tauto | congruence | done]. }
    destruct (_ || _); cbn [wp mret prog_ret]; [by apply Hdone|]. apply wp_bind. cbn [wp mret prog_ret]. by apply Hdone.
Qed.

(** What is known when the executor is called: the session is the intended one and its
    guard is wanted, or the session is gone and no other session has its kernel key. *)
Definition justified (me : nat) (answer : option (result SourceError ConntrackRecord)) (intent : InspectionIntent) (base : list InspectionIntent)
  (moments : list InspectionRuntime) (m : InspectionRuntime) (closedCleanup : bool) : Prop :=
  m ∈ moments /\ own me (ix_executed m) = base /\
  match session_of intent m with
  | Some current => closedCleanup = false /\ MatchesSession intent current (generation (ix_runtime m)) = true /\ unfit intent current = false /\
                    (installs intent = true -> verifyKernelIdentity answer = None)
  | None => closedCleanup = true /\ ii_Kind intent = IntentRemoveAppGuard /\
            exists m', m' ∈ moments /\ own me (ix_executed m') = base /\ HasActiveKernelKey (Store (ix_runtime m')) (ii_Identity intent) = false
  end.

(** Why the executor is not called: the session is another one or no longer wants the
    guard, its kernel identity is not confirmed, or it is gone and there is nothing to
    remove for it. *)
Definition refused (me : nat) (answer : option (result SourceError ConntrackRecord)) (intent : InspectionIntent) (base : list InspectionIntent) (moments : list InspectionRuntime) : Prop :=
  exists m, m ∈ moments /\ own me (ix_executed m) = base /\
  match session_of intent m with
  | Some current => MatchesSession intent current (generation (ix_runtime m)) = false \/ unfit intent current = true \/ installs intent = true /\ verifyKernelIdentity answer <> None
  | None => ii_Kind intent <> IntentRemoveAppGuard \/
            exists m', m' ∈ moments /\ own me (ix_executed m') = base /\ HasActiveKernelKey (Store (ix_runtime m')) (ii_Identity intent) = true
  end.

Definition fenced (me : nat) (answer : option (result SourceError ConntrackRecord)) (intent : InspectionIntent) (base : list InspectionIntent)
  (moments : list InspectionRuntime) (calls : list InspectionIntent) : Prop :=
  calls = [] /\ refused me answer intent base moments \/ exists m closedCleanup, justified me answer intent base moments m closedCleanup /\
    carried_out me intent closedCleanup base (generation (ix_runtime m)) moments calls.

Lemma fenced_mono me answer intent base moments ext calls : fenced me answer intent base moments calls -> fenced me answer intent base (moments ++ ext) calls.
Proof.
  intros [[-> (m & Hm & Hb & Hr)] | (m & closed & (Hm & Hb & Hj) & Hc)].
  { left. split; [done|]. exists m. split_and!; [set_solver | done |]. destruct (session_of intent m); [done|]. destruct Hr as [?|(m' & ? & ?)]; [by left|]. right. exists m'. split; [set_solver | done]. }
  right. exists m, closed. split.
  - split_and!; [set_solver | done |]. destruct (session_of intent m); [done|]. destruct Hj as (? & ? & m' & ? & ?). split_and!; [done | done |].
    exists m'. split; [set_solver | done].
  - destruct Hc as (m1 & ? & ? & Hc). exists m1. split_and!; [set_solver | done |]. destruct (ix_executor m1); [|done].
    destruct Hc as (m2 & m3 & ? & ? & Hc). exists m2, m3. split_and!; [set_solver | set_solver | apply Hc..].
Qed.

Lemma carry_out_fenced me answer intent closed m tr s :
  holds me s -> generation (ix_runtime s) = generation (ix_runtime m) ->
  justified me answer intent (own me (ix_executed s)) tr m closed ->
  wp (others me) (carry_out me intent closed) (fun _ tr' s' => exists calls,
    own me (ix_executed s') = own me (ix_executed s) ++ calls /\ fenced me answer intent (own me (ix_executed s)) tr' calls) tr s.
Proof.
  intros Hh Hg Hj. eapply wp_mono; [|by apply carry_out_spec]. cbv beta. intros _ tr' s' (ext & calls & -> & Es & Hc). exists calls. split; [done|].
  right. exists m, closed. rewrite <- Hg. split; [|done]. destruct Hj as (Hm & Hb & Hj). split_and!; [set_solver | done |].
  destruct (session_of intent m); [done|]. destruct Hj as (? & ? & m' & ? & ?). split_and!; [done | done |]. exists m'. split; [set_solver | done].
Qed.

Lemma wp_quiet me answer intent base calls {A} (p : IX A) tr s :
  guar (keeps (fun r => own me (ix_executed r))) p -> own me (ix_executed s) = base ++ calls -> fenced me answer intent base tr calls ->
  wp (others me) p (fun _ tr' s' => exists calls, own me (ix_executed s') = base ++ calls /\ fenced me answer intent base tr' calls) tr s.
Proof.
  intros Hg Hs Hf. eapply wp_mono; [|apply (wp_stays _ (keeps (fun r => own me (ix_executed r))) _ _ _ s); [by intros a b [_ ? _] | done | reflexivity]].
  cbv beta. intros _ tr' s' [Hk [ext ->]]. exists calls. split; [unfold keeps in Hk; congruence | by apply fenced_mono].
Qed.

Lemma gate_quiet me me' c : guar (keeps (fun r => own me' (ix_executed r))) (gate_call me c).
Proof. intros s. by split. Qed.

(** A gated body, and what follows it without calling the executor. *)
Lemma wp_gated {A} me answer intent (body : IX A) (after : A -> IX unit) s :
  (forall a, guar (keeps (fun r => own me (ix_executed r))) (after a)) ->
  (forall tr s1, holds me s1 -> own me (ix_executed s1) = own me (ix_executed s) ->
    wp (others me) body (fun _ tr' s' => exists calls, own me (ix_executed s') = own me (ix_executed s) ++ calls /\
                                                       fenced me answer intent (own me (ix_executed s)) tr' calls) tr s1) ->
  wp (others me) (a ← holding_gate me body; after a) (fun _ tr' s' => exists calls, own me (ix_executed s') = own me (ix_executed s) ++ calls /\
                                                       fenced me answer intent (own me (ix_executed s)) tr' calls) [] s.
Proof.
  intros Ha Hb. apply wp_bind. unfold holding_gate. apply wp_bind. intros s1 [G1 E1 _]. cbn [wp gate_call modify]. apply wp_bind.
  eapply wp_mono; [|apply Hb].
  - cbv beta. intros a tr s2 (calls & E & Hf). apply wp_bind. intros s3 [_ E3 _]. cbn [wp gate_call modify mret prog_ret].
    eapply (wp_quiet me answer intent _ calls); [apply Ha | | by apply fenced_mono].
    change (own me (ix_executed s3) = own me (ix_executed s) ++ calls). congruence.
  - unfold holds. change (last (own me (ix_gate s1 ++ [(me, RLock)])) = Some RLock). by rewrite own_snoc, last_snoc.
  - exact E1.
Qed.

(** C28. A guard intent is carried out for the session it was asked for, or not at all.
    Whatever the other goroutines do while they keep out of this one's gate section,
    the worker calls the executor of the engine only after it has seen, with no call
    made yet, the session of the intent: the same identity, revision and pending operation under
    the current generation, the guard still wanted (IPS and mismatch) and the kernel
    identity confirmed; or, for a removal, that the session is gone and no live session
    has its kernel key.  The generation is the same when the executor is called and
    when the session is looked at again, and a guard that was applied for a session
    that no longer matches is taken back by a second call; no other call is made.  No
    call at all means that the session or the kernel identity was seen not to fit, that
    another session has the kernel key, or that the engine has no executor. *)
Theorem executeIntent_fenced me answer intent env s :
  within (others me) env ->
  let r := run (executeIntent me answer intent) env s in
  exists calls, own me (ix_executed (run_final unit r)) = own me (ix_executed s) ++ calls /\
                fenced me answer intent (own me (ix_executed s)) (run_moments unit r) calls.
Proof.
  intros Henv. cbv zeta.
  refine (wp_sound (others me) _ (fun _ tr' s' => exists calls, own me (ix_executed s') = own me (ix_executed s) ++ calls /\ fenced me answer intent (own me (ix_executed s)) tr' calls) [] s env Henv _).
  unfold executeIntent. apply wp_gated.
  { intros [| message | [] res]; [by intros m; split | apply completeIntent_keeps | done | apply completeIntent_keeps]. }
  intros tr s1 Hh E1.
  assert (Hnone : forall (tr' : list InspectionRuntime) s', own me (ix_executed s') = own me (ix_executed s1) -> refused me answer intent (own me (ix_executed s)) tr' ->
    exists calls, own me (ix_executed s') = own me (ix_executed s) ++ calls /\ fenced me answer intent (own me (ix_executed s)) tr' calls)
    by (intros tr' s' E Hr; exists []; split; [rewrite app_nil_r; congruence | by left]).
  apply wp_bind. intros m Hm. cbn [wp get_session peek id]. pose proof (others_holds _ _ _ Hm Hh) as Hhm. destruct Hm as [_ Em _].
  change (Get (Store (ix_runtime m)) (ii_SessionID intent)) with (session_of intent m). destruct (session_of intent m) as [current|] eqn:Es.
  - apply wp_bind. intros m' Hm'. cbn [wp on_runtime lift CurrentGeneration peek id]. pose proof (others_holds _ _ _ Hm' Hhm) as Hhm'. destruct Hm' as [_ Em' Nm]. specialize (Nm Hhm).
    set (s2 := m' <| ix_runtime := _ |>). assert (Es2 : own me (ix_executed s2) = own me (ix_executed s)) by (change (ix_executed s2) with (ix_executed m'); congruence).
    destruct (negb (MatchesSession intent current (generation (ix_runtime m'))) || unfit intent current) eqn:Ec.
    { apply Hnone; [congruence|]. exists m. rewrite Es. split_and!; [set_solver | congruence |]. rewrite <- Nm. apply orb_true_iff in Ec as [?%negb_true_iff|?]; auto. }
    apply orb_false_iff in Ec as [Ematch Efit]. apply negb_false_iff in Ematch.
    assert (Hgo : (installs intent = true -> verifyKernelIdentity answer = None) ->
      wp (others me) (carry_out me intent false) (fun _ tr' s' => exists calls, own me (ix_executed s') = own me (ix_executed s) ++ calls /\
        fenced me answer intent (own me (ix_executed s)) tr' calls) ((tr ++ [m]) ++ [m']) s2).
    { intros Hv. rewrite <- Es2. apply (carry_out_fenced me answer intent false m); [exact Hhm' | exact Nm |]. split_and!; [set_solver | congruence |].
      rewrite Es. by rewrite <- Nm. }
    destruct (installs intent) eqn:Ei; [|by apply Hgo]. destruct (verifyKernelIdentity answer) as [message|] eqn:Ev; [|by apply Hgo].
    apply Hnone; [congruence|]. exists m. rewrite Es. split_and!; [set_solver | congruence |]. right. right. by rewrite Ev.
  - destruct (bool_decide_reflect (ii_Kind intent = IntentRemoveAppGuard)) as [Ek|]; cbn [negb].
    2: { apply Hnone; [congruence|]. exists m. rewrite Es. split_and!; [set_solver | congruence | by left]. }
    apply wp_bind. intros m' Hm'. cbn [wp peek id]. pose proof (others_holds _ _ _ Hm' Hhm) as Hhm'. destruct Hm' as [_ Em' Nm]. specialize (Nm Hhm).
    destruct (HasActiveKernelKey _ _) eqn:Eo.
    { apply Hnone; [congruence|]. exists m. rewrite Es. split_and!; [set_solver | congruence |]. right. exists m'. split_and!; [set_solver | congruence | done]. }
    assert (Es2 : own me (ix_executed m') = own me (ix_executed s)) by congruence. rewrite <- Es2.
    apply (carry_out_fenced me answer intent true m); [done | done |]. split_and!; [set_solver | congruence |].
    rewrite Es. split_and!; [done | done |]. exists m'. split_and!; [set_solver | done | done].
Qed.

(** ** The gate *)

Definition gate_of (me : nat) (r : InspectionRuntime) : list GateCall := own me (ix_gate r).

(** Walks through the sections of an operation. *)
Ltac quiet := repeat (cbv zeta; match goal with
  | |- guar _ (_ ≫= _) => apply guar_bind; [|intros ?]
  | |- guar _ (on_runtime _) => by apply guar_keeps_runtime
  | |- guar _ (peek _) => apply guar_peek, _
  | |- guar _ (get_session _) => apply guar_peek, _
  | |- guar _ (mret _) => exact I
  | |- guar _ (Ret _) => exact I
  | |- guar _ (modify _) => by intros ?; split
  | |- guar _ (call_executor _ _ _) => by intros ?; split
  | |- guar _ (match ?x with _ => _ end) => destruct x
  end).

Lemma holding_sections {A} me (body : IX A) tr s :
  guar (keeps (gate_of me)) body -> wp (keeps (gate_of me)) (holding_gate me body) (fun _ _ s' => gate_of me s' = gate_of me s ++ [RLock; RUnlock]) tr s.
Proof.
  intros Hb. unfold holding_gate. apply wp_bind. intros s1 E1. cbn [wp gate_call modify]. apply wp_bind.
  eapply wp_mono; [|apply (wp_stays _ (keeps (gate_of me)) _ _ _ (s1 <| ix_gate ::= fun l => l ++ [(me, RLock)] |>)); [done | done | reflexivity]].
  cbv beta. intros a tr' s2 [E2 _]. apply wp_bind. intros s3 E3. cbn [wp gate_call modify mret prog_ret].
  change (own me (ix_gate s3 ++ [(me, RUnlock)]) = gate_of me s ++ [RLock; RUnlock]). rewrite own_snoc.
  change (own me (ix_gate s3)) with (gate_of me s3). unfold keeps in *. rewrite E3, E2.
  change (gate_of me (s1 <| ix_gate ::= fun l => l ++ [(me, RLock)] |>)) with (own me (ix_gate s1 ++ [(me, RLock)])).
  rewrite own_snoc. change (own me (ix_gate s1)) with (gate_of me s1). rewrite E1, <- app_assoc. done.
Qed.

Lemma enqueueIntent_quiet me intent : guar (keeps (gate_of me)) (enqueueIntent intent).
Proof. unfold enqueueIntent, enqueueIntent_try. apply guar_bind; [apply guar_atomic; intros s; by case_match|]. intros []; quiet. Qed.

Lemma carry_out_quiet me intent closed : guar (keeps (gate_of me)) (carry_out me intent closed).
Proof. unfold carry_out. quiet. Qed.

Lemma apply_selection_quiet me selection current : guar (keeps (gate_of me)) (apply_selection selection current).
Proof. unfold apply_selection. quiet; apply enqueueIntent_quiet. Qed.

Lemma completeIntent_sections me intent res tr s :
  wp (keeps (gate_of me)) (completeIntent me intent res) (fun _ _ s' => gate_of me s' = gate_of me s ++ [RLock; RUnlock]) tr s.
Proof. apply holding_sections. quiet. Qed.

Lemma executeIntent_sections me answer intent tr s :
  wp (keeps (gate_of me)) (executeIntent me answer intent) (fun _ _ s' => exists calls, gate_of me s' = gate_of me s ++ calls /\ flat calls) tr s.
Proof.
  unfold executeIntent. apply wp_bind. eapply wp_mono; [|apply holding_sections; quiet; apply carry_out_quiet].
  cbv beta. intros out tr' s' E.
  assert (H1 : flat [RLock; RUnlock]) by (do 2 constructor). assert (H2 : flat [RLock; RUnlock; RLock; RUnlock]) by (do 3 constructor).
  assert (Hc : forall res, wp (keeps (gate_of me)) (completeIntent me intent res) (fun _ _ s' => exists calls, gate_of me s' = gate_of me s ++ calls /\ flat calls) tr' s').
  { intros res. eapply wp_mono; [|apply completeIntent_sections]. cbv beta. intros _ _ s2 E2. rewrite E2, E, <- app_assoc. eauto. }
  destruct out as [| message | [] res]; [| apply Hc | | apply Hc].
  - intros s2 E2. cbn [wp]. change (exists calls, gate_of me s2 = gate_of me s ++ calls /\ flat calls). unfold keeps in E2. rewrite E2, E. eauto.
  - cbn [wp mret prog_ret]. eauto.
Qed.

Lemma handleSessionChanged_sections me change tr s :
  wp (keeps (gate_of me)) (handleSessionChanged me change) (fun _ _ s' => exists calls, gate_of me s' = gate_of me s ++ calls /\ flat calls) tr s.
Proof.
  unfold handleSessionChanged. case_bool_decide; [exists []; split; [by rewrite app_nil_r | constructor]|].
  eapply wp_mono; [|apply holding_sections; quiet; apply apply_selection_quiet]. cbv beta. intros _ _ s' ->. exists [RLock; RUnlock]. split; [done | do 2 constructor].
Qed.

(** The gate calls of a goroutine: those of the operations it runs one after the other. *)
Inductive gate_client : list GateCall -> Prop :=
| idle_client : gate_client []
| intent_client me answer intent env s calls rest :
    within (keeps (gate_of me)) env -> gate_of me (run_final unit (run (executeIntent me answer intent) env s)) = gate_of me s ++ calls ->
    gate_client rest -> gate_client (calls ++ rest)
| change_client me change env s calls rest :
    within (keeps (gate_of me)) env -> gate_of me (run_final unit (run (handleSessionChanged me change) env s)) = gate_of me s ++ calls ->
    gate_client rest -> gate_client (calls ++ rest)
| activation_client me env s calls rest :
    within (keeps (gate_of me)) env -> gate_of me (run_final unit (run (_ ← BeginActivation me; EndActivation me) env s)) = gate_of me s ++ calls ->
    gate_client rest -> gate_client (calls ++ rest).

Lemma flat_app a b : flat a -> flat b -> flat (a ++ b).
Proof. induction 1; intros Hb; cbn; [done | apply flat_read; auto | apply flat_write; auto]. Qed.

Lemma sections_flat me (p : IX unit) env s calls :
  (forall tr, wp (keeps (gate_of me)) p (fun _ _ s' => exists calls, gate_of me s' = gate_of me s ++ calls /\ flat calls) tr s) ->
  within (keeps (gate_of me)) env -> gate_of me (run_final unit (run p env s)) = gate_of me s ++ calls -> flat calls.
Proof.
  intros Hp Henv E. pose proof (wp_sound (keeps (gate_of me)) p _ [] s env Henv (Hp [])) as H. cbv beta zeta in H.
  destruct H as (calls' & E' & Hf). rewrite E in E'. by apply app_inv_head in E' as ->.
Qed.

Lemma activation_sections me tr s :
  wp (keeps (gate_of me)) (_ ← BeginActivation me; EndActivation me) (fun _ _ s' => exists calls, gate_of me s' = gate_of me s ++ calls /\ flat calls) tr s.
Proof.
  intros s1 E1 s2 E2. exists [Lock; Unlock]. split; [|do 2 constructor]. unfold keeps in *.
  change (own me (ix_gate s2 ++ [(me, Unlock)]) = gate_of me s ++ [Lock; Unlock]). rewrite own_snoc.
  change (own me (ix_gate s2)) with (gate_of me s2). rewrite E2.
  change (own me (ix_gate s1 ++ [(me, Lock)]) ++ [Unlock] = gate_of me s ++ [Lock; Unlock]). rewrite own_snoc, <- app_assoc.
  change (own me (ix_gate s1)) with (gate_of me s1). by rewrite E1.
Qed.

Lemma gate_client_flat calls : gate_client calls -> flat calls.
Proof.
  induction 1 as [| me answer intent env s calls rest Henv E _ IH | me change env s calls rest Henv E _ IH | me env s calls rest Henv E _ IH]; [constructor|..];
    (apply flat_app; [|done]); refine (sections_flat me _ env s calls _ Henv E); intros tr.
  - apply executeIntent_sections.
  - apply handleSessionChanged_sections.
  - apply activation_sections.
Qed.

(** C29. The intent workers, the handling of session changes and activation never block
    each other for good.  Take any number of goroutines, each running these operations
    one after the other under any schedule, and the gate calls they make: on a
    [sync.RWMutex], where a waiting writer keeps new readers out, no interleaving gets
    stuck, every interleaving ends, after at most two steps per call, and when nothing
    can go on every goroutine has finished. *)
Theorem gate_clients_finish programs c n :
  Forall gate_client programs -> nsteps lock_step n (free_mutex, goroutines programs) c ->
  ~ stuck c /\ (n <= 2 * length (mjoin programs))%nat /\ ((forall c', ~ lock_step c c') -> finished c).
Proof. intros Hp. apply flat_sections_finish. eapply Forall_impl; [exact Hp | apply gate_client_flat]. Qed.

(** ** Examples *)

Definition ex_rule : Rule := mkRule "web" "web" 10 ∅ ∅ [] [] [] DecisionAllow true.
Definition ex_inspecting : Program := mkProgram [ex_rule] true 3 {["web" := ex_selection]} ∅ true ∅ ∅ ∅.
Definition ex_limits_default : InspectionLimits := mkInspectionLimits 0 0 0 0 0 0 0 0 0 0 0.

(** One session, under a policy that allows DNS only and blocks. *)
Definition ex_engine (store : RuntimeStore) : InspectionRuntime :=
  NewInspectionRuntimeWithScope (NewRuntime ex_inspecting 0 ex_limits [] 1000 <| Store := store |> <| generation := 3 |>) ex_limits_default [].

(** SSH is seen on it while the queue of intents is full. *)
Definition ex_full : InspectionRuntime := ex_engine ex_store1 <| ix_intentQueue := replicate 1024 ex_intent |>.

(** ** Refused intents *)

(** The gate calls of the goroutine and the count of refused intents. *)
Definition refusals (me : nat) (r : InspectionRuntime) : list GateCall * Z := (gate_of me r, ix_intentDrops r).

(** [n] read sections one after the other. *)
Fixpoint sections (n : nat) : list GateCall := match n with O => [] | S n => RLock :: RUnlock :: sections n end.

(** What an operation does inside its own section: [n] nested ones, and no refusal
    without one. *)
Definition nests (me : nat) (s s' : InspectionRuntime) : Prop :=
  exists n, gate_of me s' = gate_of me s ++ sections n /\ (n = 0%nat -> ix_intentDrops s' = ix_intentDrops s).

Lemma nests_refl me s s' : refusals me s' = refusals me s -> nests me s s'.
Proof. intros [= E1 E2]. exists 0%nat. by rewrite app_nil_r. Qed.

Lemma nests_next me s s1 s' : refusals me s1 = refusals me s -> nests me s1 s' -> nests me s s'.
Proof. intros [= E1 E2] (n & H1 & H2). exists n. rewrite <- E1, <- E2. done. Qed.

Lemma nests_section me s s1 s' : gate_of me s1 = gate_of me s ++ [RLock; RUnlock] -> nests me s1 s' -> nests me s s'.
Proof. intros E (n & H1 & _). exists (S n). split; [|done]. by rewrite H1, E, <- app_assoc. Qed.

Lemma wp_refusals {A} me (p : IX A) tr s : guar (keeps (refusals me)) p -> wp (keeps (refusals me)) p (fun _ _ s' => refusals me s' = refusals me s) tr s.
Proof. intros Hp. eapply wp_mono; [|apply (wp_stays _ (keeps (refusals me)) p tr s s); [done | done | reflexivity]]. cbv beta. by intros _ _ s' [? _]. Qed.

Lemma wp_quiet_first {A} me (N : InspectionRuntime -> InspectionRuntime -> Prop) (p : IX A) (g : A -> IX unit) tr s :
  (forall s s1 s', refusals me s1 = refusals me s -> N s1 s' -> N s s') ->
  guar (keeps (refusals me)) p -> (forall a tr' s', wp (keeps (refusals me)) (g a) (fun _ _ s'' => N s' s'') tr' s') ->
  wp (keeps (refusals me)) (p ≫= g) (fun _ _ s' => N s s') tr s.
Proof.
  intros HN Hp Hg. apply wp_bind. eapply wp_mono; [|by apply wp_refusals]. cbv beta. intros a tr' s1 E1. eapply wp_mono; [|apply Hg]. cbv beta. intros _ _ s2. by apply HN.
Qed.

Lemma completeIntent_nests me intent res tr s :
  wp (keeps (refusals me)) (completeIntent me intent res) (fun _ _ s' => gate_of me s' = gate_of me s ++ [RLock; RUnlock]) tr s.
Proof. eapply wp_rely; [|apply completeIntent_sections]. by intros a b [= ? ?]. Qed.

Lemma send_intents_nests me stop intents tr s : wp (keeps (refusals me)) (send_intents me stop intents) (fun _ _ s' => nests me s s') tr s.
Proof.
  revert tr s. induction intents as [| intent rest IH]; intros tr s; cbn [send_intents]; [by apply nests_refl|]. destruct (stop _); [by apply nests_refl|].
  apply (wp_quiet_first me (nests me) _ _ _ _ (nests_next me)); [unfold enqueueIntent_try; apply guar_atomic; intros t; by case_match|]. intros sent tr1 s1. apply wp_bind. destruct sent; [apply IH|].
  apply wp_bind. intros s2 [= E1 E2]. cbn [wp modify]. eapply wp_mono; [|apply completeIntent_nests]. cbv beta. intros _ tr3 s3 E3. eapply wp_mono; [|apply IH]. cbv beta. intros _ _ s4.
  apply nests_section. rewrite E3. change (gate_of me (s2 <| ix_intentDrops ::= inc64 |>)) with (gate_of me s2). by rewrite E1.
Qed.

Lemma reduce_attempts_nests n me stop obs attach id selection tr s : wp (keeps (refusals me)) (reduce_attempts n me stop obs attach id selection) (fun _ _ s' => nests me s s') tr s.
Proof.
  revert tr s. induction n as [| n IH]; intros tr s; cbn [reduce_attempts].
  { eapply wp_mono; [|apply wp_refusals; by intros t; split]. cbv beta. intros _ _ s'. apply nests_refl. }
  unfold reduce_once. apply (wp_quiet_first me (nests me) _ _ _ _ (nests_next me)); [quiet|]. intros got tr1 s1. destruct got as [current|]; [|by apply nests_refl].
  apply (wp_quiet_first me (nests me) _ _ _ _ (nests_next me)); [quiet|]. intros now tr2 s2. apply (wp_quiet_first me (nests me) _ _ _ _ (nests_next me)); [quiet|]. intros out tr3 s3.
  destruct out as [updated | e]; [|destruct e; try (by apply nests_refl); apply IH].
  apply (wp_quiet_first me (nests me) _ _ _ _ (nests_next me)); [|intros _ tr4 s4; apply send_intents_nests]. generalize (ir_Notifications (ReduceInspection current selection (without_alert attach obs) now now)).
  intros l. induction l as [| x l IHl]; cbn [for_each]; [done|]. apply guar_bind; [unfold publish_notification; quiet | done].
Qed.

(** The gate calls of an observation: one section, with the sections of the refused
    intents inside. *)
Definition opens (me : nat) (s s' : InspectionRuntime) : Prop :=
  refusals me s' = refusals me s \/
  exists n, gate_of me s' = gate_of me s ++ RLock :: sections n ++ [RUnlock] /\ (n = 0%nat -> ix_intentDrops s' = ix_intentDrops s).

Lemma opens_next me s s1 s' : refusals me s1 = refusals me s -> opens me s1 s' -> opens me s s'.
Proof. intros E [H | (n & H1 & H2)]; [left; congruence | right]. injection E as E1 E2. exists n. rewrite <- E1, <- E2. done. Qed.

Lemma reduce_observation_opens me stop obs attach value tr s :
  wp (keeps (refusals me)) (reduce_observation me stop obs attach value)
    (fun _ _ s' => opens me s s') tr s.
Proof.
  unfold reduce_observation, holding_gate. apply wp_bind. intros s1 [= E1 D1]. cbn [wp gate_call modify]. apply wp_bind. set (s2 := s1 <| ix_gate ::= _ |>).
  assert (E2 : gate_of me s2 = gate_of me s ++ [RLock]).
  { change (own me (ix_gate s1 ++ [(me, RLock)]) = gate_of me s ++ [RLock]). rewrite own_snoc. change (own me (ix_gate s1)) with (gate_of me s1). by rewrite E1. }
  change (ix_intentDrops s1) with (ix_intentDrops s2) in D1. clearbody s2.
  eapply wp_mono; [|apply (wp_quiet_first me (nests me) _ _ _ _ (nests_next me)); [quiet|]; intros p tr3 s3; apply (wp_quiet_first me (nests me) _ _ _ _ (nests_next me)); [quiet|]; intros g tr4 s4].
  2: { destruct (negb _); [|apply reduce_attempts_nests]. eapply wp_mono; [|apply wp_refusals; by intros t; split]. cbv beta. intros _ _ s'. apply nests_refl. }
  cbv beta. intros u tr5 s5 (n & E5 & D5). apply wp_bind. intros s6 [= E6 D6]. cbn [wp gate_call modify mret prog_ret]. right. exists n. split.
  - change (own me (ix_gate s6 ++ [(me, RUnlock)]) = gate_of me s ++ RLock :: sections n ++ [RUnlock]). rewrite own_snoc. change (own me (ix_gate s6)) with (gate_of me s6).
    rewrite E6, E5, E2, <- !app_assoc. done.
  - intros Hn. change (ix_intentDrops s6 = ix_intentDrops s). rewrite D6, D5, D1 by done. done.
Qed.

Lemma Resolve_refusals me first scope obs : guar (keeps (refusals me)) (Resolve first scope obs : IX Resolution).
Proof.
  assert (Hb : forall known t keys, guar (keeps (refusals me)) (by_binding known t keys : IX _)).
  { intros known t keys. induction keys as [| k keys IH]; cbn [by_binding]; [done|]. apply guar_bind; [apply guar_peek, _|]. intros [items trunc]. quiet. apply IH. }
  assert (Hc : forall t keys c, guar (keeps (refusals me)) (collect t keys c : IX _)).
  { intros t keys. induction keys as [| k keys IH]; intros c; cbn [collect]; [done|]. apply guar_bind; [apply guar_peek, _|]. intros [items trunc]. quiet. apply IH. }
  unfold Resolve, by_tuple. quiet; try done; try apply Hb; apply Hc.
Qed.

Lemma handleObservation_opens {JT : JSON ThreatEvent} scope first me stop obs retry tr s :
  wp (keeps (refusals me)) (handleObservation scope first me stop obs retry) (fun _ _ s' => opens me s s') tr s.
Proof.
  assert (Hend : forall (p : IX unit) tr s, guar (keeps (refusals me)) p -> wp (keeps (refusals me)) p (fun _ _ s' => opens me s s') tr s).
  { intros p tr' s0 Hp. eapply wp_mono; [|by apply wp_refusals]. cbv beta. intros _ _ s'. by left. }
  assert (Halert : guar (keeps (refusals me)) (store_alert obs)).
  { unfold store_alert, security_op. quiet. apply guar_atomic. intros t. by destruct (SecurityStore.Add _ _ _). }
  assert (Hcor : forall stored id policy g state reason, guar (keeps (refusals me)) (correlate_alert obs stored id policy g state reason)).
  { intros. unfold correlate_alert, security_op. quiet. apply guar_atomic. intros t. by destruct (UpdateCorrelation _ _ _ _ _ _ _). }
  unfold handleObservation. apply (wp_quiet_first me (opens me) _ _ _ _ (opens_next me)).
  { destruct retry; [done|]. apply guar_atomic. intros t. by destruct (SeenOrAdd _ _ _). }
  intros seen tr1 s1. destruct seen; [by apply Hend; intros t; split|].
  apply (wp_quiet_first me (opens me) _ _ _ _ (opens_next me)); [quiet|]. intros _ tr2 s2.
  apply (wp_quiet_first me (opens me) _ _ _ _ (opens_next me)); [done|]. intros [stored attach] tr3 s3.
  apply (wp_quiet_first me (opens me) _ _ _ _ (opens_next me)); [apply Resolve_refusals|]. intros resolution tr4 s4.
  assert (Hother : forall state tr s, wp (keeps (refusals me))
    (_ ← (if bool_decide (state = CorrelationUncorrelated) then match rn_RefreshCandidate resolution with Some c => enqueueIdentityRefresh c | None => mret tt end else mret tt);
     _ ← correlate_alert obs stored "" "" 0 state (rn_Reason resolution);
     if bool_decide (state = CorrelationUncorrelated) then modify (fun r => r <| ix_pending ::= fun p => (pending_Add obs (clock (ix_runtime r)) p).1 |>) else mret tt) (fun _ _ s' => opens me s s') tr s).
  { intros state tr0 s0. apply Hend. apply guar_bind; [|intros _; apply guar_bind; [apply Hcor | intros _; quiet]]. unfold enqueueIdentityRefresh. quiet. intros t. split; [|done]. unfold keeps, refusals, gate_of. by repeat case_match. }
  destruct (rn_State resolution); [| apply Hother..]. destruct (rn_Session resolution) as [value|]; [|apply Hother].
  apply (wp_quiet_first me (opens me) _ _ _ _ (opens_next me)); [quiet|]. intros _ tr5 s5.
  apply (wp_quiet_first me (opens me) _ _ _ _ (opens_next me)); [apply Hcor|]. intros _ tr6 s6.
  destruct (rn_Recent resolution); [by apply Hend|]. apply reduce_observation_opens.
Qed.

Lemma activation_calls me tr s : wp (keeps (gate_of me)) (_ ← BeginActivation me; EndActivation me) (fun _ _ s' => gate_of me s' = gate_of me s ++ [Lock; Unlock]) tr s.
Proof.
  intros s1 E1 s2 E2. unfold keeps in *. change (own me (ix_gate s2 ++ [(me, Unlock)]) = gate_of me s ++ [Lock; Unlock]). rewrite own_snoc.
  change (own me (ix_gate s2)) with (gate_of me s2). rewrite E2.
  change (own me (ix_gate s1 ++ [(me, Lock)]) ++ [Unlock] = gate_of me s ++ [Lock; Unlock]). rewrite own_snoc, <- app_assoc.
  change (own me (ix_gate s1)) with (gate_of me s1). by rewrite E1.
Qed.

(** C34. A reader of the gate that locks it again stops the engine.  Take any run of an
    observation, under any schedule in which the others do not count refusals, in
    which an intent is refused because the queue is full: the observation completes the
    intent itself, inside its own section, so that its gate calls are nested.  With the
    gate calls of any activation beside them the lock reaches a state in which the
    activation waits for the first read lock, the second waits for the activation, and
    no goroutine can go on. *)
Theorem full_queue_deadlock {JT : JSON ThreatEvent} scope first me stop obs env s me' env' t :
  within (keeps (refusals me)) env -> within (keeps (gate_of me')) env' ->
  let s' := run_final unit (run (HandleObservation scope first me stop obs) env s) in
  let t' := run_final unit (run (_ ← BeginActivation me'; EndActivation me') env' t) in
  ix_intentDrops s' <> ix_intentDrops s ->
  exists calls calls', gate_of me s' = gate_of me s ++ calls /\ gate_of me' t' = gate_of me' t ++ calls' /\
    exists c, rtc lock_step (free_mutex, goroutines [calls; calls']) c /\ stuck c.
Proof.
  intros Henv Henv' s' t' Hdrops. pose proof (wp_sound _ _ _ [] t env' Henv' (activation_calls me' [] t)) as Ht.
  pose proof (wp_sound _ _ _ [] s env Henv (handleObservation_opens scope first me stop obs false [] s)) as Hs. cbv beta in Hs, Ht. fold t' in Ht.
  change (opens me s s') in Hs. destruct Hs as [[= _ E] | (n & E & Hn)]; [done|]. destruct n as [| n]; [by destruct (Hdrops (Hn eq_refl))|].
  eexists _, _. split; [exact E|]. split; [exact Ht|]. exists (deadlocked (RUnlock :: sections n ++ [RUnlock])). split; [apply nested_reaches | apply deadlocked_stuck].
Qed.

(** ** Guards across a policy change *)

(** The application of the session is strongly identified and not in the allowlist. *)
Definition disallowed (selection : InspectionSelection) (app : ApplicationIdentity) : Prop :=
  is_AllowedApps selection <> [] /\ strongApplication app = true /\ ai_Name (NormalizeZero app) <> "UNKNOWN" /\
  ~ allowed_application selection (NormalizeZero app).

Lemma reselected_forgets selection current i now timeout :
  rs_Inspection current = Some i -> guard_status (si_Enforcement i) EnforcementApplied = true ->
  is_Mode selection = InspectionModeIPS -> disallowed selection (si_Application i) ->
  exists next, reselected selection current now timeout = (next, false, false) /\
    si_AppPolicyState next = AppPolicyMismatch /\ si_Mode next = InspectionModeIPS /\ si_Enforcement next = si_Enforcement DefaultSessionInspection.
Proof.
  intros Hi Hg Hm Hd. pose proof (fun deadline t => proj2 (restriction_mismatch_iff selection (si_Application i) deadline t) Hd) as Hmis.
  destruct Hd as (Hallow & Hstrong & _). unfold reselected. rewrite Hi, Hm, Hg. rewrite (bool_decide_eq_false_2 (InspectionModeIPS = _)) by done.
  rewrite (bool_decide_eq_false_2 _ Hallow). cbv zeta.
  match goal with |- context [EvaluateAppRestriction selection ?a ?d ?n] => change a with (si_Application i); specialize (Hmis d n); destruct (EvaluateAppRestriction selection (si_Application i) d n) as [st reason] end.
  cbn in Hmis. subst st. rewrite !bool_decide_eq_true_2 by done. cbn [andb].
  match goal with |- context [strongApplication ?a] => change a with (si_Application i) end. rewrite Hstrong. cbn [negb andb]. eauto.
Qed.

Lemma renewable_guarded generation current next revision :
  guard_status (si_Enforcement next) EnforcementApplied = false -> renewable generation (inspect_session current next revision) = None.
Proof.
  intros Hg. unfold renewable, inspect_session.
  match goal with |- match ?x with _ => _ end = _ => assert (E : x = Some (next <| si_Revision := revision |>)) by (repeat case_match; reflexivity); rewrite E end.
  change (si_Enforcement (next <| si_Revision := revision |>)) with (si_Enforcement next). by rewrite Hg, andb_false_r.
Qed.

(** C35. A guard in force is forgotten when the policy changes.  Take a session whose guard
    is recorded as applied and whose strongly identified application the new IPS policy
    does not allow either.  Its fresh inspection record says mismatch and has no guard
    in it, so that the effective decision falls back to that of the policy and the
    renewal that keeps kernel guards alive passes the session over; and, under every
    schedule, no intent that would remove or install a guard is queued. *)
Theorem policy_change_forgets_guard selection current i :
  rs_Inspection current = Some i -> guard_status (si_Enforcement i) EnforcementApplied = true ->
  is_Mode selection = InspectionModeIPS -> disallowed selection (si_Application i) ->
  (forall now timeout, exists next, reselected selection current now timeout = (next, false, false) /\
     si_AppPolicyState next = AppPolicyMismatch /\ si_Mode next = InspectionModeIPS /\
     forall revision generation, renewable generation (inspect_session current next revision) = None /\
       (rs_Revoked current = false -> rs_EffectiveDecision (inspect_session current next revision) = rs_Decision current)) /\
  (forall env s, within (keeps ix_intentQueue) env ->
     ix_intentQueue (run_final unit (run (apply_selection selection current) env s)) = ix_intentQueue s).
Proof.
  intros Hi Hg Hm Hd. split.
  - intros now timeout. destruct (reselected_forgets selection current i now timeout Hi Hg Hm Hd) as (next & E & Hs & Hmode & He). exists next.
    split_and!; [done | done | done |]. intros revision generation. split; [apply renewable_guarded; by rewrite He|].
    intros Hr. unfold inspect_session. change (rs_Revoked (current <| rs_Inspection := _ |>)) with (rs_Revoked current). rewrite Hr.
    unfold guard_applied. change (rs_Inspection (current <| rs_Inspection := ?x |>)) with x. cbn. by rewrite He.
  - intros env s Henv. refine (wp_sound (keeps ix_intentQueue) _ (fun _ _ s' => ix_intentQueue s' = ix_intentQueue s) [] s env Henv _).
    eapply wp_mono; [|apply (wp_stays _ (keeps ix_intentQueue) _ _ _ s); [done | | reflexivity]]; [by cbv beta; intros _ _ s' [H _]|].
    unfold apply_selection. apply guar_bind; [by apply guar_keeps_runtime|]. intros now. apply guar_bind; [apply guar_peek, _|]. intros timeout.
    destruct (reselected_forgets selection current i now timeout Hi Hg Hm Hd) as (next & E & _). rewrite E. quiet.
Qed.

(** ** Witnesses *)

(** The queue has room: the observation leaves its intent there, and an executor that
    applies everything is set. *)
Definition ex_executor : InspectionIntentExecutor := fun _ intent =>
  (mkEnforcementResult EnforcementNFTSessionGuard EnforcementScopeSession (ii_RequestedAction intent) EnforcementApplied "" None (ii_OperationID intent), None).
Definition ex_queued {JT : JSON ThreatEvent} : InspectionRuntime :=
  run_final unit (run (HandleObservation (mkScope "ns" 0) first_key 0 (fun _ => false) (ex_observation InspectionModeIPS "o1" "ssh" None)) [] (ex_engine ex_store1))
    <| ix_executor := Some ex_executor |>.

(** The session closes right after the executor was called. *)
Definition ex_close (r : InspectionRuntime) : InspectionRuntime :=
  r <| ix_runtime ::= fun rt => rt <| Store := (Close (Store rt) ex_identity "destroy" 3000 0).1 |> |>.
Definition ex_closing : list (InspectionRuntime -> InspectionRuntime) := [id; id; id; id; id; ex_close].

Lemma ex_closing_within me : within (others me) ex_closing.
Proof. repeat constructor. Qed.

#[local] Instance no_json : JSON ThreatEvent := {| Marshal _ := None; Unmarshal _ := None |}.

(** The guard is applied and then taken back. *)
Lemma executeIntent_fenced_witness :
  own 7 (ix_executed (run_final unit (run (executeIntent 7 (Some (Ok ex_record)) ex_intent) ex_closing ex_queued))) = [ex_intent; stale_cleanup ex_intent] /\
  exists calls, own 7 (ix_executed (run_final unit (run (executeIntent 7 (Some (Ok ex_record)) ex_intent) ex_closing ex_queued))) =
                  own 7 (ix_executed ex_queued) ++ calls /\
    fenced 7 (Some (Ok ex_record)) ex_intent (own 7 (ix_executed ex_queued))
      (run_moments unit (run (executeIntent 7 (Some (Ok ex_record)) ex_intent) ex_closing ex_queued)) calls.
Proof. split; [vm_compute; reflexivity|]. exact (executeIntent_fenced 7 (Some (Ok ex_record)) ex_intent ex_closing ex_queued (ex_closing_within 7)). Defined.

Lemma full_queue_deadlock_witness :
  let s' := run_final unit (run (HandleObservation (mkScope "ns" 0) first_key 0 (fun _ => false) (ex_observation InspectionModeIPS "o1" "ssh" None)) [] ex_full) in
  let t' := run_final unit (run (_ ← BeginActivation 1; EndActivation 1) [] ex_full) in
  ix_intentDrops s' <> ix_intentDrops ex_full /\
  exists calls calls' : list GateCall, gate_of 0 s' = gate_of 0 ex_full ++ calls /\ gate_of 1 t' = gate_of 1 ex_full ++ calls' /\
    exists c, rtc lock_step (free_mutex, goroutines [calls; calls']) c /\ stuck c.
Proof.
  cbv zeta.
  assert (H : ix_intentDrops (run_final unit (run (HandleObservation (mkScope "ns" 0) first_key 0 (fun _ => false) (ex_observation InspectionModeIPS "o1" "ssh" None)) [] ex_full)) <> ix_intentDrops ex_full)
    by (vm_compute; discriminate).
  split; [exact H|]. exact (full_queue_deadlock (mkScope "ns" 0) first_key 0 (fun _ => false) (ex_observation InspectionModeIPS "o1" "ssh" None) [] ex_full 1 [] ex_full (Forall_nil_2 _) (Forall_nil_2 _) H).
Defined.

(** Two workers with an intent each, a change of the session and an activation. *)
Definition ex_worker (me : nat) : list GateCall := gate_of me (run_final unit (run (executeIntent me (Some (Ok ex_record)) ex_intent) [] ex_queued)).

Lemma ex_worker_calls : ex_worker 7 = [RLock; RUnlock; RLock; RUnlock].
Proof. vm_compute. reflexivity. Qed.

Lemma ex_worker_client : gate_client [RLock; RUnlock; RLock; RUnlock].
Proof.
  rewrite <- ex_worker_calls. rewrite <- (app_nil_r (ex_worker 7)). apply (intent_client 7 (Some (Ok ex_record)) ex_intent [] ex_queued); [constructor | | constructor].
  assert (E : gate_of 7 ex_queued = []) by (vm_compute; reflexivity). rewrite E. reflexivity.
Qed.

Lemma ex_activation_client : gate_client [Lock; Unlock].
Proof. change [Lock; Unlock] with ([Lock; Unlock] ++ []). apply (activation_client 7 [] ex_full); [constructor | vm_compute; reflexivity | constructor]. Qed.

Lemma gate_clients_finish_witness :
  Forall gate_client [[RLock; RUnlock; RLock; RUnlock]; [Lock; Unlock]; [RLock; RUnlock; RLock; RUnlock]] /\
  ~ stuck (free_mutex, goroutines [[RLock; RUnlock; RLock; RUnlock]; [Lock; Unlock]; [RLock; RUnlock; RLock; RUnlock]]).
Proof.
  assert (H : Forall gate_client [[RLock; RUnlock; RLock; RUnlock]; [Lock; Unlock]; [RLock; RUnlock; RLock; RUnlock]])
    by exact (Forall_cons_2 _ _ _ ex_worker_client (Forall_cons_2 _ _ _ ex_activation_client (Forall_cons_2 _ _ _ ex_worker_client (Forall_nil_2 _)))).
  split; [exact H|]. exact (proj1 (gate_clients_finish _ _ 0 H (nsteps_O _ _))).
Defined.

Definition ex_next_selection : InspectionSelection := mkInspectionSelection "web" "p1" InspectionModeIPS "builtin" ["DNS"] 5000 4.

(** The guard of [ex_applied] was installed for SSH; another IPS policy allows DNS only. *)
Lemma policy_change_forgets_guard_witness :
  let selection := ex_next_selection in
  exists i, rs_Inspection ex_applied = Some i /\
  (forall env s, within (keeps ix_intentQueue) env ->
     ix_intentQueue (run_final unit (run (apply_selection selection ex_applied) env s)) = ix_intentQueue s).
Proof.
  cbv zeta. set (i := default DefaultSessionInspection (rs_Inspection ex_applied)).
  assert (Hi : rs_Inspection ex_applied = Some i) by (vm_compute; reflexivity). exists i. split; [exact Hi|].
  assert (Hg : guard_status (si_Enforcement i) EnforcementApplied = true) by (vm_compute; reflexivity).
  assert (Hm : is_Mode ex_next_selection = InspectionModeIPS) by reflexivity.
  assert (Hd : (EvaluateAppRestriction ex_next_selection (si_Application i) None 0).1 = AppPolicyMismatch) by (vm_compute; reflexivity).
  clearbody i. apply restriction_mismatch_iff in Hd.
  exact (proj2 (policy_change_forgets_guard ex_next_selection ex_applied i Hi Hg Hm Hd)).
Defined.
