(* ===== verification/Guards.v ===== *)
(** * Session guards in the kernel

    [internal/dataplane/inspection_guards.go] and [runtime_guards.go]: the manager
    that keeps application guards in the nftables table [ngfw_inspection], the
    lease that tells the kernel an inline sensor is alive, and the sets of
    blocked sources and revoked sessions.

    A script is the text of a list of commands.  The nft adapter is a parameter:
    what it answers to a script and to a question about a set. *)

From S2P Require Import Prelude GoStr Netip Domain Interleave.

Local Open Scope Z_scope.

(** ** Scripts *)

Definition nl : string := String (char_of 10) "".

Inductive NftCommand : Type :=
| AddSet (set : string)
| AddChain (chain : string)
| FlushChain (chain : string)
| AddRule (chain : string) (zone : Z) (set : string)
| DeleteRoot (id : string)
| AddRoot (id chain : string)
| AddElement (set element timeout : string)
| DeleteElement (set element : string)
| DeleteChain (chain : string)
| DeleteSet (set : string).

Definition inspectionGuardTuple : string :=
  "ct original ip saddr . ct original proto-src . ct original ip daddr . ct original proto-dst . meta l4proto".

Definition render_command (c : NftCommand) : string :=
  match c with
  | AddSet s => "add set inet ngfw_inspection " +:+ s +:+
                " { type ipv4_addr . inet_service . ipv4_addr . inet_service . inet_proto; flags timeout; timeout 60s; }" +:+ nl
  | AddChain c => "add chain inet ngfw_inspection " +:+ c +:+ nl
  | FlushChain c => "flush chain inet ngfw_inspection " +:+ c +:+ nl
  | AddRule c zone s => "add rule inet ngfw_inspection " +:+ c +:+ " ct zone " +:+ itoa zone +:+ " " +:+ inspectionGuardTuple +:+ " @" +:+ s +:+ " counter drop" +:+ nl
  | DeleteRoot id => "delete element inet ngfw_inspection app_denied_v4 { " +:+ id +:+ " }" +:+ nl
  | AddRoot id c => "add element inet ngfw_inspection app_denied_v4 { " +:+ id +:+ " : jump " +:+ c +:+ " }" +:+ nl
  | AddElement s e t => "add element inet ngfw_inspection " +:+ s +:+ " { " +:+ e +:+ " timeout " +:+ t +:+ " }" +:+ nl
  | DeleteElement s e => "delete element inet ngfw_inspection " +:+ s +:+ " { " +:+ e +:+ " }" +:+ nl
  | DeleteChain c => "delete chain inet ngfw_inspection " +:+ c +:+ nl
  | DeleteSet s => "delete set inet ngfw_inspection " +:+ s +:+ nl
  end.

Fixpoint render (script : list NftCommand) : string :=
  match script with [] => "" | c :: rest => render_command c +:+ render rest end.

(** The adapter. *)
Class InspectionNft (K : Type) := {
  ApplyInspectionMutation : K -> string -> K * option string;
  InspectionSetContains : K -> string -> string -> K * result string bool
}.

(** ** Keys *)

Record InspectionGuardKey : Type := mkGuardKey { gk_ConntrackZone : Z; gk_ConntrackID : Z; gk_Original : Tuple }.

#[global] Instance GuardKey_eq_dec : EqDecision InspectionGuardKey.
Proof. solve_decision. Defined.

Definition addr_code (a : Addr) : list Z :=
  match a with AddrZero => [] | Addr4 x => [x] | Addr6 x z => [x; Zpos (encode z)] end.
Definition code_addr (l : list Z) : Addr :=
  match l with [x] => Addr4 x | [x; Zpos p] => Addr6 x (default "" (decode p)) | _ => AddrZero end.

(** Flat, so that sets of keys are cheap to evaluate. *)
#[global] Instance GuardKey_countable : Countable InspectionGuardKey.
Proof.
  refine (inj_countable'
    (fun k => let t := gk_Original k in
       [[gk_ConntrackZone k; gk_ConntrackID k; tp_Family t; tp_SrcPort t; tp_DstPort t; tp_Protocol t; tp_ICMPType t; tp_ICMPCode t; tp_ICMPID t];
        addr_code (tp_SrcIP t); addr_code (tp_DstIP t)])
    (fun l => match l with
              | [[zone; id; f; sp; dp; p; ty; c; i]; src; dst] => mkGuardKey zone id (mkTuple f (code_addr src) sp (code_addr dst) dp p ty c i)
              | _ => mkGuardKey 0 0 tuple_zero
              end) _).
  assert (Ha : forall a, code_addr (addr_code a) = a) by (intros [| x | x z]; cbn; [done | done | by rewrite decode_encode]).
  intros [zone id [f src sp dst dp p ty c i]]. cbn. by rewrite !Ha.
Defined.

Definition BuildInspectionGuardKey (identity : ConntrackIdentity) : result string InspectionGuardKey :=
  if ci_ID identity =? 0 then Err "application guard requires conntrack ID"
  else
    let tuple := ci_Original identity in
    if negb (Tuple_Valid tuple) || negb (tp_Family tuple =? FamilyIPv4) then Err "application guard requires valid IPv4 original tuple"
    else if negb (tp_Protocol tuple =? 6) && negb (tp_Protocol tuple =? 17) then Err "application guard supports TCP or UDP"
    else Ok (mkGuardKey (ci_Zone identity) (ci_ID identity) tuple).

Definition element (k : InspectionGuardKey) : string :=
  let t := gk_Original k in
  addr_String (tp_SrcIP t) +:+ " . " +:+ itoa (tp_SrcPort t) +:+ " . " +:+ addr_String (tp_DstIP t) +:+ " . " +:+ itoa (tp_DstPort t) +:+ " . " +:+
  (if tp_Protocol t =? 17 then "udp" else "tcp").

Definition setName (k : InspectionGuardKey) : string := "app_denied_z" +:+ itoa (gk_ConntrackZone k) +:+ "_i" +:+ itoa (gk_ConntrackID k).

Definition inspectionGuardChain (id : Z) : string := "app_guard_i" +:+ itoa id.

Definition nftDuration (value : Duration) : string :=
  let seconds := Z.quot value Second in
  itoa (if seconds <? 1 then 1 else seconds) +:+ "s".

Definition inspectionGuardChainScript (id : Z) (groups : list InspectionGuardKey) : list NftCommand :=
  let chain := inspectionGuardChain id in
  AddChain chain :: FlushChain chain :: ((fun g => AddRule chain (gk_ConntrackZone g) (setName g)) <$> groups).

(** ** The manager *)

Section manager.
Context {K : Type} {N : InspectionNft K}.

Record InspectionGuardManager : Type := mkGuardManager {
  gm_nft : option K;
  gm_owned : gset InspectionGuardKey;
  gm_max : Z
}.

#[global] Instance eta_GuardManager : Eta InspectionGuardManager := fun g => mkGuardManager (gm_nft g) (gm_owned g) (gm_max g).

Abbreviation GM := (Prog InspectionGuardManager) (only parsing).

Definition NewInspectionGuardManager (nft : option K) (max : Z) : InspectionGuardManager := mkGuardManager nft ∅ (if max <=? 0 then 10000 else max).

Definition contains (set needle : string) : GM (result string bool) :=
  atomic (fun g => match gm_nft g with
                   | Some k => let '(k, r) := InspectionSetContains k set needle in (g <| gm_nft := Some k |>, r)
                   | None => (g, Err "inspection nft adapter unavailable")
                   end).

Definition mutate (script : list NftCommand) : GM (option string) :=
  atomic (fun g => match gm_nft g with
                   | Some k => let '(k, e) := ApplyInspectionMutation k (render script) in (g <| gm_nft := Some k |>, e)
                   | None => (g, Some "inspection nft adapter unavailable")
                   end).

(** One round of the loop over [owned]. *)
Definition zone_step (id : Z) (remove : option InspectionGuardKey) (m : gmap Z InspectionGuardKey) (k : InspectionGuardKey) : gmap Z InspectionGuardKey :=
  if (gk_ConntrackID k =? id) && negb (bool_decide (Some k = remove)) then <[gk_ConntrackZone k := k]> m else m.

(** [byZone] after the loop and the addition; [l] is [owned] in the order Go visits it. *)
Definition by_zone (id : Z) (add remove : option InspectionGuardKey) (l : list InspectionGuardKey) : gmap Z InspectionGuardKey :=
  let m := foldl (zone_step id remove) ∅ l in
  match add with Some k => <[gk_ConntrackZone k := k]> m | None => m end.

Definition zone_less (a b : InspectionGuardKey) : bool := gk_ConntrackZone a <? gk_ConntrackZone b.

Definition groups (id : Z) (add remove : option InspectionGuardKey) : GM (list InspectionGuardKey) :=
  peek (fun g => sort_by zone_less (map_to_list (by_zone id add remove (elements (gm_owned g)))).*2).

Definition installed (key : InspectionGuardKey) : GM (result string bool) :=
  present ← contains (setName key) (element key);
  match present with
  | Ok true => contains "app_denied_v4" (itoa (gk_ConntrackID key))
  | Ok false => mret (Ok false)
  | Err e => mret (Err e)
  end.

Definition install_script (key : InspectionGuardKey) (groups : list InspectionGuardKey) (rootPresent : bool) (ttl : Duration) : list NftCommand :=
  [AddSet (setName key)] ++ inspectionGuardChainScript (gk_ConntrackID key) groups ++
  (if rootPresent then [DeleteRoot (itoa (gk_ConntrackID key))] else []) ++
  [AddRoot (itoa (gk_ConntrackID key)) (inspectionGuardChain (gk_ConntrackID key)); AddElement (setName key) (element key) (nftDuration ttl)].

(** The readback at the end. *)
Definition confirm (key : InspectionGuardKey) (message : string) : GM (option string) :=
  present ← installed key;
  mret (match present with Ok true => None | Ok false => Some message | Err e => Some e end).

Definition installAppGuardLocked (key : InspectionGuardKey) (ttl : Duration) : GM (option string) :=
  nft ← peek gm_nft;
  match nft with
  | None => mret (Some "inspection nft adapter unavailable")
  | Some _ =>
      match BuildInspectionGuardKey (mkConntrackIdentity "" "" (gk_ConntrackZone key) 0 (gk_ConntrackID key) 0 (gk_Original key)) with
      | Err e => mret (Some e)
      | Ok _ =>
          let ttl := if ttl <=? 0 then Minute else ttl in
          full ← peek (fun g => negb (bool_decide (key ∈ gm_owned g)) && (gm_max g <=? Z.of_nat (size (gm_owned g))));
          if full : bool then mret (Some "application guard capacity reached")
          else
            root ← contains "app_denied_v4" (itoa (gk_ConntrackID key));
            match root with
            | Err e => mret (Some e)
            | Ok rootPresent =>
                gs ← groups (gk_ConntrackID key) (Some key) None;
                failed ← mutate (install_script key gs rootPresent ttl);
                refused ← match failed with
                          | None => mret None
                          | Some e =>
                              present ← installed key;
                              mret (match present with Ok true => None | _ => Some e end)
                          end;
                match refused with
                | Some e => mret (Some e)
                | None =>
                    _ ← modify (fun g => g <| gm_owned ::= fun o => {[key]} ∪ o |>);
                    confirm key "application guard readback failed"
                end
            end
      end
  end.

(** [mutation] is held for the whole call: operations do not interleave. *)
Definition InstallAppGuard (key : InspectionGuardKey) (ttl : Duration) : GM (option string) := installAppGuardLocked key ttl.

Definition keeps_group (key : InspectionGuardKey) (groups : list InspectionGuardKey) : bool :=
  existsb (fun g => gk_ConntrackZone g =? gk_ConntrackZone key) groups.

(** The script once the group of the key goes; [root] when the chain goes too. *)
Definition remove_group_script (key : InspectionGuardKey) (groups : list InspectionGuardKey) (root : bool) : list NftCommand :=
  (if bool_decide (groups = [])
   then (if root then [DeleteRoot (itoa (gk_ConntrackID key))] else []) ++
        [FlushChain (inspectionGuardChain (gk_ConntrackID key)); DeleteChain (inspectionGuardChain (gk_ConntrackID key))]
   else inspectionGuardChainScript (gk_ConntrackID key) groups) ++
  [DeleteSet (setName key)].

Definition RemoveAppGuard (key : InspectionGuardKey) : GM (option string) :=
  nft ← peek gm_nft;
  match nft with
  | None => mret (Some "inspection nft adapter unavailable")
  | Some _ =>
      owned ← peek (fun g => bool_decide (key ∈ gm_owned g));
      if negb owned then mret None
      else
        present ← contains (setName key) (element key);
        match present with
        | Err e => mret (Some e)
        | Ok here =>
            let script := if here : bool then [DeleteElement (setName key) (element key)] else [] in
            gs ← groups (gk_ConntrackID key) None (Some key);
            whole ← (if keeps_group key gs then mret (Ok script)
                     else if bool_decide (gs = []) then
                       root ← contains "app_denied_v4" (itoa (gk_ConntrackID key));
                       mret (match root with Err e => Err e | Ok r => Ok (script ++ remove_group_script key gs r) end)
                     else mret (Ok (script ++ remove_group_script key gs false)));
            match whole with
            | Err e => mret (Some e)
            | Ok script =>
                failed ← (if bool_decide (script = []) then mret None else mutate script);
                match failed with
                | Some e => mret (Some e)
                | None => _ ← modify (fun g => g <| gm_owned ::= fun o => o ∖ {[key]} |>); mret None
                end
            end
        end
  end.

Definition renew_script (key : InspectionGuardKey) (ttl : Duration) : list NftCommand :=
  [DeleteElement (setName key) (element key); AddElement (setName key) (element key) (nftDuration ttl)].

Definition RenewAppGuard (key : InspectionGuardKey) (ttl : Duration) : GM (option string) :=
  nft ← peek gm_nft;
  match nft with
  | None => mret (Some "inspection nft adapter unavailable")
  | Some _ =>
      owned ← peek (fun g => bool_decide (key ∈ gm_owned g));
      if negb owned then installAppGuardLocked key ttl
      else
        let ttl := if ttl <=? 0 then Minute else ttl in
        failed ← mutate (renew_script key ttl);
        match failed with
        | Some _ => installAppGuardLocked key ttl
        | None => confirm key "application guard renewal readback failed"
        end
  end.

(** [order] is the order in which Go visits [owned]; the errors that are joined. *)
Definition ClearOwned (order : gset InspectionGuardKey -> list InspectionGuardKey) : GM (list string) :=
  keys ← peek (fun g => order (gm_owned g));
  (fix loop (l : list InspectionGuardKey) : GM (list string) :=
     match l with
     | [] => mret []
     | k :: rest => e ← RemoveAppGuard k; es ← loop rest; mret (match e with Some m => m :: es | None => es end)
     end) keys.

Definition ExecuteInspectionIntent (intent : InspectionIntent) (now : Time) : GM (EnforcementResult * option string) :=
  let result status reason observed :=
    mkEnforcementResult EnforcementNFTSessionGuard EnforcementScopeSession (ii_RequestedAction intent) status reason observed (ii_OperationID intent) in
  match BuildInspectionGuardKey (ii_Identity intent) with
  | Err e => mret (result EnforcementUnavailable e None, Some e)
  | Ok key =>
      failed ← match ii_Kind intent with
               | IntentInstallAppGuard => InstallAppGuard key Minute
               | IntentRenewAppGuard => RenewAppGuard key Minute
               | IntentRemoveAppGuard => RemoveAppGuard key
               | _ => mret (Some "unsupported inspection intent")
               end;
      mret (match failed with
            | Some e => (result EnforcementFailed e None, Some e)
            | None => (result EnforcementApplied (ii_Reason intent) (Some now), None)
            end)
  end.
End manager.
Arguments InspectionGuardManager : clear implicits.

(** ** Names *)

(** [strings.Cut]: what is before and after the first [sep]. *)
Fixpoint Cut (sep s : string) : option (string * string) :=
  if HasPrefix s sep then Some ("", TrimPrefix s sep)
  else match s with
       | EmptyString => None
       | String c rest => match Cut sep rest with Some (a, b) => Some (String c a, b) | None => None end
       end.

Definition CutPrefix (s prefix : string) : option string := if HasPrefix s prefix then Some (TrimPrefix s prefix) else None.

(** [strconv.ParseUint(s, 10, bits)]. *)
Definition ParseUintBits (bits : Z) (s : string) : option Z :=
  match ParseUint s with Some n => if n <? 2 ^ bits then Some n else None | None => None end.

Definition validInspectionGuardChain (name : string) : bool :=
  match CutPrefix name "app_guard_i" with
  | Some raw => match ParseUintBits 32 raw with Some id => negb (id =? 0) && bool_decide (name = inspectionGuardChain id) | None => false end
  | None => false
  end.

Definition validInspectionGuardSet (name : string) : bool :=
  match CutPrefix name "app_denied_z" with
  | Some raw =>
      match Cut "_i" raw with
      | Some (zoneRaw, idRaw) =>
          match ParseUintBits 16 zoneRaw, ParseUintBits 32 idRaw with
          | Some zone, Some id => negb (id =? 0) && bool_decide (name = setName (mkGuardKey zone id tuple_zero))
          | _, _ => false
          end
      | None => false
      end
  | None => false
  end.

(** [strings.Split] with a separator of several bytes. *)
Fixpoint split_on (fuel : nat) (sep s : string) : list string :=
  match fuel with
  | O => [s]
  | S n => match Cut sep s with Some (a, rest) => a :: split_on n sep rest | None => [s] end
  end.

Definition ParseGuardElement (value : string) : option InspectionGuardKey :=
  match split_on (String.length value) " . " value with
  | [zone; id; src; srcPort; dst; dstPort; proto] =>
      zone ← ParseUintBits 16 (TrimSpace zone);
      id ← ParseUintBits 32 (TrimSpace id);
      src ← ParseAddr (TrimSpace src);
      srcPort ← ParseUintBits 16 (TrimSpace srcPort);
      dst ← ParseAddr (TrimSpace dst);
      dstPort ← ParseUintBits 16 (TrimSpace dstPort);
      Some (mkGuardKey zone id (mkTuple FamilyIPv4 src srcPort dst dstPort (if bool_decide (TrimSpace proto = "udp") then 17 else 6) 0 0 0))
  | _ => None
  end.

(** ** The lease of the inline sensor *)

Section lease.
Context {K : Type} {N : InspectionNft K}.

Definition apply_text (nft : option K) (script : string) (missing : option string) : option K * option string :=
  match nft with
  | None => (None, missing)
  | Some k => let '(k, e) := ApplyInspectionMutation k script in (Some k, e)
  end.

Definition RenewIPSLease (nft : option K) (ttl : Duration) : option K * option string :=
  let duration := nftDuration (if ttl <=? 0 then 3 * Second else ttl) in
  apply_text nft ("flush set inet ngfw_inspection ips_ready" +:+ nl +:+ "add element inet ngfw_inspection ips_ready { ipv4 . tcp timeout " +:+ duration +:+
                  ", ipv4 . udp timeout " +:+ duration +:+ " }" +:+ nl) (Some "inspection nft adapter unavailable").

Definition StopIPSLease (nft : option K) : option K * option string := apply_text nft ("flush set inet ngfw_inspection ips_ready" +:+ nl) None.

Record LeaseState : Type := mkLeaseState { ls_Active : bool; ls_LastRenewal : option Time; ls_LastError : string }.

Record IPSLeaseManager : Type := mkLeaseManager { lm_nft : option K; lm_ttl : Duration; lm_state : LeaseState }.

Definition NewIPSLeaseManager (nft : option K) : IPSLeaseManager := mkLeaseManager nft (3 * Second) (mkLeaseState false None "").

Definition tick (m : IPSLeaseManager) (now : Time) (live : bool) : IPSLeaseManager :=
  let '(nft, err) := if live then RenewIPSLease (lm_nft m) (lm_ttl m) else StopIPSLease (lm_nft m) in
  mkLeaseManager nft (lm_ttl m)
    (if live && bool_decide (err = None) then mkLeaseState true (Some now) ""
     else mkLeaseState false (ls_LastRenewal (lm_state m)) (default "" err)).

Definition StateAt (m : IPSLeaseManager) (now : Time) : LeaseState :=
  let s := lm_state m in
  let stale := match ls_LastRenewal s with None => true | Some t => After now (t + lm_ttl m) end in
  if ls_Active s && stale
  then mkLeaseState false (ls_LastRenewal s) (if bool_decide (ls_LastError s = "") then "IPS lease renewal is stale" else ls_LastError s)
  else s.

(** [Run]: a tick per second with what [live] answered, and the stop at the end. *)
Definition lease_run (m : IPSLeaseManager) (ticks : list (Time * bool)) : IPSLeaseManager :=
  foldl (fun m t => tick m t.1 t.2) m ticks.
Definition lease_stop (m : IPSLeaseManager) : IPSLeaseManager := mkLeaseManager (StopIPSLease (lm_nft m)).1 (lm_ttl m) (lm_state m).
End lease.
Arguments IPSLeaseManager : clear implicits.

(** ** Blocks and revocations *)

Class RuntimeNft (K : Type) := { ApplyRuntimeMutation : K -> string -> K * option string }.

Section runtime_guards.
Context {K : Type} {N : RuntimeNft K}.

Definition runtime_apply (nft : option K) (script : string) : option K * option string :=
  match nft with
  | None => (None, Some "runtime guard manager is unavailable")
  | Some k => let '(k, e) := ApplyRuntimeMutation k script in (Some k, e)
  end.

Definition block_address (indicator : string) : option Addr :=
  match ParseAddr (TrimSpace indicator) with Some a => if Is4 a then Some a else None | None => None end.

Definition AddSourceBlock (nft : option K) (now : Time) (indicator : string) (expires : Time) : option K * option string :=
  match block_address indicator with
  | None => (nft, Some "temporary block requires IPv4 address")
  | Some address =>
      let ttl := expires - now in
      if ttl <=? 0 then (nft, Some "temporary block is already expired")
      else runtime_apply nft ("add element inet ngfw_runtime source_blocks { " +:+ addr_String address +:+ " timeout " +:+ nftDuration ttl +:+ " }" +:+ nl)
  end.

Definition RemoveSourceBlock (nft : option K) (indicator : string) : option K * option string :=
  match block_address indicator with
  | None => (nft, Some "temporary block requires IPv4 address")
  | Some address => runtime_apply nft ("delete element inet ngfw_runtime source_blocks { " +:+ addr_String address +:+ " }" +:+ nl)
  end.

Definition RevokeSession (nft : option K) (session : RuntimeSession) : option K * option string :=
  if ci_ID (rs_Identity session) =? 0 then (nft, Some "cannot revoke session without conntrack ID")
  else runtime_apply nft ("add element inet ngfw_runtime revoked_ctids { " +:+ itoa (ci_ID (rs_Identity session)) +:+ " }" +:+ nl).

Definition ReleaseSession (nft : option K) (session : RuntimeSession) : option K * option string :=
  if ci_ID (rs_Identity session) =? 0 then (nft, None)
  else runtime_apply nft ("delete element inet ngfw_runtime revoked_ctids { " +:+ itoa (ci_ID (rs_Identity session)) +:+ " }" +:+ nl).
End runtime_guards.
