(* ===== verification/NftModel.v ===== *)
(** * The kernel side of the guards

    What the guard manager relies on of nftables: the objects it keeps there, what
    its commands do to them and which packets they drop.  The text of a script
    reads back as its commands; an adapter that executes what it reads satisfies
    the laws, and so does one whose process is killed after the kernel committed. *)

From S2P Require Import Prelude GoStr Netip Domain Interleave Guards.
From Stdlib Require Import Ascii.

Local Open Scope Z_scope.

(** ** The kernel *)

(** The entries of [app_denied_v4], the chains with their rules (zone and set), and
    the sets with their elements. *)
Record Table : Type := mkTable {
  tb_roots : gmap string string;
  tb_chains : gmap string (list (Z * string));
  tb_sets : gmap string (gset string)
}.

Definition free_table : Table := mkTable ∅ ∅ ∅.

(** One command, [None] when nft refuses it. *)
Definition exec (t : Table) (c : NftCommand) : option Table :=
  let '(mkTable roots chains sets) := t in
  match c with
  | AddSet s => Some (mkTable roots chains (match sets !! s with Some _ => sets | None => <[s := ∅]> sets end))
  | AddChain c => Some (mkTable roots (match chains !! c with Some _ => chains | None => <[c := []]> chains end) sets)
  | FlushChain c => match chains !! c with Some _ => Some (mkTable roots (<[c := []]> chains) sets) | None => None end
  | AddRule c zone s =>
      match chains !! c, sets !! s with
      | Some rules, Some _ => Some (mkTable roots (<[c := rules ++ [(zone, s)]]> chains) sets)
      | _, _ => None
      end
  | DeleteRoot id => match roots !! id with Some _ => Some (mkTable (delete id roots) chains sets) | None => None end
  | AddRoot id c =>
      match chains !! c, roots !! id with
      | Some _, None => Some (mkTable (<[id := c]> roots) chains sets)
      | Some _, Some c' => if bool_decide (c' = c) then Some t else None
      | None, _ => None
      end
  | AddElement s e _ => match sets !! s with Some els => Some (mkTable roots chains (<[s := {[e]} ∪ els]> sets)) | None => None end
  | DeleteElement s e =>
      match sets !! s with
      | Some els => if bool_decide (e ∈ els) then Some (mkTable roots chains (<[s := els ∖ {[e]}]> sets)) else None
      | None => None
      end
  | DeleteChain c =>
      match chains !! c with
      | Some [] => if bool_decide (map_Forall (fun _ c' => c' <> c) roots) then Some (mkTable roots (delete c chains) sets) else None
      | _ => None
      end
  | DeleteSet s =>
      match sets !! s with
      | Some _ => if bool_decide (map_Forall (fun _ rules => Forall (fun r => r.2 <> s) rules) chains) then Some (mkTable roots chains (delete s sets)) else None
      | None => None
      end
  end.

Fixpoint exec_all (t : Table) (script : list NftCommand) : option Table :=
  match script with [] => Some t | c :: rest => match exec t c with Some t => exec_all t rest | None => None end end.

(** A packet of the connection [p]: its identifier selects the chain, and a rule of the
    chain drops it when the zone and the tuple match. *)
Definition dropped (t : Table) (p : InspectionGuardKey) : Prop :=
  exists chain rules s els,
    tb_roots t !! itoa (gk_ConntrackID p) = Some chain /\ tb_chains t !! chain = Some rules /\
    (gk_ConntrackZone p, s) ∈ rules /\ tb_sets t !! s = Some els /\ element p ∈ els.

(** Elements expire. *)
Definition expires (t t' : Table) : Prop :=
  tb_roots t' = tb_roots t /\ tb_chains t' = tb_chains t /\
  forall s, match tb_sets t !! s, tb_sets t' !! s with
            | Some els, Some els' => els' ⊆ els
            | None, None => True
            | _, _ => False
            end.

(** ** Names are unambiguous *)

Definition without (c : ascii) (s : string) : Prop := all_chars (fun x => negb (Ascii.eqb x c)) s = true.

Lemma sep_inj c a a' r r' : without c a -> without c a' -> a +:+ String c r = a' +:+ String c r' -> a = a' /\ r = r'.
Proof.
  unfold without. revert a'. induction a as [| x a IH]; intros a' Ha Ha' E.
  - destruct a' as [| y a']; [by injection E as ->|]. cbn in E. injection E as -> _. cbn in Ha'. by rewrite Ascii.eqb_refl in Ha'.
  - destruct a' as [| y a']; [cbn in E; injection E as -> _; cbn in Ha; by rewrite Ascii.eqb_refl in Ha|].
    cbn in *. injection E as -> E. apply andb_true_iff in Ha as [_ Ha], Ha' as [_ Ha']. by destruct (IH a' Ha Ha' E) as [-> ->].
Qed.

Lemma itoa_without c n : is_digit c = false -> Ascii.eqb dash c = false -> without c (itoa n).
Proof.
  intros Hd Hdash.
  assert (Hpos : forall m, 0 <= m -> without c (itoa m)).
  { intros m Hm. unfold without. eapply all_chars_impl; [|by apply itoa_spec]. intros x Hx. destruct (Ascii.eqb_spec x c) as [->|]; [congruence | done]. }
  destruct (decide (0 <= n)) as [Hn | Hn]; [by apply Hpos|].
  assert (E : itoa n = String dash (itoa (- n))) by (unfold itoa, pretty, pretty_Z; destruct n as [| p | p]; [lia | lia | done]).
  rewrite E. unfold without. cbn [all_chars]. rewrite Hdash. apply Hpos. lia.
Qed.

Lemma itoa_inj n m : itoa n = itoa m -> n = m.
Proof. apply (inj pretty). Qed.

Lemma app_inj_head (p a b : string) : p +:+ a = p +:+ b -> a = b.
Proof. induction p as [| c p IH]; cbn; [done|]. intros E. injection E as E. by apply IH. Qed.

Lemma chain_inj i j : inspectionGuardChain i = inspectionGuardChain j -> i = j.
Proof. intros E%app_inj_head. by apply itoa_inj. Qed.

Lemma setName_inj a b : setName a = setName b -> gk_ConntrackZone a = gk_ConntrackZone b /\ gk_ConntrackID a = gk_ConntrackID b.
Proof.
  intros E%app_inj_head. apply (sep_inj "_"%char) in E as [Ez Ei]; [|by apply itoa_without..].
  apply itoa_inj in Ez. apply (app_inj_head "i") in Ei. split; [done | by apply itoa_inj].
Qed.

Lemma setName_eq a b : gk_ConntrackZone a = gk_ConntrackZone b -> gk_ConntrackID a = gk_ConntrackID b -> setName a = setName b.
Proof. unfold setName. by intros -> ->. Qed.

Lemma without_app c a b : without c a -> without c b -> without c (a +:+ b).
Proof. unfold without. intros Ha Hb. by rewrite all_chars_app, Ha, Hb. Qed.

Lemma v4_without x : without " "%char (string_v4 x).
Proof. unfold string_v4. repeat (apply without_app; [by (apply itoa_without || done)|]). by apply itoa_without. Qed.

Lemma v4_digits x : x = Z.shiftr x 24 * 2 ^ 24 + Z.land (Z.shiftr x 16) 255 * 2 ^ 16 + Z.land (Z.shiftr x 8) 255 * 2 ^ 8 + Z.land x 255.
Proof.
  change 255 with (Z.ones 8). rewrite !Z.land_ones, !Z.shiftr_div_pow2 by lia. change (2 ^ 24) with (2 ^ 8 * 2 ^ 16). change (2 ^ 16) with (2 ^ 8 * 2 ^ 8).
  rewrite <- !Z.div_div by lia. set (h := 2 ^ 8). assert (Hh : h = 256) by reflexivity. clearbody h. subst h.
  pose proof (Z.div_mod x 256). pose proof (Z.div_mod (x / 256) 256). pose proof (Z.div_mod (x / 256 / 256) 256). lia.
Qed.

Lemma v4_inj x y : string_v4 x = string_v4 y -> x = y.
Proof.
  unfold string_v4. intros E. apply (sep_inj "."%char) in E as [E1 E]; [|by apply itoa_without..].
  apply (sep_inj "."%char) in E as [E2 E]; [|by apply itoa_without..]. apply (sep_inj "."%char) in E as [E3 E4]; [|by apply itoa_without..].
  apply itoa_inj in E1, E2, E3, E4. rewrite (v4_digits x), (v4_digits y). congruence.
Qed.

Lemma HasPrefix_app p r : HasPrefix (p +:+ r) p = true.
Proof.
  unfold HasPrefix. induction p as [| y p IH]; [by destruct r|]. change (String y p +:+ r) with (String y (p +:+ r)). cbn [String.prefix]. by destruct (ascii_dec y y).
Qed.

Lemma TrimPrefix_app p r : TrimPrefix (p +:+ r) p = r.
Proof.
  unfold TrimPrefix. rewrite HasPrefix_app. induction p as [| y p IH]; [done|]. change (String y p +:+ r) with (String y (p +:+ r)). exact IH.
Qed.

Lemma Cut_without c sep a b : without c a -> Cut (String c sep) (a +:+ String c sep +:+ b) = Some (a, b).
Proof.
  unfold without. induction a as [| x a IH]; intros Ha.
  - change ("" +:+ String c sep +:+ b) with (String c sep +:+ b). destruct (String c sep +:+ b) as [| y r] eqn:E; [done|]. cbn [Cut]. rewrite <- E. by rewrite HasPrefix_app, TrimPrefix_app.
  - apply andb_true_iff in Ha as [Hx Ha]. change (String x a +:+ String c sep +:+ b) with (String x (a +:+ String c sep +:+ b)). cbn [Cut].
    assert (E : HasPrefix (String x (a +:+ String c sep +:+ b)) (String c sep) = false).
    { unfold HasPrefix. cbn [String.prefix]. destruct (ascii_dec c x) as [<-|]; [by rewrite Ascii.eqb_refl in Hx | done]. }
    rewrite E, IH by done. done.
Qed.

(** A key as conntrack gives it: a 16-bit zone, IPv4, TCP or UDP, no ICMP fields. *)
Definition plain (k : InspectionGuardKey) : Prop :=
  0 <= gk_ConntrackZone k < 2 ^ 16 /\
  exists src dst, gk_Original k = mkTuple FamilyIPv4 (Addr4 src) (tp_SrcPort (gk_Original k)) (Addr4 dst) (tp_DstPort (gk_Original k)) (tp_Protocol (gk_Original k)) 0 0 0 /\
    (tp_Protocol (gk_Original k) = 6 \/ tp_Protocol (gk_Original k) = 17).

Lemma element_inj a b : plain a -> plain b -> element a = element b -> gk_Original a = gk_Original b.
Proof.
  intros (_ & s & d & Ha & Hpa) (_ & s' & d' & Hb & Hpb) E. rewrite Ha, Hb. unfold element in E. rewrite Ha, Hb in E. cbn [tp_SrcIP tp_DstIP tp_SrcPort tp_DstPort tp_Protocol addr_String] in E.
  apply (sep_inj " "%char) in E as [E1 E]; [|apply v4_without..]. apply (app_inj_head ". ") in E.
  apply (sep_inj " "%char) in E as [E2 E]; [|by apply itoa_without..]. apply (app_inj_head ". ") in E.
  apply (sep_inj " "%char) in E as [E3 E]; [|apply v4_without..]. apply (app_inj_head ". ") in E.
  apply (sep_inj " "%char) in E as [E4 E]; [|by apply itoa_without..]. apply (app_inj_head ". ") in E.
  apply v4_inj in E1, E3. apply itoa_inj in E2, E4. rewrite E1, E2, E3, E4.
  assert (Ep : tp_Protocol (gk_Original a) = tp_Protocol (gk_Original b)) by (destruct Hpa as [Ea | Ea], Hpb as [Eb | Eb]; rewrite Ea, Eb in E |- *; done).
  by rewrite Ep.
Qed.

Lemma guard_inj a b : plain a -> plain b -> setName a = setName b -> element a = element b -> a = b.
Proof. intros Ha Hb [Ez Ei]%setName_inj Et%element_inj; [|done..]. destruct a, b; cbn in *; congruence. Qed.

(** ** Reading a script *)

Definition word (s : string) : Prop := without " "%char s /\ without (char_of 10) s.

(** The commands of the manager: names are words, elements those of a key. *)
Definition sendable (c : NftCommand) : Prop :=
  match c with
  | AddSet s | DeleteSet s => word s
  | AddChain c | FlushChain c | DeleteChain c => word c
  | AddRule c zone s => word c /\ 0 <= zone < 2 ^ 16 /\ word s
  | DeleteRoot id => word id
  | AddRoot id c => word id /\ word c
  | AddElement s e t => word s /\ s <> "app_denied_v4" /\ (exists k, plain k /\ e = element k) /\ word t
  | DeleteElement s e => word s /\ s <> "app_denied_v4" /\ (exists k, plain k /\ e = element k)
  end.

(** What the manager may rely on: a script takes effect as a whole or not at all, a
    success means that it took effect, and a question is answered from the sets.  An
    error says nothing: nft may have been killed before or after the commit. *)
Class NftLaws {K : Type} (N : InspectionNft K) (table : K -> Table) := {
  apply_ok k script k' : Forall sendable script -> ApplyInspectionMutation k (render script) = (k', None) -> exec_all (table k) script = Some (table k');
  apply_err k script k' e : Forall sendable script -> ApplyInspectionMutation k (render script) = (k', Some e) ->
    table k' = table k \/ exec_all (table k) script = Some (table k');
  contains_same k s e k' r : InspectionSetContains k s e = (k', r) -> table k' = table k;
  contains_root k id k' b : InspectionSetContains k "app_denied_v4" id = (k', Ok b) -> b = bool_decide (is_Some (tb_roots (table k) !! id));
  contains_set k key k' b : InspectionSetContains k (setName key) (element key) = (k', Ok b) ->
    b = bool_decide (element key ∈ default ∅ (tb_sets (table k) !! setName key))
}.

(** No call fails after its script took effect. *)
Definition clean_errors {K : Type} (N : InspectionNft K) (table : K -> Table) : Prop :=
  forall k script k' e, Forall sendable script -> ApplyInspectionMutation k (render script) = (k', Some e) -> table k' = table k.

Definition same_text (a b : string) : bool := bool_decide (a = b).

(** The five fields of an element and what follows. *)
Definition read_element (l : list string) : option (string * list string) :=
  match l with
  | a :: _ :: b :: _ :: c :: _ :: d :: _ :: e :: rest => Some (a +:+ " . " +:+ b +:+ " . " +:+ c +:+ " . " +:+ d +:+ " . " +:+ e, rest)
  | _ => None
  end.

Definition read_command (line : string) : option NftCommand :=
  match Split " "%char line with
  | verb :: what :: _ :: _ :: name :: rest =>
      if same_text verb "add" && same_text what "set" then Some (AddSet name)
      else if same_text verb "add" && same_text what "chain" then Some (AddChain name)
      else if same_text verb "flush" && same_text what "chain" then Some (FlushChain name)
      else if same_text verb "delete" && same_text what "chain" then Some (DeleteChain name)
      else if same_text verb "delete" && same_text what "set" then Some (DeleteSet name)
      else if same_text verb "add" && same_text what "rule" then
        match rest with
        | _ :: _ :: zone :: fields =>
            match drop 20 fields, Atoi zone with
            | String _ set :: _, Some z => Some (AddRule name z set)
            | _, _ => None
            end
        | _ => None
        end
      else if same_text name "app_denied_v4" then
        match rest with
        | _ :: id :: more => if same_text verb "add" then match more with _ :: _ :: c :: _ => Some (AddRoot id c) | _ => None end else Some (DeleteRoot id)
        | _ => None
        end
      else
        match rest with
        | _ :: fields =>
            match read_element fields with
            | Some (e, more) => if same_text verb "add" then match more with _ :: t :: _ => Some (AddElement name e t) | _ => None end else Some (DeleteElement name e)
            | None => None
            end
        | _ => None
        end
  | _ => None
  end.

(** Every line ends with a newline. *)
Fixpoint read_lines (lines : list string) : option (list NftCommand) :=
  match lines with
  | [] | [_] => Some []
  | line :: rest => match read_command line, read_lines rest with Some c, Some cs => Some (c :: cs) | _, _ => None end
  end.

Definition read_script (text : string) : option (list NftCommand) := read_lines (Split (char_of 10) text).

Definition sp (r : string) : string := " " +:+ r.

(** The words of a line. *)
Fixpoint unwords (l : list string) : string := match l with [] => "" | [w] => w | w :: rest => w +:+ sp (unwords rest) end.

Lemma Split_unwords l : l <> [] -> Forall (without " "%char) l -> Split " "%char (unwords l) = l.
Proof.
  induction l as [| w l IH]; [done|]. intros _ [Hw Hl]%Forall_cons. destruct l as [| w' l]; [by apply Split_none|].
  change (unwords (w :: w' :: l)) with (w +:+ String " "%char (unwords (w' :: l))). rewrite Split_one by done. f_equal. by apply IH.
Qed.

Lemma append_assoc (a b c : string) : (a +:+ b) +:+ c = a +:+ b +:+ c.
Proof. induction a as [| x a IH]; [done|]. change (String x ((a +:+ b) +:+ c) = String x (a +:+ b +:+ c)). by rewrite IH. Qed.

Definition words_of (c : NftCommand) : list string :=
  let table verb what name rest := [verb; what; "inet"; "ngfw_inspection"; name] ++ rest in
  match c with
  | AddSet s => table "add" "set" s (Split " "%char "{ type ipv4_addr . inet_service . ipv4_addr . inet_service . inet_proto; flags timeout; timeout 60s; }")
  | AddChain c => table "add" "chain" c []
  | FlushChain c => table "flush" "chain" c []
  | AddRule c zone s => table "add" "rule" c (["ct"; "zone"; itoa zone] ++ Split " "%char inspectionGuardTuple ++ ["@" +:+ s; "counter"; "drop"])
  | DeleteRoot id => table "delete" "element" "app_denied_v4" ["{"; id; "}"]
  | AddRoot id c => table "add" "element" "app_denied_v4" ["{"; id; ":"; "jump"; c; "}"]
  | AddElement s e t => table "add" "element" s (["{"] ++ Split " "%char e ++ ["timeout"; t; "}"])
  | DeleteElement s e => table "delete" "element" s (["{"] ++ Split " "%char e ++ ["}"])
  | DeleteChain c => table "delete" "chain" c []
  | DeleteSet s => table "delete" "set" s []
  end.

(** The fields of an element. *)
Definition fields (k : InspectionGuardKey) : list string :=
  let t := gk_Original k in
  [addr_String (tp_SrcIP t); "."; itoa (tp_SrcPort t); "."; addr_String (tp_DstIP t); "."; itoa (tp_DstPort t); "."; if tp_Protocol t =? 17 then "udp" else "tcp"].

Lemma fields_words k : plain k -> Forall word (fields k).
Proof.
  assert (Hv4 : forall x, word (string_v4 x)).
  { intros x. split; [apply v4_without|]. unfold string_v4. repeat (apply without_app; [by (apply itoa_without || done)|]). by apply itoa_without. }
  intros (_ & src & dst & E & _). unfold fields. rewrite E. cbn [tp_SrcIP tp_DstIP tp_SrcPort tp_DstPort tp_Protocol addr_String].
  assert (Hn : forall n, word (itoa n)) by (intros n; split; by apply itoa_without).
  repeat (apply Forall_cons_2; [by (apply Hv4 || apply Hn || done || case_match)|]). constructor.
Qed.

Lemma element_fields k : element k = unwords (fields k).
Proof. unfold element, fields. cbn [unwords]. by case_match. Qed.

Lemma Split_element k : plain k -> Split " "%char (element k) = fields k.
Proof. intros Hk. rewrite element_fields. apply Split_unwords; [done|]. eapply Forall_impl; [by apply fields_words|]. by intros w [? _]. Qed.

Lemma unwords_cons w x l : unwords (w :: x :: l) = w +:+ sp (unwords (x :: l)).
Proof. done. Qed.

Lemma unwords_app l l' : l <> [] -> l' <> [] -> unwords (l ++ l') = unwords l +:+ sp (unwords l').
Proof.
  intros Hl Hl'. induction l as [| w l IH]; [done|]. destruct l as [| w' l]; [by destruct l'|].
  change ((w :: w' :: l) ++ l') with (w :: w' :: l ++ l'). rewrite !unwords_cons. change (unwords (w' :: l ++ l')) with (unwords ((w' :: l) ++ l')).
  rewrite (IH ltac:(done)). rewrite append_assoc. done.
Qed.

Definition wordb (s : string) : bool := all_chars (fun x => negb (Ascii.eqb x " "%char)) s && all_chars (fun x => negb (Ascii.eqb x (char_of 10))) s.

Lemma words_of_text l : forallb wordb l = true -> Forall word l.
Proof. rewrite forallb_forall, Forall_forall. intros H w Hw%list_elem_of_In. by apply andb_true_iff, H. Qed.

Lemma line_words verb what name rest : forallb wordb [verb; what] = true -> word name -> Forall word rest ->
  Forall word ([verb; what; "inet"; "ngfw_inspection"; name] ++ rest).
Proof.
  intros H Hn Hr. apply words_of_text in H as [H1 [H2 _]%Forall_cons]%Forall_cons. apply Forall_app. split; [|done].
  repeat (apply Forall_cons_2; [first [exact H1 | exact H2 | exact Hn | done]|]). constructor.
Qed.

Lemma element_unwords e k : plain k -> e = element k -> unwords (Split " "%char e) = e /\ Split " "%char e <> [] /\ Forall word (Split " "%char e).
Proof. intros Hk ->. rewrite Split_element by done. split_and!; [by rewrite element_fields | done | by apply fields_words]. Qed.

Ltac flat_text := cbn; unfold sp; rewrite !append_assoc; reflexivity.

Lemma render_words c : sendable c -> render_command c = unwords (words_of c) +:+ nl /\ Forall word (words_of c).
Proof.
  assert (Hone : forall w l, word w -> Forall word l -> Forall word (w :: l)) by (intros; by apply Forall_cons_2).
  assert (Hn : forall n, word (itoa n)) by (intros n; split; by apply itoa_without).
  destruct c as [s | c | c | c zone s | id | id c | s e t | s e | c | s]; cbn [sendable words_of].
  - intros Hs. split; [|apply line_words; [reflexivity | done | apply words_of_text; vm_compute; reflexivity]]. flat_text.
  - intros Hc. split; [flat_text | apply line_words; [reflexivity | done | constructor]].
  - intros Hc. split; [flat_text | apply line_words; [reflexivity | done | constructor]].
  - intros (Hc & _ & Hs). split.
    + flat_text.
    + apply line_words; [reflexivity | done |]. apply Forall_app. split; [repeat (apply Hone; [first [done | apply Hn]|]); constructor|]. apply Forall_app. split; [apply words_of_text; vm_compute; reflexivity|].
      apply Hone; [|apply words_of_text; vm_compute; reflexivity]. destruct Hs. split; by apply without_app.
  - intros Hid. split; [flat_text | apply line_words; [reflexivity | done |]; repeat (apply Hone; [first [done | apply Hn]|]); constructor].
  - intros (Hid & Hc). split; [flat_text | apply line_words; [reflexivity | done |]; repeat (apply Hone; [first [done | apply Hn]|]); constructor].
  - intros (Hs & _ & (k & Hk & He) & Ht). destruct (element_unwords e k Hk He) as (Eu & Hne & Hw). split.
    + rewrite (unwords_app [_; _; _; _; _]), (unwords_app ["{"]), (unwords_app (Split " "%char e)), Eu by (done || by destruct (Split " "%char e)). flat_text.
    + apply line_words; [reflexivity | done |]. apply Hone; [done|]. apply Forall_app. split; [done|]. repeat (apply Hone; [first [done | apply Hn]|]); constructor.
  - intros (Hs & _ & (k & Hk & He)). destruct (element_unwords e k Hk He) as (Eu & Hne & Hw). split.
    + rewrite (unwords_app [_; _; _; _; _]), (unwords_app ["{"]), (unwords_app (Split " "%char e)), Eu by (done || by destruct (Split " "%char e)). flat_text.
    + apply line_words; [reflexivity | done |]. apply Hone; [done|]. apply Forall_app. split; [done|]. repeat (apply Hone; [first [done | apply Hn]|]); constructor.
  - intros Hc. split; [flat_text | apply line_words; [reflexivity | done | constructor]].
  - intros Hc. split; [flat_text | apply line_words; [reflexivity | done | constructor]].
Qed.

Lemma unwords_without l : Forall word l -> without (char_of 10) (unwords l).
Proof.
  induction 1 as [| w l [_ Hw] _ IH]; [done|]. destruct l as [| w' l]; [done|]. rewrite unwords_cons. apply without_app; [done|]. by apply without_app.
Qed.

(** Comparisons of literals. *)
Ltac literal_tests := repeat match goal with
  | |- context [same_text ?a ?b] =>
      lazymatch eval vm_compute in (same_text a b) with
      | true => change (same_text a b) with true
      | false => change (same_text a b) with false
      end
  end; cbn [andb].

Lemma drop_tuple l : drop 20 (Split " "%char inspectionGuardTuple ++ l) = l.
Proof. apply drop_app_length'. vm_compute. reflexivity. Qed.

Lemma read_element_fields k rest : plain k -> read_element (fields k ++ rest) = Some (element k, rest).
Proof. intros Hk. reflexivity. Qed.

Lemma read_render c : sendable c -> read_command (unwords (words_of c)) = Some c.
Proof.
  intros Hc. destruct (render_words c Hc) as [_ Hw]. unfold read_command. rewrite Split_unwords; [| by destruct c | eapply Forall_impl; [exact Hw | by intros w [? _]]]. clear Hw.
  destruct c as [s | c | c | c zone s | id | id c | s e t | s e | c | s]; cbn [sendable words_of app] in *; try reflexivity; literal_tests.
  - destruct Hc as (_ & Hz & _). rewrite drop_tuple. rewrite Atoi_itoa by (change maxInt64 with 9223372036854775807; lia). done.
  - destruct Hc as (_ & Hs & (k & Hk & ->) & _). rewrite Split_element, read_element_fields by done. unfold same_text. rewrite (bool_decide_eq_false_2 _ Hs). done.
  - destruct Hc as (_ & Hs & (k & Hk & ->)). rewrite Split_element, read_element_fields by done. unfold same_text. rewrite (bool_decide_eq_false_2 _ Hs). done.
Qed.

(** The text of a script reads back as its commands. *)
Lemma read_script_render script : Forall sendable script -> read_script (render script) = Some script.
Proof.
  unfold read_script. induction 1 as [| c script Hc _ IH]; [reflexivity|]. cbn [render]. destruct (render_words c Hc) as [-> Hw]. rewrite append_assoc.
  change (nl +:+ render script) with (String (char_of 10) (render script)). rewrite Split_one by by apply unwords_without.
  destruct (Split (char_of 10) (render script)) as [| l ls] eqn:El; [by apply Split_nonempty in El|]. change (read_lines (unwords (words_of c) :: l :: ls)) with (match read_command (unwords (words_of c)), read_lines (l :: ls) with Some c, Some cs => Some (c :: cs) | _, _ => None end).
  by rewrite read_render, IH.
Qed.

(** ** An adapter that executes what it reads *)

#[global] Instance table_nft : InspectionNft Table := {|
  ApplyInspectionMutation t text :=
    match read_script text with
    | Some script => match exec_all t script with Some t' => (t', None) | None => (t, Some "Error: Could not process rule") end
    | None => (t, Some "Error: syntax error")
    end;
  InspectionSetContains t s e :=
    (t, Ok (if bool_decide (s = "app_denied_v4") then bool_decide (is_Some (tb_roots t !! e)) else bool_decide (e ∈ default ∅ (tb_sets t !! s))))
|}.

Lemma table_clean : clean_errors table_nft id.
Proof.
  intros t script t' e _. cbn. destruct (read_script (render script)) as [sc|]; [|by intros [= <- _]]. destruct (exec_all t sc); [done | by intros [= <- _]].
Qed.

#[global] Instance table_laws : NftLaws table_nft id.
Proof.
  split.
  - intros t script t' Hs. cbn. rewrite read_script_render by done. destruct (exec_all t script); [by intros [= <-] | done].
  - intros t script t' e Hs H. left. by apply (table_clean _ _ _ _ Hs H).
  - by intros t s e t' r [= <- _].
  - by intros t id0 t' b [= _ <-].
  - by intros t key t' b [= _ <-].
Qed.

(** The same, but the process can be killed: [true] when the deadline of the call
    passes right after the commit.  Nothing can be read back on that context. *)
Definition killed_nft : InspectionNft (bool * Table) := {|
  ApplyInspectionMutation k text :=
    let '(t', e) := ApplyInspectionMutation (K := Table) k.2 text in
    ((k.1, t'), if k.1 : bool then Some "nft inspection mutation failed: signal: killed" else e);
  InspectionSetContains k s e :=
    (k, if k.1 : bool then Err "context deadline exceeded" else (InspectionSetContains (K := Table) k.2 s e).2)
|}.

Lemma killed_laws : NftLaws killed_nft snd.
Proof.
  split.
  - intros [[] t] script k' Hs; unfold ApplyInspectionMutation at 1; cbn [killed_nft fst snd];
      destruct (ApplyInspectionMutation t (render script)) as [t' e] eqn:E; intros [= <- He]; subst. exact (apply_ok (table := id) _ _ _ Hs E).
  - intros [b t] script k' e Hs; unfold ApplyInspectionMutation at 1; cbn [killed_nft fst snd].
    destruct (ApplyInspectionMutation t (render script)) as [t' [e'|]] eqn:E; intros [= <- _].
    + exact (apply_err (table := id) _ _ _ _ Hs E).
    + right. exact (apply_ok (table := id) _ _ _ Hs E).
  - by intros k s e k' r [= <- _].
  - intros [[] t] id0 k' b; [done|]. by intros [= _ <-].
  - intros [[] t] key k' b; [done|]. by intros [= _ <-].
Qed.
