(* ===== verification/GuardAgree.v ===== *)
(** * The record of the guards and the kernel

    When the manager's record of its guards agrees with the objects in the kernel,
    and that the scripts of installation, renewal and removal keep it so. *)

From S2P Require Import Prelude GoStr Netip Domain Interleave Guards NftModel.
From Stdlib Require Import Ascii.

Local Open Scope Z_scope.

(** ** The record and the kernel *)

(** The rules of the chain of [i] are those of the zones that have a guard. *)
Definition rules_of (O : gset InspectionGuardKey) (i : Z) (rules : list (Z * string)) : Prop :=
  forall z s, (z, s) ∈ rules <-> exists k, k ∈ O /\ gk_ConntrackID k = i /\ gk_ConntrackZone k = z /\ s = setName k.

Record agree (O : gset InspectionGuardKey) (t : Table) : Prop := mkAgree {
  ag_plain k : k ∈ O -> plain k;
  ag_chain c rules : tb_chains t !! c = Some rules -> exists k, k ∈ O /\ c = inspectionGuardChain (gk_ConntrackID k) /\ rules_of O (gk_ConntrackID k) rules;
  ag_owned k : k ∈ O -> is_Some (tb_chains t !! inspectionGuardChain (gk_ConntrackID k)) /\
                        tb_roots t !! itoa (gk_ConntrackID k) = Some (inspectionGuardChain (gk_ConntrackID k)) /\ is_Some (tb_sets t !! setName k);
  ag_root id c : tb_roots t !! id = Some c -> exists k, k ∈ O /\ id = itoa (gk_ConntrackID k);
  ag_set s els : tb_sets t !! s = Some els -> (exists k, k ∈ O /\ s = setName k) /\ forall e, e ∈ els -> exists k, k ∈ O /\ s = setName k /\ e = element k
}.

(** The element of a key is there. *)
Definition alive (t : Table) (k : InspectionGuardKey) : Prop := element k ∈ default ∅ (tb_sets t !! setName k).

#[global] Instance alive_dec t k : base.Decision (alive t k).
Proof. unfold alive. apply _. Defined.

Lemma agree_dropped O t p : agree O t -> plain p -> dropped t p <-> p ∈ O /\ alive t p.
Proof.
  intros H Hp. unfold dropped, alive. split.
  - intros (c & rules & s & els & Hroot & Hc & Hr & Hs & He).
    destruct (ag_chain _ _ H _ _ Hc) as (k & Hk & -> & Hrules). destruct (ag_root _ _ H _ _ Hroot) as (k0 & Hk0 & Ei).
    assert (Er := proj1 (proj2 (ag_owned _ _ H _ Hk0))). rewrite <- Ei, Hroot in Er.
    assert (Er' : inspectionGuardChain (gk_ConntrackID k) = inspectionGuardChain (gk_ConntrackID k0)) by congruence. apply chain_inj in Er'. apply itoa_inj in Ei.
    apply Hrules in Hr as (k1 & Hk1 & Ei1 & Ez1 & ->). destruct (ag_set _ _ H _ _ Hs) as [_ Hels].
    destruct (Hels _ He) as (k2 & Hk2 & Es2 & Ee2). assert (Es : setName p = setName k1) by (apply setName_eq; congruence).
    assert (p = k2) as -> by (apply guard_inj; [done | by apply (ag_plain _ _ H) | congruence | done]).
    split; [done|]. rewrite Es, Hs. exact He.
  - intros [Hk He]. destruct (ag_owned _ _ H _ Hk) as ([rules Hc] & Hroot & [els Hs]). destruct (ag_chain _ _ H _ _ Hc) as (k & _ & Ek & Hrules).
    apply chain_inj in Ek. exists (inspectionGuardChain (gk_ConntrackID p)), rules, (setName p), els. rewrite Hs in He.
    split_and!; [done | done | | done | done]. apply Hrules. exists p. split_and!; [done | done | done | done].
Qed.

Lemma agree_expires O t t' : agree O t -> expires t t' -> agree O t'.
Proof.
  intros H (Er & Ec & Es). constructor.
  - apply (ag_plain _ _ H).
  - rewrite Ec. apply (ag_chain _ _ H).
  - intros k Hk. destruct (ag_owned _ _ H _ Hk) as (H1 & H2 & [els H3]). rewrite Er, Ec. split_and!; [done | done |].
    specialize (Es (setName k)). rewrite H3 in Es. destruct (tb_sets t' !! setName k); [eauto | done].
  - rewrite Er. apply (ag_root _ _ H).
  - intros s els Hs. specialize (Es s). rewrite Hs in Es. destruct (tb_sets t !! s) as [els0|] eqn:E0; [|done].
    destruct (ag_set _ _ H _ _ E0) as [H1 H2]. split; [done|]. intros e He. apply H2. by apply Es.
Qed.

#[global] Instance expires_preorder : PreOrder expires.
Proof.
  split.
  - intros t. split_and!; [done | done |]. intros s. by destruct (tb_sets t !! s).
  - intros a b c (R1 & C1 & S1) (R2 & C2 & S2). split_and!; [congruence | congruence |]. intros s. specialize (S1 s). specialize (S2 s).
    destruct (tb_sets a !! s), (tb_sets b !! s), (tb_sets c !! s); try done. set_solver.
Qed.

(** ** Groups and scripts *)

Lemma fold_zone id remove l m z :
  let m' := foldl (zone_step id remove) m l in
  (forall k, m' !! z = Some k -> m !! z = Some k \/ (k ∈ l /\ gk_ConntrackID k = id /\ Some k <> remove /\ gk_ConntrackZone k = z)) /\
  (is_Some (m !! z) -> is_Some (m' !! z)) /\
  (forall k, k ∈ l -> gk_ConntrackID k = id -> Some k <> remove -> gk_ConntrackZone k = z -> is_Some (m' !! z)).
Proof.
  cbv zeta. revert m. induction l as [| x l IH]; intros m; cbn [foldl]; [split_and!; [auto | done | by intros k ?%not_elem_of_nil]|].
  remember (zone_step id remove m x) as m1 eqn:Em. destruct (IH m1) as (H1 & H2 & H3). clear IH. unfold zone_step in Em.
  destruct (Z.eqb_spec (gk_ConntrackID x) id) as [Ei|]; cbn [andb] in Em; [destruct (bool_decide_reflect (Some x = remove)) as [Er|Er]; cbn [negb] in Em|]; subst m1.
  - split_and!; [intros k [?|(?&?&?&?)]%H1; [auto | right; split_and!; [by right | done..]] | done |].
    intros k [-> | Hk]%elem_of_cons; [done | by apply H3].
  - split_and!.
    + intros k [Hk|(?&?&?&?)]%H1; [|right; split_and!; [by right | done..]]. apply lookup_insert_Some in Hk as [[<- <-]|[_ Hk]]; [right; split_and!; [by left | done..] | auto].
    + intros Hm. apply H2. apply lookup_insert_is_Some. destruct (decide (gk_ConntrackZone x = z)); auto.
    + intros k [-> | Hk]%elem_of_cons; [|by apply H3]. intros _ _ <-. apply H2. rewrite lookup_insert_eq. eauto.
  - split_and!; [intros k [?|(?&?&?&?)]%H1; [auto | right; split_and!; [by right | done..]] | done |].
    intros k [-> | Hk]%elem_of_cons; [done | by apply H3].
Qed.

(** The keys of the guards once the operation is done. *)
Definition target (add remove : option InspectionGuardKey) (O : gset InspectionGuardKey) : gset InspectionGuardKey :=
  option_to_set add ∪ (O ∖ option_to_set remove).

Definition group_list (id : Z) (add remove : option InspectionGuardKey) (O : gset InspectionGuardKey) : list InspectionGuardKey :=
  sort_by zone_less (map_to_list (by_zone id add remove (elements O))).*2.

Lemma group_list_spec id add remove O :
  (forall k, add = Some k -> gk_ConntrackID k = id) ->
  (forall g, g ∈ group_list id add remove O -> g ∈ target add remove O /\ gk_ConntrackID g = id) /\
  (forall k, k ∈ target add remove O -> gk_ConntrackID k = id -> exists g, g ∈ group_list id add remove O /\ gk_ConntrackZone g = gk_ConntrackZone k).
Proof.
  intros Hadd. assert (Hin : forall g, g ∈ group_list id add remove O <-> exists z, by_zone id add remove (elements O) !! z = Some g).
  { intros g. unfold group_list. rewrite sort_by_perm, list_elem_of_fmap. split.
    - intros ([z k] & -> & Hk%elem_of_map_to_list). eauto.
    - intros [z Hz%elem_of_map_to_list]. exists (z, g). done. }
  unfold by_zone in Hin. unfold target. split.
  - intros g [z Hz]%Hin. destruct (fold_zone id remove (elements O) ∅ z) as (H1 & _ & _).
    assert (Hold : forall k, foldl (zone_step id remove) ∅ (elements O) !! z = Some k ->
              k ∈ O /\ Some k <> remove /\ gk_ConntrackID k = id) by (intros k [Hk|(Hk & ? & ? & _)]%H1; [by rewrite lookup_empty in Hk | split_and!; [by apply elem_of_elements | done | done]]).
    destruct add as [a|]; [apply lookup_insert_Some in Hz as [[_ <-]|[_ Hz]]; [split; [set_solver | by apply Hadd]|]|];
      destruct (Hold g Hz) as (? & ? & ?); (split; [|done]); apply elem_of_union_r, elem_of_difference; (split; [done|]); destruct remove; set_solver.
  - intros k Hk Hid. destruct (fold_zone id remove (elements O) ∅ (gk_ConntrackZone k)) as (H1 & _ & H3).
    apply elem_of_union in Hk as [Hk | [Hk Hr]%elem_of_difference].
    + destruct add as [a|]; [|set_solver]. assert (k = a) as -> by set_solver. exists a. split; [|done]. apply Hin. exists (gk_ConntrackZone a). apply lookup_insert_eq.
    + destruct (H3 k) as [g Hg]; [by apply elem_of_elements | done | intros <-; set_solver | done|].
      assert (Ez : forall g, foldl (zone_step id remove) ∅ (elements O) !! gk_ConntrackZone k = Some g ->
                gk_ConntrackZone g = gk_ConntrackZone k) by (intros g' [Hg'|(_ & _ & _ & ?)]%H1; [by rewrite lookup_empty in Hg' | done]).
      destruct add as [a|]; [|exists g; split; [apply Hin; eauto | by apply Ez]].
      destruct (decide (gk_ConntrackZone a = gk_ConntrackZone k)) as [E|E].
      * exists a. split; [|done]. apply Hin. exists (gk_ConntrackZone a). apply lookup_insert_eq.
      * exists g. split; [|by apply Ez]. apply Hin. exists (gk_ConntrackZone k). by rewrite lookup_insert_ne.
Qed.

Lemma exec_all_app t a b : exec_all t (a ++ b) = match exec_all t a with Some t' => exec_all t' b | None => None end.
Proof. revert t. induction a as [| c a IH]; intros t; cbn; [done|]. destruct (exec t c); [apply IH | done]. Qed.

(** Rules appended to an existing chain. *)
Lemma exec_rules chain gs roots chains sets rules t' :
  chains !! chain = Some rules ->
  exec_all (mkTable roots chains sets) ((fun g => AddRule chain (gk_ConntrackZone g) (setName g)) <$> gs) = Some t' ->
  t' = mkTable roots (<[chain := rules ++ ((fun g => (gk_ConntrackZone g, setName g)) <$> gs)]> chains) sets.
Proof.
  revert chains rules. induction gs as [| g gs IH]; intros chains rules Hc; cbn [fmap list_fmap exec_all exec].
  - intros [= <-]. f_equal. rewrite app_nil_r. symmetry. by apply insert_id.
  - rewrite Hc. destruct (sets !! setName g); [|done]. intros H. apply (IH _ (rules ++ [(gk_ConntrackZone g, setName g)])) in H; [|by rewrite lookup_insert_eq].
    by rewrite insert_insert_eq, <- app_assoc in H.
Qed.

(** The chain of an identifier is rebuilt. *)
Lemma exec_chain id gs roots chains sets t' :
  exec_all (mkTable roots chains sets) (inspectionGuardChainScript id gs) = Some t' ->
  t' = mkTable roots (<[inspectionGuardChain id := (fun g => (gk_ConntrackZone g, setName g)) <$> gs]> chains) sets.
Proof.
  unfold inspectionGuardChainScript. cbn [exec_all exec].
  set (chains1 := match chains !! inspectionGuardChain id with Some _ => chains | None => <[inspectionGuardChain id := []]> chains end).
  destruct (chains1 !! inspectionGuardChain id) as [old|] eqn:E1; [|done]. intros H%(exec_rules _ _ _ _ _ []); [|by rewrite lookup_insert_eq]. rewrite H. f_equal.
  rewrite insert_insert_eq. cbn [app]. unfold chains1. destruct (chains !! _); [done | by rewrite insert_insert_eq].
Qed.

Lemma group_rules id add remove O :
  (forall k, add = Some k -> gk_ConntrackID k = id) ->
  rules_of (target add remove O) id ((fun g => (gk_ConntrackZone g, setName g)) <$> group_list id add remove O).
Proof.
  intros Hadd z s. destruct (group_list_spec id add remove O Hadd) as [H1 H2]. rewrite list_elem_of_fmap. split.
  - intros (g & [= -> ->] & Hg). destruct (H1 g Hg). exists g. done.
  - intros (k & Hk & Ei & <- & ->). destruct (H2 k Hk Ei) as (g & Hg & Ez). exists g. split; [|done]. f_equal; [done|]. apply setName_eq; [done|].
    destruct (H1 g Hg) as [_ Eg]. congruence.
Qed.

(** The table after an installation. *)
Lemma exec_install key gs rootPresent ttl t t' :
  exec_all t (install_script key gs rootPresent ttl) = Some t' ->
  tb_chains t' = <[inspectionGuardChain (gk_ConntrackID key) := (fun g => (gk_ConntrackZone g, setName g)) <$> gs]> (tb_chains t) /\
  (forall id, id <> itoa (gk_ConntrackID key) -> tb_roots t' !! id = tb_roots t !! id) /\
  (tb_roots t' !! itoa (gk_ConntrackID key) = Some (inspectionGuardChain (gk_ConntrackID key))) /\
  tb_sets t' = <[setName key := {[element key]} ∪ default ∅ (tb_sets t !! setName key)]> (tb_sets t).
Proof.
  destruct t as [roots chains sets]. unfold install_script. cbn [app exec_all exec tb_chains tb_roots tb_sets]. rewrite exec_all_app.
  destruct (exec_all _ (inspectionGuardChainScript _ _)) as [t1|] eqn:E1; [|done]. apply exec_chain in E1 as ->.
  assert (Hsets : forall roots' t'', exec_all (mkTable roots' (<[inspectionGuardChain (gk_ConntrackID key) := (fun g => (gk_ConntrackZone g, setName g)) <$> gs]> chains)
      (match sets !! setName key with Some _ => sets | None => <[setName key := ∅]> sets end))
      [AddRoot (itoa (gk_ConntrackID key)) (inspectionGuardChain (gk_ConntrackID key)); AddElement (setName key) (element key) (nftDuration ttl)] = Some t'' ->
    tb_chains t'' = <[inspectionGuardChain (gk_ConntrackID key) := (fun g => (gk_ConntrackZone g, setName g)) <$> gs]> chains /\
    (forall id, id <> itoa (gk_ConntrackID key) -> tb_roots t'' !! id = roots' !! id) /\
    tb_roots t'' !! itoa (gk_ConntrackID key) = Some (inspectionGuardChain (gk_ConntrackID key)) /\
    tb_sets t'' = <[setName key := {[element key]} ∪ default ∅ (sets !! setName key)]> sets).
  { intros roots' t''. cbn [exec_all exec]. rewrite lookup_insert_eq.
    assert (Hs : forall roots'', exec_all (mkTable roots'' (<[inspectionGuardChain (gk_ConntrackID key) := (fun g => (gk_ConntrackZone g, setName g)) <$> gs]> chains)
        (match sets !! setName key with Some _ => sets | None => <[setName key := ∅]> sets end)) [AddElement (setName key) (element key) (nftDuration ttl)] = Some t'' ->
      t'' = mkTable roots'' (<[inspectionGuardChain (gk_ConntrackID key) := (fun g => (gk_ConntrackZone g, setName g)) <$> gs]> chains)
              (<[setName key := {[element key]} ∪ default ∅ (sets !! setName key)]> sets)).
    { intros roots''. cbn [exec_all exec]. destruct (sets !! setName key) as [els|] eqn:Es; [by rewrite Es; intros [= <-]|].
      rewrite lookup_insert_eq, insert_insert_eq. by intros [= <-]. }
    destruct (roots' !! itoa (gk_ConntrackID key)) as [c'|] eqn:Er.
    - case_bool_decide as Ec; [|done]. subst c'. intros ->%Hs. cbn. split_and!; [done | done | done | done].
    - intros ->%Hs. cbn. split_and!; [done | intros id Hid; by rewrite lookup_insert_ne | by rewrite lookup_insert_eq | done]. }
  set (rest := [AddRoot _ _; AddElement _ _ _]) in *. clearbody rest. destruct rootPresent; cbn [app exec_all exec].
  - destruct (roots !! itoa (gk_ConntrackID key)); [|done]. intros (H1 & H2 & H3 & H4)%Hsets. split_and!; [done | | done | done].
    intros id Hid. rewrite H2 by done. by rewrite lookup_delete_ne.
  - intros H%Hsets. exact H.
Qed.

(** ** Every script can be read *)

Lemma itoa_word n : word (itoa n).
Proof. split; by apply itoa_without. Qed.

Lemma setName_word k : word (setName k) /\ setName k <> "app_denied_v4".
Proof.
  split; [|done]. unfold setName. split; (apply without_app; [done|]); (apply without_app; [apply itoa_word|]); (apply without_app; [done | apply itoa_word]).
Qed.

Lemma chain_word i : word (inspectionGuardChain i).
Proof. unfold inspectionGuardChain. split; (apply without_app; [done | apply itoa_word]). Qed.

Lemma duration_word d : word (nftDuration d).
Proof. unfold nftDuration. split; (apply without_app; [apply itoa_word | done]). Qed.

Lemma chain_script_sendable id gs : Forall plain gs -> Forall sendable (inspectionGuardChainScript id gs).
Proof.
  intros H. unfold inspectionGuardChainScript. do 2 (apply Forall_cons_2; [apply chain_word|]). apply Forall_fmap. eapply Forall_impl; [exact H|]. intros g Hg.
  split_and!; [apply chain_word | apply Hg | apply Hg | apply setName_word].
Qed.

Lemma element_sendable key : plain key -> sendable (DeleteElement (setName key) (element key)) /\ forall ttl, sendable (AddElement (setName key) (element key) (nftDuration ttl)).
Proof. intros Hp. split; [|intros ttl]; (split_and!; try apply setName_word; try (by exists key); try apply duration_word). Qed.

Lemma install_sendable key gs rootPresent ttl : plain key -> Forall plain gs -> Forall sendable (install_script key gs rootPresent ttl).
Proof.
  intros Hp Hgs. unfold install_script. apply Forall_cons_2; [apply setName_word|]. apply Forall_app. split; [by apply chain_script_sendable|]. apply Forall_app.
  split; [destruct rootPresent; [apply Forall_cons_2; [apply itoa_word | constructor] | constructor]|].
  apply Forall_cons_2; [split; [apply itoa_word | apply chain_word]|]. apply Forall_cons_2; [by apply element_sendable | constructor].
Qed.

Lemma remove_sendable key gs root : Forall plain gs -> Forall sendable (remove_group_script key gs root).
Proof.
  intros Hgs. unfold remove_group_script. apply Forall_app. split; [|apply Forall_cons_2; [apply setName_word | constructor]].
  case_bool_decide; [|by apply chain_script_sendable]. apply Forall_app. split; [destruct root; [apply Forall_cons_2; [apply itoa_word | constructor] | constructor]|].
  do 2 (apply Forall_cons_2; [apply chain_word|]). constructor.
Qed.

Lemma renew_sendable key ttl : plain key -> Forall sendable (renew_script key ttl).
Proof. intros Hp. unfold renew_script. apply Forall_cons_2; [by apply element_sendable|]. apply Forall_cons_2; [by apply element_sendable | constructor]. Qed.

Lemma group_list_plain id add remove O : (forall k, k ∈ O -> plain k) -> (forall k, add = Some k -> gk_ConntrackID k = id /\ plain k) -> Forall plain (group_list id add remove O).
Proof.
  intros HO Hadd. apply Forall_forall. intros g Hg. destruct (proj1 (group_list_spec id add remove O (fun k E => proj1 (Hadd k E))) g Hg) as [Ht _].
  unfold target in Ht. apply elem_of_union in Ht as [Ha | [Ho _]%elem_of_difference]; [|by apply HO]. destruct add as [a|]; [|set_solver]. assert (g = a) as -> by set_solver. by apply Hadd.
Qed.

(** ** The agreement is kept *)

Lemma target_add key O : target (Some key) None O = {[key]} ∪ O.
Proof. unfold target. set_solver. Qed.

Lemma target_remove key O : target None (Some key) O = O ∖ {[key]}.
Proof. unfold target. set_solver. Qed.

Lemma agree_install O t key rootPresent ttl t' :
  agree O t -> plain key -> exec_all t (install_script key (group_list (gk_ConntrackID key) (Some key) None O) rootPresent ttl) = Some t' ->
  agree ({[key]} ∪ O) t' /\ alive t' key.
Proof.
  intros H Hp (Ec & Er & Er' & Es)%exec_install.
  pose proof (group_rules (gk_ConntrackID key) (Some key) None O ltac:(by intros k [= ->])) as Hrules. rewrite target_add in Hrules.
  split; [|unfold alive; rewrite Es, lookup_insert_eq; cbn; set_solver]. constructor.
  - intros k [->%elem_of_singleton | Hk]%elem_of_union; [done | by apply (ag_plain _ _ H)].
  - intros c rules Hc. rewrite Ec in Hc. apply lookup_insert_Some in Hc as [[<- <-]|[Hne Hc]]; [exists key; split_and!; [set_solver | done | done]|].
    destruct (ag_chain _ _ H _ _ Hc) as (k & Hk & -> & Hr). exists k. split_and!; [set_solver | done |]. intros z s. rewrite (Hr z s).
    split; intros (k1 & Hk1 & Ei & ?); exists k1; (split; [|done]); [set_solver|]. apply elem_of_union in Hk1 as [->%elem_of_singleton | ?]; [|done]. by rewrite Ei in Hne.
  - intros k Hk. destruct (decide (gk_ConntrackID k = gk_ConntrackID key)) as [Ei|Ei].
    + rewrite Ei, Ec, lookup_insert_eq, Er', Es. split_and!; [done | done |]. apply lookup_insert_is_Some. destruct (decide (setName key = setName k)); [by left | right; split; [done|]].
      apply elem_of_union in Hk as [->%elem_of_singleton | Hk]; [done | by apply (ag_owned _ _ H)].
    + apply elem_of_union in Hk as [->%elem_of_singleton | Hk]; [done|]. destruct (ag_owned _ _ H _ Hk) as (H1 & H2 & H3). rewrite Ec, Es. split_and!.
      * rewrite lookup_insert_ne; [done|]. intros E%chain_inj. done.
      * rewrite Er; [done|]. intros E%itoa_inj. done.
      * apply lookup_insert_is_Some. destruct (decide (setName key = setName k)); auto.
  - intros id c Hid. destruct (decide (id = itoa (gk_ConntrackID key))) as [->|Hne]; [exists key; split; [set_solver | done]|]. rewrite Er in Hid by done.
    destruct (ag_root _ _ H _ _ Hid) as (k & Hk & ->). exists k. split; [set_solver | done].
  - intros s els Hs. rewrite Es in Hs. apply lookup_insert_Some in Hs as [[<- <-]|[Hne Hs]].
    + split; [exists key; split; [set_solver | done]|]. intros e [->%elem_of_singleton | He]%elem_of_union; [exists key; split_and!; [set_solver | done | done]|].
      destruct (tb_sets t !! setName key) as [els|] eqn:E0; [|set_solver]. destruct (proj2 (ag_set _ _ H _ _ E0) e He) as (k & Hk & ? & ?). exists k. split_and!; [set_solver | done | done].
    + destruct (ag_set _ _ H _ _ Hs) as [(k & Hk & ->) H2]. split; [exists k; split; [set_solver | done]|]. intros e (k' & Hk' & ? & ?)%H2. exists k'. split_and!; [set_solver | done | done].
Qed.

(** A dead key can be forgotten while another guard keeps its zone. *)
Lemma agree_forget O t key k' :
  agree O t -> key ∈ O -> ~ alive t key -> k' ∈ O ∖ {[key]} -> setName k' = setName key -> agree (O ∖ {[key]}) t.
Proof.
  intros H Hkey Hdead Hk' En. pose proof En as [Ez Ei]%setName_inj. constructor.
  - intros k Hk. apply (ag_plain _ _ H). set_solver.
  - intros c rules Hc. destruct (ag_chain _ _ H _ _ Hc) as (k & Hk & -> & Hr).
    assert (exists k1, k1 ∈ O ∖ {[key]} /\ gk_ConntrackID k1 = gk_ConntrackID k) as (k1 & Hk1 & Ek1)
      by (destruct (decide (k = key)) as [->|]; [exists k'; done | exists k; split; [set_solver | done]]).
    exists k1. rewrite Ek1. split_and!; [done | done |]. intros z s. rewrite (Hr z s). split; intros (k2 & Hk2 & ? & ? & ->); [|exists k2; split_and!; [set_solver | done | done | done]].
    destruct (decide (k2 = key)) as [->|]; [exists k'; split_and!; [done | congruence | congruence | done] | exists k2; split_and!; [set_solver | done | done | done]].
  - intros k Hk. apply (ag_owned _ _ H). set_solver.
  - intros id c Hid. destruct (ag_root _ _ H _ _ Hid) as (k & Hk & ->). destruct (decide (k = key)) as [->|]; [exists k'; split; [done | congruence] | exists k; split; [set_solver | done]].
  - intros s els Hs. destruct (ag_set _ _ H _ _ Hs) as [(k & Hk & ->) H2]. split.
    + destruct (decide (k = key)) as [->|]; [exists k'; done | exists k; split; [set_solver | done]].
    + intros e He. destruct (H2 e He) as (k1 & Hk1 & E1 & ->). exists k1. split_and!; [|done | done]. apply elem_of_difference. split; [done|]. intros ->%elem_of_singleton.
      apply Hdead. unfold alive. rewrite <- E1, Hs. exact He.
Qed.

Lemma agree_delete_element O t key t' :
  agree O t -> exec t (DeleteElement (setName key) (element key)) = Some t' -> agree O t' /\ ~ alive t' key.
Proof.
  intros H. destruct t as [roots chains sets]. cbn [exec]. destruct (sets !! setName key) as [els|] eqn:Es; [|done]. case_bool_decide; [|done]. intros [= <-].
  split; [|unfold alive; cbn; rewrite lookup_insert_eq; set_solver]. apply (agree_expires _ _ _ H). split_and!; [done | done |]. intros s. cbn.
  destruct (decide (setName key = s)) as [<-|]; [rewrite Es, lookup_insert_eq; set_solver | rewrite lookup_insert_ne by done; by destruct (sets !! s)].
Qed.

(** The group of a zone goes. *)
Lemma exec_remove_group key gs root t t' :
  tb_roots t !! itoa (gk_ConntrackID key) = Some (inspectionGuardChain (gk_ConntrackID key)) ->
  exec_all t (remove_group_script key gs root) = Some t' ->
  tb_sets t' = delete (setName key) (tb_sets t) /\
  ((gs = [] /\ tb_chains t' = delete (inspectionGuardChain (gk_ConntrackID key)) (tb_chains t) /\ tb_roots t' = delete (itoa (gk_ConntrackID key)) (tb_roots t)) \/
   (gs <> [] /\ tb_chains t' = <[inspectionGuardChain (gk_ConntrackID key) := (fun g => (gk_ConntrackZone g, setName g)) <$> gs]> (tb_chains t) /\ tb_roots t' = tb_roots t)).
Proof.
  destruct t as [roots chains sets]. cbn [tb_roots tb_chains tb_sets]. intros Hroot. unfold remove_group_script.
  assert (Hlast : forall t1 t'', exec_all t1 [DeleteSet (setName key)] = Some t'' -> t'' = mkTable (tb_roots t1) (tb_chains t1) (delete (setName key) (tb_sets t1))).
  { intros [r1 c1 s1] t''. cbn [exec_all exec]. destruct (s1 !! setName key); [|done]. case_bool_decide; [|done]. by intros [= <-]. }
  rewrite exec_all_app. case_bool_decide as Eg.
  - subst gs.
    assert (Hchain : forall roots' t1, exec_all (mkTable roots' chains sets) [FlushChain (inspectionGuardChain (gk_ConntrackID key)); DeleteChain (inspectionGuardChain (gk_ConntrackID key))] = Some t1 ->
      t1 = mkTable roots' (delete (inspectionGuardChain (gk_ConntrackID key)) chains) sets /\ map_Forall (fun _ c' => c' <> inspectionGuardChain (gk_ConntrackID key)) roots').
    { intros roots' t1. cbn [exec_all exec]. destruct (chains !! inspectionGuardChain (gk_ConntrackID key)); [|done]. cbn [exec_all exec]. rewrite lookup_insert_eq. case_bool_decide; [|done].
      intros [= <-]. by rewrite delete_insert_eq. }
    set (both := [FlushChain _; DeleteChain _]) in *. clearbody both. destruct root; cbn [app exec_all exec].
    + rewrite Hroot. destruct (exec_all _ both) as [t1|] eqn:E1; [|done]. intros ->%Hlast. apply Hchain in E1 as [-> _]. cbn. split; [done | by left].
    + destruct (exec_all _ both) as [t1|] eqn:E1; [|done]. apply Hchain in E1 as [_ Hno]. by destruct (Hno _ _ Hroot).
  - destruct (exec_all _ (inspectionGuardChainScript _ _)) as [t1|] eqn:E1; [|done]. intros ->%Hlast. apply exec_chain in E1 as ->. cbn. split; [done | by right].
Qed.

Lemma keeps_group_true key gs : keeps_group key gs = true <-> exists g, g ∈ gs /\ gk_ConntrackZone g = gk_ConntrackZone key.
Proof.
  unfold keeps_group. rewrite existsb_exists. split; intros (g & Hg & E); exists g.
  - split; [by apply list_elem_of_In | by apply Z.eqb_eq].
  - split; [by apply list_elem_of_In | by apply Z.eqb_eq].
Qed.

Lemma agree_remove_group O t key root t' :
  let gs := group_list (gk_ConntrackID key) None (Some key) O in
  agree O t -> key ∈ O -> keeps_group key gs = false -> exec_all t (remove_group_script key gs root) = Some t' -> agree (O ∖ {[key]}) t'.
Proof.
  intros gs H Hkey Hkeep Hexec. destruct (ag_owned _ _ H _ Hkey) as (_ & Hroot & _). apply exec_remove_group in Hexec as [Es Hcase]; [|done].
  destruct (group_list_spec (gk_ConntrackID key) None (Some key) O ltac:(done)) as [G1 G2]. fold gs in G1, G2. rewrite target_remove in G1, G2.
  pose proof (group_rules (gk_ConntrackID key) None (Some key) O ltac:(done)) as Hrules. fold gs in Hrules. rewrite target_remove in Hrules.
  assert (Halone : forall k, k ∈ O ∖ {[key]} -> setName k <> setName key).
  { intros k Hk [Ez Ei]%setName_inj. destruct (G2 k Hk Ei) as (g & Hg & Eg). assert (keeps_group key gs = true) by (apply keeps_group_true; exists g; split; [done | congruence]). congruence. }
  assert (Hids : gs = [] -> forall k, k ∈ O ∖ {[key]} -> gk_ConntrackID k <> gk_ConntrackID key).
  { intros Egs k Hk Ei. destruct (G2 k Hk Ei) as (g & Hg & _). rewrite Egs in Hg. by apply not_elem_of_nil in Hg. }
  constructor.
  - intros k Hk. apply (ag_plain _ _ H). set_solver.
  - assert (Hold : forall c rules, c <> inspectionGuardChain (gk_ConntrackID key) -> tb_chains t !! c = Some rules ->
      exists k, k ∈ O ∖ {[key]} /\ c = inspectionGuardChain (gk_ConntrackID k) /\ rules_of (O ∖ {[key]}) (gk_ConntrackID k) rules).
    { intros c rules Hne Hc. destruct (ag_chain _ _ H _ _ Hc) as (k & Hk & -> & Hr). assert (Hik : gk_ConntrackID k <> gk_ConntrackID key) by congruence.
      exists k. split_and!; [set_solver | done |]. intros z s. rewrite (Hr z s). split; intros (k1 & ? & ? & ?); exists k1; (split; [|done]); set_solver. }
    intros c rules Hc. destruct Hcase as [(_ & Ec & _) | (Hne & Ec & _)]; rewrite Ec in Hc.
    + apply lookup_delete_Some in Hc as [? Hc]. by apply Hold.
    + apply lookup_insert_Some in Hc as [[<- <-]|[? Hc]]; [|by apply Hold]. destruct gs as [| g gs0]; [done|]. destruct (G1 g ltac:(by left)) as [Hg Eg].
      exists g. rewrite Eg. done.
  - intros k Hk. destruct (ag_owned _ _ H k ltac:(set_solver)) as (H1 & H2 & H3). rewrite Es, lookup_delete_ne by (symmetry; by apply Halone).
    destruct Hcase as [(Egs & -> & ->) | (_ & -> & ->)].
    + specialize (Hids Egs k Hk). split_and!; [rewrite lookup_delete_ne; [done|]; intros E%chain_inj; congruence | rewrite lookup_delete_ne; [done|]; intros E%itoa_inj; congruence | done].
    + split_and!; [| exact H2 | exact H3]. apply lookup_insert_is_Some'. right. exact H1.
  - intros id c Hid. destruct Hcase as [(Egs & _ & Er) | (Hne & _ & Er)]; rewrite Er in Hid.
    + apply lookup_delete_Some in Hid as [Hne Hid]. destruct (ag_root _ _ H _ _ Hid) as (k & Hk & ->). exists k. split; [set_solver | done].
    + destruct (ag_root _ _ H _ _ Hid) as (k & Hk & ->). destruct (decide (k = key)) as [->|]; [|exists k; split; [set_solver | done]].
      destruct gs as [| g gs0]; [done|]. destruct (G1 g ltac:(by left)) as [Hg Eg]. exists g. split; [done | congruence].
  - intros s els Hs. rewrite Es in Hs. apply lookup_delete_Some in Hs as [Hne Hs]. destruct (ag_set _ _ H _ _ Hs) as [(k & Hk & ->) H2].
    split.
    + exists k. split; [|done]. apply elem_of_difference. split; [done|]. by intros ->%elem_of_singleton.
    + intros e (k1 & Hk1 & E1 & ->)%H2. exists k1. split_and!; [| done | done]. apply elem_of_difference. split; [done|]. intros ->%elem_of_singleton. congruence.
Qed.

Lemma agree_renew O t key ttl t' : agree O t -> key ∈ O -> exec_all t (renew_script key ttl) = Some t' -> agree O t' /\ alive t' key.
Proof.
  intros H Hkey. unfold renew_script. cbn [exec_all]. destruct (exec t (DeleteElement _ _)) as [t1|] eqn:E1; [|done]. apply (agree_delete_element O) in E1 as [H1 _]; [|done].
  destruct t1 as [roots chains sets]. cbn [exec]. destruct (sets !! setName key) as [els|] eqn:Es; [|done]. intros [= <-].
  split; [|unfold alive; cbn; rewrite lookup_insert_eq; set_solver]. constructor; cbn.
  - apply (ag_plain _ _ H1).
  - apply (ag_chain _ _ H1).
  - intros k Hk. destruct (ag_owned _ _ H1 _ Hk) as (? & ? & ?). split_and!; [done | done |]. apply lookup_insert_is_Some. destruct (decide (setName key = setName k)); auto.
  - apply (ag_root _ _ H1).
  - intros s els' Hs. apply lookup_insert_Some in Hs as [[<- <-]|[_ Hs]]; [|by apply (ag_set _ _ H1)]. destruct (ag_set _ _ H1 _ _ Es) as [? H2].
    split; [done|]. intros e [->%elem_of_singleton | He]%elem_of_union; [by exists key | by apply H2].
Qed.


(** ** What can be said when errors are not trusted *)

(** Every object of the kernel belongs to the guard of a key, every element to one of
    the keys [D]. *)
Record confined (D : gset InspectionGuardKey) (t : Table) : Prop := mkConfined {
  cf_root id c : tb_roots t !! id = Some c -> exists i, id = itoa i /\ c = inspectionGuardChain i;
  cf_rule c rules z s : tb_chains t !! c = Some rules -> (z, s) ∈ rules ->
    exists k, c = inspectionGuardChain (gk_ConntrackID k) /\ z = gk_ConntrackZone k /\ s = setName k;
  cf_element s els e : tb_sets t !! s = Some els -> e ∈ els -> exists k, k ∈ D /\ s = setName k /\ e = element k
}.

Lemma confined_dropped D t p : confined D t -> (forall k, k ∈ D -> plain k) -> plain p -> dropped t p -> p ∈ D.
Proof.
  intros H HD Hp (c & rules & s & els & Hroot & Hc & Hr & Hs & He). destruct (cf_root _ _ H _ _ Hroot) as (i & Ei & ->). apply itoa_inj in Ei. subst i.
  destruct (cf_rule _ _ H _ _ _ _ Hc Hr) as (k & Ec & Ez & ->). apply chain_inj in Ec.
  destruct (cf_element _ _ H _ _ _ Hs He) as (k' & Hk' & Es & Ee). assert (Ep : setName p = setName k) by by apply setName_eq.
  rewrite (guard_inj p k'); [done | done | by apply HD | congruence | done].
Qed.

Lemma confined_mono D D' t : confined D t -> D ⊆ D' -> confined D' t.
Proof. intros [H1 H2 H3] HD. constructor; [done | done |]. intros s els e Hs He. destruct (H3 s els e Hs He) as (k & Hk & ?). exists k. split; [by apply HD | done]. Qed.

Lemma confined_expires D t t' : confined D t -> expires t t' -> confined D t'.
Proof.
  intros [H1 H2 H3] (Er & Ec & Es). constructor; [by rewrite Er | by rewrite Ec |]. intros s els e Hs He. specialize (Es s). rewrite Hs in Es.
  destruct (tb_sets t !! s) as [els0|] eqn:E0; [|done]. apply (H3 s els0 e E0). by apply Es.
Qed.

(** A key whose element is gone is not needed. *)
Lemma confined_dead D t key : confined D t -> ~ alive t key -> confined (D ∖ {[key]}) t.
Proof.
  intros [H1 H2 H3] Hd. constructor; [done | done |]. intros s els e Hs He. destruct (H3 s els e Hs He) as (k & Hk & -> & ->). exists k. split_and!; [|done|done].
  apply elem_of_difference. split; [done|]. rewrite elem_of_singleton. intros ->. apply Hd. unfold alive. by rewrite Hs.
Qed.

(** The commands that keep it so. *)
Definition confines (D : gset InspectionGuardKey) (c : NftCommand) : Prop :=
  match c with
  | AddRule c z s => exists k, c = inspectionGuardChain (gk_ConntrackID k) /\ z = gk_ConntrackZone k /\ s = setName k
  | AddRoot id c => exists i, id = itoa i /\ c = inspectionGuardChain i
  | AddElement s e _ => exists k, k ∈ D /\ s = setName k /\ e = element k
  | _ => True
  end.

Lemma confined_exec D t c t' : confined D t -> confines D c -> exec t c = Some t' -> confined D t'.
Proof.
  destruct t as [roots chains sets]. intros [H1 H2 H3]. cbn in H1, H2, H3. destruct c as [s | c | c | c zone s | id | id c | s e t | s e | c | s]; cbn [exec confines].
  - intros _ [= <-]. constructor; [done | done |]. cbn. destruct (sets !! s); [done|]. intros s' els e [[<- <-] | [_ Hs]]%lookup_insert_Some; [set_solver | by apply H3].
  - intros _ [= <-]. constructor; [done | | done]. cbn. destruct (chains !! c); [done|]. intros c' rules z s [[<- <-] | [_ Hc]]%lookup_insert_Some; [set_solver | by apply H2].
  - intros _. destruct (chains !! c); [|done]. intros [= <-]. constructor; [done | | done]. cbn. intros c' rules z s [[<- <-] | [_ Hc]]%lookup_insert_Some; [set_solver | by apply H2].
  - intros Hr. destruct (chains !! c) as [old|] eqn:Ec; [|done]. destruct (sets !! s); [|done]. intros [= <-]. constructor; [done | | done]. cbn.
    intros c' rules z' s' [[<- <-] | [_ Hc]]%lookup_insert_Some; [|by apply H2]. intros [Hin | Hin]%elem_of_app; [by apply (H2 c old)|].
    apply list_elem_of_singleton in Hin. injection Hin as -> ->. exact Hr.
  - intros _. destruct (roots !! id); [|done]. intros [= <-]. constructor; [|done|done]. cbn. intros id' c' [_ Hr]%lookup_delete_Some. by apply H1.
  - intros Hr. destruct (chains !! c); [|done]. destruct (roots !! id) eqn:Er; [case_bool_decide; [|done]; by intros [= <-]|].
    intros [= <-]. constructor; [|done|done]. cbn. intros id' c' [[<- <-] | [_ Hr']]%lookup_insert_Some; [exact Hr | by apply H1].
  - intros Hk. destruct (sets !! s) as [els|] eqn:Es; [|done]. intros [= <-]. constructor; [done | done |]. cbn.
    intros s' els' e' [[<- <-] | [_ Hs]]%lookup_insert_Some; [|by apply H3]. intros [->%elem_of_singleton | He]%elem_of_union; [exact Hk | by apply (H3 s els)].
  - intros _. destruct (sets !! s) as [els|] eqn:Es; [|done]. case_bool_decide; [|done]. intros [= <-]. constructor; [done | done |]. cbn.
    intros s' els' e' [[<- <-] | [_ Hs]]%lookup_insert_Some; [|by apply H3]. intros [He _]%elem_of_difference. by apply (H3 s els).
  - intros _. destruct (chains !! c) as [[|]|]; [|done|done]. case_bool_decide; [|done]. intros [= <-]. constructor; [done | | done]. cbn.
    intros c' rules z s [_ Hc]%lookup_delete_Some. by apply H2.
  - intros _. destruct (sets !! s); [|done]. case_bool_decide; [|done]. intros [= <-]. constructor; [done | done |]. cbn.
    intros s' els e [_ Hs]%lookup_delete_Some. by apply H3.
Qed.

Lemma confined_exec_all D script t t' : confined D t -> Forall (confines D) script -> exec_all t script = Some t' -> confined D t'.
Proof.
  intros H Hs. revert t H. induction Hs as [| c script Hc _ IH]; intros t H; cbn [exec_all]; [by intros [= <-]|].
  destruct (exec t c) as [t1|] eqn:E; [|done]. apply IH. by apply (confined_exec D t c).
Qed.

Lemma chain_script_confines D id gs : Forall (fun g => gk_ConntrackID g = id) gs -> Forall (confines D) (inspectionGuardChainScript id gs).
Proof.
  intros Hgs. do 2 (apply Forall_cons_2; [done|]). apply Forall_fmap. eapply Forall_impl; [exact Hgs|]. intros g <-. by exists g.
Qed.

Lemma install_confines D key gs root ttl : key ∈ D -> Forall (fun g => gk_ConntrackID g = gk_ConntrackID key) gs ->
  Forall (confines D) (install_script key gs root ttl).
Proof.
  intros Hk Hgs. unfold install_script. apply Forall_app. split; [by constructor|]. apply Forall_app. split; [by apply chain_script_confines|].
  apply Forall_app. split; [by destruct root; constructor|]. apply Forall_cons_2; [by exists (gk_ConntrackID key)|].
  apply Forall_cons_2; [by exists key | constructor].
Qed.

Lemma renew_confines D key ttl : key ∈ D -> Forall (confines D) (renew_script key ttl).
Proof. intros Hk. apply Forall_cons_2; [done|]. apply Forall_cons_2; [by exists key | constructor]. Qed.

Lemma remove_confines D key gs root : Forall (fun g => gk_ConntrackID g = gk_ConntrackID key) gs -> Forall (confines D) (remove_group_script key gs root).
Proof.
  intros Hgs. unfold remove_group_script. apply Forall_app. split; [|by constructor]. case_bool_decide; [|by apply chain_script_confines].
  apply Forall_app. split; [by destruct root; constructor | by repeat constructor].
Qed.

Lemma group_list_ids id add remove O : (forall k, add = Some k -> gk_ConntrackID k = id) -> Forall (fun g => gk_ConntrackID g = id) (group_list id add remove O).
Proof. intros Hadd. apply Forall_forall. intros g Hg. by apply (proj1 (group_list_spec id add remove O Hadd)). Qed.

(** A removal deletes the element of its key, if it is there, and adds none. *)
Lemma confined_remove D t key (here : bool) rest t' :
  confined D t -> (here = false -> ~ alive t key) -> Forall (confines (D ∖ {[key]})) rest ->
  exec_all t ((if here then [DeleteElement (setName key) (element key)] else []) ++ rest) = Some t' -> confined (D ∖ {[key]}) t'.
Proof.
  intros H Hdead Hrest. destruct here; [|cbn [app]; intros He; by apply (confined_exec_all _ rest t); [apply confined_dead; [done | by apply Hdead]| |]].
  cbn [app exec_all]. destruct (exec t _) as [t1|] eqn:E; [|done]. intros He. apply (confined_exec_all _ rest t1); [|done|done].
  apply confined_dead; [by apply (confined_exec D t (DeleteElement (setName key) (element key)) t1)|]. revert E. destruct t as [roots chains sets]. cbn [exec].
  destruct (sets !! setName key) as [els|] eqn:Es; [|done]. case_bool_decide; [|done]. intros [= <-]. unfold alive. cbn. rewrite lookup_insert_eq. cbn. set_solver.
Qed.
