(* ===== verification/NftRunner.v ===== *)
(** * The nft adapter

    [internal/dataplane/nft.go] and [inspection_schema.go]: how the engine runs the
    nft binary, and that the adapter keeps the promises the guard manager relies on.
    The binary is a parameter; a run may be cut short by the deadline of its context,
    so an error does not say whether the kernel committed. *)

From S2P Require Import Prelude GoStr Netip Domain Interleave Guards NftModel GuardAgree.
From Stdlib Require Import Ascii.

Local Open Scope Z_scope.

(** ** Running nft *)

(** A run with its input and arguments: the combined output, and the error if any. *)
Class NftBinary (K : Type) := { nft_command : K -> string -> list string -> K * string * option string }.

Definition InspectionSchemaScript : string :=
  "table inet ngfw_inspection {" +:+ nl +:+
  "  comment " +:+ String (char_of 34) "owner=ngfw-engine schema=2" +:+ String (char_of 34) nl +:+
  "  map app_denied_v4 { typeof ct id : verdict; }" +:+ nl +:+
  "  set ips_ready { type nf_proto . inet_proto; flags timeout; timeout 3s; }" +:+ nl +:+
  "  chain guard { type filter hook forward priority -15; policy accept; meta l4proto { tcp, udp } ct id vmap @app_denied_v4; }" +:+ nl +:+
  "  chain inspect { type filter hook forward priority 10; policy accept; }" +:+ nl +:+
  "  chain select_original { }" +:+ nl +:+
  "  chain select_reply { }" +:+ nl +:+
  "}" +:+ nl.

(** [strings.Contains]. *)
Definition holds (s sub : string) : bool := match Cut sub s with Some _ => true | None => false end.

(** [fmt.Errorf] with the error and the trimmed output. *)
Definition wrapped (prefix e out : string) : string := prefix +:+ ": " +:+ e +:+ ": " +:+ TrimSpace out.

Definition missing_object (message : string) : bool := holds message "no such file" || holds message "not found".

Definition get_element (set needle : string) : string := "get element inet ngfw_inspection " +:+ set +:+ " { " +:+ needle +:+ " }" +:+ nl.

Section runner.
Context {K : Type} {B : NftBinary K}.

Definition runInput (k : K) (input : string) (args : list string) : K * string * option string := nft_command k input args.
Definition nft_run (k : K) (args : list string) : K * string * option string := runInput k "" args.

Definition tableExists (k : K) (name : string) : K * result string bool :=
  let '(k, out, err) := nft_run k ["list"; "table"; "inet"; name] in
  (k, match err with
      | None => Ok true
      | Some e => if missing_object (ToLower out) then Ok false else Err (wrapped ("inspect nft table " +:+ name) e out)
      end).

(** A script is checked, then applied. *)
Definition checked_apply (k : K) (script invalid failed : string) : K * option string :=
  let '(k, out, err) := runInput k script ["-c"; "-f"; "-"] in
  match err with
  | Some e => (k, Some (wrapped invalid e out))
  | None =>
      let '(k, out, err) := runInput k script ["-f"; "-"] in
      (k, (fun e => wrapped failed e out) <$> err)
  end.

Definition schema_marks : list string := ["owner=ngfw-engine schema=2"; "map app_denied_v4"; "ips_ready"; "chain guard"; "chain inspect"].

Definition ensureInspectionSchemaLockedState (k : K) : K * result string bool :=
  let '(k, _, mapErr) := nft_run k ["-j"; "list"; "map"; "inet"; "ngfw_inspection"; "app_denied_v4"] in
  let '(k, legacy) :=
    match mapErr with
    | None => (k, false)
    | Some _ => let '(k, _, setErr) := nft_run k ["-j"; "list"; "set"; "inet"; "ngfw_inspection"; "app_denied_v4"] in (k, bool_decide (setErr = None))
    end in
  if legacy : bool then
    (k, Err "legacy ngfw_inspection schema 1 requires a drained schema migration before activation; refusing to decode its unsupported seven-field guard")
  else
    match tableExists k "ngfw_inspection" with
    | (k, Err e) => (k, Err e)
    | (k, Ok false) =>
        match checked_apply k InspectionSchemaScript "nft inspection schema validation failed" "nft inspection schema apply failed" with
        | (k, Some e) => (k, Err e)
        | (k, None) => (k, Ok true)
        end
    | (k, Ok true) =>
        let '(k, out, err) := nft_run k ["list"; "table"; "inet"; "ngfw_inspection"] in
        (k, match err with
            | Some e => Err e
            | None => match find (fun mark => negb (holds out mark)) schema_marks with
                      | Some mark => Err ("existing ngfw_inspection table has incompatible schema: missing " +:+ mark)
                      | None => Ok false
                      end
            end)
    end.

Definition applyInspectionMutationLocked (k : K) (script : string) : K * option string :=
  checked_apply k script "nft inspection mutation validation failed" "nft inspection mutation failed".

Definition runner_ApplyInspectionMutation (k : K) (script : string) : K * option string :=
  match ensureInspectionSchemaLockedState k with
  | (k, Err e) => (k, Some e)
  | (k, Ok _) => applyInspectionMutationLocked k script
  end.

(** [names] reads the names of the chains and sets from the JSON listing. *)
Definition ClearInspectionRuntimeState (names : string -> result string (list string * list string)) (k : K) : K * option string :=
  match ensureInspectionSchemaLockedState k with
  | (k, Err e) => (k, Some e)
  | (k, Ok _) =>
      let '(k, out, err) := nft_run k ["-j"; "list"; "table"; "inet"; "ngfw_inspection"] in
      match err with
      | Some e => (k, Some e)
      | None =>
          match names out with
          | Err e => (k, Some e)
          | Ok (allChains, allSets) =>
              let chains := List.filter validInspectionGuardChain allChains in
              let sets := List.filter validInspectionGuardSet allSets in
              applyInspectionMutationLocked k
                ("flush map inet ngfw_inspection app_denied_v4" +:+ nl +:+ "flush set inet ngfw_inspection ips_ready" +:+ nl +:+
                 render ((FlushChain <$> chains) ++ (DeleteChain <$> chains) ++ (DeleteSet <$> sets)))
          end
      end
  end.

(** [strings.ContainsAny]: the bytes that end an element or a command. *)
Definition unsafe_needle (needle : string) : bool :=
  negb (all_chars (fun c => negb (Ascii.eqb c "{" || Ascii.eqb c "}" || Ascii.eqb c (char_of 10) || Ascii.eqb c (char_of 13) || Ascii.eqb c ";"))%char needle).

Definition runner_InspectionSetContains (k : K) (set needle : string) : K * result string bool :=
  if negb (bool_decide (set = "app_denied_v4")) && negb (bool_decide (set = "ips_ready")) && negb (validInspectionGuardSet set)
  then (k, Err ("unsupported inspection set " +:+ String (char_of 34) set +:+ String (char_of 34) ""))
  else if unsafe_needle needle || bool_decide (TrimSpace needle = "") then (k, Err "invalid inspection set element")
  else
    let '(k, out, err) := runInput k (get_element set needle) ["-f"; "-"] in
    (k, match err with
        | None => Ok true
        | Some e =>
            let message := ToLower (out +:+ " " +:+ e) in
            if missing_object message || holds message "element does not exist" then Ok false
            else Err (wrapped ("read inspection set " +:+ set) e out)
        end).

(** The adapter the guard manager is given. *)
Definition runner_nft : InspectionNft K := {|
  ApplyInspectionMutation := runner_ApplyInspectionMutation;
  InspectionSetContains := runner_InspectionSetContains
|}.

Definition runner_ApplyRuntimeMutation (k : K) (script : string) : K * option string :=
  match tableExists k "ngfw_runtime" with
  | (k, Err e) => (k, Some e)
  | (k, Ok _) => checked_apply k script "nft runtime mutation validation failed" "nft runtime mutation failed"
  end.

Definition ClearRevokedSessions (k : K) : K * option string :=
  match tableExists k "ngfw_runtime" with
  | (k, Err e) => (k, Some e)
  | (k, Ok false) => (k, Some "runtime guard table is not present")
  | (k, Ok true) =>
      checked_apply k ("flush set inet ngfw_runtime revoked_ctids" +:+ nl) "nft revoke-set reset validation failed" "nft revoke-set reset failed"
  end.
End runner.

(** ** What the adapter promises *)

(** What is documented of nft: listing and checking change nothing, the schema adds no
    guard, a script is one transaction, which may have been committed when the run
    fails, and [get element] answers from the sets, saying so when there is no such
    element. *)
Class NftBinaryLaws {K : Type} (B : NftBinary K) (table : K -> Table) := {
  list_same k args k' out e : nft_command k "" ("list" :: args) = (k', out, e) -> table k' = table k;
  list_json_same k args k' out e : nft_command k "" ("-j" :: "list" :: args) = (k', out, e) -> table k' = table k;
  check_same k script k' out e : nft_command k script ["-c"; "-f"; "-"] = (k', out, e) -> table k' = table k;
  schema_same k k' out e : nft_command k InspectionSchemaScript ["-f"; "-"] = (k', out, e) -> table k' = table k;
  load_ok k script k' out : Forall sendable script -> nft_command k (render script) ["-f"; "-"] = (k', out, None) ->
    exec_all (table k) script = Some (table k');
  load_err k script k' out e : Forall sendable script -> nft_command k (render script) ["-f"; "-"] = (k', out, Some e) ->
    table k' = table k \/ exec_all (table k) script = Some (table k');
  get_same k set needle k' out e : nft_command k (get_element set needle) ["-f"; "-"] = (k', out, e) -> table k' = table k;
  get_root k id k' out e : unsafe_needle id = false -> nft_command k (get_element "app_denied_v4" id) ["-f"; "-"] = (k', out, e) ->
    match e with
    | None => is_Some (tb_roots (table k) !! id)
    | Some e => let message := ToLower (out +:+ " " +:+ e) in missing_object message || holds message "element does not exist" = true -> tb_roots (table k) !! id = None
    end;
  get_set k key k' out e : unsafe_needle (element key) = false -> nft_command k (get_element (setName key) (element key)) ["-f"; "-"] = (k', out, e) ->
    match e with
    | None => element key ∈ default ∅ (tb_sets (table k) !! setName key)
    | Some e => let message := ToLower (out +:+ " " +:+ e) in missing_object message || holds message "element does not exist" = true ->
                element key ∉ default ∅ (tb_sets (table k) !! setName key)
    end
}.

Section promises.
Context {K : Type} {B : NftBinary K} {table : K -> Table} {BL : NftBinaryLaws B table}.

Lemma tableExists_same k name k' r : tableExists k name = (k', r) -> table k' = table k.
Proof using BL.
  unfold tableExists, nft_run, runInput. destruct (nft_command k "" _) as [[k1 out] e] eqn:E. intros [= <- _]. by apply (list_same _ _ _ _ _ E).
Qed.

Lemma schema_ensured k k' r : ensureInspectionSchemaLockedState k = (k', r) -> table k' = table k.
Proof using BL.
  unfold ensureInspectionSchemaLockedState, nft_run, runInput. destruct (nft_command k "" _) as [[k1 out1] e1] eqn:E1. apply list_json_same in E1.
  set (legacy := match e1 with None => (k1, false) | Some _ => _ end). assert (E2 : table legacy.1 = table k).
  { subst legacy. destruct e1; [|done]. destruct (nft_command k1 "" _) as [[k2 out2] e2] eqn:E2. apply list_json_same in E2. cbn. congruence. }
  clearbody legacy. destruct legacy as [k2 [|]]; cbn [fst] in E2; [by intros [= <- _]|].
  destruct (tableExists k2 _) as [k3 r3] eqn:E3. apply tableExists_same in E3. destruct r3 as [[]|e]; [| |intros [= <- _]; congruence].
  - destruct (nft_command k3 "" _) as [[k4 out4] e4] eqn:E4. apply list_same in E4. intros [= <- _]. congruence.
  - unfold checked_apply, runInput. destruct (nft_command k3 _ ["-c"; "-f"; "-"]) as [[k4 out4] e4] eqn:E4. apply check_same in E4.
    destruct e4; [intros [= <- _]; congruence|]. destruct (nft_command k4 _ ["-f"; "-"]) as [[k5 out5] e5] eqn:E5. apply schema_same in E5.
    destruct e5; intros [= <- _]; congruence.
Qed.

(** The adapter of the repository keeps the promises of the guard manager's interface. *)
Lemma runner_laws : NftLaws runner_nft table.
Proof using BL.
  assert (Happly : forall k script k' e, Forall sendable script -> runner_ApplyInspectionMutation k (render script) = (k', e) ->
    exec_all (table k) script = Some (table k') \/ e <> None /\ table k' = table k).
  { intros k script k' e Hs. unfold runner_ApplyInspectionMutation. destruct (ensureInspectionSchemaLockedState k) as [k1 [b|x]] eqn:E1; apply schema_ensured in E1; [|intros [= <- <-]; by right].
    unfold applyInspectionMutationLocked, checked_apply, runInput. destruct (nft_command k1 _ ["-c"; "-f"; "-"]) as [[k2 out2] [e2|]] eqn:E2; apply check_same in E2.
    - intros [= <- <-]. right. split; [done | congruence].
    - destruct (nft_command k2 _ ["-f"; "-"]) as [[k3 out3] [e3|]] eqn:E3; intros [= <- <-].
      + destruct (load_err _ _ _ _ _ Hs E3) as [E | E]; rewrite E2, E1 in E; [right; by split | by left].
      + left. apply (load_ok _ _ _ _ Hs) in E3. by rewrite E2, E1 in E3. }
  assert (Hask : forall k set needle k' b, runner_InspectionSetContains k set needle = (k', Ok b) ->
    unsafe_needle needle = false /\ exists out e, nft_command k (get_element set needle) ["-f"; "-"] = (k', out, e) /\
      match e with None => b = true | Some e => let message := ToLower (out +:+ " " +:+ e) in missing_object message || holds message "element does not exist" = true /\ b = false end).
  { intros k set needle k' b. unfold runner_InspectionSetContains, runInput. destruct (_ && _); [done|]. destruct (unsafe_needle needle); [done|]. destruct (bool_decide _); [done|].
    intros H. split; [done|]. revert H. cbn [orb]. destruct (nft_command k _ _) as [[k1 out] [e|]] eqn:E.
    - intros [= <- Hb]. exists out, (Some e). split; [done|]. revert Hb. cbv zeta. match goal with |- (if ?c then _ else _) = _ -> _ => destruct c end; [by intros [= <-] | done].
    - intros [= <- <-]. by exists out, None. }
  split.
  - intros k script k' Hs H. destruct (Happly _ _ _ _ Hs H) as [? | [? _]]; done.
  - intros k script k' e Hs H. destruct (Happly _ _ _ _ Hs H) as [? | [_ ?]]; [by right | by left].
  - intros k s e k' r. cbn. unfold runner_InspectionSetContains, runInput. repeat case_if; try by intros [= <- _].
    destruct (nft_command k _ _) as [[k1 out] x] eqn:E. intros [= <- _]. by apply (get_same _ _ _ _ _ _ E).
  - intros k id k' b H. destruct (Hask _ _ _ _ _ H) as (Hn & out & [e|] & Hc & Hb); apply get_root in Hc; [|done| |done].
    + destruct Hb as [Hm ->]. symmetry. apply bool_decide_eq_false. rewrite (Hc Hm). by intros [].
    + subst b. by rewrite bool_decide_eq_true_2.
  - intros k key k' b H. destruct (Hask _ _ _ _ _ H) as (Hn & out & [e|] & Hc & Hb); apply get_set in Hc; [|done| |done].
    + destruct Hb as [Hm ->]. symmetry. apply bool_decide_eq_false. by apply Hc.
    + subst b. by rewrite bool_decide_eq_true_2.
Qed.
End promises.

(** ** A binary that works on tables *)

Lemma append_inj_r (a b c : string) : a +:+ c = b +:+ c -> a = b.
Proof.
  assert (Hlen : forall x y : string, x = y +:+ x -> y = "").
  { intros x y E. apply (f_equal String.length) in E. destruct y; [done|]. exfalso. revert E. change (String a0 y +:+ x) with (String a0 (y +:+ x)). cbn [String.length].
    rewrite string_length_app. lia. }
  revert b. induction a as [| x a IH]; intros b E; [symmetry; by apply (Hlen c)|].
  destruct b as [| y b]; [by apply (Hlen c (String x a)) | ]. injection E as -> E. f_equal. by apply IH.
Qed.

(** The set and the element a question is about; the blank before the brace is kept. *)
Definition parse_get (input : string) : option (string * string) :=
  rest ← CutPrefix input "get element inet ngfw_inspection ";
  '(s, rest) ← Cut " { " rest;
  '(e, _) ← Cut "}" rest;
  Some (s, e).

Definition table_has (t : Table) (s e : string) : bool :=
  if bool_decide (s = "app_denied_v4") then bool_decide (map_Exists (fun id _ => id +:+ " " = e) (tb_roots t))
  else bool_decide (set_Exists (fun x => x +:+ " " = e) (default ∅ (tb_sets t !! s))).

#[global] Instance table_binary : NftBinary Table := {|
  nft_command t input args :=
    if negb (bool_decide (args = ["-f"; "-"])) then (t, "", None)
    else if HasPrefix input "get " then
      match parse_get input with
      | Some (s, e) => if table_has t s e then (t, "", None) else (t, "Error: No such file or directory", Some "exit status 1")
      | None => (t, "Error: syntax error", Some "exit status 1")
      end
    else if bool_decide (input = InspectionSchemaScript) then (t, "", None)
    else match read_script input ≫= exec_all t with Some t' => (t', "", None) | None => (t, "Error: syntax error", Some "exit status 1") end
|}.

Lemma parse_get_element set needle : without " "%char set -> without "}"%char needle -> parse_get (get_element set needle) = Some (set, needle +:+ " ").
Proof.
  intros Hs Hn. unfold parse_get, get_element, CutPrefix. rewrite HasPrefix_app, TrimPrefix_app. cbn [mbind option_bind].
  rewrite (Cut_without " "%char "{ " set) by done. cbn [mbind option_bind].
  change (needle +:+ " }" +:+ nl) with (needle +:+ " " +:+ String "}"%char nl). rewrite <- (append_assoc needle).
  change (String "}"%char nl) with (String "}"%char "" +:+ nl). rewrite (Cut_without "}"%char "" (needle +:+ " ") nl); [done|]. by apply without_app.
Qed.

Lemma safe_without needle : unsafe_needle needle = false -> without "}"%char needle.
Proof.
  unfold unsafe_needle, without. intros H%negb_false_iff. eapply all_chars_impl; [|exact H]. intros c Hc. apply negb_true_iff in Hc.
  repeat (apply orb_false_iff in Hc as [Hc ?]). by apply negb_true_iff.
Qed.

Lemma setName_without k : without " "%char (setName k).
Proof. unfold setName. repeat (apply without_app; [by (done || apply itoa_without)|]). by apply itoa_without. Qed.

(** A script of the manager is neither a question nor the schema. *)
Lemma script_input script : Forall sendable script -> HasPrefix (render script) "get " = false /\ render script <> InspectionSchemaScript.
Proof. intros Hs. destruct Hs as [| c script Hc _]; [by split|]. destruct c; by split. Qed.

Lemma table_has_root t id : table_has t "app_denied_v4" (id +:+ " ") = bool_decide (is_Some (tb_roots t !! id)).
Proof.
  unfold table_has. cbn [bool_decide]. rewrite bool_decide_eq_true_2 by done. apply bool_decide_ext. split.
  - intros (i & c & Hi & E). apply append_inj_r in E as ->. by exists c.
  - intros [c Hc]. by exists id, c.
Qed.

Lemma table_has_set t key : table_has t (setName key) (element key +:+ " ") = bool_decide (element key ∈ default ∅ (tb_sets t !! setName key)).
Proof.
  unfold table_has. rewrite bool_decide_eq_false_2 by apply setName_word. apply bool_decide_ext. split.
  - intros (x & Hx & E). by apply append_inj_r in E as ->.
  - intros H. by exists (element key).
Qed.

#[global] Instance table_binary_laws : NftBinaryLaws table_binary id.
Proof.
  split; unfold nft_command; cbn [table_binary id].
  - by intros t args t' out e [= <- _ _].
  - by intros t args t' out e [= <- _ _].
  - by intros t script t' out e [= <- _ _].
  - by intros t t' out e [= <- _ _].
  - intros t script t' out Hs. destruct (script_input _ Hs) as [E1 E2]. rewrite E1, (bool_decide_eq_false_2 _ E2), read_script_render by done.
    cbn [mbind option_bind negb]. case_bool_decide; [|done]. destruct (exec_all t script); cbn; [by intros [= <-] | done].
  - intros t script t' out e Hs. destruct (script_input _ Hs) as [E1 E2]. rewrite E1, (bool_decide_eq_false_2 _ E2), read_script_render by done.
    cbn [mbind option_bind negb]. case_bool_decide; [|done]. destruct (exec_all t script); cbn; [done | intros [= <- _ _]; by left].
  - intros t set needle t' out e. case_bool_decide; [|done]. cbn [negb].
    change (HasPrefix (get_element set needle) "get ") with true. destruct (parse_get _) as [[s x]|]; [|by intros [= <- _ _]].
    destruct (table_has t s x); by intros [= <- _ _].
  - intros t id0 t' out e Hn. change (HasPrefix (get_element _ _) "get ") with true. rewrite parse_get_element by (done || by apply safe_without). rewrite table_has_root. case_bool_decide; [|done]. cbn [negb].
    case_bool_decide as Hr; intros [= <- <- <-]; [done|]. intros _. by apply eq_None_not_Some.
  - intros t key t' out e Hn. change (HasPrefix (get_element _ _) "get ") with true. rewrite parse_get_element by (apply setName_without || by apply safe_without). rewrite table_has_set. case_bool_decide; [|done]. cbn [negb].
    case_bool_decide as Hr; by intros [= <- <- <-].
Qed.
