(* ===== verification/GuardProps.v ===== *)
(** * What the guards drop

    What is dropped after every operation, whatever expires meanwhile: only what the
    manager has on record or failed to install, and, when no call of nft fails after
    it took effect, exactly what is on record; what the answers of the manager mean
    for the packets of a connection. *)

From S2P Require Import Prelude GoStr Netip Domain Interleave Guards NftModel GuardAgree.
From Stdlib Require Import Ascii.

Local Open Scope Z_scope.

(** ** Operations *)

Section operations.
Context {K : Type} {N : InspectionNft K} {table : K -> Table} {L : NftLaws N table}.
(** The capacity of the manager. *)
Context (cap : Z).

Definition kernel (g : InspectionGuardManager K) : Table := from_option table free_table (gm_nft g).

(** The operation holds [mutation]: beside it only time passes. *)
Record meanwhile (g g' : InspectionGuardManager K) : Prop := mkMeanwhile {
  mw_owned : gm_owned g' = gm_owned g;
  mw_max : gm_max g' = gm_max g;
  mw_kernel : expires (kernel g) (kernel g')
}.

#[global] Instance meanwhile_preorder : PreOrder meanwhile.
Proof.
  split; [intros g; by constructor|]. intros a b c [O1 M1 K1] [O2 M2 K2]. constructor; [congruence | congruence |]. by etrans.
Qed.

Record good (g : InspectionGuardManager K) : Prop := mkGood {
  go_agree : agree (gm_owned g) (kernel g);
  go_size : Z.of_nat (size (gm_owned g)) <= gm_max g;
  go_cap : gm_max g = cap
}.

Lemma good_meanwhile g g' : good g -> meanwhile g g' -> good g'.
Proof. intros [Ha Hs Hc] [O M E]. constructor; [rewrite O; by apply (agree_expires _ _ _ Ha) | by rewrite O, M | congruence]. Qed.

(** A call of the adapter that changes nothing but possibly the table. *)
Definition same_record (g g' : InspectionGuardManager K) : Prop := gm_owned g' = gm_owned g /\ gm_max g' = gm_max g.

Lemma wp_contains set needle (Q : result string bool -> list (InspectionGuardManager K) -> InspectionGuardManager K -> Prop) tr s :
  (forall m m' r, meanwhile s m -> same_record m m' -> kernel m' = kernel m ->
     (forall b, r = Ok b -> set = "app_denied_v4" -> b = bool_decide (is_Some (tb_roots (kernel m) !! needle))) ->
     (forall b key, r = Ok b -> set = setName key -> needle = element key -> b = bool_decide (alive (kernel m) key)) ->
     Q r (tr ++ [m]) m') ->
  wp meanwhile (contains set needle) Q tr s.
Proof using L.
  intros HQ m Hm. cbn [wp]. unfold kernel in HQ. specialize (HQ m). destruct (gm_nft m) as [k|] eqn:En; cbn [fst snd].
  - destruct (InspectionSetContains k set needle) as [k' r] eqn:Ec. cbn [fst snd]. apply HQ; [done | done | cbn; by apply (contains_same _ _ _ _ _ Ec) | |].
    + intros b -> ->. cbn. by apply (contains_root _ _ _ _ Ec).
    + intros b key -> -> ->. cbn. by rewrite (contains_set _ _ _ _ Ec).
  - apply HQ; [done | done | by rewrite En | done | done].
Qed.

Lemma size_insert (O : gset InspectionGuardKey) key : (size ({[key]} ∪ O) <= S (size O))%nat.
Proof. destruct (decide (key ∈ O)) as [H|H]; [assert (E : {[key]} ∪ O = O) by set_solver; rewrite E; lia | rewrite size_union by set_solver; rewrite size_singleton; lia]. Qed.

(** A script: whatever nft answers, it took effect as a whole or not at all. *)
Lemma wp_mutate_any script (Q : option string -> list (InspectionGuardManager K) -> InspectionGuardManager K -> Prop) tr s :
  Forall sendable script ->
  (forall m m' e, meanwhile s m -> same_record m m' ->
     exec_all (kernel m) script = Some (kernel m') \/ e <> None /\ kernel m' = kernel m -> Q e (tr ++ [m]) m') ->
  wp meanwhile (mutate script) Q tr s.
Proof using L.
  intros Hsend HQ m Hm. cbn [wp]. unfold kernel in HQ. specialize (HQ m). destruct (gm_nft m) as [k|] eqn:En; cbn [fst snd].
  - destruct (ApplyInspectionMutation k (render script)) as [k' [e|]] eqn:Ec; cbn [fst snd]; (apply HQ; [done | done |]); cbn.
    + destruct (apply_err _ _ _ _ Hsend Ec) as [E | E]; [by right | by left].
    + left. by apply (apply_ok _ _ _ Hsend Ec).
  - apply HQ; [done | done | right]. by rewrite En.
Qed.

(** *** Errors are not trusted *)

(** The kernel holds guards of the recorded keys and of the keys [F] in doubt. *)
Record loose (F : gset InspectionGuardKey) (g : InspectionGuardManager K) : Prop := mkLoose {
  lo_confined : confined (gm_owned g ∪ F) (kernel g);
  lo_plain k : k ∈ gm_owned g ∪ F -> plain k;
  lo_size : Z.of_nat (size (gm_owned g)) <= gm_max g;
  lo_cap : gm_max g = cap
}.

Lemma loose_meanwhile F g g' : loose F g -> meanwhile g g' -> loose F g'.
Proof. intros [Hc Hp Hs Hm] [O M E]. constructor; rewrite ?O, ?M; [by apply (confined_expires _ (kernel g)) | done..]. Qed.

Lemma loose_kernel F g g' : loose F g -> same_record g g' -> confined (gm_owned g ∪ F) (kernel g') -> loose F g'.
Proof. intros [Hc Hp Hs Hm] [O M] E. by constructor; rewrite ?O, ?M. Qed.

Lemma loose_same F g g' : loose F g -> same_record g g' -> kernel g' = kernel g -> loose F g'.
Proof. intros H Hs E. apply (loose_kernel F g); [done | done |]. rewrite E. apply H. Qed.

Lemma loose_exec F g g' script : loose F g -> same_record g g' -> Forall (confines (gm_owned g ∪ F)) script ->
  exec_all (kernel g) script = Some (kernel g') \/ kernel g' = kernel g -> loose F g'.
Proof.
  intros H Hs Hc [E | E]; [|by apply (loose_same F g)]. apply (loose_kernel F g); [done | done |]. by apply (confined_exec_all _ script (kernel g)); [apply H | |].
Qed.

(** A key that is recorded need not be in doubt. *)
Lemma loose_recorded F g key : loose ({[key]} ∪ F) g -> key ∈ gm_owned g -> loose F g.
Proof. intros [Hc Hp Hs Hm] Hk. assert (E : gm_owned g ∪ ({[key]} ∪ F) = gm_owned g ∪ F) by set_solver. rewrite E in *. by constructor. Qed.

Lemma loose_doubt F g key : loose F g -> plain key -> loose ({[key]} ∪ F) g.
Proof.
  intros [Hc Hp Hs Hm] Hk. constructor; [apply (confined_mono (gm_owned g ∪ F)); [done | set_solver] | | done | done].
  intros k [H | [->%elem_of_singleton | H]%elem_of_union]%elem_of_union; [apply Hp; set_solver | done | apply Hp; set_solver].
Qed.

Lemma wp_confirm_loose F key message tr s : loose F s ->
  wp meanwhile (confirm key message) (fun _ _ s' => loose F s' /\ gm_owned s' = gm_owned s) tr s.
Proof using L.
  intros Hs. unfold confirm, installed. do 2 apply wp_bind. apply wp_contains. intros m m' r Hm Hsame Ek _ _.
  pose proof (loose_same _ _ _ (loose_meanwhile _ _ _ Hs Hm) Hsame Ek) as H1.
  assert (O1 : gm_owned m' = gm_owned s) by (destruct Hsame as [-> _]; apply Hm). destruct r as [[]|e]; [|by cbn..].
  apply wp_contains. intros n n' r Hn Hsame' En _ _. cbn [wp mret prog_ret].
  split; [exact (loose_same _ _ _ (loose_meanwhile _ _ _ H1 Hn) Hsame' En)|]. destruct Hsame' as [-> _]. by rewrite (mw_owned _ _ Hn).
Qed.

(** Recording a key in doubt. *)
Lemma loose_record F g key : loose F g -> key ∈ F -> (key ∈ gm_owned g \/ Z.of_nat (size (gm_owned g)) < gm_max g) ->
  loose F (g <| gm_owned ::= fun o => {[key]} ∪ o |>).
Proof.
  intros [Hc Hp Hs Hm] Hk Hroom. assert (E : {[key]} ∪ gm_owned g ∪ F = gm_owned g ∪ F) by set_solver.
  constructor; [change (confined ({[key]} ∪ gm_owned g ∪ F) (kernel g)); by rewrite E | | | exact Hm].
  - intros k Hin. apply Hp. rewrite <- E. exact Hin.
  - change (Z.of_nat (size ({[key]} ∪ gm_owned g)) <= gm_max g). destruct Hroom as [Hin | Hlt].
    + assert (E' : {[key]} ∪ gm_owned g = gm_owned g) by set_solver. by rewrite E'.
    + pose proof (size_insert (gm_owned g) key). lia.
Qed.

Lemma wp_install_loose F key ttl tr s : loose F s -> key ∈ F ->
  wp meanwhile (installAppGuardLocked key ttl) (fun r _ s' => loose F s' /\ (r = None -> key ∈ gm_owned s')) tr s.
Proof using L.
  intros Hs Hk. pose proof (lo_plain _ _ Hs key ltac:(set_solver)) as Hp.
  unfold installAppGuardLocked. apply wp_bind. intros s1 H1. cbn [wp peek id]. pose proof (loose_meanwhile _ _ _ Hs H1) as G1.
  destruct (gm_nft s1); [|by split]. destruct (BuildInspectionGuardKey _) as [k0|e]; [|by split]. cbv zeta.
  apply wp_bind. intros s2 H2. cbn [wp peek id]. pose proof (loose_meanwhile _ _ _ G1 H2) as G2.
  destruct (negb (bool_decide (key ∈ gm_owned s2)) && (gm_max s2 <=? Z.of_nat (size (gm_owned s2)))) eqn:Efull; [by split|].
  assert (Hroom : key ∈ gm_owned s2 \/ Z.of_nat (size (gm_owned s2)) < gm_max s2).
  { apply andb_false_iff in Efull as [E | E]; [left; by apply negb_false_iff, bool_decide_eq_true in E | right; by apply Z.leb_gt in E]. }
  apply wp_bind. apply wp_contains. intros m3 s3 r3 H3 Hsame3 Ek3 _ _. pose proof (loose_same _ _ _ (loose_meanwhile _ _ _ G2 H3) Hsame3 Ek3) as G3.
  destruct r3 as [rootPresent|e]; [|by split].
  apply wp_bind. intros s4 H4. cbn [wp groups peek id]. pose proof (loose_meanwhile _ _ _ G3 H4) as G4.
  change (sort_by zone_less _) with (group_list (gk_ConntrackID key) (Some key) None (gm_owned s4)).
  apply wp_bind. apply wp_mutate_any.
  { apply install_sendable; [done|]. apply group_list_plain; [intros k1 Hin; apply (lo_plain _ _ G4); set_solver | by intros k1 [= <-]]. }
  intros m5 s5 e5 H5 Hsame5 He5. pose proof (loose_meanwhile _ _ _ G4 H5) as G5.
  assert (G5' : loose F s5).
  { eapply (loose_exec F m5 _ _ G5 Hsame5); [|destruct He5 as [He5 | [_ He5]]; [left; exact He5 | by right]].
    apply install_confines; [set_solver|]. apply group_list_ids. by intros k1 [= <-]. }
  assert (Hroom5 : key ∈ gm_owned s5 \/ Z.of_nat (size (gm_owned s5)) < gm_max s5).
  { destruct Hsame5 as [-> ->], H5 as [-> -> _], H4 as [-> -> _], Hsame3 as [-> ->], H3 as [-> -> _]. exact Hroom. }
  assert (Hfinish : forall tr' s6, meanwhile s5 s6 ->
    wp meanwhile (_ ← modify (fun g => g <| gm_owned ::= fun o => {[key]} ∪ o |>); confirm key "application guard readback failed")
      (fun r _ s' => loose F s' /\ (r = None -> key ∈ gm_owned s')) tr' s6).
  { intros tr' s6 H6. apply wp_bind. intros s7 H7. cbn [wp modify]. assert (H57 : meanwhile s5 s7) by by etrans.
    eapply wp_mono; [|apply wp_confirm_loose, (loose_record F); [by apply (loose_meanwhile F s5) | done | destruct H57 as [-> -> _]; exact Hroom5]].
    intros r tr7 s8 [G8 E8]. split; [done|]. intros _. rewrite E8. change (key ∈ {[key]} ∪ gm_owned s7). set_solver. }
  apply wp_bind. destruct e5 as [e|]; [|cbn [wp mret prog_ret]; by apply Hfinish].
  unfold installed. do 2 apply wp_bind. apply wp_contains. intros m6 s6 r6 H6 Hsame6 Ek6 _ _.
  assert (H56 : meanwhile s5 s6) by (etrans; [exact H6|]; destruct Hsame6; constructor; [done | done | by rewrite Ek6]).
  destruct r6 as [[]|e']; [|by cbn; split; [apply (loose_meanwhile F s5)|]..].
  apply wp_contains. intros m7 s7 r7 H7 Hsame7 Ek7 _ _. cbn [wp mret prog_ret].
  assert (H57 : meanwhile s5 s7) by (etrans; [exact H56|]; etrans; [exact H7|]; destruct Hsame7; constructor; [done | done | by rewrite Ek7]).
  destruct r7 as [[]|e']; [by apply Hfinish | by split; [apply (loose_meanwhile F s5)|]..].
Qed.

Lemma wp_renew_loose F key ttl tr s : loose F s -> key ∈ F ->
  wp meanwhile (RenewAppGuard key ttl) (fun r _ s' => loose F s' /\ (r = None -> key ∈ gm_owned s')) tr s.
Proof using L.
  intros Hs Hk. pose proof (lo_plain _ _ Hs key ltac:(set_solver)) as Hp.
  unfold RenewAppGuard. apply wp_bind. intros s1 H1. cbn [wp peek id]. pose proof (loose_meanwhile _ _ _ Hs H1) as G1.
  destruct (gm_nft s1); [|by split]. apply wp_bind. intros s2 H2. cbn [wp peek id]. pose proof (loose_meanwhile _ _ _ G1 H2) as G2.
  destruct (bool_decide_reflect (key ∈ gm_owned s2)) as [Hin|]; cbn [negb]; [|by apply wp_install_loose]. cbv zeta.
  apply wp_bind. apply wp_mutate_any; [by apply renew_sendable|]. intros m3 s3 e3 H3 Hsame3 He3. pose proof (loose_meanwhile _ _ _ G2 H3) as G3.
  assert (G3' : loose F s3).
  { apply (loose_exec F m3 _ (renew_script key (if ttl <=? 0 then Minute else ttl)) G3 Hsame3); [apply renew_confines; set_solver|].
    destruct He3 as [He3 | [_ He3]]; [by left | by right]. }
  destruct e3 as [e|]; [by apply wp_install_loose|]. eapply wp_mono; [|by apply wp_confirm_loose]. intros r tr' s' [G E]. split; [done|]. intros _.
  rewrite E. destruct Hsame3 as [-> _]. by rewrite (mw_owned _ _ H3).
Qed.

Lemma dead_expires t t' key : ~ alive t key -> expires t t' -> ~ alive t' key.
Proof. intros Hd (_ & _ & Hs) Hl. apply Hd. unfold alive in *. specialize (Hs (setName key)). destruct (tb_sets t !! setName key), (tb_sets t' !! setName key); cbn in *; set_solver. Qed.

Lemma loose_forget F g key : loose F g -> confined ((gm_owned g ∪ F) ∖ {[key]}) (kernel g) -> loose F (g <| gm_owned ::= fun o => o ∖ {[key]} |>).
Proof.
  intros [Hc Hp Hs Hm] Hf. constructor; [change (confined (gm_owned g ∖ {[key]} ∪ F) (kernel g)); apply (confined_mono _ _ _ Hf); set_solver | | | exact Hm].
  - intros k Hin. apply Hp. change (k ∈ gm_owned g ∖ {[key]} ∪ F) in Hin. set_solver.
  - change (Z.of_nat (size (gm_owned g ∖ {[key]})) <= gm_max g). pose proof (subseteq_size (gm_owned g ∖ {[key]}) (gm_owned g) ltac:(set_solver)). lia.
Qed.

Lemma wp_remove_loose F key tr s : loose F s -> plain key -> wp meanwhile (RemoveAppGuard key) (fun _ _ s' => loose F s') tr s.
Proof using L.
  intros Hs Hp. unfold RemoveAppGuard. apply wp_bind. intros s1 H1. cbn [wp peek id]. pose proof (loose_meanwhile _ _ _ Hs H1) as G1.
  destruct (gm_nft s1); [|done]. apply wp_bind. intros s2 H2. cbn [wp peek id]. pose proof (loose_meanwhile _ _ _ G1 H2) as G2.
  destruct (bool_decide _); cbn [negb]; [|done].
  apply wp_bind. apply wp_contains. intros m3 s3 r3 H3 Hsame3 Ek3 _ Hset. pose proof (loose_same _ _ _ (loose_meanwhile _ _ _ G2 H3) Hsame3 Ek3) as G3.
  destruct r3 as [here|e]; [|done]. specialize (Hset here key eq_refl eq_refl eq_refl). cbv zeta.
  assert (Hdead : here = false -> ~ alive (kernel s3) key) by (intros ->; rewrite Ek3; symmetry in Hset; by apply bool_decide_eq_false in Hset).
  clear Hset. apply wp_bind. intros s4 H4. cbn [wp groups peek id]. pose proof (loose_meanwhile _ _ _ G3 H4) as G4.
  change (sort_by zone_less _) with (group_list (gk_ConntrackID key) None (Some key) (gm_owned s4)).
  set (gs := group_list _ _ _ _). set (pre := if here then [DeleteElement (setName key) (element key)] else []).
  assert (Hgs : Forall plain gs) by (apply group_list_plain; [intros k1 Hin; apply (lo_plain _ _ G4); set_solver | done]).
  assert (Hids : Forall (fun g => gk_ConntrackID g = gk_ConntrackID key) gs) by by apply group_list_ids.
  assert (Hpre : Forall sendable pre /\ forall D, Forall (confines D) pre)
    by (unfold pre; destruct here; (split; [|intros D]); [apply Forall_cons_2; [by apply element_sendable | constructor] | by repeat constructor | constructor | constructor]).
  assert (Hrest : forall script rest tr' s5, meanwhile s4 s5 -> script = pre ++ rest -> Forall sendable rest -> (forall D, Forall (confines D) rest) ->
    wp meanwhile (failed ← (if bool_decide (script = []) then mret None else mutate script);
                  match failed with
                  | Some e => mret (Some e)
                  | None => _ ← modify (fun g => g <| gm_owned ::= fun o => o ∖ {[key]} |>); mret None
                  end) (fun _ _ s' => loose F s') tr' s5).
  { intros script rest tr' s5 H5 -> Hsend Hconf. pose proof (loose_meanwhile _ _ _ G4 H5) as G5.
    assert (Hlast : forall tr6 m6 s6, meanwhile s5 m6 -> same_record m6 s6 -> exec_all (kernel m6) (pre ++ rest) = Some (kernel s6) -> loose F s6 ->
      wp meanwhile (_ ← modify (fun g => g <| gm_owned ::= fun o => o ∖ {[key]} |>); mret (None : option string)) (fun _ _ s' => loose F s') tr6 s6).
    { intros tr6 m6 s6 H6 [O6 M6] Hexec G6. apply wp_bind. intros s7 H7. cbn [wp modify mret prog_ret]. apply loose_forget; [by apply (loose_meanwhile F s6)|].
      rewrite (mw_owned _ _ H7). apply (confined_expires _ (kernel s6)); [|apply H7]. rewrite O6. apply (confined_remove _ (kernel m6) key here rest); [by apply (loose_meanwhile F s5) | | done | done].
      intros Eh. apply (dead_expires (kernel s3)); [by apply Hdead|]. etrans; [apply H4|]. etrans; [apply H5 | apply H6]. }
    apply wp_bind. case_bool_decide as E; [cbn [wp mret prog_ret]; apply (Hlast tr' s5 s5); [done | done | by rewrite E | done]|].
    apply wp_mutate_any; [apply Forall_app; by split; [apply Hpre|]|]. intros m6 s6 e6 H6 Hsame6 He6. pose proof (loose_meanwhile _ _ _ G5 H6) as G6.
    assert (G6' : loose F s6).
    { apply (loose_exec F m6 _ (pre ++ rest) G6 Hsame6); [apply Forall_app; by split; [apply Hpre|]|]. destruct He6 as [He6 | [_ He6]]; [by left | by right]. }
    destruct e6 as [e|]; [done|]. destruct He6 as [He6 | [? _]]; [by apply (Hlast _ m6) | done]. }
  apply wp_bind. destruct (keeps_group key gs) eqn:Ekeep.
  - cbn [wp mret prog_ret]. apply (Hrest _ []); [done | by rewrite app_nil_r | constructor | intros; constructor].
  - case_bool_decide as Egs.
    + apply wp_bind. apply wp_contains. intros m5 s5 r5 H5 Hsame5 Ek5 _ _. cbn [wp mret prog_ret].
      assert (H45 : meanwhile s4 s5) by (etrans; [exact H5|]; destruct Hsame5; constructor; [done | done | by rewrite Ek5]).
      destruct r5 as [root|e]; [|by apply (loose_meanwhile F s4)].
      apply (Hrest _ (remove_group_script key gs root)); [done | done | by apply remove_sendable | intros; by apply remove_confines].
    + cbn [wp mret prog_ret]. apply (Hrest _ (remove_group_script key gs false)); [done | done | by apply remove_sendable | intros; by apply remove_confines].
Qed.

(** *** Intents *)

(** The identities of TCP and UDP connections as conntrack reports them. *)
Definition proper (identity : ConntrackIdentity) : Prop :=
  0 <= ci_Zone identity < 2 ^ 16 /\ tp_ICMPType (ci_Original identity) = 0 /\ tp_ICMPCode (ci_Original identity) = 0 /\ tp_ICMPID (ci_Original identity) = 0.

Lemma build_plain identity key : proper identity -> BuildInspectionGuardKey identity = Ok key -> plain key.
Proof.
  intros (Hz & H1 & H2 & H3). unfold BuildInspectionGuardKey. destruct (_ =? 0); [done|]. destruct (Tuple_Valid (ci_Original identity)) eqn:Ev; [|done]. cbn [negb orb].
  destruct (Z.eqb_spec (tp_Family (ci_Original identity)) FamilyIPv4) as [Ef|]; [|done]. cbn [negb]. destruct (_ && _) eqn:Ep; [done|]. intros [= <-]. split; [done|].
  assert (Hproto : tp_Protocol (ci_Original identity) = 6 \/ tp_Protocol (ci_Original identity) = 17).
  { apply andb_false_iff in Ep as [E | E]; apply negb_false_iff, Z.eqb_eq in E; auto. }
  cbn [gk_Original]. destruct (ci_Original identity) as [fam src sport dst dport proto ty code id]. cbn in *. subst fam ty code id.
  unfold Tuple_Valid in Ev. cbn in Ev. destruct (_ || _) eqn:E0; [done|]. destruct src as [| s | s z], dst as [| d | d z']; cbn in Ev; try done. by exists s, d.
Qed.

Fixpoint execute_all (intents : list (InspectionIntent * Time)) : Prog (InspectionGuardManager K) (list EnforcementResult) :=
  match intents with
  | [] => mret []
  | (intent, now) :: rest => r ← ExecuteInspectionIntent intent now; rs ← execute_all rest; mret (r.1 :: rs)
  end.

(** The intents that failed to install or renew the guard of [p]. *)
Definition doubtful (intents : list (InspectionIntent * Time)) (results : list EnforcementResult) (p : InspectionGuardKey) : Prop :=
  exists i r, (i, r) ∈ zip intents results /\ BuildInspectionGuardKey (ii_Identity i.1) = Ok p /\
    (ii_Kind i.1 = IntentInstallAppGuard \/ ii_Kind i.1 = IntentRenewAppGuard) /\ er_Status r = EnforcementFailed.

Lemma wp_execute_loose F intent now tr s : loose F s -> proper (ii_Identity intent) ->
  wp meanwhile (ExecuteInspectionIntent intent now) (fun res _ s' => exists F', loose F' s' /\ forall p, p ∈ F' -> p ∈ F \/ doubtful [(intent, now)] [res.1] p) tr s.
Proof using L.
  intros Hs Hi. unfold ExecuteInspectionIntent. cbv zeta. destruct (BuildInspectionGuardKey (ii_Identity intent)) as [key|e] eqn:Ek; [|exists F; by auto].
  pose proof (build_plain _ _ Hi Ek) as Hp. apply wp_bind.
  assert (Hdone : ii_Kind intent = IntentInstallAppGuard \/ ii_Kind intent = IntentRenewAppGuard -> forall failed s', loose ({[key]} ∪ F) s' -> (failed = None -> key ∈ gm_owned s') ->
     exists F', loose F' s' /\ forall p, p ∈ F' -> p ∈ F \/ doubtful [(intent, now)] [(match failed with
       | Some e => (mkEnforcementResult EnforcementNFTSessionGuard EnforcementScopeSession (ii_RequestedAction intent) EnforcementFailed e None (ii_OperationID intent), Some e)
       | None => (mkEnforcementResult EnforcementNFTSessionGuard EnforcementScopeSession (ii_RequestedAction intent) EnforcementApplied (ii_Reason intent) (Some now) (ii_OperationID intent), None)
       end).1] p).
  { intros Hkind [e|] s' Hs' Hok; [|exists F; split; [by apply (loose_recorded F s' key); [|apply Hok] | by auto]].
    exists ({[key]} ∪ F). split; [done|]. intros p [->%elem_of_singleton | Hin]%elem_of_union; [right | by left].
    eexists _, _. split; [by left|]. by split_and!. }
  destruct (ii_Kind intent) eqn:Ekind.
  - eapply wp_mono; [|apply (wp_install_loose ({[key]} ∪ F)); [by apply loose_doubt | set_solver]]. intros failed tr' s' [Hg Ho]. by apply Hdone; [left | |].
  - eapply wp_mono; [|apply (wp_renew_loose ({[key]} ∪ F)); [by apply loose_doubt | set_solver]]. intros failed tr' s' [Hg Ho]. by apply Hdone; [right | |].
  - eapply wp_mono; [|by apply wp_remove_loose]. intros failed tr' s' Hg. exists F. by auto.
  - cbn [wp mret prog_ret]. exists F. by auto.
Qed.

Lemma wp_execute_all_loose F intents tr s : loose F s -> Forall (fun i => proper (ii_Identity i.1)) intents ->
  wp meanwhile (execute_all intents) (fun rs _ s' => exists F', loose F' s' /\ forall p, p ∈ F' -> p ∈ F \/ doubtful intents rs p) tr s.
Proof using L.
  revert F tr s. induction intents as [| [intent now] rest IH]; intros F tr s Hs; cbn [execute_all]; [exists F; by auto|]. intros [Hi Hrest]%Forall_cons.
  apply wp_bind. eapply wp_mono; [|by apply (wp_execute_loose F)]. cbv beta. intros r tr' s' (F1 & H1 & HF1). apply wp_bind.
  eapply wp_mono; [|by apply (IH F1)]. cbv beta. intros rs tr2 s2 (F2 & H2 & HF2). cbn [wp mret prog_ret]. exists F2. split; [done|].
  intros p [Hp | (i & x & Hin & Hx)]%HF2; [apply HF1 in Hp as [Hp | (i & x & Hin & Hx)]; [by left|]|]; right; exists i, x; (split; [|done]); cbn in *; [set_solver | by right].
Qed.

Lemma loose_new k max : table k = free_table -> cap = (if max <=? 0 then 10000 else max) -> loose ∅ (NewInspectionGuardManager (Some k) max).
Proof.
  intros Ek Ec. constructor; [|cbn; set_solver | cbn; destruct (Z.leb_spec max 0); rewrite size_empty; lia | done].
  change (confined (∅ ∪ ∅) (table k)). rewrite Ek. constructor; intros; cbn in *; by rewrite lookup_empty in *.
Qed.

(** *** No call fails after it took effect *)

Hypothesis clean : clean_errors N table.

Lemma wp_mutate script (Q : option string -> list (InspectionGuardManager K) -> InspectionGuardManager K -> Prop) tr s :
  Forall sendable script ->
  (forall m m' e, meanwhile s m -> same_record m m' ->
     match e with None => exec_all (kernel m) script = Some (kernel m') | Some _ => kernel m' = kernel m end -> Q e (tr ++ [m]) m') ->
  wp meanwhile (mutate script) Q tr s.
Proof using L clean.
  intros Hsend HQ m Hm. cbn [wp]. unfold kernel in HQ. specialize (HQ m). destruct (gm_nft m) as [k|] eqn:En; cbn [fst snd].
  - destruct (ApplyInspectionMutation k (render script)) as [k' [e|]] eqn:Ec; cbn [fst snd]; (apply HQ; [done | done |]); cbn.
    + by apply (clean _ _ _ _ Hsend Ec).
    + by apply (apply_ok _ _ _ Hsend Ec).
  - apply HQ; [done | done | by rewrite En].
Qed.

Lemma good_same g g' : good g -> same_record g g' -> kernel g' = kernel g -> good g'.
Proof. intros [Ha Hs Hc] [O M] E. constructor; [by rewrite O, E | by rewrite O, M | congruence]. Qed.

(** The readback: time passes, and a positive answer saw the element. *)
Lemma wp_installed key Q tr s :
  (forall s' r ext, good s' -> meanwhile s s' -> (r = Ok true -> exists m, m ∈ ext /\ meanwhile s m /\ alive (kernel m) key) -> Q r (tr ++ ext) s') ->
  good s -> wp meanwhile (installed key) Q tr s.
Proof using L clean.
  intros HQ Hs. unfold installed. apply wp_bind. apply wp_contains. intros m m' r Hm Hsame Ek _ Hset.
  pose proof (good_meanwhile _ _ Hs Hm) as Hgm. pose proof (good_same _ _ Hgm Hsame Ek) as Hgm'.
  assert (Hmm' : meanwhile s m') by (etrans; [exact Hm|]; destruct Hsame; constructor; [done | done | by rewrite Ek]).
  destruct r as [[]|e].
  - specialize (Hset true key eq_refl eq_refl eq_refl). symmetry in Hset. apply bool_decide_eq_true in Hset.
    apply wp_contains. intros n n' r Hn Hsame' En _ _. rewrite <- app_assoc. apply HQ.
    + apply (good_same n); [by apply (good_meanwhile m') | done | done].
    + etrans; [exact Hmm'|]. etrans; [exact Hn|]. destruct Hsame'. constructor; [done | done | by rewrite En].
    + intros _. exists m. split_and!; [set_solver | done | done].
  - cbn [wp mret prog_ret]. by apply HQ.
  - cbn [wp mret prog_ret]. by apply HQ.
Qed.

(** The element of a guard is in force. *)
Lemma alive_dropped g key : good g -> plain key -> key ∈ gm_owned g -> alive (kernel g) key -> dropped (kernel g) key.
Proof. intros [Ha _ _] Hp Hk Hl. by apply (agree_dropped (gm_owned g)). Qed.

Lemma alive_owned g key : good g -> plain key -> alive (kernel g) key -> key ∈ gm_owned g.
Proof.
  intros [Ha _ _] Hp Hl. unfold alive in Hl. destruct (tb_sets (kernel g) !! setName key) as [els|] eqn:Es; [|set_solver].
  destruct (proj2 (ag_set _ _ Ha _ _ Es) _ Hl) as (k & Hk & E1 & E2). by rewrite (guard_inj key k Hp (ag_plain _ _ Ha _ Hk) E1 E2).
Qed.

(** What success of an installation or renewal means. *)
Definition enforced (key : InspectionGuardKey) (r : option string) (tr : list (InspectionGuardManager K)) (s : InspectionGuardManager K) : Prop :=
  good s /\ (r = None -> key ∈ gm_owned s /\ exists m, m ∈ tr /\ dropped (kernel m) key).

Lemma wp_confirm key message tr s : good s -> plain key -> key ∈ gm_owned s -> wp meanwhile (confirm key message) (enforced key) tr s.
Proof using L clean.
  intros Hs Hp Hk. unfold confirm. apply wp_bind. apply wp_installed; [|done]. intros s' r ext Hs' Hm Hr. cbn [wp mret prog_ret]. split; [done|].
  destruct r as [[]|e]; [|done|done]. intros _. destruct (Hr eq_refl) as (m & Hin & Hsm & Hl). split; [by rewrite (mw_owned _ _ Hm)|].
  exists m. split; [set_solver|]. apply alive_dropped; [by apply (good_meanwhile s) | done | by rewrite (mw_owned _ _ Hsm) | done].
Qed.

(** The record after an addition. *)
Lemma good_add s key t :
  agree ({[key]} ∪ gm_owned s) t -> kernel s = t -> (key ∈ gm_owned s \/ Z.of_nat (size (gm_owned s)) < gm_max s) -> Z.of_nat (size (gm_owned s)) <= gm_max s -> gm_max s = cap ->
  good (s <| gm_owned ::= fun o => {[key]} ∪ o |>).
Proof.
  intros Ha Ek Hroom Hsize Hcap. constructor; [change (agree ({[key]} ∪ gm_owned s) (kernel s)); by rewrite Ek | | exact Hcap].
  change (Z.of_nat (size ({[key]} ∪ gm_owned s)) <= gm_max s). destruct Hroom as [Hin | Hlt].
  - assert (E : {[key]} ∪ gm_owned s = gm_owned s) by set_solver. by rewrite E.
  - pose proof (size_insert (gm_owned s) key). lia.
Qed.

Lemma wp_install key ttl tr s : good s -> plain key -> wp meanwhile (installAppGuardLocked key ttl) (enforced key) tr s.
Proof using L clean.
  intros Hs Hp. unfold installAppGuardLocked. apply wp_bind. intros s1 H1. cbn [wp peek id]. pose proof (good_meanwhile _ _ Hs H1) as G1.
  destruct (gm_nft s1); [|by split]. destruct (BuildInspectionGuardKey _) as [k0|e]; [|by split]. cbv zeta.
  apply wp_bind. intros s2 H2. cbn [wp peek id]. pose proof (good_meanwhile _ _ G1 H2) as G2.
  destruct (negb (bool_decide (key ∈ gm_owned s2)) && (gm_max s2 <=? Z.of_nat (size (gm_owned s2)))) eqn:Efull; [by split|].
  assert (Hroom : key ∈ gm_owned s2 \/ Z.of_nat (size (gm_owned s2)) < gm_max s2).
  { apply andb_false_iff in Efull as [E | E]; [left; by apply negb_false_iff, bool_decide_eq_true in E | right; by apply Z.leb_gt in E]. }
  apply wp_bind. apply wp_contains. intros m3 s3 r3 H3 Hsame3 Ek3 _ _. pose proof (good_same _ _ (good_meanwhile _ _ G2 H3) Hsame3 Ek3) as G3.
  destruct r3 as [rootPresent|e]; [|by split].
  apply wp_bind. intros s4 H4. cbn [wp groups peek id]. pose proof (good_meanwhile _ _ G3 H4) as G4.
  change (sort_by zone_less _) with (group_list (gk_ConntrackID key) (Some key) None (gm_owned s4)).
  apply wp_bind. apply wp_mutate; [apply install_sendable; [done | apply group_list_plain; [apply (ag_plain _ _ (go_agree _ G4)) | by intros k1 [= <-]]]|]. intros m5 s5 e5 H5 [O5 M5] He5. pose proof (good_meanwhile _ _ G4 H5) as G5.
  assert (Eo : gm_owned m5 = gm_owned s2 /\ gm_max m5 = gm_max s2 /\ gm_owned m5 = gm_owned s4).
  { destruct H5 as [-> -> _], H4 as [-> -> _], H3 as [E3 M3 _], Hsame3 as [E3' M3']. split_and!; congruence. }
  destruct Eo as (Eo2 & Em2 & Eo4). rewrite <- Eo2, <- Em2, <- O5, <- M5 in Hroom. rewrite <- Eo4 in He5.
  assert (Hsize5 : Z.of_nat (size (gm_owned s5)) <= gm_max s5) by (rewrite O5, M5; apply (go_size _ G5)).
  assert (Hfinish : forall tr', agree ({[key]} ∪ gm_owned s5) (kernel s5) ->
    wp meanwhile (_ ← modify (fun g => g <| gm_owned ::= fun o => {[key]} ∪ o |>); confirm key "application guard readback failed") (enforced key) tr' s5).
  { intros tr' Ha. apply wp_bind. intros s6 H6. cbn [wp modify]. apply wp_confirm; [|done | change (key ∈ {[key]} ∪ gm_owned s6); set_solver].
    destruct H6 as [O6 M6 K6]. apply (good_add _ _ (kernel s6)); [rewrite O6; by apply (agree_expires _ (kernel s5)) | done | by rewrite O6, M6 | by rewrite O6, M6 | rewrite M6, M5; apply (go_cap _ G5)]. }
  apply wp_bind. destruct e5 as [e|].
  - assert (G5' : good s5) by by apply (good_same m5). apply wp_bind. apply wp_installed; [|done].
    intros s6 r6 ext G6 H6 Hr6. cbn [wp mret prog_ret]. destruct r6 as [[]|e']; [|by split | by split].
    destruct (Hr6 eq_refl) as (m & _ & Hsm & Hl). assert (Hin : key ∈ gm_owned s6).
    { rewrite (mw_owned _ _ H6), <- (mw_owned _ _ Hsm). apply alive_owned; [by apply (good_meanwhile s5) | done | done]. }
    apply wp_bind. intros s7 H7. cbn [wp modify]. pose proof (good_meanwhile _ _ G6 H7) as G7. assert (Hin7 : key ∈ gm_owned s7) by by rewrite (mw_owned _ _ H7).
    apply wp_confirm; [|done | change (key ∈ {[key]} ∪ gm_owned s7); set_solver]. apply (good_add _ _ (kernel s7)); [|done | by left | apply (go_size _ G7) | apply (go_cap _ G7)].
    assert (E : {[key]} ∪ gm_owned s7 = gm_owned s7) by set_solver. rewrite E. apply (go_agree _ G7).
  - cbn [wp mret prog_ret]. apply Hfinish. rewrite O5. by apply (agree_install _ _ _ _ _ _ (go_agree _ G5) Hp He5).
Qed.

Lemma wp_renew key ttl tr s : good s -> plain key -> wp meanwhile (RenewAppGuard key ttl) (enforced key) tr s.
Proof using L clean.
  intros Hs Hp. unfold RenewAppGuard. apply wp_bind. intros s1 H1. cbn [wp peek id]. pose proof (good_meanwhile _ _ Hs H1) as G1.
  destruct (gm_nft s1); [|by split]. apply wp_bind. intros s2 H2. cbn [wp peek id]. pose proof (good_meanwhile _ _ G1 H2) as G2.
  destruct (bool_decide_reflect (key ∈ gm_owned s2)) as [Hin|]; cbn [negb]; [|by apply wp_install]. cbv zeta.
  apply wp_bind. apply wp_mutate; [by apply renew_sendable|]. intros m3 s3 e3 H3 [O3 M3] He3. pose proof (good_meanwhile _ _ G2 H3) as G3.
  destruct e3 as [e|]; [apply wp_install; [by apply (good_same m3) | done]|].
  assert (Hin3 : key ∈ gm_owned m3) by by rewrite (mw_owned _ _ H3). apply wp_confirm; [|done | by rewrite O3].
  destruct (agree_renew _ _ _ _ _ (go_agree _ G3) Hin3 He3) as [Ha _]. constructor; [by rewrite O3 | rewrite O3, M3; apply (go_size _ G3) | rewrite M3; apply (go_cap _ G3)].
Qed.

(** What success of a removal means. *)
Definition withdrawn (key : InspectionGuardKey) (r : option string) (tr : list (InspectionGuardManager K)) (s : InspectionGuardManager K) : Prop :=
  good s /\ (r = None -> key ∉ gm_owned s).

Lemma good_forget s key t : agree (gm_owned s ∖ {[key]}) t -> kernel s = t -> Z.of_nat (size (gm_owned s)) <= gm_max s -> gm_max s = cap ->
  good (s <| gm_owned ::= fun o => o ∖ {[key]} |>).
Proof.
  intros Ha Ek Hsize Hcap. constructor; [change (agree (gm_owned s ∖ {[key]}) (kernel s)); by rewrite Ek | | exact Hcap].
  change (Z.of_nat (size (gm_owned s ∖ {[key]})) <= gm_max s). pose proof (subseteq_size (gm_owned s ∖ {[key]}) (gm_owned s) ltac:(set_solver)). lia.
Qed.

(** The script of a removal, executed. *)
Lemma agree_remove O t key (here : bool) root t' :
  let gs := group_list (gk_ConntrackID key) None (Some key) O in
  let pre := if here then [DeleteElement (setName key) (element key)] else [] in
  agree O t -> key ∈ O -> (here = false -> ~ alive t key) ->
  exec_all t (if keeps_group key gs then pre else pre ++ remove_group_script key gs root) = Some t' -> agree (O ∖ {[key]}) t'.
Proof.
  intros gs pre H Hkey Hdead Hexec.
  assert (Hpre : forall t1, exec_all t pre = Some t1 -> agree O t1 /\ ~ alive t1 key).
  { subst pre. destruct here; cbn [exec_all]; [|intros t1 [= <-]; by split; [|apply Hdead]].
    intros t1. destruct (exec t _) as [t2|] eqn:E; [|done]. intros [= <-]. by apply (agree_delete_element O t). }
  destruct (keeps_group key gs) eqn:Ek.
  - destruct (Hpre _ Hexec) as [H1 Hd]. apply keeps_group_true in Ek as (g & Hg & Ez).
    destruct (proj1 (group_list_spec (gk_ConntrackID key) None (Some key) O ltac:(done)) g Hg) as [Ht Ei]. rewrite target_remove in Ht.
    apply (agree_forget O t' key g); [done | done | done | done | by apply setName_eq].
  - rewrite exec_all_app in Hexec. destruct (exec_all t pre) as [t1|] eqn:E1; [|done]. destruct (Hpre _ eq_refl) as [H1 _]. by apply (agree_remove_group O t1 key root).
Qed.

Lemma wp_remove key tr s : good s -> plain key -> wp meanwhile (RemoveAppGuard key) (withdrawn key) tr s.
Proof using L clean.
  intros Hs Hp. unfold RemoveAppGuard. apply wp_bind. intros s1 H1. cbn [wp peek id]. pose proof (good_meanwhile _ _ Hs H1) as G1.
  destruct (gm_nft s1); [|by split]. apply wp_bind. intros s2 H2. cbn [wp peek id]. pose proof (good_meanwhile _ _ G1 H2) as G2.
  destruct (bool_decide_reflect (key ∈ gm_owned s2)) as [Hin|Hout]; cbn [negb]; [|by split].
  apply wp_bind. apply wp_contains. intros m3 s3 r3 H3 Hsame3 Ek3 _ Hset. pose proof (good_same _ _ (good_meanwhile _ _ G2 H3) Hsame3 Ek3) as G3.
  destruct r3 as [here|e]; [|by split]. specialize (Hset here key eq_refl eq_refl eq_refl). cbv zeta.
  assert (Hdead : here = false -> ~ alive (kernel s3) key) by (intros ->; rewrite Ek3; symmetry in Hset; by apply bool_decide_eq_false in Hset).
  assert (Hin3 : key ∈ gm_owned s3) by (destruct Hsame3 as [-> _]; by rewrite (mw_owned _ _ H3)). clear Hset Hsame3 Ek3 H3 Hin G2 H2 G1 H1.
  apply wp_bind. intros s4 H4. cbn [wp groups peek id]. pose proof (good_meanwhile _ _ G3 H4) as G4.
  change (sort_by zone_less _) with (group_list (gk_ConntrackID key) None (Some key) (gm_owned s4)).
  set (gs := group_list _ _ _ _). set (pre := if here then [DeleteElement (setName key) (element key)] else []).
  (* from a state where the script is known *)
  assert (Hrest : forall script root tr' s5, meanwhile s4 s5 -> good s5 -> script = (if keeps_group key gs then pre else pre ++ remove_group_script key gs root) ->
    wp meanwhile (failed ← (if bool_decide (script = []) then mret None else mutate script);
                  match failed with
                  | Some e => mret (Some e)
                  | None => _ ← modify (fun g => g <| gm_owned ::= fun o => o ∖ {[key]} |>); mret None
                  end) (withdrawn key) tr' s5).
  { intros script root tr' s5 H5 G5 Escript.
    assert (Hlast : forall tr6 s6, same_record s5 s6 -> (exists t0, expires (kernel s5) t0 /\ exec_all t0 script = Some (kernel s6)) ->
      wp meanwhile (_ ← modify (fun g => g <| gm_owned ::= fun o => o ∖ {[key]} |>); mret None) (withdrawn key) tr6 s6).
    { intros tr6 s6 [O6 M6] (t0 & Ht0 & Hexec). apply wp_bind. intros s7 [O7 M7 K7]. cbn [wp modify mret prog_ret].
      assert (Eo : gm_owned s5 = gm_owned s4) by apply H5.
      assert (Ha : agree (gm_owned s5 ∖ {[key]}) (kernel s6)).
      { rewrite Escript in Hexec. unfold gs in Hexec. rewrite <- Eo in Hexec. apply (agree_remove (gm_owned s5) t0 key here root); [by apply (agree_expires _ _ _ (go_agree _ G5)) | | | done].
        - by rewrite Eo, (mw_owned _ _ H4).
        - intros Eh. apply (dead_expires (kernel s3)); [by apply Hdead|]. etrans; [apply H4|]. etrans; [apply H5 | done]. }
      split; [|intros _; change (key ∉ gm_owned s7 ∖ {[key]}); set_solver].
      apply (good_forget _ _ (kernel s7)); [rewrite O7, O6; by apply (agree_expires _ (kernel s6)) | done | rewrite O7, M7, O6, M6; apply (go_size _ G5) | rewrite M7, M6; apply (go_cap _ G5)]. }
    apply wp_bind. case_bool_decide as E.
    - cbn [wp mret prog_ret]. apply Hlast; [done|]. exists (kernel s5). by rewrite E.
    - apply wp_mutate.
      { rewrite Escript. assert (Hpre : Forall sendable pre) by (unfold pre; destruct here; [apply Forall_cons_2; [by apply element_sendable | constructor] | constructor]).
        destruct (keeps_group key gs); [done|]. apply Forall_app. split; [done|]. apply remove_sendable, group_list_plain; [apply (ag_plain _ _ (go_agree _ G4)) | done]. }
      intros m6 s6 e6 H6 [O6 M6] He6. destruct e6 as [e|].
      + split; [|done]. apply (good_same m6); [by apply (good_meanwhile s5) | done | done].
      + apply Hlast; [destruct H6; split; congruence|]. exists (kernel m6). split; [apply H6 | done]. }
  apply wp_bind. destruct (keeps_group key gs) eqn:Ekeep.
  - cbn [wp mret prog_ret]. by apply (Hrest _ false).
  - case_bool_decide as Egs.
    + apply wp_bind. apply wp_contains. intros m5 s5 r5 H5 Hsame5 Ek5 _ _. cbn [wp mret prog_ret].
      pose proof (good_same _ _ (good_meanwhile _ _ G4 H5) Hsame5 Ek5) as G5. destruct r5 as [root|e]; [|by split].
      apply (Hrest _ root); [|done | done]. etrans; [exact H5|]. destruct Hsame5. constructor; [done | done | by rewrite Ek5].
    + cbn [wp mret prog_ret]. by apply (Hrest _ false).
Qed.

(** What an applied intent has done. *)
Definition carried_through (intent : InspectionIntent) (res : EnforcementResult * option string) (tr : list (InspectionGuardManager K)) (s : InspectionGuardManager K) : Prop :=
  good s /\
  (er_Status res.1 = EnforcementApplied -> exists key, BuildInspectionGuardKey (ii_Identity intent) = Ok key /\
     match ii_Kind intent with
     | IntentInstallAppGuard | IntentRenewAppGuard => key ∈ gm_owned s /\ exists m, m ∈ tr /\ dropped (kernel m) key
     | IntentRemoveAppGuard => ~ dropped (kernel s) key
     | IntentKindOther _ => False
     end).

Lemma wp_execute intent now tr s : good s -> proper (ii_Identity intent) -> wp meanwhile (ExecuteInspectionIntent intent now) (carried_through intent) tr s.
Proof using L clean.
  intros Hs Hi. unfold ExecuteInspectionIntent. cbv zeta. destruct (BuildInspectionGuardKey (ii_Identity intent)) as [key|e] eqn:Ek; [|by split].
  pose proof (build_plain _ _ Hi Ek) as Hp. apply wp_bind.
  assert (Hdone : forall failed tr' s', good s' -> (failed = None -> match ii_Kind intent with
       | IntentInstallAppGuard | IntentRenewAppGuard => key ∈ gm_owned s' /\ exists m, m ∈ tr' /\ dropped (kernel m) key
       | IntentRemoveAppGuard => ~ dropped (kernel s') key
       | IntentKindOther _ => False
       end) ->
     carried_through intent (match failed with
       | Some e => (mkEnforcementResult EnforcementNFTSessionGuard EnforcementScopeSession (ii_RequestedAction intent) EnforcementFailed e None (ii_OperationID intent), Some e)
       | None => (mkEnforcementResult EnforcementNFTSessionGuard EnforcementScopeSession (ii_RequestedAction intent) EnforcementApplied (ii_Reason intent) (Some now) (ii_OperationID intent), None)
       end) tr' s').
  { intros failed tr' s' Hs' Hok. split; [done|]. destruct failed as [e|]; [done|]. intros _. exists key. split; [done | by apply Hok]. }
  destruct (ii_Kind intent) eqn:Ekind.
  - eapply wp_mono; [|by apply wp_install]. intros failed tr' s' [Hg He]. by apply Hdone.
  - eapply wp_mono; [|by apply wp_renew]. intros failed tr' s' [Hg He]. by apply Hdone.
  - eapply wp_mono; [|by apply wp_remove]. intros failed tr' s' [Hg Hw]. apply Hdone; [done|]. intros ->. rewrite (agree_dropped _ _ _ (go_agree _ Hg) Hp).
    intros [Hin _]. by apply (Hw eq_refl).
  - cbn [wp mret prog_ret]. exact (Hdone (Some "unsupported inspection intent") tr s Hs ltac:(done)).
Qed.

Lemma wp_execute_all intents tr s : good s -> Forall (fun i => proper (ii_Identity i.1)) intents -> wp meanwhile (execute_all intents) (fun _ _ s' => good s') tr s.
Proof using L clean.
  revert tr s. induction intents as [| [intent now] rest IH]; intros tr s Hs; cbn [execute_all]; [done|]. intros [Hi Hrest]%Forall_cons.
  apply wp_bind. eapply wp_mono; [|by apply wp_execute]. cbv beta. intros r tr' s' [Hs' _]. apply wp_bind. eapply wp_mono; [|by apply IH]. by intros.
Qed.

Lemma good_new k max : table k = free_table -> cap = (if max <=? 0 then 10000 else max) -> good (NewInspectionGuardManager (Some k) max).
Proof.
  intros Ek Ec. constructor; [|cbn; destruct (Z.leb_spec max 0); rewrite size_empty; lia | done].
  change (agree ∅ (table k)). rewrite Ek. constructor; intros; cbn in *; try set_solver; by rewrite lookup_empty in *.
Qed.

Lemma good_after k max intents env :
  table k = free_table -> cap = (if max <=? 0 then 10000 else max) -> Forall (fun i => proper (ii_Identity i.1)) intents -> within meanwhile env ->
  good (run_final (list EnforcementResult) (run (execute_all intents) env (NewInspectionGuardManager (Some k) max))).
Proof using L clean.
  intros Hk Hc Hi Henv. refine (wp_sound meanwhile _ (fun _ _ s' => good s') [] _ env Henv _). apply wp_execute_all; [by apply good_new | done].
Qed.
End operations.

Section claims.
Context {K : Type} {N : InspectionNft K} {table : K -> Table} {L : NftLaws N table}.

(** The state after some intents. *)
Definition after_intents (k : K) (max : Z) (intents : list (InspectionIntent * Time)) (env : list (InspectionGuardManager K -> InspectionGuardManager K))
  : InspectionGuardManager K :=
  run_final (list EnforcementResult) (run (execute_all intents) env (NewInspectionGuardManager (Some k) max)).

(** C30. Which packets the guards drop.  Start with no guards in the kernel and carry out
    any intents for TCP or UDP connections, whatever the nft calls answer (an error says
    nothing about whether the script took effect) and whatever elements expire in
    between.  A packet is dropped only if the identity of its connection (zone,
    conntrack identifier and original tuple) is recorded as guarded, or an intent to
    install or renew its guard was reported as failed; and the record stays within the
    configured capacity.  When no call of nft fails after its script took effect, a
    packet is dropped exactly if its identity is recorded and its element has not
    expired. *)
Theorem guards_drop_exactly k max intents env :
  table k = free_table -> Forall (fun i => proper (ii_Identity i.1)) intents -> within (meanwhile (table := table)) env ->
  let r := run (execute_all intents) env (NewInspectionGuardManager (Some k) max) in
  let g := run_final _ r in
  (forall p, plain p -> dropped (kernel (table := table) g) p -> p ∈ gm_owned g \/ doubtful intents (run_result _ r) p) /\
  Z.of_nat (size (gm_owned g)) <= (if max <=? 0 then 10000 else max) /\
  (clean_errors N table -> forall p, plain p -> dropped (kernel (table := table) g) p <-> p ∈ gm_owned g /\ alive (kernel (table := table) g) p).
Proof using L.
  intros Hk Hi Henv. cbv zeta.
  destruct (wp_sound meanwhile _ _ [] _ env Henv (wp_execute_all_loose (table := table) _ ∅ intents [] _ (loose_new _ k max Hk eq_refl) Hi)) as (F & Hl & HF).
  split_and!.
  - intros p Hp Hd. apply (confined_dropped _ _ _ (lo_confined _ _ _ Hl) (lo_plain _ _ _ Hl) Hp) in Hd as [Hd | [Hd | Hd]%HF]%elem_of_union; [by left | set_solver | by right].
  - rewrite <- (lo_cap _ _ _ Hl). apply Hl.
  - intros clean p Hp. apply agree_dropped; [|done]. apply (go_agree _ _ (good_after (table := table) _ clean k max intents env Hk eq_refl Hi Henv)).
Qed.

(** An intent reported as applied is in force, when no call of nft fails after its script
    took effect.  After any history of intents, an
    installation or renewal that is reported as applied has recorded the guard of the
    intent's connection, and at a moment of the call the packets of the connection were
    dropped; after a removal that is reported as applied they are not dropped. *)
Theorem applied_intent_in_force k max intents env intent now env' :
  clean_errors N table -> table k = free_table -> Forall (fun i => proper (ii_Identity i.1)) intents -> within (meanwhile (table := table)) env ->
  proper (ii_Identity intent) -> within (meanwhile (table := table)) env' ->
  let r := run (ExecuteInspectionIntent intent now) env' (after_intents k max intents env) in
  er_Status (run_result _ r).1 = EnforcementApplied ->
  exists key, BuildInspectionGuardKey (ii_Identity intent) = Ok key /\
    match ii_Kind intent with
    | IntentInstallAppGuard | IntentRenewAppGuard =>
        key ∈ gm_owned (run_final _ r) /\ exists m, m ∈ run_moments _ r /\ dropped (kernel (table := table) m) key
    | IntentRemoveAppGuard => ~ dropped (kernel (table := table) (run_final _ r)) key
    | IntentKindOther _ => False
    end.
Proof using L.
  intros clean Hk Hi Henv Hp Henv'. cbv zeta. pose proof (good_after (table := table) _ clean k max intents env Hk eq_refl Hi Henv) as Hg.
  exact (proj2 (wp_sound _ _ _ [] _ env' Henv' (wp_execute (table := table) _ clean intent now [] _ Hg Hp))).
Qed.
End claims.

(** What the manager sends to nft says what it means: the text of each of its scripts
    reads back, line by line and word by word, as the commands it was made of, so no
    name or element of a guard can be taken for anything else. *)
Theorem guard_scripts_roundtrip key gs flag ttl : plain key -> Forall plain gs ->
  read_script (render (install_script key gs flag ttl)) = Some (install_script key gs flag ttl) /\
  read_script (render (renew_script key ttl)) = Some (renew_script key ttl) /\
  read_script (render (remove_group_script key gs flag)) = Some (remove_group_script key gs flag) /\
  read_script (render (DeleteElement (setName key) (element key) :: remove_group_script key gs flag)) = Some (DeleteElement (setName key) (element key) :: remove_group_script key gs flag).
Proof.
  intros Hp Hgs. split_and!; apply read_script_render.
  - by apply install_sendable.
  - by apply renew_sendable.
  - by apply remove_sendable.
  - apply Forall_cons_2; [by apply element_sendable | by apply remove_sendable].
Qed.

(** ** Names *)

Lemma scan_all_digits s acc : all_chars is_digit s = true -> snd (scan_digits acc s) = "".
Proof. revert acc. induction s as [| c s IH]; intros acc; cbn; [done|]. intros [-> Hs]%andb_true_iff. by apply IH. Qed.

Lemma ParseUint_itoa n : 0 <= n < 2 ^ 64 -> ParseUint (itoa n) = Some n.
Proof.
  intros Hn. destruct (itoa_spec n ltac:(lia)) as (Hd & Hne & Hv). pose proof (scan_all_digits (itoa n) 0 Hd) as Hs. unfold ParseUint.
  assert (Hst : starts_with_digit (itoa n) = true) by (destruct (itoa n); [done | cbn in *; by apply andb_true_iff in Hd as [-> _]]).
  rewrite Hst. destruct (scan_digits 0 (itoa n)) as [v rest]. cbn in Hs, Hv. subst. destruct (Z.ltb_spec n (2 ^ 64)); [done | lia].
Qed.

Lemma ParseUintBits_itoa bits n : 0 <= n < 2 ^ bits -> 0 <= bits <= 64 -> ParseUintBits bits (itoa n) = Some n.
Proof.
  intros Hn Hb. unfold ParseUintBits. assert (2 ^ bits <= 2 ^ 64) by (apply Z.pow_le_mono_r; lia). rewrite ParseUint_itoa by lia.
  destruct (Z.ltb_spec n (2 ^ bits)); [done | lia].
Qed.

(** The adapter knows every set and chain the manager makes. *)
Lemma guard_names_valid k : plain k -> 0 < gk_ConntrackID k < 2 ^ 32 ->
  validInspectionGuardSet (setName k) = true /\ validInspectionGuardChain (inspectionGuardChain (gk_ConntrackID k)) = true.
Proof.
  intros [Hz _] Hi. assert (Hne : negb (gk_ConntrackID k =? 0) = true) by (apply negb_true_iff, Z.eqb_neq; lia). split.
  - unfold validInspectionGuardSet, CutPrefix, setName. rewrite HasPrefix_app, TrimPrefix_app.
    rewrite (Cut_without "_"%char "i") by by apply itoa_without. rewrite !ParseUintBits_itoa by lia. by rewrite Hne, bool_decide_eq_true_2.
  - unfold validInspectionGuardChain, CutPrefix, inspectionGuardChain. rewrite HasPrefix_app, TrimPrefix_app, ParseUintBits_itoa by lia. by rewrite Hne, bool_decide_eq_true_2.
Qed.

(** ** The lease *)

Section lease.
Context {K : Type} {N : InspectionNft K}.

(** An active lease was renewed by the last tick, for a live sensor, no longer ago than
    the kernel keeps it. *)
Lemma lease_active (nft : option K) ticks now :
  ls_Active (StateAt (lease_run (NewIPSLeaseManager nft) ticks) now) = true ->
  exists t, last ticks = Some (t, true) /\ ls_LastRenewal (StateAt (lease_run (NewIPSLeaseManager nft) ticks) now) = Some t /\ now <= t + 3 * Second.
Proof.
  assert (Hinv : lm_ttl (lease_run (NewIPSLeaseManager nft) ticks) = 3 * Second /\
    (ls_Active (lm_state (lease_run (NewIPSLeaseManager nft) ticks)) = true ->
       exists t, last ticks = Some (t, true) /\ ls_LastRenewal (lm_state (lease_run (NewIPSLeaseManager nft) ticks)) = Some t)).
  { induction ticks as [| [t live] ticks [IH1 _]] using rev_ind; [by split|]. unfold lease_run. rewrite foldl_snoc. change (foldl _ _ ticks) with (lease_run (NewIPSLeaseManager nft) ticks).
    set (m := lease_run _ ticks) in *. cbn [fst snd]. unfold tick. destruct (if live then _ else _) as [nft' err]. split; [exact IH1|]. cbn [lm_state].
    destruct live; cbn [andb]; [|done]. case_bool_decide; [|done]. intros _. exists t. by rewrite last_snoc. }
  destruct Hinv as [Et Ha]. unfold StateAt. rewrite Et. set (m := lease_run _ ticks) in *. destruct (ls_Active (lm_state m)) eqn:Ea; cbn [andb]; [|by rewrite Ea].
  destruct (Ha eq_refl) as (t & Hl & Hr). rewrite Hr. destruct (After now (t + 3 * Second)) eqn:Eaf; [done|]. intros _. exists t. split_and!; [done | by rewrite Hr |].
  unfold After in Eaf. apply Z.ltb_ge in Eaf. lia.
Qed.
End lease.

(** ** Examples *)

Definition ex_guarded (zone port : Z) : ConntrackIdentity :=
  mkConntrackIdentity "boot" "ns" zone 2 77 1000 (mkTuple FamilyIPv4 (Addr4 167772161) port (Addr4 134744072) 443 6 0 0 0).
Definition ex_guard_intent (kind : InspectionIntentKind) (zone port : Z) : InspectionIntent :=
  mkInspectionIntent kind "op" "s1" (ex_guarded zone port) 3 1 DecisionDrop "APP_POLICY" "not allowed".
Definition ex_key (zone port : Z) : InspectionGuardKey := mkGuardKey zone 77 (ci_Original (ex_guarded zone port)).

(** Two zones share a conntrack identifier; one of the guards is removed. *)
Definition ex_history : list (InspectionIntent * Time) :=
  [(ex_guard_intent IntentInstallAppGuard 0 4321, 100); (ex_guard_intent IntentInstallAppGuard 5 4321, 200); (ex_guard_intent IntentInstallAppGuard 5 4322, 300);
   (ex_guard_intent IntentRemoveAppGuard 0 4321, 400)].

(** All elements expire. *)
Definition ex_expire (g : InspectionGuardManager Table) : InspectionGuardManager Table :=
  g <| gm_nft ::= fmap (fun t => mkTable (tb_roots t) (tb_chains t) ((fun _ => ∅) <$> tb_sets t)) |>.

Lemma ex_expire_meanwhile g : meanwhile (table := id) g (ex_expire g).
Proof.
  constructor; [done | done |]. unfold kernel. change (gm_nft (ex_expire g)) with ((fun t => mkTable (tb_roots t) (tb_chains t) ((fun _ => ∅) <$> tb_sets t)) <$> gm_nft g).
  destruct (gm_nft g) as [t|]; [|reflexivity]. split_and!; [done | done |]. intros s.
  assert (E : forall m : gmap string (gset string), match m !! s, ((fun _ : gset string => (∅ : gset string)) <$> m) !! s with
                | Some els, Some els' => els' ⊆ els | None, None => True | _, _ => False end)
    by (intros m; rewrite lookup_fmap; destruct (m !! s); cbn; [apply empty_subseteq | done]).
  exact (E (tb_sets t)).
Qed.

Lemma ex_proper_history : Forall (fun i : InspectionIntent * Time => proper (ii_Identity i.1)) ex_history.
Proof. repeat constructor; cbn; lia. Qed.

Lemma ex_plain zone port : 0 <= zone < 2 ^ 16 -> plain (ex_key zone port).
Proof. intros Hz. split; [done|]. exists 167772161, 134744072. split; [done | by left]. Qed.

Lemma guards_drop_exactly_witness :
  let g := after_intents free_table 10 ex_history [] in
  gm_owned g = {[ex_key 5 4321; ex_key 5 4322]} /\ dropped (kernel (table := id) g) (ex_key 5 4321) /\ ~ dropped (kernel (table := id) g) (ex_key 0 4321).
Proof.
  cbv zeta. assert (Eo : bool_decide (gm_owned (after_intents free_table 10 ex_history []) = {[ex_key 5 4321; ex_key 5 4322]}) = true) by (vm_compute; reflexivity).
  apply bool_decide_eq_true in Eo.
  assert (El : bool_decide (alive (kernel (table := id) (after_intents free_table 10 ex_history [])) (ex_key 5 4321)) = true) by (vm_compute; reflexivity).
  apply bool_decide_eq_true in El.
  destruct (guards_drop_exactly (table := id) free_table 10 ex_history [] eq_refl ex_proper_history (Forall_nil_2 _)) as (_ & _ & H). specialize (H table_clean).
  set (g := after_intents free_table 10 ex_history []) in *.
  change (forall p, plain p -> dropped (kernel (table := id) g) p <-> p ∈ gm_owned g /\ alive (kernel (table := id) g) p) in H. clearbody g.
  split; [exact Eo|]. split.
  - apply (H (ex_key 5 4321)); [apply ex_plain; lia|]. split; [rewrite Eo; set_solver | exact El].
  - intros Hd. apply (H (ex_key 0 4321)) in Hd as [Hin _]; [|apply ex_plain; lia]. rewrite Eo in Hin.
    apply elem_of_union in Hin as [Hin | Hin]; apply elem_of_singleton, (f_equal gk_ConntrackZone) in Hin; discriminate Hin.
Defined.

(** The process is killed after the commit: the install is reported as failed and its
    guard is not on record, but the packets are dropped; a removal is then reported as
    applied and changes nothing. *)
Definition ex_killed : InspectionGuardManager (bool * Table) :=
  run_final _ (run (ExecuteInspectionIntent (N := killed_nft) (ex_guard_intent IntentInstallAppGuard 5 4321) 100)
    [fun g => g; fun g => g; fun g => g; fun g => g; fun g => g <| gm_nft ::= fmap (fun k => (true, k.2)) |>]
    (NewInspectionGuardManager (Some (false, free_table)) 10)).
Definition ex_healed : InspectionGuardManager (bool * Table) := ex_killed <| gm_nft ::= fmap (fun k => (false, k.2)) |>.

Lemma killed_install_unrecorded :
  gm_owned ex_healed = ∅ /\ dropped (kernel (table := snd) ex_healed) (ex_key 5 4321) /\
  let r := run (ExecuteInspectionIntent (N := killed_nft) (ex_guard_intent IntentRemoveAppGuard 5 4321) 200) [] ex_healed in
  er_Status (run_result _ r).1 = EnforcementApplied /\ run_final _ r = ex_healed.
Proof.
  assert (Eo : bool_decide (gm_owned ex_healed = ∅) = true) by (vm_compute; reflexivity). apply bool_decide_eq_true in Eo. split; [exact Eo|].
  split; [|split; vm_compute; reflexivity].
  exists "app_guard_i77", [(5, "app_denied_z5_i77")], "app_denied_z5_i77", {[element (ex_key 5 4321)]}.
  split_and!; [vm_compute; reflexivity | vm_compute; reflexivity | by left | vm_compute; reflexivity | set_solver].
Qed.

(** In general: a guard that is not on record is not removed, whatever the kernel holds. *)
Lemma unrecorded_guard_stays {K : Type} {N : InspectionNft K} (g : InspectionGuardManager K) k key :
  gm_nft g = Some k -> key ∉ gm_owned g -> run_result _ (run (RemoveAppGuard key) [] g) = None /\ run_final _ (run (RemoveAppGuard key) [] g) = g.
Proof.
  intros Hk Hout. unfold RemoveAppGuard. cbn. unfold Datatypes.id. rewrite Hk. cbn. unfold Datatypes.id. by rewrite bool_decide_eq_false_2.
Qed.

(** The guard was installed, everything expired, and a renewal brings it back. *)
Lemma applied_intent_in_force_witness :
  let r := run (ExecuteInspectionIntent (ex_guard_intent IntentRenewAppGuard 5 4321) 500) [ex_expire] (after_intents free_table 10 ex_history []) in
  er_Status (run_result _ r).1 = EnforcementApplied /\ exists m, m ∈ run_moments _ r /\ dropped (kernel (table := id) m) (ex_key 5 4321).
Proof.
  cbv zeta.
  assert (Es : er_Status (run_result _ (run (ExecuteInspectionIntent (ex_guard_intent IntentRenewAppGuard 5 4321) 500) [ex_expire] (after_intents free_table 10 ex_history []))).1 =
               EnforcementApplied) by (vm_compute; reflexivity).
  split; [exact Es|].
  assert (Henv : within (meanwhile (table := id)) [ex_expire]) by (apply Forall_cons_2; [exact ex_expire_meanwhile | constructor]).
  assert (Hp : proper (ii_Identity (ex_guard_intent IntentRenewAppGuard 5 4321))) by (repeat split; cbn; lia).
  destruct (applied_intent_in_force (table := id) free_table 10 ex_history [] (ex_guard_intent IntentRenewAppGuard 5 4321) 500 [ex_expire]
              table_clean eq_refl ex_proper_history (Forall_nil_2 _) Hp Henv Es) as (key & Ekey & Hkey).
  assert (E : Ok key = Ok (E := string) (ex_key 5 4321)) by (rewrite <- Ekey; vm_compute; reflexivity). injection E as ->. exact (proj2 Hkey).
Defined.

Lemma guard_scripts_roundtrip_witness :
  plain (ex_key 5 4321) /\ read_script (render (renew_script (ex_key 5 4321) Minute)) = Some (renew_script (ex_key 5 4321) Minute).
Proof.
  assert (Hp : plain (ex_key 5 4321)) by (apply ex_plain; lia). split; [exact Hp|].
  exact (proj1 (proj2 (guard_scripts_roundtrip (ex_key 5 4321) [ex_key 0 4321] true Minute Hp (Forall_cons_2 _ _ _ (ex_plain 0 4321 (conj (Z.le_refl 0) (eq_refl : 0 < 2 ^ 16))) (Forall_nil_2 _))))).
Defined.
