(* ===== verification/Reader.v ===== *)
(** * Reading the sensor's file

    [internal/inspection/eve/reader.go], [checkpoint.go] and [file.go]: a line at a
    time from the last checkpoint, across rotation, truncation and restarts of the
    sensor.  The file system, the sink of observations and the checkpoint store are
    parameters; [bufio.Reader.ReadSlice] is modelled with its buffer. *)

From S2P Require Import Prelude GoStr Domain Codec Eve Observation SecurityStore Flow SessionStore Correlation Connectivity EventRing.
From Stdlib Require Import Ascii.
From S2P Require Import Interleave Runtime Reducer InspectionRuntime.

(** ** Lines *)

(** What a handle reads: the bytes, and the error that ends them if it is not the end of
    the file; [fl_seek] is the error of [Seek]. *)
Record File : Type := mkFile { fl_bytes : list Z; fl_error : option string; fl_seek : option string }.

Inductive SliceEnd : Type := SliceFound | SliceBufferFull | SliceEOF.

Fixpoint index_of (b : Z) (l : list Z) : option nat :=
  match l with [] => None | x :: l => if x =? b then Some O else S <$> index_of b l end.

(** [reader.ReadSlice(newline)] with a buffer of 4096 bytes. *)
Definition ReadSlice (rest : list Z) : list Z * SliceEnd :=
  match index_of 10 (take 4096 rest) with
  | Some i => (take (S i) rest, SliceFound)
  | None => if Nat.leb 4096 (length rest) then (take 4096 rest, SliceBufferFull) else (rest, SliceEOF)
  end.

Definition trim_last (b : Z) (l : list Z) : list Z :=
  match last l with Some x => if x =? b then removelast l else l | None => l end.

Record LineRead : Type := mkLineRead {
  lr_line : list Z;
  lr_start : Z;
  lr_end : Z;
  lr_tooLarge : bool;
  lr_complete : bool;
  lr_err : option string
}.

(** One round of the loop; the recursion is bounded by the bytes that are left. *)
Fixpoint read_loop (fuel : nat) (rest : list Z) (err : option string) (max start offset : Z) (collected : list Z) (tooLarge : bool) : LineRead :=
  match fuel with
  | O => mkLineRead [] start start false false None
  | S n =>
      let '(fragment, status) := ReadSlice rest in
      let offset := offset + Z.of_nat (length fragment) in
      let over := max <? Z.of_nat (length collected) + Z.of_nat (length fragment) in
      let collected := if negb over && negb tooLarge then collected ++ fragment else collected in
      let tooLarge := over || tooLarge in
      match status with
      | SliceFound => mkLineRead (trim_last 13 (trim_last 10 collected)) start offset tooLarge true None
      | SliceBufferFull => read_loop n (drop 4096 rest) err max start offset collected tooLarge
      | SliceEOF => match err with
                    | None => mkLineRead [] start start false false None
                    | Some e => mkLineRead [] start offset tooLarge false (Some e)
                    end
      end
  end.

Definition readCompleteLine (file : File) (offset max : Z) : LineRead :=
  match fl_seek file with
  | Some e => mkLineRead [] offset offset false false (Some e)
  | None => let rest := drop (Z.to_nat offset) (fl_bytes file) in read_loop (S (length rest)) rest (fl_error file) max offset offset [] false
  end.

(** ** The reader *)

Record Checkpoint : Type := mkCheckpoint { cp_FileGeneration : string; cp_Offset : Z; cp_SensorEpoch : string }.
Definition checkpoint_zero : Checkpoint := mkCheckpoint "" 0 "".

Record EveReader : Type := mkEveReader {
  ev_Source : SourcePosition;
  ev_Checkpoints : bool;            (** whether there is a checkpoint store *)
  ev_LineBytes : Z;
  ev_NormalizedBytes : Z;
  ev_StartAtEnd : bool;
  ev_DiscoverySIDs : gset Z;
  ev_EpochPath : string;
  ev_health : SourceHealth;
  ev_parsed : Z;
  ev_invalid : Z;
  ev_ignored : Z;
  ev_oversize : Z;
  ev_queueDrop : Z;
  ev_readerGap : Z;
  ev_active : bool
}.

#[global] Instance eta_EveReader : Eta EveReader := fun r =>
  mkEveReader (ev_Source r) (ev_Checkpoints r) (ev_LineBytes r) (ev_NormalizedBytes r) (ev_StartAtEnd r) (ev_DiscoverySIDs r) (ev_EpochPath r) (ev_health r)
    (ev_parsed r) (ev_invalid r) (ev_ignored r) (ev_oversize r) (ev_queueDrop r) (ev_readerGap r) (ev_active r).

#[global] Instance eta_SourceHealth : Eta SourceHealth := fun h =>
  mkSourceHealth (sh_SensorID h) (sh_SensorEnabled h) (sh_SensorEpoch h) (sh_ConfigHash h) (sh_RulesetID h) (sh_Mode h) (sh_ReaderActive h)
    (sh_ProcessReachable h) (sh_CaptureLive h) (sh_State h) (sh_Reason h) (sh_LastRead h) (sh_LastHeartbeat h) (sh_Counters h) (sh_ReaderStats h).

#[global] Instance eta_SourcePosition : Eta SourcePosition := fun p =>
  mkSourcePosition (so_SensorID p) (so_SensorEpoch p) (so_SensorConfigHash p) (so_RulesetID p) (so_Mode p) (so_FileGeneration p) (so_ByteStart p) (so_ByteEnd p).

#[global] Instance eta_AlertObservation : Eta AlertObservation := fun a =>
  mkAlertObservation (al_SignatureID a) (al_HasSignatureID a) (al_SignatureRevision a) (al_Signature a) (al_Category a) (al_Severity a) (al_SignatureAction a)
    (al_PacketVerdict a) (al_InternalDiscovery a).

Definition NewReader (source : SourcePosition) (checkpoints : bool) : EveReader :=
  mkEveReader source checkpoints MaxDefaultLineBytes MaxNormalizedBytes false ∅ ""
    (mkSourceHealth (so_SensorID source) true (so_SensorEpoch source) (so_SensorConfigHash source) (so_RulesetID source) (so_Mode source) false false false
       "STARTING" "" None None (mkSensorCounters None None None None None) ∅) 0 0 0 0 0 0 false.

Definition Snapshot (r : EveReader) : SourceHealth :=
  ev_health r <| sh_SensorEpoch := so_SensorEpoch (ev_Source r) |> <| sh_ReaderActive := ev_active r |>
    <| sh_ReaderStats := list_to_map [("parsed", ev_parsed r); ("invalid", ev_invalid r); ("ignored", ev_ignored r); ("oversize", ev_oversize r);
                                      ("queue_dropped", ev_queueDrop r); ("reader_gap", ev_readerGap r)] |>.

Definition setSensorEpoch (epoch : string) (r : EveReader) : EveReader :=
  r <| ev_Source ::= fun s => s <| so_SensorEpoch := epoch |> |> <| ev_health ::= fun h => h <| sh_SensorEpoch := epoch |> |>.

Definition setHealth (state reason : string) (read : option Time) (r : EveReader) : EveReader :=
  r <| ev_health ::= fun h =>
      let h := h <| sh_State := state |> <| sh_Reason := reason |> in
      match read with Some t => h <| sh_LastRead := Some t |> | None => h end |>.

(** The sink of observations, the checkpoint store and the clock. *)
Class Outside (X : Type) := {
  sink_TrySubmit : X -> Observation -> X * bool;
  store_Save : X -> Checkpoint -> X * option string;
  outside_Now : X -> Time
}.

Section reader.
Context {JE : JSON RawEnvelope} {JO : JSON Observation} {JS : JSON string} {JD : JSON RawDNS} {JP : JSON RawPeer}.
Context (decode_strings : RawMessage -> list string * bool) (Parse : string -> string -> option Time).
(** The text of the parser's errors. *)
Context (error_text : EVEError -> string).
Context {X : Type} {W : Outside X}.

Definition mark_discovery (sids : gset Z) (obs : Observation) : Observation :=
  match ob_Alert obs with
  | Some a => if bool_decide (al_SignatureID a ∈ sids)
              then obs <| ob_Alert := Some (a <| al_InternalDiscovery := true |>) |> <| ob_Kind := "discovery" |> else obs
  | None => obs
  end.

(** A complete line at its position. *)
Definition accept_line (l : LineRead) (position : SourcePosition) (r : EveReader) (s : X) : EveReader * X :=
  if lr_tooLarge l then (setHealth "DEGRADED" "EVE_TOO_LARGE" None (r <| ev_oversize ::= inc64 |>), s)
  else
    match ParseLineWithLimit decode_strings Parse (lr_line l) position (ev_NormalizedBytes r) (outside_Now s) with
    | Err ErrEVETooLarge => (setHealth "DEGRADED" "EVE_TOO_LARGE" None (r <| ev_oversize ::= inc64 |>), s)
    | Err (ErrEVEUnknownType _) => (r <| ev_ignored ::= inc64 |>, s)
    | Err e => (setHealth "DEGRADED" (error_text e) None (r <| ev_invalid ::= inc64 |>), s)
    | Ok obs =>
        let r := r <| ev_parsed ::= inc64 |> in
        let obs := mark_discovery (ev_DiscoverySIDs r) obs <| ob_ID := EventID position (lr_line l) |> in
        let '(s, taken) := sink_TrySubmit s obs in
        if negb taken then (setHealth "DEGRADED" "observation queue full" None (r <| ev_queueDrop ::= inc64 |>), s)
        else (setHealth "HEALTHY" "" (Some (outside_Now s)) r, s)
    end.

Definition save_checkpoint (generation : string) (offset : Z) (r : EveReader) (s : X) : EveReader * X :=
  if ev_Checkpoints r then
    let '(s, err) := store_Save s (mkCheckpoint generation offset (so_SensorEpoch (ev_Source r))) in
    match err with
    | Some e => (setHealth "DEGRADED" ("checkpoint save failed: " +:+ e) None r, s)
    | None => (r, s)
    end
  else (r, s).

Definition consume_line (generation : string) (l : LineRead) (r : EveReader) (s : X) : EveReader * X :=
  let position := ev_Source r <| so_FileGeneration := generation |> <| so_ByteStart := lr_start l |> <| so_ByteEnd := lr_end l |> in
  let '(r, s) := accept_line l position r s in
  save_checkpoint generation (lr_end l) r s.

Record Consumed : Type := mkConsumed { cn_reader : EveReader; cn_sink : X; cn_offset : Z; cn_progressed : bool; cn_err : option string }.

(** The loop; each round passes at least one byte of the file. *)
Fixpoint consume_loop (fuel : nat) (file : File) (generation : string) (size : Z) (r : EveReader) (s : X) (offset : Z) (progressed : bool) : Consumed :=
  match fuel with
  | O => mkConsumed r s offset progressed None
  | S n =>
      if size <=? offset then mkConsumed r s offset progressed None
      else
        let l := readCompleteLine file offset (ev_LineBytes r) in
        match lr_err l with
        | Some e => mkConsumed (setHealth "DEGRADED" e None r) s offset progressed (Some e)
        | None =>
            if negb (lr_complete l) then mkConsumed r s offset progressed None
            else let '(r, s) := consume_line generation l r s in consume_loop n file generation size r s (lr_end l) true
        end
  end.

Definition consumeAvailable (file : File) (generation : string) (offset size : Z) (r : EveReader) (s : X) : Consumed :=
  consume_loop (S (length (fl_bytes file))) file generation size r s offset false.

(** ** The loop of [Run] *)

Record FileInfo : Type := mkFileInfo { fi_Size : Z; fi_Generation : string }.

(** [current]: nil, a handle, or what [os.Open] leaves in the interface when it fails: a
    nil [*os.File], which is not a nil interface and refuses every call. *)
Inductive Handle : Type := NoHandle | NilFile | OpenHandle.

(** What the file system answers during one round. *)
Record World : Type := mkWorld {
  w_epoch : result string string;                  (** the epoch file *)
  w_old : result string Z * File;                  (** size and contents behind the handle held at the start *)
  w_stat : result (bool * string) FileInfo;        (** the path; an error says whether the file does not exist *)
  w_open : result string unit;
  w_opened : result string FileInfo;               (** the handle just opened *)
  w_epoch_again : result string string;
  w_file : File                                    (** contents behind the handle read at the end *)
}.

Record RunState : Type := mkRunState {
  ru_reader : EveReader;
  ru_sink : X;
  ru_current : Handle;
  ru_generation : string;
  ru_offset : Z;
  ru_checkpoint : Checkpoint
}.

Definition closed (st : RunState) (r : EveReader) (s : X) : RunState := mkRunState r s NoHandle "" 0 (ru_checkpoint st).

(** The rest of the old file, through the old handle. *)
Definition drain (w : World) (st : RunState) : EveReader * X :=
  match ru_current st, (w_old w).1 with
  | OpenHandle, Ok size => let c := consumeAvailable (w_old w).2 (ru_generation st) (ru_offset st) size (ru_reader st) (ru_sink st) in (cn_reader c, cn_sink c)
  | _, _ => (ru_reader st, ru_sink st)
  end.

(** [readSensorEpoch(path)]; [file] is what the path holds. *)
Definition readSensorEpoch (path : string) (file : result string (list Z)) : result string string :=
  if bool_decide (path = "") then Ok ""
  else
    match file with
    | Err e => Err e
    | Ok content =>
        let data := take 257 content in
        if Nat.ltb 256 (length data) then Err "epoch file exceeds 256 bytes"
        else
          let epoch := TrimSpace (bytes_str data) in
          if bool_decide (epoch = "") || existsb (fun c => ContainsByte c epoch) [" "%char; char_of 9; char_of 13; char_of 10; "/"%char; "\"%char]
          then Err "epoch file is empty or invalid" else Ok epoch
    end.

Definition follow_epoch (w : World) (st : RunState) : RunState :=
  match w_epoch w with
  | Err e => mkRunState (setHealth "DEGRADED" ("sensor epoch unavailable: " +:+ e) None (ru_reader st)) (ru_sink st) (ru_current st) (ru_generation st) (ru_offset st) (ru_checkpoint st)
  | Ok epoch =>
      if bool_decide (epoch = "") || bool_decide (epoch = so_SensorEpoch (ev_Source (ru_reader st))) then st
      else
        let '(r, s) := drain w st in
        let checkpoint := if bool_decide (cp_SensorEpoch (ru_checkpoint st) = epoch) then ru_checkpoint st else checkpoint_zero in
        mkRunState (setHealth "STARTING" "sensor epoch changed; resynchronizing EVE" None (setSensorEpoch epoch r)) s NoHandle "" 0 checkpoint
  end.

(** A rotated file is read to its end before the new one is opened. *)
Definition follow_rotation (w : World) (observed : string) (st : RunState) : RunState :=
  match ru_current st with
  | NoHandle => st
  | _ => if bool_decide (ru_generation st = observed) then st else let '(r, s) := drain w st in closed st r s
  end.

Definition resume_offset (r : EveReader) (checkpoint : Checkpoint) (info : FileInfo) : Z :=
  if bool_decide (cp_FileGeneration checkpoint = fi_Generation info) && bool_decide (cp_SensorEpoch checkpoint = so_SensorEpoch (ev_Source r)) &&
     (cp_Offset checkpoint <=? fi_Size info) then cp_Offset checkpoint
  else if ev_StartAtEnd r && bool_decide (cp_FileGeneration checkpoint = "") then fi_Size info
  else 0.

(** The handle to read from, or the state in which the round ends. *)
Definition reopen (w : World) (info : FileInfo) (st : RunState) : RunState + (RunState * FileInfo) :=
  let must := match ru_current st with NoHandle => true | _ => fi_Size info <? ru_offset st end in
  if negb must then inr (st, info)
  else
    let r := match ru_current st with NoHandle => ru_reader st | _ => ru_reader st <| ev_readerGap ::= inc64 |> end in
    match w_open w with
    | Err e => inl (mkRunState (setHealth "UNAVAILABLE" e None r) (ru_sink st) NilFile (ru_generation st) (ru_offset st) (ru_checkpoint st))
    | Ok _ =>
        match w_opened w with
        | Err e => inl (mkRunState (setHealth "DEGRADED" ("opened EVE stat failed: " +:+ e) None r) (ru_sink st) NoHandle (ru_generation st) (ru_offset st) (ru_checkpoint st))
        | Ok opened =>
            let refused := if bool_decide (ev_EpochPath r = "") then None
                           else match w_epoch_again w with
                                | Err e => Some (setHealth "DEGRADED" ("sensor epoch unavailable: " +:+ e) None r)
                                | Ok epoch => if bool_decide (epoch = so_SensorEpoch (ev_Source r)) then None else Some r
                                end in
            match refused with
            | Some r => inl (closed st r (ru_sink st))
            | None => inr (mkRunState r (ru_sink st) OpenHandle (fi_Generation opened) (resume_offset r (ru_checkpoint st) opened) (ru_checkpoint st), opened)
            end
        end
    end.

Definition unavailable_reason (e : bool * string) : string := if e.1 then "EVE file unavailable" else e.2.

(** The file behind the handle; a nil [*os.File] refuses [Seek]. *)
Definition readable (w : World) (h : Handle) : File :=
  match h with OpenHandle => w_file w | _ => mkFile [] None (Some "invalid argument") end.

(** One round of the loop. *)
Definition run_round (w : World) (st : RunState) : RunState :=
  let st := follow_epoch w st in
  match w_stat w with
  | Err e => mkRunState (setHealth "UNAVAILABLE" (unavailable_reason e) None (ru_reader st)) (ru_sink st) (ru_current st) (ru_generation st) (ru_offset st) (ru_checkpoint st)
  | Ok info =>
      let st := follow_rotation w (fi_Generation info) st in
      match reopen w info st with
      | inl st => st
      | inr (st, info) =>
          let c := consumeAvailable (readable w (ru_current st)) (ru_generation st) (ru_offset st) (fi_Size info) (ru_reader st) (ru_sink st) in
          mkRunState (cn_reader c) (cn_sink c) (ru_current st) (ru_generation st) (cn_offset c) (ru_checkpoint st)
      end
  end.

(** Before the loop; [None] when the reader is already running. *)
Definition run_start (loaded : result string Checkpoint) (r : EveReader) (s : X) : option RunState :=
  if ev_active r then None
  else
    let r := r <| ev_active := true |> <| ev_LineBytes ::= fun n => if n <=? 0 then MaxDefaultLineBytes else n |>
               <| ev_NormalizedBytes ::= fun n => if n <=? 0 then MaxNormalizedBytes else n |> in
    Some (if ev_Checkpoints r
          then match loaded with
               | Err e => mkRunState (setHealth "DEGRADED" ("checkpoint load failed: " +:+ e) None r) s NoHandle "" 0 checkpoint_zero
               | Ok c => mkRunState r s NoHandle "" 0 c
               end
          else mkRunState r s NoHandle "" 0 checkpoint_zero).

Definition run_rounds (ws : list World) (st : RunState) : RunState := foldl (fun st w => run_round w st) st ws.
End reader.

(** ** The checkpoint file *)

(** [Load]: what the path holds, [None] when it does not exist. *)
Definition checkpoint_Load {JC : JSON Checkpoint} (file : option (result string (list Z))) : result string Checkpoint :=
  match file with
  | None => Ok checkpoint_zero
  | Some (Err e) => Err e
  | Some (Ok data) =>
      match Unmarshal data with
      | None => Err "invalid checkpoint"
      | Some c => if cp_Offset c <? 0 then Err "negative checkpoint offset" else Ok c
      end
  end.

(** The steps of [Save] that may fail before the file is replaced. *)
Record SaveOutcome : Type := mkSaveOutcome {
  sv_mkdir : option string;
  sv_create : option string;
  sv_write : option string;       (** chmod, write, sync and close of the temporary file *)
  sv_rename : option string
}.

(** The file after [Save], and the error. *)
Definition checkpoint_Save {JC : JSON Checkpoint} (path : string) (o : SaveOutcome) (c : Checkpoint) (file : option (list Z)) : option (list Z) * option string :=
  if bool_decide (path = "") then (file, Some "checkpoint path is required")
  else match sv_mkdir o with
  | Some e => (file, Some e)
  | None =>
      match Marshal c with
      | None => (file, Some "json")
      | Some data =>
          match sv_create o, sv_write o, sv_rename o with
          | None, None, None => (Some data, None)
          | Some e, _, _ | None, Some e, _ | None, None, Some e => (file, Some e)
          end
      end
  end.
