(* ===== verification/ReaderProps.v ===== *)
(** * Every line of the sensor's file once

    A line is found whatever the buffer size; reading a growing file in pieces
    delivers what reading it at once would; and a case in which the reader stops. *)

From S2P Require Import Prelude GoStr Domain Codec Eve Observation SecurityStore Flow SessionStore Correlation Connectivity EventRing.
From S2P Require Import Interleave Runtime Reducer InspectionRuntime Reader.

(** ** One line *)

Lemma index_of_Some b l i : index_of b l = Some i -> (i < length l)%nat /\ l !! i = Some b /\ index_of b (take i l) = None.
Proof.
  revert i. induction l as [| x l IH]; intros i; cbn; [done|]. destruct (Z.eqb_spec x b) as [->|Hne].
  - intros [= <-]. split_and!; [lia | done | done].
  - destruct (index_of b l) as [j|]; [|done]. intros [= <-]. destruct (IH j eq_refl) as (H1 & H2 & H3). split_and!; [lia | done |]. cbn.
    destruct (Z.eqb_spec x b); [done|]. by rewrite H3.
Qed.

Lemma index_of_app b l l' :
  index_of b (l ++ l') = match index_of b l with Some i => Some i | None => Nat.add (length l) <$> index_of b l' end.
Proof.
  induction l as [| x l IH]; cbn; [by destruct (index_of b l')|]. destruct (x =? b); [done|]. rewrite IH. destruct (index_of b l); [done|]. by destruct (index_of b l').
Qed.

Lemma index_of_take b n l : index_of b (take n l) = match index_of b l with Some i => if Nat.ltb i n then Some i else None | None => None end.
Proof.
  revert n. induction l as [| x l IH]; intros n; [by destruct n|]. destruct n as [| n]; [cbn; destruct (x =? b); [done|]; by destruct (index_of b l)|]. cbn [take index_of].
  destruct (x =? b); [done|]. rewrite IH. destruct (index_of b l) as [i|]; [|done].
  change (S <$> (if (i <? n)%nat then Some i else None) = (if (i <? n)%nat then Some (S i) else None)). by destruct (i <? n)%nat.
Qed.

(** The text of a line. *)
Definition line_text (raw : list Z) : list Z := trim_last 13 (trim_last 10 raw).

Lemma read_loop_found fuel rest err max start offset collected tooLarge i :
  (length rest < fuel)%nat -> index_of 10 rest = Some i ->
  exists line, read_loop fuel rest err max start offset collected tooLarge =
                 mkLineRead line start (offset + Z.of_nat (S i)) ((max <? Z.of_nat (length collected + S i)) || tooLarge) true None /\
    ((max <? Z.of_nat (length collected + S i)) || tooLarge = false -> line = line_text (collected ++ take (S i) rest)).
Proof.
  revert rest offset collected tooLarge i. induction fuel as [| n IH]; intros rest offset collected tooLarge i Hlen Hi; [lia|]. destruct (index_of_Some _ _ _ Hi) as (Hil & _ & _).
  cbn [read_loop]. unfold ReadSlice. rewrite index_of_take, Hi. destruct (Nat.ltb_spec i 4096) as [Hlt | Hge].
  - rewrite length_take, Nat.min_l by lia. rewrite <- Nat2Z.inj_add. eexists. split; [reflexivity|].
    destruct (Z.ltb_spec max (Z.of_nat (length collected + S i))); cbn [orb negb andb]; [done|]. intros ->. done.
  - destruct (Nat.leb_spec 4096 (length rest)) as [_|]; [|lia]. rewrite length_take, Nat.min_l by lia.
    assert (Hi' : index_of 10 (drop 4096 rest) = Some (i - 4096)%nat).
    { pose proof (index_of_app 10 (take 4096 rest) (drop 4096 rest)) as E. rewrite take_drop, Hi, index_of_take, Hi in E. destruct (Nat.ltb_spec i 4096); [lia|].
      destruct (index_of 10 (drop 4096 rest)) as [j|]; [|done]. cbn in E. injection E as ->. rewrite length_take, Nat.min_l by lia. f_equal. lia. }
    set (over := max <? _). set (c' := if negb over && negb tooLarge then _ else collected).
    destruct (IH (drop 4096 rest) (offset + Z.of_nat 4096) c' (over || tooLarge) (i - 4096)%nat) as (line & E & Hline); [rewrite length_drop; lia | done|].
    exists line. rewrite E. unfold over in *. destruct (Z.ltb_spec max (Z.of_nat (length collected) + Z.of_nat 4096)) as [Hov | Hok]; cbn [orb negb andb] in *.
    + assert (Eb : (max <? Z.of_nat (length collected + S i)) = true) by (apply Z.ltb_lt; lia). rewrite Eb, orb_true_r. split; [f_equal; lia | done].
    + destruct tooLarge; cbn [negb andb orb] in *; [rewrite !orb_true_r in *; split; [f_equal; lia | done]|].
      subst c'. rewrite length_app, length_take, Nat.min_l in * by lia. rewrite !orb_false_r in *.
      assert (El : (length collected + 4096 + S (i - 4096) = length collected + S i)%nat) by lia. rewrite El in *. split; [f_equal; lia|].
      intros Hb. rewrite (Hline Hb). unfold line_text. rewrite <- app_assoc. do 3 f_equal.
      rewrite <- (take_drop 4096 (take (S i) rest)). rewrite take_take, Nat.min_l by lia. f_equal. rewrite take_drop_commute. do 2 f_equal. lia.
Qed.

Lemma read_loop_none fuel rest max start offset collected tooLarge :
  (length rest < fuel)%nat -> index_of 10 rest = None ->
  read_loop fuel rest None max start offset collected tooLarge = mkLineRead [] start start false false None.
Proof.
  revert rest offset collected tooLarge. induction fuel as [| n IH]; intros rest offset collected tooLarge Hlen Hi; [lia|].
  cbn [read_loop]. unfold ReadSlice. rewrite index_of_take, Hi. destruct (Nat.leb_spec 4096 (length rest)); [|done].
  apply IH; [rewrite length_drop; lia|]. pose proof (index_of_app 10 (take 4096 rest) (drop 4096 rest)) as E. rewrite take_drop, Hi, index_of_take, Hi in E.
  by destruct (index_of 10 (drop 4096 rest)).
Qed.

(** A line that is complete stays the same line when the file grows. *)
Lemma ReadSlice_grows rest more i : index_of 10 rest = Some i -> ReadSlice (rest ++ more) = ReadSlice rest.
Proof.
  intros Hi. destruct (index_of_Some _ _ _ Hi) as (Hil & _ & _). unfold ReadSlice. rewrite !index_of_take, index_of_app, Hi. destruct (Nat.ltb_spec i 4096).
  - by rewrite take_app_le by lia.
  - rewrite length_app. destruct (Nat.leb_spec 4096 (length rest)); [|lia]. destruct (Nat.leb_spec 4096 (length rest + length more)); [|lia]. by rewrite take_app_le by lia.
Qed.

Lemma read_loop_grows fuel fuel' rest more err err' max start offset collected tooLarge i :
  (length rest < fuel)%nat -> (length rest < fuel')%nat -> index_of 10 rest = Some i ->
  read_loop fuel' (rest ++ more) err' max start offset collected tooLarge = read_loop fuel rest err max start offset collected tooLarge.
Proof.
  revert fuel' rest offset collected tooLarge i. induction fuel as [| n IH]; intros [| n'] rest offset collected tooLarge i Hf Hf' Hi; try lia.
  destruct (index_of_Some _ _ _ Hi) as (Hil & _ & _). cbn [read_loop]. rewrite (ReadSlice_grows _ _ i) by done. unfold ReadSlice. rewrite index_of_take, Hi.
  destruct (Nat.ltb_spec i 4096) as [|Hge]; [done|]. destruct (Nat.leb_spec 4096 (length rest)) as [Hl|]; [|lia].
  rewrite drop_app_le by lia. apply (IH _ _ _ _ _ (i - 4096)%nat); [rewrite length_drop; lia | rewrite length_drop; lia |].
  pose proof (index_of_app 10 (take 4096 rest) (drop 4096 rest)) as E. rewrite take_drop, Hi, index_of_take, Hi in E. destruct (Nat.ltb_spec i 4096); [lia|].
  destruct (index_of 10 (drop 4096 rest)) as [j|]; [|done]. cbn in E. injection E as ->. rewrite length_take, Nat.min_l by lia. f_equal. lia.
Qed.

(** A file that can be read to its end. *)
Definition plain_file (b : list Z) : File := mkFile b None None.

Lemma readCompleteLine_cases b offset max :
  let l := readCompleteLine (plain_file b) offset max in
  (exists i, index_of 10 (drop (Z.to_nat offset) b) = Some i /\ lr_complete l = true /\ lr_err l = None /\ lr_end l = offset + Z.of_nat (S i) /\
     lr_start l = offset /\ lr_tooLarge l = (max <? Z.of_nat (S i)) /\ (lr_tooLarge l = false -> lr_line l = line_text (take (S i) (drop (Z.to_nat offset) b)))) \/
  (index_of 10 (drop (Z.to_nat offset) b) = None /\ lr_complete l = false /\ lr_err l = None).
Proof.
  cbv zeta. unfold readCompleteLine, plain_file. cbn [fl_seek fl_bytes fl_error]. destruct (index_of 10 (drop (Z.to_nat offset) b)) as [i|] eqn:Ei.
  - left. exists i. destruct (read_loop_found (S (length (drop (Z.to_nat offset) b))) (drop (Z.to_nat offset) b) None max offset offset [] false i ltac:(lia) Ei) as (line & -> & Hl).
    cbn [lr_complete lr_err lr_end lr_start lr_tooLarge lr_line length Nat.add] in *. rewrite orb_false_r in *. split_and!; [done.. | exact Hl].
  - right. rewrite read_loop_none by (done || lia). done.
Qed.

Section consuming.
Context {JE : JSON RawEnvelope} {JO : JSON Observation} {JS : JSON string} {JD : JSON RawDNS} {JP : JSON RawPeer}.
Context (decode_strings : RawMessage -> list string * bool) (Parse : string -> string -> option Time) (error_text : EVEError -> string).
Context {X : Type} {W : Outside X}.

Abbreviation loop := (consume_loop decode_strings Parse error_text (X := X)).

(** What the outside and the next read see of a read. *)
Definition outcome (c : Consumed (X := X)) : EveReader * X * Z := (cn_reader c, cn_sink c, cn_offset c).

(** More fuel than bytes changes nothing. *)
Lemma loop_fuel n m b generation size r s offset p p' :
  0 <= offset -> (Z.to_nat (Z.of_nat (length b) - offset) < n)%nat -> (Z.to_nat (Z.of_nat (length b) - offset) < m)%nat ->
  outcome (loop n (plain_file b) generation size r s offset p) = outcome (loop m (plain_file b) generation size r s offset p').
Proof.
  revert m r s offset p p'. induction n as [| n IH]; intros [| m] r s offset p p' H0 Hn Hm; try lia. cbn [consume_loop]. destruct (size <=? offset); [done|].
  destruct (readCompleteLine_cases b offset (ev_LineBytes r)) as [(i & Hi & -> & -> & -> & _) | (_ & -> & ->)]; [|done]. cbn [negb].
  destruct (consume_line _ _ _ _ _ _ _) as [r' s']. destruct (index_of_Some _ _ _ Hi) as (Hil & _ & _). rewrite length_drop in Hil. apply IH; lia.
Qed.

(** The line of a grown file. *)
Lemma line_grows b more offset max i : index_of 10 (drop (Z.to_nat offset) b) = Some i ->
  readCompleteLine (plain_file (b ++ more)) offset max = readCompleteLine (plain_file b) offset max.
Proof.
  intros Hi. unfold readCompleteLine, plain_file. cbn [fl_seek fl_bytes fl_error]. destruct (index_of_Some _ _ _ Hi) as (Hil & _ & _). rewrite length_drop in Hil.
  rewrite drop_app_le by lia. eapply read_loop_grows; [lia | rewrite length_app; lia | done].
Qed.

Lemma loop_pieces n m k b more generation r s offset p p' :
  0 <= offset -> (Z.to_nat (Z.of_nat (length b) - offset) < n)%nat -> (Z.to_nat (Z.of_nat (length (b ++ more)) - offset) < m)%nat -> (length (b ++ more) < k)%nat ->
  let first := loop n (plain_file b) generation (Z.of_nat (length b)) r s offset p in
  outcome (loop k (plain_file (b ++ more)) generation (Z.of_nat (length (b ++ more))) (cn_reader first) (cn_sink first) (cn_offset first) p') =
  outcome (loop m (plain_file (b ++ more)) generation (Z.of_nat (length (b ++ more))) r s offset p).
Proof.
  cbv zeta. revert m r s offset p. induction n as [| n IH]; intros m r s offset p H0 Hn Hm Hk; [lia|]. cbn [consume_loop].
  destruct (Z.leb_spec (Z.of_nat (length b)) offset) as [Hend|Hmore]; [apply loop_fuel; [done | lia | done]|].
  destruct (readCompleteLine_cases b offset (ev_LineBytes r)) as [(i & Hi & Hc & He & Eend & _) | (Hi & -> & ->)]; [|apply loop_fuel; [done | lia | done]].
  rewrite Hc, He. cbn [negb]. destruct m as [| m]; [lia|]. cbn [consume_loop]. rewrite (line_grows b more offset _ i Hi), Hc, He. cbn [negb].
  destruct (Z.leb_spec (Z.of_nat (length (b ++ more))) offset); [rewrite length_app in *; lia|].
  destruct (consume_line _ _ _ _ _ _ _) as [r' s']. destruct (index_of_Some _ _ _ Hi) as (Hil & _ & _). rewrite length_drop in Hil.
  rewrite Eend. apply IH; lia.
Qed.

(** ** Reference: the complete lines of a file *)

(** The lines with their newlines; what follows the last newline is not a line yet. *)
Fixpoint raw_lines (cur b : list Z) : list (list Z) :=
  match b with
  | [] => []
  | x :: b => if x =? 10 then rev (x :: cur) :: raw_lines [] b else raw_lines (x :: cur) b
  end.

Lemma raw_lines_first cur b :
  raw_lines cur b = match index_of 10 b with Some i => (rev cur ++ take (S i) b) :: raw_lines [] (drop (S i) b) | None => [] end.
Proof.
  revert cur. induction b as [| x b IH]; intros cur; cbn [raw_lines index_of]; [done|]. destruct (Z.eqb_spec x 10) as [->|]; [by cbn|].
  rewrite IH. destruct (index_of 10 b) as [i|]; [|done]. cbn. by rewrite <- app_assoc.
Qed.

(** A line at its place: its text without the line end, too large when it exceeds the limit. *)
Definition deliver (generation : string) (st : EveReader * X * Z) (raw : list Z) : EveReader * X * Z :=
  let '(r, s, start) := st in
  let next := start + Z.of_nat (length raw) in
  let l := mkLineRead (line_text raw) start next (ev_LineBytes r <? Z.of_nat (length raw)) true None in
  (consume_line decode_strings Parse error_text generation l r s, next).

Lemma consume_line_text generation l l' r s :
  lr_start l = lr_start l' -> lr_end l = lr_end l' -> lr_tooLarge l = lr_tooLarge l' -> (lr_tooLarge l' = false -> lr_line l = lr_line l') ->
  consume_line decode_strings Parse error_text generation l r s = consume_line decode_strings Parse error_text generation l' r s.
Proof.
  intros E1 E2 E3 E4. unfold consume_line, accept_line. rewrite E1, E2, E3. destruct (lr_tooLarge l') eqn:Et; [done|]. by rewrite E4.
Qed.

Lemma loop_lines n b generation r s offset p :
  0 <= offset -> (Z.to_nat (Z.of_nat (length b) - offset) < n)%nat ->
  outcome (loop n (plain_file b) generation (Z.of_nat (length b)) r s offset p) = foldl (deliver generation) (r, s, offset) (raw_lines [] (drop (Z.to_nat offset) b)).
Proof.
  revert r s offset p. induction n as [| n IH]; intros r s offset p H0 Hn; [lia|]. cbn [consume_loop].
  destruct (Z.leb_spec (Z.of_nat (length b)) offset); [by rewrite drop_ge by lia|]. rewrite raw_lines_first.
  destruct (readCompleteLine_cases b offset (ev_LineBytes r)) as [(i & Hi & Hc & He & Eend & Est & Elarge & Eline) | (Hi & -> & ->)]; [|by rewrite Hi].
  rewrite Hi, Hc, He. cbn [negb foldl deliver rev app]. destruct (index_of_Some _ _ _ Hi) as (Hil & _ & _). rewrite length_drop in Hil.
  assert (Elen : length (take (S i) (drop (Z.to_nat offset) b)) = S i) by (rewrite length_take, length_drop; lia). rewrite Elen.
  rewrite (consume_line_text generation _ (mkLineRead (line_text (take (S i) (drop (Z.to_nat offset) b))) offset (offset + Z.of_nat (S i)) (ev_LineBytes r <? Z.of_nat (S i)) true None))
    by (cbn [lr_start lr_end lr_tooLarge lr_line]; try done; intros Hl; apply Eline; by rewrite Elarge).
  destruct (consume_line _ _ _ _ _ _ _) as [r' s']. rewrite Eend, IH by lia. rewrite drop_drop. do 3 f_equal. lia.
Qed.

(** Reads of a file that has grown in between, each from where the last one stopped. *)
Fixpoint read_growing (generation : string) (b : list Z) (pieces : list (list Z)) (st : EveReader * X * Z) : EveReader * X * Z :=
  match pieces with
  | [] => st
  | piece :: rest =>
      let '(r, s, offset) := st in
      read_growing generation (b ++ piece) rest
        (outcome (consumeAvailable decode_strings Parse error_text (plain_file (b ++ piece)) generation offset (Z.of_nat (length (b ++ piece))) r s))
  end.

Lemma read_growing_whole generation b pieces r s :
  read_growing generation b pieces (outcome (consumeAvailable decode_strings Parse error_text (plain_file b) generation 0 (Z.of_nat (length b)) r s)) =
  outcome (consumeAvailable decode_strings Parse error_text (plain_file (b ++ mjoin pieces)) generation 0 (Z.of_nat (length (b ++ mjoin pieces))) r s).
Proof.
  revert b. induction pieces as [| piece rest IH]; intros b; cbn [read_growing]; [by rewrite app_nil_r|].
  change (mjoin (piece :: rest)) with (piece ++ mjoin rest). rewrite app_assoc, <- IH. unfold outcome at 1. f_equal. unfold consumeAvailable. cbn [fl_bytes plain_file].
  apply loop_pieces; [done | lia | lia | lia].
Qed.

(** C19. Every complete line of the sensor's file is handled exactly once and in order,
    however the file grows and whenever it is read.  Reading the file piece by piece,
    each time from where the last read stopped, leaves the reader, the observations
    submitted, the checkpoints saved and the offset as the reference does that splits
    the whole file at its newlines: each line with its place in the file, without its
    line end, reported as too large exactly if it is longer than the limit, whatever
    the size of the read buffer; a line without a newline yet is left for later. *)
Theorem reading_in_pieces generation pieces r s :
  read_growing generation [] pieces (r, s, 0) = foldl (deliver generation) (r, s, 0) (raw_lines [] (mjoin pieces)).
Proof.
  transitivity (outcome (consumeAvailable decode_strings Parse error_text (plain_file (mjoin pieces)) generation 0 (Z.of_nat (length (mjoin pieces))) r s)).
  - exact (read_growing_whole generation [] pieces r s).
  - unfold consumeAvailable. cbn [fl_bytes plain_file]. rewrite loop_lines by lia. done.
Qed.

(** ** A reader that stops *)

(** What is expected of a quiet round: the epoch as before, the same file, not shorter
    than what was read. *)
Definition quiet (st : RunState (X := X)) (w : World) : Prop :=
  (w_epoch w = Ok "" \/ w_epoch w = Ok (so_SensorEpoch (ev_Source (ru_reader st)))) /\
  exists info, w_stat w = Ok info /\ fi_Generation info = ru_generation st /\ ru_offset st <= fi_Size info.

Definition same_place (st st' : RunState (X := X)) : Prop :=
  ru_sink st' = ru_sink st /\ ru_generation st' = ru_generation st /\ ru_offset st' = ru_offset st /\ ev_Source (ru_reader st') = ev_Source (ru_reader st).

Abbreviation round := (run_round decode_strings Parse error_text (X := X)).

Lemma follow_quiet st w : (w_epoch w = Ok "" \/ w_epoch w = Ok (so_SensorEpoch (ev_Source (ru_reader st)))) ->
  follow_epoch decode_strings Parse error_text w st = st.
Proof. intros [E | E]; unfold follow_epoch; rewrite E; [done|]. set (x := so_SensorEpoch _). rewrite (bool_decide_eq_true_2 (x = x)) by done. by rewrite orb_true_r. Qed.

Lemma nil_round st w : ru_current st = NilFile -> quiet st w -> same_place st (round w st) /\ ru_current (round w st) = NilFile.
Proof.
  intros Hc (Hepoch & info & Hstat & Hgen & Hsize). unfold run_round. rewrite follow_quiet by done. rewrite Hstat. unfold follow_rotation. rewrite Hc, bool_decide_eq_true_2 by done.
  unfold reopen. rewrite Hc. destruct (Z.ltb_spec (fi_Size info) (ru_offset st)); [lia|]. cbn [negb]. rewrite Hc.
  unfold consumeAvailable, readable. cbn [fl_bytes length consume_loop]. destruct (fi_Size info <=? ru_offset st); [done|]. done.
Qed.

(** C38. A reader that cannot reopen a truncated file may never read again.  [os.Open]
    leaves a nil file in a handle that is not nil.  If the file was truncated, cannot be
    opened at that moment, and has grown to the old offset before the next round, the
    reader takes the handle for an open file: in every later round, until the file is
    rotated or truncated again, it submits nothing and saves nothing. *)
Theorem failed_reopen_stops_reader st w info e ws :
  ru_current st = OpenHandle -> (w_epoch w = Ok "" \/ w_epoch w = Ok (so_SensorEpoch (ev_Source (ru_reader st)))) ->
  w_stat w = Ok info -> fi_Generation info = ru_generation st -> fi_Size info < ru_offset st -> w_open w = Err e ->
  Forall (quiet st) ws ->
  let st' := run_rounds decode_strings Parse error_text ws (round w st) in
  ru_sink st' = ru_sink st /\ ru_offset st' = ru_offset st /\ ru_current st' = NilFile.
Proof.
  intros Hc Hepoch Hstat Hgen Hsize Hopen Hws. cbv zeta.
  assert (H1 : same_place st (round w st) /\ ru_current (round w st) = NilFile).
  { unfold run_round. rewrite follow_quiet by done. rewrite Hstat. unfold follow_rotation. rewrite Hc, bool_decide_eq_true_2 by done.
    unfold reopen. rewrite Hc. destruct (Z.ltb_spec (fi_Size info) (ru_offset st)); [|lia]. cbn [negb]. by rewrite Hopen. }
  revert H1. generalize (round w st) as st1. unfold run_rounds. induction Hws as [| w1 ws Hw _ IH]; intros st1 [Hs Hnil]; cbn [foldl]; [by destruct Hs as (? & ? & ? & ?)|].
  apply IH. destruct Hs as (S1 & G1 & O1 & E1).
  assert (Hq : quiet st1 w1) by (destruct Hw as (Hw & info1 & ? & ? & ?); split; [by rewrite E1 | exists info1; rewrite G1, O1; done]).
  destruct (nil_round st1 w1 Hnil Hq) as [(S2 & G2 & O2 & E2) Hn2]. split; [|done]. unfold same_place. split_and!; congruence.
Qed.
End consuming.

(** ** Witnesses *)

#[local] Instance no_JE : JSON RawEnvelope := {| Marshal _ := None; Unmarshal _ := None |}.
#[local] Instance no_JO : JSON Observation := {| Marshal _ := None; Unmarshal _ := None |}.
#[local] Instance no_JS : JSON string := {| Marshal _ := None; Unmarshal _ := None |}.
#[local] Instance no_JD : JSON RawDNS := {| Marshal _ := None; Unmarshal _ := None |}.
#[local] Instance no_JP : JSON RawPeer := {| Marshal _ := None; Unmarshal _ := None |}.

(** The outside remembers the checkpoints. *)
#[local] Instance log_outside : Outside (list Checkpoint) := {| sink_TrySubmit l _ := (l, true); store_Save l c := (l ++ [c], None); outside_Now _ := 0 |}.

Definition ex_reader : EveReader := NewReader (mkSourcePosition "suri0" "e1" "" "builtin" InspectionModeIPS "" 0 0) true.
Definition ex_running : RunState (X := list Checkpoint) := mkRunState ex_reader [] OpenHandle "8:1" 40 checkpoint_zero.
Definition ex_world (size : Z) (open : result string unit) : World :=
  mkWorld (Ok "") (Ok 0, plain_file []) (Ok (mkFileInfo size "8:1")) open (Ok (mkFileInfo size "8:1")) (Ok "") (plain_file [123; 125; 10]).

Lemma failed_reopen_stops_reader_witness :
  let rounds opened := run_rounds (fun _ => ([], false)) (fun _ _ => None) (fun _ => "") [ex_world 60 (Ok tt); ex_world 80 (Ok tt)]
                         (run_round (fun _ => ([], false)) (fun _ _ => None) (fun _ => "") (ex_world 5 opened) ex_running) in
  ru_sink (rounds (Err "too many open files")) = [] /\ ru_sink (rounds (Ok tt)) <> [].
Proof.
  cbv zeta. split; [|vm_compute; discriminate].
  refine (proj1 (failed_reopen_stops_reader (fun _ => ([], false)) (fun _ _ => None) (fun _ => "") ex_running (ex_world 5 (Err "too many open files"))
    (mkFileInfo 5 "8:1") "too many open files" [ex_world 60 (Ok tt); ex_world 80 (Ok tt)] eq_refl (or_introl eq_refl) eq_refl eq_refl _ eq_refl _)); [reflexivity|].
  apply Forall_cons_2; [|apply Forall_cons_2; [|constructor]]; (split; [by left | eexists; split_and!; [reflexivity | reflexivity | discriminate]]).
Defined.
