(* ===== verification/RequestPcap.v ===== *)
(** * The request as a packet capture

    internal/inspection/requestpcap/builder.go, with the request it works on
    (internal/inspection/http_gate.go): one HTTP request is written as the TCP
    conversation of a synthetic client with a synthetic server, in a capture
    file that the detector reads.  Bytes are integers in [0, 256). *)

From Stdlib Require Import Ascii.
From S2P Require Import Prelude GoStr Netip.

(** ** The request *)

Record GateHTTPRequest : Type := mkGateHTTPRequest {
  gh_Method : string;
  gh_Scheme : string;
  gh_Host : string;
  gh_Path : string;
  gh_RawQuery : string;
  gh_Headers : gmap string (list string);
  gh_Body : list Z;
  gh_HTTPVersion : string;
  gh_ContentType : string;
  gh_ContentEncoding : string;
  gh_HeaderBytes : Z
}.

(** ** Limits and errors *)

Definition maxBodyBytes : Z := Z.shiftl 4 20.
Definition maxHeaderBytes : Z := Z.shiftl 64 10.
Definition maxURLBytes : Z := Z.shiftl 16 10.
Definition maxCaptureBytes : Z := Z.shiftl 6 20.
Definition segmentBytes : Z := 1200.
Definition clientSequence : Z := 1000.
Definition serverSequence : Z := 5000.

Inductive PcapError : Type := ErrInvalidRequest | ErrCaptureLimit.

(** ** The synthetic flow *)

Record FlowTuple : Type := mkFlowTuple {
  ft_ClientIP : Addr;
  ft_ClientPort : Z;
  ft_ServerIP : Addr;
  ft_ServerPort : Z
}.

Definition AddrFrom4 (b : list Z) : Addr := Addr4 (be_value b).
(** [As4], which [makePacket] calls on the two IPv4 addresses of the flow. *)
Definition As4 (a : Addr) : list Z := match a with Addr4 x => be_bytes 4 x | _ => [0; 0; 0; 0] end.

Definition SyntheticTuple (flowID : Z) : FlowTuple :=
  mkFlowTuple
    (AddrFrom4 [198; Z.lor 18 (u8 (Z.shiftr flowID 31)); u8 (Z.shiftr flowID 23); u8 (Z.shiftr flowID 15)])
    (u16 (1024 + Z.land flowID 0x7fff))
    (AddrFrom4 [192; 168; 0; 10]) 80.

(** ** The Internet checksum *)

Fixpoint sum_words (sum : Z) (data : list Z) : Z :=
  match data with
  | hi :: lo :: data => sum_words (u32 (sum + be_value [hi; lo])) data
  | [last] => u32 (sum + u32 (Z.shiftl last 8))
  | [] => sum
  end.

(** Two rounds are enough for 32 bits ([fold_carry_done]). *)
Fixpoint fold_carry (fuel : nat) (sum : Z) : Z :=
  match fuel with
  | O => sum
  | S fuel => if Z.shiftr sum 16 =? 0 then sum else fold_carry fuel (u32 (Z.land sum 0xffff + Z.shiftr sum 16))
  end.

Definition checksum (data : list Z) : Z := u16 (Z.lnot (u16 (fold_carry 2 (sum_words 0 data)))).

(** ** Packets *)

Definition blen (data : list Z) : Z := Z.of_nat (length data).

Definition ip_header (source destination : list Z) (identifier size sum : Z) : list Z :=
  [0x45; 0] ++ be_bytes 2 (u16 (20 + 20 + size)) ++ be_bytes 2 identifier ++ be_bytes 2 0x4000 ++ [64; 6] ++ be_bytes 2 sum ++ source ++ destination.

Definition tcp_segment (sourcePort destinationPort seq ack flags : Z) (payload : list Z) (sum : Z) : list Z :=
  be_bytes 2 sourcePort ++ be_bytes 2 destinationPort ++ be_bytes 4 seq ++ be_bytes 4 ack ++ [0x50; flags] ++ be_bytes 2 64240 ++ be_bytes 2 sum ++ [0; 0] ++ payload.

Definition pseudo_header (source destination : list Z) (size : Z) : list Z := source ++ destination ++ [0; 6] ++ be_bytes 2 (u16 size).

Definition clientMAC : list Z := [2; 0; 0; 0; 0; 1].
Definition serverMAC : list Z := [2; 0; 0; 0; 0; 2].

Definition makePacket (fromClient : bool) (flowID identifier seq ack flags : Z) (payload : list Z) : list Z :=
  let flow := SyntheticTuple flowID in
  let clientIP := As4 (ft_ClientIP flow) in
  let serverIP := As4 (ft_ServerIP flow) in
  let '(sourceIP, destinationIP) := if fromClient then (clientIP, serverIP) else (serverIP, clientIP) in
  let '(sourcePort, destinationPort) := if fromClient then (ft_ClientPort flow, 80) else (80, ft_ClientPort flow) in
  let '(sourceMAC, destinationMAC) := if fromClient then (clientMAC, serverMAC) else (serverMAC, clientMAC) in
  let ip := ip_header sourceIP destinationIP identifier (blen payload) in
  let tcp := tcp_segment sourcePort destinationPort seq ack flags payload in
  let pseudo := pseudo_header sourceIP destinationIP (blen (tcp 0)) ++ tcp 0 in
  destinationMAC ++ sourceMAC ++ be_bytes 2 0x0800 ++ ip (checksum (ip 0)) ++ tcp (checksum pseudo).

(** ** The wire form of the request *)

Definition is_token_char (c : ascii) : bool :=
  is_lower c || is_upper c || is_digit c || ContainsByte c "!#$%&'*+-.^_`|~".

Definition token (value : string) : bool := negb (bool_decide (value = "")) && all_chars is_token_char value.

Definition line_char (c : ascii) : bool := negb ((code c <? 0x20) || (code c =? 0x7f)).
Definition singleLine (value : string) : bool := all_chars line_char value.
Definition ascii_only (value : string) : bool := all_chars (fun c => code c <? 0x80) value.

Definition ContainsAny (value chars : string) : bool := negb (all_chars (fun c => negb (ContainsByte c chars)) value).

Definition validHost (host : string) : bool :=
  negb (bool_decide (host = "")) && (strlen host <=? 255) && singleLine host && ascii_only host && negb (ContainsAny host " /?#@\").

(** [strings.Contains]. *)
Fixpoint str_Contains (s sub : string) : bool :=
  HasPrefix s sub || match s with EmptyString => false | String _ s => str_Contains s sub end.

Definition excludedHeader (key : string) : bool :=
  let key := ToLower key in
  bool_decide (key ∈ ["host"; "content-length"; "content-encoding"; "transfer-encoding"; "connection"; "proxy-connection"; "keep-alive"; "te"; "trailer"; "upgrade"; "authorization"; "proxy-authorization"; "cookie"; "set-cookie"; "x-api-key"])
  || str_Contains key "token" || str_Contains key "secret" || str_Contains key "password".

(** [http.CanonicalHeaderKey]: a name that is not a token is left alone. *)
Fixpoint canonical (start : bool) (s : string) : string :=
  match s with
  | EmptyString => EmptyString
  | String c s => String (if start then upper c else lower c) (canonical (Ascii.eqb c "-") s)
  end.
Definition CanonicalHeaderKey (key : string) : string := if all_chars is_token_char key then canonical true key else key.

Definition crlf : string := String "013" (String "010" EmptyString).

Definition key_less (a b : string) : bool :=
  let left := ToLower a in
  let right := ToLower b in
  if bool_decide (left = right) then str_lt a b else str_lt left right.

Definition header_keys (headers : gmap string (list string)) : list string := sort_by key_less (elements (dom headers)).

Fixpoint write_values (key : string) (values : list string) (wire : string) : result PcapError string :=
  match values with
  | [] => Ok wire
  | value :: values =>
      if negb (singleLine value) then Err ErrInvalidRequest
      else if (maxHeaderBytes <? strlen value) || (maxHeaderBytes <? strlen wire + strlen key + strlen value + 4) then Err ErrCaptureLimit
      else write_values key values (wire ++ (CanonicalHeaderKey key ++ ": " ++ value ++ crlf))
  end.

Fixpoint write_headers (headers : gmap string (list string)) (keys : list string) (wire : string) : result PcapError string :=
  match keys with
  | [] => Ok wire
  | key :: keys =>
      if excludedHeader key then write_headers headers keys wire
      else let? wire := write_values key (default [] (headers !! key)) wire in write_headers headers keys wire
  end.

Definition request_path (r : GateHTTPRequest) : string := if bool_decide (gh_Path r = "") then "/" else gh_Path r.
Definition request_uri (r : GateHTTPRequest) : string :=
  if bool_decide (gh_RawQuery r = "") then request_path r else request_path r ++ "?" ++ gh_RawQuery r.

Definition semanticRequest (request : GateHTTPRequest) : result PcapError (list Z) :=
  if (64 <? strlen (gh_Method request)) || negb (token (gh_Method request)) || negb (validHost (gh_Host request))
     || (maxBodyBytes <? blen (gh_Body request)) || (256 <? Z.of_nat (size (gh_Headers request)))
  then Err ErrInvalidRequest
  else
  let path := request_path request in
  if maxURLBytes <? strlen path + strlen (gh_RawQuery request) + 1 then Err ErrCaptureLimit
  else if negb (HasPrefix path "/") || negb (singleLine path) || negb (singleLine (gh_RawQuery request)) then Err ErrInvalidRequest
  else
  let uri := request_uri request in
  if negb (ascii_only uri) then Err ErrInvalidRequest
  else
  let wire := ((gh_Method request ++ " " ++ uri ++ " HTTP/1.1" ++ crlf) ++ ("Host: " ++ gh_Host request ++ crlf))%string in
  let keys := header_keys (gh_Headers request) in
  if existsb (fun key => (256 <? strlen key) || negb (token key)) keys then Err ErrInvalidRequest
  else
  let? wire := write_headers (gh_Headers request) keys wire in
  let wire := (wire ++ ("Content-Length: " ++ itoa (blen (gh_Body request)) ++ crlf ++ "Connection: close" ++ crlf ++ crlf))%string in
  if maxHeaderBytes <? strlen wire then Err ErrCaptureLimit
  else Ok (str_bytes wire ++ gh_Body request).

(** ** The capture *)

Definition le_bytes (n : nat) (x : Z) : list Z := reverse (be_bytes n x).

Record builder : Type := mkBuilder {
  bd_pcap : list Z;
  bd_clientSeq : Z;
  bd_serverSeq : Z;
  bd_packetNumber : Z
}.

Definition pcap_header : list Z :=
  le_bytes 4 0xa1b2c3d4 ++ le_bytes 2 2 ++ le_bytes 2 4 ++ le_bytes 4 0 ++ le_bytes 4 0 ++ le_bytes 4 65535 ++ le_bytes 4 1.

Definition record_header (packetNumber size : Z) : list Z :=
  le_bytes 4 (u32 (1 + packetNumber / 1000)) ++ le_bytes 4 (u32 (packetNumber mod 1000 * 1000)) ++ le_bytes 4 (u32 size) ++ le_bytes 4 (u32 size).

(** The closure [write] of [Build]. *)
Definition write (flowID : Z) (fromClient : bool) (flags : Z) (data : list Z) (b : builder) : result PcapError builder :=
  if segmentBytes <? blen data then Err ErrCaptureLimit
  else
  let '(seq, ack) := if fromClient then (bd_clientSeq b, bd_serverSeq b) else (bd_serverSeq b, bd_clientSeq b) in
  let packet := makePacket fromClient flowID (u16 (bd_packetNumber b + 1)) seq ack flags data in
  if maxCaptureBytes <? blen (bd_pcap b) + 16 + blen packet then Err ErrCaptureLimit
  else
  let advance := u32 (blen data) in
  let advance := if negb (Z.land flags 0x03 =? 0) then u32 (advance + 1) else advance in
  Ok (mkBuilder (bd_pcap b ++ record_header (bd_packetNumber b) (blen packet) ++ packet)
        (if fromClient then u32 (bd_clientSeq b + advance) else bd_clientSeq b)
        (if fromClient then bd_serverSeq b else u32 (bd_serverSeq b + advance))
        (u32 (bd_packetNumber b + 1))).

(** [for len(payload) != 0]; every round sends at least one byte. *)
Fixpoint write_payload (fuel : nat) (flowID : Z) (payload : list Z) (b : builder) : result PcapError builder :=
  match fuel with
  | O => Ok b
  | S fuel =>
      if blen payload =? 0 then Ok b
      else
      let length := Z.to_nat (Z.min (blen payload) segmentBytes) in
      let? b := write flowID true 0x18 (take length payload) b in
      write_payload fuel flowID (drop length payload) b
  end.

Definition response : list Z :=
  str_bytes ("HTTP/1.1 204 No Content" ++ crlf ++ "Content-Length: 0" ++ crlf ++ "Connection: close" ++ crlf ++ crlf).

Definition Build (request : GateHTTPRequest) (flowID : Z) : result PcapError (list Z) :=
  let? payload := semanticRequest request in
  let b := mkBuilder pcap_header clientSequence serverSequence 0 in
  let? b := write flowID true 0x02 [] b in
  let? b := write flowID false 0x12 [] b in
  let? b := write flowID true 0x10 [] b in
  let? b := write_payload (length payload) flowID payload b in
  let? b := write flowID false 0x10 [] b in
  let? b := write flowID false 0x18 response b in
  let? b := write flowID true 0x10 [] b in
  let? b := write flowID true 0x11 [] b in
  let? b := write flowID false 0x10 [] b in
  let? b := write flowID false 0x11 [] b in
  let? b := write flowID true 0x10 [] b in
  Ok (bd_pcap b).

(** ** Examples *)

Definition sample_request : GateHTTPRequest :=
  mkGateHTTPRequest "POST" "https" "shop.example" "/cart" "id=7" {[ "X-Trace" := ["a"; "b"]; "Cookie" := ["s=1"]; "accept" := ["*/*"] ]} [65; 66; 67] "HTTP/2.0" "" "" 0.

Example sample_wire : semanticRequest sample_request =
  Ok (str_bytes ("POST /cart?id=7 HTTP/1.1" ++ crlf ++ "Host: shop.example" ++ crlf ++ "Accept: */*" ++ crlf ++ "X-Trace: a" ++ crlf ++ "X-Trace: b" ++ crlf ++ "Content-Length: 3" ++ crlf ++ "Connection: close" ++ crlf ++ crlf) ++ [65; 66; 67]).
Proof. vm_compute. reflexivity. Qed.

Example sample_capture : (fun c => length c) <$> match Build sample_request 7 with Ok c => Some c | Err _ => None end = Some 985%nat.
Proof. vm_compute. reflexivity. Qed.
