(* ===== verification/RequestPcapProps.v ===== *)
(** * What the detector reads in a capture

    The receiver's side of internal/inspection/requestpcap/builder.go: a reader
    of capture files that checks lengths and both checksums, a TCP endpoint that
    accepts segments in order only, and a reader of HTTP/1.1 requests.  The
    theorems say that they find the request in the capture that [Build] wrote. *)

From Stdlib Require Import Ascii.
From S2P Require Import Prelude GoStr Bytes Netip RequestPcap.

(** ** One flow for each identifier *)

Lemma be_value_4 a b c d : is_byte a -> is_byte b -> is_byte c -> is_byte d -> be_value [a; b; c; d] = ((a * 256 + b) * 256 + c) * 256 + d.
Proof. unfold is_byte, be_value. intros. cbn [fold_left]. rewrite !lor_low by lia. lia. Qed.

Lemma synthetic_octet flowID : 0 <= flowID < 2 ^ 32 -> Z.lor 18 (u8 (Z.shiftr flowID 31)) = 18 + flowID / 2 ^ 31.
Proof.
  intros H. unfold u8. rewrite Z.shiftr_div_pow2 by lia.
  assert (flowID / 2 ^ 31 = 0 \/ flowID / 2 ^ 31 = 1) as [-> | ->]; [Z.to_euclidean_division_equations; lia | done | done].
Qed.

(** The client address and port of a flow, in closed form. *)
Lemma synthetic_client flowID : 0 <= flowID < 2 ^ 32 ->
  ft_ClientIP (SyntheticTuple flowID) = Addr4 (198 * 2 ^ 24 + 18 * 2 ^ 16 + flowID / 2 ^ 15) /\
  ft_ClientPort (SyntheticTuple flowID) = 1024 + flowID mod 2 ^ 15.
Proof.
  intros H. cbn [SyntheticTuple ft_ClientIP ft_ClientPort]. unfold AddrFrom4. rewrite synthetic_octet by done. split.
  - f_equal. unfold u8. rewrite !Z.shiftr_div_pow2 by lia.
    rewrite be_value_4 by (unfold is_byte; Z.to_euclidean_division_equations; lia). Z.to_euclidean_division_equations. lia.
  - change 0x7fff with (Z.ones 15). rewrite Z.land_ones by lia. unfold u16. apply Z.mod_small. Z.to_euclidean_division_equations. lia.
Qed.

Lemma synthetic_inj flowID flowID' : 0 <= flowID < 2 ^ 32 -> 0 <= flowID' < 2 ^ 32 ->
  SyntheticTuple flowID = SyntheticTuple flowID' -> flowID = flowID'.
Proof.
  intros H H' E. destruct (synthetic_client _ H) as [Ei Ep], (synthetic_client _ H') as [Ei' Ep']. rewrite E in Ei, Ep.
  rewrite Ei' in Ei. injection Ei as Ei. rewrite Ep' in Ep. rewrite (Z.div_mod flowID (2 ^ 15)), (Z.div_mod flowID' (2 ^ 15)) by lia. lia.
Qed.

(** ** The checksum *)

Fixpoint wsum (data : list Z) : Z :=
  match data with
  | hi :: lo :: data => hi * 256 + lo + wsum data
  | [last] => last * 256
  | [] => 0
  end.

(** Induction two bytes at a time. *)
Lemma pairs_ind (P : list Z -> Prop) : P [] -> (forall a, P [a]) -> (forall a b l, P l -> P (a :: b :: l)) -> forall l, P l.
Proof. intros H0 H1 H2. fix IH 1. intros [| a [| b l]]; [done | apply H1 | apply H2, IH]. Qed.

Lemma wsum_bound data : Forall is_byte data -> 0 <= wsum data <= 65535 * blen data.
Proof.
  unfold blen. induction data as [| a | a b l IH] using pairs_ind; cbn [wsum length]; rewrite ?Forall_cons; unfold is_byte in *; [lia | lia |].
  intros (Ha & Hb & Hl). specialize (IH Hl). lia.
Qed.

Lemma wsum_app a b : Nat.Even (length a) -> wsum (a ++ b) = wsum a + wsum b.
Proof.
  induction a as [| x | x y l IH] using pairs_ind; [done | intros [k Hk]; cbn in Hk; lia|]. intros [k Hk].
  cbn [app wsum]. rewrite IH; [lia|]. exists (k - 1)%nat. cbn in Hk. lia.
Qed.

Lemma sum_words_wsum data s : Forall is_byte data -> 0 <= s -> s + wsum data < 2 ^ 32 -> sum_words s data = s + wsum data.
Proof.
  revert s. induction data as [| a | a b l IH] using pairs_ind; intros s; cbn [wsum sum_words]; rewrite ?Forall_cons; unfold is_byte in *; [lia | |].
  - intros [Ha _] Hs Hb. unfold u32. rewrite Z.shiftl_mul_pow2, (Z.mod_small (a * _)) by lia. apply Z.mod_small. lia.
  - intros (Ha & Hb & Hl) Hs Hlt. pose proof (wsum_bound l Hl) as [Hw _].
    assert (be_value [a; b] = a * 256 + b) as -> by (unfold be_value; cbn [fold_left]; rewrite !lor_low by lia; lia).
    assert (Eu : u32 (s + (a * 256 + b)) = s + (a * 256 + b)) by (apply Z.mod_small; lia). rewrite Eu, IH by (done || lia). lia.
Qed.

(** The loop stops with 16 bits that stand for the same number modulo 65535. *)
Lemma fold_carry_done s : 0 <= s < 2 ^ 32 ->
  let r := fold_carry 2 s in 0 <= r < 65536 /\ r mod 65535 = s mod 65535 /\ (0 < s <-> 0 < r) /\ Z.shiftr r 16 = 0.
Proof.
  intros Hs. cbn [fold_carry].
  assert (Hland : forall x, Z.land x 0xffff = x mod 65536) by (intros; change 0xffff with (Z.ones 16); by rewrite Z.land_ones).
  rewrite !Hland. unfold u32. rewrite !Z.shiftr_div_pow2 by lia. change (2 ^ 16) with 65536.
  destruct (Z.eqb_spec (s / 65536) 0) as [E | E].
  { split_and!; try done; Z.to_euclidean_division_equations; lia. }
  rewrite (Z.mod_small (s mod 65536 + _)) by (Z.to_euclidean_division_equations; lia).
  assert (Hmod : (s mod 65536 + s / 65536) mod 65535 = s mod 65535).
  { rewrite (Z.div_mod s 65536) at 3 by lia. replace (65536 * (s / 65536) + s mod 65536) with (s mod 65536 + s / 65536 + (s / 65536) * 65535) by lia. by rewrite Z.mod_add. }
  assert (Hs1 : 0 < s mod 65536 + s / 65536 <= 131070) by (Z.to_euclidean_division_equations; lia).
  revert Hs1 Hmod. generalize (s mod 65536 + s / 65536). intros t Ht Et.
  destruct (Z.eqb_spec (t / 65536) 0) as [E1 | E1].
  { split_and!; try done; try lia; Z.to_euclidean_division_equations; lia. }
  assert (Et1 : t / 65536 = 1) by (Z.to_euclidean_division_equations; lia).
  assert (Em : t mod 65536 = t - 65536) by (Z.to_euclidean_division_equations; lia).
  assert (65536 <= t) by (clear Em; Z.to_euclidean_division_equations; lia).
  assert (Ht' : t mod 65535 = (t - 65536 + 1) mod 65535) by (replace t with (t - 65536 + 1 + 1 * 65535) at 1 by lia; by rewrite Z.mod_add).
  rewrite Et1, Em, (Z.mod_small (t - 65536 + 1) (2 ^ 32)) by lia. assert (0 < s) by (clear -Hs E; Z.to_euclidean_division_equations; lia). split_and!; try lia. apply Z.div_small. lia.
Qed.

Lemma checksum_value data : Forall is_byte data -> blen data <= 60000 ->
  checksum data = 65535 - fold_carry 2 (wsum data).
Proof.
  intros Hb Hl. pose proof (wsum_bound data Hb). unfold checksum. rewrite sum_words_wsum by (done || lia). rewrite Z.add_0_l.
  destruct (fold_carry_done (wsum data) ltac:(lia)) as (Hr & _). cbv zeta in *. revert Hr. generalize (fold_carry 2 (wsum data)). intros r Hr.
  unfold u16. change (2 ^ 16) with 65536. rewrite (Z.mod_small r) by lia. unfold Z.lnot. Z.to_euclidean_division_equations. lia.
Qed.

Lemma wsum_field c : 0 <= c < 65536 -> wsum (be_bytes 2 c) = c.
Proof. intros Hc. cbn [be_bytes wsum]. unfold u8. rewrite !Z.shiftr_div_pow2 by lia. Z.to_euclidean_division_equations. lia. Qed.

(** A receiver that sums the data with its checksum finds zero. *)
Lemma checksum_verifies a b : Forall is_byte a -> Forall is_byte b -> Nat.Even (length a) -> blen a + blen b <= 50000 ->
  checksum (a ++ be_bytes 2 (checksum (a ++ be_bytes 2 0 ++ b)) ++ b) = 0.
Proof.
  intros Ha Hb Hev Hlen. unfold blen in *.
  assert (Hall : forall c, Forall is_byte (a ++ be_bytes 2 c ++ b)) by (intros; rewrite !Forall_app; auto using be_bytes_bytes).
  assert (Hsz : forall c, blen (a ++ be_bytes 2 c ++ b) <= 60000) by (intros; unfold blen; rewrite !length_app, be_bytes_length; lia).
  assert (Hw : forall c, 0 <= c < 65536 -> wsum (a ++ be_bytes 2 c ++ b) = wsum a + c + wsum b).
  { intros c Hc. rewrite wsum_app, wsum_app, wsum_field by (done || (rewrite be_bytes_length; by exists 1%nat)). lia. }
  rewrite (checksum_value (a ++ be_bytes 2 0 ++ b)), (Hw 0) by (done || lia). rewrite Z.add_0_r.
  pose proof (wsum_bound a Ha) as Ba. pose proof (wsum_bound b Hb) as Bb. unfold blen in *.
  destruct (fold_carry_done (wsum a + wsum b) ltac:(lia)) as (Hr & Em & Hpos & _). cbv zeta in *.
  revert Hr Em Hpos. generalize (fold_carry 2 (wsum a + wsum b)). intros r Hr Em Hpos.
  rewrite (checksum_value (a ++ be_bytes 2 (65535 - r) ++ b)), (Hw (65535 - r)) by (apply Hall || apply Hsz || lia).
  destruct (fold_carry_done (wsum a + (65535 - r) + wsum b) ltac:(lia)) as (Hr' & Em' & Hpos' & _). cbv zeta in *.
  revert Hr' Em' Hpos'. generalize (fold_carry 2 (wsum a + (65535 - r) + wsum b)). intros r' Hr' Em' Hpos'.
  assert (H0 : (wsum a + (65535 - r) + wsum b) mod 65535 = 0).
  { replace (wsum a + (65535 - r) + wsum b) with (wsum a + wsum b - r + 1 * 65535) by lia. rewrite Z.mod_add by lia.
    rewrite Zminus_mod, Em, Z.sub_diag. done. }
  assert (0 < r') by lia.
  rewrite H0 in Em'. Z.to_euclidean_division_equations. lia.
Qed.

(** ** The receiver *)

Record segment : Type := mkSegment {
  sg_source : list Z;
  sg_destination : list Z;
  sg_sourcePort : Z;
  sg_destinationPort : Z;
  sg_seq : Z;
  sg_ack : Z;
  sg_flags : Z;
  sg_data : list Z
}.

Definition slice (off n : nat) (p : list Z) : list Z := take n (drop off p).
Definition field (off n : nat) (p : list Z) : Z := be_value (slice off n p).
Definition le_field (off n : nat) (p : list Z) : Z := be_value (reverse (slice off n p)).

(** An Ethernet frame with IPv4 and TCP in it, without options; lengths and both
    checksums are checked. *)
Definition read_packet (p : list Z) : option segment :=
  let ip := slice 14 20 p in
  let tcp := drop 34 p in
  let source := slice 12 4 ip in
  let destination := slice 16 4 ip in
  if (54 <=? blen p) && (field 12 2 p =? 0x0800) && (field 0 1 ip =? 0x45) && (field 2 2 ip =? blen p - 14) && (field 9 1 ip =? 6)
     && (checksum ip =? 0) && (field 12 1 tcp =? 0x50) && (checksum (pseudo_header source destination (blen tcp) ++ tcp) =? 0)
  then Some (mkSegment source destination (field 0 2 tcp) (field 2 2 tcp) (field 4 4 tcp) (field 8 4 tcp) (field 13 1 tcp) (drop 20 tcp))
  else None.

Fixpoint read_records (fuel : nat) (data : list Z) : option (list segment) :=
  match fuel with
  | O => None
  | S fuel =>
      match data with
      | [] => Some []
      | _ =>
          let size := le_field 8 4 data in
          if (16 <=? blen data) && (le_field 12 4 data =? size) && (16 + size <=? blen data) then
            packet ← read_packet (slice 16 (Z.to_nat size) data);
            rest ← read_records fuel (drop (16 + Z.to_nat size) data);
            Some (packet :: rest)
          else None
      end
  end.

(** A capture in the byte order of the writer, for Ethernet. *)
Definition read_capture (data : list Z) : option (list segment) :=
  if (24 <=? blen data) && (le_field 0 4 data =? 0xa1b2c3d4) && (le_field 20 4 data =? 1) then read_records (S (length data)) (drop 24 data) else None.

Lemma slice_app a b n : slice (length a) n (a ++ b) = take n b.
Proof. unfold slice. by rewrite drop_app_length. Qed.

Lemma ip_checksum_ok source destination identifier size :
  length source = 4%nat -> length destination = 4%nat -> Forall is_byte source -> Forall is_byte destination ->
  checksum (ip_header source destination identifier size (checksum (ip_header source destination identifier size 0))) = 0.
Proof.
  intros Hs Hd Bs Bd.
  pose proof (checksum_verifies ([0x45; 0] ++ be_bytes 2 (u16 (20 + 20 + size)) ++ be_bytes 2 identifier ++ be_bytes 2 0x4000 ++ [64; 6]) (source ++ destination)) as H.
  rewrite <- !app_assoc in H. apply H.
  - rewrite !Forall_app, !Forall_cons. unfold is_byte. repeat split; auto using be_bytes_bytes; lia.
  - by apply Forall_app.
  - rewrite !length_app, !be_bytes_length. by exists 5%nat.
  - unfold blen. rewrite !length_app, !be_bytes_length. cbn [length]. lia.
Qed.

Lemma tcp_checksum_ok source destination n sp dp seq ack flags data :
  length source = 4%nat -> length destination = 4%nat -> Forall is_byte source -> Forall is_byte destination -> Forall is_byte data ->
  is_byte flags -> blen data <= 1200 ->
  checksum (pseudo_header source destination n ++ tcp_segment sp dp seq ack flags data
    (checksum (pseudo_header source destination n ++ tcp_segment sp dp seq ack flags data 0))) = 0.
Proof.
  intros Hs Hd Bs Bd Bdata Hfl Hlen. unfold blen in *.
  pose proof (checksum_verifies (pseudo_header source destination n ++ be_bytes 2 sp ++ be_bytes 2 dp ++ be_bytes 4 seq ++ be_bytes 4 ack ++ [0x50; flags] ++ be_bytes 2 64240) ([0; 0] ++ data)) as H.
  rewrite <- !app_assoc in H. apply H.
  - unfold pseudo_header. rewrite !Forall_app, !Forall_cons. unfold is_byte in *. repeat split; auto using be_bytes_bytes; lia.
  - rewrite Forall_app, !Forall_cons. unfold is_byte. repeat split; auto; lia.
  - unfold pseudo_header. rewrite !length_app, !be_bytes_length, Hs, Hd. by exists 14%nat.
  - unfold pseudo_header, blen. rewrite !length_app, !be_bytes_length. cbn [length]. lia.
Qed.

Lemma read_packet_made dm sm source destination identifier sp dp seq ack flags data :
  length dm = 6%nat -> length sm = 6%nat -> length source = 4%nat -> length destination = 4%nat ->
  Forall is_byte source -> Forall is_byte destination -> Forall is_byte data ->
  0 <= sp < 2 ^ 16 -> 0 <= dp < 2 ^ 16 -> 0 <= seq < 2 ^ 32 -> 0 <= ack < 2 ^ 32 -> is_byte flags -> blen data <= segmentBytes ->
  read_packet (dm ++ sm ++ be_bytes 2 0x0800 ++
      ip_header source destination identifier (blen data) (checksum (ip_header source destination identifier (blen data) 0)) ++
      tcp_segment sp dp seq ack flags data
        (checksum (pseudo_header source destination (blen (tcp_segment sp dp seq ack flags data 0)) ++ tcp_segment sp dp seq ack flags data 0))) =
  Some (mkSegment source destination sp dp seq ack flags data).
Proof.
  intros Hdm Hsm Hs Hd Bs Bd Bdata Hsp Hdp Hseq Hack Hfl Hlen. unfold segmentBytes, blen in Hlen.
  pose proof (ip_checksum_ok source destination identifier (blen data) Hs Hd Bs Bd) as Ei.
  pose proof (tcp_checksum_ok source destination (blen (tcp_segment sp dp seq ack flags data 0)) sp dp seq ack flags data Hs Hd Bs Bd Bdata Hfl ltac:(unfold blen; lia)) as Et.
  revert Ei Et. generalize (checksum (ip_header source destination identifier (blen data) 0)) as ci.
  generalize (checksum (pseudo_header source destination (blen (tcp_segment sp dp seq ack flags data 0)) ++ tcp_segment sp dp seq ack flags data 0)) as ct. intros ct ci Ei Et.
  assert (El : blen (tcp_segment sp dp seq ack flags data ct) = blen (tcp_segment sp dp seq ack flags data 0)) by (unfold tcp_segment, blen; by rewrite !length_app, !be_bytes_length).
  rewrite <- El in Et. clear El.
  destruct dm as [| d1 [| d2 [| d3 [| d4 [| d5 [| d6 []]]]]]]; try done. destruct sm as [| s1 [| s2 [| s3 [| s4 [| s5 [| s6 []]]]]]]; try done.
  destruct source as [| a1 [| a2 [| a3 [| a4 []]]]]; try done. destruct destination as [| b1 [| b2 [| b3 [| b4 []]]]]; try done.
  set (ip := ip_header _ _ _ _ ci) in *. set (tcp := tcp_segment _ _ _ _ _ _ ct) in *.
  set (p := [d1; d2; d3; d4; d5; d6] ++ _). unfold read_packet.
  assert (slice 14 20 p = ip) as -> by reflexivity. assert (drop 34 p = tcp) as -> by reflexivity.
  assert (slice 12 4 ip = [a1; a2; a3; a4]) as -> by reflexivity. assert (slice 16 4 ip = [b1; b2; b3; b4]) as -> by reflexivity.
  assert (field 12 2 p = be_value (be_bytes 2 0x800)) as -> by reflexivity. assert (field 0 1 ip = be_value [0x45]) as -> by reflexivity.
  assert (Ep : blen p = 54 + blen data) by (unfold p, ip, tcp, ip_header, tcp_segment, blen; rewrite !length_app, !be_bytes_length; cbn [length]; lia).
  assert (field 2 2 ip = blen p - 14) as ->.
  { transitivity (be_value (be_bytes 2 (u16 (20 + 20 + blen data)))); [reflexivity|]. rewrite Ep. unfold u16, blen. rewrite Z.mod_small by lia. rewrite be_value_bytes by lia. lia. }
  assert (field 9 1 ip = be_value [6]) as -> by reflexivity. assert (field 12 1 tcp = be_value [0x50]) as -> by reflexivity.
  assert (field 0 2 tcp = sp) as -> by (transitivity (be_value (be_bytes 2 sp)); [reflexivity | by apply be_value_bytes]).
  assert (field 2 2 tcp = dp) as -> by (transitivity (be_value (be_bytes 2 dp)); [reflexivity | by apply be_value_bytes]).
  assert (field 4 4 tcp = seq) as -> by (transitivity (be_value (be_bytes 4 seq)); [reflexivity | by apply be_value_bytes]).
  assert (field 8 4 tcp = ack) as -> by (transitivity (be_value (be_bytes 4 ack)); [reflexivity | by apply be_value_bytes]).
  assert (field 13 1 tcp = flags) as -> by (transitivity (be_value [flags]); [reflexivity | by apply be_value_1]).
  assert (drop 20 tcp = data) as -> by reflexivity. rewrite Ei, Et.
  assert (54 <=? blen p = true) as -> by (apply Z.leb_le; unfold blen in *; lia). rewrite (Z.eqb_refl (blen p - 14)). reflexivity.
Qed.

(** ** The segments that are written *)

Definition planned : Type := bool * Z * list Z.

Fixpoint write_plan (flowID : Z) (plan : list planned) (b : builder) : result PcapError builder :=
  match plan with
  | [] => Ok b
  | (fromClient, flags, data) :: plan => let? b := write flowID fromClient flags data b in write_plan flowID plan b
  end.

Fixpoint chunks (fuel : nat) (payload : list Z) : list (list Z) :=
  match fuel with
  | O => []
  | S fuel => if blen payload =? 0 then [] else
      let length := Z.to_nat (Z.min (blen payload) segmentBytes) in take length payload :: chunks fuel (drop length payload)
  end.

Definition opening : list planned := [(true, 0x02, []); (false, 0x12, []); (true, 0x10, [])].
Definition pushes (l : list (list Z)) : list planned := (fun c => (true, 0x18, c)) <$> l.
Definition closing : list planned :=
  [(false, 0x10, []); (false, 0x18, response); (true, 0x10, []); (true, 0x11, []); (false, 0x10, []); (false, 0x11, []); (true, 0x10, [])].
Definition plan_of (payload : list Z) : list planned := opening ++ pushes (chunks (length payload) payload) ++ closing.

Lemma write_plan_app flowID p q b : write_plan flowID (p ++ q) b = (let? b := write_plan flowID p b in write_plan flowID q b).
Proof. revert b. induction p as [| [[c f] d] p IH]; intros b; [done|]. cbn [write_plan app]. destruct (write flowID c f d b) as [b'|]; [apply IH | done]. Qed.

Lemma write_payload_plan fuel flowID payload b : write_payload fuel flowID payload b = write_plan flowID (pushes (chunks fuel payload)) b.
Proof.
  revert payload b. induction fuel as [| fuel IH]; intros payload b; [done|]. cbn [write_payload chunks].
  destruct (blen payload =? 0); [done|]. cbn [pushes fmap list_fmap write_plan]. destruct (write _ _ _ _ _); [apply IH | done].
Qed.

Lemma Build_plan request flowID : Build request flowID =
  (let? payload := semanticRequest request in
   let? b := write_plan flowID (plan_of payload) (mkBuilder pcap_header clientSequence serverSequence 0) in Ok (bd_pcap b)).
Proof.
  unfold Build. destruct (semanticRequest request) as [payload|]; [|done]. cbn [result_bind]. unfold plan_of, opening, closing. rewrite write_plan_app. cbn [write_plan].
  repeat match goal with |- context [write flowID ?c ?f [] ?b] => destruct (write flowID c f [] b); [|done]; cbn [result_bind] end.
  rewrite write_plan_app, write_payload_plan. destruct (write_plan _ _ _) as [b'|]; [|done]. cbn [result_bind write_plan].
  repeat (match goal with |- context [write flowID ?c ?f ?d ?b] => destruct (write flowID c f d b); [|done]; cbn [result_bind] end). done.
Qed.

Lemma concat_chunks fuel payload : (length payload <= fuel)%nat -> concat (chunks fuel payload) = payload.
Proof.
  revert payload. induction fuel as [| fuel IH]; intros payload Hf; [by destruct payload; [|cbn in Hf; lia]|]. cbn [chunks]. unfold blen in *.
  destruct (Z.eqb_spec (Z.of_nat (length payload)) 0); [by destruct payload|]. cbn [concat].
  rewrite IH; [apply take_drop|]. rewrite length_drop. unfold segmentBytes. lia.
Qed.

Definition planned_ok (p : planned) : Prop := is_byte p.1.2 /\ Forall is_byte p.2 /\ blen p.2 <= segmentBytes.

Lemma chunks_ok fuel payload : Forall is_byte payload -> Forall (fun c => Forall is_byte c /\ blen c <= segmentBytes) (chunks fuel payload).
Proof.
  revert payload. induction fuel as [| fuel IH]; intros payload Hb; [constructor|]. cbn [chunks]. destruct (blen payload =? 0); constructor.
  - split; [by apply Forall_take|]. unfold blen, segmentBytes. rewrite length_take. lia.
  - by apply IH, Forall_drop.
Qed.

Lemma plan_ok payload : Forall is_byte payload -> Forall planned_ok (plan_of payload).
Proof.
  intros Hb. unfold plan_of. rewrite !Forall_app. unfold planned_ok, is_byte, segmentBytes, blen. split_and!.
  - repeat constructor; cbn; lia.
  - apply Forall_fmap. eapply Forall_impl; [by apply chunks_ok|]. unfold is_byte, blen, segmentBytes. cbn. intros c [H1 H2]. split_and!; done || lia.
  - unfold closing. repeat apply Forall_cons_2; try (cbn [fst snd length]; split_and!; [lia | lia | constructor | lia]); [|constructor].
    cbn [fst snd]. split_and!; [lia | lia | apply str_bytes_bytes | vm_compute; done].
Qed.

(** ** The capture is read back *)

Definition segment_of (flowID : Z) (fromClient : bool) (flags : Z) (data : list Z) (seq ack : Z) : segment :=
  let flow := SyntheticTuple flowID in
  if fromClient then mkSegment (As4 (ft_ClientIP flow)) (As4 (ft_ServerIP flow)) (ft_ClientPort flow) 80 seq ack flags data
  else mkSegment (As4 (ft_ServerIP flow)) (As4 (ft_ClientIP flow)) 80 (ft_ClientPort flow) seq ack flags data.

(** What a segment adds to the sender's sequence number. *)
Definition consumed (flags : Z) (data : list Z) : Z :=
  let advance := u32 (blen data) in if negb (Z.land flags 0x03 =? 0) then u32 (advance + 1) else advance.

Fixpoint plan_segments (flowID : Z) (plan : list planned) (cs ss : Z) : list segment :=
  match plan with
  | [] => []
  | (true, flags, data) :: plan => segment_of flowID true flags data cs ss :: plan_segments flowID plan (u32 (cs + consumed flags data)) ss
  | (false, flags, data) :: plan => segment_of flowID false flags data ss cs :: plan_segments flowID plan cs (u32 (ss + consumed flags data))
  end.

Lemma makePacket_length fromClient flowID identifier seq ack flags data : blen (makePacket fromClient flowID identifier seq ack flags data) = 54 + blen data.
Proof.
  unfold makePacket, ip_header, tcp_segment, SyntheticTuple, AddrFrom4, As4, blen. cbn [ft_ClientIP ft_ServerIP ft_ClientPort].
  destruct fromClient; rewrite !length_app, !be_bytes_length; cbn [length clientMAC serverMAC]; lia.
Qed.

Lemma read_makePacket fromClient flowID identifier seq ack flags data :
  Forall is_byte data -> 0 <= seq < 2 ^ 32 -> 0 <= ack < 2 ^ 32 -> is_byte flags -> blen data <= segmentBytes ->
  read_packet (makePacket fromClient flowID identifier seq ack flags data) = Some (segment_of flowID fromClient flags data seq ack).
Proof.
  intros. unfold makePacket, segment_of.
  assert (0 <= ft_ClientPort (SyntheticTuple flowID) < 2 ^ 16) by (apply Z.mod_pos_bound; lia).
  destruct fromClient; apply read_packet_made; try done; try lia; try apply be_bytes_bytes.
Qed.

Lemma write_Ok flowID (fromClient : bool) flags data b : blen data <= segmentBytes -> blen (bd_pcap b) + 70 + blen data <= maxCaptureBytes ->
  let '(seq, ack) := if fromClient then (bd_clientSeq b, bd_serverSeq b) else (bd_serverSeq b, bd_clientSeq b) in
  let packet := makePacket fromClient flowID (u16 (bd_packetNumber b + 1)) seq ack flags data in
  write flowID fromClient flags data b =
    Ok (mkBuilder (bd_pcap b ++ record_header (bd_packetNumber b) (blen packet) ++ packet)
        (if fromClient then u32 (bd_clientSeq b + consumed flags data) else bd_clientSeq b)
        (if fromClient then bd_serverSeq b else u32 (bd_serverSeq b + consumed flags data))
        (u32 (bd_packetNumber b + 1))).
Proof.
  intros H1 H2. unfold write. rewrite (proj2 (Z.ltb_ge _ _) H1). destruct fromClient; rewrite makePacket_length;
    rewrite (proj2 (Z.ltb_ge _ _)) by lia; reflexivity.
Qed.

Lemma write_fits flowID fromClient flags data b b' : write flowID fromClient flags data b = Ok b' ->
  blen data <= segmentBytes /\ blen (bd_pcap b) + 70 + blen data <= maxCaptureBytes.
Proof.
  unfold write. destruct (segmentBytes <? blen data) eqn:E1; [done|]. destruct fromClient; rewrite makePacket_length;
    (destruct (maxCaptureBytes <? _) eqn:E2; [done|]); intros _; apply Z.ltb_ge in E1, E2; lia.
Qed.

Lemma le_field_app a n x rest off : length a = off -> 0 <= x < 2 ^ (8 * Z.of_nat n) -> le_field off n (a ++ le_bytes n x ++ rest) = x.
Proof.
  intros <- Hx. unfold le_field. rewrite slice_app. unfold le_bytes. rewrite take_app_length'.
  - rewrite reverse_involutive. by apply be_value_bytes.
  - by rewrite length_reverse, be_bytes_length.
Qed.

Lemma le_bytes_length n x : length (le_bytes n x) = n.
Proof. unfold le_bytes. by rewrite length_reverse, be_bytes_length. Qed.

Lemma record_header_length n size : length (record_header n size) = 16%nat.
Proof. unfold record_header. by rewrite !length_app, !le_bytes_length. Qed.

Lemma read_record fuel n p rest : blen p < 2 ^ 32 ->
  read_records (S fuel) (record_header n (blen p) ++ p ++ rest) =
    (packet ← read_packet p; segments ← read_records fuel rest; Some (packet :: segments)).
Proof.
  intros Hp. assert (Hsz : u32 (blen p) = blen p) by (apply Z.mod_small; unfold blen in *; lia).
  set (h := record_header n (blen p)). set (data := h ++ p ++ rest).
  assert (Hh : length h = 16%nat) by apply record_header_length.
  assert (E8 : le_field 8 4 data = blen p).
  { unfold data, h, record_header. rewrite Hsz, <- !app_assoc, app_assoc. apply le_field_app; [by rewrite !length_app, !le_bytes_length | unfold blen in *; lia]. }
  assert (E12 : le_field 12 4 data = blen p).
  { unfold data, h, record_header. rewrite Hsz, <- !app_assoc, app_assoc, (app_assoc (_ ++ _)). apply le_field_app; [by rewrite !length_app, !le_bytes_length | unfold blen in *; lia]. }
  assert (El : blen data = 16 + blen p + blen rest) by (unfold data, blen; rewrite !length_app, Hh; lia).
  cbn [read_records]. destruct data as [| d0 data'] eqn:Ed; [unfold blen in El; cbn in El; lia|]. rewrite <- Ed in *. rewrite E8, E12.
  assert ((16 <=? blen data) && (blen p =? blen p) && (16 + blen p <=? blen data) = true) as ->.
  { rewrite Z.eqb_refl, !(proj2 (Z.leb_le _ _)); [done | unfold blen in *; lia..]. }
  assert (slice 16 (Z.to_nat (blen p)) data = p) as ->.
  { unfold data. rewrite <- Hh, slice_app. unfold blen. rewrite Nat2Z.id. by rewrite take_app_length. }
  assert (drop (16 + Z.to_nat (blen p)) data = rest) as ->; [|done].
  unfold data, blen. rewrite Nat2Z.id, app_assoc. apply drop_app_length'. rewrite length_app. lia.
Qed.

Definition plan_size (plan : list planned) : Z := foldr (fun p n => 70 + blen p.2 + n) 0 plan.

(** Writing fails only when the capture would be too large. *)
Lemma write_plan_total flowID plan b : Forall planned_ok plan -> blen (bd_pcap b) + plan_size plan <= maxCaptureBytes ->
  exists b', write_plan flowID plan b = Ok b'.
Proof.
  intros Hok. revert b. induction Hok as [| [[fromClient flags] data] plan (_ & _ & Hlen) Hok IH]; intros b Hsz; [by eexists|].
  unfold plan_size in Hsz. cbn [foldr fst snd] in *. fold (plan_size plan) in Hsz.
  assert (0 <= plan_size plan) by (clear; induction plan as [| p plan IH]; cbn; [lia|]; fold (plan_size plan); unfold blen; lia).
  pose proof (write_Ok flowID fromClient flags data b Hlen ltac:(lia)) as Ew. cbn [write_plan].
  destruct fromClient; rewrite Ew; apply IH; cbn [bd_pcap]; unfold blen at 1; rewrite !length_app, record_header_length, !Nat2Z.inj_add; fold (blen (bd_pcap b));
    (match goal with |- context [Z.of_nat (length (makePacket ?a ?b ?c ?d ?e ?f ?g))] => pose proof (makePacket_length a b c d e f g) as Hm; unfold blen in Hm; rewrite Hm end);
    unfold blen in *; lia.
Qed.

Lemma Ok_inj {E A} (a b : A) : Ok (E := E) a = Ok b -> a = b.
Proof. by intros [= ->]. Qed.

Lemma write_plan_read flowID plan b b' : Forall planned_ok plan -> 0 <= bd_clientSeq b < 2 ^ 32 -> 0 <= bd_serverSeq b < 2 ^ 32 ->
  write_plan flowID plan b = Ok b' ->
  exists records, bd_pcap b' = bd_pcap b ++ records /\ (length plan <= length records)%nat /\
    forall fuel, (length plan < fuel)%nat -> read_records fuel records = Some (plan_segments flowID plan (bd_clientSeq b) (bd_serverSeq b)).
Proof.
  intros Hok. revert b. induction Hok as [| [[fromClient flags] data] plan (Hfl & Hdata & Hlen) Hok IH]; intros b Hc Hs Hw.
  { injection Hw as <-. exists []. rewrite app_nil_r. split_and!; [done | done |]. intros [| fuel] Hf; [cbn in Hf; lia | done]. }
  cbn [write_plan fst snd] in *. destruct (write flowID fromClient flags data b) as [b1|] eqn:E1; [|done]. cbn [result_bind] in Hw.
  destruct (write_fits _ _ _ _ _ _ E1) as [_ Hfit]. pose proof (write_Ok flowID fromClient flags data b Hlen Hfit) as Ew.
  assert (Hu : forall x, 0 <= u32 x < 2 ^ 32) by (intros; apply Z.mod_pos_bound; lia).
  destruct fromClient; rewrite E1 in Ew; apply Ok_inj in Ew as ->;
    (destruct ((fun Hc' Hs' => IH _ Hc' Hs' Hw) ltac:(first [exact Hc | apply Hu]) ltac:(first [exact Hs | apply Hu])) as (records & Ep & Hl & Hr)); cbn [bd_pcap bd_clientSeq bd_serverSeq] in *;
    (eexists; rewrite Ep, <- !app_assoc; split; [reflexivity|]; split; [rewrite !length_app, record_header_length; cbn [length]; lia|]);
    intros [| fuel] Hf; cbn [length] in Hf; try lia;
    rewrite read_record by (rewrite makePacket_length; unfold segmentBytes in *; lia); rewrite read_makePacket by auto; cbn [mbind option_bind plan_segments]; by rewrite Hr by lia.
Qed.

Lemma read_capture_records records segments :
  read_records (S (length (pcap_header ++ records))) records = Some segments -> read_capture (pcap_header ++ records) = Some segments.
Proof.
  intros H. unfold read_capture. assert (24 <=? blen (pcap_header ++ records) = true) as -> by (apply Z.leb_le; unfold blen; rewrite length_app; cbn; lia). exact H.
Qed.

(** ** The conversation *)

Record peer : Type := mkPeer { pr_next : option Z; pr_data : list Z; pr_closed : bool }.

(** A segment in order: the sequence number is the one expected from the sender,
    the acknowledgement covers all the other side sent, and nothing follows a FIN. *)
Definition accept (flags seq ack : Z) (data : list Z) (me other : peer) : option peer :=
  let syn := Z.testbit flags 1 in
  let fin := Z.testbit flags 0 in
  if (if syn then bool_decide (pr_next me = None) else bool_decide (pr_next me = Some seq))
     && (if Z.testbit flags 4 then bool_decide (pr_next other = Some ack) else syn)
     && (negb (pr_closed me) || (bool_decide (data = []) && negb syn && negb fin))
  then Some (mkPeer (Some (u32 (seq + blen data + (if syn || fin then 1 else 0)))) (pr_data me ++ data) (pr_closed me || fin))
  else None.

(** The endpoints of [flow] receive one segment after the other. *)
Fixpoint receive (flow : FlowTuple) (segments : list segment) (client server : peer) : option (peer * peer) :=
  match segments with
  | [] => Some (client, server)
  | sg :: segments =>
      if bool_decide ((sg_source sg, sg_sourcePort sg) = (As4 (ft_ClientIP flow), ft_ClientPort flow) /\
                      (sg_destination sg, sg_destinationPort sg) = (As4 (ft_ServerIP flow), ft_ServerPort flow)) then
        client ← accept (sg_flags sg) (sg_seq sg) (sg_ack sg) (sg_data sg) client server; receive flow segments client server
      else if bool_decide ((sg_source sg, sg_sourcePort sg) = (As4 (ft_ServerIP flow), ft_ServerPort flow) /\
                      (sg_destination sg, sg_destinationPort sg) = (As4 (ft_ClientIP flow), ft_ClientPort flow)) then
        server ← accept (sg_flags sg) (sg_seq sg) (sg_ack sg) (sg_data sg) server client; receive flow segments client server
      else None
  end.

Definition silent : peer := mkPeer None [] false.

(** What the client said and what it was told, when both sides have closed. *)
Definition conversation (flow : FlowTuple) (segments : list segment) : option (list Z * list Z) :=
  r ← receive flow segments silent silent;
  if pr_closed r.1 && pr_closed r.2 then Some (pr_data r.1, pr_data r.2) else None.

Lemma client_port flowID : 1024 <= ft_ClientPort (SyntheticTuple flowID).
Proof.
  cbn. unfold u16. change 32767 with (Z.ones 15). rewrite Z.land_ones by lia.
  pose proof (Z.mod_pos_bound flowID (2 ^ 15) ltac:(lia)). rewrite Z.mod_small; lia.
Qed.

Lemma receive_segment flowID fromClient flags data seq ack segments client server :
  receive (SyntheticTuple flowID) (segment_of flowID fromClient flags data seq ack :: segments) client server =
  if (fromClient : bool) then client ← accept flags seq ack data client server; receive (SyntheticTuple flowID) segments client server
  else server ← accept flags seq ack data server client; receive (SyntheticTuple flowID) segments client server.
Proof.
  pose proof (client_port flowID) as Hp. destruct fromClient; cbn [segment_of receive sg_source sg_sourcePort sg_destination sg_destinationPort sg_flags sg_seq sg_ack sg_data].
  - by rewrite bool_decide_eq_true_2.
  - rewrite bool_decide_eq_false_2; [by rewrite bool_decide_eq_true_2|]. intros [[= _ E] _]. change (ft_ClientPort (SyntheticTuple flowID)) with (u16 (1024 + Z.land flowID 0x7fff)) in Hp. lia.
Qed.

Lemma consumed_next x flags data : negb (Z.land flags 0x03 =? 0) = Z.testbit flags 1 || Z.testbit flags 0 ->
  u32 (x + consumed flags data) = u32 (x + blen data + (if Z.testbit flags 1 || Z.testbit flags 0 then 1 else 0)).
Proof.
  intros E. unfold consumed. rewrite E. destruct (_ || _); unfold u32; [|rewrite Z.add_0_r; by rewrite Zplus_mod_idemp_r].
  rewrite Zplus_mod_idemp_r, Z.add_assoc, <- (Zplus_mod_idemp_l (x + _)), Zplus_mod_idemp_r, Zplus_mod_idemp_l. done.
Qed.

(** A segment in order is accepted. *)
Lemma accept_in_order flags data seq ack me other :
  Z.testbit flags 1 = false -> Z.testbit flags 4 = true -> pr_next me = Some seq -> pr_next other = Some ack ->
  negb (Z.land flags 0x03 =? 0) = Z.testbit flags 0 -> (pr_closed me = false \/ data = [] /\ Z.testbit flags 0 = false) ->
  accept flags seq ack data me other = Some (mkPeer (Some (u32 (seq + consumed flags data))) (pr_data me ++ data) (pr_closed me || Z.testbit flags 0)).
Proof.
  intros Hs Ha Hm Ho Hf Hc. unfold accept. rewrite consumed_next by (by rewrite Hs, Hf). rewrite Hs, Ha, Hm, Ho, !bool_decide_eq_true_2 by done.
  assert (negb (pr_closed me) || bool_decide (data = []) && negb false && negb (Z.testbit flags 0) = true) as ->; [|done].
  destruct Hc as [-> | [-> ->]]; [done|]. by rewrite bool_decide_eq_true_2, orb_true_r.
Qed.

Ltac in_order := rewrite receive_segment, accept_in_order by (done || (by left) || (by right)); cbn [mbind option_bind pr_next pr_data pr_closed orb].

Lemma receive_pushes flowID l rest cs ss sent replied : exists cs',
  receive (SyntheticTuple flowID) (plan_segments flowID (pushes l ++ rest) cs ss) (mkPeer (Some cs) sent false) (mkPeer (Some ss) replied false) =
  receive (SyntheticTuple flowID) (plan_segments flowID rest cs' ss) (mkPeer (Some cs') (sent ++ concat l) false) (mkPeer (Some ss) replied false).
Proof.
  revert cs sent. induction l as [| c l IH]; intros cs sent; [exists cs; by rewrite app_nil_r|]. cbn [pushes fmap list_fmap app plan_segments concat]. in_order.
  destruct (IH (u32 (cs + consumed 24 c)) (sent ++ c)) as [cs' E]. exists cs'. rewrite <- app_assoc in E. exact E.
Qed.

Lemma conversation_plan flowID payload :
  conversation (SyntheticTuple flowID) (plan_segments flowID (plan_of payload) clientSequence serverSequence) = Some (payload, response).
Proof.
  unfold conversation, plan_of, opening, clientSequence, serverSequence, silent. cbn [app plan_segments].
  rewrite receive_segment. change (accept 2 1000 5000 [] _ _) with (Some (mkPeer (Some 1001) [] false)). cbn [mbind option_bind].
  rewrite receive_segment. change (accept 18 _ _ [] _ _) with (Some (mkPeer (Some 5001) [] false)). cbn [mbind option_bind].
  change (u32 (1000 + _)) with 1001. change (u32 (5000 + _)) with 5001. in_order. change (u32 (1001 + consumed 16 [])) with 1001.
  destruct (receive_pushes flowID (chunks (length payload) payload) closing 1001 5001 [] []) as [cs E]. change (Z.testbit 16 0) with false. cbn [app] in E |- *. rewrite E. clear E.
  rewrite concat_chunks by done. unfold closing. cbn [plan_segments]. generalize response. intros reply.
  do 7 in_order. cbn [receive mbind option_bind pr_closed pr_data fst snd andb Z.testbit]. by rewrite !app_nil_r.
Qed.

(** ** The size of a capture *)

Lemma plan_size_app p q : plan_size (p ++ q) = plan_size p + plan_size q.
Proof. unfold plan_size. rewrite foldr_app. induction p as [| x p IH]; cbn [foldr]; [done|]. rewrite IH. lia. Qed.

Lemma write_plan_size flowID plan b b' : write_plan flowID plan b = Ok b' -> blen (bd_pcap b') = blen (bd_pcap b) + plan_size plan.
Proof.
  revert b. induction plan as [| [[fromClient flags] data] plan IH]; intros b Hw; [injection Hw as <-; cbn; lia|]. cbn [write_plan] in Hw.
  destruct (write flowID fromClient flags data b) as [b1|] eqn:E1; [|done]. cbn [result_bind] in Hw. apply IH in Hw. rewrite Hw.
  destruct (write_fits _ _ _ _ _ _ E1) as [Hlen Hfit]. pose proof (write_Ok flowID fromClient flags data b Hlen Hfit) as Ew.
  unfold plan_size. cbn [foldr snd]. destruct fromClient; rewrite E1 in Ew; apply Ok_inj in Ew as ->; cbn [bd_pcap];
    unfold blen; rewrite !length_app, record_header_length, !Nat2Z.inj_add;
    (match goal with |- context [Z.of_nat (length (makePacket ?a ?b ?c ?d ?e ?f ?g))] => pose proof (makePacket_length a b c d e f g) as Hm; unfold blen in Hm; rewrite Hm end); lia.
Qed.

(** 1,200 bytes of payload cost at most 70 bytes of headers. *)
Lemma pushes_size fuel payload : (length payload <= fuel)%nat -> 1200 * plan_size (pushes (chunks fuel payload)) <= 1270 * blen payload + 70 * 1199.
Proof.
  revert payload. induction fuel as [| fuel IH]; intros payload Hf; [cbn; unfold blen; lia|]. cbn [chunks]. unfold blen in *.
  destruct (Z.eqb_spec (Z.of_nat (length payload)) 0); [cbn; lia|]. unfold plan_size. cbn [pushes fmap list_fmap foldr snd].
  fold (pushes (chunks fuel (drop (Z.to_nat (Z.min (Z.of_nat (length payload)) segmentBytes)) payload))).
  fold (plan_size (pushes (chunks fuel (drop (Z.to_nat (Z.min (Z.of_nat (length payload)) segmentBytes)) payload)))).
  specialize (IH (drop (Z.to_nat (Z.min (Z.of_nat (length payload)) segmentBytes)) payload)).
  rewrite length_drop in IH. unfold blen, segmentBytes in *. rewrite length_take.
  destruct (decide (Z.of_nat (length payload) <= 1200)) as [Hs | Hs].
  - replace (Z.to_nat (Z.min (Z.of_nat (length payload)) 1200)) with (length payload) in * by lia. rewrite drop_all in *.
    assert (E0 : plan_size (pushes (chunks fuel [])) = 0) by (by destruct fuel). rewrite E0. lia.
  - specialize (IH ltac:(lia)). lia.
Qed.

Lemma plan_fits payload : blen payload <= maxHeaderBytes + maxBodyBytes -> blen pcap_header + plan_size (plan_of payload) <= maxCaptureBytes.
Proof.
  intros Hp. unfold plan_of. rewrite !plan_size_app. pose proof (pushes_size (length payload) payload ltac:(done)) as Hs.
  change (plan_size opening) with 210. assert (plan_size closing = 555) as -> by (vm_compute; reflexivity). change (blen pcap_header) with 24.
  change (maxHeaderBytes + maxBodyBytes) with 4259840 in Hp. change maxCaptureBytes with 6291456. lia.
Qed.

(** * What a reader of the capture sees *)

(** ** The reader *)

(** Up to the first CRLF. *)
Fixpoint read_line (data : list Z) : option (list Z * list Z) :=
  match data with
  | [] => None
  | b :: rest =>
      match rest with
      | b' :: rest' => if (b =? 13) && (b' =? 10) then Some ([], rest') else '(line, rest) ← read_line rest; Some (b :: line, rest)
      | [] => None
      end
  end.

(** Before and after the first [c]. *)
Fixpoint cut_byte (c : Z) (data : list Z) : option (list Z * list Z) :=
  match data with
  | [] => None
  | b :: rest => if b =? c then Some ([], rest) else '(before, after) ← cut_byte c rest; Some (b :: before, after)
  end.

Definition cut_last (c : Z) (data : list Z) : option (list Z * list Z) :=
  '(after, before) ← cut_byte c (reverse data); Some (reverse before, reverse after).

Record http_message : Type := mkMessage {
  hm_method : list Z;
  hm_target : list Z;
  hm_version : list Z;
  hm_fields : list (list Z * list Z);
  hm_body : list Z
}.

Fixpoint read_fields (fuel : nat) (data : list Z) : option (list (list Z * list Z) * list Z) :=
  match fuel with
  | O => None
  | S fuel =>
      '(line, rest) ← read_line data;
      match line with
      | [] => Some ([], rest)
      | _ =>
          '(name, value) ← cut_byte 58 line;
          match value with
          | sp :: value => if sp =? 32 then '(fields, body) ← read_fields fuel rest; Some ((name, value) :: fields, body) else None
          | [] => None
          end
      end
  end.

Definition read_request (data : list Z) : option http_message :=
  '(line, rest) ← read_line data;
  '(method, target) ← cut_byte 32 line;
  '(target, version) ← cut_last 32 target;
  '(fields, body) ← read_fields (S (length rest)) rest;
  Some (mkMessage method target version fields body).

(** ** Characters *)

Definition absent (n : Z) (s : string) : Prop := all_chars (fun c => negb (code c =? n)) s = true.

Lemma all_chars_weaken (p q : ascii -> bool) s : (forall c, p c = true -> q c = true) -> all_chars p s = true -> all_chars q s = true.
Proof. intros H. induction s as [| c s IH]; [done|]. cbn. rewrite !andb_true_iff. intros [Hc Hs]. auto. Qed.

(** Facts about characters are checked on all 256 of them. *)
Ltac by_chars := intros c; revert c; intros [[] [] [] [] [] [] [] []]; vm_compute; done.

Lemma token_char_plain c : is_token_char c = true -> line_char c && negb (code c =? 58) && negb (code c =? 32) = true.
Proof. revert c. by_chars. Qed.

Lemma token_char_case c : is_token_char c = true -> is_token_char (upper c) && is_token_char (lower c) = true.
Proof. revert c. by_chars. Qed.

Lemma case_lower c : Ascii.eqb (lower (upper c)) (lower c) && Ascii.eqb (lower (lower c)) (lower c) = true.
Proof. revert c. by_chars. Qed.

Lemma line_char_no_cr c : line_char c = true -> negb (code c =? 13) = true.
Proof. revert c. by_chars. Qed.

Lemma digit_line_char c : is_digit c = true -> line_char c = true.
Proof. revert c. by_chars. Qed.

Lemma canonical_token b s : all_chars is_token_char s = true -> all_chars is_token_char (canonical b s) = true.
Proof.
  revert b. induction s as [| c s IH]; intros b; [done|]. cbn. rewrite !andb_true_iff. intros [Hc Hs]. split; [|by apply IH].
  pose proof (token_char_case c Hc) as H. rewrite andb_true_iff in H. by destruct H, b.
Qed.

Lemma canonical_lower b s : ToLower (canonical b s) = ToLower s.
Proof.
  revert b. induction s as [| c s IH]; intros b; [done|]. unfold ToLower in *. cbn [canonical map_string]. rewrite IH. f_equal.
  pose proof (case_lower c) as H. rewrite andb_true_iff, !Ascii.eqb_eq in H. by destruct H, b.
Qed.

Lemma canonical_nonempty b s : s <> EmptyString -> canonical b s <> EmptyString.
Proof. by destruct s. Qed.

(** ** Reading back *)

Lemma read_line_str s rest : singleLine s = true -> read_line (str_bytes s ++ 13 :: 10 :: rest) = Some (str_bytes s, rest).
Proof.
  unfold singleLine. induction s as [| c s IH]; [done|]. cbn [all_chars]. rewrite andb_true_iff. intros [Hc Hs]. cbn [str_bytes app].
  specialize (IH Hs). apply line_char_no_cr, negb_true_iff in Hc. cbn [read_line].
  destruct (str_bytes s ++ 13 :: 10 :: rest) as [| b' rest'] eqn:E; [by destruct s|]. rewrite Hc. cbn [andb]. by rewrite IH.
Qed.

Lemma cut_byte_str n s rest : absent n s -> cut_byte n (str_bytes s ++ n :: rest) = Some (str_bytes s, rest).
Proof.
  unfold absent. induction s as [| c s IH]; cbn [all_chars str_bytes app cut_byte]; [by rewrite Z.eqb_refl|].
  rewrite andb_true_iff. intros [Hc Hs]. apply negb_true_iff in Hc. rewrite Hc, IH by done. done.
Qed.

Lemma cut_byte_app n a rest : Forall (fun b => b <> n) a -> cut_byte n (a ++ n :: rest) = Some (a, rest).
Proof.
  induction 1 as [| b a Hb Ha IH]; cbn [app cut_byte]; [by rewrite Z.eqb_refl|]. apply Z.eqb_neq in Hb. by rewrite Hb, IH.
Qed.

Lemma cut_last_app n a b : Forall (fun x => x <> n) b -> cut_last n (a ++ n :: b) = Some (a, b).
Proof.
  intros Hb. unfold cut_last. rewrite reverse_app, reverse_cons, <- app_assoc. cbn [app]. rewrite cut_byte_app by (by apply Forall_reverse).
  cbn [mbind option_bind]. by rewrite !reverse_involutive.
Qed.


Lemma string_app_nil s : (s ++ "")%string = s.
Proof. induction s as [| c s IH]; [done|]. change (String c s ++ "")%string with (String c (s ++ "")). by rewrite IH. Qed.

(** ** The fields that are written *)

Definition key_fields (headers : gmap string (list string)) (key : string) : list (string * string) :=
  (fun value => (CanonicalHeaderKey key, value)) <$> default [] (headers !! key).

Definition kept_fields (headers : gmap string (list string)) (keys : list string) : list (string * string) :=
  keys ≫= fun key => if excludedHeader key then [] else key_fields headers key.

Definition request_fields (r : GateHTTPRequest) : list (string * string) :=
  ("Host", gh_Host r) :: kept_fields (gh_Headers r) (header_keys (gh_Headers r)) ++ [("Content-Length", itoa (blen (gh_Body r))); ("Connection", "close")].

Definition field_line (f : string * string) : string := f.1 ++ ": " ++ f.2 ++ crlf.
Fixpoint lines (l : list (string * string)) : string := match l with [] => EmptyString | f :: l => field_line f ++ lines l end.
Definition field_bytes (f : string * string) : list Z * list Z := (str_bytes f.1, str_bytes f.2).

Definition field_ok (f : string * string) : Prop := all_chars is_token_char f.1 = true /\ f.1 <> EmptyString /\ singleLine f.2 = true.

Lemma lines_app l l' : lines (l ++ l') = (lines l ++ lines l')%string.
Proof. induction l as [| f l IH]; [done|]. cbn [app lines]. by rewrite IH, string_app_assoc. Qed.

Lemma write_values_Ok key values wire wire' : write_values key values wire = Ok wire' ->
  wire' = (wire ++ lines ((fun value => (CanonicalHeaderKey key, value)) <$> values))%string /\ Forall (fun v => singleLine v = true) values.
Proof.
  revert wire. induction values as [| v values IH]; intros wire; cbn [write_values].
  { intros [= ->]. cbn [lines fmap list_fmap]. split; [|constructor]. by rewrite string_app_nil. }
  destruct (singleLine v) eqn:Ev; [|done]. cbn [negb]. destruct (_ || _); [done|]. intros [-> Hv]%IH. split; [|by constructor].
  cbn [fmap list_fmap lines]. unfold field_line. cbn [fst snd]. by rewrite !string_app_assoc.
Qed.

Lemma write_headers_Ok headers keys wire wire' : write_headers headers keys wire = Ok wire' -> Forall (fun key => token key = true) keys ->
  wire' = (wire ++ lines (kept_fields headers keys))%string /\ Forall field_ok (kept_fields headers keys).
Proof.
  intros Hw Hk. revert wire Hw. induction Hk as [| key keys Hkey Hk IH]; intros wire Hw; cbn [write_headers] in Hw.
  { injection Hw as ->. split; [|constructor]. cbn. by rewrite string_app_nil. }
  unfold kept_fields. cbn [mbind list_bind]. fold (kept_fields headers keys). destruct (excludedHeader key); [by apply IH|].
  destruct (write_values _ _ _) as [w|] eqn:Ev; [|done]. cbn [result_bind] in Hw. apply write_values_Ok in Ev as [-> Hv]. apply IH in Hw as [-> Hf].
  split; [by rewrite lines_app, string_app_assoc|]. apply Forall_app. split; [|done]. unfold key_fields. apply Forall_fmap.
  eapply Forall_impl; [exact Hv|]. intros v Hsv. unfold token in Hkey. apply andb_true_iff in Hkey as [Hne Htok].
  unfold field_ok. cbn [compose fst snd]. unfold CanonicalHeaderKey. rewrite Htok. split_and!; [by apply canonical_token | | done].
  apply canonical_nonempty. by apply negb_true_iff, bool_decide_eq_false in Hne.
Qed.

(** ** Fields are read as they were written *)

Lemma singleLine_app a b : singleLine (a ++ b) = singleLine a && singleLine b.
Proof. apply all_chars_app. Qed.

Lemma token_line s : all_chars is_token_char s = true -> singleLine s = true /\ absent 58 s /\ absent 32 s.
Proof.
  intros H. unfold singleLine, absent. split_and!; (eapply all_chars_weaken; [|exact H]); intros c Hc; apply token_char_plain in Hc; rewrite !andb_true_iff in Hc; tauto.
Qed.

Lemma read_fields_lines l fuel body : Forall field_ok l -> (length l < fuel)%nat ->
  read_fields fuel (str_bytes (lines l) ++ 13 :: 10 :: body) = Some (field_bytes <$> l, body).
Proof.
  intros Hl. revert fuel. induction Hl as [| [n v] l (Hn & Hne & Hv) Hl IH]; intros [| fuel] Hf; cbn [length] in Hf; try lia; [done|].
  cbn [lines read_fields fst snd] in *. destruct (token_line n Hn) as (Hsn & Hcn & _).
  assert (E : str_bytes (field_line (n, v) ++ lines l) ++ 13 :: 10 :: body = str_bytes (n ++ ": " ++ v) ++ 13 :: 10 :: str_bytes (lines l) ++ 13 :: 10 :: body).
  { unfold field_line. cbn [fst snd]. by rewrite !str_bytes_app, <- !app_assoc. }
  rewrite E, read_line_str by (rewrite !singleLine_app, Hsn, Hv; done). cbn [mbind option_bind].
  rewrite str_bytes_app. destruct (str_bytes n ++ str_bytes (": " ++ v)) as [| b0 line] eqn:El; [by destruct n|]. rewrite <- El. clear b0 line El.
  change (str_bytes (": " ++ v)) with (58 :: 32 :: str_bytes v). rewrite cut_byte_str by done. cbn [mbind option_bind]. rewrite Z.eqb_refl, IH by lia. done.
Qed.

Lemma field_bytes_length l : Forall field_ok l -> (length l <= length (str_bytes (lines l)))%nat.
Proof.
  induction 1 as [| [n v] l (_ & Hne & _) Hl IH]; [done|]. cbn [lines length fst] in *. rewrite str_bytes_app, length_app.
  destruct n as [| c n]; [done|]. unfold field_line. cbn [fst snd]. rewrite str_bytes_app, length_app. cbn [str_bytes length]. lia.
Qed.

(** ** The request is read as it was written *)

Definition request_line (r : GateHTTPRequest) : string := gh_Method r ++ " " ++ request_uri r ++ " HTTP/1.1".

Lemma request_uri_line r : singleLine (request_path r) = true -> singleLine (gh_RawQuery r) = true -> singleLine (request_uri r) = true.
Proof. intros Hp Hq. unfold request_uri. case_bool_decide; [done|]. by rewrite !singleLine_app, Hp, Hq. Qed.

Lemma request_fields_lines r : lines (request_fields r) =
  (("Host: " ++ gh_Host r ++ crlf) ++ lines (kept_fields (gh_Headers r) (header_keys (gh_Headers r)))
   ++ "Content-Length: " ++ itoa (blen (gh_Body r)) ++ crlf ++ "Connection: close" ++ crlf)%string.
Proof.
  unfold request_fields. cbn [lines]. rewrite lines_app. cbn [lines]. unfold field_line. cbn [fst snd].
  rewrite string_app_nil, !string_app_assoc. reflexivity.
Qed.

(** Past a check that did not fail. *)
Ltac step E := match goal with |- (if ?b then Err _ else _) = Ok _ -> _ => destruct b eqn:E; [done|] end.

Lemma checked_keys keys : existsb (fun key => (256 <? strlen key) || negb (token key)) keys = false -> Forall (fun key => token key = true) keys.
Proof.
  intros Ek. apply Forall_forall. intros key Hkey. destruct (token key) eqn:Et; [done|].
  assert (existsb (fun key => (256 <? strlen key) || negb (token key)) keys = true); [|congruence].
  apply existsb_elem_of. exists key. split; [done|]. by rewrite Et, orb_true_r.
Qed.

(** What an accepted request looks like on the wire. *)
Lemma semanticRequest_Ok r payload : semanticRequest r = Ok payload ->
  payload = str_bytes (request_line r) ++ 13 :: 10 :: str_bytes (lines (request_fields r)) ++ 13 :: 10 :: gh_Body r /\
  all_chars is_token_char (gh_Method r) = true /\ singleLine (request_uri r) = true /\ Forall field_ok (request_fields r) /\
  Forall (fun key => token key = true) (header_keys (gh_Headers r)) /\ blen payload <= maxHeaderBytes + maxBodyBytes.
Proof.
  unfold semanticRequest. cbv zeta. step E1. rewrite !orb_false_iff, !negb_false_iff in E1. destruct E1 as ((((_ & Hm) & Hh) & Hb) & _).
  step E0. step E2. rewrite !orb_false_iff, !negb_false_iff in E2. destruct E2 as ((_ & Hp) & Hq). step E3. step Ek.
  pose proof (checked_keys _ Ek) as Hk.
  destruct (write_headers _ _ _) as [wire|] eqn:Ew; [|done]. cbn [result_bind]. apply write_headers_Ok in Ew as [-> Hf]; [|done].
  step El. apply Z.ltb_ge in El. intros [= <-]. unfold token in Hm. apply andb_true_iff in Hm as [_ Hm]. split_and!.
  - rewrite request_fields_lines. unfold request_line. rewrite !str_bytes_app, <- !app_assoc. reflexivity.
  - done.
  - by apply request_uri_line.
  - unfold validHost in Hh. rewrite !andb_true_iff in Hh. destruct Hh as [[[_ Hh] _] _]. constructor; [by split_and!|]. apply Forall_app. split; [done|]. repeat apply Forall_cons_2; [|by split_and!|constructor].
    split_and!; [done | done |]. eapply all_chars_weaken; [apply digit_line_char|]. apply itoa_spec. unfold blen. lia.
  - done.
  - unfold blen in *. rewrite length_app, str_bytes_length, Nat2Z.inj_add. fold (strlen (((gh_Method r ++ " " ++ request_uri r ++ " HTTP/1.1" ++ crlf) ++ "Host: " ++ gh_Host r ++ crlf)
      ++ lines (kept_fields (gh_Headers r) (header_keys (gh_Headers r))) ++ "Content-Length: " ++ itoa (Z.of_nat (length (gh_Body r))) ++ crlf ++ "Connection: close" ++ crlf ++ crlf)). unfold strlen in *. apply Z.ltb_ge in Hb. rewrite !string_app_assoc in *. lia.
Qed.

Definition message_of (r : GateHTTPRequest) : http_message :=
  mkMessage (str_bytes (gh_Method r)) (str_bytes (request_uri r)) (str_bytes "HTTP/1.1") (field_bytes <$> request_fields r) (gh_Body r).

Lemma read_semanticRequest r payload : semanticRequest r = Ok payload -> read_request payload = Some (message_of r).
Proof.
  intros (-> & Hm & Hu & Hf & _)%semanticRequest_Ok. destruct (token_line _ Hm) as (Hsm & _ & Hspace). unfold read_request.
  rewrite read_line_str by (unfold request_line; rewrite !singleLine_app, Hsm, Hu; done). cbn [mbind option_bind].
  unfold request_line. rewrite str_bytes_app. change (str_bytes (" " ++ request_uri r ++ " HTTP/1.1")) with (32 :: str_bytes (request_uri r ++ " HTTP/1.1")).
  rewrite cut_byte_str by done. cbn [mbind option_bind]. rewrite str_bytes_app. change (str_bytes " HTTP/1.1") with (32 :: str_bytes "HTTP/1.1").
  rewrite cut_last_app by (vm_compute; repeat constructor; done). cbn [mbind option_bind].
  rewrite read_fields_lines; [done | done |]. pose proof (field_bytes_length _ Hf). rewrite length_app. cbn [length]. lia.
Qed.

(** ** Claims *)

(** C24. A request that passes the checks is always written as a capture of at
    most 6 MiB.  A reader that checks every length and checksum accepts all its
    packets; the two ends of the flow's TCP connection accept every segment in
    order and close; what the client said is, byte for byte, one HTTP/1.1
    request ([message_of]) whose method, target and body are those of the request, and
    whose fields are the Host, then the values of those headers of the request that are
    not excluded (framing, hop-by-hop and credential names are), by name, then the
    length of the body and Connection: close. *)
Theorem capture_shows_request request flowID payload :
  Forall is_byte (gh_Body request) -> semanticRequest request = Ok payload ->
  exists capture segments,
    Build request flowID = Ok capture /\ blen capture <= maxCaptureBytes /\
    read_capture capture = Some segments /\ conversation (SyntheticTuple flowID) segments = Some (payload, response) /\
    read_request payload = Some (message_of request).
Proof.
  intros Hbody Hp. destruct (semanticRequest_Ok _ _ Hp) as (E & _ & _ & _ & _ & Hsize).
  assert (Hbytes : Forall is_byte payload).
  { rewrite E, !Forall_app. split; [apply str_bytes_bytes|]. repeat (apply Forall_cons_2; [unfold is_byte; lia|]). apply Forall_app. split; [apply str_bytes_bytes|].
    repeat (apply Forall_cons_2; [unfold is_byte; lia|]). done. }
  pose proof (plan_fits payload Hsize) as Hfit. set (b0 := mkBuilder pcap_header clientSequence serverSequence 0).
  destruct (write_plan_total flowID (plan_of payload) b0 (plan_ok _ Hbytes) Hfit) as [b Hb].
  destruct (write_plan_read flowID _ b0 b (plan_ok _ Hbytes) ltac:(done) ltac:(done) Hb) as (records & Ep & Hlen & Hread).
  exists (bd_pcap b), (plan_segments flowID (plan_of payload) clientSequence serverSequence). split_and!.
  - rewrite Build_plan, Hp. cbn [result_bind]. fold b0. by rewrite Hb.
  - rewrite (write_plan_size _ _ _ _ Hb). exact Hfit.
  - rewrite Ep. apply read_capture_records. apply Hread. cbn [bd_pcap b0]. rewrite length_app. lia.
  - apply conversation_plan.
  - by apply read_semanticRequest.
Qed.

Lemma capture_shows_request_witness : exists capture segments,
    Build sample_request 7 = Ok capture /\ blen capture <= maxCaptureBytes /\ read_capture capture = Some segments /\
    conversation (SyntheticTuple 7) segments = Some (str_bytes ("POST /cart?id=7 HTTP/1.1" ++ crlf ++ "Host: shop.example" ++ crlf ++ "Accept: */*" ++ crlf ++ "X-Trace: a" ++ crlf ++ "X-Trace: b" ++ crlf ++ "Content-Length: 3" ++ crlf ++ "Connection: close" ++ crlf ++ crlf) ++ [65; 66; 67], response) /\
    read_request (str_bytes ("POST /cart?id=7 HTTP/1.1" ++ crlf ++ "Host: shop.example" ++ crlf ++ "Accept: */*" ++ crlf ++ "X-Trace: a" ++ crlf ++ "X-Trace: b" ++ crlf ++ "Content-Length: 3" ++ crlf ++ "Connection: close" ++ crlf ++ crlf) ++ [65; 66; 67]) = Some (message_of sample_request).
Proof.
  apply (capture_shows_request sample_request 7); [|vm_compute; reflexivity].
  unfold is_byte. cbn. repeat constructor; lia.
Defined.

(** Names that carry a credential. *)
Definition credential (name : string) : bool :=
  bool_decide (ToLower name ∈ ["authorization"; "proxy-authorization"; "cookie"; "set-cookie"; "x-api-key"])
  || str_Contains (ToLower name) "token" || str_Contains (ToLower name) "secret" || str_Contains (ToLower name) "password".

(** Names that say where a message ends or to whom it goes. *)
Definition framing (name : string) : bool :=
  bool_decide (ToLower name ∈ ["host"; "content-length"; "transfer-encoding"; "connection"]).

Lemma excluded_canonical key : all_chars is_token_char key = true -> excludedHeader key = false ->
  credential (CanonicalHeaderKey key) = false /\ framing (CanonicalHeaderKey key) = false.
Proof.
  intros Ht. unfold excludedHeader, credential, framing, CanonicalHeaderKey. rewrite Ht, canonical_lower, !orb_false_iff, !bool_decide_eq_false.
  intros [[[Hn ->] ->] ->]. split_and!; [set_solver | done | done | done | set_solver].
Qed.

(** The detector never sees a credential header of the request, and the
    fields that frame the message are exactly the three that the gate writes
    itself: a client header cannot add a second length, a transfer coding or
    another host to the inspected request. *)
Theorem capture_fields_safe request payload message : semanticRequest request = Ok payload -> read_request payload = Some message ->
  exists fields, hm_fields message = field_bytes <$> fields /\
    Forall (fun f => credential f.1 = false) fields /\
    filter (fun f => framing f.1 = true) fields =
      [("Host", gh_Host request); ("Content-Length", itoa (blen (hm_body message))); ("Connection", "close")].
Proof.
  intros Hp Hr. destruct (semanticRequest_Ok _ _ Hp) as (_ & _ & _ & _ & Hk & _). rewrite Forall_forall in Hk. rewrite (read_semanticRequest _ _ Hp) in Hr. injection Hr as <-. exists (request_fields request). split; [done|].
  assert (Hkept : Forall (fun f => credential f.1 = false /\ framing f.1 = false) (kept_fields (gh_Headers request) (header_keys (gh_Headers request)))).
  { apply Forall_forall. intros [n v] (key & Hf & Hkey)%list_elem_of_bind. destruct (excludedHeader key) eqn:Ex; [set_solver|].
    apply list_elem_of_fmap in Hf as (w & [= -> ->] & _). apply excluded_canonical; [|done]. specialize (Hk _ Hkey). by apply andb_true_iff in Hk as [_ Hk]. }
  unfold request_fields. split.
  - apply Forall_cons_2; [done|]. apply Forall_app_2; [by eapply Forall_impl; [exact Hkept | intros ? [? ?]]|]. by repeat apply Forall_cons_2.
  - rewrite filter_cons_True by done. rewrite filter_app.
    assert (filter (fun f => framing f.1 = true) (kept_fields (gh_Headers request) (header_keys (gh_Headers request))) = []) as ->; [|done].
    induction Hkept as [| f l [_ Hf] Hl IH]; [done|]. by rewrite filter_cons_False by congruence.
Qed.

Lemma capture_fields_safe_witness : exists fields, hm_fields (message_of sample_request) = field_bytes <$> fields /\
    Forall (fun f => credential f.1 = false) fields /\
    filter (fun f => framing f.1 = true) fields =
      [("Host", gh_Host sample_request); ("Content-Length", itoa (blen (hm_body (message_of sample_request)))); ("Connection", "close")].
Proof.
  eapply (capture_fields_safe sample_request); [vm_compute; reflexivity|]. vm_compute. reflexivity.
Defined.
