(* ===== verification/RequestEve.v ===== *)
(** * The detector's answer for one request

    internal/inspection/requestworker/eve.go: the EVE lines that one job's run of
    the detector wrote become a [RequestInspectionResult].  [encoding/json] and
    [time.Parse] are parameters, as for the live sensor ([Eve]). *)

From Stdlib Require Import Ascii.
From S2P Require Import Prelude GoStr Bytes Netip Domain Codec Observation Eve RequestPcap.

Definition maxEVELineBytes : Z := Z.shiftl 64 10.
Definition maxEVERecords : Z := 4096.
Definition maxEVEAlerts : Z := 128.
Definition maxEVEBytes : Z := Z.shiftl 1 20.
Definition EVEErrorMalformed : string := "GATE_EVE_MALFORMED".
Definition EVEErrorIncomplete : string := "GATE_EVE_INCOMPLETE".
Definition EVEErrorMismatch : string := "GATE_EVE_MISMATCH".

(** What a worker returns for a job (requestworker/pool.go). *)
Record Result : Type := mkResult {
  rs_RequestID : string;
  rs_WorkerID : Z;
  rs_FlowID : Z;
  rs_PCAPPath : string;
  rs_EVE : list Z;
  rs_Duration : Duration
}.

Record eveAlert : Type := mkEveAlert {
  ea_SignatureID : RawMessage;
  ea_Signature : string;
  ea_Category : string;
  ea_Action : string;
  ea_Severity : RawMessage
}.

Record eveRecord : Type := mkEveRecord {
  er_Timestamp : string;
  er_EventType : string;
  er_PCAPFilename : string;
  er_FlowID : RawMessage;
  er_SrcIP : string;
  er_DestIP : string;
  er_SrcPort : Z;
  er_DestPort : Z;
  er_Proto : string;
  er_Alert : option eveAlert;
  er_Flow : option string   (** [flow.state] *)
}.

(** [strconv.ParseUint(s, 10, bits)] for at most 64 bits. *)
Definition ParseUintBits (bits : Z) (s : string) : option Z :=
  match ParseUint s with Some n => if n <? 2 ^ bits then Some n else None | None => None end.

(** [string(raw)] of a value that is present and not [null]. *)
Definition present (raw : RawMessage) : bool := negb (bool_decide (raw = [])) && negb (bool_decide (bytes_str raw = "null")).

(** [bufio.Scanner] with lines of at most 64 KiB, the newline included: the lines
    up to the first that is too long, and whether there was one. *)
Definition drop_cr (line : list Z) : list Z := match reverse line with 13 :: rest => reverse rest | _ => line end.

Fixpoint scan_lines (line data : list Z) : list (list Z) * bool :=
  match data with
  | [] => ((if bool_decide (line = []) then [] else [drop_cr (reverse line)]), false)
  | b :: data =>
      if b =? 10 then let '(lines, long) := scan_lines [] data in (drop_cr (reverse line) :: lines, long)
      else if maxEVELineBytes <=? Z.of_nat (S (length line)) then ([], true)
      else scan_lines (b :: line) data
  end.

Definition matchingTuple (record : eveRecord) (flow : FlowTuple) : bool :=
  if negb (EqualFold (er_Proto record) "TCP") then false
  else match ParseAddr (er_SrcIP record), ParseAddr (er_DestIP record) with
  | Some source, Some destination =>
      let forward := bool_decide (source = ft_ClientIP flow) && bool_decide (destination = ft_ServerIP flow) && (er_SrcPort record =? ft_ClientPort flow) && (er_DestPort record =? ft_ServerPort flow) in
      let backward := bool_decide (source = ft_ServerIP flow) && bool_decide (destination = ft_ClientIP flow) && (er_SrcPort record =? ft_ServerPort flow) && (er_DestPort record =? ft_ClientPort flow) in
      forward || backward
  | _, _ => false
  end.

Section normalize.
Context {JR : JSON eveRecord}.
Context (Parse : string -> string -> option Time).

Definition normalizeAlert (record : eveRecord) (alert : eveAlert) : option RequestAlert :=
  match ParseUintBits 32 (bytes_str (ea_SignatureID alert)) with
  | Some identifier =>
      if (identifier =? 0) || (512 <? strlen (ea_Signature alert)) || (128 <? strlen (ea_Category alert)) || (32 <? strlen (ea_Action alert)) || (8 <? Z.of_nat (length (ea_Severity alert))) then None
      else match ParseTimestamp Parse (er_Timestamp record) with
      | Ok (Some when) =>
          let result severity := Some (mkRequestAlert "suricata" (itoa identifier) (ea_Category alert) (ea_Signature alert) (ea_Action alert) severity (FormatRFC3339Nano when)) in
          if present (ea_Severity alert) then
            match ParseUintBits 8 (bytes_str (ea_Severity alert)) with
            | Some severity => if (severity <? 1) || (4 <? severity) then None else result (itoa severity)
            | None => None
            end
          else result ""
      | _ => None
      end
  | None => None
  end.

(** What the loop over the lines carries. *)
Record reading : Type := mkReading {
  rg_terminal : bool;
  rg_alerts : list RequestAlert;
  rg_flowID : option Z
}.

(** The identifier that Suricata gives the flow has to stay the same. *)
Definition flow_id_step (raw : RawMessage) (observed : option Z) : option (option Z) :=
  if present raw then
    match ParseUint (bytes_str raw) with
    | Some value => match observed with Some seen => if value =? seen then Some (Some value) else None | None => Some (Some value) end
    | None => None
    end
  else Some observed.

(** One line; an error is the code that the result keeps. *)
Definition normalize_line (job : Result) (count : Z) (line : list Z) (g : reading) : result string reading :=
  if (maxEVERecords <=? count) || negb (utf8_valid line) then Err EVEErrorMalformed
  else match Unmarshal line with
  | None => Err EVEErrorMalformed
  | Some record =>
      if bool_decide (er_EventType record = "") then Err EVEErrorMalformed
      else if negb (bool_decide (er_EventType record = "alert")) && negb (bool_decide (er_EventType record = "flow")) then Ok g
      else if (negb (bool_decide (er_PCAPFilename record = "")) && negb (bool_decide (er_PCAPFilename record = rs_PCAPPath job))) || negb (matchingTuple record (SyntheticTuple (rs_FlowID job))) then Err EVEErrorMismatch
      else match flow_id_step (er_FlowID record) (rg_flowID g) with
      | None => Err EVEErrorMismatch
      | Some observed =>
          if bool_decide (er_EventType record = "flow") then
            match er_Flow record with
            | None => Err EVEErrorMalformed
            | Some state => Ok (mkReading (if EqualFold state "closed" then true else rg_terminal g) (rg_alerts g) observed)
            end
          else match er_Alert record with
          | None => Err EVEErrorMalformed
          | Some alert =>
              if maxEVEAlerts <=? Z.of_nat (length (rg_alerts g)) then Err EVEErrorMalformed
              else match normalizeAlert record alert with
              | None => Err EVEErrorMalformed
              | Some alert => Ok (mkReading (rg_terminal g) (rg_alerts g ++ [alert]) observed)
              end
          end
      end
  end.

Fixpoint normalize_lines (job : Result) (count : Z) (lines : list (list Z)) (g : reading) : result string reading :=
  match lines with
  | [] => Ok g
  | line :: lines => let? g := normalize_line job count line g in normalize_lines job (count + 1) lines g
  end.

Definition failed_result (job : Result) (rulesetID rulesetHash code : string) : RequestInspectionResult :=
  mkRequestInspectionResult (rs_RequestID job) RequestCoverageUnavailable false [] code (Z.quot (rs_Duration job) Millisecond) rulesetID rulesetHash.

Definition malformed_job (job : Result) : bool :=
  bool_decide (rs_RequestID job = "") || (rs_FlowID job =? 0) || bool_decide (rs_PCAPPath job = "") || bool_decide (rs_EVE job = [])
  || (maxEVEBytes <? Z.of_nat (length (rs_EVE job))) || negb (bool_decide (last (rs_EVE job) = Some 10)).

Definition NormalizeEVE (job : Result) (rulesetID rulesetHash : string) : RequestInspectionResult :=
  let failed := failed_result job rulesetID rulesetHash in
  if malformed_job job then failed EVEErrorMalformed
  else
  let '(lines, long) := scan_lines [] (rs_EVE job) in
  match normalize_lines job 0 lines (mkReading false [] None) with
  | Err code => failed code
  | Ok g =>
      if long then failed EVEErrorMalformed
      else if negb (rg_terminal g) then failed EVEErrorIncomplete
      else mkRequestInspectionResult (rs_RequestID job) CoverageComplete true (rg_alerts g) "" (Z.quot (rs_Duration job) Millisecond) rulesetID rulesetHash
  end.

End normalize.
