(* ===== verification/RequestEveProps.v ===== *)
(** * When an inspection counts as complete

    What [NormalizeEVE] (internal/inspection/requestworker/eve.go) accepts,
    against a description of a complete answer that does not mention the loop,
    and that an answer about another job's flow is never accepted. *)

From Stdlib Require Import Ascii.
From S2P Require Import Prelude GoStr Bytes Netip Domain Codec Observation Eve RequestPcap RequestPcapProps RequestEve.

Section answers.
Context {JR : JSON eveRecord}.
Context (Parse : string -> string -> option Time).
Context (job : Result).

(** ** A complete answer *)

Definition decoded (line : list Z) (r : eveRecord) : Prop := utf8_valid line = true /\ Unmarshal line = Some r /\ er_EventType r <> "".

Definition is_alert (r : eveRecord) : Prop := er_EventType r = "alert".
Definition is_flow (r : eveRecord) : Prop := er_EventType r = "flow".

(** The record is about this job's flow, in this job's capture. *)
Definition about_job (r : eveRecord) : Prop :=
  (er_PCAPFilename r = "" \/ er_PCAPFilename r = rs_PCAPPath job) /\ matchingTuple r (SyntheticTuple (rs_FlowID job)) = true.

Definition one_flow (seen : option Z) (records : list eveRecord) : Prop :=
  exists id, (forall v, seen = Some v -> v = id) /\
    Forall (fun r => is_alert r \/ is_flow r -> present (er_FlowID r) = true -> ParseUint (bytes_str (er_FlowID r)) = Some id) records.

Definition closes (r : eveRecord) : Prop := is_flow r /\ exists state, er_Flow r = Some state /\ EqualFold state "closed" = true.

(** The alert of an alert record, in the form the engine receives. *)
Definition alert_of (r : eveRecord) : option RequestAlert := a ← er_Alert r; normalizeAlert Parse r a.

#[global] Instance is_alert_dec r : base.Decision (is_alert r) := ltac:(unfold is_alert; apply _).
#[global] Instance is_flow_dec r : base.Decision (is_flow r) := ltac:(unfold is_flow; apply _).
#[global] Typeclasses Opaque is_alert is_flow.

Record answer_about (records : list eveRecord) (alerts : list RequestAlert) : Prop := mkAnswer {
  an_about : Forall (fun r => is_alert r \/ is_flow r -> about_job r) records;
  an_states : Forall (fun r => is_flow r -> is_Some (er_Flow r)) records;
  an_alerts : mapM alert_of (filter is_alert records) = Some alerts
}.

Record complete_answer (alerts : list RequestAlert) : Prop := mkComplete {
  co_job : malformed_job job = false;
  co_answer : exists lines records,
    scan_lines [] (rs_EVE job) = (lines, false) /\ Z.of_nat (length lines) <= maxEVERecords /\ Forall2 decoded lines records /\
    answer_about records alerts /\ one_flow None records /\ Exists closes records;
  co_alerts : Z.of_nat (length alerts) <= maxEVEAlerts
}.

(** ** The loop *)

Lemma flow_id_step_iff r seen records : is_alert r \/ is_flow r ->
  one_flow seen (r :: records) <-> exists seen', flow_id_step (er_FlowID r) seen = Some seen' /\ one_flow seen' records.
Proof.
  intros Hr. unfold flow_id_step, one_flow. destruct (present (er_FlowID r)) eqn:Ep.
  - split.
    + intros (id & Hs & [H1 H2]%Forall_cons). rewrite (H1 Hr Ep). exists (Some id). split; [|exists id; split; [by intros v [= ->] | done]].
      destruct seen as [v|]; [|done]. rewrite (Hs v eq_refl). by rewrite Z.eqb_refl.
    + intros (seen' & Hstep & id & Hs & HF). destruct (ParseUint _) as [value|] eqn:Eu; [|done].
      assert (seen' = Some value /\ (forall v, seen = Some v -> v = value)) as [-> Hv].
      { destruct seen as [v|]; [destruct (Z.eqb_spec value v); [|done]|]; injection Hstep as <-; split; [done | congruence | done | done]. }
      pose proof (Hs value eq_refl) as <-. exists value. split; [done|]. constructor; [|done]. by intros _ _.
  - split.
    + intros (id & Hs & [_ H2]%Forall_cons). exists seen. split; [done|]. by exists id.
    + intros (seen' & [= <-] & id & Hs & HF). exists id. split; [done|]. constructor; [intros _ H; congruence | done].
Qed.

Lemma one_flow_other r seen records : ~ (is_alert r \/ is_flow r) -> one_flow seen (r :: records) <-> one_flow seen records.
Proof.
  intros Hr. split; intros (id & Hs & H); exists id; (split; [done|]); [by apply Forall_cons in H as [_ H] | by constructor].
Qed.

Lemma answer_cons r records alerts : answer_about (r :: records) alerts <->
  (is_alert r \/ is_flow r -> about_job r) /\ (is_flow r -> is_Some (er_Flow r)) /\
  if decide (is_alert r) then exists a rest, alert_of r = Some a /\ alerts = a :: rest /\ answer_about records rest else answer_about records alerts.
Proof.
  split.
  - intros [H1 H2 H3]. apply Forall_cons in H1 as [H1 H1']. apply Forall_cons in H2 as [H2 H2']. split_and!; [done | done |].
    rewrite filter_cons in H3. destruct (decide (is_alert r)); [|by split]. cbn in H3. destruct (alert_of r) as [a|]; [|done].
    destruct (mapM alert_of (filter is_alert records)) as [rest|] eqn:Em; [|done]. injection H3 as <-. by exists a, rest.
  - intros (H1 & H2 & H3). destruct (decide (is_alert r)) as [Ha | Ha] eqn:Ed.
    + destruct H3 as (a & rest & Ea & -> & [H4 H5 H6]). split; [by constructor | by constructor |]. rewrite filter_cons, Ed. cbn. by rewrite Ea, H6.
    + destruct H3 as [H4 H5 H6]. split; [by constructor | by constructor |]. by rewrite filter_cons, Ed.
Qed.

(** One decoded line, case by case. *)
Lemma normalize_line_iff count line r g g' : decoded line r ->
  normalize_line Parse job count line g = Ok g' <->
  count < maxEVERecords /\
  if decide (is_alert r \/ is_flow r) then
    about_job r /\ exists seen, flow_id_step (er_FlowID r) (rg_flowID g) = Some seen /\
    if decide (is_alert r) then exists a, alert_of r = Some a /\ Z.of_nat (length (rg_alerts g)) < maxEVEAlerts /\ g' = mkReading (rg_terminal g) (rg_alerts g ++ [a]) seen
    else exists state, er_Flow r = Some state /\ g' = mkReading (if EqualFold state "closed" then true else rg_terminal g) (rg_alerts g) seen
  else g' = g.
Proof.
  intros (Hu & Hr & Hk). unfold normalize_line. rewrite Hu, Hr, (bool_decide_eq_false_2 (er_EventType r = "")), orb_false_r by done.
  destruct (Z.leb_spec maxEVERecords count) as [Hc | Hc]; [split; [done | lia]|].
  assert (bool_decide (er_EventType r = "alert") = bool_decide (is_alert r)) as -> by (by apply bool_decide_ext).
  assert (bool_decide (er_EventType r = "flow") = bool_decide (is_flow r)) as -> by (by apply bool_decide_ext). destruct (decide (is_alert r \/ is_flow r)) as [Hrel | Hrel].
  2: { rewrite !bool_decide_eq_false_2 by tauto. cbn [negb andb]. split; [by intros [= ->] | by intros [_ ->]]. }
  assert (negb (bool_decide (is_alert r)) && negb (bool_decide (is_flow r)) = false) as ->.
  { destruct Hrel; [rewrite (bool_decide_eq_true_2 (is_alert r)) by done | rewrite (bool_decide_eq_true_2 (is_flow r)) by done; rewrite andb_false_r]; done. }
  destruct ((_ && _) || _) eqn:Eab.
  { split; [done|]. intros (_ & [Hf Hm] & _). rewrite Hm, orb_false_r, andb_true_iff, !negb_true_iff, !bool_decide_eq_false in Eab. tauto. }
  rewrite orb_false_iff, andb_false_iff, !negb_false_iff, !bool_decide_eq_true in Eab. destruct (flow_id_step _ _) as [seen|].
  2: { split; [done|]. by intros (_ & _ & ? & ? & _). }
  unfold alert_of. destruct (decide (is_alert r)) as [Ha | Ha].
  - rewrite (bool_decide_eq_false_2 (is_flow r)) by (unfold is_alert, is_flow in *; congruence). destruct (er_Alert r) as [a|]; cbn [mbind option_bind].
    2: { split; [done|]. by intros (_ & _ & ? & ? & ? & ? & _). }
    destruct (Z.leb_spec maxEVEAlerts (Z.of_nat (length (rg_alerts g)))).
    { split; [done|]. intros (_ & _ & ? & ? & ? & ? & ? & _). lia. }
    destruct (normalizeAlert Parse r a) as [b|]; [|split; [done | by intros (_ & _ & ? & ? & ? & ? & _)]].
    split; [intros [= <-]; split_and!; [done | done |]; by eexists; split; [|eexists; split_and!] | intros (_ & _ & ? & [= <-] & ? & [= <-] & _ & ->); done].
  - assert (Hfl : is_flow r) by (by destruct Hrel). rewrite (bool_decide_eq_true_2 (is_flow r)) by done. destruct (er_Flow r) as [state|].
    + split; [intros [= <-]; split_and!; [done | done |]; by eexists; split; [|eexists; split] | intros (_ & _ & ? & [= <-] & ? & [= <-] & ->); done].
    + split; [done|]. by intros (_ & _ & ? & ? & ? & ? & _).
Qed.

Lemma normalize_line_decoded count line g g' : normalize_line Parse job count line g = Ok g' -> exists r, decoded line r.
Proof.
  unfold normalize_line. destruct (_ || _) eqn:E; [done|]. rewrite orb_false_iff, negb_false_iff in E. destruct (Unmarshal line) as [r|] eqn:Er; [|done].
  case_bool_decide as Hk; [done|]. intros _. exists r. by destruct E.
Qed.

(** What a record contributes to the end of the flow. *)
Lemma closes_flow r state : is_flow r -> er_Flow r = Some state -> closes r <-> EqualFold state "closed" = true.
Proof. intros Hf Es. split; [intros (_ & st & E & Hc); congruence | intros Hc; split; eauto]. Qed.

Definition loop_spec (count : Z) (lines : list (list Z)) (g : reading) (t : bool) (alerts : list RequestAlert) : Prop :=
  exists records new, Forall2 decoded lines records /\ (lines = [] \/ count + Z.of_nat (length lines) <= maxEVERecords) /\
    answer_about records new /\ one_flow (rg_flowID g) records /\ alerts = rg_alerts g ++ new /\
    (new = [] \/ Z.of_nat (length alerts) <= maxEVEAlerts) /\ (t = true <-> rg_terminal g = true \/ Exists closes records).

Lemma loop_spec_nil count g t alerts : loop_spec count [] g t alerts <-> t = rg_terminal g /\ alerts = rg_alerts g.
Proof.
  split.
  - intros (records & new & ->%Forall2_nil_inv_l & _ & [_ _ Ha] & _ & -> & _ & Ht). injection Ha as <-. rewrite app_nil_r. split; [|done].
    rewrite Exists_nil in Ht. destruct t, (rg_terminal g); naive_solver.
  - intros [-> ->]. exists [], []. rewrite app_nil_r, Exists_nil. split_and!; [constructor | by left | by split | | done | by left | tauto].
    destruct (rg_flowID g) as [v|]; [exists v | exists 0]; split; try done; congruence.
Qed.

Lemma alert_not_closes r : is_alert r -> ~ closes r.
Proof. unfold closes, is_alert, is_flow. intros H [H' _]. congruence. Qed.

(** Reading one line leaves the same task for the rest. *)
Lemma loop_spec_cons count line lines g t alerts :
  loop_spec count (line :: lines) g t alerts <-> exists g', normalize_line Parse job count line g = Ok g' /\ loop_spec (count + 1) lines g' t alerts.
Proof.
  split.
  - intros (records & new & Hd & [? | Hc] & Ha & Hone & -> & Hn & Ht); [done|]. apply Forall2_cons_inv_l in Hd as (r & records' & Hr & Hd & ->). cbn [length] in Hc.
    apply answer_cons in Ha as (Hab & Hst & Ha). rewrite Exists_cons in Ht.
    assert (Hcount : lines = [] \/ count + 1 + Z.of_nat (length lines) <= maxEVERecords) by (right; lia).
    destruct (decide (is_alert r \/ is_flow r)) as [Hrel | Hrel] eqn:Erel.
    + apply flow_id_step_iff in Hone as (seen & Hseen & Hone); [|done]. destruct (decide (is_alert r)) as [Hal | Hal] eqn:Eal.
      * destruct Ha as (a & rest & Ea & -> & Ha). destruct Hn as [? | Hn]; [done|]. rewrite length_app in Hn. cbn [length] in Hn.
        eexists. split; [apply (normalize_line_iff _ _ _ _ _ Hr); rewrite Erel, Eal; split_and!; [lia | auto |]; exists seen; split; [done|]; exists a; split_and!; [done | lia | done]|].
        exists records', rest. cbn [rg_flowID rg_alerts rg_terminal]. rewrite <- app_assoc. split_and!; try done; [right; rewrite !length_app; cbn [length]; lia|].
        pose proof (alert_not_closes r Hal). tauto.
      * assert (Hfl : is_flow r) by (by destruct Hrel). destruct (Hst Hfl) as [state Es].
        eexists. split; [apply (normalize_line_iff _ _ _ _ _ Hr); rewrite Erel, Eal; split_and!; [lia | auto |]; exists seen; split; [done|]; exists state; split; done|].
        exists records', new. cbn [rg_flowID rg_alerts rg_terminal]. split_and!; try done.
        rewrite Ht, (closes_flow r state) by done. destruct (EqualFold state "closed"); naive_solver.
    + apply one_flow_other in Hone; [|done]. rewrite decide_False in Ha by naive_solver.
      exists g. split; [apply (normalize_line_iff _ _ _ _ _ Hr); rewrite Erel; split; [lia | done]|]. exists records', new. split_and!; try done. pose proof (fun H : closes r => Hrel (or_intror (proj1 H))). naive_solver.
  - intros (g' & Hline & records & new & Hd & Hc & Ha & Hone & -> & Hn & Ht). destruct (normalize_line_decoded _ _ _ _ Hline) as [r Hr].
    apply (normalize_line_iff _ _ _ _ _ Hr) in Hline as [Hlt Hline].
    assert (Hcount : line :: lines = [] \/ count + Z.of_nat (length (line :: lines)) <= maxEVERecords) by (right; cbn [length]; destruct Hc as [-> | Hc]; [cbn; lia | lia]).
    destruct (decide (is_alert r \/ is_flow r)) as [Hrel | Hrel].
    + destruct Hline as (Hab & seen & Hseen & Hline). destruct (decide (is_alert r)) as [Hal | Hal] eqn:Eal.
      * destruct Hline as (a & Ea & Hlim & ->). cbn [rg_flowID rg_alerts rg_terminal] in *. exists (r :: records), (a :: new).
        split_and!; try done; [by constructor | | apply flow_id_step_iff; eauto | by rewrite <- app_assoc | | ].
        -- apply answer_cons. split_and!; [done | unfold is_alert, is_flow in *; congruence|]. rewrite Eal. by exists a, new.
        -- right. destruct Hn as [-> | Hn]; [rewrite !length_app in *; cbn [length] in *; lia | done].
        -- rewrite Exists_cons. pose proof (alert_not_closes r Hal). tauto.
      * destruct Hline as (state & Es & ->). cbn [rg_flowID rg_alerts rg_terminal] in *. assert (Hfl : is_flow r) by (by destruct Hrel). exists (r :: records), new.
        split_and!; try done; [by constructor | | apply flow_id_step_iff; eauto |].
        -- apply answer_cons. rewrite Eal. by split_and!.
        -- rewrite Exists_cons, (closes_flow r state), Ht by done. destruct (EqualFold state "closed"); naive_solver.
    + subst g'. exists (r :: records), new. split_and!; try done; [by constructor | | by apply one_flow_other |].
      * apply answer_cons. rewrite decide_False by naive_solver. split_and!; [done | naive_solver | done].
      * rewrite Exists_cons, Ht. pose proof (fun H : closes r => Hrel (or_intror (proj1 H))). naive_solver.
Qed.
End answers.

Lemma normalize_lines_iff {JR : JSON eveRecord} Parse job count lines g t alerts :
  (exists seen, normalize_lines Parse job count lines g = Ok (mkReading t alerts seen)) <-> loop_spec Parse job count lines g t alerts.
Proof.
  revert count g. induction lines as [| line lines IH]; intros count g; cbn [normalize_lines].
  - rewrite loop_spec_nil. destruct g as [t0 a0 s0]. cbn. split; [by intros (s & [= -> -> ->]) | intros [-> ->]; by exists s0].
  - rewrite loop_spec_cons. split.
    + intros (seen & H). destruct (normalize_line _ _ _ _ _) as [g'|]; [|done]. exists g'. split; [done|]. apply IH. by exists seen.
    + intros (g' & Eg & H). apply IH in H as [seen H]. exists seen. by rewrite Eg.
Qed.

Lemma NormalizeEVE_spec {JR : JSON eveRecord} Parse job rulesetID rulesetHash alerts :
  let r := NormalizeEVE Parse job rulesetID rulesetHash in
  (ri_Completed r = true /\ ri_Alerts r = alerts <-> complete_answer Parse job alerts) /\
  ri_Coverage r = (if ri_Completed r then CoverageComplete else RequestCoverageUnavailable) /\
  (ri_Completed r = true \/ ri_Alerts r = []) /\ ri_RequestID r = rs_RequestID job.
Proof.
  cbv zeta. unfold NormalizeEVE. destruct (malformed_job job) eqn:Ej.
  { split; [|by split_and!; [| right |]]. split; [by intros [? _] | intros [Hj _ _]; congruence]. }
  destruct (scan_lines [] (rs_EVE job)) as [lines long] eqn:El.
  pose proof (normalize_lines_iff Parse job 0 lines (mkReading false [] None) true alerts) as Hiff.
  assert (Hco : complete_answer Parse job alerts <-> long = false /\ loop_spec Parse job 0 lines (mkReading false [] None) true alerts).
  { split.
    - intros [_ (lines' & records & Es & Hc & Hd & Ha & Ho & Hx) Hal]. rewrite El in Es. injection Es as <- ->. split; [done|].
      exists records, alerts. split_and!; try done; [right; lia | by right |]. split; [by right | done].
    - intros [-> (records & new & Hd & Hc & Ha & Ho & -> & Hn & Ht)]. split; [done | | destruct Hn as [-> | Hn]; [done | done]].
      exists lines, records. destruct Ht as [Ht _]. destruct (Ht eq_refl) as [? | Hx]; [done|]. split_and!; try done. by destruct Hc as [-> | Hc]; [|lia]. }
  rewrite Hco, <- Hiff. destruct (normalize_lines _ _ _ _ _) as [[t a s]|code].
  2: { split; [|by split_and!; [| right |]]. split; [by intros [? _] | by intros (_ & ? & ?)]. }
  destruct long; [split; [|by split_and!; [| right |]]; split; [by intros [? _] | by intros (? & _)]|]. cbn [rg_terminal rg_alerts].
  destruct t; cbn [negb]; [|split; [|by split_and!; [| right |]]; split; [by intros [? _] | by intros (_ & ? & [=])]].
  split; [|by split_and!; [| left |]]. cbn. split; [intros [_ ->]; split; [done | by exists s] | intros (_ & ? & [= -> ->]); done].
Qed.

Lemma completed_answer {JR : JSON eveRecord} Parse job rulesetID rulesetHash : ri_Completed (NormalizeEVE Parse job rulesetID rulesetHash) = true ->
  complete_answer Parse job (ri_Alerts (NormalizeEVE Parse job rulesetID rulesetHash)).
Proof. intros H. by apply (NormalizeEVE_spec Parse job rulesetID rulesetHash). Qed.

(** ** Claims *)

(** C25. A result counts as complete exactly when every line of the output is a
    record, all alert and flow records are about this job's flow and capture and
    name one flow, the flow was closed, and every alert could be normalised; it
    then carries all the alerts, in order.  Any other answer is unavailable and
    carries none: missing, truncated, foreign or oversized evidence never looks
    like a clean inspection. *)
Theorem NormalizeEVE_complete_iff {JR : JSON eveRecord} Parse job rulesetID rulesetHash alerts :
  let r := NormalizeEVE Parse job rulesetID rulesetHash in
  (ri_Completed r = true /\ ri_Alerts r = alerts <-> complete_answer Parse job alerts) /\
  ri_Coverage r = (if ri_Completed r then CoverageComplete else RequestCoverageUnavailable) /\
  (ri_Completed r = true \/ ri_Alerts r = []) /\ ri_RequestID r = rs_RequestID job.
Proof. apply NormalizeEVE_spec. Qed.

(** An alert or flow record matches the flow of one job only. *)
Lemma matching_unique r f f' : 0 <= f < 2 ^ 32 -> 0 <= f' < 2 ^ 32 ->
  matchingTuple r (SyntheticTuple f) = true -> matchingTuple r (SyntheticTuple f') = true -> f = f'.
Proof.
  intros Hf Hf'. unfold matchingTuple. destruct (negb _); [done|]. destruct (ParseAddr (er_SrcIP r)) as [source|], (ParseAddr (er_DestIP r)) as [destination|]; try done.
  pose proof (client_port f). pose proof (client_port f').
  assert (Hinj : ft_ClientIP (SyntheticTuple f) = ft_ClientIP (SyntheticTuple f') -> ft_ClientPort (SyntheticTuple f) = ft_ClientPort (SyntheticTuple f') -> f = f').
  { intros Ei Ep. apply synthetic_inj; [done | done |]. unfold SyntheticTuple in *. cbn [ft_ClientIP ft_ClientPort] in Ei, Ep. by rewrite Ei, Ep. }
  change (ft_ServerPort (SyntheticTuple f)) with 80. change (ft_ServerPort (SyntheticTuple f')) with 80.
  rewrite !orb_true_iff, !andb_true_iff, !bool_decide_eq_true, !Z.eqb_eq.
  intros [(((E1 & E2) & E3) & E4) | (((E1 & E2) & E3) & E4)] [(((F1 & F2) & F3) & F4) | (((F1 & F2) & F3) & F4)]; first [apply Hinj; congruence | lia].
Qed.

(** A record about the flow of another job, current or past, never becomes
    part of a complete inspection: the flow identifiers of two jobs differ, so
    their packets differ in address or port. *)
Theorem foreign_record_rejected {JR : JSON eveRecord} Parse job rulesetID rulesetHash lines long line r other :
  0 <= rs_FlowID job < 2 ^ 32 -> 0 <= other < 2 ^ 32 -> other <> rs_FlowID job ->
  scan_lines [] (rs_EVE job) = (lines, long) -> line ∈ lines -> Unmarshal line = Some r -> is_alert r \/ is_flow r ->
  matchingTuple r (SyntheticTuple other) = true ->
  ri_Completed (NormalizeEVE Parse job rulesetID rulesetHash) = false.
Proof.
  intros Hf Hf' Hne Hscan Hline Hr Hkind Hm. destruct (ri_Completed _) eqn:Ec; [|done]. exfalso.
  destruct (completed_answer Parse job rulesetID rulesetHash Ec) as [_ (lines' & records & Es & _ & Hd & [Hab _ _] & _) _].
  rewrite Hscan in Es. injection Es as -> ->. apply list_elem_of_lookup in Hline as [i Hi].
  destruct (Forall2_lookup_l _ _ _ _ _ Hd Hi) as (r' & Hi' & _ & Hr' & _). rewrite Hr in Hr'. injection Hr' as <-.
  destruct (Forall_lookup_1 _ _ _ _ Hab Hi' Hkind) as [_ Hmine]. apply Hne. by apply (matching_unique r).
Qed.

Definition foreign_sample : eveRecord := mkEveRecord "" "flow" "" [] "198.18.0.0" "192.168.0.10" 1032 80 "TCP" None (Some "closed").
Definition sample_codec : JSON eveRecord := {| Marshal _ := None; Unmarshal line := if bool_decide (line = [65]) then Some foreign_sample else None |}.
Definition sample_job : Result := mkResult "r1" 0 7 "/run/job-1/request.pcap" [65; 10] Second.

Lemma foreign_record_rejected_witness : ri_Completed (NormalizeEVE (JR := sample_codec) (fun _ _ => None) sample_job "rules" "hash") = false.
Proof.
  apply (foreign_record_rejected (JR := sample_codec) (fun _ _ => None) sample_job "rules" "hash" [[65]] false [65] foreign_sample 8); try (vm_compute; done).
  - by left.
  - by right.
Defined.
