(* ===== verification/RequestWorker.v ===== *)
(** * The pool of inspection workers

    internal/inspection/requestworker/pool.go.  Callers of [Inspect], the worker
    goroutines and [Close] are state machines over the pool's shared fields; one
    event is one atomic section: a channel operation, a section under [mu], an
    access to an atomic variable, or an outcome that the environment decides.
    The detector's sessions, the file system and the end of a call's context are
    that environment. *)

From S2P Require Import Prelude GoStr Bytes Netip Domain Codec Observation Eve RequestPcap RequestEve.

(** ** Configuration *)

Record Config : Type := mkConfig {
  pc_RootDir : string;
  pc_WorkerCount : Z;
  pc_QueueItems : Z;
  pc_QueueBytes : Z;
  pc_RequestTimeout : Duration
}.

Definition config_invalid (c : Config) : bool :=
  (pc_WorkerCount c <? 1) || (4 <? pc_WorkerCount c) || (pc_QueueItems c <? 1) || (1024 <? pc_QueueItems c)
  || (pc_QueueBytes c <? Z.shiftl 64 10) || (Z.shiftl 32 20 <? pc_QueueBytes c)
  || (pc_RequestTimeout c <? 100 * Millisecond) || (30 * Second <? pc_RequestTimeout c) || negb (HasPrefix (pc_RootDir c) "/").

Inductive PoolError : Type :=
| ErrInvalidConfig | ErrQueueFull | ErrUnavailable | ErrFlowIDLimit
| ErrContext            (** the error of a context that has ended *)
| ErrFiles              (** the error of a file operation *)
| ErrBuild (e : PcapError).

Definition outcome : Type := result PoolError Result.

(** ** State *)

(** A job knows the call it belongs to: its context and its result channel. *)
Record job : Type := mkJob {
  jb_caller : nat;
  jb_requestID : string;
  jb_flowID : Z;
  jb_pcap : list Z
}.

(** The fields of [Pool] that goroutines share; [slots] and [builders] are the
    numbers of tokens in the two semaphore channels. *)
Record shared : Type := mkShared {
  sh_jobs : list job;
  sh_slots : Z;
  sh_builders : Z;
  sh_flowID : Z;
  sh_failed : bool;
  sh_cancelled : bool;
  sh_closed : bool;
  sh_inFlight : Z;
  sh_bytes : Z
}.

#[global] Instance eta_shared : Eta shared := fun s =>
  mkShared (sh_jobs s) (sh_slots s) (sh_builders s) (sh_flowID s) (sh_failed s) (sh_cancelled s) (sh_closed s) (sh_inFlight s) (sh_bytes s).

(** Where a call of [Inspect] stands. *)
Inductive caller_pc : Type :=
| CEnter                                  (** before the checks of the arguments *)
| CClosed                                 (** about to read [closed] *)
| CCancelled (closed : bool)              (** about to look at the pool's context *)
| CFailed                                 (** about to read [failed] *)
| CSlot                                   (** about to take a slot *)
| CBuilder                                (** holds a slot *)
| CLoad                                   (** holds a slot and a builder *)
| CSwap (previous : Z)                    (** about to compare and swap [flowID] *)
| CBuild                                  (** has its flow identifier *)
| CSubmit (pcap : list Z)                 (** about to enter the section that queues the job *)
| CUnslot (e : PoolError) (builder : bool) (** about to give the slot back *)
| CUnbuild (e : PoolError)                (** about to give the builder back *)
| CQueued                                 (** the job is queued; still holds the builder *)
| CWait
| CDone (o : outcome).

Record caller : Type := mkCaller {
  cl_requestID : string;
  cl_request : GateHTTPRequest;
  cl_flowID : Z;                (** 0 until allocated *)
  cl_expired : bool;            (** the call's context has ended *)
  cl_result : option outcome;   (** the job's result channel, of capacity 1 *)
  cl_pc : caller_pc
}.

Inductive worker_pc : Type :=
| WIdle
| WTaken (j : job)
| WRun (j : job)                          (** in [run], before the second look at the context *)
| WReady (j : job)                        (** about to read [failed] *)
| WSession (j : job)                      (** files and session *)
| WFinish (j : job) (o : outcome)         (** about to take back the counters *)
| WRelease (j : job) (o : outcome)        (** about to give back the slot *)
| WPost (j : job) (o : outcome)           (** about to send the result *)
| WStopped.

Inductive closer_pc : Type :=
| KIdle | KCancel | KSessions | KWait | KDrain | KFinish (j : job) | KRelease (j : job) | KPost (j : job) | KDone.

Record pool : Type := mkPool {
  po_config : Config;
  po_shared : shared;
  po_callers : list caller;
  po_workers : list worker_pc;
  po_closer : closer_pc
}.

(** ** Starting *)

(** The factory's answers, one per worker: all sessions, or the error and the
    sessions that were started and have to be closed. *)
Fixpoint start_sessions {S : Type} (answers : list (result PoolError (option S))) (started : list S) : result (PoolError * list S) (list S) :=
  match answers with
  | [] => Ok started
  | Ok (Some s) :: rest => start_sessions rest (started ++ [s])
  | Ok None :: _ => Err (ErrUnavailable, started)
  | Err e :: _ => Err (e, started)
  end.

(** [ended]: the parent context; [made] and [private]: [os.MkdirAll] and
    [os.Stat] of the root directory. *)
Definition New {S : Type} (config : Config) (ended made private : bool) (answers : list (result PoolError (option S))) : result PoolError (list S * pool) :=
  if config_invalid config then Err ErrInvalidConfig
  else if ended then Err ErrContext
  else if negb made then Err ErrFiles
  else if negb private then Err ErrInvalidConfig
  else match start_sessions (take (Z.to_nat (pc_WorkerCount config)) answers) [] with
  | Err (e, _) => Err e
  | Ok sessions => Ok (sessions, mkPool config (mkShared [] 0 0 0 false false false 0 0) [] (replicate (length sessions) WIdle) KIdle)
  end.

(** ** [Inspect] *)

Definition caller_at (pc : caller_pc) (c : caller) : caller := mkCaller (cl_requestID c) (cl_request c) (cl_flowID c) (cl_expired c) (cl_result c) pc.

(** The section that queues the job. *)
Definition submit (config : Config) (i : nat) (c : caller) (pcap : list Z) (s : shared) : shared * caller_pc :=
  if sh_closed s || sh_cancelled s then (s, CUnslot ErrUnavailable true)
  else if cl_expired c then (s, CUnslot ErrContext true)
  else if pc_QueueBytes config <? sh_bytes s + blen pcap then (s, CUnslot ErrQueueFull true)
  else if Z.of_nat (length (sh_jobs s)) <? pc_QueueItems config then
    (s <| sh_jobs := sh_jobs s ++ [mkJob i (cl_requestID c) (cl_flowID c) pcap] |> <| sh_bytes := sh_bytes s + blen pcap |> <| sh_inFlight := sh_inFlight s + 1 |>, CQueued)
  else (s, CUnslot ErrQueueFull true).

(** One step of call [i] up to the final [select]; [None] when it has to wait. *)
Definition Inspect_step (config : Config) (i : nat) (s : shared) (c : caller) : option (shared * caller) :=
  match cl_pc c with
  | CEnter =>
      if bool_decide (cl_requestID c = "") then Some (s, caller_at (CDone (Err ErrInvalidConfig)) c)
      else if cl_expired c then Some (s, caller_at (CDone (Err ErrContext)) c)
      else Some (s, caller_at CClosed c)
  | CClosed => Some (s, caller_at (CCancelled (sh_closed s)) c)
  | CCancelled closed => Some (s, caller_at (if closed || sh_cancelled s then CDone (Err ErrUnavailable) else CFailed) c)
  | CFailed => Some (s, caller_at (if sh_failed s then CDone (Err ErrUnavailable) else CSlot) c)
  | CSlot =>
      if sh_slots s <? pc_QueueItems config + pc_WorkerCount config then Some (s <| sh_slots := sh_slots s + 1 |>, caller_at CBuilder c)
      else Some (s, caller_at (CDone (Err ErrQueueFull)) c)
  | CBuilder =>
      if sh_builders s <? pc_WorkerCount config then Some (s <| sh_builders := sh_builders s + 1 |>, caller_at CLoad c)
      else Some (s, caller_at (CUnslot ErrQueueFull false) c)
  | CLoad => Some (s, caller_at (if sh_flowID s =? 2 ^ 32 - 1 then CUnslot ErrFlowIDLimit true else CSwap (sh_flowID s)) c)
  | CSwap previous =>
      if sh_flowID s =? previous then
        Some (s <| sh_flowID := u32 (previous + 1) |>, mkCaller (cl_requestID c) (cl_request c) (u32 (previous + 1)) (cl_expired c) (cl_result c) CBuild)
      else Some (s, caller_at CLoad c)
  | CBuild =>
      Some (s, caller_at (match Build (cl_request c) (cl_flowID c) with Ok pcap => CSubmit pcap | Err e => CUnslot (ErrBuild e) true end) c)
  | CSubmit pcap => let '(s, pc) := submit config i c pcap s in Some (s, caller_at pc c)
  | CUnslot e builder =>
      if 0 <? sh_slots s then Some (s <| sh_slots := sh_slots s - 1 |>, caller_at (if builder then CUnbuild e else CDone (Err e)) c) else None
  | CUnbuild e => if 0 <? sh_builders s then Some (s <| sh_builders := sh_builders s - 1 |>, caller_at (CDone (Err e)) c) else None
  | CQueued => if 0 <? sh_builders s then Some (s <| sh_builders := sh_builders s - 1 |>, caller_at CWait c) else None
  | CWait | CDone _ => None
  end.

(** The three cases of the final [select]. *)
Inductive select_case : Type := OnResult | OnContext | OnPool.

Definition Inspect_select (k : select_case) (s : shared) (c : caller) : option caller :=
  match cl_pc c, k with
  | CWait, OnResult =>
      match cl_result c with
      | Some o => Some (mkCaller (cl_requestID c) (cl_request c) (cl_flowID c) (cl_expired c) None (CDone (if cl_expired c then Err ErrContext else o)))
      | None => None
      end
  | CWait, OnContext => if cl_expired c then Some (caller_at (CDone (Err ErrContext)) c) else None
  | CWait, OnPool => if sh_cancelled s then Some (caller_at (CDone (Err ErrUnavailable)) c) else None
  | _, _ => None
  end.

(** ** Workers *)

(** What the files and the session answer to a job. *)
Inductive session_answer : Type :=
| FilesFail                                                   (** a directory or the capture could not be written *)
| RunFails                                                    (** [session.Run] returned an error, a cancelled context included *)
| RunReturns (path : string) (eve : list Z) (took : Duration).

(** The end of [run]: the outcome and [failed]. *)
Definition run_answer (j : job) (workerID : Z) (a : session_answer) (failed : bool) : outcome * bool :=
  match a with
  | FilesFail => (Err ErrUnavailable, failed)
  | RunFails => (Err ErrUnavailable, true)
  | RunReturns path eve took =>
      if bool_decide (eve = []) || (Z.shiftl 1 20 <? blen eve) then (Err ErrUnavailable, failed)
      else (Ok (mkResult (jb_requestID j) workerID (jb_flowID j) path eve took), failed)
  end.

(** The counters of [finish]. *)
Definition finish_counters (j : job) (s : shared) : shared := s <| sh_inFlight := sh_inFlight s - 1 |> <| sh_bytes := sh_bytes s - blen (jb_pcap j) |>.

Definition expired (callers : list caller) (j : job) : bool := match callers !! jb_caller j with Some c => cl_expired c | None => false end.

(** One step of worker [w]; [a] is what the session answers if it is asked. *)
Definition worker_step (w : Z) (callers : list caller) (a : session_answer) (s : shared) (pc : worker_pc) : option (shared * worker_pc) :=
  match pc with
  | WIdle => match sh_jobs s with [] => None | j :: rest => Some (s <| sh_jobs := rest |>, WTaken j) end
  | WTaken j => Some (s, if expired callers j then WFinish j (Err ErrContext) else WRun j)
  | WRun j => Some (s, if expired callers j then WFinish j (Err ErrContext) else WReady j)
  | WReady j => Some (s, if sh_failed s then WFinish j (Err ErrUnavailable) else WSession j)
  | WSession j => let '(o, failed) := run_answer j w a (sh_failed s) in Some (s <| sh_failed := failed |>, WFinish j o)
  | WFinish j o => Some (finish_counters j s, WRelease j o)
  | WRelease j o => if 0 <? sh_slots s then Some (s <| sh_slots := sh_slots s - 1 |>, WPost j o) else None
  | WPost _ _ | WStopped => None
  end.

(** [work.result <- outcome]: waits while the channel is full. *)
Definition post (j : job) (o : outcome) (callers : list caller) : option (list caller) :=
  c ← callers !! jb_caller j;
  match cl_result c with
  | None => Some (<[jb_caller j := mkCaller (cl_requestID c) (cl_request c) (cl_flowID c) (cl_expired c) (Some o) (cl_pc c)]> callers)
  | Some _ => None
  end.

(** ** [Close] *)

Definition is_stopped (w : worker_pc) : bool := match w with WStopped => true | _ => false end.

Definition Close_step (workers : list worker_pc) (s : shared) (k : closer_pc) : option (shared * closer_pc) :=
  match k with
  | KIdle => if sh_closed s then None else Some (s <| sh_closed := true |>, KCancel)
  | KCancel => Some (s <| sh_cancelled := true |>, KSessions)
  | KSessions => Some (s, KWait)
  | KWait => if forallb is_stopped workers then Some (s, KDrain) else None
  | KDrain => match sh_jobs s with [] => Some (s, KDone) | j :: rest => Some (s <| sh_jobs := rest |>, KFinish j) end
  | KFinish j => Some (finish_counters j s, KRelease j)
  | KRelease j => if 0 <? sh_slots s then Some (s <| sh_slots := sh_slots s - 1 |>, KPost j) else None
  | KPost _ | KDone => None
  end.

(** ** [Stats] *)

Record Stats : Type := mkStats { st_QueuedItems : Z; st_InFlightItems : Z; st_QueuedBytes : Z; st_Workers : Z; st_WorkersReady : Z }.

(** [ready] is what the sessions' [Ready] methods answer. *)
Definition pool_Stats (ready : list bool) (p : pool) : Stats :=
  let s := po_shared p in
  mkStats (Z.of_nat (length (sh_jobs s))) (sh_inFlight s) (sh_bytes s) (Z.of_nat (length (po_workers p)))
    (if negb (sh_closed s) && negb (sh_cancelled s) && negb (sh_failed s) then Z.of_nat (length (List.filter id ready)) else 0).

(** ** The system *)

Inductive event : Type :=
| Arrive (requestID : string) (request : GateHTTPRequest)
| Expire (i : nat)                     (** the context of call [i] ends *)
| Parent                               (** the context the pool was started with ends *)
| Call (i : nat)
| Select (i : nat) (k : select_case)
| Work (w : nat) (a : session_answer)
| Stop (w : nat)                       (** an idle worker sees the pool's context *)
| Post (w : nat)
| Closing
| ClosePost.

Definition step (e : event) (p : pool) : option pool :=
  let s := po_shared p in
  match e with
  | Arrive id r => Some (mkPool (po_config p) s (po_callers p ++ [mkCaller id r 0 false None CEnter]) (po_workers p) (po_closer p))
  | Expire i =>
      c ← po_callers p !! i;
      Some (mkPool (po_config p) s (<[i := mkCaller (cl_requestID c) (cl_request c) (cl_flowID c) true (cl_result c) (cl_pc c)]> (po_callers p)) (po_workers p) (po_closer p))
  | Parent => Some (mkPool (po_config p) (s <| sh_cancelled := true |>) (po_callers p) (po_workers p) (po_closer p))
  | Call i =>
      c ← po_callers p !! i;
      '(s, c) ← Inspect_step (po_config p) i s c;
      Some (mkPool (po_config p) s (<[i := c]> (po_callers p)) (po_workers p) (po_closer p))
  | Select i k =>
      c ← po_callers p !! i;
      c ← Inspect_select k s c;
      Some (mkPool (po_config p) s (<[i := c]> (po_callers p)) (po_workers p) (po_closer p))
  | Work w a =>
      pc ← po_workers p !! w;
      '(s, pc) ← worker_step (Z.of_nat w) (po_callers p) a s pc;
      Some (mkPool (po_config p) s (po_callers p) (<[w := pc]> (po_workers p)) (po_closer p))
  | Stop w =>
      pc ← po_workers p !! w;
      match pc with
      | WIdle => if sh_cancelled s then Some (mkPool (po_config p) s (po_callers p) (<[w := WStopped]> (po_workers p)) (po_closer p)) else None
      | _ => None
      end
  | Post w =>
      pc ← po_workers p !! w;
      match pc with
      | WPost j o => callers ← post j o (po_callers p); Some (mkPool (po_config p) s callers (<[w := WIdle]> (po_workers p)) (po_closer p))
      | _ => None
      end
  | Closing =>
      '(s, k) ← Close_step (po_workers p) s (po_closer p);
      Some (mkPool (po_config p) s (po_callers p) (po_workers p) k)
  | ClosePost =>
      match po_closer p with
      | KPost j => callers ← post j (Err ErrUnavailable) (po_callers p); Some (mkPool (po_config p) s callers (po_workers p) KDrain)
      | _ => None
      end
  end.

Fixpoint steps (es : list event) (p : pool) : option pool :=
  match es with
  | [] => Some p
  | e :: es => p ← step e p; steps es p
  end.

(** ** An example: one request inspected, then the pool is closed *)

Definition sample_config : Config := mkConfig "/run/gate" 1 1 (Z.shiftl 64 10) Second.
Definition sample_pool : pool := mkPool sample_config (mkShared [] 0 0 0 false false false 0 0) [] [WIdle] KIdle.
Definition sample_answer : session_answer := RunReturns "/run/gate/job-1/request.pcap" [123; 125; 10] 5.
Definition sample_run : list event :=
  [Arrive "r1" sample_request] ++ replicate 11 (Call 0) ++ replicate 7 (Work 0 sample_answer) ++ [Post 0; Select 0 OnResult; Closing; Closing; Closing; Stop 0; Closing; Closing].

Example sample_run_ends : (fun p => (cl_pc <$> po_callers p, sh_slots (po_shared p), sh_bytes (po_shared p), po_closer p)) <$> steps sample_run sample_pool =
  Some ([CDone (Ok (mkResult "r1" 0 1 "/run/gate/job-1/request.pcap" [123; 125; 10] 5))], 0, 0, KDone).
Proof. vm_compute. reflexivity. Qed.
