(* ===== verification/RequestWorkerProps.v ===== *)
(** * The pool never leaks and never mixes up requests

    Invariants of the worker pool (internal/inspection/requestworker/pool.go)
    over every interleaving of callers, workers and [Close]. *)

From S2P Require Import Prelude GoStr Bytes Netip Domain Codec Observation Eve RequestPcap RequestEve RequestWorker.

(** ** Sums over threads *)

Section sums.
Context {A : Type} (f : A -> Z).

Definition total (l : list A) : Z := foldr (fun x n => f x + n) 0 l.

Lemma total_of_app l l' : total (l ++ l') = total l + total l'.
Proof. unfold total. induction l as [| x l IH]; cbn; [done|]. rewrite IH. lia. Qed.

Lemma total_of_insert l i x y : l !! i = Some x -> total (<[i := y]> l) = total l - f x + f y.
Proof.
  revert i. unfold total. induction l as [| z l IH]; intros [| i] H; [done | done | injection H as ->; cbn; lia |].
  change (<[S i := y]> (z :: l)) with (z :: <[i := y]> l). cbn [foldr]. rewrite (IH i H). lia.
Qed.

Lemma total_nonneg l : (forall x, 0 <= f x) -> 0 <= total l.
Proof. intros H. unfold total. induction l as [| x l IH]; cbn; [lia|]. specialize (H x). lia. Qed.

Lemma total_at l i x : (forall x, 0 <= f x) -> l !! i = Some x -> f x <= total l.
Proof.
  intros H. revert i. unfold total. induction l as [| z l IH]; intros [| i] Hi; cbn in *; [done | done | |]; pose proof (total_nonneg l H) as Hl; unfold total in Hl.
  - injection Hi as ->. lia.
  - specialize (IH i Hi). specialize (H z). lia.
Qed.
End sums.

(** ** What a thread holds *)

Definition caller_slots (c : caller) : Z :=
  match cl_pc c with CBuilder | CLoad | CSwap _ | CBuild | CSubmit _ | CUnslot _ _ => 1 | _ => 0 end.
Definition caller_builders (c : caller) : Z :=
  match cl_pc c with CLoad | CSwap _ | CBuild | CSubmit _ | CUnslot _ true | CUnbuild _ | CQueued => 1 | _ => 0 end.

Definition worker_slots (w : worker_pc) : Z :=
  match w with WTaken _ | WRun _ | WReady _ | WSession _ | WFinish _ _ | WRelease _ _ => 1 | _ => 0 end.
Definition worker_jobs (w : worker_pc) : Z :=
  match w with WTaken _ | WRun _ | WReady _ | WSession _ | WFinish _ _ => 1 | _ => 0 end.
Definition worker_bytes (w : worker_pc) : Z :=
  match w with WTaken j | WRun j | WReady j | WSession j | WFinish j _ => blen (jb_pcap j) | _ => 0 end.

Definition closer_slots (k : closer_pc) : Z := match k with KFinish _ | KRelease _ => 1 | _ => 0 end.
Definition closer_jobs (k : closer_pc) : Z := match k with KFinish _ => 1 | _ => 0 end.
Definition closer_bytes (k : closer_pc) : Z := match k with KFinish j => blen (jb_pcap j) | _ => 0 end.

Definition job_bytes (j : job) : Z := blen (jb_pcap j).
Definition queued (s : shared) : Z := Z.of_nat (length (sh_jobs s)).
Definition queued_bytes (s : shared) : Z := total job_bytes (sh_jobs s).

(** ** The accounts *)

Record accounts (p : pool) : Prop := mkAccounts {
  ac_slots : sh_slots (po_shared p) = total caller_slots (po_callers p) + queued (po_shared p) + total worker_slots (po_workers p) + closer_slots (po_closer p);
  ac_builders : sh_builders (po_shared p) = total caller_builders (po_callers p);
  ac_inFlight : sh_inFlight (po_shared p) = queued (po_shared p) + total worker_jobs (po_workers p) + closer_jobs (po_closer p);
  ac_bytes : sh_bytes (po_shared p) = queued_bytes (po_shared p) + total worker_bytes (po_workers p) + closer_bytes (po_closer p)
}.

Record limits (p : pool) : Prop := mkLimits {
  li_slots : sh_slots (po_shared p) <= pc_QueueItems (po_config p) + pc_WorkerCount (po_config p);
  li_builders : sh_builders (po_shared p) <= pc_WorkerCount (po_config p);
  li_queue : queued (po_shared p) <= pc_QueueItems (po_config p);
  li_bytes : sh_bytes (po_shared p) <= pc_QueueBytes (po_config p);
  li_flowID : 0 <= sh_flowID (po_shared p) < 2 ^ 32
}.

(** What a step of one thread may do to the shared fields, given what the thread
    held before and holds after it. *)
Record move (config : Config) (s s' : shared) (dslots dbuilders djobs dbytes : Z) : Prop := mkMove {
  mv_slots : sh_slots s' - queued s' = sh_slots s - queued s + dslots;
  mv_builders : sh_builders s' = sh_builders s + dbuilders;
  mv_inFlight : sh_inFlight s' - queued s' = sh_inFlight s - queued s + djobs;
  mv_bytes : sh_bytes s' - queued_bytes s' = sh_bytes s - queued_bytes s + dbytes;
  mv_slots_max : sh_slots s <= pc_QueueItems config + pc_WorkerCount config -> sh_slots s' <= pc_QueueItems config + pc_WorkerCount config;
  mv_builders_max : sh_builders s <= pc_WorkerCount config -> sh_builders s' <= pc_WorkerCount config;
  mv_queue_max : queued s <= pc_QueueItems config -> queued s' <= pc_QueueItems config;
  mv_bytes_max : sh_bytes s <= pc_QueueBytes config -> sh_bytes s' <= pc_QueueBytes config;
  mv_flowID : 0 <= sh_flowID s < 2 ^ 32 -> 0 <= sh_flowID s' < 2 ^ 32
}.

Lemma queued_push s j : Z.of_nat (length (sh_jobs s ++ [j])) = queued s + 1.
Proof. rewrite length_app. unfold queued. cbn. lia. Qed.

Lemma queued_bytes_push s j : total job_bytes (sh_jobs s ++ [j]) = queued_bytes s + blen (jb_pcap j).
Proof. rewrite total_of_app. unfold queued_bytes, total. cbn. unfold job_bytes. lia. Qed.

Ltac settle := split; unfold queued, queued_bytes, finish_counters, total in *; cbn in *; unfold u32, job_bytes, blen in *; try (match goal with H : sh_jobs _ = _ :: _ |- _ => rewrite ?H; cbn end); try lia; try (intros; apply Z.mod_pos_bound; lia).

Lemma submit_move config i c pcap s : let r := submit config i c pcap s in
  move config s r.1 (caller_slots (caller_at r.2 c) - 1) (caller_builders (caller_at r.2 c) - 1) 0 0.
Proof.
  cbv zeta. unfold submit. destruct (sh_closed s || sh_cancelled s); [settle|]. destruct (cl_expired c); [settle|].
  destruct (Z.ltb_spec (pc_QueueBytes config) (sh_bytes s + blen pcap)); [settle|]. destruct (Z.ltb_spec (Z.of_nat (length (sh_jobs s))) (pc_QueueItems config)); [|settle].
  set (j := mkJob i (cl_requestID c) (cl_flowID c) pcap). pose proof (queued_push s j) as Hq. pose proof (queued_bytes_push s j) as Hb.
  split; unfold queued, queued_bytes in *; cbn [fst snd field_upd] in *; cbn in Hq, Hb |- *; rewrite ?Hq, ?Hb; cbn; try lia.
  fold (total job_bytes (sh_jobs s ++ [j])). lia.
Qed.

Lemma Inspect_move config i s c s' c' : Inspect_step config i s c = Some (s', c') ->
  move config s s' (caller_slots c' - caller_slots c) (caller_builders c' - caller_builders c) 0 0.
Proof.
  unfold Inspect_step, caller_slots at 2, caller_builders at 2. destruct (cl_pc c) as [| | closed | | | | | previous | | pcap | e builder | e | | | o] eqn:Epc.
  10: { pose proof (submit_move config i c pcap s) as Hm. destruct (submit config i c pcap s) as [s1 pc]. intros [= <- <-]. exact Hm. }
  all: repeat case_match; intros; simplify_eq; try (destruct builder); settle.
Qed.

Lemma worker_move config w callers a s pc s' pc' : worker_step w callers a s pc = Some (s', pc') ->
  move config s s' (worker_slots pc' - worker_slots pc) 0 (worker_jobs pc' - worker_jobs pc) (worker_bytes pc' - worker_bytes pc).
Proof.
  unfold worker_step. destruct pc as [| j | j | j | j | j o | j o | j o |]; repeat case_match; intros; simplify_eq; settle.
Qed.

Lemma Close_move config workers s k s' k' : Close_step workers s k = Some (s', k') ->
  move config s s' (closer_slots k' - closer_slots k) 0 (closer_jobs k' - closer_jobs k) (closer_bytes k' - closer_bytes k).
Proof. unfold Close_step. destruct k; repeat case_match; intros; simplify_eq; settle. Qed.

(** ** The accounts hold *)

Lemma accounts_move p s' callers workers closer :
  accounts p -> limits p ->
  move (po_config p) (po_shared p) s'
    (total caller_slots callers + total worker_slots workers + closer_slots closer - (total caller_slots (po_callers p) + total worker_slots (po_workers p) + closer_slots (po_closer p)))
    (total caller_builders callers - total caller_builders (po_callers p))
    (total worker_jobs workers + closer_jobs closer - (total worker_jobs (po_workers p) + closer_jobs (po_closer p)))
    (total worker_bytes workers + closer_bytes closer - (total worker_bytes (po_workers p) + closer_bytes (po_closer p))) ->
  accounts (mkPool (po_config p) s' callers workers closer) /\ limits (mkPool (po_config p) s' callers workers closer).
Proof. intros [A1 A2 A3 A4] [L1 L2 L3 L4 L5] [M1 M2 M3 M4 M5 M6 M7 M8 M9]. split; split; cbn [po_config po_shared po_callers po_workers po_closer]; auto; lia. Qed.

Lemma move_refl config s : move config s s 0 0 0 0.
Proof. split; try lia; auto. Qed.

Lemma move_cancel config s : move config s (s <| sh_cancelled := true |>) 0 0 0 0.
Proof. destruct (move_refl config s). split; assumption. Qed.

(** The same move, counted differently. *)
Lemma move_eq config s s' a b c d a' b' c' d' : move config s s' a b c d -> a = a' -> b = b' -> c = c' -> d = d' -> move config s s' a' b' c' d'.
Proof. by intros ? -> -> -> ->. Qed.

(** A call that changes nothing it holds. *)
Lemma total_same {A} (f : A -> Z) l i x y : l !! i = Some x -> f y = f x -> total f (<[i := y]> l) = total f l.
Proof. intros Hi E. rewrite (total_of_insert f l i x y Hi). lia. Qed.

Lemma post_spec j o callers callers' : post j o callers = Some callers' -> exists c, callers !! jb_caller j = Some c /\ cl_result c = None /\
  callers' = <[jb_caller j := mkCaller (cl_requestID c) (cl_request c) (cl_flowID c) (cl_expired c) (Some o) (cl_pc c)]> callers.
Proof.
  unfold post. destruct (callers !! jb_caller j) as [c|]; [|done]. cbn. destruct (cl_result c) eqn:Er; [done|]. intros [= <-]. by exists c.
Qed.

Lemma post_totals j o callers callers' : post j o callers = Some callers' -> total caller_slots callers' = total caller_slots callers /\ total caller_builders callers' = total caller_builders callers.
Proof. intros (c & Hc & _ & ->)%post_spec. split; by eapply total_same. Qed.

Lemma Inspect_select_holds k s c c' : Inspect_select k s c = Some c' -> caller_slots c' = caller_slots c /\ caller_builders c' = caller_builders c.
Proof. unfold Inspect_select, caller_slots, caller_builders. destruct (cl_pc c) eqn:E; try done. destruct k; repeat case_match; intros; simplify_eq; done. Qed.

Lemma step_accounts e p p' : step e p = Some p' -> accounts p -> limits p -> accounts p' /\ limits p'.
Proof.
  intros Hs Ha Hl. destruct e as [id r | i | | i | i k | w a | w | w | |]; cbn [step] in Hs.
  - injection Hs as <-. apply accounts_move; [done | done |]. rewrite !total_of_app. eapply move_eq; [apply move_refl|..]; cbn; lia.
  - destruct (po_callers p !! i) as [c|] eqn:Ei; [|done]. injection Hs as <-. apply accounts_move; [done | done |].
    rewrite !(total_same _ _ _ _ _ Ei) by done. eapply move_eq; [apply move_refl|..]; lia.
  - injection Hs as <-. apply accounts_move; [done | done |]. eapply move_eq; [apply move_cancel|..]; lia.
  - destruct (po_callers p !! i) as [c|] eqn:Ei; [|done]. cbn in Hs. destruct (Inspect_step _ _ _ c) as [[s' c']|] eqn:Ec; [|done]. injection Hs as <-.
    apply accounts_move; [done | done |]. rewrite !(total_of_insert _ _ _ _ _ Ei). eapply move_eq; [by eapply Inspect_move|..]; lia.
  - destruct (po_callers p !! i) as [c|] eqn:Ei; [|done]. cbn in Hs. destruct (Inspect_select k _ c) as [c'|] eqn:Ec; [|done]. injection Hs as <-.
    destruct (Inspect_select_holds _ _ _ _ Ec) as [E1 E2]. apply accounts_move; [done | done |].
    rewrite !(total_same _ _ _ _ _ Ei) by done. eapply move_eq; [apply move_refl|..]; lia.
  - destruct (po_workers p !! w) as [pc|] eqn:Ew; [|done]. cbn in Hs. destruct (worker_step _ _ _ _ pc) as [[s' pc']|] eqn:Ep; [|done]. injection Hs as <-.
    apply accounts_move; [done | done |]. rewrite !(total_of_insert _ _ _ _ _ Ew). eapply move_eq; [by eapply worker_move|..]; lia.
  - destruct (po_workers p !! w) as [pc|] eqn:Ew; [|done]. cbn in Hs. destruct pc; try done. destruct (sh_cancelled _); [|done]. injection Hs as <-.
    apply accounts_move; [done | done |]. rewrite !(total_same _ _ _ _ _ Ew) by done. eapply move_eq; [apply move_refl|..]; lia.
  - destruct (po_workers p !! w) as [pc|] eqn:Ew; [|done]. cbn in Hs. destruct pc as [| | | | | | | j o |]; try done. destruct (post j o _) as [callers|] eqn:Eo; [|done]. injection Hs as <-.
    destruct (post_totals _ _ _ _ Eo) as [E1 E2]. apply accounts_move; [done | done |]. rewrite !(total_same _ _ _ _ _ Ew) by done. rewrite E1, E2. eapply move_eq; [apply move_refl|..]; lia.
  - destruct (Close_step _ _ _) as [[s' k]|] eqn:Ek; [|done]. injection Hs as <-. apply accounts_move; [done | done |]. eapply move_eq; [by eapply Close_move|..]; lia.
  - destruct (po_closer p) as [| | | | | | | j |] eqn:Ek; try done. destruct (post j _ _) as [callers|] eqn:Eo; [|done]. injection Hs as <-.
    destruct (post_totals _ _ _ _ Eo) as [E1 E2]. apply accounts_move; [done | done |]. rewrite E1, E2, Ek. eapply move_eq; [apply move_refl|..]; cbn; lia.
Qed.

(** ** Who owns a job *)

Definition past_submit (pc : caller_pc) : bool := match pc with CQueued | CWait | CDone _ => true | _ => false end.
Definition numbered (pc : caller_pc) : bool := match pc with CBuild | CSubmit _ | CQueued | CWait => true | _ => false end.

Definition worker_job (w : worker_pc) : list job :=
  match w with WTaken j | WRun j | WReady j | WSession j | WFinish j _ | WRelease j _ | WPost j _ => [j] | WIdle | WStopped => [] end.
Definition closer_job (k : closer_pc) : list job := match k with KFinish j | KRelease j | KPost j => [j] | _ => [] end.

(** All jobs that have been queued and not answered. *)
Definition held (p : pool) : list job := sh_jobs (po_shared p) ++ (po_workers p ≫= worker_job) ++ closer_job (po_closer p).

(** A result that belongs to the request [id] on flow [f]. *)
Definition belongs (id : string) (f : Z) (o : outcome) : Prop :=
  forall r, o = Ok r -> rs_RequestID r = id /\ rs_FlowID r = f /\ 0 < f /\ 0 < blen (rs_EVE r) <= Z.shiftl 1 20.

Definition worker_outcome (w : worker_pc) : Prop :=
  match w with WFinish j o | WRelease j o | WPost j o => belongs (jb_requestID j) (jb_flowID j) o | _ => True end.

Record caller_ok (s : shared) (c : caller) : Prop := mkCallerOk {
  co_flow : 0 <= cl_flowID c <= sh_flowID s;
  co_numbered : numbered (cl_pc c) = true -> 0 < cl_flowID c;
  co_swap : forall previous, cl_pc c = CSwap previous -> 0 <= previous < 2 ^ 32 - 1;
  co_result : cl_result c <> None -> past_submit (cl_pc c) = true;
  co_outcome : forall o, cl_result c = Some o \/ cl_pc c = CDone o -> belongs (cl_requestID c) (cl_flowID c) o
}.

Definition job_ok (callers : list caller) (j : job) : Prop :=
  exists c, callers !! jb_caller j = Some c /\ jb_requestID j = cl_requestID c /\ jb_flowID j = cl_flowID c /\ 0 < jb_flowID j /\ past_submit (cl_pc c) = true /\ cl_result c = None.

Record owns (p : pool) : Prop := mkOwns {
  ow_callers : Forall (caller_ok (po_shared p)) (po_callers p);
  ow_distinct : forall i i' c c', po_callers p !! i = Some c -> po_callers p !! i' = Some c' -> cl_flowID c = cl_flowID c' -> 0 < cl_flowID c -> i = i';
  ow_jobs : Forall (job_ok (po_callers p)) (held p);
  ow_once : NoDup (jb_caller <$> held p);
  ow_outcomes : Forall worker_outcome (po_workers p)
}.

(** The job a thread holds, and the rest. *)
Lemma bind_insert {A B} (f : A -> list B) l i x y : l !! i = Some x -> exists rest, l ≫= f ≡ₚ f x ++ rest /\ <[i := y]> l ≫= f ≡ₚ f y ++ rest.
Proof.
  revert i. induction l as [| z l IH]; intros [| i] H; [done | done | injection H as ->; exists (l ≫= f); done|].
  destruct (IH i H) as (rest & E1 & E2). exists (f z ++ rest). change (<[S i := y]> (z :: l)) with (z :: <[i := y]> l).
  cbn [mbind list_bind]. rewrite E1, E2. split; rewrite !app_assoc; by apply Permutation_app_tail, Permutation_app_comm.
Qed.

Lemma held_worker p w pc pc' s' : po_workers p !! w = Some pc -> sh_jobs s' ++ worker_job pc' ≡ₚ sh_jobs (po_shared p) ++ worker_job pc ->
  held (mkPool (po_config p) s' (po_callers p) (<[w := pc']> (po_workers p)) (po_closer p)) ≡ₚ held p.
Proof.
  intros Hw E. unfold held. cbn [po_shared po_workers po_closer]. destruct (bind_insert worker_job _ _ _ pc' Hw) as (rest & -> & ->).
  rewrite <- !app_assoc, !(app_assoc (sh_jobs _)). by rewrite E.
Qed.

(** The callers change, the jobs do not. *)
Lemma owns_perm p s' callers workers closer :
  owns p -> held (mkPool (po_config p) s' callers workers closer) ≡ₚ held p -> callers = po_callers p -> sh_flowID s' = sh_flowID (po_shared p) -> Forall worker_outcome workers ->
  owns (mkPool (po_config p) s' callers workers closer).
Proof.
  intros [O1 O2 O3 O4 O5] Eh -> Ef Hw. split; cbn [po_shared po_callers po_workers].
  - eapply Forall_impl; [exact O1|]. intros c []. split; rewrite ?Ef; done.
  - done.
  - by rewrite Eh.
  - by rewrite Eh.
  - done.
Qed.

Definition same_identity (c c' : caller) : Prop := cl_requestID c' = cl_requestID c /\ cl_flowID c' = cl_flowID c.

(** Call [i] moves and keeps its identity. *)
Lemma owns_caller p i c c' s' closer workers :
  owns p -> po_callers p !! i = Some c -> same_identity c c' -> (past_submit (cl_pc c) = true -> past_submit (cl_pc c') = true) ->
  (cl_result c = None -> cl_result c' = None) -> caller_ok s' c' -> sh_flowID s' = sh_flowID (po_shared p) ->
  held (mkPool (po_config p) s' (<[i := c']> (po_callers p)) workers closer) ≡ₚ held p -> Forall worker_outcome workers ->
  owns (mkPool (po_config p) s' (<[i := c']> (po_callers p)) workers closer).
Proof.
  intros [O1 O2 O3 O4 O5] Hi [Eid Efl] Hpast Hres Hok Ef Eh Hw. split; cbn [po_shared po_callers po_workers].
  - apply Forall_insert; [|done]. eapply Forall_impl; [exact O1|]. intros d []. split; rewrite ?Ef; done.
  - intros a b d d' Hd Hd' E Hpos.
    assert (Hold : forall a d, <[i := c']> (po_callers p) !! a = Some d -> exists d0, po_callers p !! a = Some d0 /\ cl_flowID d = cl_flowID d0).
    { intros a0 d0 H. destruct (decide (a0 = i)) as [-> | Hne]; [|rewrite list_lookup_insert_ne in H by done; by exists d0].
      rewrite list_lookup_insert_eq in H by (by eapply lookup_lt_Some). injection H as <-. by exists c. }
    destruct (Hold _ _ Hd) as (d0 & Hd0 & E0), (Hold _ _ Hd') as (d0' & Hd0' & E0'). eapply (O2 a b d0 d0'); congruence.
  - rewrite Eh. eapply Forall_impl; [exact O3|]. intros j (d & Hd & E1 & E2 & E3 & E4 & E5). destruct (decide (jb_caller j = i)) as [E | Hne].
    + subst i. rewrite Hi in Hd. injection Hd as <-. exists c'. rewrite list_lookup_insert_eq by (by eapply lookup_lt_Some). split_and!; auto; congruence.
    + exists d. rewrite list_lookup_insert_ne by done. done.
  - by rewrite Eh.
  - done.
Qed.

Definition quiet_move (s s' : shared) (c c' : caller) : Prop :=
  same_identity c c' /\ cl_result c' = cl_result c /\ (past_submit (cl_pc c) = true -> past_submit (cl_pc c') = true) /\
  caller_ok s' c' /\ sh_flowID s' = sh_flowID s /\ sh_jobs s' = sh_jobs s.

Lemma caller_ok_at s s' c pc : caller_ok s c -> sh_flowID s' = sh_flowID s ->
  (numbered pc = true -> 0 < cl_flowID c) -> (forall previous, pc = CSwap previous -> 0 <= previous < 2 ^ 32 - 1) ->
  (cl_result c <> None -> past_submit pc = true) -> (forall o, pc = CDone o -> belongs (cl_requestID c) (cl_flowID c) o) -> caller_ok s' (caller_at pc c).
Proof. intros [C1 C2 C3 C4 C5] Ef H1 H2 H3 H4. split; cbn [caller_at cl_flowID cl_pc cl_result cl_requestID]; rewrite ?Ef; auto. intros o [Ho | Ho]; auto. Qed.

Lemma belongs_err id f e : belongs id f (Err e).
Proof. by intros r. Qed.

Lemma quiet_at s s' c pc : caller_ok s c -> sh_flowID s' = sh_flowID s -> sh_jobs s' = sh_jobs s ->
  (numbered pc = true -> numbered (cl_pc c) = true) -> (forall previous, pc = CSwap previous -> 0 <= previous < 2 ^ 32 - 1) ->
  (past_submit (cl_pc c) = true -> past_submit pc = true) -> (forall o, pc = CDone o -> exists e, o = Err e) -> quiet_move s s' c (caller_at pc c).
Proof.
  intros Hc Ef Ej H1 H2 H3 H4. split_and!; try done. apply (caller_ok_at s); try done.
  - intros Hn. apply Hc. auto.
  - intros Hr. apply H3. by apply Hc.
  - intros o Ho. destruct (H4 o Ho) as [e ->]. apply belongs_err.
Qed.

Lemma submit_shape config i c pcap s : caller_ok s c -> cl_pc c = CSubmit pcap -> let r := submit config i c pcap s in
  quiet_move s r.1 c (caller_at r.2 c) \/
  r.2 = CQueued /\ sh_jobs r.1 = sh_jobs s ++ [mkJob i (cl_requestID c) (cl_flowID c) pcap] /\ sh_flowID r.1 = sh_flowID s.
Proof.
  intros Hc Hpc. cbv zeta. unfold submit. repeat case_match; cbn [fst snd]; try (left; apply quiet_at; rewrite ?Hpc; done). by right.
Qed.

(** What a step of a call does: almost always nothing but move; it takes a number
    that was never used, or queues its job. *)
Lemma Inspect_shape config i s c s' c' : Inspect_step config i s c = Some (s', c') -> caller_ok s c -> 0 <= sh_flowID s < 2 ^ 32 ->
  quiet_move s s' c c' \/
  (exists f, sh_flowID s < f < 2 ^ 32 /\ sh_flowID s' = f /\ sh_jobs s' = sh_jobs s /\ past_submit (cl_pc c) = false /\ c' = mkCaller (cl_requestID c) (cl_request c) f (cl_expired c) (cl_result c) CBuild) \/
  (exists pcap, cl_pc c = CSubmit pcap /\ c' = caller_at CQueued c /\ sh_flowID s' = sh_flowID s /\ sh_jobs s' = sh_jobs s ++ [mkJob i (cl_requestID c) (cl_flowID c) pcap]).
Proof.
  intros Hs Hc Hf. unfold Inspect_step in Hs. destruct (cl_pc c) as [| | closed | | | | | previous | | pcap | e builder | e | | | o] eqn:Epc.
  8: { pose proof (co_swap _ _ Hc _ Epc) as Hp. destruct (Z.eqb_spec (sh_flowID s) previous) as [E | E]; injection Hs as <- <-.
       - right. left. exists (u32 (previous + 1)). cbn. unfold u32. rewrite Z.mod_small by lia. split_and!; try done; lia.
       - left. apply quiet_at; rewrite ?Epc; done. }
  9: { pose proof (submit_shape config i c pcap s Hc Epc) as Hm. destruct (submit config i c pcap s) as [s1 pc]. injection Hs as <- <-. cbn [fst snd] in Hm.
       destruct Hm as [Hm | (-> & Hj & Hfl)]; [by left | right; right; by exists pcap]. }
  all: left; repeat case_match; simplify_eq; apply quiet_at; rewrite ?Epc; try done; repeat case_match; try done;
    try (intros ? [= <-]; first [by eexists | split_bool; lia]).
Qed.

Lemma insert_caller (l : list caller) i c' : forall a d, <[i := c']> l !! a = Some d -> (a = i /\ d = c') \/ (a <> i /\ l !! a = Some d).
Proof.
  intros a d H. destruct (decide (a = i)) as [-> | Hne]; [left | right; by rewrite list_lookup_insert_ne in H].
  rewrite list_lookup_insert_eq in H; [by injection H as <-|]. apply lookup_lt_Some in H. by rewrite length_insert in H.
Qed.

Lemma caller_ok_mono s s' c : sh_flowID s <= sh_flowID s' -> caller_ok s c -> caller_ok s' c.
Proof. intros Hf [C1 C2 C3 C4 C5]. split; auto. lia. Qed.

(** Jobs of other calls do not notice. *)
Lemma job_ok_other callers i c' j : jb_caller j <> i -> job_ok callers j -> job_ok (<[i := c']> callers) j.
Proof. intros Hne (d & Hd & H). exists d. by rewrite list_lookup_insert_ne. Qed.

Lemma owns_swap p i c s' f : owns p -> po_callers p !! i = Some c -> sh_flowID (po_shared p) < f -> sh_flowID s' = f -> sh_jobs s' = sh_jobs (po_shared p) -> past_submit (cl_pc c) = false ->
  owns (mkPool (po_config p) s' (<[i := mkCaller (cl_requestID c) (cl_request c) f (cl_expired c) (cl_result c) CBuild]> (po_callers p)) (po_workers p) (po_closer p)).
Proof.
  intros [O1 O2 O3 O4 O5] Hi Hf Ef Ej Hpast. pose proof (Forall_lookup_1 _ _ _ _ O1 Hi) as [C1 C2 C3 C4 C5].
  assert (Hr : cl_result c = None) by (destruct (cl_result c) eqn:Er; [|done]; rewrite C4 in Hpast by congruence; done).
  split; cbn [po_shared po_callers po_workers].
  - apply Forall_insert; [eapply Forall_impl; [exact O1|]; intros d; apply caller_ok_mono; lia|]. split; cbn; try (intros; lia); [done | done |].
    intros o [Ho | Ho]; congruence.
  - intros a b d d' Hd%insert_caller Hd'%insert_caller E Hpos.
    assert (Hle : forall a d, po_callers p !! a = Some d -> cl_flowID d < f) by (intros a0 d0 H0; pose proof (co_flow _ _ (Forall_lookup_1 _ _ _ _ O1 H0)); lia).
    destruct Hd as [[-> ->] | [Ha Hd]], Hd' as [[-> ->] | [Hb Hd']]; cbn in *; [done | apply Hle in Hd'; lia | apply Hle in Hd; lia | by eapply O2].
  - unfold held in *. cbn [po_shared po_workers po_closer]. rewrite Ej. eapply Forall_impl; [exact O3|]. intros j Hj. apply job_ok_other; [|done].
    intros E. destruct Hj as (d & Hd & _ & _ & _ & Hp & _). rewrite E, Hi in Hd. injection Hd as <-. congruence.
  - unfold held in *. cbn [po_shared po_workers po_closer]. by rewrite Ej.
  - done.
Qed.

Lemma owns_push p i c s' pcap : owns p -> po_callers p !! i = Some c -> cl_pc c = CSubmit pcap -> sh_flowID s' = sh_flowID (po_shared p) ->
  sh_jobs s' = sh_jobs (po_shared p) ++ [mkJob i (cl_requestID c) (cl_flowID c) pcap] ->
  owns (mkPool (po_config p) s' (<[i := caller_at CQueued c]> (po_callers p)) (po_workers p) (po_closer p)).
Proof.
  intros [O1 O2 O3 O4 O5] Hi Hpc Ef Ej. pose proof (Forall_lookup_1 _ _ _ _ O1 Hi) as [C1 C2 C3 C4 C5]. rewrite Hpc in C2, C4.
  set (j := mkJob i (cl_requestID c) (cl_flowID c) pcap) in *. set (p' := mkPool _ _ _ _ _).
  assert (Eh : held p' ≡ₚ j :: held p).
  { unfold held. cbn [p' po_shared po_workers po_closer]. rewrite Ej, <- app_assoc. symmetry. apply Permutation_middle. }
  assert (Hfresh : forall j', j' ∈ held p -> jb_caller j' <> i).
  { intros j' Hj' E. destruct (proj1 (Forall_forall _ _) O3 _ Hj') as (d & Hd & _ & _ & _ & Hp & _). rewrite E, Hi in Hd. injection Hd as <-. by rewrite Hpc in Hp. }
  assert (Hr : cl_result c = None) by (destruct (cl_result c) eqn:Er; [|done]; by discriminate C4).
  split; cbn [p' po_shared po_callers po_workers].
  - apply Forall_insert; [eapply Forall_impl; [exact O1|]; intros d; apply caller_ok_mono; lia|]. split; cbn [caller_at cl_flowID cl_pc cl_result]; [lia | auto | done | done |]. intros o [Ho | Ho]; congruence.
  - intros a b d d' Hd%insert_caller Hd'%insert_caller E Hpos. destruct Hd as [[-> ->] | [Ha Hd]], Hd' as [[-> ->] | [Hb Hd']]; cbn in *; [done | exact (O2 i b c d' Hi Hd' E Hpos) | exact (O2 a i d c Hd Hi E Hpos) | by eapply O2].
  - rewrite Eh. constructor.
    + exists (caller_at CQueued c). cbn. rewrite list_lookup_insert_eq by (by eapply lookup_lt_Some). split_and!; try done. by apply C2.
    + apply Forall_forall. intros j' Hj'. apply job_ok_other; [by apply Hfresh|]. by apply (proj1 (Forall_forall _ _) O3).
  - rewrite Eh. cbn. constructor; [|done]. intros (j' & E & Hj')%list_elem_of_fmap. by apply (Hfresh j').
  - done.
Qed.

(** The answer of a job reaches the call it belongs to. *)
Lemma owns_post p j o callers workers closer :
  owns p -> held p ≡ₚ j :: held (mkPool (po_config p) (po_shared p) callers workers closer) -> post j o (po_callers p) = Some callers ->
  belongs (jb_requestID j) (jb_flowID j) o -> Forall worker_outcome workers ->
  owns (mkPool (po_config p) (po_shared p) callers workers closer).
Proof.
  intros [O1 O2 O3 O4 O5] Eh (c & Hc & Hr & Ec)%post_spec Hb Hw. subst callers. set (p' := mkPool _ _ _ _ _) in *.
  rewrite Eh in O3, O4. cbn in O4. apply Forall_cons in O3 as [(d & Hd & E1 & E2 & E3 & E4 & _) O3]. rewrite Hc in Hd. injection Hd as <-. apply NoDup_cons in O4 as [Hnew O4].
  pose proof (Forall_lookup_1 _ _ _ _ O1 Hc) as [C1 C2 C3 C4 C5].
  split; cbn [p' po_shared po_callers po_workers].
  - apply Forall_insert; [done|]. split; cbn; try done. intros o' [[= <-] | Ho']; [by rewrite <- E1, <- E2 | by apply C5; right].
  - intros a b d d' Hd%insert_caller Hd'%insert_caller E Hpos. destruct Hd as [[-> ->] | [Ha Hd]], Hd' as [[-> ->] | [Hb' Hd']]; cbn in *; [done | exact (O2 _ b c d' Hc Hd' E Hpos) | exact (O2 a _ d c Hd Hc E Hpos) | by eapply O2].
  - apply Forall_forall. intros j' Hj'. apply job_ok_other; [|by apply (proj1 (Forall_forall _ _) O3)]. intros E. apply Hnew. rewrite <- E. by apply list_elem_of_fmap_2.
  - done.
  - done.
Qed.

Lemma run_answer_belongs j w a failed : 0 < jb_flowID j -> belongs (jb_requestID j) (jb_flowID j) (run_answer j w a failed).1.
Proof.
  intros Hf. unfold run_answer. destruct a as [| | path eve took]; cbn [fst]; [apply belongs_err.. |].
  case_bool_decide as He; cbn [orb]; [apply belongs_err|]. destruct (Z.ltb_spec (Z.shiftl 1 20) (blen eve)); [apply belongs_err|].
  intros r [= <-]. cbn. split_and!; try done; unfold blen in *; destruct eve; cbn in *; lia || done.
Qed.

(** A worker's step moves its job along and never changes whose it is. *)
Lemma worker_shape w callers a s pc s' pc' : worker_step w callers a s pc = Some (s', pc') ->
  (forall j, j ∈ sh_jobs s \/ j ∈ worker_job pc -> 0 < jb_flowID j) -> worker_outcome pc ->
  sh_flowID s' = sh_flowID s /\ sh_jobs s' ++ worker_job pc' ≡ₚ sh_jobs s ++ worker_job pc /\ worker_outcome pc'.
Proof.
  intros Hs Hf Ho. unfold worker_step in Hs. destruct pc as [| j | j | j | j | j o | j o | j o |]; cbn [worker_job worker_outcome] in *.
  5: { pose proof (run_answer_belongs j w a (sh_failed s) ltac:(apply Hf; right; by left)) as Hb. destruct (run_answer j w a (sh_failed s)) as [o failed]. injection Hs as <- <-. by cbn. }
  1: { destruct (sh_jobs s) as [| j rest] eqn:Ej; [done|]. injection Hs as <- <-. cbn. split_and!; try done. change (rest ++ [j] ≡ₚ (j :: rest) ++ []). rewrite app_nil_r. symmetry. apply Permutation_cons_append. }
  all: repeat case_match; simplify_eq; cbn; split_and!; try done; apply belongs_err.
Qed.

Lemma Close_shape workers s k s' k' : Close_step workers s k = Some (s', k') ->
  sh_flowID s' = sh_flowID s /\ sh_jobs s' ++ closer_job k' ≡ₚ sh_jobs s ++ closer_job k.
Proof.
  unfold Close_step. destruct k; repeat case_match; intros; simplify_eq; cbn; try done.
  - rewrite H. done.
  - split; [done|]. change (l ++ [j] ≡ₚ (j :: l) ++ []). rewrite app_nil_r. symmetry. apply Permutation_cons_append.
Qed.

Lemma held_job_flow p w pc j : owns p -> po_workers p !! w = Some pc -> j ∈ sh_jobs (po_shared p) \/ j ∈ worker_job pc -> 0 < jb_flowID j.
Proof.
  intros [_ _ O3 _ _] Hw Hj. rewrite Forall_forall in O3. destruct (O3 j) as (c & _ & _ & _ & H & _); [|done].
  unfold held. rewrite !elem_of_app. destruct Hj as [Hj | Hj]; [by left | right; left]. apply list_elem_of_bind. exists pc. split; [done|]. by eapply list_elem_of_lookup_2.
Qed.

Lemma held_same p s' callers : sh_jobs s' = sh_jobs (po_shared p) -> held (mkPool (po_config p) s' callers (po_workers p) (po_closer p)) = held p.
Proof. intros E. unfold held. cbn. by rewrite E. Qed.

Lemma select_shape k s c c' : Inspect_select k s c = Some c' -> caller_ok s c ->
  same_identity c c' /\ past_submit (cl_pc c') = true /\ (cl_result c = None -> cl_result c' = None) /\ caller_ok s c'.
Proof.
  unfold Inspect_select. intros Hs [C1 C2 C3 C4 C5]. destruct (cl_pc c) eqn:Epc; try done. destruct k; repeat case_match; simplify_eq; split_and!; try done; split; cbn; try done; intros o' [Ho | Ho]; simplify_eq; auto using belongs_err.
Qed.

Lemma step_owns e p p' : step e p = Some p' -> limits p -> owns p -> owns p'.
Proof.
  intros Hs Hl Ho. pose proof Ho as [O1 O2 O3 O4 O5]. destruct e as [id r | i | | i | i k | w a | w | w | |]; cbn [step] in Hs.
  - injection Hs as <-. split; cbn [po_shared po_callers po_workers]; [| | | done | done].
    + apply Forall_app_2; [done|]. apply Forall_singleton. pose proof (li_flowID _ Hl). split; cbn; [lia | done | done | done | by intros o [? | ?]].
    + assert (Hnew : forall a d, (po_callers p ++ [mkCaller id r 0 false None CEnter]) !! a = Some d -> 0 < cl_flowID d -> po_callers p !! a = Some d).
      { intros a d [H | [_ H]]%lookup_app_Some Hpos; [done|]. apply list_lookup_singleton_Some in H as [_ <-]. cbn in Hpos. lia. }
      intros a b d d' Hd Hd' E Hpos. eapply O2; [by apply Hnew | apply Hnew; [done | congruence] | done | done].
    + eapply Forall_impl; [exact O3|]. intros j (d & Hd & H). exists d. split; [by apply lookup_app_l_Some | done].
  - destruct (po_callers p !! i) as [c|] eqn:Ei; [|done]. injection Hs as <-. pose proof (Forall_lookup_1 _ _ _ _ O1 Ei) as [C1 C2 C3 C4 C5].
    apply (owns_caller p i c); try done.
  - injection Hs as <-. by apply owns_perm.
  - destruct (po_callers p !! i) as [c|] eqn:Ei; [|done]. cbn in Hs. destruct (Inspect_step _ _ _ c) as [[s' c']|] eqn:Ec; [|done]. injection Hs as <-.
    destruct (Inspect_shape _ _ _ _ _ _ Ec (Forall_lookup_1 _ _ _ _ O1 Ei) (li_flowID _ Hl)) as [(E1 & E2 & E3 & E4 & E5 & E6) | [(f & Hf & E1 & E2 & E3 & ->) | (pcap & E1 & -> & E2 & E3)]].
    + apply (owns_caller p i c); try done; [congruence | by rewrite held_same].
    + apply owns_swap; try done. lia.
    + by eapply owns_push.
  - destruct (po_callers p !! i) as [c|] eqn:Ei; [|done]. cbn in Hs. destruct (Inspect_select k _ c) as [c'|] eqn:Ec; [|done]. injection Hs as <-.
    destruct (select_shape _ _ _ _ Ec (Forall_lookup_1 _ _ _ _ O1 Ei)) as (E1 & E2 & E3 & E4). by apply (owns_caller p i c).
  - destruct (po_workers p !! w) as [pc|] eqn:Ew; [|done]. cbn in Hs. destruct (worker_step _ _ _ _ pc) as [[s' pc']|] eqn:Ep; [|done]. injection Hs as <-.
    destruct (worker_shape _ _ _ _ _ _ _ Ep (fun j => held_job_flow p w pc j Ho Ew) (Forall_lookup_1 _ _ _ _ O5 Ew)) as (E1 & E2 & E3).
    apply owns_perm; [done | by eapply held_worker | done | done | by apply Forall_insert].
  - destruct (po_workers p !! w) as [pc|] eqn:Ew; [|done]. cbn in Hs. destruct pc; try done. destruct (sh_cancelled _); [|done]. injection Hs as <-.
    apply owns_perm; [done | by eapply held_worker | done | done | by apply Forall_insert].
  - destruct (po_workers p !! w) as [pc|] eqn:Ew; [|done]. cbn in Hs. destruct pc as [| | | | | | | j o |]; try done. destruct (post j o _) as [callers|] eqn:Eo; [|done]. injection Hs as <-.
    apply (owns_post p j o); try done; [| exact (Forall_lookup_1 _ _ _ _ O5 Ew) | by apply Forall_insert].
    unfold held. cbn [po_shared po_workers po_closer]. destruct (bind_insert worker_job _ _ _ WIdle Ew) as (rest & -> & ->). cbn [worker_job app]. by rewrite <- Permutation_middle.
  - destruct (Close_step _ _ _) as [[s' k]|] eqn:Ek; [|done]. injection Hs as <-. destruct (Close_shape _ _ _ _ _ Ek) as [E1 E2].
    apply owns_perm; [done | | done | done | done]. unfold held. cbn [po_shared po_workers po_closer].
    rewrite !(Permutation_app_comm (_ ≫= _)), !app_assoc. by rewrite E2.
  - destruct (po_closer p) as [| | | | | | | j |] eqn:Ek; try done. destruct (post j _ _) as [callers|] eqn:Eo; [|done]. injection Hs as <-.
    apply (owns_post p j (Err ErrUnavailable)); try done. unfold held. cbn [po_shared po_workers po_closer]. rewrite Ek. cbn [closer_job]. by rewrite app_nil_r, app_assoc, <- Permutation_cons_append.
Qed.

(** ** Closing *)

Definition draining (k : closer_pc) : bool := match k with KDrain | KFinish _ | KRelease _ | KPost _ | KDone => true | _ => false end.

Record closing (p : pool) : Prop := mkClosing {
  cg_closed : po_closer p <> KIdle -> sh_closed (po_shared p) = true;
  cg_cancelled : po_closer p <> KIdle -> po_closer p <> KCancel -> sh_cancelled (po_shared p) = true;
  cg_stopped : draining (po_closer p) = true -> Forall (fun w => w = WStopped) (po_workers p);
  cg_drained : po_closer p = KDone -> sh_jobs (po_shared p) = []
}.

Lemma Inspect_flags config i s c s' c' : Inspect_step config i s c = Some (s', c') ->
  sh_closed s' = sh_closed s /\ sh_cancelled s' = sh_cancelled s /\ (sh_closed s = true -> sh_jobs s' = sh_jobs s).
Proof.
  unfold Inspect_step. destruct (cl_pc c) as [| | | | | | | | | pcap | | | | |]; [.. | | | | | |]; unfold submit; repeat case_match; intros; simplify_eq; cbn; try done.
  all: split_and!; try done; intros Ecl; rewrite Ecl in *; done.
Qed.

Lemma worker_flags w callers a s pc s' pc' : worker_step w callers a s pc = Some (s', pc') ->
  sh_closed s' = sh_closed s /\ sh_cancelled s' = sh_cancelled s /\ pc <> WStopped.
Proof. unfold worker_step. destruct pc; repeat case_match; intros; simplify_eq; cbn; done. Qed.

Lemma stopped_lookup workers w pc : Forall (fun w => w = WStopped) workers -> workers !! w = Some pc -> pc = WStopped.
Proof. intros H Hw. by apply (Forall_lookup_1 _ _ _ _ H Hw). Qed.

Lemma step_closing e p p' : step e p = Some p' -> closing p -> closing p'.
Proof.
  intros Hs [G1 G2 G3 G4]. destruct e as [id r | i | | i | i k | w a | w | w | |]; cbn [step] in Hs.
  - injection Hs as <-. by split.
  - destruct (po_callers p !! i); [|done]. injection Hs as <-. by split.
  - injection Hs as <-. by split.
  - destruct (po_callers p !! i) as [c|]; [|done]. cbn in Hs. destruct (Inspect_step _ _ _ c) as [[s' c']|] eqn:Ec; [|done]. injection Hs as <-.
    destruct (Inspect_flags _ _ _ _ _ _ Ec) as (E1 & E2 & E3). split; cbn [po_shared po_workers po_closer]; rewrite ?E1, ?E2; try done.
    intros Ek. rewrite E3; [auto|]. apply G1. by rewrite Ek.
  - destruct (po_callers p !! i) as [c|]; [|done]. cbn in Hs. destruct (Inspect_select k _ c); [|done]. injection Hs as <-. by split.
  - destruct (po_workers p !! w) as [pc|] eqn:Ew; [|done]. cbn in Hs. destruct (worker_step _ _ _ _ pc) as [[s' pc']|] eqn:Ep; [|done]. injection Hs as <-.
    destruct (worker_flags _ _ _ _ _ _ _ Ep) as (E1 & E2 & E3).
    assert (Hnd : draining (po_closer p) <> true) by (intros Hd; apply E3; by eapply stopped_lookup; [apply G3|]).
    split; cbn [po_shared po_workers po_closer]; rewrite ?E1, ?E2; try done. intros Ek. rewrite Ek in Hnd. done.
  - destruct (po_workers p !! w) as [pc|] eqn:Ew; [|done]. cbn in Hs. destruct pc; try done. case_match; [|done]. injection Hs as <-.
    split; cbn [po_shared po_workers po_closer]; try done. intros Hd. apply Forall_insert; [by apply G3 | done].
  - destruct (po_workers p !! w) as [pc|] eqn:Ew; [|done]. cbn in Hs. destruct pc as [| | | | | | | j o |]; try done. destruct (post j o _) as [callers|]; [|done]. injection Hs as <-.
    split; cbn [po_shared po_workers po_closer]; try done. intros Hd. pose proof (stopped_lookup _ _ _ (G3 Hd) Ew). done.
  - destruct (Close_step _ _ _) as [[s' k]|] eqn:Ek; [|done]. injection Hs as <-. unfold Close_step in Ek.
    destruct (po_closer p) eqn:Eck; repeat case_match; simplify_eq; split; cbn; intros; try done; auto; try (by apply G1); try (by apply G2); try (by apply G3).
    match goal with H : forallb is_stopped _ = true |- _ => rename H into Hf end.
    apply Forall_forall. intros w Hw. rewrite forallb_elem_of in Hf. specialize (Hf w Hw). by destruct w.
  - destruct (po_closer p) as [| | | | | | | j |] eqn:Ek; try done. destruct (post j _ _) as [callers|]; [|done]. injection Hs as <-.
    split; cbn [po_shared po_workers po_closer]; try done; intros; first [by apply G1 | by apply G2 | by apply G3].
Qed.

(** ** Reachable states *)

Record pool_inv (p : pool) : Prop := mkPoolInv { pi_accounts : accounts p; pi_limits : limits p; pi_owns : owns p; pi_closing : closing p }.

Lemma New_inv {S : Type} config ended made private (answers : list (result PoolError (option S))) sessions p :
  New config ended made private answers = Ok (sessions, p) -> pool_inv p /\ po_config p = config /\ config_invalid config = false.
Proof.
  unfold New. destruct (config_invalid config) eqn:Ev; [done|]. destruct ended; [done|]. destruct made; [|done]. destruct private; [|done]. cbn [negb].
  destruct (start_sessions _ _) as [ss | [e st]]; [|done]. intros [= <- <-]. pose proof Ev as Ev'. unfold config_invalid in Ev'. change (Z.shiftl 64 10) with 65536 in Ev'. split_bool.
  assert (Hrep : forall (f : worker_pc -> Z), f WIdle = 0 -> total f (replicate (length ss) WIdle) = 0).
  { intros f Hf. unfold total. induction (length ss) as [| n IH]; cbn; lia. }
  split; [|done]. split.
  - split; cbn [po_shared po_callers po_workers po_closer]; rewrite ?Hrep by done; reflexivity.
  - split; unfold queued; cbn [po_shared po_config sh_slots sh_builders sh_bytes sh_flowID sh_jobs length]; lia.
  - assert (Hheld : replicate (length ss) WIdle ≫= worker_job = []) by (clear; induction (length ss) as [| n IH]; [done | exact IH]).
    split; unfold held; cbn [po_shared po_callers po_workers po_closer sh_jobs closer_job app]; rewrite ?Hheld; [constructor | done | constructor | constructor | by apply Forall_replicate].
  - by split.
Qed.

Lemma pool_step_inv e p p' : step e p = Some p' -> pool_inv p -> pool_inv p' /\ po_config p' = po_config p.
Proof.
  intros Hs [I1 I2 I3 I4]. destruct (step_accounts _ _ _ Hs I1 I2). split.
  - split; [done | done | by eapply step_owns | by eapply step_closing].
  - clear -Hs. destruct e; cbn [step] in Hs; repeat (case_match || (apply bind_Some in Hs as (? & ? & Hs))); simplify_eq; done.
Qed.

Lemma steps_inv es p p' : steps es p = Some p' -> pool_inv p -> pool_inv p' /\ po_config p' = po_config p.
Proof.
  revert p. induction es as [| e es IH]; intros p Hs Hi; cbn [steps] in Hs; [by injection Hs as <-|].
  destruct (step e p) as [p1|] eqn:E1; [|done]. cbn in Hs. destruct (pool_step_inv _ _ _ E1 Hi) as [Hi1 Ec1]. destruct (IH _ Hs Hi1) as [Hi' Ec']. split; [done | congruence].
Qed.

(** * Theorems about the pool *)

(** ** Progress *)

(** A goroutine of the pool itself, as opposed to its callers and contexts. *)
Definition pool_event (e : event) : bool := match e with Work _ _ | Stop _ | Post _ | Closing | ClosePost => true | _ => false end.

Lemma total_caller_slots p i c : po_callers p !! i = Some c -> caller_slots c <= total caller_slots (po_callers p).
Proof. apply total_at. intros x. unfold caller_slots. destruct (cl_pc x); lia. Qed.

Lemma slots_parts p : accounts p -> 0 <= total caller_slots (po_callers p) /\ 0 <= queued (po_shared p) /\ 0 <= total worker_slots (po_workers p) /\ 0 <= closer_slots (po_closer p).
Proof.
  intros _. split_and!; [apply total_nonneg; intros x; unfold caller_slots; destruct (cl_pc x); lia | unfold queued; lia | apply total_nonneg; intros []; cbn; lia | destruct (po_closer p); cbn; lia].
Qed.

(** Giving back never waits, and only a call that waits for its answer waits. *)
Lemma caller_progress p i c : pool_inv p -> po_callers p !! i = Some c -> cl_pc c <> CWait -> (forall o, cl_pc c <> CDone o) -> is_Some (step (Call i) p).
Proof.
  intros [Ha _ _ _] Hi Hw Hd. pose proof (slots_parts p Ha) as (P1 & P2 & P3 & P4). pose proof (total_caller_slots p i c Hi) as Hs.
  assert (Hb : caller_builders c <= total caller_builders (po_callers p)) by (eapply total_at; [|exact Hi]; intros x; unfold caller_builders; destruct (cl_pc x) as [| | | | | | | | | | ? [] | | | |]; lia).
  destruct Ha as [A1 A2 _ _]. cbn [step]. rewrite Hi. cbn [mbind option_bind].
  unfold Inspect_step. unfold caller_slots at 1 in Hs. unfold caller_builders at 1 in Hb. destruct (cl_pc c) as [| | closed | | | | | previous | | pcap | e builder | e | | | o] eqn:Epc; try (by destruct (Hw eq_refl)); try (by destruct (Hd o)).
  all: try (repeat case_match; by eexists).
  - rewrite (proj2 (Z.ltb_lt _ _)) by lia. by eexists.
  - rewrite (proj2 (Z.ltb_lt _ _)) by lia. by eexists.
  - rewrite (proj2 (Z.ltb_lt _ _)) by lia. by eexists.
Qed.

(** The result channel of a job that is still held is empty. *)
Lemma post_ready p j o : owns p -> j ∈ held p -> is_Some (post j o (po_callers p)).
Proof.
  intros [_ _ O3 _ _] Hj. rewrite Forall_forall in O3. destruct (O3 j Hj) as (c & Hc & _ & _ & _ & _ & Hr).
  unfold post. rewrite Hc. cbn. rewrite Hr. by eexists.
Qed.

Lemma worker_held p w pc j : po_workers p !! w = Some pc -> j ∈ worker_job pc -> j ∈ held p.
Proof. intros Hw Hj. unfold held. rewrite !elem_of_app. right. left. apply list_elem_of_bind. exists pc. split; [done|]. by eapply list_elem_of_lookup_2. Qed.

Lemma worker_progress p w pc a : pool_inv p -> po_workers p !! w = Some pc -> pc <> WIdle -> pc <> WStopped -> is_Some (step (Work w a) p) \/ is_Some (step (Post w) p).
Proof.
  intros [Ha _ Ho _] Hw H1 H2. pose proof (slots_parts p Ha) as (P1 & P2 & P3 & P4). destruct Ha as [A1 _ _ _].
  assert (Hs : worker_slots pc <= total worker_slots (po_workers p)) by (eapply total_at; [|exact Hw]; intros []; cbn; lia).
  cbn [step]. rewrite Hw. cbn [mbind option_bind]. destruct pc as [| j | j | j | j | j o | j o | j o |]; cbn [worker_step worker_slots] in *; try done.
  all: try (left; by eexists).
  - left. destruct (run_answer _ _ _ _). by eexists.
  - left. rewrite (proj2 (Z.ltb_lt _ _)) by lia. by eexists.
  - right. destruct (post_ready p j o Ho) as [callers ->]; [eapply worker_held; [done | by left]|]. by eexists.
Qed.

(** Once [Close] has begun, it has returned or some goroutine of the pool can move. *)
Lemma closing_progress p : pool_inv p -> po_closer p <> KIdle -> po_closer p = KDone \/ exists e, pool_event e = true /\ is_Some (step e p).
Proof.
  intros Hi Hk. pose proof Hi as [Ha _ Ho Hc]. pose proof (slots_parts p Ha) as (P1 & P2 & P3 & P4). destruct Ha as [A1 _ _ _].
  destruct (po_closer p) as [| | | | | j | j | j |] eqn:Ek; try done; [right.. | by left].
  - exists Closing. split; [done|]. cbn [step]. rewrite Ek. by eexists.
  - exists Closing. split; [done|]. cbn [step]. rewrite Ek. by eexists.
  - destruct (forallb is_stopped (po_workers p)) eqn:Ef; [exists Closing; split; [done|]; cbn [step]; rewrite Ek; cbn; rewrite Ef; by eexists|].
    assert (Hne : ~ Forall (fun w => is_stopped w = true) (po_workers p)) by (intros H; rewrite Forall_forall, <- forallb_elem_of in H; congruence).
    apply not_Forall_Exists in Hne; [|intros x; destruct (is_stopped x); [by left | by right]]. apply Exists_exists in Hne as (pc & Hpc & Hns).
    apply list_elem_of_lookup in Hpc as [w Hw]. assert (pc = WIdle \/ pc <> WIdle) as [-> | Hidle] by (destruct pc; [by left | by right..]).
    + exists (Stop w). split; [done|]. cbn [step]. rewrite Hw. cbn. rewrite (cg_cancelled _ Hc) by (by rewrite Ek). by eexists.
    + destruct (worker_progress p w pc FilesFail Hi Hw Hidle) as [H | H]; [by intros ->; apply Hns | by exists (Work w FilesFail) | by exists (Post w)].
  - exists Closing. split; [done|]. cbn [step]. rewrite Ek. cbn. destruct (sh_jobs _); by eexists.
  - exists Closing. split; [done|]. cbn [step]. rewrite Ek. by eexists.
  - exists Closing. split; [done|]. cbn [step]. rewrite Ek. cbn in *. rewrite (proj2 (Z.ltb_lt _ _)) by lia. by eexists.
  - exists ClosePost. split; [done|]. cbn [step]. rewrite Ek. destruct (post_ready p j (Err ErrUnavailable) Ho) as [callers ->]; [|by eexists].
    unfold held. rewrite Ek, !elem_of_app. right. right. by left.
Qed.

(** ** Closing ends *)

Definition worker_rank (w : worker_pc) : Z :=
  match w with WStopped => 0 | WIdle => 1 | WPost _ _ => 2 | WRelease _ _ => 3 | WFinish _ _ => 4 | WSession _ => 5 | WReady _ => 6 | WRun _ => 7 | WTaken _ => 8 end.
Definition closer_rank (k : closer_pc) : Z :=
  match k with KDone => 0 | KDrain => 1 | KPost _ => 2 | KRelease _ => 3 | KFinish _ => 4 | KWait => 5 | KSessions => 6 | KCancel => 7 | KIdle => 8 end.

(** What is left for the pool's goroutines to do. *)
Definition work_left (p : pool) : Z := 8 * queued (po_shared p) + total worker_rank (po_workers p) + closer_rank (po_closer p).

Lemma work_left_nonneg p : 0 <= work_left p.
Proof.
  unfold work_left, queued. pose proof (total_nonneg worker_rank (po_workers p) ltac:(intros []; cbn; lia)). destruct (po_closer p); cbn [closer_rank]; lia.
Qed.

Lemma worker_rank_step w callers a s pc s' pc' : worker_step w callers a s pc = Some (s', pc') -> 8 * queued s' + worker_rank pc' < 8 * queued s + worker_rank pc.
Proof. unfold worker_step, queued. destruct pc; repeat case_match; intros; simplify_eq; cbn; lia. Qed.

Lemma closer_rank_step workers s k s' k' : Close_step workers s k = Some (s', k') -> 8 * queued s' + closer_rank k' < 8 * queued s + closer_rank k.
Proof.
  unfold Close_step, queued. destruct k; repeat case_match; intros; simplify_eq; cbn; try lia.
  rewrite H. cbn. lia.
Qed.

Lemma step_work_left e p p' : step e p = Some p' -> sh_closed (po_shared p) = true ->
  work_left p' <= work_left p - (if pool_event e then 1 else 0).
Proof.
  intros Hs Hcl. unfold work_left. destruct e as [id r | i | | i | i k | w a | w | w | |]; cbn [step pool_event] in *.
  - injection Hs as <-. cbn [po_shared po_workers po_closer]. lia.
  - destruct (po_callers p !! i); [|done]. injection Hs as <-. cbn [po_shared po_workers po_closer]. lia.
  - injection Hs as <-. cbn [po_shared po_workers po_closer]. unfold queued. cbn. lia.
  - destruct (po_callers p !! i) as [c|]; [|done]. cbn in Hs. destruct (Inspect_step _ _ _ c) as [[s' c']|] eqn:Ec; [|done]. injection Hs as <-.
    destruct (Inspect_flags _ _ _ _ _ _ Ec) as (_ & _ & E3). unfold queued. cbn [po_shared po_workers po_closer]. rewrite E3 by done. lia.
  - destruct (po_callers p !! i) as [c|]; [|done]. cbn in Hs. destruct (Inspect_select k _ c); [|done]. injection Hs as <-. cbn [po_shared po_workers po_closer]. lia.
  - destruct (po_workers p !! w) as [pc|] eqn:Ew; [|done]. cbn in Hs. destruct (worker_step _ _ _ _ pc) as [[s' pc']|] eqn:Ep; [|done]. injection Hs as <-.
    apply worker_rank_step in Ep. cbn [po_shared po_workers po_closer]. rewrite (total_of_insert _ _ _ _ _ Ew). lia.
  - destruct (po_workers p !! w) as [pc|] eqn:Ew; [|done]. cbn in Hs. destruct pc; try done. case_match; [|done]. injection Hs as <-.
    cbn [po_shared po_workers po_closer]. rewrite (total_of_insert _ _ _ _ _ Ew). cbn [worker_rank]. lia.
  - destruct (po_workers p !! w) as [pc|] eqn:Ew; [|done]. cbn in Hs. destruct pc as [| | | | | | | j o |]; try done. destruct (post j o _) as [callers|]; [|done]. injection Hs as <-.
    cbn [po_shared po_workers po_closer]. rewrite (total_of_insert _ _ _ _ _ Ew). cbn [worker_rank]. lia.
  - destruct (Close_step _ _ _) as [[s' k]|] eqn:Ek; [|done]. injection Hs as <-. apply closer_rank_step in Ek. cbn [po_shared po_workers po_closer]. lia.
  - destruct (po_closer p) as [| | | | | | | j |] eqn:Ek; try done. destruct (post j _ _) as [callers|]; [|done]. injection Hs as <-. cbn [po_shared po_workers po_closer closer_rank]. lia.
Qed.

Lemma step_closer_on e p p' : step e p = Some p' -> po_closer p <> KIdle -> po_closer p' <> KIdle.
Proof.
  intros Hs Hk. destruct e; cbn [step] in Hs; repeat (case_match || (apply bind_Some in Hs as (? & ? & Hs))); simplify_eq; try done.
  unfold Close_step in *. repeat case_match; simplify_eq; done.
Qed.

Lemma steps_work_left es p p' : steps es p = Some p' -> pool_inv p -> po_closer p <> KIdle ->
  Z.of_nat (length (List.filter pool_event es)) + work_left p' <= work_left p /\ po_closer p' <> KIdle.
Proof.
  revert p. induction es as [| e es IH]; intros p Hs Hi Hk; cbn [steps] in Hs; [injection Hs as <-; cbn; split; [lia | done]|].
  destruct (step e p) as [p1|] eqn:E1; [|done]. cbn in Hs. destruct (pool_step_inv _ _ _ E1 Hi) as [Hi1 _].
  pose proof (step_work_left _ _ _ E1 (cg_closed _ (pi_closing _ Hi) Hk)) as Hw. destruct (IH p1 Hs Hi1 (step_closer_on _ _ _ E1 Hk)) as [IH1 IH2].
  split; [|done]. cbn [List.filter]. destruct (pool_event e); cbn [length]; lia.
Qed.

(** ** Claims *)

(** Nothing is under way. *)
Definition at_rest (p : pool) : Prop :=
  Forall (fun c => exists o, cl_pc c = CDone o) (po_callers p) /\ held p = [].

Lemma at_rest_free p : accounts p -> at_rest p ->
  sh_slots (po_shared p) = 0 /\ sh_builders (po_shared p) = 0 /\ sh_inFlight (po_shared p) = 0 /\ sh_bytes (po_shared p) = 0.
Proof.
  intros [A1 A2 A3 A4] [Hc Hh]. unfold held in Hh. apply app_eq_nil in Hh as [Hj [Hw Hk]%app_eq_nil].
  assert (Hcs : total caller_slots (po_callers p) = 0 /\ total caller_builders (po_callers p) = 0).
  { clear -Hc. induction Hc as [| c l [o Ho] Hl [IH1 IH2]]; [done|]. unfold total in *. cbn [foldr]. rewrite IH1, IH2. unfold caller_slots, caller_builders. by rewrite Ho. }
  assert (Hws : total worker_slots (po_workers p) = 0 /\ total worker_jobs (po_workers p) = 0 /\ total worker_bytes (po_workers p) = 0).
  { clear -Hw. induction (po_workers p) as [| w l IH]; [done|]. cbn in Hw. apply app_eq_nil in Hw as [H1 H2]. destruct (IH H2) as (I1 & I2 & I3). unfold total in *. cbn [foldr]. destruct w; done || (cbn; lia). }
  assert (Hks : closer_slots (po_closer p) = 0 /\ closer_jobs (po_closer p) = 0 /\ closer_bytes (po_closer p) = 0) by (destruct (po_closer p); done).
  unfold queued, queued_bytes in *. rewrite Hj in *. cbn [length total foldr] in *. change (total job_bytes []) with 0 in A4. lia.
Qed.

(** Whatever callers, workers and [Close] do and in whatever order, the
    pool's counters are exactly what its goroutines and its queue hold: every
    slot and builder is given back once, the in-flight and byte counters count
    the admitted jobs.  The configured limits are never exceeded, and when
    nothing is under way all counters are zero. *)
Theorem pool_balanced {S : Type} config ended made private (answers : list (result PoolError (option S))) sessions p es p' :
  New config ended made private answers = Ok (sessions, p) -> steps es p = Some p' ->
  accounts p' /\ limits p' /\ po_config p' = config /\
  (at_rest p' -> sh_slots (po_shared p') = 0 /\ sh_builders (po_shared p') = 0 /\ sh_inFlight (po_shared p') = 0 /\ sh_bytes (po_shared p') = 0).
Proof.
  intros (Hi & Ec & _)%New_inv Hs. destruct (steps_inv _ _ _ Hs Hi) as [[I1 I2 I3 I4] Ec']. split_and!; [done | done | congruence | by apply at_rest_free].
Qed.

Definition sample_end : pool := default sample_pool (steps sample_run sample_pool).

Lemma pool_balanced_witness : accounts sample_end /\ limits sample_end /\ po_config sample_end = sample_config /\
  (at_rest sample_end -> sh_slots (po_shared sample_end) = 0 /\ sh_builders (po_shared sample_end) = 0 /\ sh_inFlight (po_shared sample_end) = 0 /\ sh_bytes (po_shared sample_end) = 0).
Proof.
  apply (pool_balanced sample_config false true true [Ok (Some tt)] [tt] sample_pool sample_run sample_end); vm_compute; reflexivity.
Defined.

(** C26. A call of [Inspect] that returns a result returns the detector's output
    for its own request: the request identifier and the flow identifier are the
    call's, the output is not empty and at most 1 MiB; no two calls are ever
    given the same flow, so their captures differ in address or port. *)
Theorem inspect_returns_own_result {S : Type} config ended made private (answers : list (result PoolError (option S))) sessions p es p' i c r :
  New config ended made private answers = Ok (sessions, p) -> steps es p = Some p' -> po_callers p' !! i = Some c -> cl_pc c = CDone (Ok r) ->
  rs_RequestID r = cl_requestID c /\ rs_FlowID r = cl_flowID c /\ 0 < rs_FlowID r < 2 ^ 32 /\ 0 < blen (rs_EVE r) <= Z.shiftl 1 20 /\
  forall i' c', po_callers p' !! i' = Some c' -> cl_flowID c' = rs_FlowID r -> i' = i.
Proof.
  intros (Hi & _)%New_inv Hs Hc Hpc. destruct (steps_inv _ _ _ Hs Hi) as [[_ I2 [O1 O2 _ _ _] _] _].
  pose proof (Forall_lookup_1 _ _ _ _ O1 Hc) as [C1 _ _ _ C5]. destruct (C5 _ (or_intror Hpc) r eq_refl) as (E1 & E2 & E3 & E4). pose proof (li_flowID _ I2).
  split_and!; try done; try lia. intros i' c' Hc' E. eapply (O2 i' i c' c Hc' Hc); lia.
Qed.

Lemma inspect_returns_own_result_witness : "r1" = "r1" /\ 1 = 1 /\ 0 < 1 < 2 ^ 32 /\ 0 < blen [123; 125; 10] <= Z.shiftl 1 20 /\
  forall i' c', po_callers sample_end !! i' = Some c' -> cl_flowID c' = 1 -> i' = 0%nat.
Proof.
  apply (inspect_returns_own_result sample_config false true true [Ok (Some tt)] [tt] sample_pool sample_run sample_end 0
    (mkCaller "r1" sample_request 1 false None (CDone (Ok (mkResult "r1" 0 1 "/run/gate/job-1/request.pcap" [123; 125; 10] 5))))
    (mkResult "r1" 0 1 "/run/gate/job-1/request.pcap" [123; 125; 10] 5)); vm_compute; reflexivity.
Defined.

(** C27. Once [Close] has begun it returns: the pool's goroutines can only take
    finitely many more steps, however many calls still arrive, and when none of
    them can move [Close] has returned, the workers have stopped, every admitted
    job has been answered, and every call that still waits can return. *)
Theorem Close_returns {S : Type} config ended made private (answers : list (result PoolError (option S))) sessions p es p' es' p'' :
  New config ended made private answers = Ok (sessions, p) -> steps es p = Some p' -> po_closer p' <> KIdle -> steps es' p' = Some p'' ->
  Z.of_nat (length (List.filter pool_event es')) <= work_left p' /\
  ((forall e, pool_event e = true -> step e p'' = None) ->
   po_closer p'' = KDone /\ Forall (fun w => w = WStopped) (po_workers p'') /\ held p'' = [] /\ sh_inFlight (po_shared p'') = 0 /\ sh_bytes (po_shared p'') = 0 /\
   forall i c, po_callers p'' !! i = Some c -> cl_pc c = CWait -> is_Some (step (Select i OnPool) p'')).
Proof.
  intros (Hi & _)%New_inv Hs Hk Hs'. destruct (steps_inv _ _ _ Hs Hi) as [Hi' _]. destruct (steps_inv _ _ _ Hs' Hi') as [Hi'' _].
  destruct (steps_work_left _ _ _ Hs' Hi' Hk) as [Hw Hk'']. pose proof (work_left_nonneg p''). split; [lia|]. intros Hstuck.
  destruct (closing_progress p'' Hi'' Hk'') as [Hd | (e & He & [q Hq])]; [|rewrite (Hstuck e He) in Hq; done].
  destruct Hi'' as [[_ _ A3 A4] _ _ [G1 G2 G3 G4]]. rewrite Hd in *. specialize (G3 eq_refl). specialize (G4 eq_refl).
  assert (Hz : (po_workers p'' ≫= worker_job) = [] /\ total worker_jobs (po_workers p'') = 0 /\ total worker_bytes (po_workers p'') = 0).
  { clear -G3. induction G3 as [| w l -> Hl (I1 & I2 & I3)]; [done|]. unfold total in *. cbn. by rewrite I1, I2, I3. }
  destruct Hz as (Z1 & Z2 & Z3). split_and!; try done.
  - unfold held. by rewrite G4, Z1, Hd.
  - rewrite A3, Z2. unfold queued. by rewrite G4.
  - rewrite A4, Z3. unfold queued_bytes. by rewrite G4.
  - intros i c Hc Hpc. cbn [step]. rewrite Hc. cbn. unfold Inspect_select. rewrite Hpc, G2 by done. by eexists.
Qed.

Definition sample_closing : pool := default sample_pool (steps [Closing] sample_pool).
Definition sample_closed : pool := default sample_pool (steps [Closing; Closing; Stop 0; Closing; Closing] sample_closing).

Lemma Close_returns_witness : Z.of_nat (length (List.filter pool_event [Closing; Closing; Stop 0; Closing; Closing])) <= work_left sample_closing /\
  ((forall e, pool_event e = true -> step e sample_closed = None) ->
   po_closer sample_closed = KDone /\ Forall (fun w => w = WStopped) (po_workers sample_closed) /\ held sample_closed = [] /\ sh_inFlight (po_shared sample_closed) = 0 /\ sh_bytes (po_shared sample_closed) = 0 /\
   forall i c, po_callers sample_closed !! i = Some c -> cl_pc c = CWait -> is_Some (step (Select i OnPool) sample_closed)).
Proof.
  apply (Close_returns sample_config false true true [Ok (Some tt)] [tt] sample_pool [Closing] sample_closing [Closing; Closing; Stop 0; Closing; Closing] sample_closed); [vm_compute; reflexivity | vm_compute; reflexivity | vm_compute; discriminate | vm_compute; reflexivity].
Defined.
