(* ===== verification/HttpRequest.v ===== *)
(** * A held HTTP request

    What the proxy makes of one request before it asks for a verdict:
    internal/inspection/http_gate.go (the inspected view), decompress_gate.go (the
    decoded body), internal/proxy/request_body.go (the bounded buffer that is
    replayed) and request_model.go (its identity).  The parts of [net/http] and
    [net/url] that the code uses are modelled; the gzip and zlib decoders are
    parameters.  Header values are taken to be ASCII. *)

From Stdlib Require Import Ascii.
From S2P Require Import Prelude GoStr Bytes Sha256 Netip Domain Config RequestPcap.

(** ** [net/url] *)

Record URL : Type := mkURL {
  u_Scheme : string;
  u_Opaque : string;
  u_Path : string;
  u_RawPath : string;
  u_RawQuery : string;
  u_ForceQuery : bool
}.

Definition is_alnum (c : ascii) : bool := is_lower c || is_upper c || is_digit c.

(** [shouldEscape(c, encodePath)]. *)
Definition shouldEscape (c : ascii) : bool :=
  negb (is_alnum c || ContainsByte c "-_.~" || ContainsByte c "$&+,/:;=@").

Definition upper_hex (n : Z) : ascii := char_of (if n <? 10 then 48 + n else 55 + n).

Fixpoint escape (s : string) : string :=
  match s with
  | EmptyString => EmptyString
  | String c s =>
      if shouldEscape c then String "%" (String (upper_hex (code c / 16)) (String (upper_hex (code c mod 16)) (escape s)))
      else String c (escape s)
  end.

Fixpoint unescape (s : string) : option string :=
  match s with
  | EmptyString => Some EmptyString
  | String c s =>
      if Ascii.eqb c "%" then
        match s with
        | String a (String b s) =>
            match hex_value a, hex_value b, unescape s with
            | Some h, Some l, Some rest => Some (String (char_of (16 * h + l)) rest)
            | _, _, _ => None
            end
        | _ => None
        end
      else option_map (String c) (unescape s)
  end.

Definition validEncoded (s : string) : bool :=
  all_chars (fun c => ContainsByte c "!$&'()*+,;=:@[]%" || negb (shouldEscape c)) s.

Definition EscapedPath (u : URL) : string :=
  if negb (bool_decide (u_RawPath u = "")) && validEncoded (u_RawPath u) && bool_decide (unescape (u_RawPath u) = Some (u_Path u)) then u_RawPath u
  else if bool_decide (u_Path u = "*") then "*"
  else escape (u_Path u).

Definition RequestURI (u : URL) : string :=
  let result :=
    if bool_decide (u_Opaque u = "") then (if bool_decide (EscapedPath u = "") then "/" else EscapedPath u)
    else if HasPrefix (u_Opaque u) "//" then (u_Scheme u ++ ":" ++ u_Opaque u)%string else u_Opaque u in
  if u_ForceQuery u || negb (bool_decide (u_RawQuery u = "")) then (result ++ "?" ++ u_RawQuery u)%string else result.

(** ** [net/http] *)

Definition Header : Type := gmap string (list string).

Definition header_Values (h : Header) (key : string) : list string := default [] (h !! CanonicalHeaderKey key).
Definition header_Get (h : Header) (key : string) : string := match header_Values h key with [] => "" | v :: _ => v end.
Definition header_Del (h : Header) (key : string) : Header := delete (CanonicalHeaderKey key) h.

Record http_Request : Type := mkRequest {
  hr_Method : string;
  hr_URL : URL;
  hr_Proto : string;
  hr_ProtoMajor : Z;
  hr_ProtoMinor : Z;
  hr_Header : Header;
  hr_Host : string;
  hr_ContentLength : Z;
  hr_Trailer : Header
}.

(** ** The inspected view *)

Inductive GateHTTPError : Type := ErrGateHTTPMalformed | ErrGateHeadersTooLarge | ErrGateURLTooLong | ErrGateBodyTooLarge.

Definition outside (low high v : Z) : bool := (v <? low) || (high <? v).

Definition limits_invalid (l : RequestGateConfig) : bool :=
  outside 1 (Z.shiftl 64 10) (rg_MaxHeaderBytes l) || outside 1 256 (rg_MaxHeaderCount l)
  || outside 1 (Z.shiftl 16 10) (rg_MaxURLBytes l) || outside 1 (Z.shiftl 1 20) (rg_MaxRawBodyBytes l).

Definition add_value (name value : string) (n : Z * Z) : Z * Z := (n.1 + strlen name + strlen value + 4, n.2 + 1).

(** [for name, values := range request.Header], in the order [names]. *)
Fixpoint count_headers (l : RequestGateConfig) (h : Header) (names : list string) (n : Z * Z) : result GateHTTPError (Z * Z) :=
  match names with
  | [] => Ok n
  | name :: names =>
      let values := default [] (h !! name) in
      if bool_decide (name = "") || bool_decide (values = []) then Err ErrGateHTTPMalformed
      else
      let n := foldl (fun n v => add_value name v n) n values in
      if (rg_MaxHeaderBytes l <? n.1) || (rg_MaxHeaderCount l <? n.2) then Err ErrGateHeadersTooLarge
      else count_headers l h names n
  end.

Definition NormalizeGateHTTPRequest (request : http_Request) (names : list string) (body : list Z) (limits : RequestGateConfig) : result GateHTTPError GateHTTPRequest :=
  if bool_decide (hr_Method request = "") || bool_decide (hr_Host request = "") || outside 1 2 (hr_ProtoMajor request) then Err ErrGateHTTPMalformed
  else
  let limits := RequestGateConfig_WithDefaults limits in
  if limits_invalid limits then Err ErrGateHTTPMalformed
  else
  let urlValue := RequestURI (hr_URL request) in
  if rg_MaxURLBytes limits <? strlen urlValue then Err ErrGateURLTooLong
  else if rg_MaxRawBodyBytes limits <? blen body then Err ErrGateBodyTooLarge
  else
  let start := (strlen (hr_Method request) + strlen urlValue + strlen (hr_Proto request) + strlen (hr_Host request) + 12, 1) in
  let? n := count_headers limits (hr_Header request) names start in
  if (rg_MaxHeaderBytes limits <? n.1) || (rg_MaxHeaderCount limits <? n.2) then Err ErrGateHeadersTooLarge
  else
  Ok (mkGateHTTPRequest (hr_Method request) "" (hr_Host request) (EscapedPath (hr_URL request)) (u_RawQuery (hr_URL request)) (hr_Header request) body
        (hr_Proto request) (header_Get (hr_Header request) "Content-Type") (TrimSpace (ToLower (header_Get (hr_Header request) "Content-Encoding"))) n.1).

(** ** The decoded body *)

Inductive DecodeError : Type := ErrGateUnsupportedEncoding | ErrGateDecompressionLimit | ErrGateDecompressionInvalid | ErrGateBodyPartial
| DecodeContext (deadline : bool).   (** the context ended, by its deadline or not *)

(** What a decoder yields: its content, and whether it ends without an error. *)
Definition decoder : Type := list Z -> option (list Z * bool).

(** The reading loop: at most [maximum] bytes, and then the end of the content.
    How the content arrives in pieces does not matter; [ended]: the context ends
    before the loop does, by its deadline or not. *)
Definition read_decoded (ended : option bool) (maximum : Z) (content : list Z) (clean : bool) : result DecodeError (list Z) :=
  match ended with
  | Some deadline => Err (DecodeContext deadline)
  | None =>
      if maximum <? blen content then Err ErrGateDecompressionLimit
      else if clean then Ok content else Err ErrGateDecompressionInvalid
  end.

Definition DecodeGateBody (gzip zlib : decoder) (ended ended_reading : option bool) (encoding : string) (raw : list Z) (rawTruncated : bool) (maxDecodedBytes maxRatio : Z) : result DecodeError (list Z) :=
  if outside 1 (Z.shiftl 4 20) maxDecodedBytes || outside 1 100 maxRatio || (Z.shiftl 1 20 <? blen raw) then Err ErrGateDecompressionInvalid
  else match ended with Some deadline => Err (DecodeContext deadline) | None =>
  if rawTruncated then Err ErrGateBodyPartial
  else
  let encoding := ToLower (TrimSpace encoding) in
  if bool_decide (encoding = "") || bool_decide (encoding = "identity") then
    if maxDecodedBytes <? blen raw then Err ErrGateDecompressionLimit else Ok raw
  else
  let decode (d : decoder) :=
    match d raw with
    | None => Err ErrGateDecompressionInvalid
    | Some (content, clean) =>
        let ratioMaximum := blen raw * maxRatio in
        read_decoded ended_reading (if ratioMaximum <? maxDecodedBytes then ratioMaximum else maxDecodedBytes) content clean
    end in
  if bool_decide (encoding = "gzip") then decode gzip
  else if bool_decide (encoding = "deflate") then decode zlib
  else Err ErrGateUnsupportedEncoding
  end.

(** ** The buffered body *)

Record BufferedRequestBody : Type := mkBody {
  bb_buffered : list Z;
  bb_source : list Z;      (** what the source still holds *)
  bb_max : Z;
  bb_oversize : bool;
  bb_used : bool;
  bb_closed : bool
}.

(** Why the body could not be read. *)
Inductive BodyError : Type :=
| BodyMalformed
| BodyContext (deadline : bool)   (** the context ended, by its deadline or not *)
| BodyFailed (timeout : bool).    (** the source failed *)

(** [source] is what the client sends, [failure] how the source ends if not with
    EOF; [before] and [after] are [ctx.Err()] at the two places it is asked. *)
Definition ReadGateRequestBody (before after : option bool) (source : list Z) (failure : option bool) (max : Z) : result BodyError BufferedRequestBody :=
  if outside 1 (Z.shiftl 1 20) max then Err BodyMalformed
  else match before with
  | Some deadline => Err (BodyContext deadline)
  | None =>
      let limit := Z.to_nat (max + 1) in
      let failed := if blen source <? max + 1 then failure else None in
      match failed, after with
      | Some _, Some deadline => Err (BodyContext deadline)
      | Some timeout, None => Err (BodyFailed timeout)
      | None, Some deadline => Err (BodyContext deadline)
      | None, None => Ok (mkBody (take limit source) (drop limit source) max (max <? blen (take limit source)) false false)
      end
  end.

Definition InspectionPrefix (b : BufferedRequestBody) : list Z * bool :=
  (take (Z.to_nat (Z.min (blen (bb_buffered b)) (bb_max b))) (bb_buffered b), bb_oversize b).

Definition body_Close (b : BufferedRequestBody) : BufferedRequestBody :=
  if bb_closed b || bb_used b then b else mkBody (bb_buffered b) (bb_source b) (bb_max b) (bb_oversize b) (bb_used b) true.

(** The reader that an upstream request gets: the buffered bytes and the rest. *)
Definition ReplayAfterAllow (d : RequestDecision) (expectedRequestID : string) (b : BufferedRequestBody) : option (list Z * BufferedRequestBody) :=
  if negb (bool_decide (rd_Verdict d = RequestAllow)) || bool_decide (rd_DecisionID d = "") || bool_decide (rd_RequestID d = "")
     || negb (bool_decide (rd_RequestID d = expectedRequestID)) || negb (RequestCoverage_Valid (rd_Coverage d)) then None
  else if bb_used b || bb_closed b then None
  else Some (bb_buffered b ++ bb_source b, mkBody (bb_buffered b) (bb_source b) (bb_max b) (bb_oversize b) true (bb_closed b)).

(** ** The identity of a request *)

Record Allocator : Type := mkAllocator { al_connectionID : string; al_next : Z }.

Definition is_hex (s : string) : bool := all_chars (fun c => match hex_value c with Some _ => true | None => false end) s.

Definition NewRequestIdentityAllocator (connectionID : string) : option Allocator :=
  if (strlen connectionID =? 32) && is_hex connectionID then Some (mkAllocator connectionID 0) else None.

Inductive NormalizeError : Type := ErrRequestIdentity | NormalizeHTTP (e : GateHTTPError).

(** [random]: the sixteen random bytes; the ordinal is taken with compare and swap. *)
Definition NormalizeRequest (random : option (list Z)) (al : Allocator) (request : http_Request) (names : list string) (body : list Z)
    (sessionID : string) (secure : bool) (limits : RequestGateConfig) : Allocator * result NormalizeError (RequestContext * GateHTTPRequest) :=
  match NormalizeGateHTTPRequest request names body limits with
  | Err e => (al, Err (NormalizeHTTP e))
  | Ok n =>
      match random with
      | None => (al, Err ErrRequestIdentity)
      | Some bytes =>
          if al_next al =? 2 ^ 64 - 1 then (al, Err ErrRequestIdentity)
          else
          let ordinal := al_next al + 1 in
          let scheme := if secure then "https" else "http" in
          let n := mkGateHTTPRequest (gh_Method n) scheme (gh_Host n) (gh_Path n) (gh_RawQuery n) (gh_Headers n) (gh_Body n) (gh_HTTPVersion n) (gh_ContentType n) (gh_ContentEncoding n) (gh_HeaderBytes n) in
          (mkAllocator (al_connectionID al) ordinal,
           Ok (mkRequestContext (hex_EncodeToString bytes) (al_connectionID al) sessionID ordinal None (gh_HTTPVersion n) (gh_Method n) scheme (gh_Host n) (gh_Path n)
                 (negb (bool_decide (u_RawQuery (hr_URL request) = "")) || u_ForceQuery (hr_URL request)) (gh_ContentType n) (gh_ContentEncoding n) (gh_HeaderBytes n)
                 (blen (gh_Body n))
                 (if bool_decide (gh_ContentEncoding n = "") || bool_decide (gh_ContentEncoding n = "identity") then blen (gh_Body n) else 0)
                 (if 0 <? blen (gh_Body n) then hex_EncodeToString (Sum256 (gh_Body n)) else "") false, n))
      end
  end.

Definition NormalizeBufferedRequest (random : option (list Z)) (al : Allocator) (request : http_Request) (names : list string) (b : BufferedRequestBody)
    (sessionID : string) (secure : bool) (limits : RequestGateConfig) : Allocator * result NormalizeError (RequestContext * GateHTTPRequest) :=
  let '(prefix, oversize) := InspectionPrefix b in
  let '(al, r) := NormalizeRequest random al request names prefix sessionID secure limits in
  (al, match r with Ok (context, n) => Ok (context <| rq_Truncated := oversize |>, n) | Err e => Err e end).
