(* ===== verification/HttpGate.v ===== *)
(** * The gate in front of every request

    internal/proxy/http1_gate.go and request_result.go: one request from its
    arrival to the client's answer.  [handleRequest] runs over what its
    environment answers (the client's body, the inspector, the engine, the
    upstream server) and lists what it does, in order; the gate's counters are
    entries of that list. *)

From Stdlib Require Import Ascii.
From S2P Require Import Prelude GoStr Bytes Sha256 Netip Domain Flow SessionStore Config TLSExclusion Validate.
From S2P Require Import Connectivity EventRing Interleave Runtime GateFrame GateIPC GateEvidence GateVerdict GateRuntime GateService.
From S2P Require Import RequestPcap RequestEve HttpRequest.

(** ** Request slots *)

Record gate_slots : Type := mkSlots { gl_slots : Z; gl_clients : gmap Addr Z }.

Definition no_slots : gate_slots := mkSlots 0 ∅.

Definition acquire (limits : RequestGateConfig) (client : Addr) (g : gate_slots) : option gate_slots :=
  let client := Unmap client in
  if negb (addr_IsValid client) then None
  else
  let limits := RequestGateConfig_WithDefaults limits in
  let count := default 0 (gl_clients g !! client) in
  if rg_MaxPerClientRequests limits <=? count then None
  else if gl_slots g <? rg_MaxConcurrentRequests limits then Some (mkSlots (gl_slots g + 1) (<[client := count + 1]> (gl_clients g)))
  else None.

(** [None]: the receive from the empty channel would wait for ever. *)
Definition release (client : Addr) (g : gate_slots) : option gate_slots :=
  let client := Unmap client in
  if 0 <? gl_slots g then
    let count := default 0 (gl_clients g !! client) - 1 in
    Some (mkSlots (gl_slots g - 1) (if count =? 0 then delete client (gl_clients g) else <[client := count]> (gl_clients g)))
  else None.

(** ** Decisions and codes *)

Definition validRequestDecision (request : RequestContext) (d : RequestDecision) (minimumGeneration : Z) : bool :=
  if bool_decide (rd_DecisionID d = "") || negb (bool_decide (rd_RequestID d = rq_RequestID request)) || (rd_ConfigGeneration d <? minimumGeneration)
     || negb (RequestCoverage_Valid (rd_Coverage d)) || bool_decide (rd_ReasonCode d = "") then false
  else match rd_Verdict d with
  | RequestAllow => rd_HTTPStatus d =? 0
  | RequestBlock => (rd_HTTPStatus d =? 403) || (rd_HTTPStatus d =? 413) || (rd_HTTPStatus d =? 503) || (rd_HTTPStatus d =? 400)
  | _ => false
  end.

Definition gateParseStatus (e : NormalizeError) : Z :=
  match e with
  | NormalizeHTTP ErrGateHeadersTooLarge => 431
  | NormalizeHTTP ErrGateURLTooLong => 414
  | NormalizeHTTP ErrGateBodyTooLarge => 413
  | _ => 400
  end.

(** Why an inspection gave no result. *)
Inductive InspectFailure : Type := InspectDeadline | InspectQueueFull | InspectDecode (e : DecodeError) | InspectOther.

Definition inspectionFailureCode (e : InspectFailure) : string :=
  match e with
  | InspectDeadline | InspectDecode (DecodeContext true) => "GATE_INSPECTION_TIMEOUT"
  | InspectQueueFull => "GATE_QUEUE_FULL"
  | InspectDecode ErrGateUnsupportedEncoding => "GATE_UNSUPPORTED_ENCODING"
  | InspectDecode ErrGateDecompressionInvalid => "GATE_REQUEST_MALFORMED"
  | InspectDecode ErrGateDecompressionLimit => "GATE_DECOMPRESSION_LIMIT"
  | InspectDecode _ | InspectOther => "GATE_SENSOR_UNAVAILABLE"
  end.

(** ** What is sent upstream *)

Definition hop_headers : list string :=
  ["Connection"; "Proxy-Connection"; "Keep-Alive"; "Proxy-Authenticate"; "Proxy-Authorization"; "TE"; "Trailer"; "Transfer-Encoding"; "Upgrade"; "Expect"].

Definition stripHopHeaders (h : Header) : Header :=
  let named := header_Values h "Connection" ≫= fun item => TrimSpace <$> Split "," item in
  foldl header_Del (foldl header_Del h named) hop_headers.

Record UpstreamRequest : Type := mkUpstream {
  up_Method : string;
  up_Scheme : string;
  up_Target : AddrPort;
  up_URL : URL;
  up_Host : string;
  up_Header : Header;
  up_ContentLength : Z;
  up_Trailer : Header;
  up_Body : list Z
}.

Inductive UpstreamFailure : Type := UpstreamMTLS | UpstreamVerify | UpstreamHandshake | UpstreamConnect.

Definition upstreamFailureCode (e : UpstreamFailure) (secure : bool) : string :=
  match e with
  | UpstreamMTLS => "TLS_UPSTREAM_MTLS_UNSUPPORTED"
  | UpstreamVerify => "TLS_UPSTREAM_VERIFY_FAILED"
  | UpstreamHandshake => "TLS_UPSTREAM_HANDSHAKE_FAILED"
  | UpstreamConnect => if secure then "TLS_UPSTREAM_CONNECT_FAILED" else "UPSTREAM_CONNECT_FAILED"
  end.

Record UpstreamResponse : Type := mkResponse { rp_Status : Z; rp_Header : Header; rp_Body : list Z; rp_Complete : bool }.

(** ** What the gate does *)

Inductive gate_action : Type :=
| Count (counter : string)
| Active (delta : Z)
| Inspect (requestID : string) (request : GateHTTPRequest)
| Evaluate (evaluation : ProxyRequestEvaluation) (generation : Z)
| Status (code : Z) (close : bool)
| Forward (request : UpstreamRequest)
| Respond (status : Z) (header : Header) (body : list Z)
| AbortResponse
| Report (r : ProxyRequestResult).

Record GateConn : Type := mkGateConn {
  gn_ConnectionID : string;
  gn_ClientAddress : AddrPort;
  gn_OriginalDestination : AddrPort;
  gn_TLS : bool
}.

(** The environment of one request. *)
Record GateEnv : Type := mkEnv {
  en_deadline_set : bool;                       (** [SetReadDeadline] succeeds *)
  en_before : option bool;                      (** the request's context, see [ReadGateRequestBody] *)
  en_after : option bool;
  en_source : list Z;                           (** the body the client sends *)
  en_failure : option bool;
  en_late : bool;                               (** the deadline has passed when the body failed *)
  en_random : option (list Z);
  en_names : list string;                       (** the order in which the headers are visited *)
  en_gzip : decoder;
  en_zlib : decoder;
  en_decode_ended : option bool;                (** the context at the two places of [DecodeGateBody] *)
  en_decode_reading : option bool;
  en_inspector : option (string -> GateHTTPRequest -> result InspectFailure RequestInspectionResult);
  en_authorizer : ProxyRequestEvaluation -> Z -> option RequestDecision;
  en_reporter : option (ProxyRequestResult -> bool);   (** whether the engine takes the report *)
  en_buildable : bool;                          (** [http.NewRequestWithContext] succeeds *)
  en_upstream : UpstreamRequest -> bool * result UpstreamFailure UpstreamResponse
}.

Definition writeGateStatus (request : http_Request) (status : Z) : gate_action := Status status (hr_ProtoMajor request =? 1).

Definition upstream_request (inbound : http_Request) (body : list Z) (target : AddrPort) (secure : bool) : UpstreamRequest :=
  mkUpstream (hr_Method inbound) (if secure then "https" else "http") target
    (mkURL "" "" (u_Path (hr_URL inbound)) (u_RawPath (hr_URL inbound)) (u_RawQuery (hr_URL inbound)) (u_ForceQuery (hr_URL inbound)))
    (hr_Host inbound) (stripHopHeaders (hr_Header inbound)) (hr_ContentLength inbound) (hr_Trailer inbound) body.

Definition upstream_counter (e : UpstreamFailure) : string :=
  match e with
  | UpstreamMTLS => "upstream_mtls_unsupported"
  | UpstreamVerify => "upstream_verify_fail"
  | UpstreamHandshake => "upstream_handshake_fail"
  | UpstreamConnect => "upstream_connect_fail"
  end.

(** The report of a result, which nothing retries. *)
Definition reportResult (env : GateEnv) (r : ProxyRequestResult) : list gate_action :=
  match en_reporter env with
  | None => []
  | Some accepts => Report r :: if accepts r then [] else [Count "result_report_fail"]
  end.

Definition forwardAllowed (env : GateEnv) (inbound : http_Request) (body : list Z) (target : AddrPort) (secure : bool) (context : RequestContext) (d : RequestDecision) : list gate_action :=
  let report status code requested := reportResult env (mkProxyRequestResult "" (rd_ConfigGeneration d) (rq_RequestID context) (rq_ConnectionID context) (rd_DecisionID d) status code requested) in
  if negb (en_buildable env) then writeGateStatus inbound 400 :: report 400 "UPSTREAM_REQUEST_INVALID" false
  else
  let up := upstream_request inbound body target secure in
  let '(requested, answer) := en_upstream env up in
  Forward up ::
  match answer with
  | Err e => Count (upstream_counter e) :: writeGateStatus inbound 502 :: report 502 (upstreamFailureCode e secure) requested
  | Ok response =>
      if rp_Status response =? 101 then writeGateStatus inbound 502 :: report 502 "UPSTREAM_RESPONSE_INVALID" requested
      else
      Respond (rp_Status response) (stripHopHeaders (rp_Header response)) (rp_Body response) ::
      if rp_Complete response then report (rp_Status response) "UPSTREAM_RESPONSE_RECEIVED" requested
      else report (rp_Status response) "UPSTREAM_RESPONSE_TRUNCATED" requested ++ [AbortResponse]
  end.

(** The evidence for the engine, with the view that was inspected if one was. *)
Definition unavailable_evidence (context : RequestContext) (limits : RequestGateConfig) (coverage : RequestCoverage) (code : string) : RequestInspectionResult :=
  mkRequestInspectionResult (rq_RequestID context) coverage false [] code 0 (rg_RulesetID limits) "".

Definition gather_evidence (env : GateEnv) (limits : RequestGateConfig) (context : RequestContext) (n : GateHTTPRequest) : list gate_action * RequestContext * RequestInspectionResult :=
  let unavailable := unavailable_evidence context limits in
  if rq_Truncated context then ([Count "body_limit"], context, unavailable RequestCoveragePartial "GATE_REQUEST_TOO_LARGE")
  else
  match DecodeGateBody (en_gzip env) (en_zlib env) (en_decode_ended env) (en_decode_reading env) (gh_ContentEncoding n) (gh_Body n) false (rg_MaxDecompressedBodyBytes limits) (rg_MaxDecompressionRatio limits) with
  | Err e =>
      ([], context, unavailable (match e with ErrGateDecompressionLimit => RequestCoveragePartial | _ => RequestCoverageUnavailable end)
                      (inspectionFailureCode (InspectDecode e)))
  | Ok decoded =>
      let context := context <| rq_DecodedBodyBytes := blen decoded |> in
      let n := mkGateHTTPRequest (gh_Method n) (gh_Scheme n) (gh_Host n) (gh_Path n) (gh_RawQuery n) (gh_Headers n) decoded (gh_HTTPVersion n) (gh_ContentType n) (gh_ContentEncoding n) (gh_HeaderBytes n) in
      match en_inspector env with
      | None => ([], context, unavailable RequestCoverageUnavailable "GATE_SENSOR_UNAVAILABLE")
      | Some inspect =>
          ([Inspect (rq_RequestID context) n], context,
           match inspect (rq_RequestID context) n with
           | Err e => unavailable RequestCoverageUnavailable (inspectionFailureCode e)
           | Ok result =>
               if bool_decide (ri_RequestID result = rq_RequestID context) && RequestCoverage_Valid (ri_Coverage result) then result
               else unavailable RequestCoverageUnavailable "GATE_SENSOR_UNAVAILABLE"
           end)
      end
  end.

Definition evidence_counter (code : string) : list gate_action :=
  if bool_decide (code = "GATE_INSPECTION_TIMEOUT") then [Count "inspection_timeout"]
  else if bool_decide (code = "GATE_QUEUE_FULL") then [Count "queue_rejected"]
  else if bool_decide (code = "GATE_DECOMPRESSION_LIMIT") then [Count "decompression_limit"]
  else [].

(** From the evidence to the answer. *)
Definition judge (env : GateEnv) (request : http_Request) (conn : GateConn) (cd : ProxyConnectionDecision) (body : BufferedRequestBody)
    (context : RequestContext) (evidence : RequestInspectionResult) : list gate_action :=
  let evaluation := mkProxyRequestEvaluation "" 0 context evidence in
  let generation := cd_ConfigGeneration cd in
  Evaluate evaluation generation ::
  let refuse := [Count "engine_unavailable"; writeGateStatus request 503] in
  match en_authorizer env evaluation generation with
  | None => refuse
  | Some d =>
      if negb (validRequestDecision context d generation) then refuse
      else if negb (bool_decide (rd_Verdict d = RequestAllow)) then
        Count "request_blocked" ::
        (if (rd_HTTPStatus d =? 503) || (rd_HTTPStatus d =? 413) then [Count "fail_close"] else []) ++ [writeGateStatus request (rd_HTTPStatus d)]
      else
        Count "request_allowed" ::
        (if negb (bool_decide (rd_Coverage d = CoverageComplete)) then [Count "fail_open"] else []) ++
        match ReplayAfterAllow d (rq_RequestID context) body with
        | None => [writeGateStatus request 503]
        | Some (replay, _) => forwardAllowed env request replay (gn_OriginalDestination conn) (gn_TLS conn) context d
        end
  end.

Definition unsupported (request : http_Request) : bool :=
  (negb (hr_ProtoMajor request =? 1) && negb (hr_ProtoMajor request =? 2)) || ((hr_ProtoMajor request =? 1) && negb (hr_ProtoMinor request =? 1))
  || ((hr_ProtoMajor request =? 2) && negb (hr_ProtoMinor request =? 0)) || bool_decide (hr_Method request = "CONNECT")
  || negb (bool_decide (header_Get (hr_Header request) "Upgrade" = "")).

(** A request that has its slot. *)
Definition serve_request (env : GateEnv) (request : http_Request) (conn : GateConn) (cd : ProxyConnectionDecision) (al : Allocator) (limits : RequestGateConfig) : Allocator * list gate_action :=
  if (hr_ProtoMajor request =? 1) && negb (en_deadline_set env) then (al, [writeGateStatus request 503])
  else match ReadGateRequestBody (en_before env) (en_after env) (en_source env) (en_failure env) (rg_MaxRawBodyBytes limits) with
  | Err e =>
      let late := match e with BodyContext deadline => deadline | BodyFailed timeout => timeout | BodyMalformed => false end || en_late env in
      (al, if late then [Count "inspection_timeout"; writeGateStatus request 503] else [writeGateStatus request 400])
  | Ok body =>
      let '(al, normalized) := NormalizeBufferedRequest (en_random env) al request (en_names env) body (cd_SessionID cd) (gn_TLS conn) limits in
      match normalized with
      | Err e => (al, [writeGateStatus request (gateParseStatus e)])
      | Ok (context, n) =>
          if rq_Truncated context && negb (bool_decide (hr_Trailer request = ∅)) then (al, [writeGateStatus request 400])
          else
          let '(actions, context, evidence) := gather_evidence env limits context n in
          (al, actions ++ evidence_counter (ri_ErrorCode evidence) ++ judge env request conn cd body context evidence)
      end
  end.

(** The handler; [None] in the slots would be a release that waits for ever. *)
Definition handleRequest (env : GateEnv) (request : http_Request) (conn : GateConn) (cd : ProxyConnectionDecision) (al : Allocator) (limits gateLimits : RequestGateConfig)
    (g : gate_slots) : Allocator * option gate_slots * list gate_action :=
  if unsupported request then (al, Some g, [Count "intercepted"; writeGateStatus request 400])
  else match acquire gateLimits (ap_Addr (gn_ClientAddress conn)) g with
  | None => (al, Some g, [Count "intercepted"; Count "capacity_rejected"; writeGateStatus request 503])
  | Some g =>
      let '(al, actions) := serve_request env request conn cd al limits in
      (al, release (ap_Addr (gn_ClientAddress conn)) g, Count "intercepted" :: Active 1 :: actions ++ [Active (-1)])
  end.

(** ** The adapters that production uses *)

(** [SuricataRequestInspector]: the pool's answer, read as evidence. *)
Definition suricata_InspectRequest (pool : option (string -> GateHTTPRequest -> result InspectFailure Result)) (normalize : Result -> RequestInspectionResult)
    (id : string) (request : GateHTTPRequest) : result InspectFailure RequestInspectionResult :=
  match pool with
  | None => Err InspectOther
  | Some inspect => match inspect id request with Err e => Err e | Ok job => Ok (normalize job) end
  end.

Record IPCRequestAuthorizer : Type := mkAuthorizer { au_EngineInstanceID : string; au_Generation : Z }.

(** The client's call: the metadata of a reply that it accepts, and the decoded
    decision. *)
Definition engine_call : Type := ProxyRequestEvaluation -> Z -> option (ResponseMeta * RequestDecision).

Definition ipc_EvaluateRequest (client : option engine_call) (au : IPCRequestAuthorizer) (evaluation : ProxyRequestEvaluation) (generation : Z) : option RequestDecision :=
  match client with
  | None => None
  | Some call =>
      if negb (au_Generation au =? 0) && negb (generation =? au_Generation au) then None
      else
      let evaluation := mkProxyRequestEvaluation (au_EngineInstanceID au) (au_Generation au) (pe_Context evaluation) (pe_Inspection evaluation) in
      match call evaluation generation with
      | None => None
      | Some (meta, d) =>
          if negb (bool_decide (GateIPC.DecisionID meta = rd_DecisionID d)) || negb (GateIPC.ConfigGeneration meta =? rd_ConfigGeneration d)
             || negb (validRequestDecision (pe_Context evaluation) d generation) then None
          else if negb (au_Generation au =? 0) && negb (rd_ConfigGeneration d =? au_Generation au) then None
          else Some d
      end
  end.

(** The call that delivers a report. *)
Definition report_call : Type := ProxyRequestResult -> Z -> option (ResponseMeta * RequestResultReceipt).

Definition ipc_ReportRequestResult (client : option report_call) (au : IPCRequestAuthorizer) (r : ProxyRequestResult) : option RequestResultReceipt :=
  match client with
  | None => None
  | Some call =>
      if negb (au_Generation au =? 0) && negb (pq_ConfigGeneration r =? au_Generation au) then None
      else
      let r := mkProxyRequestResult (au_EngineInstanceID au) (pq_ConfigGeneration r) (pq_RequestID r) (pq_ConnectionID r) (pq_DecisionID r) (pq_HTTPStatus r) (pq_ReasonCode r) (pq_ClientCertificateRequested r) in
      match call r (pq_ConfigGeneration r) with
      | None => None
      | Some (meta, receipt) =>
          if negb (bool_decide (GateIPC.DecisionID meta = pq_DecisionID r)) || negb (GateIPC.ConfigGeneration meta =? pq_ConfigGeneration r)
             || negb (bool_decide (rc_DecisionID receipt = pq_DecisionID r)) || negb (bool_decide (rc_RequestID receipt = pq_RequestID r))
             || negb (rc_ConfigGeneration receipt =? pq_ConfigGeneration r) then None
          else Some receipt
      end
  end.

(** ** A connection *)

Inductive ServeError : Type := ErrGateHandlerMissing | ServeMalformed | ServeIdentity.

(** What [ServeHTTPConnection] checks before it serves: [handshake] is the state of
    a TLS connection, whether its handshake is complete and the protocol agreed. *)
Definition connection_refused (authorizer : bool) (conn : GateConn) (cd : ProxyConnectionDecision) (handshake : option (bool * string)) : bool :=
  negb authorizer || negb (addrport_IsValid (gn_OriginalDestination conn)) || (cd_ConfigGeneration cd =? 0)
  || negb (bool_decide (cd_UpstreamIP cd = addr_String (Unmap (ap_Addr (gn_OriginalDestination conn)))))
  || negb (cd_UpstreamPort cd =? ap_Port (gn_OriginalDestination conn))
  || (if gn_TLS conn then
        match handshake with
        | Some (true, protocol) =>
            negb (bool_decide (cd_Action cd = TLSGateDecrypt))
            || negb (bool_decide (protocol = "") || bool_decide (protocol = "http/1.1") || bool_decide (protocol = "h2"))
        | _ => true
        end
      else negb (bool_decide (cd_Action cd = TLSGateInspectHTTP))).

Definition serve_limits_invalid (l : RequestGateConfig) : bool :=
  outside 1 1024 (rg_MaxConcurrentRequests l) || outside 1 256 (rg_MaxHTTP2Streams l) || outside 1 1024 (rg_MaxPerClientRequests l)
  || outside 1 (Z.shiftl 64 10) (rg_MaxHeaderBytes l) || outside 1 (Z.shiftl 1 20) (rg_MaxRawBodyBytes l) || outside 100 30000 (rg_RequestTimeoutMillis l).

(** The requests of a connection, in the order in which the server hands them over;
    each comes with its own environment. *)
Fixpoint serve_requests (conn : GateConn) (cd : ProxyConnectionDecision) (limits gateLimits : RequestGateConfig) (requests : list (GateEnv * http_Request))
    (al : Allocator) (g : gate_slots) : Allocator * option gate_slots * list (list gate_action) :=
  match requests with
  | [] => (al, Some g, [])
  | (env, request) :: requests =>
      let '(al, slots, actions) := handleRequest env request conn cd al limits gateLimits g in
      match slots with
      | None => (al, None, [actions])
      | Some g =>
          let '(al, slots, rest) := serve_requests conn cd limits gateLimits requests al g in
          (al, slots, actions :: rest)
      end
  end.

Definition ServeHTTPConnection (authorizer : bool) (conn : GateConn) (cd : ProxyConnectionDecision) (handshake : option (bool * string)) (gateLimits : RequestGateConfig)
    (requests : list (GateEnv * http_Request)) (g : gate_slots) : result ServeError (option gate_slots * list (list gate_action)) :=
  if connection_refused authorizer conn cd handshake then Err ErrGateHandlerMissing
  else
  let limits := RequestGateConfig_WithDefaults gateLimits in
  if serve_limits_invalid limits then Err ServeMalformed
  else match NewRequestIdentityAllocator (gn_ConnectionID conn) with
  | None => Err ServeIdentity
  | Some al => let '(_, slots, actions) := serve_requests conn cd limits gateLimits requests al g in Ok (slots, actions)
  end.
