(* ===== verification/HttpGateProps.v ===== *)
(** * The request gate: what reaches the server, and the slots

    Theorems on internal/proxy/http1_gate.go: a request is forwarded only after the
    engine allowed this very request, with the body the client sent; slots are
    given back on every path; and what the choice of one [Content-Encoding] value
    means for the inspected body. *)

From Stdlib Require Import Ascii.
From S2P Require Import Prelude GoStr Bytes Sha256 Netip Domain Flow SessionStore Config TLSExclusion Validate.
From S2P Require Import Connectivity EventRing Interleave Runtime GateFrame GateIPC GateEvidence GateVerdict GateRuntime GateService.
From S2P Require Import RequestPcap RequestEve HttpRequest HttpGate.

(** ** Headers *)

Lemma header_Del_lookup (h : Header) name k : header_Del h name !! k = if bool_decide (k = CanonicalHeaderKey name) then None else h !! k.
Proof.
  unfold header_Del. case_bool_decide as Hk; [rewrite Hk; apply (lookup_delete_eq (M := gmap string)) | by apply (lookup_delete_ne (M := gmap string))].
Qed.

Lemma foldl_header_Del (names : list string) : forall (h : Header) k,
  foldl header_Del h names !! k = if bool_decide (k ∈ CanonicalHeaderKey <$> names) then None else h !! k.
Proof.
  induction names as [|name names IH]; intros h k; [done|].
  cbn [foldl]. rewrite IH, header_Del_lookup, fmap_cons.
  repeat case_bool_decide; rewrite ?elem_of_cons in *; naive_solver.
Qed.

(** The names that a message's own [Connection] header lists. *)
Definition connection_names (h : Header) : list string := header_Values h "Connection" ≫= fun item => TrimSpace <$> Split "," item.

Lemma stripHopHeaders_lookup (h : Header) (k : string) :
  stripHopHeaders h !! k = if bool_decide (k ∈ CanonicalHeaderKey <$> connection_names h ++ hop_headers) then None else h !! k.
Proof.
  unfold stripHopHeaders. fold (connection_names h). rewrite (foldl_header_Del hop_headers), (foldl_header_Del (connection_names h)), fmap_app.
  repeat case_bool_decide; rewrite ?elem_of_app in *; naive_solver.
Qed.

(** ** The body *)

(** What a buffered body holds of the body [source]. *)
Record body_of (source : list Z) (max : Z) (b : BufferedRequestBody) : Prop := {
  body_bytes : bb_buffered b ++ bb_source b = source;
  body_prefix : InspectionPrefix b = (take (Z.to_nat max) source, max <? blen source);
  body_fresh : bb_used b || bb_closed b = false
}.

Lemma body_whole before after source failure max b : ReadGateRequestBody before after source failure max = Ok b -> body_of source max b.
Proof.
  unfold ReadGateRequestBody. destruct (outside _ _ max) eqn:Hout; [done|]. destruct before; [done|].
  destruct (blen source <? max + 1), failure, after; try done; intros [= <-];
    apply orb_false_iff in Hout as [?%Z.ltb_ge ?%Z.ltb_ge];
    (split; cbn; [apply take_drop| |done]; unfold InspectionPrefix, blen; cbn; rewrite length_take, take_take; f_equal;
     [destruct (decide (Z.of_nat (length source) <= max)); [rewrite !take_ge by lia; done | f_equal; lia] | apply eq_iff_eq_true; rewrite !Z.ltb_lt; lia]).
Qed.

Lemma read_decoded_whole ended maximum content clean decoded : read_decoded ended maximum content clean = Ok decoded -> decoded = content /\ clean = true /\ blen content <= maximum.
Proof.
  unfold read_decoded. destruct ended; [done|]. destruct (_ <? _) eqn:Hlen; [done|]. destruct clean; [|done].
  intros [= <-]. apply Z.ltb_ge in Hlen. done.
Qed.

(** What the decoded body is, for each coding. *)
Definition decodes_to (env : GateEnv) (encoding : string) (raw decoded : list Z) : Prop :=
  let encoding := ToLower (TrimSpace encoding) in
  (encoding = "" \/ encoding = "identity") /\ decoded = raw
  \/ encoding = "gzip" /\ en_gzip env raw = Some (decoded, true)
  \/ encoding = "deflate" /\ en_zlib env raw = Some (decoded, true).

Lemma DecodeGateBody_spec env ended reading encoding raw maxBytes maxRatio decoded :
  DecodeGateBody (en_gzip env) (en_zlib env) ended reading encoding raw false maxBytes maxRatio = Ok decoded ->
  decodes_to env encoding raw decoded /\ blen decoded <= maxBytes /\ 1 <= maxBytes <= Z.shiftl 4 20.
Proof.
  unfold DecodeGateBody, decodes_to. destruct (_ || (Z.shiftl 1 20 <? _)) eqn:Hbad; [done|]. destruct ended; [done|].
  assert (Hrange : 1 <= maxBytes <= Z.shiftl 4 20).
  { apply orb_false_iff in Hbad as [[[?%Z.ltb_ge ?%Z.ltb_ge]%orb_false_iff _]%orb_false_iff _]. done. }
  set (coding := ToLower (TrimSpace encoding)). destruct (bool_decide (coding = "") || _) eqn:Hid.
  { destruct (maxBytes <? blen raw) eqn:Hlen; [done|]. intros [= <-]. apply Z.ltb_ge in Hlen.
    apply orb_true_iff in Hid as [H%bool_decide_eq_true_1|H%bool_decide_eq_true_1]; auto. }
  assert (Hdec : forall d : decoder, match d raw with
      | None => Err ErrGateDecompressionInvalid
      | Some (content, clean) => read_decoded reading (if blen raw * maxRatio <? maxBytes then blen raw * maxRatio else maxBytes) content clean
      end = Ok decoded -> d raw = Some (decoded, true) /\ blen decoded <= maxBytes).
  { intros d. destruct (d raw) as [[content clean]|]; [|done]. intros (-> & -> & Hlen)%read_decoded_whole. split; [done|].
    destruct (_ <? maxBytes) eqn:Hr; [apply Z.ltb_lt in Hr|]; lia. }
  destruct (bool_decide (coding = "gzip")) eqn:Hg; [intros [??]%Hdec; apply bool_decide_eq_true_1 in Hg; auto 6|].
  destruct (bool_decide (coding = "deflate")) eqn:Hz; [intros [??]%Hdec; apply bool_decide_eq_true_1 in Hz; auto 6|done].
Qed.

(** ** The identity of the request *)

Lemma NormalizeGateHTTPRequest_view request names body limits n : NormalizeGateHTTPRequest request names body limits = Ok n ->
  exists headerBytes, n = mkGateHTTPRequest (hr_Method request) "" (hr_Host request) (EscapedPath (hr_URL request)) (u_RawQuery (hr_URL request)) (hr_Header request) body
    (hr_Proto request) (header_Get (hr_Header request) "Content-Type") (TrimSpace (ToLower (header_Get (hr_Header request) "Content-Encoding"))) headerBytes.
Proof.
  unfold NormalizeGateHTTPRequest. repeat (case_match; [done|]). destruct (count_headers _ _ _ _) as [c|]; [|done].
  cbn. case_match; [done|]. intros [= <-]. by eexists.
Qed.

(** What the inspector is shown of [request]: everything as it is, and the whole
    body, decoded. *)
Record inspected_view (env : GateEnv) (request : http_Request) (view : GateHTTPRequest) : Prop := {
  view_Method : gh_Method view = hr_Method request;
  view_Host : gh_Host view = hr_Host request;
  view_Path : gh_Path view = EscapedPath (hr_URL request);
  view_RawQuery : gh_RawQuery view = u_RawQuery (hr_URL request);
  view_Headers : gh_Headers view = hr_Header request;
  view_Body : decodes_to env (TrimSpace (ToLower (header_Get (hr_Header request) "Content-Encoding"))) (en_source env) (gh_Body view)
}.

(** What a request is called, and how much of its body is looked at. *)
Record named_request (al al' : Allocator) (random : option (list Z)) (source : list Z) (max : Z) (context : RequestContext) : Prop := {
  named_ID : exists bytes, random = Some bytes /\ rq_RequestID context = hex_EncodeToString bytes;
  named_Connection : rq_ConnectionID context = al_connectionID al /\ al_connectionID al' = al_connectionID al;
  named_Ordinal : rq_RequestOrdinal context = al_next al + 1 /\ al_next al' = al_next al + 1;
  named_Truncated : rq_Truncated context = (max <? blen source)
}.

Lemma NormalizeBufferedRequest_spec random al request names b sessionID secure limits source max al' context n :
  NormalizeBufferedRequest random al request names b sessionID secure limits = (al', Ok (context, n)) -> body_of source max b ->
  named_request al al' random source max context /\
  gh_Method n = hr_Method request /\ gh_Host n = hr_Host request /\ gh_Path n = EscapedPath (hr_URL request) /\ gh_RawQuery n = u_RawQuery (hr_URL request) /\
  gh_Headers n = hr_Header request /\ gh_Body n = take (Z.to_nat max) source /\
  gh_ContentEncoding n = TrimSpace (ToLower (header_Get (hr_Header request) "Content-Encoding")).
Proof.
  unfold NormalizeBufferedRequest. intros Hn Hb. rewrite (body_prefix _ _ _ Hb) in Hn. unfold NormalizeRequest in Hn.
  destruct (NormalizeGateHTTPRequest _ _ _ _) as [view|e] eqn:Hview; [|done].
  apply NormalizeGateHTTPRequest_view in Hview as [headerBytes ->].
  destruct random as [bytes|]; [|done]. destruct (al_next al =? _); [done|].
  injection Hn as <- <- <-. cbn. split; [|done]. split; cbn; eauto.
Qed.

(** ** The evidence *)

Definition forwards (a : gate_action) : bool := match a with Forward _ => true | _ => false end.

Definition forwards_nothing (actions : list gate_action) : Prop := Forall (fun a => forwards a = false) actions.

Lemma forwards_nothing_no up actions : forwards_nothing actions -> Forward up ∉ actions.
Proof. intros H Hin. by apply (list.Forall_forall _ _) with (x := Forward up) in H. Qed.

Lemma gather_evidence_spec env limits context n actions context' evidence :
  gather_evidence env limits context n = (actions, context', evidence) ->
  forwards_nothing actions /\ ri_RequestID evidence = rq_RequestID context /\
  (exists decodedBytes, context' = context <| rq_DecodedBodyBytes := decodedBytes |>) /\
  (ri_Coverage evidence = CoverageComplete ->
   rq_Truncated context = false /\
   exists decoded, decodes_to env (gh_ContentEncoding n) (gh_Body n) decoded /\
     actions = [Inspect (rq_RequestID context) (mkGateHTTPRequest (gh_Method n) (gh_Scheme n) (gh_Host n) (gh_Path n) (gh_RawQuery n) (gh_Headers n) decoded (gh_HTTPVersion n) (gh_ContentType n) (gh_ContentEncoding n) (gh_HeaderBytes n))]).
Proof.
  unfold gather_evidence, forwards_nothing.
  assert (Hsame : exists decodedBytes, context = context <| rq_DecodedBodyBytes := decodedBytes |>) by (exists (rq_DecodedBodyBytes context); by destruct context).
  destruct (rq_Truncated context) eqn:Ht; [intros [= <- <- <-]; cbn; repeat split; try done; by repeat constructor|].
  destruct (DecodeGateBody _ _ _ _ _ _ _ _ _) as [decoded|e] eqn:Hd; cycle 1.
  { intros [= <- <- <-]. cbn. repeat split; try done. by destruct e. }
  apply DecodeGateBody_spec in Hd as [Hd _].
  destruct (en_inspector env) as [inspect|]; [|intros [= <- <- <-]; cbn; repeat split; eauto; done].
  intros Hq. injection Hq as <- <- <-. repeat split.
  - by repeat constructor.
  - cbn. destruct (inspect _ _) as [r|e]; [|done]. destruct (bool_decide _) eqn:Hid; [|done]. apply bool_decide_eq_true_1 in Hid. cbn in Hid. cbn [andb]. by case_match.
  - eauto.
  - eauto.
Qed.

(** ** The verdict *)

Lemma validRequestDecision_spec request d generation : validRequestDecision request d generation = true ->
  rd_DecisionID d <> "" /\ rd_RequestID d = rq_RequestID request /\ generation <= rd_ConfigGeneration d /\ RequestCoverage_Valid (rd_Coverage d) = true.
Proof.
  unfold validRequestDecision. destruct (_ || _) eqn:H; [done|]. intros _. repeat rewrite orb_false_iff in H.
  destruct H as [[[[?%bool_decide_eq_false_1 ?%negb_false_iff%bool_decide_eq_true_1] ?%Z.ltb_ge] ?%negb_false_iff] _]. done.
Qed.

Lemma reportResult_forwards env r : forwards_nothing (reportResult env r).
Proof. unfold reportResult, forwards_nothing. repeat case_match; by repeat constructor. Qed.

Lemma forwardAllowed_forwards env inbound body target secure context d :
  forwards_nothing (forwardAllowed env inbound body target secure context d) \/
  exists post, forwardAllowed env inbound body target secure context d = Forward (upstream_request inbound body target secure) :: post /\ forwards_nothing post.
Proof.
  pose proof reportResult_forwards as R. unfold forwards_nothing in *. unfold forwardAllowed. destruct (en_buildable env); cbn [negb]; [right|left; by constructor].
  destruct (en_upstream _ _) as [requested [response|e]]; (eexists; split; [done|]); [|by repeat constructor].
  destruct (_ =? 101); [by constructor|]. constructor; [done|]. destruct (rp_Complete response); [done|]. apply list.Forall_app. split; [done|by repeat constructor].
Qed.

(** A decision that lets [request] through. *)
Definition allowed (env : GateEnv) (cd : ProxyConnectionDecision) (context : RequestContext) (evidence : RequestInspectionResult) (d : RequestDecision) : Prop :=
  en_authorizer env (mkProxyRequestEvaluation "" 0 context evidence) (cd_ConfigGeneration cd) = Some d /\ rd_Verdict d = RequestAllow /\
  rd_RequestID d = rq_RequestID context /\ cd_ConfigGeneration cd <= rd_ConfigGeneration d.

Lemma judge_forwards env request conn cd body context evidence source max : body_of source max body ->
  exists rest, judge env request conn cd body context evidence = Evaluate (mkProxyRequestEvaluation "" 0 context evidence) (cd_ConfigGeneration cd) :: rest /\
  (forwards_nothing rest \/
   exists pre post d, rest = pre ++ Forward (upstream_request request source (gn_OriginalDestination conn) (gn_TLS conn)) :: post /\
     forwards_nothing pre /\ forwards_nothing post /\ allowed env cd context evidence d).
Proof.
  intros Hb. unfold judge. eexists. split; [done|]. unfold allowed, forwards_nothing.
  destruct (en_authorizer _ _ _) as [d|] eqn:Ha; [|left; by repeat constructor].
  destruct (validRequestDecision _ _ _) eqn:Hv; cbn [negb]; [|left; by repeat constructor].
  apply validRequestDecision_spec in Hv as (_ & Hid & Hgen & _).
  destruct (bool_decide (rd_Verdict d = _)) eqn:Hallow; cbn [negb]; [|left; constructor; [done|]; case_match; by repeat constructor].
  apply bool_decide_eq_true_1 in Hallow. set (open := if negb (bool_decide (rd_Coverage d = CoverageComplete)) then [Count "fail_open"] else []).
  assert (Hopen : Forall (fun a => forwards a = false) open) by (unfold open; case_match; by repeat constructor). clearbody open.
  unfold ReplayAfterAllow. destruct (_ || negb (RequestCoverage_Valid _)); [left; constructor; [done|]; apply list.Forall_app; split; [done|by repeat constructor]|].
  rewrite (body_fresh _ _ _ Hb), (body_bytes _ _ _ Hb).
  destruct (forwardAllowed_forwards env request source (gn_OriginalDestination conn) (gn_TLS conn) context d) as [Hn|(post & -> & Hpost)].
  - left. constructor; [done|]. apply list.Forall_app. done.
  - right. exists (Count "request_allowed" :: open), post, d. repeat split; try done. by constructor.
Qed.

(** Everything that is known when a request goes upstream. *)
Record forwarded (env : GateEnv) (request : http_Request) (conn : GateConn) (cd : ProxyConnectionDecision) (al al' : Allocator) (limits : RequestGateConfig)
    (actions : list gate_action) (up : UpstreamRequest) (context : RequestContext) (evidence : RequestInspectionResult) (d : RequestDecision) (pre post : list gate_action) : Prop := {
  fw_once : actions = pre ++ Forward up :: post /\ forwards_nothing pre /\ forwards_nothing post;
  fw_asked : Evaluate (mkProxyRequestEvaluation "" 0 context evidence) (cd_ConfigGeneration cd) ∈ pre;
  fw_allowed : allowed env cd context evidence d;
  fw_named : named_request al al' (en_random env) (en_source env) (rg_MaxRawBodyBytes limits) context;
  fw_request : up = upstream_request request (en_source env) (gn_OriginalDestination conn) (gn_TLS conn);
  fw_evidence : ri_RequestID evidence = rq_RequestID context;
  fw_inspected : ri_Coverage evidence = CoverageComplete ->
    exists view, Inspect (rq_RequestID context) view ∈ pre /\ inspected_view env request view
}.

Lemma evidence_counter_forwards code : forwards_nothing (evidence_counter code).
Proof. unfold evidence_counter, forwards_nothing. repeat case_match; by repeat constructor. Qed.

Lemma named_decoded al al' random source max context decodedBytes :
  named_request al al' random source max context -> named_request al al' random source max (context <| rq_DecodedBodyBytes := decodedBytes |>).
Proof. intros []. by split. Qed.

Lemma serve_request_forwards env request conn cd al limits al' actions up :
  serve_request env request conn cd al limits = (al', actions) -> Forward up ∈ actions ->
  exists context evidence d pre post, forwarded env request conn cd al al' limits actions up context evidence d pre post.
Proof.
  unfold serve_request. destruct (_ && _); [intros [= <- <-]; by intros ?%list_elem_of_singleton|].
  destruct (ReadGateRequestBody _ _ _ _ _) as [body|e] eqn:Hread; cycle 1.
  { intros [= <- <-]. intros Hin. exfalso. revert Hin. apply forwards_nothing_no. unfold forwards_nothing. case_match; by repeat constructor. }
  apply body_whole in Hread. destruct (NormalizeBufferedRequest _ _ _ _ _ _ _ _) as [al1 [[context n]|e]] eqn:Hn; cycle 1.
  { intros [= <- <-]; by intros ?%list_elem_of_singleton. }
  eapply NormalizeBufferedRequest_spec in Hn as (Hnamed & Hm & Hh & Hp & Hq & Hhd & Hbody & Henc); [|done].
  destruct (_ && _) eqn:Htr; [intros [= <- <-]; by intros ?%list_elem_of_singleton|].
  destruct (gather_evidence _ _ _ _) as [[acts context'] evidence] eqn:Hg. intros [= <- <-] Hin.
  apply gather_evidence_spec in Hg as (Hacts & Hid & [decodedBytes ->] & Hcomplete).
  edestruct (judge_forwards env request conn cd body (context <| rq_DecodedBodyBytes := decodedBytes |>) evidence) as (rest & Hj & Hrest); [done|].
  pose proof (evidence_counter_forwards (ri_ErrorCode evidence)) as Hcount. rewrite Hj in Hin |- *.
  destruct Hrest as [Hno|(pre & post & d & -> & Hpre & Hpost & Hallow)].
  { exfalso. revert Hin. apply forwards_nothing_no. unfold forwards_nothing in *. apply list.Forall_app. split; [done|]. apply list.Forall_app. split; [done|]. by constructor. }
  assert (Hup : up = upstream_request request (en_source env) (gn_OriginalDestination conn) (gn_TLS conn)).
  { rewrite !elem_of_app, elem_of_cons, elem_of_app, elem_of_cons in Hin.
    destruct Hin as [Hin|[Hin|[Hin|[Hin|[Hin|Hin]]]]]; try (by apply forwards_nothing_no in Hin); congruence. }
  subst up. eexists _, evidence, d, (acts ++ evidence_counter (ri_ErrorCode evidence) ++ Evaluate _ _ :: pre), post. split; try done.
  - rewrite <- !(assoc_L (++)). repeat split; try done. unfold forwards_nothing in *. apply list.Forall_app. split; [done|]. apply list.Forall_app. split; [done|]. by constructor.
  - rewrite !elem_of_app, elem_of_cons. auto.
  - by apply named_decoded.
  - intros Hc. specialize (Hcomplete Hc) as (Ht & decoded & Hdec & ->). eexists. split; [apply elem_of_app; left; apply list_elem_of_singleton; done|].
    split; cbn; try done. rewrite <- Henc. rewrite Hbody, take_ge in Hdec; [done|].
    rewrite (named_Truncated _ _ _ _ _ _ Hnamed) in Ht. apply Z.ltb_ge in Ht. unfold blen in Ht. lia.
Qed.

(** ** Slots *)

(** How many of the requests being served are [client]'s. *)
Definition held_by (client : Addr) (holders : list Addr) : Z := Z.of_nat (length (filter (fun a => Unmap a = client) holders)).

Definition counted (n : Z) : option Z := if n =? 0 then None else Some n.

(** The gate's book-keeping says exactly which requests are being served. *)
Record slots_for (holders : list Addr) (g : gate_slots) : Prop := {
  slots_total : gl_slots g = Z.of_nat (length holders);
  slots_client : forall client, gl_clients g !! client = counted (held_by client holders)
}.

(** Requests come and go: [holders] are the clients of those being served. *)
Inductive gate_run (limits : RequestGateConfig) : list Addr -> gate_slots -> Prop :=
| run_start : gate_run limits [] no_slots
| run_acquire holders g client g' : gate_run limits holders g -> acquire limits client g = Some g' -> gate_run limits (client :: holders) g'
| run_release before client after g g' : gate_run limits (before ++ client :: after) g -> release client g = Some g' -> gate_run limits (before ++ after) g'.

Lemma held_by_cons client a holders : held_by client (a :: holders) = (if decide (Unmap a = client) then 1 else 0) + held_by client holders.
Proof. unfold held_by. rewrite filter_cons. destruct (decide _); cbn [length]; lia. Qed.

Lemma held_by_mid client before a after : held_by client (before ++ a :: after) = (if decide (Unmap a = client) then 1 else 0) + held_by client (before ++ after).
Proof. unfold held_by. rewrite !filter_app, filter_cons, !length_app. destruct (decide _); cbn [length]; lia. Qed.

Lemma held_by_nonneg client holders : 0 <= held_by client holders.
Proof. unfold held_by. lia. Qed.

Lemma default_counted n : default 0 (counted n) = n.
Proof. unfold counted. destruct (n =? 0) eqn:H; [apply Z.eqb_eq in H|]; done. Qed.

Lemma acquire_for limits holders g client g' : slots_for holders g -> acquire limits client g = Some g' -> slots_for (client :: holders) g'.
Proof.
  intros [Ht Hc]. unfold acquire. repeat case_match; try done. intros [= <-]. split; cbn [gl_slots gl_clients].
  - cbn [length]. lia.
  - intros a. rewrite held_by_cons, Hc, default_counted. pose proof (held_by_nonneg a holders). case_decide as Hd.
    + subst a. rewrite lookup_insert_eq. unfold counted. replace (_ + _ =? 0) with false by (symmetry; apply Z.eqb_neq; lia). f_equal. lia.
    + rewrite lookup_insert_ne by done. apply Hc.
Qed.

Lemma release_for before client after g : slots_for (before ++ client :: after) g ->
  exists g', release client g = Some g' /\ slots_for (before ++ after) g'.
Proof.
  intros [Ht Hc]. unfold release. rewrite length_app in Ht. cbn [length] in Ht.
  replace (0 <? gl_slots g) with true by (symmetry; apply Z.ltb_lt; lia). eexists. split; [done|]. split; cbn [gl_slots gl_clients].
  - rewrite length_app. lia.
  - intros a. rewrite Hc, default_counted, held_by_mid, decide_True by done. pose proof (held_by_nonneg (Unmap client) (before ++ after)).
    replace (1 + _ - 1) with (held_by (Unmap client) (before ++ after)) by lia. destruct (decide (Unmap client = a)) as [<-|Hne].
    + unfold counted. destruct (_ =? 0); [apply lookup_delete_eq|apply lookup_insert_eq].
    + destruct (_ =? 0); [rewrite lookup_delete_ne by done | rewrite lookup_insert_ne by done]; rewrite Hc, held_by_mid, decide_False by done; f_equal; lia.
Qed.

Lemma gate_run_for limits holders g : gate_run limits holders g -> slots_for holders g.
Proof.
  induction 1 as [|holders g client g' _ IH Ha|before client after g g' _ IH Hr].
  - split; [done|]. intros client. apply lookup_empty.
  - eapply acquire_for; eauto.
  - destruct (release_for _ _ _ _ IH) as (g1 & Hr1 & Hg1). by simplify_eq.
Qed.

Lemma slots_for_unique holders g g' : slots_for holders g -> slots_for holders g' -> g = g'.
Proof. intros [H1 H2] [H3 H4]. destruct g, g'. cbn in *. f_equal; [lia|]. apply map_eq. intros a. by rewrite H2, H4. Qed.

Definition within (limits : RequestGateConfig) (g : gate_slots) : Prop :=
  0 <= gl_slots g <= rg_MaxConcurrentRequests (RequestGateConfig_WithDefaults limits) /\
  map_Forall (fun _ count => 0 < count <= rg_MaxPerClientRequests (RequestGateConfig_WithDefaults limits)) (gl_clients g).

Lemma acquire_within limits client g g' : within limits g -> acquire limits client g = Some g' -> within limits g'.
Proof.
  intros [Ht Hc]. unfold acquire. destruct (addr_IsValid _); [|done]. cbn [negb]. destruct (_ <=? _) eqn:Hp; [done|]. destruct (_ <? _) eqn:Hs; [|done].
  intros [= <-]. apply Z.leb_gt in Hp. apply Z.ltb_lt in Hs. split; cbn [gl_slots gl_clients]; [lia|].
  apply map_Forall_insert_2; [|done]. destruct (gl_clients g !! _) as [count|] eqn:Hl; cbn in *; [apply Hc in Hl|]; lia.
Qed.

Lemma counts_within limits before client after g : slots_for (before ++ client :: after) g -> within limits g -> forall g', slots_for (before ++ after) g' -> within limits g'.
Proof.
  intros [Ht Hc] [Hb Hbc] g' [Ht' Hc']. rewrite length_app in *. cbn [length] in *. split; [lia|].
  intros a count. rewrite Hc'. unfold counted. destruct (_ =? 0) eqn:H0; [done|]. intros [= <-]. apply Z.eqb_neq in H0. pose proof (held_by_nonneg a (before ++ after)).
  specialize (Hbc a (held_by a (before ++ client :: after))). rewrite Hc in Hbc. rewrite held_by_mid in Hbc. unfold counted in Hbc.
  destruct (decide _); (destruct (_ =? 0) eqn:H1 in Hbc; [apply Z.eqb_eq in H1; lia|]); specialize (Hbc eq_refl); lia.
Qed.

Lemma gate_run_within limits holders g : 0 <= rg_MaxConcurrentRequests (RequestGateConfig_WithDefaults limits) -> gate_run limits holders g -> within limits g.
Proof.
  intros H0. induction 1 as [|holders g client g' _ IH Ha|before client after g g' Hrun IH Hr].
  - split; [done|]. apply map_Forall_empty.
  - eapply acquire_within; eauto.
  - apply gate_run_for in Hrun as Hf. destruct (release_for _ _ _ _ Hf) as (g1 & Hr1 & Hg1). simplify_eq. eapply counts_within; eauto.
Qed.

Lemma handled_slots env request conn cd al limits gateLimits holders g : gate_run gateLimits holders g ->
  (handleRequest env request conn cd al limits gateLimits g).1.2 = Some g.
Proof.
  intros Hf%gate_run_for. unfold handleRequest. destruct (unsupported request); [done|]. destruct (acquire _ _ g) as [g1|] eqn:Ha; [|done].
  destruct (serve_request _ _ _ _ _ _) as [al' actions]. cbn. eapply acquire_for in Ha; [|done].
  destruct (release_for [] _ holders _ Ha) as (g2 & -> & Hg2). f_equal. by eapply slots_for_unique.
Qed.

(** C21. However requests come and go, the gate's slots count exactly the requests
    being served, in total and for each client, within the configured limits; a
    request being served can always give its slot back without waiting; and
    handling a request leaves the slots as they were, on every path. *)
Theorem gate_slots_balanced limits holders g : serve_limits_invalid (RequestGateConfig_WithDefaults limits) = false -> gate_run limits holders g ->
  slots_for holders g /\ within limits g /\ (forall client, client ∈ holders -> is_Some (release client g)) /\
  forall env request conn cd al requestLimits, (handleRequest env request conn cd al requestLimits limits g).1.2 = Some g.
Proof.
  intros Hl Hrun. pose proof (gate_run_for _ _ _ Hrun) as Hf. split; [done|]. split; [|split].
  - eapply gate_run_within; [|done]. unfold serve_limits_invalid, outside in Hl. repeat rewrite orb_false_iff in Hl. rewrite !Z.ltb_ge in Hl. lia.
  - intros client (before & after & ->)%list_elem_of_split. destruct (release_for _ _ _ _ Hf) as (g' & -> & _). eauto.
  - intros. by eapply handled_slots.
Qed.

(** C3. A request goes upstream only after the engine, asked about this request and
    the evidence gathered for it, answered with a decision that names it, is no
    older than the connection's and allows it; it goes out once, to the
    connection's original destination, with the body the client sent, byte for
    byte.  If the evidence claims complete coverage, the inspector was shown the
    request with its whole decoded body. *)
Theorem forward_needs_allow env request conn cd al limits gateLimits g al' slots actions up :
  handleRequest env request conn cd al limits gateLimits g = (al', slots, actions) -> Forward up ∈ actions ->
  exists context evidence d pre post, forwarded env request conn cd al al' limits actions up context evidence d pre post.
Proof.
  unfold handleRequest. destruct (unsupported request).
  { intros [= <- <- <-] Hin. rewrite !elem_of_cons, elem_of_nil in Hin. naive_solver. }
  destruct (acquire _ _ g) as [g1|]; cycle 1.
  { intros [= <- <- <-] Hin. rewrite !elem_of_cons, elem_of_nil in Hin. naive_solver. }
  destruct (serve_request _ _ _ _ _ _) as [al1 acts] eqn:Hs. intros [= <- <- <-] Hin.
  rewrite !elem_of_cons, elem_of_app, list_elem_of_singleton in Hin. destruct Hin as [|[|[Hin|]]]; try done.
  destruct (serve_request_forwards _ _ _ _ _ _ _ _ _ Hs Hin) as (context & evidence & d & pre & post & [(-> & Hpre & Hpost) Hask Hallow Hnamed Hup Hev Hins]).
  exists context, evidence, d, (Count "intercepted" :: Active 1 :: pre), (post ++ [Active (-1)]). split; try done.
  - repeat split; [by rewrite <- (assoc_L (++))| |]; unfold forwards_nothing in *; [by repeat constructor|]. apply list.Forall_app. split; [done|by repeat constructor].
  - rewrite !elem_of_cons. auto.
  - intros (view & Hin' & Hview)%Hins. exists view. rewrite !elem_of_cons. auto.
Qed.

(** ** What the inspector is shown *)

Definition inspects (a : gate_action) : bool := match a with Inspect _ _ => true | _ => false end.

Lemma judge_inspects env request conn cd body context evidence : Forall (fun a => inspects a = false) (judge env request conn cd body context evidence).
Proof.
  unfold judge, forwardAllowed, reportResult, writeGateStatus. repeat case_match; rewrite ?list.Forall_cons, ?list.Forall_app; repeat split; by repeat constructor.
Qed.

Lemma gather_inspects env limits context n id view :
  Inspect id view ∈ (gather_evidence env limits context n).1.1 ->
  rq_Truncated context = false /\ exists decoded, decodes_to env (gh_ContentEncoding n) (gh_Body n) decoded /\
  view = mkGateHTTPRequest (gh_Method n) (gh_Scheme n) (gh_Host n) (gh_Path n) (gh_RawQuery n) (gh_Headers n) decoded (gh_HTTPVersion n) (gh_ContentType n) (gh_ContentEncoding n) (gh_HeaderBytes n).
Proof.
  unfold gather_evidence. destruct (rq_Truncated context); cbn; [by intros ?%list_elem_of_singleton|].
  destruct (DecodeGateBody _ _ _ _ _ _ _ _ _) as [decoded|e] eqn:Hd; cbn; [|by intros ?%elem_of_nil].
  apply DecodeGateBody_spec in Hd as [Hd _]. destruct (en_inspector env); cbn; [|by intros ?%elem_of_nil].
  intros [= -> ->]%list_elem_of_singleton. eauto.
Qed.

Lemma evidence_counter_inspects id view code : Inspect id view ∉ evidence_counter code.
Proof. unfold evidence_counter. repeat case_match; rewrite ?list_elem_of_singleton; [done..|apply not_elem_of_nil]. Qed.

Lemma serve_request_inspects env request conn cd al limits id view :
  Inspect id view ∈ (serve_request env request conn cd al limits).2 -> inspected_view env request view.
Proof.
  unfold serve_request. destruct (_ && _); [by intros ?%list_elem_of_singleton|].
  destruct (ReadGateRequestBody _ _ _ _ _) as [body|e] eqn:Hread; cycle 1.
  { cbn. unfold writeGateStatus. case_match; rewrite !elem_of_cons, elem_of_nil; intros Hin; repeat destruct Hin as [Hin|Hin]; done. }
  apply body_whole in Hread. destruct (NormalizeBufferedRequest _ _ _ _ _ _ _ _) as [al1 [[context n]|e]] eqn:Hn; [|by intros ?%list_elem_of_singleton].
  eapply NormalizeBufferedRequest_spec in Hn as (Hnamed & Hm & Hh & Hp & Hq & Hhd & Hbody & Henc); [|done].
  destruct (_ && _); [by intros ?%list_elem_of_singleton|]. pose proof (gather_inspects env limits context n id view) as Hg.
  destruct (gather_evidence _ _ _ _) as [[acts context'] evidence]. cbn [fst snd] in *. rewrite !elem_of_app. intros [Hin|[Hin|Hin]].
  - specialize (Hg Hin) as (Ht & decoded & Hdec & ->). split; cbn; try done. rewrite <- Henc. rewrite Hbody, take_ge in Hdec; [done|].
    rewrite (named_Truncated _ _ _ _ _ _ Hnamed) in Ht. apply Z.ltb_ge in Ht. unfold blen in Ht. lia.
  - by apply evidence_counter_inspects in Hin.
  - pose proof (judge_inspects env request conn cd body context' evidence) as Hj. by apply (list.Forall_forall _ _) with (x := Inspect id view) in Hj.
Qed.

Lemma handleRequest_inspects env request conn cd al limits gateLimits g id view :
  Inspect id view ∈ (handleRequest env request conn cd al limits gateLimits g).2 -> inspected_view env request view.
Proof.
  unfold handleRequest. destruct (unsupported request); [cbn; rewrite !elem_of_cons, elem_of_nil; naive_solver|].
  destruct (acquire _ _ g); [|cbn; rewrite !elem_of_cons, elem_of_nil; naive_solver].
  pose proof (serve_request_inspects env request conn cd al limits id view) as Hs. destruct (serve_request _ _ _ _ _ _) as [al' acts].
  cbn [fst snd] in *. rewrite !elem_of_cons, elem_of_app, list_elem_of_singleton. naive_solver.
Qed.

Lemma serve_forward_headers env request conn cd al limits gateLimits g up :
  Forward up ∈ (handleRequest env request conn cd al limits gateLimits g).2 -> up_Header up = stripHopHeaders (hr_Header request) /\ up_Body up = en_source env.
Proof.
  unfold handleRequest. destruct (unsupported request); [cbn; rewrite !elem_of_cons, elem_of_nil; naive_solver|].
  destruct (acquire _ _ g); [|cbn; rewrite !elem_of_cons, elem_of_nil; naive_solver].
  destruct (serve_request _ _ _ _ _ _) as [al' acts] eqn:Hs. cbn [fst snd]. rewrite !elem_of_cons, elem_of_app, list_elem_of_singleton.
  intros [|[|[Hin|]]]; try done. destruct (serve_request_forwards _ _ _ _ _ _ _ _ _ Hs Hin) as (? & ? & ? & ? & ? & Hf). by rewrite (fw_request _ _ _ _ _ _ _ _ _ _ _ _ _ _ Hf).
Qed.

(** C37. Only the first [Content-Encoding] value decides how a body is decoded: when
    it is empty or [identity], every inspection is shown the raw bytes, whatever
    codings the other values name, while the request that goes upstream carries
    the same bytes and, unless its [Connection] header names the field, all the
    values. *)
Theorem later_codings_uninspected env request conn cd al limits gateLimits g first others :
  hr_Header request !! "Content-Encoding" = Some (first :: others) -> first = "" \/ first = "identity" ->
  let actions := (handleRequest env request conn cd al limits gateLimits g).2 in
  (forall id view, Inspect id view ∈ actions -> gh_Body view = en_source env) /\
  (forall up, Forward up ∈ actions -> up_Body up = en_source env /\
     ("Content-Encoding" ∉ CanonicalHeaderKey <$> connection_names (hr_Header request) -> up_Header up !! "Content-Encoding" = Some (first :: others))).
Proof.
  intros Hce Hfirst. split.
  - intros id view [_ _ _ _ _ Hbody]%handleRequest_inspects. unfold decodes_to, header_Get, header_Values in Hbody.
    change (CanonicalHeaderKey "Content-Encoding") with "Content-Encoding" in Hbody. rewrite Hce in Hbody. cbn [default] in Hbody.
    destruct Hfirst as [-> | ->]; destruct Hbody as [[_ ?]|[[? _]|[? _]]]; done.
  - intros up [Hh Hb]%serve_forward_headers. split; [done|]. intros Hnamed. rewrite Hh, stripHopHeaders_lookup, bool_decide_eq_false_2; [done|].
    rewrite fmap_app, elem_of_app. intros [?|Hhop]; [done|]. vm_compute in Hhop. repeat (apply elem_of_cons in Hhop as [?|Hhop]; [done|]). by apply elem_of_nil in Hhop.
Qed.

(** ** A run *)

(** A form, said to be gzip by its second header only. *)
Definition sample_request : http_Request :=
  mkRequest "POST" (mkURL "" "" "/login" "" "" false) "HTTP/1.1" 1 1 {[ "Content-Encoding" := ["identity"; "gzip"] ]} "shop.example" 3 ∅.

Definition sample_conn : GateConn := mkGateConn "00000000000000000000000000000001" (mkAddrPort (AddrFrom4 [10; 0; 0; 5]) 40000) (mkAddrPort (AddrFrom4 [192; 0; 2; 7]) 80) false.

Definition sample_cd : ProxyConnectionDecision := mkProxyConnectionDecision "d0" 4 "s1" "p1" "" TLSGateInspectHTTP GateFailClose "" "" "192.0.2.7" 80.

Definition sample_env : GateEnv :=
  mkEnv true None None [31; 139; 8] None false (Some (replicate 16 171)) ["Content-Encoding"] (fun _ => Some ([60; 115; 62], true)) (fun _ => None) None None
    (Some (fun id _ => Ok (mkRequestInspectionResult id CoverageComplete true [] "" 1 "rules" "hash")))
    (fun evaluation generation => Some (mkRequestDecision "d1" (rq_RequestID (pe_Context evaluation)) generation "s1" "p1" "" RequestAllow (ri_Coverage (pe_Inspection evaluation)) 0 "CLEAN" ""))
    None true (fun _ => (false, Ok (mkResponse 200 ∅ [] true))).

Definition sample_up : UpstreamRequest := upstream_request sample_request [31; 139; 8] (gn_OriginalDestination sample_conn) false.

Definition sample_result : Allocator * option gate_slots * list gate_action :=
  handleRequest sample_env sample_request sample_conn sample_cd (mkAllocator (gn_ConnectionID sample_conn) 0) DefaultRequestGateConfig DefaultRequestGateConfig no_slots.

Lemma sample_forwards : Forward sample_up ∈ sample_result.2.
Proof. vm_compute. do 5 apply list_elem_of_further. apply list_elem_of_here. Qed.

Lemma forward_needs_allow_witness : sample_result.1.1 = mkAllocator (gn_ConnectionID sample_conn) 1 /\ exists context evidence d pre post,
  forwarded sample_env sample_request sample_conn sample_cd (mkAllocator (gn_ConnectionID sample_conn) 0) sample_result.1.1 DefaultRequestGateConfig sample_result.2 sample_up context evidence d pre post.
Proof.
  split; [vm_compute; reflexivity|].
  apply (forward_needs_allow sample_env sample_request sample_conn sample_cd (mkAllocator (gn_ConnectionID sample_conn) 0) DefaultRequestGateConfig DefaultRequestGateConfig no_slots
    sample_result.1.1 sample_result.1.2 sample_result.2 sample_up); [vm_compute; reflexivity|exact sample_forwards].
Defined.

Lemma later_codings_uninspected_witness :
  (forall id view, Inspect id view ∈ sample_result.2 -> gh_Body view = [31; 139; 8]) /\ (exists id view, Inspect id view ∈ sample_result.2) /\
  up_Header sample_up !! "Content-Encoding" = Some ["identity"; "gzip"].
Proof.
  destruct (later_codings_uninspected sample_env sample_request sample_conn sample_cd (mkAllocator (gn_ConnectionID sample_conn) 0) DefaultRequestGateConfig DefaultRequestGateConfig no_slots
    "identity" ["gzip"]) as [Hview Hup]; [vm_compute; reflexivity|right; reflexivity|].
  split; [exact Hview|]. split.
  - eexists _, _. vm_compute. do 2 apply list_elem_of_further. apply list_elem_of_here.
  - apply (Hup sample_up sample_forwards). vm_compute. intros H. inversion H.
Defined.

Lemma gate_slots_balanced_witness : slots_for [ap_Addr (gn_ClientAddress sample_conn)] (mkSlots 1 {[ AddrFrom4 [10; 0; 0; 5] := 1 ]}) /\
  is_Some (release (AddrFrom4 [10; 0; 0; 5]) (mkSlots 1 {[ AddrFrom4 [10; 0; 0; 5] := 1 ]})).
Proof.
  destruct (gate_slots_balanced DefaultRequestGateConfig [ap_Addr (gn_ClientAddress sample_conn)] (mkSlots 1 {[ AddrFrom4 [10; 0; 0; 5] := 1 ]})) as (Hf & _ & Hr & _);
    [vm_compute; reflexivity|eapply run_acquire; [apply run_start|vm_compute; reflexivity]|].
  split; [exact Hf|]. apply Hr. apply list_elem_of_here.
Defined.

(** ** A connection *)

Lemma serve_requests_forwards conn cd limits gateLimits requests : forall al g slots runs al' actions up,
  serve_requests conn cd limits gateLimits requests al g = (al', slots, runs) -> actions ∈ runs -> Forward up ∈ actions ->
  exists env request, (env, request) ∈ requests /\ up = upstream_request request (en_source env) (gn_OriginalDestination conn) (gn_TLS conn).
Proof.
  induction requests as [|[env request] requests IH]; cbn; intros al g slots runs al' actions up; [intros [= <- <- <-] Hin; by apply elem_of_nil in Hin|].
  destruct (handleRequest _ _ _ _ _ _ _ _) as [[al1 slots1] actions1] eqn:Hh.
  assert (Hhere : Forward up ∈ actions1 -> up = upstream_request request (en_source env) (gn_OriginalDestination conn) (gn_TLS conn)).
  { unfold handleRequest in Hh. destruct (unsupported request); [injection Hh as <- <- <-; rewrite !elem_of_cons, elem_of_nil; naive_solver|].
    destruct (acquire _ _ g); [|injection Hh as <- <- <-; rewrite !elem_of_cons, elem_of_nil; naive_solver].
    destruct (serve_request _ _ _ _ _ _) as [al2 acts] eqn:Hs. injection Hh as <- <- <-. rewrite !elem_of_cons, elem_of_app, list_elem_of_singleton.
    intros [|[|[Hin|]]]; try done. destruct (serve_request_forwards _ _ _ _ _ _ _ _ _ Hs Hin) as (? & ? & ? & ? & ? & Hf). apply Hf. }
  destruct slots1 as [g1|].
  - destruct (serve_requests _ _ _ _ _ _ _) as [[al2 slots2] rest] eqn:Hr. intros [= <- <- <-] [->|Hin]%elem_of_cons Hup.
    + exists env, request. split; [apply list_elem_of_here|auto].
    + destruct (IH _ _ _ _ _ _ _ Hr Hin Hup) as (e & r & Hin' & ->). exists e, r. split; [by apply list_elem_of_further|done].
  - intros [= <- <- <-] ->%list_elem_of_singleton Hup. exists env, request. split; [apply list_elem_of_here|auto].
Qed.

(** A connection that is served sends every request it forwards to the address
    and port that the connection's decision approved, over TLS exactly when the
    decision is to decrypt, whatever the request's [Host] says. *)
Theorem connection_target_fixed authorizer conn cd handshake gateLimits requests g slots runs actions up :
  ServeHTTPConnection authorizer conn cd handshake gateLimits requests g = Ok (slots, runs) -> actions ∈ runs -> Forward up ∈ actions ->
  up_Target up = gn_OriginalDestination conn /\ cd_UpstreamIP cd = addr_String (Unmap (ap_Addr (up_Target up))) /\ cd_UpstreamPort cd = ap_Port (up_Target up) /\
  (cd_Action cd = TLSGateDecrypt /\ up_Scheme up = "https" \/ cd_Action cd = TLSGateInspectHTTP /\ up_Scheme up = "http") /\
  exists env request, (env, request) ∈ requests /\ up_Host up = hr_Host request /\ up_Body up = en_source env.
Proof.
  unfold ServeHTTPConnection. destruct (connection_refused _ _ _ _) eqn:Hc; [done|]. destruct (serve_limits_invalid _); [done|].
  destruct (NewRequestIdentityAllocator _) as [al|]; [|done]. destruct (serve_requests _ _ _ _ _ _ _) as [[al' slots'] runs'] eqn:Hs.
  intros [= <- <-] Hin Hup. destruct (serve_requests_forwards _ _ _ _ _ _ _ _ _ _ _ _ Hs Hin Hup) as (env & request & Hreq & ->).
  unfold connection_refused in Hc. repeat rewrite orb_false_iff in Hc.
  destruct Hc as [[[_ Hip%negb_false_iff%bool_decide_eq_true_1] Hport%negb_false_iff%Z.eqb_eq] Hact]. cbn [up_Target up_Scheme up_Host up_Body upstream_request].
  repeat split; try done; [|by exists env, request].
  destruct (gn_TLS conn).
  - destruct handshake as [[[] protocol]|]; try done. apply orb_false_iff in Hact as [Hact%negb_false_iff%bool_decide_eq_true_1 _]. auto.
  - apply negb_false_iff, bool_decide_eq_true_1 in Hact. auto.
Qed.

Lemma connection_target_fixed_witness : cd_UpstreamPort sample_cd = ap_Port (up_Target sample_up) /\ cd_Action sample_cd = TLSGateInspectHTTP /\ up_Host sample_up = "shop.example".
Proof.
  destruct (connection_target_fixed true sample_conn sample_cd None DefaultRequestGateConfig [(sample_env, sample_request)] no_slots (Some no_slots) [sample_result.2] sample_result.2 sample_up)
    as (_ & _ & Hport & [[H _]|[Hact _]] & _); [vm_compute; reflexivity|apply list_elem_of_here|exact sample_forwards|discriminate H|].
  split; [exact Hport|]. split; [exact Hact|reflexivity].
Defined.
