(* ===== verification/ClientHello.v ===== *)
(** * A connection before its first request

    internal/inspection/tls.go (what a ClientHello says),
    internal/proxy/clienthello.go (reading it off the connection without losing a
    byte) and internal/proxy/gate_connection.go (what happens to the connection).
    Bytes are numbers below 256.  A connection is the bytes that still arrive and
    how reading ends after them. *)

From Stdlib Require Import Ascii.
From S2P Require Import Prelude GoStr Bytes Sha256 Netip Domain Flow SessionStore Config TLSExclusion Validate.
From S2P Require Import Connectivity EventRing Interleave Runtime GateFrame GateIPC GateEvidence GateVerdict GateRuntime GateService.
From S2P Require Import RequestPcap RequestEve HttpRequest HttpGate.

(** ** The ClientHello *)

Inductive HelloError : Type := ErrClientHelloIncomplete | ErrHelloInvalid (reason : string).

Definition hello_result : Type := result HelloError TLSContext.

Definition maxHello : Z := Z.shiftl 64 10.

(** [binary.BigEndian.Uint16(b[:2])]. *)
Definition Uint16 (b : list Z) : Z := be_value (take 2 b).

Definition byte_at (b : list Z) (i : nat) : Z := default 0 (b !! i).

(** [b[:n]] and [b[n:]]. *)
Definition upto (n : Z) (b : list Z) : list Z := take (Z.to_nat n) b.
Definition from (n : Z) (b : list Z) : list Z := drop (Z.to_nat n) b.

(** [fmt.Sprintf("0x%04x", v)] of a 16-bit value. *)
Definition hex_0x04 (v : Z) : string := ("0x" ++ hex_EncodeToString (be_bytes 2 v))%string.

Definition hello_context (sni version cipher alpn : string) (available : bool) : TLSContext :=
  mkTLSContext sni version cipher "" "" "" alpn false available.

(** The loops run on fuel: each round takes bytes off the list, so that the length
    of the list is enough, and nothing is left when the fuel ends. *)

Fixpoint parse_names (fuel : nat) (names : list Z) (sni : string) : result HelloError string :=
  match fuel with
  | O => Ok sni
  | S fuel =>
      if blen names =? 0 then Ok sni
      else if blen names <? 3 then Err (ErrHelloInvalid "SNI entry header")
      else
      let nameType := byte_at names 0 in
      let nameLength := Uint16 (from 1 names) in
      let names := from 3 names in
      if (nameLength =? 0) || (blen names <? nameLength) then Err (ErrHelloInvalid "SNI entry length")
      else
      let name := upto nameLength names in
      let sni := if (nameType =? 0) && bool_decide (sni = "") && (nameLength <=? 253) && negb (existsb (Z.eqb 0) name) then bytes_str name else sni in
      parse_names fuel (from nameLength names) sni
  end.

Fixpoint parse_protocols (fuel : nat) (protocols : list Z) (alpn : string) : result HelloError string :=
  match fuel with
  | O => Ok alpn
  | S fuel =>
      if blen protocols =? 0 then Ok alpn
      else
      let length := byte_at protocols 0 in
      let protocols := from 1 protocols in
      if (length =? 0) || (blen protocols <? length) then Err (ErrHelloInvalid "ALPN entry length")
      else
      let alpn := if bool_decide (alpn = "") then bytes_str (upto length protocols) else alpn in
      parse_protocols fuel (from length protocols) alpn
  end.

(** The bound on the version list makes its length even. *)
Fixpoint parse_versions (fuel : nat) (offered : list Z) (version : string) : string :=
  match fuel with
  | O => version
  | S fuel =>
      if blen offered =? 0 then version
      else parse_versions fuel (from 2 offered) (if Uint16 offered =? 772 then "0x0304" else version)
  end.

(** What the extensions add to: the name, the version and the protocol. *)
Record hello_facts : Type := mkFacts { hf_SNI : string; hf_TLSVersion : string; hf_ALPN : string }.

Definition list_framed (body : list Z) : bool := (2 <=? blen body) && (Uint16 body =? blen body - 2).

Definition parse_extension (typ : Z) (body : list Z) (f : hello_facts) : result HelloError hello_facts :=
  if typ =? 0 then
    if negb (list_framed body) then Err (ErrHelloInvalid "SNI list framing")
    else
    let? sni := parse_names (length body) (from 2 body) (hf_SNI f) in
    Ok (mkFacts sni (hf_TLSVersion f) (hf_ALPN f))
  else if typ =? 16 then
    if negb (list_framed body) then Err (ErrHelloInvalid "ALPN list framing")
    else
    let? alpn := parse_protocols (length body) (from 2 body) (hf_ALPN f) in
    Ok (mkFacts (hf_SNI f) (hf_TLSVersion f) alpn)
  else if typ =? 43 then
    if (blen body <? 3) || negb (byte_at body 0 =? blen body - 1) || negb (byte_at body 0 mod 2 =? 0) then Err (ErrHelloInvalid "supported versions framing")
    else Ok (mkFacts (hf_SNI f) (parse_versions (length body) (from 1 body) (hf_TLSVersion f)) (hf_ALPN f))
  else Ok f.

Fixpoint parse_extensions (fuel : nat) (extensions : list Z) (f : hello_facts) : result HelloError hello_facts :=
  match fuel with
  | O => Ok f
  | S fuel =>
      if blen extensions =? 0 then Ok f
      else if blen extensions <? 4 then Err (ErrHelloInvalid "extension header")
      else
      let typ := Uint16 extensions in
      let length := Uint16 (from 2 extensions) in
      let extensions := from 4 extensions in
      if blen extensions <? length then Err (ErrHelloInvalid "extension length")
      else
      let? f := parse_extension typ (upto length extensions) f in
      parse_extensions fuel (from length extensions) f
  end.

Definition parseClientHelloBody (hello : list Z) : hello_result :=
  if blen hello <? 35 then Err (ErrHelloInvalid "short ClientHello")
  else
  let version := hex_0x04 (Uint16 hello) in
  let sessionLength := byte_at hello 34 in
  let rest := from 35 hello in
  if (32 <? sessionLength) || (blen rest <? sessionLength + 2) then Err (ErrHelloInvalid "session ID length")
  else
  let rest := from sessionLength rest in
  let ciphersLength := Uint16 rest in
  let rest := from 2 rest in
  if (ciphersLength <? 2) || negb (ciphersLength mod 2 =? 0) || (blen rest <? ciphersLength + 1) then Err (ErrHelloInvalid "cipher list length")
  else
  let cipher := hex_0x04 (Uint16 rest) in
  let rest := from ciphersLength rest in
  let compressionLength := byte_at rest 0 in
  let rest := from 1 rest in
  if (compressionLength =? 0) || (blen rest <? compressionLength) then Err (ErrHelloInvalid "compression list length")
  else
  let rest := from compressionLength rest in
  if blen rest =? 0 then Ok (hello_context "" version cipher "" true)
  else if blen rest <? 2 then Err (ErrHelloInvalid "extension block length")
  else
  let extensionsLength := Uint16 rest in
  let extensions := from 2 rest in
  if negb (extensionsLength =? blen extensions) then Err (ErrHelloInvalid "extension block framing")
  else
  let? f := parse_extensions (length extensions) extensions (mkFacts "" version "") in
  Ok (hello_context (hf_SNI f) (hf_TLSVersion f) cipher (hf_ALPN f) true).

(** The header of a record: not of a handshake, or of a bad length. *)
Definition not_handshake (header : list Z) : bool := negb (byte_at header 0 =? 22) || negb (byte_at header 1 =? 3) || (4 <? byte_at header 2).

Fixpoint parse_records (fuel : nat) (data handshake : list Z) : hello_result :=
  match fuel with
  | O => Err ErrClientHelloIncomplete
  | S fuel =>
      if blen data =? 0 then Err ErrClientHelloIncomplete
      else if blen data <? 5 then Err ErrClientHelloIncomplete
      else if not_handshake data then Err (ErrHelloInvalid "not a TLS handshake record")
      else
      let recordLength := Uint16 (from 3 data) in
      if (recordLength =? 0) || (18432 <? recordLength) || (maxHello <? blen handshake + recordLength) then Err (ErrHelloInvalid "record length")
      else
      let data := from 5 data in
      if blen data <? recordLength then Err ErrClientHelloIncomplete
      else
      let handshake := handshake ++ upto recordLength data in
      let data := from recordLength data in
      if blen handshake <? 4 then parse_records fuel data handshake
      else if negb (byte_at handshake 0 =? 1) then Err (ErrHelloInvalid "first handshake is not ClientHello")
      else
      let helloLength := be_value (take 3 (drop 1 handshake)) in
      if (helloLength <? 34) || (maxHello <? helloLength + 4) then Err (ErrHelloInvalid "ClientHello length")
      else if blen handshake <? helloLength + 4 then parse_records fuel data handshake
      else parseClientHelloBody (upto helloLength (from 4 handshake))
  end.

Definition ParseTLSClientHello (data : list Z) : hello_result := parse_records (length data) data [].

(** ** Reading it *)

(** How reading ends once the bytes are used up: the deadline of the context or of
    the connection, cancellation, end of file, or another error. *)
Inductive ReadEnd : Type := EndDeadline | EndCancelled | EndEOF | EndError.

Inductive PeekError : Type := ErrClientHelloTimeout | ErrClientHelloInvalid | ErrClientHelloLimit | PeekIncomplete | PeekCancelled | PeekOther.

Definition clientHelloReadError (e : ReadEnd) : PeekError :=
  match e with EndDeadline => ErrClientHelloTimeout | EndCancelled => PeekCancelled | EndEOF => PeekIncomplete | EndError => PeekOther end.

Definition peek_result : Type := result PeekError TLSContext * list Z * list Z.

(** A round takes at least six bytes and stays within [maxBytes], so that [maxBytes]
    rounds are enough. *)
Fixpoint peek_loop (fuel : nat) (maxBytes : Z) (ending : ReadEnd) (buffered incoming : list Z) : peek_result :=
  match fuel with
  | O => (Err ErrClientHelloLimit, buffered, incoming)
  | S fuel =>
      if maxBytes <? blen buffered + 5 then (Err ErrClientHelloLimit, buffered, incoming)
      else
      let header := upto 5 incoming in
      let incoming := from 5 incoming in
      let buffered := buffered ++ header in
      if blen header <? 5 then (Err (clientHelloReadError ending), buffered, incoming)
      else if not_handshake header then (Err ErrClientHelloInvalid, buffered, incoming)
      else
      let length := Uint16 (from 3 header) in
      if (length =? 0) || (18432 <? length) then (Err ErrClientHelloInvalid, buffered, incoming)
      else if maxBytes <? blen buffered + length then (Err ErrClientHelloLimit, buffered, incoming)
      else
      let payload := upto length incoming in
      let incoming := from length incoming in
      let buffered := buffered ++ payload in
      if blen payload <? length then (Err (clientHelloReadError ending), buffered, incoming)
      else match ParseTLSClientHello buffered with
      | Ok metadata => (Ok metadata, buffered, incoming)
      | Err ErrClientHelloIncomplete => peek_loop fuel maxBytes ending buffered incoming
      | Err (ErrHelloInvalid _) => (Err ErrClientHelloInvalid, buffered, incoming)
      end
  end.

Definition PeekClientHello (deadline_set : bool) (maxBytes : Z) (incoming : list Z) (ending : ReadEnd) : peek_result :=
  let maxBytes := if maxBytes <=? 0 then Z.shiftl 64 10 else maxBytes in
  if Z.shiftl 64 10 <? maxBytes then (Err ErrClientHelloLimit, [], incoming)
  else if negb deadline_set then (Err PeekOther, [], incoming)
  else peek_loop (Z.to_nat maxBytes) maxBytes ending [] incoming.

(** ** What happens to the connection *)

Definition validateConnectionDecision (conn : GateConn) (d : ProxyConnectionDecision) : bool :=
  negb (bool_decide (cd_DecisionID d = "")) && negb (cd_ConfigGeneration d =? 0) && TLSGateAction_Valid (cd_Action d) && GateFailMode_Valid (cd_FailMode d)
  && bool_decide (cd_UpstreamIP d = addr_String (Unmap (ap_Addr (gn_OriginalDestination conn)))) && (cd_UpstreamPort d =? ap_Port (gn_OriginalDestination conn))
  && (if gn_TLS conn then negb (bool_decide (cd_Action d = TLSGateInspectHTTP))
      else negb (bool_decide (cd_Action d = TLSGateMetadataOnly)) && negb (bool_decide (cd_Action d = TLSGateDecrypt))).

Inductive ConnError : Type :=
| ConnDecisionInvalid | ConnPolicyBlocked | ConnHandlerMissing | ConnHandshake | ConnUpstream
| ConnHello (e : PeekError) | ConnAuthorizer.

(** Where the client's bytes go: nowhere further, through a raw tunnel, to the HTTP
    gate as they are, or to the TLS server in front of the HTTP gate. *)
Inductive conn_outcome : Type :=
| ConnRefused (e : ConnError)
| ConnTunnel (target : AddrPort) (upstream : list Z)
| ConnHTTP (d : ProxyConnectionDecision) (stream : list Z)
| ConnDecrypted (d : ProxyConnectionDecision) (stream : list Z).

Record ConnHandler : Type := mkConnHandler {
  ch_HTTPGate : bool;
  ch_CA : bool;
  ch_ClientHelloBytes : Z;
  ch_deadline_set : bool;                                            (** [SetReadDeadline] succeeds *)
  ch_authorizer : ProxyConnectionOpen -> option ProxyConnectionDecision;
  ch_dial : AddrPort -> bool;
  ch_handshake : list Z -> bool                                      (** the TLS server's handshake with this client *)
}.

(** The bytes a tunnel writes upstream: the ones read so far, then the copy. *)
Definition rawTunnel (h : ConnHandler) (target : AddrPort) (buffered incoming : list Z) : list string * conn_outcome :=
  if ch_dial h target then ([], ConnTunnel target (buffered ++ incoming)) else (["upstream_connect_fail"], ConnRefused ConnUpstream).

(** [replayConn]: the TLS server reads the bytes read so far, then the connection. *)
Definition replayed (buffered incoming : list Z) : list Z := buffered ++ incoming.

Definition serveDecrypted (h : ConnHandler) (d : ProxyConnectionDecision) (buffered incoming : list Z) : list string * conn_outcome :=
  if ch_handshake h (replayed buffered incoming) then (["decrypted"], ConnDecrypted d (replayed buffered incoming)) else (["tls_handshake_fail"], ConnRefused ConnHandshake).

(** The hello of a TLS connection: what is known of it, a failure code, and the
    bytes read and still to read. *)
Definition peek_hello (h : ConnHandler) (conn : GateConn) (incoming : list Z) (ending : ReadEnd) : result PeekError (list string * TLSContext * string * list Z * list Z) :=
  let none := hello_context "" "" "" "" false in
  if gn_TLS conn then
    match PeekClientHello (ch_deadline_set h) (ch_ClientHelloBytes h) incoming ending with
    | (Ok metadata, buffered, rest) => Ok ([], metadata, "", buffered, rest)
    | (Err ErrClientHelloTimeout, buffered, rest) => Ok (["client_hello_timeout"], none, "TLS_CLIENTHELLO_TIMEOUT", buffered, rest)
    | (Err (ErrClientHelloInvalid | ErrClientHelloLimit | PeekIncomplete), buffered, rest) => Ok (["client_hello_invalid"], none, "TLS_CLIENTHELLO_INVALID", buffered, rest)
    | (Err e, _, _) => Err e
    end
  else Ok ([], none, "", [], incoming).

Definition proxy_open (conn : GateConn) (metadata : TLSContext) (failureCode : string) : ProxyConnectionOpen :=
  mkProxyConnectionOpen "" 0 (gn_ConnectionID conn) (addr_String (Unmap (ap_Addr (gn_ClientAddress conn)))) (ap_Port (gn_ClientAddress conn))
    (addr_String (Unmap (ap_Addr (gn_OriginalDestination conn)))) (ap_Port (gn_OriginalDestination conn)) "tcp" failureCode (Some (gn_TLS conn)) metadata.

Definition ServeProxyConnection (h : ConnHandler) (conn : GateConn) (incoming : list Z) (ending : ReadEnd) : list string * conn_outcome :=
  if negb (addrport_IsValid (gn_ClientAddress conn)) || negb (addrport_IsValid (gn_OriginalDestination conn)) || bool_decide (gn_ConnectionID conn = "") then
    ([], ConnRefused ConnDecisionInvalid)
  else match peek_hello h conn incoming ending with
  | Err e => ([], ConnRefused (ConnHello e))
  | Ok (counters, metadata, failureCode, buffered, rest) =>
      match ch_authorizer h (proxy_open conn metadata failureCode) with
      | None => (counters, ConnRefused ConnAuthorizer)
      | Some d =>
          if negb (validateConnectionDecision conn d) then (counters, ConnRefused ConnDecisionInvalid)
          else if negb (bool_decide (failureCode = "")) && bool_decide (cd_Action d = TLSGateDecrypt) then (counters, ConnRefused ConnDecisionInvalid)
          else
          match cd_Action d with
          | TLSGateBlock => (counters, ConnRefused ConnPolicyBlocked)
          | TLSGateBypass | TLSGateMetadataOnly =>
              let '(more, outcome) := rawTunnel h (gn_OriginalDestination conn) buffered rest in (counters ++ "bypassed" :: more, outcome)
          | TLSGateInspectHTTP => if ch_HTTPGate h then (counters, ConnHTTP d rest) else (counters, ConnRefused ConnHandlerMissing)
          | TLSGateDecrypt =>
              if ch_HTTPGate h && ch_CA h then let '(more, outcome) := serveDecrypted h d buffered rest in (counters ++ more, outcome)
              else (counters, ConnRefused ConnHandlerMissing)
          | TLSGateActionOther _ => (counters, ConnRefused ConnDecisionInvalid)
          end
      end
  end.

(** [IPCConnectionAuthorizer.OpenConnection]. *)
Definition ipc_OpenConnection (client : option (ProxyConnectionOpen -> option (ResponseMeta * ProxyConnectionDecision))) (au : IPCRequestAuthorizer) (open : ProxyConnectionOpen) : option ProxyConnectionDecision :=
  match client with
  | None => None
  | Some call =>
      match call (mkProxyConnectionOpen (au_EngineInstanceID au) (au_Generation au) (po_ConnectionID open) (po_SourceIP open) (po_SourcePort open) (po_OriginalIP open) (po_OriginalPort open)
                    (po_Protocol open) (po_TLSFailureCode open) (po_IsTLS open) (po_TLS open)) with
      | None => None
      | Some (meta, d) =>
          if negb (bool_decide (GateIPC.DecisionID meta = cd_DecisionID d)) || negb (GateIPC.ConfigGeneration meta =? cd_ConfigGeneration d) then None
          else if negb (au_Generation au =? 0) && negb (cd_ConfigGeneration d =? au_Generation au) then None
          else Some d
      end
  end.
