(* ===== verification/ClientHelloProps.v ===== *)
(** * The first bytes of a connection: theorems

    Reading a ClientHello gives back what its sender put in, however the records
    cut it; no byte is lost, whether it is read or not; and every fate of a
    connection other than refusal follows from a decision of the engine about it. *)

From Stdlib Require Import Ascii.
From S2P Require Import Prelude GoStr Bytes Sha256 Netip Domain Flow SessionStore Config TLSExclusion Validate.
From S2P Require Import Connectivity EventRing Interleave Runtime GateFrame GateIPC GateEvidence GateVerdict GateRuntime GateService.
From S2P Require Import RequestPcap RequestEve HttpRequest HttpGate ClientHello.

(** ** What a sender puts in (RFC 8446, section 4.1.2) *)

Inductive Extension : Type :=
| ServerName (names : list (Z * list Z))      (** type and name *)
| Protocols (protocols : list (list Z))
| SupportedVersions (versions : list Z)
| OtherExtension (typ : Z) (body : list Z).

Record Hello : Type := mkHello {
  he_Version : Z;
  he_Random : list Z;
  he_Session : list Z;
  he_Ciphers : list Z;
  he_Compressions : list Z;
  he_Extensions : option (list Extension)
}.

Definition vec (size : nat) (body : list Z) : list Z := be_bytes size (blen body) ++ body.

Definition name_bytes (n : Z * list Z) : list Z := n.1 :: vec 2 n.2.

Definition extension_type (e : Extension) : Z :=
  match e with ServerName _ => 0 | Protocols _ => 16 | SupportedVersions _ => 43 | OtherExtension typ _ => typ end.

Definition extension_body (e : Extension) : list Z :=
  match e with
  | ServerName names => vec 2 (concat (map name_bytes names))
  | Protocols protocols => vec 2 (concat (map (vec 1) protocols))
  | SupportedVersions versions => vec 1 (concat (map (be_bytes 2) versions))
  | OtherExtension _ body => body
  end.

Definition extension_bytes (e : Extension) : list Z := be_bytes 2 (extension_type e) ++ vec 2 (extension_body e).

Definition hello_body (h : Hello) : list Z :=
  be_bytes 2 (he_Version h) ++ he_Random h ++ vec 1 (he_Session h) ++ vec 2 (concat (map (be_bytes 2) (he_Ciphers h))) ++ vec 1 (he_Compressions h) ++
  match he_Extensions h with None => [] | Some es => vec 2 (concat (map extension_bytes es)) end.

(** The handshake message, and a record that carries a piece of it. *)
Definition hello_message (h : Hello) : list Z := 1 :: vec 3 (hello_body h).

Definition record (v : Z) (piece : list Z) : list Z := [22; 3; v] ++ vec 2 piece.

Definition u16_ok (v : Z) : Prop := 0 <= v < 2 ^ 16.

Definition extension_ok (e : Extension) : Prop :=
  match e with
  | ServerName names => Forall (fun n => is_byte n.1 /\ 0 < blen n.2 < 2 ^ 16) names
  | Protocols protocols => Forall (fun p => 0 < blen p < 2 ^ 8) protocols
  | SupportedVersions versions => Forall u16_ok versions /\ 0 < Z.of_nat (length versions) < 2 ^ 7
  | OtherExtension typ body => u16_ok typ /\ typ <> 0 /\ typ <> 16 /\ typ <> 43
  end /\ blen (extension_body e) < 2 ^ 16 /\ blen (extension_bytes e) < 2 ^ 16.

Definition hello_ok (h : Hello) : Prop :=
  u16_ok (he_Version h) /\ blen (he_Random h) = 32 /\ blen (he_Session h) <= 32 /\
  (Forall u16_ok (he_Ciphers h) /\ 0 < Z.of_nat (length (he_Ciphers h)) < 2 ^ 15) /\ 0 < blen (he_Compressions h) < 2 ^ 8 /\
  match he_Extensions h with None => True | Some es => Forall extension_ok es /\ blen (concat (map extension_bytes es)) < 2 ^ 16 end.

(** ** What it says *)

(** The first host name that can be one, the first protocol; version 1.3 if it is
    among the supported ones. *)
Definition take_name (sni : string) (n : Z * list Z) : string :=
  if (n.1 =? 0) && bool_decide (sni = "") && (blen n.2 <=? 253) && negb (existsb (Z.eqb 0) n.2) then bytes_str n.2 else sni.

Definition take_protocol (alpn : string) (p : list Z) : string := if bool_decide (alpn = "") then bytes_str p else alpn.

Definition take_version (version : string) (v : Z) : string := if v =? 772 then "0x0304" else version.

Definition take_extension (f : hello_facts) (e : Extension) : hello_facts :=
  match e with
  | ServerName names => mkFacts (foldl take_name (hf_SNI f) names) (hf_TLSVersion f) (hf_ALPN f)
  | Protocols protocols => mkFacts (hf_SNI f) (hf_TLSVersion f) (foldl take_protocol (hf_ALPN f) protocols)
  | SupportedVersions versions => mkFacts (hf_SNI f) (foldl take_version (hf_TLSVersion f) versions) (hf_ALPN f)
  | OtherExtension _ _ => f
  end.

Definition hello_says (h : Hello) : TLSContext :=
  let f := foldl take_extension (mkFacts "" (hex_0x04 (he_Version h)) "") (default [] (he_Extensions h)) in
  hello_context (hf_SNI f) (hf_TLSVersion f) (hex_0x04 (default 0 (head (he_Ciphers h)))) (hf_ALPN f) true.

(** ** Reading fields *)

Lemma blen_app a b : blen (a ++ b) = blen a + blen b.
Proof. unfold blen. rewrite length_app. lia. Qed.

Lemma blen_nonneg a : 0 <= blen a.
Proof. unfold blen. lia. Qed.

Lemma blen_be n v : blen (be_bytes n v) = Z.of_nat n.
Proof. unfold blen. by rewrite be_bytes_length. Qed.

Lemma blen_vec n body : blen (vec n body) = Z.of_nat n + blen body.
Proof. unfold vec. by rewrite blen_app, blen_be. Qed.

Lemma from_app n a b : blen a = n -> from n (a ++ b) = b.
Proof. intros <-. unfold from, blen. rewrite Nat2Z.id. apply drop_app_length. Qed.

Lemma upto_app n a b : blen a = n -> upto n (a ++ b) = a.
Proof. intros <-. unfold upto, blen. rewrite Nat2Z.id. apply take_app_length. Qed.

Lemma Uint16_be v b : u16_ok v -> Uint16 (be_bytes 2 v ++ b) = v.
Proof. intros Hv. unfold Uint16. rewrite (take_app_length' _ b 2) by by rewrite be_bytes_length. by apply be_value_bytes. Qed.

Lemma Uint16_vec body b : blen body < 2 ^ 16 -> Uint16 (vec 2 body ++ b) = blen body.
Proof. intros H. unfold vec. rewrite <- (assoc_L (++)). apply Uint16_be. unfold u16_ok. pose proof (blen_nonneg body). lia. Qed.

Lemma byte_vec body b : blen body < 2 ^ 8 -> byte_at (vec 1 body ++ b) 0 = blen body.
Proof.
  intros H. unfold vec, byte_at. cbn [be_bytes app]. pose proof (blen_nonneg body). cbn. unfold u8. apply Z.mod_small. lia.
Qed.

Lemma from_vec size body b n : n = Z.of_nat size -> from n (vec size body ++ b) = body ++ b.
Proof. intros ->. unfold vec. rewrite <- (assoc_L (++)). apply from_app, blen_be. Qed.

Lemma byte_head x b : byte_at (x :: b) 0 = x.
Proof. done. Qed.

Lemma from_cons n x b : 0 < n -> from n (x :: b) = from (n - 1) b.
Proof. intros H. unfold from. replace (Z.to_nat n) with (S (Z.to_nat (n - 1))) by lia. done. Qed.

Lemma from_0 b : from 0 b = b.
Proof. done. Qed.

Lemma blen_cons x b : blen (x :: b) = 1 + blen b.
Proof. unfold blen. cbn. lia. Qed.

Create HintDb blen.
#[export] Hint Rewrite blen_cons blen_app blen_vec blen_be : blen.

(** [no b]: the boolean [b] is false, for arithmetic reasons. *)
Ltac is_false :=
  lazymatch goal with
  | |- _ || _ = false => apply orb_false_iff; split; is_false
  | |- negb (_ =? _) = false => apply negb_false_iff, Z.eqb_eq; lia
  | |- (_ =? _) = false => apply Z.eqb_neq; lia
  | |- (_ <? _) = false => apply Z.ltb_ge; lia
  end.
Ltac no b := replace b with false by (symmetry; is_false).

Lemma parse_names_spec names : Forall (fun n => is_byte n.1 /\ 0 < blen n.2 < 2 ^ 16) names -> forall fuel sni,
  (length (concat (map name_bytes names)) <= fuel)%nat -> parse_names fuel (concat (map name_bytes names)) sni = Ok (foldl take_name sni names).
Proof.
  induction 1 as [|n names [Hb Hn] _ IH]; intros fuel sni Hf; [by destruct fuel|]. cbn [map concat foldl] in *.
  destruct fuel as [|fuel]; [rewrite length_app in Hf; cbn in Hf; lia|].
  set (R := concat (map name_bytes names)) in *. pose proof (blen_nonneg R). change (name_bytes n ++ R) with (n.1 :: vec 2 n.2 ++ R) in *. cbn [parse_names].
  autorewrite with blen. no (1 + (Z.of_nat 2 + blen n.2 + blen R) =? 0). no (1 + (Z.of_nat 2 + blen n.2 + blen R) <? 3).
  rewrite byte_head, !from_cons by lia. change (1 - 1) with 0. change (3 - 1) with 2. rewrite from_0, Uint16_vec, from_vec, blen_app by (done || lia).
  no ((blen n.2 =? 0) || (blen n.2 + blen R <? blen n.2)). rewrite upto_app, from_app by done.
  apply IH. cbn [length] in Hf. rewrite length_app in Hf. unfold blen in *. lia.
Qed.

Lemma parse_protocols_spec protocols : Forall (fun p => 0 < blen p < 2 ^ 8) protocols -> forall fuel alpn,
  (length (concat (map (vec 1) protocols)) <= fuel)%nat -> parse_protocols fuel (concat (map (vec 1) protocols)) alpn = Ok (foldl take_protocol alpn protocols).
Proof.
  induction 1 as [|p protocols Hp _ IH]; intros fuel alpn Hf; [by destruct fuel|]. cbn [map concat foldl] in *.
  destruct fuel as [|fuel]; [rewrite length_app in Hf; cbn in Hf; lia|].
  set (R := concat (map (vec 1) protocols)) in *. pose proof (blen_nonneg R). cbn [parse_protocols].
  autorewrite with blen. no (Z.of_nat 1 + blen p + blen R =? 0).
  rewrite byte_vec, from_vec, blen_app by (done || lia). no ((blen p =? 0) || (blen p + blen R <? blen p)). rewrite upto_app, from_app by done.
  apply IH. rewrite length_app in Hf. cbn in Hf. unfold blen in *. lia.
Qed.

Lemma parse_versions_spec versions : Forall u16_ok versions -> forall fuel version,
  (length (concat (map (be_bytes 2) versions)) <= fuel)%nat -> parse_versions fuel (concat (map (be_bytes 2) versions)) version = foldl take_version version versions.
Proof.
  induction 1 as [|v versions Hv _ IH]; intros fuel version Hf; [by destruct fuel|]. cbn [map concat foldl] in *.
  destruct fuel as [|fuel]; [rewrite length_app in Hf; cbn in Hf; lia|].
  set (R := concat (map (be_bytes 2) versions)) in *. pose proof (blen_nonneg R). cbn [parse_versions].
  autorewrite with blen. no (Z.of_nat 2 + blen R =? 0). rewrite Uint16_be, from_app by (done || apply blen_be).
  apply IH. rewrite length_app in Hf. cbn in Hf. lia.
Qed.

Lemma versions_length versions : blen (concat (map (be_bytes 2) versions)) = 2 * Z.of_nat (length versions).
Proof. induction versions as [|v versions IH]; [done|]. cbn [map concat length]. autorewrite with blen. rewrite IH. lia. Qed.

Lemma list_framed_vec body : blen body < 2 ^ 16 -> list_framed (vec 2 body) = true.
Proof.
  intros H. pose proof (blen_nonneg body). unfold list_framed. rewrite <- (app_nil_r (vec 2 body)) at 2. rewrite Uint16_vec by done. autorewrite with blen.
  apply andb_true_iff. rewrite Z.leb_le, Z.eqb_eq. lia.
Qed.

Lemma parse_extension_spec e f : extension_ok e -> parse_extension (extension_type e) (extension_body e) f = Ok (take_extension f e).
Proof.
  intros (He & Hb & _). unfold parse_extension. destruct e as [names|protocols|versions|typ body]; cbn [extension_type extension_body take_extension Z.eqb Pos.eqb] in *.
  - autorewrite with blen in Hb. rewrite list_framed_vec by lia. cbn [negb]. rewrite <- (app_nil_r (vec 2 _)) at 2. rewrite from_vec, app_nil_r by done.
    rewrite parse_names_spec; [done|done|]. unfold vec. rewrite length_app. lia.
  - autorewrite with blen in Hb. rewrite list_framed_vec by lia. cbn [negb]. rewrite <- (app_nil_r (vec 2 _)) at 2. rewrite from_vec, app_nil_r by done.
    rewrite parse_protocols_spec; [done|done|]. unfold vec. rewrite length_app. lia.
  - destruct He as [Hv Hl]. pose proof (versions_length versions) as Hlen. autorewrite with blen in *.
    rewrite <- (app_nil_r (vec 1 _)). rewrite byte_vec, from_vec, !app_nil_r by (done || lia). rewrite Hlen.
    rewrite (Z.mul_comm 2), Z.mod_mul by done. set (n := Z.of_nat (length versions)) in *. no ((Z.of_nat 1 + n * 2 <? 3) || negb (n * 2 =? Z.of_nat 1 + n * 2 - 1) || negb (0 =? 0)).
    rewrite parse_versions_spec; [done|done|]. unfold vec. rewrite length_app. lia.
  - destruct He as (_ & H0 & H1 & H2). apply Z.eqb_neq in H0, H1, H2. by rewrite H0, H1, H2.
Qed.

Lemma parse_extensions_spec es : Forall extension_ok es -> forall fuel f,
  (length (concat (map extension_bytes es)) <= fuel)%nat -> parse_extensions fuel (concat (map extension_bytes es)) f = Ok (foldl take_extension f es).
Proof.
  induction 1 as [|e es He _ IH]; intros fuel f Hf; [by destruct fuel|]. cbn [map concat foldl] in *.
  destruct fuel as [|fuel]; [rewrite length_app in Hf; cbn in Hf; lia|]. pose proof He as (Hk & Hb & _).
  assert (Ht : u16_ok (extension_type e)) by (destruct e; cbn; unfold u16_ok; try lia; apply Hk).
  set (R := concat (map extension_bytes es)) in *. pose proof (blen_nonneg R). pose proof (blen_nonneg (extension_body e)). cbn [parse_extensions].
  unfold extension_bytes in *. rewrite <- (assoc_L (++)) in *. set (B := extension_body e) in *. autorewrite with blen.
  no (Z.of_nat 2 + (Z.of_nat 2 + blen B + blen R) =? 0). no (Z.of_nat 2 + (Z.of_nat 2 + blen B + blen R) <? 4).
  rewrite Uint16_be, (from_app 2) by (done || apply blen_be). rewrite Uint16_vec by done.
  assert (H4 : from 4 (be_bytes 2 (extension_type e) ++ vec 2 B ++ R) = B ++ R).
  { unfold vec. rewrite <- (assoc_L (++)), (assoc_L (++) (be_bytes 2 _)). apply from_app. by rewrite blen_app, !blen_be. }
  rewrite H4, blen_app. no (blen B + blen R <? blen B). rewrite upto_app, from_app by done. unfold B. rewrite parse_extension_spec by done. cbn.
  apply IH. unfold vec in Hf. rewrite !length_app, !be_bytes_length in Hf. lia.
Qed.

(** ** The message *)

Lemma from_from n m b : 0 <= n -> 0 <= m -> from m (from n b) = from (n + m) b.
Proof. intros. unfold from. rewrite drop_drop. f_equal. lia. Qed.

(** A field after a prefix of known length. *)
Lemma byte_after a size b : blen a = Z.of_nat size -> byte_at (a ++ b) size = byte_at b 0.
Proof. intros H. unfold byte_at, blen in *. rewrite lookup_app_r by lia. do 2 f_equal. lia. Qed.

Lemma parseClientHelloBody_spec h : hello_ok h -> parseClientHelloBody (hello_body h) = Ok (hello_says h).
Proof.
  intros (Hv & Hr & Hs & (Hc & Hcl) & Hk & He). unfold parseClientHelloBody.
  set (E := match he_Extensions h with None => [] | Some es => vec 2 (concat (map extension_bytes es)) end) in *.
  pose proof (versions_length (he_Ciphers h)) as Hcs. pose proof (blen_nonneg (he_Session h)). pose proof (blen_nonneg E).
  set (C := concat (map (be_bytes 2) (he_Ciphers h))) in *. set (K := he_Compressions h) in *. set (S := he_Session h) in *.
  assert (Hbody : hello_body h = (be_bytes 2 (he_Version h) ++ he_Random h) ++ vec 1 S ++ vec 2 C ++ vec 1 K ++ E) by (unfold hello_body; by rewrite <- (assoc_L (++))).
  assert (H34 : blen (be_bytes 2 (he_Version h) ++ he_Random h) = 34) by (autorewrite with blen; lia).
  assert (Hlen : blen (hello_body h) = 34 + (1 + blen S + (2 + blen C + (1 + blen K + blen E)))) by (rewrite Hbody; autorewrite with blen in *; lia).
  rewrite Hlen. no (34 + (1 + blen S + (2 + blen C + (1 + blen K + blen E))) <? 35).
  assert (Hver : Uint16 (hello_body h) = he_Version h) by (unfold hello_body; by rewrite Uint16_be).
  assert (Hses : byte_at (hello_body h) 34 = blen S) by (rewrite Hbody, byte_after by done; apply byte_vec; lia).
  assert (H35 : from 35 (hello_body h) = S ++ vec 2 C ++ vec 1 K ++ E).
  { rewrite Hbody. change 35 with (34 + 1). rewrite <- from_from, from_app, from_vec by (done || lia). done. }
  rewrite Hver, Hses, H35, (blen_app S). autorewrite with blen. no ((32 <? blen S) || (blen S + (Z.of_nat 2 + blen C + (Z.of_nat 1 + blen K + blen E)) <? blen S + 2)).
  rewrite from_app, Uint16_vec, from_vec by (done || lia). autorewrite with blen.
  assert (Heven : blen C mod 2 = 0) by (rewrite Hcs, (Z.mul_comm 2); by apply Z.mod_mul). rewrite Heven.
  no ((blen C <? 2) || negb (0 =? 0) || (blen C + (Z.of_nat 1 + blen K + blen E) <? blen C + 1)).
  rewrite from_app, byte_vec, from_vec, blen_app by (done || lia). no ((blen K =? 0) || (blen K + blen E <? blen K)). rewrite from_app by done.
  assert (Hcipher : Uint16 (C ++ vec 1 K ++ E) = default 0 (head (he_Ciphers h))).
  { unfold C. destruct Hc as [|c cs Hc _]; [cbn in Hcl; lia|]. cbn [map concat head default]. rewrite <- (assoc_L (++)). by apply Uint16_be. }
  rewrite Hcipher. unfold hello_says. destruct (he_Extensions h) as [es|]; cbn [default]; [|done]. destruct He as [Hes Hel].
  subst E. autorewrite with blen in *. pose proof (blen_nonneg (concat (map extension_bytes es))).
  no (Z.of_nat 2 + blen (concat (map extension_bytes es)) =? 0). no (Z.of_nat 2 + blen (concat (map extension_bytes es)) <? 2).
  rewrite <- (app_nil_r (vec 2 _)). rewrite Uint16_vec, from_vec, app_nil_r by (done || lia). rewrite Z.eqb_refl. cbn [negb].
  by rewrite parse_extensions_spec.
Qed.

(** ** Records *)

Definition piece_ok (p : Z * list Z) : Prop := 0 <= p.1 <= 4 /\ 0 < blen p.2 <= 18432.

Definition records (ps : list (Z * list Z)) : list Z := concat (map (fun p => record p.1 p.2) ps).

Definition carried (ps : list (Z * list Z)) : list Z := concat (map snd ps).

Definition record_prefix (p : Z * list Z) : list Z := [22; 3; p.1] ++ be_bytes 2 (blen p.2).

Lemma record_split p : record p.1 p.2 = record_prefix p ++ p.2.
Proof. done. Qed.

Lemma record_prefix_length p : blen (record_prefix p) = 5.
Proof. done. Qed.

Lemma record_prefix_type p b : piece_ok p -> not_handshake (record_prefix p ++ b) = false.
Proof. intros [Hv _]. unfold not_handshake. cbn. apply Z.ltb_ge. lia. Qed.

Lemma record_prefix_size p b : piece_ok p -> Uint16 (from 3 (record_prefix p ++ b)) = blen p.2.
Proof. intros [_ Hl]. unfold record_prefix. rewrite <- (assoc_L (++)), from_app by done. apply Uint16_be. unfold u16_ok. lia. Qed.

Lemma hello_body_long h : hello_ok h -> 34 <= blen (hello_body h).
Proof.
  intros (_ & Hr & _). unfold hello_body. rewrite (assoc_L (++)), blen_app, blen_app, blen_be, Hr.
  set (rest := vec 1 (he_Session h) ++ _). pose proof (blen_nonneg rest). lia.
Qed.

(** The start of a message, as soon as four of its bytes are there. *)
Lemma message_start h hs tail : blen (hello_body h) < 2 ^ 24 -> hs ++ tail = hello_message h -> 4 <= blen hs ->
  byte_at hs 0 = 1 /\ be_value (take 3 (drop 1 hs)) = blen (hello_body h).
Proof.
  intros Hl Hm H4. unfold hello_message in Hm. destruct hs as [|x hs]; [cbn in H4; unfold blen in H4; cbn in H4; lia|].
  injection Hm as -> Hm. split; [done|]. change (drop 1 (1 :: hs)) with hs. pose proof (blen_nonneg (hello_body h)). rewrite blen_cons in H4. unfold vec in Hm.
  assert (Ht : take 3 hs = be_bytes 3 (blen (hello_body h))).
  { rewrite <- (take_app_length' (be_bytes 3 (blen (hello_body h))) (hello_body h) 3) by by rewrite be_bytes_length.
    rewrite <- Hm, take_app_le; [done|]. unfold blen in H4. lia. }
  rewrite Ht. apply be_value_bytes. lia.
Qed.

Lemma message_length h : blen (hello_message h) = blen (hello_body h) + 4.
Proof. unfold hello_message. autorewrite with blen. lia. Qed.

Lemma message_body h : upto (blen (hello_body h)) (from 4 (hello_message h)) = hello_body h.
Proof. unfold hello_message. rewrite from_cons by lia. change (4 - 1) with 3. rewrite <- (app_nil_r (vec 3 _)), from_vec, upto_app by done. done. Qed.

Lemma parse_records_spec h : hello_ok h -> blen (hello_message h) <= maxHello -> forall ps, Forall piece_ok ps -> forall fuel hs tail,
  (length (records ps) <= fuel)%nat -> hs ++ carried ps ++ tail = hello_message h -> hs <> hello_message h ->
  parse_records fuel (records ps) hs = if bool_decide (tail = []) then Ok (hello_says h) else Err ErrClientHelloIncomplete.
Proof.
  intros Hok Hmax ps Hps. pose proof (hello_body_long h Hok) as Hlong. rewrite message_length in Hmax. unfold maxHello in *. change (Z.shiftl 64 10) with 65536 in *.
  induction Hps as [|p ps Hp Hps IH]; intros fuel hs tail Hf Hm Hne.
  { rewrite bool_decide_eq_false_2; [by destruct fuel|]. intros ->. rewrite !app_nil_r in Hm. done. }
  pose proof Hp as [_ Hl]. unfold records, carried in *. cbn [map concat] in *. fold (records ps) (carried ps) in *. rewrite record_split, <- (assoc_L (++)) in *.
  destruct fuel as [|fuel]; [rewrite length_app in Hf; cbn in Hf; lia|]. cbn [parse_records].
  pose proof (blen_nonneg (records ps)). set (D := p.2 ++ records ps) in *. assert (HD : blen D = blen p.2 + blen (records ps)) by (unfold D; by rewrite blen_app).
  rewrite blen_app, record_prefix_length. no (5 + blen D =? 0). no (5 + blen D <? 5).
  rewrite record_prefix_type, record_prefix_size by done. rewrite (from_app 5) by done. unfold maxHello. change (Z.shiftl 64 10) with 65536.
  assert (Hall : blen hs + (blen p.2 + (blen (carried ps) + blen tail)) = blen (hello_body h) + 4) by (rewrite <- message_length, <- Hm; autorewrite with blen; lia).
  pose proof (blen_nonneg (carried ps)). pose proof (blen_nonneg tail).
  no ((blen p.2 =? 0) || (18432 <? blen p.2) || (65536 <? blen hs + blen p.2)). rewrite HD. no (blen p.2 + blen (records ps) <? blen p.2).
  unfold D. rewrite upto_app, from_app by done. rewrite (assoc_L (++)) in Hm. rewrite blen_app.
  assert (Hfuel : (length (records ps) <= fuel)%nat) by (rewrite !length_app in Hf; cbn in Hf; unfold D in Hf; rewrite length_app in Hf; lia).
  assert (Hshort : blen hs + blen p.2 < blen (hello_body h) + 4 -> hs ++ p.2 <> hello_message h) by (intros Hs Hq; pose proof (message_length h) as Hq'; rewrite <- Hq, blen_app in Hq'; lia).
  destruct (blen hs + blen p.2 <? 4) eqn:H4.
  { apply Z.ltb_lt in H4. apply IH; [done|done|]. apply Hshort. lia. }
  apply Z.ltb_ge in H4. destruct (message_start h (hs ++ p.2) (carried ps ++ tail)) as [-> ->]; [lia|done|rewrite blen_app; lia|].
  cbn [Z.eqb Pos.eqb negb]. no ((blen (hello_body h) <? 34) || (65536 <? blen (hello_body h) + 4)).
  destruct (blen hs + blen p.2 <? blen (hello_body h) + 4) eqn:H5.
  { apply Z.ltb_lt in H5. apply IH; auto. }
  apply Z.ltb_ge in H5. assert (tail = []) as -> by (apply length_zero_iff_nil; unfold blen in *; lia).
  assert (carried ps = []) as Hc by (apply length_zero_iff_nil; unfold blen in *; lia). rewrite Hc, !app_nil_r in Hm. rewrite Hm, message_body.
  by apply parseClientHelloBody_spec.
Qed.

Lemma hello_message_cons h : hello_message h <> [].
Proof. done. Qed.

(** ** Peeking *)

Lemma records_app ps qs : records (ps ++ qs) = records ps ++ records qs.
Proof. unfold records. by rewrite map_app, concat_app. Qed.

Lemma carried_app ps qs : carried (ps ++ qs) = carried ps ++ carried qs.
Proof. unfold carried. by rewrite map_app, concat_app. Qed.

Lemma records_cons p ps : records (p :: ps) = record_prefix p ++ p.2 ++ records ps.
Proof. unfold records. cbn [map concat]. by rewrite record_split, <- (assoc_L (++)). Qed.

Lemma peek_loop_spec h maxBytes ending rest : hello_ok h -> blen (hello_message h) <= maxHello -> forall ps, Forall piece_ok ps -> forall fuel past,
  ps <> [] -> Forall piece_ok past -> carried past ++ carried ps = hello_message h -> (length ps <= fuel)%nat -> blen (records past) + blen (records ps) <= maxBytes ->
  peek_loop fuel maxBytes ending (records past) (records ps ++ rest) = (Ok (hello_says h), records (past ++ ps), rest).
Proof.
  intros Hok Hmax ps Hps. induction Hps as [|p ps Hp Hps IH]; intros fuel past Hne Hpast Hm Hf Hb; [done|].
  destruct fuel as [|fuel]; [cbn in Hf; lia|]. cbn [peek_loop]. pose proof Hp as [_ Hl]. pose proof (blen_nonneg (records ps)).
  rewrite records_cons in *. rewrite <- !(assoc_L (++)). autorewrite with blen in Hb. rewrite record_prefix_length in Hb.
  no (maxBytes <? blen (records past) + 5). rewrite upto_app, from_app, record_prefix_length by done. cbn [Z.ltb Z.compare Pos.compare Pos.compare_cont].
  assert (Ht : not_handshake (record_prefix p) = false) by (rewrite <- (app_nil_r (record_prefix p)); by apply record_prefix_type).
  assert (Hz : Uint16 (from 3 (record_prefix p)) = blen p.2) by (rewrite <- (app_nil_r (record_prefix p)); by apply record_prefix_size).
  rewrite Ht, Hz. no ((blen p.2 =? 0) || (18432 <? blen p.2)). rewrite blen_app, record_prefix_length. no (maxBytes <? blen (records past) + 5 + blen p.2).
  rewrite upto_app, from_app by done. no (blen p.2 <? blen p.2).
  assert (Hone : records past ++ record_prefix p ++ p.2 = records (past ++ [p])) by (rewrite records_app, records_cons; change (records []) with (@nil Z); by rewrite app_nil_r).
  rewrite Hone. unfold ParseTLSClientHello. assert (Hq : Forall piece_ok (past ++ [p])) by (apply list.Forall_app; split; [done|by constructor]).
  assert (Hc : carried (past ++ [p]) = carried past ++ p.2) by (rewrite carried_app; unfold carried at 2; cbn; by rewrite app_nil_r).
  assert (Hm' : carried (past ++ [p]) ++ carried ps = hello_message h) by (rewrite Hc, <- (assoc_L (++)); done).
  rewrite (parse_records_spec h Hok Hmax _ Hq _ [] (carried ps)) by (done || (intros Habs; symmetry in Habs; by apply hello_message_cons in Habs)).
  destruct ps as [|q ps].
  - rewrite bool_decide_eq_true_2 by done. done.
  - rewrite bool_decide_eq_false_2.
    + rewrite IH; [by rewrite <- (assoc_L (++))|done|done|done| |].
      * cbn in Hf |- *. lia.
      * rewrite <- Hone. autorewrite with blen. rewrite record_prefix_length. lia.
    + intros Habs. inversion Hps as [|?? [_ Hql] _]; subst. unfold carried in Habs. cbn in Habs. apply app_eq_nil in Habs as [Habs _]. rewrite Habs in Hql. cbn in Hql. unfold blen in Hql. cbn in Hql. lia.
Qed.

Lemma records_many ps : Forall piece_ok ps -> Z.of_nat (length ps) <= blen (records ps).
Proof.
  induction 1 as [|p ps [_ Hl] _ IH]; [done|]. rewrite records_cons. autorewrite with blen. rewrite record_prefix_length. cbn [length]. lia.
Qed.

(** What is kept for replay and what is still to come are together what arrived. *)
Definition lossless (maxBytes : Z) (arrived : list Z) (r : peek_result) : Prop := r.1.2 ++ r.2 = arrived /\ blen r.1.2 <= maxBytes.

Lemma lossless_here maxBytes r buffered incoming : blen buffered <= maxBytes -> lossless maxBytes (buffered ++ incoming) (r, buffered, incoming).
Proof. by split. Qed.

Lemma peek_loop_lossless fuel maxBytes ending : forall buffered incoming, blen buffered <= maxBytes -> lossless maxBytes (buffered ++ incoming) (peek_loop fuel maxBytes ending buffered incoming).
Proof.
  induction fuel as [|fuel IH]; intros buffered incoming Hb; cbn [peek_loop]; [done|].
  destruct (maxBytes <? blen buffered + 5) eqn:Hmax; [done|]. apply Z.ltb_ge in Hmax.
  assert (H5 : blen (upto 5 incoming) <= 5) by (unfold blen, upto; rewrite length_take; lia).
  assert (Hs : (buffered ++ upto 5 incoming) ++ from 5 incoming = buffered ++ incoming) by (rewrite <- (assoc_L (++)); f_equal; apply take_drop).
  rewrite <- Hs. set (b := buffered ++ upto 5 incoming) in *. set (i := from 5 incoming) in *.
  assert (Hb5 : blen b <= maxBytes) by (unfold b; rewrite blen_app; lia). clearbody b i.
  destruct (blen (upto 5 incoming) <? 5); [done|]. destruct (not_handshake _); [done|]. set (len := Uint16 _). clearbody len.
  destruct ((len =? 0) || _) eqn:Hlen; [done|]. destruct (maxBytes <? blen b + len) eqn:Hm; [done|]. apply Z.ltb_ge in Hm.
  assert (Hp : blen (upto len i) <= Z.max 0 len) by (unfold blen, upto; rewrite length_take; lia).
  assert (Hs2 : (b ++ upto len i) ++ from len i = b ++ i) by (rewrite <- (assoc_L (++)); f_equal; apply take_drop).
  rewrite <- Hs2. assert (Hb2 : blen (b ++ upto len i) <= maxBytes) by (rewrite blen_app; lia).
  destruct (blen (upto len i) <? len); [by apply lossless_here|]. destruct (ParseTLSClientHello _) as [m|[|reason]]; auto using lossless_here.
Qed.

Lemma PeekClientHello_lossless deadline_set maxBytes incoming ending : lossless (Z.shiftl 64 10) incoming (PeekClientHello deadline_set maxBytes incoming ending).
Proof.
  unfold PeekClientHello. set (m := if maxBytes <=? 0 then _ else _). destruct (_ <? m) eqn:Hm; [done|]. destruct deadline_set; [|done]. apply Z.ltb_ge in Hm.
  assert (0 <= m). { subst m. destruct (maxBytes <=? 0) eqn:H0; [done|]. apply Z.leb_gt in H0. lia. }
  destruct (peek_loop_lossless (Z.to_nat m) m ending [] incoming) as [H1 H2]; [done|]. split; [done|]. cbn [negb]. lia.
Qed.

(** C23. A ClientHello says to the proxy what its sender put into it, whatever
    extensions it has and however its bytes are cut into TLS records, as long as
    they fit the limit; the proxy keeps exactly those records for replay and leaves
    what follows them unread. *)
Theorem clienthello_any_framing h ps rest maxBytes ending : hello_ok h -> Forall piece_ok ps -> carried ps = hello_message h -> 0 < maxBytes <= Z.shiftl 64 10 ->
  blen (records ps) <= maxBytes -> PeekClientHello true maxBytes (records ps ++ rest) ending = (Ok (hello_says h), records ps, rest).
Proof.
  intros Hok Hps Hm Hmax Hlen. unfold PeekClientHello. replace (maxBytes <=? 0) with false by (symmetry; apply Z.leb_gt; lia). no (Z.shiftl 64 10 <? maxBytes). cbn [negb].
  pose proof (records_many ps Hps). assert (Hmsg : blen (hello_message h) <= maxHello).
  { rewrite <- Hm. unfold maxHello. etrans; [|apply Hmax]. etrans; [|done]. clear. induction ps as [|p ps IH]; [done|].
    rewrite records_cons. unfold carried in *. cbn [map concat]. autorewrite with blen. rewrite record_prefix_length. lia. }
  change (peek_loop (Z.to_nat maxBytes) maxBytes ending [] (records ps ++ rest)) with (peek_loop (Z.to_nat maxBytes) maxBytes ending (records []) (records ps ++ rest)).
  rewrite (peek_loop_spec h maxBytes ending rest Hok Hmsg ps Hps (Z.to_nat maxBytes) []); [done| | |done|lia|done].
  - intros ->. symmetry in Hm. by apply hello_message_cons in Hm.
  - constructor.
Qed.

(** ** The fate of a connection *)

(** The engine was asked about this connection, with what was learnt of its hello,
    and [d] is its valid answer. *)
Definition authorised (h : ConnHandler) (conn : GateConn) (incoming : list Z) (ending : ReadEnd) (code : string) (d : ProxyConnectionDecision) : Prop :=
  exists counters metadata buffered rest, peek_hello h conn incoming ending = Ok (counters, metadata, code, buffered, rest) /\
  ch_authorizer h (proxy_open conn metadata code) = Some d /\ validateConnectionDecision conn d = true.

(** What may become of a connection whose client sends [incoming]. *)
Definition fate_ok (h : ConnHandler) (conn : GateConn) (incoming : list Z) (ending : ReadEnd) (o : conn_outcome) : Prop :=
  match o with
  | ConnRefused _ => True
  | ConnTunnel target upstream => target = gn_OriginalDestination conn /\ upstream = incoming /\
      exists code d, authorised h conn incoming ending code d /\ (cd_Action d = TLSGateBypass \/ cd_Action d = TLSGateMetadataOnly /\ gn_TLS conn = true)
  | ConnHTTP d stream => stream = incoming /\ gn_TLS conn = false /\ authorised h conn incoming ending "" d /\ cd_Action d = TLSGateInspectHTTP
  | ConnDecrypted d stream => stream = incoming /\ gn_TLS conn = true /\ authorised h conn incoming ending "" d /\ cd_Action d = TLSGateDecrypt
  end.

Lemma peek_hello_lossless h conn incoming ending counters metadata code buffered rest :
  peek_hello h conn incoming ending = Ok (counters, metadata, code, buffered, rest) -> buffered ++ rest = incoming /\ (gn_TLS conn = false -> buffered = [] /\ code = "").
Proof.
  unfold peek_hello. destruct (gn_TLS conn); [|by intros [= <- <- <- <- <-]]. pose proof (PeekClientHello_lossless (ch_deadline_set h) (ch_ClientHelloBytes h) incoming ending) as [Hl _].
  destruct (PeekClientHello _ _ _ _) as [[[m|[]] b] i]; cbn in Hl; try done; intros [= <- <- <- <- <-]; done.
Qed.

Lemma decision_fits conn d : validateConnectionDecision conn d = true ->
  (cd_Action d = TLSGateInspectHTTP -> gn_TLS conn = false) /\ (cd_Action d = TLSGateDecrypt \/ cd_Action d = TLSGateMetadataOnly -> gn_TLS conn = true).
Proof.
  unfold validateConnectionDecision. rewrite !andb_true_iff. intros [_ H]. destruct (gn_TLS conn).
  - apply negb_true_iff, bool_decide_eq_false_1 in H. split; [done|auto].
  - apply andb_true_iff in H as [H1%negb_true_iff%bool_decide_eq_false_1 H2%negb_true_iff%bool_decide_eq_false_1]. split; [auto|]. by intros [?|?].
Qed.

(** C22. Unless a connection is refused, what becomes of it follows from a valid
    decision of the engine about this very connection and what its hello says: a
    tunnel goes to the original destination and carries every byte the client
    sends, including those read to find the hello; plain HTTP is inspected only
    where there is no TLS; TLS is decrypted only after a hello that could be read,
    and the TLS server sees every byte. *)
Theorem connection_fate h conn incoming ending : fate_ok h conn incoming ending (ServeProxyConnection h conn incoming ending).2.
Proof.
  unfold ServeProxyConnection. destruct (_ || _); [done|].
  destruct (peek_hello h conn incoming ending) as [[[[[counters metadata] code] buffered] rest]|e] eqn:Hp; [|done].
  destruct (peek_hello_lossless _ _ _ _ _ _ _ _ _ Hp) as [Hl Hplain].
  destruct (ch_authorizer h _) as [d|] eqn:Ha; [|done]. destruct (validateConnectionDecision conn d) eqn:Hv; cbn [negb]; [|done].
  destruct (decision_fits conn d Hv) as [Hhttp Htls]. assert (Hauth : authorised h conn incoming ending code d) by (repeat eexists; eauto).
  destruct (negb _ && _) eqn:Hcode; [done|]. destruct (cd_Action d) eqn:Hact; try done.
  - unfold rawTunnel. destruct (ch_dial _ _); [|done]. cbn. repeat split; [done|]. exists code, d. auto.
  - unfold rawTunnel. destruct (ch_dial _ _); [|done]. cbn. repeat split; [done|]. exists code, d. split; [done|]. right. auto.
  - destruct (ch_HTTPGate h && ch_CA h); [|done]. unfold serveDecrypted, replayed. destruct (ch_handshake _ _); [|done]. cbn. repeat split; auto.
    apply andb_false_iff in Hcode as [Hcode|Hcode]; [|by apply bool_decide_eq_false_1 in Hcode].
    apply negb_false_iff, bool_decide_eq_true_1 in Hcode. by subst code.
  - destruct (ch_HTTPGate h); [|done]. destruct (Hplain (Hhttp eq_refl)) as [-> ->]. cbn in *. repeat split; auto.
Qed.

(** ** A hello *)

Definition sample_hello : Hello :=
  mkHello 771 (replicate 32 7) [1; 2; 3] [4865; 49199] [0]
    (Some [OtherExtension 65281 [0]; ServerName [(0, str_bytes "shop.example")]; Protocols [str_bytes "h2"; str_bytes "http/1.1"]; SupportedVersions [772; 771]]).

(** Its message in two records, the first of which ends inside the length. *)
Definition sample_pieces : list (Z * list Z) := [(1, take 3 (hello_message sample_hello)); (3, drop 3 (hello_message sample_hello))].

Lemma sample_hello_ok : hello_ok sample_hello.
Proof.
  unfold hello_ok. cbn [sample_hello he_Version he_Random he_Session he_Ciphers he_Compressions he_Extensions].
  repeat match goal with
  | |- extension_ok _ => unfold extension_ok; cbn [extension_body]
  | |- _ /\ _ => split
  | |- Forall _ [] => constructor
  | |- Forall _ (_ :: _) => constructor
  | |- _ => first [unfold u16_ok, is_byte, blen; cbn; lia | vm_compute; discriminate]
  end.
Qed.

Lemma clienthello_any_framing_witness :
  PeekClientHello true 4096 (records sample_pieces ++ [23; 3; 3]) EndEOF = (Ok (hello_context "shop.example" "0x0304" "0x1301" "h2" true), records sample_pieces, [23; 3; 3]).
Proof.
  pose proof (clienthello_any_framing sample_hello sample_pieces [23; 3; 3] 4096 EndEOF sample_hello_ok) as H.
  rewrite H; [vm_compute; reflexivity| | | |].
  - repeat constructor; vm_compute; intros; discriminate.
  - vm_compute. reflexivity.
  - vm_compute. split; [reflexivity|intros; discriminate].
  - vm_compute. intros. discriminate.
Defined.
