(* ===== verification/Ruleset.v ===== *)
(** * The nftables ruleset of a configuration

    internal/dataplane/compiler.go and compiler_m2.go: from a configuration to the
    text of the kernel's tables.  The text is built and edited as in the code, with
    [strings.Replace]; a line written by the builder is an element of a list that
    [lines_text] joins.  Error messages are kept as subject and rule. *)

From Stdlib Require Import Ascii.
From S2P Require Import Prelude GoStr Netip GoNet Domain Flow Config TLSExclusion Validate Validator Mark Connectivity Service.

#[local] Open Scope string_scope.
#[local] Open Scope list_scope.
#[local] Open Scope Z_scope.

(** ** Text *)

Definition newline : string := String (char_of 10) "".
Definition dq : string := String (char_of 34) "".
Definition quoted (s : string) : string := dq +:+ s +:+ dq.

Definition lines_text (lines : list string) : string := foldr (fun l s => l +:+ newline +:+ s) "" lines.

(** [strings.Replace(s, old, new, 1)] and [strings.ReplaceAll(s, old, new)] for an
    [old] that is not empty. *)
Fixpoint Replace1 (old new s : string) : string :=
  if HasPrefix s old then new +:+ drop_string (String.length old) s
  else match s with
       | EmptyString => EmptyString
       | String c s => String c (Replace1 old new s)
       end.

Fixpoint replace_all (old new : string) (skip : nat) (s : string) : string :=
  match s with
  | EmptyString => EmptyString
  | String c rest =>
      match skip with
      | S skip => replace_all old new skip rest
      | O => if HasPrefix s old then new +:+ replace_all old new (pred (String.length old)) rest
             else String c (replace_all old new O rest)
      end
  end.

Definition ReplaceAll (old new s : string) : string := replace_all old new O s.

Fixpoint text_Contains (s sub : string) : bool :=
  HasPrefix s sub || match s with EmptyString => false | String _ s => text_Contains s sub end.

(** ** Values *)

Definition uniqueSorted (values : list string) : list string := sorted_strings values.

(** [network.String()]. *)
Definition net_String (n : IPNet) : string :=
  match To4 (net_IP n) with
  | Some x => string_v4 x +:+ "/" +:+ itoa (if Is4 (net_IP n) then net_Ones n else Z.max 0 (net_Ones n - 96))
  | None => addr_String (net_IP n) +:+ "/" +:+ itoa (net_Ones n)
  end.

Definition canonicalIPv4 (value : string) : option string :=
  if ContainsByte "/" value then
    match ParseCIDR value with
    | Some (ip, network) => if bool_decide (To4 ip = None) then None else Some (net_String network)
    | None => None
    end
  else
    match ParseIP value with
    | Some ip => string_v4 <$> To4 ip
    | None => None
    end.

Definition canonicalIPv4List (values : list string) : option (list string) := uniqueSorted <$> mapM canonicalIPv4 values.

Definition valueOrSet (values : list string) (quote : bool) : string :=
  match (if quote then quoted <$> values else values) with
  | [value] => value
  | rendered => "{ " +:+ strings_Join ", " rendered +:+ " }"
  end.

Definition quoteSet (values : list string) : string := valueOrSet (uniqueSorted values) true.

Definition zone_map : Type := gmap string (list string).

Definition add_zone_interface (result : zone_map) (iface : Interface) : zone_map :=
  if bool_decide (if_ZoneID iface = "") || bool_decide (if_SystemName iface = "") then result
  else <[if_ZoneID iface := default [] (result !! if_ZoneID iface) ++ [if_SystemName iface]]> result.

Definition buildZoneInterfaces (config : Config) : zone_map := uniqueSorted <$> foldl add_zone_interface ∅ (cf_Interfaces config).

Definition zoneInterfaces (zones : list string) (mapping : zone_map) : list string :=
  uniqueSorted (zones ≫= fun zone => default [] (mapping !! zone)).

(** ** Policy rules *)

Definition policyAction (action : Decision) : option string :=
  match action with
  | DecisionAllow => Some "accept"
  | DecisionDrop => Some "drop"
  | DecisionReject => Some "reject"
  | _ => None
  end.

Definition port_text (s : ServiceSelector) : string :=
  if ss_First s =? ss_Last s then itoa (ss_First s) else itoa (ss_First s) +:+ "-" +:+ itoa (ss_Last s).

Definition service_text (field : string) (value : string) : option string :=
  selector ← ParseServiceSelector value;
  Some (if ss_AllPorts selector then "meta l4proto " +:+ ss_Protocol selector
        else ss_Protocol selector +:+ " " +:+ field +:+ " " +:+ port_text selector).

Definition serviceExpression (value : string) : option string := service_text "dport" value.
Definition reverseServiceExpression (value : string) : option string := service_text "sport" value.

(** The conditions that the lines of a policy share. *)
Definition zone_condition (key : string) (zones : list string) (zoneIfaces : zone_map) : list string :=
  if bool_decide (zones = []) then [] else [key +:+ " " +:+ quoteSet (zoneInterfaces zones zoneIfaces)].

Definition address_condition (key : string) (addresses : list string) : option (list string) :=
  if bool_decide (addresses = []) then Some []
  else (fun values => [key +:+ " " +:+ valueOrSet values false]) <$> canonicalIPv4List addresses.

(** One line for each service, or one for all. *)
Definition policy_lines (base : list string) (expression : string -> option string) (action comment : string) (services : list string) : option (list string) :=
  let line parts := strings_Join " " (base ++ parts ++ ["counter"; action; "comment " +:+ quoted comment]) in
  mapM (fun service => if bool_decide (service = "") then Some (line []) else (fun e => line [e]) <$> expression service)
    (if bool_decide (services = []) then [""] else services).

Definition renderPolicyRules (policy : SecurityPolicy) (zoneIfaces : zone_map) : option (list string) :=
  sources ← address_condition "ip saddr" (sp_SourceAddresses policy);
  destinations ← address_condition "ip daddr" (sp_DestinationAddresses policy);
  action ← policyAction (sp_Action policy);
  policy_lines (zone_condition "iifname" (sp_SourceZones policy) zoneIfaces ++ zone_condition "oifname" (sp_DestinationZones policy) zoneIfaces ++ sources ++ destinations)
    serviceExpression action ("policy:" +:+ sp_ID policy) (sp_Services policy).

Definition renderReversePolicyRules (policy : SecurityPolicy) (zoneIfaces : zone_map) : option (list string) :=
  destinations ← address_condition "ip saddr" (sp_DestinationAddresses policy);
  sources ← address_condition "ip daddr" (sp_SourceAddresses policy);
  action ← policyAction (sp_Action policy);
  policy_lines (["ct state established,related"] ++ zone_condition "iifname" (sp_DestinationZones policy) zoneIfaces ++ zone_condition "oifname" (sp_SourceZones policy) zoneIfaces ++ destinations ++ sources)
    reverseServiceExpression action ("policy:" +:+ sp_ID policy +:+ ":reverse") (sp_Services policy).

(** ** NAT rules *)

Definition network_condition (key network : string) : option (list string) :=
  if bool_decide (network = "") then Some [] else (fun n => [key +:+ " " +:+ n]) <$> canonicalIPv4 network.

(** [net.ParseIP(address).To4().String()] with its port; a nil address prints so. *)
Definition nat_target (rule : NATRule) : string :=
  (match ParseIP (nr_TranslatedAddress rule) ≫= To4 with Some x => string_v4 x | None => "<nil>" end) +:+
  (if 0 <? nr_TranslatedPort rule then ":" +:+ itoa (nr_TranslatedPort rule) else "").

Definition nat_action (rule : NATRule) : option string :=
  let typeName := ToUpper (nr_Type rule) in
  if bool_decide (typeName = "MASQUERADE") then Some "masquerade"
  else if bool_decide (typeName = "SNAT") then Some ("snat to " +:+ nat_target rule)
  else if bool_decide (typeName = "DNAT") then Some ("dnat to " +:+ nat_target rule)
  else None.

Definition protocol_condition (protocol : string) (port : Z) : list string :=
  if 0 <? port then [protocol +:+ " dport " +:+ itoa port]
  else if bool_decide (protocol = "") then [] else ["meta l4proto " +:+ protocol].

Definition one_zone (key zone : string) (zoneIfaces : zone_map) : list string :=
  if bool_decide (zone = "") then [] else [key +:+ " " +:+ quoteSet (zoneInterfaces [zone] zoneIfaces)].

Definition renderNATRule (rule : NATRule) (zoneIfaces : zone_map) (prerouting : bool) : option string :=
  sources ← network_condition "ip saddr" (nr_SourceNetwork rule);
  destinations ← network_condition "ip daddr" (nr_DestinationNetwork rule);
  action ← nat_action rule;
  Some (strings_Join " " (one_zone "iifname" (nr_SourceZone rule) zoneIfaces ++ (if prerouting then [] else one_zone "oifname" (nr_DestinationZone rule) zoneIfaces) ++ sources ++ destinations ++
    protocol_condition (ToLower (nr_Protocol rule)) (nr_OriginalPort rule) ++
    [action; "comment " +:+ quoted ("nat:" +:+ nr_ID rule +:+ ":priority=" +:+ itoa (nr_Priority rule))])).

Definition renderDNATZoneGuard (rule : NATRule) (zoneIfaces : zone_map) : option string :=
  target ← ParseIP (nr_TranslatedAddress rule) ≫= To4;
  let interfaces := zoneInterfaces [nr_DestinationZone rule] zoneIfaces in
  let sources := if bool_decide (nr_SourceNetwork rule = "") then [] else ["ip saddr " +:+ default "" (canonicalIPv4 (nr_SourceNetwork rule))] in
  let guardPort := if nr_TranslatedPort rule =? 0 then nr_OriginalPort rule else nr_TranslatedPort rule in
  Some (strings_Join " " (["ct status dnat"] ++ one_zone "iifname" (nr_SourceZone rule) zoneIfaces ++ sources ++ ["ip daddr " +:+ string_v4 target] ++
    (if 0 <? guardPort then [ToLower (nr_Protocol rule) +:+ " dport " +:+ itoa guardPort]
     else if bool_decide (nr_Protocol rule = "") then [] else ["meta l4proto " +:+ ToLower (nr_Protocol rule)]) ++
    ["oifname != " +:+ quoteSet interfaces; "drop"; "comment " +:+ quoted ("dnat-zone:" +:+ nr_ID rule)])).

(** ** Checks before rendering *)

Definition targetBelongsToZone (address zone : string) (config : Config) : bool :=
  match ParseIP address with
  | None => false
  | Some target =>
      if bool_decide (To4 target = None) then false
      else
      let best := foldl (interface_zone target) (-1, "") (cf_Interfaces config) in
      let best := foldl (route_zone (interfaces_by_id config) target) best (cf_Routes config) in
      (0 <=? best.1) && bool_decide (best.2 = zone)
  end.

Definition no_interface (zoneIfaces : zone_map) (zone : string) : bool := bool_decide (default [] (zoneIfaces !! zone) = []).

Definition render_policy_errors (zoneIfaces : zone_map) (policy : SecurityPolicy) : list ConfigError :=
  if negb (sp_Enabled policy) then []
  else
  err_if (bool_decide (policyAction (sp_Action policy) = None)) (sp_ID policy) "action is not an M1 firewall action" ++
  err_if (negb (ValidateIdentifier (sp_ID policy))) (sp_ID policy) "policy identifier" ++
  ((sp_SourceZones policy ++ sp_DestinationZones policy) ≫= fun zone => err_if (no_interface zoneIfaces zone) (sp_ID policy) "zone has no interface") ++
  err_if (bool_decide (canonicalIPv4List (sp_SourceAddresses policy ++ sp_DestinationAddresses policy) = None)) (sp_ID policy) "addresses" ++
  (sp_Services policy ≫= fun service => err_if (bool_decide (serviceExpression service = None)) (sp_ID policy) "service").

Definition network_invalid (network : string) : bool :=
  negb (bool_decide (network = "")) && (bool_decide (canonicalIPv4 network = None) || negb (ContainsByte "/" network)).

Definition render_nat_errors (config : Config) (zoneIfaces : zone_map) (rule : NATRule) : list ConfigError :=
  if negb (nr_Enabled rule) then []
  else
  let typeName := ToUpper (nr_Type rule) in
  let protocol := ToLower (nr_Protocol rule) in
  err_if (negb (ValidateIdentifier (nr_ID rule))) (nr_ID rule) "NAT identifier" ++
  err_if (negb (bool_decide (typeName ∈ ["SNAT"; "MASQUERADE"; "DNAT"]))) (nr_ID rule) "unsupported type" ++
  err_if (no_interface zoneIfaces (nr_SourceZone rule)) (nr_ID rule) "source zone has no interface" ++
  err_if (no_interface zoneIfaces (nr_DestinationZone rule)) (nr_ID rule) "destination zone has no interface" ++
  err_if (negb (bool_decide (protocol ∈ [""; "tcp"; "udp"; "icmp"]))) (nr_ID rule) "invalid protocol" ++
  err_if (((0 <? nr_OriginalPort rule) || (0 <? nr_TranslatedPort rule)) && negb (bool_decide (protocol ∈ ["tcp"; "udp"]))) (nr_ID rule) "ports require tcp or udp" ++
  err_if (network_invalid (nr_SourceNetwork rule)) (nr_ID rule) "source network" ++
  err_if (network_invalid (nr_DestinationNetwork rule)) (nr_ID rule) "destination network" ++
  err_if (bool_decide (typeName ∈ ["SNAT"; "DNAT"]) && bool_decide (ParseIP (nr_TranslatedAddress rule) ≫= To4 = None)) (nr_ID rule) "requires an IPv4 translated address" ++
  err_if (bool_decide (typeName = "DNAT") && negb (targetBelongsToZone (nr_TranslatedAddress rule) (nr_DestinationZone rule) config)) (nr_ID rule) "target is not in the destination zone".

Definition validateForRender (config : Config) (zoneIfaces : zone_map) : list ConfigError :=
  (cf_Interfaces config ≫= fun iface => err_if (negb (linuxInterfaceName (if_SystemName iface))) (if_ID iface) "unsafe system name") ++
  (cf_Policies config ≫= render_policy_errors zoneIfaces) ++
  (cf_NATRules config ≫= render_nat_errors config zoneIfaces).

(** ** The table *)

Inductive RenderError : Type := RenderInvalid (errors : list ConfigError) | RenderRule (id : string) | RenderText.

Definition nat_less (a b : NATRule) : bool := nr_Priority a <? nr_Priority b.

Definition is_dnat (rule : NATRule) : bool := EqualFold (nr_Type rule) "DNAT".

Definition indent (line : string) : string := "    " +:+ line.

(** The lines of a chain, rule by rule; the first rule that cannot be rendered is
    the error. *)
Fixpoint render_each {A} (id : A -> string) (render : A -> option (list string)) (rules : list A) : result RenderError (list string) :=
  match rules with
  | [] => Ok []
  | rule :: rules =>
      match render rule with
      | None => Err (RenderRule (id rule))
      | Some lines => let? rest := render_each id render rules in Ok (map indent lines ++ rest)
      end
  end.

Definition forward_header (policy : string) : string :=
  "  chain forward { type filter hook forward priority 0; policy " +:+ policy +:+ "; ct state invalid drop; ct state established,related accept;".

Definition CompileRuleset (config : Config) : result RenderError string :=
  let zoneIfaces := buildZoneInterfaces config in
  let errs := validateForRender config zoneIfaces in
  if negb (bool_decide (errs = [])) then Err (RenderInvalid errs)
  else
  let natRules := List.filter nr_Enabled (sort_by nat_less (cf_NATRules config)) in
  let policies := List.filter sp_Enabled (SortPolicies (cf_Policies config)) in
  let one (f : NATRule -> option string) rule := (fun line => [line]) <$> f rule in
  let? dnat := render_each nr_ID (one (fun rule => renderNATRule rule zoneIfaces true)) (List.filter is_dnat natRules) in
  let? guards := render_each nr_ID (one (fun rule => renderDNATZoneGuard rule zoneIfaces)) (List.filter is_dnat natRules) in
  let? forward := render_each sp_ID (fun policy => renderPolicyRules policy zoneIfaces) policies in
  let? snat := render_each nr_ID (one (fun rule => renderNATRule rule zoneIfaces false)) (List.filter (fun rule => negb (is_dnat rule)) natRules) in
  Ok (lines_text (
    ["flush table inet ngfw"; "table inet ngfw {"; "  set temporary_blocks { type ipv4_addr; flags timeout; timeout 5m; }";
     "  chain prerouting { type filter hook prerouting priority -150; policy accept; ip saddr @temporary_blocks drop; }";
     "  chain nat_prerouting { type nat hook prerouting priority -100; policy accept;"] ++ dnat ++
    ["  }"; "  chain dnat_zone_guard { type filter hook forward priority -5; policy accept;"] ++ guards ++
    ["  }"; forward_header (if cf_DefaultDeny config then "drop" else "accept")] ++ forward ++
    ["  }"; "  chain nat_postrouting { type nat hook postrouting priority 100; policy accept;"] ++ snat ++ ["  }"; "}"])).

(** ** The table with cached decisions (compiler_m2.go) *)

Definition hex8 (v : Z) : string := "0x" +:+ hex_EncodeToString (be_bytes 4 v).

Definition sorted_slots (options : M2CompileOptions) : list Z := sort_by Z.ltb (List.filter (fun slot => 0 <? slot) (snd <$> map_to_list (co_ZoneSlots options))).

(** A mark that cannot be packed is rendered as zero: the error is not looked at. *)
Definition cache_value (epoch src dst : Z) : Z := match PackCacheMark (mkCacheMark epoch src dst) with Ok v => v | Err _ => 0 end.

Definition caching (options : M2CompileOptions) : bool := co_CacheEnabled options && (0 <? co_Epoch options) && negb (bool_decide (co_ZoneSlots options = ∅)).

Definition cache_rules (options : M2CompileOptions) : list string :=
  if caching options then
    let slots := sorted_slots options in
    slots ≫= fun src => slots ≫= fun dst => ["ct state established ct mark & 0xffffff00 == " +:+ hex8 (cache_value (co_Epoch options) src dst) +:+ " accept"]
  else [].

(** The mark that an allowed first packet leaves, for a policy with one zone pair. *)
Definition policy_mark (options : M2CompileOptions) (policy : SecurityPolicy) : option Z :=
  if negb (sp_Enabled policy) || negb (bool_decide (sp_Action policy = DecisionAllow)) then None
  else match sp_SourceZones policy, sp_DestinationZones policy with
  | [source], [destination] =>
      src ← co_ZoneSlots options !! source;
      dst ← co_ZoneSlots options !! destination;
      if (src =? 0) || (dst =? 0) then None
      else match PackCacheMark (mkCacheMark (co_Epoch options) src dst) with Ok v => Some v | Err _ => None end
  | _, _ => None
  end.

Definition add_mark (options : M2CompileOptions) (marks : gmap string Z) (policy : SecurityPolicy) : gmap string Z :=
  match policy_mark options policy with Some v => <[sp_ID policy := v]> marks | None => marks end.

Definition markByPolicy (config : Config) (options : M2CompileOptions) : gmap string Z :=
  if caching options then foldl (add_mark options) ∅ (cf_Policies config) else ∅.

Definition counted_accept (policyID suffix : string) : string := " counter accept comment " +:+ quoted ("policy:" +:+ policyID +:+ suffix).

Definition marked_accept (value : Z) (policyID suffix : string) : string := " ct mark set (ct mark & 0x000000ff) | " +:+ hex8 value +:+ counted_accept policyID suffix.

Definition set_mark (ruleset : string) (m : string * Z) : string :=
  let '(policyID, value) := m in
  foldl (fun ruleset suffix => ReplaceAll (counted_accept policyID suffix) (marked_accept value policyID suffix) ruleset) ruleset [""; ":reverse"].

Definition acceptPolicy : string := "chain forward { type filter hook forward priority 0; policy accept;".
Definition dropPolicy : string := "chain forward { type filter hook forward priority 0; policy drop;".

Definition runtimeTable : string :=
  lines_text ["table inet ngfw_runtime {"; "  set source_blocks { type ipv4_addr; flags timeout; timeout 5m; }"; "  set revoked_ctids { typeof ct id; }";
    "  chain forward_guard { type filter hook forward priority -20; policy accept; ct id @revoked_ctids drop; ip saddr @source_blocks drop; ip daddr @source_blocks drop; }"; "}"].

(** [order]: the order in which Go visits the map of marks. *)
Definition CompileM2Ruleset (config : Config) (options : M2CompileOptions) (order : list (string * Z)) : result RenderError string :=
  let? ruleset := CompileRuleset config in
  if negb (text_Contains ruleset "ct state established,related accept;") then Err RenderText
  else
  let? ruleset :=
    if cf_DefaultDeny config then Ok ruleset
    else if negb (text_Contains ruleset acceptPolicy) then Err RenderText
    else Ok (Replace1 acceptPolicy dropPolicy ruleset) in
  let cacheRules := cache_rules options in
  let replacement := "ct state invalid drop;" +:+ (if bool_decide (cacheRules = []) then "" else " " +:+ strings_Join "; " cacheRules +:+ ";") in
  let ruleset := Replace1 "ct state invalid drop; ct state established,related accept;" replacement ruleset in
  let? reverseLines := render_each sp_ID (fun policy => renderReversePolicyRules policy (buildZoneInterfaces config)) (List.filter sp_Enabled (SortPolicies (cf_Policies config))) in
  let forwardTail := reverseLines ++ (if cf_DefaultDeny config then [] else [indent ("counter accept comment " +:+ quoted "default:allow")]) in
  let ruleset :=
    if bool_decide (forwardTail = []) then ruleset
    else Replace1 ("  }" +:+ newline +:+ "  chain nat_postrouting") (lines_text forwardTail +:+ "  }" +:+ newline +:+ newline +:+ "  chain nat_postrouting") ruleset in
  let ruleset := foldl set_mark ruleset order in
  Ok (runtimeTable +:+ ruleset).
