(* ===== verification/NftText.v ===== *)
(** * What is relied on of nftables for the policy table

    nft is a parameter, with the documented meaning of the lines the compiler writes
    as its laws (nft(8), sections EXPRESSIONS and VERDICT STATEMENTS): which packets a
    condition matches ([documented], [match_packet]), that a rule applies when all its
    conditions match ([rule_semantics]), and that a packet meets the rules of a base
    chain in order, the first that applies decides, and the chain's policy decides
    otherwise ([chain_semantics]).  A reader of such lines shows that there is an nft
    with these laws. *)

From Stdlib Require Import Ascii.
From S2P Require Import Prelude GoStr Bytes Netip Domain Flow Config Services TLSExclusion Validate Connectivity Mark GoNet Validator Service Guards NftModel Ruleset.

#[local] Open Scope string_scope.
#[local] Open Scope list_scope.
#[local] Open Scope Z_scope.

(** ** Packets and rules *)

Inductive ct_state : Type := CtNew | CtEstablished | CtRelated | CtInvalid.

#[global] Instance ct_state_eq_dec : EqDecision ct_state.
Proof. solve_decision. Defined.

Record packet : Type := mkPacket {
  pk_iif : string;
  pk_oif : string;
  pk_src : Addr;
  pk_dst : Addr;
  pk_sport : Z;
  pk_dport : Z;
  pk_proto : Z;
  pk_state : ct_state;
  pk_mark : Z
}.

Inductive nft_match : Type :=
| OnIif (names : list string)
| OnOif (names : list string)
| OnSource (prefixes : list Prefix)
| OnDestination (prefixes : list Prefix)
| OnPort (proto : Z) (destination : bool) (first last : Z)
| OnProtocol (proto : Z)
| OnState (states : list ct_state)
| OnMark (mask value : Z).

Inductive nft_verdict : Type := NftAccept | NftDrop | NftReject.

#[global] Instance nft_verdict_eq_dec : EqDecision nft_verdict.
Proof. solve_decision. Defined.

(** The statements of a rule: its conditions, a mark set, a verdict. *)
Record nft_rule : Type := mkNftRule { nf_matches : list nft_match; nf_mark : option Z; nf_verdict : nft_verdict }.

Definition match_packet (p : packet) (m : nft_match) : bool :=
  match m with
  | OnIif names => bool_decide (pk_iif p ∈ names)
  | OnOif names => bool_decide (pk_oif p ∈ names)
  | OnSource prefixes => existsb (fun x => Netip.Contains x (pk_src p)) prefixes
  | OnDestination prefixes => existsb (fun x => Netip.Contains x (pk_dst p)) prefixes
  | OnPort proto destination first last =>
      let port := if destination then pk_dport p else pk_sport p in (pk_proto p =? proto) && (first <=? port) && (port <=? last)
  | OnProtocol proto => pk_proto p =? proto
  | OnState states => bool_decide (pk_state p ∈ states)
  | OnMark mask value => Z.land (pk_mark p) mask =? value
  end.

Definition rule_applies (p : packet) (r : nft_rule) : bool := forallb (match_packet p) (nf_matches r).

(** The verdict of a rule and the packet's mark after it. *)
Definition effect (p : packet) (r : nft_rule) : nft_verdict * Z :=
  (nf_verdict r, match nf_mark r with Some v => Z.lor (Z.land (pk_mark p) 255) v | None => pk_mark p end).

(** The verdict of a chain. *)
Definition run_chain (policy : nft_verdict) (rules : list nft_rule) (p : packet) : nft_verdict * Z :=
  match find (rule_applies p) rules with
  | Some r => effect p r
  | None => (policy, pk_mark p)
  end.

(** ** Reading *)

Definition unquote (w : string) : option string :=
  if HasPrefix w dq && HasSuffix w dq then Some (TrimSuffix (TrimPrefix w dq) dq) else None.

(** The elements of a set up to its brace. *)
Fixpoint read_elements (ws : list string) : option (list string * list string) :=
  match ws with
  | [] => None
  | w :: ws => if bool_decide (w = "}") then Some ([], ws)
               else '(rest, ws) ← read_elements ws; Some (TrimSuffix w "," :: rest, ws)
  end.

(** One value, or a set of them. *)
Definition read_values (ws : list string) : option (list string * list string) :=
  match ws with
  | [] => None
  | w :: ws => if bool_decide (w = "{") then read_elements ws else Some ([w], ws)
  end.

(** An address or a network. *)
Definition read_network (w : string) : option Prefix :=
  if ContainsByte "/" w then ParsePrefix w else (fun a => PrefixFrom a (BitLen a)) <$> ParseAddr w.

Definition read_protocol (w : string) : option Z :=
  if bool_decide (w = "tcp") then Some 6 else if bool_decide (w = "udp") then Some 17
  else if bool_decide (w = "icmp") then Some 1 else if bool_decide (w = "icmpv6") then Some 58 else None.

Definition read_ports (w : string) : option (Z * Z) :=
  match Split dash w with
  | [a] => n ← Atoi a; Some (n, n)
  | [a; b] => n ← Atoi a; m ← Atoi b; Some (n, m)
  | _ => None
  end.

Definition read_state (w : string) : option ct_state :=
  if bool_decide (w = "new") then Some CtNew else if bool_decide (w = "established") then Some CtEstablished
  else if bool_decide (w = "related") then Some CtRelated else if bool_decide (w = "invalid") then Some CtInvalid else None.

Fixpoint hex_digits (acc : Z) (s : string) : option Z :=
  match s with
  | EmptyString => Some acc
  | String c s => d ← hex_value c; hex_digits (16 * acc + d) s
  end.

Definition read_hex (w : string) : option Z := if HasPrefix w "0x" then hex_digits 0 (TrimPrefix w "0x") else None.

Definition read_verdict (w : string) : option nft_verdict :=
  if bool_decide (w = "accept") then Some NftAccept else if bool_decide (w = "drop") then Some NftDrop
  else if bool_decide (w = "reject") then Some NftReject else None.

Definition word_is (w v : string) : bool := bool_decide (w = v).

(** What follows the conditions: a counter, the verdict and a comment. *)
Definition read_end (mark : option Z) (ws : list string) : option (option Z * nft_verdict) :=
  let ws := match ws with w :: rest => if word_is w "counter" then rest else ws | [] => ws end in
  match ws with
  | [v] => v ← read_verdict v; Some (mark, v)
  | [v; key; c] => v ← read_verdict v; _ ← unquote c; if word_is key "comment" then Some (mark, v) else None
  | _ => None
  end.

Definition read_names (f : list string -> nft_match) (ws : list string) : option (nft_match * list string) :=
  '(names, ws) ← read_values ws; names ← mapM unquote names; Some (f names, ws).

Definition read_networks (f : list Prefix -> nft_match) (ws : list string) : option (nft_match * list string) :=
  '(values, ws) ← read_values ws; values ← mapM read_network values; Some (f values, ws).

(** A condition at the head, with what follows it. *)
Definition read_condition (ws : list string) : option (nft_match * list string) :=
  match ws with
  | [] => None
  | w :: ws =>
      if word_is w "iifname" then read_names OnIif ws
      else if word_is w "oifname" then read_names OnOif ws
      else match ws with
      | [] => None
      | key :: ws =>
          if word_is w "ip" then
            if word_is key "saddr" then read_networks OnSource ws else if word_is key "daddr" then read_networks OnDestination ws else None
          else match ws with
          | [] => None
          | value :: ws =>
              if word_is w "meta" && word_is key "l4proto" then proto ← read_protocol value; Some (OnProtocol proto, ws)
              else if word_is w "ct" && word_is key "state" then states ← mapM read_state (Split "," value); Some (OnState states, ws)
              else if word_is w "ct" && word_is key "mark" && word_is value "&" then
                match ws with
                | mask :: eq :: value :: ws => mask ← read_hex mask; value ← read_hex value; if word_is eq "==" then Some (OnMark mask value, ws) else None
                | _ => None
                end
              else
              proto ← read_protocol w;
              '(first, last) ← read_ports value;
              if word_is key "dport" then Some (OnPort proto true first last, ws)
              else if word_is key "sport" then Some (OnPort proto false first last, ws) else None
          end
      end
  end.

Definition set_mark_words : list string := ["ct"; "mark"; "set"; "(ct"; "mark"; "&"; "0x000000ff)"; "|"].

(** A condition takes at least one word, so that the number of words is fuel enough. *)
Fixpoint read_words (fuel : nat) (ws : list string) : option nft_rule :=
  match fuel with
  | O => None
  | S fuel =>
      if bool_decide (take 8 ws = set_mark_words) then
        match drop 8 ws with
        | value :: ws => value ← read_hex value; '(mark, v) ← read_end (Some value) ws; Some (mkNftRule [] mark v)
        | [] => None
        end
      else match read_condition ws with
      | Some (m, ws) => r ← read_words fuel ws; Some (mkNftRule (m :: nf_matches r) (nf_mark r) (nf_verdict r))
      | None => '(mark, v) ← read_end None ws; Some (mkNftRule [] mark v)
      end
  end.

Definition words (line : string) : list string := List.filter (fun w => negb (word_is w "")) (Split " " line).

Definition read_rule (line : string) : option nft_rule := read_words (S (length (words line))) (words line).

(** ** The forward chain of the policy table *)

Definition chain_start : string := "  chain forward { type filter hook forward priority 0; policy ".

(** The rest of the header: the policy and the rules on the same line, each ended by
    a semicolon. *)
Definition read_header (rest : string) : option (nft_verdict * list nft_rule) :=
  match Split ";" rest with
  | policy :: rules =>
      policy ← read_verdict policy;
      rules ← mapM read_rule (List.filter (fun r => negb (bool_decide (words r = []))) rules);
      Some (policy, rules)
  | [] => None
  end.

Fixpoint read_body (lines : list string) : option (list nft_rule) :=
  match lines with
  | [] => None
  | line :: lines => if bool_decide (line = "  }") then Some [] else r ← read_rule line; rules ← read_body lines; Some (r :: rules)
  end.

Fixpoint read_chain (lines : list string) : option (nft_verdict * list nft_rule) :=
  match lines with
  | [] => None
  | line :: lines =>
      if HasPrefix line chain_start then
        '(policy, rules) ← read_header (TrimPrefix line chain_start);
        body ← read_body lines;
        Some (policy, rules ++ body)
      else read_chain lines
  end.

(** What the forward chain of a text does with a packet. *)
Definition forward_chain (text : string) (p : packet) : option (nft_verdict * Z) :=
  '(policy, rules) ← read_chain (Split (char_of 10) text); Some (run_chain policy rules p).

(** * The text of a ruleset, line by line and word by word *)

(** ** Prefixes *)

Definition free (c : ascii) (s : string) : Prop := all_chars (fun x => negb (Ascii.eqb x c)) s = true.

Lemma free_cons c x s : free c (String x s) <-> x <> c /\ free c s.
Proof.
  unfold free. cbn [all_chars]. rewrite andb_true_iff, negb_true_iff. by rewrite Ascii.eqb_neq.
Qed.

Lemma free_app c a b : free c (a +:+ b) <-> free c a /\ free c b.
Proof. unfold free. by rewrite all_chars_app, andb_true_iff. Qed.

Lemma app_cons x a b : String x a +:+ b = String x (a +:+ b).
Proof. done. Qed.

Lemma app_assoc_s a b c : (a +:+ b) +:+ c = a +:+ (b +:+ c).
Proof. apply string_app_assoc. Qed.

Lemma app_empty_r a : a +:+ "" = a.
Proof. induction a as [|x a IH]; [done|]. by rewrite app_cons, IH. Qed.

Lemma HasPrefix_cons x s y p : HasPrefix (String x s) (String y p) = Ascii.eqb x y && HasPrefix s p.
Proof.
  unfold HasPrefix. cbn. destruct (ascii_dec y x) as [->|Hne]; [by rewrite Ascii.eqb_refl|].
  destruct (Ascii.eqb x y) eqn:E; [|done]. apply Ascii.eqb_eq in E. congruence.
Qed.

Lemma HasPrefix_nil s : HasPrefix s "" = true.
Proof. by destruct s. Qed.

Lemma HasPrefix_empty p : HasPrefix "" p = true -> p = "".
Proof. by destruct p. Qed.

Lemma HasPrefix_append p s : HasPrefix (p +:+ s) p = true.
Proof. induction p as [|x p IH]; [apply HasPrefix_nil|]. rewrite app_cons, HasPrefix_cons, Ascii.eqb_refl. done. Qed.

Lemma drop_app p s : drop_string (String.length p) (p +:+ s) = s.
Proof. apply drop_string_app. Qed.

(** A prefix without [c] of a text that has [c] after [l] is a prefix of [l]. *)
Lemma HasPrefix_before c l r p : free c p -> HasPrefix (l +:+ String c r) p = HasPrefix l p.
Proof.
  revert p. induction l as [|x l IH]; intros p Hp.
  - destruct p as [|y p]; [done|]. apply free_cons in Hp as [Hy _]. change ("" +:+ String c r) with (String c r). rewrite HasPrefix_cons.
    replace (Ascii.eqb c y) with false by (symmetry; apply Ascii.eqb_neq; congruence). done.
  - destruct p as [|y p]; [done|]. apply free_cons in Hp as [_ Hp]. rewrite app_cons, !HasPrefix_cons. by rewrite IH.
Qed.

(** A prefix that goes on after [c]. *)
Lemma HasPrefix_across c l r a b : free c l -> free c a -> HasPrefix (l +:+ String c r) (a +:+ String c b) = true -> l = a /\ HasPrefix r b = true.
Proof.
  revert a. induction l as [|x l IH]; intros a Hl Ha.
  - destruct a as [|y a].
    + change (HasPrefix (String c r) (String c b) = true -> "" = "" /\ HasPrefix r b = true). rewrite HasPrefix_cons, Ascii.eqb_refl. done.
    + apply free_cons in Ha as [Hy _]. change ("" +:+ String c r) with (String c r). rewrite app_cons, HasPrefix_cons.
      replace (Ascii.eqb c y) with false by (symmetry; apply Ascii.eqb_neq; congruence). done.
  - apply free_cons in Hl as [Hx Hl]. destruct a as [|y a].
    + change ("" +:+ String c b) with (String c b). rewrite app_cons, HasPrefix_cons. replace (Ascii.eqb x c) with false by (symmetry; by apply Ascii.eqb_neq). done.
    + apply free_cons in Ha as [_ Ha]. rewrite !app_cons, HasPrefix_cons. intros [Hxy%Ascii.eqb_eq H]%andb_true_iff. apply IH in H as [-> H]; [|done..]. by subst.
Qed.

(** ** Replacing in lines *)

Definition nl_char : ascii := char_of 10.

Lemma newline_app s : newline +:+ s = String nl_char s.
Proof. done. Qed.

Lemma Replace1_unfold old new s : Replace1 old new s =
  if HasPrefix s old then new +:+ drop_string (String.length old) s
  else match s with EmptyString => EmptyString | String c s => String c (Replace1 old new s) end.
Proof. by destruct s. Qed.

Lemma Contains_unfold s sub : text_Contains s sub = HasPrefix s sub || match s with EmptyString => false | String _ s => text_Contains s sub end.
Proof. by destruct s. Qed.

(** A needle without line ends is found line by line. *)
Lemma Contains_line old l r : old <> "" -> free nl_char old -> text_Contains (l +:+ newline +:+ r) old = text_Contains l old || text_Contains r old.
Proof.
  intros Hne Hold. induction l as [|x l IH].
  - change ("" +:+ newline +:+ r) with (String nl_char r). rewrite (Contains_unfold (String _ _)). change (String nl_char r) with ("" +:+ String nl_char r) at 1.
    rewrite HasPrefix_before by done. rewrite (Contains_unfold ""). by destruct old.
  - rewrite app_cons, Contains_unfold, IH, (Contains_unfold (String x l)). rewrite newline_app, <- app_cons, HasPrefix_before by done. by rewrite orb_assoc.
Qed.

Lemma drop_string_before n l r : (n <= String.length l)%nat -> drop_string n (l +:+ r) = drop_string n l +:+ r.
Proof. revert l. induction n as [|n IH]; intros [|x l] H; cbn in *; try lia; try done. by apply IH; lia. Qed.

Lemma HasPrefix_length l p : HasPrefix l p = true -> (String.length p <= String.length l)%nat.
Proof.
  revert l. induction p as [|y p IH]; intros [|x l]; cbn [String.length]; [lia..| |]; [done|]. rewrite HasPrefix_cons. intros [_ H%IH]%andb_true_iff. lia.
Qed.

Lemma Replace1_line old new l r : old <> "" -> free nl_char old ->
  Replace1 old new (l +:+ newline +:+ r) = if text_Contains l old then Replace1 old new l +:+ newline +:+ r else l +:+ newline +:+ Replace1 old new r.
Proof.
  intros Hne Hold. induction l as [|x l IH].
  - change ("" +:+ newline +:+ r) with (String nl_char r). rewrite Replace1_unfold. change (String nl_char r) with ("" +:+ String nl_char r) at 1.
    rewrite HasPrefix_before by done. rewrite (Contains_unfold ""). destruct (HasPrefix "" old) eqn:E; [by apply HasPrefix_empty in E|]. done.
  - rewrite app_cons, Replace1_unfold, (Contains_unfold (String x l)), newline_app, <- app_cons, HasPrefix_before by done.
    destruct (HasPrefix (String x l) old) eqn:E; cbn [orb].
    + rewrite (Replace1_unfold _ _ (String x l)), E. rewrite drop_string_before by by apply HasPrefix_length. by rewrite app_assoc_s.
    + rewrite app_cons, <- (newline_app r), IH. rewrite (Replace1_unfold _ _ (String x l)), E. by destruct (text_Contains l old).
Qed.

Lemma replace_all_line old new l r : old <> "" -> free nl_char old -> forall skip, (skip <= String.length l)%nat ->
  replace_all old new skip (l +:+ newline +:+ r) = replace_all old new skip l +:+ newline +:+ replace_all old new 0 r.
Proof.
  intros Hne Hold. induction l as [|x l IH]; intros skip Hs.
  - assert (skip = 0)%nat as -> by (cbn in Hs; lia). change ("" +:+ newline +:+ r) with (String nl_char r). cbn [replace_all].
    change (String nl_char r) with ("" +:+ String nl_char r) at 1. rewrite HasPrefix_before by done. destruct (HasPrefix "" old) eqn:E; [by apply HasPrefix_empty in E|]. done.
  - rewrite app_cons. cbn [replace_all String.length] in *. destruct skip as [|skip]; [|apply IH; lia].
    rewrite newline_app, <- app_cons, HasPrefix_before, <- newline_app by done. destruct (HasPrefix (String x l) old) eqn:E.
    + rewrite IH, app_assoc_s; [done|]. apply HasPrefix_length in E. cbn in E. lia.
    + by rewrite IH by lia.
Qed.

Lemma lines_text_cons l ls : lines_text (l :: ls) = l +:+ newline +:+ lines_text ls.
Proof. done. Qed.

Lemma lines_text_app a b : lines_text (a ++ b) = lines_text a +:+ lines_text b.
Proof. induction a as [|l a IH]; [done|]. cbn [app]. by rewrite !lines_text_cons, IH, !app_assoc_s. Qed.

Lemma ReplaceAll_lines old new ls : old <> "" -> free nl_char old -> ReplaceAll old new (lines_text ls) = lines_text (map (ReplaceAll old new) ls).
Proof.
  intros Hne Hold. induction ls as [|l ls IH]; [done|]. cbn [map]. rewrite !lines_text_cons. unfold ReplaceAll in *. rewrite replace_all_line by (done || lia). by rewrite IH.
Qed.

Lemma Replace1_lines_skip old new ls ms : old <> "" -> free nl_char old -> Forall (fun l => text_Contains l old = false) ls ->
  Replace1 old new (lines_text (ls ++ ms)) = lines_text ls +:+ Replace1 old new (lines_text ms).
Proof.
  intros Hne Hold. induction 1 as [|l ls Hl _ IH]; [done|]. cbn [app]. rewrite !lines_text_cons, Replace1_line, Hl, IH by done. by rewrite !app_assoc_s.
Qed.

Lemma Replace1_lines old new ls l ms : old <> "" -> free nl_char old -> Forall (fun l => text_Contains l old = false) ls -> text_Contains l old = true ->
  Replace1 old new (lines_text (ls ++ l :: ms)) = lines_text (ls ++ Replace1 old new l :: ms).
Proof. intros Hne Hold Hls Hl. rewrite Replace1_lines_skip, lines_text_app, !lines_text_cons, Replace1_line, Hl by done. done. Qed.

Lemma Contains_lines old ls l ms : old <> "" -> free nl_char old -> text_Contains l old = true -> text_Contains (lines_text (ls ++ l :: ms)) old = true.
Proof.
  intros Hne Hold Hl. induction ls as [|l' ls IH]; cbn [app]; rewrite lines_text_cons, Contains_line by done; [by rewrite Hl|]. by rewrite IH, orb_true_r.
Qed.

(** A needle that spans a line end is not found where the next line does not go on
    as it does. *)
Lemma Replace1_two_lines a b new l r : free nl_char l -> free nl_char a -> HasPrefix r b = false ->
  Replace1 (a +:+ newline +:+ b) new (l +:+ newline +:+ r) = l +:+ newline +:+ Replace1 (a +:+ newline +:+ b) new r.
Proof.
  rewrite !newline_app. set (old := a +:+ String nl_char b). intros Hl Ha Hr. induction l as [|x l IH].
  - change ("" +:+ String nl_char r) with (String nl_char r). rewrite Replace1_unfold. destruct (HasPrefix (String nl_char r) old) eqn:E; [|done].
    change (String nl_char r) with ("" +:+ String nl_char r) in E. apply HasPrefix_across in E as [_ E]; [congruence|done..].
  - pose proof Hl as [_ Hl']%free_cons. rewrite app_cons, Replace1_unfold. destruct (HasPrefix (String x _) old) eqn:E; [|by rewrite IH].
    rewrite <- app_cons in E. apply HasPrefix_across in E as [_ E]; [congruence|done..].
Qed.

Lemma Replace1_here old new s : Replace1 old new (old +:+ s) = new +:+ s.
Proof. by rewrite Replace1_unfold, HasPrefix_append, drop_app. Qed.

(** ** Replacing in words *)

Definition space : ascii := " ".

(** Words, each after a space. *)
Definition spaced (ws : list string) : string := foldr (fun w s => String space (w +:+ s)) "" ws.

Lemma spaced_cons w ws : spaced (w :: ws) = String space (w +:+ spaced ws).
Proof. done. Qed.

Lemma spaced_app a b : spaced (a ++ b) = spaced a +:+ spaced b.
Proof. induction a as [|w a IH]; [done|]. cbn [app]. by rewrite !spaced_cons, IH, app_cons, app_assoc_s. Qed.

Lemma Join_spaced w ws : strings_Join " " (w :: ws) = w +:+ spaced ws.
Proof.
  revert w. induction ws as [|x ws IH]; intros w; [symmetry; apply app_empty_r|].
  change (strings_Join " " (w :: x :: ws)) with (w +:+ " " +:+ strings_Join " " (x :: ws)). rewrite IH. done.
Qed.

Lemma indent_spaced w ws : indent (strings_Join " " (w :: ws)) = spaced ("" :: "" :: "" :: w :: ws).
Proof. rewrite Join_spaced. done. Qed.

(** Whether the words [ns] are met, the last of them as the start of a word. *)
Fixpoint match_words (ws ns : list string) : bool :=
  match ws, ns with
  | _, [] => true
  | w :: _, [n] => HasPrefix w n
  | w :: ws, n :: ns => word_is w n && match_words ws ns
  | [], _ :: _ => false
  end.

Lemma HasPrefix_word w ws n : free space n -> HasPrefix (w +:+ spaced ws) n = HasPrefix w n.
Proof. intros Hn. destruct ws as [|x ws]; [by rewrite app_empty_r|]. rewrite spaced_cons. by apply HasPrefix_before. Qed.

Lemma spaced_prefix ns : Forall (free space) ns -> forall ws, Forall (free space) ws -> HasPrefix (spaced ws) (spaced ns) = match_words ws ns.
Proof.
  induction 1 as [|n ns Hn Hns IH]; intros ws Hws; [rewrite HasPrefix_nil; by destruct ws|].
  destruct Hws as [|w ws Hw Hws]; [done|]. rewrite !spaced_cons, HasPrefix_cons, Ascii.eqb_refl. cbn [andb]. destruct ns as [|n' ns].
  { rewrite app_empty_r. by apply HasPrefix_word. }
  rewrite (spaced_cons n' ns). change (match_words (w :: ws) (n :: n' :: ns)) with (word_is w n && match_words ws (n' :: ns)). rewrite <- IH, (spaced_cons n' ns) by done.
  destruct (word_is w n) eqn:E; cbn [andb].
  - apply bool_decide_eq_true_1 in E as ->. clear. induction n as [|x n IHn]; [done|]. by rewrite !app_cons, HasPrefix_cons, Ascii.eqb_refl.
  - apply bool_decide_eq_false_1 in E. destruct (HasPrefix _ _) eqn:Hp; [|done]. exfalso. apply E. destruct ws as [|x ws].
    + cbn in Hp. rewrite app_empty_r in Hp. clear - Hp Hw. exfalso. revert n Hp. induction w as [|y w IHw]; intros [|z n] Hp; try done.
      * change ("" +:+ String space (n' +:+ spaced ns)) with (String space (n' +:+ spaced ns)) in Hp. rewrite HasPrefix_cons in Hp. apply andb_true_iff in Hp as [Hp%Ascii.eqb_eq _]. apply free_cons in Hw as [Hw _]. congruence.
      * rewrite app_cons, HasPrefix_cons in Hp. apply andb_true_iff in Hp as [_ Hp]. apply free_cons in Hw as [_ Hw]. eauto.
    + rewrite spaced_cons in Hp. by apply HasPrefix_across in Hp as [-> _].
Qed.

Lemma replace_all_rest old new s : replace_all old new (String.length s) s = "".
Proof. induction s as [|x s IH]; [done|]. cbn [replace_all String.length]. done. Qed.

Section replace.
  Context (ns : list string) (new : string) (Hns : Forall (free space) ns) (Hne : ns <> []).

  #[local] Notation old := (spaced ns).

Lemma ReplaceAll_word w s : free space w -> ReplaceAll old new (w +:+ s) = w +:+ ReplaceAll old new s.
Proof.
  destruct ns as [|n l]; [done|]. unfold ReplaceAll. intros Hw. induction w as [|x w IH]; [done|]. apply free_cons in Hw as [Hx Hw]. rewrite !app_cons. cbn [replace_all].
  rewrite spaced_cons, HasPrefix_cons. replace (Ascii.eqb x space) with false by (symmetry; by apply Ascii.eqb_neq). cbn [andb]. by rewrite <- spaced_cons, IH.
Qed.

Lemma ReplaceAll_miss w ws : Forall (free space) (w :: ws) -> match_words (w :: ws) ns = false -> ReplaceAll old new (spaced (w :: ws)) = String space (w +:+ ReplaceAll old new (spaced ws)).
Proof.
  intros Hws Hm. pose proof Hws as [Hw _]%list.Forall_cons. rewrite spaced_cons. unfold ReplaceAll at 1. cbn [replace_all]. rewrite <- spaced_cons, spaced_prefix, Hm by done.
  f_equal. by apply ReplaceAll_word.
Qed.

Lemma ReplaceAll_hit : ReplaceAll old new old = new.
Proof.
  destruct ns as [|n l]; [done|]. unfold ReplaceAll. rewrite spaced_cons at 2. cbn [replace_all]. rewrite <- spaced_cons.
  rewrite <- (app_empty_r (spaced (n :: l))) at 1. rewrite HasPrefix_append. rewrite (spaced_cons n l) at 2. cbn [String.length pred]. by rewrite replace_all_rest, app_empty_r.
Qed.

(** Words before and after which the first of [ns] does not come up. *)
Lemma ReplaceAll_skip ws ms : Forall (free space) (ws ++ ms) -> Forall (fun w => word_is w (default "" (head ns)) = false) ws -> (1 < length ns)%nat ->
  ReplaceAll old new (spaced (ws ++ ms)) = spaced ws +:+ ReplaceAll old new (spaced ms).
Proof.
  intros Hf Hw Hlen. induction Hw as [|w ws Hw _ IH]; [done|]. cbn [app] in *. pose proof Hf as [_ Hf']%list.Forall_cons.
  rewrite ReplaceAll_miss, IH, !spaced_cons; [by rewrite app_cons, app_assoc_s|done|done|].
  destruct ns as [|n [|n' l]]; cbn in Hlen; [lia..|]. cbn [match_words]. cbn in Hw. by rewrite Hw.
Qed.

Lemma ReplaceAll_quiet ws : Forall (free space) ws -> Forall (fun w => word_is w (default "" (head ns)) = false) ws -> (1 < length ns)%nat ->
  ReplaceAll old new (spaced ws) = spaced ws.
Proof. intros Hf Hw Hlen. rewrite <- (app_nil_r ws) at 1. rewrite ReplaceAll_skip by (by rewrite ?app_nil_r). unfold ReplaceAll. cbn. apply app_empty_r. Qed.

End replace.

(** * Reading back what the compiler writes *)

(** ** Words *)

Definition word_char (c : ascii) : bool := negb (is_space c) && negb (Ascii.eqb c ";") && negb (Ascii.eqb c (char_of 34)).

(** The characters of names and numbers. *)
Definition name_char (c : ascii) : bool := word_char c && negb (Ascii.eqb c ",") && negb (Ascii.eqb c "{") && negb (Ascii.eqb c "}").

(** A word of a line: not empty, no white space, no semicolon. *)
Definition tokenb (w : string) : bool := negb (word_is w "") && all_chars (fun c => negb (is_space c) && negb (Ascii.eqb c ";")) w.

Lemma all_free c p s : p c = false -> all_chars p s = true -> free c s.
Proof.
  intros Hc H. unfold free. eapply all_chars_impl; [|exact H]. intros x Hx. apply negb_true_iff, Ascii.eqb_neq. intros ->. congruence.
Qed.

Lemma tokenb_free w : tokenb w = true -> w <> "" /\ free space w /\ free nl_char w /\ free ";" w.
Proof.
  intros [Hn H]%andb_true_iff. apply negb_true_iff, bool_decide_eq_false_1 in Hn. repeat split; [done|..]; (eapply all_free; [|exact H]; reflexivity).
Qed.

Lemma all_chars_split p q s : all_chars (fun c => p c && q c) s = true -> all_chars p s = true /\ all_chars q s = true.
Proof.
  intros H. split; (eapply all_chars_impl; [|exact H]); by intros c [? ?]%andb_true_iff.
Qed.

Lemma tokenb_app a b : a <> "" -> tokenb a = true -> all_chars (fun c => negb (is_space c) && negb (Ascii.eqb c ";")) b = true -> tokenb (a +:+ b) = true.
Proof.
  intros Ha [_ Hwa]%andb_true_iff Hb. apply andb_true_iff. split; [|by rewrite all_chars_app, Hwa].
  destruct a; [done|]. done.
Qed.

Lemma name_word s : s <> "" -> all_chars name_char s = true -> tokenb s = true.
Proof.
  intros Hs H. apply andb_true_iff. split; [apply negb_true_iff, bool_decide_eq_false_2, Hs|]. eapply all_chars_impl; [|exact H].
  unfold name_char, word_char. intros c. rewrite !andb_true_iff. naive_solver.
Qed.

Lemma quoted_word s : all_chars name_char s = true -> tokenb (quoted s) = true.
Proof.
  intros H. unfold quoted, dq. apply andb_true_iff. split; [done|]. rewrite !all_chars_app. apply andb_true_iff. split; [done|]. apply andb_true_iff. split; [|done].
  eapply all_chars_impl; [|exact H]. unfold name_char, word_char. intros c. rewrite !andb_true_iff. naive_solver.
Qed.

(** The words of a line made of words. *)
Lemma Split_spaced ws : Forall (free space) ws -> Split space (spaced ws) = "" :: ws.
Proof.
  induction 1 as [|w ws Hw Hws IH]; [done|]. rewrite spaced_cons. change (String space (w +:+ spaced ws)) with ("" +:+ String space (w +:+ spaced ws)). rewrite Split_one by done. f_equal.
  destruct ws as [|x ws]; [rewrite app_empty_r; by apply Split_none|]. rewrite spaced_cons, Split_one by done. f_equal.
  rewrite spaced_cons in IH. change (String space (x +:+ spaced ws)) with ("" +:+ String space (x +:+ spaced ws)) in IH. rewrite Split_one in IH by done. by injection IH.
Qed.

Lemma words_line k ws : Forall (fun w => tokenb w = true) ws -> words (spaced (replicate k "" ++ ws)) = ws.
Proof.
  intros Hws. unfold words. change " "%char with space. rewrite Split_spaced.
  - change (List.filter (fun w => negb (word_is w "")) ("" :: replicate k "" ++ ws)) with (List.filter (fun w => negb (word_is w "")) (replicate k "" ++ ws)). rewrite List.filter_app.
    replace (List.filter _ (replicate k "")) with (@nil string) by (induction k; [done|]; cbn; done).
    induction Hws as [|w ws Hw _ IH]; [done|]. cbn. pose proof Hw as [-> _]%andb_true_iff. f_equal. exact IH.
  - apply list.Forall_app. split; [by induction k; constructor|]. eapply list.Forall_impl; [exact Hws|]. intros w Hw. by apply tokenb_free.
Qed.

(** ** Sets *)

Fixpoint commas (vs : list string) : list string :=
  match vs with
  | [] => []
  | [v] => [v]
  | v :: vs => (v +:+ ",") :: commas vs
  end.

Definition set_words (vs : list string) : list string := match vs with [v] => [v] | _ => "{" :: commas vs ++ ["}"] end.

(** An element that no comma and no brace can be confused with. *)
Definition element_ok (v : string) : Prop := v <> "" /\ free "," v /\ free "{" v /\ free "}" v.

Lemma TrimSuffix_app a p : TrimSuffix (a +:+ p) p = a.
Proof.
  unfold TrimSuffix. replace (HasSuffix (a +:+ p) p) with true by (symmetry; apply HasSuffix_true; by exists a).
  rewrite string_length_app. replace (_ + _ - _)%nat with (String.length a) by lia. induction a as [|x a IH]; [by destruct p|]. rewrite app_cons. cbn. by rewrite IH.
Qed.

Lemma TrimSuffix_free c v : free c v -> TrimSuffix v (String c "") = v.
Proof.
  intros H. unfold TrimSuffix. destruct (HasSuffix v (String c "")) eqn:E; [|done]. apply HasSuffix_true in E as [q ->].
  apply free_app in H as [_ H]. apply free_cons in H as [H _]. done.
Qed.

Lemma not_brace v c : free c v -> v <> "" -> word_is v (String c "") = false.
Proof. intros H Hv. apply bool_decide_eq_false_2. intros ->. apply free_cons in H as [H _]. done. Qed.

Lemma read_elements_commas vs rest : Forall element_ok vs -> read_elements (commas vs ++ "}" :: rest) = Some (vs, rest).
Proof.
  induction 1 as [|v vs (Hv & Hc & Ho & Hb) Hvs IH]; [done|]. destruct vs as [|v' vs].
  - cbn [commas app read_elements]. change (bool_decide (v = "}")) with (word_is v (String "}" "")). rewrite not_brace by done. cbn. change "," with (String "," ""). by rewrite TrimSuffix_free.
  - change (commas (v :: v' :: vs)) with ((v +:+ ",") :: commas (v' :: vs)). cbn [app read_elements].
    assert (Hq : bool_decide (v +:+ "," = "}") = false).
    { apply bool_decide_eq_false_2. intros E. assert (Hf : free "}" (v +:+ ",")) by (apply free_app; split; [done|reflexivity]). rewrite E in Hf. by apply free_cons in Hf as [Hf _]. }
    rewrite Hq. rewrite IH. cbn. by rewrite TrimSuffix_app.
Qed.

Lemma read_values_set vs rest : vs <> [] -> Forall element_ok vs -> read_values (set_words vs ++ rest) = Some (vs, rest).
Proof.
  intros Hne Hvs. destruct vs as [|v [|v' vs]]; [done| |].
  - apply list.Forall_singleton in Hvs as (Hv & _ & Ho & _). cbn. change (bool_decide (v = "{")) with (word_is v (String "{" "")). by rewrite not_brace.
  - change (set_words (v :: v' :: vs) ++ rest) with ("{" :: (commas (v :: v' :: vs) ++ ["}"]) ++ rest). cbn [read_values]. rewrite bool_decide_eq_true_2 by done.
    rewrite <- (assoc_L (++)). by apply read_elements_commas.
Qed.

Lemma commas_words vs : Forall (fun v => tokenb v = true) vs -> Forall (fun v => tokenb v = true) (commas vs).
Proof.
  induction 1 as [|v vs Hv Hvs IH]; [constructor|]. destruct vs as [|v' vs]; [by constructor|]. change (commas (v :: v' :: vs)) with ((v +:+ ",") :: commas (v' :: vs)).
  constructor; [|done]. apply tokenb_app; [by destruct (tokenb_free _ Hv)|done|done].
Qed.

Lemma set_words_words vs : Forall (fun v => tokenb v = true) vs -> Forall (fun v => tokenb v = true) (set_words vs).
Proof.
  intros H. assert (Hset : Forall (fun v => tokenb v = true) ("{" :: commas vs ++ ["}"])).
  { apply list.Forall_cons. split; [done|]. apply list.Forall_app. split; [by apply commas_words|]. by apply list.Forall_singleton. }
  destruct vs as [|v [|v' vs]]; done.
Qed.

Lemma Join_commas v vs : strings_Join ", " (v :: vs) = strings_Join " " (commas (v :: vs)).
Proof.
  revert v. induction vs as [|v' vs IH]; intros v; [done|]. change (commas (v :: v' :: vs)) with ((v +:+ ",") :: commas (v' :: vs)).
  change (strings_Join ", " (v :: v' :: vs)) with (v +:+ ", " +:+ strings_Join ", " (v' :: vs)). rewrite IH.
  destruct (commas (v' :: vs)) as [|w ws] eqn:E; [by destruct vs|]. rewrite (Join_spaced (v +:+ ",")). rewrite spaced_cons, <- (Join_spaced w ws), app_assoc_s. done.
Qed.

Lemma valueOrSet_words values quote : values <> [] -> valueOrSet values quote = strings_Join " " (set_words (if quote then quoted <$> values else values)).
Proof.
  intros Hne. unfold valueOrSet. set (r := if quote then quoted <$> values else values). assert (Hr : r <> []) by (unfold r; destruct quote; [by destruct values|done]).
  destruct r as [|v [|v' vs]]; [done|done|]. unfold set_words. rewrite Join_spaced, spaced_app. change (spaced ["}"]) with " }". rewrite Join_commas.
  destruct (commas (v :: v' :: vs)) as [|w ws] eqn:E; [by destruct vs|]. rewrite Join_spaced, spaced_cons. reflexivity.
Qed.

(** ** Addresses *)

Lemma octet_cases (P : Z -> Prop) : Forall P (seqZ 0 256) -> forall n, 0 <= n <= 255 -> P n.
Proof. intros H n Hn. eapply list.Forall_forall in H; [exact H|]. apply elem_of_seqZ. lia. Qed.

(** An octet is read digit by digit. *)
Lemma read_octet n : 0 <= n <= 255 -> exists digits, (0 < digits)%nat /\ String.length (itoa n) = digits /\ forall fuel s fields prevDot,
  parseIPv4Fields (digits + fuel) (itoa n +:+ s) 0 0 fields prevDot = parseIPv4Fields fuel s n (Z.of_nat digits) fields false.
Proof.
  revert n. apply octet_cases. cbn [seqZ]. vm_compute (seqZ 0 256).
  repeat (apply list.Forall_cons; split; [eexists; split; [|split; [vm_compute; reflexivity|]]; [lia|]; intros; reflexivity|]). apply list.Forall_nil_2.
Qed.

Lemma dot_app s : "." +:+ s = String "." s.
Proof. done. Qed.

(** The dot after an octet that is not the last. *)
Lemma read_dot fuel s n digits fields : s <> "" -> (length fields < 3)%nat ->
  parseIPv4Fields (S fuel) (String "." s) n digits fields false = parseIPv4Fields fuel s 0 0 (fields ++ [n]) true.
Proof. intros Hs Hl. cbn [parseIPv4Fields]. cbn. rewrite bool_decide_eq_false_2 by done. replace (Z.of_nat (length fields) =? 3) with false by (symmetry; apply Z.eqb_neq; lia). done. Qed.

Definition v4_octets (x : Z) : list Z := [Z.shiftr x 24; Z.land (Z.shiftr x 16) 255; Z.land (Z.shiftr x 8) 255; Z.land x 255].

Lemma v4_octets_range x : 0 <= x < 2 ^ 32 -> Forall (fun n => 0 <= n <= 255) (v4_octets x).
Proof.
  intros Hx. assert (Hl : forall y, 0 <= Z.land y 255 <= 255).
  { intros y. change 255 with (Z.ones 8). rewrite Z.land_ones by lia. pose proof (Z.mod_pos_bound y (2 ^ 8)). change (Z.ones 8) with 255. lia. }
  repeat constructor; try apply Hl; rewrite Z.shiftr_div_pow2 by lia; [apply Z.div_pos; lia|]. change (2 ^ 32) with (256 * 2 ^ 24) in Hx. pose proof (Z.div_lt_upper_bound x (2 ^ 24) 256). lia.
Qed.

Lemma be_value_octets x : 0 <= x < 2 ^ 32 -> be_value (v4_octets x) = x.
Proof.
  intros Hx. unfold v4_octets. replace [Z.shiftr x 24; Z.land (Z.shiftr x 16) 255; Z.land (Z.shiftr x 8) 255; Z.land x 255] with (be_bytes 4 x).
  - apply be_value_bytes. done.
  - cbn [be_bytes]. unfold u8. change 255 with (Z.ones 8). rewrite !Z.land_ones by lia. change (2 ^ 8) with 256. cbn [Z.of_nat Z.mul Pos.of_succ_nat Pos.succ Pos.mul Pos.add]. rewrite Z.shiftr_0_r.
    f_equal. rewrite Z.mod_small; [done|]. rewrite Z.shiftr_div_pow2 by lia. split; [apply Z.div_pos; lia|]. apply Z.div_lt_upper_bound; lia.
Qed.

Lemma itoa_nonempty n : 0 <= n -> itoa n <> "".
Proof. intros H. by destruct (itoa_spec n H) as (_ & ? & _). Qed.

Lemma app_nonempty a b : a <> "" -> a +:+ b <> "".
Proof. by destruct a. Qed.

Lemma parse_quad_v4 x : 0 <= x < 2 ^ 32 -> parse_quad (string_v4 x) = Some (v4_octets x).
Proof.
  intros Hx. pose proof (v4_octets_range x Hx) as H. unfold string_v4, v4_octets in *.
  set (a := Z.shiftr x 24) in *. set (b := Z.land (Z.shiftr x 16) 255) in *. set (c := Z.land (Z.shiftr x 8) 255) in *. set (d := Z.land x 255) in *. clearbody a b c d.
  apply list.Forall_cons in H as [Ha H]. apply list.Forall_cons in H as [Hb H]. apply list.Forall_cons in H as [Hc H]. apply list.Forall_cons in H as [Hd _].
  destruct (read_octet a Ha) as (da & _ & La & Ra). destruct (read_octet b Hb) as (db & _ & Lb & Rb). destruct (read_octet c Hc) as (dc & _ & Lc & Rc). destruct (read_octet d Hd) as (dd & _ & Ld & Rd).
  unfold parse_quad. rewrite !dot_app.
  assert (Hlen : String.length (itoa a +:+ String "." (itoa b +:+ String "." (itoa c +:+ String "." (itoa d)))) = (da + (1 + (db + (1 + (dc + (1 + dd))))))%nat) by (repeat (rewrite !string_length_app; cbn [String.length]); lia).
  rewrite Hlen. replace (S _) with (da + S (db + S (dc + S (dd + 1))))%nat by lia.
  rewrite Ra, read_dot by (try apply app_nonempty; try apply itoa_nonempty; cbn; lia). rewrite Rb, read_dot by (try apply app_nonempty; try apply itoa_nonempty; cbn; lia).
  rewrite Rc, read_dot by (try apply app_nonempty; try apply itoa_nonempty; cbn; lia). rewrite <- (app_empty_r (itoa d)), Rd. done.
Qed.

Lemma addr_kind_dot a s : all_chars is_digit a = true -> addr_kind (a +:+ String "." s) = Some "."%char.
Proof.
  induction a as [|c a IH]; [done|]. cbn [all_chars]. intros [Hc Ha]%andb_true_iff. rewrite app_cons. cbn [addr_kind]. rewrite IH by done.
  destruct (Ascii.eqb c "." || Ascii.eqb c ":" || Ascii.eqb c "%") eqn:E; [|done]. exfalso. rewrite !orb_true_iff, !Ascii.eqb_eq in E. destruct E as [[->| ->]| ->]; done.
Qed.

Lemma ParseAddr_v4 x : 0 <= x < 2 ^ 32 -> ParseAddr (string_v4 x) = Some (Addr4 x).
Proof.
  intros Hx. assert (0 <= Z.shiftr x 24) by (apply Z.shiftr_nonneg; lia). unfold ParseAddr. unfold string_v4 at 1. rewrite dot_app, addr_kind_dot by by apply itoa_spec.
  unfold parseIPv4. rewrite parse_quad_v4 by done. cbn [fmap option_fmap option_map]. by rewrite be_value_octets.
Qed.

Lemma fold_bytes_range l acc : Forall is_byte l -> 0 <= acc ->
  0 <= fold_left (fun acc b => Z.lor (Z.shiftl acc 8) b) l acc < (acc + 1) * 2 ^ (8 * Z.of_nat (length l)).
Proof.
  intros Hl. revert acc. induction Hl as [|b l Hb _ IH]; intros acc Ha; cbn [fold_left length]; [cbn; lia|]. unfold is_byte in Hb. rewrite lor_low by done.
  specialize (IH (acc * 2 ^ 8 + b)). replace (8 * Z.of_nat (S (length l))) with (8 + 8 * Z.of_nat (length l)) by lia. rewrite Z.pow_add_r by lia. nia.
Qed.

Lemma quad_bytes fuel : forall s val digLen fields prevDot l, parseIPv4Fields fuel s val digLen fields prevDot = Some l -> Forall is_byte fields -> 0 <= val <= 255 -> (length fields <= 3)%nat ->
  Forall is_byte l /\ length l = 4%nat.
Proof.
  induction fuel as [|fuel IH]; [done|]. intros s val digLen fields prevDot l. cbn [parseIPv4Fields]. destruct s as [|c s].
  - destruct (_ <? 3) eqn:E; [done|]. intros [= <-] Hf Hv Hl. split; [apply list.Forall_app; split; [done|]; apply list.Forall_singleton; unfold is_byte; lia|]. rewrite length_app. cbn. lia.
  - destruct (is_digit c) eqn:Hd.
    + destruct (_ && _); [done|]. destruct (255 <? _) eqn:E; [done|]. intros H Hf Hv Hl. apply IH in H; try done. unfold is_digit in Hd. apply andb_true_iff in Hd as [??]. lia.
    + destruct (Ascii.eqb c "."); [|done]. destruct (_ || _); [done|]. destruct (_ =? 3) eqn:E; [done|]. intros H Hf Hv Hl. apply Z.eqb_neq in E. apply IH in H; try done.
      * apply list.Forall_app. split; [done|]. apply list.Forall_singleton. unfold is_byte. lia.
      * rewrite length_app. cbn. lia.
Qed.

Lemma addr_kind_free s : free ":" s -> addr_kind s = Some "."%char \/ addr_kind s = Some "%"%char \/ addr_kind s = None.
Proof.
  induction s as [|c s IH]; [auto|]. intros [Hc Hs]%free_cons. cbn [addr_kind]. destruct (Ascii.eqb_spec c "."); [subst; auto|].
  destruct (Ascii.eqb_spec c ":"); [done|]. destruct (Ascii.eqb_spec c "%"); [subst; auto|]. cbn. auto.
Qed.

(** Without a colon there is only the dotted form. *)
Lemma ParseAddr_dotted s a : free ":" s -> ParseAddr s = Some a -> exists x, a = Addr4 x /\ 0 <= x < 2 ^ 32.
Proof.
  intros Hs. unfold ParseAddr. destruct (addr_kind_free s Hs) as [-> |[-> | ->]]; [|done..]. unfold parseIPv4, parse_quad.
  destruct (parseIPv4Fields _ _ _ _ _ _) as [l|] eqn:E; [|done]. intros [= <-]. apply quad_bytes in E as [Hb Hl]; [|constructor|lia|cbn; lia].
  exists (be_value l). split; [done|]. pose proof (fold_bytes_range l 0 Hb) as H. rewrite Hl in H. unfold be_value. cbn -[Z.pow] in *. lia.
Qed.

Lemma mask_range x ones : 0 <= x < 2 ^ 32 -> 0 <= ones <= 32 -> 0 <= mask_bits x 32 ones < 2 ^ 32.
Proof.
  intros Hx Ho. unfold mask_bits. rewrite Z.shiftl_mul_pow2, Z.shiftr_div_pow2 by lia. pose proof (Z.pow_pos_nonneg 2 (32 - ones)). pose proof (Z.mul_div_le x (2 ^ (32 - ones))).
  pose proof (Z.div_pos x (2 ^ (32 - ones))). nia.
Qed.

(** ** Networks *)

Lemma v4_free c x : is_digit c = false -> Ascii.eqb dash c = false -> c <> "."%char -> free c (string_v4 x).
Proof.
  intros Hd Hdash Hdot. assert (Hi : forall n, free c (itoa n)) by (intros n; by apply NftModel.itoa_without).
  unfold string_v4. rewrite !free_app. repeat split; try apply Hi; (apply free_cons; split; [congruence|done]).
Qed.

Lemma LastIndexByte_app c a b : free c b -> LastIndexByte c (a +:+ String c b) = Some (String.length a).
Proof.
  intros Hb. induction a as [|x a IH].
  - change ("" +:+ String c b) with (String c b). cbn [LastIndexByte String.length]. rewrite LastIndexByte_none by done. by rewrite Ascii.eqb_refl.
  - rewrite app_cons. cbn [LastIndexByte String.length]. by rewrite IH.
Qed.

Lemma take_string_app a b : take_string (String.length a) (a +:+ b) = a.
Proof. induction a as [|x a IH]; [by destruct b|]. rewrite app_cons. cbn. by rewrite IH. Qed.

Lemma ContainsByte_free c s : ContainsByte c s = false <-> free c s.
Proof.
  induction s as [|x s IH]; [done|]. cbn [ContainsByte]. rewrite orb_false_iff, IH, free_cons. split; intros [H1 H2]; (split; [|done]).
  - apply Ascii.eqb_neq in H1. congruence.
  - apply Ascii.eqb_neq. congruence.
Qed.

Lemma ContainsByte_app c a b : ContainsByte c (a +:+ b) = ContainsByte c a || ContainsByte c b.
Proof. induction a as [|x a IH]; [done|]. rewrite app_cons. cbn [ContainsByte]. by rewrite IH, orb_assoc. Qed.

Lemma read_address x : 0 <= x < 2 ^ 32 -> read_network (string_v4 x) = Some (PrefixFrom (Addr4 x) 32).
Proof.
  intros Hx. unfold read_network. replace (ContainsByte "/" (string_v4 x)) with false; [by rewrite ParseAddr_v4|]. symmetry. apply ContainsByte_free. by apply v4_free.
Qed.

Lemma mask_text n : 0 <= n <= 32 -> (1 <? strlen (itoa n)) && match itoa n with String c _ => negb ((49 <=? code c) && (code c <=? 57)) | _ => false end = false.
Proof.
  intros Hn. assert (H : Forall (fun n => (1 <? strlen (itoa n)) && match itoa n with String c _ => negb ((49 <=? code c) && (code c <=? 57)) | _ => false end = false) (seqZ 0 33)).
  { vm_compute (seqZ 0 33). repeat (apply list.Forall_cons; split; [vm_compute; reflexivity|]). apply list.Forall_nil_2. }
  eapply list.Forall_forall in H; [exact H|]. apply elem_of_seqZ. lia.
Qed.

Lemma read_cidr x n : 0 <= x < 2 ^ 32 -> 0 <= n <= 32 -> read_network (string_v4 x +:+ "/" +:+ itoa n) = Some (PrefixFrom (Addr4 x) n).
Proof.
  intros Hx Hn. unfold read_network. change ("/" +:+ itoa n) with (String "/" (itoa n)). rewrite ContainsByte_app. cbn [ContainsByte]. rewrite Ascii.eqb_refl, orb_true_r.
  unfold ParsePrefix. rewrite LastIndexByte_app by by apply NftModel.itoa_without. rewrite take_string_app, ParseAddr_v4 by done. cbn [hasZone].
  assert (Hd : drop_string (S (String.length (string_v4 x))) (string_v4 x +:+ String "/" (itoa n)) = itoa n).
  { change (String "/" (itoa n)) with ("/" +:+ itoa n). rewrite <- app_assoc_s. replace (S (String.length (string_v4 x))) with (String.length (string_v4 x +:+ "/")) by (rewrite string_length_app; cbn; lia). apply drop_string_app. }
  rewrite Hd. rewrite mask_text by done. rewrite Atoi_itoa by (unfold maxInt64; lia). cbn [Is6]. replace ((n <? 0) || (32 <? n)) with false; [done|].
  symmetry. apply orb_false_iff. split; apply Z.ltb_ge; lia.
Qed.

Lemma itoa_chars n : all_chars (fun c => is_digit c || Ascii.eqb c dash) (itoa n) = true.
Proof.
  destruct n as [|n|n].
  - done.
  - eapply all_chars_impl; [|apply (itoa_spec (Z.pos n)); lia]. by intros c ->.
  - change (itoa (Z.neg n)) with ("-" +:+ itoa (Z.pos n)). rewrite all_chars_app. apply andb_true_iff. split; [done|]. eapply all_chars_impl; [|apply (itoa_spec (Z.pos n)); lia]. by intros c ->.
Qed.

Lemma number_char c : is_digit c || Ascii.eqb c dash = true -> name_char c = true.
Proof.
  intros [H|H%Ascii.eqb_eq]%orb_true_iff; [|by subst]. unfold is_digit in H. apply andb_true_iff in H as [??]. unfold name_char, word_char, is_space.
  repeat (apply andb_true_iff; split); apply negb_true_iff; try (apply Ascii.eqb_neq; intros ->; vm_compute in *; lia).
  apply orb_false_iff. split; [apply Z.eqb_neq; lia|]. apply andb_false_iff. right. apply Z.leb_gt. lia.
Qed.

Lemma itoa_name n : all_chars name_char (itoa n) = true.
Proof. eapply all_chars_impl; [|apply itoa_chars]. apply number_char. Qed.

Lemma v4_name x : all_chars name_char (string_v4 x) = true.
Proof. unfold string_v4. by rewrite !all_chars_app, !itoa_name. Qed.

(** The network that a canonical address stands for is the one the policy program
    compiles from the same text. *)
Lemma canonical_network v t : free ":" v -> plain_cidr v = true -> canonicalIPv4 v = Some t ->
  exists p, read_network t = Some p /\ parse_address v = Some (Some p) /\ all_chars name_char t = true /\ t <> "" /\ free "c" t.
Proof.
  intros Hv Hp. unfold canonicalIPv4, parse_address. destruct (ContainsByte "/" v) eqn:Hs.
  - destruct (ParseCIDR v) as [[ip network]|] eqn:E; [|done]. rewrite (ParseCIDR_trim _ _ E). pose proof (ParseCIDR_ParsePrefix _ _ _ Hp E) as Hpre.
    destruct (ParseCIDR_plain_chars _ _ E) as (i & a & Hi & Ha & Hz & _). assert (Hip : exists x, ip = Addr4 x /\ 0 <= x < 2 ^ 32 /\ 0 <= net_Ones network <= 32 /\ network = mkIPNet (Addr4 (mask_bits x 32 (net_Ones network))) (net_Ones network)).
    { unfold ParseCIDR in E. rewrite Hi, Ha, Hz in E. pose proof (take_index_drop _ _ _ Hi) as Hsp. rewrite Hsp in Hv. apply free_app in Hv as [Hv _].
      destruct (ParseAddr_dotted _ _ Hv Ha) as (x & -> & Hx). destruct (negb _); [done|]. destruct (dtoi 0 _) as [[m []]|] eqn:Em; [|done..]. cbn [BitLen] in E. destruct (32 <? m) eqn:Hm; [done|].
      injection E as <- <-. exists x. apply Z.ltb_ge in Hm. pose proof (dtoi_bound _ _ _ _ Em). cbn. repeat split; try lia. }
    destruct Hip as (x & -> & Hx & Ho & ->). cbn [To4 net_Ones] in *. rewrite bool_decide_eq_false_2 by done. intros [= <-]. unfold net_String. cbn [net_IP To4 Is4 net_Ones].
    exists (PrefixFrom (Addr4 (mask_bits x 32 (net_Ones network))) (net_Ones network)). rewrite read_cidr by (done || by apply mask_range). split; [done|].
    rewrite (bool_decide_eq_false_2 (v = "")) by (intros ->; done). assert (Hno : ParseAddr v = None).
    { destruct (ParseAddr v) as [b|] eqn:Eb; [|done]. exfalso. destruct (ParseAddr_dotted _ _ Hv Eb) as (y & -> & _).
      pose proof (ParseAddr_chars _ _ Eb eq_refl) as Hc. eapply (all_free "/") in Hc; [|done]. apply ContainsByte_free in Hc. congruence. }
    rewrite Hno, Hpre. split.
    + cbn. unfold PrefixFrom, Masked. cbn. replace ((0 <=? net_Ones network) && (net_Ones network <=? 32)) with true by (symmetry; apply andb_true_iff; split; apply Z.leb_le; lia).
      unfold prefix_IsValid. cbn. by replace (0 <=? net_Ones network) with true by (symmetry; apply Z.leb_le; lia).
    + split; [rewrite !all_chars_app, v4_name, itoa_name; done|]. split; [apply app_nonempty; unfold string_v4; apply app_nonempty, itoa_nonempty, Z.shiftr_nonneg, mask_range; lia|].
      rewrite !free_app. repeat split; [by apply v4_free|by apply NftModel.itoa_without].
  - unfold ParseIP. destruct (ParseAddr v) as [a|] eqn:E; [|done]. destruct (ParseAddr_dotted _ _ Hv E) as (x & -> & Hx). cbn. intros [= <-].
    exists (PrefixFrom (Addr4 x) 32). rewrite (ParseAddr_trim _ _ E eq_refl), E, read_address by done. rewrite bool_decide_eq_false_2 by (intros ->; done).
    repeat split; [apply v4_name| |by apply v4_free]. unfold string_v4. apply app_nonempty, itoa_nonempty, Z.shiftr_nonneg. lia.
Qed.

(** ** Conditions *)

(** A condition and the words it is written with. *)
Definition condition : Type := nft_match * list string.

(** The conditions of nft(8) that the compiler writes: interface names, IPv4 networks,
    ports, protocols, connection states and marks. *)
Inductive documented : condition -> Prop :=
| doc_iif names : names <> [] -> Forall (fun n => all_chars name_char n = true) names -> documented (OnIif names, "iifname" :: set_words (quoted <$> names))
| doc_oif names : names <> [] -> Forall (fun n => all_chars name_char n = true) names -> documented (OnOif names, "oifname" :: set_words (quoted <$> names))
| doc_source values ps : values <> [] -> Forall element_ok values -> mapM read_network values = Some ps -> documented (OnSource ps, "ip" :: "saddr" :: set_words values)
| doc_destination values ps : values <> [] -> Forall element_ok values -> mapM read_network values = Some ps -> documented (OnDestination ps, "ip" :: "daddr" :: set_words values)
| doc_port name proto (destination : bool) text first last : read_protocol name = Some proto -> read_ports text = Some (first, last) ->
    documented (OnPort proto destination first last, [name; if destination then "dport" else "sport"; text])
| doc_protocol name proto : read_protocol name = Some proto -> documented (OnProtocol proto, ["meta"; "l4proto"; name])
| doc_state text states : mapM read_state (Split "," text) = Some states -> documented (OnState states, ["ct"; "state"; text])
| doc_mark m mask v value : read_hex m = Some mask -> read_hex v = Some value -> documented (OnMark mask value, ["ct"; "mark"; "&"; m; "=="; v]).

Record condition_ok (c : condition) : Prop := {
  cond_words : Forall (fun w => tokenb w = true) c.2;
  cond_quiet : Forall (fun w => word_is w "counter" = false) c.2;
  cond_documented : documented c
}.

Lemma not_counter_free c w : ContainsByte c "counter" = true -> free c w -> word_is w "counter" = false.
Proof. intros Hc Hw. apply bool_decide_eq_false_2. intros ->. apply ContainsByte_free in Hw. congruence. Qed.

Lemma not_counter_has c w : ContainsByte c "counter" = false -> ContainsByte c w = true -> word_is w "counter" = false.
Proof. intros Hc Hw. apply bool_decide_eq_false_2. intros ->. congruence. Qed.

Lemma commas_quiet (P : string -> Prop) vs : (forall v, P v -> word_is v "counter" = false) -> (forall v, P v -> P (v +:+ ",")) -> Forall P vs -> Forall (fun w => word_is w "counter" = false) (set_words vs).
Proof.
  intros HP Hc H. assert (Hset : Forall (fun w => word_is w "counter" = false) (commas vs)).
  { induction H as [|v vs Hv Hvs IH]; [constructor|]. destruct vs as [|v' vs]; [by constructor; [apply HP|]|]. constructor; [by apply HP, Hc|done]. }
  destruct vs as [|v [|v' vs]]; [by repeat constructor|done|]. constructor; [done|]. apply list.Forall_app. split; [done|by repeat constructor].
Qed.

Lemma quoted_has v : ContainsByte (char_of 34) (quoted v) = true.
Proof. unfold quoted, dq. rewrite !ContainsByte_app. done. Qed.

Lemma quoted_element v : all_chars name_char v = true -> element_ok (quoted v).
Proof.
  intros H. unfold element_ok, quoted, dq. split; [done|]. rewrite !free_app. repeat split; try done; (eapply all_free; [|exact H]; done).
Qed.

Lemma unquote_quoted v : unquote (quoted v) = Some v.
Proof.
  unfold unquote, quoted. rewrite HasPrefix_append. replace (HasSuffix _ _) with true by (symmetry; apply HasSuffix_true; exists (dq +:+ v); by rewrite app_assoc_s).
  cbn [andb]. unfold TrimPrefix. rewrite HasPrefix_append, drop_app. by rewrite TrimSuffix_app.
Qed.

Lemma mapM_unquote vs : mapM unquote (quoted <$> vs) = Some vs.
Proof. induction vs as [|v vs IH]; [done|]. cbn. rewrite unquote_quoted. cbn in IH |- *. by rewrite IH. Qed.

Lemma not_set_mark w ws rest : word_is w "ct" = false -> bool_decide (take 8 ((w :: ws) ++ rest) = set_mark_words) = false.
Proof. intros Hw. apply bool_decide_eq_false_2. cbn. intros [= -> _]. done. Qed.

Lemma interface_condition (f : list string -> nft_match) key names : f = OnIif /\ key = "iifname" \/ f = OnOif /\ key = "oifname" -> names <> [] -> Forall (fun n => all_chars name_char n = true) names ->
  condition_ok (f names, key :: set_words (quoted <$> names)).
Proof.
  intros Hf Hne Hn. assert (Hq : Forall (fun v => tokenb v = true) (quoted <$> names)) by (apply list.Forall_fmap; eapply list.Forall_impl; [exact Hn|]; intros v; apply quoted_word).
  split; cbn [fst snd].
  - constructor; [by destruct Hf as [[_ ->]|[_ ->]]|]. by apply set_words_words.
  - constructor; [by destruct Hf as [[_ ->]|[_ ->]]|]. apply (commas_quiet (fun v => ContainsByte (char_of 34) v = true)).
    + intros v. by apply not_counter_has.
    + intros v Hv. by rewrite ContainsByte_app, Hv.
    + apply list.Forall_fmap, list.Forall_forall. intros v _. apply quoted_has.
  - destruct Hf as [[-> ->]|[-> ->]]; by constructor.
Qed.

Lemma name_element v : v <> "" -> all_chars name_char v = true -> element_ok v.
Proof. intros Hv H. split; [done|]. repeat split; (eapply all_free; [|exact H]; done). Qed.

Lemma address_condition_ok (f : list Prefix -> nft_match) key values ps : f = OnSource /\ key = "saddr" \/ f = OnDestination /\ key = "daddr" -> values <> [] ->
  Forall (fun v => all_chars name_char v = true /\ v <> "" /\ free "c" v) values -> mapM read_network values = Some ps ->
  condition_ok (f ps, "ip" :: key :: set_words values).
Proof.
  intros Hf Hne Hv Hps. split; cbn [fst snd].
  - constructor; [done|]. constructor; [by destruct Hf as [[_ ->]|[_ ->]]|]. apply set_words_words. eapply list.Forall_impl; [exact Hv|]. intros v (Hn & Hnz & _). by apply name_word.
  - constructor; [done|]. constructor; [by destruct Hf as [[_ ->]|[_ ->]]|]. apply (commas_quiet (free "c")).
    + intros v. by apply not_counter_free.
    + intros v Hf'. apply free_app. split; [done|reflexivity].
    + eapply list.Forall_impl; [exact Hv|]. by intros v (_ & _ & ?).
  - assert (He : Forall element_ok values) by (eapply list.Forall_impl; [exact Hv|]; intros v (Hn & Hnz & _); by apply name_element).
    destruct Hf as [[-> ->]|[-> ->]]; by constructor.
Qed.

(** * Rules written and read *)

(** ** Numbers *)

Lemma read_hex_digit d : 0 <= d < 16 -> hex_value (hex_digit d) = Some d.
Proof.
  intros Hd. assert (H : Forall (fun d => hex_value (hex_digit d) = Some d) (seqZ 0 16)) by (vm_compute (seqZ 0 16); repeat (apply list.Forall_cons; split; [reflexivity|]); apply list.Forall_nil_2).
  eapply list.Forall_forall in H; [exact H|]. apply elem_of_seqZ. lia.
Qed.

Lemma hex_digits_bytes l acc : Forall is_byte l -> hex_digits acc (hex_EncodeToString l) = Some (fold_left (fun acc b => 256 * acc + b) l acc).
Proof.
  intros Hl. revert acc. induction Hl as [|b l Hb _ IH]; intros acc; [done|]. unfold is_byte in Hb. cbn [hex_EncodeToString hex_digits fold_left].
  assert (0 <= b / 16 < 16) by (split; [apply Z.div_pos; lia|apply Z.div_lt_upper_bound; lia]). pose proof (Z.mod_pos_bound b 16).
  rewrite !read_hex_digit by lia. cbn. rewrite IH. do 2 f_equal. pose proof (Z.div_mod b 16). lia.
Qed.

Lemma read_hex8 v : 0 <= v < 2 ^ 32 -> read_hex (hex8 v) = Some v.
Proof.
  intros Hv. unfold read_hex, hex8. rewrite HasPrefix_append. unfold TrimPrefix. rewrite HasPrefix_append, drop_app, hex_digits_bytes.
  - f_equal. transitivity (be_value (be_bytes 4 v)); [|by apply be_value_bytes]. unfold be_value. pose proof (be_bytes_bytes 4 v) as Hb. revert Hb. generalize (be_bytes 4 v) as l. generalize 0 as acc.
    intros acc l Hb. revert acc. induction Hb as [|b l Hb _ IH]; intros acc; [done|]. cbn [fold_left]. rewrite IH. f_equal. unfold is_byte in Hb. rewrite lor_low by done. change (2 ^ 8) with 256. lia.
  - apply be_bytes_bytes.
Qed.

Lemma lor_range a b n : 0 <= n -> 0 <= a < 2 ^ n -> 0 <= b < 2 ^ n -> 0 <= Z.lor a b < 2 ^ n.
Proof.
  intros Hn Ha Hb. split; [apply Z.lor_nonneg; lia|]. destruct (Z.eq_dec (Z.lor a b) 0) as [-> |Hz]; [lia|].
  assert (0 <= Z.lor a b) by (apply Z.lor_nonneg; lia). apply Z.log2_lt_pow2; [lia|]. rewrite Z.log2_lor by lia. apply Z.max_lub_lt.
  - destruct (Z.eq_dec a 0) as [-> |]; [|apply Z.log2_lt_pow2; lia]. cbn. destruct (Z.eq_dec n 0) as [-> |]; [|lia]. cbn in *. assert (b = 0) as -> by lia. done.
  - destruct (Z.eq_dec b 0) as [-> |]; [|apply Z.log2_lt_pow2; lia]. cbn. destruct (Z.eq_dec n 0) as [-> |]; [|lia]. cbn in *. assert (a = 0) as -> by lia. done.
Qed.

Lemma PackCacheMark_range m v : PackCacheMark m = Ok v -> 0 <= v < 2 ^ 32.
Proof.
  unfold PackCacheMark. destruct (_ || _); [done|]. destruct (_ || _); [done|]. intros [= <-]. assert (Hu : forall x, 0 <= u32 x < 2 ^ 32) by (intros x; unfold u32; apply Z.mod_pos_bound; lia).
  repeat apply lor_range; try lia; apply Hu.
Qed.

Lemma cache_value_range e s d : 0 <= cache_value e s d < 2 ^ 32.
Proof. unfold cache_value. destruct (PackCacheMark _) eqn:E; [by eapply PackCacheMark_range|lia]. Qed.

Lemma hex8_word v : tokenb (hex8 v) = true /\ word_is (hex8 v) "counter" = false.
Proof.
  split; [|done]. apply andb_true_iff. split; [done|]. unfold hex8. rewrite all_chars_app. apply andb_true_iff. split; [done|].
  assert (Hd : forall d, 0 <= d < 16 -> (fun c => negb (is_space c) && negb (Ascii.eqb c ";")) (hex_digit d) = true).
  { intros d Hd. assert (H : Forall (fun d => (fun c => negb (is_space c) && negb (Ascii.eqb c ";")) (hex_digit d) = true) (seqZ 0 16)) by (vm_compute (seqZ 0 16); repeat (apply list.Forall_cons; split; [reflexivity|]); apply list.Forall_nil_2).
    eapply list.Forall_forall in H; [exact H|]. apply elem_of_seqZ. lia. }
  pose proof (be_bytes_bytes 4 v) as Hb. revert Hb. generalize (be_bytes 4 v) as l. induction 1 as [|b l Hb _ IH]; [done|]. unfold is_byte in Hb. cbn [hex_EncodeToString all_chars].
  assert (0 <= b / 16 < 16) by (split; [apply Z.div_pos; lia|apply Z.div_lt_upper_bound; lia]). pose proof (Z.mod_pos_bound b 16). rewrite (Hd (b / 16)), (Hd (b mod 16)) by lia. done.
Qed.

(** ** Services and states *)

Definition service_condition (destination : bool) (s : ServiceSelector) : condition :=
  let proto := default 0 (read_protocol (ss_Protocol s)) in
  if ss_AllPorts s then (OnProtocol proto, ["meta"; "l4proto"; ss_Protocol s])
  else (OnPort proto destination (ss_First s) (ss_Last s), [ss_Protocol s; if destination then "dport" else "sport"; port_text s]).

Lemma port_text_name s : all_chars name_char (port_text s) = true.
Proof. unfold port_text. destruct (_ =? _); [apply itoa_name|]. by rewrite !all_chars_app, !itoa_name. Qed.

Lemma read_port_text s : 0 <= ss_First s <= 65535 -> 0 <= ss_Last s <= 65535 -> read_ports (port_text s) = Some (ss_First s, ss_Last s).
Proof.
  intros Hf Hl. unfold read_ports, port_text. assert (Hd : forall n, 0 <= n -> all_chars (fun c => negb (Ascii.eqb c dash)) (itoa n) = true) by (intros n Hn; by apply itoa_plain).
  destruct (Z.eqb_spec (ss_First s) (ss_Last s)) as [E|_].
  - rewrite Split_none by (apply Hd; lia). rewrite Atoi_itoa by (unfold maxInt64; lia). cbn. by rewrite E.
  - change ("-" +:+ itoa (ss_Last s)) with (String dash (itoa (ss_Last s))). rewrite Split_one by (apply Hd; lia). rewrite Split_none by (apply Hd; lia).
    rewrite !Atoi_itoa by (unfold maxInt64; lia). done.
Qed.

Lemma service_condition_ok destination s : wf_selector s -> condition_ok (service_condition destination s).
Proof.
  intros [(Hp & Ha & _)|(Hp & Ha & Hf & Hl)]; unfold service_condition; rewrite Ha.
  - split; cbn [fst snd].
    + repeat constructor. set_unfold in Hp. by destruct Hp as [-> |[-> |[]]].
    + repeat constructor. set_unfold in Hp. by destruct Hp as [-> |[-> |[]]].
    + constructor. set_unfold in Hp. by destruct Hp as [-> |[-> |[]]].
  - assert (Hr : read_ports (port_text s) = Some (ss_First s, ss_Last s)) by (apply read_port_text; lia).
    assert (Hpt : tokenb (port_text s) = true).
    { apply name_word; [|apply port_text_name]. unfold port_text. destruct (_ =? _); [apply itoa_nonempty; lia|]. apply app_nonempty, itoa_nonempty. lia. }
    assert (Hq : word_is (port_text s) "counter" = false).
    { apply (not_counter_free "c"); [done|]. unfold port_text. destruct (_ =? _); [by apply NftModel.itoa_without|]. rewrite !free_app. repeat split; try done; by apply NftModel.itoa_without. }
    split; cbn [fst snd].
    + repeat constructor; [|by destruct destination|done]. set_unfold in Hp. by destruct Hp as [-> |[-> |[]]].
    + repeat constructor; [|by destruct destination|done]. set_unfold in Hp. by destruct Hp as [-> |[-> |[]]].
    + constructor; [|done]. set_unfold in Hp. by destruct Hp as [-> |[-> |[]]].
Qed.

Definition state_condition : condition := (OnState [CtEstablished; CtRelated], ["ct"; "state"; "established,related"]).

Lemma state_condition_ok : condition_ok state_condition.
Proof. split; cbn [fst snd state_condition]; [by repeat constructor|by repeat constructor|by constructor]. Qed.

Definition cached_condition (v : Z) : list condition :=
  [(OnState [CtEstablished], ["ct"; "state"; "established"]); (OnMark 4294967040 v, ["ct"; "mark"; "&"; "0xffffff00"; "=="; hex8 v])].

Lemma cached_condition_ok v : 0 <= v < 2 ^ 32 -> Forall condition_ok (cached_condition v).
Proof.
  intros Hv. pose proof (hex8_word v) as [Hw Hc]. apply list.Forall_cons. split; [split; cbn [fst snd]; [by repeat constructor|by repeat constructor|by constructor]|].
  apply list.Forall_singleton. split; cbn [fst snd]; [by repeat constructor|by repeat constructor|]. constructor; [done | by apply read_hex8].
Qed.

(** ** Lines *)

Definition condition_words (cs : list condition) : list string := mjoin (snd <$> cs).

Lemma condition_words_cons c cs : condition_words (c :: cs) = c.2 ++ condition_words cs.
Proof. done. Qed.

Lemma condition_words_app cs ds : condition_words (cs ++ ds) = condition_words cs ++ condition_words ds.
Proof. unfold condition_words. by rewrite fmap_app, join_app. Qed.

Definition mark_words (mark : option Z) : list string := match mark with Some v => set_mark_words ++ [hex8 v] | None => [] end.

(** The end of a policy's line. *)
Definition verdict_words (action comment : string) : list string := ["counter"; action; "comment"; quoted comment].

Definition rule_words (cs : list condition) (mark : option Z) (action comment : string) : list string :=
  condition_words cs ++ mark_words mark ++ verdict_words action comment.

(** What a line says: its conditions, the mark it sets, and the verdict it ends in, with
    or without a counter and a comment. *)
Definition ends_in (tail : list string) (v : nft_verdict) : Prop :=
  exists action, read_verdict action = Some v /\ (tail = [action] \/ exists comment, tail = verdict_words action comment).

Definition line_rule (line : string) (r : nft_rule) : Prop :=
  exists cs tail, Forall documented cs /\ words line = condition_words cs ++ mark_words (nf_mark r) ++ tail /\
    nf_matches r = fst <$> cs /\ ends_in tail (nf_verdict r) /\ match nf_mark r with Some m => 0 <= m < 2 ^ 32 | None => True end.

Lemma line_rule_words k cs mark tail v : Forall condition_ok cs -> Forall (fun w => tokenb w = true) (mark_words mark ++ tail) -> ends_in tail v ->
  match mark with Some m => 0 <= m < 2 ^ 32 | None => True end ->
  line_rule (spaced (replicate k "" ++ condition_words cs ++ mark_words mark ++ tail)) (mkNftRule (fst <$> cs) mark v).
Proof.
  intros Hcs Ht He Hm. exists cs, tail. split_and!; [by eapply list.Forall_impl; [exact Hcs|]; intros c []| |done..]. apply words_line.
  apply list.Forall_app. split; [|done]. clear Ht. induction Hcs as [|c cs Hc _ IH]; [constructor|]. rewrite condition_words_cons. apply list.Forall_app. split; [by apply cond_words|done].
Qed.

(** ** nft *)

(** Rules on one line, each ended by a semicolon. *)
Definition statements (rules : list string) : string := foldr (fun r s => " " +:+ r +:+ ";" +:+ s) "" rules.

Lemma statements_cons r rules : statements (r :: rules) = " " +:+ r +:+ ";" +:+ statements rules.
Proof. done. Qed.

(** nft and the kernel: what a rule does with a packet ([Some None] when it does not
    apply), and what the forward chain of a loaded text does with it; [None] is a text
    that nft does not load. *)
Class Nft := {
  nft_line : string -> packet -> option (option (nft_verdict * Z));
  nft_forward : string -> packet -> option (nft_verdict * Z)
}.

Class NftSemantics (N : Nft) := {
  rule_semantics line r p : line_rule line r -> nft_line line p = Some (if rule_applies p r then Some (effect p r) else None);
  chain_semantics text p before word policy rules lines after outs :
    Split (char_of 10) text = before ++ (chain_start +:+ word +:+ ";" +:+ statements rules) :: lines ++ "  }" :: after ->
    Forall (fun l => HasPrefix l chain_start = false) before -> read_verdict word = Some policy ->
    Forall (free ";") rules -> Forall (fun l => l <> "  }") lines ->
    mapM (fun l => nft_line l p) (rules ++ lines) = Some outs ->
    nft_forward text p = Some (default (policy, pk_mark p) (head (omap id outs)))
}.

Lemma run_chain_outs policy rules p :
  run_chain policy rules p = default (policy, pk_mark p) (head (omap id ((fun r => if rule_applies p r then Some (effect p r) else None) <$> rules))).
Proof. unfold run_chain. induction rules as [|r rules IH]; [done|]. cbn. by destruct (rule_applies p r). Qed.

(** A chain whose lines are known decides by the first rule that applies. *)
Lemma chain_decides {N : Nft} {L : NftSemantics N} text p before word policy statement_lines lines after rules :
  Split (char_of 10) text = before ++ (chain_start +:+ word +:+ ";" +:+ statements statement_lines) :: lines ++ "  }" :: after ->
  Forall (fun l => HasPrefix l chain_start = false) before -> read_verdict word = Some policy ->
  Forall (free ";") statement_lines -> Forall (fun l => l <> "  }") lines ->
  Forall2 line_rule (statement_lines ++ lines) rules -> nft_forward text p = Some (run_chain policy rules p).
Proof.
  intros Htext Hbefore Hpolicy Hs Hl Hrules. set (out := fun r => if rule_applies p r then Some (effect p r) else None).
  rewrite (chain_semantics text p before word policy statement_lines lines after (out <$> rules)); try done.
  - f_equal. symmetry. apply run_chain_outs.
  - clear Htext Hs Hl. induction Hrules as [|l r ls rs Hlr _ IH]; [done|]. cbn [mapM]. rewrite (rule_semantics _ _ p Hlr). cbn [mbind option_bind]. by rewrite IH.
Qed.

(** ** A reader with these laws *)

Lemma documented_read c : documented c ->
  (forall rest, read_condition (c.2 ++ rest) = Some (c.1, rest)) /\ (forall rest, bool_decide (take 8 (c.2 ++ rest) = set_mark_words) = false).
Proof.
  assert (Hnames : forall f names rest, names <> [] -> Forall (fun n => all_chars name_char n = true) names -> read_names f (set_words (quoted <$> names) ++ rest) = Some (f names, rest)).
  { intros f names rest Hne Hn. unfold read_names. rewrite read_values_set; [cbn; by rewrite mapM_unquote|by destruct names|].
    apply list.Forall_fmap. eapply list.Forall_impl; [exact Hn|]. intros v. apply quoted_element. }
  assert (Hnets : forall f values ps rest, values <> [] -> Forall element_ok values -> mapM read_network values = Some ps -> read_networks f (set_words values ++ rest) = Some (f ps, rest)).
  { intros f values ps rest Hne Hv Hps. unfold read_networks. rewrite read_values_set by done. cbn. by rewrite Hps. }
  assert (Hproto : forall name proto, read_protocol name = Some proto -> name = "tcp" \/ name = "udp" \/ name = "icmp" \/ name = "icmpv6").
  { intros name proto. unfold read_protocol. repeat case_bool_decide; auto; done. }
  intros [names Hne Hn | names Hne Hn | values ps Hne Hv Hps | values ps Hne Hv Hps | name proto destination text first last Hp Hr | name proto Hp | text states Hs | m mask v value Hm Hv]; cbn [fst snd]; split; intros rest.
  - by apply Hnames.
  - by apply not_set_mark.
  - by apply Hnames.
  - by apply not_set_mark.
  - by apply Hnets.
  - by apply not_set_mark.
  - by apply Hnets.
  - by apply not_set_mark.
  - destruct (Hproto _ _ Hp) as [-> |[-> |[-> | ->]]]; cbn in Hp; injection Hp as <-; destruct destination; cbn -[read_ports]; by rewrite Hr.
  - apply not_set_mark. by destruct (Hproto _ _ Hp) as [-> |[-> |[-> | ->]]].
  - cbn -[read_protocol]. by rewrite Hp.
  - by apply not_set_mark.
  - cbn -[read_state Split]. by rewrite Hs.
  - done.
  - cbn -[read_hex]. by rewrite Hm, Hv.
  - done.
Qed.

Lemma condition_nonempty c : documented c -> (0 < length c.2)%nat.
Proof. intros H. destruct (documented_read c H) as [Hr _]. specialize (Hr []). destruct c.2; [done|cbn; lia]. Qed.

Lemma read_conditions cs tail r fuel : Forall documented cs -> read_words fuel tail = Some r ->
  read_words (length cs + fuel) (condition_words cs ++ tail) = Some (mkNftRule ((fst <$> cs) ++ nf_matches r) (nf_mark r) (nf_verdict r)).
Proof.
  intros Hcs Hr. induction Hcs as [|c cs Hc _ IH]; [by destruct r|]. destruct (documented_read c Hc) as [Hread Hstart].
  rewrite condition_words_cons, <- (assoc_L (++)). cbn [length Nat.add read_words]. by rewrite Hstart, Hread, IH.
Qed.

Lemma condition_words_length cs : Forall documented cs -> (length cs <= length (condition_words cs))%nat.
Proof. induction 1 as [|c cs Hc _ IH]; [done|]. rewrite condition_words_cons, length_app. pose proof (condition_nonempty _ Hc). cbn [length]. lia. Qed.

Lemma read_words_more fuel ws r : read_words fuel ws = Some r -> forall more, (fuel <= more)%nat -> read_words more ws = Some r.
Proof.
  revert ws r. induction fuel as [|fuel IH]; [done|]. intros ws r. cbn [read_words]. intros H [|more] Hm; [lia|]. cbn [read_words].
  destruct (bool_decide _); [done|]. destruct (read_condition ws) as [[m rest]|]; [|done]. destruct (read_words fuel rest) as [r'|] eqn:E; [|done]. rewrite (IH _ _ E more) by lia. done.
Qed.

(** What is read at the end of the conditions. *)
Lemma read_end_words mark tail v : ends_in tail v -> read_end mark tail = Some (mark, v).
Proof.
  intros (action & Hv & [-> | [comment ->]]).
  - assert (Hc : word_is action "counter" = false) by (revert Hv; unfold read_verdict; by repeat case_bool_decide; subst).
    unfold read_end. rewrite Hc. by rewrite Hv.
  - change (read_end mark (verdict_words action comment)) with (v ← read_verdict action; _ ← unquote (quoted comment); Some (mark, v)). by rewrite Hv, unquote_quoted.
Qed.

Lemma read_verdict_words mark tail v : match mark with Some m => 0 <= m < 2 ^ 32 | None => True end -> ends_in tail v ->
  read_words 1 (mark_words mark ++ tail) = Some (mkNftRule [] mark v).
Proof.
  intros Hm Hv. destruct mark as [m|].
  - change (read_words 1 (mark_words (Some m) ++ tail)) with
      (value ← read_hex (hex8 m); '(mark, v) ← read_end (Some value) tail; Some (mkNftRule [] mark v)).
    rewrite read_hex8 by done. cbn [mbind option_bind]. by rewrite (read_end_words _ _ _ Hv).
  - assert (E : read_words 1 tail = ('(mark, v) ← read_end None tail; Some (mkNftRule [] mark v))).
    { destruct Hv as (action & Ha & [-> | [comment ->]]); [|done]. revert Ha. unfold read_verdict. by repeat case_bool_decide; subst. }
    cbn [mark_words app]. rewrite E. by rewrite (read_end_words _ _ _ Hv).
Qed.

Lemma read_line line r : line_rule line r -> read_rule line = Some r.
Proof.
  intros (cs & tail & Hcs & Hw & Hm & He & Hmark). unfold read_rule. rewrite Hw. eapply read_words_more.
  - rewrite (read_conditions cs _ (mkNftRule [] (nf_mark r) (nf_verdict r)) 1 Hcs); [|by apply read_verdict_words]. cbn [nf_matches nf_mark nf_verdict]. rewrite app_nil_r, <- Hm. by destruct r.
  - rewrite length_app. pose proof (condition_words_length cs Hcs). lia.
Qed.

Lemma words_space line : words (" " +:+ line) = words line.
Proof. unfold words. change (" " +:+ line) with ("" +:+ String " " line). by rewrite Split_one. Qed.

Lemma read_space line : read_rule (" " +:+ line) = read_rule line.
Proof. unfold read_rule. by rewrite words_space. Qed.

Lemma words_read r rule : read_rule r = Some rule -> words r <> [].
Proof. unfold read_rule. intros H E. rewrite E in H. done. Qed.

Lemma Split_statements word rules : free ";" word -> Forall (free ";") rules ->
  Split ";" (word +:+ ";" +:+ statements rules) = word :: ((fun r => " " +:+ r) <$> rules) ++ [""].
Proof.
  intros Hw H. change (";" +:+ statements rules) with (String ";" (statements rules)). rewrite Split_one by done. f_equal.
  induction H as [|r rules Hr _ IH]; [done|]. rewrite statements_cons, fmap_cons. change (" " +:+ r +:+ ";" +:+ statements rules) with (String space (r +:+ String ";" (statements rules))).
  rewrite <- app_cons, Split_one by (apply free_cons; done). by rewrite IH.
Qed.

Lemma read_chain_skip ls more : Forall (fun l => HasPrefix l chain_start = false) ls -> read_chain (ls ++ more) = read_chain more.
Proof. induction 1 as [|l ls Hl _ IH]; [done|]. cbn [app read_chain]. by rewrite Hl. Qed.

Definition reader_nft : Nft := {|
  nft_line line p := (fun r => if rule_applies p r then Some (effect p r) else None) <$> read_rule line;
  nft_forward := forward_chain
|}.

Lemma reader_semantics : NftSemantics reader_nft.
Proof.
  split; [intros line r p Hr; cbn [nft_line reader_nft]; by rewrite (read_line _ _ Hr)|].
  intros text p before word policy rules lines after outs Htext Hbefore Hpolicy Hs Hl Houts. cbn [nft_forward reader_nft]. unfold forward_chain.
  set (out := fun r => if rule_applies p r then Some (effect p r) else None) in *.
  assert (Hread : exists rs ls, Forall2 (fun l r => read_rule l = Some r) rules rs /\ Forall2 (fun l r => read_rule l = Some r) lines ls /\ outs = out <$> rs ++ ls).
  { apply mapM_Some in Houts. clear Htext Hs Hl. assert (H : exists all, Forall2 (fun l r => read_rule l = Some r) (rules ++ lines) all /\ outs = out <$> all).
    { induction Houts as [|l o ls os Ho _ (all & Hall & ->)]; [exists []; by split; [constructor|]|]. cbn [nft_line reader_nft] in Ho.
      destruct (read_rule l) as [r|] eqn:E; [|done]. injection Ho as <-. exists (r :: all). split; [by constructor | done]. }
    destruct H as (all & Hall & ->). apply Forall2_app_inv_l in Hall as (rs & ls & Hrs & Hls & ->). by exists rs, ls. }
  destruct Hread as (rs & ls & Hrs & Hls & ->). rewrite Htext, read_chain_skip by done. cbn [read_chain]. rewrite HasPrefix_append.
  assert (Hfree : free ";" word) by (revert Hpolicy; unfold read_verdict; by repeat case_bool_decide; subst).
  unfold TrimPrefix. rewrite HasPrefix_append, drop_app. unfold read_header. rewrite Split_statements by done. rewrite Hpolicy. cbn [mbind option_bind].
  assert (Hstatements : mapM read_rule (List.filter (fun r => negb (bool_decide (words r = []))) (((fun r => " " +:+ r) <$> rules) ++ [""])) = Some rs).
  { clear - Hrs. induction Hrs as [|l r rules rs E _ IH]; [done|]. rewrite fmap_cons. cbn [app List.filter].
    rewrite words_space, (bool_decide_eq_false_2 _ (words_read _ _ E)). cbn [negb mapM]. rewrite read_space, E. cbn [mbind option_bind]. by rewrite IH. }
  rewrite Hstatements. cbn [mbind option_bind].
  assert (Hbody : read_body (lines ++ "  }" :: after) = Some ls).
  { clear - Hl Hls. induction Hls as [|l r lines ls E _ IH]; [done|]. apply list.Forall_cons in Hl as [Hne Hl]. cbn [app read_body]. rewrite bool_decide_eq_false_2 by done.
    rewrite E. cbn [mbind option_bind]. by rewrite (IH Hl). }
  rewrite Hbody. cbn [mbind option_bind]. f_equal. apply run_chain_outs.
Qed.
