(* ===== verification/RulesetLines.v ===== *)
(** * The lines of a policy

    The words and conditions of the lines that a policy is written with, and what
    the marking of accepted connections does to a line. *)

From Stdlib Require Import Ascii.
From S2P Require Import Prelude GoStr Bytes Netip Domain Flow Config Services TLSExclusion Validate Connectivity ConnProps Mark GoNet Validator Service Guards NftModel Ruleset NftText.

#[local] Open Scope string_scope.
#[local] Open Scope list_scope.
#[local] Open Scope Z_scope.

(** ** Joining parts *)

Lemma Join_parts wss : Forall (fun ws => ws <> []) wss -> strings_Join " " (strings_Join " " <$> wss) = strings_Join " " (mjoin wss).
Proof.
  induction 1 as [|ws wss Hws Hwss IH]; [done|]. destruct ws as [|w ws]; [done|]. rewrite fmap_cons, Join_spaced.
  change (mjoin ((w :: ws) :: wss)) with (w :: (ws ++ mjoin wss)). rewrite !Join_spaced, spaced_app, app_assoc_s. do 2 f_equal.
  destruct Hwss as [|ws' wss Hws' _]; [done|]. rewrite fmap_cons in *. rewrite Join_spaced in IH. rewrite spaced_cons. destruct ws' as [|w' ws']; [done|].
  change (mjoin ((w' :: ws') :: wss)) with (w' :: (ws' ++ mjoin wss)) in *. rewrite IH, Join_spaced. done.
Qed.

Definition part (c : condition) : string := strings_Join " " c.2.

(** A line with its indent. *)
Definition rule_line (cs : list condition) (mark : option Z) (action comment : string) : string := spaced (replicate 3 "" ++ rule_words cs mark action comment).

Lemma rule_line_parts cs action comment : Forall condition_ok cs ->
  indent (strings_Join " " ((part <$> cs) ++ ["counter"; action; "comment " +:+ quoted comment])) = rule_line cs None action comment.
Proof.
  intros Hcs. replace ((part <$> cs) ++ ["counter"; action; "comment " +:+ quoted comment]) with (strings_Join " " <$> (snd <$> cs) ++ [["counter"]; [action]; ["comment"; quoted comment]]).
  - rewrite Join_parts, join_app.
    + unfold rule_line, rule_words, condition_words. cbn [mark_words app]. change (mjoin [["counter"]; [action]; ["comment"; quoted comment]]) with (verdict_words action comment).
      destruct (mjoin (snd <$> cs) ++ verdict_words action comment) as [|w ws] eqn:E; [by destruct (mjoin (snd <$> cs))|]. by rewrite indent_spaced.
    + apply list.Forall_app. split; [|by repeat constructor]. apply list.Forall_fmap. eapply list.Forall_impl; [exact Hcs|]. intros c Hc. cbn. pose proof (condition_nonempty c (cond_documented _ Hc)). by destruct c.2; [cbn in *; lia|].
  - rewrite fmap_app, <- list_fmap_compose. done.
Qed.

(** ** Marking a line *)

Lemma counted_accept_words id suffix : counted_accept id suffix = spaced (verdict_words "accept" ("policy:" +:+ id +:+ suffix)).
Proof.
  unfold verdict_words. rewrite !spaced_cons. change (spaced []) with "". rewrite app_empty_r. done.
Qed.

Lemma marked_accept_words v id suffix : marked_accept v id suffix = spaced (mark_words (Some v) ++ verdict_words "accept" ("policy:" +:+ id +:+ suffix)).
Proof.
  unfold marked_accept. rewrite counted_accept_words, spaced_app. unfold mark_words. rewrite spaced_app, (spaced_cons (hex8 v)). change (spaced []) with "". rewrite app_empty_r, app_assoc_s. done.
Qed.

(** The characters of identifiers. *)
Lemma identifier_name c : identifier_char c = true -> name_char c = true /\ Ascii.eqb c ":" = false.
Proof. destruct c as [[] [] [] [] [] [] [] []]; vm_compute; intuition congruence. Qed.

Lemma ValidateIdentifier_chars id : ValidateIdentifier id = true -> id <> "" /\ all_chars identifier_char id = true.
Proof.
  destruct id as [|c rest]; [done|]. cbn [ValidateIdentifier]. rewrite !andb_true_iff. intros [[Hc Hr] _]. split; [done|]. cbn [all_chars]. rewrite Hr. unfold identifier_char. by rewrite Hc.
Qed.

Definition id_ok (id : string) : Prop := all_chars identifier_char id = true.

Lemma id_free c id : identifier_char c = false -> id_ok id -> free c id.
Proof. intros Hc H. by eapply all_free. Qed.

Definition is_suffix (s : string) : Prop := s = "" \/ s = ":reverse".

Lemma comment_chars id suffix : id_ok id -> is_suffix suffix -> all_chars name_char ("policy:" +:+ id +:+ suffix) = true.
Proof.
  intros Hid Hs. rewrite !all_chars_app. apply andb_true_iff. split; [done|]. apply andb_true_iff. split; [|by destruct Hs as [-> | ->]].
  eapply all_chars_impl; [|exact Hid]. intros c Hc. by apply identifier_name.
Qed.

Lemma quoted_prefix c c' : free (char_of 34) c -> free (char_of 34) c' -> HasPrefix (quoted c) (quoted c') = word_is c c'.
Proof.
  intros Hc Hc'. unfold quoted, dq. change (String (char_of 34) "" +:+ ?x) with (String (char_of 34) x). rewrite HasPrefix_cons, Ascii.eqb_refl. cbn [andb].
  destruct (word_is c c') eqn:E.
  - apply bool_decide_eq_true_1 in E as ->. rewrite <- (app_empty_r (c' +:+ _)) at 1. apply HasPrefix_append.
  - destruct (HasPrefix _ _) eqn:Hp; [|done]. apply HasPrefix_across in Hp as [-> _]; [|done..]. apply bool_decide_eq_false_1 in E. done.
Qed.

Lemma comment_inj id suffix id' suffix' : id_ok id -> id_ok id' -> is_suffix suffix -> is_suffix suffix' ->
  "policy:" +:+ id +:+ suffix = "policy:" +:+ id' +:+ suffix' -> id = id' /\ suffix = suffix'.
Proof.
  intros Hi Hi' Hs Hs' E. apply (id_free ":") in Hi; [|done]. apply (id_free ":") in Hi'; [|done]. apply (app_inj_head "policy:") in E.
  destruct Hs as [-> | ->], Hs' as [-> | ->]; rewrite ?app_empty_r in E.
  - done.
  - rewrite E in Hi. apply free_app in Hi as [_ Hi]. by apply free_cons in Hi as [Hi _].
  - rewrite <- E in Hi'. apply free_app in Hi' as [_ Hi']. by apply free_cons in Hi' as [Hi' _].
  - split; [|done]. by apply (sep_inj ":") in E as [-> _].
Qed.

Lemma rule_words_ok cs mark action comment : Forall condition_ok cs -> tokenb action = true -> all_chars name_char comment = true ->
  Forall (fun w => tokenb w = true) (rule_words cs mark action comment).
Proof.
  intros Hcs Ha Hc. unfold rule_words. rewrite !list.Forall_app. repeat split.
  - induction Hcs as [|c cs Hok _ IH]; [constructor|]. rewrite condition_words_cons. apply list.Forall_app. split; [by apply cond_words|done].
  - destruct mark as [v|]; [|constructor]. apply list.Forall_app. split; [by repeat constructor|]. apply list.Forall_singleton, hex8_word.
  - repeat constructor; [done|by apply quoted_word].
Qed.

Lemma conditions_quiet cs mark : Forall condition_ok cs -> Forall (fun w => word_is w "counter" = false) (replicate 3 "" ++ condition_words cs ++ mark_words mark).
Proof.
  intros Hcs. rewrite !list.Forall_app. repeat split; [by repeat constructor| |].
  - induction Hcs as [|c cs Hok _ IH]; [constructor|]. rewrite condition_words_cons. apply list.Forall_app. split; [by apply cond_quiet|done].
  - destruct mark as [v|]; [|constructor]. apply list.Forall_app. split; [by repeat constructor|]. apply list.Forall_singleton, hex8_word.
Qed.

Lemma tokens_free ws : Forall (fun w => tokenb w = true) ws -> Forall (free space) ws.
Proof. intros H. eapply list.Forall_impl; [exact H|]. intros w Hw. by apply tokenb_free. Qed.

Definition is_action (a : string) : Prop := a = "accept" \/ a = "drop" \/ a = "reject".

Lemma is_action_word a : is_action a -> tokenb a = true /\ word_is a "counter" = false.
Proof. by intros [-> |[-> | ->]]. Qed.

(** One replacement: the mark goes before the counter of the accepting lines with
    that comment. *)
Lemma replace_mark cs mark action comment v id suffix : Forall condition_ok cs -> is_action action -> all_chars name_char comment = true -> id_ok id -> is_suffix suffix ->
  ReplaceAll (counted_accept id suffix) (marked_accept v id suffix) (rule_line cs mark action comment) =
  if word_is action "accept" && word_is comment ("policy:" +:+ id +:+ suffix)
  then spaced (replicate 3 "" ++ condition_words cs ++ mark_words mark ++ mark_words (Some v) ++ verdict_words action comment)
  else rule_line cs mark action comment.
Proof.
  intros Hcs Ha Hc Hid Hs. pose proof (comment_chars id suffix Hid Hs) as Hc'. set (comment' := "policy:" +:+ id +:+ suffix) in *.
  rewrite counted_accept_words, marked_accept_words. fold comment'. set (ns := verdict_words "accept" comment'). set (new := spaced (mark_words (Some v) ++ ns)).
  assert (Hfv : forall a c, is_action a -> all_chars name_char c = true -> Forall (free space) (verdict_words a c)).
  { intros a c Hax Hcx. apply tokens_free. repeat constructor; [by apply is_action_word|by apply quoted_word]. }
  assert (Hns : Forall (free space) ns) by (apply Hfv; [by left|done]).
  unfold rule_line, rule_words. set (pre := replicate 3 "" ++ condition_words cs ++ mark_words mark).
  replace (replicate 3 "" ++ condition_words cs ++ mark_words mark ++ verdict_words action comment) with (pre ++ verdict_words action comment) by (unfold pre; by rewrite <- !(assoc_L (++))).
  assert (Hpre : Forall (free space) (pre ++ verdict_words action comment)).
  { unfold pre. pose proof (rule_words_ok cs mark action comment Hcs (proj1 (is_action_word _ Ha)) Hc) as H%tokens_free. unfold rule_words in H. rewrite <- !(assoc_L (++)). apply list.Forall_app. split; [by repeat constructor|done]. }
  rewrite (ReplaceAll_skip ns new Hns ltac:(done) pre); [|done|by apply conditions_quiet|cbn; lia].
  destruct (word_is action "accept" && word_is comment comment') eqn:E.
  - apply andb_true_iff in E as [->%bool_decide_eq_true_1 ->%bool_decide_eq_true_1]. fold ns. rewrite ReplaceAll_hit by done. unfold new, pre. rewrite !spaced_app, !app_assoc_s. done.
  - rewrite spaced_app. f_equal. assert (Hm : match_words (verdict_words action comment) ns = false).
    { unfold ns, verdict_words. cbn [match_words]. rewrite quoted_prefix by (eapply all_free; [|eassumption]; done). destruct (word_is action "accept"); [|done]. cbn [andb] in *. by rewrite E. }
    unfold verdict_words in *. rewrite (ReplaceAll_miss ns new Hns ltac:(done)); [|by apply Hfv|done].
    rewrite (ReplaceAll_quiet ns new Hns ltac:(done)).
    + by rewrite !spaced_cons.
    + specialize (Hfv action comment Ha Hc). by apply list.Forall_cons in Hfv as [_ Hfv].
    + repeat apply list.Forall_cons_2; [by apply is_action_word|done| |by apply list.Forall_nil_2]. apply (not_counter_has (char_of 34)); [done|apply quoted_has].
    + cbn. lia.
Qed.

(** What a policy's marks do to one of its lines. *)
Lemma set_mark_line cs mark action id suffix m : Forall condition_ok cs -> is_action action -> id_ok id -> is_suffix suffix -> id_ok m.1 -> mark = None \/ m.1 <> id ->
  set_mark (rule_line cs mark action ("policy:" +:+ id +:+ suffix)) m =
  rule_line cs (if word_is action "accept" && word_is id m.1 then Some m.2 else mark) action ("policy:" +:+ id +:+ suffix).
Proof.
  intros Hcs Ha Hid Hs Hm Hmark. destruct m as [id' v]. cbn [fst snd] in *. unfold set_mark. cbn [foldl].
  pose proof (comment_chars id suffix Hid Hs) as Hc.
  assert (Hone : forall mk sfx, is_suffix sfx -> (word_is action "accept" && word_is id id' && word_is suffix sfx = true -> mk = None) ->
    ReplaceAll (counted_accept id' sfx) (marked_accept v id' sfx) (rule_line cs mk action ("policy:" +:+ id +:+ suffix)) =
    rule_line cs (if word_is action "accept" && word_is id id' && word_is suffix sfx then Some v else mk) action ("policy:" +:+ id +:+ suffix)).
  { intros mk sfx Hsf Hmk. rewrite replace_mark by done.
    replace (word_is ("policy:" +:+ id +:+ suffix) ("policy:" +:+ id' +:+ sfx)) with (word_is id id' && word_is suffix sfx).
    - rewrite <- andb_assoc in *. destruct (_ && (_ && _)); [|done]. rewrite Hmk by done. done.
    - symmetry. destruct (word_is id id' && word_is suffix sfx) eqn:E.
      + apply andb_true_iff in E as [->%bool_decide_eq_true_1 ->%bool_decide_eq_true_1]. by apply bool_decide_eq_true_2.
      + apply bool_decide_eq_false_2. intros Heq. apply comment_inj in Heq as [-> ->]; [|done..]. unfold word_is in E. by rewrite !bool_decide_eq_true_2 in E. }
  assert (Hnone : word_is id id' = true -> mark = None) by (intros ->%bool_decide_eq_true_1; by destruct Hmark).
  rewrite (Hone mark "") by (by left || (rewrite !andb_true_iff; intros [[_ ?] _]; auto)).
  rewrite Hone; [|by right|].
  - f_equal. destruct (word_is action "accept"), (word_is id id'); cbn [andb]; try done. by destruct Hs as [-> | ->].
  - destruct (word_is action "accept"), (word_is id id'); cbn [andb]; try done. destruct Hs as [-> | ->]; [done|]. intros _. apply Hnone. done.
Qed.

Lemma set_marks_line cs action id suffix order mark : Forall condition_ok cs -> is_action action -> id_ok id -> is_suffix suffix ->
  NoDup order.*1 -> Forall (fun m => id_ok m.1) order -> mark = None \/ id ∉ order.*1 ->
  foldl set_mark (rule_line cs mark action ("policy:" +:+ id +:+ suffix)) order =
  rule_line cs (if word_is action "accept" then match (list_to_map order : gmap string Z) !! id with Some v => Some v | None => mark end else mark) action ("policy:" +:+ id +:+ suffix).
Proof.
  intros Hcs Ha Hid Hs. revert mark. induction order as [|m order IH]; intros mark Hnd Hids Hmark; cbn [foldl].
  { cbn. rewrite lookup_empty. by destruct (word_is action "accept"). }
  rewrite fmap_cons in *. apply list.NoDup_cons in Hnd as [Hnot Hnd]. apply list.Forall_cons in Hids as [Hm Hids]. rewrite set_mark_line; try done; [|set_solver].
  rewrite IH; try done.
  - f_equal. destruct m as [id' v]. cbn [fst snd list_to_map foldr] in *. destruct (word_is action "accept"); [|done]. cbn [andb]. destruct (word_is id id') eqn:E.
    + apply bool_decide_eq_true_1 in E as ->. rewrite lookup_insert_eq. by rewrite not_elem_of_list_to_map_1.
    + apply bool_decide_eq_false_1 in E. by rewrite lookup_insert_ne.
  - destruct (word_is id m.1) eqn:E; [apply bool_decide_eq_true_1 in E as ->; by right|]. rewrite andb_false_r. set_solver.
Qed.

(** ** The lines of a policy *)

Definition zone_conditions (f : list string -> nft_match) (key : string) (zones : list string) (zi : zone_map) : list condition :=
  if bool_decide (zones = []) then []
  else let names := uniqueSorted (zoneInterfaces zones zi) in [(f names, key :: set_words (quoted <$> names))].

(** The networks of a list of addresses, as the kernel reads them. *)
Definition read_addresses (addresses : list string) : list Prefix := default [] (mapM read_network (default [] (canonicalIPv4List addresses))).

Definition address_conditions (f : list Prefix -> nft_match) (key : string) (addresses : list string) : list condition :=
  if bool_decide (addresses = []) then [] else [(f (read_addresses addresses), "ip" :: key :: set_words (default [] (canonicalIPv4List addresses)))].

Definition selector_zero : ServiceSelector := mkServiceSelector "" 0 0 false.

Definition service_conditions (destination : bool) (services : list string) : list (list condition) :=
  if bool_decide (services = []) then [[]] else (fun s => [service_condition destination (default selector_zero (ParseServiceSelector s))]) <$> services.

Definition forward_conditions (policy : SecurityPolicy) (zi : zone_map) : list condition :=
  zone_conditions OnIif "iifname" (sp_SourceZones policy) zi ++ zone_conditions OnOif "oifname" (sp_DestinationZones policy) zi ++
  address_conditions OnSource "saddr" (sp_SourceAddresses policy) ++ address_conditions OnDestination "daddr" (sp_DestinationAddresses policy).

Definition reverse_conditions (policy : SecurityPolicy) (zi : zone_map) : list condition :=
  state_condition :: zone_conditions OnIif "iifname" (sp_DestinationZones policy) zi ++ zone_conditions OnOif "oifname" (sp_SourceZones policy) zi ++
  address_conditions OnSource "saddr" (sp_DestinationAddresses policy) ++ address_conditions OnDestination "daddr" (sp_SourceAddresses policy).

(** An address in dotted form. *)
Definition dotted (v : string) : Prop := free ":" v /\ plain_cidr v = true.

(** What the checks before rendering leave. *)
Record renderable (zi : zone_map) (policy : SecurityPolicy) : Prop := {
  rd_action : is_Some (policyAction (sp_Action policy));
  rd_ID : ValidateIdentifier (sp_ID policy) = true;
  rd_zones : forall z, z ∈ sp_SourceZones policy ++ sp_DestinationZones policy -> default [] (zi !! z) <> [];
  rd_names : forall z n, n ∈ default [] (zi !! z) -> id_ok n;
  rd_addresses : forall v, v ∈ sp_SourceAddresses policy ++ sp_DestinationAddresses policy -> dotted v /\ is_Some (canonicalIPv4 v);
  rd_services : forall s, s ∈ sp_Services policy -> is_Some (ParseServiceSelector s)
}.

Lemma elem_of_zoneInterfaces n zones zi : n ∈ zoneInterfaces zones zi <-> exists z, z ∈ zones /\ n ∈ default [] (zi !! z).
Proof. unfold zoneInterfaces, uniqueSorted. rewrite elem_of_sorted_strings, list_elem_of_bind. naive_solver. Qed.

Lemma canonical_list addresses : (forall v, v ∈ addresses -> dotted v /\ is_Some (canonicalIPv4 v)) ->
  exists ts, mapM canonicalIPv4 addresses = Some ts /\ (forall t, t ∈ ts <-> exists v, v ∈ addresses /\ canonicalIPv4 v = Some t).
Proof.
  induction addresses as [|v l IH]; intros H; [exists []; split; [done|]; intros t; split; [intros Hn|intros (v & Hn & _)]; inversion Hn|]. destruct IH as (ts & Hts & Hin); [intros w Hw; by apply H, list_elem_of_further|].
  destruct (H v) as [_ [t Ht]]; [apply list_elem_of_here|]. exists (t :: ts). cbn. rewrite Ht. cbn. rewrite Hts. split; [done|]. intros t'. rewrite !elem_of_cons, Hin. split.
  - intros [-> |(w & Hw & Hwt)]; [exists v; split; [apply list_elem_of_here|done]|exists w; split; [by apply list_elem_of_further|done]].
  - intros (w & Hw & Hwt). rewrite elem_of_cons in Hw. destruct Hw as [-> |Hw]; [left; congruence|right; eauto].
Qed.

Lemma mapM_all {A B} (f : A -> option B) (l : list A) : (forall x, x ∈ l -> is_Some (f x)) -> is_Some (mapM f l).
Proof. induction l as [|x l IH]; intros H; [by eexists|]. destruct (H x) as [y Hy]; [apply list_elem_of_here|]. destruct IH as [ys Hys]; [intros z Hz; by apply H, list_elem_of_further|]. cbn. rewrite Hy. cbn. rewrite Hys. by eexists. Qed.

Lemma mapM_elem {A B} (f : A -> option B) (l : list A) ys y : mapM f l = Some ys -> y ∈ ys <-> exists x, x ∈ l /\ f x = Some y.
Proof.
  revert ys. induction l as [|x l IH]; intros ys; cbn; [intros [= <-]; split; [intros Hn|intros (v & Hn & _)]; inversion Hn|]. destruct (f x) as [z|] eqn:E; cbn; [|done]. destruct (mapM f l) as [zs|]; cbn; [|done]. intros [= <-].
  rewrite elem_of_cons, IH by done. split; [intros [-> |(w & ? & ?)]; [exists x; split; [apply list_elem_of_here|done]|exists w; split; [by apply list_elem_of_further|done]]|]. intros (w & Hw & Hf). rewrite elem_of_cons in Hw. destruct Hw as [-> |Hw]; [left; congruence|right; eauto].
Qed.

Section policy.
  Context (zi : zone_map) (policy : SecurityPolicy) (Hr : renderable zi policy).

Lemma zone_conditions_ok (f : list string -> nft_match) key zones : f = OnIif /\ key = "iifname" \/ f = OnOif /\ key = "oifname" -> (forall z, z ∈ zones -> z ∈ sp_SourceZones policy ++ sp_DestinationZones policy) ->
  Forall condition_ok (zone_conditions f key zones zi) /\ zone_condition key zones zi = part <$> zone_conditions f key zones zi.
Proof.
  intros Hf Hz. unfold zone_conditions, zone_condition. case_bool_decide as E; [by split; [constructor|]|].
  assert (Hne : uniqueSorted (zoneInterfaces zones zi) <> []).
  { destruct zones as [|z zones]; [done|]. destruct (default [] (zi !! z)) as [|n l] eqn:Ez; [by destruct (rd_zones _ _ Hr z); [apply Hz; set_solver|]|].
    intros Hn. assert (n ∈ uniqueSorted (zoneInterfaces (z :: zones) zi)) as Hin by (apply elem_of_sorted_strings, elem_of_zoneInterfaces; exists z; rewrite Ez; set_solver). rewrite Hn in Hin. set_solver. }
  split.
  - apply list.Forall_singleton, interface_condition; [done|done|]. apply list.Forall_forall. intros n (z & _ & Hn)%elem_of_sorted_strings%elem_of_zoneInterfaces. apply (rd_names _ _ Hr) in Hn. eapply all_chars_impl; [|exact Hn]. intros c Hc. by apply identifier_name.
  - cbn [fmap list_fmap]. unfold part. cbn [snd]. f_equal. unfold quoteSet. rewrite valueOrSet_words by done.
    destruct (set_words (quoted <$> uniqueSorted (zoneInterfaces zones zi))) as [|w ws] eqn:Ew; [|by rewrite (Join_spaced key), spaced_cons, Join_spaced].
    exfalso. by destruct (uniqueSorted (zoneInterfaces zones zi)) as [|a [|b l]].
Qed.

Lemma address_conditions_ok (f : list Prefix -> nft_match) key addresses : f = OnSource /\ key = "saddr" \/ f = OnDestination /\ key = "daddr" ->
  (forall v, v ∈ addresses -> v ∈ sp_SourceAddresses policy ++ sp_DestinationAddresses policy) ->
  Forall condition_ok (address_conditions f key addresses) /\ address_condition ("ip " +:+ key) addresses = Some (part <$> address_conditions f key addresses) /\
  (forall a, addressMatch (omap id (default [] (mapM parse_address addresses))) a = bool_decide (addresses = []) || existsb (fun x => Netip.Contains x a) (read_addresses addresses)).
Proof.
  intros Hf Hin. assert (Hall : forall v, v ∈ addresses -> dotted v /\ is_Some (canonicalIPv4 v)) by (intros v Hv; apply (rd_addresses _ _ Hr), Hin, Hv).
  unfold address_conditions, address_condition. case_bool_decide as E; [subst; split; [constructor|done]|].
  destruct (canonical_list _ Hall) as (ts & Hts & Hmem). unfold canonicalIPv4List, read_addresses, canonicalIPv4List. rewrite Hts. cbn [fmap option_fmap option_map from_option id]. set (vs := uniqueSorted ts).
  assert (Hvs : forall t, t ∈ vs <-> exists v, v ∈ addresses /\ canonicalIPv4 v = Some t) by (intros t; unfold vs, uniqueSorted; by rewrite elem_of_sorted_strings).
  assert (Hnet : forall t, t ∈ vs -> exists v p, v ∈ addresses /\ canonicalIPv4 v = Some t /\ read_network t = Some p /\ parse_address v = Some (Some p) /\ all_chars name_char t = true /\ t <> "" /\ free "c" t).
  { intros t (v & Hv & Ht)%Hvs. destruct (Hall v Hv) as [[H1 H2] _]. destruct (canonical_network v t H1 H2 Ht) as (p & ? & ? & ? & ? & ?). by exists v, p. }
  destruct (mapM_all read_network vs) as [ps Hps]; [intros t (v & p & _ & _ & Hp & _)%Hnet; by eexists|]. rewrite Hps. cbn [from_option id].
  assert (Hne : vs <> []).
  { destruct addresses as [|v l]; [done|]. destruct (Hall v) as [_ [t Ht]]; [apply list_elem_of_here|]. intros Hn. assert (t ∈ vs) as Hbad by (apply Hvs; exists v; split; [apply list_elem_of_here|done]). rewrite Hn in Hbad. inversion Hbad. }
  split; [|split].
  - apply list.Forall_singleton. apply address_condition_ok; [done|done| |done]. apply list.Forall_forall. intros t (v & p & _ & _ & _ & _ & ?)%Hnet. done.
  - do 2 f_equal. unfold part. cbn [snd]. rewrite valueOrSet_words by done. cbn [list_fmap snd]. rewrite (Join_spaced "ip"), spaced_cons. destruct (set_words vs) as [|w ws] eqn:Ew; [exfalso; by destruct vs as [|a [|b l]]|].
    rewrite spaced_cons, Join_spaced. by rewrite !app_assoc_s.
  - intros a. destruct (mapM_all parse_address addresses) as [os Hos].
    { intros v Hv. destruct (Hall v Hv) as [[H1 H2] [t Ht]]. destruct (canonical_network v t H1 H2 Ht) as (p & _ & Hp & _). by eexists. }
    rewrite Hos. cbn [from_option id]. assert (Heq : forall p, p ∈ omap id os <-> p ∈ ps).
    { intros p. rewrite list_elem_of_omap, (mapM_elem _ _ _ p Hps). split.
      - intros (o & Ho & Hp). cbn in Hp. subst o. apply (mapM_elem _ _ _ _ Hos) in Ho as (v & Hv & Hpv). destruct (Hall v Hv) as [[H1 H2] [t Ht]].
        destruct (canonical_network v t H1 H2 Ht) as (p' & Hr' & Hp' & _). exists t. split; [apply Hvs; eauto|congruence].
      - intros (t & Ht & Hp). destruct (Hnet t Ht) as (v & p' & Hv & _ & Hp' & Hpv & _). exists (Some p). split; [apply (mapM_elem _ _ _ _ Hos); exists v; split; [done|congruence]|done]. }
    unfold addressMatch. rewrite bool_decide_eq_false_2; [|intros Hn; rewrite Hn in Heq; destruct ps as [|p ps]; [by destruct vs as [|? vs]; [done|cbn in Hps; destruct (read_network _); cbn in Hps; [destruct (mapM _ vs)|]]|]; specialize (Heq p); set_solver].
    cbn [orb]. apply eq_true_iff_eq. rewrite !existsb_exists. split; intros (p & Hp & Hc); exists p; (split; [|done]); apply list_elem_of_In, Heq, list_elem_of_In, Hp.
Qed.

Lemma policyAction_word action : policyAction (sp_Action policy) = Some action -> is_action action.
Proof. unfold is_action. destruct (sp_Action policy); cbn; intros [= <-]; auto. Qed.

Lemma service_text_part (destination : bool) s sel : ParseServiceSelector s = Some sel -> service_text (if destination then "dport" else "sport") s = Some (part (service_condition destination sel)).
Proof.
  intros Hs. unfold service_text. rewrite Hs. cbn [mbind option_bind]. f_equal. unfold service_condition, part. destruct (ss_AllPorts sel); [done|]. cbn [snd].
  rewrite !Join_spaced, !spaced_cons. change (spaced []) with "". by rewrite app_empty_r.
Qed.

Lemma service_conditions_ok destination : Forall (Forall condition_ok) (service_conditions destination (sp_Services policy)).
Proof.
  unfold service_conditions. case_bool_decide; [by repeat constructor|]. apply list.Forall_fmap, list.Forall_forall. intros s Hs. cbn. apply list.Forall_singleton.
  destruct (rd_services _ _ Hr s Hs) as [sel Hsel]. rewrite Hsel. by eapply service_condition_ok, ParseServiceSelector_wf.
Qed.

(** The lines of a policy with common conditions [base]. *)
Lemma policy_lines_words base (destination : bool) action comment : Forall condition_ok base ->
  exists ls, policy_lines (part <$> base) (service_text (if destination then "dport" else "sport")) action comment (sp_Services policy) = Some ls /\
    map indent ls = (fun sc => rule_line (base ++ sc) None action comment) <$> service_conditions destination (sp_Services policy).
Proof.
  intros Hbase. pose proof (service_conditions_ok destination) as Hok. pose proof (rd_services _ _ Hr) as Hsvc. revert Hok Hsvc. unfold policy_lines, service_conditions. generalize (sp_Services policy) as services. intros services.
  case_bool_decide as E.
  - intros _ _. eexists. split; [reflexivity|]. cbn [map fmap list_fmap app]. rewrite app_nil_r. f_equal. by apply rule_line_parts.
  - clear E. induction services as [|s services IH]; intros Hok Hsvc; [by exists []|]. rewrite fmap_cons in Hok. apply list.Forall_cons in Hok as [Hs Hok]. destruct IH as (ls & Hls & Hmap); [done|intros x Hx; by apply Hsvc, list_elem_of_further|].
    destruct (Hsvc s) as [sel Hsel]; [apply list_elem_of_here|]. assert (s <> "") by (intros ->; done). cbn [mapM]. rewrite bool_decide_eq_false_2 by done. rewrite (service_text_part _ _ _ Hsel). cbn [fmap option_fmap option_map mbind option_bind].
    rewrite Hls. cbn [mbind option_bind mret option_ret]. eexists. split; [reflexivity|]. cbn [map]. rewrite Hmap, fmap_cons. cbn in Hs. rewrite Hsel in *. cbn [from_option id] in *.
    rewrite fmap_cons. f_equal. rewrite <- rule_line_parts by (by apply list.Forall_app). rewrite fmap_app, <- (assoc_L (++)). done.
Qed.

Lemma forward_conditions_ok : Forall condition_ok (forward_conditions policy zi).
Proof.
  unfold forward_conditions. rewrite !list.Forall_app. repeat split; try (apply zone_conditions_ok; set_solver); apply address_conditions_ok; set_solver.
Qed.

Lemma reverse_conditions_ok : Forall condition_ok (reverse_conditions policy zi).
Proof.
  unfold reverse_conditions. apply list.Forall_cons. split; [apply state_condition_ok|]. rewrite !list.Forall_app. repeat split; try (apply zone_conditions_ok; set_solver); apply address_conditions_ok; set_solver.
Qed.

Lemma forward_lines : exists action ls, policyAction (sp_Action policy) = Some action /\ renderPolicyRules policy zi = Some ls /\
  map indent ls = (fun sc => rule_line (forward_conditions policy zi ++ sc) None action ("policy:" +:+ sp_ID policy +:+ "")) <$> service_conditions true (sp_Services policy).
Proof.
  destruct (rd_action _ _ Hr) as [action Ha]. exists action. destruct (policy_lines_words (forward_conditions policy zi) true action ("policy:" +:+ sp_ID policy +:+ "") forward_conditions_ok) as (ls & Hls & Hmap).
  exists ls. split; [done|]. split; [|done]. unfold renderPolicyRules. rewrite app_empty_r in Hls. rewrite <- Hls. change "ip saddr" with ("ip " +:+ "saddr"). change "ip daddr" with ("ip " +:+ "daddr").
  destruct (address_conditions_ok OnSource "saddr" (sp_SourceAddresses policy)) as (_ & -> & _); [by left|set_solver|].
  destruct (address_conditions_ok OnDestination "daddr" (sp_DestinationAddresses policy)) as (_ & -> & _); [by right|set_solver|]. rewrite Ha. cbn [mbind option_bind].
  unfold forward_conditions. rewrite !fmap_app. destruct (zone_conditions_ok OnIif "iifname" (sp_SourceZones policy)) as [_ <-]; [by left|set_solver|].
  destruct (zone_conditions_ok OnOif "oifname" (sp_DestinationZones policy)) as [_ <-]; [by right|set_solver|]. done.
Qed.

Lemma reverse_lines : exists action ls, policyAction (sp_Action policy) = Some action /\ renderReversePolicyRules policy zi = Some ls /\
  map indent ls = (fun sc => rule_line (reverse_conditions policy zi ++ sc) None action ("policy:" +:+ sp_ID policy +:+ ":reverse")) <$> service_conditions false (sp_Services policy).
Proof.
  destruct (rd_action _ _ Hr) as [action Ha]. exists action. destruct (policy_lines_words (reverse_conditions policy zi) false action ("policy:" +:+ sp_ID policy +:+ ":reverse") reverse_conditions_ok) as (ls & Hls & Hmap).
  exists ls. split; [done|]. split; [|done]. unfold renderReversePolicyRules. rewrite <- Hls. change "ip saddr" with ("ip " +:+ "saddr"). change "ip daddr" with ("ip " +:+ "daddr").
  destruct (address_conditions_ok OnSource "saddr" (sp_DestinationAddresses policy)) as (_ & -> & _); [by left|set_solver|].
  destruct (address_conditions_ok OnDestination "daddr" (sp_SourceAddresses policy)) as (_ & -> & _); [by right|set_solver|]. rewrite Ha. cbn [mbind option_bind].
  unfold reverse_conditions. rewrite fmap_cons, !fmap_app. destruct (zone_conditions_ok OnIif "iifname" (sp_DestinationZones policy)) as [_ <-]; [by left|set_solver|].
  destruct (zone_conditions_ok OnOif "oifname" (sp_SourceZones policy)) as [_ <-]; [by right|set_solver|]. done.
Qed.

End policy.

(** * What a policy's lines match *)

(** ** Zones *)

(** The zone of an interface by its system name. *)
Definition zone_of (config : Config) (name : string) : string :=
  match find (fun i => bool_decide (if_SystemName i = name)) (cf_Interfaces config) with Some i => if_ZoneID i | None => "" end.

Definition packet_view (config : Config) (p : packet) : View :=
  mkView (pk_src p) (pk_dst p) (pk_sport p) (pk_dport p) (pk_proto p) (zone_of config (pk_iif p)) (zone_of config (pk_oif p)).

(** The same packet seen from its other end. *)
Definition reply_view (config : Config) (p : packet) : View :=
  mkView (pk_dst p) (pk_src p) (pk_dport p) (pk_sport p) (pk_proto p) (zone_of config (pk_oif p)) (zone_of config (pk_iif p)).

Lemma zone_interfaces_fold l z n (m : zone_map) : n ∈ default [] (foldl add_zone_interface m l !! z) <->
  n ∈ default [] (m !! z) \/ exists i, i ∈ l /\ if_ZoneID i = z /\ if_SystemName i = n /\ z <> "" /\ n <> "".
Proof.
  revert m. induction l as [|i l IH]; intros m; cbn [foldl]; [split; [by left|intros [?|(i & Hi & _)]; [done|inversion Hi]]|]. rewrite IH. unfold add_zone_interface, zone_map in *.
  destruct (bool_decide (if_ZoneID i = "") || bool_decide (if_SystemName i = "")) eqn:E.
  - split; [intros [?|(j & Hj & ?)]; [by left|right; exists j; split; [by apply list_elem_of_further|done]]|]. intros [?|(j & Hj & Hz & Hn & Hz' & Hn')]; [by left|]. rewrite elem_of_cons in Hj. destruct Hj as [-> |Hj]; [|right; by exists j].
    apply orb_true_iff in E as [E%bool_decide_eq_true_1|E%bool_decide_eq_true_1]; congruence.
  - apply orb_false_iff in E as [Ez%bool_decide_eq_false_1 En%bool_decide_eq_false_1]. destruct (decide (if_ZoneID i = z)) as [<-|Hne].
    + rewrite lookup_insert_eq. cbn [from_option id]. rewrite elem_of_app, list_elem_of_singleton. split.
      * intros [[?| ->]|(j & Hj & ?)]; [by left|right; exists i; split; [apply list_elem_of_here|done]|right; exists j; split; [by apply list_elem_of_further|done]].
      * intros [?|(j & Hj & Hz & Hn & ?)]; [by left; left|]. rewrite elem_of_cons in Hj. destruct Hj as [-> |Hj]; [left; by right|right; by exists j].
    + rewrite lookup_insert_ne by done. split; [intros [?|(j & Hj & ?)]; [by left|right; exists j; split; [by apply list_elem_of_further|done]]|]. intros [?|(j & Hj & Hz & ?)]; [by left|].
      rewrite elem_of_cons in Hj. destruct Hj as [-> |Hj]; [done|right; by exists j].
Qed.

Lemma elem_of_zone_interfaces config z n : n ∈ default [] (buildZoneInterfaces config !! z) <->
  exists i, i ∈ cf_Interfaces config /\ if_ZoneID i = z /\ if_SystemName i = n /\ z <> "" /\ n <> "".
Proof.
  assert (Ho : forall o : option (list string), n ∈ default [] (uniqueSorted <$> o) <-> n ∈ default [] o) by (intros [l|]; [apply elem_of_sorted_strings|done]).
  unfold buildZoneInterfaces, zone_map. rewrite lookup_fmap, Ho. etransitivity; [apply (zone_interfaces_fold _ _ _ ∅)|]. unfold zone_map. rewrite lookup_empty.
  split; [intros [Hn|?]; [inversion Hn|done]|by right].
Qed.

(** The configurations for which a name is a name and an address an IPv4 address:
    an interface name names one interface, zones are written in canonical form. *)
Record plain_interfaces (config : Config) : Prop := {
  pi_names : NoDup (if_SystemName <$> cf_Interfaces config);
  pi_zones : forall i, i ∈ cf_Interfaces config -> zone_key (if_ZoneID i) = if_ZoneID i;
  pi_system : forall i, i ∈ cf_Interfaces config -> linuxInterfaceName (if_SystemName i) = true
}.

Lemma find_unique {A} (f : A -> string) (l : list A) i : NoDup (f <$> l) -> i ∈ l -> find (fun j => bool_decide (f j = f i)) l = Some i.
Proof.
  intros Hnd Hi. induction l as [|j l IH]; [inversion Hi|]. rewrite fmap_cons in Hnd. apply list.NoDup_cons in Hnd as [Hj Hnd]. cbn [find]. rewrite elem_of_cons in Hi. destruct Hi as [-> |Hi]; [by rewrite bool_decide_eq_true_2|].
  rewrite bool_decide_eq_false_2; [by apply IH|]. intros E. apply Hj. rewrite E. by apply list_elem_of_fmap_2.
Qed.

Section config.
  Context (config : Config) (Hplain : plain_interfaces config).

  #[local] Notation zi := (buildZoneInterfaces config).

Lemma zone_of_interface i : i ∈ cf_Interfaces config -> zone_of config (if_SystemName i) = if_ZoneID i.
Proof. intros Hi. unfold zone_of. rewrite (find_unique if_SystemName); [done|apply Hplain|done]. Qed.

Lemma interface_zone_of name : zone_of config name <> "" -> exists i, i ∈ cf_Interfaces config /\ if_SystemName i = name /\ if_ZoneID i = zone_of config name.
Proof.
  unfold zone_of. destruct (find _ _) as [i|] eqn:E; [|done]. intros _. apply find_some in E as [Hi Hn]. exists i. split; [by apply list_elem_of_In|]. split; [by apply bool_decide_eq_true_1 in Hn|done].
Qed.

Lemma zone_names zones name : (forall z, z ∈ zones -> default [] (zi !! z) <> []) -> zones <> [] ->
  bool_decide (name ∈ uniqueSorted (zoneInterfaces zones zi)) = zoneMatch (stringSet zones) (zone_of config name).
Proof.
  intros Hz Hne. assert (Hfix : forall z, z ∈ zones -> zone_key z = z /\ z <> "").
  { intros z Hin. destruct (default [] (zi !! z)) as [|n l] eqn:E; [by destruct (Hz z Hin)|]. assert (Hn : n ∈ default [] (zi !! z)) by (rewrite E; apply list_elem_of_here).
    apply elem_of_zone_interfaces in Hn as (i & Hi & <- & _ & ? & _). split; [by apply Hplain|done]. }
  assert (Hset : forall z, z ∈ stringSet zones <-> z ∈ zones).
  { intros z. rewrite elem_of_stringSet. split; [intros (v & Hv & <- & _); by rewrite (proj1 (Hfix v Hv))|]. intros Hin. exists z. destruct (Hfix z Hin) as [Hk Hzne]. split_and!; [done..|]. intros E. apply Hzne. rewrite <- Hk. unfold zone_key. by rewrite E. }
  unfold zoneMatch. rewrite (bool_decide_eq_false_2 (stringSet zones = ∅)).
  2: { intros E. destruct zones as [|z zones]; [done|]. assert (z ∈ stringSet (z :: zones)) as Hin by (apply Hset, list_elem_of_here). rewrite E in Hin. by apply elem_of_empty in Hin. }
  cbn [orb]. apply bool_decide_ext. rewrite Hset. unfold uniqueSorted at 1. rewrite elem_of_sorted_strings, elem_of_zoneInterfaces. split.
  - intros (z & Hin & (i & Hi & <- & <- & _)%elem_of_zone_interfaces). rewrite zone_of_interface by done. by rewrite (pi_zones _ Hplain i Hi).
  - intros Hin. destruct (decide (zone_of config name = "")) as [E|E]; [rewrite E in Hin; by apply Hfix in Hin as [_ Hin]|].
    destruct (interface_zone_of name E) as (i & Hi & <- & Hzi). exists (if_ZoneID i). rewrite <- Hzi, (pi_zones _ Hplain i Hi) in Hin. split; [done|]. apply elem_of_zone_interfaces. exists i. rewrite Hzi. split_and!; try done.
    intros En. pose proof (pi_system _ Hplain i Hi) as Hs. by rewrite En in Hs.
Qed.

Lemma zones_match (f : list string -> nft_match) key zones p name : (forall names, match_packet p (f names) = bool_decide (name ∈ names)) -> (forall z, z ∈ zones -> default [] (zi !! z) <> []) ->
  forallb (match_packet p) (fst <$> zone_conditions f key zones zi) = zoneMatch (stringSet zones) (zone_of config name).
Proof.
  intros Hf Hz. unfold zone_conditions. case_bool_decide as E; [subst; done|]. cbn [fmap list_fmap fst forallb]. rewrite Hf, andb_true_r. by apply zone_names.
Qed.

(** ** Addresses and services *)

Lemma prefixes_omap l ps : prefixes l = Some ps -> ps = omap id (default [] (mapM parse_address l)).
Proof. unfold prefixes. destruct (mapM parse_address l) as [os|]; [|done]. by intros [= <-]. Qed.

Lemma addresses_match policy (f : list Prefix -> nft_match) key addresses ps p a : renderable zi policy -> f = OnSource /\ key = "saddr" \/ f = OnDestination /\ key = "daddr" ->
  (forall qs, match_packet p (f qs) = existsb (fun x => Netip.Contains x a) qs) -> (forall v, v ∈ addresses -> v ∈ sp_SourceAddresses policy ++ sp_DestinationAddresses policy) -> prefixes addresses = Some ps ->
  forallb (match_packet p) (fst <$> address_conditions f key addresses) = addressMatch ps a.
Proof.
  intros Hr Hf Hm Hin Hps. apply prefixes_omap in Hps as ->. destruct (address_conditions_ok zi policy Hr f key addresses Hf Hin) as (_ & _ & ->).
  unfold address_conditions. case_bool_decide as E; [by subst|]. cbn [fmap list_fmap fst forallb orb]. by rewrite Hm, andb_true_r.
Qed.

Lemma ParseProtocol_read s sel : ParseServiceSelector s = Some sel -> ParseProtocol (ss_Protocol sel) = read_protocol (ss_Protocol sel).
Proof. intros [(Hp & _)|(Hp & _)]%ParseServiceSelector_wf; set_unfold in Hp; by destruct Hp as [-> |[-> |[]]]. Qed.

Lemma service_match s svc p (destination : bool) view : parseService s = Some svc -> vw_Protocol view = pk_proto p -> vw_DestinationPort view = (if destination then pk_dport p else pk_sport p) ->
  match_packet p (service_condition destination (default selector_zero (ParseServiceSelector s))).1 = serviceMatch view svc.
Proof.
  unfold parseService. intros Hs Hp Hd. destruct (ParseServiceSelector s) as [sel|] eqn:E; [|done]. cbn [mbind option_bind from_option id] in *. rewrite (ParseProtocol_read _ _ E) in Hs. unfold service_condition.
  destruct (read_protocol (ss_Protocol sel)) as [proto|]; [|done]. injection Hs as <-. unfold serviceMatch. cbn [sv_Protocol sv_Ports from_option id]. rewrite Hp, (Z.eqb_sym proto). destruct (ss_AllPorts sel); cbn -[Z.eqb Z.leb].
  - by rewrite andb_true_r.
  - unfold port_Contains. cbn [pt_First pt_Last]. rewrite Hd. by rewrite orb_false_r, andb_assoc.
Qed.

Lemma services_match id services svcs p (destination : bool) view : parse_services id services = Ok svcs -> vw_Protocol view = pk_proto p -> vw_DestinationPort view = (if destination then pk_dport p else pk_sport p) ->
  existsb (fun sc => forallb (match_packet p) (fst <$> sc)) (service_conditions destination services) = bool_decide (svcs = []) || existsb (serviceMatch view) svcs.
Proof.
  intros Hs Hp Hd. apply parse_services_spec in Hs. unfold service_conditions. destruct Hs as [|s svc services svcs Hs Hrest]; [done|]. rewrite !bool_decide_eq_false_2 by done. cbn [orb].
  assert (H : Forall2 (fun raw s => parseService raw = Some s) (s :: services) (svc :: svcs)) by by constructor. revert H. generalize (s :: services) (svc :: svcs). clear - Hp Hd. intros l l'.
  induction 1 as [|s svc services svcs Hs _ IH]; [done|]. rewrite fmap_cons. cbn [existsb fmap list_fmap forallb]. rewrite IH, andb_true_r. f_equal. by apply service_match.
Qed.

Lemma existsb_base (P : nft_match -> bool) (base : list condition) (l : list (list condition)) :
  existsb (fun sc => forallb P (fst <$> base ++ sc)) l = forallb P (fst <$> base) && existsb (fun sc => forallb P (fst <$> sc)) l.
Proof. induction l as [|sc l IH]; [by rewrite andb_false_r|]. cbn [existsb]. rewrite IH, fmap_app, forallb_app. by destruct (forallb P (fst <$> base)). Qed.

(** ** Policies *)

Section policy.
  Context (policy : SecurityPolicy) (rule : Rule) (Hr : renderable zi policy) (Hrule : compile_rule policy = Ok rule).

Lemma compiled_rule : exists sources destinations svcs, prefixes (sp_SourceAddresses policy) = Some sources /\ prefixes (sp_DestinationAddresses policy) = Some destinations /\
  parse_services (sp_ID policy) (sp_Services policy) = Ok svcs /\
  rule = mkRule (sp_ID policy) (sp_Name policy) (sp_Priority policy) (stringSet (sp_SourceZones policy)) (stringSet (sp_DestinationZones policy)) sources destinations svcs (sp_Action policy) true.
Proof.
  revert Hrule. unfold compile_rule. destruct (negb _); [done|]. destruct (prefixes (sp_SourceAddresses policy)) as [sources|]; [|done]. destruct (prefixes (sp_DestinationAddresses policy)) as [destinations|]; [|done].
  destruct (parse_services _ _) as [svcs|]; [|done]. cbn. intros [= <-]. by exists sources, destinations, svcs.
Qed.

Lemma forward_match p : existsb (fun sc => forallb (match_packet p) (fst <$> forward_conditions policy zi ++ sc)) (service_conditions true (sp_Services policy)) = ruleMatches rule (packet_view config p).
Proof.
  destruct compiled_rule as (sources & destinations & svcs & Hs & Hd & Hv & ->). unfold forward_conditions.
  rewrite existsb_base, !fmap_app, !forallb_app.
  rewrite (zones_match OnIif _ _ p (pk_iif p)) by (done || (intros z Hz; apply (rd_zones _ _ Hr); set_solver)). rewrite (zones_match OnOif _ _ p (pk_oif p)) by (done || (intros z Hz; apply (rd_zones _ _ Hr); set_solver)).
  rewrite (addresses_match policy OnSource _ _ sources p (pk_src p)) by (done || (by left) || set_solver). rewrite (addresses_match policy OnDestination _ _ destinations p (pk_dst p)) by (done || (by right) || set_solver).
  rewrite (services_match _ _ _ p true (packet_view config p) Hv) by done. unfold ruleMatches. cbn. by rewrite !andb_assoc.
Qed.

Lemma reverse_match p : existsb (fun sc => forallb (match_packet p) (fst <$> reverse_conditions policy zi ++ sc)) (service_conditions false (sp_Services policy)) =
  bool_decide (pk_state p ∈ [CtEstablished; CtRelated]) && ruleMatches rule (reply_view config p).
Proof.
  destruct compiled_rule as (sources & destinations & svcs & Hs & Hd & Hv & ->). unfold reverse_conditions.
  rewrite existsb_base, fmap_cons, !fmap_app. cbn [forallb]. rewrite !forallb_app.
  rewrite (zones_match OnIif _ _ p (pk_iif p)) by (done || (intros z Hz; apply (rd_zones _ _ Hr); set_solver)). rewrite (zones_match OnOif _ _ p (pk_oif p)) by (done || (intros z Hz; apply (rd_zones _ _ Hr); set_solver)).
  rewrite (addresses_match policy OnSource _ _ destinations p (pk_src p)) by (done || (by left) || set_solver). rewrite (addresses_match policy OnDestination _ _ sources p (pk_dst p)) by (done || (by right) || set_solver).
  rewrite (services_match _ _ _ p false (reply_view config p) Hv) by done. unfold ruleMatches. cbn -[bool_decide].
  set (a := zoneMatch _ (zone_of config (pk_iif p))). set (b := zoneMatch _ (zone_of config (pk_oif p))). set (c := addressMatch destinations _). set (d := addressMatch sources _).
  destruct (bool_decide (pk_state p ∈ _)); cbn [andb]; [|done]. destruct a, b, c, d; cbn [andb]; rewrite ?andb_false_r; done.
Qed.

End policy.

End config.
