(* ===== verification/RulesetForward.v ===== *)
(** * The forward chain of the compiled table

    The text of [CompileM2Ruleset] as lines, through each of its replacements, and
    the chain that is read from it. *)

From Stdlib Require Import Ascii.
From S2P Require Import Prelude GoStr Bytes Netip Domain Flow Config Services TLSExclusion Validate Connectivity ConnProps Mark GoNet Validator Service Guards NftModel Ruleset NftText RulesetLines.

#[local] Open Scope string_scope.
#[local] Open Scope list_scope.
#[local] Open Scope Z_scope.

(** ** Clean text *)

(** No line end and no semicolon. *)
Definition clean_char (c : ascii) : bool := negb (Ascii.eqb c nl_char) && negb (Ascii.eqb c ";").

Definition clean (s : string) : Prop := all_chars clean_char s = true.

Lemma clean_app a b : clean (a +:+ b) <-> clean a /\ clean b.
Proof. unfold clean. by rewrite all_chars_app, andb_true_iff. Qed.

Lemma clean_name s : all_chars name_char s = true -> clean s.
Proof. intros H. eapply all_chars_impl; [|exact H]. intros c. destruct c as [[] [] [] [] [] [] [] []]; vm_compute; congruence. Qed.

Lemma clean_itoa n : clean (itoa n).
Proof. apply clean_name, itoa_name. Qed.

Lemma clean_id s : id_ok s -> clean s.
Proof. intros H. apply clean_name. eapply all_chars_impl; [|exact H]. intros c Hc. by apply identifier_name. Qed.

Lemma clean_quoted s : clean s -> clean (quoted s).
Proof. intros H. unfold quoted. rewrite !clean_app. done. Qed.

Lemma clean_Join sep l : clean sep -> Forall clean l -> clean (strings_Join sep l).
Proof.
  intros Hsep. induction 1 as [|x l Hx Hl IH]; [done|]. destruct l as [|y l]; [done|]. change (strings_Join sep (x :: y :: l)) with (x +:+ sep +:+ strings_Join sep (y :: l)). by rewrite !clean_app.
Qed.

Lemma clean_valueOrSet values quote : Forall clean values -> clean (valueOrSet values quote).
Proof.
  intros H. unfold valueOrSet. assert (Hr : Forall clean (if quote then quoted <$> values else values)) by (destruct quote; [apply list.Forall_fmap; eapply list.Forall_impl; [exact H|]; apply clean_quoted|done]).
  revert Hr. generalize (if quote then quoted <$> values else values) as r. intros [|v [|v' vs]] Hr; [done|by apply (list.Forall_singleton clean v)|]. rewrite !clean_app. split; [done|]. split; [by apply clean_Join|done].
Qed.

#[local] Hint Resolve clean_itoa clean_id clean_quoted : core.

Section nat.
  Context (zi : zone_map) (Hnames : forall z n, n ∈ default [] (zi !! z) -> id_ok n).

Lemma clean_one_zone key zone : clean key -> Forall clean (one_zone key zone zi).
Proof.
  intros Hk. unfold one_zone. case_bool_decide; [constructor|]. apply list.Forall_singleton. rewrite !clean_app. repeat split; [done|]. apply clean_valueOrSet, list.Forall_forall.
  intros n (z & _ & Hn)%elem_of_sorted_strings%elem_of_zoneInterfaces. eauto.
Qed.

Lemma clean_canonical v t : dotted v -> canonicalIPv4 v = Some t -> clean t.
Proof. intros [H1 H2] H. destruct (canonical_network v t H1 H2 H) as (_ & _ & _ & Hn & _). by apply clean_name. Qed.

Lemma clean_network key v l : clean key -> (v = "" \/ dotted v) -> network_condition key v = Some l -> Forall clean l.
Proof.
  intros Hk Hv. unfold network_condition. case_bool_decide; [by intros [= <-]|]. destruct Hv as [|Hv]; [done|]. destruct (canonicalIPv4 v) as [t|] eqn:E; [|done]. intros [= <-].
  apply list.Forall_singleton. rewrite !clean_app. repeat split; [done|]. by eapply clean_canonical.
Qed.

Lemma clean_v4 x : clean (string_v4 x).
Proof. unfold string_v4. rewrite !clean_app. repeat split; apply clean_itoa || done. Qed.

Lemma clean_target rule : clean (nat_target rule).
Proof.
  unfold nat_target. rewrite clean_app. split; [destruct (_ ≫= _); [apply clean_v4|done]|]. destruct (0 <? _); [|done]. rewrite clean_app. split; [done|apply clean_itoa].
Qed.

(** The parts of a rule that the checks leave. *)
Record nat_checked (rule : NATRule) : Prop := {
  nc_ID : id_ok (nr_ID rule);
  nc_protocol : clean (ToLower (nr_Protocol rule));
  nc_source : nr_SourceNetwork rule = "" \/ dotted (nr_SourceNetwork rule);
  nc_destination : nr_DestinationNetwork rule = "" \/ dotted (nr_DestinationNetwork rule)
}.

Lemma clean_NATRule rule prerouting line : nat_checked rule -> renderNATRule rule zi prerouting = Some line -> clean line.
Proof.
  intros [Hid Hp Hs Hd]. unfold renderNATRule. destruct (network_condition "ip saddr" _) as [sources|] eqn:Es; [|done]. destruct (network_condition "ip daddr" _) as [destinations|] eqn:Ed; [|done]. cbn [mbind option_bind].
  destruct (nat_action rule) as [action|] eqn:Ea; [|done]. cbn [mbind option_bind]. intros [= <-]. apply clean_Join; [done|]. rewrite !list.Forall_app. repeat split.
  - by apply clean_one_zone.
  - destruct prerouting; [constructor|by apply clean_one_zone].
  - by eapply clean_network in Es.
  - by eapply clean_network in Ed.
  - unfold protocol_condition. destruct (0 <? _); [apply list.Forall_singleton; rewrite !clean_app; repeat split; [done|apply clean_itoa]|]. case_bool_decide; [constructor|]. apply list.Forall_singleton. by rewrite clean_app.
  - constructor.
    + unfold nat_action in Ea. case_bool_decide; [by injection Ea as <-|]. do 2 (case_bool_decide; [injection Ea as <-; rewrite clean_app; split; [done|apply clean_target]|]). done.
    + apply list.Forall_singleton. rewrite clean_app. split; [done|]. apply clean_quoted. rewrite !clean_app. repeat split; done || (by apply clean_id) || apply clean_itoa.
Qed.

Lemma clean_guard rule line : nat_checked rule -> renderDNATZoneGuard rule zi = Some line -> clean line.
Proof.
  intros [Hid Hp Hs Hd]. unfold renderDNATZoneGuard. destruct (_ ≫= To4) as [target|]; [|done]. cbn [mbind option_bind]. intros <-%(inj Some). apply clean_Join; [done|]. rewrite !list.Forall_app. repeat split.
  - by apply list.Forall_singleton.
  - by apply clean_one_zone.
  - case_bool_decide as E; [constructor|]. destruct Hs as [Hs|Hs]; [done|]. apply list.Forall_singleton. rewrite clean_app. split; [done|]. destruct (canonicalIPv4 _) as [t|] eqn:Ec; [by eapply clean_canonical|done].
  - apply list.Forall_singleton. rewrite clean_app. split; [done|apply clean_v4].
  - destruct (0 <? _); [apply list.Forall_singleton; rewrite !clean_app; repeat split; [done|apply clean_itoa]|]. case_bool_decide; [constructor|]. apply list.Forall_singleton. by rewrite clean_app.
  - repeat apply list.Forall_cons_2; [|done| |by apply list.Forall_nil_2].
    + rewrite clean_app. split; [done|]. apply clean_valueOrSet, list.Forall_forall. intros n (z & _ & Hn)%elem_of_sorted_strings%elem_of_zoneInterfaces. eauto.
    + rewrite clean_app. split; [done|]. apply clean_quoted. rewrite clean_app. split; [done|by apply clean_id].
Qed.

End nat.

(** ** What the checks leave *)

(** The addresses that reach the table are in dotted form. *)
Record plain_config (config : Config) : Prop := {
  pc_names : NoDup (if_SystemName <$> cf_Interfaces config);
  pc_zones : forall i, i ∈ cf_Interfaces config -> zone_key (if_ZoneID i) = if_ZoneID i;
  pc_addresses : forall policy v, policy ∈ cf_Policies config -> sp_Enabled policy = true -> v ∈ sp_SourceAddresses policy ++ sp_DestinationAddresses policy -> dotted v;
  pc_networks : forall rule v, rule ∈ cf_NATRules config -> nr_Enabled rule = true -> v ∈ [nr_SourceNetwork rule; nr_DestinationNetwork rule] -> v = "" \/ dotted v
}.

Lemma bind_nil {A B} (f : A -> list B) l : l ≫= f = [] -> forall x, x ∈ l -> f x = [].
Proof. induction l as [|y l IH]; cbn; intros E x Hx; [inversion Hx|]. apply app_nil in E as [E1 E2]. rewrite elem_of_cons in Hx. destruct Hx as [-> |Hx]; [done|by apply IH]. Qed.

Section checked.
  Context (config : Config) (Hplain : plain_config config) (Hvalid : validateForRender config (buildZoneInterfaces config) = []).

  #[local] Notation zi := (buildZoneInterfaces config).

Lemma checked_lists : (forall i, i ∈ cf_Interfaces config -> linuxInterfaceName (if_SystemName i) = true) /\
  (forall p, p ∈ cf_Policies config -> render_policy_errors zi p = []) /\ (forall r, r ∈ cf_NATRules config -> render_nat_errors config zi r = []).
Proof.
  pose proof Hvalid as H. unfold validateForRender in H. apply app_nil in H as [H1 H]. apply app_nil in H as [H2 H3].
  split_and!; [|by apply bind_nil..]. intros i Hi. pose proof (bind_nil _ _ H1 i Hi) as E. cbn in E. apply err_if_nil, negb_false_iff in E. done.
Qed.

Lemma interface_chars name : linuxInterfaceName name = true -> id_ok name.
Proof. destruct name as [|c rest]; [done|]. cbn. rewrite !andb_true_iff. intros [[Hc Hr] _]. unfold id_ok. cbn [all_chars]. rewrite Hr. unfold identifier_char. by rewrite Hc. Qed.

Lemma zone_names_ok z n : n ∈ default [] (zi !! z) -> id_ok n.
Proof. intros (i & Hi & _ & <- & _)%elem_of_zone_interfaces. apply interface_chars. by apply checked_lists. Qed.

Lemma checked_interfaces : plain_interfaces config.
Proof. destruct Hplain. split; [done|done|apply checked_lists]. Qed.

Lemma checked_policy policy : policy ∈ cf_Policies config -> sp_Enabled policy = true -> renderable zi policy.
Proof.
  intros Hin Hen. destruct checked_lists as (_ & Hp & _). specialize (Hp policy Hin). unfold render_policy_errors in Hp. rewrite Hen in Hp. cbn [negb] in Hp.
  apply app_nil in Hp as [Ha Hp]. apply app_nil in Hp as [Hid Hp]. apply app_nil in Hp as [Hz Hp]. apply app_nil in Hp as [Had Hs]. apply err_if_nil in Ha, Hid, Had.
  split.
  - apply bool_decide_eq_false_1 in Ha. destruct (policyAction _); [by eexists|done].
  - by apply negb_false_iff in Hid.
  - intros z Hzin. pose proof (bind_nil _ _ Hz z Hzin) as E. cbn in E. apply err_if_nil in E. by apply bool_decide_eq_false_1 in E.
  - intros z n. apply zone_names_ok.
  - intros v Hv. split; [by eapply (pc_addresses _ Hplain)|]. apply bool_decide_eq_false_1 in Had. unfold canonicalIPv4List in Had.
    destruct (mapM canonicalIPv4 (sp_SourceAddresses policy ++ sp_DestinationAddresses policy)) as [ts|] eqn:E; [|done]. clear - E Hv. revert ts E. induction (sp_SourceAddresses policy ++ sp_DestinationAddresses policy) as [|w l IH]; intros ts E; [inversion Hv|].
    cbn in E. destruct (canonicalIPv4 w) as [t|] eqn:Ew; [|done]. cbn in E. destruct (mapM canonicalIPv4 l) as [ts'|]; [|done]. rewrite elem_of_cons in Hv. destruct Hv as [-> |Hv]; [by eexists|]. by eapply IH.
  - intros s Hsin. pose proof (bind_nil _ _ Hs s Hsin) as E. cbn in E. apply err_if_nil, bool_decide_eq_false_1 in E. unfold serviceExpression, service_text in E. destruct (ParseServiceSelector s); [by eexists|done].
Qed.

Lemma checked_nat rule : rule ∈ cf_NATRules config -> nr_Enabled rule = true -> nat_checked rule.
Proof.
  intros Hin Hen. destruct checked_lists as (_ & _ & Hn). specialize (Hn rule Hin). unfold render_nat_errors in Hn. rewrite Hen in Hn. cbn [negb] in Hn.
  apply app_nil in Hn as [Hid Hn]. apply app_nil in Hn as [_ Hn]. apply app_nil in Hn as [_ Hn]. apply app_nil in Hn as [_ Hn]. apply app_nil in Hn as [Hp _]. apply err_if_nil, negb_false_iff in Hid, Hp. split.
  - by apply ValidateIdentifier_chars.
  - apply bool_decide_eq_true_1 in Hp. set_unfold in Hp. destruct Hp as [-> |[-> |[-> |[-> |[]]]]]; done.
  - eapply (pc_networks _ Hplain); [done|done|]. apply list_elem_of_here.
  - eapply (pc_networks _ Hplain); [done|done|]. apply list_elem_of_further, list_elem_of_here.
Qed.

End checked.

(** ** The lines of the rules *)

Lemma render_each_bind {A} (name : A -> string) (render : A -> option (list string)) (text : A -> list string) rules :
  (forall r, r ∈ rules -> exists ls, render r = Some ls /\ map indent ls = text r) -> render_each name render rules = Ok (rules ≫= text).
Proof.
  induction rules as [|r rules IH]; intros H; [done|]. destruct (H r (list_elem_of_here _ _)) as (ls & Hr & Hls). cbn [render_each]. rewrite Hr, IH by (intros x Hx; by apply H, list_elem_of_further). cbn. by rewrite Hls.
Qed.

Lemma render_each_lines {A} (name : A -> string) (f : A -> option string) rules lines : render_each name (fun r => (fun line => [line]) <$> f r) rules = Ok lines ->
  Forall (fun l => exists r line, r ∈ rules /\ f r = Some line /\ l = indent line) lines.
Proof.
  revert lines. induction rules as [|r rules IH]; intros lines; cbn [render_each]; [by intros [= <-]|]. destruct (f r) as [line|] eqn:E; cbn; [|done]. destruct (render_each _ _ rules) as [rest|]; [|done]. cbn. intros [= <-].
  constructor; [exists r, line; split; [apply list_elem_of_here|done]|]. eapply list.Forall_impl; [by apply IH|]. intros l (r' & line' & Hin & ? & ?). exists r', line'. split; [by apply list_elem_of_further|done].
Qed.

(** ** Lines before the forward chain *)

Definition established_rule : string := "ct state invalid drop; ct state established,related accept;".
Definition postrouting_start : string := "  chain nat_postrouting".

Lemma Contains_char c needle l : ContainsByte c needle = true -> free c l -> text_Contains l needle = false.
Proof.
  intros Hn Hl. assert (Hp : forall s, free c s -> HasPrefix s needle = false).
  { clear l Hl. induction needle as [|x needle IH]; [done|]. intros [|y s] Hs; [done|]. rewrite HasPrefix_cons. apply free_cons in Hs as [Hy Hs]. cbn [ContainsByte] in Hn. destruct (Ascii.eqb_spec y x) as [-> |]; [|done]. cbn [andb].
    apply IH; [|done]. apply orb_true_iff in Hn as [Hn%Ascii.eqb_eq|Hn]; [congruence|done]. }
  induction l as [|y l IH]; rewrite Contains_unfold, Hp; [done|done| |done]. apply free_cons in Hl as [_ Hl]. by apply IH.
Qed.

Lemma ReplaceAll_absent c old new l : ContainsByte c old = true -> free c l -> ReplaceAll old new l = l.
Proof.
  intros Hn Hl. unfold ReplaceAll. induction l as [|y l IH]; [done|]. cbn [replace_all]. assert (Hc : HasPrefix (String y l) old = false).
  { destruct (HasPrefix (String y l) old) eqn:E; [|done]. pose proof (Contains_char c old _ Hn Hl) as H. by rewrite Contains_unfold, E in H. }
  rewrite Hc. f_equal. apply IH. by apply free_cons in Hl as [_ Hl].
Qed.

Lemma set_marks_absent order l : free (char_of 34) l -> foldl set_mark l order = l.
Proof.
  intros Hl. induction order as [|[id v] order IH]; [done|]. cbn [foldl]. replace (set_mark l (id, v)) with l; [done|]. symmetry. unfold set_mark. cbn [foldl].
  assert (Hq : forall sfx, ContainsByte (char_of 34) (counted_accept id sfx) = true) by (intros sfx; unfold counted_accept; rewrite ContainsByte_app, quoted_has; apply orb_true_r).
  rewrite (ReplaceAll_absent (char_of 34) (counted_accept id "")) by auto. by apply (ReplaceAll_absent (char_of 34)).
Qed.

(** A line that starts with three spaces goes on doing so, and gets no line end. *)
Definition indented (l : string) : Prop := exists s, l = String space (String space (String space s)) /\ free nl_char s.

Lemma replace_all_free c old new : free c new -> forall s skip, free c s -> free c (replace_all old new skip s).
Proof.
  intros Hnew. induction s as [|x s IH]; intros skip Hs; [done|]. pose proof Hs as [Hx Hs']%free_cons. cbn [replace_all]. destruct skip as [|skip]; [|by apply IH]. destruct (HasPrefix _ _).
  - apply free_app. split; [done|by apply IH].
  - apply free_cons. split; [done|by apply IH].
Qed.

Lemma indented_replace old new l : (exists o, old = String space (String "c" o)) -> (exists n, new = String space n) -> free nl_char new -> indented l -> indented (ReplaceAll old new l).
Proof.
  intros [o ->] [n ->] Hnew (s & -> & Hs). set (old := String space (String "c" o)). unfold ReplaceAll.
  assert (Hstep : forall x, replace_all old (String space n) 0 (String space (String space x)) = String space (replace_all old (String space n) 0 (String space x))).
  { intros x. cbn [replace_all]. unfold old at 1. by rewrite !HasPrefix_cons. }
  rewrite !Hstep. cbn [replace_all]. assert (Hfree : forall k, free nl_char (replace_all old (String space n) k s)) by (intros k; by apply replace_all_free).
  destruct (HasPrefix (String space s) old).
  - rewrite app_cons. eexists. split; [reflexivity|]. apply free_app. split; [by apply free_cons in Hnew as [_ ?]|done].
  - by eexists.
Qed.

Lemma marked_accept_free v id suffix : id_ok id -> is_suffix suffix -> free nl_char (marked_accept v id suffix).
Proof.
  intros Hid Hs. assert (Hclean : clean (marked_accept v id suffix)); [|by eapply all_free; [|exact Hclean]]. unfold marked_accept, counted_accept. rewrite !clean_app. split; [done|]. split; [|split; [done|]].
  - pose proof (hex8_word v) as [[_ H]%andb_true_iff _]. eapply all_chars_impl; [|exact H]. intros c. destruct c as [[] [] [] [] [] [] [] []]; vm_compute; congruence.
  - apply clean_quoted, clean_name. by apply comment_chars.
Qed.

Lemma indented_marks order l : Forall (fun m => id_ok m.1) order -> indented l -> indented (foldl set_mark l order).
Proof.
  revert l. induction order as [|[id v] order IH]; intros l Hids Hl; [done|]. apply list.Forall_cons in Hids as [Hid Hids]. cbn [foldl]. apply IH; [done|]. cbn in Hid. unfold set_mark. cbn [foldl].
  assert (Hone : forall sfx l, is_suffix sfx -> indented l -> indented (ReplaceAll (counted_accept id sfx) (marked_accept v id sfx) l)).
  { intros sfx x Hs Hx. apply indented_replace; [by eexists|by eexists|by apply marked_accept_free|done]. }
  apply Hone; [by right|]. apply Hone; [by left|done].
Qed.

Lemma indented_line l : indented l -> free nl_char l /\ HasPrefix l chain_start = false /\ HasPrefix l postrouting_start = false.
Proof. intros (s & -> & Hs). split; [|done]. unfold free in *. cbn [all_chars]. done. Qed.

(** What the lines before the forward chain must not do. *)
Record quiet_line (l : string) : Prop := {
  ql_free : free nl_char l;
  ql_accept : text_Contains l acceptPolicy = false;
  ql_established : text_Contains l established_rule = false;
  ql_postrouting : HasPrefix l postrouting_start = false;
  ql_marks : forall order, Forall (fun m => id_ok m.1) order -> free nl_char (foldl set_mark l order) /\ HasPrefix (foldl set_mark l order) chain_start = false
}.

Lemma quiet_nat line : clean line -> quiet_line (indent line).
Proof.
  intros Hc. assert (Hf : free ";" line /\ free nl_char line) by (split; (eapply all_free; [|exact Hc]; done)). destruct Hf as [Hsemi Hnl]. assert (Hind : indented (indent line)) by (exists (String space line); split; [done|]; by apply free_cons).
  assert (Hs : free ";" (indent line)) by (unfold indent; by apply free_app). split.
  - by apply indented_line.
  - by apply (Contains_char ";").
  - by apply (Contains_char ";").
  - by apply indented_line.
  - intros order Hids. pose proof (indented_marks order _ Hids Hind) as H. apply indented_line in H as (? & ? & _). done.
Qed.

Lemma quiet_static l : free (char_of 34) l -> free nl_char l -> text_Contains l acceptPolicy = false -> text_Contains l established_rule = false -> HasPrefix l postrouting_start = false -> HasPrefix l chain_start = false -> quiet_line l.
Proof. intros. split; [done..|]. intros order _. by rewrite set_marks_absent. Qed.

(** ** The table *)

Definition enabled_policies (config : Config) : list SecurityPolicy := List.filter sp_Enabled (SortPolicies (cf_Policies config)).

Definition direction_conditions (zi : zone_map) (forward : bool) (policy : SecurityPolicy) : list condition := if forward then forward_conditions policy zi else reverse_conditions policy zi.

Definition comment_suffix (forward : bool) : string := if forward then "" else ":reverse".

(** The lines of a policy in one direction. *)
Definition policy_text (zi : zone_map) (forward : bool) (mark : option Z) (policy : SecurityPolicy) : list string :=
  (fun sc => rule_line (direction_conditions zi forward policy ++ sc) mark (default "" (policyAction (sp_Action policy))) ("policy:" +:+ sp_ID policy +:+ comment_suffix forward)) <$>
    service_conditions forward (sp_Services policy).

Lemma elem_of_enabled config policy : policy ∈ enabled_policies config -> policy ∈ cf_Policies config /\ sp_Enabled policy = true.
Proof. intros [Hin He]%list_elem_of_In%filter_In. split; [|done]. apply list_elem_of_In in Hin. unfold SortPolicies in Hin. by rewrite sort_by_elem_of in Hin. Qed.

Lemma policy_text_render zi policy : renderable zi policy ->
  (exists ls, renderPolicyRules policy zi = Some ls /\ map indent ls = policy_text zi true None policy) /\ (exists ls, renderReversePolicyRules policy zi = Some ls /\ map indent ls = policy_text zi false None policy).
Proof.
  intros Hr. destruct (forward_lines zi policy Hr) as (a & ls & Ha & Hls & Hmap). destruct (reverse_lines zi policy Hr) as (a' & ls' & Ha' & Hls' & Hmap'). unfold policy_text.
  split; [exists ls|exists ls']; split; try done; [rewrite Hmap, Ha|rewrite Hmap', Ha']; done.
Qed.

Definition postrouting_header : string := "  chain nat_postrouting { type nat hook postrouting priority 100; policy accept;".

Section table.
  Context (config : Config) (Hplain : plain_config config) (Hvalid : validateForRender config (buildZoneInterfaces config) = []).

  #[local] Notation zi := (buildZoneInterfaces config).

Lemma enabled_renderable policy : policy ∈ enabled_policies config -> renderable zi policy.
Proof. intros [Hin He]%elem_of_enabled. by apply checked_policy. Qed.

Lemma render_forward : render_each sp_ID (fun policy => renderPolicyRules policy zi) (enabled_policies config) = Ok (enabled_policies config ≫= policy_text zi true None).
Proof. apply render_each_bind. intros policy Hin. by apply policy_text_render, enabled_renderable. Qed.

Lemma render_reverse : render_each sp_ID (fun policy => renderReversePolicyRules policy zi) (enabled_policies config) = Ok (enabled_policies config ≫= policy_text zi false None).
Proof. apply render_each_bind. intros policy Hin. by apply policy_text_render, enabled_renderable. Qed.

Lemma quiet_rules (f : NATRule -> option string) (keep : NATRule -> bool) lines : (forall rule line, nat_checked rule -> f rule = Some line -> clean line) ->
  render_each nr_ID (fun rule => (fun line => [line]) <$> f rule) (List.filter keep (List.filter nr_Enabled (sort_by nat_less (cf_NATRules config)))) = Ok lines -> Forall quiet_line lines.
Proof.
  intros Hf H%render_each_lines. eapply list.Forall_impl; [exact H|]. intros l (rule & line & Hin & Hline & ->). apply quiet_nat. eapply Hf; [|exact Hline].
  apply list_elem_of_In, filter_In in Hin as [[Hin He]%filter_In _]. apply list_elem_of_In in Hin. rewrite sort_by_elem_of in Hin. by apply (checked_nat config).
Qed.

Lemma CompileRuleset_lines text : CompileRuleset config = Ok text -> exists before after, Forall quiet_line before /\
  text = lines_text (before ++ forward_header (if cf_DefaultDeny config then "drop" else "accept") :: (enabled_policies config ≫= policy_text zi true None) ++ "  }" :: postrouting_header :: after).
Proof.
  unfold CompileRuleset. rewrite Hvalid. rewrite bool_decide_eq_true_2 by done. cbn [negb]. fold (enabled_policies config). rewrite render_forward. cbv beta.
  destruct (render_each nr_ID (fun rule => (fun line => [line]) <$> renderNATRule rule zi true) _) as [dnat|] eqn:Ed; [|done].
  destruct (render_each nr_ID (fun rule => (fun line => [line]) <$> renderDNATZoneGuard rule zi) _) as [guards|] eqn:Eg; [|done]. cbn [result_bind].
  destruct (render_each nr_ID (fun rule => (fun line => [line]) <$> renderNATRule rule zi false) _) as [snat|] eqn:Es; [|done]. cbn [result_bind]. intros Ht. apply (f_equal (fun r => match r with Ok x => x | Err _ => "" end)) in Ht. cbv beta iota in Ht. subst text.
  apply quiet_rules in Ed; [|intros rule line; apply clean_NATRule; intros z n; by apply zone_names_ok].
  apply quiet_rules in Eg; [|intros rule line; apply clean_guard; intros z n; by apply zone_names_ok].
  exists (["flush table inet ngfw"; "table inet ngfw {"; "  set temporary_blocks { type ipv4_addr; flags timeout; timeout 5m; }";
     "  chain prerouting { type filter hook prerouting priority -150; policy accept; ip saddr @temporary_blocks drop; }";
     "  chain nat_prerouting { type nat hook prerouting priority -100; policy accept;"] ++ dnat ++ ["  }"; "  chain dnat_zone_guard { type filter hook forward priority -5; policy accept;"] ++ guards ++ ["  }"]), (snat ++ ["  }"; "}"]).
  split.
  - rewrite !list.Forall_app. split_and!; try done; repeat (apply list.Forall_cons_2; [apply quiet_static; vm_compute; reflexivity|]); apply list.Forall_nil_2.
  - rewrite <- !(assoc_L (++)). reflexivity.
Qed.

(** Every rule that passes the checks is rendered. *)
Lemma render_each_total {A} (name : A -> string) (render : A -> option (list string)) rules : (forall r, r ∈ rules -> is_Some (render r)) -> exists lines, render_each name render rules = Ok lines.
Proof.
  induction rules as [|r rules IH]; intros H; [by eexists|]. destruct (H r (list_elem_of_here _ _)) as [ls Hls]. destruct IH as [rest Hrest]; [intros x Hx; by apply H, list_elem_of_further|].
  cbn [render_each]. rewrite Hls, Hrest. by eexists.
Qed.

Lemma lower_upper s : ToLower (ToUpper s) = ToLower s.
Proof. unfold ToLower, ToUpper. induction s as [|c s IH]; [done|]. cbn [map_string]. rewrite IH. f_equal. destruct c as [[] [] [] [] [] [] [] []]; vm_compute; reflexivity. Qed.

Lemma network_rendered key v : network_invalid v = false -> is_Some (network_condition key v).
Proof.
  unfold network_invalid, network_condition. case_bool_decide; [by eexists|]. cbn [negb andb]. intros [Hc _]%orb_false_iff. apply bool_decide_eq_false_1 in Hc. destruct (canonicalIPv4 v); [by eexists|done].
Qed.

Lemma nat_rendered rule : rule ∈ cf_NATRules config -> nr_Enabled rule = true -> (forall prerouting, is_Some (renderNATRule rule zi prerouting)) /\ (is_dnat rule = true -> is_Some (renderDNATZoneGuard rule zi)).
Proof.
  intros Hin Hen. destruct (checked_lists config Hvalid) as (_ & _ & Hn). specialize (Hn rule Hin). unfold render_nat_errors in Hn. rewrite Hen in Hn. cbn [negb] in Hn.
  apply app_nil in Hn as [_ Hn]. apply app_nil in Hn as [Ht Hn]. apply app_nil in Hn as [_ Hn]. apply app_nil in Hn as [_ Hn]. apply app_nil in Hn as [_ Hn]. apply app_nil in Hn as [_ Hn].
  apply app_nil in Hn as [Hs Hn]. apply app_nil in Hn as [Hd Hn]. apply app_nil in Hn as [Ha _]. apply err_if_nil in Ht, Hs, Hd, Ha. split.
  - intros prerouting. unfold renderNATRule. destruct (network_rendered "ip saddr" _ Hs) as [sources ->]. destruct (network_rendered "ip daddr" _ Hd) as [destinations ->]. cbn [mbind option_bind].
    apply negb_false_iff, bool_decide_eq_true_1 in Ht. unfold nat_action. set_unfold in Ht. destruct Ht as [-> |[-> |[-> |[]]]]; by eexists.
  - unfold is_dnat, EqualFold. intros Hdn%bool_decide_eq_true_1. assert (Hup : ToUpper (nr_Type rule) = "DNAT").
    { apply negb_false_iff, bool_decide_eq_true_1 in Ht. set_unfold in Ht. destruct Ht as [E|[E|[E|[]]]]; [| |done]; exfalso; apply (f_equal ToLower) in E; rewrite lower_upper, Hdn in E; done. }
    rewrite Hup in Ha. rewrite bool_decide_eq_true_2 in Ha by set_solver. cbn [andb] in Ha. apply bool_decide_eq_false_1 in Ha. unfold renderDNATZoneGuard. destruct (_ ≫= To4) as [x|]; [by eexists|done].
Qed.

Lemma CompileRuleset_total : exists text, CompileRuleset config = Ok text.
Proof.
  assert (Hin : forall keep rule, rule ∈ List.filter keep (List.filter nr_Enabled (sort_by nat_less (cf_NATRules config))) -> keep rule = true /\ rule ∈ cf_NATRules config /\ nr_Enabled rule = true).
  { intros keep rule [[H He]%filter_In Hk]%list_elem_of_In%filter_In. apply list_elem_of_In in H. by rewrite sort_by_elem_of in H. }
  unfold CompileRuleset. rewrite Hvalid, bool_decide_eq_true_2 by done. cbn [negb]. fold (enabled_policies config). rewrite render_forward. cbv beta.
  destruct (render_each_total nr_ID (fun rule => (fun line => [line]) <$> renderNATRule rule zi true) (List.filter is_dnat (List.filter nr_Enabled (sort_by nat_less (cf_NATRules config))))) as [dnat ->].
  { intros rule (_ & H1 & H2)%Hin. apply fmap_is_Some. by apply nat_rendered. }
  destruct (render_each_total nr_ID (fun rule => (fun line => [line]) <$> renderDNATZoneGuard rule zi) (List.filter is_dnat (List.filter nr_Enabled (sort_by nat_less (cf_NATRules config))))) as [guards ->].
  { intros rule (H0 & H1 & H2)%Hin. apply fmap_is_Some. by apply nat_rendered. }
  destruct (render_each_total nr_ID (fun rule => (fun line => [line]) <$> renderNATRule rule zi false) (List.filter (fun rule => negb (is_dnat rule)) (List.filter nr_Enabled (sort_by nat_less (cf_NATRules config))))) as [snat ->].
  { intros rule (_ & H1 & H2)%Hin. apply fmap_is_Some. by apply nat_rendered. }
  cbn [result_bind]. by eexists.
Qed.

End table.

(** * The forward chain that the kernel reads *)

(** ** The header *)

(** Rules on the header's line, each ended by a semicolon. *)
Lemma Join_statements r rules : " " +:+ strings_Join "; " (r :: rules) +:+ ";" = statements (r :: rules).
Proof.
  revert r. induction rules as [|r' rules IH]; intros r; rewrite statements_cons; [done|]. rewrite <- IH.
  change (strings_Join "; " (r :: r' :: rules)) with (r +:+ "; " +:+ strings_Join "; " (r' :: rules)). rewrite !app_assoc_s. done.
Qed.

Definition cached_values (options : M2CompileOptions) : list Z :=
  if caching options then sorted_slots options ≫= fun src => sorted_slots options ≫= fun dst => [cache_value (co_Epoch options) src dst] else [].

Definition cached_rule (v : Z) : string := "ct state established ct mark & 0xffffff00 == " +:+ hex8 v +:+ " accept".

Lemma fmap_bind {A B C} (f : B -> C) (g : A -> list B) (l : list A) : f <$> (l ≫= g) = l ≫= (fun x => f <$> g x).
Proof. induction l as [|x l IH]; [done|]. rewrite !bind_cons, fmap_app. by rewrite IH. Qed.

Lemma cache_rules_values options : cache_rules options = cached_rule <$> cached_values options.
Proof.
  unfold cache_rules, cached_values. destruct (caching options); [|done].
  assert (H : forall dsts srcs, (srcs ≫= fun src => dsts ≫= fun dst => [cached_rule (cache_value (co_Epoch options) src dst)]) = cached_rule <$> (srcs ≫= fun src => dsts ≫= fun dst => [cache_value (co_Epoch options) src dst])).
  { intros dsts srcs. rewrite fmap_bind. apply list_bind_ext; [|done]. intros src. by rewrite fmap_bind. }
  apply H.
Qed.

Lemma cached_rule_words v : " " +:+ cached_rule v = spaced (replicate 0 "" ++ condition_words (cached_condition v) ++ ["accept"]).
Proof. unfold cached_rule. reflexivity. Qed.

Definition chain_header (options : M2CompileOptions) : string := chain_start +:+ "drop;" +:+ statements ("ct state invalid drop" :: (cached_rule <$> cached_values options)).

Lemma header_replaced options new : new = "ct state invalid drop;" +:+ (if bool_decide (cache_rules options = []) then "" else " " +:+ strings_Join "; " (cache_rules options) +:+ ";") ->
  Replace1 established_rule new (forward_header "drop") = chain_header options.
Proof.
  intros ->. transitivity (chain_start +:+ "drop; " +:+ ("ct state invalid drop;" +:+ (if bool_decide (cache_rules options = []) then "" else " " +:+ strings_Join "; " (cache_rules options) +:+ ";")) +:+ "").
  - generalize ("ct state invalid drop;" +:+ (if bool_decide (cache_rules options = []) then "" else " " +:+ strings_Join "; " (cache_rules options) +:+ ";")). intros new. vm_compute. reflexivity.
  - rewrite app_empty_r. unfold chain_header. rewrite statements_cons, cache_rules_values. destruct (cached_values options) as [|v vs]; [reflexivity|]. rewrite bool_decide_eq_false_2 by done. rewrite fmap_cons, Join_statements. reflexivity.
Qed.

Lemma cached_rule_free v : free ";" (cached_rule v) /\ free nl_char (cached_rule v) /\ free (char_of 34) (cached_rule v).
Proof.
  pose proof (hex8_word v) as [Ht _]. apply tokenb_free in Ht as (_ & _ & Hn & Hs). unfold cached_rule. rewrite !free_app. split_and!; try done.
  unfold hex8. rewrite free_app. split; [done|]. pose proof (be_bytes_bytes 4 v) as Hb. revert Hb. generalize (be_bytes 4 v) as l. induction 1 as [|b l Hb _ IH]; [done|]. unfold is_byte in Hb. cbn [hex_EncodeToString].
  assert (Hd : forall d, 0 <= d < 16 -> hex_digit d <> char_of 34).
  { intros d Hd E. pose proof (read_hex_digit d Hd) as Hr. rewrite E in Hr. done. }
  rewrite !free_cons. split_and!; [apply Hd|apply Hd|done]; [split; [apply Z.div_pos; lia|apply Z.div_lt_upper_bound; lia]|apply Z.mod_pos_bound; lia].
Qed.

Definition invalid_rule : nft_rule := mkNftRule [OnState [CtInvalid]] None NftDrop.

Definition cached_nft (v : Z) : nft_rule := mkNftRule [OnState [CtEstablished]; OnMark 4294967040 v] None NftAccept.

Lemma cached_line v : 0 <= v < 2 ^ 32 -> line_rule (cached_rule v) (cached_nft v).
Proof.
  intros Hv. assert (H : line_rule (" " +:+ cached_rule v) (cached_nft v)).
  { rewrite cached_rule_words. apply (line_rule_words 0 (cached_condition v) None ["accept"] NftAccept); [by apply cached_condition_ok|by repeat constructor| |done].
    exists "accept". split; [done|by left]. }
  unfold line_rule in *. by rewrite words_space in H.
Qed.

Lemma invalid_line : line_rule "ct state invalid drop" invalid_rule.
Proof.
  exists [(OnState [CtInvalid], ["ct"; "state"; "invalid"])], ["drop"]. split_and!; [|reflexivity|reflexivity| |done].
  - apply list.Forall_singleton. by constructor.
  - exists "drop". split; [done|by left].
Qed.

Lemma cached_values_range options v : v ∈ cached_values options -> 0 <= v < 2 ^ 32.
Proof.
  unfold cached_values. destruct (caching options); [|intros H; inversion H]. intros (src & H & _)%list_elem_of_bind. apply list_elem_of_bind in H as (dst & ->%list_elem_of_singleton & _). apply cache_value_range.
Qed.

(** The rules on the header's line. *)
Definition header_rules (options : M2CompileOptions) : list string := "ct state invalid drop" :: (cached_rule <$> cached_values options).

Lemma header_lines options : Forall2 line_rule (header_rules options) (invalid_rule :: (cached_nft <$> cached_values options)) /\ Forall (free ";") (header_rules options).
Proof.
  assert (Hr : Forall (fun v => 0 <= v < 2 ^ 32) (cached_values options)) by (apply list.Forall_forall; intros v; apply cached_values_range). split.
  - constructor; [apply invalid_line|]. induction Hr as [|v vs Hv _ IH]; [constructor|]. rewrite !fmap_cons. constructor; [by apply cached_line|exact IH].
  - constructor; [done|]. apply list.Forall_fmap, list.Forall_forall. intros v _. exact (proj1 (cached_rule_free v)).
Qed.

Lemma chain_header_free options : free nl_char (chain_header options) /\ free (char_of 34) (chain_header options).
Proof.
  unfold chain_header. rewrite !free_app. assert (H : forall c, c = nl_char \/ c = char_of 34 -> free c (statements ("ct state invalid drop" :: (cached_rule <$> cached_values options)))).
  { intros c Hc. rewrite statements_cons, !free_app. split_and!; [by destruct Hc as [-> | ->]..|]. induction (cached_values options) as [|v vs IH]; [done|]. rewrite fmap_cons, statements_cons, !free_app.
    split_and!; [by destruct Hc as [-> | ->]| |by destruct Hc as [-> | ->]|done]. destruct (cached_rule_free v) as (_ & ? & ?). by destruct Hc as [-> | ->]. }
  split_and!; [reflexivity|reflexivity|by apply H; left|reflexivity|reflexivity|by apply H; right].
Qed.

(** ** The lines of the table *)

Lemma spaced_free c ws : c <> space -> Forall (free c) ws -> free c (spaced ws).
Proof. intros Hc. induction 1 as [|w ws Hw _ IH]; [done|]. rewrite spaced_cons. apply free_cons. split; [congruence|]. by apply free_app. Qed.

Lemma rule_line_indented cs mark action comment : Forall condition_ok cs -> tokenb action = true -> all_chars name_char comment = true -> indented (rule_line cs mark action comment).
Proof.
  intros Hcs Ha Hc. exists (spaced (rule_words cs mark action comment)). split; [done|]. apply spaced_free; [done|]. eapply list.Forall_impl; [by apply rule_words_ok|]. intros w Hw. by apply tokenb_free.
Qed.

Lemma set_marks_lines order ls : Forall (fun m => id_ok m.1) order -> foldl set_mark (lines_text ls) order = lines_text (map (fun l => foldl set_mark l order) ls).
Proof.
  revert ls. induction order as [|[id v] order IH]; intros ls Hids; cbn [foldl]; [by rewrite map_id|]. apply list.Forall_cons in Hids as [Hid Hids]. cbn in Hid.
  assert (Hone : set_mark (lines_text ls) (id, v) = lines_text (map (fun l => set_mark l (id, v)) ls)).
  { unfold set_mark. cbn [foldl]. assert (Hfree : forall sfx, is_suffix sfx -> free nl_char (counted_accept id sfx)).
    { intros sfx Hs. assert (Hc : clean (counted_accept id sfx)); [|by eapply all_free; [|exact Hc]]. unfold counted_accept. apply clean_app. split; [done|]. apply clean_quoted, clean_name. by apply comment_chars. }
    rewrite !ReplaceAll_lines by (done || (apply Hfree; by (left + right))). by rewrite map_map. }
  rewrite Hone, IH, map_map by done. done.
Qed.

Lemma Replace1_lines_two a b new ls r : free nl_char a -> free nl_char b -> Forall (fun l => free nl_char l /\ HasPrefix l b = false) ls -> HasPrefix r b = false ->
  Replace1 (a +:+ newline +:+ b) new (lines_text ls +:+ r) = lines_text ls +:+ Replace1 (a +:+ newline +:+ b) new r.
Proof.
  intros Ha Hb Hls Hr. induction Hls as [|l ls [Hl _] Hls IH]; [done|]. rewrite lines_text_cons, !app_assoc_s, Replace1_two_lines; [by rewrite IH|done|done|].
  destruct Hls as [|l' ls [Hl' Hp] _]; [done|]. rewrite lines_text_cons, !app_assoc_s, newline_app. by rewrite HasPrefix_before.
Qed.

Definition runtime_lines : list string :=
  ["table inet ngfw_runtime {"; "  set source_blocks { type ipv4_addr; flags timeout; timeout 5m; }"; "  set revoked_ctids { typeof ct id; }";
   "  chain forward_guard { type filter hook forward priority -20; policy accept; ct id @revoked_ctids drop; ip saddr @source_blocks drop; ip daddr @source_blocks drop; }"; "}"].

Definition default_line : string := rule_line [] None "accept" "default:allow".

Lemma default_line_text : indent ("counter accept comment " +:+ quoted "default:allow") = default_line.
Proof. reflexivity. Qed.

(** The lines of the forward chain after its header, before marking. *)
Definition chain_lines (config : Config) : list string :=
  (enabled_policies config ≫= policy_text (buildZoneInterfaces config) true None) ++ (enabled_policies config ≫= policy_text (buildZoneInterfaces config) false None) ++
  (if cf_DefaultDeny config then [] else [default_line]).

Section chain.
  Context (config : Config) (options : M2CompileOptions) (order : list (string * Z)) (Hplain : plain_config config).
  Context (Hids : Forall (fun m => id_ok m.1) order).

  #[local] Notation zi := (buildZoneInterfaces config).

Lemma CompileRuleset_valid text : CompileRuleset config = Ok text -> validateForRender config zi = [].
Proof. unfold CompileRuleset. destruct (bool_decide (validateForRender config zi = [])) eqn:E; [by apply bool_decide_eq_true_1 in E|done]. Qed.

Lemma policy_text_indented forward mark policy : renderable zi policy -> Forall indented (policy_text zi forward mark policy).
Proof.
  intros Hr. unfold policy_text. apply list.Forall_fmap. pose proof (service_conditions_ok zi policy Hr forward) as Hs. eapply list.Forall_impl; [exact Hs|]. intros sc Hsc. cbn. destruct (rd_action _ _ Hr) as [a Ha]. apply rule_line_indented.
  - apply list.Forall_app. split; [|done]. destruct forward; [by apply forward_conditions_ok|by apply reverse_conditions_ok].
  - rewrite Ha. cbn. by apply is_action_word, (policyAction_word policy).
  - apply comment_chars; [|destruct forward; [by left|by right]]. by apply ValidateIdentifier_chars, (rd_ID _ _ Hr).
Qed.

(** The lines for the reply direction and the default come before the brace. *)
Lemma replaced_tail before after rev dflt : Forall quiet_line before -> validateForRender config zi = [] ->
  let fwd := enabled_policies config ≫= policy_text zi true None in
  exists after', (if bool_decide (rev ++ dflt = []) then lines_text (before ++ chain_header options :: fwd ++ "  }" :: postrouting_header :: after)
    else Replace1 ("  }" +:+ newline +:+ "  chain nat_postrouting") (lines_text (rev ++ dflt) +:+ "  }" +:+ newline +:+ newline +:+ "  chain nat_postrouting")
      (lines_text (before ++ chain_header options :: fwd ++ "  }" :: postrouting_header :: after))) = lines_text (before ++ chain_header options :: (fwd ++ rev ++ dflt) ++ "  }" :: after').
Proof.
  intros Hquiet Hvalid fwd. case_bool_decide as E; [exists (postrouting_header :: after); rewrite E, app_nil_r; done|]. exists ("" :: postrouting_header :: after).
  replace (lines_text (before ++ chain_header options :: fwd ++ "  }" :: postrouting_header :: after)) with
    (lines_text (before ++ chain_header options :: fwd) +:+ ("  }" +:+ newline +:+ postrouting_start) +:+ " { type nat hook postrouting priority 100; policy accept;" +:+ newline +:+ lines_text after).
  2: { replace (before ++ chain_header options :: fwd ++ "  }" :: postrouting_header :: after) with ((before ++ chain_header options :: fwd) ++ "  }" :: postrouting_header :: after) by (by rewrite <- (assoc_L (++))).
    rewrite (lines_text_app (before ++ _)). reflexivity. }
  fold postrouting_start. rewrite Replace1_lines_two; [|done|done| |done].
  - rewrite Replace1_here. replace (before ++ chain_header options :: (fwd ++ rev ++ dflt) ++ "  }" :: "" :: postrouting_header :: after) with
      ((before ++ chain_header options :: fwd) ++ (rev ++ dflt) ++ "  }" :: "" :: postrouting_header :: after) by (rewrite <- !(assoc_L (++)); done).
    rewrite (lines_text_app (before ++ _)), (lines_text_app (rev ++ dflt)). rewrite !app_assoc_s. reflexivity.
  - apply list.Forall_app. split; [eapply list.Forall_impl; [exact Hquiet|]; intros l Hl; exact (conj (ql_free _ Hl) (ql_postrouting _ Hl))|]. apply list.Forall_cons. split; [split; [exact (proj1 (chain_header_free options))|reflexivity]|].
    unfold fwd. apply list.Forall_bind, list.Forall_forall. intros policy Hin. eapply list.Forall_impl; [apply policy_text_indented; by apply enabled_renderable|]. intros l Hl. apply indented_line in Hl as (? & _ & ?). done.
Qed.

Lemma CompileM2Ruleset_lines ruleset : CompileRuleset config = Ok ruleset -> exists text before after, CompileM2Ruleset config options order = Ok text /\ Forall quiet_line before /\
  text = lines_text (runtime_lines ++ map (fun l => foldl set_mark l order) (before ++ chain_header options :: chain_lines config ++ "  }" :: after)).
Proof.
  intros Ec. unfold CompileM2Ruleset. rewrite Ec. cbn [result_bind]. pose proof (CompileRuleset_valid _ Ec) as Hvalid.
  destruct (CompileRuleset_lines config Hplain Hvalid _ Ec) as (before & after & Hquiet & ->). clear Ec. set (fwd := enabled_policies config ≫= policy_text zi true None). set (rest := fwd ++ "  }" :: postrouting_header :: after).
  rewrite Contains_lines by (done || destruct (cf_DefaultDeny config); reflexivity). cbn [negb].
  assert (Hpolicy : (if cf_DefaultDeny config then Ok (lines_text (before ++ forward_header (if cf_DefaultDeny config then "drop" else "accept") :: rest))
    else if negb (text_Contains (lines_text (before ++ forward_header (if cf_DefaultDeny config then "drop" else "accept") :: rest)) acceptPolicy) then Err RenderText
    else Ok (Replace1 acceptPolicy dropPolicy (lines_text (before ++ forward_header (if cf_DefaultDeny config then "drop" else "accept") :: rest)))) = Ok (lines_text (before ++ forward_header "drop" :: rest))).
  { destruct (cf_DefaultDeny config); [done|]. rewrite Contains_lines by done. cbn [negb]. rewrite Replace1_lines; [done|done|done| |done]. eapply list.Forall_impl; [exact Hquiet|]. intros l. apply ql_accept. }
  rewrite Hpolicy. cbn [result_bind]. fold established_rule. rewrite (Replace1_lines established_rule); [|done|done| |done].
  2: { eapply list.Forall_impl; [exact Hquiet|]. intros l. apply ql_established. }
  rewrite (header_replaced options _ eq_refl). fold (enabled_policies config). rewrite render_reverse by done. cbn [result_bind].
  set (rev := enabled_policies config ≫= policy_text zi false None). set (dflt := if cf_DefaultDeny config then [] else _).
  unfold rest, fwd. destruct (replaced_tail before after rev dflt Hquiet Hvalid) as (after' & ->). eexists _, before, after'. split; [reflexivity|]. split; [done|].
  rewrite set_marks_lines by done. unfold runtimeTable. fold runtime_lines. rewrite <- lines_text_app. unfold chain_lines. reflexivity.
Qed.

(** ** Reading the chain *)

(** The mark that a policy's accepting lines set. *)
Definition line_mark (policy : SecurityPolicy) : option Z :=
  if word_is (default "" (policyAction (sp_Action policy))) "accept" then (list_to_map order : gmap string Z) !! sp_ID policy else None.

Definition action_verdict (action : Decision) : nft_verdict :=
  match action with DecisionAllow => NftAccept | DecisionReject => NftReject | _ => NftDrop end.

Definition policy_nft (forward : bool) (policy : SecurityPolicy) : list nft_rule :=
  (fun sc => mkNftRule (fst <$> direction_conditions zi forward policy ++ sc) (line_mark policy) (action_verdict (sp_Action policy))) <$> service_conditions forward (sp_Services policy).

Definition default_rule : nft_rule := mkNftRule [] None NftAccept.

Definition chain_rules : list nft_rule :=
  (enabled_policies config ≫= policy_nft true) ++ (enabled_policies config ≫= policy_nft false) ++ (if cf_DefaultDeny config then [] else [default_rule]).

Context (Hnodup : NoDup order.*1) (Hvalues : Forall (fun m => 0 <= m.2 < 2 ^ 32) order).

Lemma marks_policy_text forward policy : renderable zi policy -> map (fun l => foldl set_mark l order) (policy_text zi forward None policy) = policy_text zi forward (line_mark policy) policy.
Proof.
  intros Hr. unfold policy_text. pose proof (service_conditions_ok zi policy Hr forward) as Hs. induction Hs as [|sc l Hsc _ IH]; [done|]. rewrite !fmap_cons. f_equal; [|exact IH].
  destruct (rd_action _ _ Hr) as [a Ha]. rewrite set_marks_line.
  - unfold line_mark. destruct (word_is _ "accept"); [|done]. by destruct (_ !! sp_ID policy).
  - apply list.Forall_app. split; [|done]. destruct forward; [by apply forward_conditions_ok|by apply reverse_conditions_ok].
  - rewrite Ha. by apply (policyAction_word policy).
  - by apply ValidateIdentifier_chars, (rd_ID _ _ Hr).
  - destruct forward; [by left|by right].
  - done.
  - done.
  - by left.
Qed.

Lemma line_mark_range policy : match line_mark policy with Some m => 0 <= m < 2 ^ 32 | None => True end.
Proof.
  unfold line_mark. destruct (word_is _ _); [|done]. destruct (_ !! sp_ID policy) as [v|] eqn:E; [|done]. apply elem_of_list_to_map_2 in E. eapply list.Forall_forall in Hvalues; [|exact E]. done.
Qed.

Lemma policy_text_rules forward policy : renderable zi policy -> Forall2 (fun l r => line_rule l r /\ indented l) (policy_text zi forward (line_mark policy) policy) (policy_nft forward policy).
Proof.
  intros Hr. pose proof (policy_text_indented forward (line_mark policy) policy Hr) as Hind. revert Hind. unfold policy_text, policy_nft. pose proof (service_conditions_ok zi policy Hr forward) as Hs.
  induction Hs as [|sc l Hsc _ IH]; intros Hind; [constructor|]. rewrite !fmap_cons in *. apply list.Forall_cons in Hind as [Hl Hind]. constructor; [|by apply IH]. split; [|done].
  destruct (rd_action _ _ Hr) as [a Ha]. assert (Hcs : Forall condition_ok (direction_conditions zi forward policy ++ sc)).
  { apply list.Forall_app. split; [|done]. destruct forward; [by apply forward_conditions_ok|by apply reverse_conditions_ok]. }
  assert (Hw : Forall (fun w => tokenb w = true) (condition_words (direction_conditions zi forward policy ++ sc) ++ mark_words (line_mark policy) ++ verdict_words a ("policy:" +:+ sp_ID policy +:+ comment_suffix forward))).
  { apply rule_words_ok; [done| |].
    - by apply is_action_word, (policyAction_word policy).
    - apply comment_chars; [by apply ValidateIdentifier_chars, (rd_ID _ _ Hr)|destruct forward; [by left|by right]]. }
  apply list.Forall_app in Hw as [_ Hw]. unfold rule_line, rule_words. rewrite Ha. cbn [from_option id].
  apply (line_rule_words 3 _ (line_mark policy) (verdict_words a _) (action_verdict (sp_Action policy))); [done|exact Hw| |apply line_mark_range].
  exists a. split; [destruct (sp_Action policy); cbn in Ha; (discriminate Ha || by injection Ha as <-)|]. right. by eexists.
Qed.

Lemma set_marks_default : foldl set_mark default_line order = default_line.
Proof.
  revert Hids. clear. induction order as [|[id v] l IH]; intros Hids; [done|]. apply list.Forall_cons in Hids as [Hid Hids]. cbn [foldl]. replace (set_mark default_line (id, v)) with default_line; [by apply IH|].
  symmetry. unfold set_mark, default_line. cbn [foldl]. cbn in Hid. assert (Hne : forall sfx, is_suffix sfx -> ReplaceAll (counted_accept id sfx) (marked_accept v id sfx) (rule_line [] None "accept" "default:allow") = rule_line [] None "accept" "default:allow").
  { intros sfx Hs. rewrite replace_mark by (done || (by left)). done. }
  rewrite !Hne by (first [by left|by right]). done.
Qed.

(** The lines of the chain and their rules. *)
Lemma chain_lines_rules : validateForRender config zi = [] ->
  Forall2 (fun l r => line_rule l r /\ indented l) (map (fun l => foldl set_mark l order) (chain_lines config)) chain_rules.
Proof.
  intros Hvalid. unfold chain_lines, chain_rules. rewrite !map_app. assert (Hdir : forall forward, Forall2 (fun l r => line_rule l r /\ indented l)
    (map (fun l => foldl set_mark l order) (enabled_policies config ≫= policy_text zi forward None)) (enabled_policies config ≫= policy_nft forward)).
  { intros forward. assert (Hr : Forall (renderable zi) (enabled_policies config)) by (apply list.Forall_forall; intros policy; by apply enabled_renderable).
    induction Hr as [|policy l Hp _ IH]; [constructor|]. rewrite !bind_cons, map_app. apply Forall2_app; [|done]. rewrite marks_policy_text by done. by apply policy_text_rules. }
  repeat apply Forall2_app; [apply Hdir|apply Hdir|]. destruct (cf_DefaultDeny config); [constructor|]. constructor; [|constructor]. rewrite set_marks_default. split; [|by eexists].
  apply (line_rule_words 3 [] None (verdict_words "accept" "default:allow") NftAccept); [constructor|by repeat constructor| |done]. exists "accept". split; [done|]. right. by eexists.
Qed.

Lemma Split_lines ls more : Forall (free nl_char) ls -> Split nl_char (lines_text (ls ++ more)) = ls ++ Split nl_char (lines_text more).
Proof. induction 1 as [|l ls Hl _ IH]; [done|]. cbn [app]. rewrite lines_text_cons, newline_app, Split_one by done. by rewrite IH. Qed.

(** The chain of the compiled text. *)
Lemma compiled_chain ruleset : CompileRuleset config = Ok ruleset -> exists text, CompileM2Ruleset config options order = Ok text /\
  exists before lines after, Split (char_of 10) text = before ++ (chain_start +:+ "drop" +:+ ";" +:+ statements (header_rules options)) :: lines ++ "  }" :: after /\
    Forall (fun l => HasPrefix l chain_start = false) before /\ Forall (fun l => l <> "  }") lines /\
    Forall2 line_rule (header_rules options ++ lines) ((invalid_rule :: (cached_nft <$> cached_values options)) ++ chain_rules).
Proof.
  intros Ec. destruct (CompileM2Ruleset_lines _ Ec) as (text & before & after & Ht & Hquiet & Hlines). exists text. split; [done|]. clear Ht. subst text. pose proof (chain_lines_rules (CompileRuleset_valid _ Ec)) as Hrules. set (mk := fun l => foldl set_mark l order) in *.
  destruct (chain_header_free options) as [Hnl Hdq]. rewrite map_app. cbn [map]. rewrite map_app. cbn [map].
  replace (mk (chain_header options)) with (chain_header options) by (symmetry; by apply set_marks_absent). replace (mk "  }") with "  }" by (symmetry; by apply set_marks_absent).
  assert (Hb : Forall (fun l => free nl_char l /\ HasPrefix l chain_start = false) (map mk before)).
  { apply list.Forall_fmap. eapply list.Forall_impl; [exact Hquiet|]. intros l Hl. by apply ql_marks. }
  assert (Hc : Forall (free nl_char) (map mk (chain_lines config))).
  { clear - Hrules. induction Hrules as [|l r ls rs [_ Hl] _ IH]; constructor; [by apply indented_line|done]. }
  replace (runtime_lines ++ map mk before ++ chain_header options :: map mk (chain_lines config) ++ "  }" :: map mk after) with
    ((runtime_lines ++ map mk before ++ chain_header options :: map mk (chain_lines config) ++ ["  }"]) ++ map mk after) by (by rewrite <- !(assoc_L (++)); cbn; rewrite <- !(assoc_L (++))).
  change (char_of 10) with nl_char. rewrite Split_lines.
  - exists (runtime_lines ++ map mk before), (map mk (chain_lines config)), (Split nl_char (lines_text (map mk after))). split_and!.
    + rewrite <- !(assoc_L (++)). cbn [app]. rewrite <- !(assoc_L (++)). reflexivity.
    + apply list.Forall_app. split; [by repeat constructor|]. eapply list.Forall_impl; [exact Hb|]. by intros l [_ ?].
    + clear - Hrules. induction Hrules as [|l r ls rs [_ (s & -> & _)] _ IH]; [constructor|]. constructor; [done|exact IH].
    + apply Forall2_app; [apply header_lines|]. eapply Forall2_impl; [exact Hrules|]. by intros l r [? _].
  - apply list.Forall_app. split; [by repeat constructor|]. apply list.Forall_app. split; [eapply list.Forall_impl; [exact Hb|]; by intros l [? _]|]. constructor; [done|]. apply list.Forall_app. split; [done|]. by apply list.Forall_singleton.
Qed.

End chain.
