(* ===== verification/RulesetProps.v ===== *)
(** * The kernel's policy table decides as the connectivity program

    [CompileM2Ruleset] writes a table whenever its checks pass, and for any nft with the
    documented meaning of the lines the forward chain of the text drops invalid packets,
    accepts established ones with a current cache mark, and decides the others by the
    first rule of the compiled program that matches them, from their own end or, for a
    reply that none matches, from the other. *)

From Stdlib Require Import Ascii.
From S2P Require Import Prelude GoStr Bytes Netip GoNet Domain Flow Config Services TLSExclusion ConnProps Validate Validator Mark Connectivity Service Guards NftModel Ruleset NftText RulesetLines RulesetForward.

#[local] Open Scope string_scope.
#[local] Open Scope list_scope.
#[local] Open Scope Z_scope.

(** ** What the table should do *)




(** ** Marks *)



Section decide.
  Context (config : Config) (options : M2CompileOptions) (order : list (string * Z)) (gen : Z) (program : Program).
  Context (Hplain : plain_config config) (Horder : order ≡ₚ map_to_list (markByPolicy config options)) (Hprogram : Compile config gen = Ok program).
  Context (Hvalid : validateForRender config (buildZoneInterfaces config) = []).

  #[local] Notation zi := (buildZoneInterfaces config).











End decide.



(** ** An example *)








(** ** Replies *)






